(* ===== verification/_CoqProject ===== *)
-Q . S2P
Prelude.v
PyHeap.v
PyStr.v
PyNum.v
PyDict.v
GroupBy.v
Json.v
SeqlenBalancing.v
Rlsd.v
PromptAssembly.v
MathReward.v
Scorer.v
TeacherBatch.v
Padding.v
TrainerHook.v
MessageQueue.v
LLMServer.v
BucketedTransfer.v
ReplayBuffer.v
ContinuousToken.v
ToolAgentLoop.v
DataPrep.v
TorchFunctional.v
Groupwise.v
Advantages.v
PolicyLoss.v
Metrics.v
ActorLoss.v
RolloutCorrection.v
RolloutPresets.v
DataProto.v
Dispatch.v
Balance.v
PyRat.v
PyRegex.v
RateLimiter.v
FullyAsync.v
StepMetrics.v
RewardManagers.v
RewardLoop.v
Gsm8kScore.v
HendrycksScore.v
DapoScore.v
QaScore.v
Uplift.v
Splits.v
PiShard.v
SftData.v
EvalSummary.v
HparamMatrix.v
ToolParser.v
Checkpoint.v
RolloutRequest.v
WeightSync.v
StepAdvantage.v
Upsample.v
AgentLoopBatch.v
RolloutGroup.v
TrainerLoop.v
DistillKL.v
DistillLoss.v
ContextParallel.v
