(* ===== verification/Prelude.v ===== *)
(** * A verification library for ExtPI-RLSD

    ExtPI-RLSD trains a language model with reinforcement learning and token-level
    self-distillation from a teacher that sees privileged information (PI: a worked
    solution).  It is a fork of the verl trainer.  One training step runs as follows; the
    files in brackets model the code of that stage.

    - Data.  The tools of [src/tools/extpi_rlsd] normalise problems, remove duplicates and
      samples that overlap an evaluation set, and write JSON rows [DataPrep, Json].  A language
      model writes traces, which are verified and logged [PiShard]; measurements of how much a
      trace helps choose the frontier of trainable problems [Uplift] and its splits and controls
      [Splits]; other rows go to supervised training [SftData].
    - Prompts.  Student, PI-teacher and direct prompts are rendered from three templates; a
      guard refuses student prompts that carry privileged text [PromptAssembly].
    - Rollout.  A load balancer picks a server for each request and an aborted generation is
      resumed [LLMServer]; the tool agent loop alternates generation and tool calls
      [ToolAgentLoop] that a parser finds in the text [ToolParser], on prompts that keep the
      generated tokens exactly [ContinuousToken]; multi-turn requests collect their own masks
      [RolloutRequest].  Workers roll out whole batches [AgentLoopBatch], or prompts in
      concurrent sessions whose outputs go through the transfer queue [RolloutGroup].
      Weights reach the servers in buckets, through shared memory [BucketedTransfer] or over a
      collective [WeightSync].  In asynchronous training
      samples pass through a queue [MessageQueue] between a rollouter and a trainer that bound
      the staleness of what is generated [FullyAsync], their metrics are aggregated
      [StepMetrics], and finished prompts go through a replay buffer [ReplayBuffer].
    - Batches.  Everything is exchanged as a [DataProto] [DataProto], split over the workers of
      a group and collected again [Dispatch], balanced by sequence length [SeqlenBalancing,
      Balance], filled up to what the workers divide [Upsample], and converted between padded
      and padding-free layouts [Padding] or cut for context-parallel ranks [ContextParallel].
    - Reward.  The answer in the last box is compared with the reference [MathReward], or a
      data source chooses its rule [Gsm8kScore, HendrycksScore, DapoScore, QaScore]; managers
      turn scores into rewards [RewardManagers], spread over workers [RewardLoop], and calls to
      an external judge are limited in rate [RateLimiter].
    - Advantages.  Estimators over groups of responses [Groupwise, Advantages] with the
      masked statistics of [TorchFunctional], chosen and fed by the training step
      [StepAdvantage].
    - Teacher.  The trainer hook builds teacher batches whose responses are the student's
      tokens [TeacherBatch], scores them with an external teacher [Scorer] or with the
      worker's own model, and adds the teacher log probabilities and the RLSD weight to the
      batch [TrainerHook].
    - Update.  The workers compute the loss: RLSD or OPD-PG advantages [Rlsd], a policy loss
      and its aggregation [PolicyLoss], rollout correction [RolloutCorrection,
      RolloutPresets], all together in [ActorLoss]; metrics are reduced over micro-batches
      and workers [Metrics].  Distillation adds a loss to the teacher's top-k tokens
      [DistillKL] next to the policy loss [DistillLoss].
    - The loop.  [fit] runs the steps, validates and saves, and puts the rollout replicas to
      sleep and wakes them with fresh weights [TrainerLoop]; checkpoints are written, kept and
      found again [Checkpoint].
    - Evaluation.  Checkpoints are scored by repeated sampling [EvalSummary]; the runs of a
      hyperparameter matrix are gated by their logs and ranked [HparamMatrix].

    ** Files and sources

    [Prelude] (this file), [PyHeap] ([heapq]), [PyStr] ([str]), [PyNum] ([int(s)], [float(s)]),
    [PyDict] ([dict]), [GroupBy] ([defaultdict(list)]), [PyRat] (decimal texts of rationals) and
    [PyRegex] ([re.findall], [re.sub]) are the parts of Python that the code uses.  The others model, in the order of [_CoqProject]:
    [Json]: rows of the tools;
    [SeqlenBalancing]: [verl/utils/seqlen_balancing.py];
    [Rlsd]: [verl/trainer/extpi_rlsd/rlsd.py];
    [PromptAssembly]: [verl/trainer/extpi_rlsd/prompt_assembly.py];
    [MathReward]: [recipes/extpi_rlsd/rewards/math_verify_reward.py];
    [Scorer]: [verl/trainer/extpi_rlsd/scorer.py];
    [TeacherBatch], [TrainerHook]: [verl/trainer/extpi_rlsd/trainer.py];
    [Padding]: [verl/workers/utils/padding.py], [verl/utils/npu_flash_attn_utils.py];
    [MessageQueue]: [verl/experimental/fully_async_policy/message_queue.py];
    [LLMServer]: [verl/workers/rollout/llm_server.py];
    [BucketedTransfer]: [verl/workers/rollout/vllm_rollout/bucketed_weight_transfer.py];
    [ReplayBuffer]: [verl/trainer/ppo/v1/replay_buffer.py];
    [ContinuousToken]: [verl/utils/tokenizer/continuous_token.py];
    [ToolAgentLoop]: [verl/experimental/agent_loop/tool_agent_loop.py];
    [DataPrep]: [common.py], [prepare_opsd_data.py], [check_eval_contamination.py] of
    [tools/extpi_rlsd];
    [TorchFunctional]: [verl/utils/torch_functional.py];
    [Groupwise]: [verl/utils/groupwise.py];
    [Advantages], [PolicyLoss]: [verl/trainer/ppo/core_algos.py];
    [Metrics]: [verl/utils/metric/utils.py];
    [ActorLoss]: [verl/workers/utils/losses.py];
    [RolloutCorrection]: [verl/trainer/ppo/rollout_corr_helper.py];
    [RolloutPresets]: [verl/trainer/config/algorithm.py];
    [DataProto]: [verl/protocol.py] and the dict helpers of [verl/utils/py_functional.py];
    [Dispatch]: [verl/single_controller/base/decorator.py] and the call path of
    [verl/single_controller/ray/base.py];
    [Balance]: [_balance_batch] of [verl/trainer/ppo/ray_trainer.py];
    [RateLimiter]: the token bucket and the limiters of [limited.py] in
    [verl/experimental/reward_loop/reward_manager];
    [FullyAsync]: [fully_async_rollouter.py], [fully_async_trainer.py], and [StepMetrics]:
    [detach_utils.py] of [verl/experimental/fully_async_policy];
    [RewardManagers]: the managers of [verl/experimental/reward_loop/reward_manager] and
    [verl/workers/reward_manager];
    [RewardLoop]: [verl/experimental/reward_loop/reward_loop.py];
    [Gsm8kScore], [HendrycksScore], [DapoScore], [QaScore]: [gsm8k.py], [math_reward.py],
    [math_dapo.py], [search_r1_like_qa_em.py], [geo3k.py] and the choice among them in
    [verl/utils/reward_score];
    [Uplift], [Splits]: [compute_recipient_uplift.py], [build_frontier.py],
    [build_common_verified_split.py], [build_shuffled_pi.py], [jsonl_to_verl_parquet.py];
    [PiShard]: [generate_verified_pi_shard.py]; [SftData]: [build_teacher_sft_parquet.py],
    [build_closed_sft_parquet.py]; [EvalSummary]: [evaluate_checkpoints.py]; [HparamMatrix]:
    [hparam_matrix.py], all of [tools/extpi_rlsd];
    [ToolParser]: [verl/experimental/agent_loop/tool_parser.py];
    [Checkpoint]: [checkpoint_manager.py], [checkpoint_handler.py] and
    [fsdp_checkpoint_manager.py] of [verl/utils/checkpoint], and saving and loading in
    [verl/trainer/ppo/ray_trainer.py];
    [RolloutRequest]: [verl/workers/rollout/schemas.py];
    [WeightSync]: [base.py] and [nccl_checkpoint_engine.py] of [verl/checkpoint_engine];
    [StepAdvantage]: [compute_advantage] of [ray_trainer.py] and [verl/trainer/ppo/v1/utils.py];
    [Upsample]: [verl/trainer/ppo/padding_utils.py];
    [AgentLoopBatch]: [verl/experimental/agent_loop/agent_loop.py],
    [verl/experimental/teacher_loop/teacher_manager.py];
    [RolloutGroup]: [verl/trainer/ppo/v1/agent_loop_tq.py];
    [TrainerLoop]: [trainer_base.py] of [verl/trainer/ppo/v1] with the hooks of its three
    trainers, and the [CheckpointEngineManager];
    [DistillKL], [DistillLoss]: [verl/trainer/distillation], [verl/workers/config/distillation.py];
    [ContextParallel]: [verl/models/mcore/util.py].
    Definitions carry the source's names; a name that Rocq or a library takes gets a suffix
    ([repeat_proto], [slice_proto]).

    ** Conventions

    Errors.  A Python exception is [Raise e] of [result]; [require b else e ;; k] is an
    [assert] or a guarded [raise].  An exception ends the computation: what a mutated object
    holds after it is modelled only where the code catches the exception (hook, clients).
    Numbers.  Python integers are [Z] or [nat].  Floats are reals without rounding, in some
    files with one non-finite value [NonFin]; thresholds read from text are rationals.  No
    theorem is about rounding.  Tensors are lists of rows; boolean masks stand for 0/1 masks.
    State.  A class is a record and its methods return the changed record; where the code
    keeps aliases (a batch mutated through two names, a driver object padded in place) the
    model has a store.  Library code (torch, numpy, transformers, ray, math_verify, the chat
    template, the language model, tools, servers) is either a primitive of Python, torch or
    numpy written as documented, or a parameter with its documented laws as hypotheses.
    Fuel.  Loops that are not structural take fuel, and a theorem or a lemma shows that the fuel
    given is enough: string replacement takes the length of the string, the padding loop of
    [pad_dataproto_to_divisor] the number of missing rows (every round adds one or more), the
    micro-batch loop of the hook the number of rows, the Karmarkar-Karp merges the number of
    states, the resume loop one call more than the completion has tokens, the agent loop a
    bound computed from its turn and length limits, the batches of a trace worker its rows,
    splitting a text its length, and [fit] one iteration per step left and one more.

    ** What the theorems show

    Objective: the RLSD advantage is the documented formula, keeps signs and stays within its
    clamp ([rlsd_matches_formula], [rlsd_sign_and_bounds]), reaches the loss of the actor
    ([ppo_loss_rlsd_token]) and does not depend on how the batch is split over ranks and
    micro-batches ([ppo_loss_rlsd_parallel]).  Estimators agree with their reference
    definitions ([gae_matches_reference], [grpo_vectorized_agrees]), and the step gives each
    trajectory its own ([multi_trajectory_advantage]).  The hand-written gradient of the
    distillation loss is its derivative ([backward_is_gradient]), shards of the vocabulary
    agree with the whole row ([vocab_parallel_matches_whole_row]), the loss of a mini-batch is
    pinned with the counts it really uses ([distillation_minibatch_loss]), and an accepted
    configuration can run ([distillation_config_sound]).
    Alignment: every path that carries log probabilities puts each on the token it belongs to
    ([score_is_conditional_log_prob], [response_slice_aligned], [teacher_log_probs_aligned],
    [merges_keep_metadata_aligned]); a response trains on what was generated and on nothing else
    ([run_output_aligned], [trains_on_replies_only]); context-parallel packing pairs every token
    with its next one ([thd_engine_pairs_labels], [bshd_engine_pairs_labels]).
    Isolation: no privileged text reaches a student prompt ([pi_guard_separates_prompts],
    [pi_batch_leak_free]); rejected tokens have no influence ([bypass_ignores_rejected]); splits
    are disjoint ([frontier_splits_disjoint]) and a run that leaked is not selected
    ([gated_run_not_selected]).
    Distribution: splitting, padding, reordering and collecting batches loses and reorders
    nothing ([row_operations_refine_list], [chunk_concat_roundtrip], [pad_unpad_roundtrip],
    [rearrange_restore_roundtrip], [balanced_batch_fits], [generated_batch_carries_trajectories]);
    weights arrive as they were sent ([collective_delivers_weights],
    [bucketed_transfer_roundtrip], unless a tensor's offset is no multiple of its element size,
    which torch refuses); a call over a worker group
    computes the worker's function on the whole batch ([nd_compute_is_map],
    [compute_rm_score_is_map]), and balancing reaches the ranks ([balance_reaches_ranks]).
    Services, as interleaved steps: queue, balancer, buffer and clients conserve samples,
    release servers and terminate ([queue_conserves_samples], [generate_releases],
    [run_terminates]); the rate limiter keeps its rate and serves every caller
    ([acquired_within_rate], [every_acquire_returns]); the asynchronous pipeline bounds the
    samples that start between two resets of the counter and halts in no other way than the
    theorem names, one of which is a stall ([staleness_bounded], [no_deadlock]); sampled groups
    are whole ([sampled_groups_are_whole]); trace workers that are killed and restarted lose
    nothing ([restarts_lose_nothing]).
    The loop and its checkpoints: every step runs once, with its saves and validations
    ([fit_runs_every_step]), on servers whose weights are recent ([serving_weights_are_recent]);
    after crashes every rank resumes from the last committed step, of which another rank's
    dataloader state can be missing or torn if the save was cut off after the commit
    ([resume_finds_last_save]).
    Texts: boxed answers, tool calls and scores are read from where they were written
    ([extract_boxed_answer_iff], [hermes_reads_calls]), and reported rates are consistent
    ([summary_rates_consistent]).

    ** Not modelled

    The training engines (FSDP, Megatron and others), kernels, the checkpoint formats of other
    engines, model patches and the rollout engines call device code and third-party runtimes whose behaviour is not in
    the repository; recipes and configuration files only set parameters; logging, profiling
    and rollout dumps do not feed back into training.  Of the orchestration in
    [ray_trainer.py] and [trainer_base.py] only the parts named above are modelled. *)

From stdpp Require Export base list gmap strings sorting.
From Stdlib Require Export ZArith Lia.

(** ** Python exceptions and the error monad

    A Python call either returns a value or raises.  [exn] names the exception
    classes the modelled code raises or catches; the payload is the message. *)

Inductive exn :=
  | ValueError (msg : string)
  | TypeError (msg : string)
  | KeyError (msg : string)
  | IndexError (msg : string)
  | AssertionError (msg : string)
  | RuntimeError (msg : string)
  | NotImplementedError (msg : string)
  | ZeroDivisionError (msg : string)
  | AttributeError (msg : string)
  | OSError (msg : string)
  | SystemExit (msg : string).

Inductive result (A : Type) :=
  | Ok (a : A)
  | Raise (e : exn).
Arguments Ok {_} a.
Arguments Raise {_} e.

#[export] Instance exn_eq_dec : EqDecision exn.
Proof. solve_decision. Defined.

#[export] Instance result_eq_dec `{EqDecision A} : EqDecision (result A).
Proof. solve_decision. Defined.

#[export] Instance result_ret : MRet result := λ A a, Ok a.
#[export] Instance result_bind : MBind result := λ A B f r,
  match r with Ok a => f a | Raise e => Raise e end.
#[export] Instance result_fmap : FMap result := λ A B f r,
  match r with Ok a => Ok (f a) | Raise e => Raise e end.

Declare Scope py_scope.
Delimit Scope py_scope with py.

(** [require b else e ;; k] : raise [e] unless [b] holds. *)
Notation "'require' b 'else' e ';;' k" := (if b then k else Raise e)
  (at level 100, b at level 99, e at level 99, k at level 200, right associativity) : py_scope.

Definition of_option {A} (e : exn) (o : option A) : result A :=
  match o with Some a => Ok a | None => Raise e end.

Definition is_ok {A} (r : result A) : bool :=
  match r with Ok _ => true | Raise _ => false end.

(** A Python [for] loop that may raise: left fold in the error monad. *)
Fixpoint foldM {S A : Type} (f : S → A → result S) (s : S) (l : list A) : result S :=
  match l with
  | [] => Ok s
  | a :: l => s' ← f s a; foldM f s' l
  end.

Lemma bind_Ok_inv {A B} (r : result A) (f : A → result B) b :
  r ≫= f = Ok b → ∃ a, r = Ok a ∧ f a = Ok b.
Proof. destruct r; simpl; [eauto | discriminate]. Qed.

Lemma require_inv {A} (b : bool) (e : exn) (k : result A) a :
  (if b then k else Raise e) = Ok a → b = true ∧ k = Ok a.
Proof. destruct b; [done | discriminate]. Qed.

Lemma of_option_Ok {A} e (o : option A) a : of_option e o = Ok a ↔ o = Some a.
Proof. destruct o; simpl; naive_solver. Qed.

Lemma foldM_app {S A} (f : S → A → result S) s l1 l2 :
  foldM f s (l1 ++ l2) = s' ← foldM f s l1; foldM f s' l2.
Proof.
  revert s. induction l1 as [|a l1 IH]; intros s; simpl; [done|].
  destruct (f s a); simpl; auto.
Qed.

(** Invariant rule of a loop that may raise. *)
Lemma foldM_inv {S A} (P : list A → S → Prop) (f : S → A → result S) s l s' :
  P [] s →
  (∀ done a st st', P done st → f st a = Ok st' → P (done ++ [a]) st') →
  foldM f s l = Ok s' → P l s'.
Proof.
  intros H0 Hstep. revert s' .
  induction l as [|a l IH] using rev_ind; intros s' H.
  - simpl in H. by simplify_eq.
  - rewrite foldM_app in H. apply bind_Ok_inv in H as (st & H1 & H2).
    simpl in H2. apply bind_Ok_inv in H2 as (st' & H2 & H3). simplify_eq.
    eauto.
Qed.

(** Progress rule: if the invariant makes every step return, so does the loop. *)
Lemma foldM_total {S A} (P : list A → S → Prop) (f : S → A → result S) s l :
  P [] s →
  (∀ done a rest st, l = done ++ a :: rest → P done st →
     ∃ st', f st a = Ok st' ∧ P (done ++ [a]) st') →
  ∃ s', foldM f s l = Ok s' ∧ P l s'.
Proof.
  intros H0 Hstep.
  cut (∀ done rest st, l = done ++ rest → P done st →
        ∃ s', foldM f st rest = Ok s' ∧ P l s').
  { intros H. by apply (H [] l s). }
  intros done rest. revert done.
  induction rest as [|a rest IH]; intros done st Hl HP; simpl.
  - exists st. split; [done|]. by rewrite Hl, app_nil_r.
  - destruct (Hstep done a rest st Hl HP) as (st' & -> & HP'). simpl.
    apply (IH (done ++ [a])); [by rewrite <-(assoc_L (++)) | done].
Qed.

Lemma foldM_foldl {S A} (f : S → A → S) s l :
  foldM (λ st a, Ok (f st a)) s l = Ok (foldl f s l).
Proof. revert s. induction l; intros; simpl; auto. Qed.

Lemma mapM_Ok_Forall2 {A B} (f : A → result B) l k :
  mapM f l = Ok k ↔ Forall2 (λ a b, f a = Ok b) l k.
Proof.
  revert k. induction l as [|a l IH]; intros k; simpl.
  - split; [intros [= <-]; constructor | by inversion 1].
  - split.
    + intros H. apply bind_Ok_inv in H as (b & Hb & H).
      apply bind_Ok_inv in H as (k' & Hk & H). injection H as <-.
      constructor; [done|]. by apply IH.
    + inversion 1 as [|? ? ? k' Ha Hl]; subst. rewrite Ha. simpl.
      apply IH in Hl. by rewrite Hl.
Qed.

Lemma mapM_Ok_length {A B} (f : A → result B) l k :
  mapM f l = Ok k → length k = length l.
Proof. intros H%mapM_Ok_Forall2. symmetry. eapply Forall2_length, H. Qed.

(** A [mapM] whose steps all return, with a property of every step. *)
Lemma mapM_total {X Y} (f : X → result Y) (P : X → Y → Prop) l :
  (∀ x, x ∈ l → ∃ y, f x = Ok y ∧ P x y) → ∃ k, mapM f l = Ok k ∧ Forall2 P l k.
Proof.
  induction l as [|x l IH]; intros H; [by exists []|].
  destruct (H x) as (y & Hy & Hp); [by left|]. destruct IH as (k & Hk & Hf); [intros x' ?; apply H; by right|].
  exists (y :: k). cbn. rewrite Hy. cbn. rewrite Hk. by split; [|constructor].
Qed.

Lemma mapM_Ok_map {A B} (f : A → result B) (g : A → B) l :
  (∀ a, a ∈ l → f a = Ok (g a)) → mapM f l = Ok (g <$> l).
Proof.
  induction l as [|a l IH]; intros H; simpl; [done|].
  rewrite H by set_solver. simpl. rewrite IH by set_solver. done.
Qed.

(** Peel one monadic layer off a hypothesis [_ = Ok _]. *)
Ltac inv_ok H :=
  lazymatch type of H with
  | (_ ≫= _) = Ok _ =>
      let a := fresh "v" in let Ha := fresh "Hv" in
      apply bind_Ok_inv in H as (a & Ha & H)
  | (if _ then _ else Raise _) = Ok _ =>
      let Hb := fresh "Hreq" in apply require_inv in H as [Hb H]
  | (if _ then Raise _ else _) = Ok _ =>
      let Hb := fresh "Hreq" in
      lazymatch type of H with (if ?b then _ else _) = _ =>
        destruct b eqn:Hb; [discriminate H|] end
  | of_option _ _ = Ok _ => apply of_option_Ok in H
  | Raise _ = Ok _ => discriminate H
  | Ok _ = Ok _ => injection H as H
  end.
Ltac inv_oks H := repeat (progress inv_ok H).

(** ** Mutable state and errors

    A method that mutates an object and may raise: the state survives the
    exception, as Python's objects do. *)

Definition stateR (S A : Type) : Type := S → result A * S.
#[export] Instance stateR_ret {S} : MRet (stateR S) := λ A a s, (Ok a, s).
#[export] Instance stateR_bind {S} : MBind (stateR S) := λ A B f m s,
  match m s with (Ok a, s') => f a s' | (Raise e, s') => (Raise e, s') end.

Definition lift {S A} (r : result A) : stateR S A := λ s, (r, s).
Definition gets {S A} (f : S → A) : stateR S A := λ s, (Ok (f s), s).
Definition modify {S} (f : S → S) : stateR S unit := λ s, (Ok tt, f s).

Lemma stateR_bind_Ok {S A B} (m : stateR S A) (f : A → stateR S B) s b s' :
  (m ≫= f) s = (Ok b, s') → ∃ a s1, m s = (Ok a, s1) ∧ f a s1 = (Ok b, s').
Proof. unfold mbind, stateR_bind. destruct (m s) as [[a|e] s1]; [eauto | by intros [= ?]]. Qed.

Lemma lift_Ok {S A} (r : result A) (s : S) a s' : lift r s = (Ok a, s') ↔ r = Ok a ∧ s' = s.
Proof. unfold lift. split; [by intros [= -> ->] | by intros [-> ->]]. Qed.

(** Peel one step off a hypothesis [prog s = (Ok _, _)]. *)
Ltac step_ok H :=
  lazymatch type of H with
  | (_ ≫= _) _ = (Ok _, _) =>
      let a := fresh "v" in let s := fresh "s" in let Hs := fresh "Hs" in
      apply stateR_bind_Ok in H as (a & s & Hs & H);
      try (apply lift_Ok in Hs as [Hs ->]);
      try (unfold gets, modify in Hs; injection Hs as <- <-)
  | (if _ then _ else lift (Raise _)) _ = (Ok _, _) =>
      let Hb := fresh "Hreq" in
      lazymatch type of H with (if ?b then _ else _) _ = _ => destruct b eqn:Hb; [|discriminate H] end
  end.

(** ** Lists: slices, stable sorting, sums *)

(** [l[a:b]] for non-negative bounds. *)
Definition slice {A} (a b : nat) (l : list A) : list A := take (b - a) (drop a l).

(** [l[a:b]] for any integers: a negative bound counts from the end. *)
Definition slice_bound (n : nat) (i : Z) : nat :=
  if (i <? 0)%Z then Z.to_nat (Z.of_nat n + i) else Nat.min (Z.to_nat i) n.
Definition zslice {A} (a b : Z) (l : list A) : list A :=
  slice (slice_bound (length l) a) (slice_bound (length l) b) l.

Definition zsum (l : list Z) : Z := foldr Z.add 0%Z l.
Definition nsum (l : list nat) : nat := foldr Nat.add 0 l.

(** Python's [sorted]: a stable sort driven by the [<] of the elements.
    [sorted(l, reverse=True)] is [sort_by (flip lt)]: Python keeps the order of
    equal elements there too. *)
Fixpoint insert_by {A} (lt : A → A → bool) (x : A) (l : list A) : list A :=
  match l with
  | [] => [x]
  | y :: l' => if lt y x then y :: insert_by lt x l' else x :: l
  end.
Definition sort_by {A} (lt : A → A → bool) (l : list A) : list A :=
  foldr (insert_by lt) [] l.

Lemma insert_by_perm {A} lt (x : A) l : insert_by lt x l ≡ₚ x :: l.
Proof.
  induction l as [|y l IH]; simpl; [done|].
  destruct (lt y x); [|done]. rewrite IH. constructor.
Qed.

Lemma sort_by_perm {A} lt (l : list A) : sort_by lt l ≡ₚ l.
Proof. induction l as [|x l IH]; simpl; [done|]. by rewrite insert_by_perm, IH. Qed.

Lemma sort_by_length {A} lt (l : list A) : length (sort_by lt l) = length l.
Proof. by rewrite sort_by_perm. Qed.

(** No later element is smaller: what [sorted] promises for a strict weak order. *)
Definition no_inversion {A} (lt : A → A → bool) : A → A → Prop := λ x y, lt y x = false.

Section sort_by_sorted.
Context {A : Type} (lt : A → A → bool).
Hypothesis lt_asym : ∀ x y, lt x y = true → lt y x = false.
Hypothesis lt_neg_trans : ∀ x y z, lt y x = false → lt z y = false → lt z x = false.

Lemma insert_by_sorted x l :
  StronglySorted (no_inversion lt) l → StronglySorted (no_inversion lt) (insert_by lt x l).
Proof using lt_asym lt_neg_trans.
  induction 1 as [|y l Hs IH Hall]; simpl; [repeat constructor|].
  destruct (lt y x) eqn:Hyx.
  - constructor; [done|]. apply Forall_forall. intros z Hz.
    rewrite insert_by_perm in Hz. apply list_elem_of_In in Hz. simpl in Hz.
    destruct Hz as [<-|Hz].
    + unfold no_inversion. auto.
    + apply list_elem_of_In in Hz. by eapply Forall_forall in Hall.
  - constructor; [by constructor|]. constructor; [done|].
    eapply Forall_impl; [exact Hall|]. intros z Hz. unfold no_inversion in *. eauto.
Qed.

Lemma sort_by_sorted l : StronglySorted (no_inversion lt) (sort_by lt l).
Proof using lt_asym lt_neg_trans.
  induction l; simpl; [constructor | by apply insert_by_sorted].
Qed.
End sort_by_sorted.

Lemma slice_app {A} (pre mid post : list A) :
  slice (length pre) (length pre + length mid) (pre ++ mid ++ post) = mid.
Proof.
  unfold slice. rewrite drop_app_length. rewrite Nat.add_comm, Nat.add_sub. apply take_app_length.
Qed.

Lemma zslice_app {A} a b (pre mid post : list A) :
  a = Z.of_nat (length pre) → b = Z.of_nat (length pre + length mid) →
  zslice a b (pre ++ mid ++ post) = mid.
Proof.
  intros -> ->. unfold zslice, slice_bound. rewrite !length_app.
  rewrite !(proj2 (Z.ltb_ge _ _)) by lia. rewrite !Nat2Z.id.
  rewrite !Nat.min_l by lia. apply slice_app.
Qed.

Lemma zslice_head {A} (m : Z) (l : list A) : (0 ≤ m)%Z → zslice 0 m l = take (Z.to_nat m) l.
Proof.
  intros Hm. unfold zslice, slice, slice_bound. replace (m <? 0)%Z with false by lia. cbn.
  rewrite drop_0, Nat.sub_0_r. destruct (decide (Z.to_nat m ≤ length l)); [by rewrite Nat.min_l|].
  rewrite Nat.min_r by lia. by rewrite !take_ge by lia.
Qed.

Lemma forallb_Forall {A} (f : A → bool) l : forallb f l = true ↔ Forall (λ x, f x = true) l.
Proof. rewrite List.forallb_forall, List.Forall_forall. done. Qed.

Lemma zsum_app l1 l2 : zsum (l1 ++ l2) = (zsum l1 + zsum l2)%Z.
Proof. induction l1; simpl; lia. Qed.
Lemma nsum_app l1 l2 : nsum (l1 ++ l2) = nsum l1 + nsum l2.
Proof. induction l1; simpl; lia. Qed.
Lemma zsum_perm l1 l2 : l1 ≡ₚ l2 → zsum l1 = zsum l2.
Proof. induction 1; simpl; lia. Qed.
Lemma nsum_perm l1 l2 : l1 ≡ₚ l2 → nsum l1 = nsum l2.
Proof. induction 1; simpl; lia. Qed.
Lemma zsum_nonneg l : Forall (λ z, 0 ≤ z)%Z l → (0 ≤ zsum l)%Z.
Proof. induction 1; simpl; lia. Qed.
Lemma length_concat_nsum {A} (ls : list (list A)) : length (concat ls) = nsum (length <$> ls).
Proof. induction ls as [|l ls IH]; simpl; [done|]. by rewrite length_app, IH. Qed.

Lemma concat_perm {A} (l1 l2 : list (list A)) : l1 ≡ₚ l2 → concat l1 ≡ₚ concat l2.
Proof.
  induction 1; simpl; [done | by f_equiv | | by etrans].
  rewrite !(assoc_L (++)). f_equiv. apply Permutation_app_comm.
Qed.

(** Exchanging two cells is a permutation. *)
Lemma swap_perm {A} (l : list A) i j x y :
  l !! i = Some x → l !! j = Some y → <[i:=y]> (<[j:=x]> l) ≡ₚ l.
Proof.
  intros Hi Hj. destruct (decide (i = j)) as [->|Hne].
  { simplify_eq. rewrite list_insert_insert_eq. by rewrite list_insert_id. }
  assert (Hil := lookup_lt_Some _ _ _ Hi). assert (Hjl := lookup_lt_Some _ _ _ Hj).
  assert (Hg : ∀ k (l : list A) a b, l !! k = Some a → b :: l ≡ₚ a :: <[k:=b]> l).
  { clear. intros k l a b. revert k. induction l as [|c l IH]; intros [|k] H; simpl in *;
      try discriminate.
    - injection H as ->. constructor.
    - rewrite (Permutation_swap c b), (IH k H). constructor. }
  pose proof (Hg j l y x Hj) as H1.
  assert (Hi' : (<[j:=x]> l) !! i = Some x) by (by rewrite list_lookup_insert_ne).
  pose proof (Hg i _ x y Hi') as H2.
  apply (Permutation_cons_inv (a := x)). rewrite <-H2. by rewrite H1.
Qed.

Create HintDb py.
Create Rewrite HintDb py.
#[export] Hint Resolve sort_by_perm insert_by_perm : py.
#[export] Hint Rewrite @sort_by_length zsum_app nsum_app @length_app @length_map : py.
