(* ===== verification/PyHeap.v ===== *)
(** * Python's [heapq]

    The two operations of the standard library's binary heap that
    [src/verl/utils/seqlen_balancing.py] uses, on a list as the array, with the
    comparison the elements' [__lt__].  The moves are written as exchanges of
    cells, which leave the same array as the standard library's moving hole. *)

From stdpp Require Import base list.
From Stdlib Require Import Lia.
From S2P Require Import Prelude.

Section heapq.
Context {A : Type} (lt : A → A → bool).

(** [_siftdown(heap, 0, pos)]: move the new leaf up to its place. *)
Fixpoint siftdown (fuel : nat) (heap : list A) (pos : nat) : list A :=
  match fuel with
  | 0 => heap
  | S fuel =>
      if decide (pos = 0) then heap else
      let parentpos := (pos - 1) / 2 in
      match heap !! pos, heap !! parentpos with
      | Some newitem, Some parent =>
          if lt newitem parent
          then siftdown fuel (<[pos:=parent]> (<[parentpos:=newitem]> heap)) parentpos
          else heap
      | _, _ => heap
      end
  end.

(** The first loop of [_siftup(heap, pos)]: bubble the smaller child up until
    a leaf is reached; returns the array and the leaf's position. *)
Fixpoint siftup_loop (fuel : nat) (heap : list A) (pos : nat) : list A * nat :=
  match fuel with
  | 0 => (heap, pos)
  | S fuel =>
      let childpos := 2 * pos + 1 in
      let rightpos := childpos + 1 in
      match heap !! pos, heap !! childpos with
      | Some x, Some c =>
          match heap !! rightpos with
          | Some r =>
              if lt c r
              then siftup_loop fuel (<[pos:=c]> (<[childpos:=x]> heap)) childpos
              else siftup_loop fuel (<[pos:=r]> (<[rightpos:=x]> heap)) rightpos
          | None => siftup_loop fuel (<[pos:=c]> (<[childpos:=x]> heap)) childpos
          end
      | _, _ => (heap, pos)
      end
  end.

Definition siftup (heap : list A) (pos : nat) : list A :=
  let '(heap', pos') := siftup_loop (length heap) heap pos in
  siftdown (length heap') heap' pos'.

Definition heappush (heap : list A) (item : A) : list A :=
  siftdown (S (length heap)) (heap ++ [item]) (length heap).

(** [None] is the [IndexError] of popping an empty heap. *)
Definition heappop (heap : list A) : option (A * list A) :=
  match last heap with
  | None => None
  | Some lastelt =>
      let heap' := take (length heap - 1) heap in
      match heap' with
      | [] => Some (lastelt, [])
      | returnitem :: _ => Some (returnitem, siftup (<[0:=lastelt]> heap') 0)
      end
  end.

Lemma siftdown_perm fuel heap pos : siftdown fuel heap pos ≡ₚ heap.
Proof.
  revert heap pos. induction fuel as [|fuel IH]; intros heap pos; [done|]. cbn -[Nat.div].
  case_decide; [done|].
  destruct (heap !! pos) as [x|] eqn:Hx; [|done].
  destruct (heap !! ((pos - 1) / 2)) as [y|] eqn:Hy; [|done].
  destruct (lt x y); [|done]. rewrite IH. by apply swap_perm.
Qed.

Lemma siftup_loop_perm fuel heap pos : (siftup_loop fuel heap pos).1 ≡ₚ heap.
Proof.
  revert heap pos. induction fuel as [|fuel IH]; intros heap pos; [done|].
  cbn [siftup_loop].
  destruct (heap !! pos) as [x|] eqn:Hx; [|done].
  destruct (heap !! (2 * pos + 1)) as [c|] eqn:Hc; [|done].
  destruct (heap !! (2 * pos + 1 + 1)) as [r|] eqn:Hr; [destruct (lt c r)|];
    rewrite IH; by apply swap_perm.
Qed.

Lemma siftup_perm heap pos : siftup heap pos ≡ₚ heap.
Proof.
  unfold siftup. pose proof (siftup_loop_perm (length heap) heap pos) as H.
  destruct (siftup_loop _ _ _) as [h p]. by rewrite siftdown_perm.
Qed.

Lemma heappush_perm heap x : heappush heap x ≡ₚ x :: heap.
Proof. unfold heappush. rewrite siftdown_perm. symmetry. apply Permutation_cons_append. Qed.

Lemma heappop_perm heap x heap' : heappop heap = Some (x, heap') → heap ≡ₚ x :: heap'.
Proof.
  unfold heappop. destruct (last heap) as [z|] eqn:Hlast; [|done].
  apply last_Some in Hlast as [l ->].
  replace (length (l ++ [z]) - 1) with (length l) by (rewrite length_app; simpl; lia).
  rewrite take_app_length. destruct l as [|y l]; [by intros [= <- <-]|].
  intros [= <- <-]. rewrite siftup_perm. simpl. constructor.
  symmetry. apply Permutation_cons_append.
Qed.

Lemma heappop_nonempty heap : heap ≠ [] → is_Some (heappop heap).
Proof.
  intros Hne. unfold heappop. destruct (last heap) eqn:Hl.
  - destruct (take _ heap); eauto.
  - by apply last_None in Hl.
Qed.

Lemma heappush_length heap x : length (heappush heap x) = S (length heap).
Proof. by rewrite heappush_perm. Qed.

Lemma heappop_length heap x heap' :
  heappop heap = Some (x, heap') → length heap = S (length heap').
Proof. intros H%heappop_perm. by rewrite H. Qed.
End heapq.
