(* ===== verification/PyStr.v ===== *)
(** * Python strings

    The [str] operations the modelled code uses, on Rocq's [string].  Characters
    are bytes; whitespace and letter case are those of ASCII, so non-ASCII
    whitespace and cased letters are treated as ordinary characters. *)

From S2P Require Import Prelude.
From Stdlib Require Export Ascii String.
From stdpp Require Export strings pretty.
Local Open Scope string_scope.
#[global] Arguments String.append !_ _ : simpl nomatch.

Definition nl : string := String (ascii_of_nat 10) EmptyString.

(** [str.isspace] and the class [\s] on ASCII. *)
Definition is_space (c : ascii) : bool :=
  let n := nat_of_ascii c in
  (Nat.leb 9 n && Nat.leb n 13) || (Nat.leb 28 n && Nat.leb n 32).

Fixpoint lstrip (s : string) : string :=
  match s with
  | EmptyString => EmptyString
  | String c s' => if is_space c then lstrip s' else s
  end.

Fixpoint rstrip (s : string) : string :=
  match s with
  | EmptyString => EmptyString
  | String c s' =>
      match rstrip s' with
      | EmptyString => if is_space c then EmptyString else String c EmptyString
      | r => String c r
      end
  end.

Definition strip (s : string) : string := rstrip (lstrip s).

Definition lower_ascii (c : ascii) : ascii :=
  let n := nat_of_ascii c in
  if Nat.leb 65 n && Nat.leb n 90 then ascii_of_nat (n + 32) else c.

Fixpoint lower (s : string) : string :=
  match s with EmptyString => EmptyString | String c s => String (lower_ascii c) (lower s) end.

Fixpoint startswith (p s : string) : bool :=
  match p, s with
  | EmptyString, _ => true
  | String c p, String d s => bool_decide (c = d) && startswith p s
  | String _ _, EmptyString => false
  end.

Fixpoint contains (sub s : string) : bool :=
  startswith sub s || match s with EmptyString => false | String _ s' => contains sub s' end.

(** [s.find(sub)] and [s.rfind(sub)]; [None] is Python's [-1]. *)
Fixpoint find (sub s : string) : option nat :=
  if startswith sub s then Some 0
  else match s with EmptyString => None | String _ s' => S <$> find sub s' end.

Fixpoint rfind (sub s : string) : option nat :=
  match s with
  | EmptyString => if startswith sub s then Some 0 else None
  | String _ s' =>
      match rfind sub s' with
      | Some n => Some (S n)
      | None => if startswith sub s then Some 0 else None
      end
  end.

(** [s[n:]] and [s[:n]]. *)
Fixpoint sdrop (n : nat) (s : string) : string :=
  match n, s with 0, _ => s | S n, String _ s => sdrop n s | _, EmptyString => EmptyString end.
Fixpoint stake (n : nat) (s : string) : string :=
  match n, s with S n, String c s => String c (stake n s) | _, _ => EmptyString end.

Definition endswith (p s : string) : bool :=
  Nat.leb (String.length p) (String.length s) &&
  bool_decide (sdrop (String.length s - String.length p) s = p).

(** [s.replace(old, new)] for a non-empty [old]: leftmost, non-overlapping;
    the fuel is the length of the string. *)
Fixpoint replace_fuel (fuel : nat) (old new s : string) : string :=
  match fuel with
  | 0 => s
  | S fuel =>
      if startswith old s then new ++ replace_fuel fuel old new (sdrop (String.length old) s)
      else match s with EmptyString => EmptyString | String c s' => String c (replace_fuel fuel old new s') end
  end.
Definition replace (old new s : string) : string := replace_fuel (S (String.length s)) old new s.

(** [s.split(sep)] for a one-character separator. *)
Fixpoint split_on (sep : ascii) (s : string) : list string :=
  match s with
  | EmptyString => [EmptyString]
  | String c s' =>
      if bool_decide (c = sep) then EmptyString :: split_on sep s'
      else match split_on sep s' with
           | [] => [String c EmptyString]
           | w :: ws => String c w :: ws
           end
  end.

Fixpoint str_join (sep : string) (l : list string) : string :=
  match l with
  | [] => EmptyString
  | [s] => s
  | s :: l => s ++ sep ++ str_join sep l
  end.

(** [re.sub(r"\s+", " ", s)] and [re.sub(r"\s+", "", s)]. *)
Fixpoint collapse_spaces (s : string) : string :=
  match s with
  | EmptyString => EmptyString
  | String c s' =>
      if is_space c then
        match s' with
        | String d _ => if is_space d then collapse_spaces s' else String " " (collapse_spaces s')
        | EmptyString => String " " EmptyString
        end
      else String c (collapse_spaces s')
  end.
Fixpoint remove_spaces (s : string) : string :=
  match s with
  | EmptyString => EmptyString
  | String c s' => if is_space c then remove_spaces s' else String c (remove_spaces s')
  end.

(** Decide the equality of two closed characters in the goal. *)
Ltac char_decide :=
  repeat match goal with
  | |- context [bool_decide (?a = ?b)] =>
      let v := eval vm_compute in (bool_decide (a = b)) in
      lazymatch v with true => idtac | false => idtac end;
      change (bool_decide (a = b)) with v; cbv iota
  end.

(** ** Lemmas *)

Lemma sapp_assoc (s t u : string) : (s ++ t) ++ u = s ++ (t ++ u).
Proof. induction s as [|c s IH]; [done|]. change (String c ((s ++ t) ++ u) = String c (s ++ (t ++ u))). by f_equal. Qed.

Lemma startswith_spec p s : startswith p s = true ↔ ∃ r, s = p ++ r.
Proof.
  revert s. induction p as [|c p IH]; intros s; cbn.
  - split; [by exists s | done].
  - destruct s as [|d s]; [split; [done | by intros [r [=]]]|].
    rewrite andb_true_iff, bool_decide_eq_true, IH. split.
    + intros [-> [r ->]]. by exists r.
    + intros [r [= -> ->]]. eauto.
Qed.

Lemma contains_spec sub s : contains sub s = true ↔ ∃ a b, s = a ++ sub ++ b.
Proof.
  induction s as [|c s IH]; simpl; rewrite orb_true_iff, startswith_spec.
  - split.
    + intros [[r Hr]|]; [|done]. by exists EmptyString, r.
    + intros (a & b & H). left. destruct a; [by exists b | done].
  - rewrite IH. split.
    + intros [[r Hr]|(a & b & ->)]; [by exists EmptyString, r | by exists (String c a), b].
    + intros (a & b & H). destruct a as [|d a]; simpl in H.
      * left. by exists b.
      * right. exists a, b. congruence.
Qed.

Lemma contains_refl s : contains s s = true.
Proof. apply contains_spec. exists EmptyString, EmptyString. simpl. by induction s; simpl; f_equal. Qed.

Lemma contains_trans s t u : contains s t = true → contains t u = true → contains s u = true.
Proof.
  rewrite !contains_spec. intros (a & b & ->) (c & d & ->).
  exists (c ++ a), (b ++ d). by rewrite !sapp_assoc.
Qed.

(** A pattern whose first character does not occur in [a] is found in [a ++ s]
    exactly when it is found in [s]. *)
Fixpoint has_char (c : ascii) (s : string) : bool :=
  match s with EmptyString => false | String d s => bool_decide (c = d) || has_char c s end.

Lemma contains_app_no_char c sub a s :
  has_char c a = false → contains (String c sub) (a ++ s) = contains (String c sub) s.
Proof.
  induction a as [|d a IH]; intros H; [done|].
  simpl in H. apply orb_false_iff in H as [Hne H].
  apply bool_decide_eq_false in Hne. simpl. rewrite bool_decide_eq_false_2 by done. by apply IH.
Qed.

Lemma app_nil_r_s s : s ++ EmptyString = s.
Proof. induction s; simpl; congruence. Qed.

Lemma length_sapp s t : String.length (s ++ t) = String.length s + String.length t.
Proof. induction s; simpl; auto. Qed.

Lemma sdrop_app a s : sdrop (String.length a) (a ++ s) = s.
Proof. induction a; simpl; auto. Qed.

Lemma stake_app a s : stake (String.length a) (a ++ s) = a.
Proof. induction a as [|c a IH]; simpl; [by destruct s | by rewrite IH]. Qed.

Lemma rfind_none sub t : (∀ n, startswith sub (sdrop n t) = false) → rfind sub t = None.
Proof.
  induction t as [|d t IH]; intros H; simpl.
  - pose proof (H 0) as H0. simpl in H0. by rewrite H0.
  - rewrite IH; [|intros n; apply (H (S n))]. pose proof (H 0) as H0. simpl in H0. by rewrite H0.
Qed.

(** [rfind] returns the last occurrence. *)
Lemma rfind_last c sub a s :
  (∀ n, 0 < n → startswith (String c sub) (sdrop n (String c sub ++ s)) = false) →
  rfind (String c sub) (a ++ String c sub ++ s) = Some (String.length a).
Proof.
  intros Hno. induction a as [|d a IH].
  - change (match rfind (String c sub) (sub ++ s) with
      | Some n => Some (S n)
      | None => if startswith (String c sub) (String c sub ++ s) then Some 0 else None
      end = Some 0).
    rewrite rfind_none; [|intros n; apply (Hno (S n)); lia].
    by rewrite (proj2 (startswith_spec _ _) (ex_intro _ s eq_refl)).
  - change (match rfind (String c sub) (a ++ String c sub ++ s) with
      | Some n => Some (S n)
      | None => if startswith (String c sub) (String d (a ++ String c sub ++ s)) then Some 0 else None
      end = Some (S (String.length a))).
    by rewrite IH.
Qed.

Lemma contains_sdrop sub n s : startswith sub (sdrop n s) = true → contains sub s = true.
Proof.
  revert n. induction s as [|c s IH]; intros n H; simpl.
  - destruct n; simpl in H; by rewrite H.
  - destruct n as [|n]; simpl in H; [by rewrite H|]. rewrite (IH n H). apply orb_true_r.
Qed.

Lemma contains_false_sdrop sub n s : contains sub s = false → startswith sub (sdrop n s) = false.
Proof.
  intros H. destruct (startswith _ _) eqn:E; [|done].
  apply contains_sdrop in E. congruence.
Qed.

Lemma rfind_None_contains sub s : contains sub s = false → rfind sub s = None.
Proof. intros H. apply rfind_none. intros n. by apply contains_false_sdrop. Qed.

Lemma rfind_Some c sub t n :
  rfind (String c sub) t = Some n →
  ∃ s, t = stake n t ++ String c sub ++ s ∧ contains (String c sub) (sub ++ s) = false.
Proof.
  revert n. induction t as [|d t IH]; intros n H; [done|].
  cbn [rfind] in H. destruct (rfind (String c sub) t) as [m|] eqn:E.
  - injection H as <-. destruct (IH m eq_refl) as (s & Hs & Hno).
    exists s. split; [|done]. cbn. by f_equal.
  - destruct (startswith (String c sub) (String d t)) eqn:Es; [|done]. injection H as <-.
    apply startswith_spec in Es as [s Hs]. injection Hs as -> ->. exists s. split; [done|].
    destruct (contains _ _) eqn:Ec; [|done].
    exfalso. clear IH. revert E Ec. generalize (sub ++ s). clear.
    induction s as [|d s IH]; intros E Ec; [done|]. cbn [rfind] in E.
    destruct (rfind (String c sub) s); [done|].
    cbn [contains] in Ec. apply orb_true_iff in Ec as [Ec|Ec]; [by rewrite Ec in E | by apply IH].
Qed.

Lemma find_char_Some c t n :
  find (String c EmptyString) t = Some n →
  ∃ s, t = stake n t ++ String c s ∧ has_char c (stake n t) = false ∧ sdrop n t = String c s.
Proof.
  revert n. induction t as [|d t IH]; intros n H; [done|]. cbn in H.
  case_bool_decide as Hd; cbn in H.
  - injection H as <-. subst d. by exists t.
  - destruct (find _ t) as [m|] eqn:E; [|done]. injection H as <-.
    destruct (IH m eq_refl) as (s & Hs & Hno & Hdr). exists s. cbn. repeat split.
    + by f_equal.
    + by rewrite bool_decide_eq_false_2.
    + done.
Qed.

Lemma find_char_app c a s :
  has_char c a = false → find (String c EmptyString) (a ++ String c s) = Some (String.length a).
Proof.
  induction a as [|d a IH]; cbn; intros H; [by rewrite bool_decide_eq_true_2|].
  apply orb_false_iff in H as [Hne H]. rewrite Hne. cbn. by rewrite IH.
Qed.

Lemma length_stake (n : nat) s : (n ≤ String.length s)%nat → String.length (stake n s) = n.
Proof.
  revert s. induction n; intros s H; [by destruct s|].
  destruct s; cbn in *; [lia|]. rewrite IHn; lia.
Qed.

Lemma sdrop_sdrop n m s : sdrop n (sdrop m s) = sdrop (m + n) s.
Proof.
  revert s. induction m as [|m IH]; intros s; [done|]. destruct s; cbn; [by destruct n|]. apply IH.
Qed.

Lemma sdrop_app_add a s n : sdrop (String.length a + n) (a ++ s) = sdrop n s.
Proof. by rewrite <-sdrop_sdrop, sdrop_app. Qed.

Lemma stake_sdrop n s : stake n s ++ sdrop n s = s.
Proof. revert s. induction n; intros s; [done|]. destruct s; cbn; [done|]. by rewrite IHn. Qed.

Lemma contains_app_r sub a s : contains sub s = true → contains sub (a ++ s) = true.
Proof.
  rewrite !contains_spec. intros (p & q & ->). exists (a ++ p), q. by rewrite sapp_assoc.
Qed.

Lemma find_char_skip c a s :
  has_char c a = false →
  find (String c EmptyString) (a ++ s) = Nat.add (String.length a) <$> find (String c EmptyString) s.
Proof.
  induction a as [|d a IH]; intros H.
  - change (EmptyString ++ s) with s. by destruct (find _ s).
  - cbn in H. apply orb_false_iff in H as [Hne H]. cbn. rewrite Hne. cbn. rewrite IH by done.
    by destruct (find _ s).
Qed.

Lemma contains_app_false sub a s : contains sub (a ++ s) = false → contains sub s = false.
Proof.
  intros H. destruct (contains sub s) eqn:E; [|done]. by rewrite contains_app_r in H.
Qed.
