(* ===== verification/PyNum.v ===== *)
(** * Python's [int(s)] and [float(s)] on ASCII strings

    Surrounding blanks, a sign, digits with single underscores between them, and for
    floats a fraction and an exponent.  A float is the rational its literal denotes
    (rounding is not modelled); the spellings of infinity and NaN are outside the model. *)

From S2P Require Import Prelude PyStr.
From Stdlib Require Import QArith.
Local Close Scope Q_scope.
Local Open Scope py_scope.

Definition digit_of (c : Ascii.ascii) : option Z :=
  let n := nat_of_ascii c in if Nat.leb 48 n && Nat.leb n 57 then Some (Z.of_nat n - 48)%Z else None.

(** [fresh]: the previous character was a digit. *)
Fixpoint parse_digits (acc : Z) (fresh : bool) (s : string) : option Z :=
  match s with
  | EmptyString => if fresh then Some acc else None
  | String c s =>
      if bool_decide (c = "_"%char) then if fresh then parse_digits acc false s else None
      else d ← digit_of c; parse_digits (10 * acc + d)%Z true s
  end.

(** The sign of a literal and what follows it. *)
Definition signed {A} (opp : A → A) (parse : string → option A) (s : string) : option A :=
  match s with
  | String "-"%char s => opp <$> parse s
  | String "+"%char s => parse s
  | s => parse s
  end.

Definition int_of_str (s : string) : option Z := signed Z.opp (parse_digits 0 false) (strip s).

(** ** Floats *)

Fixpoint digit_count (s : string) : nat :=
  match s with
  | EmptyString => 0
  | String c s => if digit_of c then S (digit_count s) else digit_count s
  end.
Definition opt_digits (s : string) : option Z :=
  if bool_decide (s = EmptyString) then Some 0%Z else parse_digits 0 false s.

Definition mantissa (s : string) : option Q :=
  match find "." s with
  | None => inject_Z <$> parse_digits 0 false s
  | Some n =>
      let whole := stake n s in
      let fraction := sdrop (S n) s in
      if bool_decide (whole = EmptyString ∧ fraction = EmptyString) then None else
      i ← opt_digits whole;
      f ← opt_digits fraction;
      Some (inject_Z i + inject_Z f / inject_Z (10 ^ Z.of_nat (digit_count fraction)))%Q
  end.

Definition unsigned_float (s : string) : option Q :=
  match find "e" (lower s) with
  | None => mantissa s
  | Some n =>
      m ← mantissa (stake n s);
      e ← signed Z.opp (parse_digits 0 false) (sdrop (S n) s);
      Some (m * Qpower (inject_Z 10) e)%Q
  end.
Definition float_of_str (s : string) : option Q := signed Qopp unsigned_float (strip s).

Example float_decimal : Qred <$> float_of_str " 0.999 " = Some (999 # 1000)%Q.
Proof. by vm_compute. Qed.
Example float_exponent : Qred <$> float_of_str "-1_0.5e-2" = Some (-21 # 200)%Q.
Proof. by vm_compute. Qed.
Example float_refused : float_of_str <$> ["."; "1_"; "1__0"; "e5"; ""; "1e"] = replicate 6 None.
Proof. by vm_compute. Qed.

(** ** Decimal numerals are read back *)

Lemma digit_of_char x : (x < 10)%N →
  digit_of (pretty_N_char x) = Some (Z.of_N x) ∧ bool_decide (pretty_N_char x = "_"%char) = false.
Proof.
  intros Hx. assert (x = 0 ∨ x = 1 ∨ x = 2 ∨ x = 3 ∨ x = 4 ∨ x = 5 ∨ x = 6 ∨ x = 7 ∨ x = 8 ∨ x = 9)%N as Hc by lia.
  repeat destruct Hc as [->|Hc]; try subst; by vm_compute.
Qed.

Lemma parse_pretty_go x : ∀ fresh s, (0 < x)%N →
  parse_digits 0 fresh (pretty_N_go x s) = parse_digits (Z.of_N x) true s.
Proof.
  induction (N.lt_wf_0 x) as [x _ IH]. intros fresh s Hx. rewrite pretty_N_go_step by done.
  destruct (digit_of_char (x `mod` 10)) as [Hd Hu]; [by apply N.mod_lt|].
  pose proof (N.div_mod' x 10) as Hdiv. pose proof (N.div_lt x 10 Hx ltac:(lia)) as Hlt. revert Hdiv Hd Hu Hlt. generalize (x `mod` 10)%N, (x `div` 10)%N. intros r q Hdiv Hd Hu Hlt.
  destruct (decide (q = 0)%N) as [Hz|Hz].
  - rewrite Hz, pretty_N_go_0. cbn [parse_digits]. rewrite Hu, Hd. cbn [mbind option_bind]. f_equal. lia.
  - rewrite IH by lia. cbn [parse_digits]. rewrite Hu, Hd. cbn [mbind option_bind]. f_equal. lia.
Qed.

(** Strings of decimal digits. *)
Fixpoint all_digits (s : string) : bool :=
  match s with EmptyString => true | String c s => (if digit_of c then true else false) && all_digits s end.

Lemma pretty_go_digits x : ∀ s, all_digits s = true → all_digits (pretty_N_go x s) = true.
Proof.
  induction (N.lt_wf_0 x) as [x _ IH]. intros s Hs. destruct (decide (0 < x)%N) as [Hx|Hx].
  - rewrite pretty_N_go_step by done. apply IH; [apply N.div_lt; lia|]. cbn.
    by rewrite (proj1 (digit_of_char (x `mod` 10) ltac:(by apply N.mod_lt))).
  - by replace x with 0%N by lia; rewrite pretty_N_go_0.
Qed.
Lemma pretty_N_digits (x : N) : all_digits (pretty x) = true.
Proof. unfold pretty, pretty_N. destruct (decide _); [done|]. by apply pretty_go_digits. Qed.

Lemma digit_is_digit c d : digit_of c = Some d → is_space c = false ∧ c ≠ "-"%char ∧ c ≠ "+"%char.
Proof.
  unfold digit_of, is_space. intros Hd.
  destruct (Nat.leb 48 (nat_of_ascii c) && Nat.leb (nat_of_ascii c) 57) eqn:Hn; [|done].
  split_and!.
  - apply andb_true_iff in Hn as [H1%Nat.leb_le H2%Nat.leb_le].
    apply orb_false_iff; split; apply andb_false_iff; rewrite !Nat.leb_gt; lia.
  - intros ->. by vm_compute in Hn.
  - intros ->. by vm_compute in Hn.
Qed.

Lemma strip_digits s : all_digits s = true → strip s = s.
Proof.
  intros Hs. unfold strip. assert (lstrip s = s) as ->.
  { destruct s as [|c s]; [done|]. cbn in *. destruct (digit_of c) eqn:Hc; [|done].
    by rewrite (proj1 (digit_is_digit _ _ Hc)). }
  induction s as [|c s IH]; [done|]. cbn in *. destruct (digit_of c) eqn:Hc; [|done].
  rewrite (proj1 (digit_is_digit _ _ Hc)), IH by done. by destruct s.
Qed.

Lemma parse_pretty (x : N) : parse_digits 0 false (pretty x) = Some (Z.of_N x).
Proof.
  unfold pretty, pretty_N. destruct (decide _) as [->|Hx]; [done|].
  by rewrite parse_pretty_go by (by apply N.neq_0_lt_0).
Qed.

Lemma pretty_N_nonempty (x : N) : pretty x ≠ EmptyString.
Proof.
  intros He. pose proof (parse_pretty x) as Hp. by rewrite He in Hp.
Qed.

(** [int(str(n)) == n]. *)
Lemma int_of_str_pretty (x : N) : int_of_str (pretty x) = Some (Z.of_N x).
Proof.
  unfold int_of_str. rewrite strip_digits by apply pretty_N_digits.
  assert (Hs : signed Z.opp (parse_digits 0 false) (pretty x) = parse_digits 0 false (pretty x)).
  { pose proof (pretty_N_digits x) as Hd. destruct (pretty x) as [|c s] eqn:Hp; [done|].
    cbn in Hd. destruct (digit_of c) eqn:Hc; [|done]. apply digit_is_digit in Hc as (_ & H1 & H2).
    unfold signed. by destruct c as [[] [] [] [] [] [] [] []]. }
  rewrite Hs. apply parse_pretty.
Qed.
