(* ===== verification/PyDict.v ===== *)
(** * Python dicts with string keys

    A dict keeps insertion order: an association list.  Assigning to a present key keeps
    its place; [pop] removes the entry. *)

From S2P Require Import Prelude.

Section dict.
Context {V : Type}.
Implicit Types d : list (string * V).

Fixpoint dget (k : string) d : option V :=
  match d with
  | [] => None
  | (k', v) :: d => if bool_decide (k = k') then Some v else dget k d
  end.

Fixpoint dset (k : string) (v : V) d : list (string * V) :=
  match d with
  | [] => [(k, v)]
  | (k', v') :: d => if bool_decide (k = k') then (k, v) :: d else (k', v') :: dset k v d
  end.

Fixpoint ddel (k : string) d : list (string * V) :=
  match d with
  | [] => []
  | (k', v') :: d => if bool_decide (k = k') then ddel k d else (k', v') :: ddel k d
  end.

Definition dmem (k : string) d : bool := match dget k d with Some _ => true | None => false end.
Definition keys d : list string := d.*1.

(** [d[k]]. *)
Definition ditem (k : string) d : result V := of_option (KeyError k) (dget k d).

Lemma dget_dset k k' v d : dget k' (dset k v d) = if bool_decide (k = k') then Some v else dget k' d.
Proof using Type.
  induction d as [|[k0 v0] d IH]; simpl.
  - repeat case_bool_decide; congruence.
  - destruct (decide (k = k0)) as [->|Hne].
    + rewrite (bool_decide_eq_true_2 (k0 = k0)) by done. simpl. repeat case_bool_decide; congruence.
    + rewrite (bool_decide_eq_false_2 (k = k0)) by done. simpl. rewrite IH.
      repeat case_bool_decide; congruence.
Qed.

Lemma dget_ddel k k' d : dget k' (ddel k d) = if bool_decide (k = k') then None else dget k' d.
Proof using Type.
  induction d as [|[k0 v0] d IH]; simpl; [by case_bool_decide|].
  destruct (decide (k = k0)) as [->|Hne].
  - rewrite (bool_decide_eq_true_2 (k0 = k0)) by done. rewrite IH. repeat case_bool_decide; congruence.
  - rewrite (bool_decide_eq_false_2 (k = k0)) by done. simpl. rewrite IH.
    repeat case_bool_decide; congruence.
Qed.

Lemma dmem_spec k d : dmem k d = true ↔ ∃ v, dget k d = Some v.
Proof using Type. unfold dmem. destruct (dget k d); naive_solver. Qed.

Lemma dget_elem k v d : dget k d = Some v → (k, v) ∈ d.
Proof using Type.
  induction d as [|[k0 v0] d IH]; simpl; [done|]. case_bool_decide; intros Hd; [|by right; apply IH].
  simplify_eq. left.
Qed.

Lemma elem_dget k v d : NoDup (keys d) → (k, v) ∈ d → dget k d = Some v.
Proof using Type.
  unfold keys. induction d as [|[k0 v0] d IH]; csimpl; intros Hnd Hin; [by apply elem_of_nil in Hin|].
  inversion_clear Hnd as [|? ? Hni Hnd']. apply elem_of_cons in Hin as [[= -> ->]|Hin].
  - by rewrite bool_decide_eq_true_2.
  - case_bool_decide as Hk; [|by apply IH]. subst. exfalso. apply Hni.
    apply list_elem_of_fmap. by exists (k0, v).
Qed.

Lemma dmem_keys k d : dmem k d = true ↔ k ∈ keys d.
Proof using Type.
  unfold dmem, keys. induction d as [|[k0 v0] d IH]; csimpl; [split; [done | by intros ?%elem_of_nil]|].
  rewrite elem_of_cons. case_bool_decide; [naive_solver|]. rewrite IH. naive_solver.
Qed.

Lemma dset_keys_mem k v d : k ∈ keys d → keys (dset k v d) = keys d.
Proof using Type.
  unfold keys. induction d as [|[k0 v0] d IH]; csimpl; [by intros ?%elem_of_nil|].
  intros Hin. case_bool_decide as Hk; csimpl; [by subst|]. f_equal. apply IH.
  apply elem_of_cons in Hin as [|]; done.
Qed.

Lemma dset_keys_new k v d : k ∉ keys d → keys (dset k v d) = keys d ++ [k].
Proof using Type.
  unfold keys. induction d as [|[k0 v0] d IH]; csimpl; [done|].
  rewrite elem_of_cons. intros Hin. case_bool_decide as Hk; csimpl; [naive_solver|].
  f_equal. apply IH. naive_solver.
Qed.

Lemma dset_keys k v d : keys (dset k v d) = if bool_decide (k ∈ keys d) then keys d else keys d ++ [k].
Proof using Type. case_bool_decide; [by apply dset_keys_mem | by apply dset_keys_new]. Qed.

Lemma dset_new k v d : k ∉ keys d → dset k v d = d ++ [(k, v)].
Proof using Type.
  unfold keys. induction d as [|[k0 v0] d IH]; csimpl; [done|]. rewrite elem_of_cons. intros Hn.
  rewrite bool_decide_eq_false_2 by (intros ->; apply Hn; by left). f_equal. apply IH.
  intros Hin. apply Hn. by right.
Qed.

Lemma dset_keys_nodup k v d : NoDup (keys d) → NoDup (keys (dset k v d)).
Proof using Type.
  intros Hnd. rewrite dset_keys. case_bool_decide; [done|]. apply NoDup_app. split; [done|].
  split; [set_solver | apply NoDup_singleton].
Qed.

Lemma ddel_keys k d : keys (ddel k d) = List.filter (λ k', negb (bool_decide (k = k'))) (keys d).
Proof using Type.
  unfold keys. induction d as [|[k0 v0] d IH]; csimpl; [done|].
  case_bool_decide; simpl; [exact IH | by f_equal].
Qed.

Lemma ddel_keys_nodup k d : NoDup (keys d) → NoDup (keys (ddel k d)).
Proof using Type. rewrite ddel_keys, !NoDup_ListNoDup. apply List.NoDup_filter. Qed.
End dict.

#[export] Hint Rewrite @dget_dset @dget_ddel : py.
