(* ===== verification/GroupBy.v ===== *)
(** * Insertion-ordered dicts of lists: [defaultdict(list)]

    The loops of the trainer group values under a key with
    [groups[key].append(value)]; the keys keep the order of their first use. *)

From S2P Require Import Prelude.

Section group_by.
Context {K : Type} `{EqDecision K}.

Fixpoint assoc_lookup {A} (k : K) (l : list (K * A)) : option A :=
  match l with
  | [] => None
  | (k', v) :: l => if bool_decide (k = k') then Some v else assoc_lookup k l
  end.


(** Append to the list of a key of an insertion-ordered dict of lists. *)
Fixpoint group_add {A} (k : K) (a : A) (groups : list (K * list A)) : list (K * list A) :=
  match groups with
  | [] => [(k, [a])]
  | (k', l) :: groups => if bool_decide (k = k') then (k, l ++ [a]) :: groups else (k', l) :: group_add k a groups
  end.
Definition group_by_key {A} (l : list (K * A)) : list (K * list A) :=
  foldl (λ g ka, group_add ka.1 ka.2 g) [] l.

(** The values listed under [k]. *)
Definition members {A} (k : K) (idx : list K) (xs : list A) : list A :=
  (List.filter (λ ka, bool_decide (ka.1 = k)) (zip idx xs)).*2.

Lemma group_add_lookup {A} k (a : A) g k' :
  assoc_lookup k' (group_add k a g) =
    if bool_decide (k = k') then Some (default [] (assoc_lookup k' g) ++ [a]) else assoc_lookup k' g.
Proof using Type.
  induction g as [|[k0 l] g IH]; simpl.
  - case_bool_decide as H1; case_bool_decide as H2; simpl; congruence.
  - destruct (decide (k = k0)) as [<-|Hne].
    + rewrite (bool_decide_eq_true_2 (k = k)) by done. simpl.
      repeat case_bool_decide; simplify_eq/=; auto.
    + rewrite (bool_decide_eq_false_2 (k = k0)) by done. simpl. rewrite IH.
      repeat case_bool_decide; simplify_eq/=; auto.
Qed.

Lemma group_by_key_lookup {A} (l : list (K * A)) k :
  assoc_lookup k (group_by_key l) =
    match (List.filter (λ ka, bool_decide (ka.1 = k)) l).*2 with [] => None | vs => Some vs end.
Proof using Type.
  unfold group_by_key. induction l as [|[k0 a] l IH] using rev_ind; [done|].
  rewrite foldl_app. simpl. rewrite group_add_lookup, IH, List.filter_app, fmap_app. simpl.
  case_bool_decide as Hk; simpl.
  - destruct (List.filter _ l).*2; done.
  - by rewrite app_nil_r.
Qed.

Lemma group_add_keys {A} k (a : A) g :
  NoDup g.*1 → NoDup (group_add k a g).*1 ∧ ∀ k', k' ∈ (group_add k a g).*1 ↔ k' = k ∨ k' ∈ g.*1.
Proof using Type.
  induction g as [|[k0 l] g IH]; csimpl; intros Hnd.
  - split; [repeat constructor; set_solver|]. set_solver.
  - inversion_clear Hnd as [|? ? Hni Hnd']. case_bool_decide as H0; csimpl.
    + subst. split; [by constructor|]. set_solver.
    + destruct (IH Hnd') as [IH1 IH2]. split; [constructor; [rewrite IH2; set_solver|done]|].
      intros k'. rewrite !elem_of_cons, IH2. set_solver.
Qed.

Lemma group_by_key_nodup {A} (l : list (K * A)) : NoDup (group_by_key l).*1.
Proof using Type.
  unfold group_by_key. induction l as [|ka l IH] using rev_ind; [constructor|].
  rewrite foldl_app. simpl. by apply group_add_keys.
Qed.

Lemma assoc_lookup_elem {A} (g : list (K * A)) k v :
  NoDup g.*1 → (k, v) ∈ g ↔ assoc_lookup k g = Some v.
Proof using Type.
  induction g as [|[k0 v0] g IH]; csimpl; intros Hnd; [set_solver|].
  inversion_clear Hnd as [|? ? Hni Hnd']. rewrite elem_of_cons. case_bool_decide as Hk.
  - subst k0. split; [|intros [= ->]; by left]. intros [[= ->]|Hin]; [done|].
    exfalso. apply Hni. apply list_elem_of_fmap. by exists (k, v).
  - rewrite IH by done. split; [intros [[= -> ->]|H]; [done|done] | by right].
Qed.
Lemma members_zip_with {A B C} (f : A → B → C) (h : K → B) k idx (xs : list A) :
  members k idx (zip_with f xs (h <$> idx)) = (λ x, f x (h k)) <$> members k idx xs.
Proof using Type.
  unfold members. revert xs. induction idx as [|k0 idx IH]; intros [|x xs]; [done..|].
  csimpl. specialize (IH xs). case_bool_decide; csimpl; [|done]. subst. by f_equal.
Qed.

Lemma members_fmap {A B} (f : A → B) k idx (xs : list A) :
  members k idx (f <$> xs) = f <$> members k idx xs.
Proof using Type.
  unfold members. revert xs. induction idx as [|k0 idx IH]; intros [|x xs]; [done..|].
  csimpl. specialize (IH xs). case_bool_decide; csimpl; [|done]. by f_equal.
Qed.

Lemma members_elem {A} k idx (xs : list A) x :
  x ∈ members k idx xs ↔ ∃ i, idx !! i = Some k ∧ xs !! i = Some x.
Proof using Type.
  unfold members. rewrite list_elem_of_fmap. split.
  - intros ([k' x'] & -> & Hin). apply list_elem_of_In, List.filter_In in Hin as [Hin Hk].
    apply bool_decide_eq_true in Hk. simpl in Hk. subst k'.
    apply list_elem_of_In, list_elem_of_lookup in Hin as [i Hi].
    apply lookup_zip_Some in Hi as [? ?]. by exists i.
  - intros (i & Hk & Hx). exists (k, x). split; [done|]. apply list_elem_of_In, List.filter_In.
    split; [|by apply bool_decide_eq_true]. apply list_elem_of_In, list_elem_of_lookup. exists i.
    by apply lookup_zip_Some.
Qed.
End group_by.

(** Two labellings with the same classes have the same members. *)
Lemma members_same_classes {K1 K2 A} `{EqDecision K1, EqDecision K2} (idx1 : list K1) (idx2 : list K2)
    k1 k2 (xs : list A) :
  Forall2 (λ a b, a = k1 ↔ b = k2) idx1 idx2 → members k1 idx1 xs = members k2 idx2 xs.
Proof.
  intros Hsame. revert xs. unfold members. induction Hsame as [|a b idx1 idx2 Hab Hs IH]; intros [|x xs]; [done..|].
  csimpl. rewrite (bool_decide_ext _ _ Hab). specialize (IH xs). case_bool_decide; csimpl; [|done]. by f_equal.
Qed.
