(* ===== verification/Json.v ===== *)
(** * JSON rows

    The rows the data tools of [src/tools/extpi_rlsd/] read, build and write are
    Python dicts of JSON values.  A dict keeps insertion order, so it is an
    association list; assignment to a present key keeps its place. *)

From S2P Require Import Prelude PyStr.
From Stdlib Require Import QArith.
Local Close Scope Q_scope.
Local Open Scope py_scope.

#[warnings="-register-all"]
Inductive json :=
  | JNull
  | JBool (b : bool)
  | JInt (z : Z)
  | JFloat (q : Q)
  | JStr (s : string)
  | JList (l : list json)
  | JObj (o : list (string * json)).

Abbreviation dict := (list (string * json)).

(** [str()] of floats and containers, and [float()] and [int()] of a string, are CPython's;
    a development using them fixes an instance. *)
Class PyPrims := {
  py_repr : json → string;
  float_of_str : string → option Q;
  int_of_str : string → option Z }.

(** [d.get(k)] as an option: [None] for an absent key. *)
Fixpoint lookup (k : string) (d : dict) : option json :=
  match d with
  | [] => None
  | (k', v) :: d => if bool_decide (k = k') then Some v else lookup k d
  end.
(** [d.get(k, default)] and [d.get(k)]. *)
Definition get_default (k : string) (v : json) (d : dict) : json := default v (lookup k d).
Definition get (k : string) (d : dict) : json := get_default k JNull d.
(** [d[k]]. *)
Definition getitem (k : string) (d : dict) : result json := of_option (KeyError k) (lookup k d).
(** [d[k] = v]. *)
Fixpoint set (k : string) (v : json) (d : dict) : dict :=
  match d with
  | [] => [(k, v)]
  | (k', v') :: d => if bool_decide (k = k') then (k, v) :: d else (k', v') :: set k v d
  end.
(** [d.setdefault(k, v)] and [d.update(e)]. *)
Definition setdefault (k : string) (v : json) (d : dict) : dict :=
  match lookup k d with Some _ => d | None => set k v d end.
Definition update (e d : dict) : dict := foldl (λ d kv, set kv.1 kv.2 d) d e.

Definition truthy (v : json) : bool :=
  match v with
  | JNull => false
  | JBool b => b
  | JInt z => negb (Z.eqb z 0)
  | JFloat q => negb (Qeq_bool q 0%Q)
  | JStr s => negb (bool_decide (s = ""%string))
  | JList l => match l with [] => false | _ => true end
  | JObj o => match o with [] => false | _ => true end
  end.

(** [a or b]. *)
Definition py_or (a b : json) : json := if truthy a then a else b.

(** [v == s] for a string [s]. *)
Definition is_str (v : json) (s : string) : bool :=
  match v with JStr t => bool_decide (t = s) | _ => false end.

Definition is_none (v : json) : bool := match v with JNull => true | _ => false end.

(** [v == w]: numbers and booleans compare by value, dicts without regard to order. *)
Definition as_number (v : json) : option Q :=
  match v with
  | JBool b => Some (if b then 1%Q else 0%Q) | JInt z => Some (inject_Z z) | JFloat q => Some q
  | _ => None
  end.

Fixpoint py_eq (v w : json) {struct v} : bool :=
  match v, w with
  | JNull, JNull => true
  | JStr s, JStr t => bool_decide (s = t)
  | JList l, JList m =>
      (fix eq_list l m := match l, m with
                          | [], [] => true
                          | a :: l, b :: m => py_eq a b && eq_list l m
                          | _, _ => false
                          end) l m
  | JObj o, JObj p =>
      (fix eq_items o := match o with
                         | [] => true
                         | (k, a) :: o => match lookup k p with Some b => py_eq a b | None => false end && eq_items o
                         end) o && (length o =? length p)
  | _, _ => match as_number v, as_number w with Some a, Some b => Qeq_bool a b | _, _ => false end
  end.

(** [v in s] for a set of strings; a list or a dict is not hashable. *)
Definition in_str_set (v : json) (s : list string) : result bool :=
  match v with
  | JList _ | JObj _ => Raise (TypeError "unhashable type")
  | _ => Ok (existsb (is_str v) s)
  end.

Section prims.
Context `{PyPrims}.

Definition py_str (v : json) : string :=
  match v with
  | JNull => "None"
  | JBool true => "True"
  | JBool false => "False"
  | JInt z => pretty z
  | JStr s => s
  | _ => py_repr v
  end.

(** [float(v)]. *)
Definition py_float (v : json) : result Q :=
  match v with
  | JBool b => Ok (if b then 1%Q else 0%Q)
  | JInt z => Ok (inject_Z z)
  | JFloat q => Ok q
  | JStr s => of_option (ValueError "could not convert string to float") (float_of_str s)
  | _ => Raise (TypeError "float() argument must be a string or a real number")
  end.

(** [int(v)]: floats are truncated towards zero. *)
Definition py_int (v : json) : result Z :=
  match v with
  | JBool b => Ok (Z.b2z b)
  | JInt z => Ok z
  | JFloat q => Ok (Z.quot (Qnum q) (Zpos (Qden q)))
  | JStr s => of_option (ValueError "invalid literal for int()") (int_of_str s)
  | _ => Raise (TypeError "int() argument must be a string or a real number")
  end.
End prims.

(** ** Dict lemmas *)

Lemma lookup_set_eq k v d : lookup k (set k v d) = Some v.
Proof.
  induction d as [|[k' v'] d IH]; simpl; [by rewrite bool_decide_eq_true_2|].
  case_bool_decide; simpl; [by rewrite bool_decide_eq_true_2 | by rewrite bool_decide_eq_false_2].
Qed.

Lemma lookup_set_ne k k' v d : k ≠ k' → lookup k' (set k v d) = lookup k' d.
Proof.
  intros Hne. induction d as [|[k'' v''] d IH]; simpl.
  - by rewrite bool_decide_eq_false_2.
  - case_bool_decide; simpl; [subst|].
    + by rewrite !bool_decide_eq_false_2.
    + case_bool_decide; auto.
Qed.

Lemma lookup_set k k' v d :
  lookup k' (set k v d) = if bool_decide (k = k') then Some v else lookup k' d.
Proof.
  case_bool_decide; [subst; apply lookup_set_eq | by apply lookup_set_ne].
Qed.

Lemma lookup_setdefault k k' v d :
  lookup k' (setdefault k v d) =
    if bool_decide (k = k') then Some (default v (lookup k d)) else lookup k' d.
Proof.
  unfold setdefault. destruct (lookup k d) eqn:E; [|by rewrite lookup_set].
  case_bool_decide; [by subst | done].
Qed.

Lemma is_str_spec v s : is_str v s = true ↔ v = JStr s.
Proof.
  destruct v; simpl; try (split; [done | by intros [=]]). rewrite bool_decide_eq_true.
  split; [by intros -> | by intros [=]].
Qed.

#[export] Hint Rewrite lookup_set lookup_setdefault : py.

#[export] Instance sample_prims : PyPrims := {|
  py_repr := λ _, "<repr>"%string;
  float_of_str := λ _, None;
  int_of_str := λ _, None |}.
