(* ===== verification/SeqlenBalancing.v ===== *)
(** * Sequence-length balancing: [src/verl/utils/seqlen_balancing.py]

    The Karmarkar-Karp partitioner on the heap of [PyHeap.v], the greedy
    partitioner, the checks of [get_seqlen_balanced_partitions], the
    micro-batch construction of [rearrange_micro_batches] and its inverse
    [restore_dynamic_batch].  Lengths are Python integers ([Z]); indices are
    list positions ([nat]). *)

From stdpp Require Import base list.
From Stdlib Require Import ZArith Lia QArith.
From S2P Require Import Prelude PyHeap.
Local Open Scope Z_scope.
Local Open Scope py_scope.

(** ** Workload and integer helpers *)

Definition calculate_workload (seqlen : Z) : Z := 24576 * seqlen + seqlen ^ 2.

(** Python's [//] is floor division, as [Z.div] is. *)
Definition ceildiv (a b : Z) : Z := - (a / - b).
Definition roundup_divisible (a b : Z) : Z := (a + b - 1) / b * b.

(** ** The classes [Set] and [State] of [karmarkar_karp] *)

Record kset := KSet { ksum : Z; kitems : list (nat * Z) }.
#[export] Instance kset_eq_dec : EqDecision kset.
Proof. solve_decision. Defined.

Definition kset_empty : kset := KSet 0 [].
Definition kset_add (idx : nat) (val : Z) (s : kset) : kset :=
  KSet (ksum s + val) (kitems s ++ [(idx, val)]).
Definition kset_merge (s other : kset) : kset :=
  foldl (λ s iv, kset_add iv.1 iv.2 s) s (kitems other).

(** Python's [<] on [(int, int)] tuples and on lists of them. *)
Definition pair_lt (x y : nat * Z) : bool :=
  if decide (x.1 = y.1) then x.2 <? y.2 else Nat.ltb x.1 y.1.
Fixpoint items_lt (l m : list (nat * Z)) : bool :=
  match l, m with
  | _, [] => false
  | [], _ :: _ => true
  | x :: l, y :: m => if decide (x = y) then items_lt l m else pair_lt x y
  end.
Definition kset_lt (s o : kset) : bool :=
  if negb (ksum s =? ksum o) then ksum s <? ksum o
  else if negb (Nat.eqb (length (kitems s)) (length (kitems o)))
  then Nat.ltb (length (kitems s)) (length (kitems o))
  else items_lt (kitems s) (kitems o).

Record kstate := KState { kk : nat; ksets : list kset }.

Definition kstate_init (items : list (nat * Z)) (k : nat) : result kstate :=
  require (Nat.eqb (length items) 1 || Nat.eqb (length items) k)
    else AssertionError "len(items) not in [1, k]" ;;
  sets ← foldM (λ sets e,
      s ← of_option (IndexError "list index out of range") (sets !! e.1);
      Ok (<[e.1 := kset_add e.2.1 e.2.2 s]> sets))
    (replicate k kset_empty) (imap pair items);
  Ok (KState k (sort_by (flip kset_lt) sets)).

Definition get_partitions (st : kstate) : list (list nat) :=
  (λ s, (kitems s).*1) <$> ksets st.

(** [self.sets[i].merge(other.sets[self.k - 1 - i])] for [i < k], then re-sort. *)
Definition kstate_merge (st other : kstate) : kstate :=
  KState (kk st)
    (sort_by (flip kset_lt) (zip_with kset_merge (ksets st) (reverse (ksets other)))).

Definition head_set (st : kstate) : kset := default kset_empty (head (ksets st)).
Definition last_set (st : kstate) : kset := default kset_empty (last (ksets st)).
Definition spread (st : kstate) : Z := ksum (head_set st) - ksum (last_set st).
Definition kstate_lt (s o : kstate) : bool :=
  if negb (spread s =? spread o) then spread o <? spread s
  else kset_lt (head_set o) (head_set s).

(** ** [karmarkar_karp] *)

(** Sorting of the [(seqlen, i)] tuples. *)
Definition seqlen_lt (x y : Z * nat) : bool :=
  if decide (x.1 = y.1) then Nat.ltb x.2 y.2 else x.1 <? y.1.
Definition sorted_seqlens (seqlen_list : list Z) : list (Z * nat) :=
  sort_by seqlen_lt (imap (λ i seqlen, (seqlen, i)) seqlen_list).

Definition to_item (p : Z * nat) : nat * Z := (p.2, p.1).

Definition push_state (k : nat) (pq : list kstate) (items : list (nat * Z)) :
    result (list kstate) :=
  st ← kstate_init items k; Ok (heappush kstate_lt pq st).

(** [while len(states_pq) > 1]; the fuel is the number of states, and each round
    removes one. *)
Fixpoint merge_loop (fuel : nat) (pq : list kstate) : list kstate :=
  match fuel with
  | O => pq
  | S fuel =>
      match pq with
      | [] | [_] => pq
      | _ =>
          match heappop kstate_lt pq with
          | None => pq
          | Some (state0, pq1) =>
              match heappop kstate_lt pq1 with
              | None => pq
              | Some (state1, pq2) =>
                  merge_loop fuel (heappush kstate_lt pq2 (kstate_merge state0 state1))
              end
          end
      end
  end.

(** [sorted_seqlen_list[offset : offset + k]] for [offset] in [range(0, n, k)]. *)
Fixpoint chunks {A} (fuel k : nat) (l : list A) : list (list A) :=
  match fuel with
  | O => []
  | S fuel => match l with [] => [] | _ => take k l :: chunks fuel k (drop k l) end
  end.

Definition karmarkar_karp (seqlen_list : list Z) (k_partitions : nat) (equal_size : bool) :
    result (list (list nat)) :=
  let sorted_seqlen_list := sorted_seqlens seqlen_list in
  let n := length seqlen_list in
  states_pq ←
    (if equal_size then
       require negb (Nat.eqb k_partitions 0) else ZeroDivisionError "integer modulo by zero" ;;
       require Nat.eqb (n mod k_partitions) 0 else AssertionError "len % k != 0" ;;
       foldM (push_state k_partitions) []
         (map (map to_item) (chunks n k_partitions sorted_seqlen_list))
     else
       foldM (push_state k_partitions) [] (map (λ p, [to_item p]) sorted_seqlen_list));
  final_state ← of_option (IndexError "list index out of range")
                  (head (merge_loop (length states_pq) states_pq));
  let partitions := get_partitions final_state in
  if equal_size then
    require forallb (λ p, Nat.eqb (length p * k_partitions) n) partitions
      else AssertionError "len(partition) * k_partitions != len(seqlen_list)" ;;
    Ok partitions
  else Ok partitions.

(** ** [greedy_partition] *)

(** The inner loop: the first index whose sum is strictly smaller than all earlier ones. *)
Fixpoint argmin_from (sums : list Z) (j : nat) (best : option (nat * Z)) : option (nat * Z) :=
  match sums with
  | [] => best
  | s :: sums =>
      let best' := match best with
                   | None => Some (j, s)
                   | Some (_, b) => if s <? b then Some (j, s) else best
                   end in
      argmin_from sums (S j) best'
  end.

Definition greedy_step (st : list (list nat) * list Z) (e : Z * nat) :
    result (list (list nat) * list Z) :=
  let '(partitions, partition_sums) := st in
  m ← of_option (TypeError "list indices must be integers or slices, not NoneType")
        (argmin_from partition_sums 0 None);
  Ok (alter (λ p, p ++ [e.2]) m.1 partitions, alter (λ s, s + e.1) m.1 partition_sums).

Definition greedy_partition (seqlen_list : list Z) (k_partitions : nat) (equal_size : bool) :
    result (list (list nat)) :=
  let bias := if equal_size then zsum seqlen_list + 1 else 0 in
  let sorted_seqlen := imap (λ i seqlen, (seqlen + bias, i)) seqlen_list in
  st ← foldM greedy_step (replicate k_partitions [], replicate k_partitions 0) sorted_seqlen;
  if equal_size then
    require forallb (λ p, Nat.eqb (length p * k_partitions) (length seqlen_list)) st.1
      else AssertionError "len(partition) * k_partitions != len(seqlen_list)" ;;
    Ok st.1
  else Ok st.1.

(** ** [get_seqlen_balanced_partitions] *)

Definition nat_lt (x y : nat) : bool := Nat.ltb x y.

(** [seen_idx == set(range(n))]: the same members in both sets. *)
Definition same_index_set (seen : list nat) (n : nat) : bool :=
  forallb (λ i, bool_decide (i ∈ seen)) (seq 0 n) && forallb (λ i, Nat.ltb i n) seen.

Definition check_and_sort_partitions (n k_partitions : nat) (partitions : list (list nat)) :
    result (list (list nat)) :=
  require Nat.eqb (length partitions) k_partitions else AssertionError "len(partitions)" ;;
  require forallb (λ p, Nat.ltb 0 (length p)) partitions
    else AssertionError "the partition is empty" ;;
  require same_index_set (concat partitions) n else AssertionError "seen_idx" ;;
  Ok (sort_by nat_lt <$> partitions).

Definition get_seqlen_balanced_partitions (seqlen_list : list Z) (k_partitions : nat)
    (equal_size : bool) : result (list (list nat)) :=
  require Nat.leb k_partitions (length seqlen_list)
    else AssertionError "number of items < k_partitions" ;;
  partitions ← karmarkar_karp seqlen_list k_partitions equal_size;
  check_and_sort_partitions (length seqlen_list) k_partitions partitions.

(** ** [log_seqlen_unbalance] *)

Record unbalance_metrics := {
  um_min : Z; um_max : Z; um_minmax_diff : Z;
  um_balanced_min : Z; um_balanced_max : Z; um_mean : Q }.

Definition min_list (l : list Z) : option Z :=
  match l with [] => None | z :: l => Some (foldl Z.min z l) end.
Definition max_list (l : list Z) : option Z :=
  match l with [] => None | z :: l => Some (foldl Z.max z l) end.

Definition nth_result {A} (l : list A) (i : nat) : result A :=
  of_option (IndexError "list index out of range") (l !! i).

Definition log_seqlen_unbalance (seqlen_list : list Z) (partitions : list (list nat)) :
    result unbalance_metrics :=
  let k_partition := length partitions in
  require negb (Nat.eqb k_partition 0) else ZeroDivisionError "integer division by zero" ;;
  let batch_size := (length seqlen_list / k_partition)%nat in
  require negb (Nat.eqb batch_size 0) else ValueError "range() arg 3 must not be zero" ;;
  let sums := zsum <$> chunks (length seqlen_list) batch_size seqlen_list in
  balanced ← mapM (λ partition, zsum <$> mapM (nth_result seqlen_list) partition) partitions;
  bmin ← of_option (ValueError "min() arg is an empty sequence") (min_list balanced);
  bmax ← of_option (ValueError "max() arg is an empty sequence") (max_list balanced);
  smin ← of_option (TypeError "unsupported operand") (min_list sums);
  smax ← of_option (TypeError "unsupported operand") (max_list sums);
  Ok {| um_min := smin; um_max := smax; um_minmax_diff := smax - smin;
        um_balanced_min := bmin; um_balanced_max := bmax;
        um_mean := Qmake (zsum sums) (Pos.of_nat k_partition) |}.

(** ** [rearrange_micro_batches]

    The batch is the list of its samples.  [seq_len_effective] and [max_seq_len]
    are what the first lines read off the batch (offsets of a nested tensor, or
    sums and width of the attention mask).  The data-parallel maximum of
    [dist.all_reduce] is an argument: [Some f] when [dist.is_initialized()] and a
    [dp_group] is given.  Non-negative counts are [nat]. *)

Record micro_batch_options := {
  max_token_len : Z;
  dp_all_reduce_max : option (Z → Z);
  num_batches_divided_by : option Z;
  same_micro_num_in_dp : bool;
  min_num_micro_batch : option Z;
  use_dynamic_bsz_balance : bool;
  force_group_size : nat }.

(** [l[::2]]. *)
Fixpoint every_other {A} (l : list A) : list A :=
  match l with x :: _ :: l' => x :: every_other l' | _ => l end.

(** The micro-batch count before partitioning. *)
Definition num_micro_batches_of (o : micro_batch_options) (num_groups : nat) (total_seqlen : Z) : Z :=
  let n1 := Z.min (Z.of_nat num_groups) (ceildiv total_seqlen (max_token_len o)) in
  let n2 := match min_num_micro_batch o with None => n1 | Some m => Z.max m n1 end in
  let n3 := match dp_all_reduce_max o with
            | Some reduce => if same_micro_num_in_dp o then reduce n2 else n2
            | None => n2 end in
  match num_batches_divided_by o with None => n3 | Some d => roundup_divisible n3 d end.

(** [workloads.view(num_groups, g).sum(dim=1)]; per sample when [g = 1]. *)
Definition group_workloads (g : nat) (seqlens : list Z) : list Z :=
  zsum <$> chunks (length seqlens) g (calculate_workload <$> seqlens).

Definition expand_group (g : nat) (group_idx : nat) : list nat := seq (group_idx * g) g.

(** Sort key: [(sum of the workloads, first sample index)]. *)
Definition micro_key (g : nat) (workloads : list Z) (partition : list nat) : Z * nat :=
  (zsum ((λ idx, nth (idx / g) workloads 0) <$>
      (foldr (λ x acc, if Nat.eqb (x.1 mod g) 0 then x.2 :: acc else acc) [] (imap pair partition))),
   default O (head partition)).

Definition micro_key_lt (g : nat) (workloads : list Z) (p q : list nat) : bool :=
  seqlen_lt (micro_key g workloads p) (micro_key g workloads q).

(** [idx[::2][::-1] + idx[1::2]] after the descending sort. *)
Definition balance_order {A} (l : list A) : list A :=
  reverse (every_other l) ++ every_other (drop 1 l).

Definition rearrange_micro_batches {A} (o : micro_batch_options)
    (batch : list A) (seq_len_effective : list Z) (max_seq_len : Z) :
    result (list (list A) * list (list nat)) :=
  require max_seq_len <=? max_token_len o
    else AssertionError "max_token_len must be greater than the sequence length" ;;
  let batch_size := length seq_len_effective in
  let g := force_group_size o in
  require negb (Nat.eqb g 0) else ZeroDivisionError "integer modulo by zero" ;;
  require Nat.eqb (batch_size mod g) 0 else AssertionError "Batch size must be divisible" ;;
  let total_seqlen := zsum seq_len_effective in
  let num_groups := (batch_size / g)%nat in
  require negb (max_token_len o =? 0) else ZeroDivisionError "integer division by zero" ;;
  let num_micro_batches := num_micro_batches_of o num_groups total_seqlen in
  require num_micro_batches <=? Z.of_nat num_groups else AssertionError "num_micro_batches" ;;
  let workloads := group_workloads g seq_len_effective in
  groups ← get_seqlen_balanced_partitions workloads (Z.to_nat num_micro_batches) false;
  let micro_bsz_idx := (λ p, concat (expand_group g <$> p)) <$> groups in
  let micro_bsz_idx :=
    if use_dynamic_bsz_balance o
    then balance_order (sort_by (flip (micro_key_lt g workloads)) micro_bsz_idx)
    else micro_bsz_idx in
  micro_batches ← mapM (mapM (nth_result batch)) micro_bsz_idx;
  Ok (micro_batches, micro_bsz_idx).

(** ** [get_reverse_idx] and [restore_dynamic_batch] *)

Definition get_reverse_idx (idx_map : list nat) : result (list nat) :=
  foldM (λ rev e, if decide (e.2 < length rev)%nat then Ok (<[e.2 := e.1]> rev)
                  else Raise (IndexError "list assignment index out of range"))
    idx_map (imap pair idx_map).

Definition restore_dynamic_batch {A} (data : list A) (batch_idx_list : list (list nat)) :
    result (list A) :=
  let indices := concat batch_idx_list in
  require Nat.eqb (length indices) (length data) else AssertionError "indices vs. batch_size" ;;
  revert_indices ← get_reverse_idx indices;
  mapM (nth_result data) revert_indices.

(** ** [get_group_balanced_partitions]

    [uid_eqb] is the equality of the uids; [None] is the initial [current_uid]. *)

Section group_balanced.
Context {U : Type} `{EqDecision U}.

(** Loop state: finished groups, current uid, current indices. *)
Definition group_scan_step (st : list (list nat) * option U * list nat) (e : nat * U) :
    list (list nat) * option U * list nat :=
  let '(groups, current_uid, current_indices) := st in
  if decide (Some e.2 = current_uid)
  then (groups, current_uid, current_indices ++ [e.1])
  else (match current_indices with [] => groups | _ => groups ++ [current_indices] end,
        Some e.2, [e.1]).

Definition uid_groups (uid_list : list U) : list (list nat) :=
  let '(groups, _, current_indices) := foldl group_scan_step ([], None, []) (imap pair uid_list) in
  match current_indices with [] => groups | _ => groups ++ [current_indices] end.

Definition get_group_balanced_partitions (seqlen_list : list Z) (uid_list : list U)
    (k_partitions : nat) : result (list (list nat)) :=
  require Nat.eqb (length seqlen_list) (length uid_list)
    else AssertionError "seqlen_list and uid_list must have same length" ;;
  let groups := uid_groups uid_list in
  require Nat.leb k_partitions (length groups) else AssertionError "Number of uid groups" ;;
  let group_workloads :=
    map (λ indices, zsum (map (λ i, calculate_workload (nth i seqlen_list 0)) indices)) groups in
  group_partitions ← get_seqlen_balanced_partitions group_workloads k_partitions true;
  Ok (map (λ gp, sort_by nat_lt (concat (map (λ g, nth g groups []) gp))) group_partitions).
End group_balanced.

(** ** Integer helpers *)

Lemma ceildiv_spec a b : 0 < b → b * (ceildiv a b - 1) < a ≤ b * ceildiv a b.
Proof.
  intros Hb. unfold ceildiv.
  pose proof (Z.div_mod a (-b)). pose proof (Z.mod_neg_bound a (-b)). nia.
Qed.

Lemma roundup_divisible_spec a b :
  0 < b → a ≤ roundup_divisible a b < a + b ∧ (b | roundup_divisible a b).
Proof.
  intros Hb. unfold roundup_divisible.
  pose proof (Z.div_mod (a + b - 1) b). pose proof (Z.mod_pos_bound (a + b - 1) b).
  split; [nia | apply Z.divide_factor_r].
Qed.

(** ** The order of [Set] *)

Lemma pair_lt_irrefl x : pair_lt x x = false.
Proof. unfold pair_lt. case_decide; [apply Z.ltb_irrefl | done]. Qed.

Lemma pair_lt_spec x y : pair_lt x y = true ↔ (x.1 < y.1)%nat ∨ (x.1 = y.1 ∧ x.2 < y.2).
Proof.
  unfold pair_lt. case_decide.
  - rewrite Z.ltb_lt. lia.
  - rewrite Nat.ltb_lt. lia.
Qed.

Lemma items_lt_asym l m : items_lt l m = true → items_lt m l = false.
Proof.
  revert m. induction l as [|x l IH]; intros [|y m]; simpl; try done.
  repeat case_decide; simplify_eq; auto.
  intros Hp%pair_lt_spec. apply not_true_is_false. rewrite pair_lt_spec. lia.
Qed.

Lemma items_lt_total l m : l = m ∨ items_lt l m = true ∨ items_lt m l = true.
Proof.
  revert m. induction l as [|x l IH]; intros [|y m]; simpl; auto.
  destruct (decide (x = y)) as [->|Hne].
  - rewrite decide_True by done. destruct (IH m) as [->|[|]]; auto.
  - rewrite decide_False by done. right. rewrite !pair_lt_spec.
    destruct x as [i v], y as [j w]; simpl in *.
    destruct (decide (i = j)) as [->|]; [|lia].
    assert (v ≠ w) by congruence. lia.
Qed.

Lemma items_lt_trans l m n : items_lt l m = true → items_lt m n = true → items_lt l n = true.
Proof.
  revert m n. induction l as [|x l IH]; intros [|y m] [|z n]; simpl; try done.
  repeat case_decide; simplify_eq; eauto;
    rewrite ?pair_lt_spec; intros; simplify_eq; try lia.
Qed.

Lemma kset_lt_spec s o : kset_lt s o = true ↔
  ksum s < ksum o ∨ (ksum s = ksum o ∧
    ((length (kitems s) < length (kitems o))%nat ∨
     (length (kitems s) = length (kitems o) ∧ items_lt (kitems s) (kitems o) = true))).
Proof.
  unfold kset_lt. destruct (Z.eqb_spec (ksum s) (ksum o)); simpl.
  - destruct (Nat.eqb_spec (length (kitems s)) (length (kitems o))); simpl.
    + split; [auto | intros [?|[? [?|[? ?]]]]; auto; lia].
    + rewrite Nat.ltb_lt. split; [auto | intros [?|[? [?|[? ?]]]]; auto; lia].
  - rewrite Z.ltb_lt. split; [auto | intros [?|[? ?]]; auto; lia].
Qed.

Lemma kset_lt_asym s o : kset_lt s o = true → kset_lt o s = false.
Proof.
  rewrite kset_lt_spec. intros H. apply not_true_is_false. rewrite kset_lt_spec.
  destruct H as [?|[? [?|[? Hi]]]]; [lia|lia|].
  apply items_lt_asym in Hi. rewrite Hi. intros [?|[? [?|[? ?]]]]; [lia|lia|done].
Qed.

Lemma kset_lt_trans s o p : kset_lt s o = true → kset_lt o p = true → kset_lt s p = true.
Proof.
  rewrite !kset_lt_spec. intros [?|[? [?|[? ?]]]] [?|[? [?|[? ?]]]]; try lia.
  right. split; [lia|]. right. split; [lia|]. by eapply items_lt_trans.
Qed.

Lemma kset_lt_total s o : s = o ∨ kset_lt s o = true ∨ kset_lt o s = true.
Proof.
  rewrite !kset_lt_spec. destruct s as [v l], o as [w m]; simpl.
  destruct (Z.lt_total v w) as [|[->|]]; [auto | | auto].
  destruct (Nat.lt_total (length l) (length m)) as [|[Hl|]]; [auto 6 | | auto 6].
  destruct (items_lt_total l m) as [->|[|]]; auto 8.
Qed.

Lemma desc_asym s o : flip kset_lt s o = true → flip kset_lt o s = false.
Proof. apply kset_lt_asym. Qed.

Lemma desc_neg_trans s o p :
  flip kset_lt o s = false → flip kset_lt p o = false → flip kset_lt p s = false.
Proof.
  simpl. intros H1 H2. apply not_true_is_false. intros H3.
  destruct (kset_lt_total o s) as [->|[H|H]]; [congruence| |congruence].
  assert (kset_lt o p = true) by (by eapply kset_lt_trans). congruence.
Qed.

Lemma sorted_sets_desc l : StronglySorted (no_inversion (flip kset_lt)) (sort_by (flip kset_lt) l).
Proof. apply sort_by_sorted; [apply desc_asym | apply desc_neg_trans]. Qed.

(** ** Well-formed sets and states

    [wf_kset]: the running sum is the sum of the items, all values non-negative. *)

Definition wf_kset (s : kset) : Prop :=
  ksum s = zsum (kitems s).*2 ∧ Forall (λ z, 0 ≤ z) (kitems s).*2.

Definition nonempty_set (s : kset) : bool := negb (Nat.eqb (length (kitems s)) 0).
Definition bcount (l : list bool) : nat := length (filter (λ b, b = true) l).
Definition nonempty_count (st : kstate) : nat := bcount (nonempty_set <$> ksets st).

Record wf_kstate (k : nat) (st : kstate) : Prop := {
  wf_k : kk st = k;
  wf_len : length (ksets st) = k;
  wf_sets : Forall wf_kset (ksets st);
  wf_desc : StronglySorted (no_inversion (flip kset_lt)) (ksets st) }.

(** All indices held by the sets of a state. *)
Definition state_items (st : kstate) : list (nat * Z) := concat (kitems <$> ksets st).

Lemma kset_merge_items s o : kitems (kset_merge s o) = kitems s ++ kitems o.
Proof.
  unfold kset_merge. destruct o as [v l]; simpl. clear v.
  revert s. induction l as [|[i w] l IH]; intros s; simpl; [by rewrite app_nil_r|].
  rewrite IH. simpl. by rewrite <-(assoc_L (++)).
Qed.

Lemma kset_merge_sum s o : ksum (kset_merge s o) = ksum s + zsum (kitems o).*2.
Proof.
  unfold kset_merge. destruct o as [v l]; simpl. clear v.
  revert s. induction l as [|[i w] l IH]; intros s; csimpl; [lia|].
  rewrite IH. simpl. lia.
Qed.

Lemma wf_kset_merge s o : wf_kset s → wf_kset o → wf_kset (kset_merge s o).
Proof.
  intros [H1 H2] [H3 H4]. split.
  - rewrite kset_merge_sum, kset_merge_items, fmap_app, zsum_app. lia.
  - rewrite kset_merge_items, fmap_app. by apply Forall_app.
Qed.

Lemma nonempty_merge s o :
  nonempty_set (kset_merge s o) = nonempty_set s || nonempty_set o.
Proof.
  unfold nonempty_set. rewrite kset_merge_items, length_app.
  by destruct (kitems s), (kitems o).
Qed.

Lemma wf_nonempty_before s o :
  wf_kset s → wf_kset o → kset_lt s o = false → nonempty_set o = true → nonempty_set s = true.
Proof.
  intros [Hs _] [Ho Hpos] Hlt Hne.
  destruct (nonempty_set s) eqn:E; [done|]. exfalso.
  unfold nonempty_set in *. destruct (kitems s) eqn:Es; [|done].
  apply zsum_nonneg in Hpos. rewrite <-Ho in Hpos.
  destruct (kitems o) eqn:Eo; [done|].
  assert (H : kset_lt s o = true); [|congruence].
  apply kset_lt_spec. rewrite Es, Eo, Hs. simpl. lia.
Qed.

(** ** Counting non-empty sets through a merge *)

Lemma bcount_cons b l : bcount (b :: l) = ((if b then 1 else 0) + bcount l)%nat.
Proof. unfold bcount. destruct b; reflexivity. Qed.

Lemma bcount_all l : Forall (λ b, b = true) l → bcount l = length l.
Proof. induction 1; [done|]. rewrite bcount_cons. subst. simpl. lia. Qed.

Lemma bcount_none l : Forall (λ b, b = false) l → bcount l = 0%nat.
Proof. induction 1; [done|]. rewrite bcount_cons. by subst. Qed.

Lemma bcount_le l : (bcount l ≤ length l)%nat.
Proof. unfold bcount. apply length_filter. Qed.

Lemma bcount_full l : bcount l = length l → Forall (λ b, b = true) l.
Proof.
  induction l as [|b l IH]; rewrite ?bcount_cons; simpl; intros H; [constructor|].
  pose proof (bcount_le l). destruct b; simpl in H; [|lia].
  constructor; [done|]. apply IH. lia.
Qed.

Lemma bcount_perm l m : l ≡ₚ m → bcount l = bcount m.
Proof. intros H. unfold bcount. by rewrite H. Qed.

(** Left list: non-empty first.  Right list: non-empty last. *)
Lemma bcount_orb (X Y : list bool) :
  length X = length Y →
  StronglySorted (λ x y, y = true → x = true) X →
  StronglySorted (λ x y, x = true → y = true) Y →
  (Nat.min (length X) (bcount X + bcount Y) ≤ bcount (zip_with orb X Y))%nat.
Proof.
  revert Y. induction X as [|x X IH]; intros [|y Y]; cbn [length zip_with]; try done.
  intros [= Hlen] HX HY. inversion HX as [|? ? HX' HxX]; inversion HY as [|? ? HY' HyY]; subst.
  rewrite !bcount_cons. specialize (IH Y Hlen HX' HY').
  destruct x, y; cbn [orb].
  - assert (HYt : bcount Y = length Y).
    { apply bcount_all, (Forall_impl _ _ _ HyY). simpl. auto. }
    lia.
  - lia.
  - assert (HYt : bcount Y = length Y).
    { apply bcount_all, (Forall_impl _ _ _ HyY). simpl. auto. }
    lia.
  - assert (HXf : bcount X = 0%nat).
    { apply bcount_none, (Forall_impl _ _ _ HxX).
      intros [] H; [by discriminate (H eq_refl) | done]. }
    pose proof (bcount_le Y); lia.
Qed.

Lemma StronglySorted_snoc {A} (R : A → A → Prop) l a :
  StronglySorted R l → Forall (λ b, R b a) l → StronglySorted R (l ++ [a]).
Proof.
  induction 1 as [|x l Hl IH Hx]; inversion 1; subst; simpl; [repeat constructor|].
  constructor; [auto|]. apply Forall_app. by repeat constructor.
Qed.

Lemma StronglySorted_reverse {A} (R : A → A → Prop) l :
  StronglySorted R l → StronglySorted (flip R) (reverse l).
Proof.
  induction 1 as [|x l Hl IH Hx]; [constructor|].
  rewrite reverse_cons. apply StronglySorted_snoc; [done|].
  by apply Forall_reverse.
Qed.

Lemma StronglySorted_map {A B} (f : A → B) (R : A → A → Prop) (Q : B → B → Prop) l :
  (∀ x y, x ∈ l → y ∈ l → R x y → Q (f x) (f y)) →
  StronglySorted R l → StronglySorted Q (f <$> l).
Proof.
  intros HRQ. induction 1 as [|x l Hl IH Hx]; [constructor|].
  constructor; [apply IH; set_solver|].
  apply Forall_fmap, Forall_forall. intros y Hy.
  eapply Forall_forall in Hx; [|exact Hy]. set_solver.
Qed.

Lemma wf_nonempty_first k st :
  wf_kstate k st → StronglySorted (λ x y, y = true → x = true) (nonempty_set <$> ksets st).
Proof.
  intros [_ _ Hwf Hd]. rewrite Forall_forall in Hwf.
  eapply StronglySorted_map; [|exact Hd].
  intros x y Hx Hy Hxy. simpl in *. apply wf_nonempty_before; auto.
Qed.

Lemma zip_nonempty X Y :
  nonempty_set <$> zip_with kset_merge X Y = zip_with orb (nonempty_set <$> X) (nonempty_set <$> Y).
Proof.
  revert Y. induction X as [|x X IH]; intros [|y Y]; simpl; try done.
  by rewrite nonempty_merge, IH.
Qed.

Lemma zip_items X Y : length X = length Y →
  concat (kitems <$> zip_with kset_merge X Y) ≡ₚ concat (kitems <$> X) ++ concat (kitems <$> Y).
Proof.
  revert Y. induction X as [|x X IH]; intros [|y Y]; simpl; try done.
  intros [= H]. rewrite kset_merge_items, IH by done. solve_Permutation.
Qed.

Lemma zip_wf X Y : Forall wf_kset X → Forall wf_kset Y → Forall wf_kset (zip_with kset_merge X Y).
Proof.
  intros HX. revert Y. induction HX as [|x X Hx HX IH]; intros [|y Y] HY; simpl; constructor;
    inversion HY; subst; auto using wf_kset_merge.
Qed.

Lemma kstate_merge_wf k st o :
  wf_kstate k st → wf_kstate k o → wf_kstate k (kstate_merge st o).
Proof.
  intros [Hk Hl Hw Hd] [Hk' Hl' Hw' Hd']. split; simpl.
  - done.
  - rewrite sort_by_length, length_zip_with, length_reverse. lia.
  - rewrite sort_by_perm. apply zip_wf; [done|]. by apply Forall_reverse.
  - apply sorted_sets_desc.
Qed.

Lemma kstate_merge_items k st o :
  wf_kstate k st → wf_kstate k o →
  state_items (kstate_merge st o) ≡ₚ state_items st ++ state_items o.
Proof.
  intros [_ Hl _ _] [_ Hl' _ _]. unfold state_items. simpl.
  rewrite (concat_perm _ _ (fmap_Permutation kitems _ _ (sort_by_perm _ _))).
  rewrite zip_items by (rewrite length_reverse; lia).
  f_equiv. apply concat_perm. apply fmap_Permutation. apply reverse_Permutation.
Qed.

Lemma kstate_merge_count k st o :
  wf_kstate k st → wf_kstate k o →
  (Nat.min k (nonempty_count st + nonempty_count o) ≤ nonempty_count (kstate_merge st o))%nat.
Proof.
  intros Hst Ho. unfold nonempty_count at 3. simpl.
  rewrite (bcount_perm _ _ (fmap_Permutation nonempty_set _ _ (sort_by_perm _ _))).
  rewrite zip_nonempty.
  assert (Hrev : nonempty_count o = bcount (nonempty_set <$> reverse (ksets o))).
  { unfold nonempty_count. apply bcount_perm, fmap_Permutation. symmetry. apply reverse_Permutation. }
  pose proof (wf_len _ _ Hst) as Hl. pose proof (wf_len _ _ Ho) as Hl'.
  rewrite Hrev, <-Hl, <-(length_fmap nonempty_set (ksets st)).
  apply bcount_orb.
  - rewrite !length_fmap, length_reverse. lia.
  - by eapply wf_nonempty_first.
  - rewrite fmap_reverse.
    apply (StronglySorted_reverse (λ x y, y = true → x = true)).
    by eapply wf_nonempty_first.
Qed.

(** ** Fresh states *)

Definition singleton_set (it : nat * Z) : kset := KSet it.2 [it].

Lemma imap_pair_prefix {A} (l : list A) done e rest :
  imap pair l = done ++ e :: rest → e.1 = length done ∧ (length done < length l)%nat ∧ e.2 ∈ l.
Proof.
  intros H.
  assert (Hl : imap pair l !! length done = Some e) by (rewrite H; by apply list_lookup_middle).
  apply list_lookup_imap_Some in Hl as (x & Hx & ->). simpl.
  split_and!; [done | by eapply lookup_lt_Some | by eapply list_elem_of_lookup_2].
Qed.

Lemma kstate_init_sets items k :
  (length items ≤ k)%nat →
  foldM (λ sets e,
      s ← of_option (IndexError "list index out of range") (sets !! e.1);
      Ok (<[e.1 := kset_add e.2.1 e.2.2 s]> sets))
    (replicate k kset_empty) (imap pair items)
  = Ok ((singleton_set <$> items) ++ replicate (k - length items) kset_empty).
Proof.
  intros Hk.
  destruct (foldM_total
    (λ done sets, sets = ((λ e : nat * (nat * Z), singleton_set e.2) <$> done)
                           ++ replicate (k - length done) kset_empty)
    (λ sets e,
      s ← of_option (IndexError "list index out of range") (sets !! e.1);
      Ok (<[e.1 := kset_add e.2.1 e.2.2 s]> sets))
    (replicate k kset_empty) (imap pair items)) as (s' & Hf & Hs).
  - simpl. by rewrite Nat.sub_0_r.
  - intros done [i it] rest sets Hl ->.
    apply imap_pair_prefix in Hl as (Hi & Hlt & _). cbn [fst snd] in *. subst i.
    replace (k - length done)%nat with (S (k - length (done ++ [(length done, it)])))
      by (rewrite length_app; simpl; lia).
    rewrite replicate_S, list_lookup_middle by (by rewrite length_fmap).
    simpl. eexists; split; [reflexivity|].
    rewrite insert_app_r_alt by (by rewrite length_fmap).
    rewrite length_fmap, Nat.sub_diag. simpl.
    rewrite fmap_app, <-(assoc_L (++)). unfold kset_add. simpl. by destruct it.
  - rewrite Hf, Hs. f_equal. f_equal.
    + rewrite fmap_imap. apply list_eq. intros i. rewrite list_lookup_imap, list_lookup_fmap. by destruct (items !! i).
    + by rewrite length_imap.
Qed.

Lemma init_sets_items items m :
  concat (kitems <$> ((singleton_set <$> items) ++ replicate m kset_empty)) = items.
Proof.
  rewrite fmap_app, concat_app, fmap_replicate. simpl.
  replace (concat (replicate m [])) with (@nil (nat * Z)) by (induction m; simpl; auto).
  rewrite app_nil_r. induction items as [|it items IH]; csimpl; [done|]. by rewrite IH.
Qed.

Lemma init_sets_wf items m :
  Forall (λ it, 0 ≤ it.2) items →
  Forall wf_kset ((singleton_set <$> items) ++ replicate m kset_empty).
Proof.
  intros H. apply Forall_app. split.
  - apply Forall_fmap. eapply Forall_impl; [exact H|]. intros [i v] Hv.
    split; simpl; [lia | by repeat constructor].
  - apply Forall_replicate. split; [done | constructor].
Qed.

Lemma init_sets_count items m :
  (length items ≤ bcount (nonempty_set <$> ((singleton_set <$> items) ++ replicate m kset_empty)))%nat.
Proof.
  induction items as [|it items IH]; csimpl; [lia|].
  rewrite bcount_cons. simpl. lia.
Qed.

(** A fresh state of one or [k] items is well formed and holds exactly its items. *)
Lemma kstate_init_ok items k :
  (0 < k)%nat → length items = 1%nat ∨ length items = k →
  ∃ st, kstate_init items k = Ok st ∧
    (Forall (λ it, 0 ≤ it.2) items → wf_kstate k st) ∧
    length (ksets st) = k ∧ kk st = k ∧
    state_items st ≡ₚ items ∧ (length items ≤ nonempty_count st)%nat ∧
    (length items = k → Forall (λ s, length (kitems s) = 1%nat) (ksets st)).
Proof.
  intros Hk Hlen. unfold kstate_init.
  replace (Nat.eqb (length items) 1 || Nat.eqb (length items) k) with true.
  2:{ symmetry. apply orb_true_iff. rewrite !Nat.eqb_eq. lia. }
  rewrite kstate_init_sets by lia. cbn [mbind result_bind].
  set (sets := (singleton_set <$> items) ++ replicate (k - length items) kset_empty).
  assert (Hls : length sets = k).
  { unfold sets. rewrite length_app, length_fmap, length_replicate. lia. }
  eexists; split; [reflexivity|]. cbn [ksets kk]. split_and!.
  - intros Hpos. split; cbn [ksets kk]; [done | by rewrite sort_by_length | | apply sorted_sets_desc].
    rewrite sort_by_perm. by apply init_sets_wf.
  - by rewrite sort_by_length.
  - done.
  - unfold state_items. cbn [ksets].
    rewrite (concat_perm _ _ (fmap_Permutation kitems _ _ (sort_by_perm _ _))).
    unfold sets. by rewrite init_sets_items.
  - unfold nonempty_count. cbn [ksets].
    rewrite (bcount_perm _ _ (fmap_Permutation nonempty_set _ _ (sort_by_perm _ _))).
    apply init_sets_count.
  - intros He. rewrite sort_by_perm. unfold sets. rewrite He, Nat.sub_diag, app_nil_r.
    apply Forall_fmap, Forall_forall. done.
Qed.

(** ** The merge loop *)

Section merge_loop.
Context (P : list kstate → Prop).
Hypothesis P_step : ∀ pq s0 s1 pq2,
  P pq → pq ≡ₚ s0 :: s1 :: pq2 → P (heappush kstate_lt pq2 (kstate_merge s0 s1)).

(** Any property kept by one round is kept by the loop. *)
Lemma merge_loop_inv fuel pq : P pq → P (merge_loop fuel pq).
Proof using P_step.
  revert pq. induction fuel as [|fuel IH]; intros pq HP; [done|].
  cbn [merge_loop]. destruct pq as [|x [|y pq]]; try done.
  destruct (heappop kstate_lt (x :: y :: pq)) as [[s0 pq1]|] eqn:H0; [|done].
  destruct (heappop kstate_lt pq1) as [[s1 pq2]|] eqn:H1; [|done].
  apply IH. eapply P_step; [exact HP|].
  rewrite (heappop_perm _ _ _ _ H0). by rewrite (heappop_perm _ _ _ _ H1).
Qed.
End merge_loop.

(** The loop ends with exactly one state. *)
Lemma merge_loop_single fuel pq :
  pq ≠ [] → (length pq ≤ fuel)%nat → length (merge_loop fuel pq) = 1%nat.
Proof.
  revert pq. induction fuel as [|fuel IH]; intros pq Hne Hf; [by destruct pq; simpl in *; try lia|].
  cbn [merge_loop]. destruct pq as [|x [|y pq]]; try done.
  destruct (heappop_nonempty kstate_lt (x :: y :: pq)) as [[s0 pq1] H0]; [done|]. rewrite H0.
  apply heappop_length in H0. simpl in H0, Hf.
  destruct (heappop_nonempty kstate_lt pq1) as [[s1 pq2] H1]; [by destruct pq1|]. rewrite H1.
  apply heappop_length in H1.
  assert (Hl : length (heappush kstate_lt pq2 (kstate_merge s0 s1)) = S (length pq2))
    by apply heappush_length.
  apply IH; [by destruct (heappush _ _ _) | lia].
Qed.

Definition uniform (st : kstate) : Prop :=
  ∃ m, Forall (λ s, length (kitems s) = m) (ksets st).

Lemma kstate_merge_uniform k s0 s1 :
  wf_kstate k s0 → wf_kstate k s1 → uniform s0 → uniform s1 → uniform (kstate_merge s0 s1).
Proof.
  intros [_ Hl0 _ _] [_ Hl1 _ _] [m0 H0] [m1 H1]. exists (m0 + m1)%nat. simpl.
  rewrite sort_by_perm.
  assert (Hr : Forall (λ s, length (kitems s) = m1) (reverse (ksets s1))) by by apply Forall_reverse.
  clear -H0 Hr. revert H0 Hr. generalize (reverse (ksets s1)), (ksets s0). clear.
  intros Y X HX. revert Y. induction HX as [|x X Hx HX IH]; intros [|y Y] HY; simpl; constructor;
    inversion HY; subst; auto.
  rewrite kset_merge_items, length_app. lia.
Qed.

(** What the heap holds between two rounds, over the items [its]. *)
Record pq_inv (k : nat) (its : list (nat * Z)) (pq : list kstate) : Prop := {
  pq_wf : Forall (wf_kstate k) pq;
  pq_items : concat (state_items <$> pq) ≡ₚ its;
  pq_count : (Nat.min k (length its) ≤ nsum (nonempty_count <$> pq))%nat }.

Lemma pq_inv_step k its pq s0 s1 pq2 :
  pq_inv k its pq → pq ≡ₚ s0 :: s1 :: pq2 →
  pq_inv k its (heappush kstate_lt pq2 (kstate_merge s0 s1)).
Proof.
  intros [Hwf Hit Hc] Hp. rewrite Hp in Hwf. inversion Hwf as [|? ? Hw0 Hwf']; subst.
  inversion Hwf' as [|? ? Hw1 Hw2]; subst. split.
  - rewrite heappush_perm. constructor; [by apply kstate_merge_wf | done].
  - rewrite <-Hit.
    rewrite (concat_perm _ _ (fmap_Permutation state_items _ _ (heappush_perm _ _ _))).
    rewrite (concat_perm _ _ (fmap_Permutation state_items _ _ Hp)). csimpl.
    rewrite (kstate_merge_items k) by done. by rewrite <-(assoc_L (++)).
  - rewrite (nsum_perm _ _ (fmap_Permutation nonempty_count _ _ (heappush_perm _ _ _))).
    rewrite (nsum_perm _ _ (fmap_Permutation nonempty_count _ _ Hp)) in Hc. csimpl.
    pose proof (kstate_merge_count k s0 s1 Hw0 Hw1). csimpl in Hc. lia.
Qed.

Lemma pq_inv_push k its pq st items :
  pq_inv k its pq → wf_kstate k st → state_items st ≡ₚ items →
  (Nat.min k (length items) ≤ nonempty_count st)%nat →
  pq_inv k (its ++ items) (heappush kstate_lt pq st).
Proof.
  intros [Hwf Hit Hc] Hw Hi Hn. split.
  - rewrite heappush_perm. by constructor.
  - rewrite (concat_perm _ _ (fmap_Permutation state_items _ _ (heappush_perm _ _ _))). csimpl.
    by rewrite Hi, Hit, (comm (++)).
  - rewrite (nsum_perm _ _ (fmap_Permutation nonempty_count _ _ (heappush_perm _ _ _))). csimpl.
    rewrite length_app. lia.
Qed.

(** Filling the heap: groups of one or of [k] items. *)
Lemma push_states_ok k groups :
  (0 < k)%nat →
  Forall (λ its, length its = 1%nat ∨ length its = k) groups →
  Forall (Forall (λ it : nat * Z, 0 ≤ it.2)) groups →
  ∃ pq, foldM (push_state k) [] groups = Ok pq ∧
    pq_inv k (concat groups) pq ∧ length pq = length groups ∧
    (Forall (λ its, length its = k) groups → Forall uniform pq).
Proof.
  intros Hk Hlen Hpos.
  apply (foldM_total (λ done pq, pq_inv k (concat done) pq ∧ length pq = length done ∧
    (Forall (λ its, length its = k) done → Forall uniform pq))).
  { split_and!; [|done..]. split; [constructor | done | simpl; lia]. }
  intros done items rest pq -> (Hinv & Hl & Hu).
  apply Forall_app in Hlen as [_ Hlen]. apply Forall_app in Hpos as [_ Hpos].
  inversion Hlen; inversion Hpos; subst.
  destruct (kstate_init_ok items k) as (st & Hst & Hw & _ & _ & Hi & Hc & Hone); [done..|].
  unfold push_state. rewrite Hst. cbn [mbind result_bind]. eexists; split; [reflexivity|].
  rewrite concat_app. cbn [concat]. rewrite app_nil_r. split_and!.
  - apply pq_inv_push; auto. lia.
  - rewrite heappush_length, length_app, Hl. simpl. lia.
  - intros [Hd Hit]%Forall_app. inversion Hit; subst. rewrite heappush_perm.
    constructor; [by exists 1%nat; apply Hone | by apply Hu].
Qed.

(** ** Correctness of [karmarkar_karp] *)

Lemma chunks_concat {A} fuel k (l : list A) :
  (0 < k)%nat → (length l ≤ fuel)%nat → concat (chunks fuel k l) = l.
Proof.
  intros Hk. revert l. induction fuel as [|fuel IH]; intros l Hf.
  - by destruct l; simpl in *; [|lia].
  - destruct l as [|x l]; [done|]. cbn [chunks concat].
    rewrite IH, take_drop; [done|]. rewrite length_drop. simpl in *. lia.
Qed.

Lemma chunks_length {A} fuel k (l : list A) m :
  (0 < k)%nat → (length l ≤ fuel)%nat → length l = (m * k)%nat →
  length (chunks fuel k l) = m ∧ Forall (λ c, length c = k) (chunks fuel k l).
Proof.
  intros Hk. revert l m. induction fuel as [|fuel IH]; intros l m Hf Hm.
  - destruct l; simpl in *; [|lia]. destruct m; [done | lia].
  - destruct l as [|x l]; [simpl in Hm; destruct m; [done | lia]|]. cbn [chunks length].
    destruct m as [|m]; [done|].
    destruct (IH (drop k (x :: l)) m) as [H1 H2].
    { rewrite length_drop. simpl in *. lia. }
    { rewrite length_drop, Hm. lia. }
    split; [lia|]. constructor; [|done]. rewrite length_take. lia.
Qed.

Lemma sorted_items_perm seqlens :
  map to_item (sorted_seqlens seqlens) ≡ₚ imap pair seqlens.
Proof.
  unfold sorted_seqlens. rewrite sort_by_perm.
  change (map to_item) with (fmap (M := list) to_item). by rewrite fmap_imap.
Qed.

Lemma imap_pair_fst {A} (l : list A) : (imap pair l).*1 = seq 0 (length l).
Proof.
  rewrite fmap_imap. apply list_eq. intros i. rewrite list_lookup_imap.
  destruct (l !! i) eqn:E; simpl.
  - apply lookup_lt_Some in E. by rewrite lookup_seq_lt.
  - apply lookup_ge_None in E. by rewrite lookup_seq_ge.
Qed.

Lemma imap_pair_snd {A} (l : list A) : (imap pair l).*2 = l.
Proof.
  rewrite fmap_imap. apply list_eq. intros i. rewrite list_lookup_imap. by destruct (l !! i).
Qed.

Lemma get_partitions_concat st : concat (get_partitions st) = (state_items st).*1.
Proof.
  unfold get_partitions, state_items. induction (ksets st) as [|s l IH]; csimpl; [done|].
  by rewrite IH, fmap_app.
Qed.

Lemma state_all_nonempty k st :
  wf_kstate k st → (k ≤ nonempty_count st)%nat →
  Forall (λ p, 0 < length p)%nat (get_partitions st).
Proof.
  intros [_ Hl _ _] Hc. unfold nonempty_count in Hc.
  assert (Hf : Forall (λ b, b = true) (nonempty_set <$> ksets st)).
  { apply bcount_full. pose proof (bcount_le (nonempty_set <$> ksets st)) as H.
    rewrite length_fmap in H |- *. lia. }
  apply Forall_fmap in Hf. apply Forall_fmap. eapply Forall_impl; [exact Hf|].
  intros s Hs. unfold compose, nonempty_set in *. rewrite length_fmap.
  destruct (kitems s); simpl in *; [done | lia].
Qed.

Lemma uniform_parts st n k :
  uniform st → length (ksets st) = k → length (state_items st) = n →
  Forall (λ p, length p * k = n)%nat (get_partitions st).
Proof.
  intros [m Hm] Hk Hn. apply Forall_fmap. eapply Forall_impl; [exact Hm|].
  intros s Hs. unfold compose. rewrite length_fmap. subst k n.
  unfold state_items. clear -Hm Hs. induction Hm as [|s' l Hs' Hm IH]; csimpl; [lia|].
  rewrite length_app, <-IH, Hs, Hs', Nat.mul_succ_r. lia.
Qed.

(** The final state of the loop. *)
Lemma merge_loop_final k its pq :
  pq ≠ [] → pq_inv k its pq →
  ∃ st, merge_loop (length pq) pq = [st] ∧ wf_kstate k st ∧ state_items st ≡ₚ its ∧
    (Nat.min k (length its) ≤ nonempty_count st)%nat ∧ (Forall uniform pq → uniform st).
Proof.
  intros Hne Hinv.
  pose proof (merge_loop_single (length pq) pq Hne (le_n _)) as Hl.
  pose proof (merge_loop_inv (pq_inv k its) (pq_inv_step k its) (length pq) pq Hinv) as [Hw Hi Hc].
  assert (Hu : Forall uniform pq → Forall (λ st, wf_kstate k st ∧ uniform st)
                 (merge_loop (length pq) pq)).
  { intros Hu. apply (merge_loop_inv (Forall (λ st, wf_kstate k st ∧ uniform st))).
    - intros q s0 s1 q2 Hq Hp. rewrite Hp in Hq.
      inversion Hq as [|? ? [] Hq']; inversion Hq' as [|? ? []]; subst.
      rewrite heappush_perm. constructor; [|done].
      split; [by apply kstate_merge_wf | by eapply kstate_merge_uniform].
    - apply Forall_and. by destruct Hinv. }
  destruct (merge_loop (length pq) pq) as [|st [|]]; try discriminate Hl.
  exists st. inversion Hw; subst. csimpl in Hi. rewrite app_nil_r in Hi. csimpl in Hc.
  split_and!; [done..|lia|]. intros HH%Hu. by inversion HH as [|? ? []].
Qed.

Lemma kk_groups (seqlens : list Z) k (equal_size : bool) :
  (0 < k)%nat → seqlens ≠ [] → Forall (λ z, 0 ≤ z) seqlens →
  (equal_size = true → (length seqlens mod k = 0)%nat) →
  let groups := if equal_size
    then map (map to_item) (chunks (length seqlens) k (sorted_seqlens seqlens))
    else map (λ p, [to_item p]) (sorted_seqlens seqlens) in
  groups ≠ [] ∧ concat groups ≡ₚ imap pair seqlens ∧
  Forall (λ its, length its = 1%nat ∨ length its = k) groups ∧
  Forall (Forall (λ it : nat * Z, 0 ≤ it.2)) groups ∧
  (equal_size = true → Forall (λ its, length its = k) groups).
Proof.
  intros Hk Hne Hpos Hmod groups.
  assert (Hlen : length (sorted_seqlens seqlens) = length seqlens).
  { unfold sorted_seqlens. by rewrite sort_by_length, length_imap. }
  assert (Hcat : concat groups = map to_item (sorted_seqlens seqlens)).
  { unfold groups. destruct equal_size.
    - rewrite <-concat_map, chunks_concat; [done..|lia].
    - clear. induction (sorted_seqlens seqlens) as [|p l IH]; simpl; [done|]. by rewrite IH. }
  assert (Hperm : concat groups ≡ₚ imap pair seqlens) by (rewrite Hcat; apply sorted_items_perm).
  assert (Heq : equal_size = true → Forall (λ its, length its = k) groups).
  { intros ->. unfold groups. apply Forall_fmap.
    pose proof (Nat.div_mod_eq (length seqlens) k) as Hd. rewrite (Hmod eq_refl) in Hd.
    destruct (chunks_length (length seqlens) k (sorted_seqlens seqlens) (length seqlens / k))
      as [_ H]; [lia..| |].
    { lia. }
    eapply Forall_impl; [exact H|]. intros c. unfold compose. by rewrite length_map. }
  split_and!; auto.
  - intros H0. rewrite H0 in Hperm. simpl in Hperm. apply Permutation_nil_l in Hperm.
    apply (f_equal length) in Hperm. rewrite length_imap in Hperm. by destruct seqlens.
  - destruct equal_size.
    + eapply Forall_impl; [by apply Heq|]. auto.
    + unfold groups. apply Forall_fmap, Forall_forall. auto.
  - apply Forall_concat. rewrite Hperm. apply Forall_forall. intros [i v] Hv.
    eapply Forall_forall in Hpos; [exact Hpos|].
    rewrite <-(imap_pair_snd seqlens). by apply (list_elem_of_fmap_2 snd _ (i, v)).
Qed.

(** [karmarkar_karp] always returns; its [k] partitions cover every index exactly
    once, are non-empty when there are enough items, and have equal sizes when asked. *)
Lemma karmarkar_karp_ok seqlens k equal_size :
  (0 < k)%nat → seqlens ≠ [] → Forall (λ z, 0 ≤ z) seqlens →
  (equal_size = true → (length seqlens mod k = 0)%nat) →
  ∃ ps, karmarkar_karp seqlens k equal_size = Ok ps ∧ length ps = k ∧
    concat ps ≡ₚ seq 0 (length seqlens) ∧
    ((k ≤ length seqlens)%nat → Forall (λ p, 0 < length p)%nat ps) ∧
    (equal_size = true → Forall (λ p, length p * k = length seqlens)%nat ps).
Proof.
  intros Hk Hne Hpos Hmod.
  destruct (kk_groups seqlens k equal_size Hk Hne Hpos Hmod) as (Hg & Hperm & Hsz & Hp & Heq).
  destruct (push_states_ok k _ Hk Hsz Hp) as (pq & Hpq & Hinv & Hlpq & Hu).
  assert (Hpqne : pq ≠ []) by (intros ->; by destruct (if equal_size then _ else _)).
  destruct (merge_loop_final k _ pq Hpqne Hinv) as (st & Hml & Hw & Hi & Hc & Hun).
  rewrite Hperm in Hi, Hc. rewrite length_imap in Hc.
  assert (Hlen : length (state_items st) = length seqlens) by (by rewrite Hi, length_imap).
  exists (get_partitions st). split_and!.
  - unfold karmarkar_karp. destruct equal_size.
    + replace (Nat.eqb k 0) with false by (symmetry; apply Nat.eqb_neq; lia).
      rewrite (Hmod eq_refl), Nat.eqb_refl. cbn [negb]. rewrite Hpq. cbn [mbind result_bind].
      rewrite Hml. cbn [head of_option mbind result_bind].
      replace (forallb _ _) with true; [done|]. symmetry. apply forallb_Forall.
      eapply Forall_impl.
      { apply (uniform_parts st (length seqlens) k); [by apply Hun, Hu, Heq | apply Hw | done]. }
      intros p Hp'. by apply Nat.eqb_eq.
    + rewrite Hpq. cbn [mbind result_bind]. by rewrite Hml.
  - unfold get_partitions. rewrite length_fmap. apply Hw.
  - by rewrite get_partitions_concat, Hi, imap_pair_fst.
  - intros Hkn. apply (state_all_nonempty k); [done | lia].
  - intros E. apply uniform_parts; [by apply Hun, Hu, Heq | apply Hw | done].
Qed.

(** ** The checks of [get_seqlen_balanced_partitions] pass *)

Lemma nat_lt_sorted l : StronglySorted le (sort_by nat_lt l).
Proof.
  assert (H : StronglySorted (no_inversion nat_lt) (sort_by nat_lt l)).
  { apply sort_by_sorted; unfold nat_lt.
    - intros x y. rewrite Nat.ltb_lt, Nat.ltb_ge. lia.
    - intros x y z. rewrite !Nat.ltb_ge. lia. }
  eapply (StronglySorted_map id) in H; [by rewrite list_fmap_id in H|].
  intros x y _ _. unfold no_inversion, nat_lt. rewrite Nat.ltb_ge. done.
Qed.

Lemma same_index_set_perm l n : l ≡ₚ seq 0 n → same_index_set l n = true.
Proof.
  intros Hp. unfold same_index_set. apply andb_true_iff. split; apply forallb_Forall, Forall_forall.
  - intros i Hi. apply bool_decide_eq_true. by rewrite Hp.
  - intros i Hi. rewrite Hp in Hi. apply elem_of_seq in Hi. apply Nat.ltb_lt. lia.
Qed.

Lemma get_seqlen_balanced_partitions_ok seqlens k equal_size :
  (0 < k ≤ length seqlens)%nat → Forall (λ z, 0 ≤ z) seqlens →
  (equal_size = true → (length seqlens mod k = 0)%nat) →
  ∃ ps, get_seqlen_balanced_partitions seqlens k equal_size = Ok ps ∧
    length ps = k ∧ concat ps ≡ₚ seq 0 (length seqlens) ∧
    Forall (λ p, p ≠ [] ∧ StronglySorted le p) ps ∧
    (equal_size = true → Forall (λ p, length p * k = length seqlens)%nat ps).
Proof.
  intros [Hk Hkn] Hpos Hmod.
  assert (Hne : seqlens ≠ []) by (intros ->; simpl in *; lia).
  destruct (karmarkar_karp_ok seqlens k equal_size Hk Hne Hpos Hmod)
    as (ps & Hps & Hl & Hperm & Hnon & Heq).
  exists (map (sort_by nat_lt) ps). split_and!.
  - unfold get_seqlen_balanced_partitions.
    rewrite (proj2 (Nat.leb_le _ _)) by done. rewrite Hps. cbn [mbind result_bind].
    unfold check_and_sort_partitions.
    rewrite (proj2 (Nat.eqb_eq _ _)) by done.
    rewrite (proj2 (forallb_Forall _ _)).
    2:{ eapply Forall_impl; [by apply Hnon|]. intros p. by rewrite Nat.ltb_lt. }
    by rewrite same_index_set_perm.
  - by rewrite length_map.
  - rewrite <-Hperm. clear. induction ps as [|p ps IH]; simpl; [done|].
    by rewrite sort_by_perm, IH.
  - apply Forall_fmap. eapply Forall_impl; [by apply Hnon|]. intros p Hp. unfold compose.
    split; [|apply nat_lt_sorted]. intros H%(f_equal length).
    rewrite sort_by_length in H. simpl in H, Hp. lia.
  - intros E. apply Forall_fmap. eapply Forall_impl; [by apply Heq|].
    intros p Hp. unfold compose. by rewrite sort_by_length.
Qed.

(** ** [greedy_partition] *)

Lemma argmin_from_spec sums j best m v :
  argmin_from sums j best = Some (m, v) →
  (best = Some (m, v) ∨ ((j ≤ m)%nat ∧ sums !! (m - j)%nat = Some v)) ∧
  (∀ i s, sums !! i = Some s → v ≤ s) ∧ (∀ b, best = Some b → v ≤ b.2).
Proof.
  revert j best. induction sums as [|s sums IH]; intros j best; cbn [argmin_from].
  - intros ->. split_and!; [by left | done | by intros b [= <-]].
  - intros H. apply IH in H as (H1 & H2 & H3). split_and!.
    + destruct H1 as [H1|[H1 H1']].
      * destruct best as [[bm bv]|]; [|injection H1 as <- <-; right; split; [lia | by rewrite Nat.sub_diag]].
        destruct (s <? bv); [|by left]. injection H1 as <- <-. right. split; [lia|].
        by rewrite Nat.sub_diag.
      * right. split; [lia|]. replace (m - j)%nat with (S (m - S j)) by lia. done.
    + intros [|i] s'; simpl; [|by apply H2]. intros [= <-].
      destruct best as [[bm bv]|]; [|by specialize (H3 _ eq_refl)].
      revert H3.
      destruct (Z.ltb_spec s bv); intros H3; specialize (H3 _ eq_refl); simpl in H3; lia.
    + intros [bm bv] ->. revert H3.
      destruct (Z.ltb_spec s bv); intros H3; specialize (H3 _ eq_refl); simpl in *; lia.
Qed.

Lemma argmin_from_some sums j best :
  sums ≠ [] ∨ is_Some best → is_Some (argmin_from sums j best).
Proof.
  revert j best. induction sums as [|s sums IH]; intros j best; cbn [argmin_from];
    [by intros [|]|].
  intros _. apply IH. right. destruct best as [[??]|]; [|eauto]. destruct (_ <? _); eauto.
Qed.

Lemma concat_alter_snoc {A} (x : A) m ls : (m < length ls)%nat →
  concat (alter (λ p, p ++ [x]) m ls) ≡ₚ x :: concat ls.
Proof.
  revert m. induction ls as [|p ls IH]; intros [|m] H; simpl in H; [lia..| |].
  - cbn. rewrite <-(assoc_L (++)). simpl. by rewrite Permutation_middle.
  - change (p ++ concat (alter (λ p, p ++ [x]) m ls) ≡ₚ x :: p ++ concat ls).
    rewrite IH by lia. by rewrite Permutation_middle.
Qed.

(** What is handed out beyond [B] per item. *)
Definition excess (B : Z) (done : list (Z * nat)) : Z :=
  zsum (map fst done) - B * Z.of_nat (length done).

(** Loop invariant: partitions and sums stay paired, every sum is [B] per item
    plus at most the excess so far, and while the excess is below [B] the sizes
    differ by at most one. *)
Record greedy_inv (B : Z) (k : nat) (done : list (Z * nat))
    (st : list (list nat) * list Z) : Prop := {
  gi_len : length st.1 = k ∧ length st.2 = k;
  gi_idx : concat st.1 ≡ₚ map snd done;
  gi_rem : ∀ j p s, st.1 !! j = Some p → st.2 !! j = Some s →
             B * Z.of_nat (length p) ≤ s ≤ B * Z.of_nat (length p) + excess B done;
  gi_bal : excess B done < B → ∀ i j p q, st.1 !! i = Some p → st.1 !! j = Some q →
             (length p ≤ length q + 1)%nat }.

Lemma excess_snoc B done e : excess B (done ++ [e]) = excess B done + (e.1 - B).
Proof. unfold excess. rewrite map_app, zsum_app, length_app. simpl. lia. Qed.

Lemma greedy_step_inv B k done e st :
  (0 < k)%nat → B ≤ e.1 → 0 ≤ excess B done → greedy_inv B k done st →
  ∃ st', greedy_step st e = Ok st' ∧ greedy_inv B k (done ++ [e]) st'.
Proof.
  destruct st as [ps ss]. intros Hk He Hex [[Hl1 Hl2] Hidx Hrem Hbal]. cbn [fst snd] in *.
  destruct (argmin_from_some ss 0 None) as [[m v] Hm].
  { left. intros ->. simpl in Hl2. lia. }
  destruct (argmin_from_spec _ _ _ _ _ Hm) as ([|[_ Hv]] & Hmin & _); [done|].
  rewrite Nat.sub_0_r in Hv. pose proof (lookup_lt_Some _ _ _ Hv) as Hml.
  destruct (lookup_lt_is_Some_2 ps m) as [pm Hpm]; [lia|].
  eexists; split; [unfold greedy_step; rewrite Hm; reflexivity|]. split; cbn [fst snd].
  - by rewrite !length_alter.
  - rewrite concat_alter_snoc, Hidx, map_app by lia. apply Permutation_cons_append.
  - intros j p s. rewrite excess_snoc, !list_lookup_alter.
    case_decide; [|intros H1 H2; specialize (Hrem j p s H1 H2); lia]. subst j.
    rewrite Hpm, Hv. simpl. intros [= <-] [= <-]. rewrite length_app. simpl.
    specialize (Hrem m pm v Hpm Hv). lia.
  - rewrite excess_snoc. intros HB i j p q.
    assert (Hlow : ∀ q' j', ps !! j' = Some q' → (length pm ≤ length q')%nat).
    { intros q' j' Hq. destruct (lookup_lt_is_Some_2 ss j') as [s' Hs'].
      { apply lookup_lt_Some in Hq. lia. }
      pose proof (Hrem _ _ _ Hq Hs'). pose proof (Hrem _ _ _ Hpm Hv).
      pose proof (Hmin _ _ Hs'). nia. }
    assert (Hb : ∀ i j p q, ps !! i = Some p → ps !! j = Some q → (length p ≤ length q + 1)%nat)
      by (apply Hbal; lia).
    rewrite !list_lookup_alter. repeat case_decide; subst;
      rewrite ?Hpm; simpl; intros; simplify_eq; rewrite ?length_app; simpl; eauto; try lia.
    + pose proof (Hlow _ _ H1). lia.
    + pose proof (Hb _ _ _ _ H0 Hpm). lia.
Qed.

Lemma excess_nonneg B done : Forall (λ e, B ≤ e.1) done → 0 ≤ excess B done.
Proof. unfold excess. induction 1 as [|e done He Hd IH]; simpl; lia. Qed.

Lemma greedy_loop_ok (seqlens : list Z) k B :
  (0 < k)%nat → 0 ≤ B → Forall (λ z, 0 ≤ z) seqlens →
  ∃ st, foldM greedy_step (replicate k [], replicate k 0)
          (imap (λ i seqlen, (seqlen + B, i)) seqlens) = Ok st ∧
        greedy_inv B k (imap (λ i seqlen, (seqlen + B, i)) seqlens) st.
Proof.
  intros Hk HB Hpos.
  assert (Hge : Forall (λ e, B ≤ e.1) (imap (λ i seqlen, (seqlen + B, i)) seqlens)).
  { apply Forall_lookup_2. intros i e He. apply list_lookup_imap_Some in He as (z & Hz & ->).
    eapply Forall_lookup_1 in Hpos; [|exact Hz]. simpl in *. lia. }
  apply (foldM_total (greedy_inv B k)).
  - split; cbn [fst snd].
    + by rewrite !length_replicate.
    + clear. induction k; simpl; auto.
    + intros j p s [-> _]%lookup_replicate_1 [-> _]%lookup_replicate_1. unfold excess. simpl. lia.
    + intros _ i j p q [-> _]%lookup_replicate_1 [-> _]%lookup_replicate_1. simpl. lia.
  - intros done e rest st Hl Hinv. rewrite Hl in Hge.
    apply Forall_app in Hge as [Hd Hr]. inversion Hr; subst.
    apply greedy_step_inv; auto using excess_nonneg.
Qed.

Lemma nsum_lt_bound m a l :
  Forall (λ b, b ≤ m)%nat l → a ∈ l → (a < m)%nat → (nsum l < m * length l)%nat.
Proof.
  intros Hall Ha Ham. apply list_elem_of_split in Ha as (l1 & l2 & ->).
  apply Forall_app in Hall as [H1 H2]. inversion H2; subst.
  assert (Hle : ∀ l, Forall (λ b, b ≤ m)%nat l → (nsum l ≤ m * length l)%nat).
  { clear. induction 1; simpl; [lia|]. rewrite Nat.mul_succ_r. lia. }
  rewrite nsum_app, length_app. simpl.
  pose proof (Hle _ H1). pose proof (Hle l2 ltac:(done)). nia.
Qed.

Lemma nsum_gt_bound m a l :
  Forall (λ b, m ≤ b)%nat l → a ∈ l → (m < a)%nat → (m * length l < nsum l)%nat.
Proof.
  intros Hall Ha Ham. apply list_elem_of_split in Ha as (l1 & l2 & ->).
  apply Forall_app in Hall as [H1 H2]. inversion H2; subst.
  assert (Hle : ∀ l, Forall (λ b, m ≤ b)%nat l → (m * length l ≤ nsum l)%nat).
  { clear. induction 1; simpl; [lia|]. rewrite Nat.mul_succ_r. lia. }
  rewrite nsum_app, length_app. simpl.
  pose proof (Hle _ H1). pose proof (Hle l2 ltac:(done)). nia.
Qed.

(** Sizes that differ by at most one and add up to a multiple of their number are equal. *)
Lemma balanced_equal m l :
  (∀ a b, a ∈ l → b ∈ l → a ≤ b + 1)%nat → nsum l = (m * length l)%nat →
  Forall (λ a, a = m) l.
Proof.
  intros Hbal Hsum. apply Forall_forall. intros a Ha.
  destruct (Nat.lt_total a m) as [Hlt|[|Hgt]]; [exfalso|done|exfalso].
  - assert (nsum l < m * length l)%nat; [|lia]. eapply nsum_lt_bound; [|exact Ha|done].
    apply Forall_forall. intros b Hb. specialize (Hbal b a Hb Ha). lia.
  - assert (m * length l < nsum l)%nat; [|lia]. eapply nsum_gt_bound; [|exact Ha|done].
    apply Forall_forall. intros b Hb. specialize (Hbal a b Ha Hb). lia.
Qed.

Lemma greedy_equal_sizes (seqlens : list Z) k st :
  let B := zsum seqlens + 1 in
  Forall (λ z, 0 ≤ z) seqlens → (length seqlens mod k = 0)%nat → (0 < k)%nat →
  greedy_inv B k (imap (λ i seqlen, (seqlen + B, i)) seqlens) st →
  Forall (λ p, length p * k = length seqlens)%nat st.1.
Proof.
  intros B Hpos Hmod Hk [[Hl _] Hidx _ Hbal].
  assert (Hex : excess B (imap (λ i seqlen, (seqlen + B, i)) seqlens) = zsum seqlens).
  { unfold excess. rewrite length_imap. change (map fst) with (fmap (M := list) (@fst Z nat)).
    rewrite fmap_imap. clear. generalize B. clear. intros B.
    rewrite (imap_ext _ (λ _ z, z + B)) by done.
    induction seqlens as [|z l IH]; [simpl; lia|]. rewrite imap_cons.
    change (imap ((λ _ z, z + B) ∘ S) l) with (imap (λ _ z, z + B) l). cbn [zsum foldr length].
    fold (zsum (imap (λ _ z, z + B) l)). fold (zsum l). lia. }
  pose proof (zsum_nonneg _ Hpos) as Hnn.
  assert (Hn : nsum (length <$> st.1) = length seqlens).
  { rewrite <-length_concat_nsum, Hidx, length_map. by rewrite length_imap. }
  pose proof (Nat.div_mod_eq (length seqlens) k) as Hd. rewrite Hmod in Hd.
  assert (Hall : Forall (λ a, a = length seqlens / k)%nat (length <$> st.1)).
  { apply balanced_equal.
    - intros a b (p & -> & Hp)%list_elem_of_fmap (q & -> & Hq)%list_elem_of_fmap.
      apply list_elem_of_lookup in Hp as [i Hi]. apply list_elem_of_lookup in Hq as [j Hj].
      eapply Hbal; [lia | exact Hi | exact Hj].
    - rewrite length_fmap. lia. }
  apply Forall_fmap in Hall. eapply Forall_impl; [exact Hall|]. unfold compose. intros p ->. lia.
Qed.

(** ** Micro-batches *)

Lemma every_other_perm {A} (l : list A) : every_other l ++ every_other (drop 1 l) ≡ₚ l.
Proof.
  assert (H : ∀ n (l : list A), (length l ≤ n)%nat → every_other l ++ every_other (drop 1 l) ≡ₚ l).
  { induction n as [|n IH]; intros [|x [|y l']] Hl; simpl in Hl; try lia; try done.
    change (every_other (x :: y :: l')) with (x :: every_other l').
    change (drop 1 (x :: y :: l')) with (y :: l').
    assert (Hy : every_other (y :: l') = y :: every_other (drop 1 l')) by (by destruct l').
    rewrite Hy. simpl. constructor. rewrite <-Permutation_middle. constructor.
    apply IH. lia. }
  by apply (H (length l)).
Qed.

Lemma balance_order_perm {A} (l : list A) : balance_order l ≡ₚ l.
Proof. unfold balance_order. rewrite reverse_Permutation. apply every_other_perm. Qed.

Lemma expand_groups_seq g n : concat (expand_group g <$> seq 0 n) = seq 0 (n * g).
Proof.
  induction n as [|n IH]; [done|].
  rewrite seq_S, fmap_app, concat_app, IH, Nat.mul_succ_l, (seq_app (n * g) g 0).
  f_equal. simpl. by rewrite app_nil_r.
Qed.

Lemma concat_fmap_concat {A B} (f : A → list B) ls :
  concat ((λ p, concat (f <$> p)) <$> ls) = concat (f <$> concat ls).
Proof. induction ls as [|p ls IH]; csimpl; [done|]. by rewrite fmap_app, concat_app, IH. Qed.

Lemma group_workloads_length g (seqlens : list Z) m :
  (0 < g)%nat → length seqlens = (m * g)%nat → length (group_workloads g seqlens) = m.
Proof.
  intros Hg Hm. unfold group_workloads. rewrite length_fmap.
  apply (chunks_length (length seqlens) g (calculate_workload <$> seqlens) m); [done| |];
    rewrite length_fmap; lia.
Qed.

Lemma group_workloads_nonneg g (seqlens : list Z) :
  (0 < g)%nat → Forall (λ z, 0 ≤ z) seqlens → Forall (λ z, 0 ≤ z) (group_workloads g seqlens).
Proof.
  intros Hg Hpos. unfold group_workloads. apply Forall_fmap.
  assert (Hw : Forall (λ z, 0 ≤ z) (calculate_workload <$> seqlens)).
  { apply Forall_fmap. eapply Forall_impl; [exact Hpos|]. intros z Hz.
    unfold compose, calculate_workload. simpl in Hz. rewrite Z.pow_2_r. nia. }
  rewrite <-(chunks_concat (length seqlens) g) in Hw by (rewrite ?length_fmap; lia).
  apply Forall_concat in Hw. eapply Forall_impl; [exact Hw|]. intros c. apply zsum_nonneg.
Qed.

(** The index lists of a successful call: a partition of the samples into
    non-empty micro-batches, each holding the samples its index list names. *)
Record micro_batches_spec {A} (batch : list A) (mbs : list (list A)) (idx : list (list nat))
    : Prop := {
  mb_perm : concat idx ≡ₚ seq 0 (length batch);
  mb_select : Forall2 (λ mb p, Forall2 (λ a i, batch !! i = Some a) mb p) mbs idx;
  mb_nonempty : Forall (λ p, p ≠ []) idx }.

Lemma nth_result_Some {A} (l : list A) i a : l !! i = Some a → nth_result l i = Ok a.
Proof. unfold nth_result. by intros ->. Qed.

Lemma select_ok {A} (batch : list A) (idx : list (list nat)) :
  concat idx ≡ₚ seq 0 (length batch) →
  ∃ mbs, mapM (mapM (nth_result batch)) idx = Ok mbs.
Proof.
  intros Hp. assert (Hr : Forall (Forall (λ i, (i < length batch)%nat)) idx).
  { apply Forall_concat. rewrite Hp. apply Forall_forall. intros i Hi%elem_of_seq. lia. }
  clear Hp. induction Hr as [|p idx Hp Hr [mbs IH]]; simpl; [eauto|].
  assert (∃ mb, mapM (nth_result batch) p = Ok mb) as [mb ->].
  { clear -Hp. induction Hp as [|i p Hi Hp [mb IH]]; simpl; [eauto|].
    destruct (lookup_lt_is_Some_2 batch i Hi) as [a Ha].
    rewrite (nth_result_Some _ _ _ Ha). simpl. rewrite IH. simpl. eauto. }
  simpl. rewrite IH. simpl. eauto.
Qed.

Lemma select_spec {A} (batch : list A) idx mbs :
  mapM (mapM (nth_result batch)) idx = Ok mbs →
  Forall2 (λ mb p, Forall2 (λ a i, batch !! i = Some a) mb p) mbs idx.
Proof.
  intros H%mapM_Ok_Forall2. apply Forall2_flip in H. eapply Forall2_impl; [exact H|].
  intros mb p Hp%mapM_Ok_Forall2. apply Forall2_flip in Hp. eapply Forall2_impl; [exact Hp|].
  intros a i Ha. simpl in *. by apply of_option_Ok in Ha.
Qed.

(** What the guards of [rearrange_micro_batches] ask of a call. *)
Record micro_batch_guards (o : micro_batch_options) (n : nat) (seqlens : list Z) (mx : Z) : Prop := {
  mg_len : length seqlens = n;
  mg_pos : Forall (λ z, 0 ≤ z) seqlens;
  mg_tok : 0 < max_token_len o ∧ mx ≤ max_token_len o;
  mg_group : (0 < force_group_size o)%nat ∧ (n mod force_group_size o = 0)%nat;
  mg_num : 0 < num_micro_batches_of o (n / force_group_size o) (zsum seqlens)
             ≤ Z.of_nat (n / force_group_size o) }.

Lemma rearrange_ok {A} o (batch : list A) seqlens mx :
  micro_batch_guards o (length batch) seqlens mx →
  ∃ mbs idx, rearrange_micro_batches o batch seqlens mx = Ok (mbs, idx) ∧
    micro_batches_spec batch mbs idx ∧
    length mbs = Z.to_nat
      (num_micro_batches_of o (length batch / force_group_size o) (zsum seqlens)).
Proof.
  intros [Hlen Hpos [Htok Hmx] [Hg Hmod] Hnum].
  set (g := force_group_size o) in *. set (num := num_micro_batches_of _ _ _) in *.
  pose proof (Nat.div_mod_eq (length batch) g) as Hd. rewrite Hmod in Hd.
  assert (Hwl : length (group_workloads g seqlens) = (length batch / g)%nat)
    by (apply group_workloads_length; lia).
  destruct (get_seqlen_balanced_partitions_ok (group_workloads g seqlens) (Z.to_nat num) false)
    as (ps & Hps & Hlps & Hperm & Hne & _); [lia | by apply group_workloads_nonneg | done|].
  set (idx0 := (λ p, concat (expand_group g <$> p)) <$> ps).
  set (idx := if use_dynamic_bsz_balance o
    then balance_order (sort_by (flip (micro_key_lt g (group_workloads g seqlens))) idx0) else idx0).
  assert (Hidx : idx ≡ₚ idx0).
  { unfold idx. destruct (use_dynamic_bsz_balance o); [|done].
    by rewrite balance_order_perm, sort_by_perm. }
  assert (Hcat : concat idx ≡ₚ seq 0 (length batch)).
  { rewrite (concat_perm _ _ Hidx). unfold idx0. rewrite concat_fmap_concat.
    rewrite (concat_perm _ _ (fmap_Permutation _ _ _ Hperm)), expand_groups_seq, Hwl.
    f_equiv. lia. }
  destruct (select_ok batch idx Hcat) as [mbs Hmbs]. exists mbs, idx. split_and!.
  - unfold rearrange_micro_batches. fold g. rewrite Hlen.
    rewrite (proj2 (Z.leb_le _ _) Hmx), Hmod, Nat.eqb_refl.
    rewrite (proj2 (Nat.eqb_neq g 0)), (proj2 (Z.eqb_neq (max_token_len o) 0)) by lia.
    cbn [negb]. fold num. rewrite (proj2 (Z.leb_le num _)) by lia.
    rewrite Hps. cbn [mbind result_bind]. fold idx0. fold idx. by rewrite Hmbs.
  - split; [done | by apply select_spec|]. rewrite Hidx. unfold idx0.
    apply Forall_fmap. eapply Forall_impl; [exact Hne|]. intros p [Hp _]. unfold compose.
    destruct p as [|i p]; [done|]. csimpl. unfold expand_group.
    destruct g; [lia | done].
  - apply mapM_Ok_length in Hmbs. rewrite Hmbs, Hidx. unfold idx0. by rewrite length_fmap.
Qed.

(** *** Restoring the original order *)

Lemma get_reverse_idx_ok idx n :
  idx ≡ₚ seq 0 n →
  ∃ rev, get_reverse_idx idx = Ok rev ∧ length rev = n ∧
    ∀ i j, idx !! i = Some j → rev !! j = Some i.
Proof.
  intros Hp. assert (Hlen : length idx = n) by (by rewrite Hp, length_seq).
  assert (Hnd : NoDup idx) by (rewrite Hp; apply NoDup_seq).
  destruct (foldM_total (λ done rev, length rev = n ∧
      ∀ i j, (i < length done)%nat → idx !! i = Some j → rev !! j = Some i)
    (λ rev e, if decide (e.2 < length rev)%nat then Ok (<[e.2 := e.1]> rev)
              else Raise (IndexError "list assignment index out of range"))
    idx (imap pair idx)) as (rev & Hf & Hl & Hr).
  - split; [done|]. simpl. lia.
  - intros done [i j] rest rev Hl [Hlr Hr].
    assert (idx !! i = Some j ∧ i = length done) as [Hij ->].
    { assert (H : imap pair idx !! length done = Some (i, j))
        by (rewrite Hl; by apply list_lookup_middle).
      apply list_lookup_imap_Some in H as (y & Hy & [= -> ->]). done. }
    assert (Hj : (j < n)%nat).
    { apply list_elem_of_lookup_2 in Hij. rewrite Hp in Hij. apply elem_of_seq in Hij. lia. }
    cbn [fst snd]. rewrite decide_True by lia. eexists; split; [done|].
    rewrite length_insert, length_app. split; [done|]. simpl. intros i' j' Hi' Hj'.
    destruct (decide (i' = length done)) as [->|Hne].
    + simplify_eq. apply list_lookup_insert_eq. lia.
    + rewrite list_lookup_insert_ne; [apply Hr; [lia|done]|].
      intros ->. apply Hne. eapply NoDup_lookup; eauto.
  - exists rev. split_and!; [done..|]. intros i j Hi. apply Hr; [|done].
    rewrite length_imap. by eapply lookup_lt_Some.
Qed.

Lemma restore_ok {A B} (f : A → B) (batch : list A) mbs idx :
  micro_batches_spec batch mbs idx →
  restore_dynamic_batch (f <$> concat mbs) idx = Ok (f <$> batch).
Proof.
  intros [Hp Hsel _]. unfold restore_dynamic_batch.
  assert (Hcat : Forall2 (λ a i, batch !! i = Some a) (concat mbs) (concat idx)).
  { clear Hp. induction Hsel as [|mb p mbs idx Hmb Hsel IH]; simpl; [constructor|].
    by apply Forall2_app. }
  assert (Hl : length (concat idx) = length batch) by (by rewrite Hp, length_seq).
  pose proof (Forall2_length _ _ _ Hcat) as Hlc.
  rewrite length_fmap, Hlc, Nat.eqb_refl.
  destruct (get_reverse_idx_ok _ _ Hp) as (rev & -> & Hlr & Hr). cbn [mbind result_bind].
  apply mapM_Ok_Forall2, Forall2_same_length_lookup. rewrite length_fmap. split; [done|].
  intros j i b Hi Hb. apply list_lookup_fmap_Some in Hb as (a & -> & Ha).
  assert (Hj : j ∈ concat idx).
  { rewrite Hp. apply elem_of_seq. apply lookup_lt_Some in Ha. lia. }
  apply list_elem_of_lookup in Hj as [i' Hi'].
  assert (Hii : rev !! j = Some i') by (by apply Hr). simplify_eq.
  unfold nth_result. rewrite list_lookup_fmap.
  destruct (Forall2_lookup_r _ _ _ _ _ Hcat Hi') as (a' & Ha' & Hba).
  rewrite Ha'. simpl. congruence.
Qed.

(** ** Group-aware partitions *)

Section group_balanced_facts.
Context {U : Type} `{EqDecision U}.

Definition close_scan (st : list (list nat) * option U * list nat) : list (list nat) :=
  let '(groups, _, current) := st in
  match current with [] => groups | _ => groups ++ [current] end.

Definition together (gs : list (list nat)) (i j : nat) : Prop := ∃ g, g ∈ gs ∧ i ∈ g ∧ j ∈ g.

(** After scanning [uids]: the groups list all positions in order, and two
    neighbours with equal uids share a group. *)
Record scan_inv (uids : list U) (st : list (list nat) * option U * list nat) : Prop := {
  sc_concat : concat (close_scan st) = seq 0 (length uids);
  sc_uid : st.1.2 = last uids;
  sc_cur : uids ≠ [] → (length uids - 1)%nat ∈ st.2;
  sc_pair : ∀ i u, uids !! i = Some u → uids !! S i = Some u → together (close_scan st) i (S i) }.

Lemma together_mono gs gs' i j :
  (∀ g, g ∈ gs → ∃ g', g' ∈ gs' ∧ g ⊆ g') → together gs i j → together gs' i j.
Proof. intros Hm (g & Hg & Hi & Hj). destruct (Hm g Hg) as (g' & ? & Hs). exists g'. auto. Qed.

Lemma scan_step uids u st :
  scan_inv uids st → scan_inv (uids ++ [u]) (group_scan_step st (length uids, u)).
Proof using Type.
  destruct st as [[groups cu] cur]. intros [Hc Hu Hcur Hp]. simpl in Hu. subst cu.
  cbn [snd] in Hcur. set (n := length uids) in *.
  assert (Hmono : ∀ gs', (∀ g, g ∈ close_scan (groups, last uids, cur) → ∃ g', g' ∈ gs' ∧ g ⊆ g') →
    (last uids = Some u → together gs' (n - 1) n) →
    ∀ i v, (uids ++ [u]) !! i = Some v → (uids ++ [u]) !! S i = Some v → together gs' i (S i)).
  { intros gs' Hm Hlast i v Hi Hsi. destruct (decide (S i < n)%nat).
    - rewrite lookup_app_l in Hi, Hsi by (unfold n in *; lia).
      eapply together_mono; [exact Hm|]. by eapply Hp.
    - apply lookup_lt_Some in Hsi as Hlt. rewrite length_app in Hlt. simpl in Hlt.
      rewrite lookup_app_l in Hi by lia. replace (S i) with n in Hsi |- * by (unfold n in *; lia).
      rewrite lookup_app_r in Hsi by done. unfold n in Hsi at 1.
      rewrite Nat.sub_diag in Hsi. injection Hsi as ->.
      replace i with (n - 1)%nat by (unfold n in *; lia). apply Hlast.
      rewrite last_lookup, <-Hi. f_equal. unfold n in *. lia. }
  unfold group_scan_step. cbn [fst snd].
  destruct (decide (Some u = last uids)) as [Heq|Hne].
  - assert (Hne : uids ≠ []) by (intros ->; done).
    assert (Hclose : close_scan (groups, last uids, cur) = groups ++ [cur]).
    { simpl. specialize (Hcur Hne). by destruct cur; [apply not_elem_of_nil in Hcur|]. }
    assert (Hclose' : close_scan (groups, last uids, cur ++ [n]) = groups ++ [cur ++ [n]]).
    { simpl. by destruct cur. }
    split.
    + rewrite Hclose', concat_app. rewrite Hclose, concat_app in Hc. simpl in *.
      rewrite app_nil_r in *. rewrite (assoc_L (++)), Hc, length_app. simpl.
      rewrite Nat.add_1_r, seq_S. done.
    + cbn [fst snd]. by rewrite last_snoc.
    + intros _. cbn [snd]. rewrite length_app. simpl. fold n. set_solver by lia.
    + rewrite Hclose'. apply Hmono.
      * rewrite Hclose. intros g [Hg|Hg%list_elem_of_singleton]%elem_of_app.
        -- exists g. set_solver.
        -- subst g. exists (cur ++ [n]). set_solver.
      * intros _. exists (cur ++ [n]). specialize (Hcur Hne). set_solver.
  - assert (Hclose' : close_scan (close_scan (groups, last uids, cur), Some u, [n])
              = close_scan (groups, last uids, cur) ++ [[n]]) by done.
    split.
    + change (concat (close_scan (close_scan (groups, last uids, cur), Some u, [n]))
              = seq 0 (length (uids ++ [u]))).
      rewrite Hclose', concat_app, Hc, length_app. simpl. rewrite Nat.add_1_r, seq_S. done.
    + cbn [fst snd]. by rewrite last_snoc.
    + intros _. cbn [snd]. rewrite length_app. simpl. fold n.
      replace (n + 1 - 1)%nat with n by lia. set_solver.
    + change (∀ i v, (uids ++ [u]) !! i = Some v → (uids ++ [u]) !! S i = Some v →
              together (close_scan (close_scan (groups, last uids, cur), Some u, [n])) i (S i)).
      rewrite Hclose'. apply Hmono; [|intros E; by rewrite E in Hne].
      intros g Hg. exists g. set_solver.
Qed.

Lemma scan_ok uids :
  scan_inv uids (foldl group_scan_step ([], None, []) (imap pair uids)).
Proof using Type.
  induction uids as [|u uids IH] using rev_ind; [by split|].
  rewrite imap_app, foldl_app. simpl. rewrite Nat.add_0_r. by apply scan_step.
Qed.

Lemma uid_groups_close uids :
  uid_groups uids = close_scan (foldl group_scan_step ([], None, []) (imap pair uids)).
Proof using Type. unfold uid_groups. by destruct (foldl _ _ _) as [[??]?]. Qed.
End group_balanced_facts.

Lemma select_groups_perm (gs : list (list nat)) (ps : list (list nat)) :
  concat ps ≡ₚ seq 0 (length gs) →
  concat (map (λ p, sort_by nat_lt (concat (map (λ g, nth g gs []) p))) ps) ≡ₚ concat gs.
Proof.
  intros Hp.
  assert (H1 : concat (map (λ p, sort_by nat_lt (concat (map (λ g, nth g gs []) p))) ps)
            ≡ₚ concat (map (λ g, nth g gs []) (concat ps))).
  { clear. induction ps as [|p ps IH]; simpl; [done|].
    by rewrite sort_by_perm, IH, map_app, concat_app. }
  rewrite H1, (concat_perm _ _ (fmap_Permutation (λ g, nth g gs []) _ _ Hp)).
  assert (E : ((λ g, nth g gs []) <$> seq 0 (length gs)) = gs); [|by rewrite E].
  clear. induction gs as [|g gs IH]; [done|].
  cbn [length seq]. rewrite <-fmap_S_seq. csimpl. f_equal. by rewrite <-list_fmap_compose.
Qed.

(** ** Properties *)

(** For non-negative lengths and at least as many items as partitions,
    [get_seqlen_balanced_partitions] returns (no assertion of it or of
    [karmarkar_karp] fires): [k] sorted non-empty partitions that cover every index
    exactly once, of equal sizes when [equal_size] is set. *)
Theorem balanced_partitions_total seqlens k equal_size
    (Hk : (0 < k ≤ length seqlens)%nat)
    (Hpos : Forall (λ z, 0 ≤ z) seqlens)
    (Hmod : equal_size = true → (length seqlens mod k = 0)%nat) :
  ∃ ps, get_seqlen_balanced_partitions seqlens k equal_size = Ok ps ∧
    length ps = k ∧ concat ps ≡ₚ seq 0 (length seqlens) ∧
    Forall (λ p, p ≠ [] ∧ StronglySorted le p) ps ∧
    (equal_size = true → Forall (λ p, length p * k = length seqlens)%nat ps).
Proof. by apply get_seqlen_balanced_partitions_ok. Qed.

Lemma balanced_partitions_total_witness :
  ∃ ps, get_seqlen_balanced_partitions [3; 1; 4; 1; 5; 9] 3 true = Ok ps ∧
    length ps = 3%nat ∧ concat ps ≡ₚ seq 0 6 ∧
    Forall (λ p, p ≠ [] ∧ StronglySorted le p) ps ∧
    (true = true → Forall (λ p, length p * 3 = 6)%nat ps).
Proof.
  apply (balanced_partitions_total [3; 1; 4; 1; 5; 9] 3 true).
  - simpl. lia.
  - repeat constructor; lia.
  - reflexivity.
Defined.

(** [greedy_partition] on non-negative lengths returns [k] partitions covering
    every index once; with [equal_size] its bias makes them equally large, so its
    final assertion never fires. *)
Theorem greedy_partition_total seqlens k equal_size
    (Hk : (0 < k)%nat)
    (Hpos : Forall (λ z, 0 ≤ z) seqlens)
    (Hmod : equal_size = true → (length seqlens mod k = 0)%nat) :
  ∃ ps, greedy_partition seqlens k equal_size = Ok ps ∧
    length ps = k ∧ concat ps ≡ₚ seq 0 (length seqlens) ∧
    (equal_size = true → Forall (λ p, length p * k = length seqlens)%nat ps).
Proof.
  set (B := if equal_size then zsum seqlens + 1 else 0).
  assert (HB : 0 ≤ B) by (unfold B; pose proof (zsum_nonneg _ Hpos); destruct equal_size; lia).
  destruct (greedy_loop_ok seqlens k B Hk HB Hpos) as (st & Hst & Hinv).
  assert (Heq : equal_size = true → Forall (λ p, length p * k = length seqlens)%nat st.1).
  { intros E. apply greedy_equal_sizes; auto. unfold B in Hinv. by rewrite E in Hinv. }
  exists st.1. split_and!; [| apply Hinv | | done].
  - unfold greedy_partition. fold B. rewrite Hst. cbn [mbind result_bind].
    destruct equal_size; [|done]. rewrite (proj2 (forallb_Forall _ _)); [done|].
    eapply Forall_impl; [by apply Heq|]. intros p. by rewrite Nat.eqb_eq.
  - rewrite (gi_idx _ _ _ _ Hinv).
    change (map snd) with (fmap (M := list) (@snd Z nat)). rewrite fmap_imap.
    by rewrite <-imap_pair_fst, fmap_imap.
Qed.

Lemma greedy_partition_total_witness :
  ∃ ps, greedy_partition [9; 1; 1; 1] 2 true = Ok ps ∧
    length ps = 2%nat ∧ concat ps ≡ₚ seq 0 4 ∧
    (true = true → Forall (λ p, length p * 2 = 4)%nat ps).
Proof.
  apply (greedy_partition_total [9; 1; 1; 1] 2 true);
    [lia | repeat constructor; lia | reflexivity].
Defined.

(** C10: under its guards [rearrange_micro_batches] returns as many micro-batches as
    it computed, each non-empty, and restoring the per-sample results of the
    micro-batches with [restore_dynamic_batch] gives them in the original order,
    whatever [f] the micro-batches are processed with. *)
Theorem rearrange_restore_roundtrip {A B} o (batch : list A) seqlens mx (f : A → B)
    (Hg : micro_batch_guards o (length batch) seqlens mx) :
  ∃ mbs idx, rearrange_micro_batches o batch seqlens mx = Ok (mbs, idx) ∧
    length mbs = Z.to_nat
      (num_micro_batches_of o (length batch / force_group_size o) (zsum seqlens)) ∧
    Forall (λ p, p ≠ []) idx ∧
    restore_dynamic_batch (f <$> concat mbs) idx = Ok (f <$> batch).
Proof.
  destruct (rearrange_ok o batch seqlens mx Hg) as (mbs & idx & Hr & Hspec & Hl).
  exists mbs, idx. split_and!; [done..| apply Hspec | by apply restore_ok].
Qed.

Definition example_options : micro_batch_options := {|
  max_token_len := 8; dp_all_reduce_max := None; num_batches_divided_by := None;
  same_micro_num_in_dp := true; min_num_micro_batch := None;
  use_dynamic_bsz_balance := true; force_group_size := 1 |}.

Lemma rearrange_restore_roundtrip_witness :
  ∃ mbs idx, rearrange_micro_batches example_options [10; 11; 12; 13; 14] [5; 2; 5; 3; 3] 5
      = Ok (mbs, idx) ∧
    length mbs = Z.to_nat (num_micro_batches_of example_options (5 / 1) 18) ∧
    Forall (λ p, p ≠ []) idx ∧
    restore_dynamic_batch (Z.succ <$> concat mbs) idx = Ok (Z.succ <$> [10; 11; 12; 13; 14]).
Proof.
  apply (rearrange_restore_roundtrip example_options [10; 11; 12; 13; 14] [5; 2; 5; 3; 3] 5 Z.succ).
  split; [reflexivity | repeat constructor; lia | by vm_compute | simpl; lia | by vm_compute].
Defined.

(** The token bound documented for a micro-batch is not enforced: three samples of
    five tokens and [max_token_len = 8] give a micro-batch of ten tokens. *)
Lemma micro_batch_exceeds_token_limit :
  ∃ mbs idx, rearrange_micro_batches example_options [5; 5; 5] [5; 5; 5] 5 = Ok (mbs, idx) ∧
    Exists (λ mb, max_token_len example_options < zsum mb) mbs.
Proof.
  eexists _, _. split; [vm_compute; reflexivity|]. apply Exists_cons_hd. by vm_compute.
Qed.

(** [get_group_balanced_partitions] returns partitions that cover every sample
    exactly once and keep neighbouring samples of the same uid together. *)
Theorem group_partitions_keep_uids {U} `{EqDecision U} (seqlens : list Z) (uids : list U) k
    (Hlen : length seqlens = length uids)
    (Hpos : Forall (λ z, 0 ≤ z) seqlens)
    (Hk : (0 < k ≤ length (uid_groups uids))%nat)
    (Hmod : (length (uid_groups uids) mod k = 0)%nat) :
  ∃ ps, get_group_balanced_partitions seqlens uids k = Ok ps ∧ length ps = k ∧
    concat ps ≡ₚ seq 0 (length uids) ∧
    ∀ i u, uids !! i = Some u → uids !! S i = Some u → ∃ p, p ∈ ps ∧ i ∈ p ∧ S i ∈ p.
Proof.
  pose proof (scan_ok uids) as [Hc _ _ Hpair]. rewrite <-uid_groups_close in Hc, Hpair.
  set (ws := map (λ indices, zsum (map (λ i, calculate_workload (nth i seqlens 0)) indices))
               (uid_groups uids)).
  assert (Hws : Forall (λ z, 0 ≤ z) ws).
  { apply Forall_fmap, Forall_forall. intros g _. apply zsum_nonneg.
    apply Forall_fmap, Forall_forall. intros i _. unfold compose, calculate_workload.
    assert (0 ≤ nth i seqlens 0); [|rewrite Z.pow_2_r; nia].
    destruct (nth_in_or_default i seqlens 0) as [Hin|E]; [|by rewrite E].
    rewrite Forall_forall in Hpos. apply Hpos. by apply list_elem_of_In. }
  assert (Hwl : length ws = length (uid_groups uids)) by (unfold ws; by rewrite length_map).
  destruct (get_seqlen_balanced_partitions_ok ws k true) as (ps & Hps & Hl & Hperm & _);
    [lia | done | by rewrite Hwl|]. rewrite Hwl in Hperm.
  eexists. split_and!.
  - unfold get_group_balanced_partitions. rewrite Hlen, Nat.eqb_refl.
    rewrite (proj2 (Nat.leb_le _ _)) by lia. fold ws. rewrite Hps. reflexivity.
  - by rewrite length_map.
  - by rewrite select_groups_perm, Hc.
  - intros i u Hi Hsi. destruct (Hpair i u Hi Hsi) as (g & Hg & Hig & Hsig).
    apply list_elem_of_lookup in Hg as [j Hj].
    assert (Hjp : j ∈ concat ps).
    { rewrite Hperm. apply elem_of_seq. apply lookup_lt_Some in Hj. lia. }
    apply list_elem_of_In, in_concat in Hjp as (p & Hp & Hjp).
    eexists. split; [apply list_elem_of_fmap; exists p; split; [reflexivity | by apply list_elem_of_In]|].
    rewrite !sort_by_perm. rewrite !list_elem_of_In, !in_concat.
    assert (Hgin : In g (map (λ g, nth g (uid_groups uids) []) p)).
    { apply in_map_iff. exists j. split; [|done]. by apply nth_lookup_Some. }
    split; exists g; (split; [done|]; by apply list_elem_of_In).
Qed.

Lemma group_partitions_keep_uids_witness :
  ∃ ps, get_group_balanced_partitions [1; 2; 3; 4] ["a"; "a"; "b"; "b"]%string 2 = Ok ps ∧
    length ps = 2%nat ∧ concat ps ≡ₚ seq 0 4 ∧
    ∀ i u, ["a"; "a"; "b"; "b"]%string !! i = Some u → ["a"; "a"; "b"; "b"]%string !! S i = Some u →
      ∃ p, p ∈ ps ∧ i ∈ p ∧ S i ∈ p.
Proof.
  apply (group_partitions_keep_uids [1; 2; 3; 4] ["a"; "a"; "b"; "b"]%string 2);
    [reflexivity | repeat constructor; lia | vm_compute; lia | reflexivity].
Defined.
