(* ===== verification/Rlsd.v ===== *)
(** * Token-level RLSD and OPD-PG advantages: [src/verl/trainer/extpi_rlsd/rlsd.py]

    A rank-2 tensor is the list of its rows.  A float is [Fin r] for a real [r]
    (rounding is not modelled) or [NonFin] for NaN and the infinities.  Arithmetic
    on [NonFin] gives [NonFin] and comparisons with it are false.  That is exact
    for what the module returns: a non-finite value on a valid token is rejected by
    [compute_rlsd_advantages], and on a masked token it reaches a result only
    through a product with the mask's zero, which is NaN for NaN and for both
    infinities.  Masks are boolean; [b2r] is their value in arithmetic. *)

From S2P Require Import Prelude.
From Stdlib Require Import Reals Lra.
Local Open Scope R_scope.
Local Open Scope py_scope.

(** ** Tensors and floats *)

Inductive fnum := Fin (r : R) | NonFin.

Abbreviation tensor A := (list (list A)).
Definition tmap {A B} (f : A → B) (t : tensor A) : tensor B := (λ row : list A, f <$> row) <$> t.
Definition tzip {A B C} (f : A → B → C) (t : tensor A) (u : tensor B) : tensor C :=
  zip_with (zip_with f) t u.
Definition shape {A} (t : tensor A) : list nat := length <$> t.
Definition tget {A} (t : tensor A) (i j : nat) : option A := t !! i ≫= λ row, row !! j.

Definition f1 (f : R → R) (x : fnum) : fnum := match x with Fin a => Fin (f a) | NonFin => NonFin end.
Definition f2 (f : R → R → R) (x y : fnum) : fnum :=
  match x, y with Fin a, Fin b => Fin (f a b) | _, _ => NonFin end.
Definition fcmp (p : R → R → bool) (x y : fnum) : bool :=
  match x, y with Fin a, Fin b => p a b | _, _ => false end.

Definition Rltb (a b : R) : bool := if Rlt_dec a b then true else false.
Definition Rleb (a b : R) : bool := if Rle_dec a b then true else false.
Definition Reqb (a b : R) : bool := if Req_EM_T a b then true else false.

(** [torch.sign] and [Tensor.clamp(min, max)]. *)
Definition rsign (a : R) : R := if Rlt_dec 0 a then 1 else if Rlt_dec a 0 then -1 else 0.
Definition rclamp (lo hi a : R) : R := Rmin (Rmax a lo) hi.

Definition b2r (b : bool) : R := if b then 1 else 0.
Definition b2f (b : bool) : fnum := Fin (b2r b).
Definition is_fin (x : fnum) : bool := match x with Fin _ => true | NonFin => false end.
Definition fsum (l : list fnum) : fnum := foldr (f2 Rplus) (Fin 0) l.
Definition rsum (l : list R) : R := foldr Rplus 0 l.

(** ** Configuration *)

Record RLSDConfig := { lam : R; clip_range : R; negative_only : bool }.

Definition validate (c : RLSDConfig) : result unit :=
  require Rleb 0 (lam c) && Rleb (lam c) 1 else ValueError "lam must be in [0, 1]" ;;
  require Rleb 0 (clip_range c) && Rltb (clip_range c) 1
    else ValueError "clip_range must be in [0, 1)" ;;
  Ok tt.

(** ** Masked statistics *)

Definition mask_sum (mask : tensor bool) : R := rsum (map (λ row, rsum (map b2r row)) mask).

Definition masked_mean (value : tensor fnum) (mask : tensor bool) : fnum :=
  let masked_value := tzip (λ m v, if (m : bool) then v else Fin 0) mask value in
  f1 (λ s, s / Rmax (mask_sum mask) 1) (fsum (map fsum masked_value)).

Definition masked_std (value : tensor fnum) (mask : tensor bool) : fnum :=
  let mean := masked_mean value mask in
  f1 (λ v, sqrt (Rmax v 0)) (masked_mean (tmap (λ v, f1 (λ d, d ^ 2) (f2 Rminus v mean)) value) mask).

(** ** [compute_rlsd_advantages] *)

Record rlsd_metrics := {
  m_delta_mean : fnum; m_delta_std : fnum;
  m_log_weight_mean : fnum; m_log_weight_std : fnum;
  m_weight_mean : fnum; m_weight_std : fnum;
  m_clip_low_ratio : fnum; m_clip_high_ratio : fnum;
  m_token_mask_ratio : R; m_effective_lambda : R;
  m_adv_abs_mean_before : fnum; m_adv_abs_mean_after : fnum;
  m_sign_flip_count : nat;
  m_delta_pos_adv_mean : fnum; m_delta_neg_adv_mean : fnum }.

Definition tensors_finite_on (mask : tensor bool) (t : tensor fnum) : bool :=
  forallb (forallb (λ b : bool, b)) (tzip (λ m v, implb m (is_fin v)) mask t).

Definition count_true (t : tensor bool) : nat :=
  length (List.filter (λ b : bool, b) (concat t)).

Section rlsd_steps.
Context (teacher student adv : tensor fnum) (mask : tensor bool)
        (rlsd_token_mask : option (tensor bool)) (c : RLSDConfig).

Definition credit_mask : tensor bool :=
  match rlsd_token_mask with None => mask | Some tm => tzip andb tm mask end.
Definition delta : tensor fnum := tzip (f2 Rminus) teacher student.
Definition signed_delta : tensor fnum := tzip (f2 Rmult) (tmap (f1 rsign) adv) delta.
Definition log_low : R := ln (1 - clip_range c).
Definition log_high : R := ln (1 + clip_range c).
Definition clipped_weights : tensor fnum :=
  tmap (f1 exp) (tmap (f1 (rclamp log_low log_high)) signed_delta).
Definition rlsd_reweight : tensor fnum :=
  tmap (f1 (λ w, (1 - lam c) + lam c * w)) clipped_weights.

(** [torch.where(credit_mask, rlsd_reweight, 1) * mask] *)
Definition base_reweight : tensor fnum :=
  tzip (f2 Rmult) (tzip (λ b w, if (b : bool) then w else Fin 1) credit_mask rlsd_reweight)
    (tmap b2f mask).

(** Per sequence: is the masked sum of the advantages negative? *)
Definition negative_seq : list bool :=
  (λ row, fcmp Rltb (fsum row) (Fin 0)) <$> tzip (f2 Rmult) adv (tmap b2f mask).

Definition reweight : tensor fnum :=
  if negative_only c then
    zip_with (λ neg wm, zip_with
        (λ w m, f2 Rplus (f2 Rmult (b2f neg) w) (f2 Rmult (f2 Rminus (Fin 1) (b2f neg)) m))
        wm.1 wm.2)
      negative_seq (zip base_reweight (tmap b2f mask))
  else base_reweight.

Definition reweighted_advantages : tensor fnum :=
  tzip (f2 Rmult) (tzip (f2 Rmult) adv reweight) (tmap b2f mask).

Definition sign_flips : tensor bool :=
  tzip andb
    (tzip (λ x y, negb (fcmp Reqb x y)) (tmap (f1 rsign) reweighted_advantages)
       (tmap (f1 rsign) adv))
    (tzip andb mask (tmap (λ a, negb (fcmp Reqb a (Fin 0))) adv)).

Definition rlsd_metrics_of : rlsd_metrics := {|
  m_delta_mean := masked_mean delta mask;
  m_delta_std := masked_std delta mask;
  m_log_weight_mean := masked_mean signed_delta credit_mask;
  m_log_weight_std := masked_std signed_delta credit_mask;
  m_weight_mean := masked_mean clipped_weights credit_mask;
  m_weight_std := masked_std clipped_weights credit_mask;
  m_clip_low_ratio := masked_mean (tmap (λ s, b2f (fcmp Rltb s (Fin log_low))) signed_delta) credit_mask;
  m_clip_high_ratio := masked_mean (tmap (λ s, b2f (fcmp Rltb (Fin log_high) s)) signed_delta) credit_mask;
  m_token_mask_ratio := mask_sum credit_mask / Rmax (mask_sum mask) 1;
  m_effective_lambda := lam c;
  m_adv_abs_mean_before := masked_mean (tmap (f1 Rabs) adv) mask;
  m_adv_abs_mean_after := masked_mean (tmap (f1 Rabs) reweighted_advantages) mask;
  m_sign_flip_count := count_true sign_flips;
  m_delta_pos_adv_mean := masked_mean delta (tzip (λ m a, m && fcmp Rltb (Fin 0) a) mask adv);
  m_delta_neg_adv_mean := masked_mean delta (tzip (λ m a, m && fcmp Rltb a (Fin 0)) mask adv) |}.

Definition compute_rlsd_advantages : result (tensor fnum * rlsd_metrics) :=
  validate c ≫= λ _,
  require bool_decide (shape teacher = shape student ∧ shape student = shape adv ∧
                       shape adv = shape mask)
    else ValueError "teacher_log_probs, student_log_probs, advantages, and response_mask must share the same shape" ;;
  require (match rlsd_token_mask with
           | Some tm => bool_decide (shape tm = shape mask) | None => true end)
    else ValueError "rlsd_token_mask must share the same shape as response_mask" ;;
  require tensors_finite_on mask teacher else ValueError "RLSD found non-finite teacher_log_probs" ;;
  require tensors_finite_on mask student else ValueError "RLSD found non-finite student_log_probs" ;;
  require tensors_finite_on mask adv else ValueError "RLSD found non-finite advantages" ;;
  require tensors_finite_on mask signed_delta else ValueError "RLSD found non-finite signed_delta" ;;
  Ok (reweighted_advantages, rlsd_metrics_of).
End rlsd_steps.

(** ** [compute_opd_pg_advantages]

    [quantile] is [torch.quantile]. *)

Record opd_metrics := {
  o_logratio_mean : fnum; o_logratio_abs_mean : fnum; o_logratio_p99 : fnum;
  o_logratio_clamp_ratio : fnum; o_teacher_logp_mean : fnum; o_student_old_logp_mean : fnum }.

Section opd_steps.
Context (quantile : list fnum → R → fnum).
Context (teacher student_old : tensor fnum) (mask : tensor bool) (logratio_clip_abs : R).

Definition raw_logratio : tensor fnum :=
  tzip (f2 Rmult) (tzip (f2 Rminus) teacher student_old) (tmap b2f mask).
Definition token_advantages : tensor fnum :=
  tzip (f2 Rmult) (tmap (f1 (rclamp (- logratio_clip_abs) logratio_clip_abs)) raw_logratio)
    (tmap b2f mask).
Definition selected_abs : list fnum :=
  concat (map (λ row, map (f1 Rabs) (snd <$> List.filter fst row)) (tzip pair mask raw_logratio)).

Definition compute_opd_pg_advantages : result (tensor fnum * opd_metrics) :=
  require bool_decide (shape teacher = shape student_old ∧ shape teacher = shape mask)
    else ValueError "teacher_log_probs, student_old_log_probs, and response_mask must share the same shape" ;;
  require negb (Rleb logratio_clip_abs 0) else ValueError "logratio_clip_abs must be positive" ;;
  Ok (token_advantages, {|
    o_logratio_mean := masked_mean raw_logratio mask;
    o_logratio_abs_mean := masked_mean (tmap (f1 Rabs) raw_logratio) mask;
    o_logratio_p99 := if existsb (existsb (λ b : bool, b)) mask then quantile selected_abs 0.99 else Fin 0;
    o_logratio_clamp_ratio := masked_mean
      (tmap (λ r, b2f (fcmp Rltb (Fin logratio_clip_abs) (f1 Rabs r))) raw_logratio) mask;
    o_teacher_logp_mean := masked_mean teacher mask;
    o_student_old_logp_mean := masked_mean student_old mask |}).
End opd_steps.

(** ** Entries of mapped and zipped tensors *)

Lemma shape_length {A B} (t : tensor A) (u : tensor B) : shape t = shape u → length t = length u.
Proof. unfold shape. intros H%(f_equal length). by rewrite !length_fmap in H. Qed.

Lemma shape_tzip {A B C} (f : A → B → C) t u : shape t = shape u → shape (tzip f t u) = shape t.
Proof.
  unfold shape, tzip. revert u. induction t as [|r t IH]; intros [|s u] H; csimpl in *; [done..|].
  injection H as H1 H2. rewrite IH by done. f_equal. rewrite length_zip_with. lia.
Qed.

Lemma shape_tmap {A B} (f : A → B) t : shape (tmap f t) = shape t.
Proof. unfold shape, tmap. rewrite <-list_fmap_compose. apply list_fmap_ext. intros _ r _. apply length_fmap. Qed.

Lemma tget_tmap {A B} (f : A → B) t i j : tget (tmap f t) i j = f <$> tget t i j.
Proof.
  unfold tget, tmap. rewrite list_lookup_fmap. destruct (t !! i); simpl; [|done].
  apply list_lookup_fmap.
Qed.

Lemma tget_tzip {A B C} (f : A → B → C) t u i j a b :
  tget t i j = Some a → tget u i j = Some b → tget (tzip f t u) i j = Some (f a b).
Proof.
  unfold tget, tzip. rewrite lookup_zip_with. destruct (t !! i); simpl; [|done].
  destruct (u !! i); simpl; [|done]. rewrite lookup_zip_with. by intros -> ->.
Qed.

Lemma tget_tzip_inv {A B C} (f : A → B → C) t u i j c :
  tget (tzip f t u) i j = Some c → ∃ a b, tget t i j = Some a ∧ tget u i j = Some b ∧ c = f a b.
Proof.
  unfold tget, tzip. rewrite lookup_zip_with. destruct (t !! i) as [r|]; simpl; [|done].
  destruct (u !! i) as [r'|]; simpl; [|done]. rewrite lookup_zip_with.
  destruct (r !! j) eqn:?, (r' !! j) eqn:?; simpl; naive_solver.
Qed.

Lemma tget_shape {A B} (t : tensor A) (u : tensor B) i j a :
  shape t = shape u → tget t i j = Some a → ∃ b, tget u i j = Some b.
Proof.
  unfold tget, shape. intros Hs H. assert (Hi : length <$> t !! i = length <$> u !! i).
  { by rewrite <-!list_lookup_fmap, Hs. }
  destruct (t !! i) as [r|]; [|done]. destruct (u !! i) as [r'|]; [|done]. simpl in *.
  injection Hi as Hl. apply lookup_lt_is_Some_2. rewrite <-Hl. by eapply lookup_lt_Some.
Qed.

Lemma forallb_tget (t : tensor bool) :
  forallb (forallb (λ b : bool, b)) t = true ↔ ∀ i j b, tget t i j = Some b → b = true.
Proof.
  rewrite forallb_Forall, Forall_lookup. unfold tget. split.
  - intros H i j b Hb. apply bind_Some in Hb as (row & Hi & Hj). specialize (H i row Hi).
    rewrite forallb_Forall, Forall_lookup in H. eauto.
  - intros H i row Hi. rewrite forallb_Forall, Forall_lookup. intros j b Hj.
    apply (H i j). by rewrite Hi.
Qed.

Lemma tensors_finite_on_spec mask t :
  tensors_finite_on mask t = true ↔
  ∀ i j v, tget mask i j = Some true → tget t i j = Some v → is_fin v = true.
Proof.
  unfold tensors_finite_on. rewrite forallb_tget. split.
  - intros H i j v Hm Hv. specialize (H i j (implb true (is_fin v))).
    simpl in H. apply H. by rewrite (tget_tzip _ _ _ _ _ _ _ Hm Hv).
  - intros H i j b Hb. apply tget_tzip_inv in Hb as (m & v & Hm & Hv & ->).
    destruct m; simpl; eauto.
Qed.

(** ** Real-number facts *)

Lemma rclamp_bounds lo hi a : lo <= hi → lo <= rclamp lo hi a <= hi.
Proof.
  intros H. unfold rclamp. split; [|apply Rmin_r].
  apply Rmin_glb; [apply Rmax_r | done].
Qed.

Lemma rclamp_id lo hi a : lo <= a <= hi → rclamp lo hi a = a.
Proof. intros [??]. unfold rclamp. rewrite Rmax_left by lra. apply Rmin_left. lra. Qed.

Lemma exp_rclamp lo hi a : exp (rclamp lo hi a) = rclamp (exp lo) (exp hi) (exp a).
Proof.
  assert (Hle : ∀ x y, x <= y → exp x <= exp y).
  { intros x y [H| ->]; [left; by apply exp_increasing | right; done]. }
  unfold rclamp. destruct (Rle_dec a lo).
  - rewrite (Rmax_right a lo), (Rmax_right (exp a)) by auto.
    destruct (Rle_dec lo hi); [rewrite !Rmin_left | rewrite !Rmin_right]; auto; lra || apply Hle; lra.
  - rewrite (Rmax_left a lo), (Rmax_left (exp a)) by (lra || apply Hle; lra).
    destruct (Rle_dec a hi); [rewrite !Rmin_left | rewrite !Rmin_right]; auto; lra || apply Hle; lra.
Qed.

Lemma Rltb_spec a b : Rltb a b = true ↔ a < b.
Proof. unfold Rltb. destruct (Rlt_dec a b); naive_solver. Qed.
Lemma Rleb_spec a b : Rleb a b = true ↔ a <= b.
Proof. unfold Rleb. destruct (Rle_dec a b); naive_solver. Qed.

Lemma rsign_mul_pos a w : 0 < w → rsign (a * w) = rsign a.
Proof.
  intros Hw. unfold rsign. destruct (Rlt_dec 0 a), (Rlt_dec a 0); try lra.
  - destruct (Rlt_dec 0 (a * w)); [done | nra].
  - destruct (Rlt_dec 0 (a * w)); [nra|]. destruct (Rlt_dec (a * w) 0); [done | nra].
  - assert (a = 0) as -> by lra. rewrite Rmult_0_l.
    destruct (Rlt_dec 0 0); [lra|]. destruct (Rlt_dec 0 0); [lra | done].
Qed.

(** ** One token *)

Section token.
Context (teacher student adv : tensor fnum) (mask : tensor bool)
        (tm : option (tensor bool)) (c : RLSDConfig).

(** The clamped evidence weight and the factor the code multiplies a token by. *)
Definition token_weight (a d : R) : R :=
  exp (rclamp (log_low c) (log_high c) (rsign a * d)).
Definition token_factor (credit neg : bool) (a d : R) : R :=
  if negative_only c && negb neg then 1
  else if credit then (1 - lam c) + lam c * token_weight a d else 1.

(** What [compute_rlsd_advantages] checks before computing. *)
Record rlsd_valid : Prop := {
  rv_lam : 0 <= lam c <= 1;
  rv_clip : 0 <= clip_range c < 1;
  rv_shape : shape teacher = shape student ∧ shape student = shape adv ∧ shape adv = shape mask;
  rv_tm : match tm with Some t => shape t = shape mask | None => True end;
  rv_fin : ∀ i j, tget mask i j = Some true → ∃ t s a,
    tget teacher i j = Some (Fin t) ∧ tget student i j = Some (Fin s) ∧
    tget adv i j = Some (Fin a) }.

Lemma fin_at (t : tensor fnum) i j :
  shape t = shape mask → tensors_finite_on mask t = true → tget mask i j = Some true →
  ∃ r, tget t i j = Some (Fin r).
Proof using Type.
  intros Hs Hf Hm. destruct (tget_shape mask t i j true) as [v Hv]; [done..|].
  assert (Hv' : is_fin v = true) by (eapply tensors_finite_on_spec; eauto).
  destruct v; [eauto | done].
Qed.

Lemma fin_on (t : tensor fnum) :
  (∀ i j, tget mask i j = Some true → ∃ r, tget t i j = Some (Fin r)) →
  tensors_finite_on mask t = true.
Proof using Type.
  intros H. apply tensors_finite_on_spec. intros i j v Hm Hv.
  destruct (H i j Hm) as [r Hr]. by simplify_eq.
Qed.

Lemma signed_delta_at i j t s a :
  tget teacher i j = Some (Fin t) → tget student i j = Some (Fin s) →
  tget adv i j = Some (Fin a) →
  tget (signed_delta teacher student adv) i j = Some (Fin (rsign a * (t - s))).
Proof using Type.
  intros Ht Hs Ha. unfold signed_delta, delta.
  rewrite (tget_tzip _ _ _ _ _ (Fin (rsign a)) (Fin (t - s))); [done| |].
  - by rewrite tget_tmap, Ha.
  - by rewrite (tget_tzip _ _ _ _ _ _ _ Ht Hs).
Qed.

(** The guards pass exactly on valid inputs. *)
Lemma compute_rlsd_valid :
  rlsd_valid ↔ ∃ m, compute_rlsd_advantages teacher student adv mask tm c =
    Ok (reweighted_advantages teacher student adv mask tm c, m).
Proof using Type.
  unfold compute_rlsd_advantages, validate. split.
  - intros [Hlam Hclip (Hs1 & Hs2 & Hs3) Htm Hfin].
    rewrite (proj2 (Rleb_spec 0 (lam c))), (proj2 (Rleb_spec (lam c) 1)) by lra.
    rewrite (proj2 (Rleb_spec 0 (clip_range c))), (proj2 (Rltb_spec (clip_range c) 1)) by lra.
    cbn [andb mbind result_bind]. rewrite bool_decide_eq_true_2 by done.
    replace (match tm with Some t => _ | None => _ end) with true
      by (destruct tm; [by rewrite bool_decide_eq_true_2 | done]).
    rewrite !fin_on; [eauto|..]; intros i j (t & s & a & Ht & Hs & Ha)%Hfin; eauto.
    eexists. by eapply signed_delta_at.
  - intros [m H]. apply bind_Ok_inv in H as (u & Hu & H). inv_oks Hu. inv_oks H.
    apply bool_decide_eq_true in Hreq1 as (Hs1 & Hs2 & Hs3).
    apply andb_true_iff in Hreq as [H1%Rleb_spec H2%Rleb_spec].
    apply andb_true_iff in Hreq0 as [H3%Rleb_spec H4%Rltb_spec].
    split; [lra | lra | done | |].
    + destruct tm; [by apply bool_decide_eq_true in Hreq2 | done].
    + intros i j Hm. destruct (fin_at teacher i j) as [t Ht]; [congruence | done..|].
      destruct (fin_at student i j) as [s Hs]; [congruence | done..|].
      destruct (fin_at adv i j) as [a Ha]; [congruence | done..|]. eauto 7.
Qed.

Lemma credit_at i j :
  rlsd_valid → tget mask i j = Some true →
  ∃ b, tget (credit_mask mask tm) i j = Some b ∧
    b = match tm with None => true | Some t => default false (tget t i j) end.
Proof using Type.
  intros Hv Hm. unfold credit_mask. destruct tm as [t|] eqn:E; [|eauto].
  pose proof (rv_tm Hv) as Ht. rewrite E in Ht.
  destruct (tget_shape mask t i j true) as [b Hb]; [done..|].
  exists b. rewrite (tget_tzip _ _ _ _ _ _ _ Hb Hm), andb_true_r, Hb. done.
Qed.

(** On a valid token the output is the advantage times its factor. *)
Lemma rlsd_token i j :
  rlsd_valid → tget mask i j = Some true →
  ∃ t s a credit neg,
    tget teacher i j = Some (Fin t) ∧ tget student i j = Some (Fin s) ∧
    tget adv i j = Some (Fin a) ∧ tget (credit_mask mask tm) i j = Some credit ∧
    negative_seq adv mask !! i = Some neg ∧
    tget (reweighted_advantages teacher student adv mask tm c) i j =
      Some (Fin (a * token_factor credit neg a (t - s))).
Proof using Type.
  intros Hv Hm. destruct (rv_fin Hv i j Hm) as (t & s & a & Ht & Hs & Ha).
  destruct (credit_at i j Hv Hm) as (credit & Hc & _).
  assert (Hmf : tget (tmap b2f mask) i j = Some (Fin 1)) by (by rewrite tget_tmap, Hm).
  assert (Ham : tget (tzip (f2 Rmult) adv (tmap b2f mask)) i j = Some (Fin (a * 1)))
    by (by rewrite (tget_tzip _ _ _ _ _ _ _ Ha Hmf)).
  assert (∃ neg, negative_seq adv mask !! i = Some neg) as [neg Hneg].
  { unfold negative_seq. rewrite list_lookup_fmap. unfold tget in Ham.
    destruct (tzip _ _ _ !! i); simpl; [eauto | done]. }
  exists t, s, a, credit, neg. split_and!; [done..|].
  set (w := (1 - lam c) + lam c * token_weight a (t - s)).
  assert (Hrw : tget (rlsd_reweight teacher student adv c) i j = Some (Fin w)).
  { unfold rlsd_reweight, clipped_weights. rewrite !tget_tmap.
    by rewrite (signed_delta_at i j t s a). }
  assert (Hb : tget (base_reweight teacher student adv mask tm c) i j
               = Some (Fin ((if credit then w else 1) * 1))).
  { unfold base_reweight.
    rewrite (tget_tzip _ _ _ _ _ (if credit then Fin w else Fin 1) (Fin 1)); [| |done].
    - by destruct credit.
    - by rewrite (tget_tzip _ _ _ _ _ _ _ Hc Hrw). }
  assert (Hr : tget (reweight teacher student adv mask tm c) i j
               = Some (Fin (token_factor credit neg a (t - s)))).
  { unfold reweight, token_factor. fold w. destruct (negative_only c).
    - unfold tget in Hb, Hmf |- *. rewrite lookup_zip_with, Hneg. simpl.
      rewrite lookup_zip_with. destruct (base_reweight _ _ _ _ _ _ !! i) as [br|]; [|done].
      destruct (tmap b2f mask !! i) as [mr|]; [|done]. simpl in *.
      rewrite lookup_zip_with, Hb, Hmf. simpl. destruct neg; simpl; f_equal; f_equal; lra.
    - rewrite Hb. simpl. f_equal. f_equal. lra. }
  unfold reweighted_advantages.
  rewrite (tget_tzip _ _ _ _ _ (Fin (a * token_factor credit neg a (t - s))) (Fin 1)); [| |done].
  - simpl. f_equal. f_equal. lra.
  - by rewrite (tget_tzip _ _ _ _ _ _ _ Ha Hr).
Qed.

Lemma log_low_high : 0 <= clip_range c < 1 →
  exp (log_low c) = 1 - clip_range c ∧ exp (log_high c) = 1 + clip_range c ∧
  log_low c <= log_high c.
Proof using Type.
  intros H. unfold log_low, log_high. rewrite !exp_ln by lra. split_and!; [done..|].
  destruct (Req_dec (clip_range c) 0) as [E|]; [rewrite E; apply Req_le; f_equal; lra|].
  left. apply ln_increasing; lra.
Qed.

Lemma token_weight_bounds a d : 0 <= clip_range c < 1 →
  1 - clip_range c <= token_weight a d <= 1 + clip_range c.
Proof using Type.
  intros H. destruct (log_low_high H) as (<- & <- & Hle). unfold token_weight.
  rewrite exp_rclamp. apply rclamp_bounds.
  destruct Hle as [Hl|E]; [left; by apply exp_increasing | right; by rewrite E].
Qed.

Lemma token_factor_bounds credit neg a d : rlsd_valid →
  1 - lam c * clip_range c <= token_factor credit neg a d <= 1 + lam c * clip_range c.
Proof using Type.
  intros Hv. pose proof (rv_lam Hv). pose proof (rv_clip Hv).
  pose proof (token_weight_bounds a d (rv_clip Hv)). unfold token_factor.
  destruct (_ && _); [nra|]. destruct credit; nra.
Qed.
End token.

(** ** The sign-flip counter *)

Lemma count_true_zero t : (∀ i j b, tget t i j = Some b → b = false) → count_true t = 0%nat.
Proof.
  intros H. unfold count_true. replace (List.filter _ _) with (@nil bool); [done|].
  symmetry. assert (Hc : Forall (λ b, b = false) (concat t)).
  { apply Forall_concat, Forall_lookup. intros i row Hi. apply Forall_lookup. intros j b Hj.
    apply (H i j). unfold tget. by rewrite Hi. }
  induction Hc as [|b l -> Hc IH]; simpl; auto.
Qed.

Lemma Reqb_refl a : Reqb a a = true.
Proof. unfold Reqb. by destruct (Req_EM_T a a). Qed.

Lemma no_sign_flips teacher student adv mask tm c :
  rlsd_valid teacher student adv mask tm c →
  count_true (sign_flips teacher student adv mask tm c) = 0%nat.
Proof.
  intros Hv. apply count_true_zero. intros i j b Hb. unfold sign_flips in Hb.
  apply tget_tzip_inv in Hb as (x & y & Hx & Hy & ->).
  apply tget_tzip_inv in Hy as (m & z & Hm & _ & ->). destruct m; [|apply andb_false_r].
  apply tget_tzip_inv in Hx as (u & v & Hu & Hw & ->).
  destruct (rlsd_token _ _ _ _ _ _ i j Hv Hm)
    as (t & s & a & credit & neg & _ & _ & Ha & _ & _ & Ho).
  rewrite tget_tmap, Ho in Hu. rewrite tget_tmap, Ha in Hw. simpl in Hu, Hw. simplify_eq.
  pose proof (token_factor_bounds _ _ _ _ _ _ credit neg a (t - s) Hv).
  pose proof (rv_lam _ _ _ _ _ _ Hv). pose proof (rv_clip _ _ _ _ _ _ Hv).
  rewrite rsign_mul_pos by nra. simpl. by rewrite Reqb_refl.
Qed.

Lemma compute_rlsd_output teacher student adv mask tm c out m :
  compute_rlsd_advantages teacher student adv mask tm c = Ok (out, m) →
  out = reweighted_advantages teacher student adv mask tm c ∧
  m = rlsd_metrics_of teacher student adv mask tm c ∧
  rlsd_valid teacher student adv mask tm c.
Proof.
  intros H. assert (H' := H). unfold compute_rlsd_advantages in H'. inv_oks H'. simplify_eq.
  split_and!; [done..|]. apply compute_rlsd_valid. eauto.
Qed.

(** ** OPD-PG tokens *)

Lemma opd_token teacher student mask clip i j t s m :
  0 < clip → tget teacher i j = Some (Fin t) → tget student i j = Some (Fin s) →
  tget mask i j = Some m →
  tget (token_advantages teacher student mask clip) i j =
    Some (Fin (if m then rclamp (- clip) clip (t - s) else 0)).
Proof.
  intros Hc Ht Hs Hm. unfold token_advantages, raw_logratio.
  assert (Hmf : tget (tmap b2f mask) i j = Some (b2f m)) by (by rewrite tget_tmap, Hm).
  assert (Hr : tget (tzip (f2 Rmult) (tzip (f2 Rminus) teacher student) (tmap b2f mask)) i j
               = Some (Fin ((t - s) * b2r m))).
  { by rewrite (tget_tzip _ _ _ _ _ (Fin (t - s)) (b2f m));
      [|rewrite (tget_tzip _ _ _ _ _ _ _ Ht Hs)|]. }
  rewrite (tget_tzip _ _ _ _ _ (Fin (rclamp (- clip) clip ((t - s) * b2r m))) (b2f m)); [| |done].
  - simpl. f_equal. f_equal. destruct m; simpl; [rewrite !Rmult_1_r; done | lra].
  - by rewrite tget_tmap, Hr.
Qed.

(** ** A concrete batch for the witnesses *)

Definition ex_config : RLSDConfig :=
  {| lam := 1 / 2; clip_range := 1 / 5; negative_only := false |}.
Definition ex_teacher : tensor fnum := [[Fin (-1); NonFin]].
Definition ex_student : tensor fnum := [[Fin (-2); Fin 0]].
Definition ex_adv : tensor fnum := [[Fin (-3); Fin 7]].
Definition ex_mask : tensor bool := [[true; false]].

Lemma ex_valid : rlsd_valid ex_teacher ex_student ex_adv ex_mask None ex_config.
Proof.
  split; simpl; [lra | lra | done | done |].
  intros [|i] [|[|j]] H; try discriminate H. by exists (-1), (-2), (-3).
Qed.

(** ** Properties *)

(** C6: on every valid token a successful [compute_rlsd_advantages] returns a
    finite advantage of the same sign as the input, whose size changed by a factor
    within [1 - lam*clip_range] and [1 + lam*clip_range]. *)
Theorem rlsd_sign_and_bounds teacher student adv mask tm c out m i j
    (Hok : compute_rlsd_advantages teacher student adv mask tm c = Ok (out, m))
    (Hm : tget mask i j = Some true) :
  ∃ a a', tget adv i j = Some (Fin a) ∧ tget out i j = Some (Fin a') ∧
    rsign a' = rsign a ∧
    Rabs a * (1 - lam c * clip_range c) <= Rabs a' <= Rabs a * (1 + lam c * clip_range c).
Proof.
  destruct (compute_rlsd_output _ _ _ _ _ _ _ _ Hok) as (-> & _ & Hv).
  destruct (rlsd_token _ _ _ _ _ _ i j Hv Hm) as (t & s & a & credit & neg & _ & _ & Ha & _ & _ & Ho).
  pose proof (token_factor_bounds _ _ _ _ _ _ credit neg a (t - s) Hv) as Hf.
  pose proof (rv_lam _ _ _ _ _ _ Hv). pose proof (rv_clip _ _ _ _ _ _ Hv).
  eexists _, _. split_and!; [done | done | | |].
  - apply rsign_mul_pos. nra.
  - rewrite Rabs_mult. pose proof (Rabs_pos a). rewrite (Rabs_right (token_factor _ _ _ _ _)) by nra. nra.
  - rewrite Rabs_mult. pose proof (Rabs_pos a). rewrite (Rabs_right (token_factor _ _ _ _ _)) by nra. nra.
Qed.

Lemma rlsd_sign_and_bounds_witness : ∃ a a',
  tget ex_adv 0 0 = Some (Fin a) ∧
  tget (reweighted_advantages ex_teacher ex_student ex_adv ex_mask None ex_config) 0 0
    = Some (Fin a') ∧ rsign a' = rsign a ∧
  Rabs a * (1 - 1 / 2 * (1 / 5)) <= Rabs a' <= Rabs a * (1 + 1 / 2 * (1 / 5)).
Proof.
  destruct (proj1 (compute_rlsd_valid _ _ _ _ _ _) ex_valid) as [m Hm].
  exact (rlsd_sign_and_bounds _ _ _ _ _ _ _ m 0 0 Hm eq_refl).
Defined.

(** C2: the clamp in the log domain computes the documented formula.  On a valid
    token, [A' = A * ((1 - lam) + lam * clamp(exp(sign(A) * (t - s)), 1 - eps, 1 + eps))]
    where the token mask gives credit and [negative_only] does not exempt the
    sequence; elsewhere [A' = A]. *)
Theorem rlsd_matches_formula teacher student adv mask tm c out m i j
    (Hok : compute_rlsd_advantages teacher student adv mask tm c = Ok (out, m))
    (Hm : tget mask i j = Some true) :
  ∃ t s a credit neg,
    tget teacher i j = Some (Fin t) ∧ tget student i j = Some (Fin s) ∧
    tget adv i j = Some (Fin a) ∧ tget (credit_mask mask tm) i j = Some credit ∧
    negative_seq adv mask !! i = Some neg ∧
    tget out i j = Some (Fin (
      if negb (negative_only c && negb neg) && credit
      then a * ((1 - lam c) + lam c *
             rclamp (1 - clip_range c) (1 + clip_range c) (exp (rsign a * (t - s))))
      else a)).
Proof.
  destruct (compute_rlsd_output _ _ _ _ _ _ _ _ Hok) as (-> & _ & Hv).
  destruct (rlsd_token _ _ _ _ _ _ i j Hv Hm)
    as (t & s & a & credit & neg & Ht & Hs & Ha & Hc & Hn & Ho).
  exists t, s, a, credit, neg. split_and!; [done..|]. rewrite Ho. do 2 f_equal.
  destruct (log_low_high c (rv_clip _ _ _ _ _ _ Hv)) as (<- & <- & _).
  rewrite <-exp_rclamp. unfold token_factor, token_weight.
  destruct (negative_only c && negb neg), credit; simpl; lra.
Qed.

Lemma rlsd_matches_formula_witness : ∃ t s a credit neg,
  tget ex_teacher 0 0 = Some (Fin t) ∧ tget ex_student 0 0 = Some (Fin s) ∧
  tget ex_adv 0 0 = Some (Fin a) ∧ tget (credit_mask ex_mask None) 0 0 = Some credit ∧
  negative_seq ex_adv ex_mask !! 0%nat = Some neg ∧
  tget (reweighted_advantages ex_teacher ex_student ex_adv ex_mask None ex_config) 0 0
    = Some (Fin (if negb (false && negb neg) && credit
        then a * ((1 - 1 / 2) + 1 / 2 * rclamp (1 - 1 / 5) (1 + 1 / 5) (exp (rsign a * (t - s))))
        else a)).
Proof.
  destruct (proj1 (compute_rlsd_valid _ _ _ _ _ _) ex_valid) as [m Hm].
  exact (rlsd_matches_formula _ _ _ _ _ _ _ m 0 0 Hm eq_refl).
Defined.

(** C38: [compute_rlsd_advantages] succeeds exactly when the configuration is in
    range, the shapes agree and every valid token is finite in all three tensors;
    its [rlsd/sign_flip_count] metric is then zero. *)
Theorem rlsd_succeeds_iff_valid teacher student adv mask tm c :
  rlsd_valid teacher student adv mask tm c ↔
  ∃ out m, compute_rlsd_advantages teacher student adv mask tm c = Ok (out, m) ∧
    m_sign_flip_count m = 0%nat.
Proof.
  split.
  - intros Hv. destruct (proj1 (compute_rlsd_valid _ _ _ _ _ _) Hv) as [m Hm].
    eexists _, m. split; [exact Hm|].
    destruct (compute_rlsd_output _ _ _ _ _ _ _ _ Hm) as (_ & -> & _).
    by apply no_sign_flips.
  - intros (out & m & Hm & _). by destruct (compute_rlsd_output _ _ _ _ _ _ _ _ Hm) as (_ & _ & ?).
Qed.

(** The OPD-PG advantage of a finite token is the log-ratio clamped to
    [+-logratio_clip_abs], so it never exceeds the clip, and zero where masked. *)
Theorem opd_pg_clamped quantile teacher student mask clip out m i j t s b
    (Hok : compute_opd_pg_advantages quantile teacher student mask clip = Ok (out, m))
    (Ht : tget teacher i j = Some (Fin t)) (Hs : tget student i j = Some (Fin s))
    (Hm : tget mask i j = Some b) :
  ∃ a, tget out i j = Some (Fin a) ∧ Rabs a <= clip ∧
    (b = false → a = 0) ∧ (b = true → Rabs (t - s) <= clip → a = t - s).
Proof.
  unfold compute_opd_pg_advantages in Hok. inv_oks Hok. simplify_eq.
  apply negb_true_iff in Hreq0.
  assert (Hc : 0 < clip).
  { destruct (Rlt_dec 0 clip); [done|]. assert (H : Rleb clip 0 = true); [|congruence].
    apply Rleb_spec. lra. }
  eexists. split; [by eapply opd_token|]. split_and!.
  - destruct b; [|rewrite Rabs_R0; lra].
    apply Rabs_le. apply rclamp_bounds. lra.
  - by intros ->.
  - intros -> Hle. apply rclamp_id. revert Hle. unfold Rabs. destruct (Rcase_abs (t - s)); lra.
Qed.

Lemma opd_pg_clamped_witness : ∃ a,
  tget (token_advantages ex_teacher ex_student ex_mask 5) 0 0 = Some (Fin a) ∧ Rabs a <= 5 ∧
  (true = false → a = 0) ∧ (true = true → Rabs (-1 - -2) <= 5 → a = -1 - -2).
Proof.
  eapply (opd_pg_clamped (λ _ _, Fin 0) ex_teacher ex_student ex_mask 5);
    [|reflexivity|reflexivity|reflexivity].
  unfold compute_opd_pg_advantages. rewrite bool_decide_eq_true_2 by done.
  replace (Rleb 5 0) with false; [reflexivity|].
  unfold Rleb. destruct (Rle_dec 5 0); [lra | done].
Defined.
