(* ===== verification/PromptAssembly.v ===== *)
(** * Prompt assembly: [src/verl/trainer/extpi_rlsd/prompt_assembly.py]

    The three user templates, the chat rendering with its retry, the prompt
    bundle and the privileged-information guard.  [str.format] is spelled out: the
    escaped braces of the templates are single braces here. *)

From S2P Require Import Prelude PyStr.
Local Open Scope string_scope.
Local Open Scope py_scope.

Definition DEFAULT_PI_TRACE_FIELD : string := "qwen32b_pi_trace".

Definition task_header : string :=
  "Solve the following mathematics problem. Give a concise, self-contained derivation." ++ nl ++
  "End with the final answer in \boxed{...}." ++ nl ++ nl.

Definition STUDENT_USER_TEMPLATE (problem : string) : string := task_header ++ problem.

Definition reference_intro : string :=
  nl ++ nl ++ "A verified reference solution from another solver is provided below. Use it only as" ++ nl ++
  "private guidance. Do not quote it or mention that a reference was provided." ++ nl ++ nl.

Definition PI_TEACHER_USER_TEMPLATE (problem pi_trace : string) : string :=
  task_header ++ problem ++ reference_intro ++ "<reference_solution>" ++ nl ++ pi_trace ++ nl ++
  "</reference_solution>".

Definition CLOSED_TEACHER_USER_TEMPLATE (problem : string) : string :=
  task_header ++
  "Do not provide hidden chain-of-thought. Provide only visible reasoning that can be audited." ++
  nl ++ nl ++ problem.

Record message := { role : string; content : string }.

Record PromptBundle := {
  student_prompt : string;
  direct_opd_teacher_prompt : string;
  pi_teacher_prompt : option string }.

(** The tokenizer of [transformers]: [apply_chat_template] with [tokenize=False] and
    [add_generation_prompt=True]; the option is the [enable_thinking] keyword, [None]
    when it is not passed. *)
Class ChatTokenizer := apply_chat_template : list message → option bool → result string.

Section prompts.
Context `{ChatTokenizer}.

Definition render_chat (user_text : string) (enable_thinking : option bool) : result string :=
  let messages := [{| role := "user"; content := user_text |}] in
  match apply_chat_template messages enable_thinking with
  | Raise (TypeError _) => apply_chat_template messages None
  | r => r
  end.

Definition build_student_prompt (problem : string) (enable_thinking : bool) : result string :=
  render_chat (STUDENT_USER_TEMPLATE problem) (Some enable_thinking).

Definition build_direct_opd_teacher_prompt (problem : string) (enable_thinking : bool) : result string :=
  build_student_prompt problem enable_thinking.

Definition build_pi_teacher_prompt (problem pi_trace : string) (enable_thinking : bool) : result string :=
  render_chat (PI_TEACHER_USER_TEMPLATE problem pi_trace) (Some enable_thinking).

(** Truth of an optional string: [None] and the empty string are false. *)
Definition present (s : option string) : bool :=
  match s with None | Some EmptyString => false | _ => true end.

Definition build_prompt_bundle (problem : string) (pi_trace : option string)
    (student_thinking teacher_thinking : bool) : result PromptBundle :=
  student ← build_student_prompt problem student_thinking;
  direct ← build_direct_opd_teacher_prompt problem teacher_thinking;
  pi ← (if present pi_trace
        then Some <$> build_pi_teacher_prompt problem (default "" pi_trace) teacher_thinking
        else Ok None);
  Ok {| student_prompt := student; direct_opd_teacher_prompt := direct; pi_teacher_prompt := pi |}.
End prompts.

Definition assert_no_pi_in_student_prompt (student_prompt : string) (pi_trace : option string) : result unit :=
  require negb (contains "<reference_solution>" student_prompt
                || contains "</reference_solution>" student_prompt)
    else ValueError "Student prompt contains PI reference tags" ;;
  require negb (present pi_trace && present (Some (strip (default "" pi_trace)))
                && contains (strip (default "" pi_trace)) student_prompt)
    else ValueError "Student prompt contains privileged trace text" ;;
  Ok tt.

(** ** Lemmas *)

Lemma present_spec s : present s = true ↔ ∃ t, s = Some t ∧ t ≠ "".
Proof. destruct s as [[|c t]|]; simpl; naive_solver. Qed.

(** What the guard promises. *)
Definition pi_free (prompt : string) (pi_trace : option string) : Prop :=
  contains "<reference_solution>" prompt = false ∧
  contains "</reference_solution>" prompt = false ∧
  ∀ trace, pi_trace = Some trace → strip trace ≠ "" → contains (strip trace) prompt = false.

Lemma assert_no_pi_spec prompt pi_trace :
  assert_no_pi_in_student_prompt prompt pi_trace = Ok tt ↔ pi_free prompt pi_trace.
Proof.
  unfold assert_no_pi_in_student_prompt, pi_free.
  destruct (contains "<reference_solution>" prompt), (contains "</reference_solution>" prompt);
    simpl; try naive_solver.
  destruct pi_trace as [[|c t]|]; simpl; try naive_solver.
  remember (strip (String c t)) as u eqn:Hu. split.
  - intros H. repeat split; try done. intros tr [= <-] Hne. rewrite <-Hu in Hne |- *.
    destruct u; [done|]. simpl in H. destruct (contains _ prompt); done.
  - intros (_ & _ & H). destruct u as [|d u]; simpl; [done|].
    specialize (H _ eq_refl). rewrite <-Hu in H. by rewrite H.
Qed.

Lemma task_header_no_lt : has_char "<" task_header = false.
Proof. reflexivity. Qed.

(** A tag occurs in the student's text exactly when the problem has it. *)
Lemma student_text_tag tag problem :
  contains (String "<" tag) (STUDENT_USER_TEMPLATE problem) = contains (String "<" tag) problem.
Proof. apply contains_app_no_char, task_header_no_lt. Qed.

Lemma student_text_contains_problem problem :
  contains problem (STUDENT_USER_TEMPLATE problem) = true.
Proof. apply contains_spec. exists task_header, "". unfold STUDENT_USER_TEMPLATE. by rewrite app_nil_r_s. Qed.

Lemma pi_text_contains_tag problem trace :
  contains "<reference_solution>" (PI_TEACHER_USER_TEMPLATE problem trace) = true.
Proof.
  apply contains_spec. exists (task_header ++ problem ++ reference_intro),
    (nl ++ trace ++ nl ++ "</reference_solution>").
  unfold PI_TEACHER_USER_TEMPLATE. by rewrite !sapp_assoc.
Qed.

Lemma pi_text_contains_trace problem trace :
  contains trace (PI_TEACHER_USER_TEMPLATE problem trace) = true.
Proof.
  apply contains_spec.
  exists (task_header ++ problem ++ reference_intro ++ "<reference_solution>" ++ nl),
    (nl ++ "</reference_solution>").
  unfold PI_TEACHER_USER_TEMPLATE. by rewrite !sapp_assoc.
Qed.

(** A chat template that copies the user's text into the prompt. *)
Definition keeps_content (tok : ChatTokenizer) : Prop :=
  ∀ text thinking out,
    tok [{| role := "user"; content := text |}] thinking = Ok out → contains text out = true.

Lemma render_chat_keeps (tok : ChatTokenizer) text thinking out :
  keeps_content tok → render_chat text thinking = Ok out → contains text out = true.
Proof.
  intros Hk Hr. unfold render_chat, apply_chat_template in Hr.
  destruct (tok _ thinking) as [o|e] eqn:E; [injection Hr as <-; by eapply Hk|].
  destruct e; try discriminate. by eapply Hk.
Qed.

(** ** Properties *)

(** C39: The guard separates the two prompts.  It accepts the student's text of a
    problem exactly when the problem has no reference tag and the text has no copy
    of the stripped trace; and with any chat template that keeps the user's text it
    refuses every rendered PI-teacher prompt, so a PI prompt passed where a student
    prompt belongs never goes unnoticed. *)
Theorem pi_guard_separates_prompts (tok : ChatTokenizer) (problem trace : string) (thinking : bool) :
  keeps_content tok →
  (assert_no_pi_in_student_prompt (STUDENT_USER_TEMPLATE problem) (Some trace) = Ok tt ↔
     contains "<reference_solution>" problem = false ∧
     contains "</reference_solution>" problem = false ∧
     (strip trace ≠ "" → contains (strip trace) (STUDENT_USER_TEMPLATE problem) = false)) ∧
  (∀ out other, build_pi_teacher_prompt problem trace thinking = Ok out →
     assert_no_pi_in_student_prompt out other =
       Raise (ValueError "Student prompt contains PI reference tags")).
Proof.
  intros Hk. split.
  - rewrite assert_no_pi_spec. unfold pi_free. rewrite !student_text_tag. naive_solver.
  - intros out other Hb. apply render_chat_keeps in Hb; [|done].
    assert (contains "<reference_solution>" out = true) as Hc
      by (eapply contains_trans; [apply pi_text_contains_tag | exact Hb]).
    unfold assert_no_pi_in_student_prompt. by rewrite Hc.
Qed.

(** The bundle keeps the privileged trace in the PI prompt only: the student and
    direct-teacher prompts are functions of the problem alone, they coincide when the
    thinking flags do, the PI prompt exists exactly when the trace is a non-empty
    string, and it then carries the trace. *)
Theorem prompt_bundle_isolates_trace (tok : ChatTokenizer) problem trace st tt' b :
  keeps_content tok →
  build_prompt_bundle problem trace st tt' = Ok b →
  render_chat (STUDENT_USER_TEMPLATE problem) (Some st) = Ok (student_prompt b) ∧
  (st = tt' → direct_opd_teacher_prompt b = student_prompt b) ∧
  (∀ trace' b', build_prompt_bundle problem trace' st tt' = Ok b' →
     student_prompt b' = student_prompt b ∧
     direct_opd_teacher_prompt b' = direct_opd_teacher_prompt b) ∧
  match pi_teacher_prompt b with
  | None => present trace = false
  | Some p => ∃ t, trace = Some t ∧ t ≠ "" ∧ contains t p = true
  end.
Proof.
  intros Hk Hb. unfold build_prompt_bundle, build_direct_opd_teacher_prompt in Hb. inv_oks Hb.
  subst b. simpl. repeat split.
  - done.
  - intros ->. congruence.
  - unfold build_prompt_bundle, build_direct_opd_teacher_prompt in H. inv_oks H. subst b'. simpl. congruence.
  - unfold build_prompt_bundle, build_direct_opd_teacher_prompt in H. inv_oks H. subst b'. simpl. congruence.
  - destruct (present trace) eqn:Hp; [|by injection Hv1 as <-].
    apply present_spec in Hp as (t & -> & Hne). simpl in Hv1.
    destruct (build_pi_teacher_prompt problem t tt') as [p|] eqn:Ep; [|discriminate].
    injection Hv1 as <-. exists t. repeat split; [done|].
    eapply contains_trans; [apply pi_text_contains_trace | by eapply render_chat_keeps].
Qed.

(** A chat template that knows no [enable_thinking] keyword, as older ones do. *)
Definition plain_template : ChatTokenizer := λ msgs thinking,
  match thinking with
  | Some _ => Raise (TypeError "unexpected keyword argument")
  | None => Ok (str_join nl ((λ m, "<|" ++ role m ++ "|>" ++ content m) <$> msgs) ++ "<|assistant|>")
  end.

Lemma plain_template_keeps : keeps_content plain_template.
Proof.
  intros text [|] out; cbn; intros [= <-]. apply contains_spec.
  by exists "<|user|>", "<|assistant|>".
Qed.

Lemma pi_guard_separates_prompts_witness :
  assert_no_pi_in_student_prompt (STUDENT_USER_TEMPLATE "1+1?") (Some "it is two") = Ok tt ∧
  ∃ out, @build_pi_teacher_prompt plain_template "1+1?" "it is two" true = Ok out ∧
    assert_no_pi_in_student_prompt out None =
      Raise (ValueError "Student prompt contains PI reference tags").
Proof.
  split.
  - apply (pi_guard_separates_prompts plain_template "1+1?" "it is two" true plain_template_keeps).
    repeat split; vm_compute; done.
  - eexists. split; [vm_compute; reflexivity|].
    apply (pi_guard_separates_prompts plain_template "1+1?" "it is two" true plain_template_keeps).
    vm_compute. reflexivity.
Defined.

Lemma prompt_bundle_isolates_trace_witness :
  ∃ b, @build_prompt_bundle plain_template "1+1?" (Some "it is two") false false = Ok b ∧
    direct_opd_teacher_prompt b = student_prompt b.
Proof.
  eexists. split; [vm_compute; reflexivity|].
  eapply (prompt_bundle_isolates_trace plain_template "1+1?" (Some "it is two") false false);
    [exact plain_template_keeps | vm_compute; reflexivity | reflexivity].
Defined.
