(* ===== verification/MathReward.v ===== *)
(** * Math reward: [src/recipes/extpi_rlsd/rewards/math_verify_reward.py]

    Extraction of the last boxed answer by brace matching, verification with a
    normalised-string fallback, and the reward row. *)

From S2P Require Import Prelude PyStr.
From Stdlib Require Import QArith.
Local Close Scope Q_scope.
Local Open Scope string_scope.
Local Open Scope py_scope.

Definition boxed_tag : string := "\boxed".

(** The loop of [extract_boxed_answer] over [text[brace_idx:]]: the offset of the
    brace that brings the depth back to zero. *)
Fixpoint close_brace (depth : Z) (s : string) : option nat :=
  match s with
  | EmptyString => None
  | String c s' =>
      if bool_decide (c = "{"%char) then S <$> close_brace (depth + 1) s'
      else if bool_decide (c = "}"%char) then
        if Z.eqb (depth - 1) 0 then Some 0 else S <$> close_brace (depth - 1) s'
      else S <$> close_brace depth s'
  end.

Definition extract_boxed_answer (text : string) : option string :=
  match rfind boxed_tag text with
  | None => None
  | Some idx =>
      match find "{" (sdrop idx text) with
      | None => None
      | Some k =>
          let from_brace := sdrop (idx + k) text in
          match close_brace 0 from_brace with
          | None => None
          | Some pos => Some (strip (stake (pos - 1) (sdrop 1 from_brace)))
          end
      end
  end.

Definition normalize_string (value : string) : string :=
  lower (remove_spaces (replace "$" "" value)).

(** [math_verify]: [verify(parse(gt_text), parse(pred_text))], which may raise (also
    when the package is missing). *)
Class MathVerify := math_verify : string → string → result bool.

Definition dollars (s : string) : string := if contains "$" s then s else "$" ++ s ++ "$".

Record score_row := {
  score : Q; accuracy : Q; format : Q; boxed_answer : string }.

Section reward.
Context `{MathVerify}.

(** [except Exception] catches everything but [SystemExit]. *)
Definition verify_answer (predicted : option string) (ground_truth : string) : result bool :=
  match predicted with
  | None => Ok false
  | Some p =>
      match math_verify (dollars ground_truth) (dollars p) with
      | Ok b => Ok b
      | Raise (SystemExit m) => Raise (SystemExit m)
      | Raise _ => Ok (bool_decide (normalize_string p = normalize_string ground_truth))
      end
  end.

Definition compute_score (solution_str ground_truth : string) : result score_row :=
  let boxed := extract_boxed_answer solution_str in
  correct ← verify_answer boxed ground_truth;
  let formatted := if boxed is Some _ then true else false in
  Ok {| score := if (correct : bool) then 1%Q else if (formatted : bool) then (5 # 100)%Q else 0%Q;
        accuracy := if correct then 1%Q else 0%Q;
        format := if formatted then 1%Q else 0%Q;
        boxed_answer := default "" boxed |}.
End reward.

(** ** Balanced braces *)

Inductive balanced : string → Prop :=
  | bal_nil : balanced EmptyString
  | bal_char c s : c ≠ "{"%char → c ≠ "}"%char → balanced s → balanced (String c s)
  | bal_nest s t : balanced s → balanced t → balanced (String "{" (s ++ String "}" t)).

(** [b1 } b2 } ... bd }], each [b] balanced. *)
Definition closing (bs : list string) : string := foldr (λ b s, b ++ String "}" s) EmptyString bs.

Lemma close_brace_balanced b d s :
  balanced b → (0 < d)%Z →
  close_brace d (b ++ s) = Nat.add (String.length b) <$> close_brace d s.
Proof.
  intros Hb. revert d s. induction Hb as [|c b Hl Hr Hb IH|b t Hb IHb Ht IHt]; intros d s Hd; cbn.
  - by destruct (close_brace d s).
  - rewrite !bool_decide_eq_false_2 by done. rewrite IH by done. by destruct (close_brace d s).
  - rewrite sapp_assoc, IHb by lia. cbn. char_decide.
    rewrite (proj2 (Z.eqb_neq _ _)) by lia.
    replace (d + 1 - 1)%Z with d by lia. rewrite IHt by done.
    destruct (close_brace d s); cbn; [|done]. f_equal. rewrite length_sapp. cbn. lia.
Qed.

Lemma close_brace_inv d s pos :
  (0 < d)%Z → close_brace d s = Some pos →
  ∃ bs post, Forall balanced bs ∧ Z.of_nat (length bs) = d ∧
    s = closing bs ++ post ∧ S pos = String.length (closing bs).
Proof.
  revert d pos. induction s as [|c s IH]; intros d pos Hd H; [done|]. cbn in H.
  case_bool_decide as Hl; [|case_bool_decide as Hr].
  - subst c. destruct (close_brace (d + 1) s) as [p|] eqn:E; [|done]. injection H as <-.
    apply IH in E as (bs & post & Hbs & Hlen & -> & Hpos); [|lia].
    destruct bs as [|b1 [|b2 bs]]; simpl in Hlen; [lia|lia|].
    inversion_clear Hbs as [|? ? H1 Hbs']. inversion_clear Hbs' as [|? ? H2 Hbs].
    exists (String "{" (b1 ++ String "}" b2) :: bs), post. repeat split.
    + constructor; [by constructor | done].
    + simpl in *. lia.
    + cbn. f_equal. rewrite !sapp_assoc. cbn. by rewrite !sapp_assoc.
    + cbn in Hpos |- *. rewrite !length_sapp in *. cbn in *. rewrite !length_sapp in *.
      cbn in *. lia.
  - subst c. destruct (Z.eqb_spec (d - 1) 0).
    + injection H as <-. exists [EmptyString], s. repeat split; [repeat constructor | simpl; lia].
    + destruct (close_brace (d - 1) s) as [p|] eqn:E; [|done]. injection H as <-.
      apply IH in E as (bs & post & Hbs & Hlen & -> & Hpos); [|lia].
      exists (EmptyString :: bs), post. repeat split.
      * by repeat constructor.
      * simpl. lia.
      * cbn. by rewrite Hpos.
  - destruct (close_brace d s) as [p|] eqn:E; [|done]. injection H as <-.
    apply IH in E as (bs & post & Hbs & Hlen & -> & Hpos); [|lia].
    destruct bs as [|b bs]; [simpl in Hlen; lia|]. inversion_clear Hbs as [|? ? Hb Hbs'].
    exists (String c b :: bs), post. repeat split; [by repeat constructor | done | by cbn in *; rewrite Hpos].
Qed.

(** ** The shape of an extracted answer *)

(** [text] is [pre \boxed mid { body } post]: the last tag, then the first brace after
    it, up to the brace that closes it. *)
Definition boxed_at (text body : string) : Prop :=
  ∃ pre mid post,
    text = pre ++ boxed_tag ++ (mid ++ "{" ++ body ++ "}" ++ post) ∧
    contains boxed_tag (mid ++ "{" ++ body ++ "}" ++ post) = false ∧
    has_char "{" mid = false ∧ balanced body.

Lemma rfind_boxed_tag pre s :
  contains boxed_tag s = false → rfind boxed_tag (pre ++ boxed_tag ++ s) = Some (String.length pre).
Proof.
  intros Hno. apply rfind_last. intros n Hn.
  do 6 (destruct n as [|n]; [first [lia | reflexivity]|]). cbn [sdrop].
  by apply contains_false_sdrop.
Qed.

Lemma rfind_boxed_Some text n :
  rfind boxed_tag text = Some n →
  ∃ pre s, text = pre ++ boxed_tag ++ s ∧ String.length pre = n ∧ contains boxed_tag s = false.
Proof.
  intros H. apply rfind_Some in H as (s & Hs & Hno). exists (stake n text), s.
  split; [exact Hs|]. split.
  - apply length_stake. destruct (decide (n ≤ String.length text)%nat) as [|Hgt]; [done|].
    exfalso. assert (String.length (stake n text) = String.length text) as Hl.
    { clear -Hgt. revert n Hgt. induction text as [|c t IH]; intros [|n] H; cbn in *; try lia.
      rewrite IH; lia. }
    apply (f_equal String.length) in Hs. rewrite length_sapp, Hl in Hs. cbn in Hs. lia.
  - by eapply (contains_app_false boxed_tag "boxed").
Qed.

(** ** Properties *)

(** Extraction finds exactly the last boxed answer: it returns [a] if and only if
    the text has a last [\boxed] tag followed by a first brace that is closed, and [a]
    is the stripped, brace-balanced text between the two braces.  In particular nested
    braces survive a round trip and text after the closing brace does not matter. *)
Theorem extract_boxed_answer_iff text a :
  extract_boxed_answer text = Some a ↔ ∃ body, boxed_at text body ∧ a = strip body.
Proof.
  unfold extract_boxed_answer. split.
  - destruct (rfind boxed_tag text) as [idx|] eqn:Er; [|done].
    apply rfind_boxed_Some in Er as (pre & s & -> & <- & Hno).
    rewrite sdrop_app, find_char_skip by done.
    destruct (find "{" s) as [k|] eqn:Ef; [|done]. cbn [fmap option_fmap option_map].
    apply find_char_Some in Ef as (s' & Hs & Hmid & Hdrop).
    rewrite sdrop_app_add, sdrop_app_add, Hdrop. cbn [close_brace]. char_decide.
    destruct (close_brace (0 + 1) s') as [pos|] eqn:Ec; [|done]. intros [= <-].
    apply close_brace_inv in Ec as (bs & post & Hbs & Hlen & -> & Hpos); [|lia].
    destruct bs as [|body [|]]; simpl in Hlen; [lia| |lia].
    inversion_clear Hbs as [|? ? Hbody _]. cbn in Hpos. rewrite length_sapp in Hpos. cbn in Hpos.
    exists body. split.
    + exists pre, (stake k s), post. rewrite Hs in Hno. cbn in Hno |- *.
      rewrite sapp_assoc in Hno. cbn in Hno. repeat split; [|done..].
      do 7 f_equal. rewrite Hs at 1. cbn. by rewrite sapp_assoc.
    + f_equal. cbn. rewrite sapp_assoc. replace (pos - 0)%nat with (String.length body) by lia.
      apply stake_app.
  - intros (body & (pre & mid & post & -> & Hno & Hmid & Hbal) & ->).
    rewrite rfind_boxed_tag by done. rewrite sdrop_app, find_char_skip by done.
    change ("{" ++ body ++ "}" ++ post) with (String "{" (body ++ "}" ++ post)).
    rewrite find_char_app by done. cbn [fmap option_fmap option_map].
    rewrite sdrop_app_add, sdrop_app_add, sdrop_app. cbn [close_brace]. char_decide.
    rewrite close_brace_balanced by (done || lia). cbn. char_decide.
    change (0 + 1 - 1 =? 0)%Z with true. cbn [fmap option_fmap option_map].
    rewrite Nat.add_0_r. cbn [Nat.sub]. rewrite Nat.sub_0_r. by rewrite stake_app.
Qed.

(** What the three-valued reward means. *)
Definition graded (row : score_row) : Prop :=
  (score row = 1%Q ∧ accuracy row = 1%Q ∧ format row = 1%Q) ∨
  (score row = (5 # 100)%Q ∧ accuracy row = 0%Q ∧ format row = 1%Q) ∨
  (score row = 0%Q ∧ accuracy row = 0%Q ∧ format row = 0%Q ∧ boxed_answer row = "").

(** The reward is decided by two facts only.  Unless the verifier asks the process to
    exit, a score row is always produced; it is one of the three grades; full score is
    given exactly when a boxed answer exists and verifies; the format credit exactly
    when a boxed answer exists; and whenever the verifier raises, two answers that
    differ only in dollars, blanks and letter case still match. *)
Theorem compute_score_graded (mv : MathVerify) (solution ground_truth : string) :
  (∀ g p m, mv g p ≠ Raise (SystemExit m)) →
  ∃ row, compute_score solution ground_truth = Ok row ∧ graded row ∧
    (score row = 1%Q ↔ ∃ p, extract_boxed_answer solution = Some p ∧
       (mv (dollars ground_truth) (dollars p) = Ok true ∨
        is_ok (mv (dollars ground_truth) (dollars p)) = false ∧
        normalize_string p = normalize_string ground_truth)) ∧
    (format row = 1%Q ↔ ∃ p, extract_boxed_answer solution = Some p) ∧
    boxed_answer row = default "" (extract_boxed_answer solution).
Proof.
  intros Hexit. unfold compute_score, verify_answer, math_verify, graded.
  destruct (extract_boxed_answer solution) as [p|]; cbn.
  2:{ eexists. split; [done|]. cbn. split; [auto 6|].
      split; [split; [done | by intros (? & ? & _)]|]. split; [split; [done | by intros [? ?]]|done]. }
  specialize (Hexit (dollars ground_truth) (dollars p)).
  assert (∀ b : bool,
    (b = true ↔ mv (dollars ground_truth) (dollars p) = Ok true ∨
       is_ok (mv (dollars ground_truth) (dollars p)) = false ∧
       normalize_string p = normalize_string ground_truth) →
    ∃ row, Ok {| score := if b then 1%Q else 5 # 100; accuracy := if b then 1%Q else 0%Q;
                 format := 1; boxed_answer := p |} = Ok row ∧ graded row ∧
    (score row = 1%Q ↔ ∃ q, Some p = Some q ∧
       (mv (dollars ground_truth) (dollars q) = Ok true ∨
        is_ok (mv (dollars ground_truth) (dollars q)) = false ∧
        normalize_string q = normalize_string ground_truth)) ∧
    (format row = 1%Q ↔ ∃ q, Some p = Some q) ∧ boxed_answer row = p) as Hrow.
  { intros b Hb. eexists. split; [done|]. unfold graded. cbn. split; [destruct b; auto 6|].
    split; [|split; [split; eauto | done]]. split.
    - intros H. exists p. split; [done|]. apply Hb. by destruct b.
    - intros (q & [= <-] & H). apply Hb in H. by subst b. }
  destruct (mv (dollars ground_truth) (dollars p)) as [b|e]; cbn in *.
  - apply Hrow. split; [by intros ->; left | intros [[= ->]|[? _]]; done].
  - destruct e; cbn; try (by exfalso; eapply Hexit); apply Hrow;
      rewrite bool_decide_eq_true; (split; [by right | by intros [|[_ ?]]]).
Qed.

Lemma compute_score_graded_witness :
  let mv : MathVerify := λ _ _, Raise (RuntimeError "math_verify is not installed") in
  ∃ row, compute_score "so \boxed{\frac{1}{2}} holds" "\FRAC{1} {2}" = Ok row ∧ score row = 1%Q.
Proof.
  intros mv.
  destruct (compute_score_graded mv "so \boxed{\frac{1}{2}} holds" "\FRAC{1} {2}")
    as (row & Hr & _ & Hs & _).
  - done.
  - exists row. split; [exact Hr|]. apply Hs. eexists. split; [vm_compute; reflexivity|].
    right. split; vm_compute; reflexivity.
Defined.
