(* ===== verification/Scorer.v ===== *)
(** * Exact-token teacher scoring: [src/verl/trainer/extpi_rlsd/scorer.py]

    Token ids are integers, logits and log probabilities reals (rounding is not
    modelled).  A rank-2 tensor is the list of its rows, so its width is that of its
    first row; ranks are fixed by the types, and the rank checks of the source have
    no counterpart.  The language model is a parameter: a state with a training flag
    and adapters, and a forward pass. *)

From S2P Require Import Prelude PyStr Json Rlsd.
From Stdlib Require Import Reals Lra.
Local Open Scope py_scope.

Definition twidth {A} (t : tensor A) : nat := match t with [] => 0 | r :: _ => length r end.
Definition to_bool (z : Z) : bool := negb (Z.eqb z 0).
Definition count (row : list bool) : nat := length (List.filter (λ b : bool, b) row).

(** ** The prefix check *)

Definition expected_row (width : nat) (row : list bool) : list bool :=
  (λ j, Nat.leb (width - count row) j) <$> seq 0 width.

Definition assert_left_padded_prefix_mask (prefix_attention_mask : tensor Z) : result unit :=
  let mask := tmap to_bool prefix_attention_mask in
  require negb (existsb (λ row, Nat.eqb (count row) 0) mask)
    else ValueError "Teacher scorer found an empty prompt prefix" ;;
  require forallb (λ row, bool_decide (last row = Some true)) mask
    else ValueError "Teacher scorer requires left-padded prompt prefixes with a real token at prefix_width-1. Found right-padded or non-contiguous prompt prefix." ;;
  require bool_decide (mask = expected_row (twidth mask) <$> mask)
    else ValueError "Teacher scorer requires contiguous left-padded prompt prefixes. Found right-padded or non-contiguous prompt prefix." ;;
  Ok tt.

(** ** Model inputs *)

Record score_inputs := {
  input_ids : tensor Z;
  attention_mask : tensor bool;
  position_ids : tensor Z;
  in_response_ids : tensor Z;
  in_response_mask : tensor bool;
  response_logit_positions : tensor nat }.

(** [cumsum - 1], clamped at zero, of one row of the attention mask. *)
Fixpoint cumsum_from (acc : Z) (row : list bool) : list Z :=
  match row with
  | [] => []
  | b :: row => let acc := (acc + Z.b2z b)%Z in acc :: cumsum_from acc row
  end.
Definition position_row (row : list bool) : list Z := (λ c, Z.max (c - 1) 0) <$> cumsum_from 0 row.

Definition masked_fill (pad : Z) (ids : tensor Z) (mask : tensor bool) : tensor Z :=
  tzip (λ id m, if (m : bool) then id else pad) ids mask.

Definition cat1 {A} (t u : tensor A) : tensor A := zip_with (++) t u.

Definition build_causal_score_inputs (prefix_input_ids prefix_attention_mask response_ids
    response_mask : tensor Z) (pad_token_id : Z) : result score_inputs :=
  require bool_decide (shape prefix_input_ids = shape prefix_attention_mask)
    else ValueError "prefix_input_ids and prefix_attention_mask shapes differ" ;;
  require bool_decide (shape response_ids = shape response_mask)
    else ValueError "response_ids and response_mask shapes differ" ;;
  require bool_decide (length prefix_input_ids = length response_ids)
    else ValueError "prefix and response batch sizes differ" ;;
  _ ← assert_left_padded_prefix_mask prefix_attention_mask;
  let response_mask_bool := tmap to_bool response_mask in
  let response_ids_for_input := masked_fill pad_token_id response_ids response_mask_bool in
  let full_attention_mask := cat1 (tmap to_bool prefix_attention_mask) response_mask_bool in
  let prefix_width := twidth prefix_input_ids in
  let response_len := twidth response_ids in
  Ok {| input_ids := cat1 prefix_input_ids response_ids_for_input;
        attention_mask := full_attention_mask;
        position_ids := map position_row full_attention_mask;
        in_response_ids := response_ids;
        in_response_mask := response_mask_bool;
        response_logit_positions :=
          repeat (seq (prefix_width - 1) response_len) (length response_ids) |}.

(** ** Gathering log probabilities *)

Definition log_softmax (row : list R) : list R :=
  let lse := ln (rsum (exp <$> row)) in (λ x, x - lse)%R <$> row.

Definition gather_token (temperature : R) (logits : list (list R)) (pos : nat) (id : Z) : result R :=
  row ← of_option (IndexError "index out of bounds") (logits !! pos);
  require Z.leb 0 id else RuntimeError "index out of bounds" ;;
  of_option (RuntimeError "index out of bounds")
    (log_softmax ((λ x, x / temperature)%R <$> row) !! Z.to_nat id).

(** The batch index is broadcast against the rows of positions. *)
Definition paired_rows {A B} (logits : list A) (rows : list B) : result (list (A * B)) :=
  if Nat.eqb (length logits) (length rows) then Ok (zip logits rows)
  else match logits, rows with
       | [l], _ => Ok ((λ r, (l, r)) <$> rows)
       | l :: _, [r] => Ok [(l, r)]
       | _, _ => Raise (IndexError "shape mismatch: indexing tensors could not be broadcast together")
       end.

Definition gather_response_log_probs (logits : list (list (list R))) (response_ids : tensor Z)
    (response_logit_positions : tensor nat) (temperature : R) : result (tensor R) :=
  require negb (Rleb temperature 0) else ValueError "temperature must be positive" ;;
  require bool_decide (shape response_ids = shape response_logit_positions)
    else ValueError "response_ids and response_logit_positions shapes differ" ;;
  rows ← paired_rows logits (zip response_logit_positions response_ids);
  mapM (λ lr : list (list R) * (list nat * list Z),
          mapM (λ pi : nat * Z, gather_token temperature lr.1 pi.1 pi.2) (zip lr.2.1 lr.2.2)) rows.

(** ** Tokenizer compatibility *)

Record tokenizer_info := {
  vocab_size : option Z;
  bos_token_id : option Z; eos_token_id : option Z; pad_token_id : option Z;
  special_tokens_map : gmap string string;
  chat_template : option string;
  get_vocab : option (gmap string Z);
  encode : string → list Z }.

Definition default_samples : list string :=
  ["x"; "\boxed{1}"; "Solve the problem."; "<|im_start|>user"]%string.

Section compat.
Context `{PyPrims} (sha256_hex : string → string).

Definition hash_text (value : option string) : option string := sha256_hex <$> value.

Definition named_checks (s t : tokenizer_info) : list (string * bool) :=
  [("vocab_size", bool_decide (vocab_size s = vocab_size t));
   ("bos_token_id", bool_decide (bos_token_id s = bos_token_id t));
   ("eos_token_id", bool_decide (eos_token_id s = eos_token_id t));
   ("pad_token_id", bool_decide (pad_token_id s = pad_token_id t));
   ("special_tokens_map", bool_decide (special_tokens_map s = special_tokens_map t));
   ("chat_template_hash", bool_decide (hash_text (chat_template s) = hash_text (chat_template t)))]%string.

Definition vocab_failures (s t : tokenizer_info) : list string :=
  match get_vocab s, get_vocab t with
  | Some v, Some w => if bool_decide (v = w) then [] else ["full_vocab_mapping"%string]
  | _, _ => []
  end.

Fixpoint mapping_failures (s t : tokenizer_info) (samples : list string) : list string :=
  match samples with
  | [] => []
  | x :: samples =>
      if bool_decide (encode s x = encode t x) then mapping_failures s t samples
      else [("token_mapping:" ++ py_repr (JStr x))%string]
  end.

(** [sample_strings or [...]]: an absent or empty list means the defaults. *)
Definition samples_or_default (sample_strings : option (list string)) : list string :=
  match sample_strings with None | Some [] => default_samples | Some l => l end.

Definition assert_tokenizer_compatible (s t : tokenizer_info)
    (sample_strings : option (list string)) : result unit :=
  let failures := (List.filter (λ c, negb c.2) (named_checks s t)).*1 ++ vocab_failures s t ++
                  mapping_failures s t (samples_or_default sample_strings) in
  match failures with
  | [] => Ok tt
  | _ => Raise (ValueError ("Teacher tokenizer is not exact-token compatible: " ++ str_join ", " failures))
  end.
End compat.

(** ** The model and its scoring pass *)

(** Which adapter interface the model object exposes: [disable_adapter] (a context
    manager), the pair [disable_adapters]/[enable_adapters], or neither. *)
Inductive adapter_api := ContextManager | EnableDisablePair | NoAdapterApi.

Class CausalModel (M : Type) := {
  training : M → bool;
  set_training : bool → M → M;
  api : adapter_api;
  disable_enter : M → M; disable_exit : M → M;
  disable_adapters : M → M; enable_adapters : M → M;
  forward : tensor Z → tensor bool → tensor Z → M → result (list (list (list R))) * M }.

Record TeacherScoreRequest := {
  prompt_input_ids : tensor Z; prompt_attention_mask : tensor Z;
  response_ids : tensor Z; response_mask : tensor Z; temperature : R }.

Record TeacherScoreOutput := {
  response_log_probs : tensor R; out_response_mask : tensor bool; tokens_scored : nat }.

Section score.
Context {M : Type} `{CausalModel M}.

(** A computation on the model object that may raise after changing it. *)
Definition peft_adapter_disabled {A} (body : M → result A * M) (m : M) : result A * M :=
  match api with
  | ContextManager => let '(r, m') := body (disable_enter m) in (r, disable_exit m')
  | EnableDisablePair => let '(r, m') := body (disable_adapters m) in (r, enable_adapters m')
  | NoAdapterApi => body m
  end.

Definition forward_and_gather (t : score_inputs) (temp : R) (m : M) : result (tensor R) * M :=
  let '(out, m') := forward (input_ids t) (attention_mask t) (position_ids t) m in
  (logits ← out;
   gather_response_log_probs logits (in_response_ids t) (response_logit_positions t) temp, m').

(** [getattr(tokenizer, "pad_token_id", 0) or 0] *)
Definition score_pad_id (pad : option Z) : Z := default 0%Z pad.

Definition score (pad : option Z) (disable_adapter : bool) (request : TeacherScoreRequest) (m : M)
    : result TeacherScoreOutput * M :=
  match build_causal_score_inputs (prompt_input_ids request) (prompt_attention_mask request)
          (response_ids request) (response_mask request) (score_pad_id pad) with
  | Raise e => (Raise e, m)
  | Ok tensors =>
      let was_training := training m in
      let m := set_training false m in
      let body := forward_and_gather tensors (temperature request) in
      let '(out, m) := if disable_adapter then peft_adapter_disabled body m else body m in
      match out with
      | Raise e => (Raise e, m)
      | Ok lps =>
          (Ok {| response_log_probs := lps; out_response_mask := in_response_mask tensors;
                 tokens_scored := nsum (count <$> in_response_mask tensors) |},
           if was_training then set_training true m else m)
      end
  end.
End score.

(** ** Lemmas on the prefix mask *)

Lemma count_app r1 r2 : count (r1 ++ r2) = count r1 + count r2.
Proof. unfold count. by rewrite List.filter_app, length_app. Qed.
Lemma count_repeat_true n : count (repeat true n) = n.
Proof. induction n; simpl; [done|]. unfold count in *. simpl. by f_equal. Qed.
Lemma count_repeat_false n : count (repeat false n) = 0.
Proof. induction n as [|n IH]; [done | exact IH]. Qed.
Lemma count_le row : count row ≤ length row.
Proof. unfold count. apply List.filter_length_le. Qed.

Lemma expected_row_eq w row :
  count row ≤ w → expected_row w row = repeat false (w - count row) ++ repeat true (count row).
Proof.
  intros Hle. unfold expected_row. set (n := count row) in *. clearbody n.
  replace (seq 0 w) with (seq 0 (w - n) ++ seq (w - n) n) by (rewrite <-seq_app; f_equal; lia).
  rewrite fmap_app. f_equal.
  - assert (∀ k a, a + k ≤ w - n → (λ j, Nat.leb (w - n) j) <$> seq a k = repeat false k) as H.
    { induction k; intros a Ha; csimpl; [done|].
      rewrite (proj2 (Nat.leb_gt _ _)) by lia. f_equal. apply IHk. lia. }
    apply H. lia.
  - assert (∀ k a, w - n ≤ a → (λ j, Nat.leb (w - n) j) <$> seq a k = repeat true k) as H.
    { induction k; intros a Ha; csimpl; [done|].
      rewrite (proj2 (Nat.leb_le _ _)) by lia. f_equal. apply IHk. lia. }
    apply H. lia.
Qed.

(** A left-padded row: padding, then at least one real token, nothing else. *)
Definition left_padded (row : list bool) : Prop :=
  ∃ pad n, row = repeat false pad ++ repeat true (S n).

Definition rectangular {A} (w : nat) (t : tensor A) : Prop := Forall (λ row, length row = w) t.

Lemma rectangular_tmap {A B} (f : A → B) w t : rectangular w t → rectangular w (tmap f t).
Proof.
  unfold rectangular, tmap. rewrite Forall_fmap. intros H. eapply Forall_impl; [exact H|].
  intros row Hr. simpl. by rewrite length_fmap.
Qed.

Lemma rectangular_twidth {A} w (t : tensor A) row : rectangular w t → row ∈ t → twidth t = w.
Proof. intros H Hin. destruct t; [by apply elem_of_nil in Hin|]. by inversion H. Qed.

Lemma left_padded_row_iff row :
  (Nat.eqb (count row) 0 = false ∧ last row = Some true ∧ row = expected_row (length row) row) ↔
  left_padded row.
Proof.
  rewrite expected_row_eq by apply count_le. rewrite Nat.eqb_neq. split.
  - intros (Hc & _ & Hr). exists (length row - count row), (pred (count row)).
    by rewrite Nat.succ_pred.
  - intros (pad & n & ->). rewrite count_app, count_repeat_false, count_repeat_true.
    rewrite length_app, !repeat_length. split; [lia|]. split.
    + change (repeat true (S n)) with (true :: repeat true n).
      rewrite repeat_cons, (assoc_L (++)). apply last_snoc.
    + f_equal; f_equal; lia.
Qed.

Lemma assert_left_padded_spec w mask :
  rectangular w mask →
  assert_left_padded_prefix_mask mask = Ok tt ↔ Forall left_padded (tmap to_bool mask).
Proof.
  intros Hrect%(rectangular_tmap to_bool). unfold assert_left_padded_prefix_mask.
  generalize dependent (tmap to_bool mask). clear mask. intros mask Hrect.
  assert (expected_row (twidth mask) <$> mask = (λ row, expected_row (length row) row) <$> mask) as ->.
  { apply list_fmap_ext. intros i row Hi.
    apply list_elem_of_lookup_2 in Hi as Hin. rewrite (rectangular_twidth w mask row) by done.
    eapply Forall_forall in Hrect; [|exact Hin]. by rewrite Hrect. }
  transitivity (Forall (λ row, Nat.eqb (count row) 0 = false ∧ last row = Some true ∧
    row = expected_row (length row) row) mask).
  2:{ apply Forall_iff. intros row. apply left_padded_row_iff. }
  rewrite !Forall_and. split.
  - intros H. inv_oks H. repeat split.
    + apply negb_true_iff in Hreq. apply Forall_forall. intros row Hin.
      destruct (Nat.eqb (count row) 0) eqn:E; [|done]. rewrite <-Hreq. symmetry.
      apply existsb_exists. exists row. by rewrite <-list_elem_of_In.
    + apply forallb_Forall in Hreq0. eapply Forall_impl; [exact Hreq0|].
      intros row Hr. simpl in Hr. by case_bool_decide.
    + apply bool_decide_eq_true in Hreq1. apply Forall_forall. intros row Hin.
      apply list_elem_of_lookup in Hin as [i Hi]. pose proof Hi as Hi'.
      rewrite Hreq1, list_lookup_fmap, Hi in Hi'. simpl in Hi'. congruence.
  - intros (H1 & H2 & H3).
    assert (existsb (λ row, Nat.eqb (count row) 0) mask = false) as ->.
    { apply not_true_iff_false. rewrite existsb_exists. intros (row & Hin & Hc).
      apply list_elem_of_In in Hin. eapply Forall_forall in H1; [|exact Hin].
      simpl in H1. congruence. }
    assert (forallb (λ row, bool_decide (last row = Some true)) mask = true) as ->.
    { apply forallb_Forall. eapply Forall_impl; [exact H2|]. intros row Hr. by rewrite bool_decide_eq_true_2. }
    simpl. rewrite bool_decide_eq_true_2; [done|].
    apply list_eq. intros i. rewrite list_lookup_fmap. destruct (mask !! i) eqn:E; [|done].
    simpl. f_equal. by eapply Forall_lookup_1 in H3.
Qed.

(** ** Rows of the built inputs *)

Lemma cumsum_from_lookup acc row j b :
  row !! j = Some b → cumsum_from acc row !! j = Some (acc + Z.of_nat (count (take (S j) row)))%Z.
Proof.
  revert acc j. induction row as [|c row IH]; intros acc [|j] H; try done; simpl in H.
  - injection H as ->. simpl. destruct b; f_equal; unfold count; simpl; lia.
  - simpl. rewrite (IH _ _ H). f_equal. unfold count. simpl. destruct c; simpl; lia.
Qed.

Lemma position_row_lookup row j :
  row !! j = Some true → position_row row !! j = Some (Z.of_nat (count (take j row))).
Proof.
  intros H. unfold position_row. rewrite list_lookup_fmap, (cumsum_from_lookup _ _ _ true) by done.
  simpl. f_equal. erewrite take_S_r by exact H. rewrite count_app. unfold count. simpl. lia.
Qed.

Lemma tget_fill pad ids mask i t id m :
  tget ids i t = Some id → tget mask i t = Some m →
  tget (masked_fill pad ids (tmap to_bool mask)) i t = Some (if to_bool m then id else pad).
Proof.
  unfold tget, masked_fill, tzip, tmap. intros Hid Hm.
  apply bind_Some in Hid as (rid & Hr & Hid). apply bind_Some in Hm as (rm & Hrm & Hm).
  rewrite lookup_zip_with, Hr. simpl. rewrite list_lookup_fmap, Hrm. simpl.
  by rewrite lookup_zip_with, Hid, list_lookup_fmap, Hm.
Qed.

Lemma tget_cat1_r {A} w (t u : tensor A) i j a :
  rectangular w t → length t = length u → tget u i j = Some a → tget (cat1 t u) i (w + j) = Some a.
Proof.
  unfold tget, cat1. intros Hw Hl H. apply bind_Some in H as (ru & Hu & Ha).
  destruct (lookup_lt_is_Some_2 t i) as [rt Ht]; [rewrite Hl; by eapply lookup_lt_Some|].
  rewrite lookup_zip_with, Ht, Hu. simpl.
  eapply Forall_lookup_1 in Hw; [|exact Ht]. simpl in Hw. subst w.
  by rewrite lookup_app_r, Nat.add_comm, Nat.add_sub by lia.
Qed.

Lemma tget_cat1_l {A} (t u : tensor A) i j a :
  length t = length u → tget t i j = Some a → tget (cat1 t u) i j = Some a.
Proof.
  unfold tget, cat1. intros Hl H. apply bind_Some in H as (rt & Ht & Ha).
  destruct (lookup_lt_is_Some_2 u i) as [ru Hu]; [rewrite <-Hl; by eapply lookup_lt_Some|].
  rewrite lookup_zip_with, Ht, Hu. simpl. by apply lookup_app_l_Some.
Qed.

Lemma tget_tmap_Some {A B} (f : A → B) t i j a : tget t i j = Some a → tget (tmap f t) i j = Some (f a).
Proof. intros H. by rewrite tget_tmap, H. Qed.

Lemma lookup_repeat {A} (x : A) n i : i < n → repeat x n !! i = Some x.
Proof. revert i. induction n; intros [|i] H; simpl; [lia|lia|done|apply IHn; lia]. Qed.

Lemma lookup_seq_lt a n i : i < n → seq a n !! i = Some (a + i).
Proof. intros H. by apply lookup_seq. Qed.

Lemma tget_rectangular {A} w (t : tensor A) i j a :
  rectangular w t → tget t i j = Some a → i < length t ∧ j < w ∧ twidth t = w.
Proof.
  unfold tget. intros Hw H. apply bind_Some in H as (r & Hr & Ha).
  pose proof (Forall_lookup_1 _ _ _ _ Hw Hr) as Hlen. simpl in Hlen. subst w.
  split; [by eapply lookup_lt_Some|]. split; [by eapply lookup_lt_Some|].
  eapply rectangular_twidth; [exact Hw|]. by eapply list_elem_of_lookup_2.
Qed.

Lemma left_padded_last row : left_padded row → row !! pred (length row) = Some true ∧ row ≠ [].
Proof.
  intros (pad & n & ->). split; [|by destruct pad].
  change (repeat true (S n)) with (true :: repeat true n).
  rewrite repeat_cons, (assoc_L (++)), length_app. simpl.
  replace (pred (length (repeat false pad ++ repeat true n) + 1))
    with (length (repeat false pad ++ repeat true n)) by lia.
  by rewrite lookup_app_r, Nat.sub_diag by done.
Qed.

Lemma shape_rectangular {A B} w (t : tensor A) (u : tensor B) :
  shape t = shape u → rectangular w t → rectangular w u.
Proof.
  unfold shape, rectangular. intros Hs Ht.
  apply (Forall_fmap length (λ n, n = w)). rewrite <-Hs. by apply Forall_fmap.
Qed.

(** What the built tensors say about token [t] of sample [i]. *)
Definition aligned (w : nat) (pad : Z) (resp rmask : tensor Z) (out : score_inputs) : Prop :=
  ∀ i t id m, tget resp i t = Some id → tget rmask i t = Some m →
    tget (input_ids out) i (w + t) = Some (if to_bool m then id else pad) ∧
    tget (attention_mask out) i (w + t) = Some (to_bool m) ∧
    tget (attention_mask out) i (w - 1) = Some true ∧
    ∃ p, tget (response_logit_positions out) i t = Some p ∧ S p = w + t.

Lemma build_causal_aligned w T prefix pmask resp rmask pad out :
  rectangular w prefix → rectangular T resp →
  build_causal_score_inputs prefix pmask resp rmask pad = Ok out →
  aligned w pad resp rmask out.
Proof.
  intros Hw HT H. unfold build_causal_score_inputs in H. inv_oks H. subst out.
  apply bool_decide_eq_true in Hreq, Hreq0, Hreq1. intros i t id m Hid Hm. simpl.
  pose proof (tget_rectangular _ _ _ _ _ HT Hid) as (Hi & Ht & HTw).
  assert (length prefix = length (masked_fill pad resp (tmap to_bool rmask))) as Hl1.
  { unfold masked_fill, tzip, tmap. rewrite length_zip_with, length_fmap.
    apply shape_length in Hreq0. lia. }
  assert (length (tmap to_bool pmask) = length (tmap to_bool rmask)) as Hl2.
  { unfold tmap. rewrite !length_fmap. apply shape_length in Hreq, Hreq0. lia. }
  assert (rectangular w (tmap to_bool pmask)) as Hwm
    by (apply rectangular_tmap, (shape_rectangular _ _ _ Hreq Hw)).
  destruct v. apply (assert_left_padded_spec w) in Hv; [|by apply (shape_rectangular _ _ _ Hreq)].
  destruct (lookup_lt_is_Some_2 (tmap to_bool pmask) i) as [prow Hp].
  { unfold tmap. rewrite length_fmap. apply shape_length in Hreq. lia. }
  pose proof (Forall_lookup_1 _ _ _ _ Hv Hp) as [Hlast Hne]%left_padded_last.
  pose proof (Forall_lookup_1 _ _ _ _ Hwm Hp) as Hplen. simpl in Hplen.
  split; [apply tget_cat1_r; [done..|]; by apply tget_fill|].
  split; [apply tget_cat1_r; [done..|]; by apply tget_tmap_Some|].
  split.
  { apply tget_cat1_l; [done|]. unfold tget. rewrite Hp. simpl.
    by replace (w - 1) with (pred (length prow)) by lia. }
  exists (w - 1 + t). assert (0 < w) by (destruct prow; simpl in *; [done | lia]).
  split; [|lia]. unfold tget. rewrite HTw.
  assert (twidth prefix = w) as ->.
  { destruct (lookup_lt_is_Some_2 prefix i) as [r Hr]; [lia|].
    eapply rectangular_twidth; [exact Hw|]. by eapply list_elem_of_lookup_2. }
  rewrite lookup_repeat by done. simpl. by apply lookup_seq_lt.
Qed.

(** ** Properties *)

(** Scoring never retokenises.  When the checks pass, the prefix mask is left padded
    in every row, the model sees the student's own response ids wherever the response
    mask is set (the pad id elsewhere), the position whose logits are gathered for
    response token [t] directly precedes that token and the last prefix position is a
    real token; and on every attended position the position id is the number of
    attended tokens before it. *)
Theorem causal_inputs_aligned w T prefix pmask resp rmask pad out :
  rectangular w prefix → rectangular T resp →
  build_causal_score_inputs prefix pmask resp rmask pad = Ok out →
  Forall left_padded (tmap to_bool pmask) ∧ in_response_ids out = resp ∧
  aligned w pad resp rmask out ∧
  (∀ i row j, attention_mask out !! i = Some row → row !! j = Some true →
     tget (position_ids out) i j = Some (Z.of_nat (count (take j row)))).
Proof.
  intros Hw HT H. split; [|split; [|split]].
  - unfold build_causal_score_inputs in H. inv_oks H. destruct v.
    apply bool_decide_eq_true in Hreq.
    by apply (assert_left_padded_spec w) in Hv; [|by apply (shape_rectangular _ _ _ Hreq)].
  - unfold build_causal_score_inputs in H. inv_oks H. by subst out.
  - by eapply build_causal_aligned.
  - intros i row j Hrow Hj. unfold build_causal_score_inputs in H. inv_oks H. subst out.
    simpl in *. unfold tget. change (map position_row) with (fmap (M := list) position_row).
    rewrite list_lookup_fmap, Hrow. simpl. by apply position_row_lookup.
Qed.

Lemma causal_inputs_aligned_witness :
  ∃ out, build_causal_score_inputs [[0; 7]; [8; 9]]%Z [[0; 1]; [1; 1]]%Z [[3; 4]; [5; 0]]%Z
      [[1; 1]; [1; 0]]%Z 0 = Ok out ∧
    tget (input_ids out) 0 3 = Some 4%Z ∧ tget (response_logit_positions out) 0 1 = Some 2.
Proof.
  eexists. split; [vm_compute; reflexivity|].
  match goal with |- tget (input_ids ?o) _ _ = _ ∧ _ =>
    destruct (causal_inputs_aligned 2 2 [[0; 7]; [8; 9]]%Z [[0; 1]; [1; 1]]%Z [[3; 4]; [5; 0]]%Z
      [[1; 1]; [1; 0]]%Z 0 o) as (_ & _ & Hal & _) end.
  - repeat constructor.
  - repeat constructor.
  - vm_compute. reflexivity.
  - destruct (Hal 0 1 4%Z 1%Z eq_refl eq_refl) as (H1 & _ & _ & p & H2 & H3).
    split; [exact H1|]. rewrite H2. f_equal. lia.
Defined.

(** ** Gathered log probabilities *)

Lemma rsum_exp_pos row : row ≠ [] → (0 < rsum (exp <$> row))%R.
Proof.
  destruct row as [|x row]; [done|]. intros _. csimpl.
  assert (0 <= rsum (exp <$> row))%R as Hs.
  { induction row as [|y row IH]; csimpl; [lra|]. pose proof (exp_pos y). lra. }
  pose proof (exp_pos x). lra.
Qed.

Lemma rsum_exp_ge row x i : row !! i = Some x → (exp x <= rsum (exp <$> row))%R.
Proof.
  revert i. induction row as [|y row IH]; intros [|i] H; csimpl in *; try discriminate.
  - injection H as ->. destruct row as [|z row]; [csimpl; lra|].
    assert (0 < rsum (exp <$> z :: row))%R by (by apply rsum_exp_pos). lra.
  - specialize (IH _ H). pose proof (exp_pos y). lra.
Qed.

(** The probability the tempered softmax of [row] gives to entry [v]. *)
Definition softmax_prob (temp : R) (row : list R) (v : Z) (p : R) : Prop :=
  ∃ x, row !! Z.to_nat v = Some x ∧ (0 <= v)%Z ∧
    p = (exp (x / temp) / rsum (exp <$> ((λ y, y / temp) <$> row)))%R.

Lemma gather_token_spec temp logits pos v lp :
  gather_token temp logits pos v = Ok lp →
  ∃ row, logits !! pos = Some row ∧ softmax_prob temp row v (exp lp) ∧ (lp <= 0)%R.
Proof.
  unfold gather_token, log_softmax. intros H. inv_ok H. apply of_option_Ok in Hv. inv_ok H. inv_ok H.
  rename v0 into row. exists row. split; [done|].
  rewrite list_lookup_fmap in H. apply fmap_Some in H as (x' & Hx' & ->).
  rewrite list_lookup_fmap in Hx'. apply fmap_Some in Hx' as (x & Hx & ->).
  assert (((λ y, y / temp) <$> row)%R !! Z.to_nat v = Some (x / temp)%R) as Hxt
    by (by rewrite list_lookup_fmap, Hx).
  set (l := ((λ y, y / temp) <$> row)%R) in *.
  assert (0 < rsum (exp <$> l))%R as Hpos by (apply rsum_exp_pos; by destruct l).
  assert (exp (x / temp - ln (rsum (exp <$> l))) = exp (x / temp) / rsum (exp <$> l))%R as He.
  { unfold Rminus. rewrite exp_plus, exp_Ropp, exp_ln by done. done. }
  split.
  - exists x. split; [done|]. split; [by apply Z.leb_le|]. exact He.
  - apply Rnot_lt_le. intros Hgt. apply exp_increasing in Hgt. rewrite exp_0, He in Hgt.
    pose proof (rsum_exp_ge _ _ _ Hxt) as Hge.
    apply (Rmult_lt_compat_r (rsum (exp <$> l))) in Hgt; [|done].
    unfold Rdiv in Hgt. rewrite Rmult_assoc, Rinv_l, Rmult_1_r in Hgt by lra. lra.
Qed.

Lemma mapM_Ok_lookup {A B} (f : A → result B) l k i a :
  mapM f l = Ok k → l !! i = Some a → ∃ b, k !! i = Some b ∧ f a = Ok b.
Proof. intros H%mapM_Ok_Forall2 Ha. exact (Forall2_lookup_l _ _ _ _ _ H Ha). Qed.

Lemma gather_response_spec logits ids pos temp lps i t v p :
  gather_response_log_probs logits ids pos temp = Ok lps →
  length logits = length ids → tget ids i t = Some v → tget pos i t = Some p →
  (0 < temp)%R ∧ ∃ rows row lp, logits !! i = Some rows ∧ rows !! p = Some row ∧
    tget lps i t = Some lp ∧ softmax_prob temp row v (exp lp) ∧ (lp <= 0)%R.
Proof.
  unfold gather_response_log_probs. intros H Hl Hv Hp. inv_ok H. inv_ok H. inv_ok H.
  rename v0 into rows. apply bool_decide_eq_true, shape_length in Hreq0.
  unfold paired_rows in Hv0.
  rewrite length_zip_with_l_eq in Hv0 by lia.
  rewrite (proj2 (Nat.eqb_eq _ _)) in Hv0 by lia. injection Hv0 as <-.
  unfold tget in Hv, Hp. apply bind_Some in Hv as (rid & Hrid & Hv).
  apply bind_Some in Hp as (rp & Hrp & Hp).
  destruct (lookup_lt_is_Some_2 logits i) as [l Hli]; [rewrite Hl; by eapply lookup_lt_Some|].
  eapply (mapM_Ok_lookup _ _ _ i (l, (rp, rid))) in H as (lrow & Hlrow & H).
  2:{ by rewrite !lookup_zip_with, Hli, Hrp, Hrid. }
  simpl in H. eapply (mapM_Ok_lookup _ _ _ t (p, v)) in H as (lp & Hlp & H).
  2:{ by rewrite lookup_zip_with, Hp, Hv. }
  simpl in H. apply gather_token_spec in H as (row & Hrow & Hsm & Hle).
  assert (tget lps i t = Some lp) as Hget by (unfold tget; by rewrite Hlrow).
  split.
  { apply negb_true_iff in Hreq. unfold Rleb in Hreq. by destruct (Rle_dec temp 0); [done | lra]. }
  exists l, row, lp. done.
Qed.

(** The model state the forward pass of [score] starts from. *)
Definition scoring_state `{CausalModel M} (disable : bool) (m : M) : M :=
  let m := set_training false m in
  if disable then
    match api with
    | ContextManager => disable_enter m
    | EnableDisablePair => disable_adapters m
    | NoAdapterApi => m
    end
  else m.

Lemma score_inv `{CausalModel M} pad disable req (m m' : M) out :
  score pad disable req m = (Ok out, m') →
  ∃ tensors logits s',
    build_causal_score_inputs (prompt_input_ids req) (prompt_attention_mask req)
      (response_ids req) (response_mask req) (score_pad_id pad) = Ok tensors ∧
    forward (input_ids tensors) (attention_mask tensors) (position_ids tensors)
      (scoring_state disable m) = (Ok logits, s') ∧
    gather_response_log_probs logits (in_response_ids tensors) (response_logit_positions tensors)
      (temperature req) = Ok (response_log_probs out).
Proof.
  unfold score, scoring_state. destruct (build_causal_score_inputs _ _ _ _ _) as [ts|]; [|done].
  cbn zeta. unfold peft_adapter_disabled, forward_and_gather. intros Hs. exists ts.
  destruct disable; [destruct api|];
    (destruct (forward _ _ _ _) as [[logits|] s']; [|done]; simpl in Hs;
     destruct (gather_response_log_probs _ _ _ _) eqn:Eg; [|done]; injection Hs as <- _; eauto).
Qed.

(** C7: What [score] returns for a response token is the log probability the model
    gives to exactly that token id, under the tempered softmax of the logits at the
    position right before it: for a model that returns one logit matrix per sample,
    every entry of the output is at most zero and exponentiates to the softmax
    probability of the original response id. *)
Theorem score_is_conditional_log_prob `{CausalModel M} w T pad disable req (m m' : M) out :
  rectangular w (prompt_input_ids req) → rectangular T (response_ids req) →
  (∀ ids mask pos s logits s', forward ids mask pos s = (Ok logits, s') → length logits = length ids) →
  score pad disable req m = (Ok out, m') →
  ∃ tensors logits s',
    aligned w (score_pad_id pad) (response_ids req) (response_mask req) tensors ∧
    forward (input_ids tensors) (attention_mask tensors) (position_ids tensors)
      (scoring_state disable m) = (Ok logits, s') ∧
    ∀ i t v mk, tget (response_ids req) i t = Some v → tget (response_mask req) i t = Some mk →
      (0 < temperature req)%R ∧ ∃ rows row lp,
        logits !! i = Some rows ∧ rows !! (w + t - 1) = Some row ∧
        tget (response_log_probs out) i t = Some lp ∧
        softmax_prob (temperature req) row v (exp lp) ∧ (lp <= 0)%R.
Proof.
  intros Hw HT Hfwd Hs. apply score_inv in Hs as (ts & logits & s' & Hb & Hf & Hg).
  pose proof (build_causal_aligned _ _ _ _ _ _ _ _ Hw HT Hb) as Hal.
  exists ts, logits, s'. split; [done|]. split; [done|]. intros i t v mk Hv Hmk.
  destruct (Hal i t v mk Hv Hmk) as (_ & _ & _ & p & Hp & Hpw).
  replace (w + t - 1) with p by lia.
  eapply gather_response_spec; [exact Hg | | |exact Hp].
  - rewrite (Hfwd _ _ _ _ _ _ Hf). unfold build_causal_score_inputs in Hb. inv_oks Hb. subst ts. simpl.
    apply bool_decide_eq_true in Hreq1, Hreq0. unfold cat1, masked_fill, tzip, tmap.
    apply shape_length in Hreq0. rewrite !length_zip_with, length_fmap. lia.
  - unfold build_causal_score_inputs in Hb. inv_oks Hb. by subst ts.
Qed.

(** Scoring leaves the model as it found it.  For a model whose mode switches and
    adapter switches undo each other and whose forward pass does not change it, a
    successful [score] returns the model unchanged, training flag and adapters
    included; and when the forward pass or the gathering raises, the adapters are still
    restored, but the model stays in evaluation mode. *)
Theorem score_restores_model `{CausalModel M} pad disable req (m m' : M) r :
  set_training (training m) m = m →
  (∀ b, set_training b (set_training false m) = set_training b m) →
  disable_exit (disable_enter (set_training false m)) = set_training false m →
  enable_adapters (disable_adapters (set_training false m)) = set_training false m →
  (∀ ids mask pos s, (forward ids mask pos s).2 = s) →
  score pad disable req m = (r, m') →
  match r with
  | Ok _ => m' = m
  | Raise _ => m' = m ∨ m' = set_training false m
  end.
Proof.
  intros Hid Hset Hctx Hpair Hfwd. unfold score.
  destruct (build_causal_score_inputs _ _ _ _ _) as [ts|e].
  2:{ intros [= <- <-]. by left. }
  cbn zeta. unfold peft_adapter_disabled, forward_and_gather.
  assert (∀ out, (match out : result (tensor R) with
      | Ok lps => (Ok {| response_log_probs := lps; out_response_mask := in_response_mask ts;
                         tokens_scored := nsum (count <$> in_response_mask ts) |},
                   if training m then set_training true (set_training false m)
                   else set_training false m)
      | Raise e => (Raise e, set_training false m)
      end) = (r, m') →
    match r with Ok _ => m' = m | Raise _ => m' = m ∨ m' = set_training false m end) as Hfin.
  { intros [lps|e] [= <- <-]; [|by right]. destruct (training m) eqn:E; [by rewrite Hset | done]. }
  destruct disable; [destruct api|];
    (match goal with |- context [forward ?a ?b ?c ?s] =>
       specialize (Hfwd a b c s); destruct (forward a b c s) as [out s'] end;
     simpl in Hfwd; subst s'; rewrite ?Hctx, ?Hpair; apply Hfin).
Qed.

(** The compatibility check accepts a pair of tokenizers exactly when every compared
    attribute agrees: sizes, special ids, special-token map, the hash of the chat
    template, the full vocabulary when both expose one, and the encoding of every
    sample string. *)
Theorem assert_tokenizer_compatible_iff `{PyPrims} sha256_hex s t samples :
  assert_tokenizer_compatible sha256_hex s t samples = Ok tt ↔
  vocab_size s = vocab_size t ∧ bos_token_id s = bos_token_id t ∧
  eos_token_id s = eos_token_id t ∧ pad_token_id s = pad_token_id t ∧
  special_tokens_map s = special_tokens_map t ∧
  sha256_hex <$> chat_template s = sha256_hex <$> chat_template t ∧
  (∀ v w, get_vocab s = Some v → get_vocab t = Some w → v = w) ∧
  Forall (λ x, encode s x = encode t x) (samples_or_default samples).
Proof.
  unfold assert_tokenizer_compatible, vocab_failures, named_checks, hash_text.
  assert (mapping_failures s t (samples_or_default samples) = [] ↔
    Forall (λ x, encode s x = encode t x) (samples_or_default samples)) as Hm.
  { induction (samples_or_default samples) as [|x l IH]; simpl; [done|].
    case_bool_decide as Hx; [rewrite IH, Forall_cons; naive_solver | rewrite Forall_cons; naive_solver]. }
  rewrite <-Hm. generalize (mapping_failures s t (samples_or_default samples)). intros mf. clear Hm.
  do 6 (case_bool_decide; [|simpl; split; [done | intuition congruence]]). simpl.
  destruct (get_vocab s) as [v|], (get_vocab t) as [u|]; try case_bool_decide; destruct mf; simpl;
    split; try done; intros; repeat split; naive_solver congruence.
Qed.

(** A two-token model whose adapters sit behind the enable/disable pair. *)
#[local] Instance toy_model : CausalModel (bool * bool) := {|
  training := fst;
  set_training b m := (b, m.2);
  api := EnableDisablePair;
  disable_enter m := m; disable_exit m := m;
  disable_adapters m := (m.1, false); enable_adapters m := (m.1, true);
  forward ids _ _ m := (Ok (map (map (λ _, [0%R; 0%R])) ids), m) |}.

Definition toy_request : TeacherScoreRequest :=
  {| prompt_input_ids := [[7]]%Z; prompt_attention_mask := [[1]]%Z;
     response_ids := [[1]]%Z; response_mask := [[1]]%Z; temperature := 1 |}.

Lemma toy_score_ok : ∃ out, score (M := bool * bool) None true toy_request (true, true) = (Ok out, (true, true)).
Proof.
  unfold score. simpl. unfold forward_and_gather, gather_response_log_probs. simpl.
  unfold Rleb. destruct (Rle_dec 1 0) as [Hle|]; [lra|]. eexists. reflexivity.
Qed.

Lemma score_is_conditional_log_prob_witness :
  ∃ out lp, score (M := bool * bool) None true toy_request (true, true) = (Ok out, (true, true)) ∧
    tget (response_log_probs out) 0 0 = Some lp ∧ (lp <= 0)%R.
Proof.
  destruct toy_score_ok as [out Hout]. exists out.
  destruct (score_is_conditional_log_prob (M := bool * bool) 1 1 None true toy_request
    (true, true) (true, true) out) as (ts & logits & s' & _ & _ & Htok).
  - repeat constructor.
  - repeat constructor.
  - intros ids mask pos s logits s' [= <- _]. apply length_map.
  - exact Hout.
  - destruct (Htok 0 0 1%Z 1%Z eq_refl eq_refl) as (_ & rows & row & lp & _ & _ & Hlp & _ & Hle).
    exists lp. split; [exact Hout|]. split; [exact Hlp | exact Hle].
Defined.

Lemma score_restores_model_witness :
  (score (M := bool * bool) None true toy_request (true, true)).2 = (true, true).
Proof.
  destruct toy_score_ok as [out Hout].
  destruct (score (M := bool * bool) None true toy_request (true, true)) as [r m'] eqn:E.
  injection Hout as Hr _. subst r.
  exact (score_restores_model (M := bool * bool) None true toy_request (true, true) m'
    (Ok out) eq_refl (λ _, eq_refl) eq_refl eq_refl (λ _ _ _ _, eq_refl) E).
Defined.
