(* ===== verification/TeacherBatch.v ===== *)
(** * Teacher score batches: [src/verl/trainer/extpi_rlsd/trainer.py], lines 37-339

    The functions that turn a rollout batch into a batch scored under a teacher
    prefix, the group diagnostics and the RLSD token mask.  Tensors are lists of
    rows as in [Scorer]; [max_length] is a natural number; the tensors of one batch
    that torch would broadcast against each other are required to have one shape.
    Metrics are a map from names to floats. *)

From S2P Require Import Prelude PyStr Json PromptAssembly Rlsd Scorer GroupBy.
From Stdlib Require Import Reals Lra.
Local Open Scope py_scope.

Abbreviation metrics := (gmap string fnum).
Definition metrics_update (new old : metrics) : metrics := new ∪ old.
Definition of_nat (n : nat) : fnum := Fin (INR n).
Definition of_Z (z : Z) : fnum := Fin (IZR z).

(** A value of [non_tensor_batch]: a Python value, or an Arrow scalar whose [as_py]
    gives one. *)
Inductive pyval := Plain (v : json) | Arrow (v : json).

Definition as_dict (value : pyval) : result dict :=
  match value with
  | Plain (JObj d) | Arrow (JObj d) => Ok d
  | _ => Raise (TypeError "Expected extra_info dict")
  end.

Definition prompt_part `{PyPrims} (item : json) : string :=
  match item with
  | JObj d => let content := get_default "content" (JStr "") d in
              match content with JStr s => s | v => py_str v end
  | v => py_str v
  end.

Definition raw_prompt_to_text `{PyPrims} (raw_prompt : json) : option string :=
  match raw_prompt with
  | JNull => None
  | JStr s => Some s
  | JList items => Some (str_join nl (prompt_part <$> items))
  | v => Some (py_str v)
  end.

(** ** Tokenizing the prefixes *)

(** What the batch builders use of the tokenizer besides its chat template. *)
Class PromptTokenizer := {
  chat :: ChatTokenizer;
  token_ids : string → list Z;
  truncation_side_left : bool;
  tok_pad_token_id : option Z;
  tok_eos_token_id : option Z }.

Section tokenize.
Context `{PromptTokenizer}.

Definition pad_or_eos : Z :=
  match tok_pad_token_id with Some p => p | None => default 0%Z tok_eos_token_id end.

(** [ids[-max_length:]] keeps everything when [max_length] is 0. *)
Definition truncate_ids (max_length : nat) (ids : list Z) : list Z :=
  if truncation_side_left then
    (if Nat.eqb max_length 0 then ids else drop (length ids - max_length) ids)
  else take max_length ids.

Definition normalize_ids (max_length : nat) (allow_truncation : bool)
    (acc : list (list Z) * nat) (ids : list Z) : result (list (list Z) * nat) :=
  if Nat.ltb max_length (length ids) then
    require allow_truncation else ValueError "PI teacher prompt exceeds teacher_max_prompt_length" ;;
    Ok (acc.1 ++ [truncate_ids max_length ids], S acc.2)
  else Ok (acc.1 ++ [ids], acc.2).

(** One row of the padded id and mask tensors; assigning more ids than the row holds
    fails in torch, except that a single id broadcasts to an empty slice. *)
Definition place_row (max_length : nat) (pad : Z) (ids : list Z) : result (list Z * list Z) :=
  let width := length ids in
  require negb (Nat.eqb width 0) else ValueError "PI teacher prompt tokenized to an empty prefix" ;;
  if Nat.leb width max_length then
    Ok (repeat pad (max_length - width) ++ ids, repeat 0%Z (max_length - width) ++ repeat 1%Z width)
  else
    require Nat.eqb max_length 0 && Nat.eqb width 1
      else RuntimeError "The expanded size of the tensor must match the existing size" ;;
    Ok ([], []).

Definition tokenize_prefixes (prompts : list string) (max_length : nat) (pad_token_id : Z)
    (allow_truncation : bool) : result (tensor Z * tensor Z * nat) :=
  nt ← foldM (normalize_ids max_length allow_truncation) ([], 0) (token_ids <$> prompts);
  rows ← mapM (place_row max_length pad_token_id) nt.1;
  Ok (rows.*1, rows.*2, nt.2).
End tokenize.

(** ** The score batch *)

Record source_batch := {
  sb_prompts : option (tensor Z);
  sb_responses : option (tensor Z);
  sb_attention_mask : option (tensor Z);
  sb_response_mask : option (tensor Z);
  sb_extra_info : option (list pyval);
  sb_raw_prompt : option (list json) }.

Record score_batch := {
  b_prompts : tensor Z;
  b_responses : tensor Z;
  b_input_ids : tensor Z;
  b_attention_mask : tensor Z;
  b_position_ids : tensor Z;
  b_response_mask : tensor Z }.

Record PiTeacherBatchBuild := { build_batch : score_batch; build_metrics : metrics; build_prompts : list string }.

Fixpoint cumsumZ (acc : Z) (row : list Z) : list Z :=
  match row with [] => [] | z :: row => let acc := (acc + z)%Z in acc :: cumsumZ acc row end.
Definition positionZ (row : list Z) : list Z := (λ c, Z.max (c - 1) 0) <$> cumsumZ 0 row.
Definition mask_long (mask : tensor Z) : tensor Z := tmap (λ z, Z.b2z (to_bool z)) mask.

(** The tensors shared by both builders: prefix and masked responses side by side. *)
Definition assemble_score_batch (pad : Z) (prefix_ids prefix_mask responses response_mask : tensor Z)
    : result score_batch :=
  require bool_decide (shape responses = shape response_mask)
    else RuntimeError "The size of tensor a must match the size of tensor b" ;;
  let attention_mask := cat1 prefix_mask (mask_long response_mask) in
  Ok {| b_prompts := prefix_ids;
        b_responses := responses;
        b_input_ids := cat1 prefix_ids (masked_fill pad responses (tmap to_bool response_mask));
        b_attention_mask := attention_mask;
        b_position_ids := map positionZ attention_mask;
        b_response_mask := response_mask |}.

Definition tensor_sum (t : tensor Z) : Z := zsum (map zsum t).
Definition mean_row_sum (t : tensor Z) : fnum :=
  match t with [] => NonFin | _ => Fin (IZR (tensor_sum t) / INR (length t)) end.

Definition require_key {A} (name : string) (o : option A) : result A :=
  of_option (ValueError ("source batch is missing required tensor key " ++ name)) o.

(** ** The PI-teacher batch *)

Record pi_scan := {
  scan_prompts : list string; scan_missing : list string; scan_checked : nat }.

Section builders.
Context `{PyPrims} `{PromptTokenizer}.

(** One iteration of the loop over the rows.  The leak counter is only incremented on
    the way out of the function. *)
Definition pi_row (teacher_thinking : bool) (pi_trace_field : string)
    (raw_prompts : option (list json)) (st : pi_scan) (row : nat * dict) : result pi_scan :=
  let '(row_idx, extra) := row in
  let problem := get "problem" extra in
  let trace := get pi_trace_field extra in
  let sample_id := py_str (get_default "id" (JInt (Z.of_nat row_idx)) extra) in
  require truthy problem
    else ValueError ("ExtPI-RLSD sample " ++ sample_id ++ " is missing extra_info.problem") ;;
  if truthy trace then
    checked ← match raw_prompts with
              | None => Ok (scan_checked st)
              | Some raws =>
                  raw ← of_option (IndexError "index out of bounds") (raws !! row_idx);
                  _ ← assert_no_pi_in_student_prompt (default "" (raw_prompt_to_text raw)) (Some (py_str trace));
                  Ok (S (scan_checked st))
              end;
    p ← build_pi_teacher_prompt (py_str problem) (py_str trace) teacher_thinking;
    Ok {| scan_prompts := scan_prompts st ++ [p]; scan_missing := scan_missing st; scan_checked := checked |}
  else Ok {| scan_prompts := scan_prompts st; scan_missing := scan_missing st ++ [sample_id];
             scan_checked := scan_checked st |}.

Definition build_pi_teacher_score_batch (source : source_batch) (max_prompt_length : nat)
    (allow_prompt_truncation teacher_thinking : bool) (pi_trace_field : string)
    : result PiTeacherBatchBuild :=
  responses ← require_key "'responses'" (sb_responses source);
  response_mask ← require_key "'response_mask'" (sb_response_mask source);
  extra_info ← of_option (ValueError ("ExtPI-RLSD requires extra_info with problem and " ++ pi_trace_field))
                 (sb_extra_info source);
  extra_infos ← mapM as_dict extra_info;
  scan ← foldM (pi_row teacher_thinking pi_trace_field (sb_raw_prompt source))
           {| scan_prompts := []; scan_missing := []; scan_checked := 0 |}
           (imap pair extra_infos);
  require bool_decide (scan_missing scan = [])
    else ValueError ("ExtPI-RLSD requires " ++ pi_trace_field ++ " for every sample; missing ids: " ++
                     str_join ", " (take 5 (scan_missing scan))) ;;
  pm ← tokenize_prefixes (scan_prompts scan) max_prompt_length pad_or_eos allow_prompt_truncation;
  let '(prefix_ids, prefix_mask, truncated) := pm in
  require Nat.eqb (length prefix_ids) (length responses)
    else ValueError "PI prompt batch size does not match response batch size" ;;
  batch ← assemble_score_batch pad_or_eos prefix_ids prefix_mask responses response_mask;
  Ok {| build_batch := batch;
        build_metrics := list_to_map
          [("extpi/pi_teacher_prompt_truncated_count", of_nat truncated);
           ("extpi/pi_teacher_prompt_tokens_mean", mean_row_sum prefix_mask);
           ("extpi/pi_teacher_response_tokens", of_Z (tensor_sum response_mask));
           ("privacy/student_prompt_pi_leak_checked_count", of_nat (scan_checked scan));
           ("privacy/student_prompt_pi_leak_count", of_nat 0)]%string;
        build_prompts := scan_prompts scan |}.

(** ** The direct-teacher batch *)

Definition build_direct_opd_teacher_score_batch (source : source_batch) (max_prompt_length : nat)
    (teacher_thinking : bool) : result PiTeacherBatchBuild :=
  prefix_ids ← require_key "'prompts'" (sb_prompts source);
  responses ← require_key "'responses'" (sb_responses source);
  full_attention_mask ← require_key "'attention_mask'" (sb_attention_mask source);
  response_mask ← require_key "'response_mask'" (sb_response_mask source);
  require negb teacher_thinking
    else ValueError "direct_opd_teacher_thinking=True is incompatible with exact student prompt reuse" ;;
  let prefix_width := twidth prefix_ids in
  require Nat.leb prefix_width (twidth full_attention_mask)
    else ValueError "Direct OPD-PG requires attention_mask to include the prompt segment" ;;
  let prefix_mask := map (take prefix_width) full_attention_mask in
  _ ← assert_left_padded_prefix_mask prefix_mask;
  require Nat.leb prefix_width max_prompt_length
    else ValueError "Direct OPD-PG requires the exact student prompt prefix and cannot truncate it" ;;
  batch ← assemble_score_batch pad_or_eos prefix_ids prefix_mask responses response_mask;
  Ok {| build_batch := batch;
        build_metrics := list_to_map
          [("opd/teacher_prompt_truncated_count", of_nat 0);
           ("opd/teacher_prompt_tokens_mean", mean_row_sum prefix_mask);
           ("opd/teacher_response_tokens", of_Z (tensor_sum response_mask))]%string;
        build_prompts := [] |}.
End builders.

(** ** Group diagnostics *)

Definition mean (l : list R) : R := (rsum l / INR (length l))%R.
Definition std (l : list R) : R := let m := mean l in sqrt (mean ((λ x, (x - m) ^ 2)%R <$> l)).
Definition Rgeb (a b : R) : bool := Rleb b a.
Definition bool_ratio (l : list bool) : fnum := Fin (mean (b2r <$> l)).

Definition ratios (groups : list (list R)) : metrics :=
  list_to_map
    [("train/group_nonzero_std_ratio", bool_ratio ((λ g, Rltb 0 (std g)) <$> groups));
     ("train/group_all_correct_ratio", bool_ratio (forallb (λ s, Rgeb s 1) <$> groups));
     ("train/group_all_wrong_ratio", bool_ratio (forallb (λ s, Rltb s 1) <$> groups))]%string.

(** [l] cut into consecutive rows of [n]. *)
Fixpoint rows_of {A} (count n : nat) (l : list A) : list (list A) :=
  match count with 0 => [] | S count => take n l :: rows_of count n (drop n l) end.

Definition group_diagnostic_metrics `{PyPrims} (scores : list R) (uids : option (list json)) (rollout_n : Z)
    : metrics * bool * bool :=
  match uids with
  | Some uids =>
      if negb (Nat.eqb (length uids) (length scores)) then
        ({["train/group_metric_uid_mismatch"%string := Fin 1]}, true, false)
      else
        let uid_to_scores := group_by_key (zip (py_str <$> uids) scores) in
        match List.filter (λ g, Nat.leb 2 (length g)) uid_to_scores.*2 with
        | [] => (∅, true, true)
        | groups => (ratios groups, true, true)
        end
  | None =>
      if Z.leb rollout_n 0 then (∅, false, false)
      else
        let n := Z.to_nat rollout_n in
        let usable := length scores / n * n in
        if Nat.eqb usable 0 then (∅, false, false)
        else (ratios (rows_of (length scores / n) n (take usable scores)), false, true)
  end.

(** ** The RLSD token mask *)

Definition dash (c : ascii) : ascii := if bool_decide (c = "_"%char) then "-"%char else c.
Fixpoint dashes (s : string) : string :=
  match s with EmptyString => EmptyString | String c s => String (dash c) (dashes s) end.

Definition token_mask_aliases : list (string * option Z) :=
  [("all", None); ("all8k", None); ("all-8k", None);
   ("2k+ans", Some 2048%Z); ("first2k+tail256", Some 2048%Z); ("first-2k+tail-256", Some 2048%Z);
   ("4k+ans", Some 4096%Z); ("first4k+tail256", Some 4096%Z); ("first-4k+tail-256", Some 4096%Z);
   ("6k+ans", Some 6144%Z); ("first6k+tail256", Some 6144%Z); ("first-6k+tail-256", Some 6144%Z)]%string.


(** One row: keep a valid token among the first [first_k] or the last 256 valid ones;
    [token_index] is the running count of valid tokens. *)
Definition token_mask_row (first_k : Z) (row : list bool) : list bool :=
  zip_with (λ (m : bool) (token_index : Z),
      m && (Z.leb token_index first_k ||
            Z.ltb (Z.max (Z.of_nat (count row) - 256) 0) token_index))
    row (cumsum_from 0 row).

Definition build_rlsd_token_mask (response_mask : tensor Z) (spec : string) : result (tensor Z) :=
  let normalized := dashes (lower (strip (if bool_decide (spec = ""%string) then "all" else spec))) in
  match assoc_lookup normalized token_mask_aliases with
  | None => Raise (ValueError "actor.policy_loss.rlsd_token_mask must be one of all, all8k, 2k+ans, 4k+ans, or 6k+ans")
  | Some None => Ok (tmap Z.b2z (tmap to_bool response_mask))
  | Some (Some first_k) => Ok (tmap Z.b2z (map (token_mask_row first_k) (tmap to_bool response_mask)))
  end.

(** ** Lemmas: tokenized prefixes *)

Lemma to_bool_b2z b : to_bool (Z.b2z b) = b.
Proof. by destruct b. Qed.

Lemma cumsumZ_b2z acc row : cumsumZ acc (Z.b2z <$> row) = cumsum_from acc row.
Proof. revert acc. induction row as [|b row IH]; intros acc; csimpl; [done|]. by rewrite IH. Qed.

Lemma positionZ_b2z row : positionZ (Z.b2z <$> row) = position_row row.
Proof. unfold positionZ, position_row. by rewrite cumsumZ_b2z. Qed.

Lemma place_row_spec max pad ids irow mrow :
  place_row max pad ids = Ok (irow, mrow) → 0 < max →
  irow = repeat pad (max - length ids) ++ ids ∧ length irow = max ∧ length mrow = max ∧
  left_padded (to_bool <$> mrow) ∧ mrow = Z.b2z <$> (to_bool <$> mrow).
Proof.
  unfold place_row. intros H Hmax. inv_ok H. apply negb_true_iff, Nat.eqb_neq in Hreq.
  destruct (Nat.leb_spec (length ids) max) as [Hle|Hgt].
  - injection H as <- <-. rewrite !length_app, !repeat_length. split; [done|].
    split; [lia|]. split; [lia|]. rewrite fmap_app.
    assert (∀ b n, to_bool <$> repeat (Z.b2z b) n = repeat b n) as Hr.
    { intros b. induction n; csimpl; [done|]. by rewrite to_bool_b2z, IHn. }
    rewrite (Hr false), (Hr true). split.
    + exists (max - length ids), (pred (length ids)). by rewrite Nat.succ_pred.
    + rewrite fmap_app. f_equal.
      * generalize (max - length ids). induction n; csimpl; [done|]. by f_equal.
      * generalize (length ids). induction n; csimpl; [done|]. by f_equal.
  - destruct (Nat.eqb_spec max 0); [lia | simpl in H; done].
Qed.

Lemma normalize_fold_spec `{PromptTokenizer} max allow l acc res :
  foldM (normalize_ids max allow) acc l = Ok res →
  ∃ k, res.1 = acc.1 ++ k ∧
    Forall2 (λ ids out, out = if Nat.ltb max (length ids) then truncate_ids max ids else ids) l k ∧
    (allow = false → k = l).
Proof.
  revert acc. induction l as [|ids l IH]; intros acc Hf; csimpl in Hf.
  - injection Hf as <-. exists []. rewrite app_nil_r. repeat split; constructor.
  - apply bind_Ok_inv in Hf as (acc' & Hn & Hf). apply IH in Hf as (k & Hk & Hall & Hallow).
    unfold normalize_ids in Hn. destruct (Nat.ltb max (length ids)) eqn:E.
    + inv_ok Hn. injection Hn as <-. exists (truncate_ids max ids :: k). simpl in Hk.
      rewrite <-(assoc_L (++)) in Hk. split; [done|]. split; [|by intros ->].
      constructor; [by rewrite E | done].
    + injection Hn as <-. exists (ids :: k). simpl in Hk. rewrite <-(assoc_L (++)) in Hk.
      split; [done|]. split; [constructor; [by rewrite E | done]|].
      intros Ha. by rewrite Hallow.
Qed.

(** ** Lemmas: both scoring paths build the same inputs *)

Lemma tmap_cat1 {A B} (f : A → B) t u : tmap f (cat1 t u) = cat1 (tmap f t) (tmap f u).
Proof.
  unfold tmap, cat1. revert u. induction t as [|r t IH]; intros [|s u]; csimpl; try done.
  by rewrite fmap_app, IH.
Qed.

Lemma tmap_compose {A B C} (f : A → B) (g : B → C) t : tmap g (tmap f t) = tmap (λ a, g (f a)) t.
Proof.
  unfold tmap. rewrite <-list_fmap_compose. apply list_fmap_ext. intros i r _. simpl.
  by rewrite <-list_fmap_compose.
Qed.

Lemma mask_long_tmap mask : mask_long mask = tmap Z.b2z (tmap to_bool mask).
Proof. by rewrite tmap_compose. Qed.

Lemma map_positionZ_b2z t : map positionZ (tmap Z.b2z t) = map position_row t.
Proof. induction t as [|r t IH]; [done|]. csimpl. by rewrite positionZ_b2z, IH. Qed.

Lemma tmap_to_bool_b2z t : tmap to_bool (tmap Z.b2z t) = t.
Proof.
  rewrite tmap_compose. unfold tmap. induction t as [|r t IH]; csimpl; [done|]. rewrite IH. f_equal.
  induction r as [|b r IHr]; csimpl; [done|]. by rewrite to_bool_b2z, IHr.
Qed.

(** The batch of the trainer and the inputs of [Scorer] are the same tensors. *)
Definition matches_scorer (pad : Z) (prefix_mask : tensor Z) (b : score_batch) : Prop :=
  ∃ out, build_causal_score_inputs (b_prompts b) prefix_mask (b_responses b) (b_response_mask b) pad = Ok out ∧
    input_ids out = b_input_ids b ∧
    attention_mask out = tmap to_bool (b_attention_mask b) ∧
    position_ids out = b_position_ids b.

Lemma assemble_matches pad w prefix_ids prefix_mask resp rmask b :
  shape prefix_ids = shape prefix_mask → rectangular w prefix_mask →
  Forall left_padded (tmap to_bool prefix_mask) → length prefix_ids = length resp →
  mask_long prefix_mask = prefix_mask →
  assemble_score_batch pad prefix_ids prefix_mask resp rmask = Ok b →
  matches_scorer pad prefix_mask b.
Proof.
  intros Hshape Hw Hpad Hlen Hlong Hb. unfold assemble_score_batch in Hb. inv_oks Hb. subst b.
  unfold matches_scorer, build_causal_score_inputs. simpl.
  rewrite Hreq, !bool_decide_eq_true_2 by done.
  rewrite (proj2 (assert_left_padded_spec w prefix_mask Hw) Hpad). simpl.
  eexists. split; [done|]. simpl. split; [done|].
  assert (∃ pm, prefix_mask = tmap Z.b2z pm) as [pm ->]
    by (eexists; rewrite <-mask_long_tmap; by rewrite Hlong).
  rewrite mask_long_tmap, <-(tmap_cat1 Z.b2z), !tmap_to_bool_b2z. split; [done|].
  symmetry. apply map_positionZ_b2z.
Qed.

Lemma mapM_place_rows max pad ids rows :
  mapM (place_row max pad) ids = Ok rows → 0 < max →
  rows.*1 = (λ r, repeat pad (max - length r) ++ r) <$> ids ∧
  rectangular max rows.*1 ∧ rectangular max rows.*2 ∧
  Forall left_padded (tmap to_bool rows.*2) ∧ mask_long rows.*2 = rows.*2.
Proof.
  intros H%mapM_Ok_Forall2 Hmax. rewrite mask_long_tmap. unfold tmap, rectangular.
  induction H as [|r [irow mrow] ids rows Hp _ IH]; csimpl; [by repeat constructor|].
  apply place_row_spec in Hp as (-> & Hl1 & Hl2 & Hpad & Hm); [|done].
  destruct IH as (IH1 & IH2 & IH3 & IH4 & IH5). rewrite IH1 at 1. repeat split.
  - by constructor.
  - by constructor.
  - by constructor.
  - by rewrite <-Hm, IH5.
Qed.

Lemma rectangular_shape {A B} w (t : tensor A) (u : tensor B) :
  rectangular w t → rectangular w u → length t = length u → shape t = shape u.
Proof.
  unfold shape. intros Ht. revert u. induction Ht as [|r t Hr _ IH]; intros [|s u] Hu Hl; try done.
  inversion_clear Hu as [|? ? Hs Hu']. csimpl. rewrite Hr, Hs. f_equal. apply IH; [done|]. simpl in Hl. lia.
Qed.

(** ** Lemmas: the scan over the rows *)

(** What a scanned row went through. *)
Definition pi_row_ok `{PyPrims} `{PromptTokenizer} (thinking : bool) (field : string)
    (raws : option (list json)) (i : nat) (extra : dict) (prompt : string) : Prop :=
  truthy (get "problem" extra) = true ∧ truthy (get field extra) = true ∧
  build_pi_teacher_prompt (py_str (get "problem" extra)) (py_str (get field extra)) thinking = Ok prompt ∧
  ∀ l, raws = Some l → ∃ raw, l !! i = Some raw ∧
    pi_free (default "" (raw_prompt_to_text raw))%string (Some (py_str (get field extra))).

Lemma pi_scan_spec `{PyPrims} `{PromptTokenizer} thinking field raws n l st res :
  foldM (pi_row thinking field raws) st (imap (λ i d, (n + i, d)) l) = Ok res →
  scan_missing res = [] →
  scan_missing st = [] ∧
  ∃ ps, scan_prompts res = scan_prompts st ++ ps ∧ length ps = length l ∧
    scan_checked res = scan_checked st + (if raws is Some _ then length l else 0) ∧
    ∀ i d p, l !! i = Some d → ps !! i = Some p → pi_row_ok thinking field raws (n + i) d p.
Proof.
  revert n st. induction l as [|d l IH]; intros n st Hf Hres; csimpl in Hf.
  - injection Hf as <-. split; [done|]. exists []. rewrite app_nil_r. repeat split; try done.
    destruct raws; simpl; lia.
  - apply bind_Ok_inv in Hf as (st' & Hrow & Hf). rewrite Nat.add_0_r in Hrow.
    assert (imap ((λ i d, (n + i, d)) ∘ S) l = imap (λ i d, (S n + i, d)) l) as Himap.
    { apply imap_ext. intros i x _. simpl. f_equal. lia. }
    rewrite Himap in Hf. apply (IH (S n)) in Hf as (Hmiss & ps & Hps & Hlen & Hchk & Hall); [|done].
    unfold pi_row in Hrow. inv_ok Hrow. rename Hreq into Hprob.
    destruct (truthy (get field d)) eqn:Htrace.
    2:{ injection Hrow as <-. simpl in Hmiss. by destruct (scan_missing st). }
    inv_ok Hrow. rename v into checked. inv_ok Hrow. rename v into p. injection Hrow as <-.
    simpl in Hmiss, Hps, Hchk. split; [done|].
    exists (p :: ps). rewrite Hps, <-(assoc_L (++)). split; [done|]. split; [simpl; lia|].
    assert (checked = scan_checked st + (if raws is Some _ then 1 else 0) ∧
      ∀ l', raws = Some l' → ∃ raw, l' !! n = Some raw ∧
        pi_free (default "" (raw_prompt_to_text raw))%string (Some (py_str (get field d)))) as [Hc Hfree].
    { destruct raws as [l'|].
      - inv_ok Hv. apply of_option_Ok in Hv1. inv_ok Hv. injection Hv as <-. split; [lia|].
        intros ? [= <-]. eexists. split; [done|]. apply assert_no_pi_spec. by destruct v0.
      - injection Hv as <-. split; [lia|done]. }
    split; [rewrite Hchk, Hc; destruct raws; simpl; lia|].
    intros [|i] d' p' Hd Hp; simpl in Hd, Hp.
    + injection Hd as <-. injection Hp as <-. rewrite Nat.add_0_r. repeat split; done.
    + replace (n + S i) with (S n + i) by lia. by apply Hall.
Qed.

(** ** Lemmas: the token mask *)

(** How many token indices in [1..t] are kept: at most [k], or beyond [c]. *)
Definition kept_upto (k c t : Z) : Z := (Z.min t k + Z.max (t - c) 0 - Z.max (Z.min t k - c) 0)%Z.

Lemma count_cons b row : count (b :: row) = (if b then 1 else 0) + count row.
Proof. by destruct b. Qed.

Lemma token_mask_count_from k c acc row :
  (0 <= acc)%Z → (0 <= k)%Z → (0 <= c)%Z →
  Z.of_nat (count (zip_with (λ (m : bool) ti, m && (Z.leb ti k || Z.ltb c ti)) row (cumsum_from acc row))) =
  (kept_upto k c (acc + Z.of_nat (count row)) - kept_upto k c acc)%Z.
Proof.
  intros Ha Hk Hc. revert acc Ha. induction row as [|b row IH]; intros acc Ha; csimpl.
  - unfold count. simpl. rewrite Z.add_0_r. lia.
  - rewrite !count_cons, Nat2Z.inj_add, IH by (destruct b; simpl; lia).
    destruct b; simpl Z.b2z; simpl andb.
    + destruct (Z.leb_spec (acc + 1) k), (Z.ltb_spec c (acc + 1)); simpl; unfold kept_upto; lia.
    + simpl. rewrite Z.add_0_r. lia.
Qed.

Lemma token_mask_row_count k row :
  (0 <= k)%Z →
  Z.of_nat (count (token_mask_row k row)) = Z.min (Z.of_nat (count row)) (k + 256).
Proof.
  intros Hk. unfold token_mask_row. rewrite token_mask_count_from by lia. unfold kept_upto. lia.
Qed.

Lemma token_mask_row_lookup k row j :
  token_mask_row k row !! j =
    (λ m : bool, m && (Z.leb (Z.of_nat (count (take (S j) row))) k ||
      Z.ltb (Z.max (Z.of_nat (count row) - 256) 0) (Z.of_nat (count (take (S j) row))))) <$> row !! j.
Proof.
  unfold token_mask_row. rewrite lookup_zip_with. destruct (row !! j) as [m|] eqn:E; [|done]. simpl.
  by rewrite (cumsum_from_lookup _ _ _ _ E).
Qed.

(** ** Lemmas: groups *)

Lemma rsum_sq_zero l : rsum ((λ x, x ^ 2)%R <$> l) = 0%R ↔ Forall (λ x, x = 0%R) l.
Proof.
  assert (∀ l, 0 <= rsum ((λ x, x ^ 2)%R <$> l))%R as Hnn.
  { clear. intros l. induction l as [|x l IH]; csimpl; [lra|]. pose proof (pow2_ge_0 x). simpl in *. lra. }
  induction l as [|x l IH]; csimpl; [by split; [constructor|]|].
  rewrite Forall_cons, <-IH. pose proof (pow2_ge_0 x). specialize (Hnn l). simpl in *. split.
  - intros Hs. split; nra.
  - intros [-> ->]. lra.
Qed.

Lemma mean_const c l : l ≠ [] → Forall (λ x, x = c) l → mean l = c.
Proof.
  intros Hne Hall. unfold mean. assert (rsum l = c * INR (length l))%R as ->.
  { clear Hne. induction Hall as [|x l -> _ IH]; [simpl; lra|].
    change (length (c :: l)) with (S (length l)). rewrite S_INR. simpl. rewrite IH. lra. }
  field. destruct l; [done|]. apply not_0_INR. done.
Qed.

#[local] Instance R_eq_dec : EqDecision R := Req_EM_T.

(** The population deviation is positive exactly for a group with two different scores. *)
Lemma std_pos_iff g :
  g ≠ [] → (0 < std g)%R ↔ ∃ x y, x ∈ g ∧ y ∈ g ∧ x ≠ y.
Proof.
  intros Hne. unfold std. set (m := mean g).
  assert (0 < INR (length g))%R as Hlen by (apply lt_0_INR; destruct g; [done|simpl; lia]).
  assert (0 <= mean ((λ x, (x - m) ^ 2)%R <$> g))%R as Hnn.
  { unfold mean. rewrite length_fmap. apply Rmult_le_pos; [|by left; apply Rinv_0_lt_compat].
    clear. clearbody m. induction g as [|x g IH]; csimpl; [lra|]. pose proof (pow2_ge_0 (x - m)). simpl in *. lra. }
  assert (mean ((λ x, (x - m) ^ 2)%R <$> g) = 0%R ↔ Forall (λ x, x = m) g) as Hz.
  { transitivity (rsum ((λ x, (x - m) ^ 2)%R <$> g) = 0%R).
    { unfold mean. rewrite length_fmap. unfold Rdiv. split; intros Hs; [|rewrite Hs; lra].
      apply Rmult_integral in Hs as [|Hi]; [done|].
      pose proof (Rinv_0_lt_compat _ Hlen). lra. }
    assert ((λ x, (x - m) ^ 2)%R <$> g = (λ x, x ^ 2)%R <$> ((λ x, x - m)%R <$> g)) as ->
      by (by rewrite <-list_fmap_compose).
    rewrite rsum_sq_zero, Forall_fmap. apply Forall_iff. intros x. simpl. split; intros; lra. }
  split.
  - intros Hpos. destruct g as [|x g]; [done|].
    destruct (decide (Forall (λ y, x = y) g)) as [Hall|Hnot].
    + exfalso. assert (m = x) as Hm.
      { apply mean_const; [done|]. constructor; [done|]. eapply Forall_impl; [exact Hall|]. by intros ? ->. }
      assert (mean ((λ y, (y - m) ^ 2)%R <$> x :: g) = 0%R) as Hz0.
      { apply Hz. rewrite Hm. constructor; [done|]. eapply Forall_impl; [exact Hall|]. by intros ? ->. }
      rewrite Hz0, sqrt_0 in Hpos. lra.
    + apply not_Forall_Exists in Hnot; [|apply _]. apply Exists_exists in Hnot as (y & Hy & Hxy).
      exists x, y. repeat split; [set_solver | set_solver | done].
  - intros (x & y & Hx & Hy & Hxy). apply sqrt_lt_R0. apply Rle_lt_or_eq_dec in Hnn as [|He]; [done|].
    exfalso. symmetry in He. apply Hz in He. rewrite Forall_forall in He.
    rewrite (He x), (He y) in Hxy by done. done.
Qed.

Lemma build_pi_inv `{PyPrims} `{PromptTokenizer} source max allow thinking field b :
  build_pi_teacher_score_batch source max allow thinking field = Ok b →
  ∃ resp rmask infos extras scan rows nt,
    sb_responses source = Some resp ∧ sb_response_mask source = Some rmask ∧
    sb_extra_info source = Some infos ∧ mapM as_dict infos = Ok extras ∧
    foldM (pi_row thinking field (sb_raw_prompt source))
      {| scan_prompts := []; scan_missing := []; scan_checked := 0 |} (imap pair extras) = Ok scan ∧
    scan_missing scan = [] ∧ build_prompts b = scan_prompts scan ∧
    foldM (normalize_ids max allow) ([], 0) (token_ids <$> scan_prompts scan) = Ok nt ∧
    mapM (place_row max pad_or_eos) nt.1 = Ok rows ∧ length rows = length resp ∧
    assemble_score_batch pad_or_eos rows.*1 rows.*2 resp rmask = Ok (build_batch b) ∧
    build_metrics b !! "privacy/student_prompt_pi_leak_checked_count"%string = Some (of_nat (scan_checked scan)).
Proof.
  intros Hb. unfold build_pi_teacher_score_batch, require_key in Hb.
  inv_ok Hb. apply of_option_Ok in Hv. inv_ok Hb. apply of_option_Ok in Hv0.
  inv_ok Hb. apply of_option_Ok in Hv1. inv_ok Hb. inv_ok Hb. inv_ok Hb. inv_ok Hb.
  apply bool_decide_eq_true in Hreq. unfold tokenize_prefixes in Hv4.
  inv_ok Hv4. inv_ok Hv4. injection Hv4 as <-.
  inv_ok Hb. apply Nat.eqb_eq in Hreq0. inv_ok Hb. injection Hb as <-. simpl.
  rewrite length_fmap in Hreq0. do 7 eexists. repeat (split; [done|]). reflexivity.
Qed.

Lemma pi_scan_top `{PyPrims} `{PromptTokenizer} thinking field raws extras scan :
  foldM (pi_row thinking field raws) {| scan_prompts := []; scan_missing := []; scan_checked := 0 |}
    (imap pair extras) = Ok scan →
  scan_missing scan = [] →
  length (scan_prompts scan) = length extras ∧
  scan_checked scan = (if raws is Some _ then length extras else 0) ∧
  ∀ i d p, extras !! i = Some d → scan_prompts scan !! i = Some p → pi_row_ok thinking field raws i d p.
Proof.
  intros Hf Hmiss. destruct (pi_scan_spec thinking field raws 0 extras _ _ Hf Hmiss)
    as (_ & ps & Hps & Hlen & Hchk & Hall). simpl in Hps, Hchk. rewrite Hps. eauto.
Qed.

Lemma normalize_top `{PromptTokenizer} max allow ls nt :
  foldM (normalize_ids max allow) ([], 0) ls = Ok nt →
  Forall2 (λ ids out, out = if Nat.ltb max (length ids) then truncate_ids max ids else ids) ls nt.1 ∧
  (allow = false → nt.1 = ls).
Proof.
  intros Hf. apply normalize_fold_spec in Hf as (k & Hk & Hall & Hallow). simpl in Hk. subst k. auto.
Qed.

(** ** Properties *)

(** C9: A PI-teacher batch that is built leaks nothing and misses nothing.  Every
    sample of the source has a problem and a privileged trace; its teacher prompt is the
    privileged prompt of exactly those two; and when raw prompts travel with the batch,
    each of them has been checked (the metric counts all of them) and is free of the
    reference tags and of the sample's own trace. *)
Theorem pi_batch_leak_free `{PyPrims} `{PromptTokenizer} source max allow thinking field b infos extras :
  build_pi_teacher_score_batch source max allow thinking field = Ok b →
  sb_extra_info source = Some infos → mapM as_dict infos = Ok extras →
  length (build_prompts b) = length extras ∧
  (∀ i d p, extras !! i = Some d → build_prompts b !! i = Some p →
     pi_row_ok thinking field (sb_raw_prompt source) i d p) ∧
  build_metrics b !! "privacy/student_prompt_pi_leak_checked_count"%string =
    Some (of_nat (if sb_raw_prompt source is Some _ then length extras else 0)).
Proof.
  intros Hb Hinfos Hextras.
  apply build_pi_inv in Hb as (resp & rmask & infos' & extras' & scan & rows & nt & _ & _ & Hi & He &
    Hscan & Hmiss & -> & _ & _ & _ & _ & Hm). simplify_eq.
  rewrite Hextras in He. injection He as <-.
  apply pi_scan_top in Hscan as (Hlen & Hchk & Hall); [|done].
  split; [done|]. split; [done|]. by rewrite Hm, Hchk.
Qed.

(** The PI-teacher batch is the input the teacher scorer would build itself: each
    prefix row is the tokenized teacher prompt (shortened only when truncation is
    allowed), left padded to the configured width, followed by the student's own
    response ids, with the scorer's attention mask and position ids; its prefix mask
    passes the scorer's left-padding check. *)
Theorem pi_batch_matches_scorer `{PyPrims} `{PromptTokenizer} source max allow thinking field b :
  build_pi_teacher_score_batch source max allow thinking field = Ok b → 0 < max →
  Some (b_responses (build_batch b)) = sb_responses source ∧
  (∃ prefix_mask, matches_scorer pad_or_eos prefix_mask (build_batch b)) ∧
  ∀ i p, build_prompts b !! i = Some p →
    ∃ ids, b_prompts (build_batch b) !! i = Some (repeat pad_or_eos (max - length ids) ++ ids) ∧
      ids = (if Nat.ltb max (length (token_ids p)) then truncate_ids max (token_ids p) else token_ids p) ∧
      (allow = false → ids = token_ids p).
Proof.
  intros Hb Hmax.
  apply build_pi_inv in Hb as (resp & rmask & infos & extras & scan & rows & nt & Hr & _ & _ & _ &
    _ & _ & Hps & Hnt & Hrows & Hlen & Hasm & _). rewrite Hps.
  destruct (mapM_place_rows _ _ _ _ Hrows Hmax) as (Hids & Hw1 & Hw2 & Hpad & Hlong).
  assert (b_responses (build_batch b) = resp ∧ b_prompts (build_batch b) = rows.*1) as [-> Hpr].
  { unfold assemble_score_batch in Hasm. inv_ok Hasm. injection Hasm as <-. done. }
  split; [done|]. split.
  - exists rows.*2. eapply assemble_matches; [| exact Hw2 | done | | done | exact Hasm].
    + eapply rectangular_shape; [exact Hw1 | exact Hw2 |]. by rewrite !length_fmap.
    + by rewrite length_fmap.
  - intros i p Hp. rewrite Hpr, Hids. apply normalize_top in Hnt as [Hall Hallow].
    destruct (Forall2_lookup_l _ _ _ i (token_ids p) Hall) as (ids & Hidsi & Hval).
    { by rewrite list_lookup_fmap, Hp. }
    exists ids. rewrite list_lookup_fmap, Hidsi. split; [done|]. split; [done|].
    intros Ha. rewrite Hallow, list_lookup_fmap, Hp in Hidsi by done. by injection Hidsi as <-.
Qed.

(** The direct teacher scores the student's own prompt.  A direct batch keeps the
    prompt ids and the responses of the source unchanged, refuses thinking prompts and
    prompts wider than the limit instead of truncating, and on a batch whose attention
    mask is 0/1 and as wide as its prompts and responses it is the input the teacher
    scorer would build from the same prefix. *)
Theorem direct_batch_reuses_prompt `{PyPrims} `{PromptTokenizer} source max thinking b w w' am :
  build_direct_opd_teacher_score_batch source max thinking = Ok b →
  sb_attention_mask source = Some am → mask_long am = am →
  rectangular w (b_prompts (build_batch b)) → rectangular w' am →
  length am = length (b_prompts (build_batch b)) →
  length am = length (b_responses (build_batch b)) →
  Some (b_prompts (build_batch b)) = sb_prompts source ∧
  Some (b_responses (build_batch b)) = sb_responses source ∧
  thinking = false ∧ (am ≠ [] → w <= max) ∧
  matches_scorer pad_or_eos (map (take w) am) (build_batch b).
Proof.
  intros Hb Ham Hlong Hw Hw' Hl Hl2. unfold build_direct_opd_teacher_score_batch, require_key in Hb.
  inv_ok Hb. apply of_option_Ok in Hv. inv_ok Hb. apply of_option_Ok in Hv0.
  inv_ok Hb. apply of_option_Ok in Hv1. inv_ok Hb. apply of_option_Ok in Hv2.
  inv_ok Hb. apply negb_true_iff in Hreq. cbn zeta in Hb. inv_ok Hb. inv_ok Hb. inv_ok Hb. inv_ok Hb.
  injection Hb as <-. simpl in *.
  pose proof Hv4 as Hasm. unfold assemble_score_batch in Hv4. inv_ok Hv4. injection Hv4 as <-. simpl in *.
  rewrite Ham in Hv1. injection Hv1 as <-. apply Nat.leb_le in Hreq0, Hreq1.
  split; [done|]. split; [done|]. split; [done|].
  assert ((am ≠ [] → w <= max) ∧ map (take (twidth v)) am = map (take w) am ∧
    rectangular w (map (take w) am)) as (Hmax & Hmask & Hrect).
  { destruct am as [|row am]; [by repeat constructor|]. destruct v as [|prow v]; [done|].
    assert (twidth (prow :: v) = w) as Htw by (by inversion Hw). rewrite Htw in *.
    split; [done|]. split; [done|].
    unfold rectangular. apply Forall_fmap. eapply Forall_impl; [exact Hw'|].
    intros r Hr. simpl in *. rewrite length_take. inversion Hw'; subst. lia. }
  split; [done|]. rewrite Hmask in *.
  destruct v3. apply (assert_left_padded_spec w) in Hv3; [|done].
  eapply assemble_matches; [| exact Hrect | exact Hv3 | by rewrite <-Hl | | exact Hasm].
  - eapply rectangular_shape; [exact Hw | exact Hrect |]. by rewrite length_map.
  - clear -Hlong. revert Hlong. generalize am. intros t. unfold mask_long, tmap.
    induction t as [|r t IH]; csimpl; [done|]. intros [= Hr Ht]. rewrite (IH Ht). f_equal.
    by rewrite fmap_take, Hr.
Qed.

(** The token mask keeps the head and the tail.  Whatever the spelling of the
    specification, the mask built from it is 0/1, has the shape of the response mask and
    only keeps valid tokens; without a limit it keeps all of them, and with limit [k] it
    keeps exactly the valid tokens whose 1-based rank among the valid ones is at most [k]
    or among the last 256, so each row keeps [min(n, k + 256)] of its [n] valid tokens.
    A specification outside the table is refused. *)
Theorem token_mask_keeps_head_and_tail mask spec :
  let normalized := dashes (lower (strip (if bool_decide (spec = ""%string) then "all" else spec))) in
  match assoc_lookup normalized token_mask_aliases with
  | None => is_ok (build_rlsd_token_mask mask spec) = false
  | Some first_k => ∃ kept : tensor bool,
      build_rlsd_token_mask mask spec = Ok (tmap Z.b2z kept) ∧ length kept = length mask ∧
      ∀ i row, tmap to_bool mask !! i = Some row → ∃ krow, kept !! i = Some krow ∧
        Z.of_nat (count krow) = (if first_k is Some k then Z.min (Z.of_nat (count row)) (k + 256)
                                 else Z.of_nat (count row)) ∧
        ∀ j, krow !! j = Some true ↔ row !! j = Some true ∧
          (∀ k, first_k = Some k →
             (Z.of_nat (count (take (S j) row)) <= k)%Z ∨ count row - 256 < count (take (S j) row))
  end.
Proof.
  intros normalized. unfold build_rlsd_token_mask. fold normalized.
  destruct (assoc_lookup normalized token_mask_aliases) as [[k|]|] eqn:Ealias; [| |done].
  - assert (0 <= k)%Z as Hk.
    { clear -Ealias. unfold token_mask_aliases in Ealias. simpl in Ealias.
      repeat case_bool_decide; simplify_eq; lia. }
    eexists. split; [done|]. split; [unfold tmap; by rewrite length_map, length_fmap|].
    intros i row Hi. exists (token_mask_row k row).
    change (map (token_mask_row k)) with (fmap (M := list) (token_mask_row k)).
    rewrite list_lookup_fmap, Hi. split; [done|]. split; [by apply token_mask_row_count|].
    intros j. rewrite token_mask_row_lookup. destruct (row !! j) as [[]|]; simpl; [|naive_solver..].
    split.
    + intros [= Ht]. split; [done|]. intros ? [= <-]. apply orb_true_iff in Ht as [Ht|Ht].
      * left. by apply Z.leb_le.
      * right. apply Z.ltb_lt in Ht. lia.
    + intros [_ Ht]. f_equal. apply orb_true_iff. destruct (Ht k eq_refl) as [Hl|Hr].
      * left. by apply Z.leb_le.
      * right. apply Z.ltb_lt. lia.
  - exists (tmap to_bool mask). split; [done|]. split; [unfold tmap; by rewrite length_fmap|].
    intros i row Hi. exists row. split; [done|]. split; [done|]. naive_solver.
Qed.

(** The two facts about a group the diagnostics count. *)
Definition mixed (g : list R) : Prop := ∃ x y, x ∈ g ∧ y ∈ g ∧ x ≠ y.

Lemma forallb_spec_R (p : R → bool) (P : R → Prop) g :
  (∀ x, p x = true ↔ P x) → forallb p g = true ↔ Forall P g.
Proof. intros Hp. rewrite forallb_Forall. apply Forall_iff. exact Hp. Qed.

Lemma Rgeb_spec a b : Rgeb a b = true ↔ (b <= a)%R.
Proof. unfold Rgeb, Rleb. destruct (Rle_dec b a); naive_solver. Qed.

Lemma Forall2_flags (P : list R → Prop) (f : list R → bool) groups :
  Forall (λ g, f g = true ↔ P g) groups → Forall2 (λ g b, b = true ↔ P g) groups (f <$> groups).
Proof. intros Hall. apply Forall2_fmap_r. apply Forall_Forall2_diag. exact Hall. Qed.

(** With uids, the diagnostics group every score under its own uid, in order, whatever
    the interleaving of the rollouts; the three reported ratios are the fractions of the
    groups of at least two scores that contain two different scores, only scores of at
    least 1, and only scores below 1. *)
Theorem uid_group_metrics_correct `{PyPrims} scores uids n m seen ready :
  length uids = length scores →
  group_diagnostic_metrics scores (Some uids) n = (m, seen, ready) →
  let groups := group_by_key (zip (py_str <$> uids) scores) in
  NoDup groups.*1 ∧
  (∀ uid g, (uid, g) ∈ groups ↔
     g ≠ [] ∧ g = (List.filter (λ ka, bool_decide (ka.1 = uid)) (zip (py_str <$> uids) scores)).*2) ∧
  let big := List.filter (λ g, Nat.leb 2 (length g)) groups.*2 in
  seen = true ∧ ready = true ∧
  if bool_decide (big = []) then m = ∅ else
  ∃ nonzero correct wrong,
    Forall2 (λ g b, b = true ↔ mixed g) big nonzero ∧
    Forall2 (λ g b, b = true ↔ Forall (λ s, 1 <= s)%R g) big correct ∧
    Forall2 (λ g b, b = true ↔ Forall (λ s, s < 1)%R g) big wrong ∧
    m = list_to_map [("train/group_nonzero_std_ratio", bool_ratio nonzero);
                     ("train/group_all_correct_ratio", bool_ratio correct);
                     ("train/group_all_wrong_ratio", bool_ratio wrong)]%string.
Proof.
  intros Hlen Hm groups. split; [apply group_by_key_nodup|]. split.
  { intros uid g. rewrite assoc_lookup_elem by apply group_by_key_nodup.
    unfold groups. rewrite group_by_key_lookup. destruct (_.*2) as [|v vs]; naive_solver. }
  intros big. unfold group_diagnostic_metrics in Hm. rewrite Hlen, Nat.eqb_refl in Hm.
  cbn [negb] in Hm.
  change (List.filter _ _) with big in Hm.
  case_bool_decide as Hb; [rewrite Hb in Hm; injection Hm as <- <- <-; done|].
  assert ((ratios big, true, true) = (m, seen, ready)) as Hr by (by destruct big).
  injection Hr as <- <- <-. split; [done|]. split; [done|].
  do 3 eexists. split; [|split; [|split; [|reflexivity]]]; apply Forall2_flags, Forall_forall; intros g Hg.
  - rewrite Rltb_spec. apply std_pos_iff. intros ->. unfold big in Hg.
    apply list_elem_of_In, List.filter_In in Hg as [_ Hg]. done.
  - apply forallb_spec_R. intros x. apply Rgeb_spec.
  - apply forallb_spec_R. intros x. apply Rltb_spec.
Qed.

Lemma token_mask_example :
  build_rlsd_token_mask [[1; 1; 0]]%Z " 2K_ANS " = Raise (ValueError "actor.policy_loss.rlsd_token_mask must be one of all, all8k, 2k+ans, 4k+ans, or 6k+ans") ∧
  build_rlsd_token_mask [[1; 1; 0]]%Z " First_2K+tail_256 " = Ok [[1; 1; 0]]%Z.
Proof. split; vm_compute; reflexivity. Qed.

(** ** Concrete batches *)

#[local] Instance toy_tokenizer : PromptTokenizer := {|
  chat := plain_template;
  token_ids s := [Z.of_nat (String.length s); 7%Z];
  truncation_side_left := true;
  tok_pad_token_id := None;
  tok_eos_token_id := Some 2%Z |}.

Definition toy_extra : dict := [("problem", JStr "1+1?"); ("qwen32b_pi_trace", JStr "two")]%string.

Definition toy_source : source_batch := {|
  sb_prompts := Some [[0; 9; 9]]%Z; sb_responses := Some [[4; 5]]%Z;
  sb_attention_mask := Some [[0; 1; 1; 1; 0]]%Z; sb_response_mask := Some [[1; 0]]%Z;
  sb_extra_info := Some [Arrow (JObj toy_extra)];
  sb_raw_prompt := Some [JList [JObj [("content", JStr "1+1?")]]]%string |}.

Lemma pi_batch_leak_free_witness :
  ∃ b, build_pi_teacher_score_batch toy_source 4 true false "qwen32b_pi_trace" = Ok b ∧
    length (build_prompts b) = 1.
Proof.
  destruct (build_pi_teacher_score_batch toy_source 4 true false "qwen32b_pi_trace") as [b|e] eqn:E.
  - exists b. split; [reflexivity|].
    destruct (pi_batch_leak_free toy_source 4 true false _ b [Arrow (JObj toy_extra)] [toy_extra] E eq_refl eq_refl)
      as [Hl _]. exact Hl.
  - exfalso. vm_compute in E. discriminate.
Defined.

Lemma pi_batch_matches_scorer_witness :
  ∃ b mask, build_pi_teacher_score_batch toy_source 4 true false "qwen32b_pi_trace" = Ok b ∧
    matches_scorer 2 mask (build_batch b).
Proof.
  destruct (build_pi_teacher_score_batch toy_source 4 true false "qwen32b_pi_trace") as [b|e] eqn:E.
  - destruct (pi_batch_matches_scorer toy_source 4 true false _ b E ltac:(lia)) as (_ & [mask Hm] & _).
    exists b, mask. split; [reflexivity | exact Hm].
  - exfalso. vm_compute in E. discriminate.
Defined.

Lemma direct_batch_reuses_prompt_witness :
  ∃ b, build_direct_opd_teacher_score_batch toy_source 8 false = Ok b ∧
    matches_scorer 2 [[0; 1; 1]]%Z (build_batch b).
Proof.
  destruct (build_direct_opd_teacher_score_batch toy_source 8 false) as [b|e] eqn:E.
  - exists b. split; [reflexivity|].
    assert (b_prompts (build_batch b) = [[0; 9; 9]]%Z ∧ b_responses (build_batch b) = [[4; 5]]%Z) as [Hp Hr]
      by (injection E as <-; split; reflexivity).
    destruct (direct_batch_reuses_prompt toy_source 8 false b 3 5 [[0; 1; 1; 1; 0]]%Z E eq_refl eq_refl)
      as (_ & _ & _ & _ & Hm); [rewrite Hp; repeat constructor | repeat constructor |
        rewrite Hp; reflexivity | rewrite Hr; reflexivity | exact Hm].
  - exfalso. vm_compute in E. discriminate.
Defined.

Lemma uid_group_metrics_correct_witness :
  ∃ m, group_diagnostic_metrics [1; 0; 1]%R (Some [JStr "a"; JStr "b"; JStr "a"]%string) 2 = (m, true, true).
Proof.
  destruct (group_diagnostic_metrics [1; 0; 1]%R (Some [JStr "a"; JStr "b"; JStr "a"]%string) 2)
    as [[m seen] ready] eqn:E.
  destruct (uid_group_metrics_correct [1; 0; 1]%R [JStr "a"; JStr "b"; JStr "a"]%string 2 m seen ready eq_refl E)
    as (_ & _ & -> & -> & _).
  exists m. reflexivity.
Defined.
