(* ===== verification/Padding.v ===== *)
(** * Padded and padding-free batches

    [src/verl/utils/npu_flash_attn_utils.py] (gather, scatter, [unpad_input],
    [pad_input]) and [src/verl/workers/utils/padding.py] (the conversions around every
    log-probability call).  Attention masks are boolean: the code documents 0/1 masks.
    A nested (jagged) tensor is its values with its offsets. *)

From S2P Require Import Prelude Rlsd Scorer.
Local Open Scope py_scope.

(** ** Gather, scatter, unpad, pad *)

(** [torch.nonzero] of a flat mask. *)
Fixpoint nonzero_from (i : nat) (mask : list bool) : list nat :=
  match mask with
  | [] => []
  | b :: mask => (if (b : bool) then [i] else []) ++ nonzero_from (S i) mask
  end.

Definition index_first_axis {A} (input : list A) (indices : list nat) : result (list A) :=
  mapM (λ i, of_option (RuntimeError "index out of bounds") (input !! i)) indices.

Fixpoint put_all {A} (output : list A) (indices : list nat) (values : list A) : list A :=
  match indices, values with
  | i :: indices, v :: values => put_all (<[i := v]> output) indices values
  | _, _ => output
  end.

(** [output[indices] = values] on zeros: the two lengths must agree and every index
    must be in range. *)
Definition index_put_first_axis {A} (zero : A) (values : list A) (indices : list nat)
    (first_axis_dim : nat) : result (list A) :=
  require Nat.eqb (length values) (length indices) else RuntimeError "shape mismatch" ;;
  require forallb (λ i, Nat.ltb i first_axis_dim) indices else IndexError "index out of bounds" ;;
  Ok (put_all (repeat zero first_axis_dim) indices values).

(** Cut a flat list into [count] rows of [n]. *)
Fixpoint reshape {A} (count n : nat) (l : list A) : list (list A) :=
  match count with 0 => [] | S count => take n l :: reshape count n (drop n l) end.

Definition pad_input {A} (zero : A) (hidden : list A) (indices : list nat) (batch seqlen : nat)
    : result (tensor A) :=
  output ← index_put_first_axis zero hidden indices (batch * seqlen);
  Ok (reshape batch seqlen output).

Fixpoint offsets_from (acc : nat) (lens : list nat) : list nat :=
  match lens with [] => [] | n :: lens => (acc + n) :: offsets_from (acc + n) lens end.
Definition cumulative (lens : list nat) : list nat := 0 :: offsets_from 0 lens.

Record unpadded A := { up_values : list A; up_indices : list nat; cu_seqlens : list nat; max_seqlen : nat }.
Arguments up_values {_} _. Arguments up_indices {_} _. Arguments cu_seqlens {_} _. Arguments max_seqlen {_} _.

Definition unpad_input {A} (hidden : tensor A) (attention_mask : tensor bool) : result (unpadded A) :=
  let seqlens_in_batch := map count attention_mask in
  let indices := nonzero_from 0 (concat attention_mask) in
  require negb (Nat.eqb (length seqlens_in_batch) 0)
    else RuntimeError "max(): Expected reduction dim to be specified for input.numel() == 0" ;;
  values ← index_first_axis (concat hidden) indices;
  Ok {| up_values := values; up_indices := indices; cu_seqlens := cumulative seqlens_in_batch;
        max_seqlen := max_list seqlens_in_batch |}.

(** ** Padding-free batches *)

Record jagged A := { j_values : list A; j_offsets : list nat }.
Arguments j_values {_} _. Arguments j_offsets {_} _.

Fixpoint j_rows_from {A} (start : nat) (offsets : list nat) (values : list A) : list (list A) :=
  match offsets with
  | [] => []
  | stop :: offsets => slice start stop values :: j_rows_from stop offsets values
  end.
Definition j_rows {A} (t : jagged A) : list (list A) :=
  match j_offsets t with [] => [] | start :: offsets => j_rows_from start offsets (j_values t) end.

(** [torch.nested.as_nested_tensor] of a list of rows. *)
Definition nested_of_rows {A} (rows : list (list A)) : jagged A :=
  {| j_values := concat rows; j_offsets := cumulative (map length rows) |}.

(** [row[mask]] for a boolean mask of the same length. *)
Definition select {A} (mask : list bool) (row : list A) : list A :=
  (List.filter (λ mb : bool * A, mb.1) (zip mask row)).*2.

Record padded_data := {
  d_input_ids : tensor Z; d_attention_mask : tensor bool; d_response_mask : tensor bool;
  d_position_ids : tensor Z; d_prompts : tensor Z; d_responses : tensor Z }.

Record nested_data := {
  nd_input_ids : jagged Z; nd_position_ids : jagged Z; nd_loss_mask : tensor bool;
  nd_attention_mask : tensor bool; nd_indices : list nat;
  nd_max_seq_len : nat; nd_max_response_len : nat;
  nd_prompts : tensor Z; nd_responses : tensor Z }.

Definition left_right_2_no_padding (data : padded_data) : result nested_data :=
  u ← unpad_input (d_input_ids data) (d_attention_mask data);
  let position_ids_list := zip_with select (d_attention_mask data) (d_position_ids data) in
  Ok {| nd_input_ids := {| j_values := up_values u; j_offsets := cu_seqlens u |};
        nd_position_ids := nested_of_rows position_ids_list;
        nd_loss_mask := d_response_mask data;
        nd_attention_mask := d_attention_mask data;
        nd_indices := up_indices u;
        nd_max_seq_len := twidth (d_input_ids data);
        nd_max_response_len := twidth (d_response_mask data);
        nd_prompts := d_prompts data; nd_responses := d_responses data |}.

(** [F.pad(row, (0, size - len(row)))]: a negative amount crops. *)
Definition pad_row {A} (zero : A) (size : nat) (row : list A) : list A :=
  take size row ++ repeat zero (size - length row).

(** [values[seq_offset - resp_len - 1 : seq_offset - 1]] *)
Definition response_slice {A} (resp_len seq_offset : nat) (values : list A) : list A :=
  zslice (Z.of_nat seq_offset - Z.of_nat resp_len - 1) (Z.of_nat seq_offset - 1) values.

Section slices.
Context {A : Type} (zero : A).

(** The loop over the samples, from their response lengths and end offsets. *)
Definition response_rows (max_response_len : nat) (values : list A) (resp_lens offsets : list nat)
    : tensor A :=
  zip_with (λ resp_len seq_offset,
      pad_row zero max_response_len (response_slice resp_len seq_offset values))
    resp_lens offsets.

Definition slice_responses (max_response_len : nat) (values : list A)
    (prompt_lens response_lens : list nat) : result (tensor A) :=
  let sequence_lens := zip_with Nat.add prompt_lens response_lens in
  let sequence_offsets := offsets_from 0 sequence_lens in
  total ← of_option (IndexError "index -1 is out of bounds") (last sequence_offsets);
  require Nat.eqb total (length values) else AssertionError "" ;;
  require negb (existsb (λ n, Nat.eqb n 0) prompt_lens)
    else AssertionError "seq_offset - resp_len - 1 assumes prompt_len > 0" ;;
  Ok (response_rows max_response_len values response_lens sequence_offsets).

(** Padded prompts: the lengths come from the attention mask. *)
Definition no_padding_2_padding (values : list A) (data : nested_data) : result (tensor A) :=
  let prompt_width := twidth (nd_prompts data) in
  slice_responses (twidth (nd_responses data)) values
    (map (λ row, count (take prompt_width row)) (nd_attention_mask data))
    (map (λ row, count (drop prompt_width row)) (nd_attention_mask data)).

(** Nested prompts and responses: the lengths come from their offsets;
    [max_response_len] is the stored one, or the longest response. *)
Definition no_padding_2_padding_nested (values : list A) (prompt_rows response_row_lens : list nat)
    (max_response_len : option nat) : result (tensor A) :=
  slice_responses (default (max_list response_row_lens) max_response_len) values
    prompt_rows response_row_lens.

Definition response_from_nested (t : jagged A) (response_lens : list nat) : result (jagged A) :=
  require Nat.eqb (length response_lens) (length (tail (j_offsets t)))
    else ValueError "zip() arguments have different lengths" ;;
  Ok (nested_of_rows
       (zip_with (λ resp_len seq_offset, response_slice resp_len seq_offset (j_values t))
         response_lens (tail (j_offsets t)))).

Definition response_to_nested (t : tensor A) (response_lens : list nat) : result (jagged A) :=
  require Nat.leb (length t) (length response_lens) else IndexError "index out of range" ;;
  Ok (nested_of_rows (zip_with take response_lens t)).
End slices.

Definition build_attention_mask_from_nested (seq_lens : list nat) (max_seq_len : option nat) : tensor bool :=
  map (λ n, map (λ j, Nat.ltb j n) (seq 0 (default (max_list seq_lens) max_seq_len))) seq_lens.

(** ** Lemmas: gather, scatter, rows *)

Lemma select_cons {A} b (x : A) mask row :
  select (b :: mask) (x :: row) = (if b then [x] else []) ++ select mask row.
Proof. unfold select. simpl. by destruct b. Qed.

Lemma select_app {A} m1 m2 (r1 r2 : list A) :
  length m1 = length r1 → select (m1 ++ m2) (r1 ++ r2) = select m1 r1 ++ select m2 r2.
Proof.
  revert r1. induction m1 as [|b m1 IH]; intros [|x r1] H; try done.
  simpl app. rewrite !select_cons, IH by (simpl in H; lia). by rewrite (assoc_L (++)).
Qed.

Lemma select_length {A} mask (row : list A) :
  length mask = length row → length (select mask row) = count mask.
Proof.
  revert row. induction mask as [|b mask IH]; intros [|x row] H; try done.
  rewrite select_cons, length_app, IH by (simpl in H; lia). by destruct b.
Qed.

Lemma select_lookup {A} mask (row : list A) j :
  length mask = length row → mask !! j = Some true →
  select mask row !! count (take j mask) = row !! j.
Proof.
  revert row j. induction mask as [|b mask IH]; intros [|x row] [|j] H Hj; try done.
  - simpl in Hj. injection Hj as ->. by rewrite select_cons.
  - rewrite select_cons. simpl in *. destruct b; simpl; unfold count in *; simpl; apply IH; done || lia.
Qed.

Lemma concat_select {A} (mask : tensor bool) (rows : tensor A) :
  shape mask = shape rows → select (concat mask) (concat rows) = concat (zip_with select mask rows).
Proof.
  unfold shape. revert rows. induction mask as [|m mask IH]; intros [|r rows] H; try done.
  csimpl in H. injection H as Hl H. simpl. rewrite select_app by done. f_equal. by apply IH.
Qed.

Lemma index_first_axis_select {A} pre (l : list A) mask :
  length mask = length l →
  index_first_axis (pre ++ l) (nonzero_from (length pre) mask) = Ok (select mask l).
Proof.
  unfold index_first_axis. revert pre l. induction mask as [|b mask IH]; intros pre [|x l] H; try done.
  specialize (IH (pre ++ [x]) l). rewrite <-(assoc_L (++)), length_app, Nat.add_1_r in IH. simpl in IH.
  rewrite select_cons. simpl. destruct b; simpl.
  - rewrite lookup_app_r, Nat.sub_diag by lia. simpl. rewrite IH by (simpl in H; lia). done.
  - apply IH. simpl in H. lia.
Qed.

Lemma shape_concat_length {A B} (t : tensor A) (u : tensor B) :
  shape t = shape u → length (concat t) = length (concat u).
Proof. unfold shape. intros H. rewrite !length_concat_nsum. by rewrite H. Qed.

Lemma unpad_input_spec {A} (hidden : tensor A) mask :
  shape mask = shape hidden → mask ≠ [] →
  ∃ u, unpad_input hidden mask = Ok u ∧
    up_values u = concat (zip_with select mask hidden) ∧
    up_indices u = nonzero_from 0 (concat mask) ∧
    cu_seqlens u = cumulative (map length (zip_with select mask hidden)).
Proof.
  intros Hs Hne. unfold unpad_input. rewrite length_map.
  destruct (Nat.eqb_spec (length mask) 0) as [H0|_]; [by destruct mask|]. simpl negb. cbv iota.
  pose proof (index_first_axis_select [] (concat hidden) (concat mask)) as Hi. simpl in Hi.
  rewrite Hi by (by apply shape_concat_length). simpl. eexists. split; [done|]. simpl.
  rewrite concat_select by done. repeat split. f_equal.
  clear -Hs. unfold shape in Hs. revert hidden Hs. induction mask as [|m mask IH]; intros [|r rows] H; try done.
  csimpl in H. injection H as Hl H. simpl. rewrite select_length by done. f_equal. by apply IH.
Qed.

Lemma put_all_select {A} (zero : A) pre mask l :
  length mask = length l →
  put_all (pre ++ repeat zero (length mask)) (nonzero_from (length pre) mask) (select mask l) =
  pre ++ zip_with (λ (m : bool) x, if m then x else zero) mask l.
Proof.
  revert pre l. induction mask as [|b mask IH]; intros pre [|x l] H; try done.
  rewrite select_cons. simpl.
  assert (Hy : ∀ y, put_all ((pre ++ [y]) ++ repeat zero (length mask)) (nonzero_from (S (length pre)) mask)
    (select mask l) = (pre ++ [y]) ++ zip_with (λ (m : bool) x, if m then x else zero) mask l).
  { intros y. specialize (IH (pre ++ [y]) l). rewrite length_app, Nat.add_1_r in IH. apply IH. simpl in H. lia. }
  destruct b; simpl.
  - replace (<[length pre := x]> (pre ++ zero :: repeat zero (length mask)))
      with ((pre ++ [x]) ++ repeat zero (length mask)).
    2:{ rewrite insert_app_r_alt, Nat.sub_diag by done. simpl. by rewrite <-(assoc_L (++)). }
    rewrite (Hy x). by rewrite <-(assoc_L (++)).
  - specialize (Hy zero). rewrite <-!(assoc_L (++)) in Hy. exact Hy.
Qed.

Lemma nonzero_from_bound i mask : Forall (λ j, j < i + length mask) (nonzero_from i mask).
Proof.
  revert i. induction mask as [|b mask IH]; intros i; simpl; [constructor|].
  apply Forall_app. split; [destruct b; repeat constructor; lia|].
  eapply Forall_impl; [exact (IH (S i))|]. simpl. intros. lia.
Qed.

Lemma nonzero_from_length i mask : length (nonzero_from i mask) = count mask.
Proof.
  revert i. induction mask as [|b mask IH]; intros i; simpl; [done|].
  rewrite length_app, IH. by destruct b.
Qed.

Lemma reshape_concat {A} w (rows : tensor A) : rectangular w rows → reshape (length rows) w (concat rows) = rows.
Proof.
  induction 1 as [|r rows Hr _ IH]; simpl; [done|].
  rewrite <-Hr, take_app_length, drop_app_length. by rewrite Hr, IH.
Qed.

Lemma concat_zip_with {A B C} (f : A → B → C) (t : tensor A) (u : tensor B) :
  shape t = shape u → zip_with f (concat t) (concat u) = concat (tzip f t u).
Proof.
  unfold shape, tzip. revert u. induction t as [|r t IH]; intros [|s u] H; try done.
  csimpl in H. injection H as Hl H. simpl. rewrite zip_with_app by done. f_equal. by apply IH.
Qed.

(** ** Lemmas: jagged rows and response slices *)

Lemma j_rows_from_concat {A} (pre : list A) rows :
  j_rows_from (length pre) (offsets_from (length pre) (map length rows)) (pre ++ concat rows) = rows.
Proof.
  revert pre. induction rows as [|r rows IH]; intros pre; simpl; [done|].
  rewrite slice_app. f_equal. specialize (IH (pre ++ r)).
  rewrite length_app, <-(assoc_L (++)) in IH. exact IH.
Qed.

Lemma j_rows_nested {A} (rows : list (list A)) : j_rows (nested_of_rows rows) = rows.
Proof. unfold j_rows, nested_of_rows, cumulative. simpl. apply (j_rows_from_concat []). Qed.

Lemma response_slice_spec {A} (pre seg post : list A) p r :
  length seg = p + r → 0 < p →
  response_slice r (length pre + (p + r)) (pre ++ seg ++ post) = take r (drop (p - 1) seg).
Proof.
  intros Hl Hp. unfold response_slice.
  rewrite <-(take_drop (p - 1) seg) at 1. rewrite <-(take_drop r (drop (p - 1) seg)) at 1.
  rewrite <-!(assoc_L (++)). rewrite (assoc_L (++) pre).
  apply zslice_app; rewrite !length_app, ?length_take, ?length_drop; lia.
Qed.

Lemma response_rows_spec {A} (zero : A) max pre segs plens rlens post :
  length plens = length segs → length rlens = length segs →
  (∀ i seg p r, segs !! i = Some seg → plens !! i = Some p → rlens !! i = Some r →
     length seg = p + r ∧ 0 < p) →
  response_rows zero max (pre ++ concat segs ++ post) rlens
    (offsets_from (length pre) (zip_with Nat.add plens rlens)) =
  zip_with (λ seg pr, pad_row zero max (take pr.2 (drop (pr.1 - 1) seg))) segs (zip plens rlens).
Proof.
  revert pre plens rlens. induction segs as [|seg segs IH]; intros pre [|p plens] [|r rlens] H1 H2 Hall; try done.
  destruct (Hall 0 seg p r eq_refl eq_refl eq_refl) as [Hl Hp].
  unfold response_rows. simpl. f_equal.
  - f_equal. rewrite <-(assoc_L (++)). by apply response_slice_spec.
  - specialize (IH (pre ++ seg) plens rlens). rewrite length_app, Hl in IH.
    rewrite <-!(assoc_L (++)) in *. apply IH; [simpl in *; lia | simpl in *; lia|].
    intros i. apply (Hall (S i)).
Qed.

Lemma offsets_from_last acc lens : lens ≠ [] → last (offsets_from acc lens) = Some (acc + nsum lens).
Proof.
  revert acc. induction lens as [|n lens IH]; intros acc H; [done|]. simpl.
  destruct lens as [|m lens]; [simpl; f_equal; lia|].
  change (last (offsets_from (acc + n) (m :: lens)) = Some (acc + (n + nsum (m :: lens)))).
  rewrite IH by done. f_equal. lia.
Qed.

Lemma slice_responses_spec {A} (zero : A) max segs plens rlens :
  segs ≠ [] → length plens = length segs → length rlens = length segs →
  (∀ i seg p r, segs !! i = Some seg → plens !! i = Some p → rlens !! i = Some r →
     length seg = p + r ∧ 0 < p) →
  slice_responses zero max (concat segs) plens rlens =
    Ok (zip_with (λ seg pr, pad_row zero max (take pr.2 (drop (pr.1 - 1) seg))) segs (zip plens rlens)).
Proof.
  intros Hne H1 H2 Hall. unfold slice_responses.
  rewrite offsets_from_last by (by destruct segs, plens, rlens). simpl.
  assert (nsum (zip_with Nat.add plens rlens) = length (concat segs)) as ->.
  { rewrite length_concat_nsum. clear Hne. revert plens rlens H1 H2 Hall.
    induction segs as [|seg segs IH]; intros [|p plens] [|r rlens] H1 H2 Hall; try done.
    csimpl. destruct (Hall 0 seg p r eq_refl eq_refl eq_refl) as [-> _].
    rewrite (IH plens rlens); [done | simpl in *; lia | simpl in *; lia | intros i; apply (Hall (S i))]. }
  rewrite Nat.eqb_refl.
  assert (existsb (λ n, Nat.eqb n 0) plens = false) as ->.
  { apply not_true_iff_false. rewrite existsb_exists. intros (p & Hin & Hp).
    apply list_elem_of_In, list_elem_of_lookup in Hin as [i Hi]. apply Nat.eqb_eq in Hp. subst p.
    destruct (lookup_lt_is_Some_2 segs i) as [seg Hseg]; [rewrite <-H1; by eapply lookup_lt_Some|].
    destruct (lookup_lt_is_Some_2 rlens i) as [r Hr]; [rewrite H2, <-H1; by eapply lookup_lt_Some|].
    destruct (Hall i seg 0 r Hseg Hi Hr). lia. }
  simpl. f_equal. pose proof (response_rows_spec zero max [] segs plens rlens []) as Hr.
  simpl in Hr. rewrite app_nil_r in Hr. by apply Hr.
Qed.

(** A right-padded response mask: some real tokens, then padding. *)
Definition right_padded (row : list bool) : Prop := ∃ r pad, row = repeat true r ++ repeat false pad.

Lemma right_padded_count_take row j :
  right_padded row → row !! j = Some true → count (take j row) = j ∧ j < count row.
Proof.
  intros (r & pad & ->) Hj.
  assert (j < r) as Hlt.
  { destruct (decide (j < r)) as [|Hge]; [done|]. rewrite lookup_app_r in Hj by (rewrite repeat_length; lia).
    apply list_elem_of_lookup_2, list_elem_of_In, repeat_spec in Hj. done. }
  split; [|rewrite count_app, count_repeat_true; lia].
  rewrite take_app_le by (rewrite repeat_length; lia).
  assert (take j (repeat true r) = repeat true j) as ->; [|apply count_repeat_true].
  clear -Hlt. revert r Hlt. induction j as [|j IH]; intros [|r] H; simpl; try done; try lia.
  f_equal. apply IH. lia.
Qed.

Lemma right_padded_false row j : right_padded row → row !! j = Some false → count row ≤ j.
Proof.
  intros (r & pad & ->) Hj. rewrite count_app, count_repeat_true, count_repeat_false.
  destruct (decide (j < r)) as [Hlt|]; [|lia].
  rewrite lookup_app_l, lookup_repeat in Hj by (rewrite ?repeat_length; lia). done.
Qed.

Lemma left_padded_count_pred row :
  left_padded row → count (take (length row - 1) row) = count row - 1 ∧ 0 < count row.
Proof.
  intros Hl. pose proof (left_padded_last _ Hl) as [Hlast Hne]. destruct Hl as (pad & n & ->).
  revert Hlast. change (repeat true (S n)) with (true :: repeat true n). rewrite repeat_cons, (assoc_L (++)).
  intros _. rewrite length_app. simpl. rewrite Nat.add_sub, take_app_length.
  rewrite !count_app, count_repeat_false, count_repeat_true. unfold count. simpl. lia.
Qed.

(** One sample: the sliced response row of the compacted model output holds, for each
    real response token, the output at the position right before it. *)
Lemma sliced_row {A} (zero : A) (pm rm : list bool) (full : list A) t (m : bool) :
  left_padded pm → right_padded rm → length full = length pm + length rm →
  rm !! t = Some m →
  pad_row zero (length rm) (take (count rm) (drop (count pm - 1) (select (pm ++ rm) full))) !! t =
    if m then full !! (length pm + t - 1) else Some zero.
Proof.
  intros Hp Hr Hl Ht. pose proof (left_padded_count_pred _ Hp) as [Hcp Hpos].
  assert (count rm ≤ length rm) as Hle by apply count_le.
  assert (length (take (count rm) (drop (count pm - 1) (select (pm ++ rm) full))) = count rm) as Hlen.
  { rewrite length_take, length_drop, select_length by (rewrite length_app; lia). rewrite count_app. lia. }
  assert (t < length rm) as Htl by (by eapply lookup_lt_Some).
  unfold pad_row. rewrite take_ge by lia. destruct m.
  - destruct (right_padded_count_take _ _ Hr Ht) as [Hct Hlt].
    rewrite lookup_app_l by lia. rewrite lookup_take_lt by done. rewrite lookup_drop.
    assert ((pm ++ rm) !! (length pm + t - 1) = Some true ∧
      count (take (length pm + t - 1) (pm ++ rm)) = count pm - 1 + t) as [Hm Hc].
    { destruct pm as [|b pm'] eqn:Epm; [by destruct (left_padded_last _ Hp)|]. rewrite <-Epm in *.
      assert (0 < length pm) by (rewrite Epm; simpl; lia).
      destruct t as [|t].
      - rewrite Nat.add_0_r, Nat.add_0_r, lookup_app_l, take_app_le by lia. split; [|done].
        replace (length pm - 1) with (pred (length pm)) by lia. by apply left_padded_last.
      - replace (length pm + S t - 1) with (length pm + t) by lia.
        rewrite lookup_app_r, Nat.add_comm, Nat.add_sub by lia.
        assert (rm !! t = Some true) as Ht'.
        { destruct Hr as (r & pad & Erm).
          rewrite Erm, count_app, count_repeat_true, count_repeat_false in Hlt.
          rewrite Erm, lookup_app_l by (rewrite repeat_length; lia). apply lookup_repeat. lia. }
        split; [done|]. rewrite Nat.add_comm, take_app_add, count_app.
        assert (right_padded rm) as Hr' by done.
        destruct (right_padded_count_take _ _ Hr' Ht') as [-> _]. lia. }
    rewrite <-Hc. apply select_lookup; [rewrite length_app; lia | done].
  - pose proof (right_padded_false _ _ Hr Ht). rewrite lookup_app_r by lia. apply lookup_repeat. lia.
Qed.

(** ** Properties *)

(** Padding and unpadding are inverse on real tokens: scattering what [unpad_input]
    gathered, at the indices it reports, gives back every real entry in place and zero
    at every masked one. *)
Theorem unpad_pad_roundtrip {A} (zero : A) w (hidden : tensor A) mask :
  rectangular w mask → shape mask = shape hidden → mask ≠ [] →
  ∃ u, unpad_input hidden mask = Ok u ∧
    pad_input zero (up_values u) (up_indices u) (length mask) w =
      Ok (tzip (λ (m : bool) x, if m then x else zero) mask hidden).
Proof.
  intros Hw Hs Hne. destruct (unpad_input_spec hidden mask Hs Hne) as (u & Hu & Hv & Hi & _).
  exists u. split; [done|]. unfold pad_input, index_put_first_axis. rewrite Hv, Hi.
  assert (length mask * w = length (concat mask)) as Hlen.
  { clear -Hw. induction Hw as [|r mask Hr _ IH]; simpl; [done|]. rewrite length_app, <-IH. lia. }
  assert (length (concat mask) = length (concat hidden)) as Hch by (by apply shape_concat_length).
  rewrite <-concat_select, select_length, nonzero_from_length, Nat.eqb_refl by done. simpl.
  assert (forallb (λ i, Nat.ltb i (length mask * w)) (nonzero_from 0 (concat mask)) = true) as ->.
  { apply forallb_Forall. eapply Forall_impl; [apply nonzero_from_bound|].
    intros i Hlt. simpl in Hlt. apply Nat.ltb_lt. lia. }
  simpl. rewrite Hlen. pose proof (put_all_select zero [] (concat mask) (concat hidden) Hch) as Hp.
  simpl in Hp. rewrite Hp, concat_zip_with by done. f_equal.
  assert (rectangular w (tzip (λ (m : bool) x, if m then x else zero) mask hidden) ∧
    length (tzip (λ (m : bool) x, if m then x else zero) mask hidden) = length mask) as [Hrect Hl].
  { clear -Hw Hs. unfold tzip, shape in *. revert hidden Hs. induction Hw as [|r mask Hr Hw IH]; intros [|h hidden] H; try discriminate;
      [by split; [constructor|]|].
    csimpl in H. injection H as Hl H. destruct (IH hidden H) as [IH1 IH2]. simpl. split; [|by rewrite IH2].
    constructor; [|exact IH1]. rewrite length_zip_with. lia. }
  rewrite <-Hl at 1. by apply reshape_concat.
Qed.

(** The padding-free log-probability path agrees with the scorer.  For a left-padded
    prompt and a right-padded response mask, converting a batch to padding-free rows,
    evaluating any per-position quantity on the real tokens and slicing the responses
    back gives, for every real response token [t], the value at position [w - 1 + t]
    (the very position [build_causal_score_inputs] reads), and zero on padding. *)
Theorem response_slice_aligned {A} (zero : A) w T (pms rms : tensor bool) (full : tensor A) nd :
  rectangular w pms → Forall left_padded pms → rectangular T rms → Forall right_padded rms →
  length pms = length rms → pms ≠ [] →
  rectangular (w + T) full → length full = length pms →
  nd_attention_mask nd = cat1 pms rms → twidth (nd_prompts nd) = w → twidth (nd_responses nd) = T →
  ∃ out, no_padding_2_padding zero (concat (zip_with select (cat1 pms rms) full)) nd = Ok out ∧
    ∀ i t m, tget rms i t = Some m →
      tget out i t = if m then tget full i (w + t - 1) else Some zero.
Proof.
  intros Hw Hlp HT Hrp Hl Hne Hf Hlf Hmask Hpw HTw. unfold no_padding_2_padding. rewrite Hmask, Hpw, HTw.
  assert (map (λ row, count (take w row)) (cat1 pms rms) = map count pms) as ->.
  { clear -Hw Hl. unfold cat1. revert rms Hl. induction Hw as [|r pms Hr _ IH]; intros [|s rms] H; try done.
    simpl. f_equal; [f_equal; rewrite <-Hr; apply take_app_length | apply IH; simpl in H; lia]. }
  assert (map (λ row, count (drop w row)) (cat1 pms rms) = map count rms) as ->.
  { clear -Hw Hl. unfold cat1. revert rms Hl. induction Hw as [|r pms Hr _ IH]; intros [|s rms] H; try done.
    simpl. f_equal; [f_equal; rewrite <-Hr; apply drop_app_length | apply IH; simpl in H; lia]. }
  assert (Hseg : ∀ i pm rm fr, pms !! i = Some pm → rms !! i = Some rm → full !! i = Some fr →
    length fr = length pm + length rm ∧ left_padded pm ∧ right_padded rm ∧ length rm = T ∧ length pm = w).
  { intros i pm rm fr Hpm Hrm Hfr.
    pose proof (Forall_lookup_1 _ _ _ _ Hw Hpm). pose proof (Forall_lookup_1 _ _ _ _ HT Hrm).
    pose proof (Forall_lookup_1 _ _ _ _ Hf Hfr). pose proof (Forall_lookup_1 _ _ _ _ Hlp Hpm).
    pose proof (Forall_lookup_1 _ _ _ _ Hrp Hrm). simpl in *. repeat split; done || lia. }
  rewrite slice_responses_spec.
  - eexists. split; [done|]. intros i t m Hm. unfold tget in Hm. apply bind_Some in Hm as (rm & Hrm & Ht).
    destruct (lookup_lt_is_Some_2 pms i) as [pm Hpm]; [rewrite Hl; by eapply lookup_lt_Some|].
    destruct (lookup_lt_is_Some_2 full i) as [fr Hfr]; [rewrite Hlf; by eapply lookup_lt_Some|].
    destruct (Hseg i pm rm fr Hpm Hrm Hfr) as (Hlen & Hl1 & Hr1 & HlT & Hlw).
    unfold tget, cat1. rewrite !lookup_zip_with, Hpm, Hrm, Hfr. simpl.
    change (map count) with (fmap (M := list) count). rewrite !list_lookup_fmap, Hpm, Hrm.
    simpl. rewrite <-HlT, <-Hlw. by apply sliced_row.
  - unfold cat1. intros Hz. apply (f_equal length) in Hz. rewrite !length_zip_with in Hz.
    assert (0 < length pms) by (destruct pms; [done | simpl; lia]). change (length []) with 0 in Hz. lia.
  - unfold cat1. rewrite length_map, !length_zip_with. lia.
  - unfold cat1. rewrite length_map, !length_zip_with. lia.
  - intros i seg p r Hs Hp Hr. change (map count) with (fmap (M := list) count) in Hp, Hr.
    rewrite list_lookup_fmap in Hp, Hr.
    apply fmap_Some in Hp as (pm & Hpm & ->). apply fmap_Some in Hr as (rm & Hrm & ->).
    destruct (lookup_lt_is_Some_2 full i) as [fr Hfr]; [rewrite Hlf; by eapply lookup_lt_Some|].
    destruct (Hseg i pm rm fr Hpm Hrm Hfr) as (Hlen & Hl1 & _).
    unfold cat1 in Hs. rewrite !lookup_zip_with, Hpm, Hrm, Hfr in Hs. simpl in Hs. injection Hs as <-.
    rewrite select_length by (rewrite length_app; lia). rewrite count_app.
    split; [done|]. by apply left_padded_count_pred.
Qed.

Definition sample_padded : padded_data := {|
  d_input_ids := [[0; 7; 4; 5]; [8; 9; 6; 0]]%Z;
  d_attention_mask := [[false; true; true; true]; [true; true; true; false]];
  d_response_mask := [[true; true]; [true; false]];
  d_position_ids := [[0; 0; 1; 2]; [0; 1; 2; 2]]%Z;
  d_prompts := [[0; 7]; [8; 9]]%Z; d_responses := [[4; 5]; [6; 0]]%Z |}.

Lemma unpad_pad_roundtrip_witness :
  ∃ u, unpad_input (d_input_ids sample_padded) (d_attention_mask sample_padded) = Ok u ∧
    up_values u = [7; 4; 5; 8; 9; 6]%Z ∧
    pad_input 0%Z (up_values u) (up_indices u) 2 4 = Ok [[0; 7; 4; 5]; [8; 9; 6; 0]]%Z.
Proof.
  destruct (unpad_pad_roundtrip 0%Z 4 (d_input_ids sample_padded) (d_attention_mask sample_padded))
    as (u & Hu & Hp); [repeat constructor | reflexivity | discriminate |].
  exists u. split; [exact Hu|]. split; [|exact Hp]. vm_compute in Hu. injection Hu as <-. reflexivity.
Defined.

Definition sample_nested : nested_data := {|
  nd_input_ids := nested_of_rows [[7; 4; 5]; [8; 9; 6]]%Z;
  nd_position_ids := nested_of_rows [[0; 1; 2]; [0; 1; 2]]%Z;
  nd_loss_mask := d_response_mask sample_padded;
  nd_attention_mask := d_attention_mask sample_padded; nd_indices := [1; 2; 3; 4; 5; 6];
  nd_max_seq_len := 4; nd_max_response_len := 2;
  nd_prompts := d_prompts sample_padded; nd_responses := d_responses sample_padded |}.

Lemma response_slice_aligned_witness :
  left_right_2_no_padding sample_padded = Ok sample_nested ∧
  ∃ out, no_padding_2_padding 0%Z [10; 11; 12; 20; 21; 22]%Z sample_nested = Ok out ∧
    tget out 0 1 = Some 11%Z ∧ tget out 1 0 = Some 21%Z ∧ tget out 1 1 = Some 0%Z.
Proof.
  split; [vm_compute; reflexivity|].
  destruct (response_slice_aligned 0%Z 2 2 [[false; true]; [true; true]] [[true; true]; [true; false]]
    [[99; 10; 11; 12]; [20; 21; 22; 99]]%Z sample_nested) as (out & Hout & Hal).
  - repeat constructor.
  - repeat constructor; [by exists 1, 0 | by exists 0, 1].
  - repeat constructor.
  - repeat constructor; [by exists 2, 0 | by exists 1, 1].
  - reflexivity.
  - discriminate.
  - repeat constructor.
  - reflexivity.
  - reflexivity.
  - reflexivity.
  - reflexivity.
  - exists out. split; [exact Hout|].
    split; [exact (Hal 0 1 true eq_refl)|]. split; [exact (Hal 1 0 true eq_refl) | exact (Hal 1 1 false eq_refl)].
Defined.

(** With a gap in the response mask the slices shift.  Masking the second of three
    response tokens (as multi-turn rollouts mask tool output) compacts the sample, and
    the value of the third token lands in the second column while the third column
    becomes padding. *)
Theorem response_gap_shifts_values :
  let masks := cat1 [[true]] [[true; false; true]] in
  let data := {| d_input_ids := [[7; 4; 5; 6]]%Z; d_attention_mask := masks;
                 d_response_mask := [[true; false; true]]; d_position_ids := [[0; 1; 1; 2]]%Z;
                 d_prompts := [[7]]%Z; d_responses := [[4; 5; 6]]%Z |} in
  ∃ nd, left_right_2_no_padding data = Ok nd ∧
    no_padding_2_padding 0%Z (concat (zip_with select masks [[104; 105; 106; 107]]%Z)) nd =
      Ok [[104; 105; 0]]%Z.
Proof. eexists. split; vm_compute; reflexivity. Qed.
