(* ===== verification/TrainerHook.v ===== *)
(** * The trainer hook: [src/verl/trainer/extpi_rlsd/trainer.py], lines 342-672

    What [ExtPIRLSDRayPPOTrainer] does between the advantage computation and the actor
    update, with [_compute_ref_log_prob] of [src/verl/trainer/ppo/ray_trainer.py].  The
    configuration sections are dicts; the remote worker groups, the loading of the
    external teacher and the GPU and clock readings are parameters.  Metrics, batch and
    trainer attributes are mutated in place: the hook runs in a state and error monad. *)

From S2P Require Import Prelude PyStr Json PromptAssembly Rlsd Scorer TeacherBatch Padding.
From Stdlib Require Import Reals Lra QArith Qreals Qminmax.
Local Close Scope Q_scope.
Local Open Scope py_scope.

(** ** The RLSD weight schedule *)

Definition effective_lambda_at (target_lambda : Q) (warmup_steps decay_steps step : Z) : Q :=
  if Z.ltb 0 warmup_steps && Z.ltb step warmup_steps then
    (target_lambda * (inject_Z step / inject_Z warmup_steps))%Q
  else if Z.ltb 0 decay_steps && Z.leb warmup_steps step then
    (target_lambda * Qmax (1 - inject_Z (step - warmup_steps) / inject_Z decay_steps) 0)%Q
  else target_lambda.

Definition compute_effective_rlsd_lambda `{PyPrims} (policy_loss : dict) (global_steps : Z) : result Q :=
  target_lambda ← py_float (get_default "rlsd_lambda" (JFloat (1 # 2)) policy_loss);
  warmup_steps ← py_int (get_default "rlsd_lambda_warmup_steps" (JInt 0) policy_loss);
  decay_steps ← py_int (get_default "rlsd_lambda_decay_steps" (JInt 0) policy_loss);
  require Z.leb 0 warmup_steps
    else ValueError "actor.policy_loss.rlsd_lambda_warmup_steps must be non-negative" ;;
  require Z.leb 0 decay_steps
    else ValueError "actor.policy_loss.rlsd_lambda_decay_steps must be non-negative" ;;
  Ok (effective_lambda_at target_lambda warmup_steps decay_steps global_steps).

(** ** Workers, devices and the state of the hook *)

Record call_meta := { cm_temperature : R; cm_no_lora_adapter : bool; cm_adapter : option string }.

(** The remote worker groups: log probabilities of the real tokens of a padding-free
    batch, and the adapter copy. *)
Class Workers (W : Type) := {
  wg_compute_log_prob : nested_data → call_meta → W → result (list fnum) * W;
  wg_compute_ref_log_prob : nested_data → call_meta → W → result (list fnum) * W;
  wg_sync_teacher_snapshot : string → string → W → result unit * W }.

(** [float] readings of the clock and of the CUDA allocator around one scoring pass. *)
Record readings := {
  rd_load_before : R; rd_load_after : R; rd_score_time : R;
  rd_max_allocated : R; rd_allocated : R; rd_reserved : R }.

Record trainer_config := {
  policy_loss : dict; extpi_rlsd : dict; rollout_n : json; rollout_temperature : R;
  data_max_prompt_length : json; model_extpi_teacher_adapter : json;
  ref_in_actor : bool; global_steps : Z }.

Record hook_batch := {
  hb_source : source_batch;
  hb_old_log_probs : option (tensor fnum);
  hb_token_level_scores : option (tensor R);
  hb_uid : option (list json);
  hb_teacher_opd_log_probs : option (tensor fnum);
  hb_teacher_pi_log_probs : option (tensor fnum);
  hb_rlsd_token_mask : option (tensor Z);
  hb_rlsd_effective_lambda : option Q }.

Record hook_state (W Mo : Type) := {
  hs_workers : W;
  hs_last_sync : option Z;
  hs_scorer : option Mo;
  hs_load_gb : option R;
  hs_metrics : metrics;
  hs_batch : hook_batch }.
Arguments hs_workers {_ _} _. Arguments hs_last_sync {_ _} _. Arguments hs_scorer {_ _} _.
Arguments hs_load_gb {_ _} _. Arguments hs_metrics {_ _} _. Arguments hs_batch {_ _} _.

Definition snapshot_adapter : string := "extpi_teacher".

Section hook.
Context {W Mo : Type} `{Workers W} `{CausalModel Mo} `{PyPrims} `{PromptTokenizer}.
Abbreviation hook := (stateR (hook_state W Mo)).

Definition set_workers (w : W) (s : hook_state W Mo) : hook_state W Mo :=
  {| hs_workers := w; hs_last_sync := hs_last_sync s; hs_scorer := hs_scorer s;
     hs_load_gb := hs_load_gb s; hs_metrics := hs_metrics s; hs_batch := hs_batch s |}.
Definition set_last_sync (z : Z) (s : hook_state W Mo) : hook_state W Mo :=
  {| hs_workers := hs_workers s; hs_last_sync := Some z; hs_scorer := hs_scorer s;
     hs_load_gb := hs_load_gb s; hs_metrics := hs_metrics s; hs_batch := hs_batch s |}.
Definition set_scorer (m : Mo) (s : hook_state W Mo) : hook_state W Mo :=
  {| hs_workers := hs_workers s; hs_last_sync := hs_last_sync s; hs_scorer := Some m;
     hs_load_gb := hs_load_gb s; hs_metrics := hs_metrics s; hs_batch := hs_batch s |}.
Definition set_load_gb (r : R) (s : hook_state W Mo) : hook_state W Mo :=
  {| hs_workers := hs_workers s; hs_last_sync := hs_last_sync s; hs_scorer := hs_scorer s;
     hs_load_gb := Some r; hs_metrics := hs_metrics s; hs_batch := hs_batch s |}.
Definition add_metrics (m : list (string * fnum)) (s : hook_state W Mo) : hook_state W Mo :=
  {| hs_workers := hs_workers s; hs_last_sync := hs_last_sync s; hs_scorer := hs_scorer s;
     hs_load_gb := hs_load_gb s; hs_metrics := metrics_update (list_to_map m) (hs_metrics s);
     hs_batch := hs_batch s |}.
Definition update_batch (f : hook_batch → hook_batch) (s : hook_state W Mo) : hook_state W Mo :=
  {| hs_workers := hs_workers s; hs_last_sync := hs_last_sync s; hs_scorer := hs_scorer s;
     hs_load_gb := hs_load_gb s; hs_metrics := hs_metrics s; hs_batch := f (hs_batch s) |}.

Definition call_workers {A} (f : W → result A * W) : hook A :=
  λ s, let '(r, w) := f (hs_workers s) in (r, set_workers w s).

(** ** Log probabilities from the workers *)

(** [DataProto.to_tensordict]: the score batch seen by the padding conversion. *)
Definition padded_of (b : score_batch) : padded_data := {|
  d_input_ids := b_input_ids b; d_attention_mask := tmap to_bool (b_attention_mask b);
  d_response_mask := tmap to_bool (b_response_mask b); d_position_ids := b_position_ids b;
  d_prompts := b_prompts b; d_responses := b_responses b |}.

Definition compute_actor_log_prob (c : trainer_config) (b : score_batch)
    (no_lora_adapter : bool) (lora_adapter_name : option string) : hook (tensor fnum) :=
  if no_lora_adapter && (if lora_adapter_name is Some _ then true else false) then
    lift (Raise (ValueError "no_lora_adapter and lora_adapter_name are mutually exclusive"))
  else
    batch_td ← lift (left_right_2_no_padding (padded_of b));
    log_probs ← call_workers (wg_compute_log_prob batch_td
      {| cm_temperature := rollout_temperature c; cm_no_lora_adapter := no_lora_adapter;
         cm_adapter := lora_adapter_name |});
    lift (no_padding_2_padding (Fin 0) log_probs batch_td).

Definition compute_ref_log_prob (c : trainer_config) (b : score_batch) : hook (tensor fnum) :=
  batch_td ← lift (left_right_2_no_padding (padded_of b));
  let meta := {| cm_temperature := rollout_temperature c; cm_no_lora_adapter := ref_in_actor c;
                 cm_adapter := None |} in
  log_probs ← (if ref_in_actor c then call_workers (wg_compute_log_prob batch_td meta)
               else call_workers (wg_compute_ref_log_prob batch_td meta));
  lift (no_padding_2_padding (Fin 0) log_probs batch_td).

(** ** The teacher snapshot *)

Definition should_sync (last_sync : option Z) (step sync_interval : Z) : bool :=
  match last_sync with None => true | Some l => Z.leb sync_interval (step - l) end.

Definition maybe_sync_teacher_snapshot (c : trainer_config) : hook unit :=
  sync_interval ← lift (py_int (get_default "teacher_sync_interval" (JInt 20) (extpi_rlsd c)));
  if Z.leb sync_interval 0 then
    lift (Raise (ValueError "extpi_rlsd.teacher_sync_interval must be positive for periodic_snapshot"))
  else
    let step := global_steps c in
    last_sync ← gets hs_last_sync;
    let sync := should_sync last_sync step sync_interval in
    _ ← (if sync then
           _ ← call_workers (wg_sync_teacher_snapshot "default" snapshot_adapter);
           modify (set_last_sync step)
         else mret tt);
    last ← gets hs_last_sync;
    modify (add_metrics
      [("extpi/teacher_snapshot_synced", Fin (if sync then 1 else 0)%R);
       ("extpi/teacher_snapshot_step", of_Z (default (-1)%Z last));
       ("extpi/teacher_sync_interval", of_Z sync_interval)]%string).

Definition compute_pi_teacher_log_prob (c : trainer_config) (b : score_batch)
    (teacher_update_mode : string) : hook (tensor fnum) :=
  if bool_decide (teacher_update_mode = "base_no_adapter"%string) then
    if ref_in_actor c then compute_ref_log_prob c b
    else lift (Raise (ValueError "teacher_update_mode=base_no_adapter requires a LoRA actor so the base model is in actor"))
  else if bool_decide (teacher_update_mode = "current_no_grad"%string) then
    compute_actor_log_prob c b false None
  else if bool_decide (teacher_update_mode = "periodic_snapshot"%string) then
    if negb (ref_in_actor c) then
      lift (Raise (ValueError "teacher_update_mode=periodic_snapshot requires a LoRA actor"))
    else if negb (truthy (model_extpi_teacher_adapter c)) then
      lift (Raise (ValueError "teacher_update_mode=periodic_snapshot requires actor_rollout_ref.model.extpi_teacher_adapter=True"))
    else
      _ ← maybe_sync_teacher_snapshot c;
      compute_actor_log_prob c b false (Some snapshot_adapter)
  else lift (Raise (ValueError "extpi_rlsd.teacher_update_mode must be one of base_no_adapter, current_no_grad, periodic_snapshot")).

(** ** Diagnostics *)

Definition need {A} (name : string) (o : option A) : result A := of_option (KeyError name) o.

(** The per-sample score: the masked sum of the token scores. *)
Definition sample_scores (scores : tensor R) (mask : tensor Z) : list R :=
  map rsum (tzip (λ s m, (s * IZR m)%R) scores mask).

Definition response_metrics (response_mask : tensor bool) : result (list (string * fnum)) :=
  require forallb (λ row, negb (Nat.eqb (length row) 0)) response_mask
    else IndexError "index -1 is out of bounds" ;;
  let tokens := of_nat (nsum (map count response_mask)) in
  let mean_of (l : list R) := match l with [] => NonFin | _ => Fin (mean l) end in
  let length_mean := mean_of (map (λ row, INR (count row)) response_mask) in
  let last_ratio := mean_of (map (λ row, b2r (default false (last row))) response_mask) in
  Ok [("train/step_student_tokens", tokens);
      ("train/response_length_mean", length_mean);
      ("train/truncation_proxy_last_token_ratio", last_ratio);
      ("response_length/mean", length_mean);
      ("response_length/clip_ratio", last_ratio)]%string.

Definition add_training_diagnostics (c : trainer_config) : hook unit :=
  batch ← gets hs_batch;
  let mask := sb_response_mask (hb_source batch) in
  _ ← match mask with
      | Some m => ms ← lift (response_metrics (tmap to_bool m)); modify (add_metrics ms)
      | None => mret tt
      end;
  match hb_token_level_scores batch, mask with
  | Some scores, Some m =>
      rollout_n ← lift (py_int (rollout_n c));
      let '(group_metrics, uid_seen, metric_ready) :=
        group_diagnostic_metrics (sample_scores scores m) (hb_uid batch) rollout_n in
      _ ← modify (add_metrics (map_to_list group_metrics));
      if metric_ready then
        modify (add_metrics [("train/group_metrics_uid_based"%string, Fin (if uid_seen then 1 else 0)%R)])
      else mret tt
  | _, _ => mret tt
  end.

(** ** The inline external teacher *)

(** [InlineHFTeacherScorer(...)]: loading a model and its tokenizer by name may fail. *)
Context (load_teacher : dict → result (Mo * tokenizer_info)) (student : tokenizer_info)
        (sha256_hex : string → string) (cuda_available : bool) (rd : readings).

Definition uses_cuda (extpi : dict) : bool :=
  startswith "cuda" (py_str (get_default "direct_opd_teacher_device" (JStr "cuda") extpi)).

Definition get_direct_opd_scorer (extpi : dict) : hook Mo :=
  scorer ← gets hs_scorer;
  match scorer with
  | Some m => mret m
  | None =>
      if negb (truthy (get "direct_opd_teacher_model_path" extpi)) then
        lift (Raise (ValueError "direct_opd_teacher_model_path is required when direct_opd_enabled=True"))
      else if uses_cuda extpi && negb cuda_available then
        lift (Raise (RuntimeError "inline_external_hf requires CUDA visible in the trainer actor."))
      else
        let track := uses_cuda extpi && cuda_available in
        let load_before := if track then rd_load_before rd else 0%R in
        mt ← lift (load_teacher extpi);
        _ ← lift (assert_tokenizer_compatible sha256_hex student mt.2 None);
        let load_after := if track then rd_load_after rd else 0%R in
        _ ← modify (set_load_gb (Rmax 0 (load_after - load_before)));
        _ ← modify (set_scorer mt.1);
        mret mt.1
  end.

(** Scoring of the rows from [start] on, [micro] at a time; fuel bounds the batches. *)
Definition micro_request (b : score_batch) (temp : R) (start micro : nat) : TeacherScoreRequest :=
  let prefix_width := twidth (b_prompts b) in
  {| prompt_input_ids := slice start (start + micro) (b_prompts b);
     prompt_attention_mask := map (take prefix_width) (slice start (start + micro) (b_attention_mask b));
     response_ids := slice start (start + micro) (b_responses b);
     response_mask := slice start (start + micro) (b_response_mask b);
     temperature := temp |}.

Fixpoint score_micro_batches (fuel : nat) (b : score_batch) (temp : R) (start micro : nat) (m : Mo)
    : result (list (tensor R)) * Mo :=
  match fuel with
  | 0 => (Ok [], m)
  | S fuel =>
      if Nat.leb (length (b_responses b)) start then (Ok [], m)
      else
        match score tok_pad_token_id false (micro_request b temp start micro) m with
        | (Raise e, m) => (Raise e, m)
        | (Ok out, m) =>
            let '(rest, m) := score_micro_batches fuel b temp (start + micro) micro m in
            (cons (response_log_probs out) <$> rest, m)
        end
  end.

Definition score_direct_opd_inline (extpi : dict) (b : score_batch) : hook (tensor fnum) :=
  scorer ← get_direct_opd_scorer extpi;
  micro_batch_size ← lift (py_int (get_default "direct_opd_teacher_micro_batch_size" (JInt 1) extpi));
  if Z.eqb micro_batch_size 0 then lift (Raise (ValueError "range() arg 3 must not be zero"))
  else
    let total := if Z.ltb 0 micro_batch_size then length (b_responses b) else 0 in
    temp ← lift (if Nat.eqb total 0 then Ok 1%Q
                 else py_float (get_default "direct_opd_teacher_temperature" (JFloat 1) extpi));
    let '(outputs, scorer) :=
      score_micro_batches total b (Q2R temp) 0 (Z.to_nat micro_batch_size) scorer in
    _ ← modify (set_scorer scorer);
    outputs ← lift outputs;
    match outputs with
    | [] => lift (Raise (RuntimeError "torch.cat(): expected a non-empty list of Tensors"))
    | _ => mret (tmap Fin (concat outputs))
    end.

(** ** The hook *)

(** [verl.utils.torch_functional.masked_mean] over all elements. *)
Definition tf_masked_mean (values : tensor fnum) (mask : tensor bool) : fnum :=
  let valid_values := tzip (λ m v, if (m : bool) then v else Fin 0) mask values in
  f1 (λ s, s / (mask_sum mask + / 100000000))%R (fsum (map fsum (tzip (f2 Rmult) valid_values (tmap b2f mask)))).

Definition masked_log_probs (lps : tensor fnum) (mask : tensor Z) : tensor fnum :=
  tzip (λ lp m, f2 Rmult lp (of_Z m)) lps mask.

Definition set_teacher_opd (t : tensor fnum) (b : hook_batch) : hook_batch :=
  {| hb_source := hb_source b; hb_old_log_probs := hb_old_log_probs b;
     hb_token_level_scores := hb_token_level_scores b; hb_uid := hb_uid b;
     hb_teacher_opd_log_probs := Some t; hb_teacher_pi_log_probs := hb_teacher_pi_log_probs b;
     hb_rlsd_token_mask := hb_rlsd_token_mask b; hb_rlsd_effective_lambda := hb_rlsd_effective_lambda b |}.
Definition set_teacher_pi (t : tensor fnum) (b : hook_batch) : hook_batch :=
  {| hb_source := hb_source b; hb_old_log_probs := hb_old_log_probs b;
     hb_token_level_scores := hb_token_level_scores b; hb_uid := hb_uid b;
     hb_teacher_opd_log_probs := hb_teacher_opd_log_probs b; hb_teacher_pi_log_probs := Some t;
     hb_rlsd_token_mask := hb_rlsd_token_mask b; hb_rlsd_effective_lambda := hb_rlsd_effective_lambda b |}.
Definition set_token_mask (t : tensor Z) (b : hook_batch) : hook_batch :=
  {| hb_source := hb_source b; hb_old_log_probs := hb_old_log_probs b;
     hb_token_level_scores := hb_token_level_scores b; hb_uid := hb_uid b;
     hb_teacher_opd_log_probs := hb_teacher_opd_log_probs b; hb_teacher_pi_log_probs := hb_teacher_pi_log_probs b;
     hb_rlsd_token_mask := Some t; hb_rlsd_effective_lambda := hb_rlsd_effective_lambda b |}.
Definition set_effective_lambda (q : Q) (b : hook_batch) : hook_batch :=
  {| hb_source := hb_source b; hb_old_log_probs := hb_old_log_probs b;
     hb_token_level_scores := hb_token_level_scores b; hb_uid := hb_uid b;
     hb_teacher_opd_log_probs := hb_teacher_opd_log_probs b; hb_teacher_pi_log_probs := hb_teacher_pi_log_probs b;
     hb_rlsd_token_mask := hb_rlsd_token_mask b; hb_rlsd_effective_lambda := Some q |}.

(** [int(extpi_config.get("teacher_max_prompt_length", self.config.data.max_prompt_length))];
    the builder takes a natural number, and torch refuses a negative width. *)
Definition prompt_limit (c : trainer_config) : result nat :=
  limit ← py_int (get_default "teacher_max_prompt_length" (data_max_prompt_length c) (extpi_rlsd c));
  require Z.leb 0 limit else RuntimeError "Trying to create tensor with negative dimension" ;;
  Ok (Z.to_nat limit).

Definition metric (k : string) (m : metrics) : result fnum := of_option (KeyError k) (m !! k).

Definition direct_opd_update (c : trainer_config) : hook unit :=
  let extpi := extpi_rlsd c in
  let backend := get_default "direct_opd_teacher_backend" (JStr "inline_external_hf") extpi in
  if is_str backend "inline_external_hf" then
      limit ← lift (py_int (get_default "direct_opd_teacher_max_prompt_length"
                              (data_max_prompt_length c) extpi));
      batch ← gets hs_batch;
      build ← lift (build_direct_opd_teacher_score_batch (hb_source batch) (Z.to_nat limit)
                 (truthy (get_default "direct_opd_teacher_thinking" (JBool false) extpi)));
      teacher_log_probs ← score_direct_opd_inline extpi (build_batch build);
      response_mask ← lift (need "response_mask" (sb_response_mask (hb_source batch)));
      old_log_probs ← lift (need "old_log_probs" (hb_old_log_probs batch));
      if negb (bool_decide (shape teacher_log_probs = shape response_mask)) then
        lift (Raise (ValueError "teacher_opd_log_probs shape mismatch"))
      else
        let mask := tmap to_bool response_mask in
        _ ← modify (update_batch (set_teacher_opd (masked_log_probs teacher_log_probs response_mask)));
        _ ← modify (add_metrics (map_to_list (build_metrics build)));
        tokens ← lift (metric "opd/teacher_response_tokens" (build_metrics build));
        load_gb ← gets hs_load_gb;
        let on_cuda r := if uses_cuda extpi && cuda_available then r else 0%R in
        modify (add_metrics
          [("train/step_teacher_tokens", tokens);
           ("opd/teacher_logp_mean", tf_masked_mean teacher_log_probs mask);
           ("opd/teacher_delta_mean",
             tf_masked_mean (tzip (f2 Rminus) teacher_log_probs old_log_probs) mask);
           ("opd/inline_teacher_load_gb", Fin (default 0%R load_gb));
           ("opd/inline_teacher_score_time", Fin (rd_score_time rd));
           ("opd/inline_teacher_max_memory_allocated_gb", Fin (on_cuda (rd_max_allocated rd)));
           ("opd/inline_teacher_memory_allocated_gb", Fin (on_cuda (rd_allocated rd)));
           ("opd/inline_teacher_memory_reserved_gb", Fin (on_cuda (rd_reserved rd)))]%string)
  else lift (Raise (NotImplementedError "Direct OPD-PG MVP only supports direct_opd_teacher_backend=inline_external_hf")).

Definition rlsd_update (c : trainer_config) : hook unit :=
  let extpi := extpi_rlsd c in
  effective_lambda ← lift (compute_effective_rlsd_lambda (policy_loss c) (global_steps c));
  _ ← modify (update_batch (set_effective_lambda effective_lambda));
  _ ← modify (add_metrics [("rlsd/effective_lambda"%string, Fin (Q2R effective_lambda))]);
  batch ← gets hs_batch;
  response_mask ← lift (need "response_mask" (sb_response_mask (hb_source batch)));
  token_mask ← lift (build_rlsd_token_mask response_mask
      (py_str (get_default "rlsd_token_mask" (JStr "all") (policy_loss c))));
  _ ← modify (update_batch (set_token_mask token_mask));
  _ ← modify (add_metrics [("rlsd/token_mask_ratio"%string,
        Fin (IZR (tensor_sum token_mask) / IZR (Z.max (tensor_sum response_mask) 1)))]);
  let teacher_update_mode := lower (py_str (get_default "teacher_update_mode" (JStr "base_no_adapter") extpi)) in
  limit ← lift (prompt_limit c);
  let pi_trace_field := py_str (get_default "pi_trace_field" (JStr DEFAULT_PI_TRACE_FIELD) extpi) in
  build ← lift (build_pi_teacher_score_batch (hb_source batch) limit
     (truthy (get_default "allow_teacher_prompt_truncation" (JBool true) extpi))
     (truthy (get_default "online_teacher_thinking" (JBool false) extpi)) pi_trace_field);
  teacher_log_probs ← compute_pi_teacher_log_prob c (build_batch build) teacher_update_mode;
  old_log_probs ← lift (need "old_log_probs" (hb_old_log_probs batch));
  if negb (bool_decide (shape teacher_log_probs = shape response_mask)) then
    lift (Raise (ValueError "teacher_pi_log_probs shape mismatch"))
  else
    let mask := tmap to_bool response_mask in
    _ ← modify (update_batch (set_teacher_pi (masked_log_probs teacher_log_probs response_mask)));
    _ ← modify (add_metrics (map_to_list (build_metrics build)));
    tokens_mean ← lift (metric "extpi/pi_teacher_prompt_tokens_mean" (build_metrics build));
    response_tokens ← lift (metric "extpi/pi_teacher_response_tokens" (build_metrics build));
    let prompt_tokens_total := f2 Rmult tokens_mean (of_nat (length response_mask)) in
    modify (add_metrics
      [("extpi/pi_trace_field_is_qwen32b",
         Fin (if bool_decide (pi_trace_field = DEFAULT_PI_TRACE_FIELD) then 1 else 0)%R);
       ("extpi/pi_teacher_prompt_tokens_total", prompt_tokens_total);
       ("train/step_teacher_tokens", f2 Rplus prompt_tokens_total response_tokens);
       ("extpi/teacher_pi_logp_mean", tf_masked_mean teacher_log_probs mask);
       ("extpi/teacher_pi_delta_mean",
         tf_masked_mean (tzip (f2 Rminus) teacher_log_probs old_log_probs) mask)]%string).

Definition before_actor_update (c : trainer_config) : hook unit :=
  let rlsd_enabled := truthy (get_default "rlsd_enabled" (JBool false) (policy_loss c)) in
  let opd_pg_enabled := truthy (get_default "opd_pg_enabled" (JBool false) (policy_loss c)) in
  if rlsd_enabled && opd_pg_enabled then
    lift (Raise (ValueError "RLSD and direct OPD-PG modes are mutually exclusive"))
  else
    _ ← add_training_diagnostics c;
    if opd_pg_enabled then direct_opd_update c
    else if rlsd_enabled then rlsd_update c
    else mret tt.
End hook.

(** ** Lemmas: the schedule *)

Lemma inject_Z_pos b : (0 < b)%Z → (0 < inject_Z b)%Q.
Proof. unfold Qlt. simpl. lia. Qed.
Lemma inject_Z_nonneg b : (0 <= b)%Z → (0 <= inject_Z b)%Q.
Proof. unfold Qle. simpl. lia. Qed.

Lemma Qdiv_Z_bounds (a b : Z) : (0 <= a <= b)%Z → (0 < b)%Z →
  (0 <= inject_Z a / inject_Z b)%Q ∧ (inject_Z a / inject_Z b <= 1)%Q.
Proof.
  intros Ha Hb. assert (0 < inject_Z b)%Q by (by apply inject_Z_pos). split.
  - apply Qle_shift_div_l; [done|]. rewrite Qmult_0_l. apply inject_Z_nonneg. lia.
  - apply Qle_shift_div_r; [done|]. rewrite Qmult_1_l. rewrite <-Zle_Qle. lia.
Qed.

Lemma Qdiv_Z_mono (a a' b : Z) : (a <= a')%Z → (0 < b)%Z →
  (inject_Z a / inject_Z b <= inject_Z a' / inject_Z b)%Q.
Proof.
  intros Ha Hb. apply Qmult_le_compat_r; [by rewrite <-Zle_Qle|].
  apply Qlt_le_weak, Qinv_lt_0_compat. by apply inject_Z_pos.
Qed.

Lemma Qmult_le_l_nonneg (t x y : Q) : (0 <= t)%Q → (x <= y)%Q → (t * x <= t * y)%Q.
Proof. intros Ht Hxy. rewrite !(Qmult_comm t). by apply Qmult_le_compat_r. Qed.

Lemma effective_lambda_at_bounds t w d step :
  (0 <= t)%Q → (0 <= step)%Z → (0 <= effective_lambda_at t w d step)%Q ∧ (effective_lambda_at t w d step <= t)%Q.
Proof.
  intros Ht Hstep. unfold effective_lambda_at.
  assert (∀ x, (0 <= x)%Q → (x <= 1)%Q → (0 <= t * x)%Q ∧ (t * x <= t)%Q) as Hx.
  { intros x H0 H1. split; [by apply Qmult_le_0_compat|].
    rewrite <-(Qmult_1_r t) at 2. by apply Qmult_le_l_nonneg. }
  destruct (Z.ltb_spec 0 w) as [Hw|Hw], (Z.ltb_spec step w) as [Hs|Hs]; simpl andb; cbv iota;
    try (apply Hx; apply Qdiv_Z_bounds; lia).
  all: destruct (Z.ltb_spec 0 d) as [Hd|Hd], (Z.leb_spec w step); simpl andb; cbv iota;
    try (split; [done|apply Qle_refl]).
  all: apply Hx; [apply Q.le_max_r|]; apply Q.max_lub; [|done].
  all: rewrite <-(Qplus_0_r 1) at 2; apply Qplus_le_compat; [apply Qle_refl|].
  all: rewrite <-(Qopp_involutive 0); apply Qopp_le_compat; change (- 0)%Q with 0%Q.
  all: apply Qle_shift_div_l; [by apply inject_Z_pos|]; rewrite Qmult_0_l; apply inject_Z_nonneg; lia.
Qed.

(** ** Properties *)

(** The RLSD weight follows a bounded trapezoid.  For a non-negative target it stays
    between zero and the target at every step, so a target in [0, 1] always gives a
    weight the RLSD configuration accepts; it is zero at step 0 of a warmup, grows until
    the warmup ends, never grows afterwards, equals the target when no decay is
    configured and is zero once the decay steps are over. *)
Theorem effective_lambda_schedule `{PyPrims} policy step t w d :
  py_float (get_default "rlsd_lambda" (JFloat (1 # 2)) policy) = Ok t →
  py_int (get_default "rlsd_lambda_warmup_steps" (JInt 0) policy) = Ok w →
  py_int (get_default "rlsd_lambda_decay_steps" (JInt 0) policy) = Ok d →
  (0 <= w)%Z → (0 <= d)%Z → (0 <= t)%Q → (0 <= step)%Z →
  ∃ q, compute_effective_rlsd_lambda policy step = Ok q ∧ (0 <= q)%Q ∧ (q <= t)%Q ∧
    ((t <= 1)%Q → ∀ clip neg, (0 <= clip < 1)%R →
       validate {| lam := Q2R q; clip_range := clip; negative_only := neg |} = Ok tt) ∧
    ((0 < w)%Z → step = 0%Z → (q == 0)%Q) ∧
    ((w <= step)%Z → d = 0%Z → q = t) ∧
    ((0 < d)%Z → (w + d <= step)%Z → (q == 0)%Q) ∧
    (∀ step' q', (step <= step')%Z → compute_effective_rlsd_lambda policy step' = Ok q' →
       ((step' < w)%Z → (q <= q')%Q) ∧ ((w <= step)%Z → (q' <= q)%Q)).
Proof.
  intros Ht Hw Hd Hw0 Hd0 Ht0 Hstep.
  assert (∀ z, compute_effective_rlsd_lambda policy z = Ok (effective_lambda_at t w d z)) as Hcomp.
  { intros z. unfold compute_effective_rlsd_lambda. rewrite Ht. simpl. rewrite Hw. simpl. rewrite Hd. simpl.
    by rewrite !(proj2 (Z.leb_le _ _)) by done. }
  exists (effective_lambda_at t w d step). destruct (effective_lambda_at_bounds t w d step Ht0 Hstep) as [Hlo Hhi].
  split; [apply Hcomp|]. split; [done|]. split; [done|]. repeat split.
  - intros Ht1 clip neg Hclip. unfold validate, Rleb, Rltb. simpl.
    assert (0 <= Q2R (effective_lambda_at t w d step) <= 1)%R as [HL HU].
    { rewrite <-RMicromega.Q2R_0, <-RMicromega.Q2R_1. split; apply Qle_Rle; [done|]. by eapply Qle_trans. }
    by repeat (destruct Rle_dec; [|lra]); destruct Rlt_dec; [|lra].
  - intros Hw1 ->. unfold effective_lambda_at. rewrite !(proj2 (Z.ltb_lt _ _)) by done. simpl andb. cbv iota.
    change (inject_Z 0) with 0%Q. unfold Qdiv. by rewrite Qmult_0_l, Qmult_0_r.
  - intros Hws ->. unfold effective_lambda_at. rewrite (proj2 (Z.ltb_ge step w)) by done.
    by rewrite andb_false_r.
  - intros Hd1 Hs. unfold effective_lambda_at. rewrite (proj2 (Z.ltb_ge step w)), andb_false_r by lia.
    rewrite (proj2 (Z.ltb_lt 0 d)), (proj2 (Z.leb_le w step)) by lia. simpl andb. cbv iota.
    rewrite Q.max_r; [by rewrite Qmult_0_r|].
    assert (1 <= inject_Z (step - w) / inject_Z d)%Q as H1.
    { apply Qle_shift_div_l; [by apply inject_Z_pos|]. rewrite Qmult_1_l, <-Zle_Qle. lia. }
    apply Qle_minus_iff in H1. apply Qle_minus_iff. eapply Qle_trans; [exact H1|].
    apply Qle_lteq. right. ring.
  - intros Hlt. rewrite Hcomp in H1. injection H1 as <-. unfold effective_lambda_at.
    rewrite (proj2 (Z.ltb_lt 0 w)), (proj2 (Z.ltb_lt step w)), (proj2 (Z.ltb_lt step' w)) by lia.
    simpl andb. cbv iota. apply Qmult_le_l_nonneg; [done|]. apply Qdiv_Z_mono; lia.
  - intros Hws. rewrite Hcomp in H1. injection H1 as <-. unfold effective_lambda_at.
    rewrite (proj2 (Z.ltb_ge step w)), (proj2 (Z.ltb_ge step' w)), !andb_false_r by lia.
    rewrite (proj2 (Z.leb_le w step)), (proj2 (Z.leb_le w step')), !andb_true_r by lia.
    destruct (Z.ltb_spec 0 d) as [Hd1|]; [|apply Qle_refl].
    apply Qmult_le_l_nonneg; [done|]. apply Q.max_le_compat_r.
    apply Qplus_le_compat; [apply Qle_refl|]. apply Qopp_le_compat, Qdiv_Z_mono; lia.
Qed.

(** ** Lemmas: the snapshot *)

Definition at_step (c : trainer_config) (step : Z) : trainer_config :=
  {| policy_loss := policy_loss c; extpi_rlsd := extpi_rlsd c; rollout_n := rollout_n c;
     rollout_temperature := rollout_temperature c; data_max_prompt_length := data_max_prompt_length c;
     model_extpi_teacher_adapter := model_extpi_teacher_adapter c; ref_in_actor := ref_in_actor c;
     global_steps := step |}.

Lemma maybe_sync_spec {W Mo} `{Workers W} `{PyPrims} c (s s' : hook_state W Mo) interval :
  py_int (get_default "teacher_sync_interval" (JInt 20) (extpi_rlsd c)) = Ok interval →
  maybe_sync_teacher_snapshot c s = (Ok tt, s') →
  (0 < interval)%Z ∧
  let sync := should_sync (hs_last_sync s) (global_steps c) interval in
  hs_last_sync s' = (if sync then Some (global_steps c) else hs_last_sync s) ∧
  hs_workers s' = (if sync then (wg_sync_teacher_snapshot "default" snapshot_adapter (hs_workers s)).2
                   else hs_workers s) ∧
  hs_metrics s' !! "extpi/teacher_snapshot_synced"%string = Some (Fin (if sync then 1 else 0)%R).
Proof.
  intros Hint Hrun. unfold maybe_sync_teacher_snapshot in Hrun. rewrite Hint in Hrun.
  apply stateR_bind_Ok in Hrun as (i & s1 & Hi & Hrun). apply lift_Ok in Hi as [[= <-] ->].
  destruct (Z.leb_spec interval 0) as [|Hpos]; [done|]. split; [done|].
  intros sync. apply stateR_bind_Ok in Hrun as (l & s2 & Hl & Hrun). injection Hl as <- <-.
  apply stateR_bind_Ok in Hrun as ([] & s3 & Hsync & Hrun). fold sync in Hsync, Hrun.
  apply stateR_bind_Ok in Hrun as (l & s4 & Hl & Hrun). injection Hl as <- <-. injection Hrun as <-.
  simpl. split; [|split].
  - destruct sync; [|by injection Hsync as <-].
    apply stateR_bind_Ok in Hsync as ([] & s5 & Hc & Hsync). injection Hsync as <-. done.
  - destruct sync; [|by injection Hsync as <-].
    apply stateR_bind_Ok in Hsync as ([] & s5 & Hc & Hsync). injection Hsync as <-. simpl.
    unfold call_workers in Hc. destruct (wg_sync_teacher_snapshot _ _ _) as [r w]. injection Hc as _ <-. done.
  - unfold metrics_update. apply lookup_union_Some_l. by rewrite lookup_insert_eq.
Qed.

(** Training steps [start], [start + 1], ... of a fresh trainer, each of which syncs (or
    not) and then does anything else that keeps the recorded sync step. *)
Inductive sync_run {W Mo} `{Workers W} `{PyPrims} (c : trainer_config) (start : Z) : nat → hook_state W Mo → Prop :=
  | run_first s s' : hs_last_sync s = None →
      maybe_sync_teacher_snapshot (at_step c start) s = (Ok tt, s') → sync_run c start 0 s'
  | run_next k s s1 s' : sync_run c start k s → hs_last_sync s1 = hs_last_sync s →
      maybe_sync_teacher_snapshot (at_step c (start + Z.of_nat (S k))) s1 = (Ok tt, s') →
      sync_run c start (S k) s'.

Lemma period_step (i k : Z) : (0 < i)%Z → (0 <= k)%Z →
  (i <= k + 1 - i * (k / i) → i * ((k + 1) / i) = k + 1)%Z ∧
  (k + 1 - i * (k / i) < i → i * ((k + 1) / i) = i * (k / i))%Z.
Proof.
  intros Hi Hk. pose proof (Z.div_mod k i ltac:(lia)) as Hdm. pose proof (Z.mod_pos_bound k i Hi) as Hb.
  split; intros Hc.
  - assert (k + 1 = (k / i + 1) * i)%Z as -> by lia. rewrite Z.div_mul by lia. lia.
  - f_equal. symmetry. apply (Z.div_unique _ _ _ (k + 1 - i * (k / i))); lia.
Qed.

(** The teacher snapshot is periodic and never stale.  In periodic_snapshot mode the
    adapter is copied at the first step and then exactly every [interval] steps: after
    step [start + k] the recorded sync is at [start + interval * (k / interval)], so the
    teacher is always fewer than [interval] steps old.  A non-positive interval is
    refused. *)
Theorem teacher_snapshot_periodic {W Mo} `{Workers W} `{PyPrims} c start k (s : hook_state W Mo) interval :
  py_int (get_default "teacher_sync_interval" (JInt 20) (extpi_rlsd c)) = Ok interval →
  sync_run c start k s →
  (0 < interval)%Z ∧
  hs_last_sync s = Some (start + interval * (Z.of_nat k / interval))%Z ∧
  (0 <= Z.of_nat k - interval * (Z.of_nat k / interval) < interval)%Z.
Proof.
  intros Hint Hrun. induction Hrun as [s s' Hnone Hm|k s s1 s' Hrun IH Hsame Hm].
  - apply (maybe_sync_spec (at_step c start) _ _ interval Hint) in Hm as (Hpos & Hl & _).
    rewrite Hnone in Hl. simpl in Hl. split; [done|]. rewrite Z.div_0_l by lia. split; [rewrite Hl; f_equal; lia | lia].
  - destruct IH as (Hpos & Hlast & Hage).
    apply (maybe_sync_spec (at_step c _) _ _ interval Hint) in Hm as (_ & Hl & _). simpl in Hl.
    rewrite Hsame, Hlast in Hl. simpl in Hl. split; [done|].
    destruct (period_step interval (Z.of_nat k) Hpos ltac:(lia)) as [Hyes Hno].
    replace (Z.of_nat (S k)) with (Z.of_nat k + 1)%Z in * by lia.
    destruct (Z.leb_spec interval
      (start + (Z.of_nat k + 1) - (start + interval * (Z.of_nat k / interval)))) as [Hle|Hgt].
    + rewrite Hyes by lia. split; [rewrite Hl; f_equal; lia | lia].
    + rewrite Hno by lia. split; [exact Hl | lia].
Qed.

(** ** Lemmas: runs of the hook *)

Lemma call_workers_inv {W Mo A} (f : W → result A * W) (s s' : hook_state W Mo) r :
  call_workers f s = (r, s') → s' = set_workers (f (hs_workers s)).2 s ∧ r = (f (hs_workers s)).1.
Proof. unfold call_workers. destruct (f (hs_workers s)). by intros [= <- <-]. Qed.

(** The parts of the state a step leaves alone. *)
Definition same_batch {W Mo} (s s' : hook_state W Mo) : Prop := hs_batch s' = hs_batch s.

Lemma compute_actor_batch {W Mo} `{Workers W} c b no ad (s s' : hook_state W Mo) r :
  compute_actor_log_prob c b no ad s = (r, s') → same_batch s s'.
Proof.
  unfold compute_actor_log_prob, same_batch. destruct (no && _); [by intros [= _ <-]|].
  unfold mbind, stateR_bind, lift. destruct (left_right_2_no_padding _); [|by intros [= _ <-]].
  destruct (call_workers _ s) as [r1 s1] eqn:E. apply call_workers_inv in E as [-> _].
  destruct r1; by intros [= _ <-].
Qed.

Lemma compute_ref_batch {W Mo} `{Workers W} c b (s s' : hook_state W Mo) r :
  compute_ref_log_prob c b s = (r, s') → same_batch s s'.
Proof.
  unfold compute_ref_log_prob, same_batch, mbind, stateR_bind, lift.
  destruct (left_right_2_no_padding _); [|by intros [= _ <-]].
  destruct (ref_in_actor c); (destruct (call_workers _ s) as [r1 s1] eqn:E;
    apply call_workers_inv in E as [-> _]; destruct r1; by intros [= _ <-]).
Qed.

Lemma maybe_sync_batch {W Mo} `{Workers W} `{PyPrims} c (s s' : hook_state W Mo) r :
  maybe_sync_teacher_snapshot c s = (r, s') → same_batch s s'.
Proof.
  unfold maybe_sync_teacher_snapshot, same_batch, mbind, stateR_bind, lift, gets, modify.
  destruct (py_int _) as [i|]; [|by intros [= _ <-]]. destruct (Z.leb i 0); [by intros [= _ <-]|].
  destruct (should_sync _ _ _); [|by intros [= _ <-]].
  destruct (call_workers _ s) as [r1 s1] eqn:E. apply call_workers_inv in E as [-> _].
  destruct r1; by intros [= _ <-].
Qed.

Lemma compute_pi_batch {W Mo} `{Workers W} `{PyPrims} c b mode (s s' : hook_state W Mo) r :
  compute_pi_teacher_log_prob c b mode s = (r, s') → same_batch s s'.
Proof.
  unfold compute_pi_teacher_log_prob. case_bool_decide.
  { destruct (ref_in_actor c); [apply compute_ref_batch | by intros [= _ <-]]. }
  case_bool_decide; [apply compute_actor_batch|]. case_bool_decide; [|by intros [= _ <-]].
  destruct (negb (ref_in_actor c)); [by intros [= _ <-]|]. destruct (negb _); [by intros [= _ <-]|].
  unfold mbind, stateR_bind. destruct (maybe_sync_teacher_snapshot c s) as [r1 s1] eqn:E.
  apply maybe_sync_batch in E. destruct r1; [|intros [= _ <-]; exact E].
  intros Ha. apply compute_actor_batch in Ha. unfold same_batch in *. congruence.
Qed.

Lemma diagnostics_inert {W Mo} `{PyPrims} c (s s' : hook_state W Mo) r :
  add_training_diagnostics c s = (r, s') →
  same_batch s s' ∧ hs_workers s' = hs_workers s ∧ hs_last_sync s' = hs_last_sync s ∧ hs_scorer s' = hs_scorer s.
Proof.
  unfold add_training_diagnostics, same_batch, mbind, stateR_bind, lift, gets, modify.
  destruct (sb_response_mask _) as [m|]; simpl.
  - destruct (response_metrics _) as [ms|]; simpl; [|by intros [= _ <-]].
    destruct (hb_token_level_scores _); [|by intros [= _ <-]].
    destruct (py_int _); [|by intros [= _ <-]]. destruct (group_diagnostic_metrics _ _ _) as [[? ?] []]; by intros [= _ <-].
  - destruct (hb_token_level_scores _); by intros [= _ <-].
Qed.

(** ** What the two teacher modes leave in the batch *)

Definition rlsd_result `{PyPrims} `{PromptTokenizer} (c : trainer_config) (b b' : hook_batch) : Prop :=
  ∃ mask token_mask q limit build lps,
    sb_response_mask (hb_source b) = Some mask ∧ hb_source b' = hb_source b ∧
    hb_teacher_opd_log_probs b' = hb_teacher_opd_log_probs b ∧
    compute_effective_rlsd_lambda (policy_loss c) (global_steps c) = Ok q ∧
    hb_rlsd_effective_lambda b' = Some q ∧
    build_rlsd_token_mask mask (py_str (get_default "rlsd_token_mask" (JStr "all") (policy_loss c))) = Ok token_mask ∧
    hb_rlsd_token_mask b' = Some token_mask ∧
    build_pi_teacher_score_batch (hb_source b) limit
      (truthy (get_default "allow_teacher_prompt_truncation" (JBool true) (extpi_rlsd c)))
      (truthy (get_default "online_teacher_thinking" (JBool false) (extpi_rlsd c)))
      (py_str (get_default "pi_trace_field" (JStr DEFAULT_PI_TRACE_FIELD) (extpi_rlsd c))) = Ok build ∧
    lower (py_str (get_default "teacher_update_mode" (JStr "base_no_adapter") (extpi_rlsd c)))
      ∈ ["base_no_adapter"; "current_no_grad"; "periodic_snapshot"]%string ∧
    shape lps = shape mask ∧
    hb_teacher_pi_log_probs b' = Some (masked_log_probs lps mask).

Definition opd_result `{PyPrims} `{PromptTokenizer} (c : trainer_config) (b b' : hook_batch) : Prop :=
  ∃ mask limit build lps,
    sb_response_mask (hb_source b) = Some mask ∧ hb_source b' = hb_source b ∧
    hb_teacher_pi_log_probs b' = hb_teacher_pi_log_probs b ∧
    hb_rlsd_token_mask b' = hb_rlsd_token_mask b ∧
    hb_rlsd_effective_lambda b' = hb_rlsd_effective_lambda b ∧
    build_direct_opd_teacher_score_batch (hb_source b) limit
      (truthy (get_default "direct_opd_teacher_thinking" (JBool false) (extpi_rlsd c))) = Ok build ∧
    get_default "direct_opd_teacher_backend" (JStr "inline_external_hf") (extpi_rlsd c) =
      JStr "inline_external_hf" ∧
    shape lps = shape mask ∧
    hb_teacher_opd_log_probs b' = Some (masked_log_probs lps mask).

Lemma compute_pi_mode {W Mo} `{Workers W} `{PyPrims} c b mode (s s' : hook_state W Mo) out :
  compute_pi_teacher_log_prob c b mode s = (Ok out, s') →
  mode ∈ ["base_no_adapter"; "current_no_grad"; "periodic_snapshot"]%string.
Proof.
  unfold compute_pi_teacher_log_prob. intros Hr.
  case_bool_decide; [subst; by left|]. case_bool_decide; [subst; by right; left|].
  case_bool_decide; [subst; by right; right; left | done].
Qed.

Lemma rlsd_update_spec {W Mo} `{Workers W} `{PyPrims} `{PromptTokenizer} c (s s' : hook_state W Mo) :
  rlsd_update c s = (Ok tt, s') → rlsd_result c (hs_batch s) (hs_batch s').
Proof.
  unfold rlsd_update. intros Hr.
  apply stateR_bind_Ok in Hr as (q & s1 & Hq & Hr). apply lift_Ok in Hq as [Hq ->].
  apply stateR_bind_Ok in Hr as ([] & s2 & Hm & Hr). injection Hm as <-.
  apply stateR_bind_Ok in Hr as ([] & s3 & Hm & Hr). injection Hm as <-.
  apply stateR_bind_Ok in Hr as (bt & s4 & Hm & Hr). injection Hm as <- <-.
  apply stateR_bind_Ok in Hr as (mask & s5 & Hmask & Hr). apply lift_Ok in Hmask as [Hmask ->].
  apply stateR_bind_Ok in Hr as (tm & s6 & Htm & Hr). apply lift_Ok in Htm as [Htm ->].
  apply stateR_bind_Ok in Hr as ([] & s7 & Hm & Hr). injection Hm as <-.
  apply stateR_bind_Ok in Hr as ([] & s8 & Hm & Hr). injection Hm as <-.
  apply stateR_bind_Ok in Hr as (limit & s9 & Hl & Hr). apply lift_Ok in Hl as [_ ->].
  apply stateR_bind_Ok in Hr as (build & s10 & Hb & Hr). apply lift_Ok in Hb as [Hb ->].
  apply stateR_bind_Ok in Hr as (lps & s11 & Hlps & Hr).
  pose proof (compute_pi_mode _ _ _ _ _ _ Hlps) as Hmode. apply compute_pi_batch in Hlps.
  apply stateR_bind_Ok in Hr as (old & s12 & Hold & Hr). apply lift_Ok in Hold as [_ ->].
  case_bool_decide as Hshape; [|done]. simpl negb in Hr. cbv iota in Hr.
  apply stateR_bind_Ok in Hr as ([] & s13 & Hm & Hr). injection Hm as <-.
  apply stateR_bind_Ok in Hr as ([] & s14 & Hm & Hr). injection Hm as <-.
  apply stateR_bind_Ok in Hr as (x1 & s15 & Hm & Hr). apply lift_Ok in Hm as [_ ->].
  apply stateR_bind_Ok in Hr as (x2 & s16 & Hm & Hr). apply lift_Ok in Hm as [_ ->].
  injection Hr as <-. unfold same_batch in Hlps. simpl in Hlps, Hmask, Hb |- *. rewrite Hlps.
  apply of_option_Ok in Hmask.
  exists mask, tm, q, limit, build, lps. simpl. repeat (split; [done|]). done.
Qed.

Section opd.
Context {W Mo : Type} `{Workers W} `{CausalModel Mo} `{PyPrims} `{PromptTokenizer}
  (load_teacher : dict → result (Mo * tokenizer_info)) (student : tokenizer_info)
  (sha256_hex : string → string) (cuda_available : bool) (rd : readings).

Lemma get_scorer_batch extpi (s s' : hook_state W Mo) r :
  get_direct_opd_scorer load_teacher student sha256_hex cuda_available rd extpi s = (r, s') → same_batch s s'.
Proof using Type.
  unfold get_direct_opd_scorer, same_batch, mbind, stateR_bind, lift, gets, modify, mret, stateR_ret.
  destruct (hs_scorer s); [by intros [= _ <-]|]. destruct (negb _); [by intros [= _ <-]|].
  destruct (uses_cuda extpi && negb cuda_available); [by intros [= _ <-]|].
  destruct (load_teacher extpi); [|by intros [= _ <-]].
  destruct (assert_tokenizer_compatible _ _ _ _); by intros [= _ <-].
Qed.

Lemma score_inline_batch extpi b (s s' : hook_state W Mo) r :
  score_direct_opd_inline load_teacher student sha256_hex cuda_available rd extpi b s = (r, s') → same_batch s s'.
Proof using Type.
  unfold score_direct_opd_inline. unfold mbind at 1, stateR_bind at 1.
  destruct (get_direct_opd_scorer _ _ _ _ _ _ s) as [[m|e] s1] eqn:E;
    apply get_scorer_batch in E; unfold same_batch in *; [|by intros [= _ <-]].
  unfold mbind, stateR_bind, lift, modify. destruct (py_int _); [|by intros [= _ <-]].
  destruct (Z.eqb _ 0); [by intros [= _ <-]|].
  destruct (if Nat.eqb _ 0 then _ else _); [|by intros [= _ <-]].
  destruct (score_micro_batches _ _ _ _ _ _) as [outs m'].
  destruct outs as [[|? ?]|]; intros [= _ <-]; exact E.
Qed.

Lemma direct_opd_update_spec c (s s' : hook_state W Mo) :
  direct_opd_update load_teacher student sha256_hex cuda_available rd c s = (Ok tt, s') →
  opd_result c (hs_batch s) (hs_batch s').
Proof using Type.
  unfold direct_opd_update. intros Hr.
  destruct (is_str _ _) eqn:Hback in Hr; [|done]. apply is_str_spec in Hback.
  apply stateR_bind_Ok in Hr as (limit & s1 & Hl & Hr). apply lift_Ok in Hl as [_ ->].
  apply stateR_bind_Ok in Hr as (bt & s2 & Hm & Hr). injection Hm as <- <-.
  apply stateR_bind_Ok in Hr as (build & s3 & Hb & Hr). apply lift_Ok in Hb as [Hb ->].
  apply stateR_bind_Ok in Hr as (lps & s4 & Hlps & Hr). apply score_inline_batch in Hlps.
  apply stateR_bind_Ok in Hr as (mask & s5 & Hmask & Hr). apply lift_Ok in Hmask as [Hmask ->].
  apply stateR_bind_Ok in Hr as (old & s6 & Hold & Hr). apply lift_Ok in Hold as [_ ->].
  case_bool_decide as Hshape; [|done]. simpl negb in Hr. cbv iota in Hr.
  apply stateR_bind_Ok in Hr as ([] & s7 & Hm & Hr). injection Hm as <-.
  apply stateR_bind_Ok in Hr as ([] & s8 & Hm & Hr). injection Hm as <-.
  apply stateR_bind_Ok in Hr as (x1 & s9 & Hm & Hr). apply lift_Ok in Hm as [_ ->].
  apply stateR_bind_Ok in Hr as (gb & s10 & Hm & Hr). injection Hm as <- <-.
  injection Hr as <-. unfold same_batch in Hlps. simpl. rewrite Hlps.
  apply of_option_Ok in Hmask.
  exists mask, (Z.to_nat limit), build, lps. simpl. repeat (split; [done|]). done.
Qed.

(** C14: The hook does exactly one thing to the batch.  Both modes enabled is refused
    before anything changes; with neither enabled only metrics are written: batch,
    workers, snapshot and scorer stay as they were; in RLSD mode success means the
    batch gained the scheduled weight, the token mask of the configured spec and the
    masked PI-teacher log probabilities of a batch built (and leak-checked) from its own
    samples in one of the three known teacher modes, nothing else of it changing; in
    direct mode only the masked log probabilities of the exact student prompts are
    added. *)
Theorem hook_modes c (s s' : hook_state W Mo) r :
  before_actor_update load_teacher student sha256_hex cuda_available rd c s = (r, s') →
  match truthy (get_default "rlsd_enabled" (JBool false) (policy_loss c)),
        truthy (get_default "opd_pg_enabled" (JBool false) (policy_loss c)) with
  | true, true => r = Raise (ValueError "RLSD and direct OPD-PG modes are mutually exclusive") ∧ s' = s
  | false, false => hs_batch s' = hs_batch s ∧ hs_workers s' = hs_workers s ∧
                    hs_last_sync s' = hs_last_sync s ∧ hs_scorer s' = hs_scorer s
  | true, false => is_ok r = true → rlsd_result c (hs_batch s) (hs_batch s')
  | false, true => is_ok r = true → opd_result c (hs_batch s) (hs_batch s')
  end.
Proof using Type.
  unfold before_actor_update. intros Hr.
  destruct (truthy (get_default "rlsd_enabled" _ _)), (truthy (get_default "opd_pg_enabled" _ _));
    cbv beta iota delta [andb] in Hr.
  - by injection Hr as <- <-.
  - destruct r as [[]|]; [|done]. intros _.
    apply stateR_bind_Ok in Hr as ([] & s1 & Hd & Hr). apply diagnostics_inert in Hd as [Hd _].
    rewrite <-Hd. by apply rlsd_update_spec.
  - destruct r as [[]|]; [|done]. intros _.
    apply stateR_bind_Ok in Hr as ([] & s1 & Hd & Hr). apply diagnostics_inert in Hd as [Hd _].
    rewrite <-Hd. by apply direct_opd_update_spec.
  - unfold mbind, stateR_bind, mret, stateR_ret in Hr. cbv beta in Hr. destruct (add_training_diagnostics c s) as [[[]|e] s1] eqn:E;
      injection Hr as <- <-; by apply diagnostics_inert in E.
Qed.
End opd.

Lemma rectangular_cat1 {A} w w' (t u : tensor A) :
  rectangular w t → rectangular w' u → rectangular (w + w') (cat1 t u).
Proof.
  unfold cat1. intros Ht. revert u. induction Ht as [|r t Hr _ IH]; intros [|s u] Hu; try by constructor.
  inversion_clear Hu as [|? ? Hs Hu']. constructor; [|by apply IH]. rewrite length_app. by f_equal.
Qed.

Lemma rectangular_twidth_ne {A} w (t : tensor A) : rectangular w t → t ≠ [] → twidth t = w.
Proof. intros Ht Hne. destruct t; [done|]. by inversion Ht. Qed.

(** The padding-free conversion succeeds on assembled tensors. *)
Lemma assembled_unpads {A} w T (ids : tensor A) (pm : tensor bool) (resp : tensor A) (rmask : tensor bool) (fill : tensor A) :
  rectangular w ids → rectangular w pm → rectangular T resp → rectangular T rmask → rectangular T fill →
  length ids = length resp → length pm = length resp → length rmask = length resp →
  length fill = length resp → resp ≠ [] →
  ∃ u, unpad_input (cat1 ids fill) (cat1 pm rmask) = Ok u.
Proof.
  intros Hw1 Hw2 HT HTm HTf Hl Hl1 Hl2 Hlf Hne.
  destruct (unpad_input_spec (cat1 ids fill) (cat1 pm rmask)) as (u & Hu & _); [| |by exists u].
  - eapply (rectangular_shape (w + T)); [by apply rectangular_cat1 | by apply rectangular_cat1|].
    unfold cat1. rewrite !length_zip_with. lia.
  - intros Hz. apply (f_equal length) in Hz. unfold cat1 in Hz. rewrite length_zip_with in Hz.
    change (length []) with 0 in Hz. destruct resp; [done|]. simpl length in *. lia.
Qed.

Lemma masked_fill_shape pad ids mask :
  shape ids = shape mask → shape (masked_fill pad ids (tmap to_bool mask)) = shape ids.
Proof.
  intros Hs. unfold masked_fill. apply shape_tzip. rewrite Hs. unfold shape, tmap.
  rewrite <-list_fmap_compose. apply list_fmap_ext. intros. simpl. by rewrite length_fmap.
Qed.

(** The teacher log probabilities land on the right tokens.  When the response mask is
    right padded, the log probabilities that come back for a PI batch through the
    padding-free worker call are, for every real response token [t], the worker's value
    at position [max + t - 1] (the position right before the token), and zero on
    padding: the same positions the inline scorer reads. *)
Theorem teacher_log_probs_aligned {W Mo} `{Workers W} `{PyPrims} `{PromptTokenizer}
    c source max T allow thinking field build full ad (s : hook_state W Mo) :
  build_pi_teacher_score_batch source max allow thinking field = Ok build → 0 < max →
  rectangular T (b_responses (build_batch build)) → b_responses (build_batch build) ≠ [] →
  Forall right_padded (tmap to_bool (b_response_mask (build_batch build))) →
  rectangular (max + T) full → length full = length (b_responses (build_batch build)) →
  (∀ nd meta w, (wg_compute_log_prob nd meta w).1 =
     Ok (concat (zip_with select (nd_attention_mask nd) full))) →
  ∃ out s', compute_actor_log_prob c (build_batch build) false ad s = (Ok out, s') ∧
    ∀ i t m, tget (b_response_mask (build_batch build)) i t = Some m →
      tget out i t = if to_bool m then tget full i (max + t - 1) else Some (Fin 0).
Proof.
  intros Hb Hmax HT Hne Hrp Hf Hlf Hw.
  apply build_pi_inv in Hb as (resp & rmask & infos & extras & scan & rows & nt & _ & _ & _ & _ &
    _ & _ & _ & _ & Hrows & Hlen & Hasm & _).
  destruct (mapM_place_rows _ _ _ _ Hrows Hmax) as (_ & Hw1 & Hw2 & Hpad & Hlong).
  unfold assemble_score_batch in Hasm. inv_ok Hasm. apply bool_decide_eq_true in Hreq.
  injection Hasm as Hbatch. rewrite <-Hbatch in *. simpl in HT, Hne, Hrp, Hlf |- *.
  assert (tmap to_bool (cat1 rows.*2 (mask_long rmask)) = cat1 (tmap to_bool rows.*2) (tmap to_bool rmask)) as Hmask
    by (by rewrite tmap_cat1, mask_long_tmap, tmap_to_bool_b2z).
  unfold compute_actor_log_prob. simpl andb. cbv iota. unfold left_right_2_no_padding, padded_of. simpl.
  rewrite Hmask.
  pose proof (masked_fill_shape pad_or_eos resp rmask Hreq) as Hfill.
  assert (length (tmap to_bool rows.*2) = length resp ∧ length (tmap to_bool rmask) = length resp) as [Hl1 Hl2].
  { unfold tmap. rewrite !length_fmap. split; [done|]. symmetry. by apply shape_length. }
  assert (rectangular T (tmap to_bool rmask)) as HTm
    by (apply rectangular_tmap; by apply (shape_rectangular _ resp)).
  assert (rows.*1 ≠ []) as Hne1 by (destruct rows; [by destruct resp | done]).
  destruct (assembled_unpads max T rows.*1 (tmap to_bool rows.*2) resp (tmap to_bool rmask)
    (masked_fill pad_or_eos resp (tmap to_bool rmask))) as [u Hu]; [done | by apply rectangular_tmap | done | done | | |done|done| |done|].
  { by apply (shape_rectangular _ resp). } { by rewrite length_fmap. } { by apply shape_length. }
  unfold mbind, stateR_bind, lift. rewrite Hu. simpl. unfold call_workers.
  match goal with |- context [wg_compute_log_prob ?nd ?meta ?w] =>
    specialize (Hw nd meta w); destruct (wg_compute_log_prob nd meta w) as [r w'] eqn:Ew;
    destruct (response_slice_aligned (Fin 0) max T (tmap to_bool rows.*2) (tmap to_bool rmask) full nd)
      as (out & Hout & Hal) end.
  - by apply rectangular_tmap.
  - done.
  - done.
  - done.
  - by rewrite Hl1, Hl2.
  - intros Hz. rewrite Hz in Hl1. by destruct resp.
  - done.
  - by rewrite Hlf.
  - done.
  - simpl. by apply rectangular_twidth_ne.
  - simpl. by apply rectangular_twidth_ne.
  - simpl in Hw. subst r. simpl in Hout |- *. rewrite Hout. do 2 eexists. split; [done|].
    intros i t m Hm. apply Hal. by rewrite tget_tmap, Hm.
Qed.

(** ** A concrete trainer *)

#[local] Existing Instance toy_tokenizer.
#[local] Existing Instance toy_model.

(** Workers that count the snapshot copies and give every position log probability -1. *)
#[local] Instance toy_workers : Workers nat := {|
  wg_compute_log_prob nd _ w := (Ok (concat (zip_with select (nd_attention_mask nd) [repeat (Fin (-1)) 6])), w);
  wg_compute_ref_log_prob _ _ w := (Raise (RuntimeError "no reference worker"), w);
  wg_sync_teacher_snapshot _ _ w := (Ok tt, S w) |}.

Definition toy_config : trainer_config := {|
  policy_loss := [("rlsd_enabled", JBool true); ("rlsd_lambda", JInt 1);
                  ("rlsd_lambda_warmup_steps", JInt 4); ("rlsd_token_mask", JStr "2k+ans")]%string;
  extpi_rlsd := [("teacher_update_mode", JStr "Current_No_Grad"); ("teacher_max_prompt_length", JInt 4)]%string;
  rollout_n := JInt 1; rollout_temperature := 1; data_max_prompt_length := JInt 8;
  model_extpi_teacher_adapter := JBool true; ref_in_actor := true; global_steps := 2 |}.

Definition toy_state : hook_state nat (bool * bool) := {|
  hs_workers := 0; hs_last_sync := None; hs_scorer := None; hs_load_gb := None; hs_metrics := ∅;
  hs_batch := {| hb_source := toy_source; hb_old_log_probs := Some [[Fin 0; Fin 0]];
                 hb_token_level_scores := None; hb_uid := None; hb_teacher_opd_log_probs := None;
                 hb_teacher_pi_log_probs := None; hb_rlsd_token_mask := None;
                 hb_rlsd_effective_lambda := None |} |}.

Lemma effective_lambda_schedule_witness :
  ∃ q, compute_effective_rlsd_lambda (policy_loss toy_config) 2 = Ok q ∧ (q <= 1)%Q.
Proof.
  destruct (effective_lambda_schedule (policy_loss toy_config) 2 1 4 0) as (q & Hq & _ & Hle & _);
    [reflexivity | reflexivity | reflexivity | lia | lia | done | lia |].
  exists q. split; [exact Hq | exact Hle].
Defined.

Lemma toy_sync_run : ∃ s, sync_run (W := nat) (Mo := bool * bool) toy_config 5 1 s.
Proof.
  destruct (maybe_sync_teacher_snapshot (at_step toy_config 5) toy_state) as [r s1] eqn:E1.
  assert (r = Ok tt) as -> by (vm_compute in E1; by injection E1 as <- _).
  destruct (maybe_sync_teacher_snapshot (at_step toy_config (5 + Z.of_nat 1)) s1) as [r s2] eqn:E2.
  assert (r = Ok tt) as ->.
  { vm_compute in E1. injection E1 as <-. vm_compute in E2. by injection E2 as <- _. }
  exists s2. eapply run_next; [eapply run_first; [|exact E1] | | exact E2]; done.
Qed.

Lemma teacher_snapshot_periodic_witness :
  ∃ s, sync_run (W := nat) (Mo := bool * bool) toy_config 5 1 s ∧ hs_last_sync s = Some 5%Z.
Proof.
  destruct toy_sync_run as [s Hs]. exists s. split; [exact Hs|].
  destruct (teacher_snapshot_periodic toy_config 5 1 s 20 eq_refl Hs) as (_ & Hl & _). exact Hl.
Defined.

Lemma hook_modes_witness :
  ∃ s', before_actor_update (Mo := bool * bool) (λ _, Raise (RuntimeError "no model"))
      {| vocab_size := None; bos_token_id := None; eos_token_id := None; pad_token_id := None;
         special_tokens_map := ∅; chat_template := None; get_vocab := None; encode := λ _, [] |}
      (λ s, s) false
      {| rd_load_before := 0; rd_load_after := 0; rd_score_time := 0; rd_max_allocated := 0;
         rd_allocated := 0; rd_reserved := 0 |} toy_config toy_state = (Ok tt, s') ∧
    rlsd_result toy_config (hs_batch toy_state) (hs_batch s').
Proof.
  match goal with |- ∃ _, ?run = _ ∧ _ => destruct run as [r s'] eqn:E end.
  pose proof (hook_modes _ _ _ _ _ _ _ _ _ E) as Hm.
  assert (r = Ok tt) as -> by (vm_compute in E; injection E as <- _; reflexivity).
  exists s'. split; [reflexivity | exact (Hm eq_refl)].
Defined.

Lemma teacher_log_probs_aligned_witness :
  ∃ build out s',
    build_pi_teacher_score_batch toy_source 4 true false "qwen32b_pi_trace" = Ok build ∧
    compute_actor_log_prob toy_config (build_batch build) false None toy_state = (Ok out, s') ∧
    tget out 0 1 = Some (Fin 0) ∧ tget out 0 0 = Some (Fin (-1)).
Proof.
  destruct (build_pi_teacher_score_batch toy_source 4 true false "qwen32b_pi_trace") as [b|e] eqn:E;
    [|exfalso; vm_compute in E; discriminate].
  assert (b_responses (build_batch b) = [[4; 5]]%Z ∧ b_response_mask (build_batch b) = [[1; 0]]%Z) as [Hr Hm]
    by (injection E as <-; split; reflexivity).
  destruct (teacher_log_probs_aligned toy_config toy_source 4 2 true false _ b [repeat (Fin (-1)) 6] None
    toy_state E) as (out & s' & Hout & Hal).
  - lia.
  - rewrite Hr. repeat constructor.
  - rewrite Hr. discriminate.
  - rewrite Hm. repeat constructor. by exists 1, 1.
  - repeat constructor.
  - rewrite Hr. reflexivity.
  - reflexivity.
  - exists b, out, s'. rewrite Hm in Hal. split; [reflexivity|]. split; [exact Hout|].
    split; [exact (Hal 0 1 0%Z eq_refl) | exact (Hal 0 0 1%Z eq_refl)].
Defined.
