(* ===== verification/MessageQueue.v ===== *)
(** * The rollouter/trainer message queue

    [src/verl/experimental/fully_async_policy/message_queue.py].  Every method body runs
    under one lock, so an execution is a sequence of method calls; a [get_sample] that
    finds the queue empty and running waits without changing anything and runs again
    after a notification.  Memory estimates and prints are left out. *)

From S2P Require Import Prelude.
Local Open Scope py_scope.

Section queue.
Context {A : Type}.

Record queue := {
  max_queue_size : nat;
  q_samples : list A;
  val_queue : list A;
  running : bool;
  total_produced : nat;
  total_consumed : nat;
  dropped_samples : nat }.

(** [MessageQueue(config, max_queue_size)]: [None] and, in [deque], a negative length are
    refused. *)
Definition init_queue (max : option Z) : result queue :=
  match max with
  | None => Raise (ValueError "max_queue_size cannot be None")
  | Some n =>
      require Z.leb 0 n else ValueError "maxlen must be non-negative" ;;
      Ok {| max_queue_size := Z.to_nat n; q_samples := []; val_queue := []; running := true;
            total_produced := 0; total_consumed := 0; dropped_samples := 0 |}
  end.

(** [deque.append] on a bounded deque discards from the left. *)
Definition deque_append (maxlen : nat) (x : A) (q : list A) : list A :=
  let q' := q ++ [x] in drop (length q' - maxlen) q'.

Definition with_samples (l : list A) (s : queue) : queue :=
  {| max_queue_size := max_queue_size s; q_samples := l; val_queue := val_queue s; running := running s;
     total_produced := total_produced s; total_consumed := total_consumed s; dropped_samples := dropped_samples s |}.

Definition put_sample (sample : A) : stateR queue bool := λ s,
  let push (dropped : nat) (q : list A) : queue :=
    {| max_queue_size := max_queue_size s; q_samples := deque_append (max_queue_size s) sample q;
       val_queue := val_queue s; running := running s; total_produced := S (total_produced s);
       total_consumed := total_consumed s; dropped_samples := dropped |} in
  if Nat.leb (max_queue_size s) (length (q_samples s)) then
    match q_samples s with
    | [] => (Raise (IndexError "pop from an empty deque"), s)
    | _ :: q => (Ok false, push (S (dropped_samples s)) q)
    end
  else (Ok true, push (dropped_samples s) (q_samples s)).

(** What one attempt of [get_sample] ends in. *)
Inductive get_outcome := Waiting | Closed | Got (data : A) (remaining : nat).

Definition get_sample : stateR queue get_outcome := λ s,
  match q_samples s with
  | [] => (Ok (if running s then Waiting else Closed), s)
  | data :: q =>
      (Ok (Got data (length q)),
       {| max_queue_size := max_queue_size s; q_samples := q; val_queue := val_queue s; running := running s;
          total_produced := total_produced s; total_consumed := S (total_consumed s);
          dropped_samples := dropped_samples s |})
  end.

Definition get_queue_size : stateR queue nat := gets (λ s, length (q_samples s)).

Record statistics := {
  stat_queue_size : nat; stat_produced : nat; stat_consumed : nat; stat_dropped : nat; stat_max : nat }.
Definition get_statistics : stateR queue statistics := gets (λ s,
  {| stat_queue_size := length (q_samples s); stat_produced := total_produced s;
     stat_consumed := total_consumed s; stat_dropped := dropped_samples s; stat_max := max_queue_size s |}).

Definition clear_queue : stateR queue unit := modify (with_samples []).

Definition shutdown : stateR queue unit := modify (λ s,
  {| max_queue_size := max_queue_size s; q_samples := q_samples s; val_queue := val_queue s; running := false;
     total_produced := total_produced s; total_consumed := total_consumed s; dropped_samples := dropped_samples s |}).

Definition with_val (l : list A) (s : queue) : queue :=
  {| max_queue_size := max_queue_size s; q_samples := q_samples s; val_queue := l; running := running s;
     total_produced := total_produced s; total_consumed := total_consumed s; dropped_samples := dropped_samples s |}.
Definition put_validate (data : A) : stateR queue unit := modify (λ s, with_val (val_queue s ++ [data]) s).
Definition get_validate : stateR queue (option A) := λ s,
  match val_queue s with [] => (Ok None, s) | d :: l => (Ok (Some d), with_val l s) end.

(** ** Executions *)

Inductive call := Put (x : A) | Get | Clear | Shutdown | PutValidate (x : A) | GetValidate | Observe.

(** How a sample left the queue, or that it entered. *)
Inductive event := Produced (x : A) | Consumed (x : A) | Dropped (x : A) | Cleared (x : A).

(** One call: the next state and what happened to samples. *)
Inductive step : queue → call → list event → queue → Prop :=
  | step_put s s' x b : put_sample x s = (Ok b, s') →
      step s (Put x) (match q_samples s, b with y :: _, false => [Dropped y] | _, _ => [] end ++ [Produced x]) s'
  | step_get s s' o : get_sample s = (Ok o, s') →
      step s Get (match o with Got x _ => [Consumed x] | _ => [] end) s'
  | step_clear s s' : clear_queue s = (Ok tt, s') → step s Clear (Cleared <$> q_samples s) s'
  | step_shutdown s s' : shutdown s = (Ok tt, s') → step s Shutdown [] s'
  | step_put_val s s' x : put_validate x s = (Ok tt, s') → step s (PutValidate x) [] s'
  | step_get_val s s' o : get_validate s = (Ok o, s') → step s GetValidate [] s'
  | step_observe s st : get_statistics s = (Ok st, s) → step s Observe [] s.

(** Executions of a queue of capacity [n], with everything that happened, in order. *)
Inductive execution (n : Z) : list event → queue → Prop :=
  | exec_init s : init_queue (Some n) = Ok s → execution n [] s
  | exec_step tr s c evs s' : execution n tr s → step s c evs s' → execution n (tr ++ evs) s'.

Definition produced (tr : list event) : list A := omap (λ e, match e with Produced x => Some x | _ => None end) tr.
Definition removed (tr : list event) : list A :=
  omap (λ e, match e with Consumed x | Dropped x | Cleared x => Some x | Produced _ => None end) tr.
Definition consumed (tr : list event) : list A := omap (λ e, match e with Consumed x => Some x | _ => None end) tr.
Definition dropped (tr : list event) : list A := omap (λ e, match e with Dropped x => Some x | _ => None end) tr.

Definition queue_inv (n : Z) (tr : list event) (s : queue) : Prop :=
  max_queue_size s = Z.to_nat n ∧ length (q_samples s) ≤ max_queue_size s ∧
  produced tr = removed tr ++ q_samples s ∧
  total_produced s = length (produced tr) ∧ total_consumed s = length (consumed tr) ∧
  dropped_samples s = length (dropped tr).

Lemma omap_app {B C} (f : B → option C) l k : omap f (l ++ k) = omap f l ++ omap f k.
Proof using Type. apply omap_app. Qed.

Lemma deque_append_room maxlen x (q : list A) : length q < maxlen → deque_append maxlen x q = q ++ [x].
Proof using Type.
  intros Hl. unfold deque_append. rewrite length_app. simpl.
  replace (length q + 1 - maxlen) with 0 by lia. done.
Qed.

Lemma omap_cleared l :
  produced (Cleared <$> l) = [] ∧ removed (Cleared <$> l) = l ∧
  consumed (Cleared <$> l) = [] ∧ dropped (Cleared <$> l) = [].
Proof using Type.
  unfold produced, removed, consumed, dropped. induction l as [|x l IH]; csimpl; [done|].
  destruct IH as (-> & -> & -> & ->). done.
Qed.

Lemma put_preserves n tr s x b s' :
  queue_inv n tr s → put_sample x s = (Ok b, s') →
  queue_inv n (tr ++ match q_samples s, b with y :: _, false => [Dropped y] | _, _ => [] end ++ [Produced x]) s'.
Proof using Type.
  intros (Hmax & Hlen & Hprod & Hp & Hc & Hd) Hput. unfold put_sample in Hput.
  unfold queue_inv, produced, removed, consumed, dropped in *. rewrite !omap_app.
  destruct (Nat.leb_spec (max_queue_size s) (length (q_samples s))).
  - destruct (q_samples s) as [|y q] eqn:Eq; [done|]. injection Hput as <- <-. simpl in *.
    rewrite deque_append_room by lia. rewrite ?length_app, ?app_nil_r. simpl.
    rewrite Hprod, <-!(assoc_L (++)). simpl. repeat split; try done; try lia.
    + rewrite Hprod, !length_app in Hp. simpl in Hp. rewrite Hp, !length_app. simpl. lia.
  - injection Hput as <- <-. simpl in *. rewrite deque_append_room by lia.
    replace (match q_samples s with [] | _ => [] end) with (@nil event) by (by destruct (q_samples s)).
    simpl. rewrite ?length_app, ?app_nil_r. simpl.
    rewrite Hprod, <-!(assoc_L (++)). repeat split; try done; try lia.
    rewrite Hprod, length_app in Hp. rewrite Hp, !length_app. simpl. lia.
Qed.

Lemma execution_inv n tr s : execution n tr s → queue_inv n tr s.
Proof using Type.
  induction 1 as [s Hi|tr s c evs s' _ IH Hstep].
  - unfold init_queue in Hi. inv_ok Hi. injection Hi as <-. repeat split; simpl; lia.
  - destruct Hstep as [s s' x b Hput|s s' o Hget|s s' Hc|s s' Hs|s s' x Hp|s s' o Hg|s st Ho].
    + by eapply put_preserves.
    + destruct IH as (Hmax & Hlen & Hprod & Hp & Hc & Hd). unfold get_sample in Hget.
      unfold queue_inv, produced, removed, consumed, dropped in *. rewrite !omap_app.
      destruct (q_samples s) as [|x q] eqn:Eq.
      * injection Hget as <- <-. destruct (running s); simpl; rewrite ?app_nil_r, Eq; repeat split; try done; rewrite app_nil_r in Hprod; done.
      * injection Hget as <- <-. simpl in *. rewrite ?app_nil_r, length_app. simpl.
        rewrite <-(assoc_L (++)). repeat split; try done; lia.
    + injection Hc as <-. destruct IH as (Hmax & Hlen & Hprod & Hp & Hcn & Hd).
      destruct (omap_cleared (q_samples s)) as (H1 & H2 & H3 & H4).
      unfold queue_inv, produced, removed, consumed, dropped in *. rewrite !omap_app, H1, H2, H3, H4, ?app_nil_r.
      simpl. repeat split; try done. lia.
    + injection Hs as <-. by rewrite app_nil_r.
    + injection Hp as <-. by rewrite app_nil_r.
    + rewrite app_nil_r. unfold get_validate in Hg. destruct (val_queue s); injection Hg as <- <-; exact IH.
    + by rewrite app_nil_r.
Qed.

Lemma exec_put n tr s x : execution n tr s → ∀ b s', put_sample x s = (Ok b, s') →
  execution n (tr ++ match q_samples s, b with y :: _, false => [Dropped y] | _, _ => [] end ++ [Produced x]) s'.
Proof using Type. intros He b s' Hp. eapply exec_step; [exact He | by apply step_put]. Qed.

Lemma exec_get n tr s : execution n tr s → ∀ o s', get_sample s = (Ok o, s') →
  execution n (tr ++ match o with Got x _ => [Consumed x] | _ => [] end) s'.
Proof using Type. intros He o s' Hg. eapply exec_step; [exact He | by apply step_get]. Qed.

(** ** Properties *)

(** No sample is lost, duplicated or reordered.  In every execution the samples put
    so far are, in order, the samples that left the queue followed by those still in it;
    the queue never exceeds its capacity, and the three counters are exactly the numbers
    of samples put, handed to a consumer, and discarded because the queue was full. *)
Theorem queue_conserves_samples n tr s :
  execution n tr s →
  produced tr = removed tr ++ q_samples s ∧
  length (q_samples s) ≤ Z.to_nat n ∧
  total_produced s = length (produced tr) ∧
  total_consumed s = length (consumed tr) ∧
  dropped_samples s = length (dropped tr).
Proof using Type.
  intros H. apply execution_inv in H as (Hmax & Hlen & Hprod & Hp & Hc & Hd).
  rewrite Hmax in Hlen. done.
Qed.

(** What callers see.  In any execution a [get_sample] never raises: it hands out the
    oldest sample with the number left, waits exactly when the queue is empty and
    running, and reports closure exactly when it is empty and shut down.  With a positive
    capacity [put_sample] never raises either, answers [False] exactly when it discarded
    the oldest sample, and always makes the next [get_sample] succeed; with capacity 0
    every [put_sample] raises and changes nothing. *)
Theorem queue_call_outcomes n tr s x :
  execution n tr s →
  (∃ o s', get_sample s = (Ok o, s') ∧
    (o = Waiting ↔ q_samples s = [] ∧ running s = true) ∧
    (o = Closed ↔ q_samples s = [] ∧ running s = false) ∧
    (∀ d k, o = Got d k ↔ ∃ q, q_samples s = d :: q ∧ k = length q ∧ q_samples s' = q)) ∧
  (if Z.leb n 0 then put_sample x s = (Raise (IndexError "pop from an empty deque"), s)
   else ∃ b s', put_sample x s = (Ok b, s') ∧
     (b = false ↔ length (q_samples s) = Z.to_nat n) ∧
     q_samples s' = (if b then q_samples s else tail (q_samples s)) ++ [x] ∧
     (∃ d k s'', get_sample s' = (Ok (Got d k), s''))).
Proof using Type.
  intros H. apply execution_inv in H as (Hmax & Hlen & _). split.
  - unfold get_sample. destruct (q_samples s) as [|d q].
    + do 2 eexists. split; [done|]. destruct (running s).
      all: split; [naive_solver|]; split; [naive_solver|].
      all: intros d k; split; [done | by intros (q & ? & _)].
    + do 2 eexists. split; [done|]. simpl. split; [naive_solver|]. split; [naive_solver|]. intros d' k. split.
      * intros [= <- <-]. eauto.
      * by intros (q' & [= <- <-] & -> & _).
  - unfold put_sample. destruct (Z.leb_spec n 0) as [Hn|Hn].
    + replace (max_queue_size s) with 0 in * by lia.
      destruct (q_samples s); [done | simpl in Hlen; lia].
    + rewrite Hmax in *. destruct (Nat.leb_spec (Z.to_nat n) (length (q_samples s))) as [Hle|Hgt].
      * destruct (q_samples s) as [|y q] eqn:Eq; [simpl in *; lia|]. simpl in Hlen, Hle.
        do 2 eexists. split; [done|]. simpl. rewrite deque_append_room by lia.
        split; [split; [intros _; lia | done]|]. split; [done|].
        unfold get_sample. simpl. destruct q; simpl; eauto.
      * do 2 eexists. split; [done|]. simpl. rewrite deque_append_room by lia.
        split; [split; [done | lia]|]. split; [done|].
        unfold get_sample. simpl. destruct (q_samples s); simpl; eauto.
Qed.
End queue.

(** Capacity 2: three puts discard the first sample, a get takes the second. *)
Definition sample_trace : list (event (A := nat)) :=
  (((([] ++ [Produced 1]) ++ [Produced 2]) ++ [Dropped 1; Produced 3]) ++ [Consumed 2]).

Lemma sample_execution :
  ∃ s, execution (A := nat) 2 sample_trace s ∧ q_samples s = [3].
Proof.
  pose proof (exec_init (A := nat) 2 _ eq_refl) as E0.
  pose proof (exec_put _ _ _ 1 E0 _ _ eq_refl) as E1.
  pose proof (exec_put _ _ _ 2 E1 _ _ eq_refl) as E2.
  pose proof (exec_put _ _ _ 3 E2 _ _ eq_refl) as E3.
  pose proof (exec_get _ _ _ E3 _ _ eq_refl) as E4.
  eexists. split; [exact E4 | reflexivity].
Qed.

Lemma queue_conserves_samples_witness :
  ∃ s, execution (A := nat) 2 sample_trace s ∧ [1; 2; 3] = [1; 2] ++ q_samples s.
Proof.
  destruct sample_execution as (s & Hs & Hq). exists s. split; [exact Hs|].
  destruct (queue_conserves_samples 2 sample_trace s Hs) as (Hp & _). exact Hp.
Defined.

Lemma queue_call_outcomes_witness :
  ∃ s, execution (A := nat) 2 sample_trace s ∧
    ∃ b s', put_sample 9 s = (Ok b, s') ∧ q_samples s' = (if b then [3] else []) ++ [9].
Proof.
  destruct sample_execution as (s & Hs & Hq). exists s. split; [exact Hs|].
  destruct (queue_call_outcomes 2 sample_trace s 9 Hs) as (_ & b & s' & Hput & _ & Hqs & _).
  exists b, s'. split; [exact Hput|]. rewrite Hqs, Hq. reflexivity.
Defined.
