(* ===== verification/LLMServer.v ===== *)
(** * Rollout servers: [src/verl/workers/rollout/llm_server.py]

    The global load balancer (sticky sessions, least-loaded choice, a changing pool of
    servers) and the two clients that generate through it: the plain one, which releases
    its server in a [finally], and the one that resumes aborted generations.  The LRU
    cache of [cachetools], the hash of strings and the remote servers are parameters. *)

From S2P Require Import Prelude PyDict.
From Stdlib Require Import QArith.
Local Close Scope Q_scope.
Local Open Scope py_scope.

(** ** The cache interface *)

(** [cachetools.LRUCache] with string keys and values: membership, indexing (which
    refreshes the entry), assignment (which may evict others, and raises when the cache
    cannot hold anything) and deletion. *)
Class LRUCache (C : Type) := {
  cache_get : string → C → option string;
  cache_touch : string → C → C;
  cache_set : string → string → C → result C;
  cache_del : string → C → C }.

(** What the load balancer relies on. *)
Class LRULaws (C : Type) `{LRUCache C} := {
  touch_get c k k' : cache_get k' (cache_touch k c) = cache_get k' c;
  set_get_same c c' k v : cache_set k v c = Ok c' → cache_get k c' = Some v;
  set_get_other c c' k v k' v' : cache_set k v c = Ok c' → k ≠ k' →
    cache_get k' c' = Some v' → cache_get k' c = Some v';
  del_get_same c k : cache_get k (cache_del k c) = None;
  del_get_other c k k' : k ≠ k' → cache_get k' (cache_del k c) = cache_get k' c }.

Section balancer.
Context {H C : Type} `{LRUCache C} (hash : string → Z).

Record balancer := {
  servers : list (string * H);
  inflight : list (string * nat);
  cache : C;
  full_determinism : bool }.

Definition with_inflight (l : list (string * nat)) (s : balancer) : balancer :=
  {| servers := servers s; inflight := l; cache := cache s; full_determinism := full_determinism s |}.
Definition with_cache (c : C) (s : balancer) : balancer :=
  {| servers := servers s; inflight := inflight s; cache := c; full_determinism := full_determinism s |}.

Definition init_balancer (pool : list (string * H)) (empty_cache : C) (determinism : bool) : result balancer :=
  require negb (bool_decide (keys pool = [])) else ValueError "servers must be non-empty" ;;
  Ok {| servers := pool; inflight := (λ sh, (sh.1, 0)) <$> pool; cache := empty_cache;
        full_determinism := determinism |}.

(** [min(self._inflight_requests.values())] and the keys that reach it, in dict order. *)
Definition min_count (l : list (string * nat)) : nat := foldr Nat.min (default 0 (snd <$> head l)) l.*2.
Definition candidates (l : list (string * nat)) : list string :=
  (List.filter (λ sc : string * nat, Nat.eqb sc.2 (min_count l)) l).*1.

Definition choose (determinism : bool) (request_id : string) (cands : list string) : result string :=
  let n := if Nat.eqb (length cands) 1 then 0
           else if determinism then Z.to_nat (hash request_id mod Z.of_nat (length cands)) else 0 in
  of_option (IndexError "list index out of range") (cands !! n).

(** [self._inflight_requests[sid] += 1], then [return sid, self._servers[sid]]. *)
Definition hand_out (sid : string) : stateR balancer (string * H) := λ s,
  match dget sid (inflight s) with
  | None => (Raise (KeyError sid), s)
  | Some n =>
      let s := with_inflight (dset sid (S n) (inflight s)) s in
      match dget sid (servers s) with
      | None => (Raise (KeyError sid), s)
      | Some h => (Ok (sid, h), s)
      end
  end.

(** Choosing a server for a request without a usable sticky entry. *)
Definition select_new (request_id : string) : stateR balancer (string * H) := λ s,
  match inflight s with
  | [] => (Raise (RuntimeError "No available servers in load balancer"), s)
  | _ =>
      match choose (full_determinism s) request_id (candidates (inflight s)) with
      | Raise e => (Raise e, s)
      | Ok sid =>
          match cache_set request_id sid (cache s) with
          | Raise e => (Raise e, s)
          | Ok c => hand_out sid (with_cache c s)
          end
      end
  end.

Definition acquire_server (request_id : string) : stateR balancer (string * H) := λ s,
  match cache_get request_id (cache s) with
  | Some sid =>
      let s := with_cache (cache_touch request_id (cache s)) s in
      if dmem sid (inflight s) then hand_out sid s
      else select_new request_id (with_cache (cache_del request_id (cache s)) s)
  | None => select_new request_id s
  end.

Definition release_server (sid : string) (s : balancer) : balancer :=
  match dget sid (inflight s) with
  | None | Some 0 => s
  | Some (S n) => with_inflight (dset sid n (inflight s)) s
  end.

Definition add_servers (new : list (string * H)) (s : balancer) : balancer :=
  foldl (λ s sh, {| servers := dset sh.1 sh.2 (servers s); inflight := dset sh.1 0 (inflight s);
                    cache := cache s; full_determinism := full_determinism s |}) s new.

Definition remove_servers (ids : list string) (s : balancer) : balancer :=
  foldl (λ s sid, {| servers := ddel sid (servers s); inflight := ddel sid (inflight s);
                     cache := cache s; full_determinism := full_determinism s |}) s ids.

Definition get_inflight_count (sid : string) (s : balancer) : nat := default 0 (dget sid (inflight s)).
Definition get_all_servers (s : balancer) : list string := keys (inflight s).

Record status := { st_servers : list (string * nat); st_total_inflight : nat; st_active : nat; st_handles : list string }.
Definition get_status (s : balancer) : status :=
  {| st_servers := inflight s; st_total_inflight := nsum (inflight s).*2;
     st_active := length (inflight s); st_handles := keys (servers s) |}.

(** ** The invariant *)

Definition wf (s : balancer) : Prop :=
  NoDup (keys (inflight s)) ∧ ∀ sid, dmem sid (servers s) = dmem sid (inflight s).

Inductive lb_step : balancer → balancer → Prop :=
  | lb_acquire s rid r s' : acquire_server rid s = (r, s') → lb_step s s'
  | lb_release s sid : lb_step s (release_server sid s)
  | lb_add s new : lb_step s (add_servers new s)
  | lb_remove s ids : lb_step s (remove_servers ids s).

(** States reachable from a constructed balancer. *)
Inductive lb_reachable : balancer → Prop :=
  | reach_init pool c d s : NoDup (keys pool) → init_balancer pool c d = Ok s → lb_reachable s
  | reach_step s s' : lb_reachable s → lb_step s s' → lb_reachable s'.

Lemma dmem_dset {V} k k' (v : V) d : dmem k' (dset k v d) = bool_decide (k = k') || dmem k' d.
Proof using Type. unfold dmem. rewrite dget_dset. by case_bool_decide. Qed.

Lemma dmem_ddel {V} k k' (d : list (string * V)) : dmem k' (ddel k d) = negb (bool_decide (k = k')) && dmem k' d.
Proof using Type. unfold dmem. rewrite dget_ddel. by case_bool_decide. Qed.

Lemma hand_out_spec s sid :
  wf s → dmem sid (inflight s) = true →
  ∃ h n, dget sid (servers s) = Some h ∧ dget sid (inflight s) = Some n ∧
    hand_out sid s = (Ok (sid, h), with_inflight (dset sid (S n) (inflight s)) s) ∧
    wf (with_inflight (dset sid (S n) (inflight s)) s).
Proof using Type.
  intros [Hnd Hkeys] Hmem. pose proof (Hkeys sid) as Hs. rewrite Hmem in Hs.
  apply dmem_spec in Hmem as [n Hn]. apply dmem_spec in Hs as [h Hh].
  exists h, n. unfold hand_out. rewrite Hn. simpl. rewrite Hh. repeat split; try done.
  - simpl. by apply dset_keys_nodup.
  - intros sid'. simpl. rewrite dmem_dset, Hkeys. case_bool_decide; [|done]. subst. unfold dmem. by rewrite Hn.
Qed.

Lemma min_count_le l sid n : (sid, n) ∈ l → min_count l ≤ n.
Proof using Type.
  unfold min_count. generalize (default 0 (snd <$> head l)). intros d Hin.
  induction l as [|[s m] l IH]; [by apply elem_of_nil in Hin|]. csimpl.
  apply elem_of_cons in Hin as [[= <- <-]|Hin]; [lia|]. specialize (IH Hin). lia.
Qed.

Lemma min_count_in l : l ≠ [] → ∃ sid, (sid, min_count l) ∈ l.
Proof using Type.
  destruct l as [|[s m] l]; [done|]. intros _. unfold min_count. csimpl.
  assert (∀ (l : list (string * nat)) d, (∃ sid, (sid, foldr Nat.min d l.*2) ∈ l) ∨ foldr Nat.min d l.*2 = d) as Hmin.
  { clear. intros l d. induction l as [|[s n] l IH]; csimpl; [by right|].
    destruct (Nat.min_spec n (foldr Nat.min d l.*2)) as [[_ ->]|[Hle ->]].
    - left. exists s. by left.
    - destruct IH as [[sid Hin]|Heq]; [left; exists sid; by right | by right]. }
  destruct (Nat.min_spec m (foldr Nat.min m l.*2)) as [[_ ->]|[Hle ->]]; [exists s; by left|].
  destruct (Hmin l m) as [[sid Hin]|Heq]; [exists sid; by right|]. exists s. rewrite Heq. by left.
Qed.

Lemma candidates_spec l sid :
  NoDup (keys l) → sid ∈ candidates l ↔ dget sid l = Some (min_count l).
Proof using Type.
  intros Hnd. unfold candidates. rewrite list_elem_of_fmap. split.
  - intros ([s n] & -> & Hin). apply list_elem_of_In, List.filter_In in Hin as [Hin Heq].
    apply Nat.eqb_eq in Heq. simpl in *. subst n. apply elem_dget; [done|]. by apply list_elem_of_In.
  - intros Hg. exists (sid, min_count l). split; [done|]. apply list_elem_of_In, List.filter_In.
    split; [apply list_elem_of_In; by apply dget_elem | simpl; apply Nat.eqb_refl].
Qed.

Lemma choose_spec det rid cands : cands ≠ [] → ∃ sid, choose det rid cands = Ok sid ∧ sid ∈ cands.
Proof using Type.
  intros Hne. unfold choose.
  set (n := if Nat.eqb (length cands) 1 then 0 else if det then _ else 0).
  assert (n < length cands) as Hn.
  { assert (0 < length cands) by (destruct cands; [done | simpl; lia]). unfold n.
    destruct (Nat.eqb _ 1); [lia|]. destruct det; [|lia].
    pose proof (Z.mod_pos_bound (hash rid) (Z.of_nat (length cands)) ltac:(lia)). lia. }
  destruct (lookup_lt_is_Some_2 cands n Hn) as [sid Hs]. exists sid. rewrite Hs. split; [done|].
  by eapply list_elem_of_lookup_2.
Qed.

Lemma select_new_spec rid s r s' :
  wf s → select_new rid s = (r, s') →
  wf s' ∧
  match r with
  | Ok (sid, h) => dget sid (servers s) = Some h ∧ dget sid (inflight s) = Some (min_count (inflight s)) ∧
      (∃ c, cache_set rid sid (cache s) = Ok c ∧ cache s' = c) ∧ servers s' = servers s ∧
      inflight s' = dset sid (S (min_count (inflight s))) (inflight s)
  | Raise e => s' = s ∧ (inflight s = [] ∧ e = RuntimeError "No available servers in load balancer" ∨
                         ∃ sid, cache_set rid sid (cache s) = Raise e)
  end.
Proof using Type.
  intros Hwf Hs. unfold select_new in Hs. destruct (inflight s) as [|p l] eqn:El.
  { injection Hs as <- <-. split; [done|]. by auto. }
  rewrite <-El in *. assert (inflight s ≠ []) as Hne by (by rewrite El).
  assert (candidates (inflight s) ≠ []) as Hc.
  { destruct (min_count_in (inflight s) Hne) as [sid Hin]. intros Hz.
    assert (sid ∈ candidates (inflight s)) as Hin'
      by (apply candidates_spec; [apply Hwf|]; apply elem_dget; [apply Hwf | done]).
    rewrite Hz in Hin'. by apply elem_of_nil in Hin'. }
  destruct (choose_spec (full_determinism s) rid _ Hc) as (sid & Hch & Hin). rewrite Hch in Hs.
  apply candidates_spec in Hin; [|apply Hwf].
  destruct (cache_set rid sid (cache s)) as [c|e] eqn:Ec.
  - assert (wf (with_cache c s)) as Hwf' by done.
    destruct (hand_out_spec (with_cache c s) sid Hwf') as (h & n & Hh & Hn & Ho & Hw).
    { unfold dmem. simpl. by rewrite Hin. }
    simpl in Hh, Hn. rewrite Ho in Hs. injection Hs as <- <-. split; [done|]. simpl.
    rewrite Hin in Hn. injection Hn as <-. eauto 10.
  - injection Hs as <- <-. split; [done|]. eauto.
Qed.

Lemma wf_acquire rid s r s' : wf s → acquire_server rid s = (r, s') → wf s'.
Proof using Type.
  intros Hwf Ha. unfold acquire_server in Ha.
  destruct (cache_get rid (cache s)) as [sid|]; [|by eapply select_new_spec in Ha as [? _]].
  cbn zeta in Ha. destruct (dmem sid _) eqn:Em.
  - assert (wf (with_cache (cache_touch rid (cache s)) s)) as Hwf' by done.
    destruct (hand_out_spec _ sid Hwf' Em) as (h & n & _ & _ & Ho & Hw). rewrite Ho in Ha. by injection Ha as _ <-.
  - eapply select_new_spec in Ha as [? _]; [done|]. done.
Qed.

Lemma wf_release sid s : wf s → wf (release_server sid s).
Proof using Type.
  intros [Hnd Hk]. unfold release_server. destruct (dget sid (inflight s)) as [[|n]|] eqn:E; [done| |done].
  split; simpl; [by apply dset_keys_nodup|]. intros sid'. rewrite dmem_dset, Hk. case_bool_decide; [|done].
  subst. unfold dmem. by rewrite E.
Qed.

Lemma wf_add new s : wf s → wf (add_servers new s).
Proof using Type.
  unfold add_servers. revert s. induction new as [|[sid h] new IH]; intros s Hwf; [done|]. simpl.
  apply IH. destruct Hwf as [Hnd Hk]. split; simpl; [by apply dset_keys_nodup|].
  intros sid'. by rewrite !dmem_dset, Hk.
Qed.

Lemma wf_remove ids s : wf s → wf (remove_servers ids s).
Proof using Type.
  unfold remove_servers. revert s. induction ids as [|sid ids IH]; intros s Hwf; [done|]. simpl.
  apply IH. destruct Hwf as [Hnd Hk]. split; simpl; [by apply ddel_keys_nodup|].
  intros sid'. by rewrite !dmem_ddel, Hk.
Qed.

Lemma reachable_wf s : lb_reachable s → wf s.
Proof using Type.
  induction 1 as [pool c d s Hnd Hi|s s' _ IH Hstep].
  - unfold init_balancer in Hi. inv_ok Hi. injection Hi as <-. unfold wf, keys in *. simpl. split.
    + by rewrite <-list_fmap_compose.
    + intros sid. unfold dmem. clear. induction pool as [|[k h] pool IH]; [done|]. simpl.
      case_bool_decide; [done | exact IH].
  - destruct Hstep; [by eapply wf_acquire | by apply wf_release | by apply wf_add | by apply wf_remove].
Qed.

(** Routing is sticky, otherwise least-loaded.  In every reachable state, whatever
    servers were added, removed, acquired and released before, an acquired server is in
    the pool and comes with its own handle; a request whose cached server is still in
    the pool goes back to it, any other request to a server with the fewest requests in
    flight; exactly that server's count grows by one, and the request is cached under
    it.  The only failures are an empty pool and a cache that refuses the entry. *)
Theorem acquire_sticky_least_loaded `{!LRULaws C} rid s r s' :
  lb_reachable s → acquire_server rid s = (r, s') →
  match r with
  | Ok (sid, h) =>
      dget sid (servers s) = Some h ∧
      (∃ n, dget sid (inflight s) = Some n ∧ inflight s' = dset sid (S n) (inflight s) ∧
        match cache_get rid (cache s) with
        | Some old => if dmem old (inflight s) then sid = old
                      else ∀ other m, dget other (inflight s) = Some m → n ≤ m
        | None => ∀ other m, dget other (inflight s) = Some m → n ≤ m
        end) ∧
      cache_get rid (cache s') = Some sid ∧ servers s' = servers s
  | Raise e => inflight s = [] ∧ e = RuntimeError "No available servers in load balancer" ∨
               ∃ sid c, cache_set rid sid c = Raise e
  end.
Proof using Type.
  intros Hr%reachable_wf Ha. unfold acquire_server in Ha.
  assert (Hmin : ∀ other m, dget other (inflight s) = Some m → min_count (inflight s) ≤ m)
    by (intros other m Hg; apply (min_count_le _ other), dget_elem, Hg).
  destruct (cache_get rid (cache s)) as [old|] eqn:Eold.
  - cbn zeta in Ha. change (inflight (with_cache _ s)) with (inflight s) in Ha.
    destruct (dmem old (inflight s)) eqn:Em.
    + assert (wf (with_cache (cache_touch rid (cache s)) s)) as Hwf' by done.
      destruct (hand_out_spec _ old Hwf' Em) as (h & n & Hh & Hn & Ho & _). rewrite Ho in Ha.
      injection Ha as <- <-. simpl in *. rewrite touch_get. eauto 10.
    + eapply select_new_spec in Ha as [_ Ha]; [|done]. destruct r as [[sid h]|e].
      * simpl in Ha. destruct Ha as (Hh & Hn & (c & Hc & Hc') & Hs & Hi).
        rewrite Hc', (set_get_same _ _ _ _ Hc). eauto 10.
      * destruct Ha as [_ [[Hi He]|[sid Hc]]]; [by left | right; eauto].
  - eapply select_new_spec in Ha as [_ Ha]; [|done]. destruct r as [[sid h]|e].
    + destruct Ha as (Hh & Hn & (c & Hc & Hc') & Hs & Hi). rewrite Hc', (set_get_same _ _ _ _ Hc). eauto 10.
    + destruct Ha as [_ [[Hi He]|[sid Hc]]]; [by left | right; eauto].
Qed.

(** ** Generation *)

Record TokenOutput := {
  token_ids : list Z;
  log_probs : option (list Q);
  routed_experts : option (list Z);
  num_preempted : option Z;
  stop_reason : option string;
  global_steps : option Z;
  min_global_steps : option (option Z);
  max_global_steps : option (option Z) }.

(** A call of a rollout server: prompt ids, token limit, state of the world. *)
Context {W : Type} (server_generate : H → list Z → option Z → W → result TokenOutput * W).

Definition setdefault_steps (o : TokenOutput) : TokenOutput :=
  {| token_ids := token_ids o; log_probs := log_probs o; routed_experts := routed_experts o;
     num_preempted := num_preempted o; stop_reason := stop_reason o; global_steps := global_steps o;
     min_global_steps := Some (default (global_steps o) (min_global_steps o));
     max_global_steps := Some (default (global_steps o) (max_global_steps o)) |}.

(** [LLMServerClient.generate]: acquire, generate, and release on every way out. *)
Definition generate (request_id : string) (prompt_ids : list Z) (limit : option Z)
    : stateR (balancer * W) TokenOutput := λ sw,
  match acquire_server request_id sw.1 with
  | (Raise e, s) => (Raise e, (s, sw.2))
  | (Ok (sid, handle), s) =>
      let '(out, w) := server_generate handle prompt_ids limit sw.2 in
      (setdefault_steps <$> out, (release_server sid s, w))
  end.

(** What [FullyAsyncLLMServerClient.generate] has accumulated. *)
Record accumulated := {
  acc_ids : list Z; acc_log_probs : list Q; acc_experts : option (list Z); acc_preempted : Z;
  acc_stop : option string; acc_min : option Z; acc_max : option Z }.

Definition empty_output : accumulated :=
  {| acc_ids := []; acc_log_probs := []; acc_experts := None; acc_preempted := 0; acc_stop := None;
     acc_min := None; acc_max := None |}.

Definition merge_output (acc : accumulated) (o : TokenOutput) : accumulated :=
  {| acc_ids := acc_ids acc ++ token_ids o;
     acc_log_probs := acc_log_probs acc ++ default [] (log_probs o);
     acc_experts :=
       match routed_experts o, token_ids o with
       | Some e, _ :: _ => match acc_experts acc with
                           | None => Some e
                           | Some e0 => Some (e0 ++ drop (length e - length (token_ids o)) e)
                           end
       | _, _ => acc_experts acc
       end;
     acc_preempted := (acc_preempted acc + default 0 (num_preempted o))%Z;
     acc_stop := stop_reason o;
     acc_min := match acc_min acc with None => global_steps o | m => m end;
     acc_max := global_steps o |}.

Definition aborted (o : TokenOutput) : bool :=
  match stop_reason o with Some r => bool_decide (r = "aborted"%string) || bool_decide (r = "abort"%string) | None => false end.

(** After a merge: stop because the budget is used up, stop because the server stopped,
    or go on with what is left of the budget. *)
Inductive next := Stop (acc : accumulated) (limit : option Z) | Again (acc : accumulated) (limit : option Z).

Definition with_stop (r : option string) (acc : accumulated) : accumulated :=
  {| acc_ids := acc_ids acc; acc_log_probs := acc_log_probs acc; acc_experts := acc_experts acc;
     acc_preempted := acc_preempted acc; acc_stop := r; acc_min := acc_min acc; acc_max := acc_max acc |}.

Definition after_merge (original_max_tokens limit : option Z) (acc : accumulated) (o : TokenOutput) : next :=
  let acc := merge_output acc o in
  match original_max_tokens with
  | Some m =>
      let limit := Some (m - Z.of_nat (length (acc_ids acc)))%Z in
      if Z.leb m (Z.of_nat (length (acc_ids acc))) then Stop (with_stop (Some "length"%string) acc) limit
      else if aborted o then Again acc limit else Stop acc limit
  | None => if aborted o then Again acc limit else Stop acc limit
  end.

(** The loop, [fuel] server calls at most; it also returns the token limit it leaves in
    the caller's [sampling_params]. *)
Fixpoint resume_loop (fuel : nat) (request_id : string) (prompt_ids : list Z)
    (original_max_tokens limit : option Z) (acc : accumulated)
    : stateR (balancer * W) (option (accumulated * option Z)) :=
  match fuel with
  | 0 => mret None
  | S fuel =>
      o ← generate request_id (prompt_ids ++ acc_ids acc) limit;
      match after_merge original_max_tokens limit acc o with
      | Stop acc limit => mret (Some (acc, limit))
      | Again acc limit => resume_loop fuel request_id prompt_ids original_max_tokens limit acc
      end
  end.

Definition generate_resuming (fuel : nat) (request_id : string) (prompt_ids : list Z) (max_tokens : option Z)
    : stateR (balancer * W) (option (accumulated * option Z)) :=
  resume_loop fuel request_id prompt_ids max_tokens max_tokens empty_output.

(** ** Lemmas: release undoes acquire *)

Lemma acquire_counts rid s sid h s' :
  wf s → acquire_server rid s = (Ok (sid, h), s') →
  ∃ n, dget sid (inflight s) = Some n ∧ inflight s' = dset sid (S n) (inflight s).
Proof using Type.
  intros Hwf Ha. unfold acquire_server in Ha. destruct (cache_get rid (cache s)) as [old|].
  - cbn zeta in Ha. destruct (dmem old _) eqn:Em.
    + assert (wf (with_cache (cache_touch rid (cache s)) s)) as Hwf' by done.
      destruct (hand_out_spec _ old Hwf' Em) as (h' & n & _ & Hn & Ho & _). rewrite Ho in Ha.
      injection Ha as <- <- <-. simpl in *. eauto.
    + eapply select_new_spec in Ha as [_ Ha]; [|done]. simpl in Ha. destruct Ha as (_ & Hn & _ & _ & Hi). eauto.
  - eapply select_new_spec in Ha as [_ Ha]; [|done]. destruct Ha as (_ & Hn & _ & _ & Hi). eauto.
Qed.

Lemma failed_acquire rid s e s' :
  wf s → acquire_server rid s = (Raise e, s') → inflight s' = inflight s.
Proof using Type.
  intros Hwf Ha. unfold acquire_server in Ha. destruct (cache_get rid (cache s)) as [old|].
  - cbn zeta in Ha. destruct (dmem old _) eqn:Em.
    + assert (wf (with_cache (cache_touch rid (cache s)) s)) as Hwf' by done.
      destruct (hand_out_spec _ old Hwf' Em) as (h' & n & _ & _ & Ho & _). by rewrite Ho in Ha.
    + eapply select_new_spec in Ha as [_ [-> _]]; [|done]. done.
  - by eapply select_new_spec in Ha as [_ [-> _]].
Qed.

Lemma generate_spec rid prompt limit sw r sw' :
  wf sw.1 → generate rid prompt limit sw = (r, sw') →
  wf sw'.1 ∧ (∀ sid, dget sid (inflight sw'.1) = dget sid (inflight sw.1)) ∧
  match acquire_server rid sw.1 with
  | (Ok (_, h), _) => r = setdefault_steps <$> (server_generate h prompt limit sw.2).1 ∧
                      sw'.2 = (server_generate h prompt limit sw.2).2
  | (Raise e, _) => r = Raise e
  end.
Proof using Type.
  intros Hwf Hg. unfold generate in Hg.
  destruct (acquire_server rid sw.1) as [[[sid h]|e] s] eqn:Ea.
  - destruct (server_generate h prompt limit sw.2) as [out w] eqn:Es. injection Hg as <- <-. simpl.
    pose proof (wf_acquire _ _ _ _ Hwf Ea) as Hws. split; [by apply wf_release|]. split; [|done].
    destruct (acquire_counts _ _ _ _ _ Hwf Ea) as (n & Hn & Hi).
    intros sid'. unfold release_server. rewrite Hi, dget_dset, bool_decide_eq_true_2 by done. simpl.
     rewrite !dget_dset. case_bool_decide; [by subst | done].
  - injection Hg as <- <-. simpl. split; [by eapply wf_acquire|]. split; [|done].
    intros sid. by rewrite (failed_acquire _ _ _ _ Hwf Ea).
Qed.

(** Generation never leaks a slot.  From any reachable state, a call of [generate]
    leaves the number of requests in flight of every server as it was, whether the
    server answered, raised, or could not be acquired at all. *)
Theorem generate_releases rid prompt limit s w r s' w' :
  lb_reachable s → generate rid prompt limit (s, w) = (r, (s', w')) →
  (∀ sid, get_inflight_count sid s' = get_inflight_count sid s).
Proof using Type.
  intros Hr%reachable_wf Hg sid. unfold get_inflight_count.
  apply generate_spec in Hg as (_ & Hi & _); [|done]. simpl in Hi. by rewrite Hi.
Qed.

(** ** Lemmas: resuming *)

(** Servers that produce pieces of one completion: whatever part they are given, they
    append a further part of it within the limit, and stop by themselves only at the end
    of the completion or at the limit; an aborted call produced something. *)
Definition serves (prompt full : list Z) : Prop :=
  ∀ h pre limit w, pre `prefix_of` full → (∀ l, limit = Some l → (0 <= l)%Z) →
    ∃ o w', server_generate h (prompt ++ pre) limit w = (Ok o, w') ∧
      (pre ++ token_ids o) `prefix_of` full ∧
      (∀ l, limit = Some l → (Z.of_nat (length (token_ids o)) <= l)%Z) ∧
      (if aborted o then token_ids o ≠ [] ∨ limit = Some 0%Z
       else pre ++ token_ids o = full ∨ limit = Some (Z.of_nat (length (token_ids o)))).

Definition budget_left (budget : option Z) (acc : accumulated) : option Z :=
  (λ m, m - Z.of_nat (length (acc_ids acc)))%Z <$> budget.

Lemma resume_loop_spec rid prompt full budget fuel acc sw :
  serves prompt full → (∀ k v c, is_ok (cache_set k v c) = true) →
  (∀ m, budget = Some m → (Z.of_nat (length (acc_ids acc)) <= m)%Z) →
  wf sw.1 → inflight sw.1 ≠ [] → acc_ids acc `prefix_of` full →
  length full - length (acc_ids acc) < fuel →
  ∃ acc' limit sw', resume_loop fuel rid prompt budget (budget_left budget acc) acc sw = (Ok (Some (acc', limit)), sw') ∧
    acc_ids acc' `prefix_of` full ∧ (∀ m, budget = Some m → (Z.of_nat (length (acc_ids acc')) <= m)%Z) ∧
    (acc_ids acc' = full ∨ budget = Some (Z.of_nat (length (acc_ids acc')))) ∧
    limit = budget_left budget acc' ∧
    (∀ sid, dget sid (inflight sw'.1) = dget sid (inflight sw.1)).
Proof using Type.
  intros Hserve Hcache. revert acc sw. induction fuel as [|fuel IH]; intros acc sw Hb Hwf Hne Hpre Hfuel; [lia|].
  simpl. unfold mbind, stateR_bind.
  destruct (generate rid (prompt ++ acc_ids acc) (budget_left budget acc) sw) as [r sw1] eqn:Eg.
  apply generate_spec in Eg as (Hwf1 & Hi & Hg); [|done].
  destruct (acquire_server rid sw.1) as [[[sid h]|e] s1] eqn:Ea.
  2:{ exfalso. unfold acquire_server in Ea.
      assert (Hsel : ∀ s, wf s → inflight s = inflight sw.1 → select_new rid s = (Raise e, s1) → False).
      { intros s Hws His Hsel. apply (select_new_spec _ _ _ _ Hws) in Hsel as [_ [_ [[Hz _]|[sid Hc]]]].
        - by rewrite His in Hz.
        - specialize (Hcache rid sid (cache s)). by rewrite Hc in Hcache. }
      destruct (cache_get rid (cache sw.1)) as [old|]; [|exact (Hsel _ Hwf eq_refl Ea)].
      cbn zeta in Ea. destruct (dmem old _) eqn:Em; [|refine (Hsel _ _ _ Ea); done].
      assert (wf (with_cache (cache_touch rid (cache sw.1)) sw.1)) as Hwf' by done.
      destruct (hand_out_spec _ old Hwf' Em) as (h' & n & _ & _ & Ho & _). by rewrite Ho in Ea. }
  destruct Hg as [Hr Hw]. destruct (Hserve h (acc_ids acc) (budget_left budget acc) sw.2 Hpre)
    as (o & w' & Ho & Hpre' & Hlim & Hstop).
  { intros l Hl. unfold budget_left in Hl. destruct budget as [m|]; [|done]. injection Hl as <-.
    specialize (Hb m eq_refl). lia. }
  rewrite Ho in Hr, Hw. simpl in Hr, Hw. subst r.
  assert (Hne1 : inflight sw1.1 ≠ []).
  { intros Hz. destruct (inflight sw.1) as [|[k n] l] eqn:El; [done|]. specialize (Hi k).
    rewrite Hz in Hi. simpl in Hi. by rewrite bool_decide_eq_true_2 in Hi. }
  assert (Hids : acc_ids (merge_output acc (setdefault_steps o)) = acc_ids acc ++ token_ids o) by done.
  assert (Hab : aborted (setdefault_steps o) = aborted o) by done.
  assert (Hb' : ∀ m, budget = Some m → (Z.of_nat (length (acc_ids acc ++ token_ids o)) <= m)%Z).
  { intros m Hm. specialize (Hb m Hm). specialize (Hlim (m - Z.of_nat (length (acc_ids acc)))%Z).
    unfold budget_left in Hlim. rewrite Hm in Hlim. specialize (Hlim eq_refl). rewrite length_app. lia. }
  set (acc1 := merge_output acc (setdefault_steps o)) in *.
  assert (Hcont : aborted o = true → (∀ m, budget = Some m → (Z.of_nat (length (acc_ids acc1)) < m)%Z) →
    ∃ acc' limit sw', resume_loop fuel rid prompt budget (budget_left budget acc1) acc1 sw1 = (Ok (Some (acc', limit)), sw') ∧
      acc_ids acc' `prefix_of` full ∧ (∀ m, budget = Some m → (Z.of_nat (length (acc_ids acc')) <= m)%Z) ∧
      (acc_ids acc' = full ∨ budget = Some (Z.of_nat (length (acc_ids acc')))) ∧
      limit = budget_left budget acc' ∧
      (∀ sid, dget sid (inflight sw'.1) = dget sid (inflight sw.1))).
  { intros Habo Hlt. rewrite Habo in Hstop.
    assert (token_ids o ≠ []) as Hsome.
    { destruct Hstop as [|Hz]; [done|]. unfold budget_left in Hz. destruct budget as [m|]; [|done].
      injection Hz as Hz. specialize (Hlt m eq_refl). rewrite Hids, length_app in Hlt. lia. }
    destruct (IH acc1 sw1) as (acc' & limit & sw' & Hrun & H1 & H2 & H3 & H4 & H5); try done.
    - rewrite Hids, length_app. apply prefix_length in Hpre'. rewrite length_app in Hpre'.
      destruct (token_ids o); [done | simpl in *; lia].
    - exists acc', limit, sw'. repeat (split; [done|]). intros k. by rewrite H5, Hi. }
  unfold after_merge. fold acc1. rewrite Hab. destruct budget as [m|].
  - destruct (Z.leb_spec m (Z.of_nat (length (acc_ids acc1)))) as [Hle|Hgt].
    + eexists _, _, sw1. split; [reflexivity|].
      change (acc_ids (with_stop (Some "length"%string) acc1)) with (acc_ids acc1). rewrite Hids. split; [done|]. split; [done|].
      specialize (Hb' m eq_refl). rewrite Hids in Hle. split; [right; f_equal; lia|]. by split.
    + destruct (aborted o) eqn:Habo.
      * apply Hcont; [done|]. intros ? [= <-]. done.
      * eexists _, _, sw1. split; [reflexivity|]. rewrite Hids. split; [done|]. split; [done|].
        split; [|by split]. destruct Hstop as [|Hz]; [by left|]. exfalso. unfold budget_left in Hz.
        injection Hz as Hz. rewrite Hids, length_app in Hgt. lia.
  - destruct (aborted o) eqn:Habo; [by apply Hcont|].
    eexists _, _, sw1. split; [reflexivity|]. rewrite Hids. split; [done|]. split; [done|].
    split; [|by split]. destruct Hstop as [|Hz]; [by left | done].
Qed.

(** Interruptions are invisible.  When the servers produce pieces of one completion,
    however often they abort and whichever server each piece comes from, the resuming
    client returns after at most one call more than the completion has tokens, with a
    prefix of that completion that is the whole of it unless the token budget cut it to
    exactly the budget; it never exceeds the budget, and no server keeps a slot. *)
Theorem resume_transparent rid prompt full budget s w :
  serves prompt full → (∀ k v c, is_ok (cache_set k v c) = true) →
  lb_reachable s → inflight s ≠ [] → (∀ m, budget = Some m → (0 <= m)%Z) →
  ∃ acc limit s' w', generate_resuming (S (length full)) rid prompt budget (s, w) = (Ok (Some (acc, limit)), (s', w')) ∧
    acc_ids acc `prefix_of` full ∧
    (∀ m, budget = Some m → (Z.of_nat (length (acc_ids acc)) <= m)%Z) ∧
    (acc_ids acc = full ∨ budget = Some (Z.of_nat (length (acc_ids acc)))) ∧
    (∀ sid, get_inflight_count sid s' = get_inflight_count sid s).
Proof using Type.
  intros Hserve Hcache Hr%reachable_wf Hne Hb.
  destruct (resume_loop_spec rid prompt full budget (S (length full)) empty_output (s, w) Hserve Hcache)
    as (acc & limit & [s' w'] & Hrun & H1 & H2 & H3 & _ & H5); try done.
  - apply prefix_nil.
  - simpl. lia.
  - exists acc, limit, s', w'. split; [|split; [done|split; [done|split; [done|]]]].
    + unfold generate_resuming. rewrite <-Hrun. f_equal. destruct budget as [m|]; [|done].
      unfold budget_left. simpl. f_equal. lia.
    + intros sid. unfold get_inflight_count. simpl in H5. by rewrite H5.
Qed.
End balancer.

(** ** A concrete cache and servers *)

(** An LRU cache of two entries: most recent first. *)
#[local] Instance two_entry_cache : LRUCache (list (string * string)) := {|
  cache_get := dget;
  cache_touch k c := match dget k c with Some v => (k, v) :: ddel k c | None => c end;
  cache_set k v c := Ok (take 2 ((k, v) :: ddel k c));
  cache_del := ddel |}.

#[local] Instance two_entry_laws : LRULaws (list (string * string)).
Proof.
  split; simpl.
  - intros c k k'. destruct (dget k c) as [v|] eqn:E; [|done]. simpl. rewrite dget_ddel.
    repeat case_bool_decide; congruence.
  - intros c c' k v [= <-]. simpl. by rewrite bool_decide_eq_true_2.
  - intros c c' k v k' v' [= <-] Hne Hg. assert (dget k' (take 1 (ddel k c)) = Some v') as Ht.
    { simpl in Hg. rewrite bool_decide_eq_false_2 in Hg by congruence. exact Hg. }
    assert (dget k' (ddel k c) = Some v') as Hd.
    { destruct (ddel k c) as [|[k0 v0] l]; [done|]. simpl in Ht |- *. destruct l; simpl in Ht;
        case_bool_decide; congruence. }
    rewrite dget_ddel in Hd. case_bool_decide; [done | exact Hd].
  - intros c k. rewrite dget_ddel. by rewrite bool_decide_eq_true_2.
  - intros c k k' Hne. rewrite dget_ddel. by rewrite bool_decide_eq_false_2.
Qed.

Definition two_servers : balancer (H := nat) (C := list (string * string)) :=
  {| servers := [("a", 1); ("b", 2)]%string; inflight := [("a", 0); ("b", 0)]%string; cache := [];
     full_determinism := false |}.

Lemma two_servers_reachable : lb_reachable (λ _, 0%Z) two_servers.
Proof.
  eapply reach_init with (pool := [("a", 1); ("b", 2)]%string) (c := []) (d := false); [|reflexivity].
  apply (bool_decide_unpack _). vm_compute. done.
Qed.

Lemma acquire_sticky_least_loaded_witness :
  ∃ s', acquire_server (λ _, 0%Z) "r1" two_servers = (Ok ("a"%string, 1), s') ∧
    cache_get "r1" (cache s') = Some "a"%string.
Proof.
  destruct (acquire_server (λ _, 0%Z) "r1" two_servers) as [r s'] eqn:E.
  pose proof (acquire_sticky_least_loaded (λ _, 0%Z) "r1" two_servers r s' two_servers_reachable E) as Ha.
  assert (r = Ok ("a"%string, 1)) as -> by (vm_compute in E; injection E as <- _; reflexivity).
  exists s'. split; [reflexivity|]. destruct Ha as (_ & _ & Hc & _). exact Hc.
Defined.

(** Servers that emit the completion [5; 6; 7] one token at a time, aborting each time but
    the last. *)
Definition one_by_one (_ : nat) (ids : list Z) (limit : option Z) (w : nat) : result TokenOutput * nat :=
  let rest := drop (length ids - 1) [5; 6; 7]%Z in
  let out := match limit with Some 0%Z => [] | _ => take 1 rest end in
  (Ok {| token_ids := out; log_probs := None; routed_experts := None; num_preempted := Some 1%Z;
         stop_reason := Some (if Nat.leb (length rest) 1 then "stop" else "abort")%string;
         global_steps := Some (Z.of_nat w); min_global_steps := None; max_global_steps := None |}, S w).

Lemma one_by_one_serves : serves one_by_one [1]%Z [5; 6; 7]%Z.
Proof.
  intros h pre limit w [post Hpost] Hl. unfold one_by_one.
  assert (length ([1]%Z ++ pre) - 1 = length pre) as -> by (simpl; lia).
  assert (drop (length pre) [5; 6; 7]%Z = post) as -> by (rewrite Hpost; apply drop_app_length).
  do 2 eexists. split; [reflexivity|]. cbn [token_ids].
  assert (∃ out, match limit with Some 0%Z => [] | _ => take 1 post end = out ∧
    (limit = Some 0%Z ∧ out = [] ∨ out = take 1 post ∧ ∀ l, limit = Some l → (1 <= l)%Z)) as (out & -> & Hout).
  { destruct limit as [[|p|p]|]; eexists; (split; [reflexivity|]); auto; right; (split; [done|]); intros l [= <-]; try lia.
    specialize (Hl _ eq_refl). lia. }
  split; [|split].
  - rewrite Hpost. destruct Hout as [[_ ->]|[-> _]]; [rewrite app_nil_r; by exists post|].
    exists (drop 1 post). by rewrite <-(assoc_L (++)), take_drop.
  - intros l Hlim. destruct Hout as [[Hz ->]|[-> H1]]; [specialize (Hl l Hlim); simpl; lia|].
    specialize (H1 l Hlim). rewrite length_take. lia.
  - unfold aborted. cbn [stop_reason]. destruct (Nat.leb_spec (length post) 1) as [Hle|Hgt]; simpl.
    + destruct Hout as [[-> ->]|[-> _]]; [by right|]. left. rewrite Hpost, take_ge by lia. done.
    + destruct Hout as [[-> ->]|[-> _]]; [by right|]. left. destruct post; [simpl in Hgt; lia | done].
Qed.

Lemma generate_releases_witness :
  ∃ r s' w', generate (λ _, 0%Z) one_by_one "r1" [1]%Z None (two_servers, 0) = (r, (s', w')) ∧
    get_inflight_count "a" s' = 0.
Proof.
  destruct (generate (λ _, 0%Z) one_by_one "r1" [1]%Z None (two_servers, 0)) as [r [s' w']] eqn:E.
  exists r, s', w'. split; [reflexivity|].
  rewrite (generate_releases (λ _, 0%Z) one_by_one "r1" [1]%Z None two_servers 0 r s' w' two_servers_reachable E).
  reflexivity.
Defined.

Lemma resume_transparent_witness :
  ∃ acc limit s' w', generate_resuming (λ _, 0%Z) one_by_one 4 "r1" [1]%Z (Some 2%Z) (two_servers, 0) =
      (Ok (Some (acc, limit)), (s', w')) ∧ (Z.of_nat (length (acc_ids acc)) <= 2)%Z.
Proof.
  destruct (resume_transparent (λ _, 0%Z) one_by_one "r1" [1]%Z [5; 6; 7]%Z (Some 2%Z) two_servers 0
    one_by_one_serves) as (acc & limit & s' & w' & Hrun & _ & Hle & _).
  - reflexivity.
  - exact two_servers_reachable.
  - discriminate.
  - intros m [= <-]. lia.
  - exists acc, limit, s', w'. split; [exact Hrun | exact (Hle 2%Z eq_refl)].
Defined.
