(* ===== verification/BucketedTransfer.v ===== *)
(** * Bucketed weight transfer

    [src/verl/workers/rollout/vllm_rollout/bucketed_weight_transfer.py]: the trainer
    packs named tensors into a shared buffer and announces each bucket; the rollout
    worker rebuilds the tensors and hands them to a callback.  The two sides run in
    lockstep (the sender waits for an acknowledgement before touching the buffer again),
    so a message carries the buffer as it was when sent.  Tensor contents are bytes; an
    IPC handle of a large tensor stands for its contents.  A receiver that raises no longer
    acknowledges; what the sender then waits for, socket set-up and clean-up are not modelled. *)

From S2P Require Import Prelude PyDict.
Local Open Scope py_scope.

Record tensor_type := { dtype : string; itemsize : nat; tshape : list nat }.

Record weight := { w_type : tensor_type; w_data : list Z }.

Definition numel (t : tensor_type) : nat := foldr Nat.mul 1 (tshape t).
Definition size_of (t : tensor_type) : nat := itemsize t * numel t.
Definition nbytes (w : weight) : nat := length (w_data w).

(** A tensor's bytes are its elements'. *)
Definition wf_weight (w : weight) : Prop := size_of (w_type w) = nbytes w.

Record TensorMetadata := { m_type : tensor_type; m_offset : nat; m_handle : option (list Z) }.

Record message := { bucket_meta : list (string * TensorMetadata); is_last : bool; snapshot : list Z }.

(** ** The sender *)

Record sender := { s_offset : nat; s_meta : list (string * TensorMetadata); s_buffer : list Z; s_sent : list message }.

Section sender.
Context (bucket_size : nat) (use_shm : bool).

Definition init_sender : sender :=
  {| s_offset := 0; s_meta := []; s_buffer := repeat 0%Z bucket_size; s_sent := [] |}.

(** [buffer[offset : offset + n].copy_(data)] *)
Definition copy_into (offset : nat) (data buffer : list Z) : list Z :=
  take offset buffer ++ data ++ drop (offset + length data) buffer.

Definition send (last : bool) (meta : list (string * TensorMetadata)) (s : sender) : sender :=
  {| s_offset := s_offset s; s_meta := s_meta s; s_buffer := s_buffer s;
     s_sent := s_sent s ++ [{| bucket_meta := meta; is_last := last; snapshot := s_buffer s |}] |}.

Definition flush (s : sender) : sender :=
  let s := send false (s_meta s) s in
  {| s_offset := 0; s_meta := []; s_buffer := s_buffer s; s_sent := s_sent s |}.

Definition direct_send_large_weight (name : string) (w : weight) (s : sender) : sender :=
  send false (dset name {| m_type := w_type w; m_offset := 0; m_handle := Some (w_data w) |} []) s.

Definition put_in_bucket (name : string) (w : weight) (s : sender) : sender :=
  {| s_offset := s_offset s + nbytes w;
     s_meta := dset name {| m_type := w_type w; m_offset := s_offset s; m_handle := None |} (s_meta s);
     s_buffer := copy_into (s_offset s) (w_data w) (s_buffer s); s_sent := s_sent s |}.

Definition send_weight (s : sender) (nw : string * weight) : result sender :=
  let '(name, w) := nw in
  let s := if Nat.ltb bucket_size (s_offset s + nbytes w) && negb (Nat.eqb (length (s_meta s)) 0)
           then flush s else s in
  if Nat.ltb bucket_size (s_offset s + nbytes w) then
    require negb use_shm else AssertionError "Weight is too large to fit in the bucket." ;;
    Ok (direct_send_large_weight name w s)
  else Ok (put_in_bucket name w s).

Definition send_weights (weights : list (string * weight)) : result (list message) :=
  s ← foldM send_weight init_sender weights;
  Ok (s_sent (send true (s_meta s) s)).
End sender.

(** ** The receiver *)

(** [data.view(dtype).view(shape)] of bytes that start at [offset] of a buffer. *)
Definition view_as (offset : nat) (t : tensor_type) (data : list Z) : result weight :=
  require Nat.eqb (length data mod itemsize t) 0 else RuntimeError "self.size(-1) must be divisible" ;;
  require Nat.eqb (offset mod itemsize t) 0 else RuntimeError "self.storage_offset() must be divisible" ;;
  require Nat.eqb (length data) (size_of t) else RuntimeError "shape is invalid for input" ;;
  Ok {| w_type := t; w_data := data |}.

Definition rebuild (buffer : list Z) (m : TensorMetadata) : result weight :=
  match m_handle m with
  | Some data => Ok {| w_type := m_type m; w_data := data |}
  | None => view_as (m_offset m) (m_type m) (slice (m_offset m) (m_offset m + size_of (m_type m)) buffer)
  end.

(** The tensors one message hands to the callback. *)
Definition receive_bucket (msg : message) : result (list (string * weight)) :=
  mapM (λ nm, w ← rebuild (snapshot msg) nm.2; Ok (nm.1, w)) (bucket_meta msg).

(** What the callback is handed, bucket by bucket, and how the loop ends: after the message
    marked last, or with the exception of a bucket. *)
Fixpoint receive_weights (msgs : list message) : list (list (string * weight)) * result unit :=
  match msgs with
  | [] => ([], Ok tt)
  | m :: msgs =>
      match receive_bucket m with
      | Raise e => ([], Raise e)
      | Ok ws => if is_last m then ([ws], Ok tt)
                 else let '(buckets, r) := receive_weights msgs in (ws :: buckets, r)
      end
  end.

(** ** Lemmas *)

Lemma slice_copy_same offset data buffer :
  offset + length data ≤ length buffer →
  slice offset (offset + length data) (copy_into offset data buffer) = data.
Proof.
  intros Hl. unfold copy_into, slice.
  rewrite drop_app_length' by (rewrite length_take; lia).
  by rewrite take_app_length' by lia.
Qed.

Lemma slice_copy_below a b offset data buffer :
  a ≤ b → b ≤ offset → offset ≤ length buffer →
  slice a b (copy_into offset data buffer) = slice a b buffer.
Proof.
  intros Hab Hb Hl. unfold copy_into, slice.
  rewrite drop_app_le by (rewrite length_take; lia).
  rewrite take_app_le by (rewrite length_drop, length_take; lia).
  rewrite <-(take_drop offset buffer) at 2. rewrite drop_app_le by (rewrite length_take; lia).
  rewrite take_app_le by (rewrite length_drop, length_take; lia). done.
Qed.

Lemma copy_into_length offset data buffer :
  offset + length data ≤ length buffer → length (copy_into offset data buffer) = length buffer.
Proof. intros Hl. unfold copy_into. rewrite !length_app, length_take, length_drop. lia. Qed.

(** What a bucket holds for a tensor, whether torch can view it or not. *)
Definition contents (buffer : list Z) (m : TensorMetadata) : weight :=
  {| w_type := m_type m;
     w_data := match m_handle m with
               | Some data => data
               | None => slice (m_offset m) (m_offset m + size_of (m_type m)) buffer
               end |}.
Definition decode (buffer : list Z) (meta : list (string * TensorMetadata)) : list (string * weight) :=
  (λ nm, (nm.1, contents buffer nm.2)) <$> meta.

(** Every buffered entry of the open bucket lies below its offset. *)
Definition below (offset : nat) (meta : list (string * TensorMetadata)) : Prop :=
  Forall (λ nm, m_handle nm.2 = None ∧ m_offset nm.2 + size_of (m_type nm.2) ≤ offset) meta.

(** A buffered entry lies in the buffer. *)
Definition in_buffer (msg : message) : Prop :=
  Forall (λ nm, m_handle nm.2 = None → m_offset nm.2 + size_of (m_type nm.2) ≤ length (snapshot msg)) (bucket_meta msg).
Definition bucket (msg : message) : list (string * weight) := decode (snapshot msg) (bucket_meta msg).
Definition received (msgs : list message) : list (string * weight) := concat (bucket <$> msgs).

Definition sender_inv (bucket_size : nat) (done_ws : list (string * weight)) (s : sender) : Prop :=
  ∃ pending, done_ws = received (s_sent s) ++ pending ∧ decode (s_buffer s) (s_meta s) = pending ∧
    below (s_offset s) (s_meta s) ∧ s_offset s ≤ bucket_size ∧ length (s_buffer s) = bucket_size ∧
    (s_meta s = [] → s_offset s = 0) ∧
    Forall (λ m, is_last m = false ∧ in_buffer m) (s_sent s).

Lemma decode_keys buffer meta : (decode buffer meta).*1 = keys meta.
Proof. unfold decode, keys. rewrite <-list_fmap_compose. apply list_fmap_ext. done. Qed.

Lemma received_snoc msgs m : received (msgs ++ [m]) = received msgs ++ bucket m.
Proof. unfold received. rewrite fmap_app, concat_app. simpl. by rewrite app_nil_r. Qed.

Lemma flush_inv n ws s : sender_inv n ws s → sender_inv n ws (flush s).
Proof.
  intros (p & -> & Hp & Hbelow & Ho & Hb & _ & Hl). exists []. unfold flush. simpl.
  rewrite received_snoc, app_nil_r. unfold bucket. simpl.
  rewrite Hp. repeat split; try done; try lia; try constructor.
  apply Forall_app. split; [done|]. apply Forall_singleton. split; [done|].
  eapply Forall_impl; [exact Hbelow|]. intros nm [_ Hm] _. simpl. lia.
Qed.

Lemma put_inv n ws s name w :
  sender_inv n ws s → wf_weight w → name ∉ ws.*1 → s_offset s + nbytes w ≤ n →
  sender_inv n (ws ++ [(name, w)]) (put_in_bucket name w s).
Proof.
  intros (p & -> & Hp & Hbelow & Ho & Hb & Hz & Hl) Hwf Hnew Hfit.
  exists (p ++ [(name, w)]). unfold put_in_bucket. simpl. unfold wf_weight, nbytes in *.
  rewrite fmap_app in Hnew. assert (name ∉ keys (s_meta s)) as Hk
    by (rewrite <-(decode_keys (s_buffer s)), Hp; intros Hin; apply Hnew, elem_of_app; by right).
  rewrite (dset_new _ _ _ Hk). split; [by rewrite (assoc_L (++))|]. split; [|split; [|split; [|split; [|split]]]].
  - unfold decode. rewrite fmap_app. simpl. rewrite <-Hp. f_equal.
    + unfold decode. apply list_fmap_ext. intros i [k m] Hi. simpl. f_equal.
      eapply Forall_lookup_1 in Hbelow as [Hh Hm]; [|exact Hi]. simpl in Hh, Hm.
      unfold contents. rewrite Hh. f_equal. apply slice_copy_below; lia.
    + unfold contents. simpl. rewrite Hwf, slice_copy_same by lia. by destruct w.
  - apply Forall_app. split.
    + eapply Forall_impl; [exact Hbelow|]. intros [k m] [Hh Hm]. simpl in *. split; [done | lia].
    + repeat constructor; simpl; lia.
  - lia.
  - rewrite copy_into_length by lia. done.
  - intros Hz'. by destruct (s_meta s).
  - done.
Qed.

Lemma direct_inv n ws s name w :
  sender_inv n ws s → s_meta s = [] → sender_inv n (ws ++ [(name, w)]) (direct_send_large_weight name w s).
Proof.
  intros (p & -> & Hp & Hbelow & Ho & Hb & Hz & Hl) He. exists []. unfold direct_send_large_weight. simpl.
  rewrite He in *. simpl in Hp. subst p. rewrite !app_nil_r, received_snoc.
  repeat split; try done.
  - f_equal. unfold bucket. simpl. by destruct w.
  - apply Forall_app. split; [done|]. apply Forall_singleton. split; [done|]. by apply Forall_singleton.
Qed.

Lemma send_weight_inv n shm ws s name w s' :
  sender_inv n ws s → wf_weight w → name ∉ ws.*1 →
  send_weight n shm s (name, w) = Ok s' → sender_inv n (ws ++ [(name, w)]) s'.
Proof.
  intros Hinv Hwf Hnew Hs. unfold send_weight in Hs.
  set (s0 := if Nat.ltb n (s_offset s + nbytes w) && _ then _ else _) in Hs.
  assert (sender_inv n ws s0 ∧ (n < s_offset s0 + nbytes w → s_meta s0 = [])) as [Hinv0 Hempty].
  { unfold s0. destruct (Nat.ltb_spec n (s_offset s + nbytes w)) as [Hlt|Hge]; simpl; [|split; [done|lia]].
    destruct (Nat.eqb_spec (length (s_meta s)) 0) as [Hl|Hl]; simpl.
    - split; [done|]. intros _. by destruct (s_meta s).
    - split; [by apply flush_inv | done]. }
  destruct (Nat.ltb_spec n (s_offset s0 + nbytes w)) as [Hlt|Hge].
  - inv_ok Hs. injection Hs as <-. apply direct_inv; auto.
  - injection Hs as <-. by apply put_inv.
Qed.

Lemma send_weight_ok n shm s name w :
  (shm = true → nbytes w ≤ n) → (s_meta s = [] → s_offset s = 0) →
  ∃ s', send_weight n shm s (name, w) = Ok s'.
Proof.
  intros Hfit Hz. unfold send_weight.
  set (s0 := if Nat.ltb n (s_offset s + nbytes w) && _ then _ else _).
  destruct (Nat.ltb_spec n (s_offset s0 + nbytes w)) as [Hlt|]; [|eauto].
  destruct shm; simpl; [|eauto]. exfalso. specialize (Hfit eq_refl). revert Hlt. unfold s0.
  destruct (Nat.ltb_spec n (s_offset s + nbytes w)) as [Hlt|Hge]; simpl; [|lia].
  destruct (Nat.eqb_spec (length (s_meta s)) 0) as [Hl|Hl]; simpl; [|lia].
  rewrite Hz by (by destruct (s_meta s)). lia.
Qed.

Lemma send_weight_too_large n s name w :
  n < nbytes w →
  send_weight n true s (name, w) = Raise (AssertionError "Weight is too large to fit in the bucket.").
Proof.
  intros Hbig. unfold send_weight.
  set (s0 := if Nat.ltb n (s_offset s + nbytes w) && _ then _ else _).
  by rewrite (proj2 (Nat.ltb_lt n (s_offset s0 + nbytes w))) by lia.
Qed.

Lemma send_loop n shm ws0 s ws :
  sender_inv n ws0 s → Forall (λ nw, wf_weight nw.2 ∧ (shm = true → nbytes nw.2 ≤ n)) ws →
  NoDup (ws0 ++ ws).*1 →
  ∃ s', foldM (send_weight n shm) s ws = Ok s' ∧ sender_inv n (ws0 ++ ws) s'.
Proof.
  revert ws0 s. induction ws as [|[name w] ws IH]; intros ws0 s Hinv Hall Hnd.
  - exists s. by rewrite app_nil_r.
  - inversion_clear Hall as [|? ? [Hwf Hfit] Hall']. simpl in Hwf, Hfit.
    destruct (send_weight_ok n shm s name w Hfit) as [s1 Hs1].
    { destruct Hinv as (p & _ & _ & _ & _ & _ & Hz & _). exact Hz. }
    assert (name ∉ ws0.*1) as Hnew.
    { rewrite fmap_app in Hnd. apply NoDup_app in Hnd as (_ & Hd & _). intros Hin.
      apply (Hd name Hin). csimpl. by left. }
    pose proof (send_weight_inv _ _ _ _ _ _ _ Hinv Hwf Hnew Hs1) as Hinv1.
    destruct (IH (ws0 ++ [(name, w)]) s1 Hinv1 Hall') as (s' & Hrun & Hinv').
    { by rewrite <-(assoc_L (++)). }
    exists s'. cbn [foldM]. rewrite Hs1. split; [exact Hrun|]. by rewrite <-(assoc_L (++)) in Hinv'.
Qed.

(** Whether torch can view every buffered tensor of the messages. *)
Definition views_aligned (msgs : list message) : bool :=
  forallb (λ m, forallb (λ nm : string * TensorMetadata, match m_handle nm.2 with
                                   | Some _ => true
                                   | None => Nat.eqb (m_offset nm.2 mod itemsize (m_type nm.2)) 0
                                   end) (bucket_meta m)) msgs.

Lemma rebuild_spec buffer m : (m_handle m = None → m_offset m + size_of (m_type m) ≤ length buffer) →
  rebuild buffer m = if match m_handle m with Some _ => true | None => Nat.eqb (m_offset m mod itemsize (m_type m)) 0 end
                     then Ok (contents buffer m) else Raise (RuntimeError "self.storage_offset() must be divisible").
Proof.
  intros Hin. unfold rebuild, contents. destruct (m_handle m); [done|]. specialize (Hin eq_refl). unfold view_as.
  assert (Hl : length (slice (m_offset m) (m_offset m + size_of (m_type m)) buffer) = size_of (m_type m))
    by (unfold slice; rewrite length_take, length_drop; lia).
  assert (Hsize : size_of (m_type m) mod itemsize (m_type m) = 0) by (unfold size_of; by rewrite Nat.mul_comm, Nat.Div0.mod_mul).
  rewrite Hl, Hsize, !Nat.eqb_refl. by destruct (Nat.eqb _ 0).
Qed.

Lemma receive_bucket_spec m : in_buffer m →
  receive_bucket m = if views_aligned [m] then Ok (bucket m) else Raise (RuntimeError "self.storage_offset() must be divisible").
Proof.
  intros Hin. unfold receive_bucket, views_aligned, bucket, decode. cbn [forallb]. rewrite andb_true_r. unfold in_buffer in Hin.
  induction Hin as [|nm l Hnm _ IH]; [done|]. cbn [mapM forallb]. rewrite (rebuild_spec _ _ Hnm).
  destruct (match m_handle nm.2 with Some _ => true | None => _ end); [|done]. cbn [mbind result_bind andb]. rewrite IH.
  by destruct (forallb _ l).
Qed.

(** The receiver is handed every bucket, or those before the first that has a tensor which
    torch cannot view. *)
Lemma receive_all msgs m : Forall (λ m, is_last m = false ∧ in_buffer m) msgs → is_last m = true → in_buffer m →
  if views_aligned (msgs ++ [m]) then receive_weights (msgs ++ [m]) = (bucket <$> (msgs ++ [m]), Ok tt)
  else ∃ n, n < length (msgs ++ [m]) ∧ receive_weights (msgs ++ [m]) =
    (take n (bucket <$> (msgs ++ [m])), Raise (RuntimeError "self.storage_offset() must be divisible")).
Proof.
  intros Hall Hm Hin. induction Hall as [|m' msgs [Hm' Hin'] _ IH].
  - cbn [app receive_weights fmap list_fmap]. rewrite (receive_bucket_spec m Hin), Hm. destruct (views_aligned [m]); [done|exists 0; cbn; split; [lia|done]].
  - change ((m' :: msgs) ++ [m]) with ([m'] ++ (msgs ++ [m])). assert (Hsplit : views_aligned ([m'] ++ (msgs ++ [m])) = views_aligned [m'] && views_aligned (msgs ++ [m]))
      by (unfold views_aligned; apply forallb_app).
    rewrite Hsplit. change ([m'] ++ (msgs ++ [m])) with (m' :: (msgs ++ [m])). cbn [receive_weights]. rewrite (receive_bucket_spec m' Hin'), Hm'.
    destruct (views_aligned [m']); [|exists 0; cbn; split; [lia|done]]. cbn [andb]. destruct (views_aligned (msgs ++ [m])).
    + by rewrite IH.
    + destruct IH as (n & Hn & ->). exists (S n). cbn [length]. split; [lia|done].
Qed.

(** *** Element sizes that divide every tensor keep the offsets aligned *)

Section offsets.
Context (K : nat → Prop).
Definition divided (off : nat) : Prop := ∀ k, K k → Nat.divide k off.
Definition entry_aligned (nm : string * TensorMetadata) : Prop := K (itemsize (m_type nm.2)) ∧ divided (m_offset nm.2).
Definition sender_aligned (s : sender) : Prop :=
  divided (s_offset s) ∧ Forall entry_aligned (s_meta s) ∧ Forall (λ m, Forall entry_aligned (bucket_meta m)) (s_sent s).

Lemma divided_zero : divided 0.
Proof. intros k _. apply Nat.divide_0_r. Qed.
Lemma dset_aligned name m (meta : list (string * TensorMetadata)) : Forall entry_aligned meta → entry_aligned (name, m) → Forall entry_aligned (dset name m meta).
Proof.
  intros Hmeta Hm. induction Hmeta as [|[k v] meta Hkv Hmeta IH]; cbn [dset]; [by apply Forall_singleton|].
  case_bool_decide; by constructor.
Qed.
Lemma send_weight_aligned n shm s name w s' : sender_aligned s → K (itemsize (w_type w)) → divided (nbytes w) →
  send_weight n shm s (name, w) = Ok s' → sender_aligned s'.
Proof.
  intros Hs HK Hw H. unfold send_weight in H. set (s0 := if Nat.ltb n (s_offset s + nbytes w) && _ then _ else _) in H.
  assert (H0 : sender_aligned s0).
  { unfold s0. destruct (_ && _); [|done]. destruct Hs as (_ & Hmeta & Hsent). unfold flush, sender_aligned. cbn.
    split_and!; [apply divided_zero|constructor|]. apply Forall_app. by split; [|apply Forall_singleton]. }
  destruct H0 as (Ho & Hmeta & Hsent). destruct (Nat.ltb_spec n (s_offset s0 + nbytes w)).
  - apply require_inv in H as [_ H]. injection H as <-. unfold direct_send_large_weight, send, sender_aligned. cbn.
    split_and!; [done|done|]. apply Forall_app. split; [done|]. apply Forall_singleton, Forall_singleton. split; [done|apply divided_zero].
  - injection H as <-. unfold put_in_bucket, sender_aligned. cbn. split_and!; [|by apply dset_aligned|done].
    intros k Hk. apply Nat.divide_add_r; auto.
Qed.
Lemma send_loop_aligned n shm ws s s' : sender_aligned s → Forall (λ nw : string * weight, K (itemsize (w_type nw.2)) ∧ divided (nbytes nw.2)) ws →
  foldM (send_weight n shm) s ws = Ok s' → sender_aligned s'.
Proof.
  intros Hs Hall. revert s Hs. induction Hall as [|[name w] ws [HK Hw] _ IH]; intros s Hs; cbn [foldM]; [by intros [= <-]|].
  intros H. apply bind_Ok_inv in H as (s1 & H1 & H). eapply IH; [|exact H]. by eapply send_weight_aligned.
Qed.
Lemma aligned_views msgs : Forall (λ m, Forall entry_aligned (bucket_meta m)) msgs → views_aligned msgs = true.
Proof.
  intros Hall. apply forallb_forall. intros m Hm%list_elem_of_In. rewrite Forall_forall in Hall. apply forallb_forall. intros nm Hnm%list_elem_of_In.
  pose proof (Hall m Hm) as He. rewrite Forall_forall in He. destruct (He nm Hnm) as [HK Hd]. destruct (m_handle nm.2); [done|].
  apply Nat.eqb_eq, Nat.Lcm0.mod_divide. by apply Hd.
Qed.
End offsets.

Lemma init_sender_inv n : sender_inv n [] (init_sender n).
Proof.
  exists []. unfold init_sender. simpl. repeat split; try done; try constructor; try lia.
  apply repeat_length.
Qed.

(** What a sender that has finished delivers. *)
Lemma delivered n ws s : sender_inv n ws s →
  let msgs := s_sent (send true (s_meta s) s) in
  if views_aligned msgs then
    (receive_weights msgs).2 = Ok tt ∧ concat (receive_weights msgs).1 = ws ∧ length (receive_weights msgs).1 = length msgs
  else
    (receive_weights msgs).2 = Raise (RuntimeError "self.storage_offset() must be divisible") ∧
    concat (receive_weights msgs).1 `prefix_of` ws ∧ length (receive_weights msgs).1 < length msgs.
Proof.
  intros (p & Hws & Hp & Hbelow & Ho & Hb & _ & Hl) msgs. subst msgs. unfold send. cbn [s_sent].
  set (m := {| bucket_meta := s_meta s; is_last := true; snapshot := s_buffer s |}).
  assert (Hlast : in_buffer m) by (eapply Forall_impl; [exact Hbelow|]; intros nm [_ Hm] _; simpl; lia).
  assert (Hall : concat (bucket <$> s_sent s ++ [m]) = ws).
  { rewrite Hws. unfold received. rewrite fmap_app, concat_app. f_equal. cbn [fmap list_fmap concat]. rewrite app_nil_r. exact Hp. }
  pose proof (receive_all _ m Hl eq_refl Hlast) as Hr. destruct (views_aligned _).
  - rewrite Hr. cbn [fst snd]. by rewrite length_fmap.
  - destruct Hr as (k & Hk & ->). cbn [fst snd]. split; [done|]. split.
    + rewrite <-Hall. exists (concat (drop k (bucket <$> s_sent s ++ [m]))). by rewrite <-concat_app, take_drop.
    + rewrite length_take, length_fmap. lia.
Qed.

Lemma offsets_aligned n shm ws s : foldM (send_weight n shm) (init_sender n) ws = Ok s →
  Forall (λ nw, Forall (λ nw', Nat.divide (itemsize (w_type nw'.2)) (nbytes nw.2)) ws) ws →
  views_aligned (s_sent (send true (s_meta s) s)) = true.
Proof.
  intros Hs Hdiv. set (K := λ k, ∃ nw, nw ∈ ws ∧ k = itemsize (w_type nw.2)).
  assert (Hall : sender_aligned K s).
  { apply (send_loop_aligned K n shm ws (init_sender n)); [|apply Forall_forall|exact Hs].
    - split_and!; [apply divided_zero|constructor|constructor].
    - intros nw Hin. split; [by exists nw|]. intros k (nw' & Hin' & ->). rewrite Forall_forall in Hdiv. pose proof (Hdiv nw Hin) as Hd.
      rewrite Forall_forall in Hd. by apply Hd. }
  destruct Hall as (_ & Hmeta & Hsent). apply (aligned_views K). apply Forall_app. by split; [|apply Forall_singleton].
Qed.

(** A tensor that does not fit ends the sender. *)
Lemma too_large_raises n ws : NoDup ws.*1 → Forall (λ nw, wf_weight nw.2) ws → Exists (λ nw : string * weight, n < nbytes nw.2) ws →
  send_weights n true ws = Raise (AssertionError "Weight is too large to fit in the bucket.").
Proof.
  intros Hnd Hwf Hbig. unfold send_weights.
  assert (∃ pre w' post, ws = pre ++ w' :: post ∧ Forall (λ nw, nbytes nw.2 ≤ n) pre ∧ n < nbytes w'.2)
    as (pre & [name' w'] & post & -> & Hpre & Hbig').
  { clear -Hbig. induction Hbig as [nw ws Hlt|nw ws _ IH]; [exists [], nw, ws; by repeat constructor|].
    destruct (decide (n < nbytes nw.2)) as [Hlt|Hge]; [exists [], nw, ws; by repeat constructor|].
    destruct IH as (pre & w' & post & -> & Hpre & Hb). exists (nw :: pre), w', post.
    repeat split; [constructor; [lia | done] | done]. }
  rewrite foldM_app. apply Forall_app in Hwf as [Hwf1 Hwf2].
  destruct (send_loop n true [] (init_sender n) pre) as (s1 & -> & Hinv).
  + apply init_sender_inv.
  + apply Forall_and. split; [done|]. eapply Forall_impl; [exact Hpre|]. done.
  + simpl. rewrite fmap_app in Hnd. by apply NoDup_app in Hnd as [? _].
  + simpl in Hbig'. cbn [mbind result_bind foldM]. by rewrite send_weight_too_large.
Qed.

(** ** Properties *)

(** C13: Every weight that torch can view arrives intact.  For tensors with distinct names,
    whatever their sizes and the bucket size: a tensor larger than a shared-memory bucket
    fails the sender.  Otherwise, if every buffered tensor starts at a multiple of its
    element size, the callback of the receiver is handed all of them, once each, in order
    and byte for byte, one bucket per message, and the receiver stops exactly at the
    sender's final message; if not, the receiver raises and has been handed the buckets
    before the offending one.  Element sizes that divide the size of every tensor, such as a
    single element type, cannot cause that. *)
Theorem bucketed_transfer_roundtrip n shm (ws : list (string * weight)) :
  NoDup ws.*1 → Forall (λ nw, wf_weight nw.2) ws →
  if bool_decide (shm = true ∧ Exists (λ nw, n < nbytes nw.2) ws) then
    send_weights n shm ws = Raise (AssertionError "Weight is too large to fit in the bucket.")
  else
    ∃ msgs, send_weights n shm ws = Ok msgs ∧
      (if views_aligned msgs then
         (receive_weights msgs).2 = Ok tt ∧ concat (receive_weights msgs).1 = ws ∧ length (receive_weights msgs).1 = length msgs
       else
         (receive_weights msgs).2 = Raise (RuntimeError "self.storage_offset() must be divisible") ∧
         concat (receive_weights msgs).1 `prefix_of` ws ∧ length (receive_weights msgs).1 < length msgs) ∧
      (Forall (λ nw, Forall (λ nw', Nat.divide (itemsize (w_type nw'.2)) (nbytes nw.2)) ws) ws → views_aligned msgs = true).
Proof.
  intros Hnd Hwf. case_bool_decide as Hbig; [destruct Hbig as [-> Hbig]; by apply too_large_raises|].
  destruct (send_loop n shm [] (init_sender n) ws) as (s & Hs & Hinv); [apply init_sender_inv| |done|].
  - apply Forall_and. split; [done|]. apply Forall_forall. intros nw Hin Hshm.
    destruct (decide (nbytes nw.2 ≤ n)) as [|Hgt]; [done|]. exfalso. apply Hbig. split; [done|].
    apply Exists_exists. exists nw. split; [done | lia].
  - exists (s_sent (send true (s_meta s) s)). split; [unfold send_weights; by rewrite Hs|]. split; [by apply (delivered n)|].
    by apply (offsets_aligned n shm).
Qed.

(** Three weights through 4-byte buckets: two share a bucket, a 6-byte one goes directly. *)
Definition byte_tensor (n : nat) : tensor_type := {| dtype := "uint8"; itemsize := 1; tshape := [n] |}.
Definition sample_weights : list (string * weight) :=
  [("a", {| w_type := byte_tensor 2; w_data := [1; 2]%Z |});
   ("b", {| w_type := byte_tensor 1; w_data := [3]%Z |});
   ("c", {| w_type := byte_tensor 6; w_data := [4; 5; 6; 7; 8; 9]%Z |})]%string.

Lemma bucketed_transfer_roundtrip_witness :
  ∃ msgs, send_weights 4 false sample_weights = Ok msgs ∧ (receive_weights msgs).2 = Ok tt ∧ concat (receive_weights msgs).1 = sample_weights.
Proof.
  pose proof (bucketed_transfer_roundtrip 4 false sample_weights) as Hr.
  rewrite bool_decide_eq_false_2 in Hr by (intros [? _]; discriminate).
  destruct Hr as (msgs & Hm & Hd & Hal).
  - apply (bool_decide_unpack _). vm_compute. exact I.
  - repeat constructor.
  - rewrite Hal in Hd; [exists msgs; split; [exact Hm|split; apply Hd]|].
    repeat constructor; first [by exists 1|by exists 2|by exists 6].
Defined.

(** A [float32] tensor behind an odd number of [bfloat16] elements cannot be viewed: the
    receiver raises and hands over nothing. *)
Example odd_offset_raises :
  (receive_weights <$> send_weights 16 false
     [("w", {| w_type := {| dtype := "bfloat16"; itemsize := 2; tshape := [1] |}; w_data := [1; 2]%Z |});
      ("v", {| w_type := {| dtype := "float32"; itemsize := 4; tshape := [1] |}; w_data := [3; 4; 5; 6]%Z |})]%string) =
  Ok ([], Raise (RuntimeError "self.storage_offset() must be divisible")).
Proof. vm_compute. reflexivity. Qed.
