(* ===== verification/ReplayBuffer.v ===== *)
(** * The replay buffer: [src/verl/trainer/ppo/v1/replay_buffer.py]

    Each poll rebuilds the buffer from a listing of the transfer queue; a call of
    [sample] polls until enough prompts are done, takes the oldest ones, and keeps or
    drops trajectories by staleness.  The listings are the input, the [kv_clear] calls
    an output; the iteration order of a set is a parameter.  A prompt's age is a
    rational number of model versions; [parameter_sync_step] is positive, since zero
    would divide by zero. *)

From S2P Require Import Prelude PyStr Json PyDict.
From Stdlib Require Import QArith Qminmax.
Local Close Scope Q_scope.
Local Open Scope py_scope.

Inductive strategy := Drop | Wait.

Record buffer_config := {
  parameter_sync_step : positive; max_off_policy_threshold : Z; max_off_policy_strategy : strategy }.

(** The constructor's assertions; the strategy arrives as a string. *)
Definition init_buffer (sync_step : positive) (threshold : Z) (strategy_name : string) : result buffer_config :=
  require Z.ltb 0 threshold else AssertionError "Invalid max off policy threshold" ;;
  if bool_decide (strategy_name = "drop"%string) then
    Ok {| parameter_sync_step := sync_step; max_off_policy_threshold := threshold; max_off_policy_strategy := Drop |}
  else if bool_decide (strategy_name = "wait"%string) then
    Ok {| parameter_sync_step := sync_step; max_off_policy_threshold := threshold; max_off_policy_strategy := Wait |}
  else Raise (AssertionError "Invalid max off policy strategy").

(** One partition after a poll. *)
Record partition := {
  trajectories : list (string * dict);
  pending_keys : gset string; running_keys : gset string;
  finished_keys : gset string; failure_keys : gset string;
  prompt_global_steps : list (string * Z) }.

Definition empty_partition : partition :=
  {| trajectories := []; pending_keys := ∅; running_keys := ∅; finished_keys := ∅; failure_keys := ∅;
     prompt_global_steps := [] |}.

Definition as_int (v : json) : result Z :=
  match v with JInt z => Ok z | _ => Raise (TypeError "global_steps must be an integer") end.
Definition tag_steps (tag : dict) : result Z := v ← getitem "global_steps" tag; as_int v.

(** A prompt entry, by its status. *)
Definition add_prompt (key : string) (steps : Z) (status : json) (p : partition) : result partition :=
  let with_sets pe ru fi fa :=
    {| trajectories := trajectories p; pending_keys := pe; running_keys := ru; finished_keys := fi;
       failure_keys := fa; prompt_global_steps := dset key steps (prompt_global_steps p) |} in
  if is_str status "pending" then
    Ok (with_sets ({[key]} ∪ pending_keys p) (running_keys p) (finished_keys p) (failure_keys p))
  else if is_str status "running" then
    Ok (with_sets (pending_keys p) ({[key]} ∪ running_keys p) (finished_keys p) (failure_keys p))
  else if is_str status "finished" then
    Ok (with_sets (pending_keys p) (running_keys p) ({[key]} ∪ finished_keys p) (failure_keys p))
  else if is_str status "failure" then
    Ok (with_sets (pending_keys p) (running_keys p) (finished_keys p) ({[key]} ∪ failure_keys p))
  else Raise (ValueError "Unknown status").

Definition sync_item (p : partition) (item : string * dict) : result partition :=
  let '(key, tag) := item in
  if truthy (get_default "is_prompt" (JBool false) tag) then
    steps ← tag_steps tag;
    status ← getitem "status" tag;
    add_prompt key steps status p
  else
    let old := default [] (dget key (trajectories p)) in
    Ok {| trajectories := dset key (update tag old) (trajectories p);
          pending_keys := pending_keys p; running_keys := running_keys p; finished_keys := finished_keys p;
          failure_keys := failure_keys p; prompt_global_steps := prompt_global_steps p |}.

(** A listing of the transfer queue: partitions, keys, tags. *)
Abbreviation listing := (list (string * list (string * dict))).

Definition sync_metadata (data : option listing) : result (list (string * partition)) :=
  mapM (λ pi : string * list (string * dict),
      p ← foldM sync_item empty_partition pi.2; Ok (pi.1, p)) (default [] data).

(** [defaultdict] lookup. *)
Definition partition_of (id : string) (parts : list (string * partition)) : partition :=
  default empty_partition (dget id parts).

Record batch_meta := { bm_partition : string; bm_keys : list string; bm_tags : list dict }.

(** A [tq.kv_clear(partition_id, keys)] call. *)
Definition clear_call : Type := string * list string.

Section sampling.
Context (c : buffer_config) (iter : gset string → list string).

(** [(global_steps - prompt_global_steps + 1) / parameter_sync_step] *)
Definition staleness (global_steps steps : Z) : Q :=
  (inject_Z (global_steps - steps + 1) / inject_Z (Zpos (parameter_sync_step c)))%Q.

Definition overdue (global_steps : Z) (p : partition) (key : string) : bool :=
  match dget key (prompt_global_steps p) with
  | Some steps => Qle_bool (inject_Z (max_off_policy_threshold c)) (staleness global_steps steps)
  | None => false
  end.

Definition has_enough_samples (global_steps batch_size : Z) (p : partition) : bool :=
  let blocked := match max_off_policy_strategy c with
                 | Wait => existsb (overdue global_steps p) (iter (pending_keys p ∪ running_keys p))
                 | Drop => false
                 end in
  negb blocked && Z.leb batch_size (Z.of_nat (size (finished_keys p) + size (failure_keys p))).

Definition key_steps (p : partition) (key : string) : Z := default 0%Z (dget key (prompt_global_steps p)).
Definition older (p : partition) (a b : string) : bool := Z.ltb (key_steps p a) (key_steps p b).

(** [sorted(finished | failure, key=...)[:batch_size]] *)
Definition selected_prompts (batch_size : Z) (p : partition) : list string :=
  let sampleable := sort_by (older p) (iter (finished_keys p ∪ failure_keys p)) in
  zslice 0 batch_size sampleable.

(** [key.split("_")[0]] *)
Definition uid_of (key : string) : string := default "" (head (split_on "_" key)).

Definition select_trajectories (selected : list string) (p : partition) : list (string * dict) :=
  List.filter (λ kt : string * dict, bool_decide (uid_of kt.1 ∈ selected)) (trajectories p).

Definition too_stale (global_steps : Z) (tag : dict) : result bool :=
  steps ← tag_steps tag;
  Ok (negb (Qle_bool (staleness global_steps steps) (inject_Z (max_off_policy_threshold c)))).

(** The loop of [_drop_max_off_policy_samples]: kept and dropped entries, in order. *)
Fixpoint split_stale (global_steps : Z) (l : list (string * dict)) : result (list (string * dict) * list (string * dict)) :=
  match l with
  | [] => Ok ([], [])
  | kt :: l =>
      stale ← too_stale global_steps kt.2;
      kd ← split_stale global_steps l;
      Ok (if (stale : bool) then (kd.1, kt :: kd.2) else (kt :: kd.1, kd.2))
  end.

Definition list_Qmax (l : list Q) : Q := match l with [] => 0%Q | q :: l => foldl Qmax q l end.
Definition list_Qmin (l : list Q) : Q := match l with [] => 0%Q | q :: l => foldl Qmin q l end.
Definition list_Qmean (l : list Q) : Q := (foldr Qplus 0%Q l / inject_Z (Z.of_nat (length l)))%Q.

Definition drop_metrics (prefix : string) (stalenesses : list Q) : list (string * Q) :=
  [((prefix ++ "/off_policy/dropped_samples")%string, inject_Z (Z.of_nat (length stalenesses)));
   ((prefix ++ "/off_policy/dropped_samples_staleness/mean")%string, list_Qmean stalenesses);
   ((prefix ++ "/off_policy/dropped_samples_staleness/max")%string, list_Qmax stalenesses);
   ((prefix ++ "/off_policy/dropped_samples_staleness/min")%string, list_Qmin stalenesses)].

Definition meta_of (id : string) (l : list (string * dict)) : batch_meta :=
  {| bm_partition := id; bm_keys := l.*1; bm_tags := l.*2 |}.

Record sample_result := { sr_batch : batch_meta; sr_metrics : list (string * Q); sr_cleared : list clear_call }.

Definition drop_max_off_policy_samples (global_steps : Z) (partition_id : string) (l : list (string * dict))
    : result sample_result :=
  match max_off_policy_strategy c with
  | Wait => Ok {| sr_batch := meta_of partition_id l; sr_metrics := []; sr_cleared := [] |}
  | Drop =>
      kd ← split_stale global_steps l;
      let '(kept, dropped) := kd in
      match dropped with
      | [] => Ok {| sr_batch := meta_of partition_id kept; sr_metrics := []; sr_cleared := [] |}
      | _ =>
          steps ← mapM tag_steps dropped.*2;
          Ok {| sr_batch := meta_of partition_id kept;
                sr_metrics := drop_metrics (if bool_decide (partition_id = "train"%string) then "training" else "validation")
                                (staleness global_steps <$> steps);
                sr_cleared := [(partition_id, dropped.*1)] |}
      end
  end.

(** One round on a polled buffer: [None] when [sample] sleeps and polls again. *)
Definition sample_once (global_steps batch_size : Z) (partition_id : string) (data : option listing)
    : result (option sample_result) :=
  parts ← sync_metadata data;
  let p := partition_of partition_id parts in
  if has_enough_samples global_steps batch_size p then
    let selected := selected_prompts batch_size p in
    r ← drop_max_off_policy_samples global_steps partition_id (select_trajectories selected p);
    Ok (Some {| sr_batch := sr_batch r; sr_metrics := sr_metrics r;
                sr_cleared := (partition_id, selected) :: sr_cleared r |})
  else Ok None.

(** [sample] over the listings it polls, in order; [None] when it is still waiting after
    the last of them. *)
Fixpoint sample (global_steps batch_size : Z) (partition_id : string) (polls : list (option listing))
    : result (option sample_result) :=
  match polls with
  | [] => Ok None
  | data :: polls =>
      r ← sample_once global_steps batch_size partition_id data;
      match r with Some res => Ok (Some res) | None => sample global_steps batch_size partition_id polls end
  end.

(** ** Lemmas *)

Lemma sync_item_sets p key tag p' (seen : list string) :
  sync_item p (key, tag) = Ok p' → key ∉ seen →
  finished_keys p ## failure_keys p → finished_keys p ∪ failure_keys p ⊆ list_to_set seen →
  finished_keys p' ## failure_keys p' ∧ finished_keys p' ∪ failure_keys p' ⊆ list_to_set (seen ++ [key]).
Proof using Type.
  intros Hs Hnew Hd Hsub. unfold sync_item in Hs.
  assert (key ∉ (list_to_set seen : gset string)) as Hnew' by (by rewrite elem_of_list_to_set).
  assert (Hkeep : finished_keys p ∪ failure_keys p ⊆ (list_to_set (seen ++ [key]) : gset string))
    by (rewrite list_to_set_app_L; set_solver).
  destruct (truthy _); [|injection Hs as <-; done].
  inv_ok Hs. inv_ok Hs. unfold add_prompt in Hs.
  destruct (is_str _ "pending"); [injection Hs as <-; done|].
  destruct (is_str _ "running"); [injection Hs as <-; done|].
  destruct (is_str _ "finished"); [|destruct (is_str _ "failure"); [|done]]; injection Hs as <-; simpl;
    rewrite list_to_set_app_L; simpl; set_solver.
Qed.

Lemma sync_partition_disjoint items p :
  foldM sync_item empty_partition items = Ok p → NoDup items.*1 → finished_keys p ## failure_keys p.
Proof using Type.
  intros Hf Hnd.
  assert (Hinv : ∀ items seen p0, foldM sync_item p0 items = Ok p → NoDup (seen ++ items.*1) →
    finished_keys p0 ## failure_keys p0 → finished_keys p0 ∪ failure_keys p0 ⊆ list_to_set seen →
    finished_keys p ## failure_keys p).
  { clear. induction items as [|[k tag] items IH]; intros seen p0 Hf Hnd Hd Hsub.
    - injection Hf as <-. done.
    - cbn [foldM] in Hf. apply bind_Ok_inv in Hf as (p1 & Hs & Hf). csimpl in Hnd.
      assert (k ∉ seen) as Hk.
      { apply NoDup_app in Hnd as (_ & Hx & _). intros Hin. apply (Hx k Hin). by left. }
      destruct (sync_item_sets _ _ _ _ _ Hs Hk Hd Hsub) as [Hd1 Hsub1].
      apply (IH (seen ++ [k]) p1); [done | by rewrite <-(assoc_L (++)) | done | done]. }
  apply (Hinv items [] empty_partition); [done | done | |]; simpl; set_solver.
Qed.

Lemma older_asym p a b : older p a b = true → older p b a = false.
Proof using Type. unfold older. rewrite Z.ltb_lt, Z.ltb_ge. lia. Qed.
Lemma older_neg_trans p a b d : older p b a = false → older p d b = false → older p d a = false.
Proof using Type. unfold older. rewrite !Z.ltb_ge. lia. Qed.

Lemma zslice_take {A} n (l : list A) : (0 <= n)%Z → zslice 0 n l = take (Z.to_nat n) l.
Proof using Type.
  intros Hn. unfold zslice, slice, slice_bound. rewrite (proj2 (Z.ltb_ge n 0)) by lia. simpl.
  rewrite Nat.sub_0_r, ?drop_0. destruct (Nat.min_spec (Z.to_nat n) (length l)) as [[_ ->]|[Hge ->]]; [done|].
  rewrite (take_ge l (length l)), (take_ge l (Z.to_nat n)) by lia. done.
Qed.

Lemma StronglySorted_take {A} (R : A → A → Prop) n l :
  StronglySorted R l → ∀ a b, a ∈ take n l → b ∈ drop n l → R a b.
Proof using Type.
  intros Hs. revert n. induction Hs as [|x l Hs IH Hall]; intros [|n] a b Ha Hb; simpl in *;
    try (by apply elem_of_nil in Ha).
  apply elem_of_cons in Ha as [->|Ha]; [|by apply (IH n)].
  eapply Forall_forall in Hall; [exact Hall|]. rewrite <-(take_drop n l). apply elem_of_app. by right.
Qed.

Lemma split_stale_spec g l kept dropped :
  split_stale g l = Ok (kept, dropped) →
  kept ++ dropped ≡ₚ l ∧ sublist kept l ∧
  (∀ kt, kt ∈ kept → too_stale g kt.2 = Ok false) ∧ (∀ kt, kt ∈ dropped → too_stale g kt.2 = Ok true).
Proof using Type.
  revert kept dropped. induction l as [|kt l IH]; intros kept dropped Hs; simpl in Hs.
  - injection Hs as <- <-. split; [done|]. split; [done|]. split; intros ? Hin; by apply elem_of_nil in Hin.
  - apply bind_Ok_inv in Hs as (stale & Hst & Hs). apply bind_Ok_inv in Hs as ([k d] & Hkd & Hs).
    destruct (IH _ _ Hkd) as (Hp & Hsub & Hk & Hd).
    destruct stale; injection Hs as <- <-; simpl.
    + split; [by rewrite <-Permutation_middle, Hp|]. split; [by constructor|]. split; [done|].
      intros x [->|Hin]%elem_of_cons; [done | by apply Hd].
    + split; [by rewrite Hp|]. split; [by constructor|]. split; [|done].
      intros x [->|Hin]%elem_of_cons; [done | by apply Hk].
Qed.

Lemma drop_spec g id l r :
  drop_max_off_policy_samples g id l = Ok r →
  ∃ kept dropped,
    kept ++ dropped ≡ₚ l ∧ sublist kept l ∧ sr_batch r = meta_of id kept ∧
    sr_cleared r = (match dropped with [] => [] | _ => [(id, dropped.*1)] end) ∧
    match max_off_policy_strategy c with
    | Wait => dropped = []
    | Drop => (∀ kt, kt ∈ kept → too_stale g kt.2 = Ok false) ∧ (∀ kt, kt ∈ dropped → too_stale g kt.2 = Ok true)
    end.
Proof using Type.
  unfold drop_max_off_policy_samples. destruct (max_off_policy_strategy c) eqn:Hc.
  - intros Hr. apply bind_Ok_inv in Hr as ([kept dropped] & Hs & Hr).
    destruct (split_stale_spec _ _ _ _ Hs) as (Hp & Hsub & Hk & Hd). exists kept, dropped.
    destruct dropped; [|inv_ok Hr]; injection Hr as <-; done.
  - intros [= <-]. exists l, []. by rewrite app_nil_r.
Qed.

Lemma sync_metadata_partition data parts id :
  sync_metadata data = Ok parts → (∀ id items, (id, items) ∈ default [] data → NoDup items.*1) →
  finished_keys (partition_of id parts) ## failure_keys (partition_of id parts).
Proof using Type.
  intros Hs Hnd. unfold partition_of. destruct (dget id parts) as [p|] eqn:Hp; [simpl|set_solver].
  apply dget_elem, list_elem_of_lookup in Hp as [i Hi].
  destruct (Forall2_lookup_r _ _ _ _ _ (proj1 (mapM_Ok_Forall2 _ _ _) Hs) Hi) as ([id' items] & Hi' & Hf).
  apply bind_Ok_inv in Hf as (p' & Hf & [= -> ->]).
  eapply sync_partition_disjoint; [exact Hf|]. eapply Hnd. by eapply list_elem_of_lookup_2.
Qed.

Hypothesis iter_perm : ∀ s, iter s ≡ₚ elements s.

Lemma selected_prompts_spec n p :
  (0 <= n)%Z →
  let all := finished_keys p ∪ failure_keys p in
  NoDup (selected_prompts n p) ∧
  length (selected_prompts n p) = Nat.min (Z.to_nat n) (size all) ∧
  (∀ k, k ∈ selected_prompts n p → k ∈ all) ∧
  (∀ a b, a ∈ selected_prompts n p → b ∈ all → b ∉ selected_prompts n p → (key_steps p a <= key_steps p b)%Z).
Proof using iter_perm.
  intros Hn all.
  set (l := sort_by (older p) (iter all)).
  assert (l ≡ₚ elements all) as Hl by (unfold l; by rewrite sort_by_perm, iter_perm).
  assert (length l = size all) as Hlen by (by rewrite Hl).
  assert (selected_prompts n p = take (Z.to_nat n) l) as ->.
  { unfold selected_prompts. fold all l. apply zslice_take. lia. }
  assert (∀ k, k ∈ l ↔ k ∈ all) as Hmem by (intros k; by rewrite Hl, elem_of_elements).
  repeat split.
  - eapply sublist_NoDup; [|apply sublist_take]. rewrite Hl. apply NoDup_elements.
  - by rewrite length_take, Hlen.
  - intros k Hk. apply Hmem. rewrite <-(take_drop (Z.to_nat n) l). apply elem_of_app. by left.
  - intros a b Ha Hb Hnb. apply Hmem in Hb. rewrite <-(take_drop (Z.to_nat n) l) in Hb.
    apply elem_of_app in Hb as [Hb|Hb]; [done|].
    pose proof (StronglySorted_take _ _ _ (sort_by_sorted (older p) (older_asym p) (older_neg_trans p) _) a b Ha Hb) as Hle.
    unfold no_inversion, older in Hle. apply Z.ltb_ge in Hle. lia.
Qed.

(** [p] can be sampled: enough distinct prompts are done, and under the wait strategy no
    unfinished one is overdue. *)
Definition can_sample (g n : Z) (p : partition) : Prop :=
  (n <= Z.of_nat (size (finished_keys p ∪ failure_keys p)))%Z ∧
  (max_off_policy_strategy c = Wait → ∀ k, k ∈ pending_keys p ∪ running_keys p → overdue g p k = false).

Lemma has_enough_samples_spec g n p :
  finished_keys p ## failure_keys p → has_enough_samples g n p = true → can_sample g n p.
Proof using iter_perm.
  intros Hd He. unfold has_enough_samples in He. apply andb_true_iff in He as [Hb Hn].
  split; [apply Z.leb_le in Hn; rewrite size_union by done; lia|].
  intros Hw k Hk. rewrite Hw in Hb. apply negb_true_iff in Hb.
  destruct (overdue g p k) eqn:Ho; [|done].
  rewrite <-not_true_iff_false in Hb. exfalso. apply Hb, List.existsb_exists.
  exists k. split; [|done]. apply list_elem_of_In. by rewrite iter_perm, elem_of_elements.
Qed.

Definition well_keyed (data : option listing) : Prop := ∀ id items, (id, items) ∈ default [] data → NoDup items.*1.

(** What one sampling call hands out and clears, against the buffer [p] it sampled from. *)
Definition sampled_from (g n : Z) (id : string) (p : partition) (r : sample_result) : Prop :=
  ∃ selected cleared,
    sr_cleared r = (id, selected) :: cleared ∧
    NoDup selected ∧ Z.of_nat (length selected) = n ∧
    (∀ k, k ∈ selected → k ∈ finished_keys p ∪ failure_keys p) ∧
    (∀ a b, a ∈ selected → b ∈ finished_keys p ∪ failure_keys p → b ∉ selected →
       (key_steps p a <= key_steps p b)%Z) ∧
    bm_partition (sr_batch r) = id ∧
    zip (bm_keys (sr_batch r)) (bm_tags (sr_batch r)) `sublist_of` select_trajectories selected p ∧
    (bm_keys (sr_batch r) ++ concat cleared.*2 ≡ₚ (select_trajectories selected p).*1) ∧
    match max_off_policy_strategy c with
    | Wait => cleared = []
    | Drop => ∀ tag, tag ∈ bm_tags (sr_batch r) → too_stale g tag = Ok false
    end.

Lemma sample_once_spec g n id data r :
  (0 <= n)%Z → well_keyed data → sample_once g n id data = Ok (Some r) →
  ∃ parts, sync_metadata data = Ok parts ∧ can_sample g n (partition_of id parts) ∧
    sampled_from g n id (partition_of id parts) r.
Proof using iter_perm.
  intros Hn Hwk Hs. apply bind_Ok_inv in Hs as (parts & Hp & Hs). exists parts. split; [done|].
  pose proof (sync_metadata_partition _ _ id Hp Hwk) as Hdisj.
  set (p := partition_of id parts) in *. cbv zeta in Hs. fold p in Hs.
  destruct (has_enough_samples g n p) eqn:He; [|done].
  pose proof (has_enough_samples_spec _ _ _ Hdisj He) as Hcan. split; [done|].
  apply bind_Ok_inv in Hs as (r0 & Hd & [= <-]).
  destruct (selected_prompts_spec n p Hn) as (Hnd & Hlen & Hin & Hold).
  destruct (drop_spec _ _ _ _ Hd) as (kept & dropped & Hperm & Hsub & Hb & Hc & Hmode).
  exists (selected_prompts n p), (sr_cleared r0). simpl. rewrite Hb. simpl.
  repeat split; try done.
  - rewrite Hlen. destruct Hcan as [Hcan _]. lia.
  - rewrite zip_fst_snd. done.
  - rewrite <-Hperm, fmap_app, Hc. destruct dropped; [done|]. simpl. by rewrite app_nil_r.
  - destruct (max_off_policy_strategy c); [|by rewrite Hc, Hmode].
    intros tag (kt & -> & Hkt)%list_elem_of_fmap. by apply Hmode.
Qed.

(** C12: A call of [sample] returns only from a poll whose buffer has enough done prompts
    (and, under the wait strategy, no overdue unfinished prompt); it clears exactly
    [batch_size] distinct prompts, all done, none newer than a done prompt left behind;
    every trajectory of a selected prompt is handed out or cleared, never both and never
    lost, in storage order; under the drop strategy nothing handed out exceeds the
    staleness threshold, under the wait strategy nothing is dropped. *)
Theorem sample_oldest_done_prompts g n id polls r :
  (0 <= n)%Z → Forall well_keyed polls → sample g n id polls = Ok (Some r) →
  ∃ data parts, data ∈ polls ∧ sync_metadata data = Ok parts ∧
    can_sample g n (partition_of id parts) ∧ sampled_from g n id (partition_of id parts) r.
Proof using iter_perm.
  intros Hn. induction 1 as [|data polls Hwk Hall IH]; intros Hs; [done|].
  apply bind_Ok_inv in Hs as (res & Ho & Hs). destruct res as [r'|].
  - injection Hs as ->. destruct (sample_once_spec _ _ _ _ _ Hn Hwk Ho) as (parts & H).
    exists data, parts. split; [by left|]. done.
  - destruct (IH Hs) as (data' & parts & Hin & H). exists data', parts. split; [by right|]. done.
Qed.
End sampling.

(** Two polls of the partition ["train"]: at the first only one of two prompts is done; at
    the second both are, and one of the two trajectories is too stale. *)
Definition prompt_tag (status : string) (steps : Z) : dict :=
  [("is_prompt", JBool true); ("status", JStr status); ("global_steps", JInt steps)].
Definition traj_tag (steps : Z) : dict := [("global_steps", JInt steps)].
Definition poll_waiting : option listing :=
  Some [("train", [("b", prompt_tag "finished" 7); ("a", prompt_tag "running" 2)])].
Definition poll_ready : option listing :=
  Some [("train", [("b", prompt_tag "finished" 7); ("a", prompt_tag "failure" 2); ("b_0_0", traj_tag 7);
                   ("a_0_0", traj_tag 2); ("z", prompt_tag "pending" 1)])].
Definition drop_config : buffer_config :=
  {| parameter_sync_step := 1; max_off_policy_threshold := 3; max_off_policy_strategy := Drop |}.

Lemma sample_oldest_done_prompts_witness :
  ∃ r, sample drop_config elements 8 2 "train" [None; poll_waiting; poll_ready] = Ok (Some r) ∧
    bm_keys (sr_batch r) = ["b_0_0"] ∧
    sr_cleared r = [("train", ["a"; "b"]); ("train", ["a_0_0"])] ∧
    ∃ data parts, data ∈ [None; poll_waiting; poll_ready] ∧ sync_metadata data = Ok parts ∧
      can_sample drop_config 8 2 (partition_of "train" parts) ∧
      sampled_from drop_config 8 2 "train" (partition_of "train" parts) r.
Proof.
  destruct (sample drop_config elements 8 2 "train" [None; poll_waiting; poll_ready]) as [[r|]|e] eqn:E;
    [|vm_compute in E; done..].
  exists r. split; [done|]. split; [vm_compute in E; injection E as <-; reflexivity|].
  split; [vm_compute in E; injection E as <-; reflexivity|].
  apply (sample_oldest_done_prompts drop_config elements (λ s, reflexivity _) 8 2 "train"); [lia| |done].
  repeat constructor; intros i items Hin; simpl in Hin.
  - by apply elem_of_nil in Hin.
  - apply list_elem_of_singleton in Hin as [= -> ->]. apply (bool_decide_unpack (NoDup _)). reflexivity.
  - apply list_elem_of_singleton in Hin as [= -> ->]. apply (bool_decide_unpack (NoDup _)). reflexivity.
Defined.
