(* ===== verification/ContinuousToken.v ===== *)
(** * Continuous-token prompts: [src/verl/utils/tokenizer/continuous_token.py]

    A multi-turn rollout keeps the exact tokens the model generated and appends to them.
    A builder tokenizes appended tool, user and system messages on their own and merges
    them into the runtime tokens; [align_response_metadata] applies the same edits to the
    response mask and log probabilities.  A builder class is a record of the methods its
    subclasses override; the tokenizer with its chat template is a parameter. *)

From S2P Require Import Prelude PyStr Json PyDict.
From Stdlib Require Import QArith.
Local Close Scope Q_scope.
Local Open Scope py_scope.

(** A tokenizer of [transformers]: the chat template with [tokenize=True,
    return_dict=False] on messages, generation-prompt flag and tools; [encode]
    with [add_special_tokens=False]; [convert_tokens_to_ids] of one token. *)
Record tokenizer := {
  tk_template : list dict → bool → json → result (list json);
  tk_encode : string → list Z;
  tk_token_id : string → json }.

Section defs.
Context `{PyPrims}.

(** ** [tokenizer.py] and [chat_template.py] *)

Definition int_or_type_error (v : json) : result Z :=
  match py_int v with
  | Raise (TypeError _) | Raise (ValueError _) => Raise (TypeError "token_id must be int-convertible")
  | r => r
  end.

Definition normalize_token_ids (tokenized_output : json) : result (list Z) :=
  let token_ids := match tokenized_output with
                   | JObj o => default tokenized_output (lookup "input_ids" o)
                   | _ => tokenized_output
                   end in
  let token_ids := match token_ids with JList [JList l] => JList l | _ => token_ids end in
  match token_ids with
  | JList l => mapM int_or_type_error l
  | _ => Raise (TypeError "token_ids must be list-like token ids")
  end.

Definition dummy_user_message : dict :=
  [("role", JStr "user"); ("content", JList [JObj [("type", JStr "text"); ("text", JStr "")]])].

(** [apply_chat_template] with [tokenize=True, return_dict=False]. *)
Definition apply_chat_template (t : tokenizer) (messages : list dict) (add_generation_prompt : bool) (tools : json)
    : result (list json) :=
  match tk_template t messages add_generation_prompt tools with
  | Ok ids => Ok ids
  | Raise _ =>
      prefix ← tk_template t [dummy_user_message] false tools;
      output ← tk_template t (dummy_user_message :: messages) add_generation_prompt tools;
      match output with
      | [] => Raise (IndexError "list index out of range")
      | JList inner :: rest =>
          require match rest with [] => true | _ => false end
            else AssertionError "output must be a list[int] or list[list[int]]" ;;
          match prefix with
          | [] => Raise (IndexError "list index out of range")
          | JList p :: _ => Ok (drop (length p) inner)
          | _ => Raise (TypeError "object of type 'int' has no len()")
          end
      | _ => Ok (drop (length prefix) output)
      end
  end.

Definition render_tokens (t : tokenizer) (messages : list dict) (add_generation_prompt : bool) (tools : json)
    : result (list Z) :=
  tokenized ← apply_chat_template t messages add_generation_prompt tools;
  normalize_token_ids (JList tokenized).

(** ** Constants and helpers of the module *)

Definition supported_append_roles : list string := ["tool"; "user"; "system"].
Definition synthetic_system_message : dict :=
  [("role", JStr "system"); ("content", JStr "continuous token synthetic system")].
Definition synthetic_user_message : dict :=
  [("role", JStr "user"); ("content", JStr "continuous token synthetic user")].

Inductive merge_kind := Assistant | NonAssistant.

Record MergeResult := {
  token_ids : list Z; appended_token_count : nat; kind : merge_kind;
  inserted_token_ids : list Z; removed_prefix_token_count : nat }.

Definition require_token_id (t : tokenizer) (token : string) : result Z :=
  let v := tk_token_id t token in
  v ← match v with
      | JNull => Raise (ValueError "Tokenizer does not define required token")
      | JList [x] => Ok x
      | JList _ => Raise (ValueError "Tokenizer returned multiple ids for required token")
      | _ => Ok v
      end;
  match v with
  | JBool b => Ok (Z.b2z b)
  | JInt z => require Z.leb 0 z else ValueError "Tokenizer returned invalid id for required token" ;; Ok z
  | _ => Raise (ValueError "Tokenizer returned invalid id for required token")
  end.

Definition text_of_item (item : json) : result (list string) :=
  match item with
  | JObj o => if is_str (get "type" o) "text" then
                match get_default "text" (JStr "") o with
                | JStr s => Ok [s]
                | _ => Raise (TypeError "sequence item: expected str instance")
                end
              else Ok []
  | _ => Ok []
  end.
Definition stringify_tool_content (content : json) : result string :=
  match content with
  | JNull => Ok ""
  | JStr s => Ok s
  | JList l => parts ← mapM text_of_item l; Ok (str_join "" (concat parts))
  | _ => Ok (py_str content)
  end.

Definition tool_message_name_or_dummy (m : dict) : string :=
  if truthy (get "name" m) then py_str (get "name" m) else "continuous_token_tool".
Definition tool_call_id_or_dummy (m : dict) (index : nat) : json :=
  if is_none (get "tool_call_id" m) then JStr ("continuous_token_call_" +:+ pretty (Z.of_nat index))
  else get "tool_call_id" m.

Definition tool_call_function_name (tool_call : dict) : option string :=
  match get "function" tool_call with
  | JObj f => if is_none (get "name" f) then None else Some (py_str (get "name" f))
  | _ => None
  end.

Definition positional_name (tool_call : json) : option string :=
  match tool_call with JObj c => tool_call_function_name c | _ => None end.
Definition add_name_by_id (names : list (string * string)) (tool_call : json) : list (string * string) :=
  match tool_call with
  | JObj c => match tool_call_function_name c with
              | Some name => if is_none (get "id" c) then names
                             else let key := py_str (get "id" c) in
                                  if dmem key names then names else dset key name names
              | None => names
              end
  | _ => names
  end.
Definition latest_assistant_tool_call_names (messages : list dict)
    : list (string * string) * list (option string) :=
  match List.find (λ m, is_str (get "role" m) "assistant") (reverse messages) with
  | None => ([], [])
  | Some m => match py_or (get "tool_calls" m) (JList []) with
              | JList calls => (foldl add_name_by_id [] calls, positional_name <$> calls)
              | _ => ([], [])
              end
  end.

Definition resolve_required_tool_name (m : dict) (index : nat) (tool_messages previous : list dict) : result string :=
  if truthy (get "name" m) then Ok (py_str (get "name" m))
  else
    let '(by_id, positional) := latest_assistant_tool_call_names previous in
    let id := get "tool_call_id" m in
    match (if is_none id then None else dget (py_str id) by_id) with
    | Some name => Ok name
    | None =>
        require Nat.eqb (length tool_messages) (length positional)
          else ValueError "Continuous Token cannot resolve tool name by position" ;;
        of_option (ValueError "assistant tool call has no function name") (mjoin (positional !! index))
    end.

(** ** The builder classes *)

Definition render_delta_token_id (t : tokenizer) (prefix appended : list dict) (add_generation_prompt : bool)
    (tools : json) : result (list Z) :=
  prefix_ids ← render_tokens t prefix false tools;
  full_ids ← render_tokens t (prefix ++ appended) add_generation_prompt tools;
  require bool_decide (take (length prefix_ids) full_ids = prefix_ids)
    else ValueError "Continuous Token token-id suffix diff failed" ;;
  Ok (drop (length prefix_ids) full_ids).

(** The methods subclasses override; [b_merge] ends [merge_non_assistant_tokens], from
    the appended messages, the runtime tokens and the appended tokens. *)
Record builder := {
  b_tokenizer : tokenizer;
  b_allowed : list string;
  b_tool_group : list dict → list dict → json → result (list Z);
  b_single_non_tool : dict → json → result (list Z);
  b_generation_delta : list dict → json → result (list Z);
  b_merge : list dict → list Z → list Z → MergeResult }.

Definition synthetic_tool_call (index : nat) (m : dict) : json :=
  JObj [("id", tool_call_id_or_dummy m index); ("type", JStr "function");
        ("function", JObj [("name", JStr (tool_message_name_or_dummy m)); ("arguments", JObj [])])].
Definition synthetic_assistant_for_tools (tool_messages : list dict) : dict :=
  [("role", JStr "assistant"); ("content", JStr ""); ("reasoning_content", JStr "reasoning");
   ("tool_calls", JList (imap synthetic_tool_call tool_messages))].

Definition tokenize_tool_group (t : tokenizer) (tool_messages _ : list dict) (tools : json) : result (list Z) :=
  render_delta_token_id t
    [synthetic_system_message; synthetic_user_message; synthetic_assistant_for_tools tool_messages]
    tool_messages false tools.
Definition tokenize_single_non_tool (t : tokenizer) (m : dict) (tools : json) : result (list Z) :=
  render_delta_token_id t [synthetic_system_message; synthetic_user_message] [m] false tools.
Definition tokenize_generation_prompt_delta (t : tokenizer) (updated : list dict) (tools : json) : result (list Z) :=
  render_delta_token_id t updated [] true tools.

Definition merge_non_assistant_token_ids (runtime appended : list Z) : MergeResult :=
  {| token_ids := runtime ++ appended; appended_token_count := length appended; kind := NonAssistant;
     inserted_token_ids := []; removed_prefix_token_count := 0 |}.

(** [ContinuousTokenBuilder.__init__]. *)
Definition base_builder (t : tokenizer) (allowed : option (list string)) : result builder :=
  allowed_roles ← match allowed with
    | None => Ok supported_append_roles
    | Some roles =>
        require forallb (λ r, bool_decide (r ∈ supported_append_roles)) roles
          else ValueError "Unsupported Continuous Token append roles" ;;
        Ok roles
    end;
  Ok {| b_tokenizer := t; b_allowed := allowed_roles;
        b_tool_group := tokenize_tool_group t; b_single_non_tool := tokenize_single_non_tool t;
        b_generation_delta := tokenize_generation_prompt_delta t;
        b_merge := λ _, merge_non_assistant_token_ids |}.

(** GPT-OSS and Gemma4 encode the rendered tool responses themselves. *)
Definition encode_tool_group (t : tokenizer) (format : string → string → string)
    (tool_messages previous : list dict) (_ : json) : result (list Z) :=
  texts ← mapM (λ im : nat * dict,
      name ← resolve_required_tool_name im.2 im.1 tool_messages previous;
      content ← stringify_tool_content (get_default "content" (JStr "") im.2);
      Ok (format name content)) (imap pair tool_messages);
  Ok (tk_encode t (str_join "" texts)).

Definition gpt_oss_format_tool_response (tool_name content : string) : string :=
  "<|start|>functions." +:+ tool_name +:+ " to=assistant<|channel|>commentary<|message|>" +:+ content +:+ "<|end|>".
Definition gpt_oss_builder (t : tokenizer) (allowed : option (list string)) : result builder :=
  b ← base_builder t allowed;
  Ok {| b_tokenizer := t; b_allowed := b_allowed b;
        b_tool_group := encode_tool_group t gpt_oss_format_tool_response;
        b_single_non_tool := b_single_non_tool b; b_generation_delta := b_generation_delta b; b_merge := b_merge b |}.

Definition set_merge (merge : list dict → list Z → list Z → MergeResult) (b : builder) : builder :=
  {| b_tokenizer := b_tokenizer b; b_allowed := b_allowed b; b_tool_group := b_tool_group b;
     b_single_non_tool := b_single_non_tool b; b_generation_delta := b_generation_delta b; b_merge := merge |}.

(** Qwen and MiniMax: a missing newline after the end-of-turn token is inserted. *)
Definition newline_merge_token_ids (newline_id end_id : Z) (runtime appended : list Z) : MergeResult :=
  let inserted := if bool_decide (last runtime = Some end_id) then [newline_id] else [] in
  {| token_ids := (runtime ++ inserted) ++ appended; appended_token_count := length appended;
     kind := NonAssistant; inserted_token_ids := inserted; removed_prefix_token_count := 0 |}.
Definition newline_builder (end_token : string) (t : tokenizer) (allowed : option (list string)) : result builder :=
  b ← base_builder t allowed;
  match tk_encode t nl with
  | [newline_id] =>
      end_id ← require_token_id t end_token;
      Ok (set_merge (λ _, newline_merge_token_ids newline_id end_id) b)
  | _ => Raise (ValueError "Expected newline to tokenize to one token")
  end.
Definition qwen_builder := newline_builder "<|im_end|>".
Definition minimax_builder := newline_builder "[e~[".

(** GLM: a boundary token that also starts the next message is removed. *)
Definition glm_merge_token_ids (observation_id user_id : Z) (runtime appended : list Z) : MergeResult :=
  let ambiguous := match last runtime with Some x => bool_decide (x ∈ [observation_id; user_id]) | None => false end in
  let prefix := if ambiguous then take (length runtime - 1) runtime else runtime in
  {| token_ids := prefix ++ appended; appended_token_count := length appended; kind := NonAssistant;
     inserted_token_ids := []; removed_prefix_token_count := if ambiguous then 1 else 0 |}.
Definition glm_builder (t : tokenizer) (allowed : option (list string)) : result builder :=
  b ← base_builder t allowed;
  observation_id ← require_token_id t "<|observation|>";
  user_id ← require_token_id t "<|user|>";
  Ok (set_merge (λ _, glm_merge_token_ids observation_id user_id) b).

(** Gemma4: a tool-response token is inserted before appended messages. *)
Definition dquote : string := String (ascii_of_nat 34) EmptyString.
Definition gemma4_format_tool_response (tool_name content : string) : string :=
  "<|tool_response>response:" +:+ tool_name +:+ "{value:<|" +:+ dquote +:+ "|>" +:+ content +:+ "<|" +:+ dquote
    +:+ "|>}<tool_response|>".
Definition gemma4_generation_prompt_delta (t : tokenizer) (updated : list dict) (tools : json) : result (list Z) :=
  match last updated with
  | None => Raise (IndexError "list index out of range")
  | Some m =>
      spoken ← in_str_set (get "role" m) ["user"; "system"];
      if (spoken : bool) then
        render_delta_token_id t [synthetic_system_message; synthetic_user_message; m] [] true tools
      else Ok []
  end.
Definition gemma4_merge (tool_response_id : Z) (appended_messages : list dict) (runtime appended : list Z) : MergeResult :=
  let inserted :=
    match appended_messages with
    | [] => []
    | _ => if bool_decide (last runtime = Some tool_response_id) then [] else [tool_response_id]
    end in
  {| token_ids := (runtime ++ inserted) ++ appended; appended_token_count := length appended;
     kind := NonAssistant; inserted_token_ids := inserted; removed_prefix_token_count := 0 |}.
Definition gemma4_builder (t : tokenizer) (allowed : option (list string)) : result builder :=
  b ← base_builder t allowed;
  tool_response_id ← require_token_id t "<|tool_response>";
  Ok {| b_tokenizer := t; b_allowed := b_allowed b;
        b_tool_group := encode_tool_group t gemma4_format_tool_response;
        b_single_non_tool := b_single_non_tool b;
        b_generation_delta := gemma4_generation_prompt_delta t; b_merge := gemma4_merge tool_response_id |}.

(** ** The runtime API *)

Definition build_initial_tokens (b : builder) (messages : list dict) (tools : json) : result (list Z) :=
  render_tokens (b_tokenizer b) messages true tools.

Fixpoint messages_eq (l m : list dict) : bool :=
  match l, m with
  | [], [] => true
  | a :: l, c :: m => py_eq (JObj a) (JObj c) && messages_eq l m
  | _, _ => false
  end.

Definition check_append_role (b : builder) (u : unit) (m : dict) : result unit :=
  ok ← in_str_set (get "role" m) (b_allowed b);
  require (ok : bool) else ValueError "Continuous Token only supports appending roles" ;;
  Ok tt.
Definition assert_append_only (b : builder) (previous updated : list dict) : result unit :=
  require Nat.leb (length previous) (length updated)
    else ValueError "Continuous Token messages must be append-only; updated_messages is shorter" ;;
  require messages_eq (take (length previous) updated) previous
    else ValueError "Continuous Token messages must be append-only; prefix messages changed" ;;
  foldM (check_append_role b) tt (drop (length previous) updated).

(** [_iter_append_groups]: consecutive tool messages form one group. *)
Definition is_tool (m : dict) : bool := is_str (get "role" m) "tool".
Fixpoint iter_append_groups (messages : list dict) : list (list dict) :=
  match messages with
  | [] => []
  | m :: rest =>
      match iter_append_groups rest with
      | (m' :: g) :: groups => if is_tool m && is_tool m' then (m :: m' :: g) :: groups else [m] :: (m' :: g) :: groups
      | groups => [m] :: groups
      end
  end.

Definition tokenize_group (b : builder) (previous : list dict) (tools : json) (group : list dict) : result (list Z) :=
  match group with
  | [] => Raise (IndexError "list index out of range")
  | m :: _ =>
      if is_tool m then b_tool_group b group previous tools
      else
        spoken ← in_str_set (get "role" m) ["user"; "system"];
        if (spoken : bool) then
          require Nat.eqb (length group) 1 else ValueError "Continuous Token expects one message per append group" ;;
          b_single_non_tool b m tools
        else Raise (ValueError "Unsupported Continuous Token append role")
  end.

Definition tokenize_non_assistant_incremental_messages (b : builder) (previous updated : list dict) (tools : json)
    : result (list Z) :=
  _ ← assert_append_only b previous updated;
  match drop (length previous) updated with
  | [] => Ok []
  | appended =>
      ids ← mapM (tokenize_group b previous tools) (iter_append_groups appended);
      delta ← b_generation_delta b updated tools;
      Ok (concat ids ++ delta)
  end.

Definition merge_non_assistant_tokens (b : builder) (previous updated : list dict) (runtime : list Z) (tools : json)
    : result MergeResult :=
  appended_ids ← tokenize_non_assistant_incremental_messages b previous updated tools;
  Ok (b_merge b (drop (length previous) updated) runtime appended_ids).

Definition merge_assistant_tokens (runtime assistant : list Z) : MergeResult :=
  {| token_ids := runtime ++ assistant; appended_token_count := length assistant; kind := Assistant;
     inserted_token_ids := []; removed_prefix_token_count := 0 |}.

(** [aligned[: -removed]], skipped when nothing was removed. *)
Definition trim {A} (removed : nat) (l : list A) : list A :=
  match removed with 0 => l | _ => zslice 0 (- Z.of_nat removed) l end.

(** [F] is the type of a log probability. *)
Definition align_response_metadata {F} (zero : F) (r : MergeResult) (response_mask : list Z)
    (response_logprobs assistant_logprobs : option (list F)) : result (list Z * option (list F)) :=
  require negb (match response_logprobs, assistant_logprobs with None, Some _ => true | _, _ => false end)
    else ValueError "response_logprobs is required when assistant_logprobs is provided" ;;
  let inserted := length (inserted_token_ids r) in
  let count := appended_token_count r in
  let mask := trim (removed_prefix_token_count r) response_mask ++ replicate inserted 0%Z in
  let logprobs := (λ l, trim (removed_prefix_token_count r) l ++ replicate inserted zero) <$> response_logprobs in
  match kind r with
  | Assistant =>
      let mask := mask ++ replicate count 1%Z in
      match logprobs with
      | None => Ok (mask, None)
      | Some l =>
          new ← match assistant_logprobs with
                | Some a => Ok a
                | None => require Nat.eqb count 0
                            else ValueError "assistant_logprobs is required for assistant Continuous Token alignment" ;;
                          Ok []
                end;
          require Nat.eqb (length new) count
            else ValueError "assistant_logprobs length must match appended assistant token count" ;;
          Ok (mask, Some (l ++ new))
      end
  | NonAssistant => Ok (mask ++ replicate count 0%Z, (λ l, l ++ replicate count zero) <$> logprobs)
  end.
End defs.

(** ** Lemmas *)

Lemma trim_spec {A} n (l : list A) : n ≤ length l → trim n l = take (length l - n) l.
Proof.
  intros Hn. destruct n as [|n]; [by rewrite Nat.sub_0_r, take_ge|]. unfold trim, zslice, slice, slice_bound.
  rewrite (proj2 (Z.ltb_lt (- _) 0)) by lia. change (0 <? 0)%Z with false. cbv iota.
  rewrite Nat.min_0_l, drop_0. f_equal. lia.
Qed.

(** How a merge edits the runtime tokens: it drops, inserts and appends at their end. *)
Definition edits (runtime appended : list Z) (r : MergeResult) : Prop :=
  removed_prefix_token_count r ≤ length runtime ∧
  token_ids r = take (length runtime - removed_prefix_token_count r) runtime ++ inserted_token_ids r ++ appended ∧
  appended_token_count r = length appended.

Lemma edits_keep runtime inserted appended k :
  edits runtime appended {| token_ids := (runtime ++ inserted) ++ appended; appended_token_count := length appended;
    kind := k; inserted_token_ids := inserted; removed_prefix_token_count := 0 |}.
Proof. split; [simpl; lia|]. simpl. by rewrite Nat.sub_0_r, take_ge, <-app_assoc. Qed.

Lemma glm_edits o u runtime appended : edits runtime appended (glm_merge_token_ids o u runtime appended).
Proof.
  unfold glm_merge_token_ids. destruct (last runtime) as [x|] eqn:Hl.
  - assert (1 ≤ length runtime) by (destruct runtime; [done | simpl; lia]).
    case_bool_decide; unfold edits; simpl; [auto|]. rewrite Nat.sub_0_r, take_ge by lia. split; [lia|done].
  - unfold edits; simpl. rewrite Nat.sub_0_r, take_ge by lia. split; [lia|done].
Qed.

(** The builders the classes construct. *)
Inductive is_builder `{PyPrims} : builder → Prop :=
  | is_base t a b : base_builder t a = Ok b → is_builder b
  | is_gpt_oss t a b : gpt_oss_builder t a = Ok b → is_builder b
  | is_qwen t a b : qwen_builder t a = Ok b → is_builder b
  | is_minimax t a b : minimax_builder t a = Ok b → is_builder b
  | is_glm t a b : glm_builder t a = Ok b → is_builder b
  | is_gemma4 t a b : gemma4_builder t a = Ok b → is_builder b.

Lemma base_builder_merge `{PyPrims} t a b :
  base_builder t a = Ok b → b_merge b = λ _, merge_non_assistant_token_ids.
Proof. intros Hb. apply bind_Ok_inv in Hb as (roles & _ & Hb). by injection Hb as <-. Qed.

Lemma newline_builder_merge `{PyPrims} e t a b :
  newline_builder e t a = Ok b → ∃ n x, b_merge b = λ _, newline_merge_token_ids n x.
Proof.
  intros Hb. apply bind_Ok_inv in Hb as (b0 & _ & Hb).
  destruct (tk_encode t nl) as [|n [|]]; try done. apply bind_Ok_inv in Hb as (x & _ & [= <-]). by exists n, x.
Qed.

Lemma builder_edits `{PyPrims} b messages runtime appended :
  is_builder b →
  edits runtime appended (b_merge b messages runtime appended) ∧ kind (b_merge b messages runtime appended) = NonAssistant.
Proof.
  assert (Hbase : edits runtime appended (merge_non_assistant_token_ids runtime appended)).
  { rewrite <-(app_nil_r runtime) at 2. apply edits_keep. }
  destruct 1 as [t a b Hb|t a b Hb|t a b Hb|t a b Hb|t a b Hb|t a b Hb].
  - rewrite (base_builder_merge _ _ _ Hb). split; [exact Hbase | reflexivity].
  - apply bind_Ok_inv in Hb as (b0 & Hb & [= <-]). simpl. rewrite (base_builder_merge _ _ _ Hb). split; [exact Hbase | reflexivity].
  - destruct (newline_builder_merge _ _ _ _ Hb) as (n & x & ->). split; [apply edits_keep | done].
  - destruct (newline_builder_merge _ _ _ _ Hb) as (n & x & ->). split; [apply edits_keep | done].
  - apply bind_Ok_inv in Hb as (b0 & _ & Hb). apply bind_Ok_inv in Hb as (o & _ & Hb).
    apply bind_Ok_inv in Hb as (u & _ & [= <-]). split; [apply glm_edits|]. simpl. done.
  - apply bind_Ok_inv in Hb as (b0 & _ & Hb). apply bind_Ok_inv in Hb as (x & _ & [= <-]).
    split; [apply edits_keep | done].
Qed.

Lemma builder_removes_at_most_one `{PyPrims} b messages runtime appended :
  is_builder b → removed_prefix_token_count (b_merge b messages runtime appended) ≤ 1.
Proof.
  destruct 1 as [t a b Hb|t a b Hb|t a b Hb|t a b Hb|t a b Hb|t a b Hb].
  - rewrite (base_builder_merge _ _ _ Hb). simpl. lia.
  - apply bind_Ok_inv in Hb as (b0 & Hb & [= <-]). simpl. rewrite (base_builder_merge _ _ _ Hb). simpl. lia.
  - destruct (newline_builder_merge _ _ _ _ Hb) as (n & x & ->). simpl. lia.
  - destruct (newline_builder_merge _ _ _ _ Hb) as (n & x & ->). simpl. lia.
  - apply bind_Ok_inv in Hb as (b0 & _ & Hb). apply bind_Ok_inv in Hb as (o & _ & Hb).
    apply bind_Ok_inv in Hb as (u & _ & [= <-]). simpl. unfold glm_merge_token_ids.
    destruct (last runtime); simpl; [case_bool_decide|]; simpl; lia.
  - apply bind_Ok_inv in Hb as (b0 & _ & Hb). apply bind_Ok_inv in Hb as (x & _ & [= <-]). simpl. lia.
Qed.

(** ** Aligned response metadata

    A response entry is a token with, when the model generated it, its log probability. *)
Section entries.
Context {F : Type} (zero : F).

Definition mask_of (es : list (Z * option F)) : list Z := (λ e, if e.2 is Some _ then 1%Z else 0%Z) <$> es.
Definition logprobs_of (es : list (Z * option F)) : list F := (λ e, default zero e.2) <$> es.
Definition foreign (ids : list Z) : list (Z * option F) := (λ t, (t, None)) <$> ids.
Definition generated (ids : list Z) (lps : list F) : list (Z * option F) := zip_with (λ t p, (t, Some p)) ids lps.

(** The runtime tokens are the prompt and the entries, the mask marks the generated ones,
    and the log probabilities (when the rollout keeps any) are theirs. *)
Definition represents (prompt : list Z) (es : list (Z * option F)) (tokens mask : list Z) (lps : option (list F)) : Prop :=
  tokens = prompt ++ es.*1 ∧ mask = mask_of es ∧ (lps = None ∨ lps = Some (logprobs_of es)).

Lemma mask_of_foreign ids : mask_of (foreign ids) = replicate (length ids) 0%Z.
Proof using Type. induction ids; simpl; [done|]. unfold mask_of, foreign in *. csimpl. by f_equal. Qed.
Lemma logprobs_of_foreign ids : logprobs_of (foreign ids) = replicate (length ids) zero.
Proof using Type. induction ids; simpl; [done|]. unfold logprobs_of, foreign in *. csimpl. by f_equal. Qed.
Lemma fst_foreign ids : (foreign ids).*1 = ids.
Proof using Type. unfold foreign. induction ids; csimpl; [done|]. by f_equal. Qed.
Lemma generated_proj ids lps :
  length lps = length ids →
  (generated ids lps).*1 = ids ∧ mask_of (generated ids lps) = replicate (length ids) 1%Z ∧
  logprobs_of (generated ids lps) = lps.
Proof using Type.
  unfold generated, mask_of, logprobs_of. revert lps.
  induction ids as [|i ids IH]; intros [|p lps] Hl; try done.
  destruct (IH lps) as (H1 & H2 & H3); [by injection Hl|]. csimpl. by rewrite H1, H2, H3.
Qed.

Lemma length_mask_of es : length (mask_of es) = length es.
Proof using Type. apply length_fmap. Qed.
Lemma length_logprobs_of es : length (logprobs_of es) = length es.
Proof using Type. apply length_fmap. Qed.
Lemma mask_of_app es fs : mask_of (es ++ fs) = mask_of es ++ mask_of fs.
Proof using Type. apply fmap_app. Qed.
Lemma logprobs_of_app es fs : logprobs_of (es ++ fs) = logprobs_of es ++ logprobs_of fs.
Proof using Type. apply fmap_app. Qed.

Lemma align_non_assistant prompt es tokens mask lps r appended :
  represents prompt es tokens mask lps → edits tokens appended r → kind r = NonAssistant →
  removed_prefix_token_count r ≤ length es →
  ∃ mask' lps',
    align_response_metadata zero r mask lps None = Ok (mask', lps') ∧
    represents prompt (take (length es - removed_prefix_token_count r) es ++ foreign (inserted_token_ids r ++ appended))
      (token_ids r) mask' lps' ∧ (lps' = None ↔ lps = None).
Proof using Type.
  intros (-> & -> & Hlps) (Hrem & Htok & Hcount) Hkind Hle.
  set (n := removed_prefix_token_count r) in *. unfold align_response_metadata. rewrite Hkind, Hcount. fold n.
  eexists _, _. split; [destruct lps; reflexivity|]. split; [|by destruct lps].
  split; [|split].
  - rewrite Htok, take_app, length_app, length_fmap, fmap_app, fst_foreign, fmap_take.
    rewrite take_ge by lia. rewrite <-!app_assoc. do 3 f_equal. lia.
  - rewrite trim_spec by (by rewrite length_mask_of).
    rewrite length_mask_of, mask_of_app, mask_of_foreign, length_app, replicate_add, <-app_assoc.
    unfold mask_of. by rewrite fmap_take.
  - destruct Hlps as [->| ->]; [by left|right]. simpl. f_equal.
    rewrite trim_spec by (by rewrite length_logprobs_of).
    rewrite length_logprobs_of, logprobs_of_app, logprobs_of_foreign, length_app, replicate_add, <-app_assoc.
    unfold logprobs_of. by rewrite fmap_take.
Qed.

Lemma align_assistant prompt es tokens mask lps ids new :
  represents prompt es tokens mask lps → length new = length ids →
  ∃ mask' lps',
    align_response_metadata zero (merge_assistant_tokens tokens ids) mask lps ((λ _, new) <$> lps) = Ok (mask', lps') ∧
    represents prompt (es ++ generated ids new) (token_ids (merge_assistant_tokens tokens ids)) mask' lps' ∧
    (lps' = None ↔ lps = None).
Proof using Type.
  intros (-> & -> & Hlps) Hlen. destruct (generated_proj ids new Hlen) as (H1 & H2 & H3).
  unfold align_response_metadata, merge_assistant_tokens. simpl.
  destruct lps as [l|]; simpl; [rewrite (proj2 (Nat.eqb_eq _ _) Hlen)|].
  - eexists _, _. split; [reflexivity|]. split; [|done].
    split; [by rewrite fmap_app, H1, app_assoc|].
    split; [by rewrite mask_of_app, H2, app_nil_r|]. right.
    destruct Hlps as [?|[= ->]]; [done|]. by rewrite logprobs_of_app, H3, app_nil_r.
  - eexists _, _. split; [reflexivity|]. split; [|done].
    split; [by rewrite fmap_app, H1, app_assoc|].
    split; [by rewrite mask_of_app, H2, app_nil_r | by left].
Qed.

Lemma merge_non_assistant_inv `{PyPrims} b previous updated runtime tools r :
  is_builder b → merge_non_assistant_tokens b previous updated runtime tools = Ok r →
  ∃ appended, tokenize_non_assistant_incremental_messages b previous updated tools = Ok appended ∧
    edits runtime appended r ∧ kind r = NonAssistant ∧ removed_prefix_token_count r ≤ 1.
Proof using Type.
  intros Hb Hm. apply bind_Ok_inv in Hm as (appended & Ha & [= <-]). exists appended.
  split; [done|]. destruct (builder_edits b (drop (length previous) updated) runtime appended Hb) as [He Hk].
  split; [done|]. split; [done|]. by apply builder_removes_at_most_one.
Qed.

(** C11: Metadata stays aligned with the tokens.  For every builder class, if the runtime
    tokens are a prompt followed by response entries, and mask and log probabilities are
    those of the entries, then after merging and aligning (1) generated tokens, the entries
    have those tokens with their log probabilities at the end; (2) appended messages, the
    entries lose the removed boundary tokens and gain the inserted and appended tokens,
    all with mask and log probability 0; in both cases nothing else changes. *)
Theorem merges_keep_metadata_aligned `{PyPrims} b prompt es tokens mask lps :
  is_builder b → represents prompt es tokens mask lps →
  (∀ ids new, length new = length ids →
     ∃ mask' lps',
       align_response_metadata zero (merge_assistant_tokens tokens ids) mask lps ((λ _, new) <$> lps) = Ok (mask', lps') ∧
       represents prompt (es ++ generated ids new) (token_ids (merge_assistant_tokens tokens ids)) mask' lps') ∧
  (∀ previous updated tools r,
     merge_non_assistant_tokens b previous updated tokens tools = Ok r →
     removed_prefix_token_count r ≤ length es →
     ∃ appended mask' lps',
       tokenize_non_assistant_incremental_messages b previous updated tools = Ok appended ∧
       align_response_metadata zero r mask lps None = Ok (mask', lps') ∧
       represents prompt
         (take (length es - removed_prefix_token_count r) es ++ foreign (inserted_token_ids r ++ appended))
         (token_ids r) mask' lps').
Proof using Type.
  intros Hb Hr. split.
  - intros ids new Hlen. destruct (align_assistant _ _ _ _ _ ids new Hr Hlen) as (m & l & Ha & Hrep & _).
    by exists m, l.
  - intros previous updated tools r Hm Hle.
    destruct (merge_non_assistant_inv _ _ _ _ _ _ Hb Hm) as (appended & Ha & He & Hk & _).
    destruct (align_non_assistant _ _ _ _ _ _ _ Hr He Hk Hle) as (m & l & Hal & Hrep & _).
    by exists appended, m, l.
Qed.
End entries.

(** ** Incremental tokenization against rendering everything *)

Lemma concat_iter_append_groups ms : concat (iter_append_groups ms) = ms.
Proof.
  induction ms as [|m ms IH]; simpl; [done|]. rewrite <-IH at 2.
  destruct (iter_append_groups ms) as [|[|m' g] groups]; simpl; [done..|].
  by destruct (is_tool m && is_tool m').
Qed.

Definition is_group (g : list dict) : Prop := ∃ m rest, g = m :: rest ∧ (rest = [] ∨ Forall is_tool g).
Lemma iter_append_groups_are_groups ms : Forall is_group (iter_append_groups ms).
Proof.
  induction ms as [|m ms IH]; simpl; [constructor|].
  destruct (iter_append_groups ms) as [|[|m' g] groups].
  - repeat constructor. exists m, []. auto.
  - constructor; [|done]. exists m, []. auto.
  - destruct (is_tool m && is_tool m') eqn:E.
    + apply andb_true_iff in E as [Em Em']. apply Forall_cons in IH as [(x & rest & [= <- <-] & Hg) Hgs].
      constructor; [|done]. exists m, (m' :: g). split; [done|]. right.
      destruct Hg as [->|Hg]; repeat constructor; rewrite ?Em, ?Em'; try done; by inversion Hg.
    + constructor; [|done]. exists m, []. auto.
Qed.

(** The appended messages extend the previous ones and have allowed roles. *)
Definition appends (b : builder) (previous updated : list dict) : Prop :=
  length previous ≤ length updated ∧ messages_eq (take (length previous) updated) previous = true ∧
  Forall (λ m, in_str_set (get "role" m) (b_allowed b) = Ok true) (drop (length previous) updated).

Lemma check_append_role_Ok b u m :
  check_append_role b u m = Ok tt ↔ in_str_set (get "role" m) (b_allowed b) = Ok true.
Proof. unfold check_append_role. by destruct (in_str_set _ _) as [[|]|e]. Qed.

Lemma assert_append_only_spec b previous updated :
  assert_append_only b previous updated = Ok tt ↔ appends b previous updated.
Proof.
  unfold assert_append_only, appends. rewrite <-Nat.leb_le.
  destruct (Nat.leb _ _); [|split; [done | by intros (? & _)]].
  destruct (messages_eq _ _); [|split; [done | by intros (_ & ? & _)]].
  assert (foldM (check_append_role b) tt (drop (length previous) updated) = Ok tt ↔
          Forall (λ m, in_str_set (get "role" m) (b_allowed b) = Ok true) (drop (length previous) updated)) as ->;
    [|naive_solver].
  induction (drop (length previous) updated) as [|m ms IH]; [done|]. rewrite Forall_cons, <-IH.
  cbn [foldM]. pose proof (check_append_role_Ok b tt m) as Hm.
  destruct (check_append_role b tt m) as [[]|e]; simpl; rewrite <-Hm; (split; [|by intros [Hx Hy]]); try done; intros Hy; by split.
Qed.

Lemma in_str_set_mono v l l' : l ⊆ l' → in_str_set v l = Ok true → in_str_set v l' = Ok true.
Proof.
  intros Hsub. unfold in_str_set. destruct v; try done; intros [= Hx]; f_equal;
    apply List.existsb_exists in Hx as (w & Hs & Hv); apply List.existsb_exists; exists w;
    (split; [apply list_elem_of_In, Hsub, list_elem_of_In, Hs | done]).
Qed.

Section compositional.
Context `{PyPrims} (t : tokenizer) (message_ids : dict → list Z) (generation_ids : list Z).

(** A chat template that renders messages one after the other. *)
Hypothesis template_concat : ∀ messages g tools,
  tk_template t messages g tools = Ok (JInt <$> (concat (message_ids <$> messages) ++ if (g : bool) then generation_ids else [])).

Lemma mapM_JInt ids : mapM int_or_type_error (JInt <$> ids) = Ok ids.
Proof using Type.
  apply mapM_Ok_Forall2, Forall2_fmap_l, Forall_Forall2_diag, Forall_forall. done.
Qed.

Lemma normalize_ints ids : normalize_token_ids (JList (JInt <$> ids)) = Ok ids.
Proof using Type. destruct ids as [|i [|j ids]]; [done..|]. apply (mapM_JInt (i :: j :: ids)). Qed.

Lemma render_tokens_concat ms g tools :
  render_tokens t ms g tools = Ok (concat (message_ids <$> ms) ++ if (g : bool) then generation_ids else []).
Proof using template_concat. unfold render_tokens, apply_chat_template. rewrite template_concat. apply normalize_ints. Qed.

Lemma render_delta_concat prefix appended g tools :
  render_delta_token_id t prefix appended g tools =
    Ok (concat (message_ids <$> appended) ++ if (g : bool) then generation_ids else []).
Proof using template_concat.
  unfold render_delta_token_id. rewrite !render_tokens_concat. simpl.
  rewrite app_nil_r, fmap_app, concat_app, <-app_assoc, take_app_length, drop_app_length.
  by rewrite bool_decide_eq_true_2.
Qed.

Lemma tokenize_group_concat b allowed previous tools group :
  base_builder t allowed = Ok b → is_group group →
  Forall (λ m, in_str_set (get "role" m) supported_append_roles = Ok true) group →
  tokenize_group b previous tools group = Ok (concat (message_ids <$> group)).
Proof using template_concat.
  intros Hb (m & rest & -> & Hg) Hroles. apply bind_Ok_inv in Hb as (roles & _ & [= <-]). unfold tokenize_group.
  destruct (is_tool m) eqn:Hm; simpl.
  - unfold tokenize_tool_group. by rewrite render_delta_concat, app_nil_r.
  - assert (rest = []) as ->.
    { destruct Hg as [?|Hg]; [done|]. apply Forall_cons in Hg as [Hg _]. rewrite Hm in Hg. done. }
    apply Forall_cons in Hroles as [Hr _]. unfold is_tool in Hm.
    assert (in_str_set (get "role" m) ["user"; "system"] = Ok true) as ->.
    { revert Hr Hm. unfold in_str_set, supported_append_roles. cbn [existsb].
      destruct (get "role" m) as [| | | |s| |]; try done. intros Hr Hm; rewrite Hm in Hr; exact Hr. }
    simpl. unfold tokenize_single_non_tool. by rewrite render_delta_concat, app_nil_r.
Qed.

Lemma base_builder_allowed allowed b :
  base_builder t allowed = Ok b → b_allowed b ⊆ supported_append_roles.
Proof using Type.
  intros Hb. apply bind_Ok_inv in Hb as (roles & Hr & [= <-]). simpl.
  destruct allowed as [l|]; [|by injection Hr as <-]. apply require_inv in Hr as [Hl [= <-]].
  apply forallb_Forall in Hl. intros r Hin. rewrite Forall_forall in Hl. specialize (Hl r Hin).
  by apply bool_decide_eq_true in Hl.
Qed.

Lemma incremental_concat b allowed previous updated tools :
  base_builder t allowed = Ok b → appends b previous updated → drop (length previous) updated ≠ [] →
  tokenize_non_assistant_incremental_messages b previous updated tools =
    Ok (concat (message_ids <$> drop (length previous) updated) ++ generation_ids).
Proof using template_concat.
  intros Hb Happ Hne. unfold tokenize_non_assistant_incremental_messages.
  rewrite (proj2 (assert_append_only_spec _ _ _) Happ). destruct Happ as (_ & _ & Hroles). cbn [mbind result_bind].
  destruct (drop (length previous) updated) as [|m ms']; [done|]. cbv iota. revert Hroles.
  generalize (m :: ms'). intros ms Hroles.
  assert (mapM (tokenize_group b previous tools) (iter_append_groups ms) =
          Ok ((λ g, concat (message_ids <$> g)) <$> iter_append_groups ms)) as ->.
  { apply mapM_Ok_map. intros g Hg. apply (tokenize_group_concat _ allowed); [done| |].
    - pose proof (iter_append_groups_are_groups ms) as Hgs. rewrite Forall_forall in Hgs. by apply Hgs.
    - apply Forall_forall. intros x Hx. rewrite Forall_forall in Hroles.
      apply (in_str_set_mono _ (b_allowed b)); [by apply (base_builder_allowed allowed)|]. apply Hroles.
      rewrite <-(concat_iter_append_groups ms). apply list_elem_of_In, List.in_concat. exists g.
      by rewrite <-!list_elem_of_In. }
  simpl. apply bind_Ok_inv in Hb as (roles & _ & [= <-]). simpl.
  unfold tokenize_generation_prompt_delta. rewrite render_delta_concat. simpl. f_equal. f_equal.
  rewrite <-(concat_iter_append_groups ms) at 2. induction (iter_append_groups ms) as [|g gs IH]; [done|].
  csimpl. rewrite IH. by rewrite fmap_app, concat_app.
Qed.

(** The incremental tokens are the ones a full rendering would add.  With a template
    that renders messages one after the other, the base builder's merge succeeds exactly
    on append-only updates with allowed roles; the runtime tokens then grow by the
    appended messages and the generation prompt, so tokens that rendered the old messages
    become the rendering of the whole updated conversation. *)
Theorem incremental_matches_full_render b allowed previous updated runtime tools :
  base_builder t allowed = Ok b →
  drop (length previous) updated ≠ [] →
  (is_ok (merge_non_assistant_tokens b previous updated runtime tools) = true ↔ appends b previous updated) ∧
  ∀ r, merge_non_assistant_tokens b previous updated runtime tools = Ok r →
    token_ids r = runtime ++ concat (message_ids <$> drop (length previous) updated) ++ generation_ids ∧
    (render_tokens t (take (length previous) updated) false tools = Ok runtime →
     build_initial_tokens b updated tools = Ok (token_ids r)).
Proof using template_concat.
  intros Hb Hne.
  assert (∀ r, merge_non_assistant_tokens b previous updated runtime tools = Ok r → appends b previous updated) as Honly.
  { intros r Hm. apply bind_Ok_inv in Hm as (ids & Hi & _). apply bind_Ok_inv in Hi as ([] & Ha & _).
    by apply assert_append_only_spec. }
  assert (Happ : appends b previous updated → merge_non_assistant_tokens b previous updated runtime tools =
    Ok (merge_non_assistant_token_ids runtime (concat (message_ids <$> drop (length previous) updated) ++ generation_ids))).
  { intros Ha. unfold merge_non_assistant_tokens. rewrite (incremental_concat _ allowed) by done.
    simpl. by rewrite (base_builder_merge _ _ _ Hb). }
  split.
  - split; [|by intros Ha%Happ; rewrite Ha].
    destruct (merge_non_assistant_tokens _ _ _ _ _) as [r|e] eqn:E; [intros _; by apply (Honly r)|done].
  - intros r Hm. rewrite (Happ (Honly r Hm)) in Hm. injection Hm as <-. simpl. split; [done|].
    intros Hr. rewrite render_tokens_concat in Hr. injection Hr as <-. unfold build_initial_tokens.
    assert (b_tokenizer b = t) as -> by (by apply bind_Ok_inv in Hb as (roles & _ & [= <-])).
    rewrite render_tokens_concat. rewrite app_nil_r, !app_assoc, <-concat_app, <-fmap_app, take_drop. done.
Qed.
End compositional.

(** A template that marks roles, and a two-turn rollout under the Qwen and GLM builders. *)
Definition role_ids (m : dict) : list Z :=
  if is_str (get "role" m) "tool" then [3%Z; 30%Z] else if is_str (get "role" m) "user" then [1%Z; 10%Z] else [2%Z; 20%Z].
Definition sample_tokenizer : tokenizer := {|
  tk_template := λ ms g _, Ok (JInt <$> (concat (role_ids <$> ms) ++ if (g : bool) then [2%Z] else []));
  tk_encode := λ _, [9%Z];
  tk_token_id := λ s, if bool_decide (s = "<|im_end|>"%string) then JInt 20 else JInt 10 |}.
Definition msg (role : string) : dict := [("role", JStr role); ("content", JStr "x")].

Lemma incremental_matches_full_render_witness :
  let previous := [msg "user"; msg "assistant"] in
  let updated := [msg "user"; msg "assistant"; msg "tool"; msg "tool"; msg "user"] in
  ∃ b, base_builder sample_tokenizer None = Ok b ∧
    (is_ok (merge_non_assistant_tokens b previous updated [1; 10; 2; 20]%Z JNull) = true ↔ appends b previous updated) ∧
    (∀ r, merge_non_assistant_tokens b previous updated [1; 10; 2; 20]%Z JNull = Ok r →
      token_ids r = [1; 10; 2; 20; 3; 30; 3; 30; 1; 10; 2]%Z ∧
      (render_tokens sample_tokenizer previous false JNull = Ok [1; 10; 2; 20]%Z →
       build_initial_tokens b updated JNull = Ok (token_ids r))).
Proof.
  intros previous updated. eexists. split; [reflexivity|].
  apply (incremental_matches_full_render sample_tokenizer role_ids [2%Z] (λ _ _ _, eq_refl) _ None previous updated);
    done.
Defined.

Lemma merges_keep_metadata_aligned_witness :
  let es := [(7%Z, Some 0.5%Q); (10%Z, Some 0.25%Q)] in
  ∃ b r, glm_builder sample_tokenizer None = Ok b ∧
    merge_non_assistant_tokens b [msg "user"] [msg "user"; msg "tool"] [1; 7; 10]%Z JNull = Ok r ∧
    token_ids r = [1; 7; 3; 30; 2]%Z ∧
    ∃ appended mask' lps',
      tokenize_non_assistant_incremental_messages b [msg "user"] [msg "user"; msg "tool"] JNull = Ok appended ∧
      align_response_metadata 0%Q r [1; 1]%Z (Some [0.5%Q; 0.25%Q]) None = Ok (mask', lps') ∧
      represents 0%Q [1%Z] (take 1 es ++ foreign (appended)) (token_ids r) mask' lps'.
Proof.
  intros es. eexists _, _. split; [reflexivity|]. split; [reflexivity|]. split; [reflexivity|].
  eapply (merges_keep_metadata_aligned 0%Q _ [1%Z] es).
  - apply (is_glm sample_tokenizer None). reflexivity.
  - split; [done|split; [done|by right]].
  - reflexivity.
  - simpl. lia.
Defined.
