(* ===== verification/ToolAgentLoop.v ===== *)
(** * The tool agent loop: [src/verl/experimental/agent_loop/tool_agent_loop.py]

    A rollout alternates between generation and tool calls until a turn or length limit is
    reached.  The model is the text loop (no processor), with and without continuous
    tokens.  The LLM server, the tool parser, the tools and [json.loads] are parameters
    over a state [W] of the world; tool calls, gathered concurrently in the code, run in
    order here, and tools do not change the agent data they are shown. *)

From S2P Require Import Prelude PyStr Json PyDict ContinuousToken.
From Stdlib Require Import QArith.
Local Close Scope Q_scope.
Local Open Scope py_scope.

Record FunctionCall := { fc_name : string; fc_arguments : string; fc_tool_call_id : option string }.
Record ToolResponse := { tr_text : option string; tr_image : option (list json); tr_video : option (list json) }.
Definition text_response (s : string) : ToolResponse := {| tr_text := Some s; tr_image := None; tr_video := None |}.

Inductive AgentState := PENDING | GENERATING | PROCESSING_TOOLS | TERMINATED.
#[export] Instance AgentState_eq_dec : EqDecision AgentState.
Proof. solve_decision. Defined.

(** What the server manager returns. *)
Record generation := {
  g_token_ids : list Z; g_log_probs : option (list Q); g_num_preempted : option Z;
  g_routed_experts : option (list Z); g_extra_fields : dict }.

Section loop.
Context `{PyPrims} {W : Type}.

(** A function tool is called and its return value normalised; a [BaseTool] is created,
    executed and released. *)
Inductive tool_impl :=
  | FunctionTool (call : json → stateR W (ToolResponse * option Q))
  | BaseTool (create : json → stateR W string) (execute : string → json → stateR W (ToolResponse * option Q))
      (release : string → stateR W unit).
Record tool := { t_schema : json; t_impl : tool_impl }.

(** The multi-turn part of the rollout configuration and the loop's fixed parts. *)
Record loop_config := {
  max_user_turns : option Z; max_assistant_turns : option Z; max_parallel_calls : Z;
  max_tool_response_length : nat; tool_response_truncate_side : string; tool_parser_name : string;
  prompt_length : nat; response_length : nat;
  system_prompt : list Z; loop_tokenizer : tokenizer; continuous_token : option builder }.

Context (c : loop_config) (server_generate : list Z → stateR W generation)
        (extract_tool_calls : list Z → stateR W (string * list FunctionCall))
        (json_loads : string → string + json) (exn_text : exn → string).

Record AgentData := {
  messages : list dict; tools_kwargs : list (string * dict); active_tools : list (string * tool);
  prompt_ids : list Z; response_ids : list Z; response_mask : list Z; response_logprobs : list Q;
  tool_rewards : list Q; user_turns : Z; assistant_turns : Z; tool_calls : list FunctionCall;
  routed_experts : option (list Z); num_preempted : option Z; extra_fields : dict }.

Definition tool_schemas (d : AgentData) : json := JList ((λ nt : string * tool, t_schema nt.2) <$> active_tools d).

(** ** Prompts: [AgentLoopBase] *)

Definition cap_text_prompt_length (ids : list Z) : list Z :=
  if Nat.ltb (prompt_length c) (length ids) then zslice (- Z.of_nat (prompt_length c)) (Z.of_nat (length ids)) ids else ids.

Definition base_apply_chat_template (ms : list dict) (tools : json) (remove_system_prompt : bool) : result (list Z) :=
  tokenized ← apply_chat_template (loop_tokenizer c) ms true tools;
  ids ← normalize_token_ids (JList tokenized);
  let ids := if remove_system_prompt then drop (length (system_prompt c)) ids else ids in
  Ok (if Nat.ltb (prompt_length c) (length ids) then cap_text_prompt_length ids else ids).

Definition ct_build_initial_tokens (b : builder) (ms : list dict) (tools : json) : result (list Z) :=
  ids ← build_initial_tokens b ms tools;
  Ok (cap_text_prompt_length ids).

Definition ct_merge_non_assistant_msg (b : builder) (previous updated : list dict) (runtime mask : list Z)
    (logprobs : option (list Q)) (tools : json) : result (MergeResult * list Z * option (list Q)) :=
  r ← merge_non_assistant_tokens b previous updated runtime tools;
  ml ← align_response_metadata 0%Q r mask logprobs None;
  Ok (r, ml.1, ml.2).

Definition ct_merge_assistant_token (runtime assistant mask : list Z) (logprobs assistant_logprobs : option (list Q))
    : result (MergeResult * list Z * option (list Q)) :=
  let r := merge_assistant_tokens runtime assistant in
  ml ← align_response_metadata 0%Q r mask logprobs assistant_logprobs;
  Ok (r, ml.1, ml.2).

(** ** Tool calls *)

Definition is_exception (e : exn) : bool := match e with SystemExit _ => false | _ => true end.

(** [text[-n:]] *)
Definition last_chars (n : nat) (s : string) : string :=
  match n with 0 => s | _ => sdrop (String.length s - n) s end.

Definition truncate_text (s : string) : string :=
  let n := max_tool_response_length c in
  if Nat.ltb n (String.length s) then
    if bool_decide (tool_response_truncate_side c = "left"%string) then ("(truncated)..." ++ last_chars n s)%string
    else if bool_decide (tool_response_truncate_side c = "right"%string) then (stake n s ++ "...(truncated)")%string
    else (stake (n / 2) s ++ "...(truncated)..." ++ last_chars (n / 2) s)%string
  else s.

(** [create], [execute] and the [finally] that releases the instance; the result says
    whether the body raised. *)
Definition execute_tool (name : string) (t : tool_impl) (kwargs : list (string * dict)) (args : json)
    : stateR W (result (ToolResponse * option Q)) :=
  match t with
  | FunctionTool call => λ w, let '(r, w) := call args w in (Ok r, w)
  | BaseTool create execute release => λ w,
      match create (get_default "create_kwargs" (JObj []) (default [] (dget name kwargs))) w with
      | (Raise e, w) => (Ok (Raise e), w)
      | (Ok instance_id, w) =>
          let '(r, w) := execute instance_id args w in
          if bool_decide (instance_id = ""%string) then (Ok r, w)
          else match release instance_id w with (Ok _, w) => (Ok r, w) | (Raise e, w) => (Raise e, w) end
      end
  end.

Definition call_tool (d : AgentData) (call : FunctionCall) : stateR W (ToolResponse * option Q) :=
  let name := fc_name call in
  match dget name (active_tools d) with
  | None =>
      mret (text_response ("Unknown function '" ++ name ++ "'. Available tools: " ++
                             py_repr (JList (JStr <$> keys (active_tools d))))%string, Some 0%Q)
  | Some t =>
      match json_loads (fc_arguments call) with
      | inl e => mret (text_response ("Invalid JSON in arguments for '" ++ name ++ "': " ++ e)%string, Some 0%Q)
      | inr args =>
          r ← execute_tool name (t_impl t) (tools_kwargs d) args;
          match r with
          | Ok (resp, reward) =>
              mret ({| tr_text := truncate_text <$> tr_text resp; tr_image := tr_image resp; tr_video := tr_video resp |},
                    reward)
          | Raise e =>
              if is_exception e then
                mret (text_response ("Error executing tool '" ++ name ++ "': " ++ exn_text e)%string, Some 0%Q)
              else lift (Raise e)
          end
      end
  end.

(** ** Messages *)

(** [OpenAIFunctionCallSchema.from_openai_function_parsed_schema]: arguments and decode-error flag. *)
Definition parse_arguments (arguments : string) : dict * bool :=
  match json_loads arguments with inr (JObj o) => (o, false) | _ => ([], true) end.

Definition assistant_tool_call (call : FunctionCall) : result json :=
  let '(arguments, has_decode_error) := parse_arguments (fc_arguments call) in
  require negb has_decode_error else ValueError "Invalid tool call arguments: expected a JSON object string" ;;
  let function := JObj [("name", JStr (fc_name call)); ("arguments", JObj arguments)] in
  Ok (JObj ([("type", JStr "function"); ("function", function)] ++
            match fc_tool_call_id call with Some i => [("id", JStr i)] | None => [] end)).

Definition build_assistant_message (content : string) (calls : list FunctionCall) : result dict :=
  let message := [("role", JStr "assistant"); ("content", JStr content)] in
  match calls with
  | [] => Ok message
  | _ => tcs ← mapM assistant_tool_call (zslice 0 (max_parallel_calls c) calls);
         Ok (message ++ [("tool_calls", JList tcs)])
  end.

(** The message of one tool response; without a processor, multimedia data is refused. *)
Definition tool_message (call : FunctionCall) (resp : ToolResponse) : result dict :=
  require negb (match tr_image resp, tr_video resp with
                | Some (_ :: _), _ | _, Some (_ :: _) => true
                | _, _ => false
                end)
    else ValueError "Multimedia data can only be processed by `processor`, but the processor is None." ;;
  Ok ([("role", JStr "tool"); ("content", JStr (default ""%string (tr_text resp)))] ++
      match fc_tool_call_id call with Some i => [("tool_call_id", JStr i)] | None => [] end).

Definition content_text (m : dict) : string := py_str (get_default "content" (JStr "") m).

Definition build_gpt_oss_tool_response_text (ms : list dict) (names : list string) : string :=
  (str_join "" (zip_with (λ m name, gpt_oss_format_tool_response name (content_text m)) ms names)
   ++ "<|start|>assistant")%string.
Definition gemma4_tool_response_text (ms : list dict) (names : list string) : string :=
  str_join "" (zip_with (λ m name, gemma4_format_tool_response name (content_text m)) ms names).

(** ** The handlers *)

Definition spec_decode_extra_keys : list string :=
  ["spec_num_draft_tokens"; "spec_num_accepted_tokens"; "spec_num_verify_steps"].

Definition add_extra_key (new : dict) (extra : dict) (key : string) : result dict :=
  match lookup key new, lookup key extra with
  | Some b, Some a => x ← py_int a; y ← py_int b; Ok (set key (JInt (x + y)) extra)
  | _, _ => Ok extra
  end.

Definition merge_extra_fields (extra new : dict) : result dict :=
  match extra with
  | [] => Ok (update new [])
  | _ =>
      let m := get "max_global_steps" new in
      foldM (add_extra_key new) (if truthy m then set "max_global_steps" m extra else extra) spec_decode_extra_keys
  end.

Definition add_preempted (old new : option Z) : option Z :=
  match old with None => Some (default (-1)%Z new) | Some n => Some (n + default 0%Z new)%Z end.

(** [x or None], for a list. *)
Definition or_none {A} (l : list A) : option (list A) := match l with [] => None | _ => Some l end.

(** The tokens of a generation, added to prompt, mask and log probabilities. *)
Definition append_generation (d : AgentData) (o : generation) : result (list Z * list Z * list Q) :=
  let new := default [] (g_log_probs o) in
  match continuous_token c with
  | Some _ =>
      let logprobs := match response_logprobs d, new with [], [] => None | l, _ => Some l end in
      rml ← ct_merge_assistant_token (prompt_ids d) (g_token_ids o) (response_mask d) logprobs (or_none new);
      let '(r, mask, lps) := rml in
      Ok (token_ids r, mask, default (response_logprobs d) lps)
  | None =>
      Ok (prompt_ids d ++ g_token_ids o, response_mask d ++ replicate (length (g_token_ids o)) 1%Z,
          response_logprobs d ++ new)
  end.

Definition limit_reached (limit : option Z) (turns : Z) : bool :=
  match limit with Some n => negb (Z.eqb n 0) && Z.leb n turns | None => false end.

Definition handle_pending_state (d : AgentData) : result (AgentData * AgentState) :=
  ids ← match continuous_token c with
        | Some b => ct_build_initial_tokens b (messages d) (tool_schemas d)
        | None => base_apply_chat_template (messages d) (tool_schemas d) false
        end;
  Ok ({| messages := messages d; tools_kwargs := tools_kwargs d; active_tools := active_tools d; prompt_ids := ids;
         response_ids := response_ids d; response_mask := response_mask d; response_logprobs := response_logprobs d;
         tool_rewards := tool_rewards d; user_turns := user_turns d; assistant_turns := assistant_turns d;
         tool_calls := tool_calls d; routed_experts := routed_experts d; num_preempted := num_preempted d;
         extra_fields := extra_fields d |}, GENERATING).

Definition after_generation (d : AgentData) (o : generation) : result AgentData :=
  extra ← merge_extra_fields (extra_fields d) (g_extra_fields o);
  pml ← append_generation d o;
  let '(ids, mask, lps) := pml in
  Ok {| messages := messages d; tools_kwargs := tools_kwargs d; active_tools := active_tools d; prompt_ids := ids;
        response_ids := g_token_ids o; response_mask := mask; response_logprobs := lps;
        tool_rewards := tool_rewards d; user_turns := user_turns d; assistant_turns := assistant_turns d + 1;
        tool_calls := tool_calls d;
        routed_experts := match g_routed_experts o with Some e => Some e | None => routed_experts d end;
        num_preempted := add_preempted (num_preempted d) (g_num_preempted o); extra_fields := extra |}.

Definition with_tool_calls (calls : list FunctionCall) (ms : list dict) (d : AgentData) : AgentData :=
  {| messages := ms; tools_kwargs := tools_kwargs d; active_tools := active_tools d; prompt_ids := prompt_ids d;
     response_ids := response_ids d; response_mask := response_mask d; response_logprobs := response_logprobs d;
     tool_rewards := tool_rewards d; user_turns := user_turns d; assistant_turns := assistant_turns d;
     tool_calls := calls; routed_experts := routed_experts d; num_preempted := num_preempted d;
     extra_fields := extra_fields d |}.

Definition handle_generating_state (d : AgentData) (ignore_termination : bool) : stateR W (AgentData * AgentState) :=
  o ← server_generate (prompt_ids d);
  d ← lift (after_generation d o);
  if negb ignore_termination && Nat.leb (response_length c) (length (response_mask d)) then mret (d, TERMINATED)
  else if limit_reached (max_assistant_turns c) (assistant_turns d) then mret (d, TERMINATED)
  else if limit_reached (max_user_turns c) (user_turns d) then mret (d, TERMINATED)
  else
    cc ← extract_tool_calls (response_ids d);
    let '(content, calls) := cc in
    ms ← lift (match continuous_token c with
               | Some _ => m ← build_assistant_message content calls; Ok (messages d ++ [m])
               | None => Ok (messages d)
               end);
    mret (with_tool_calls calls ms d, match calls with [] => TERMINATED | _ => PROCESSING_TOOLS end).

(** The tokens of the tool responses of the loop without continuous tokens. *)
Definition tool_response_ids (ms : list dict) (names : list string) : result (list Z) :=
  if bool_decide (tool_parser_name c = "gpt-oss"%string) then
    Ok (tk_encode (loop_tokenizer c) (build_gpt_oss_tool_response_text ms names))
  else if bool_decide (tool_parser_name c = "gemma4"%string) then
    Ok (tk_encode (loop_tokenizer c) (gemma4_tool_response_text ms names))
  else base_apply_chat_template ms JNull true.

(** The new prompt, mask and log probabilities; [None] when the response would be too long. *)
Definition append_tool_responses (d : AgentData) (ms : list dict) (names : list string)
    : result (option (list Z * list Z * list Q)) :=
  match continuous_token c with
  | Some b =>
      rml ← ct_merge_non_assistant_msg b (messages d) (messages d ++ ms) (prompt_ids d) (response_mask d)
              (or_none (response_logprobs d)) (tool_schemas d);
      let '(r, mask, lps) := rml in
      Ok (if Nat.leb (response_length c) (length mask) then None
          else Some (token_ids r, mask,
                     match response_logprobs d with [] => [] | _ => default [] lps end))
  | None =>
      ids ← tool_response_ids ms names;
      Ok (if Nat.leb (response_length c) (length (response_mask d) + length ids) then None
          else Some (prompt_ids d ++ ids, response_mask d ++ replicate (length ids) 0%Z,
                     match response_logprobs d with [] => [] | l => l ++ replicate (length ids) 0%Q end))
  end.

Definition with_responses (ms : list dict) (rewards : list Q) (d : AgentData) : AgentData :=
  {| messages := ms; tools_kwargs := tools_kwargs d; active_tools := active_tools d; prompt_ids := prompt_ids d;
     response_ids := response_ids d; response_mask := response_mask d; response_logprobs := response_logprobs d;
     tool_rewards := tool_rewards d ++ rewards; user_turns := user_turns d; assistant_turns := assistant_turns d;
     tool_calls := tool_calls d; routed_experts := routed_experts d; num_preempted := num_preempted d;
     extra_fields := extra_fields d |}.
Definition next_user_turn (ids mask : list Z) (lps : list Q) (d : AgentData) : AgentData :=
  {| messages := messages d; tools_kwargs := tools_kwargs d; active_tools := active_tools d; prompt_ids := ids;
     response_ids := response_ids d; response_mask := mask; response_logprobs := lps;
     tool_rewards := tool_rewards d; user_turns := user_turns d + 1; assistant_turns := assistant_turns d;
     tool_calls := tool_calls d; routed_experts := routed_experts d; num_preempted := num_preempted d;
     extra_fields := extra_fields d |}.

Definition handle_processing_tools_state (d : AgentData) : stateR W (AgentData * AgentState) :=
  let calls := zslice 0 (max_parallel_calls c) (tool_calls d) in
  responses ← mapM (call_tool d) calls;
  add_messages ← lift (mapM (λ cr : FunctionCall * (ToolResponse * option Q), tool_message cr.1 cr.2.1) (zip calls responses));
  let d' := with_responses (messages d ++ add_messages) (omap snd responses) d in
  next ← lift (append_tool_responses d add_messages (fc_name <$> calls));
  match next with
  | None => mret (d', TERMINATED)
  | Some (ids, mask, lps) => mret (next_user_turn ids mask lps d', GENERATING)
  end.

(** ** [run] *)

Record AgentLoopOutput := {
  out_prompt_ids : list Z; out_response_ids : list Z; out_response_mask : list Z;
  out_response_logprobs : option (list Q); out_num_turns : Z; out_num_preempted : option Z;
  out_routed_experts : option (list Z); out_extra_fields : dict; out_tool_rewards : list Q }.

Definition select_tools (tools : list (string * tool)) (tool_selection : list string) : list (string * tool) :=
  match tool_selection, tools with
  | [], _ | _, [] => tools
  | _, _ => foldl (λ acc name, match dget name tools with Some t => dset name t acc | None => acc end) [] tool_selection
  end.

Definition init_agent_data (raw_prompt : list dict) (kwargs : list (string * dict)) (tools : list (string * tool)) : AgentData :=
  {| messages := raw_prompt; tools_kwargs := kwargs; active_tools := tools; prompt_ids := []; response_ids := [];
     response_mask := []; response_logprobs := []; tool_rewards := []; user_turns := 0; assistant_turns := 0;
     tool_calls := []; routed_experts := None; num_preempted := None; extra_fields := [] |}.

Definition step_agent (d : AgentData) (s : AgentState) : stateR W (AgentData * AgentState) :=
  match s with
  | PENDING => lift (handle_pending_state d)
  | GENERATING => handle_generating_state d false
  | PROCESSING_TOOLS => handle_processing_tools_state d
  | TERMINATED => mret (d, TERMINATED)
  end.

(** The loop, [fuel] handler calls at most; [None] when it has not terminated by then. *)
Fixpoint state_loop (fuel : nat) (d : AgentData) (s : AgentState) : stateR W (option AgentData) :=
  if bool_decide (s = TERMINATED) then mret (Some d)
  else match fuel with
       | 0 => mret None
       | S fuel => ds ← step_agent d s; let '(d, s) := (ds : AgentData * AgentState) in state_loop fuel d s
       end.

Definition finalize (d : AgentData) : AgentLoopOutput :=
  let total := Z.of_nat (length (prompt_ids d)) in
  let k := Z.of_nat (length (response_mask d)) in
  let prompt := zslice 0 (total - k) (prompt_ids d) in
  let resp := zslice (- k) total (prompt_ids d) in
  {| out_prompt_ids := prompt;
     out_response_ids := take (response_length c) resp;
     out_response_mask := take (response_length c) (response_mask d);
     out_response_logprobs := take (response_length c) <$> or_none (response_logprobs d);
     out_num_turns := user_turns d + assistant_turns d + 1;
     out_num_preempted := num_preempted d;
     out_routed_experts := take (length prompt + response_length c) <$> routed_experts d;
     out_extra_fields := extra_fields d; out_tool_rewards := tool_rewards d |}.

Definition run (fuel : nat) (raw_prompt : list dict) (kwargs : list (string * dict))
    (tools : list (string * tool)) (tool_selection : list string) : stateR W (option AgentLoopOutput) :=
  d ← state_loop fuel (init_agent_data raw_prompt kwargs (select_tools tools tool_selection)) PENDING;
  mret (finalize <$> d).

(** ** Lemmas *)

Section invariant.
Context (keep : bool) (P : Z → Q → Prop).

(** The server returns log probabilities for all tokens or for none; [P] is any property
    of the tokens (and log probabilities) it generates. *)
Definition server_ok (o : generation) : Prop :=
  if keep then ∃ l, g_log_probs o = Some l ∧ Forall2 P (g_token_ids o) l
  else g_log_probs o = None ∧ Forall (λ t, P t 0%Q) (g_token_ids o).

Definition good_entry (e : Z * option Q) : Prop := if e.2 is Some p then P e.1 p else True.
Definition kept_logprobs (es : list (Z * option Q)) : list Q := if keep then logprobs_of 0%Q es else [].

(** Prompt, mask and log probabilities of the response entries [es]. *)
Definition tracks (prompt : list Z) (es : list (Z * option Q)) (ids mask : list Z) (lps : list Q) : Prop :=
  ids = prompt ++ es.*1 ∧ mask = mask_of es ∧ lps = kept_logprobs es ∧ Forall good_entry es.

Definition holds (prompt : list Z) (es : list (Z * option Q)) (d : AgentData) : Prop :=
  tracks prompt es (prompt_ids d) (response_mask d) (response_logprobs d).

Definition new_logprobs (o : generation) : list Q :=
  if keep then default [] (g_log_probs o) else replicate (length (g_token_ids o)) 0%Q.

(** The tokens [new] that a turn of tool responses puts behind the first [n] entries: what the
    builder merges into the tokens so far, which may lose their last one, or the rendered
    responses as they are. *)
Definition tool_tokens (prompt : list Z) (es : list (Z * option Q)) (n : nat) (new : list Z) : Prop :=
  match continuous_token c with
  | Some b => length es - 1 ≤ n ∧ ∃ messages tool_messages schemas r,
      merge_non_assistant_tokens b messages (messages ++ tool_messages) (prompt ++ es.*1) schemas = Ok r ∧
      token_ids r = prompt ++ (take n es).*1 ++ new
  | None => n = length es ∧ ∃ tool_messages names, tool_response_ids tool_messages names = Ok new
  end.

(** Where the entries of a response come from: a call of the server on the prompt and all
    tokens before adds what it generated, with log probabilities, and a turn of tool
    responses adds tokens without. *)
Inductive history (prompt : list Z) : list (Z * option Q) → Prop :=
  | history_start : history prompt []
  | history_generated es w o w' :
      history prompt es → server_generate (prompt ++ es.*1) w = (Ok o, w') →
      history prompt (es ++ generated (g_token_ids o) (new_logprobs o))
  | history_tools es n new :
      history prompt es → tool_tokens prompt es n new → history prompt (take n es ++ foreign new).

Lemma generated_good o :
  server_ok o → length (new_logprobs o) = length (g_token_ids o) ∧
  Forall good_entry (generated (g_token_ids o) (new_logprobs o)).
Proof using Type.
  unfold server_ok, new_logprobs, generated. destruct keep.
  - intros (l & -> & Hall). simpl. split; [symmetry; by eapply Forall2_length|].
    induction Hall; simpl; constructor; done.
  - intros (_ & Hall). rewrite length_replicate. split; [done|]. induction Hall; simpl; constructor; done.
Qed.

Lemma logprobs_of_nil es : logprobs_of 0%Q es = [] → es = [].
Proof using Type. by destruct es. Qed.

Lemma align_without_new r mask lps :
  kind r = Assistant → appended_token_count r = 0 →
  align_response_metadata 0%Q r mask (Some lps) None = align_response_metadata 0%Q r mask (Some lps) (Some []).
Proof using Type. intros Hk Hc. unfold align_response_metadata. by rewrite Hk, Hc. Qed.

Lemma append_generation_spec prompt es d o ids mask lps :
  holds prompt es d → server_ok o → append_generation d o = Ok (ids, mask, lps) →
  tracks prompt (es ++ generated (g_token_ids o) (new_logprobs o)) ids mask lps.
Proof using Type.
  intros (Hids & Hmask & Hlps & Hgood) Ho Happ. destruct (generated_good _ Ho) as [Hlen Hnew].
  assert (Forall good_entry (es ++ generated (g_token_ids o) (new_logprobs o))) as Hall by (by apply Forall_app).
  destruct (generated_proj 0%Q _ _ Hlen) as (H1 & H2 & H3).
  unfold append_generation in Happ. destruct (continuous_token c) as [b|].
  - apply bind_Ok_inv in Happ as ([[r m] l] & Hm & [= <- <- <-]).
    apply bind_Ok_inv in Hm as ([m' l'] & Hal & [= <- <- <-]). simpl.
    set (lp := match response_logprobs d, default [] (g_log_probs o) with [], [] => None | l, _ => Some l end) in *.
    assert (represents 0%Q prompt es (prompt_ids d) (response_mask d) lp) as Hrep.
    { split; [done|]. split; [done|]. unfold lp, kept_logprobs, server_ok in *. rewrite Hlps. destruct keep.
      - destruct (logprobs_of _ _); [|by right]. destruct (default _ _); [by left|by right].
      - destruct Ho as [-> _]. by left. }
    destruct (align_assistant 0%Q _ _ _ _ _ (g_token_ids o) (new_logprobs o) Hrep Hlen) as (m2 & l2 & Hal2 & Hrep2 & Hnone).
    assert (Hsame : Ok (m', l') = Ok (m2, l2)).
    { rewrite <-Hal, <-Hal2. unfold lp, kept_logprobs, new_logprobs, server_ok in *. rewrite Hlps.
      destruct keep; [|by destruct Ho as [-> _]].
      destruct Ho as (l0 & -> & Hall0). simpl. destruct l0 as [|p l0]; [|by destruct (logprobs_of _ _)].
      destruct (logprobs_of _ _); [done|]. apply align_without_new; [done|].
      apply Forall2_length in Hall0. simpl. by destruct (g_token_ids o). }
    injection Hsame as -> ->. destruct Hrep2 as (Hi & Hmk & Hl).
    split; [done|]. split; [done|]. split; [|done].
    unfold lp, kept_logprobs, new_logprobs, server_ok in *. rewrite Hlps in *. destruct keep.
    + destruct Hl as [->| ->]; [|done]. simpl. rewrite logprobs_of_app, H3.
      destruct Hnone as [Hn _]. specialize (Hn eq_refl).
      destruct (logprobs_of 0%Q es); [|done]. destruct (default _ _); done.
    + destruct Ho as [Hg _]. rewrite Hg in Hnone. simpl in Hnone. by rewrite (proj2 Hnone).
  - injection Happ as <- <- <-. rewrite Hids, Hmask, Hlps. split; [by rewrite fmap_app, H1, app_assoc|].
    split; [by rewrite mask_of_app, H2|]. split; [|done].
    unfold kept_logprobs, new_logprobs, server_ok in *. destruct keep.
    + by rewrite logprobs_of_app, H3.
    + by destruct Ho as [-> _].
Qed.

Lemma cap_length ids : 0 < prompt_length c → length (cap_text_prompt_length ids) ≤ prompt_length c.
Proof using Type.
  intros Hpos. unfold cap_text_prompt_length. destruct (Nat.ltb _ _) eqn:Hlt; [|by apply Nat.ltb_ge].
  apply Nat.ltb_lt in Hlt. unfold zslice, slice, slice_bound.
  rewrite (proj2 (Z.ltb_lt (- _) 0)), (proj2 (Z.ltb_ge (Z.of_nat _) 0)) by lia.
  rewrite length_take. lia.
Qed.

Lemma pending_prompt_bounded d d' s' :
  handle_pending_state d = Ok (d', s') → 0 < prompt_length c → length (prompt_ids d') ≤ prompt_length c.
Proof using Type.
  intros Hp Hpos. apply bind_Ok_inv in Hp as (ids & Hids & [= <- <-]). simpl. destruct (continuous_token c).
  - apply bind_Ok_inv in Hids as (x & _ & [= <-]). by apply cap_length.
  - apply bind_Ok_inv in Hids as (x & _ & Hids). apply bind_Ok_inv in Hids as (y & _ & [= <-]).
    simpl. set (z := y). destruct (Nat.ltb _ _) eqn:Hlt; [by apply cap_length | by apply Nat.ltb_ge].
Qed.

Lemma zslice_suffix {A} (a b : list A) :
  b ≠ [] → zslice (- Z.of_nat (length b)) (Z.of_nat (length (a ++ b))) (a ++ b) = b.
Proof using Type.
  intros Hb. assert (0 < length b) by (destruct b; [done|simpl; lia]).
  unfold zslice, slice, slice_bound. rewrite length_app.
  rewrite (proj2 (Z.ltb_lt (- _) 0)), (proj2 (Z.ltb_ge (Z.of_nat _) 0)) by lia.
  replace (Z.to_nat (Z.of_nat (length a + length b) + - Z.of_nat (length b))) with (length a) by lia.
  rewrite drop_app_length, take_ge; [done|]. lia.
Qed.

Lemma finalize_spec prompt es d :
  holds prompt es d →
  out_prompt_ids (finalize d) = prompt ∧
  out_response_ids (finalize d) = take (response_length c) (match es with [] => prompt | _ => es.*1 end) ∧
  out_response_mask (finalize d) = take (response_length c) (mask_of es) ∧
  out_response_logprobs (finalize d) = take (response_length c) <$> or_none (kept_logprobs es).
Proof using Type.
  intros (Hids & Hmask & Hlps & _). unfold finalize. cbn [out_prompt_ids out_response_ids out_response_mask out_response_logprobs].
  rewrite Hids, Hmask, Hlps, length_mask_of. split; [|split; [|done]].
  - apply (zslice_app _ _ []); [simpl; lia|]. rewrite length_app, length_fmap. simpl. lia.
  - f_equal. destruct es as [|e es].
    + simpl. rewrite app_nil_r. rewrite <-(app_nil_r prompt) at 2. by apply (zslice_app _ _ [] prompt []).
    + rewrite <-(length_fmap fst (e :: es)). by apply zslice_suffix.
Qed.

Hypothesis builder_law : ∀ b, continuous_token c = Some b → is_builder b.

Lemma or_none_nil {A} (l : list A) : or_none l = None → l = [].
Proof using Type. by destruct l. Qed.

(** What appended tool responses add to the entries. *)
Lemma append_tool_responses_spec prompt es d ms names ids mask lps :
  holds prompt es d → es ≠ [] → append_tool_responses d ms names = Ok (Some (ids, mask, lps)) →
  ∃ n new, tracks prompt (take n es ++ foreign new) ids mask lps ∧ length mask < response_length c ∧ tool_tokens prompt es n new.
Proof using builder_law.
  intros (Hids & Hmask & Hlps & Hgood) Hne Happ. unfold append_tool_responses in Happ. unfold tool_tokens.
  destruct (continuous_token c) as [b|] eqn:Hct.
  - apply bind_Ok_inv in Happ as ([[r m] l] & Hm & Happ). destruct (Nat.leb _ _) eqn:Hlong; [done|].
    injection Happ as <- <- <-. apply Nat.leb_gt in Hlong.
    apply bind_Ok_inv in Hm as (r' & Hmg & Hm). apply bind_Ok_inv in Hm as ([m' l'] & Hal & [= <- <- <-]).
    destruct (merge_non_assistant_inv _ _ _ _ _ _ (builder_law b eq_refl) Hmg) as (appended & _ & He & Hk & Hrem).
    assert (represents 0%Q prompt es (prompt_ids d) (response_mask d) (or_none (response_logprobs d))) as Hrep.
    { split; [done|]. split; [done|]. rewrite Hlps. unfold kept_logprobs. destruct keep; [|by left].
      destruct es; [done|by right]. }
    destruct (align_non_assistant 0%Q _ _ _ _ _ _ _ Hrep He Hk) as (m2 & l2 & Hal2 & (Hi & Hm2 & Hl2) & Hnone).
    { destruct es; [done|]. simpl. lia. }
    rewrite Hal2 in Hal. injection Hal as -> ->. simpl in *.
    eexists _, _. split; [|split; [exact Hlong|]]; cycle 1.
    { split; [|eexists _, _, _, r'; split; [rewrite <-Hids; exact Hmg|by rewrite Hi, fmap_app, fst_foreign]]. lia. }
    split; [done|]. split; [done|]. split.
    + rewrite Hlps in *. unfold kept_logprobs in *. destruct keep; [|done].
      destruct es as [|e es']; [done|]. destruct Hl2 as [->| ->]; [|done]. discriminate (proj1 Hnone eq_refl).
    + apply Forall_app. split; [by apply Forall_take|]. unfold foreign. apply Forall_fmap, Forall_forall. done.
  - apply bind_Ok_inv in Happ as (new & Hnew & Happ). destruct (Nat.leb _ _) eqn:Hlong; [done|].
    injection Happ as <- <- <-. apply Nat.leb_gt in Hlong. exists (length es), new. rewrite take_ge by done.
    split; [|split; [by rewrite length_app, length_replicate|by eauto]].
    split; [by rewrite Hids, fmap_app, fst_foreign, app_assoc|].
    split; [by rewrite Hmask, mask_of_app, mask_of_foreign|]. split.
    + rewrite Hlps. unfold kept_logprobs. destruct keep; [|done].
      rewrite logprobs_of_app, logprobs_of_foreign. by destruct es.
    + apply Forall_app. split; [done|]. apply Forall_fmap, Forall_forall. done.
Qed.

Hypothesis server_law : ∀ ids w o w', server_generate ids w = (Ok o, w') → server_ok o.
(** An empty response contains no tool call. *)
Hypothesis parser_law : ∀ w content calls w', extract_tool_calls [] w = (Ok (content, calls), w') → calls = [].

(** The invariant of the loop once the prompt is built. *)
Definition loop_inv (prompt : list Z) (d : AgentData) (s : AgentState) : Prop :=
  s ≠ PENDING ∧ ∃ es, holds prompt es d ∧ history prompt es ∧ (s = PROCESSING_TOOLS → es ≠ []).

Lemma generating_inv prompt d ign w d' s' w' :
  loop_inv prompt d GENERATING → handle_generating_state d ign w = (Ok (d', s'), w') → loop_inv prompt d' s'.
Proof using server_law parser_law.
  intros (_ & es & Hh & Hhist & _) Hs. unfold handle_generating_state in Hs.
  apply stateR_bind_Ok in Hs as (o & w1 & Hg & Hs). pose proof (server_law _ _ _ _ Hg) as Ho.
  apply stateR_bind_Ok in Hs as (d1 & w2 & Ha & Hs). apply lift_Ok in Ha as [Ha ->].
  apply bind_Ok_inv in Ha as (extra & _ & Ha). apply bind_Ok_inv in Ha as ([[ids m] l] & Ha & [= <-]).
  pose proof (append_generation_spec _ _ _ _ _ _ _ Hh Ho Ha) as Ht.
  match type of Hs with (if _ then mret (?d, _) else _) _ = _ => set (d1 := d) in * end.
  assert (holds prompt (es ++ generated (g_token_ids o) (new_logprobs o)) d1) as Hh1 by exact Ht.
  assert (Hhist1 : history prompt (es ++ generated (g_token_ids o) (new_logprobs o)))
    by (eapply history_generated; [exact Hhist|]; destruct Hh as [<- _]; exact Hg).
  destruct (negb ign && _); [injection Hs as <- <- <-; split; [done|eauto 6]|].
  destruct (limit_reached (max_assistant_turns c) _); [injection Hs as <- <- <-; split; [done|eauto 6]|].
  destruct (limit_reached (max_user_turns c) _); [injection Hs as <- <- <-; split; [done|eauto 6]|].
  apply stateR_bind_Ok in Hs as ([content calls] & w2 & Hx & Hs).
  apply stateR_bind_Ok in Hs as (ms & w3 & _ & Hs). injection Hs as <- <- <-.
  split; [by destruct calls|]. eexists. split; [exact Hh1|]. split; [exact Hhist1|]. intros Hs Hnil.
  apply app_nil in Hnil as [-> Hnil].
  assert (g_token_ids o = []) as Hempty.
  { destruct (generated_good _ Ho) as [Hlen _]. unfold generated in Hnil.
    destruct (g_token_ids o), (new_logprobs o); done. }
  simpl in Hx. rewrite Hempty in Hx. by rewrite (parser_law _ _ _ _ Hx) in Hs.
Qed.

Lemma processing_inv prompt d w d' s' w' :
  loop_inv prompt d PROCESSING_TOOLS → handle_processing_tools_state d w = (Ok (d', s'), w') → loop_inv prompt d' s'.
Proof using builder_law.
  intros (_ & es & Hh & Hhist & Hne) Hs. unfold handle_processing_tools_state in Hs.
  apply stateR_bind_Ok in Hs as (responses & w1 & _ & Hs).
  apply stateR_bind_Ok in Hs as (ms & w2 & _ & Hs).
  apply stateR_bind_Ok in Hs as (next & w3 & Ha & Hs). apply lift_Ok in Ha as [Ha ->].
  destruct next as [[[ids m] l]|]; injection Hs as <- <- <-; (split; [done|]).
  - destruct (append_tool_responses_spec _ _ _ _ _ _ _ _ Hh (Hne eq_refl) Ha) as (n & new & Ht & _ & Htool).
    eexists. split; [exact Ht|]. split; [by apply history_tools|done].
  - exists es. by split.
Qed.

Lemma state_loop_inv prompt fuel d s w d' w' :
  loop_inv prompt d s → state_loop fuel d s w = (Ok (Some d'), w') → loop_inv prompt d' TERMINATED.
Proof using server_law parser_law builder_law.
  revert d s w. induction fuel as [|fuel IH]; intros d s w Hinv Hs; simpl in Hs;
    (case_bool_decide as Ht; [injection Hs as <- _; by subst s|]); [done|].
  apply stateR_bind_Ok in Hs as ([d1 s1] & w1 & Hst & Hs). eapply IH; [|exact Hs].
  destruct s; [by destruct Hinv|by eapply generating_inv|by eapply processing_inv|done].
Qed.

(** C8: A terminated run returns aligned data.  The prompt is the one rendered at the
    start, at most [prompt_length] tokens.  The response tokens, mask and log probabilities
    are those of one list of entries, cut at [response_length], and the list has this
    [history]: each call of the server, on the prompt and all tokens before, adds its tokens
    with mask 1 and their log probabilities, each turn of tool responses adds its tokens with
    mask 0, and nothing else adds or removes an entry, but that a builder may drop the last
    token before the responses.  Hence mask 1 stands on the generated tokens and on nothing
    else ([P] is any property of those), whatever tools, parser and chat template do, with and
    without continuous tokens.  One case is not aligned: when there is no entry, the slice
    [prompt_ids[-0:]] makes the whole prompt the response, with an empty mask. *)
Theorem run_output_aligned fuel raw_prompt kwargs tools selection w out w' :
  run fuel raw_prompt kwargs tools selection w = (Ok (Some out), w') →
  ∃ d0 es,
    handle_pending_state (init_agent_data raw_prompt kwargs (select_tools tools selection)) = Ok (d0, GENERATING) ∧
    out_prompt_ids out = prompt_ids d0 ∧
    (0 < prompt_length c → length (out_prompt_ids out) ≤ prompt_length c) ∧
    out_response_ids out = take (response_length c) (match es with [] => prompt_ids d0 | _ => es.*1 end) ∧
    out_response_mask out = take (response_length c) (mask_of es) ∧
    out_response_logprobs out = take (response_length c) <$> or_none (kept_logprobs es) ∧
    Forall good_entry es ∧ history (prompt_ids d0) es.
Proof using server_law parser_law builder_law.
  intros Hr. apply stateR_bind_Ok in Hr as ([d|] & w1 & Hl & Hr); [|done]. injection Hr as <- <-.
  destruct fuel as [|fuel]; [done|]. cbn [state_loop] in Hl.
  rewrite bool_decide_eq_false_2 in Hl by done.
  apply stateR_bind_Ok in Hl as ([d0 s0] & w2 & Hp & Hl). apply lift_Ok in Hp as [Hp ->].
  pose proof (pending_prompt_bounded _ _ _ Hp) as Hbound.
  assert (s0 = GENERATING ∧ holds (prompt_ids d0) [] d0) as [-> Hh].
  { apply bind_Ok_inv in Hp as (ids & _ & [= <- <-]). split; [done|]. unfold holds, tracks. simpl.
    rewrite app_nil_r. repeat split; [|constructor]. unfold kept_logprobs. by destruct keep. }
  assert (loop_inv (prompt_ids d0) d0 GENERATING) as Hinv by (split; [done|]; exists []; split_and!; [done|constructor|done]).
  destruct (state_loop_inv _ _ _ _ _ _ _ Hinv Hl) as (_ & es & Hes & Hhist & _).
  destruct (finalize_spec _ _ _ Hes) as (H1 & H2 & H3 & H4). exists d0, es.
  split; [done|]. split; [done|]. rewrite H1. split; [done|]. repeat split; try done. apply Hes.
Qed.
End invariant.

(** ** Termination *)

Lemma state_loop_terminates (μ : AgentData → AgentState → nat) :
  (∀ d s w d' s' w', s ≠ TERMINATED → step_agent d s w = (Ok (d', s'), w') → s' = TERMINATED ∨ μ d' s' < μ d s) →
  ∀ fuel d s w w', μ d s < fuel → state_loop fuel d s w ≠ (Ok None, w').
Proof using Type.
  intros Hμ fuel. induction fuel as [|fuel IH]; intros d s w w' Hlt Hs; [lia|]. cbn [state_loop] in Hs.
  case_bool_decide as Ht; [done|].
  apply stateR_bind_Ok in Hs as ([d1 s1] & w1 & Hst & Hs).
  destruct (Hμ _ _ _ _ _ _ Ht Hst) as [->|Hdec]; [by destruct fuel|]. by eapply IH; [|exact Hs]; lia.
Qed.

Definition turns_left (n turns : Z) : nat := Z.to_nat (n - turns).

Lemma generating_turns d w d' s' w' :
  handle_generating_state d false w = (Ok (d', s'), w') →
  s' = TERMINATED ∨
  s' = PROCESSING_TOOLS ∧ assistant_turns d' = (assistant_turns d + 1)%Z ∧ user_turns d' = user_turns d ∧
    limit_reached (max_assistant_turns c) (assistant_turns d') = false ∧
    limit_reached (max_user_turns c) (user_turns d') = false.
Proof using Type.
  intros Hs. unfold handle_generating_state in Hs.
  apply stateR_bind_Ok in Hs as (o & w1 & _ & Hs).
  apply stateR_bind_Ok in Hs as (d1 & w2 & Ha & Hs). apply lift_Ok in Ha as [Ha ->].
  apply bind_Ok_inv in Ha as (extra & _ & Ha). apply bind_Ok_inv in Ha as ([[ids m] l] & _ & [= <-]).
  destruct (negb false && _); [injection Hs as _ <- _; by left|].
  destruct (limit_reached (max_assistant_turns c) _) eqn:E1; [injection Hs as _ <- _; by left|].
  destruct (limit_reached (max_user_turns c) _) eqn:E2; [injection Hs as _ <- _; by left|].
  apply stateR_bind_Ok in Hs as ([content calls] & w2 & _ & Hs).
  apply stateR_bind_Ok in Hs as (ms & w3 & _ & Hs). injection Hs as <- <- <-.
  destruct calls; [by left|by right].
Qed.

Lemma processing_turns d w d' s' w' :
  handle_processing_tools_state d w = (Ok (d', s'), w') →
  s' = TERMINATED ∨ s' = GENERATING ∧ assistant_turns d' = assistant_turns d ∧ user_turns d' = (user_turns d + 1)%Z.
Proof using Type.
  intros Hs. unfold handle_processing_tools_state in Hs.
  apply stateR_bind_Ok in Hs as (responses & w1 & _ & Hs).
  apply stateR_bind_Ok in Hs as (ms & w2 & _ & Hs).
  apply stateR_bind_Ok in Hs as ([[[ids m] l]|] & w3 & _ & Hs); injection Hs as <- <- <-; [by right|by left].
Qed.

Lemma pending_turns d d' s' :
  handle_pending_state d = Ok (d', s') →
  s' = GENERATING ∧ assistant_turns d' = assistant_turns d ∧ user_turns d' = user_turns d.
Proof using Type. intros Hp. by apply bind_Ok_inv in Hp as (ids & _ & [= <- <-]). Qed.

(** Handler calls left, from the limit on assistant turns and from the limit on user turns. *)
Definition assistant_measure (n : Z) (d : AgentData) (s : AgentState) : nat :=
  let m := turns_left n (assistant_turns d) in
  match s with PENDING => 2 * m + 2 | GENERATING => 2 * m + 1 | PROCESSING_TOOLS => 2 * m + 2 | TERMINATED => 0 end.
Definition user_measure (n : Z) (d : AgentData) (s : AgentState) : nat :=
  let m := turns_left n (user_turns d) in
  match s with
  | PENDING => 2 * m + 2 | GENERATING => 2 * m + 1 | PROCESSING_TOOLS => Nat.max (2 * m) 2 | TERMINATED => 0
  end.

Lemma limit_not_reached n turns : (0 < n)%Z → limit_reached (Some n) turns = false → (turns < n)%Z.
Proof using Type.
  intros Hn Hl. unfold limit_reached in Hl. apply andb_false_iff in Hl as [Hl|Hl]; [|by apply Z.leb_gt].
  apply negb_false_iff, Z.eqb_eq in Hl. lia.
Qed.

(** A limit on turns bounds the loop: with a positive [max_assistant_turns] or
    [max_user_turns], at most [2 * n + 2] handler calls are made, whatever server, parser
    and tools do; the run ends in an output or in the exception of a handler. *)
Theorem run_terminates n fuel raw_prompt kwargs tools selection w w' :
  (0 < n)%Z → max_assistant_turns c = Some n ∨ max_user_turns c = Some n → 2 * Z.to_nat n + 2 < fuel →
  run fuel raw_prompt kwargs tools selection w ≠ (Ok None, w').
Proof using Type.
  intros Hn Hlim Hfuel Hr. apply stateR_bind_Ok in Hr as ([d|] & w1 & Hl & Hr); [done|].
  set (μ := if decide (max_assistant_turns c = Some n) then assistant_measure n else user_measure n).
  refine (state_loop_terminates μ _ fuel _ _ _ _ _ Hl).
  - intros d s w2 d' s' w3 Hs Hst. unfold μ. destruct s; simpl in Hst; [| | |done].
    + apply lift_Ok in Hst as [Hst _]. apply pending_turns in Hst as (-> & Ha & Hu). right.
      case_decide; unfold assistant_measure, user_measure; rewrite ?Ha, ?Hu; lia.
    + apply generating_turns in Hst as [->|(-> & Ha & Hu & Hla & Hlu)]; [by left|right].
      case_decide as Hd; unfold assistant_measure, user_measure, turns_left.
      * rewrite Hd in Hla. apply limit_not_reached in Hla; lia.
      * destruct Hlim as [?|Hd']; [done|]. rewrite Hd' in Hlu. apply limit_not_reached in Hlu; lia.
    + apply processing_turns in Hst as [->|(-> & Ha & Hu)]; [by left|right].
      case_decide; unfold assistant_measure, user_measure, turns_left; rewrite ?Ha, ?Hu; lia.
  - unfold μ. case_decide; unfold assistant_measure, user_measure, turns_left; simpl; lia.
Qed.
End loop.

(** Two turns with one call of an adder under the Qwen builder, then an empty response. *)
Definition sample_builder : option builder := match qwen_builder sample_tokenizer None with Ok b => Some b | _ => None end.
Definition sample_config : loop_config :=
  {| max_user_turns := None; max_assistant_turns := Some 4%Z; max_parallel_calls := 1; max_tool_response_length := 5;
     tool_response_truncate_side := "right"; tool_parser_name := "hermes"; prompt_length := 8; response_length := 9;
     system_prompt := []; loop_tokenizer := sample_tokenizer; continuous_token := sample_builder |}.
Definition two_turns (ids : list Z) : stateR nat generation := λ w,
  (Ok (if bool_decide (w = 0) then
         {| g_token_ids := [7; 20]%Z; g_log_probs := Some [0.5; 0.25]%Q; g_num_preempted := None;
            g_routed_experts := None; g_extra_fields := [] |}
       else {| g_token_ids := [8; 8; 20]%Z; g_log_probs := Some [0.5; 0.5; 0.25]%Q; g_num_preempted := None;
               g_routed_experts := None; g_extra_fields := [] |}), S w).
Definition call_on_seven (ids : list Z) : stateR nat (string * list FunctionCall) := λ w,
  (Ok ("text"%string, match ids with
       | 7%Z :: _ => [{| fc_name := "add"; fc_arguments := "{}"; fc_tool_call_id := None |}]
       | _ => []
       end), w).
Definition adder : tool (W := nat) :=
  {| t_schema := JObj []; t_impl := FunctionTool (λ _, mret (text_response "0123456789", Some 1%Q)) |}.
Definition no_json (s : string) : string + json := inr (JObj []).
Definition exn_str (e : exn) : string := "error".

Lemma sample_builder_ok b : continuous_token sample_config = Some b → is_builder b.
Proof. intros [= <-]. apply (is_qwen sample_tokenizer None). reflexivity. Qed.

Lemma run_output_aligned_witness :
  let P := λ (t : Z) (p : Q), p = if Z.eqb t 20 then 0.25%Q else 0.5%Q in
  ∃ out w',
    run sample_config two_turns call_on_seven no_json exn_str 9 [msg "user"] [] [("add"%string, adder)] [] 0 =
      (Ok (Some out), w') ∧
    out_prompt_ids out = [1; 10; 2]%Z ∧ out_response_ids out = [7; 20; 9; 3; 30; 2; 8; 8; 20]%Z ∧
    out_response_mask out = [1; 1; 0; 0; 0; 0; 1; 1; 1]%Z ∧
    ∃ d0 es,
      handle_pending_state sample_config
        (init_agent_data [msg "user"] [] (select_tools [("add"%string, adder)] [])) = Ok (d0, GENERATING) ∧
      out_prompt_ids out = prompt_ids d0 ∧
      (0 < 8 → length (out_prompt_ids out) ≤ 8) ∧
      out_response_ids out = take 9 (match es with [] => prompt_ids d0 | _ => es.*1 end) ∧
      out_response_mask out = take 9 (mask_of es) ∧
      out_response_logprobs out = take 9 <$> or_none (kept_logprobs true es) ∧ Forall (good_entry P) es ∧
      history sample_config two_turns true (prompt_ids d0) es.
Proof.
  intros P.
  destruct (run sample_config two_turns call_on_seven no_json exn_str 9 [msg "user"] [] [("add"%string, adder)] [] 0)
    as [[[out|]|e] w'] eqn:E; [|exfalso; vm_compute in E; discriminate E..].
  assert (Ho : (out_prompt_ids out, out_response_ids out, out_response_mask out) =
    ([1; 10; 2], [7; 20; 9; 3; 30; 2; 8; 8; 20], [1; 1; 0; 0; 0; 0; 1; 1; 1])%Z)
    by (vm_compute in E; injection E as <- _; reflexivity).
  injection Ho as H1 H2 H3. exists out, w'. do 4 (split; [done|]).
  refine (run_output_aligned sample_config two_turns call_on_seven no_json exn_str true P sample_builder_ok _ _
            9 _ [] _ [] 0 out w' E).
  - intros ids w o w1 [= <- _]. unfold server_ok. case_bool_decide; eexists; (split; [reflexivity|]);
      repeat apply Forall2_cons_2; first [reflexivity | apply Forall2_nil_2].
  - by intros w content calls w1 [= _ <- _].
Defined.

Lemma run_terminates_witness :
  (0 < 4)%Z ∧
  ∀ w', run sample_config two_turns call_on_seven no_json exn_str 11 [msg "user"] [] [("add"%string, adder)] [] 0 ≠
    (Ok None, w').
Proof.
  split; [lia|]. intros w'. apply (run_terminates sample_config _ _ _ _ 4); [lia|by left|simpl; lia].
Defined.
