(* ===== verification/DataPrep.v ===== *)
(** * Normalising and decontaminating the training data

    [common.py] (text normal forms), [prepare_opsd_data.py] and
    [check_eval_contamination.py] of [src/tools/extpi_rlsd/].  Files are lists of rows;
    argument parsing and the writing of files are not modelled, what is written is the
    result.  [sha256], the class [\w] of [re] and rapidfuzz's [fuzz.ratio] ([None] when
    the package is missing) are parameters; ratios are rationals. *)

From S2P Require Import Prelude PyStr Json PyDict.
From Stdlib Require Import QArith.
Local Close Scope Q_scope.
Local Open Scope py_scope.

Section prep.
Context `{PyPrims} (sha256 : string → string) (word_char : ascii → bool)
        (fuzz_ratio : option (string → string → Q)).

(** ** [common.py] *)

Definition normalize_problem (text : string) : string := collapse_spaces (lower (strip text)).
Definition stable_problem_id (problem : string) : string := sha256 (normalize_problem problem).

(** [re.sub(r"[\W_]+", "", text.lower())] *)
Fixpoint keep_words (s : string) : string :=
  match s with
  | EmptyString => EmptyString
  | String ch s => if word_char ch && negb (bool_decide (ch = "_"%char)) then String ch (keep_words s) else keep_words s
  end.
Definition compact_text (text : string) : string := keep_words (lower text).

(** [re.findall(r"\w+", s)]: the word in progress comes first. *)
Fixpoint words_from (s : string) : string * list string :=
  match s with
  | EmptyString => (EmptyString, [])
  | String ch s =>
      let '(w, ws) := words_from s in
      if word_char ch then (String ch w, ws)
      else (EmptyString, if bool_decide (w = EmptyString) then ws else w :: ws)
  end.
Definition words (s : string) : list string :=
  let '(w, ws) := words_from s in if bool_decide (w = EmptyString) then ws else w :: ws.

Definition ngram_set (text : string) (n : nat) : gset string :=
  let tokens := words (lower text) in
  if Nat.ltb (length tokens) n then list_to_set tokens
  else list_to_set ((λ i, str_join " " (slice i (i + n) tokens)) <$> seq 0 (length tokens - n + 1)).

Definition jaccard (left right : gset string) : Q :=
  if bool_decide (left = ∅) && bool_decide (right = ∅) then 1%Q
  else if bool_decide (left = ∅) || bool_decide (right = ∅) then 0%Q
  else (inject_Z (Z.of_nat (size (left ∩ right))) / inject_Z (Z.of_nat (size (left ∪ right))))%Q.

(** ** [prepare_opsd_data.py] *)

Definition PROBLEM_KEYS : list string := ["problem"; "question"; "prompt"; "Question"].
Definition ANSWER_KEYS : list string := ["gold_answer"; "answer"; "Answer"; "final_answer"; "target"].
Definition SOLUTION_KEYS : list string := ["source_solution"; "solution"; "COT_Reason"; "reasoning"; "reference_solution"].

Fixpoint first_of (row : dict) (keys : list string) : json :=
  match keys with
  | [] => JNull
  | key :: keys =>
      let value := get key row in
      if negb (is_none value) && negb (bool_decide (strip (py_str value) = ""%string)) then value else first_of row keys
  end.

Definition normalize_row (row : dict) (dataset_revision : json) (source_split : string) : result dict :=
  let problem := first_of row PROBLEM_KEYS in
  require negb (is_none problem)
    else ValueError ("Cannot find problem field in row keys=" ++
                       py_repr (JList (JStr <$> sort_by (λ a b, bool_decide (a <> b) && String.leb a b) row.*1)))%string ;;
  let answer := first_of row ANSWER_KEYS in
  require negb (is_none answer)
    else ValueError ("Cannot find answer field for problem=" ++ py_repr (JStr (stake 80 (py_str problem))))%string ;;
  let source_solution := py_or (first_of row SOLUTION_KEYS) (JStr "") in
  Ok [("id", JStr (stable_problem_id (py_str problem))); ("problem", JStr (py_str problem));
      ("gold_answer", JStr (py_str answer)); ("source_solution", JStr (py_str source_solution));
      ("source_split", JStr source_split);
      ("qwen32b_pi_trace", JNull); ("qwen32b_pi_verified", JBool false); ("qwen32b_pi_attempts", JInt 0);
      ("qwen8b_pi_trace", JNull); ("qwen8b_pi_verified", JBool false); ("qwen8b_pi_attempts", JInt 0);
      ("closed_teacher_output", JNull); ("closed_teacher_verified", JBool false);
      ("metadata", JObj [("dataset_revision", dataset_revision); ("original_fields", JObj row)])].

(** One evaluation problem overlaps with the problem. *)
Definition overlaps (ngram_threshold fuzz_threshold : Q) (problem eval_problem : string) : bool :=
  let norm := normalize_problem problem in
  let compact := compact_text problem in
  bool_decide (norm = normalize_problem eval_problem)
  || negb (bool_decide (compact = ""%string)) && bool_decide (compact = compact_text eval_problem)
  || Qle_bool ngram_threshold (jaccard (ngram_set problem 5) (ngram_set eval_problem 5))
  || match fuzz_ratio with
     | Some ratio => Qle_bool fuzz_threshold (ratio norm (normalize_problem eval_problem))
     | None => false
     end.

Definition is_contaminated (problem : string) (eval_problems : list string) (ngram_threshold fuzz_threshold : Q) : bool :=
  existsb (overlaps ngram_threshold fuzz_threshold problem) eval_problems.

Definition eval_problem_of (row : dict) : option string :=
  let p := get "problem" row in if truthy p then Some (py_str p) else None.
Definition eval_problems_of (files : list (list dict)) : list string := omap eval_problem_of (concat files).

(** [Counter]. *)
Definition bump (key : string) (stats : list (string * nat)) : list (string * nat) :=
  dset key (S (default 0 (dget key stats))) stats.
Definition count_of (key : string) (stats : list (string * nat)) : nat := default 0 (dget key stats).

Record prepared := {
  seen : gset string; clean : list dict; quarantine : list dict; stats : list (string * nat) }.

Definition row_id (row : dict) : string := py_str (get "id" row).
Definition row_problem (row : dict) : string := py_str (get "problem" row).

Section main.
Context (revision : json) (split : string) (eval_problems : list string) (ngram_threshold fuzz_threshold : Q).

Definition invalid_kind (message : string) : string :=
  if contains "answer field" message then "invalid_missing_answer"
  else if contains "problem field" message then "invalid_missing_problem" else "invalid_other".

(** One round of the loop; only [ValueError] is caught. *)
Definition prepare_row (st : prepared) (source : dict) : result prepared :=
  match normalize_row source revision split with
  | Raise (ValueError message) =>
      Ok {| seen := seen st; clean := clean st; quarantine := quarantine st;
            stats := bump (invalid_kind message) (bump "invalid" (stats st)) |}
  | Raise e => Raise e
  | Ok normalized =>
      if bool_decide (row_id normalized ∈ seen st) then
        Ok {| seen := seen st; clean := clean st; quarantine := quarantine st; stats := bump "duplicate" (stats st) |}
      else
        let seen' := {[row_id normalized]} ∪ seen st in
        if negb (bool_decide (eval_problems = [])) &&
           is_contaminated (row_problem normalized) eval_problems ngram_threshold fuzz_threshold then
          Ok {| seen := seen'; clean := clean st; quarantine := quarantine st ++ [normalized];
                stats := bump "contamination_quarantine" (stats st) |}
        else
          Ok {| seen := seen'; clean := clean st ++ [normalized]; quarantine := quarantine st;
                stats := bump "clean" (stats st) |}
  end.

Definition prepare (rows : list dict) : result prepared :=
  foldM prepare_row {| seen := ∅; clean := []; quarantine := []; stats := [] |} rows.
End main.

(** ** [check_eval_contamination.py] *)

Definition checked_problem (row : dict) : string := py_str (get_default "problem" (JStr "") row).

Definition contamination_hits (eval_files : list (list dict)) (train : list dict) : list dict :=
  let problems := checked_problem <$> concat eval_files in
  let eval_norm : gset string := list_to_set (normalize_problem <$> problems) in
  let eval_compact : gset string := list_to_set (compact_text <$> problems) in
  List.filter (λ row, bool_decide (normalize_problem (checked_problem row) ∈ eval_norm)
                      || bool_decide (compact_text (checked_problem row) ∈ eval_compact)) train.

(** ** Lemmas *)

Lemma first_of_present row keys :
  is_none (first_of row keys) = false → strip (py_str (first_of row keys)) ≠ ""%string.
Proof using Type.
  induction keys as [|k keys IH]; simpl; [done|].
  destruct (negb (is_none (get k row)) && _) eqn:E; [|done].
  apply andb_true_iff in E as [_ E]. apply negb_true_iff, bool_decide_eq_false in E. done.
Qed.

Lemma normalize_row_error row revision split e :
  normalize_row row revision split = Raise e → ∃ m, e = ValueError m.
Proof using Type.
  unfold normalize_row. destruct (negb _); [|intros [= <-]; eauto]. destruct (negb _); [done|intros [= <-]; eauto].
Qed.

Lemma normalize_row_problem row revision split n :
  normalize_row row revision split = Ok n → get "problem" n = JStr (row_problem n) ∧ checked_problem n = row_problem n.
Proof using Type. unfold normalize_row. do 2 (destruct (negb _); [|done]). by intros [= <-]. Qed.

Lemma count_of_bump k k' s : count_of k (bump k' s) = (if bool_decide (k' = k) then 1 else 0) + count_of k s.
Proof using Type. unfold count_of, bump. rewrite dget_dset. case_bool_decide; subst; done. Qed.
Lemma count_of_bump_eq k s : count_of k (bump k s) = S (count_of k s).
Proof using Type. by rewrite count_of_bump, bool_decide_eq_true_2. Qed.
Lemma count_of_bump_ne k k' s : k' ≠ k → count_of k (bump k' s) = count_of k s.
Proof using Type. intros Hne. by rewrite count_of_bump, bool_decide_eq_false_2. Qed.

Lemma invalid_kind_fresh m : invalid_kind m ∉ ["invalid"; "duplicate"; "clean"; "contamination_quarantine"]%string.
Proof using Type.
  unfold invalid_kind.
  destruct (contains _ m); [|destruct (contains _ m)]; apply (bool_decide_unpack (_ ∉ _)); reflexivity.
Qed.

Section main_lemmas.
Context (revision : json) (split : string) (eval_problems : list string) (ngram_threshold fuzz_threshold : Q).

Definition prep_counts (rows : list dict) (st : prepared) : Prop :=
  length rows = count_of "invalid" (stats st) + count_of "duplicate" (stats st) + length (quarantine st) + length (clean st) ∧
  count_of "clean" (stats st) = length (clean st) ∧
  count_of "contamination_quarantine" (stats st) = length (quarantine st).

Definition contaminated (row : dict) : bool :=
  is_contaminated (row_problem row) eval_problems ngram_threshold fuzz_threshold.

(** A written row is the normal form of a source row, on the right side of the contamination test. *)
Definition written_from (rows : list dict) (flag : bool) (row : dict) : Prop :=
  contaminated row = flag ∧ ∃ source, source ∈ rows ∧ normalize_row source revision split = Ok row.

Definition prep_contents (rows : list dict) (st : prepared) : Prop :=
  NoDup (row_id <$> clean st ++ quarantine st) ∧
  (∀ id, id ∈ seen st ↔ id ∈ row_id <$> clean st ++ quarantine st) ∧
  Forall (written_from rows false) (clean st) ∧
  Forall (written_from rows true) (quarantine st) ∧
  (∀ source row, source ∈ rows → normalize_row source revision split = Ok row → row_id row ∈ seen st).

(** The cases of a round. *)
Inductive prep_step (st : prepared) (source : dict) : prepared → Prop :=
  | step_invalid m : normalize_row source revision split = Raise (ValueError m) →
      prep_step st source {| seen := seen st; clean := clean st; quarantine := quarantine st;
                             stats := bump (invalid_kind m) (bump "invalid" (stats st)) |}
  | step_duplicate n : normalize_row source revision split = Ok n → row_id n ∈ seen st →
      prep_step st source {| seen := seen st; clean := clean st; quarantine := quarantine st; stats := bump "duplicate" (stats st) |}
  | step_quarantine n : normalize_row source revision split = Ok n → row_id n ∉ seen st → contaminated n = true →
      prep_step st source {| seen := {[row_id n]} ∪ seen st; clean := clean st; quarantine := quarantine st ++ [n];
                             stats := bump "contamination_quarantine" (stats st) |}
  | step_clean n : normalize_row source revision split = Ok n → row_id n ∉ seen st → contaminated n = false →
      prep_step st source {| seen := {[row_id n]} ∪ seen st; clean := clean st ++ [n]; quarantine := quarantine st;
                             stats := bump "clean" (stats st) |}.

Lemma prepare_row_step st source :
  ∃ st', prepare_row revision split eval_problems ngram_threshold fuzz_threshold st source = Ok st' ∧ prep_step st source st'.
Proof using Type.
  unfold prepare_row. destruct (normalize_row source revision split) as [n|e] eqn:Hn.
  - case_bool_decide; [eexists; split; [done|]; by eapply step_duplicate|].
    destruct (contaminated n) eqn:Hc.
    + assert (negb (bool_decide (eval_problems = [])) = true) as ->.
      { apply negb_true_iff, bool_decide_eq_false_2. intros He. unfold contaminated in Hc. by rewrite He in Hc. }
      unfold contaminated in Hc. rewrite Hc. eexists; split; [done|]. by eapply step_quarantine.
    + unfold contaminated in Hc. rewrite Hc, andb_false_r. eexists; split; [done|]. by eapply step_clean.
  - destruct (normalize_row_error _ _ _ _ Hn) as [m ->]. eexists; split; [done|]. by eapply step_invalid.
Qed.

Lemma prep_counts_step rows st source st' :
  prep_counts rows st → prep_step st source st' → prep_counts (rows ++ [source]) st'.
Proof using Type.
  unfold prep_counts. rewrite length_app. simpl.
  intros (H1 & H2 & H3) [m _|n _ _|n _ _ _|n _ _ _]; simpl; rewrite ?length_app; simpl;
    rewrite ?count_of_bump_eq, ?(count_of_bump_ne _ (invalid_kind m)), ?count_of_bump_eq, ?count_of_bump_ne by
      (try done; intros Heq; apply (invalid_kind_fresh m); rewrite Heq; set_solver); lia.
Qed.

Lemma written_from_weaken rows source flag row :
  written_from rows flag row → written_from (rows ++ [source]) flag row.
Proof using Type. intros (Hc & s & Hin & Hs). split; [done|]. exists s. split; [apply elem_of_app; by left|done]. Qed.

Lemma prep_contents_step rows st source st' :
  prep_contents rows st → prep_step st source st' → prep_contents (rows ++ [source]) st'.
Proof using Type.
  intros (Hnd & Hseen & Hcl & Hq & Hall) Hstep.
  assert (Hcl' := Forall_impl _ _ _ Hcl (written_from_weaken rows source false)).
  assert (Hq' := Forall_impl _ _ _ Hq (written_from_weaken rows source true)).
  assert (∀ flag n, normalize_row source revision split = Ok n → contaminated n = flag → written_from (rows ++ [source]) flag n) as Hnew.
  { intros flag n Hn Hf. split; [done|]. exists source. split; [apply elem_of_app; right; by left|done]. }
  assert (Hcover : ∀ S' : gset string, seen st ⊆ S' → (∀ n, normalize_row source revision split = Ok n → row_id n ∈ S') →
    ∀ s row, s ∈ rows ++ [source] → normalize_row s revision split = Ok row → row_id row ∈ S').
  { intros S' Hsub Hs s row [Hin|Hin]%elem_of_app Hrow; [by apply Hsub, (Hall s)|].
    apply list_elem_of_singleton in Hin as ->. by apply Hs. }
  destruct Hstep as [m Hn|n Hn Hdup|n Hn Hfresh Hc|n Hn Hfresh Hc]; unfold prep_contents; simpl.
  - do 4 (split; [done|]). apply Hcover; [done|]. intros n' Hn'. by rewrite Hn in Hn'.
  - do 4 (split; [done|]). apply Hcover; [done|]. intros n' Hn'. rewrite Hn in Hn'. by injection Hn' as <-.
  - rewrite Hseen in Hfresh. split.
    { rewrite app_assoc, fmap_app. apply NoDup_app. split; [done|]. split; [|apply NoDup_singleton].
      csimpl. intros x Hx ->%list_elem_of_singleton. done. }
    split; [intros id; rewrite elem_of_union, elem_of_singleton, Hseen, app_assoc, (fmap_app row_id (_ ++ _)), elem_of_app; csimpl;
              rewrite list_elem_of_singleton; tauto|].
    split; [done|]. split; [apply Forall_app; split; [done|]; apply Forall_singleton; by apply Hnew|].
    apply Hcover; [set_solver|]. intros n' Hn'. rewrite Hn in Hn'. injection Hn' as <-. set_solver.
  - rewrite Hseen in Hfresh. assert (clean st ++ [n] ++ quarantine st ≡ₚ n :: clean st ++ quarantine st) as Hp
      by (symmetry; apply Permutation_middle).
    rewrite <-app_assoc. split.
    { rewrite Hp. csimpl. by apply NoDup_cons. }
    split; [intros id; rewrite elem_of_union, elem_of_singleton, Hseen, Hp; csimpl; by rewrite elem_of_cons|].
    split; [apply Forall_app; split; [done|]; apply Forall_singleton; by apply Hnew|]. split; [done|].
    apply Hcover; [set_solver|]. intros n' Hn'. rewrite Hn in Hn'. injection Hn' as <-. set_solver.
Qed.

(** Preparation never fails and loses no row: every source row is counted as invalid
    or duplicate, or written as clean or quarantined, and the counters say so; the ids of
    the written rows are distinct and every valid source row's id is among them; each
    written row is the normal form of a source row, quarantined exactly when its problem
    overlaps with an evaluation problem.  Checking the clean rows against evaluation files
    with these problems reports a row only if its problem has no letter or digit. *)
Theorem prepared_rows_partitioned rows (eval_files : list (list dict)) :
  eval_problems = eval_problems_of eval_files →
  Forall (λ row, truthy (get "problem" row) = true) (concat eval_files) →
  ∃ st, prepare revision split eval_problems ngram_threshold fuzz_threshold rows = Ok st ∧
    prep_counts rows st ∧ prep_contents rows st ∧
    ∀ row, row ∈ contamination_hits eval_files (clean st) → compact_text (row_problem row) = ""%string.
Proof using Type.
  intros Heval Htruthy.
  destruct (foldM_total (λ done st, prep_counts done st ∧ prep_contents done st)
    (prepare_row revision split eval_problems ngram_threshold fuzz_threshold)
    {| seen := ∅; clean := []; quarantine := []; stats := [] |} rows) as (st & Hst & Hc & Hp).
  - split; [done|]. split; [constructor|]. split; [intros id; set_solver|]. split; [constructor|].
    split; [constructor|]. intros s row Hin. by apply elem_of_nil in Hin.
  - intros before a rest st _ [Hc Hp]. destruct (prepare_row_step st a) as (st' & Hst & Hs). exists st'.
    split; [done|]. split; [by eapply prep_counts_step|by eapply prep_contents_step].
  - exists st. do 3 (split; [done|]). intros row Hin.
    apply list_elem_of_In, List.filter_In in Hin as [Hin Hhit]. apply list_elem_of_In in Hin.
    destruct Hp as (_ & _ & Hcl & _). rewrite Forall_forall in Hcl. destruct (Hcl row Hin) as (Hclean & source & _ & Hn).
    destruct (normalize_row_problem _ _ _ _ Hn) as [_ Hprob]. rewrite Hprob in Hhit.
    assert (Hno : ∀ p, p ∈ checked_problem <$> concat eval_files →
      overlaps ngram_threshold fuzz_threshold (row_problem row) p = false).
    { intros p (e & -> & He)%list_elem_of_fmap. apply not_true_is_false. intros Hov.
      unfold contaminated, is_contaminated in Hclean. rewrite <-not_true_iff_false in Hclean. apply Hclean.
      apply List.existsb_exists. exists (checked_problem e). split; [|done]. apply list_elem_of_In. rewrite Heval.
      unfold eval_problems_of. apply list_elem_of_omap. exists e. split; [done|]. unfold eval_problem_of.
      rewrite Forall_forall in Htruthy. rewrite (Htruthy e He). f_equal. unfold checked_problem, get, get_default.
      specialize (Htruthy e He). unfold get, get_default in Htruthy. destruct (lookup "problem" e); done. }
    apply orb_true_iff in Hhit as [Hhit|Hhit]; apply bool_decide_eq_true, elem_of_list_to_set in Hhit;
      apply list_elem_of_fmap in Hhit as (p & Heq & Hp); specialize (Hno p Hp); unfold overlaps in Hno.
    + rewrite bool_decide_eq_true_2 in Hno by done. done.
    + destruct (bool_decide (compact_text (row_problem row) = ""%string)) eqn:E; [by apply bool_decide_eq_true in E|].
      rewrite (bool_decide_eq_true_2 (compact_text (row_problem row) = _)) in Hno by done.
      simpl in Hno. rewrite orb_true_r in Hno. done.
Qed.
End main_lemmas.
End prep.

(** Five source rows: a clean one, a re-spaced duplicate, one without an answer, one that
    overlaps with an evaluation problem and one without letters or digits. *)
Definition ascii_word (ch : ascii) : bool :=
  let n := nat_of_ascii ch in
  (Nat.leb 48 n && Nat.leb n 57) || (Nat.leb 65 n && Nat.leb n 90) || (Nat.leb 97 n && Nat.leb n 122) || Nat.eqb n 95.
Definition source_row (problem answer : string) : dict := [("question", JStr problem); ("answer", JStr answer)].
Definition source_rows : list dict :=
  [source_row "What is  2+2?" "4"; source_row "what is 2+2? " "four"; [("problem", JStr "x")];
   source_row "Sum of 1 and 2" "3"; source_row "??" "7"].
Definition eval_file : list dict := [[("problem", JStr "sum of 1, and 2")]; [("problem", JStr "!")]].

Lemma prepared_rows_partitioned_witness :
  let evals := eval_problems_of [eval_file] in
  ∃ st, prepare (λ s, s) ascii_word None JNull "train" evals 0.8%Q 95%Q source_rows = Ok st ∧
    length (clean st) = 1 ∧ count_of "duplicate" (stats st) = 1 ∧ count_of "invalid_missing_answer" (stats st) = 1 ∧
    prep_counts source_rows st ∧ prep_contents (λ s, s) ascii_word None JNull "train" evals 0.8%Q 95%Q source_rows st ∧
    ∀ row, row ∈ contamination_hits ascii_word [eval_file] (clean st) → compact_text ascii_word (row_problem row) = ""%string.
Proof.
  intros evals.
  destruct (prepared_rows_partitioned (λ s, s) ascii_word None JNull "train" evals 0.8%Q 95%Q source_rows [eval_file])
    as (st & Hst & H); [reflexivity|repeat constructor|].
  assert (Hv : (length (clean st), count_of "duplicate" (stats st), count_of "invalid_missing_answer" (stats st)) = (1, 1, 1)).
  { vm_compute in Hst. injection Hst as <-. reflexivity. }
  injection Hv as H1 H2 H3. exists st. do 4 (split; [done|]). exact H.
Defined.
