(* ===== verification/TorchFunctional.v ===== *)
(** * Masked statistics and entropy: [src/verl/utils/torch_functional.py]

    Tensors are lists of rows of reals (finite inputs, no rounding); masks are boolean,
    [b2r] is their value in arithmetic.  A scalar result that a division by zero would
    make NaN or infinite is [NonFin]. *)

From S2P Require Import Prelude Rlsd.
From Stdlib Require Import Reals Lra.
Local Open Scope R_scope.
Local Open Scope py_scope.

(** ** Tensor arithmetic *)

Definition fdiv (x y : R) : fnum := if Req_EM_T y 0 then NonFin else Fin (x / y).
Definition tsum (t : tensor R) : R := rsum (rsum <$> t).
Definition row_count (row : list bool) : R := rsum (b2r <$> row).
Definition mask_count (mask : tensor bool) : R := rsum (row_count <$> mask).

(** [t * mask] and [col.unsqueeze(-1) * mask]. *)
Definition row_mul (row : list R) (m : list bool) : list R := zip_with (λ v b, v * b2r b) row m.
Definition mask_mul (t : tensor R) (mask : tensor bool) : tensor R := zip_with row_mul t mask.
Definition spread_mask (col : list R) (mask : tensor bool) : tensor R :=
  zip_with (λ c row, (λ b, c * b2r b) <$> row) col mask.

(** ** [clip_by_value], [masked_sum], [masked_mean], [masked_var], [masked_whiten] *)

Definition clip_by_value (x lo hi : R) : R := Rmax (Rmin x hi) lo.

Definition where_mask (v : R) (m : bool) : R := if m then v else 0.
Definition row_masked_sum (row : list R) (m : list bool) : R :=
  rsum (zip_with (λ v b, where_mask v b * b2r b) row m).
Definition masked_sum (values : tensor R) (mask : tensor bool) : R :=
  rsum (zip_with row_masked_sum values mask).

Definition masked_mean (values : tensor R) (mask : tensor bool) : R :=
  masked_sum values mask / (mask_count mask + 1 / 10 ^ 8).

(** [masked_mean(values, mask, axis=-1)] of one row. *)
Definition row_masked_mean (row : list R) (m : list bool) : R :=
  row_masked_sum row m / (row_count m + 1 / 10 ^ 8).

Definition masked_var (values : tensor R) (mask : tensor bool) (unbiased : bool) : result R :=
  let mean := masked_mean values mask in
  let variance := masked_mean (tmap (λ v, (v - mean) ^ 2) values) mask in
  if unbiased then
    let mask_sum := mask_count mask in
    require negb (Reqb mask_sum 0) else ValueError "At least one element in the mask has to be 1." ;;
    require negb (Reqb mask_sum 1)
      else ValueError "The sum of the mask is one, which can cause a division by zero." ;;
    Ok (variance * (mask_sum / (mask_sum - 1)))
  else Ok variance.

Definition rsqrt (x : R) : R := / sqrt x.

Definition masked_whiten (values : tensor R) (mask : tensor bool) (shift_mean : bool) : result (tensor R) :=
  let mean := masked_mean values mask in
  var ← masked_var values mask true;
  let whitened := tmap (λ v, (v - mean) * rsqrt (var + 1 / 10 ^ 8)) values in
  Ok (if shift_mean then whitened else tmap (λ v, v + mean) whitened).

(** ** Entropy of a categorical distribution *)

Definition softmax (row : list R) : list R := (λ x, exp x / rsum (exp <$> row)) <$> row.
Definition logsumexp (row : list R) : R := ln (rsum (exp <$> row)).
Definition row_entropy (row : list R) : R :=
  logsumexp row - rsum (zip_with Rmult (softmax row) row).
Definition entropy_from_logits (logits : tensor R) : list R := row_entropy <$> logits.

(** [range(0, n, chunk_size)] raises for a zero step. *)
Definition chunk_step (logits : tensor R) (chunk_size : nat) (entropy : list R) (k : nat) : list R :=
  let i := (k * chunk_size)%nat in
  let chunk := entropy_from_logits (slice i (i + chunk_size) logits) in
  take i entropy ++ chunk ++ drop (i + length chunk) entropy.
Definition entropy_from_logits_with_chunking (logits : tensor R) (chunk_size : nat) : result (list R) :=
  require negb (Nat.eqb chunk_size 0) else ValueError "range() arg 3 must not be zero" ;;
  let n := length logits in
  Ok (foldl (chunk_step logits chunk_size) (replicate n 0) (seq 0 ((n + chunk_size - 1) / chunk_size))).

(** ** [get_response_mask] *)

Fixpoint cumsum (acc : Z) (l : list Z) : list Z :=
  match l with [] => [] | x :: l => (acc + x)%Z :: cumsum (acc + x)%Z l end.
Definition response_mask_row (eos_token : list Z) (row : list Z) : list bool :=
  let eos_mask := (λ t, if bool_decide (t ∈ eos_token) then 1%Z else 0%Z) <$> row in
  zip_with (λ c e, Z.eqb (c - e) 0) (cumsum 0 eos_mask) eos_mask.
Definition get_response_mask (response_id : list (list Z)) (eos_token : list Z) : tensor bool :=
  response_mask_row eos_token <$> response_id.

Lemma eps_pos k : 0 < 1 / 10 ^ k.
Proof. apply Rdiv_lt_0_compat; [lra|]. apply pow_lt. lra. Qed.

Lemma Rdiv_nonneg a b : 0 <= a → 0 < b → 0 <= a / b.
Proof. intros Ha Hb. apply Rmult_le_pos; [done|]. apply Rlt_le, Rinv_0_lt_compat, Hb. Qed.

Lemma INR_cons {A} (a : A) l : INR (length (a :: l)) = INR (length l) + 1.
Proof. apply (S_INR (length l)). Qed.

(** ** Sums *)

Lemma fmap_concat {A B} (f : A → B) (ls : list (list A)) : f <$> concat ls = concat ((λ l : list A, f <$> l) <$> ls).
Proof. induction ls as [|l ls IH]; [done|]. csimpl. by rewrite fmap_app, IH. Qed.

Lemma fmap_zip_with {A B C D} (h : C → D) (f : A → B → C) l k :
  h <$> zip_with f l k = zip_with (λ a b, h (f a b)) l k.
Proof. revert k. induction l as [|a l IH]; intros [|b k]; csimpl; congruence. Qed.

Lemma rsum_cons a l : rsum (a :: l) = a + rsum l.
Proof. done. Qed.

Lemma rsum_app l1 l2 : rsum (l1 ++ l2) = rsum l1 + rsum l2.
Proof. induction l1 as [|a l1 IH]; simpl; [lra|]. rewrite IH. lra. Qed.
Lemma rsum_perm l1 l2 : l1 ≡ₚ l2 → rsum l1 = rsum l2.
Proof. induction 1; simpl; lra. Qed.
Lemma rsum_concat ls : rsum (concat ls) = rsum (rsum <$> ls).
Proof. induction ls as [|l ls IH]; [done|]. csimpl. by rewrite rsum_app, IH. Qed.
Lemma rsum_scale c l : rsum ((λ x, c * x) <$> l) = c * rsum l.
Proof. induction l as [|a l IH]; csimpl; [lra|]. rewrite IH. lra. Qed.
Lemma rsum_scale_f {A} c (f : A → R) l : rsum ((λ x, c * f x) <$> l) = c * rsum (f <$> l).
Proof. by rewrite <-rsum_scale, <-list_fmap_compose. Qed.
Lemma rsum_add {A} (f g : A → R) l : rsum ((λ x, f x + g x) <$> l) = rsum (f <$> l) + rsum (g <$> l).
Proof. induction l as [|a l IH]; csimpl; [lra|]. rewrite IH. lra. Qed.
Lemma rsum_const {A} (c : R) (l : list A) : rsum ((λ _, c) <$> l) = INR (length l) * c.
Proof. induction l as [|a l IH]; [simpl; lra|]. cbn [fmap list_fmap length]. rewrite S_INR. simpl. rewrite IH. lra. Qed.
Lemma rsum_le {A} (f g : A → R) l : (∀ x, x ∈ l → f x <= g x) → rsum (f <$> l) <= rsum (g <$> l).
Proof.
  induction l as [|a l IH]; intros H; csimpl; [lra|].
  specialize (IH (λ x Hx, H x (list_elem_of_further _ _ _ Hx))). specialize (H a (list_elem_of_here _ _)). lra.
Qed.
Lemma rsum_ext {A} (f g : A → R) l : (∀ x, x ∈ l → f x = g x) → rsum (f <$> l) = rsum (g <$> l).
Proof. intros H. apply Rle_antisym; apply rsum_le; intros x Hx; rewrite (H x Hx); lra. Qed.
Lemma rsum_nonneg l : Forall (λ x, 0 <= x) l → 0 <= rsum l.
Proof. induction 1; simpl; lra. Qed.
Lemma rsum_replicate_0 n : rsum (replicate n 0) = 0.
Proof. induction n; simpl; lra. Qed.

(** ** The valid entries of a row *)

Fixpoint pick {A} (m : list bool) (row : list A) : list A :=
  match m, row with
  | b :: m, x :: row => if b then x :: pick m row else pick m row
  | _, _ => []
  end.
Definition picks {A} (mask : tensor bool) (t : tensor A) : list A := concat (zip_with pick mask t).

Definition same_shape {A B} (t : tensor A) (u : tensor B) : Prop :=
  Forall2 (λ r s, length r = length s) t u.

Lemma pick_fmap {A B} (f : A → B) m row : pick m (f <$> row) = f <$> pick m row.
Proof. revert row. induction m as [|[] m IH]; intros [|x row]; csimpl; congruence. Qed.
Lemma picks_tmap {A B} (f : A → B) mask t : picks mask (tmap f t) = f <$> picks mask t.
Proof.
  revert t. induction mask as [|m mask IH]; intros [|r t]; [done..|].
  change (pick m (f <$> r) ++ picks mask (tmap f t) = f <$> (pick m r ++ picks mask t)).
  rewrite fmap_app, pick_fmap. f_equal. apply IH.
Qed.

Lemma row_masked_sum_pick row m : row_masked_sum row m = rsum (pick m row).
Proof.
  unfold row_masked_sum. revert row. induction m as [|b m IH]; intros [|x row]; try done.
  specialize (IH row). destruct b; csimpl; rewrite IH; unfold where_mask, b2r; lra.
Qed.
Lemma masked_sum_picks t mask : masked_sum t mask = rsum (picks mask t).
Proof.
  unfold masked_sum, picks. rewrite rsum_concat. revert mask.
  induction t as [|r t IH]; intros [|m mask]; csimpl; [done..|].
  by rewrite row_masked_sum_pick, IH.
Qed.
Lemma row_count_pick {A} m (row : list A) : length m = length row → row_count m = INR (length (pick m row)).
Proof.
  unfold row_count. revert row. induction m as [|b m IH]; intros [|x row] [=]; csimpl; [done|].
  rewrite (IH row) by done. destruct b; [|simpl; lra].
  change (length (x :: pick m row)) with (S (length (pick m row))). rewrite S_INR. unfold b2r. lra.
Qed.
Lemma mask_count_picks {A} (t : tensor A) mask :
  same_shape mask t → mask_count mask = INR (length (picks mask t)).
Proof.
  unfold mask_count, picks. induction 1 as [|m r mask t Hr Hs IH]; csimpl; [done|].
  rewrite length_app, plus_INR, <-IH. f_equal. by apply row_count_pick.
Qed.
Lemma mask_count_nonneg mask : 0 <= mask_count mask.
Proof.
  unfold mask_count, row_count. apply rsum_nonneg, Forall_fmap, Forall_true. intros m. simpl.
  apply rsum_nonneg, Forall_fmap, Forall_true. intros []; simpl; lra.
Qed.
Lemma same_shape_tmap {A B C} (f : B → C) (m : tensor A) (t : tensor B) :
  same_shape m t → same_shape m (tmap f t).
Proof. induction 1; constructor; [by rewrite length_fmap|done]. Qed.

Lemma masked_mean_picks t mask :
  masked_mean t mask = rsum (picks mask t) / (mask_count mask + 1 / 10 ^ 8).
Proof. unfold masked_mean. by rewrite masked_sum_picks. Qed.

(** ** Whitening *)

Lemma masked_whiten_spec values mask :
  same_shape mask values →
  let n := mask_count mask in
  let mu := masked_mean values mask in
  if Reqb n 0 || Reqb n 1 then is_ok (masked_whiten values mask true) = false
  else ∃ s, 0 < s ∧
    masked_whiten values mask true = Ok (tmap (λ v, (v - mu) * s) values) ∧
    (let q := rsum ((λ v, (v - mu) ^ 2) <$> picks mask values) in
     s = rsqrt (q / (n + 1 / 10 ^ 8) * (n / (n - 1)) + 1 / 10 ^ 8)).
Proof.
  intros Hshape n mu. unfold masked_whiten, masked_var. fold n mu.
  destruct (Reqb n 0) eqn:H0; [done|]. destruct (Reqb n 1) eqn:H1; [done|].
  simpl. rewrite masked_mean_picks, picks_tmap. fold n.
  set (q := rsum _). set (var := _ / _ * _). exists (rsqrt (var + 1 / 10 ^ 8)).
  split; [|done]. apply Rinv_0_lt_compat, sqrt_lt_R0.
  assert (Hn : 1 < n).
  { unfold n in *. rewrite (mask_count_picks _ _ Hshape) in *.
    destruct (length (picks mask values)) as [|[|k]]; [|simpl in H1|clear; pose proof (pos_INR k); rewrite !S_INR; lra].
    - unfold Reqb in H0. destruct (Req_EM_T (INR 0) 0); done.
    - unfold Reqb in H1. destruct (Req_EM_T 1 1); done. }
  pose proof (eps_pos 8) as He. assert (0 <= q).
  { apply rsum_nonneg, Forall_fmap, Forall_true. intros v. apply pow2_ge_0. }
  assert (0 <= q / (n + 1 / 10 ^ 8)) by (apply Rdiv_nonneg; lra).
  assert (0 <= n / (n - 1)) by (apply Rdiv_nonneg; lra).
  unfold var. nra.
Qed.

(** The whitened entries: centred, and of variance at most one. *)
Lemma whiten_moments (l : list R) (n mu e s : R) :
  n = INR (length l) → 1 < n → 0 < e → mu = rsum l / (n + e) →
  s = rsqrt (rsum ((λ v, (v - mu) ^ 2) <$> l) / (n + e) * (n / (n - 1)) + e) →
  rsum ((λ v, (v - mu) * s) <$> l) = e * mu * s ∧
  rsum ((λ v, ((v - mu) * s) ^ 2) <$> l) <= (n + e) * (n - 1) / n.
Proof.
  intros Hn H1 He Hmu Hs. set (q := rsum ((λ v, (v - mu) ^ 2) <$> l)) in *. split.
  - assert (H : rsum ((λ v, (v - mu) * s) <$> l) = s * (rsum l - n * mu)).
    { rewrite Hn. clear. induction l as [|a l IH]; [simpl; lra|].
      rewrite INR_cons. csimpl. rewrite IH. lra. }
    rewrite H. replace (rsum l) with (mu * (n + e)) by (rewrite Hmu; field; lra). lra.
  - assert (H : rsum ((λ v, ((v - mu) * s) ^ 2) <$> l) = s ^ 2 * q).
    { unfold q. clear. induction l as [|a l IH]; [simpl; lra|].
      rewrite !fmap_cons, !rsum_cons, IH. ring. }
    rewrite H. assert (Hq : 0 <= q).
    { apply rsum_nonneg, Forall_fmap, Forall_true. intros v. apply pow2_ge_0. }
    set (var := q / (n + e) * (n / (n - 1))) in *.
    assert (Hvar : 0 <= var).
    { apply Rmult_le_pos; apply Rdiv_nonneg; lra. }
    assert (Hs2 : s ^ 2 = / (var + e)).
    { rewrite Hs. unfold rsqrt. rewrite pow_inv, pow2_sqrt by lra. done. }
    rewrite Hs2. replace q with (var * ((n + e) * (n - 1) / n)) by (unfold var; field; lra).
    assert (Hc : 0 <= (n + e) * (n - 1) / n) by (apply Rdiv_nonneg; nra).
    assert (Hr : / (var + e) * var <= 1).
    { apply (Rmult_le_reg_l (var + e)); [lra|]. rewrite <-Rmult_assoc, Rinv_r by lra. lra. }
    rewrite <-Rmult_assoc. rewrite <-(Rmult_1_l ((n + e) * (n - 1) / n)) at 2. by apply Rmult_le_compat_r.
Qed.

Lemma mask_count_gt_1 {A} mask (values : tensor A) :
  same_shape mask values → Reqb (mask_count mask) 0 = false → Reqb (mask_count mask) 1 = false →
  1 < mask_count mask.
Proof.
  intros Hshape H0 H1. rewrite (mask_count_picks _ _ Hshape) in *.
  destruct (length (picks mask values)) as [|[|k]];
    [| |clear; pose proof (pos_INR k); rewrite !S_INR; lra].
  - unfold Reqb in H0. destruct (Req_EM_T (INR 0) 0); done.
  - unfold Reqb in H1. destruct (Req_EM_T (INR 1) 1); done.
Qed.

(** ** Entropy *)

Lemma exp_sum_pos row : row ≠ [] → 0 < rsum (exp <$> row).
Proof.
  destruct row as [|x row]; [done|]. intros _. csimpl. pose proof (exp_pos x).
  assert (0 <= rsum (exp <$> row)); [|lra].
  apply rsum_nonneg, Forall_fmap, Forall_true. intros v. simpl. apply Rlt_le, exp_pos.
Qed.

Lemma softmax_dist row : row ≠ [] →
  Forall (λ p, 0 < p) (softmax row) ∧ rsum (softmax row) = 1 ∧ length (softmax row) = length row.
Proof.
  intros Hne. pose proof (exp_sum_pos row Hne) as Hz. unfold softmax. split_and!.
  - apply Forall_fmap, Forall_true. intros x. simpl. apply Rdiv_lt_0_compat; [apply exp_pos|done].
  - set (z := rsum (exp <$> row)) in *.
    assert (H : ∀ l, rsum ((λ x, exp x / z) <$> l) = rsum (exp <$> l) / z).
    { clear -Hz. intros l. induction l as [|a l IH]; csimpl; [lra|]. rewrite IH. lra. }
    rewrite H. fold z. field. lra.
  - by rewrite length_fmap.
Qed.

(** [log (sum exp) - sum (softmax * x)] is Shannon's entropy of the softmax. *)
Lemma row_entropy_shannon row : row ≠ [] →
  row_entropy row = rsum ((λ p, - (p * ln p)) <$> softmax row).
Proof.
  intros Hne. pose proof (exp_sum_pos row Hne) as Hz. pose proof (softmax_dist row Hne) as (_ & Hone & _).
  unfold row_entropy, logsumexp. unfold softmax in *. set (z := rsum (exp <$> row)) in *.
  assert (H : ∀ l, rsum ((λ p, - (p * ln p)) <$> ((λ x, exp x / z) <$> l)) =
    ln z * rsum ((λ x, exp x / z) <$> l) - rsum (zip_with Rmult ((λ x, exp x / z) <$> l) l)).
  { clear -Hz. intros l. induction l as [|a l IH]; csimpl; [lra|]. rewrite IH.
    unfold Rdiv at 2. rewrite ln_mult, ln_exp, ln_Rinv by (auto using exp_pos, Rinv_0_lt_compat). lra. }
  rewrite H, Hone. lra.
Qed.

Lemma ln_le_sub_1 x : 0 < x → ln x <= x - 1.
Proof.
  intros Hx. pose proof (exp_ineq1_le (ln x)) as H. rewrite exp_ln in H by done. lra.
Qed.

(** Gibbs: the entropy of a distribution on [k] points lies between 0 and [ln k]. *)
Lemma shannon_bounds (ps : list R) :
  Forall (λ p, 0 < p) ps → rsum ps = 1 →
  0 <= rsum ((λ p, - (p * ln p)) <$> ps) <= ln (INR (length ps)).
Proof.
  intros Hpos Hone. assert (Hk : 0 < INR (length ps)).
  { destruct ps; [simpl in Hone; lra|]. apply lt_0_INR. simpl. lia. }
  set (k := INR (length ps)) in *. split.
  - apply rsum_nonneg, Forall_fmap. apply Forall_forall. intros p Hp.
    rewrite Forall_forall in Hpos. specialize (Hpos p Hp) as Hp0. cbn.
    assert (p <= 1).
    { rewrite <-Hone. apply elem_of_Permutation in Hp as [l Hl]. rewrite (rsum_perm _ _ Hl). simpl.
      assert (0 <= rsum l); [|lra]. apply rsum_nonneg, Forall_forall. intros x Hx.
      apply Rlt_le, Hpos. rewrite Hl. by right. }
    pose proof (ln_le_sub_1 p Hp0). nra.
  - assert (H : rsum ((λ p, - (p * ln p)) <$> ps) <= rsum ((λ p, (/ k - p) + p * ln k) <$> ps)).
    { apply rsum_le. intros p Hp. rewrite Forall_forall in Hpos. specialize (Hpos p Hp).
      assert (Hi : 0 < / (k * p)) by (apply Rinv_0_lt_compat; nra).
      pose proof (ln_le_sub_1 _ Hi) as Hl. rewrite ln_Rinv, ln_mult in Hl by nra.
      apply (Rmult_le_compat_l p) in Hl; [|lra].
      replace (p * (/ (k * p) - 1)) with (/ k - p) in Hl by (field; lra). lra. }
    etrans; [exact H|]. unfold Rminus. rewrite !rsum_add, (rsum_const (/ k)). fold k.
    assert (H1 : rsum (Ropp <$> ps) = -1).
    { rewrite (rsum_ext Ropp (λ p, -1 * p)) by (intros; ring). rewrite rsum_scale. lra. }
    assert (H2 : rsum ((λ p, p * ln k) <$> ps) = ln k).
    { rewrite (rsum_ext (λ p, p * ln k) (λ p, ln k * p)) by (intros; ring). rewrite rsum_scale, Hone. lra. }
    rewrite H1, H2.
    replace (k * / k) with 1 by (field; lra). lra.
Qed.

(** After [k] chunks the first [k * chunk_size] entries are final. *)
Lemma chunks_done logits c n k :
  c ≠ 0%nat → n = length logits →
  foldl (chunk_step logits c) (replicate n 0) (seq 0 k) =
    take (k * c) (entropy_from_logits logits) ++ drop (k * c) (replicate n 0).
Proof.
  intros Hc ->. set (n := length logits). induction k as [|k IH]; [done|].
  rewrite seq_S, foldl_app, IH. cbn [foldl]. rewrite Nat.add_0_l. unfold chunk_step, slice.
  set (e := entropy_from_logits logits).
  assert (Hl : length e = n) by (unfold e, entropy_from_logits; by rewrite length_fmap).
  replace (k * c + c - k * c)%nat with c by lia.
  assert (Hchunk : entropy_from_logits (take c (drop (k * c) logits)) = take c (drop (k * c) e))
    by (unfold e, entropy_from_logits; by rewrite fmap_take, fmap_drop).
  rewrite Hchunk. replace (S k * c)%nat with (k * c + c)%nat by lia.
  destruct (decide (k * c <= n)%nat) as [Hle|Hgt].
  - rewrite take_app_length' by (rewrite length_take; lia).
    rewrite length_take, length_drop, Hl. rewrite drop_app_ge by (rewrite length_take; lia).
    rewrite length_take, Hl, drop_drop, <-take_take_drop, <-(assoc_L (++)). f_equal. f_equal.
    rewrite !drop_replicate. f_equal. lia.
  - rewrite (drop_ge e) by lia. rewrite take_nil. simpl.
    rewrite !(take_ge e) by lia. rewrite !drop_replicate.
    replace (n - k * c)%nat with 0%nat by lia. replace (n - (k * c + c))%nat with 0%nat by lia.
    rewrite app_nil_r. rewrite take_ge by lia. rewrite drop_ge by lia. by rewrite app_nil_r.
Qed.

(** The entropy kernel computes Shannon's entropy.  For every row of logits over [k]
    tokens, [logsumexp - sum (softmax * logits)] is [- sum p ln p] of the softmax
    distribution and lies between [0] and [ln k]; the memory-saving version returns the same
    values for every positive chunk size and raises for a zero one. *)
Theorem entropy_from_logits_correct (logits : tensor R) (chunk_size : nat) :
  Forall (λ row, row ≠ []) logits →
  Forall2 (λ row h, h = rsum ((λ p, - (p * ln p)) <$> softmax row) ∧
      rsum (softmax row) = 1 ∧ Forall (λ p, 0 < p) (softmax row) ∧ 0 <= h <= ln (INR (length row)))
    logits (entropy_from_logits logits) ∧
  entropy_from_logits_with_chunking logits chunk_size =
    if Nat.eqb chunk_size 0 then Raise (ValueError "range() arg 3 must not be zero")
    else Ok (entropy_from_logits logits).
Proof.
  intros Hne. split.
  - unfold entropy_from_logits. apply Forall2_fmap_r, Forall_Forall2_diag.
    eapply Forall_impl; [exact Hne|]. intros row Hrow. cbn.
    destruct (softmax_dist row Hrow) as (Hpos & Hone & Hlen).
    rewrite row_entropy_shannon by done. split_and!; [done..| |]; rewrite <-?Hlen; by apply shannon_bounds.
  - unfold entropy_from_logits_with_chunking. destruct (Nat.eqb_spec chunk_size 0) as [->|Hc]; [done|]. simpl.
    rewrite chunks_done by done. f_equal.
    set (n := length logits). assert (Hk : (n <= (n + chunk_size - 1) / chunk_size * chunk_size)%nat).
    { pose proof (Nat.div_mod (n + chunk_size - 1) chunk_size Hc).
      pose proof (Nat.mod_upper_bound (n + chunk_size - 1) chunk_size Hc). lia. }
    rewrite take_ge by (unfold entropy_from_logits; rewrite length_fmap; done).
    rewrite drop_ge by (rewrite length_replicate; done). by rewrite app_nil_r.
Qed.

Lemma entropy_from_logits_correct_witness :
  ∃ h, entropy_from_logits_with_chunking [[0; 0]; [1; 2]] 1 = Ok (h :: row_entropy [1; 2] :: []) ∧
    0 <= h <= ln 2.
Proof.
  destruct (entropy_from_logits_correct [[0; 0]; [1; 2]] 1) as [Hrows Hchunk];
    [repeat constructor; discriminate|].
  exists (row_entropy [0; 0]). split; [exact Hchunk|].
  inversion_clear Hrows as [|? ? ? ? (_ & _ & _ & Hb) _]. exact Hb.
Defined.

(** ** Whitening *)

(** Whitening standardises the valid tokens and looks at nothing else.  It raises
    exactly when at most one token is valid.  Otherwise it is one increasing affine map of
    the values, chosen from the valid ones alone, that sends their sum to [1e-8] times a
    multiple of their mean and their sum of squares below [(n + 1e-8) (n - 1) / n]. *)
Theorem masked_whiten_standardises (values : tensor R) (mask : tensor bool) :
  same_shape mask values →
  let n := mask_count mask in
  (n <= 1 → is_ok (masked_whiten values mask true) = false) ∧
  (1 < n → ∃ mu s w, 0 < s ∧
    masked_whiten values mask true = Ok w ∧ w = tmap (λ v, (v - mu) * s) values ∧
    masked_sum w mask = 1 / 10 ^ 8 * mu * s ∧
    masked_sum (tmap (λ v, v ^ 2) w) mask <= (n + 1 / 10 ^ 8) * (n - 1) / n ∧
    ∀ other, same_shape mask other → picks mask other = picks mask values →
      masked_whiten other mask true = Ok (tmap (λ v, (v - mu) * s) other)).
Proof.
  intros Hshape n. pose proof (masked_whiten_spec _ _ Hshape) as H. cbv zeta in H. fold n in H. split.
  - intros Hle. destruct (Reqb n 0) eqn:H0; [done|]. destruct (Reqb n 1) eqn:H1; [done|].
    pose proof (mask_count_gt_1 _ _ Hshape H0 H1) as Hgt. fold n in Hgt. lra.
  - intros Hgt.
    assert (Hreq : Reqb n 0 || Reqb n 1 = false).
    { unfold Reqb. destruct (Req_EM_T n 0), (Req_EM_T n 1); try lra; done. }
    rewrite Hreq in H. destruct H as (s & Hs & Hw & Hdef).
    set (mu := masked_mean values mask) in *. exists mu, s, (tmap (λ v, (v - mu) * s) values).
    rewrite !masked_sum_picks, !picks_tmap.
    destruct (whiten_moments (picks mask values) n mu (1 / 10 ^ 8) s) as [Hm Hv];
      [by apply mask_count_picks|done|apply eps_pos|apply masked_mean_picks|done|].
    split; [done|]. split; [done|]. split; [done|]. split; [done|]. split.
    { rewrite <-list_fmap_compose. exact Hv. }
    intros other Hother Hsame. pose proof (masked_whiten_spec _ _ Hother) as H. cbv zeta in H.
    fold n in H. rewrite Hreq in H. destruct H as (s' & _ & -> & Hs').
    assert (Hmu : masked_mean other mask = mu) by (unfold mu; by rewrite !masked_mean_picks, Hsame).
    rewrite Hmu, Hsame in Hs'. rewrite <-Hdef in Hs'. by rewrite Hmu, Hs'.
Qed.

Lemma masked_whiten_standardises_witness :
  ∃ mu s, 0 < s ∧
    masked_whiten [[1; 3; 7]] [[true; true; false]] true = Ok [[(1 - mu) * s; (3 - mu) * s; (7 - mu) * s]] ∧
    masked_whiten [[1; 3; 0]] [[true; true; false]] true = Ok [[(1 - mu) * s; (3 - mu) * s; (0 - mu) * s]].
Proof.
  destruct (masked_whiten_standardises [[1; 3; 7]] [[true; true; false]]) as [_ H]; [repeat constructor|].
  destruct H as (mu & s & w & Hs & Hw & -> & _ & _ & Hother).
  { unfold mask_count, row_count. simpl. lra. }
  exists mu, s. split; [exact Hs|]. split; [exact Hw|]. apply Hother; [repeat constructor|reflexivity].
Defined.

(** ** Response masks *)

Lemma cumsum_zip acc l :
  zip_with (λ c e, Z.eqb (c - e) 0) (cumsum acc l) l =
    (λ i, Z.eqb (acc + zsum (take i l)) 0) <$> seq 0 (length l).
Proof.
  revert acc. induction l as [|x l IH]; intros acc; [done|]. csimpl.
  f_equal; [f_equal; lia|]. rewrite IH. rewrite <-(fmap_S_seq 0), <-list_fmap_compose.
  apply list_fmap_ext. intros i y Hi. simpl. f_equal. lia.
Qed.

(** Token [i] is kept exactly when no earlier token ends the sequence. *)
Lemma response_mask_row_spec eos row :
  response_mask_row eos row =
    (λ i, forallb (λ t, negb (bool_decide (t ∈ eos))) (take i row)) <$> seq 0 (length row).
Proof.
  unfold response_mask_row. rewrite cumsum_zip, length_fmap. apply list_fmap_ext. intros _ i _.
  rewrite <-fmap_take. generalize (take i row) as l. clear.
  assert (H : ∀ l : list Z, (0 <= zsum ((λ t, if bool_decide (t ∈ eos) then 1%Z else 0%Z) <$> l))%Z ∧
    (0 + zsum ((λ t, if bool_decide (t ∈ eos) then 1%Z else 0%Z) <$> l) =? 0)%Z =
      forallb (λ t, negb (bool_decide (t ∈ eos))) l).
  { induction l as [|t l [Hn IH]]; [done|]. csimpl. destruct (bool_decide (t ∈ eos)); simpl; [|done].
    split; [lia|]. apply Z.eqb_neq. lia. }
  intros l. apply H.
Qed.
