(* ===== verification/Groupwise.v ===== *)
(** * Group labels and group statistics: [src/verl/utils/groupwise.py]

    Labels are numpy arrays of integers, of finite floats (rationals) or of strings; device
    selection, torch inputs and arrays of mixed objects are not modelled.  Scores are reals,
    as in [TorchFunctional]. *)

From S2P Require Import Prelude PyStr PyNum GroupBy Rlsd TeacherBatch TorchFunctional.
From Stdlib Require Import Reals Lra QArith Qround.
Local Close Scope Q_scope.
Local Open Scope py_scope.

Definition fits_int64 (z : Z) : bool := Z.leb (- 2 ^ 63) z && Z.ltb z (2 ^ 63).

(** ** [as_torch_index] *)

Inductive labels :=
  | IntLabels (l : list Z)
  | FloatLabels (l : list Q)
  | StrLabels (l : list string).

(** [np.rint] (ties to even) and [astype(np.int64)] (towards zero). *)
Definition rint (q : Q) : Z :=
  let f := Qfloor q in
  match ((q - inject_Z f) ?= 1 # 2)%Q with
  | Lt => f
  | Gt => (f + 1)%Z
  | Eq => if Z.even f then f else (f + 1)%Z
  end.
Definition trunc (q : Q) : Z := if Qle_bool 0 q then Qfloor q else Qceiling q.
Definition near_integer (q : Q) : bool :=
  Qle_bool (q - inject_Z (rint q)) (1 # 1000000) && Qle_bool (inject_Z (rint q) - q) (1 # 1000000).

(** [np.unique(arr, return_inverse=True)[1]]: the place of every entry among the sorted
    distinct entries. *)
Fixpoint position {A} `{EqDecision A} (x : A) (l : list A) : nat :=
  match l with [] => 0%nat | y :: l => if bool_decide (x = y) then 0%nat else S (position x l) end.
Definition unique_sorted {A} `{EqDecision A} (lt : A → A → bool) (l : list A) : list A :=
  remove_dups (sort_by lt l).
Definition unique_inverse {A} `{EqDecision A} (lt : A → A → bool) (l : list A) : list Z :=
  (λ x, Z.of_nat (position x (unique_sorted lt l))) <$> l.

(** [arr.astype(np.int64)] raises on a string that is no integer or does not fit. *)
Definition coerce_int (s : string) : option Z :=
  z ← int_of_str s; if fits_int64 z then Some z else None.

Definition as_torch_index (index : labels) : list Z :=
  match index with
  | IntLabels l => l
  | FloatLabels l => if forallb near_integer l then rint <$> l else trunc <$> l
  | StrLabels l =>
      match mapM coerce_int l with
      | Some zs => zs
      | None => unique_inverse String.ltb l
      end
  end.

(** ** [group_mean_std] *)

Local Open Scope R_scope.

(** [torch.zeros(G).index_add_(0, gidx, src)]: entry [g] sums the sources with index [g]. *)
Definition index_add (G : nat) (gidx : list Z) (src : list R) : result (list R) :=
  require forallb (λ g, Z.leb 0 g && Z.ltb g (Z.of_nat G)) gidx else IndexError "index out of range in self" ;;
  Ok ((λ g, rsum (members (Z.of_nat g) gidx src)) <$> seq 0 G).

(** [t[g]] for an index tensor: negative indices count from the end. *)
Definition gather_at {A} (t : list A) (i : Z) : result A :=
  let n := Z.of_nat (length t) in
  require Z.leb (- n) i && Z.ltb i n else IndexError "index is out of bounds for dimension 0" ;;
  of_option (IndexError "unreachable") (t !! Z.to_nat (if Z.ltb i 0 then i + n else i)%Z).
Definition gather {A} (t : list A) (gidx : list Z) : result (list A) := mapM (gather_at t) gidx.

(** [int(torch.max(gidx).item()) + 1 if gidx.numel() > 0 else 0] *)
Definition group_total (gidx : list Z) : Z :=
  match gidx with [] => 0%Z | z :: l => (foldr Z.max z l + 1)%Z end.

Definition group_mean_std (scores : list R) (gidx : list Z) (eps : R) : result (list R * list R * list R) :=
  require Nat.eqb (length scores) (length gidx) else ValueError "scores and gidx length mismatch" ;;
  let total := group_total gidx in
  if Z.eqb total 0 then Ok ([], [], []) else
  require Z.leb 0 total else RuntimeError "Trying to create tensor with negative dimension" ;;
  let G := Z.to_nat total in
  count ← index_add G gidx (replicate (length scores) 1);
  s1 ← index_add G gidx scores;
  let mean := zip_with (λ s c, s / Rmax c 1) s1 count in
  mean_g ← gather mean gidx;
  let centered := zip_with Rminus scores mean_g in
  var_num ← index_add G gidx (zip_with Rmult centered centered);
  let denom := (λ c, Rmax (c - 1) 1) <$> count in
  let std := zip_with (λ v d, sqrt (Rmax (v / d) eps)) var_num denom in
  let single := (λ c, Rleb c 1) <$> count in
  Ok (zip_with (λ s m, if (s : bool) then 0 else m) single mean,
      zip_with (λ s d, if (s : bool) then 1 else d) single std, count).

(** ** Labels *)

Lemma position_lookup {A} `{EqDecision A} (x : A) l : x ∈ l → l !! position x l = Some x.
Proof.
  induction l as [|y l IH]; [by intros ?%elem_of_nil|]. simpl. case_bool_decide; [by subst|].
  intros [?|?]%elem_of_cons; [done|]. by apply IH.
Qed.

Lemma unique_inverse_spec {A} `{EqDecision A} (lt : A → A → bool) (l : list A) :
  Forall2 (λ x z, (0 <= z < Z.of_nat (length (remove_dups l)))%Z) l (unique_inverse lt l) ∧
  ∀ i j x y zx zy, l !! i = Some x → l !! j = Some y →
    unique_inverse lt l !! i = Some zx → unique_inverse lt l !! j = Some zy → x = y ↔ zx = zy.
Proof.
  assert (Hp : ∀ x, x ∈ l → unique_sorted lt l !! position x (unique_sorted lt l) = Some x).
  { intros x Hx. apply position_lookup. unfold unique_sorted. by rewrite elem_of_remove_dups, sort_by_perm. }
  split.
  - unfold unique_inverse. apply Forall2_fmap_r, Forall_Forall2_diag, Forall_forall. intros x Hx.
    specialize (Hp x Hx). apply lookup_lt_Some in Hp. simpl.
    assert (Hlen : length (unique_sorted lt l) = length (remove_dups l)); [|lia].
    apply Permutation_length, NoDup_Permutation; [apply NoDup_remove_dups..|]. intros y.
    unfold unique_sorted. by rewrite !elem_of_remove_dups, sort_by_perm.
  - intros i j x y zx zy Hx Hy. unfold unique_inverse. rewrite !list_lookup_fmap, Hx, Hy. simpl.
    intros [= <-] [= <-]. split; [by intros ->|]. intros E%Nat2Z.inj.
    pose proof (Hp x (list_elem_of_lookup_2 _ _ _ Hx)) as H1.
    pose proof (Hp y (list_elem_of_lookup_2 _ _ _ Hy)) as H2. rewrite E, H2 in H1. by injection H1.
Qed.

(** Two labellings that put the same positions together. *)
Definition same_classes {A B} (l : list A) (k : list B) : Prop :=
  length l = length k ∧
  ∀ i j x y a b, l !! i = Some x → l !! j = Some y → k !! i = Some a → k !! j = Some b → x = y ↔ a = b.

Lemma same_classes_at {A B} (l : list A) (k : list B) i x a :
  same_classes l k → l !! i = Some x → k !! i = Some a → Forall2 (λ y b, y = x ↔ b = a) l k.
Proof.
  intros [Hlen H] Hx Ha. apply Forall2_same_length_lookup. split; [done|]. intros j y b Hy Hb.
  exact (H j i y x b a Hy Hx Hb Ha).
Qed.

Definition uncoercible (l : list string) : Prop := mapM coerce_int l = None.

Lemma as_torch_index_strings l : uncoercible l →
  same_classes l (as_torch_index (StrLabels l)) ∧
  Forall (λ z, (0 <= z < Z.of_nat (length (remove_dups l)))%Z) (as_torch_index (StrLabels l)).
Proof.
  intros Hn. unfold as_torch_index. rewrite Hn. destruct (unique_inverse_spec String.ltb l) as [Hb Hsep].
  split; [split; [unfold unique_inverse; by rewrite length_fmap|exact Hsep]|].
  eapply Forall2_Forall_r; [exact Hb|]. apply Forall_true. by intros.
Qed.

(** ** Group statistics *)

(** Mean and Bessel-corrected standard deviation; a singleton group has 0 and 1. *)
Definition torch_std (l : list R) : R := sqrt (rsum ((λ x, (x - mean l) ^ 2) <$> l) / (INR (length l) - 1)).
Definition stat_mean (l : list R) : R := match l with [_] => 0 | _ => mean l end.
Definition stat_std (l : list R) : R := match l with [_] => 1 | _ => torch_std l end.

Lemma group_total_bound gidx z : z ∈ gidx → (z < group_total gidx)%Z.
Proof.
  destruct gidx as [|y l]; [by intros ?%elem_of_nil|]. simpl. revert y.
  induction l as [|w l IH]; intros y Hz; simpl.
  - apply list_elem_of_singleton in Hz. lia.
  - apply elem_of_cons in Hz as [->|[->|Hz]%elem_of_cons]; [|lia|].
    + specialize (IH y (list_elem_of_here _ _)). lia.
    + specialize (IH y (list_elem_of_further _ _ _ Hz)). lia.
Qed.

Lemma index_add_Ok G gidx src :
  Forall (λ z, 0 <= z < Z.of_nat G)%Z gidx →
  index_add G gidx src = Ok ((λ g, rsum (members (Z.of_nat g) gidx src)) <$> seq 0 G).
Proof.
  intros Hb. unfold index_add. assert (H : forallb (λ g, Z.leb 0 g && Z.ltb g (Z.of_nat G)) gidx = true).
  { apply forallb_Forall. eapply Forall_impl; [exact Hb|]. intros z Hz. cbn beta in Hz |- *.
    apply andb_true_iff. split; [apply Z.leb_le|apply Z.ltb_lt]; lia. }
  by rewrite H.
Qed.

Lemma gather_Ok {A} (f : Z → A) (t : list A) gidx G :
  t = (λ g, f (Z.of_nat g)) <$> seq 0 G → Forall (λ z, 0 <= z < Z.of_nat G)%Z gidx →
  gather t gidx = Ok (f <$> gidx).
Proof.
  intros -> Hb. unfold gather. apply mapM_Ok_map. intros z Hz. rewrite Forall_forall in Hb.
  specialize (Hb z Hz). unfold gather_at. rewrite length_fmap, length_seq.
  assert (H : Z.leb (- Z.of_nat G) z && Z.ltb z (Z.of_nat G) = true).
  { apply andb_true_iff. split; [apply Z.leb_le|apply Z.ltb_lt]; lia. }
  rewrite H. assert (H0 : Z.ltb z 0 = false) by (apply Z.ltb_ge; lia). rewrite H0.
  rewrite list_lookup_fmap, lookup_seq_lt by lia. simpl. by rewrite Z2Nat.id by lia.
Qed.

Lemma members_replicate {K A} `{EqDecision K} k (idx : list K) (c : A) (xs : list A) :
  length xs = length idx → members k idx (replicate (length xs) c) = replicate (length (members k idx xs)) c.
Proof.
  intros Hlen. assert (Hrep : replicate (length xs) c = (λ _, c) <$> xs).
  { clear. induction xs; csimpl; congruence. }
  rewrite Hrep, members_fmap. generalize (members k idx xs) as l. clear.
  induction l; csimpl; congruence.
Qed.

Lemma fmap_zip_with_seq {A B C} (F : A → B → C) (f : nat → A) (g : nat → B) l :
  zip_with F (f <$> l) (g <$> l) = (λ k, F (f k) (g k)) <$> l.
Proof. induction l; csimpl; congruence. Qed.

Lemma INR_eq_1 n : INR n = 1 → n = 1%nat.
Proof. intros H. apply INR_eq. by rewrite H. Qed.

Lemma rsum_repeat_1 n : rsum (replicate n 1) = INR n.
Proof. induction n as [|n IH]; [done|]. rewrite S_INR, <-IH. simpl. lra. Qed.

(** For non-negative indices and [eps = 0] the gathered statistics are those of the group. *)
Lemma group_mean_std_groups scores gidx :
  length scores = length gidx → Forall (λ z, 0 <= z)%Z gidx →
  ∃ mean_g std_g count, group_mean_std scores gidx 0 = Ok (mean_g, std_g, count) ∧
    gather mean_g gidx = Ok ((λ g, stat_mean (members g gidx scores)) <$> gidx) ∧
    gather std_g gidx = Ok ((λ g, stat_std (members g gidx scores)) <$> gidx).
Proof.
  intros Hlen Hpos. unfold group_mean_std. rewrite Hlen, Nat.eqb_refl.
  destruct gidx as [|z0 gidx0] eqn:Egidx; [by exists [], [], []|]. rewrite <-Egidx in *.
  set (G := Z.to_nat (group_total gidx)).
  assert (Hb : Forall (λ z, 0 <= z < Z.of_nat G)%Z gidx).
  { apply Forall_forall. intros z Hz. rewrite Forall_forall in Hpos. specialize (Hpos z Hz).
    pose proof (group_total_bound gidx z Hz). unfold G. lia. }
  assert (HG : (0 < group_total gidx)%Z).
  { pose proof (group_total_bound gidx z0). rewrite Egidx in H, Hpos. inversion_clear Hpos.
    rewrite Egidx. specialize (H (list_elem_of_here _ _)). lia. }
  assert (Hneq : Z.eqb (group_total gidx) 0 = false) by (apply Z.eqb_neq; lia).
  assert (Hle : Z.leb 0 (group_total gidx) = true) by (apply Z.leb_le; lia).
  rewrite Hneq, Hle. fold G. rewrite !index_add_Ok by done. cbn [mbind result_bind].
  set (grp := λ g : Z, members g gidx scores).
  set (cnt := λ g : Z, INR (length (grp g))).
  set (mu := λ g : Z, rsum (grp g) / Rmax (cnt g) 1).
  assert (Hcount : (λ g, rsum (members (Z.of_nat g) gidx (replicate (length gidx) 1))) <$> seq 0 G =
    (λ g, cnt (Z.of_nat g)) <$> seq 0 G).
  { apply list_fmap_ext. intros _ g _. rewrite <-Hlen, members_replicate by done. apply rsum_repeat_1. }
  rewrite Hcount, fmap_zip_with_seq. rewrite (gather_Ok mu _ gidx G) by done.
  cbn [mbind result_bind]. rewrite index_add_Ok by done. cbn [mbind result_bind].
  eexists _, _, _. split; [reflexivity|].
  assert (Hzip : ∀ (l : list R) (m : list R), zip_with Rmult (zip_with Rminus l m) (zip_with Rminus l m) =
    zip_with (λ x y, (x - y) ^ 2) l m).
  { clear. induction l as [|x l IH]; intros [|y m]; csimpl; [done..|]. rewrite IH. f_equal. ring. }
  rewrite Hzip. rewrite <-!list_fmap_compose, !fmap_zip_with_seq.
  assert (Hcase : ∀ g, g ∈ gidx → match grp g with [] => False | [_] => cnt g = 1 | _ => 1 < cnt g end).
  { intros g Hg. unfold cnt. destruct (grp g) as [|a [|b l]] eqn:E.
    - apply list_elem_of_lookup in Hg as [i Hi]. destruct (lookup_lt_is_Some_2 scores i) as [x Hx].
      { rewrite Hlen. by eapply lookup_lt_Some. }
      assert (Hin : x ∈ grp g) by (apply members_elem; by exists i). rewrite E in Hin. by apply elem_of_nil in Hin.
    - done.
    - rewrite !INR_cons. pose proof (pos_INR (length l)). lra. }
  assert (Hmu : ∀ g, 1 < cnt g → mu g = mean (grp g)).
  { intros g Hg. unfold mu, mean. rewrite Rmax_left by lra. done. }
  split.
  - rewrite (gather_Ok (λ g, if Rleb (cnt g) 1 then 0 else mu g) _ gidx G) by done.
    f_equal. apply list_fmap_ext. intros i g Hi. specialize (Hcase g (list_elem_of_lookup_2 _ _ _ Hi)).
    fold (grp g). unfold stat_mean. destruct (grp g) as [|a [|b l]] eqn:E; [done| |].
    + unfold Rleb. destruct (Rle_dec _ _); [done|]. lra.
    + unfold Rleb. destruct (Rle_dec _ _); [lra|]. rewrite Hmu by done. by rewrite E.
  - rewrite (gather_Ok (λ g, if Rleb (cnt g) 1 then 1 else
      sqrt (Rmax (rsum (members g gidx (zip_with (λ x y, (x - y) ^ 2) scores (mu <$> gidx))) / Rmax (cnt g - 1) 1) 0))
      _ gidx G) by done.
    f_equal. apply list_fmap_ext. intros i g Hi. specialize (Hcase g (list_elem_of_lookup_2 _ _ _ Hi)).
    rewrite members_zip_with. fold (grp g). unfold stat_std. destruct (grp g) as [|a [|b l]] eqn:E; [done| |].
    + unfold Rleb. destruct (Rle_dec _ _); [done|]. lra.
    + unfold Rleb. destruct (Rle_dec _ _); [lra|]. rewrite Hmu by done. rewrite E. unfold torch_std.
      assert (H1 : 1 <= cnt g - 1).
      { unfold cnt. rewrite E, !INR_cons. pose proof (pos_INR (length l)). lra. }
      rewrite (Rmax_left (cnt g - 1)) by done. rewrite Rmax_left; [unfold cnt; by rewrite E|].
      apply Rdiv_nonneg; [|lra]. apply rsum_nonneg, Forall_fmap, Forall_true. intros x. apply pow2_ge_0.
Qed.
