(* ===== verification/Advantages.v ===== *)
(** * Advantage estimators: [src/verl/trainer/ppo/core_algos.py], first half

    Tensors are rows of reals and masks are boolean, as in [TorchFunctional].  Column loops
    over a batch are written row by row: every operation of them is elementwise in the batch
    dimension.  In the estimators that loop over [scores], the dict of lists holds views of
    the [scores] that are overwritten later; only statistics taken before the first write
    (and the length of a list) are used afterwards, so the lists are kept as values. *)

From S2P Require Import Prelude GroupBy Rlsd TeacherBatch TorchFunctional Groupwise.
From Stdlib Require Import Reals Lra QArith.
Local Close Scope Q_scope.
Local Open Scope R_scope.
Local Open Scope py_scope.

(** ** KL controllers *)

Inductive kl_controller :=
  | AdaptiveKLController (value target horizon : R)
  | FixedKLController (value : R).
Definition kl_value (c : kl_controller) : R :=
  match c with AdaptiveKLController v _ _ => v | FixedKLController v => v end.
Definition kl_update (c : kl_controller) (current_kl n_steps : R) : kl_controller :=
  match c with
  | AdaptiveKLController v target horizon =>
      let proportional_error := rclamp (-(2 / 10)) (2 / 10) (current_kl / target - 1) in
      let mult := 1 + proportional_error * n_steps / horizon in
      AdaptiveKLController (v * mult) target horizon
  | FixedKLController v => FixedKLController v
  end.

Record kl_ctrl_config := { kl_type : string; kl_coef : R; target_kl : R; kl_horizon : R }.
Definition get_kl_controller (c : kl_ctrl_config) : result kl_controller :=
  if bool_decide (kl_type c = "fixed"%string) then Ok (FixedKLController (kl_coef c))
  else if bool_decide (kl_type c = "adaptive"%string) then
    require Rltb 0 (kl_horizon c) else AssertionError "horizon must be larger than 0" ;;
    Ok (AdaptiveKLController (kl_coef c) (target_kl c) (kl_horizon c))
  else Raise (NotImplementedError "").

(** ** Generalized advantage estimation *)

(** One iteration of the loop over [t]; the accumulator is [nextvalues], [lastgaelam] and
    the advantages of the later tokens. *)
Definition gae_step (gamma lam : R) (rvm : R * R * bool) (st : R * R * list R) : R * R * list R :=
  let '(r, v, m) := rvm in
  let '(nextvalue, lastgaelam, advs) := st in
  let delta := r + gamma * nextvalue - v in
  let lastgaelam_ := delta + gamma * lam * lastgaelam in
  let nextvalue := v * b2r m + (1 - b2r m) * nextvalue in
  let lastgaelam := lastgaelam_ * b2r m + (1 - b2r m) * lastgaelam in
  (nextvalue, lastgaelam, lastgaelam :: advs).
Definition gae_row (gamma lam : R) (rewards values : list R) (mask : list bool) : list R :=
  (foldr (gae_step gamma lam) (0, 0, []) (zip (zip rewards values) mask)).2.

Definition compute_gae_advantage_return (rewards values : tensor R) (mask : tensor bool) (gamma lam : R) :
    result (tensor R * tensor R) :=
  let advantages := zip_with (λ rv m, gae_row gamma lam rv.1 rv.2 m) (zip rewards values) mask in
  let returns := tzip Rplus advantages values in
  advantages ← masked_whiten advantages mask true;
  Ok (advantages, returns).

(** ** Group statistics by prompt *)

Definition row_scores (t : tensor R) : list R := rsum <$> t.

Section by_group.
Context {K : Type} `{EqDecision K}.

(** [index[i] for i in range(bsz)] *)
Definition index_labels (index : list K) (bsz : nat) : result (list K) :=
  require Nat.leb bsz (length index) else IndexError "index out of bounds" ;;
  Ok (take bsz index).

(** Fill the dict of lists, compute a statistic of every list, and pair every value of
    [xs] with the statistic of its group. *)
Definition with_group {A B} (f : list A → result B) (idx : list K) (xs : list A) : result (list (A * B)) :=
  stats ← mapM (λ g : K * list A, b ← f g.2; Ok (g.1, b)) (group_by_key (zip idx xs));
  mapM (λ kx : K * A, b ← of_option (KeyError "index") (assoc_lookup kx.1 stats); Ok (kx.2, b)) (zip idx xs).

Definition no_score {A} : result A := Raise (ValueError "no score in prompt index").
Definition group_mean_of (l : list R) : result R :=
  match l with [] => no_score | [_] => Ok 0 | _ => Ok (mean l) end.
Definition group_mean_std_of (l : list R) : result (R * R) :=
  match l with [] => no_score | [_] => Ok (0, 1) | _ => Ok (mean l, torch_std l) end.

(** ** GRPO *)

Definition grpo_scalar (epsilon : R) (norm_adv_by_std_in_grpo : bool) (score mu sd : R) : R :=
  if norm_adv_by_std_in_grpo then (score - mu) / (sd + epsilon) else score - mu.

Definition compute_grpo_outcome_advantage (rewards : tensor R) (mask : tensor bool) (index : list K)
    (epsilon : R) (norm_adv_by_std_in_grpo : bool) : result (tensor R * tensor R) :=
  let scores := row_scores rewards in
  idx ← index_labels index (length scores);
  stats ← with_group group_mean_std_of idx scores;
  let scores := (λ sb : R * (R * R), grpo_scalar epsilon norm_adv_by_std_in_grpo sb.1 sb.2.1 sb.2.2) <$> stats in
  let scores := spread_mask scores mask in
  Ok (scores, scores).

(** ** REINFORCE++ with a group baseline *)

Definition compute_reinforce_plus_plus_baseline_outcome_advantage (rewards : tensor R) (mask : tensor bool)
    (index : list K) : result (tensor R * tensor R) :=
  let scores := row_scores rewards in
  idx ← index_labels index (length scores);
  stats ← with_group group_mean_of idx scores;
  let scores := spread_mask ((λ sb : R * R, sb.1 - sb.2) <$> stats) mask in
  scores ← masked_whiten scores mask true;
  let scores := mask_mul scores mask in
  Ok (scores, scores).

(** ** RLOO *)

Definition compute_rloo_outcome_advantage (rewards : tensor R) (mask : tensor bool) (index : list K) :
    result (tensor R * tensor R) :=
  let scores := row_scores rewards in
  idx ← index_labels index (length scores);
  stats ← with_group (λ l, m ← group_mean_of l; Ok (m, length l)) idx scores;
  let scores := (λ sb : R * (R * nat),
      let '(s, (mu, num)) := sb in
      let response_num := INR num in
      if Nat.ltb 1 num then s * response_num / (response_num - 1) - mu * response_num / (response_num - 1)
      else s) <$> stats in
  let scores := spread_mask scores mask in
  Ok (scores, scores).

(** ** OPO: the baseline weighs the scores of a group by their response lengths; a group
    without any response token divides zero by zero. *)

Definition opo_baseline (l : list (R * R)) : result fnum :=
  match l with
  | [] => no_score
  | [_] => Ok (Fin 0)
  | _ => Ok (fdiv (rsum ((λ sl : R * R, sl.2 * sl.1) <$> l)) (rsum l.*2))
  end.
Definition compute_opo_outcome_advantage (rewards : tensor R) (mask : tensor bool) (index : list K) :
    result (tensor fnum * tensor fnum) :=
  let response_length := row_count <$> mask in
  let scores := row_scores rewards in
  idx ← index_labels index (length scores);
  stats ← with_group opo_baseline idx (zip scores response_length);
  let scores := (λ sb : R * R * fnum, f2 Rminus (Fin sb.1.1) sb.2) <$> stats in
  let scores := zip_with (λ s row, (λ b, f2 Rmult s (b2f b)) <$> row) scores mask in
  Ok (scores, scores).

(** ** GPG: [alpha] is recomputed from the scores *)

Definition count_nonzero (l : list R) : nat := length (List.filter (λ s, negb (Reqb s 0)) l).
Definition compute_gpg_outcome_advantage (rewards : tensor R) (mask : tensor bool) (index : list K)
    (f_norm alpha : R) : result (tensor R * tensor R) :=
  let scores := row_scores rewards in
  let alpha := INR (length scores) / INR (Nat.max (count_nonzero scores) 1) in
  idx ← index_labels index (length scores);
  stats ← with_group group_mean_std_of idx scores;
  let scores := (λ sb : R * (R * R), alpha * (sb.1 - sb.2.1) / f_norm) <$> stats in
  let scores := spread_mask scores mask in
  Ok (scores, scores).

(** ** Pass@k: [topk2] is [torch.topk(rewards, 2).indices]; the dicts of scores and of
    indices have the same keys and are kept as one dict of pairs. *)

Definition passk_group (topk2 : list R → nat * nat) (epsilon : R) (norm : bool)
    (advantages : list R) (g : K * list (nat * R)) : result (list R) :=
  let rewards := g.2.*2 in
  require Nat.leb 2 (length rewards) else ValueError "Pass@k requires at least 2 samples per group." ;;
  let '(i0, i1) := topk2 rewards in
  r_max ← of_option (IndexError "topk") (rewards !! i0);
  r_second_max ← of_option (IndexError "topk") (rewards !! i1);
  i_max ← of_option (IndexError "topk") (g.2.*1 !! i0);
  let advantage := r_max - r_second_max in
  let advantage := if norm then advantage / (torch_std rewards + epsilon) else advantage in
  Ok (<[i_max := advantage]> advantages).

(** [config] carries its [norm_adv_by_std_in_grpo]. *)
Definition compute_grpo_passk_outcome_advantage (topk2 : list R → nat * nat) (rewards : tensor R)
    (mask : tensor bool) (index : list K) (epsilon : R) (config : option bool) :
    result (tensor R * tensor R) :=
  norm ← of_option (AssertionError "") config;
  let scores := row_scores rewards in
  let bsz := length scores in
  idx ← index_labels index bsz;
  advantages ← foldM (passk_group topk2 epsilon norm) (replicate bsz 0)
    (group_by_key (zip idx (zip (seq 0 bsz) scores)));
  let advantages := spread_mask advantages mask in
  Ok (advantages, advantages).

(** ** GDPO *)

Record gdpo_inputs := {
  gdpo_reward_keys : list string; gdpo_reward_weights : option (list R);
  non_tensor_batch : list (string * list R); prompt_length : nat; attention_mask : tensor bool }.

(** [rm_scores[i, valid_response_length[i]] = score]; a negative column counts from the end. *)
Definition component_row (m : list bool) (attn : list bool) (prompt_length : nat) (score : R) : result (list R) :=
  let width := length m in
  let col := (Z.of_nat (length (List.filter (λ b : bool, b) (drop prompt_length attn))) - 1)%Z in
  let col := if Z.ltb col 0 then (col + Z.of_nat width)%Z else col in
  require Z.leb 0 col && Z.ltb col (Z.of_nat width) else IndexError "index is out of bounds" ;;
  Ok (<[Z.to_nat col := score]> (replicate width 0)).
Definition component_scores (g : gdpo_inputs) (mask : tensor bool) (key : string) : result (tensor R) :=
  comp ← of_option (AssertionError "GDPO reward key not found in non_tensor_batch.") (assoc_lookup key (non_tensor_batch g));
  require Nat.eqb (length comp) (length mask) && Nat.eqb (length (attention_mask g)) (length mask)
    else RuntimeError "shape mismatch" ;;
  mapM (λ x : R * (list bool * list bool), component_row x.2.1 x.2.2 (prompt_length g) x.1)
    (zip comp (zip mask (attention_mask g))).

Definition compute_gdpo_outcome_advantage (rewards : tensor R) (mask : tensor bool) (index : list K)
    (epsilon : R) (norm : bool) (inputs : option gdpo_inputs) : result (tensor R * tensor R) :=
  score_list ←
    match inputs with
    | None => Ok [rewards]
    | Some g =>
        require negb (Nat.eqb (length (gdpo_reward_keys g)) 0)
          else AssertionError "GDPO requires 'algorithm.gdpo_reward_keys'" ;;
        mapM (component_scores g mask) (gdpo_reward_keys g)
    end;
  let weights := match inputs ≫= gdpo_reward_weights with
                 | Some w => w | None => replicate (length score_list) 1 end in
  sums ← foldM (λ (acc : option (tensor R)) (ki : nat * tensor R),
      '(normalized_score, _) ← compute_grpo_outcome_advantage ki.2 mask index epsilon norm;
      w ← of_option (IndexError "weights") (weights !! ki.1);
      let scaled := tmap (λ x, w * x) normalized_score in
      Ok (Some (match acc with None => scaled | Some a => tzip Rplus a scaled end)))
    None (zip (seq 0 (length score_list)) score_list);
  new_advantage ← of_option (TypeError "new_advantage is None") sums;
  advantages ← masked_whiten new_advantage mask true;
  let advantages := mask_mul advantages mask in
  Ok (advantages, advantages).
End by_group.

(** ** Vectorized GRPO and RLOO *)

Definition compute_grpo_vectorized_outcome_advantage (rewards : tensor R) (mask : tensor bool)
    (index : labels) (epsilon : R) (norm_adv_by_std_in_grpo : bool) : result (tensor R * tensor R) :=
  let scores := row_scores rewards in
  let g := as_torch_index index in
  '(mean_g, std_g, _) ← group_mean_std scores g 0;
  mu ← gather mean_g g;
  sd ← gather std_g g;
  let scalars := zip_with (λ s (ms : R * R), grpo_scalar epsilon norm_adv_by_std_in_grpo s ms.1 ms.2)
                   scores (zip mu sd) in
  let advantages := spread_mask scalars mask in
  Ok (advantages, advantages).

(** [torch.bincount(inv, weights)]: one entry for every value up to the largest. *)
Definition bincount (inv : list Z) (weights : list R) : list R :=
  (λ g, rsum (members (Z.of_nat g) inv weights)) <$> seq 0 (Z.to_nat (group_total inv)).
Definition compute_rloo_vectorized_outcome_advantage {K} `{EqDecision K} (lt : K → K → bool)
    (rewards : tensor R) (mask : tensor bool) (index : list K) : result (tensor R * tensor R) :=
  let scores := row_scores rewards in
  let inv := unique_inverse lt index in
  require Nat.eqb (length inv) (length scores) else RuntimeError "size mismatch" ;;
  c ← gather (bincount inv (replicate (length inv) 1)) inv;
  total ← gather (bincount inv scores) inv;
  let adv := zip_with (λ s (ct : R * R),
      ((ct.1 * s - ct.2) / Rmax (ct.1 - 1) 1) * b2r (Rltb 1 ct.1)) scores (zip c total) in
  let adv := spread_mask adv mask in
  Ok (adv, adv).

(** ** REINFORCE++ and ReMax *)

(** One iteration over [t], right to left: the return of [t], then the reset. *)
Definition rpp_step (gamma : R) (rm : R * bool) (st : R * list R) : R * list R :=
  let running_return := rm.1 + gamma * st.1 in
  (running_return * b2r rm.2, running_return :: st.2).
Definition rpp_row (gamma : R) (rewards : list R) (mask : list bool) : list R :=
  (foldr (rpp_step gamma) (0, []) (zip rewards mask)).2.
Definition compute_reinforce_plus_plus_outcome_advantage (rewards : tensor R) (mask : tensor bool)
    (config : option R) : result (tensor R * tensor R) :=
  gamma ← of_option (AssertionError "") config;
  let returns := zip_with (rpp_row gamma) rewards mask in
  advantages ← masked_whiten returns mask true;
  Ok (mask_mul advantages mask, returns).

(** [x.flip(-1).cumsum(-1).flip(-1)] and [x.cumsum(-1)] *)
Fixpoint to_go (row : list R) : list R :=
  match row with [] => [] | x :: row => (x + rsum row) :: to_go row end.
Fixpoint rcumsum (acc : R) (row : list R) : list R :=
  match row with [] => [] | x :: row => (acc + x) :: rcumsum (acc + x) row end.

Definition compute_remax_outcome_advantage (rewards : tensor R) (reward_baselines : list R)
    (mask : tensor bool) : tensor R * tensor R :=
  let returns := to_go <$> mask_mul rewards mask in
  (tzip Rminus returns (spread_mask reward_baselines mask), returns).

(** ** Token-level rewards with a KL penalty *)

Definition compute_rewards (scores old_log_prob ref_log_prob : tensor R) (kl_ratio : R) : tensor R :=
  let kl := tzip Rminus old_log_prob ref_log_prob in
  tzip (λ s k, s - k * kl_ratio) scores kl.

(** ** Optimal token baselines *)

(** [1 - 2 pi + sum pi^2], scaled by the squared importance weights. *)
Definition path_weights (old_log_probs sum_pi_squared : tensor R) (rollout_is_weights : option (tensor R)) :
    tensor R :=
  let w := tzip (λ lp s, 1 - 2 * exp lp + s) old_log_probs sum_pi_squared in
  match rollout_is_weights with None => w | Some rho => tzip (λ w r, w * r ^ 2) w rho end.

(** [t[traj_idx]] (indices of the batch) and [.sum(dim=0)]. *)
Definition rows_at {A} (traj : list nat) (t : list A) : list A := omap (λ i, t !! i) traj.
Definition col_sums (width : nat) (rows : tensor R) : list R :=
  foldr (zip_with Rplus) (replicate width 0) rows.

Definition count_valid (m : list bool) : nat := length (List.filter (λ b : bool, b) m).

(** The place of the only longest trajectory and the second largest length, if the former
    is strictly longer. *)
Definition positions_of (x : nat) (l : list nat) : list nat :=
  (List.filter (λ p, Nat.eqb p.2 x) (zip (seq 0 (length l)) l)).*1.
Definition unique_longest (lengths : list nat) : option (nat * nat) :=
  match rev (sort_by Nat.ltb lengths) with
  | max_length :: second_max_length :: _ =>
      match positions_of max_length lengths with
      | [p] => if Nat.ltb second_max_length max_length then Some (p, second_max_length) else None
      | _ => None
      end
  | _ => None
  end.
Definition zero_from (k : nat) (row : list R) : list R := take k row ++ replicate (length row - k) 0.

(** Write one baseline to all rows of a group, then zero the tail of the longest. *)
Definition assign_baseline (handle_zero_tail : bool) (lengths : list nat) (baseline : list R)
    (baselines : tensor R) (traj : list nat) : tensor R :=
  let baselines := foldl (λ bs i, <[i := baseline]> bs) baselines traj in
  if handle_zero_tail then
    match unique_longest lengths with
    | Some (p, second) => match traj !! p with Some i => alter (zero_from second) i baselines | None => baselines end
    | None => baselines
    end
  else baselines.

Section otb.
Context {K : Type} `{EqDecision K} (handle_zero_tail : bool) (epsilon : R).

Definition otb_group (returns w_cumulative : tensor R) (mask : tensor bool) (seq_len : nat)
    (baselines : tensor R) (traj : list nat) : tensor R :=
  if Nat.eqb (length traj) 1 then baselines else
  let returns_group := rows_at traj returns in
  let w_group := rows_at traj w_cumulative in
  let mask_group := rows_at traj mask in
  let numerator := col_sums seq_len (mask_mul (tzip Rmult returns_group w_group) mask_group) in
  let denominator := (λ d, d + epsilon) <$> col_sums seq_len (mask_mul w_group mask_group) in
  assign_baseline handle_zero_tail (count_valid <$> mask_group) (zip_with Rdiv numerator denominator) baselines traj.

(** [prompt_groups]: the batch positions of every label. *)
Definition prompt_groups (index : list K) (rows : list nat) : result (list (list nat)) :=
  pairs ← mapM (λ i, k ← of_option (IndexError "index out of bounds") (index !! i); Ok (k, i)) rows;
  Ok (group_by_key pairs).*2.

Definition compute_optimal_token_baseline_advantage (rewards : tensor R) (mask : tensor bool) (index : list K)
    (old_log_probs sum_pi_squared : tensor R) (rollout_is_weights : option (tensor R)) :
    result (tensor R * tensor R) :=
  let batch_size := length rewards in
  let seq_len := match rewards with [] => 0%nat | row :: _ => length row end in
  let returns := to_go <$> mask_mul rewards mask in
  let w_cumulative := rcumsum 0 <$> mask_mul (path_weights old_log_probs sum_pi_squared rollout_is_weights) mask in
  groups ← prompt_groups index (seq 0 batch_size);
  let baselines := foldl (otb_group returns w_cumulative mask seq_len)
      (replicate batch_size (replicate seq_len 0)) groups in
  Ok (mask_mul (tzip Rminus returns baselines) mask, returns).

(** ** The multi-turn version: valid tokens are compacted first *)

Definition pad_zero (width : nat) (row : list R) : list R := row ++ replicate (width - length row) 0.
Definition tir_group (all_returns all_w : tensor R) (lengths : list nat) (width : nat)
    (baselines : tensor R) (traj : list nat) : tensor R :=
  if Nat.eqb (length traj) 1 then baselines else
  let w_group := rows_at traj all_w in
  let r_group := rows_at traj all_returns in
  let b_star := zip_with Rdiv (col_sums width (tzip Rmult r_group w_group))
                  ((λ d, d + epsilon) <$> col_sums width w_group) in
  assign_baseline handle_zero_tail (rows_at traj lengths) b_star baselines traj.

(** [out[i, mask[i]] = values[: length]] on a row of zeros. *)
Fixpoint scatter_row (m : list bool) (values : list R) : list R :=
  match m with
  | [] => []
  | true :: m => match values with v :: values => v :: scatter_row m values | [] => 0 :: scatter_row m [] end
  | false :: m => 0 :: scatter_row m values
  end.

Definition compute_multi_turn_optimal_token_baseline_advantage (rewards : tensor R) (mask : tensor bool)
    (index : list K) (old_log_probs sum_pi_squared : tensor R) (rollout_is_weights : option (tensor R)) :
    result (tensor R * tensor R) :=
  let token_returns := to_go <$> mask_mul rewards mask in
  let w_cumulative := rcumsum 0 <$> mask_mul (path_weights old_log_probs sum_pi_squared rollout_is_weights) mask in
  let response_lengths := count_valid <$> mask in
  let batch_size := length response_lengths in
  let width := foldr Nat.max 0%nat response_lengths in
  let all_w := zip_with (λ m row, pad_zero width (pick m row)) mask w_cumulative in
  let all_returns := zip_with (λ m row, pad_zero width (pick m row)) mask token_returns in
  let nonempty := List.filter (λ i, match response_lengths !! i with Some 0%nat | None => false | _ => true end)
                    (seq 0 batch_size) in
  groups ← prompt_groups index nonempty;
  let baselines := foldl (tir_group all_returns all_w response_lengths width)
      (replicate batch_size (replicate width 0)) groups in
  let all_advantages := tzip Rminus all_returns baselines in
  let advantages := zip_with (λ m (al : list R * nat), scatter_row m (take al.2 al.1))
      mask (zip all_advantages response_lengths) in
  Ok (mask_mul advantages mask, token_returns).
End otb.

(** ** The registry of estimators, by the names of [AdvantageEstimator] *)

Definition adv_estimator_names : list string :=
  ["gae"; "grpo"; "grpo_vectorized"; "gdpo"; "grpo_passk"; "reinforce_plus_plus_baseline"; "rloo"; "opo";
   "reinforce_plus_plus"; "remax"; "gpg"; "rloo_vectorized"; "optimal_token_baseline";
   "tir_optimal_token_baseline"]%string.

(** Registering a second function under a taken name raises; the registry keeps its order. *)
Definition register_adv_est {F} `{EqDecision F} (registry : list (string * F)) (name : string) (fn : F) :
    result (list (string * F)) :=
  match assoc_lookup name registry with
  | Some g => require bool_decide (g = fn) else ValueError "Adv estimator has already been registered" ;; Ok registry
  | None => Ok (registry ++ [(name, fn)])
  end.
Definition get_adv_estimator_fn {F} (registry : list (string * F)) (name : string) : result F :=
  of_option (ValueError "Unknown advantage estimator simply: ") (assoc_lookup name registry).

(** ** Grouping *)

Lemma filter_members {K A} `{EqDecision K} k (idx : list K) (xs : list A) :
  (List.filter (λ ka, bool_decide (ka.1 = k)) (zip idx xs)).*2 = members k idx xs.
Proof. done. Qed.

Lemma assoc_lookup_fmap {K A B} `{EqDecision K} (f : A → B) (d : list (K * A)) k :
  assoc_lookup k ((λ g, (g.1, f g.2)) <$> d) = f <$> assoc_lookup k d.
Proof. induction d as [|[k' a] d IH]; [done|]. csimpl. by case_bool_decide. Qed.

(** Every group of the dict has a member, so a statistic that is defined on non-empty lists
    is found for every value. *)
Lemma with_group_Ok {K A B} `{EqDecision K} (f : list A → result B) (g : list A → B) (idx : list K) xs :
  (∀ l, l ≠ [] → f l = Ok (g l)) →
  with_group f idx xs = Ok (zip_with (λ k x, (x, g (members k idx xs))) idx xs).
Proof.
  intros Hf. unfold with_group.
  assert (Hlook : ∀ k, assoc_lookup k (group_by_key (zip idx xs)) =
      match members k idx xs with [] => None | vs => Some vs end).
  { intros k. apply group_by_key_lookup. }
  rewrite (mapM_Ok_map _ (λ gr : K * list A, (gr.1, g gr.2))).
  2:{ intros [k l] Hin. rewrite Hf; [done|]. cbn [snd]. apply assoc_lookup_elem in Hin; [|apply group_by_key_nodup].
      rewrite Hlook in Hin. destruct (members k idx xs); by simplify_eq. }
  cbn [mbind result_bind]. rewrite (mapM_Ok_map _ (λ kx : K * A, (kx.2, g (members kx.1 idx xs)))).
  { rewrite (zip_with_zip (λ k x, (x, g (members k idx xs)))). f_equal. apply list_fmap_ext. by intros _ [k x] _. }
  intros [k x] Hin. cbn [fst snd]. rewrite assoc_lookup_fmap, Hlook.
  destruct (members k idx xs) as [|y l] eqn:E; [|done]. exfalso.
  assert (Hm : x ∈ members k idx xs); [|rewrite E in Hm; by apply elem_of_nil in Hm].
  apply members_elem. apply list_elem_of_lookup in Hin as [i Hi]. apply lookup_zip_Some in Hi as [? ?]. by exists i.
Qed.

Lemma index_labels_Ok {K} (index : list K) n idx :
  index_labels index n = Ok idx ↔ (n <= length index)%nat ∧ idx = take n index.
Proof.
  unfold index_labels. destruct (Nat.leb_spec n (length index)); split.
  - by intros [= <-].
  - by intros [_ ->].
  - done.
  - intros [? _]. lia.
Qed.

(** ** GRPO *)

Lemma grpo_closed {K} `{EqDecision K} rewards mask (index : list K) eps norm :
  (length rewards <= length index)%nat →
  let scores := row_scores rewards in
  let idx := take (length scores) index in
  let adv := zip_with (λ k s, let l := members k idx scores in
      grpo_scalar eps norm s (stat_mean l) (stat_std l)) idx scores in
  compute_grpo_outcome_advantage rewards mask index eps norm = Ok (spread_mask adv mask, spread_mask adv mask).
Proof.
  intros Hlen scores idx adv. unfold compute_grpo_outcome_advantage. fold scores.
  assert (Hi : index_labels index (length scores) = Ok idx).
  { apply index_labels_Ok. split; [|done]. unfold scores, row_scores. by rewrite length_fmap. }
  rewrite Hi. cbn [mbind result_bind].
  rewrite (with_group_Ok _ (λ l, (stat_mean l, stat_std l))) by (by intros [|? [|? ?]]).
  cbn [mbind result_bind]. by rewrite fmap_zip_with.
Qed.

Lemma zip_with_stats {K A B C D} (F : A → B * C → D) (f : K → B) (g : K → C) xs l :
  zip_with F xs (zip (f <$> l) (g <$> l)) = zip_with (λ k s, F s (f k, g k)) l xs.
Proof. revert l. induction xs as [|x xs IH]; intros [|k l]; csimpl; [done..|]. by rewrite IH. Qed.

Lemma spread_pair_ext X Y mask :
  X = Y → Ok (spread_mask X mask, spread_mask X mask) = Ok (spread_mask Y mask, spread_mask Y mask).
Proof. by intros ->. Qed.

(** Statistics gathered by index are statistics of the label's group. *)
Lemma members_of_index {K A} `{EqDecision K} (idx : list K) (gidx : list Z) (scores : list A) i k z :
  same_classes idx gidx → idx !! i = Some k → gidx !! i = Some z →
  members z gidx scores = members k idx scores.
Proof.
  intros Hs Hk Hz. symmetry. apply members_same_classes. by apply (same_classes_at _ _ i).
Qed.

Lemma same_classes_stat {K B} `{EqDecision K} (idx : list K) (gidx : list Z) scores (stat : list R → B) :
  same_classes idx gidx →
  (λ z, stat (members z gidx scores)) <$> gidx = (λ k, stat (members k idx scores)) <$> idx.
Proof.
  intros Hs. apply list_eq_same_length with (n := length idx).
  - by rewrite length_fmap.
  - rewrite length_fmap. destruct Hs as [-> _]. done.
  - intros i x y Hi. rewrite !list_lookup_fmap.
    destruct (lookup_lt_is_Some_2 idx i Hi) as [k Hk]. destruct (gidx !! i) as [z|] eqn:Hz; [|done].
    rewrite Hk. simpl. intros [= <-] [= <-]. by rewrite (members_of_index _ _ _ _ _ _ Hs Hk Hz).
Qed.

(** Grouping is faithful and the two GRPO implementations agree.  If the prompt labels
    are strings that are not all integers (uids), the index tensor puts two samples in one
    group exactly when their labels are equal; then [grpo_vectorized] returns what [grpo]
    returns: on every response token the score minus the mean of the prompt's scores (0 for
    a prompt sampled once), divided by their Bessel-corrected deviation (1 for a prompt
    sampled once) plus epsilon, and zero under the mask. *)
Theorem grpo_vectorized_agrees (rewards : tensor R) (mask : tensor bool) (uids : list string)
    (epsilon : R) (norm : bool) :
  length uids = length rewards → uncoercible uids →
  same_classes uids (as_torch_index (StrLabels uids)) ∧
  compute_grpo_vectorized_outcome_advantage rewards mask (StrLabels uids) epsilon norm =
    compute_grpo_outcome_advantage rewards mask uids epsilon norm ∧
  ∃ adv, compute_grpo_outcome_advantage rewards mask uids epsilon norm = Ok (adv, adv) ∧
    ∀ i j b uid score, tget mask i j = Some b → uids !! i = Some uid → row_scores rewards !! i = Some score →
      let group := members uid uids (row_scores rewards) in
      tget adv i j = Some (if b then grpo_scalar epsilon norm score (stat_mean group) (stat_std group) else 0).
Proof.
  intros Hlen Hun. destruct (as_torch_index_strings uids Hun) as [Hsame Hb].
  set (scores := row_scores rewards). assert (Hls : length scores = length uids).
  { unfold scores, row_scores. by rewrite length_fmap. }
  pose proof (grpo_closed rewards mask uids epsilon norm) as Hg. cbv zeta in Hg. fold scores in Hg.
  rewrite (take_ge uids) in Hg by (rewrite Hls; done). specialize (Hg ltac:(lia)).
  split; [done|]. split.
  - rewrite Hg. unfold compute_grpo_vectorized_outcome_advantage. fold scores.
    set (gidx := as_torch_index (StrLabels uids)) in *.
    destruct (group_mean_std_groups scores gidx) as (m & s & c & Hr & Hm & Hs);
      [rewrite Hls; apply Hsame | eapply Forall_impl; [exact Hb|]; intros z Hz; cbn in *; lia |].
    rewrite Hr. cbn [mbind result_bind]. rewrite Hm, Hs. cbn [mbind result_bind].
    rewrite (same_classes_stat _ _ scores stat_mean Hsame), (same_classes_stat _ _ scores stat_std Hsame).
    by rewrite zip_with_stats.
  - eexists. split; [exact Hg|]. intros i j b uid score Hm Hu Hsc. cbv zeta.
    unfold tget in *. unfold spread_mask. rewrite lookup_zip_with, lookup_zip_with, Hu, Hsc.
    destruct (mask !! i) as [row|]; [|done]. simpl in *. rewrite list_lookup_fmap, Hm. simpl. f_equal.
    destruct b; unfold b2r; lra.
Qed.

Lemma grpo_vectorized_agrees_witness :
  let uids := ["a-1"; "b"; "a-1"]%string in
  ∃ adv, compute_grpo_vectorized_outcome_advantage [[1]; [2]; [3]] [[true]; [true]; [false]]
      (StrLabels uids) (1 / 10 ^ 6) false = Ok (adv, adv) ∧ tget adv 0 0 = Some (-1) ∧ tget adv 2 0 = Some 0.
Proof.
  intros uids.
  destruct (grpo_vectorized_agrees [[1]; [2]; [3]] [[true]; [true]; [false]] uids (1 / 10 ^ 6) false)
    as (_ & Heq & adv & Hadv & Hget); [reflexivity|reflexivity|].
  exists adv. rewrite Heq. split; [exact Hadv|]. split.
  - rewrite (Hget 0%nat 0%nat true "a-1"%string (1 + 0)) by reflexivity. cbn. unfold stat_mean, mean. simpl. f_equal. lra.
  - by rewrite (Hget 2%nat 0%nat false "a-1"%string (3 + 0)) by reflexivity.
Defined.

(** Any two float labels that are not near-integers fall into one group when they have the
    same integer part. *)
Lemma float_labels_merged : as_torch_index (FloatLabels [(2 # 10); (7 # 10)]%Q) = [0; 0]%Z.
Proof. reflexivity. Qed.

(** ** RLOO *)

(** The score minus the mean of the other scores of its prompt. *)
Definition leave_one_out (alone : R → R) (group : list R) (score : R) : R :=
  if Nat.ltb 1 (length group) then score - (rsum group - score) / (INR (length group) - 1) else alone score.

Lemma leave_one_out_scalar s l :
  (if Nat.ltb 1 (length l)
   then s * INR (length l) / (INR (length l) - 1) - stat_mean l * INR (length l) / (INR (length l) - 1)
   else s) = leave_one_out id l s.
Proof.
  unfold leave_one_out. destruct (Nat.ltb_spec 1 (length l)) as [Hl|Hl]; [|done].
  assert (Hm : stat_mean l = mean l) by (destruct l as [|? [|? ?]]; [done|simpl in Hl; lia|done]).
  rewrite Hm. unfold mean. apply lt_INR in Hl. simpl in Hl. field. lra.
Qed.

Lemma leave_one_out_vector s l :
  (INR (length l) * s - rsum l) / Rmax (INR (length l) - 1) 1 * b2r (Rltb 1 (INR (length l))) =
  leave_one_out (λ _, 0) l s.
Proof.
  unfold leave_one_out. destruct (Nat.ltb_spec 1 (length l)) as [Hl|Hl].
  - assert (H2 : 2 <= INR (length l)) by (apply (le_INR 2); lia).
    rewrite (proj2 (Rltb_spec _ _)) by lra. rewrite Rmax_left by lra. unfold b2r. field. lra.
  - assert (Hn : Rltb 1 (INR (length l)) = false).
    { apply not_true_iff_false. rewrite Rltb_spec. apply (le_INR _ 1) in Hl. simpl in Hl. lra. }
    rewrite Hn. unfold b2r. lra.
Qed.

Lemma unique_inverse_classes {K} `{EqDecision K} (lt : K → K → bool) (index : list K) :
  same_classes index (unique_inverse lt index) ∧ Forall (λ z, 0 <= z)%Z (unique_inverse lt index).
Proof.
  destruct (unique_inverse_spec lt index) as [Hb Hsep]. split.
  - split; [unfold unique_inverse; by rewrite length_fmap|exact Hsep].
  - eapply Forall2_Forall_r; [exact Hb|]. apply Forall_true. intros x z Hz. cbn in Hz. lia.
Qed.

Lemma bincount_gather {K} `{EqDecision K} (idx : list K) (gidx : list Z) (src : list R) :
  same_classes idx gidx → Forall (λ z, 0 <= z)%Z gidx →
  gather (bincount gidx src) gidx = Ok ((λ k, rsum (members k idx src)) <$> idx).
Proof.
  intros Hs Hpos. rewrite (gather_Ok (λ g, rsum (members g gidx src)) _ gidx (Z.to_nat (group_total gidx))).
  - f_equal. apply (same_classes_stat idx gidx src rsum Hs).
  - done.
  - apply Forall_forall. intros z Hz. rewrite Forall_forall in Hpos. specialize (Hpos z Hz).
    pose proof (group_total_bound gidx z Hz). cbn in *. lia.
Qed.

(** RLOO uses the leave-one-out baseline.  [rloo] and [rloo_vectorized] succeed, and on
    every response token of a prompt with at least two samples both give the score minus
    the mean of the other samples' scores.  They differ for a prompt sampled once: [rloo]
    keeps the raw score, [rloo_vectorized] gives 0. *)
Theorem rloo_leave_one_out {K} `{EqDecision K} (lt : K → K → bool) (rewards : tensor R) (mask : tensor bool)
    (index : list K) :
  length index = length rewards →
  ∃ adv vec,
    compute_rloo_outcome_advantage rewards mask index = Ok (adv, adv) ∧
    compute_rloo_vectorized_outcome_advantage lt rewards mask index = Ok (vec, vec) ∧
    ∀ i j b k score, tget mask i j = Some b → index !! i = Some k → row_scores rewards !! i = Some score →
      let group := members k index (row_scores rewards) in
      tget adv i j = Some (leave_one_out id group score * b2r b) ∧
      tget vec i j = Some (leave_one_out (λ _, 0) group score * b2r b).
Proof.
  intros Hlen. set (scores := row_scores rewards). assert (Hls : length scores = length index).
  { unfold scores, row_scores. by rewrite length_fmap. }
  exists (spread_mask (zip_with (λ k s, leave_one_out id (members k index scores) s) index scores) mask),
    (spread_mask (zip_with (λ k s, leave_one_out (λ _, 0) (members k index scores) s) index scores) mask).
  split; [|split].
  - unfold compute_rloo_outcome_advantage. fold scores.
    assert (Hi : index_labels index (length scores) = Ok index).
    { apply index_labels_Ok. split; [lia|]. by rewrite take_ge by lia. }
    rewrite Hi. cbn [mbind result_bind].
    rewrite (with_group_Ok _ (λ l, (stat_mean l, length l))) by (by intros [|? [|? ?]]).
    cbn [mbind result_bind]. rewrite fmap_zip_with.
    apply spread_pair_ext, zip_with_ext; [|done..]. intros k s. apply leave_one_out_scalar.
  - unfold compute_rloo_vectorized_outcome_advantage. fold scores.
    destruct (unique_inverse_classes lt index) as [Hsame Hpos].
    assert (Hli : length (unique_inverse lt index) = length scores) by (destruct Hsame as [<- _]; done).
    rewrite Hli, Nat.eqb_refl. rewrite !(bincount_gather index) by done. cbn [mbind result_bind].
    rewrite zip_with_stats.
    apply spread_pair_ext, zip_with_ext; [|done..]. intros k s. cbn [fst snd].
    rewrite members_replicate, rsum_repeat_1 by done. apply leave_one_out_vector.
  - intros i j b k score Hm Hk Hsc. cbv zeta. fold scores. unfold tget in *. unfold spread_mask.
    rewrite !lookup_zip_with, Hk, Hsc. destruct (mask !! i) as [row|]; [|done]. simpl in *.
    by rewrite !list_lookup_fmap, Hm.
Qed.

Lemma rloo_leave_one_out_witness :
  ∃ adv vec,
    compute_rloo_outcome_advantage [[1]; [5]; [4]] [[true]; [true]; [true]] ["p"; "p"; "q"]%string = Ok (adv, adv) ∧
    compute_rloo_vectorized_outcome_advantage String.ltb [[1]; [5]; [4]] [[true]; [true]; [true]]
      ["p"; "p"; "q"]%string = Ok (vec, vec) ∧
    tget adv 0 0 = Some (-4) ∧ tget vec 0 0 = Some (-4) ∧ tget adv 2 0 = Some 4 ∧ tget vec 2 0 = Some 0.
Proof.
  destruct (rloo_leave_one_out String.ltb [[1]; [5]; [4]] [[true]; [true]; [true]] ["p"; "p"; "q"]%string)
    as (adv & vec & Ha & Hv & H); [reflexivity|].
  exists adv, vec. split; [exact Ha|]. split; [exact Hv|].
  destruct (H 0%nat 0%nat true "p"%string (1 + 0)) as [H1 H2]; [reflexivity..|].
  destruct (H 2%nat 0%nat true "q"%string (4 + 0)) as [H3 H4]; [reflexivity..|].
  rewrite H1, H2, H3, H4. unfold leave_one_out, b2r, id. simpl.
  repeat split; f_equal; lra.
Defined.

(** ** GAE *)

(** The textbook definition on the valid tokens of a row. *)
Fixpoint td_errors (gamma : R) (rs vs : list R) : list R :=
  match rs, vs with
  | r :: rs, v :: vs => (r + gamma * default 0 (head vs) - v) :: td_errors gamma rs vs
  | _, _ => []
  end.
Definition discounted_sum (c : R) (l : list R) : R := rsum (imap (λ k x, c ^ k * x) l).
Definition tail_sums (c : R) (l : list R) : list R := (λ i, discounted_sum c (drop i l)) <$> seq 0 (length l).
Definition gae_reference (gamma lam : R) (rs vs : list R) : list R :=
  tail_sums (gamma * lam) (td_errors gamma rs vs).

Lemma discounted_sum_cons c x l : discounted_sum c (x :: l) = x + c * discounted_sum c l.
Proof.
  unfold discounted_sum. rewrite imap_cons, rsum_cons. simpl. rewrite Rmult_1_l. f_equal.
  rewrite <-rsum_scale, fmap_imap. f_equal. apply imap_ext. intros i y _. simpl. ring.
Qed.
Lemma tail_sums_cons c x l : tail_sums c (x :: l) = discounted_sum c (x :: l) :: tail_sums c l.
Proof.
  unfold tail_sums. cbn [length seq fmap list_fmap drop]. f_equal.
  rewrite <-fmap_S_seq, <-list_fmap_compose. done.
Qed.
Lemma length_td_errors gamma rs vs : length rs = length vs → length (td_errors gamma rs vs) = length rs.
Proof. revert vs. induction rs as [|r rs IH]; intros [|v vs] [=]; simpl; [done|]. by rewrite IH. Qed.
Lemma length_tail_sums c l : length (tail_sums c l) = length l.
Proof. unfold tail_sums. by rewrite length_fmap, length_seq. Qed.

(** The loop invariant: masked tokens change neither the next value nor the running sum. *)
Lemma gae_loop gamma lam rs vs m :
  length rs = length m → length vs = length m →
  let rs' := pick m rs in
  let vs' := pick m vs in
  let '(nextvalue, lastgaelam, advs) := foldr (gae_step gamma lam) (0, 0, []) (zip (zip rs vs) m) in
  nextvalue = default 0 (head vs') ∧
  lastgaelam = discounted_sum (gamma * lam) (td_errors gamma rs' vs') ∧
  length advs = length m ∧ pick m advs = gae_reference gamma lam rs' vs'.
Proof.
  revert rs vs. induction m as [|b m IH]; intros [|r rs] [|v vs] Hr Hv; try done.
  injection Hr as Hr. injection Hv as Hv. specialize (IH rs vs Hr Hv). cbv zeta in IH |- *.
  cbn [zip zip_with foldr]. destruct (foldr _ _ _) as [[nv lg] advs]. destruct IH as (-> & -> & Hlen & Hpick).
  destruct b; cbn [gae_step pick b2r]; cbv zeta; unfold gae_reference; cbn [td_errors head].
  - rewrite discounted_sum_cons, tail_sums_cons, discounted_sum_cons. simpl. rewrite Hlen, Hpick.
    split_and!; [ring|ring|done|]. f_equal. ring.
  - simpl. rewrite Hlen, Hpick. split_and!; [ring|ring|done|done].
Qed.

Lemma gae_row_reference gamma lam rs vs m :
  length rs = length m → length vs = length m →
  length (gae_row gamma lam rs vs m) = length m ∧
  pick m (gae_row gamma lam rs vs m) = gae_reference gamma lam (pick m rs) (pick m vs).
Proof.
  intros Hr Hv. pose proof (gae_loop gamma lam rs vs m Hr Hv) as H. cbv zeta in H. unfold gae_row.
  destruct (foldr _ _ _) as [[nv lg] advs]. naive_solver.
Qed.

Lemma pick_zip_with {A B C} (f : A → B → C) m l k :
  length l = length k → pick m (zip_with f l k) = zip_with f (pick m l) (pick m k).
Proof.
  revert l k. induction m as [|b m IH]; intros [|x l] [|y k] [=]; csimpl; try done.
  destruct b; csimpl; by rewrite IH.
Qed.

(** For [lam = 1] the advantage telescopes to the discounted rewards minus the value. *)
Lemma gae_lambda_1 gamma rs vs : length rs = length vs →
  zip_with Rplus (gae_reference gamma 1 rs vs) vs = tail_sums gamma rs.
Proof.
  unfold gae_reference. rewrite Rmult_1_r. revert vs.
  assert (Hsum : ∀ rs vs, length rs = length vs →
    discounted_sum gamma (td_errors gamma rs vs) + default 0 (head vs) = discounted_sum gamma rs).
  { clear. induction rs as [|r rs IH]; intros [|v vs] Hl; try done; [unfold discounted_sum; simpl; lra|].
    injection Hl as Hl. specialize (IH vs Hl). cbn [td_errors head default]. rewrite !discounted_sum_cons. simpl.
    rewrite <-IH. ring. }
  induction rs as [|r rs IH]; intros [|v vs] Hl; try done.
  cbn [td_errors]. rewrite !tail_sums_cons. injection Hl as Hl. cbn [zip_with]. rewrite IH by done. f_equal.
  apply (Hsum (r :: rs) (v :: vs)). simpl. lia.
Qed.

Lemma zip_rows {A B C D} (f : A → B → C → D) t u m i :
  zip_with (λ (tu : A * B) c, f tu.1 tu.2 c) (zip t u) m !! i =
    a ← t !! i; b ← u !! i; c ← m !! i; Some (f a b c).
Proof.
  rewrite !lookup_zip_with. destruct (t !! i); [|done]. simpl. destruct (u !! i); [|done]. simpl.
  by destruct (m !! i).
Qed.

Lemma same_shape_lookup {A B} (t : tensor A) (u : tensor B) i r :
  same_shape t u → t !! i = Some r → ∃ s, u !! i = Some s ∧ length r = length s.
Proof. intros H Hr. destruct (Forall2_lookup_l _ _ _ _ _ H Hr) as (s & ? & ?). by exists s. Qed.

(** C4: GAE skips what the policy did not write.  With more than one response token in the
    batch, the returns of the response tokens of a row are advantage plus value, where the
    advantage is the textbook estimator [sum_l (gamma lam)^l delta_(t+l)] computed as if the
    masked tokens (tool observations, padding) were not there; for [lam = 1] they are the
    discounted rewards to go.  The returned advantages are one increasing affine map (the
    whitening) of these estimators. *)
Theorem gae_matches_reference (rewards values : tensor R) (mask : tensor bool) (gamma lam : R) :
  same_shape mask rewards → same_shape mask values → 1 < mask_count mask →
  ∃ advantages returns mu s, 0 < s ∧
    compute_gae_advantage_return rewards values mask gamma lam = Ok (advantages, returns) ∧
    ∀ i m rs vs, mask !! i = Some m → rewards !! i = Some rs → values !! i = Some vs →
      let reference := gae_reference gamma lam (pick m rs) (pick m vs) in
      (pick m <$> returns !! i) = Some (zip_with Rplus reference (pick m vs)) ∧
      (pick m <$> advantages !! i) = Some ((λ a, (a - mu) * s) <$> reference) ∧
      (lam = 1 → pick m <$> returns !! i = Some (tail_sums gamma (pick m rs))).
Proof.
  intros Hsr Hsv Hgt. unfold compute_gae_advantage_return.
  set (adv := zip_with _ (zip rewards values) mask).
  assert (Hrow : ∀ i m rs vs, mask !! i = Some m → rewards !! i = Some rs → values !! i = Some vs →
    length rs = length m ∧ length vs = length m ∧ adv !! i = Some (gae_row gamma lam rs vs m)).
  { intros i m rs vs Hm Hr Hv. unfold adv. rewrite zip_rows, Hm, Hr, Hv.
    destruct (same_shape_lookup _ _ _ _ Hsr Hm) as (? & Hr' & ?). destruct (same_shape_lookup _ _ _ _ Hsv Hm) as (? & Hv' & ?).
    simplify_eq. done. }
  assert (Hshape : same_shape mask adv).
  { apply Forall2_same_length_lookup. split.
    - unfold adv. rewrite !length_zip_with. apply Forall2_length in Hsr. apply Forall2_length in Hsv. lia.
    - intros i m a Hm Ha. destruct (same_shape_lookup _ _ _ _ Hsr Hm) as (rs & Hr & _).
      destruct (same_shape_lookup _ _ _ _ Hsv Hm) as (vs & Hv & _).
      destruct (Hrow i m rs vs Hm Hr Hv) as (Hlr & Hlv & Ha'). rewrite Ha in Ha'. injection Ha' as ->.
      symmetry. by apply gae_row_reference. }
  pose proof (masked_whiten_spec adv mask Hshape) as H. cbv zeta in H.
  assert (Hreq : Reqb (mask_count mask) 0 || Reqb (mask_count mask) 1 = false).
  { unfold Reqb. destruct (Req_EM_T _ 0), (Req_EM_T _ 1); try lra; done. }
  rewrite Hreq in H. destruct H as (s & Hs & Hw & _).
  exists (tmap (λ v, (v - masked_mean adv mask) * s) adv), (tzip Rplus adv values), (masked_mean adv mask), s.
  split; [done|]. split; [by rewrite Hw|]. intros i m rs vs Hm Hr Hv.
  destruct (Hrow i m rs vs Hm Hr Hv) as (Hlr & Hlv & Ha).
  destruct (gae_row_reference gamma lam rs vs m Hlr Hlv) as [Hl Hp]. cbv zeta.
  assert (Hret : pick m <$> tzip Rplus adv values !! i =
    Some (zip_with Rplus (gae_reference gamma lam (pick m rs) (pick m vs)) (pick m vs))).
  { unfold tzip. rewrite lookup_zip_with, Ha, Hv. simpl. rewrite pick_zip_with by lia. by rewrite Hp. }
  split; [done|]. split.
  - unfold tmap. rewrite list_lookup_fmap, Ha. simpl. by rewrite pick_fmap, Hp.
  - intros ->. rewrite Hret. f_equal. apply gae_lambda_1.
    apply INR_eq. rewrite <-!row_count_pick by done. done.
Qed.

(** A tool observation between two generated tokens. *)
Lemma gae_matches_reference_witness :
  ∃ adv ret row, compute_gae_advantage_return [[0; 5; 1]] [[1; 9; 2]] [[true; false; true]] 1 1 = Ok (adv, ret) ∧
    ret !! 0%nat = Some row ∧ pick [true; false; true] row = [1; 1].
Proof.
  destruct (gae_matches_reference [[0; 5; 1]] [[1; 9; 2]] [[true; false; true]] 1 1)
    as (adv & ret & mu & s & _ & Hrun & Hrows); [repeat constructor..| |].
  { unfold mask_count, row_count. simpl. lra. }
  destruct (Hrows 0%nat [true; false; true] [0; 5; 1] [1; 9; 2]) as (_ & _ & H1); [reflexivity..|].
  specialize (H1 eq_refl). destruct (ret !! 0%nat) as [row|] eqn:E; [|discriminate H1].
  exists adv, ret, row. split; [exact Hrun|]. split; [exact E|]. apply (inj Some) in H1. rewrite H1.
  unfold tail_sums, discounted_sum. simpl. repeat f_equal; lra.
Defined.

(** ** REINFORCE++: the reset at a masked token cuts the return of earlier turns *)

(** The rewards of the unbroken run of valid tokens a row starts with. *)
Fixpoint while_valid (m : list bool) (rs : list R) : list R :=
  match m, rs with
  | true :: m, r :: rs => r :: while_valid m rs
  | _, _ => []
  end.
Lemma rpp_loop gamma rs m :
  length rs = length m →
  (foldr (rpp_step gamma) (0, []) (zip rs m)).1 = discounted_sum gamma (while_valid m rs) ∧
  length (rpp_row gamma rs m) = length m ∧
  ∀ i, m !! i = Some true →
    rpp_row gamma rs m !! i = Some (discounted_sum gamma (while_valid (drop i m) (drop i rs))).
Proof.
  unfold rpp_row. revert rs. induction m as [|b m IH]; intros [|r rs] Hl; try done.
  injection Hl as Hl. destruct (IH rs Hl) as (H1 & H2 & H3). cbn [zip zip_with foldr].
  destruct (foldr (rpp_step gamma) (0, []) (zip rs m)) as [run rets]. cbn [fst snd rpp_step] in *. subst run.
  split_and!.
  - destruct b; cbn [while_valid b2r]; [rewrite discounted_sum_cons; lra|]. unfold discounted_sum. simpl. lra.
  - simpl. by rewrite H2.
  - intros [|i] Hi; simpl in Hi; [|by apply H3]. injection Hi as ->. cbn [drop while_valid lookup list_lookup].
    by rewrite discounted_sum_cons.
Qed.
