(* ===== verification/PolicyLoss.v ===== *)
(** * Loss aggregation and policy losses: [src/verl/trainer/ppo/core_algos.py], second half

    Inputs are finite tensors of reals, log probabilities are at most 0, and a batch has at
    least one row; a loss that a division by zero would make NaN or infinite is [NonFin].
    [detach] changes gradients, not values, and is the identity here.  [torch.randperm] and
    [torch.topk] are parameters of the two covariance losses.  The assertions on the class
    of the configuration are not modelled: callers pass an [ActorConfig]. *)

From S2P Require Import Prelude GroupBy Rlsd TorchFunctional.
From Stdlib Require Import Reals Lra.
Local Open Scope R_scope.
Local Open Scope py_scope.

(** ** Configuration *)

(** [global_batch_info]: absent keys take [agg_loss]'s defaults. *)
Record batch_info := {
  dp_size : nat; batch_num_tokens : option nat; global_batch_size : option nat; loss_scale_factor : option nat }.
Definition no_batch_info : batch_info :=
  {| dp_size := 1; batch_num_tokens := None; global_batch_size := None; loss_scale_factor := None |}.

Record PolicyLossConfig := {
  loss_mode : string;
  clip_cov_ratio : option R; clip_cov_lb : option R; clip_cov_ub : option R;
  kl_cov_ratio : option R; ppo_kl_coef : option R;
  rlsd_enabled : bool; rlsd_lambda : R; rlsd_reweight_clip_range : R; rlsd_negative_only : bool;
  rlsd_delta_student_logp_source : string; opd_pg_enabled : bool; opd_logratio_clip_abs : R }.

Record ActorConfig := {
  clip_ratio : R; clip_ratio_low : option R; clip_ratio_high : option R; clip_ratio_c : option R;
  tau_pos : R; tau_neg : R; loss_agg_mode : string; cfg_loss_scale_factor : option nat;
  entropy_coeff : R; use_kl_loss : bool; kl_loss_coef : R; kl_loss_type : string;
  policy_loss : PolicyLossConfig; global_batch_info : batch_info }.

Definition cliprange_low (c : ActorConfig) : R := default (clip_ratio c) (clip_ratio_low c).
Definition cliprange_high (c : ActorConfig) : R := default (clip_ratio c) (clip_ratio_high c).

(** ** [agg_loss] *)

Definition tensor_width {A} (t : tensor A) : nat := match t with [] => 0%nat | row :: _ => length row end.

(** The divisor given by the caller, or the local count when there is one shard. *)
Definition divisor (given : option nat) (dp_size : nat) (msg : string) (local : R) : result R :=
  match given with
  | Some n => Ok (INR n)
  | None => require negb (Nat.ltb 1 dp_size) else ValueError msg ;; Ok local
  end.

Definition seq_sums (loss_mat : tensor R) (loss_mask : tensor bool) : list R := rsum <$> mask_mul loss_mat loss_mask.
Definition seq_valid (loss_mask : tensor bool) : list bool := (λ m, Rltb 0 (row_count m)) <$> loss_mask.

Definition seq_mean (seq_losses : list R) (loss_mask : tensor bool) (info : batch_info) : result fnum :=
  let seq_mask := seq_valid loss_mask in
  n ← divisor (global_batch_size info) (dp_size info) "global_batch_size is required when dp_size > 1" (row_count seq_mask);
  Ok (f1 (λ x, x * INR (dp_size info)) (fdiv (row_masked_sum seq_losses seq_mask) n)).

Definition agg_loss (loss_mat : tensor R) (loss_mask : tensor bool) (loss_agg_mode : string) (info : batch_info) :
    result fnum :=
  if bool_decide (loss_agg_mode = "token-mean"%string) then
    n ← divisor (batch_num_tokens info) (dp_size info) "(global) batch_num_tokens is required when dp_size > 1"
          (mask_count loss_mask);
    Ok (f1 (λ x, x * INR (dp_size info)) (fdiv (masked_sum loss_mat loss_mask) n))
  else if bool_decide (loss_agg_mode ∈ ["seq-mean-token-sum"; "seq-mean-token-sum-norm"]%string) then
    loss ← seq_mean (seq_sums loss_mat loss_mask) loss_mask info;
    if bool_decide (loss_agg_mode = "seq-mean-token-sum-norm"%string) then
      let factor := INR (default (tensor_width loss_mask) (loss_scale_factor info)) in
      Ok (match loss with Fin x => fdiv x factor | NonFin => NonFin end)
    else Ok loss
  else if bool_decide (loss_agg_mode = "seq-mean-token-mean"%string) then
    let seq_losses := zip_with (λ s m, s / (row_count m + 1 / 10 ^ 8)) (seq_sums loss_mat loss_mask) loss_mask in
    seq_mean seq_losses loss_mask info
  else Raise (ValueError ("Invalid loss_agg_mode: " +:+ loss_agg_mode)).

(** ** Shared steps of the policy losses *)

Definition negative_approx_kl (log_prob old_log_prob : tensor R) : tensor R :=
  tmap (rclamp (-20) 20) (tzip Rminus log_prob old_log_prob).
Definition neg_mul (advantages t : tensor R) : tensor R := tzip (λ a x, - a * x) advantages t.
Definition with_weights (pg_losses : tensor R) (rollout_is_weights : option (tensor R)) : tensor R :=
  match rollout_is_weights with Some w => tzip Rmult pg_losses w | None => pg_losses end.
Definition mean_of_bools (t : tensor bool) (mask : tensor bool) : R := masked_mean (tmap b2r t) mask.
Definition metric_list := list (string * R).

(** The PPO surrogate of a ratio: [max(-A r, -A clip(r))]. *)
Definition clipped_losses (c : ActorConfig) (advantages ratio : tensor R) : tensor R * tensor R * tensor R :=
  let pg_losses1 := neg_mul advantages ratio in
  let pg_losses2 := neg_mul advantages (tmap (rclamp (1 - cliprange_low c) (1 + cliprange_high c)) ratio) in
  (pg_losses1, pg_losses2, tzip Rmax pg_losses1 pg_losses2).

(** ** [vanilla] *)

Definition vanilla_losses (c : ActorConfig) (old_log_prob log_prob advantages : tensor R)
    (rollout_is_weights : option (tensor R)) : tensor R :=
  let ratio := tmap exp (negative_approx_kl log_prob old_log_prob) in
  let '(_, _, clip_pg_losses1) := clipped_losses c advantages ratio in
  let pg_losses3 := tmap (λ a, - a * default 3 (clip_ratio_c c)) advantages in
  let clip_pg_losses2 := tzip Rmin pg_losses3 clip_pg_losses1 in
  let pg_losses := tzip (λ a (l : R * R), if Rltb a 0 then l.2 else l.1) advantages
                     (tzip pair clip_pg_losses1 clip_pg_losses2) in
  with_weights pg_losses rollout_is_weights.

Definition policy_loss_fn := tensor R → tensor R → tensor R → tensor bool → string → ActorConfig →
  option (tensor R) → result (fnum * metric_list).

Definition compute_policy_loss_vanilla : policy_loss_fn :=
  λ old_log_prob log_prob advantages response_mask loss_agg_mode c rollout_is_weights,
  let bound := default 3 (clip_ratio_c c) in
  require Rltb 1 bound
    else AssertionError "The lower bound of the clip_ratio_c for dual-clip PPO should be greater than 1.0" ;;
  let kl := negative_approx_kl log_prob old_log_prob in
  let '(pg_losses1, pg_losses2, clip_pg_losses1) := clipped_losses c advantages (tmap exp kl) in
  let pg_clipfrac := mean_of_bools (tzip Rltb pg_losses1 pg_losses2) response_mask in
  let pg_losses3 := tmap (λ a, - a * bound) advantages in
  let pg_clipfrac_lower := masked_mean
      (tzip (λ b a, b2r b * b2r (Rltb a 0)) (tzip Rltb pg_losses3 clip_pg_losses1) advantages) response_mask in
  let pg_losses := vanilla_losses c old_log_prob log_prob advantages rollout_is_weights in
  pg_loss ← agg_loss pg_losses response_mask loss_agg_mode (global_batch_info c);
  Ok (pg_loss, [("actor/pg_clipfrac", pg_clipfrac); ("actor/ppo_kl", masked_mean (tmap Ropp kl) response_mask);
                ("actor/pg_clipfrac_lower", pg_clipfrac_lower)]%string).

(** ** [dppo_tv] and [dppo_kl]: a token counts while its probability has not moved too far *)

Definition truncated_ratio (c : ActorConfig) (log_prob old_log_prob : tensor R) : tensor R :=
  tmap (λ kl, Rmin (exp kl) (default 20 (clip_ratio_c c))) (negative_approx_kl log_prob old_log_prob).
Definition tv_valid (c : ActorConfig) (old lp a : R) : bool :=
  if Rltb 0 a then Rleb (exp lp - exp old) (cliprange_high c) else Rleb (- cliprange_low c) (exp lp - exp old).
Definition binary_kl (old lp : R) : R :=
  exp old * (old - lp) + (1 - exp old) * ln ((1 - exp old + 1 / 10 ^ 8) / (1 - exp lp + 1 / 10 ^ 8)).
Definition kl_valid (c : ActorConfig) (old lp a : R) : bool :=
  if Rltb 0 a then Rleb (binary_kl old lp) (cliprange_high c) || Rleb (exp lp) (exp old)
  else Rleb (binary_kl old lp) (cliprange_low c) || Rleb (exp old) (exp lp).

Definition dppo_mask (valid : R → R → R → bool) (old_log_prob log_prob advantages : tensor R) : tensor bool :=
  tzip (λ (ol : R * R) a, valid ol.1 ol.2 a) (tzip pair old_log_prob log_prob) advantages.
Definition dppo_losses (valid : R → R → R → bool) (c : ActorConfig) (old_log_prob log_prob advantages : tensor R)
    (rollout_is_weights : option (tensor R)) : tensor R :=
  let valid_mask := dppo_mask valid old_log_prob log_prob advantages in
  with_weights
    (mask_mul (tzip Rmult (neg_mul advantages (truncated_ratio c log_prob old_log_prob)) log_prob) valid_mask)
    rollout_is_weights.

Definition dppo (valid : ActorConfig → R → R → R → bool) : policy_loss_fn :=
  λ old_log_prob log_prob advantages response_mask loss_agg_mode c rollout_is_weights,
  let kl := negative_approx_kl log_prob old_log_prob in
  let valid_mask := dppo_mask (valid c) old_log_prob log_prob advantages in
  let pg_losses := dppo_losses (valid c) c old_log_prob log_prob advantages rollout_is_weights in
  pg_loss ← agg_loss pg_losses response_mask loss_agg_mode (global_batch_info c);
  let pg_clipfrac := masked_mean (tmap (λ b, 1 - b2r b) valid_mask) response_mask in
  let pg_clipfrac_lower := masked_mean
      (mask_mul (tmap (λ k, b2r (Rltb (default 20 (clip_ratio_c c)) (exp k))) kl) valid_mask) response_mask in
  Ok (pg_loss, [("actor/pg_clipfrac", pg_clipfrac); ("actor/ppo_kl", masked_mean (tmap Ropp kl) response_mask);
                ("actor/pg_clipfrac_lower", pg_clipfrac_lower)]%string).
Definition compute_policy_loss_dppo_tv : policy_loss_fn := dppo tv_valid.
Definition compute_policy_loss_dppo_kl : policy_loss_fn := dppo kl_valid.

(** ** [gspo]: one ratio per sequence; the aggregation mode is fixed *)

Definition seq_log_ratio (kl : tensor R) (response_mask : tensor bool) : list R :=
  zip_with (λ s m, s / Rmax (row_count m) 1) (seq_sums kl response_mask) response_mask.
Definition gspo_ratio (log_prob old_log_prob : tensor R) (response_mask : tensor bool) : tensor R :=
  let kl_seq := seq_log_ratio (tzip Rminus log_prob old_log_prob) response_mask in
  zip_with (λ s row, (λ lp, exp (Rmin (lp - lp + s) 10)) <$> row) kl_seq log_prob.
Definition gspo_losses (c : ActorConfig) (old_log_prob log_prob advantages : tensor R)
    (response_mask : tensor bool) (rollout_is_weights : option (tensor R)) : tensor R :=
  let '(_, _, pg_losses) := clipped_losses c advantages (gspo_ratio log_prob old_log_prob response_mask) in
  with_weights pg_losses rollout_is_weights.
Definition compute_policy_loss_gspo : policy_loss_fn :=
  λ old_log_prob log_prob advantages response_mask _ c rollout_is_weights,
  let '(pg_losses1, pg_losses2, _) := clipped_losses c advantages (gspo_ratio log_prob old_log_prob response_mask) in
  let pg_losses := gspo_losses c old_log_prob log_prob advantages response_mask rollout_is_weights in
  pg_loss ← agg_loss pg_losses response_mask "seq-mean-token-mean" (global_batch_info c);
  let ppo_kl := masked_mean (tmap Ropp (tzip Rminus log_prob old_log_prob)) response_mask in
  Ok (pg_loss, [("actor/pg_clipfrac", mean_of_bools (tzip Rltb pg_losses1 pg_losses2) response_mask);
                ("actor/ppo_kl", ppo_kl); ("actor/pg_clipfrac_lower", 0)]%string).

(** ** [sapo]: a smooth gate instead of a clip *)

Definition sigmoid (x : R) : R := 1 / (1 + exp (- x)).
Definition gate_function (x tau : R) : R := sigmoid (tau * (x - 1)) * (4 / tau).
Definition sapo_losses (c : ActorConfig) (old_log_prob log_prob advantages : tensor R)
    (rollout_is_weights : option (tensor R)) : tensor R :=
  let ratio := tmap exp (negative_approx_kl log_prob old_log_prob) in
  let taus := tmap (λ a, if Rltb 0 a then tau_pos c else tau_neg c) advantages in
  let gates := tzip gate_function ratio taus in
  with_weights (tzip (λ g a, - g * a) gates advantages) rollout_is_weights.
Definition compute_policy_loss_sapo : policy_loss_fn :=
  λ old_log_prob log_prob advantages response_mask _ c rollout_is_weights,
  let pg_losses := sapo_losses c old_log_prob log_prob advantages rollout_is_weights in
  pg_loss ← agg_loss pg_losses response_mask "seq-mean-token-mean" (global_batch_info c);
  let ppo_kl := masked_mean (tmap Ropp (negative_approx_kl log_prob old_log_prob)) response_mask in
  Ok (pg_loss, [("actor/pg_clipfrac", 0); ("actor/ppo_kl", ppo_kl); ("actor/pg_clipfrac_lower", 0)]%string).

(** ** [gpg], [cispo] and the REINFORCE loss *)

Definition gpg_losses (log_prob advantages : tensor R) (rollout_is_weights : option (tensor R)) : tensor R :=
  with_weights (tzip (λ lp a, - lp * a) log_prob advantages) rollout_is_weights.
Definition compute_policy_loss_gpg : policy_loss_fn :=
  λ _ log_prob advantages response_mask loss_agg_mode c rollout_is_weights,
  pg_loss ← agg_loss (gpg_losses log_prob advantages rollout_is_weights) response_mask loss_agg_mode
              (global_batch_info c);
  Ok (pg_loss, []).

Definition cispo_losses (c : ActorConfig) (old_log_prob log_prob advantages : tensor R)
    (rollout_is_weights : option (tensor R)) : tensor R :=
  let ratio := tmap exp (negative_approx_kl log_prob old_log_prob) in
  let clipped_ratio := tmap (rclamp (1 - cliprange_low c) (1 + cliprange_high c)) ratio in
  with_weights (tzip Rmult (tzip (λ r a, - r * a) clipped_ratio advantages) log_prob) rollout_is_weights.
Definition compute_policy_loss_cispo : policy_loss_fn :=
  λ old_log_prob log_prob advantages response_mask loss_agg_mode c rollout_is_weights,
  let kl := negative_approx_kl log_prob old_log_prob in
  let clipped r := negb (Reqb r (rclamp (1 - cliprange_low c) (1 + cliprange_high c) r)) in
  let pg_clipfrac := mean_of_bools (tmap clipped (tmap exp kl)) response_mask in
  pg_loss ← agg_loss (cispo_losses c old_log_prob log_prob advantages rollout_is_weights) response_mask
              loss_agg_mode (global_batch_info c);
  Ok (pg_loss, [("actor/pg_clipfrac", pg_clipfrac); ("actor/ppo_kl", masked_mean (tmap Ropp kl) response_mask);
                ("actor/pg_clipfrac_lower", 0)]%string).

Definition compute_policy_loss_reinforce (rollout_log_prob log_prob advantages : tensor R)
    (response_mask : tensor bool) (loss_agg_mode : string) (c : ActorConfig)
    (rollout_is_weights : option (tensor R)) : result (fnum * metric_list) :=
  let pg_losses := with_weights (neg_mul advantages log_prob) rollout_is_weights in
  pg_loss ← agg_loss pg_losses response_mask loss_agg_mode (global_batch_info c);
  let kl_divergence := masked_mean (tmap Ropp (tzip Rminus log_prob rollout_log_prob)) response_mask in
  Ok (pg_loss, [("actor/ppo_kl", kl_divergence)]%string).

(** ** [geo_mean]: a plain mean over the rows of the micro-batch *)

Definition geo_token (c : ActorConfig) (a kl : R) : R :=
  let clamped := rclamp (- cliprange_low c) (cliprange_high c) kl in
  rsign a * Rmin (rsign a * kl) (rsign a * clamped).
Definition geo_mean_rows (t : tensor R) (response_mask : tensor bool) : list R :=
  zip_with (λ s m, s / (row_count m + 1 / 10 ^ 8)) (seq_sums t response_mask) response_mask.
Definition geo_mean_losses (c : ActorConfig) (old_log_prob log_prob advantages : tensor R)
    (response_mask : tensor bool) (rollout_is_weights : option (tensor R)) : list R :=
  let kl_min := tzip (geo_token c) advantages (tzip Rminus log_prob old_log_prob) in
  let ratio := exp <$> geo_mean_rows kl_min response_mask in
  let pg_losses := zip_with (λ a r, - a * r) (geo_mean_rows advantages response_mask) ratio in
  match rollout_is_weights with
  | None => pg_losses
  | Some w => zip_with Rmult pg_losses (exp <$> geo_mean_rows (tmap (λ x, ln (x + 1 / 10 ^ 10)) w) response_mask)
  end.
Definition compute_policy_loss_geo_mean : policy_loss_fn :=
  λ old_log_prob log_prob advantages response_mask _ c rollout_is_weights,
  let kl := tzip Rminus log_prob old_log_prob in
  let pg_losses := geo_mean_losses c old_log_prob log_prob advantages response_mask rollout_is_weights in
  let pg_loss := fdiv (rsum pg_losses) (INR (length pg_losses)) in
  let clipped := tmap (λ k, negb (Reqb k (rclamp (- cliprange_low c) (cliprange_high c) k))) kl in
  let pg_clipfrac := mean_of_bools (tzip (λ b a, b && Rltb 0 a) clipped advantages) response_mask in
  let pg_clipfrac_lower := mean_of_bools (tzip (λ b a, b && Rltb a 0) clipped advantages) response_mask in
  Ok (pg_loss, [("actor/pg_clipfrac", pg_clipfrac); ("actor/ppo_kl", masked_mean (tmap Ropp kl) response_mask);
                ("actor/pg_clipfrac_lower", pg_clipfrac_lower)]%string).

(** ** [clip_cov]: drop a random few of the high-covariance tokens.  [None] is [-inf]. *)

Definition int_of_R (x : R) : Z := Int_part x.
(** [torch.nonzero]: the coordinates of the true cells, row by row. *)
Definition nonzero (t : tensor bool) : list (nat * nat) :=
  concat (imap (λ i row, (λ j, (i, j)) <$> (List.filter (λ p, p.2) (zip (seq 0 (length row)) row)).*1) t).
Definition set_cells (x : R) (cells : list (nat * nat)) (t : tensor R) : tensor R :=
  foldl (λ t (c : nat * nat), alter (λ row, <[c.2 := x]> row) c.1 t) t cells.

Definition covariances (log_prob advantages : tensor R) (response_mask clip_by_origin : tensor bool) :
    tensor (option R) :=
  let ma := masked_mean advantages response_mask in
  let ml := masked_mean log_prob response_mask in
  let cov_all := tzip (λ a l, (a - ma) * (l - ml)) advantages log_prob in
  tzip (λ (v : R) (mo : bool * bool), if mo.1 && negb mo.2 then Some v else None) cov_all
    (tzip pair response_mask clip_by_origin).
Definition in_band (lb ub : R) (v : option R) (m : bool) : bool :=
  match v with Some v => Rltb v ub && Rltb lb v && m | None => false end.

Section cov_losses.
(** [torch.randperm(n)] and [torch.topk(values, k, largest=True).indices]. *)
Context (randperm : nat → list nat) (topk : list R → nat → list nat).

Definition clip_cov_cells (c : ActorConfig) (log_prob advantages : tensor R)
    (response_mask clip_by_origin : tensor bool) : list (nat * nat) :=
  let ratio := default (2 / 10 ^ 4) (clip_cov_ratio (policy_loss c)) in
  let ub := default 5 (clip_cov_ub (policy_loss c)) in
  let lb := default 1 (clip_cov_lb (policy_loss c)) in
  let clip_num := Z.to_nat (Z.max (int_of_R (ratio * mask_count response_mask)) 1) in
  let top_k_idx := nonzero (tzip (in_band lb ub)
                     (covariances log_prob advantages response_mask clip_by_origin) response_mask) in
  omap (λ p, top_k_idx !! p) (take (Nat.min clip_num (length top_k_idx)) (randperm (length top_k_idx))).

Definition compute_policy_loss_clip_cov : policy_loss_fn :=
  λ old_log_prob log_prob advantages response_mask loss_agg_mode c rollout_is_weights,
  require Rltb 0 (default (2 / 10 ^ 4) (clip_cov_ratio (policy_loss c)))
    else AssertionError "clip_ratio should be larger than 0." ;;
  let kl := tzip Rminus log_prob old_log_prob in
  let '(pg_losses1, pg_losses2, clipped) := clipped_losses c advantages (tmap exp kl) in
  let clip_by_origin := tzip andb (tzip Rltb pg_losses1 pg_losses2) response_mask in
  let corr := set_cells 0 (clip_cov_cells c log_prob advantages response_mask clip_by_origin)
                (tmap (λ _, 1) advantages) in
  let pg_clipfrac := mean_of_bools (tmap (λ x, Reqb x 0) corr) response_mask in
  let pg_losses := with_weights (tzip Rmult clipped corr) rollout_is_weights in
  pg_loss ← agg_loss pg_losses response_mask loss_agg_mode (global_batch_info c);
  Ok (pg_loss, [("actor/pg_clipfrac", pg_clipfrac); ("actor/ppo_kl", masked_mean (tmap Ropp kl) response_mask)]%string).

(** ** [kl_cov]: a KL penalty on the tokens of largest covariance *)

Definition average (l : list R) : R := rsum l / INR (length l).
Definition kl_cov_cells (ratio : R) (log_prob advantages : tensor R) (response_mask : tensor bool) : list nat :=
  let all_valid_idx := (List.filter (λ p, p.2) (zip (seq 0 (length (concat response_mask))) (concat response_mask))).*1 in
  let adv := picks response_mask advantages in
  let logp := picks response_mask log_prob in
  if Nat.eqb (length adv) 0 then [] else
  let cov := zip_with (λ a l, (a - average adv) * (l - average logp)) adv logp in
  let k := Z.to_nat (Z.max 1 (int_of_R (INR (length cov) * ratio))) in
  omap (λ p, all_valid_idx !! p) (topk cov k).

(** Copy the flat cells [idxs] from [src] to [dst]. *)
Definition copy_cells (width : nat) (idxs : list nat) (src dst : tensor R) : tensor R :=
  foldl (λ dst i, match tget src (i / width) (i mod width) with
                  | Some v => alter (λ row, <[(i mod width)%nat := v]> row) (i / width)%nat dst
                  | None => dst end) dst idxs.

Definition compute_policy_loss_kl_cov : policy_loss_fn :=
  λ old_log_prob log_prob advantages response_mask loss_agg_mode c rollout_is_weights,
  let ratio := default (2 / 10 ^ 4) (kl_cov_ratio (policy_loss c)) in
  let coef := default 1 (ppo_kl_coef (policy_loss c)) in
  require Rltb 0 ratio else AssertionError "kl_cov_ratio should be larger than 0." ;;
  let kl := tzip Rminus log_prob old_log_prob in
  let pg_losses1 := neg_mul advantages (tmap exp kl) in
  let pg_losses_kl := tzip (λ l k, l + coef * Rabs k) pg_losses1 kl in
  let cells := kl_cov_cells ratio log_prob advantages response_mask in
  let pg_losses := copy_cells (tensor_width advantages) cells pg_losses_kl pg_losses1 in
  let pg_losses := with_weights pg_losses rollout_is_weights in
  pg_loss ← agg_loss pg_losses response_mask loss_agg_mode (global_batch_info c);
  Ok (pg_loss, [("actor/ppo_kl", masked_mean (tmap Rabs kl) response_mask)]%string).
End cov_losses.

(** ** The deprecated PPO loss, entropy and value losses *)

Definition compute_policy_loss (old_log_prob log_prob advantages : tensor R) (response_mask : tensor bool)
    (cliprange : R) (low high : option R) (bound : R) (loss_agg_mode : string) : result (fnum * R * R * R) :=
  require Rltb 1 bound
    else AssertionError "The lower bound of the clip_ratio_c for dual-clip PPO should be greater than 1.0" ;;
  let kl := negative_approx_kl log_prob old_log_prob in
  let ratio := tmap exp kl in
  let pg_losses1 := neg_mul advantages ratio in
  let pg_losses2 := neg_mul advantages (tmap (rclamp (1 - default cliprange low) (1 + default cliprange high)) ratio) in
  let clip_pg_losses1 := tzip Rmax pg_losses1 pg_losses2 in
  let pg_clipfrac := mean_of_bools (tzip Rltb pg_losses1 pg_losses2) response_mask in
  let pg_losses3 := tmap (λ a, - a * bound) advantages in
  let clip_pg_losses2 := tzip Rmin pg_losses3 clip_pg_losses1 in
  let pg_clipfrac_lower := masked_mean
      (tzip (λ b a, b2r b * b2r (Rltb a 0)) (tzip Rltb pg_losses3 clip_pg_losses1) advantages) response_mask in
  let pg_losses := tzip (λ a (l : R * R), if Rltb a 0 then l.2 else l.1) advantages
                     (tzip pair clip_pg_losses1 clip_pg_losses2) in
  pg_loss ← agg_loss pg_losses response_mask loss_agg_mode no_batch_info;
  Ok (pg_loss, pg_clipfrac, masked_mean (tmap Ropp kl) response_mask, pg_clipfrac_lower).

Definition compute_entropy_loss (logits : list (tensor R)) (response_mask : tensor bool) (loss_agg_mode : string) :
    result fnum :=
  agg_loss (entropy_from_logits <$> logits) response_mask loss_agg_mode no_batch_info.

Definition value_losses (cliprange_value : R) (vpreds returns values : tensor R) : tensor R * tensor R :=
  let vpredclipped := tzip (λ p v, clip_by_value p (v - cliprange_value) (v + cliprange_value)) vpreds values in
  (tzip (λ p r, (p - r) ^ 2) vpreds returns, tzip (λ p r, (p - r) ^ 2) vpredclipped returns).
Definition compute_value_loss (vpreds returns values : tensor R) (response_mask : tensor bool)
    (cliprange_value : R) (loss_agg_mode : string) : result (fnum * R) :=
  let '(vf_losses1, vf_losses2) := value_losses cliprange_value vpreds returns values in
  agg ← agg_loss (tzip Rmax vf_losses1 vf_losses2) response_mask loss_agg_mode no_batch_info;
  Ok (f1 (λ x, 1 / 2 * x) agg, mean_of_bools (tzip Rltb vf_losses1 vf_losses2) response_mask).

(** ** KL penalties of a token *)

Definition kl_penalty_forward (logprob ref_logprob : R) (kl_penalty : string) : result R :=
  if bool_decide (kl_penalty ∈ ["kl"; "k1"]%string) then Ok (logprob - ref_logprob)
  else if bool_decide (kl_penalty = "abs"%string) then Ok (Rabs (logprob - ref_logprob))
  else if bool_decide (kl_penalty ∈ ["mse"; "k2"]%string) then Ok (1 / 2 * (logprob - ref_logprob) ^ 2)
  else if bool_decide (kl_penalty ∈ ["low_var_kl"; "k3"]%string) then
    let kl := rclamp (-20) 20 (ref_logprob - logprob) in
    let ratio := exp kl in
    let kld := ratio - kl - 1 in
    Ok (rclamp (-10) 10 kld)
  else Raise (NotImplementedError "").

Definition ends_plus (s : string) : bool := bool_decide (last (String.list_ascii_of_string s) = Some (Ascii.ascii_of_nat 43)).
Definition drop_last (s : string) : string := String.substring 0 (String.length s - 1) s.

(** The straight-through estimator adds [backward - backward.detach()], zero in value. *)
Definition kl_penalty (logprob ref_logprob : R) (penalty : string) : result R :=
  let base_kl_penalty := if ends_plus penalty then drop_last penalty else penalty in
  forward_score ← kl_penalty_forward logprob ref_logprob base_kl_penalty;
  if negb (ends_plus penalty) || bool_decide (penalty ∈ ["mse"; "k2"]%string) then Ok forward_score
  else
    let backward_score := 1 / 2 * (logprob - ref_logprob) ^ 2 in
    Ok (backward_score - backward_score + forward_score).

(** ** Resampling weights of PF-PPO *)

Definition max_of (l : list R) : R := match l with [] => 0 | x :: l => foldr Rmax x l end.
Definition min_of (l : list R) : R := match l with [] => 0 | x :: l => foldr Rmin x l end.
(** [torch.pow(|s|, p)] for [p >= 0]. *)
Definition abs_pow (s p : R) : R := if Req_EM_T s 0 then (if Rlt_dec 0 p then 0 else 1) else Rpower (Rabs s) p.
Definition compute_weights (scores : list R) (reweight_method : string) (weight_pow : R) : result (list R) :=
  if bool_decide (reweight_method = "pow"%string) then Ok ((λ s, abs_pow s weight_pow) <$> scores)
  else if bool_decide (reweight_method = "max_min"%string) then
    Ok ((λ s, if Reqb s (max_of scores) || Reqb s (min_of scores) then 1 else 0) <$> scores)
  else if bool_decide (reweight_method = "max_random"%string) then
    Ok ((λ s, if Reqb s (max_of scores) then 4 / 10 else 1 / 10) <$> scores)
  else Raise (ValueError ("Unsupported reweight_method: " +:+ reweight_method)).
Definition resample_weights (scores : list R) (reweight_method : string) (weight_pow : R) : result (list R) :=
  weights ← compute_weights scores reweight_method weight_pow;
  Ok (map (λ w, Rmax (w + 1 / 10 ^ 8) (1 / 10 ^ 8)) weights).

(** ** The registry of policy losses: [bypass_mode] is a parameter here; [RolloutCorrection]
    defines it. *)

Definition POLICY_LOSS_REGISTRY (randperm : nat → list nat) (topk : list R → nat → list nat)
    (compute_policy_loss_bypass_mode : policy_loss_fn) :
    list (string * policy_loss_fn) :=
  [("vanilla", compute_policy_loss_vanilla); ("dppo_tv", compute_policy_loss_dppo_tv);
   ("dppo_kl", compute_policy_loss_dppo_kl); ("gspo", compute_policy_loss_gspo);
   ("sapo", compute_policy_loss_sapo); ("gpg", compute_policy_loss_gpg);
   ("clip_cov", compute_policy_loss_clip_cov randperm); ("kl_cov", compute_policy_loss_kl_cov topk);
   ("geo_mean", compute_policy_loss_geo_mean); ("cispo", compute_policy_loss_cispo);
   ("bypass_mode", compute_policy_loss_bypass_mode)]%string.
Definition get_policy_loss_fn {F} (registry : list (string * F)) (name : string) : result F :=
  of_option (ValueError ("Unsupported loss mode: " +:+ name)) (assoc_lookup name registry).

(** ** Aggregation *)

Definition valid_modes : list string :=
  ["token-mean"; "seq-mean-token-sum"; "seq-mean-token-sum-norm"; "seq-mean-token-mean"]%string.

(** A loss is [numerator * dp_size / denominator]. *)
Definition agg_numerator (mode : string) (mat : tensor R) (mask : tensor bool) : R :=
  if bool_decide (mode = "token-mean"%string) then masked_sum mat mask
  else if bool_decide (mode = "seq-mean-token-mean"%string) then
    row_masked_sum (zip_with (λ s m, s / (row_count m + 1 / 10 ^ 8)) (seq_sums mat mask) mask) (seq_valid mask)
  else row_masked_sum (seq_sums mat mask) (seq_valid mask).
Definition agg_denominator (mode : string) (mask : tensor bool) (info : batch_info) : R :=
  if bool_decide (mode = "token-mean"%string) then from_option INR (mask_count mask) (batch_num_tokens info)
  else from_option INR (row_count (seq_valid mask)) (global_batch_size info) *
       (if bool_decide (mode = "seq-mean-token-sum-norm"%string)
        then INR (default (tensor_width mask) (loss_scale_factor info)) else 1).

(** Either there is one shard or the caller gave the global counts. *)
Definition counts_given (info : batch_info) : Prop :=
  (dp_size info <= 1)%nat ∨ (batch_num_tokens info ≠ None ∧ global_batch_size info ≠ None).

Lemma divisor_Ok given dp msg local :
  (dp <= 1)%nat ∨ given ≠ None → divisor given dp msg local = Ok (from_option INR local given).
Proof.
  intros H. unfold divisor. destruct given as [n|]; [done|].
  destruct (Nat.ltb_spec 1 dp); [|done]. destruct H; [lia|done].
Qed.

Lemma fdiv_Fin x y : y ≠ 0 → fdiv x y = Fin (x / y).
Proof. intros H. unfold fdiv. by destruct (Req_EM_T y 0). Qed.

Lemma agg_loss_value mode mat mask info :
  mode ∈ valid_modes → counts_given info → agg_denominator mode mask info ≠ 0 →
  agg_loss mat mask mode info =
    Ok (Fin (agg_numerator mode mat mask * INR (dp_size info) / agg_denominator mode mask info)).
Proof.
  intros Hmode Hg Hd. unfold agg_loss, seq_mean. rewrite !divisor_Ok by (destruct Hg as [?|[? ?]]; auto).
  unfold valid_modes in Hmode. rewrite !elem_of_cons, elem_of_nil in Hmode.
  destruct Hmode as [->|[->|[->|[->|[]]]]]; unfold agg_numerator, agg_denominator in *; vm_compute bool_decide in *;
    cbn [mbind result_bind f1] in *.
  - rewrite fdiv_Fin by done. cbn [f1]. do 2 f_equal. field. done.
  - rewrite Rmult_1_r in *. rewrite fdiv_Fin by done. cbn [f1]. do 2 f_equal. field. done.
  - rewrite fdiv_Fin by (intros E; rewrite E in Hd; lra). cbn [f1].
    rewrite fdiv_Fin by (intros E; rewrite E in Hd; lra). do 2 f_equal. field.
    split; intros E; rewrite E in Hd; lra.
  - rewrite Rmult_1_r in *. rewrite fdiv_Fin by done. cbn [f1]. do 2 f_equal. field. done.
Qed.

Lemma zip_with_app' {A B C} (f : A → B → C) l1 l2 k1 k2 :
  length l1 = length k1 → zip_with f (l1 ++ l2) (k1 ++ k2) = zip_with f l1 k1 ++ zip_with f l2 k2.
Proof. intros H. by apply zip_with_app. Qed.

Lemma row_masked_sum_app l1 l2 m1 m2 :
  length l1 = length m1 → row_masked_sum (l1 ++ l2) (m1 ++ m2) = row_masked_sum l1 m1 + row_masked_sum l2 m2.
Proof. intros H. unfold row_masked_sum. by rewrite zip_with_app', rsum_app. Qed.

Lemma seq_sums_app t1 t2 m1 m2 :
  length t1 = length m1 → seq_sums (t1 ++ t2) (m1 ++ m2) = seq_sums t1 m1 ++ seq_sums t2 m2.
Proof. intros H. unfold seq_sums, mask_mul. by rewrite zip_with_app', fmap_app. Qed.
Lemma length_seq_sums t m : length t = length m → length (seq_sums t m) = length m.
Proof. intros H. unfold seq_sums, mask_mul. rewrite length_fmap, length_zip_with. lia. Qed.
Lemma length_seq_valid m : length (seq_valid m) = length m.
Proof. unfold seq_valid. apply length_fmap. Qed.

Lemma agg_numerator_app mode t1 t2 m1 m2 :
  length t1 = length m1 →
  agg_numerator mode (t1 ++ t2) (m1 ++ m2) = agg_numerator mode t1 m1 + agg_numerator mode t2 m2.
Proof.
  intros H. unfold agg_numerator. unfold seq_valid. rewrite seq_sums_app, fmap_app by done.
  repeat case_bool_decide.
  - unfold masked_sum. by rewrite zip_with_app', rsum_app.
  - rewrite zip_with_app' by (by apply length_seq_sums). apply row_masked_sum_app.
    rewrite length_zip_with, length_seq_sums, length_fmap by done. lia.
  - apply row_masked_sum_app. by rewrite length_seq_sums, length_fmap.
Qed.

(** Micro-batches of one global batch: rows of one width. *)
Definition shards_ok (width : nat) (shards : list (tensor R * tensor bool)) : Prop :=
  shards ≠ [] ∧ Forall (λ s, s.2 ≠ [] ∧ length s.1 = length s.2 ∧ tensor_width s.2 = width) shards.

Lemma shards_width width shards : shards_ok width shards → tensor_width (concat shards.*2) = width.
Proof.
  intros [Hne Hall]. destruct shards as [|[t m] shards]; [done|]. inversion_clear Hall as [|? ? (Hm & _ & Hw) _].
  cbn [fmap list_fmap concat fst snd] in *. by destruct m.
Qed.

Lemma agg_numerator_shards mode width shards :
  Forall (λ s, s.2 ≠ [] ∧ length s.1 = length s.2 ∧ tensor_width s.2 = width) shards →
  rsum ((λ s : tensor R * tensor bool, agg_numerator mode s.1 s.2) <$> shards) =
    agg_numerator mode (concat shards.*1) (concat shards.*2).
Proof.
  induction 1 as [|[t m] shards (_ & Hl & _) Hall IH].
  - unfold agg_numerator. by repeat case_bool_decide.
  - rewrite !fmap_cons. cbn [fst snd concat] in *. rewrite agg_numerator_app by done. by rewrite rsum_cons, IH.
Qed.

(** Aggregation does not depend on how the batch is cut up.  Cut a global batch into
    any micro-batches, spread over [dp_size] ranks, and give [agg_loss] the global counts
    of response tokens and of sequences that have one: in every mode each micro-batch has a
    loss, and the sum of these losses divided by [dp_size] (gradients are summed over
    micro-batches and averaged over ranks) is the loss of the whole batch computed in one
    piece from its own counts. *)
Theorem agg_loss_parallel_invariant (mode : string) (width dp : nat) (shards : list (tensor R * tensor bool))
    (tokens seqs : nat) (factor : option nat) :
  mode ∈ valid_modes → shards_ok width shards → dp ≠ 0%nat →
  default width factor ≠ 0%nat →
  let whole := concat shards.*1 in
  let mask := concat shards.*2 in
  tokens ≠ 0%nat → INR tokens = mask_count mask → seqs ≠ 0%nat → INR seqs = row_count (seq_valid mask) →
  let info := {| dp_size := dp; batch_num_tokens := Some tokens; global_batch_size := Some seqs;
                 loss_scale_factor := factor |} in
  let alone := {| dp_size := 1; batch_num_tokens := None; global_batch_size := None; loss_scale_factor := factor |} in
  ∃ losses loss,
    Forall2 (λ s l, agg_loss s.1 s.2 mode info = Ok (Fin l)) shards losses ∧
    agg_loss whole mask mode alone = Ok (Fin loss) ∧
    rsum losses / INR dp = loss.
Proof.
  intros Hmode Hsh Hdp Hfac whole mask Ht Htok Hs Hseq info alone.
  apply not_0_INR in Ht, Hs, Hdp, Hfac.
  set (den := agg_denominator mode mask alone).
  assert (Hw : tensor_width mask = width) by (by apply shards_width).
  assert (Hden : den ≠ 0).
  { unfold den, agg_denominator. cbn. rewrite <-Htok, <-Hseq, Hw. repeat case_bool_decide; [done|nra|lra]. }
  assert (Hsame : ∀ m, tensor_width m = width → agg_denominator mode m info = den).
  { intros m Hm. unfold den, agg_denominator. cbn. by rewrite <-Htok, <-Hseq, Hw, Hm. }
  destruct Hsh as [_ Hall].
  exists ((λ s : tensor R * tensor bool, agg_numerator mode s.1 s.2 * INR dp / den) <$> shards),
    (agg_numerator mode whole mask * INR 1 / den).
  split; [|split].
  - apply Forall2_fmap_r, Forall_Forall2_diag. eapply Forall_impl; [exact Hall|].
    intros s (_ & _ & Hwd). cbn beta. rewrite <-(Hsame s.2) by done.
    apply agg_loss_value; [done|right; done|]. by rewrite Hsame.
  - apply (agg_loss_value mode whole mask alone); [done|left; done|done].
  - rewrite (rsum_ext _ (λ s : tensor R * tensor bool, INR dp / den * agg_numerator mode s.1 s.2))
      by (intros s _; field; done).
    rewrite rsum_scale_f, (agg_numerator_shards mode width shards) by done. fold whole mask. simpl. field. done.
Qed.

(** Three sequences on two ranks, one of them cut into two micro-batches. *)
Lemma agg_loss_parallel_invariant_witness :
  let shards := [([[1; 2]], [[true; true]]); ([[3; 9]], [[true; false]]); ([[4; 9]], [[true; false]])] in
  let info := {| dp_size := 2; batch_num_tokens := Some 4%nat; global_batch_size := Some 3%nat;
                 loss_scale_factor := None |} in
  ∃ a b c, agg_loss [[1; 2]] [[true; true]] "token-mean" info = Ok (Fin a) ∧
    agg_loss [[3; 9]] [[true; false]] "token-mean" info = Ok (Fin b) ∧
    agg_loss [[4; 9]] [[true; false]] "token-mean" info = Ok (Fin c) ∧
    agg_loss [[1; 2]; [3; 9]; [4; 9]] [[true; true]; [true; false]; [true; false]] "token-mean" no_batch_info =
      Ok (Fin ((a + (b + (c + 0))) / INR 2)).
Proof.
  intros shards info.
  destruct (agg_loss_parallel_invariant "token-mean" 2 2 shards 4 3 None) as (losses & loss & Hs & Hw & Hsum).
  - apply elem_of_cons. by left.
  - split; [discriminate|]. repeat constructor; discriminate.
  - discriminate.
  - discriminate.
  - discriminate.
  - unfold mask_count, row_count. simpl. lra.
  - discriminate.
  - unfold seq_valid, row_count. simpl. unfold Rltb. repeat (destruct (Rlt_dec _ _); [|lra]). simpl. lra.
  - inversion Hs as [|? a ? l1 Ha Hs1 E1 E2]; subst. inversion Hs1 as [|? b ? l2 Hb Hs2 E1 E2]; subst.
    inversion Hs2 as [|? c ? l3 Hc Hs3 E1 E2]; subst. inversion Hs3; subst.
    exists a, b, c. split; [exact Ha|]. split; [exact Hb|]. split; [exact Hc|]. exact Hw.
Defined.

(** ** The dual-clipped surrogate *)

Definition importance_ratio (old lp : R) : R := exp (rclamp (-20) 20 (lp - old)).

(** PPO's pessimistic objective with a lower bound for negative advantages. *)
Definition dual_clip (low high bound a r : R) : R :=
  if Rltb a 0 then - a * Rmin bound (Rmax r (1 - low)) else - a * Rmin r (1 + high).

Lemma Rmax_neg_mul a x y : 0 <= a → Rmax (- a * x) (- a * y) = - a * Rmin x y.
Proof. intros Ha. unfold Rmax, Rmin. destruct (Rle_dec x y), (Rle_dec (- a * x) (- a * y)); nra. Qed.
Lemma Rmax_pos_mul a x y : 0 <= a → Rmax (a * x) (a * y) = a * Rmax x y.
Proof. intros Ha. unfold Rmax. destruct (Rle_dec x y), (Rle_dec (a * x) (a * y)); nra. Qed.
Lemma Rmin_pos_mul a x y : 0 <= a → Rmin (a * x) (a * y) = a * Rmin x y.
Proof. intros Ha. unfold Rmin. destruct (Rle_dec x y), (Rle_dec (a * x) (a * y)); nra. Qed.

Lemma clip_min low high r : - low <= high → Rmin r (rclamp (1 - low) (1 + high) r) = Rmin r (1 + high).
Proof.
  intros H. unfold rclamp, Rmin, Rmax. repeat destruct (Rle_dec _ _); lra.
Qed.
Lemma clip_max low high r : - low <= high → Rmax r (rclamp (1 - low) (1 + high) r) = Rmax r (1 - low).
Proof.
  intros H. unfold rclamp, Rmin, Rmax. repeat destruct (Rle_dec _ _); lra.
Qed.

Lemma dual_clip_token low high bound a r : - low <= high →
  (let c1 := Rmax (- a * r) (- a * rclamp (1 - low) (1 + high) r) in
   if Rltb a 0 then Rmin (- a * bound) c1 else c1) = dual_clip low high bound a r.
Proof.
  intros H. cbv zeta. unfold dual_clip, Rltb. destruct (Rlt_dec a 0) as [Ha|Ha].
  - rewrite Rmax_pos_mul, Rmin_pos_mul, clip_max by lra. done.
  - rewrite Rmax_neg_mul, clip_min by lra. done.
Qed.

Lemma tget_clipped c (advantages ratio : tensor R) i j a r :
  tget advantages i j = Some a → tget ratio i j = Some r →
  let p1 := - a * r in
  let p2 := - a * rclamp (1 - cliprange_low c) (1 + cliprange_high c) r in
  tget (clipped_losses c advantages ratio).2 i j = Some (Rmax p1 p2).
Proof.
  intros Ha Hr p1 p2. unfold clipped_losses. cbn [snd]. apply (tget_tzip Rmax _ _ i j p1 p2).
  - by apply (tget_tzip (λ a x, - a * x)).
  - apply (tget_tzip (λ a x, - a * x)); [done|]. by rewrite tget_tmap, Hr.
Qed.

Lemma tget_importance_ratio (log_prob old_log_prob : tensor R) i j lp old :
  tget log_prob i j = Some lp → tget old_log_prob i j = Some old →
  tget (tmap exp (negative_approx_kl log_prob old_log_prob)) i j = Some (importance_ratio old lp).
Proof.
  intros Hl Ho. unfold negative_approx_kl. rewrite !tget_tmap, (tget_tzip Rminus _ _ _ _ lp old) by done. done.
Qed.

Lemma tget_with_weights (t : tensor R) w i j x y :
  tget t i j = Some x → match w with Some w => tget w i j = Some y | None => y = 1 end →
  tget (with_weights t w) i j = Some (x * y).
Proof.
  intros Hx Hy. unfold with_weights. destruct w as [w|]; [by apply tget_tzip|]. subst. by rewrite Rmult_1_r.
Qed.

Lemma vanilla_runs (c : ActorConfig) old_log_prob log_prob advantages mask mode weights :
  1 < default 3 (clip_ratio_c c) →
  ∃ metrics, compute_policy_loss_vanilla old_log_prob log_prob advantages mask mode c weights =
    (λ loss, (loss, metrics)) <$>
      agg_loss (vanilla_losses c old_log_prob log_prob advantages weights) mask mode (global_batch_info c).
Proof.
  intros Hb. unfold compute_policy_loss_vanilla. rewrite (proj2 (Rltb_spec _ _) Hb).
  destruct (clipped_losses _ _ _) as [[p1 p2] c1].
  destruct (agg_loss _ mask mode (global_batch_info c)) as [loss|e].
  - eexists. cbn. reflexivity.
  - exists []. done.
Qed.

Lemma vanilla_token (c : ActorConfig) (old_log_prob log_prob advantages : tensor R) weights i j old lp a w :
  - cliprange_low c <= cliprange_high c →
  tget old_log_prob i j = Some old → tget log_prob i j = Some lp → tget advantages i j = Some a →
  match weights with Some t => tget t i j = Some w | None => w = 1 end →
  tget (vanilla_losses c old_log_prob log_prob advantages weights) i j =
    Some (dual_clip (cliprange_low c) (cliprange_high c) (default 3 (clip_ratio_c c)) a (importance_ratio old lp) * w).
Proof.
  intros Hlh Ho Hlp Ha Hw. unfold vanilla_losses. set (bound := default 3 (clip_ratio_c c)).
  pose proof (tget_clipped c advantages _ i j a _ Ha (tget_importance_ratio _ _ _ _ _ _ Hlp Ho)) as Hc.
  destruct (clipped_losses _ _ _) as [[p1 p2] c1]. cbn [snd] in Hc. apply tget_with_weights; [|done].
  rewrite <-dual_clip_token by done. cbv zeta. set (x1 := Rmax _ _) in *.
  apply (tget_tzip (λ a (l : R * R), if Rltb a 0 then l.2 else l.1) _ _ i j a (x1, Rmin (- a * bound) x1) Ha).
  apply (tget_tzip pair); [done|]. apply (tget_tzip Rmin); [|done]. by rewrite tget_tmap, Ha.
Qed.

(** The PPO loss of a token is the dual-clipped surrogate.  With ratio
    [r = exp (clamp (log_prob - old_log_prob))] and advantage [a] it is [- a min (r, 1 + high)]
    for [a >= 0] and [- a min (c, max (r, 1 - low))] for [a < 0], times the importance
    weight; hence it lies between [- a (1 + high)] and [0] resp. between [- a (1 - low)] and
    [- a c].  The bound [c] must exceed 1, else the call raises. *)
Theorem vanilla_dual_clip (c : ActorConfig) (old_log_prob log_prob advantages : tensor R) (mask : tensor bool)
    (mode : string) (weights : option (tensor R)) :
  let bound := default 3 (clip_ratio_c c) in
  let losses := vanilla_losses c old_log_prob log_prob advantages weights in
  (bound <= 1 → is_ok (compute_policy_loss_vanilla old_log_prob log_prob advantages mask mode c weights) = false) ∧
  (1 < bound → ∃ metrics, compute_policy_loss_vanilla old_log_prob log_prob advantages mask mode c weights =
    (λ loss, (loss, metrics)) <$> agg_loss losses mask mode (global_batch_info c)) ∧
  ∀ i j old lp a w, - cliprange_low c <= cliprange_high c → cliprange_low c <= 1 →
    tget old_log_prob i j = Some old → tget log_prob i j = Some lp → tget advantages i j = Some a →
    match weights with Some t => tget t i j = Some w | None => w = 1 end →
    let l := dual_clip (cliprange_low c) (cliprange_high c) bound a (importance_ratio old lp) in
    tget losses i j = Some (l * w) ∧
    (0 <= a → - a * (1 + cliprange_high c) <= l <= 0) ∧
    (a < 0 → 1 <= bound → 0 <= cliprange_low c → - a * (1 - cliprange_low c) <= l <= - a * bound).
Proof.
  intros bound losses. split; [|split].
  - intros Hb. unfold compute_policy_loss_vanilla. fold bound.
    assert (H : Rltb 1 bound = false) by (apply not_true_iff_false; rewrite Rltb_spec; lra). by rewrite H.
  - apply vanilla_runs.
  - intros i j old lp a w Hlh Hl1 Ho Hlp Ha Hw l.
    assert (Hr : 0 < importance_ratio old lp) by apply exp_pos.
    split; [|split].
    + by apply vanilla_token.
    + intros Hpos. unfold l, dual_clip, Rltb. destruct (Rlt_dec a 0); [lra|].
      assert (Hm : 0 <= Rmin (importance_ratio old lp) (1 + cliprange_high c) <= 1 + cliprange_high c)
        by (unfold Rmin; destruct (Rle_dec _ _); lra).
      split; nra.
    + intros Hneg Hb Hlow. unfold l, dual_clip, Rltb. destruct (Rlt_dec a 0); [|lra].
      set (m := Rmin _ _).
      assert (Hm : Rmin bound (1 - cliprange_low c) <= m <= bound).
      { unfold m, Rmin, Rmax. repeat destruct (Rle_dec _ _); lra. }
      rewrite Rmin_right in Hm by lra. split; nra.
Qed.

Definition ex_policy_loss : PolicyLossConfig := {|
  loss_mode := "vanilla"; clip_cov_ratio := None; clip_cov_lb := None; clip_cov_ub := None;
  kl_cov_ratio := None; ppo_kl_coef := None; rlsd_enabled := true; rlsd_lambda := 1 / 2;
  rlsd_reweight_clip_range := 2 / 10; rlsd_negative_only := false; rlsd_delta_student_logp_source := "current";
  opd_pg_enabled := false; opd_logratio_clip_abs := 5 |}.
Definition ex_actor (info : batch_info) : ActorConfig := {|
  clip_ratio := 2 / 10; clip_ratio_low := None; clip_ratio_high := Some (3 / 10); clip_ratio_c := Some 3;
  tau_pos := 1; tau_neg := 105 / 100; loss_agg_mode := "token-mean"; cfg_loss_scale_factor := None;
  entropy_coeff := 0; use_kl_loss := false; kl_loss_coef := 1 / 1000; kl_loss_type := "low_var_kl";
  policy_loss := ex_policy_loss; global_batch_info := info |}.

Lemma vanilla_dual_clip_witness :
  tget (vanilla_losses (ex_actor no_batch_info) [[0]] [[0]] [[-2]] None) 0 0 = Some 2 ∧
  is_ok (compute_policy_loss_vanilla [[0]] [[0]] [[-2]] [[true]] "token-mean"
    {| clip_ratio := 2 / 10; clip_ratio_low := None; clip_ratio_high := None; clip_ratio_c := Some 1;
       tau_pos := 1; tau_neg := 1; loss_agg_mode := "token-mean"; cfg_loss_scale_factor := None;
       entropy_coeff := 0; use_kl_loss := false; kl_loss_coef := 0; kl_loss_type := "kl";
       policy_loss := ex_policy_loss; global_batch_info := no_batch_info |} None) = false.
Proof.
  split.
  - destruct (vanilla_dual_clip (ex_actor no_batch_info) [[0]] [[0]] [[-2]] [[true]] "token-mean" None)
      as (_ & _ & H).
    destruct (H 0%nat 0%nat 0 0 (-2) 1) as (-> & _ & _); [|..|reflexivity|reflexivity|reflexivity|reflexivity|].
    + unfold cliprange_low, cliprange_high. simpl. lra.
    + unfold cliprange_low. simpl. lra.
    + f_equal. unfold dual_clip, importance_ratio, cliprange_low, cliprange_high. simpl.
      rewrite rclamp_id by lra. rewrite Rminus_0_r, exp_0. unfold Rltb. destruct (Rlt_dec (-2) 0); [|lra].
      unfold Rmin, Rmax. repeat destruct (Rle_dec _ _); lra.
  - eapply vanilla_dual_clip. simpl. lra.
Defined.

(** ** KL penalties *)

Definition forward_names : list string := ["kl"; "k1"; "abs"; "mse"; "k2"; "low_var_kl"; "k3"]%string.

Lemma exp_sub_pos x : 0 <= exp x - x - 1 ∧ (exp x - x - 1 = 0 ↔ x = 0).
Proof.
  pose proof (exp_ineq1_le x) as H. split; [lra|]. split.
  - intros E. destruct (Req_EM_T x 0) as [|Hx]; [done|]. pose proof (exp_ineq1 x Hx). lra.
  - intros ->. rewrite exp_0. lra.
Qed.

Lemma k3_value x :
  let k := rclamp (-10) 10 (exp (rclamp (-20) 20 x) - rclamp (-20) 20 x - 1) in
  0 <= k <= 10 ∧ (k = 0 ↔ x = 0).
Proof.
  set (y := rclamp (-20) 20 x). destruct (exp_sub_pos y) as [Hp Hz]. set (k0 := exp y - y - 1) in *.
  assert (Hy : y = 0 ↔ x = 0).
  { unfold y, rclamp, Rmin, Rmax. repeat destruct (Rle_dec _ _); lra. }
  cbv zeta. rewrite <-Hy, <-Hz. unfold rclamp, Rmin, Rmax. repeat destruct (Rle_dec _ _); split; split; lra.
Qed.

Ltac in_names := rewrite ?elem_of_cons, ?elem_of_nil in *; naive_solver.

Definition base_penalty (name : string) : string := if ends_plus name then drop_last name else name.

(** The [+] suffix never changes the value. *)
Lemma kl_penalty_base logprob ref_logprob name :
  kl_penalty logprob ref_logprob name = kl_penalty_forward logprob ref_logprob (base_penalty name).
Proof.
  unfold kl_penalty, base_penalty. destruct (kl_penalty_forward _ _ _) as [k|]; [|done]. simpl.
  destruct (_ || _); [done|]. f_equal. lra.
Qed.
Lemma kl_penalty_forward_ok logprob ref_logprob base :
  is_ok (kl_penalty_forward logprob ref_logprob base) = true ↔ base ∈ forward_names.
Proof. unfold kl_penalty_forward, forward_names. repeat case_bool_decide; simpl; in_names. Qed.

(** The KL estimators.  Exactly seven names, each also with a [+], are accepted; a [+]
    never changes the value of the estimate (only its gradient).  Every estimator except
    [kl]/[k1] is non-negative and zero exactly when the two policies agree on the token,
    and [low_var_kl]/[k3] never exceeds 10. *)
Theorem kl_penalty_estimators (logprob ref_logprob : R) (name : string) :
  (is_ok (kl_penalty logprob ref_logprob name) = true ↔
     name ∈ forward_names ∨ (ends_plus name = true ∧ drop_last name ∈ forward_names)) ∧
  ∀ k, kl_penalty logprob ref_logprob name = Ok k →
    let base := base_penalty name in
    kl_penalty_forward logprob ref_logprob base = Ok k ∧
    (base ∈ ["kl"; "k1"]%string → k = logprob - ref_logprob) ∧
    (base ∉ ["kl"; "k1"]%string → 0 <= k ∧ (k = 0 ↔ logprob = ref_logprob)) ∧
    (base ∈ ["low_var_kl"; "k3"]%string → k <= 10).
Proof.
  pose proof (kl_penalty_base logprob ref_logprob name) as Hval.
  pose proof (kl_penalty_forward_ok logprob ref_logprob (base_penalty name)) as Hok.
  split.
  - rewrite Hval, Hok. unfold base_penalty. destruct (ends_plus name) eqn:E; [|naive_solver].
    split; [naive_solver|]. intros [Hn|[_ Hn]]; [|done]. exfalso. unfold forward_names in Hn.
    rewrite !elem_of_cons, elem_of_nil in Hn. destruct Hn as [->|[->|[->|[->|[->|[->|[->|[]]]]]]]]; discriminate E.
  - intros k Hk. rewrite Hval in Hk. cbv zeta. split; [done|]. clear Hval Hok. set (base := base_penalty name) in *.
    unfold kl_penalty_forward in Hk. pose proof (k3_value (ref_logprob - logprob)) as Hk3. cbv zeta in Hk3.
    set (d := logprob - ref_logprob) in *. assert (Hd : d = 0 ↔ logprob = ref_logprob) by (unfold d; lra).
    assert (Hd' : ref_logprob - logprob = 0 ↔ logprob = ref_logprob) by lra.
    clearbody base d. repeat case_bool_decide; try discriminate; injection Hk as <-.
    + split; [done|]. split; [done|]. in_names.
    + split; [done|]. split; [|in_names]. intros _. split; [apply Rabs_pos|]. rewrite <-Hd. split.
      * intros E. destruct (Req_EM_T d 0) as [|Hn]; [done|]. by apply Rabs_no_R0 in Hn.
      * intros ->. apply Rabs_R0.
    + split; [done|]. split; [|in_names]. intros _. rewrite <-Hd. split; [nra|]. split; [nra|]. intros Hz. rewrite Hz. lra.
    + split; [done|]. destruct Hk3 as [Hb Hz]. split; [|intros; apply Hb]. intros _. rewrite <-Hd'.
      split; [apply Hb|exact Hz].
Qed.

Lemma kl_penalty_estimators_witness :
  ∃ k, kl_penalty (-1) (-1) "k3+" = Ok k ∧ k = 0 ∧ is_ok (kl_penalty (-1) (-1) "full") = false.
Proof.
  destruct (kl_penalty_estimators (-1) (-1) "k3+") as [[_ Hok] H].
  destruct (kl_penalty (-1) (-1) "k3+") as [k|e] eqn:E.
  - exists k. split; [reflexivity|]. destruct (H k eq_refl) as (_ & _ & Hz & _). split; [|reflexivity].
    apply Hz; [|reflexivity]. apply (bool_decide_unpack ("k3"%string ∉ ["kl"; "k1"]%string)). reflexivity.
  - discriminate Hok. right. split; [reflexivity|].
    apply (bool_decide_unpack ("k3"%string ∈ forward_names)). reflexivity.
Defined.

(** ** [geo_mean] takes no account of the global batch: whatever the batch information, two
    one-row micro-batches have losses whose sum is twice the loss of the two rows together. *)
Lemma geo_mean_micro_batches (c : ActorConfig) (o1 o2 l1 l2 a1 a2 : list R) (m1 m2 : list bool) (mode : string) :
  ∃ x1 x2 k1 k2 k, compute_policy_loss_geo_mean [o1] [l1] [a1] [m1] mode c None = Ok (Fin x1, k1) ∧
    compute_policy_loss_geo_mean [o2] [l2] [a2] [m2] mode c None = Ok (Fin x2, k2) ∧
    compute_policy_loss_geo_mean [o1; o2] [l1; l2] [a1; a2] [m1; m2] mode c None = Ok (Fin ((x1 + x2) / 2), k).
Proof.
  unfold compute_policy_loss_geo_mean.
  assert (H1 : ∀ x : R, fdiv (rsum [x]) (INR (length [x])) = Fin x).
  { intros x. rewrite fdiv_Fin by (simpl; lra). simpl. f_equal. field. }
  assert (H2 : ∀ x y : R, fdiv (rsum [x; y]) (INR (length [x; y])) = Fin ((x + y) / 2)).
  { intros x y. rewrite fdiv_Fin by (simpl; lra). simpl. f_equal. field. }
  set (row o l a m := hd 0 (geo_mean_losses c [o] [l] [a] [m] None)).
  assert (E1 : ∀ o l a m, geo_mean_losses c [o] [l] [a] [m] None = [row o l a m]) by done.
  assert (E2 : geo_mean_losses c [o1; o2] [l1; l2] [a1; a2] [m1; m2] None = [row o1 l1 a1 m1; row o2 l2 a2 m2]) by done.
  exists (row o1 l1 a1 m1), (row o2 l2 a2 m2). rewrite !E1, E2, !H1, H2.
  eexists _, _, _. split_and!; reflexivity.
Qed.
