(* ===== verification/Metrics.v ===== *)
(** * Metric aggregation: [src/verl/utils/metric/utils.py]

    A metric value is a real or [NonFin] (NaN or infinite); tensors of one element are
    converted by [item()], so a value is a number here.  [np.mean] of an empty list is NaN. *)

From S2P Require Import Prelude PyStr GroupBy Rlsd TorchFunctional.
From Stdlib Require Import Reals Lra.
Local Open Scope R_scope.
Local Open Scope py_scope.

Inductive AggregationType := MEAN | SUM | MIN | MAX.
#[export] Instance aggregation_eq_dec : EqDecision AggregationType.
Proof. solve_decision. Defined.

Record Metric := { aggregation : AggregationType; metric_values : list fnum }.

(** [Metric(value=v, aggregation=a)], [append] of a number and [extend] by a metric. *)
Definition new_metric (a : AggregationType) (value : option fnum) : Metric :=
  {| aggregation := a; metric_values := option_list value |}.
Definition metric_append (m : Metric) (value : fnum) : Metric :=
  {| aggregation := aggregation m; metric_values := metric_values m ++ [value] |}.
Definition metric_extend (m other : Metric) : result Metric :=
  require bool_decide (aggregation other = aggregation m) else ValueError "Aggregation type mismatch" ;;
  Ok {| aggregation := aggregation m; metric_values := metric_values m ++ metric_values other |}.

Definition fmean (l : list fnum) : fnum :=
  match fsum l with Fin s => fdiv s (INR (length l)) | NonFin => NonFin end.
Definition aggregate_values (a : AggregationType) (l : list fnum) : result fnum :=
  match a with
  | MEAN => Ok (fmean l)
  | SUM => Ok (fsum l)
  | MIN => match l with
           | [] => Raise (ValueError "zero-size array to reduction operation minimum which has no identity")
           | x :: l => Ok (foldr (f2 Rmin) x l) end
  | MAX => match l with
           | [] => Raise (ValueError "zero-size array to reduction operation maximum which has no identity")
           | x :: l => Ok (foldr (f2 Rmax) x l) end
  end.
Definition aggregate (m : Metric) : result fnum := aggregate_values (aggregation m) (metric_values m).

(** [np.mean(value_arrays, axis=0)] of rows of one length. *)
Definition column_means (rows : list (list fnum)) : list fnum :=
  match rows with
  | [] => []
  | row :: _ => (λ k, fmean (omap (λ r : list fnum, r !! k) rows)) <$> seq 0 (length row)
  end.

Definition aggregate_dp (metric_lists : list Metric) : result fnum :=
  match metric_lists with
  | [] => Raise (ValueError "Cannot aggregate an empty list of metrics.")
  | first :: _ =>
      let value_lists := metric_values <$> metric_lists in
      require forallb (λ ls, Nat.eqb (length ls) (length (metric_values first))) value_lists
        else ValueError "All Metric instances must have the same number of values for dp aggregation" ;;
      match aggregation first with
      | SUM | MEAN => aggregate_values (aggregation first) (column_means value_lists)
      | MIN | MAX => aggregate_values (aggregation first) (concat value_lists)
      end
  end.

Definition from_dict (data : list (string * fnum)) (a : AggregationType) : list (string * Metric) :=
  (λ kv : string * fnum, (kv.1, new_metric a (Some kv.2))) <$> data.

(** [reduce_metrics]: a [Metric] aggregates itself, a plain list by its name. *)
Definition reduce_metric (key : string) (val : Metric + list fnum) : result fnum :=
  match val with
  | inl m => aggregate m
  | inr l => if contains "max" key then aggregate_values MAX l
             else if contains "min" key then aggregate_values MIN l
             else aggregate_values MEAN l
  end.
Definition reduce_metrics (metrics : list (string * (Metric + list fnum))) : result (list (string * fnum)) :=
  mapM (λ kv, v ← reduce_metric kv.1 kv.2; Ok (kv.1, v)) metrics.

(** ** Sums over ranks *)

Lemma fsum_Fin l : fsum (Fin <$> l) = Fin (rsum l).
Proof. induction l as [|x l IH]; [done|].
  change (f2 Rplus (Fin x) (fsum (Fin <$> l)) = Fin (x + rsum l)). by rewrite IH.
Qed.
Lemma fmean_Fin l : l ≠ [] → fmean (Fin <$> l) = Fin (rsum l / INR (length l)).
Proof.
  intros Hl. unfold fmean. rewrite fsum_Fin, length_fmap. unfold fdiv.
  destruct (Req_EM_T _ 0) as [E|]; [|done]. apply (INR_eq _ 0) in E. by destruct l.
Qed.

Lemma omap_heads {A} (x : A) (rows : list (list A)) k n :
  Forall (λ r, length r = n) rows → (k < n)%nat → length (omap (λ r : list A, r !! k) rows) = length rows.
Proof.
  induction 1 as [|r rows Hr _ IH]; intros Hk; [done|]. csimpl.
  destruct (lookup_lt_is_Some_2 r k) as [y ->]; [lia|]. simpl. by rewrite IH.
Qed.

Lemma sum_of_columns (rows : list (list R)) n :
  Forall (λ r, length r = n) rows →
  rsum ((λ k, rsum (omap (λ r : list R, r !! k) rows)) <$> seq 0 n) = rsum (rsum <$> rows).
Proof.
  induction 1 as [|r rows Hr Hall IH].
  - rewrite (rsum_ext _ (λ _, 0)) by done. rewrite rsum_const. simpl. lra.
  - rewrite fmap_cons, rsum_cons, <-IH.
    rewrite (rsum_ext _ (λ k, default 0 (r !! k) + rsum (omap (λ r : list R, r !! k) rows))).
    + rewrite rsum_add. f_equal. subst n. clear. induction r as [|x r IHr]; [done|].
      cbn [length seq]. rewrite fmap_cons, !rsum_cons. f_equal.
      rewrite <-IHr, <-(fmap_S_seq 0), <-list_fmap_compose. done.
    + intros k Hk. apply elem_of_seq in Hk. csimpl.
      destruct (lookup_lt_is_Some_2 r k) as [y ->]; [lia|]. done.
Qed.

Lemma omap_Fin (g : list (list R)) k :
  omap (λ r : list fnum, r !! k) ((λ vs : list R, Fin <$> vs) <$> g) = Fin <$> omap (λ r : list R, r !! k) g.
Proof. induction g as [|r g IH]; [done|]. csimpl. rewrite list_lookup_fmap. destruct (r !! k); csimpl; by rewrite IH. Qed.

Lemma column_means_Fin (row : list R) (grid : list (list R)) (n : nat) :
  Forall (λ r, length r = n) (row :: grid) →
  column_means ((λ vs : list R, Fin <$> vs) <$> row :: grid) =
    Fin <$> ((λ k, rsum (omap (λ r : list R, r !! k) (row :: grid)) / INR (length (row :: grid))) <$> seq 0 n).
Proof.
  intros Hall. assert (Hr : length row = n) by (by inversion Hall). set (g := row :: grid) in *.
  transitivity ((λ k, fmean (omap (λ r : list fnum, r !! k) ((λ vs : list R, Fin <$> vs) <$> g))) <$>
    seq 0 (length (Fin <$> row))); [done|].
  rewrite length_fmap, Hr, <-list_fmap_compose. apply list_fmap_ext. intros i k Hk.
  apply lookup_seq in Hk as [-> Hk]. rewrite omap_Fin. cbn [compose].
  assert (Hlen := omap_heads 0 g (0 + i) n Hall Hk). rewrite fmean_Fin; [by rewrite Hlen|].
  intros E%(f_equal length). by rewrite Hlen in E.
Qed.

(** A SUM metric of one value per micro-batch, on every rank. *)
Lemma sum_metric_aggregate_dp (grid : list (list R)) (n : nat) :
  grid ≠ [] → Forall (λ r, length r = n) grid →
  aggregate_dp ((λ vs, {| aggregation := SUM; metric_values := Fin <$> vs |}) <$> grid) =
    Ok (Fin (rsum (concat grid) / INR (length grid))).
Proof.
  intros Hne Hall. destruct grid as [|row grid]; [done|]. unfold aggregate_dp. rewrite fmap_cons.
  rewrite <-(fmap_cons (λ vs, {| aggregation := SUM; metric_values := Fin <$> vs |})).
  set (g := row :: grid) in *.
  assert (Hlists : metric_values <$> ((λ vs, {| aggregation := SUM; metric_values := Fin <$> vs |}) <$> g) =
    (λ vs : list R, Fin <$> vs) <$> g) by (by rewrite <-list_fmap_compose).
  rewrite Hlists. assert (Hr : length row = n) by (by inversion Hall).
  assert (Heq : forallb (λ ls : list fnum, Nat.eqb (length ls) (length (Fin <$> row))) ((λ vs : list R, Fin <$> vs) <$> g) = true).
  { apply forallb_Forall, Forall_fmap. eapply Forall_impl; [exact Hall|]. intros r Hl. cbn.
    apply Nat.eqb_eq. rewrite !length_fmap. congruence. }
  cbn [metric_values aggregation]. rewrite Heq.
  assert (Hcol := column_means_Fin row grid n Hall). fold g in Hcol.
  rewrite Hcol. unfold aggregate_values. rewrite fsum_Fin. do 2 f_equal. rewrite rsum_concat.
  rewrite <-(sum_of_columns g n) by done.
  rewrite (rsum_ext _ (λ k, / INR (length g) * rsum (omap (λ r : list R, r !! k) g)))
    by (intros; unfold Rdiv; ring).
  rewrite rsum_scale_f. unfold Rdiv. ring.
Qed.
