(* ===== verification/ActorLoss.v ===== *)
(** * Loss functions of the workers: [src/verl/workers/utils/losses.py]

    The fields of an update batch are dense tensors of finite reals (the result of
    [select(...).to_padded_tensor()]); model outputs are flat and go through
    [Padding.no_padding_2_padding].  [config.global_batch_info] is rewritten by every call
    before it is read, so the rewritten configuration is local to a call here.  RLSD and
    OPD-PG run on finite floats and return finite floats ([rlsd_finite], [opd_finite]);
    [fval] reads them back. *)

From S2P Require Import Prelude GroupBy PyDict Rlsd TorchFunctional Padding PolicyLoss Metrics.
From Stdlib Require Import Reals Lra.
Local Open Scope R_scope.
Local Open Scope py_scope.

Definition to_fin (t : tensor R) : tensor fnum := tmap Fin t.
Definition fval (x : fnum) : R := match x with Fin r => r | NonFin => 0 end.
Definition of_fin (t : tensor fnum) : tensor R := tmap fval t.

(** ** The update batch *)

Record loss_batch := {
  b_response_mask : tensor bool; b_old_log_probs : tensor R; b_advantages : tensor R;
  b_teacher_pi_log_probs : option (tensor R); b_rlsd_token_mask : option (tensor bool);
  b_teacher_opd_log_probs : option (tensor R); b_rollout_is_weights : option (tensor R);
  b_ref_log_prob : option (tensor R); b_rlsd_effective_lambda : option R;
  b_dp_size : nat; b_batch_num_tokens : option nat; b_global_batch_size : option nat }.

Definition with_batch_info (c : ActorConfig) (d : loss_batch) : ActorConfig := {|
  clip_ratio := clip_ratio c; clip_ratio_low := clip_ratio_low c; clip_ratio_high := clip_ratio_high c;
  clip_ratio_c := clip_ratio_c c; tau_pos := tau_pos c; tau_neg := tau_neg c;
  loss_agg_mode := loss_agg_mode c; cfg_loss_scale_factor := cfg_loss_scale_factor c;
  entropy_coeff := entropy_coeff c; use_kl_loss := use_kl_loss c; kl_loss_coef := kl_loss_coef c;
  kl_loss_type := kl_loss_type c; policy_loss := policy_loss c;
  global_batch_info := {| dp_size := b_dp_size d; batch_num_tokens := b_batch_num_tokens d;
                          global_batch_size := b_global_batch_size d;
                          loss_scale_factor := cfg_loss_scale_factor c |} |}.

Definition metric_aggregation (c : ActorConfig) (d : loss_batch) : AggregationType :=
  if Nat.ltb 1 (b_dp_size d) || bool_decide (b_batch_num_tokens d ≠ None)
     || bool_decide (b_global_batch_size d ≠ None) || bool_decide (cfg_loss_scale_factor c ≠ None)
  then SUM else MEAN.

(** Metric dictionaries: [kl_coef] is a plain number. *)
Definition metric_dict := list (string * (Metric + R)).
Definition update_metrics (metrics : metric_dict) (new : list (string * Metric)) : metric_dict :=
  foldl (λ d kv, dset kv.1 (inl kv.2) d) metrics new.
Definition set_metric (key : string) (a : AggregationType) (v : fnum) (metrics : metric_dict) : metric_dict :=
  dset key (inl (new_metric a (Some v))) metrics.

(** ** Advantages of the two distillation modes *)

Definition rlsd_metric_items (m : rlsd_metrics) : list (string * fnum) :=
  [("rlsd/delta_mean", m_delta_mean m); ("rlsd/delta_std", m_delta_std m);
   ("rlsd/log_weight_mean", m_log_weight_mean m); ("rlsd/log_weight_std", m_log_weight_std m);
   ("rlsd/weight_mean", m_weight_mean m); ("rlsd/weight_std", m_weight_std m);
   ("rlsd/clip_low_ratio", m_clip_low_ratio m); ("rlsd/clip_high_ratio", m_clip_high_ratio m);
   ("rlsd/token_mask_ratio", Fin (m_token_mask_ratio m)); ("rlsd/effective_lambda", Fin (m_effective_lambda m));
   ("rlsd/adv_abs_mean_before", m_adv_abs_mean_before m); ("rlsd/adv_abs_mean_after", m_adv_abs_mean_after m);
   ("rlsd/sign_flip_count", Fin (INR (m_sign_flip_count m)));
   ("rlsd/delta_pos_adv_mean", m_delta_pos_adv_mean m);
   ("rlsd/delta_neg_adv_mean", m_delta_neg_adv_mean m)]%string.
Definition opd_metric_items (m : opd_metrics) : list (string * fnum) :=
  [("opd/logratio_mean", o_logratio_mean m); ("opd/logratio_abs_mean", o_logratio_abs_mean m);
   ("opd/logratio_p99", o_logratio_p99 m); ("opd/logratio_clamp_ratio", o_logratio_clamp_ratio m);
   ("opd/teacher_logp_mean", o_teacher_logp_mean m);
   ("opd/student_old_logp_mean", o_student_old_logp_mean m)]%string.

Section losses.
(** [torch.quantile] of OPD-PG's metrics, [str.lower], and the registered losses. *)
Context (quantile : list fnum → R → fnum) (lower : string → string)
        (registry : list (string * policy_loss_fn)).

Definition rlsd_config (c : ActorConfig) (d : loss_batch) : RLSDConfig := {|
  lam := default (rlsd_lambda (policy_loss c)) (b_rlsd_effective_lambda d);
  clip_range := rlsd_reweight_clip_range (policy_loss c);
  negative_only := rlsd_negative_only (policy_loss c) |}.

Definition rlsd_student (c : ActorConfig) (log_prob old_log_prob : tensor R) : result (tensor R) :=
  let source := lower (rlsd_delta_student_logp_source (policy_loss c)) in
  if bool_decide (source = "current"%string) then Ok log_prob
  else if bool_decide (source = "old"%string) then Ok old_log_prob
  else Raise (ValueError "actor.policy_loss.rlsd_delta_student_logp_source must be 'current' or 'old'").

Definition rlsd_step (c : ActorConfig) (d : loss_batch) (log_prob advantages : tensor R) (metrics : metric_dict) :
    result (tensor R * metric_dict) :=
  if rlsd_enabled (policy_loss c) then
    teacher ← of_option (KeyError "teacher_pi_log_probs") (b_teacher_pi_log_probs d);
    student ← rlsd_student c log_prob (b_old_log_probs d);
    '(adv, m) ← compute_rlsd_advantages (to_fin teacher) (to_fin student) (to_fin advantages) (b_response_mask d)
                  (b_rlsd_token_mask d) (rlsd_config c d);
    Ok (of_fin adv, update_metrics metrics (from_dict (rlsd_metric_items m) MEAN))
  else Ok (advantages, metrics).

Definition opd_step (c : ActorConfig) (d : loss_batch) (advantages : tensor R) (metrics : metric_dict) :
    result (tensor R * metric_dict) :=
  if opd_pg_enabled (policy_loss c) then
    teacher ← of_option (KeyError "teacher_opd_log_probs") (b_teacher_opd_log_probs d);
    '(adv, m) ← compute_opd_pg_advantages quantile (to_fin teacher) (to_fin (b_old_log_probs d)) (b_response_mask d)
                  (opd_logratio_clip_abs (policy_loss c));
    Ok (of_fin adv, update_metrics metrics (from_dict (opd_metric_items m) MEAN))
  else Ok (advantages, metrics).

(** ** [ppo_loss] *)

Definition check_modes (c : ActorConfig) (d : loss_batch) : result unit :=
  let rlsd := rlsd_enabled (policy_loss c) in
  let opd := opd_pg_enabled (policy_loss c) in
  require negb (rlsd && opd)
    else ValueError "actor.policy_loss.rlsd_enabled and opd_pg_enabled are mutually exclusive" ;;
  require negb rlsd || bool_decide (b_teacher_pi_log_probs d ≠ None)
    else ValueError "actor.policy_loss.rlsd_enabled=True requires teacher_pi_log_probs in the update batch" ;;
  require negb opd || bool_decide (b_teacher_opd_log_probs d ≠ None)
    else ValueError "actor.policy_loss.opd_pg_enabled=True requires teacher_opd_log_probs in the update batch" ;;
  Ok tt.

Definition tensor_mapM2 {A B C} (f : A → B → result C) (t : tensor A) (u : tensor B) : result (tensor C) :=
  mapM (mapM (λ ab : A * B, f ab.1 ab.2)) (tzip pair t u).

Definition add_entropy_loss (c : ActorConfig) (d : loss_batch) (entropy : option (tensor R))
    (loss : fnum) (metrics : metric_dict) : result (fnum * metric_dict) :=
  match entropy with
  | None => Ok (loss, metrics)
  | Some e =>
      entropy_loss ← agg_loss e (b_response_mask d) (loss_agg_mode c) (global_batch_info c);
      Ok (f2 Rminus loss (f1 (λ x, entropy_coeff c * x) entropy_loss),
          set_metric "actor/entropy_loss" (metric_aggregation c d) entropy_loss metrics)
  end.

Definition add_kl_loss (c : ActorConfig) (d : loss_batch) (log_prob : tensor R)
    (loss : fnum) (metrics : metric_dict) : result (fnum * metric_dict) :=
  if use_kl_loss c then
    ref_log_prob ← of_option (KeyError "ref_log_prob") (b_ref_log_prob d);
    kld ← tensor_mapM2 (λ lp r, kl_penalty lp r (kl_loss_type c)) log_prob ref_log_prob;
    kl_loss ← agg_loss kld (b_response_mask d) (loss_agg_mode c) (global_batch_info c);
    Ok (f2 Rplus loss (f1 (λ x, x * kl_loss_coef c) kl_loss),
        dset "kl_coef" (inr (kl_loss_coef c)) (set_metric "kl_loss" (metric_aggregation c d) kl_loss metrics))
  else Ok (loss, metrics).

(** From padded log probabilities and entropies on. *)
Definition ppo_loss_padded (config : ActorConfig) (log_prob : tensor R) (entropy : option (tensor R))
    (d : loss_batch) : result (fnum * metric_dict) :=
  let c := with_batch_info config d in
  _ ← check_modes c d;
  '(advantages, metrics) ← rlsd_step c d log_prob (b_advantages d) [];
  '(advantages, metrics) ← opd_step c d advantages metrics;
  policy_loss_fn ← get_policy_loss_fn registry (loss_mode (policy_loss c));
  '(pg_loss, pg_metrics) ← policy_loss_fn (b_old_log_probs d) log_prob advantages (b_response_mask d)
      (loss_agg_mode c) c (b_rollout_is_weights d);
  let metrics := update_metrics metrics (from_dict ((λ kv, (kv.1, Fin kv.2)) <$> pg_metrics) MEAN) in
  let metrics := set_metric "actor/pg_loss" (metric_aggregation c d) pg_loss metrics in
  '(loss, metrics) ← add_entropy_loss c d entropy pg_loss metrics;
  add_kl_loss c d log_prob loss metrics.

Definition ppo_loss (config : ActorConfig) (log_probs : list R) (entropy : option (list R))
    (nested : nested_data) (d : loss_batch) : result (fnum * metric_dict) :=
  log_prob ← no_padding_2_padding 0 log_probs nested;
  entropy ← match entropy with
            | None => Ok None
            | Some e => padded ← no_padding_2_padding 0 e nested; Ok (Some padded)
            end;
  ppo_loss_padded config log_prob entropy d.
End losses.

(** ** [sft_loss]: the flattened mask is rolled left by one *)

Definition roll_left {A} (l : list A) : list A := drop 1 l ++ take 1 l.
Definition sft_loss_no_padding (log_probs : list R) (loss_mask : list bool) (batch_num_tokens dp : nat) : fnum :=
  f1 (λ x, x * INR dp) (fdiv (- row_masked_sum log_probs (roll_left loss_mask)) (INR batch_num_tokens)).
Definition sft_loss_padded (log_probs : tensor R) (response_mask : tensor bool) (batch_num_tokens dp : nat) : fnum :=
  f1 (λ x, x * INR dp) (fdiv (- masked_sum log_probs response_mask) (INR batch_num_tokens)).

(** ** [value_loss] *)

Definition value_loss (cliprange_value : R) (mode : string) (vpreds : list R) (nested : nested_data)
    (values returns : tensor R) (response_mask : tensor bool) : result (fnum * list (string * fnum)) :=
  vpreds ← no_padding_2_padding 0 vpreds nested;
  '(vf_loss, vf_clipfrac) ← compute_value_loss vpreds returns values response_mask cliprange_value mode;
  Ok (vf_loss, [("critic/vf_loss", vf_loss); ("critic/vf_clipfrac", Fin vf_clipfrac);
                ("critic/vpred_mean", Fin (TorchFunctional.masked_mean vpreds response_mask))]%string).

(** ** Row-locality: a batch is its rows, and every per-token quantity of a row depends on
    that row only. *)

Record row := {
  r_mask : list bool; r_old : list R; r_log_prob : list R; r_adv : list R; r_teacher : list R;
  r_credit : list bool; r_weight : list R; r_ref : list R; r_entropy : list R }.

(** The optional fields a batch carries. *)
Record fields := { has_credit : bool; has_weight : bool; has_ref : bool; has_entropy : bool }.
Definition opt {A} (b : bool) (x : A) : option A := if b then Some x else None.

Definition batch_of (fl : fields) (lambda : option R) (dp : nat) (tokens seqs : option nat) (rows : list row) :
    loss_batch := {|
  b_response_mask := r_mask <$> rows; b_old_log_probs := r_old <$> rows; b_advantages := r_adv <$> rows;
  b_teacher_pi_log_probs := Some (r_teacher <$> rows);
  b_rlsd_token_mask := opt (has_credit fl) (r_credit <$> rows); b_teacher_opd_log_probs := None;
  b_rollout_is_weights := opt (has_weight fl) (r_weight <$> rows);
  b_ref_log_prob := opt (has_ref fl) (r_ref <$> rows); b_rlsd_effective_lambda := lambda;
  b_dp_size := dp; b_batch_num_tokens := tokens; b_global_batch_size := seqs |}.

Definition row_ok (width : nat) (r : row) : Prop :=
  length (r_mask r) = width ∧ length (r_old r) = width ∧ length (r_log_prob r) = width ∧
  length (r_adv r) = width ∧ length (r_teacher r) = width ∧ length (r_credit r) = width ∧
  length (r_weight r) = width ∧ length (r_ref r) = width ∧ length (r_entropy r) = width.

(** RLSD's advantages of a batch, row by row. *)
Definition rlsd_advantages (rc : RLSDConfig) (credit : bool) (rows : list row) : tensor fnum :=
  reweighted_advantages (to_fin (r_teacher <$> rows)) (to_fin (r_log_prob <$> rows)) (to_fin (r_adv <$> rows))
    (r_mask <$> rows) (opt credit (r_credit <$> rows)) rc.

Lemma rlsd_advantages_cons rc credit r rows :
  rlsd_advantages rc credit (r :: rows) = rlsd_advantages rc credit [r] ++ rlsd_advantages rc credit rows.
Proof.
  unfold rlsd_advantages, reweighted_advantages, reweight, base_reweight, credit_mask, rlsd_reweight, clipped_weights,
    signed_delta, delta, negative_seq, to_fin, opt.
  destruct (negative_only rc), credit; reflexivity.
Qed.

Lemma rlsd_advantages_one rc credit r : ∃ l, rlsd_advantages rc credit [r] = [l].
Proof.
  unfold rlsd_advantages, reweighted_advantages, reweight, opt.
  destruct (negative_only rc), credit; eexists; reflexivity.
Qed.

Lemma rlsd_advantages_nil rc credit : rlsd_advantages rc credit [] = [].
Proof.
  unfold rlsd_advantages, reweighted_advantages, reweight, opt. destruct (negative_only rc), credit; reflexivity.
Qed.

(** ** Linearity of the aggregation *)

Lemma row_masked_sum_linear a b l k m :
  length l = length k →
  row_masked_sum (zip_with (λ x y, a * x + b * y) l k) m = a * row_masked_sum l m + b * row_masked_sum k m.
Proof.
  unfold row_masked_sum. revert k m. induction l as [|x l IH]; intros [|y k] [|m ms] [=]; simpl; try lra.
  rewrite IH by done. destruct m; unfold where_mask, b2r; ring.
Qed.
Lemma row_mul_linear a b l k m :
  length l = length k →
  rsum (row_mul (zip_with (λ x y, a * x + b * y) l k) m) = a * rsum (row_mul l m) + b * rsum (row_mul k m).
Proof.
  unfold row_mul. revert k m. induction l as [|x l IH]; intros [|y k] [|m ms] [=]; simpl; try lra.
  rewrite IH by done. ring.
Qed.
Lemma masked_sum_linear a b t u mask :
  same_shape t u →
  masked_sum (tzip (λ x y, a * x + b * y) t u) mask = a * masked_sum t mask + b * masked_sum u mask.
Proof.
  intros H. unfold masked_sum. revert mask. induction H as [|r s t u Hr _ IH]; intros [|m mask]; simpl; try lra.
  rewrite row_masked_sum_linear by done. unfold tzip in IH. rewrite IH. ring.
Qed.
Lemma seq_sums_linear a b t u mask :
  same_shape t u →
  seq_sums (tzip (λ x y, a * x + b * y) t u) mask =
    zip_with (λ x y, a * x + b * y) (seq_sums t mask) (seq_sums u mask).
Proof.
  unfold seq_sums, mask_mul. intros H. revert mask. induction H as [|r s t u Hr _ IH]; intros [|m mask]; [done..|].
  csimpl. rewrite row_mul_linear by done. f_equal. apply IH.
Qed.

Lemma agg_numerator_linear mode a b t u mask :
  same_shape t u →
  agg_numerator mode (tzip (λ x y, a * x + b * y) t u) mask =
    a * agg_numerator mode t mask + b * agg_numerator mode u mask.
Proof.
  intros H. unfold agg_numerator. rewrite masked_sum_linear, seq_sums_linear by done.
  assert (Hl : length (seq_sums t mask) = length (seq_sums u mask)).
  { unfold seq_sums, mask_mul. rewrite !length_fmap, !length_zip_with. by rewrite (Forall2_length _ _ _ H). }
  repeat case_bool_decide; [done| |by apply row_masked_sum_linear].
  rewrite <-row_masked_sum_linear by (rewrite !length_zip_with; lia). f_equal.
  revert Hl. generalize (seq_sums t mask), (seq_sums u mask). clear.
  intros l k. revert k mask. induction l as [|x l IH]; intros [|y k] [|m mask] [=]; csimpl; [done..|].
  rewrite IH by done. f_equal. unfold Rdiv. ring.
Qed.

(** ** The total loss of a token *)

Section total.
Context (c : ActorConfig) (rc : RLSDConfig) (fl : fields).

Definition kl_estimate (lp ref : R) : R :=
  match kl_penalty lp ref (kl_loss_type c) with Ok k => k | Raise _ => 0 end.
Definition policy_part (rows : list row) : tensor R :=
  vanilla_losses c (r_old <$> rows) (r_log_prob <$> rows) (of_fin (rlsd_advantages rc (has_credit fl) rows))
    (opt (has_weight fl) (r_weight <$> rows)).
Definition with_entropy (rows : list row) : tensor R :=
  if has_entropy fl then tzip (λ l e, 1 * l + - entropy_coeff c * e) (policy_part rows) (r_entropy <$> rows)
  else policy_part rows.
Definition kl_part (rows : list row) : tensor R := tzip kl_estimate (r_log_prob <$> rows) (r_ref <$> rows).
(** Policy loss minus weighted entropy plus weighted KL penalty. *)
Definition total_losses (rows : list row) : tensor R :=
  if use_kl_loss c then tzip (λ l k, 1 * l + kl_loss_coef c * k) (with_entropy rows) (kl_part rows)
  else with_entropy rows.

Lemma policy_part_cons r rows : policy_part (r :: rows) = policy_part [r] ++ policy_part rows.
Proof using Type.
  unfold policy_part. rewrite rlsd_advantages_cons.
  destruct (rlsd_advantages_one rc (has_credit fl) r) as [l ->]. unfold opt.
  destruct (has_weight fl); reflexivity.
Qed.
Lemma policy_part_one r : ∃ l, policy_part [r] = [l].
Proof using Type.
  unfold policy_part. destruct (rlsd_advantages_one rc (has_credit fl) r) as [l ->]. unfold opt.
  destruct (has_weight fl); eexists; reflexivity.
Qed.

Lemma total_losses_cons r rows : total_losses (r :: rows) = total_losses [r] ++ total_losses rows.
Proof using Type.
  unfold total_losses, with_entropy. rewrite policy_part_cons. destruct (policy_part_one r) as [l ->].
  destruct (use_kl_loss c), (has_entropy fl); reflexivity.
Qed.
Lemma total_losses_nil : total_losses [] = [].
Proof using Type.
  unfold total_losses, with_entropy, policy_part. rewrite rlsd_advantages_nil. unfold opt.
  destruct (use_kl_loss c), (has_entropy fl), (has_weight fl); reflexivity.
Qed.
Lemma total_losses_app rows1 rows2 : total_losses (rows1 ++ rows2) = total_losses rows1 ++ total_losses rows2.
Proof using Type.
  induction rows1 as [|r rows1 IH]; cbn [app].
  - by rewrite total_losses_nil.
  - rewrite total_losses_cons, IH, (total_losses_cons r rows1). by rewrite (assoc_L (++)).
Qed.
Lemma total_losses_concat shards : total_losses (concat shards) = concat (total_losses <$> shards).
Proof using Type.
  induction shards as [|s shards IH]; csimpl.
  - apply total_losses_nil.
  - by rewrite total_losses_app, IH.
Qed.

(** ** Shapes *)

Lemma shape_rows {A} width (f : row → list A) rows :
  (∀ r, row_ok width r → length (f r) = width) → Forall (row_ok width) rows →
  shape (f <$> rows) = replicate (length rows) width.
Proof using Type.
  intros Hf. induction 1 as [|r rows Hr _ IH]; [done|]. unfold shape in *. csimpl. by rewrite (Hf r Hr), IH.
Qed.
End total.

Lemma shape_same {A B} (t : tensor A) (u : tensor B) : shape t = shape u → same_shape t u.
Proof.
  unfold shape, same_shape. revert u. induction t as [|r t IH]; intros [|s u] H; try done.
  csimpl in H. injection H as H1 H2. constructor; [done|by apply IH].
Qed.

Definition fin_tensor (t : tensor fnum) : Prop := Forall (Forall (λ x, is_fin x = true)) t.

Lemma fin_tmap f t : fin_tensor t → fin_tensor (tmap (f1 f) t).
Proof.
  unfold fin_tensor, tmap. intros H. apply Forall_fmap. eapply Forall_impl; [exact H|]. intros r Hr.
  apply Forall_fmap. eapply Forall_impl; [exact Hr|]. by intros [].
Qed.
Lemma fin_tmap_any {A} (f : A → fnum) (t : tensor A) : (∀ a, is_fin (f a) = true) → fin_tensor (tmap f t).
Proof.
  intros Hf. apply Forall_fmap, Forall_true. intros r. apply Forall_fmap, Forall_true. intros a. apply Hf.
Qed.
Lemma Forall_zip_with_any {A B C} (P : A → Prop) (Q : B → Prop) (S : C → Prop) (f : A → B → C) l k :
  (∀ a b, P a → Q b → S (f a b)) → Forall P l → Forall Q k → Forall S (zip_with f l k).
Proof.
  intros Hf Hl. revert k. induction Hl as [|a l Ha _ IH]; intros k Hk; [constructor|].
  destruct Hk as [|b k Hb Hk]; simpl; [constructor|]. constructor; [by apply Hf|by apply IH].
Qed.
Lemma fin_tzip f t u : fin_tensor t → fin_tensor u → fin_tensor (tzip (f2 f) t u).
Proof.
  intros Ht Hu. unfold fin_tensor, tzip. eapply Forall_zip_with_any; [|exact Ht|exact Hu].
  intros r s Hr Hs. cbn beta. eapply Forall_zip_with_any; [|exact Hr|exact Hs]. by intros [] [].
Qed.
Lemma fin_where (cond : tensor bool) (t : tensor fnum) x :
  is_fin x = true → fin_tensor t → fin_tensor (tzip (λ b w, if (b : bool) then w else x) cond t).
Proof.
  intros Hx Ht. eapply (Forall_zip_with_any (λ _, True)); [|by apply Forall_true|exact Ht].
  intros r s _ Hs. cbn beta. eapply (Forall_zip_with_any (λ _, True)); [|by apply Forall_true|exact Hs].
  by intros [] w _ Hw.
Qed.

(** On finite inputs RLSD and OPD-PG return finite tensors. *)
Lemma rlsd_finite teacher student adv mask tm rc :
  fin_tensor (reweighted_advantages (to_fin teacher) (to_fin student) (to_fin adv) mask tm rc).
Proof.
  assert (Hf : ∀ t, fin_tensor (to_fin t)) by (intros t; by apply fin_tmap_any).
  assert (Hm : fin_tensor (tmap b2f mask)) by (by apply fin_tmap_any).
  assert (Hw : fin_tensor (base_reweight (to_fin teacher) (to_fin student) (to_fin adv) mask tm rc)).
  { apply fin_tzip; [|done]. apply fin_where; [done|]. unfold rlsd_reweight, clipped_weights, signed_delta, delta.
    repeat first [apply fin_tmap|apply fin_tzip]; auto. }
  unfold reweighted_advantages. apply fin_tzip; [|done]. apply fin_tzip; [done|]. unfold reweight.
  destruct (negative_only rc); [|done].
  apply (Forall_zip_with_any (λ _, True) (λ wm : list fnum * list fnum,
    Forall (λ x, is_fin x = true) wm.1 ∧ Forall (λ x, is_fin x = true) wm.2)); [|by apply Forall_true|].
  - intros neg [w m] _ [H1 H2]. cbn in *. eapply Forall_zip_with_any; [|exact H1|exact H2].
    by intros [] [] ? ?.
  - apply (Forall_zip_with_any (Forall (λ x, is_fin x = true)) (Forall (λ x, is_fin x = true))); [|exact Hw|exact Hm].
    by intros.
Qed.

Lemma opd_finite teacher student mask clip :
  fin_tensor (token_advantages (to_fin teacher) (to_fin student) mask clip).
Proof.
  assert (Hf : ∀ t, fin_tensor (to_fin t)) by (intros t; by apply fin_tmap_any).
  assert (Hm : fin_tensor (tmap b2f mask)) by (by apply fin_tmap_any).
  unfold token_advantages, raw_logratio. repeat first [apply fin_tmap|apply fin_tzip]; auto.
Qed.

Lemma length_negative_seq adv mask : length adv = length mask → length (negative_seq adv mask) = length adv.
Proof. intros H. unfold negative_seq, tzip, tmap. rewrite length_fmap, length_zip_with, length_fmap. lia. Qed.

Lemma shape_rlsd rc credit rows width :
  Forall (row_ok width) rows → shape (rlsd_advantages rc credit rows) = replicate (length rows) width.
Proof.
  intros Hrows. induction Hrows as [|r rows Hr _ IH]; [by rewrite rlsd_advantages_nil|].
  rewrite rlsd_advantages_cons. unfold shape in *. rewrite fmap_app, IH. cbn [length replicate].
  destruct Hr as (Hm & Ho & Hl & Ha & Ht & Hc & _).
  unfold rlsd_advantages, reweighted_advantages, reweight, opt.
  destruct (negative_only rc), credit; csimpl; f_equal;
    repeat rewrite ?length_zip_with, ?length_fmap; lia.
Qed.

(** ** The value of [ppo_loss] in RLSD mode with the [vanilla] loss *)

Section ppo_value.
Context (quantile : list fnum → R → fnum) (lower : string → string)
        (registry : list (string * policy_loss_fn)).
Context (c : ActorConfig) (fl : fields) (lambda : option R) (width : nat).

Definition rc_of : RLSDConfig := {|
  lam := default (rlsd_lambda (policy_loss c)) lambda;
  clip_range := rlsd_reweight_clip_range (policy_loss c); negative_only := rlsd_negative_only (policy_loss c) |}.
Definition total (rows : list row) : tensor R := total_losses c rc_of fl rows.

(** What the configuration and the batch must provide. *)
Record rlsd_ppo_config : Prop := {
  rp_modes : rlsd_enabled (policy_loss c) = true ∧ opd_pg_enabled (policy_loss c) = false;
  rp_source : lower (rlsd_delta_student_logp_source (policy_loss c)) = "current"%string;
  rp_loss : get_policy_loss_fn registry (loss_mode (policy_loss c)) = Ok compute_policy_loss_vanilla;
  rp_bound : 1 < default 3 (clip_ratio_c c);
  rp_agg : loss_agg_mode c ∈ valid_modes;
  rp_lam : 0 <= lam rc_of <= 1;
  rp_clip : 0 <= clip_range rc_of < 1;
  rp_kl : use_kl_loss c = true → has_ref fl = true ∧ base_penalty (kl_loss_type c) ∈ forward_names }.
Hypothesis Hc : rlsd_ppo_config.

Lemma rows_rlsd_valid rows :
  Forall (row_ok width) rows →
  rlsd_valid (to_fin (r_teacher <$> rows)) (to_fin (r_log_prob <$> rows)) (to_fin (r_adv <$> rows))
    (r_mask <$> rows) (opt (has_credit fl) (r_credit <$> rows)) rc_of.
Proof using Hc.
  intros Hrows.
  assert (Hs : ∀ A (f : row → list A), (∀ r, row_ok width r → length (f r) = width) →
    shape (f <$> rows) = replicate (length rows) width) by (intros A f Hf; by apply shape_rows).
  assert (St : shape (r_teacher <$> rows) = replicate (length rows) width) by (apply Hs; by intros r (?&?&?&?&?&?)).
  assert (Sl : shape (r_log_prob <$> rows) = replicate (length rows) width) by (apply Hs; by intros r (?&?&?&?&?&?)).
  assert (Sa : shape (r_adv <$> rows) = replicate (length rows) width) by (apply Hs; by intros r (?&?&?&?&?&?)).
  assert (Sm : shape (r_mask <$> rows) = replicate (length rows) width) by (apply Hs; by intros r (?&?&?&?&?&?)).
  split; [apply Hc|apply Hc| | |].
  - unfold to_fin. rewrite !shape_tmap, St, Sl, Sa, Sm. done.
  - unfold opt. destruct (has_credit fl); [|done]. rewrite Sm. apply Hs. by intros r (?&?&?&?&?&?&?).
  - intros i j Hm. unfold to_fin.
    destruct (tget_shape _ (r_teacher <$> rows) i j true (eq_trans Sm (eq_sym St)) Hm) as [t Ht].
    destruct (tget_shape _ (r_log_prob <$> rows) i j true (eq_trans Sm (eq_sym Sl)) Hm) as [s Hsx].
    destruct (tget_shape _ (r_adv <$> rows) i j true (eq_trans Sm (eq_sym Sa)) Hm) as [a Ha].
    exists t, s, a. by rewrite !tget_tmap, Ht, Hsx, Ha.
Qed.

Lemma tensor_mapM2_Ok {A B C} (f : A → B → result C) (g : A → B → C) t u :
  (∀ a b, f a b = Ok (g a b)) → tensor_mapM2 f t u = Ok (tzip g t u).
Proof using Type.
  intros Hf. unfold tensor_mapM2. rewrite (mapM_Ok_map _ (λ r : list (A * B), (λ ab : A * B, g ab.1 ab.2) <$> r)).
  - f_equal. unfold tzip. rewrite fmap_zip_with. apply zip_with_ext; [|done..]. intros r s.
    by rewrite fmap_zip_with.
  - intros r _. apply mapM_Ok_map. by intros ab _.
Qed.

Lemma kl_estimate_Ok lp ref : base_penalty (kl_loss_type c) ∈ forward_names →
  kl_penalty lp ref (kl_loss_type c) = Ok (kl_estimate c lp ref).
Proof using Type.
  intros Hb. unfold kl_estimate. pose proof (proj2 (kl_penalty_forward_ok lp ref _) Hb) as Hok.
  rewrite kl_penalty_base. by destruct (kl_penalty_forward lp ref (base_penalty (kl_loss_type c))).
Qed.

Lemma shape_policy_part rows : Forall (row_ok width) rows →
  shape (policy_part c rc_of fl rows) = replicate (length rows) width.
Proof using Type.
  induction 1 as [|r rows Hr Hall IH].
  - unfold policy_part. rewrite rlsd_advantages_nil. unfold opt. by destruct (has_weight fl).
  - rewrite policy_part_cons. unfold shape in *. rewrite fmap_app, IH. cbn [length replicate].
    pose proof (shape_rlsd rc_of (has_credit fl) [r] width ltac:(by constructor)) as Hs.
    unfold policy_part. destruct (rlsd_advantages_one rc_of (has_credit fl) r) as [l El]. rewrite El in *.
    unfold shape in Hs. injection Hs as Hs. destruct Hr as (Hm & Ho & Hl & Ha & Ht & Hc' & Hw & _).
    unfold opt, vanilla_losses, clipped_losses, with_weights, of_fin, neg_mul, negative_approx_kl, tmap, tzip.
    destruct (has_weight fl); csimpl; f_equal; repeat rewrite ?length_zip_with, ?length_fmap; lia.
Qed.

Lemma shape_with_entropy rows : Forall (row_ok width) rows →
  shape (with_entropy c rc_of fl rows) = replicate (length rows) width.
Proof using Type.
  intros Hrows. unfold with_entropy. destruct (has_entropy fl); [|by apply shape_policy_part].
  rewrite shape_tzip; [by apply shape_policy_part|]. rewrite shape_policy_part by done. symmetry.
  apply (shape_rows width); [|done]. by intros r (?&?&?&?&?&?&?&?&?).
Qed.

Lemma total_numerator mode rows mask : Forall (row_ok width) rows →
  agg_numerator mode (total rows) mask =
    agg_numerator mode (policy_part c rc_of fl rows) mask
    - (if has_entropy fl then entropy_coeff c * agg_numerator mode (r_entropy <$> rows) mask else 0)
    + (if use_kl_loss c then kl_loss_coef c * agg_numerator mode (kl_part c rows) mask else 0).
Proof using Type.
  intros Hrows. unfold total, total_losses.
  assert (Hsr : ∀ A (f : row → list A), (∀ r, row_ok width r → length (f r) = width) →
    shape (f <$> rows) = replicate (length rows) width) by (intros A f Hf; by apply shape_rows).
  assert (He : agg_numerator mode (with_entropy c rc_of fl rows) mask =
    agg_numerator mode (policy_part c rc_of fl rows) mask
    - (if has_entropy fl then entropy_coeff c * agg_numerator mode (r_entropy <$> rows) mask else 0)).
  { unfold with_entropy. destruct (has_entropy fl); [|lra]. rewrite agg_numerator_linear; [lra|].
    apply shape_same. rewrite shape_policy_part by done. symmetry. apply Hsr. by intros r (?&?&?&?&?&?&?&?&?). }
  rewrite <-He. destruct (use_kl_loss c); [|lra]. rewrite agg_numerator_linear; [lra|].
  apply shape_same. rewrite shape_with_entropy by done. unfold kl_part. symmetry.
  rewrite shape_tzip; [apply Hsr; by intros r (?&?&?&?&?&?&?&?&?)|].
  rewrite !Hsr; [done|by intros r (?&?&?&?&?&?&?&?&?)..].
Qed.

Lemma length_total rows : Forall (row_ok width) rows → length (total rows) = length rows.
Proof using Type.
  intros Hrows. unfold total, total_losses.
  assert (Hl : length (with_entropy c rc_of fl rows) = length rows).
  { pose proof (shape_with_entropy rows Hrows) as Hs. apply (f_equal length) in Hs. unfold shape in Hs.
    by rewrite length_fmap, length_replicate in Hs. }
  destruct (use_kl_loss c); [|done]. unfold tzip, kl_part, tzip. rewrite !length_zip_with, !length_fmap. lia.
Qed.

Definition ppo_run (dp : nat) (tokens seqs : option nat) (rows : list row) : result (fnum * metric_dict) :=
  ppo_loss_padded quantile lower registry c (r_log_prob <$> rows) (opt (has_entropy fl) (r_entropy <$> rows))
    (batch_of fl lambda dp tokens seqs rows).
Definition info_of (dp : nat) (tokens seqs : option nat) : batch_info :=
  {| dp_size := dp; batch_num_tokens := tokens; global_batch_size := seqs;
     loss_scale_factor := cfg_loss_scale_factor c |}.

(** The loss is the aggregate of the token losses. *)
Lemma ppo_run_value dp tokens seqs rows :
  Forall (row_ok width) rows → counts_given (info_of dp tokens seqs) →
  agg_denominator (loss_agg_mode c) (r_mask <$> rows) (info_of dp tokens seqs) ≠ 0 →
  ∃ metrics, ppo_run dp tokens seqs rows =
    Ok (Fin (agg_numerator (loss_agg_mode c) (total rows) (r_mask <$> rows) * INR dp /
             agg_denominator (loss_agg_mode c) (r_mask <$> rows) (info_of dp tokens seqs)), metrics).
Proof using Hc.
  intros Hrows Hg Hd. set (den := agg_denominator _ _ _) in *. set (num := λ t, agg_numerator (loss_agg_mode c) t (r_mask <$> rows)).
  assert (Hagg : ∀ t, agg_loss t (r_mask <$> rows) (loss_agg_mode c) (info_of dp tokens seqs) =
    Ok (Fin (num t * INR dp / den))) by (intros t; apply agg_loss_value; [apply Hc|done|done]).
  destruct (rp_modes Hc) as [Hrlsd Hopd].
  unfold ppo_run, ppo_loss_padded. set (d := batch_of fl lambda dp tokens seqs rows).
  assert (Hmodes : check_modes (with_batch_info c d) d = Ok tt).
  { unfold check_modes. cbn [policy_loss with_batch_info]. by rewrite Hrlsd, Hopd. }
  rewrite Hmodes. cbn [mbind result_bind].
  destruct (proj1 (compute_rlsd_valid _ _ _ _ _ _) (rows_rlsd_valid rows Hrows)) as [m Hm].
  assert (Hstep : ∃ ms, rlsd_step lower (with_batch_info c d) d (r_log_prob <$> rows) (b_advantages d) [] =
    Ok (of_fin (rlsd_advantages rc_of (has_credit fl) rows), ms)).
  { unfold rlsd_step, rlsd_student. cbn [policy_loss with_batch_info]. rewrite Hrlsd. cbn [b_teacher_pi_log_probs d batch_of of_option].
    cbn [mbind result_bind]. rewrite (rp_source Hc). rewrite bool_decide_eq_true_2 by done. cbn [mbind result_bind].
    change (rlsd_config (with_batch_info c d) d) with rc_of. unfold d. cbn [b_advantages b_response_mask b_rlsd_token_mask batch_of].
    rewrite Hm. eexists. reflexivity. }
  destruct Hstep as [ms Hstep]. rewrite Hstep. cbn [mbind result_bind].
  unfold opd_step. cbn [policy_loss with_batch_info]. rewrite Hopd. cbn [mbind result_bind]. rewrite (rp_loss Hc). cbn [mbind result_bind].
  destruct (vanilla_runs (with_batch_info c d) (b_old_log_probs d) (r_log_prob <$> rows)
    (of_fin (rlsd_advantages rc_of (has_credit fl) rows)) (b_response_mask d) (loss_agg_mode (with_batch_info c d))
    (b_rollout_is_weights d) (rp_bound Hc)) as [pm Hv]. rewrite Hv. clear Hv.
  change (vanilla_losses _ _ _ _ _) with (policy_part c rc_of fl rows).
  change (global_batch_info (with_batch_info c d)) with (info_of dp tokens seqs).
  change (b_response_mask d) with (r_mask <$> rows). change (loss_agg_mode (with_batch_info c d)) with (loss_agg_mode c).
  rewrite Hagg. cbn [fmap result_fmap mbind result_bind].
  assert (Hent : ∀ ms', ∃ ms'', add_entropy_loss (with_batch_info c d) d (opt (has_entropy fl) (r_entropy <$> rows))
      (Fin (num (policy_part c rc_of fl rows) * INR dp / den)) ms' =
    Ok (Fin ((num (policy_part c rc_of fl rows)
              - (if has_entropy fl then entropy_coeff c * num (r_entropy <$> rows) else 0)) * INR dp / den), ms'')).
  { intros ms'. unfold add_entropy_loss, opt. destruct (has_entropy fl).
    - change (global_batch_info (with_batch_info c d)) with (info_of dp tokens seqs).
      change (b_response_mask d) with (r_mask <$> rows). change (loss_agg_mode (with_batch_info c d)) with (loss_agg_mode c).
      rewrite Hagg. eexists. cbn. do 3 f_equal. field. done.
    - eexists. do 3 f_equal. lra. }
  match goal with |- context [add_entropy_loss _ _ _ _ ?m] => destruct (Hent m) as [ms1 He] end. rewrite He.
  cbn [mbind result_bind]. unfold num. rewrite total_numerator by done. unfold add_kl_loss.
  change (use_kl_loss (with_batch_info c d)) with (use_kl_loss c). destruct (use_kl_loss c) eqn:Ekl.
  - destruct (rp_kl Hc Ekl) as [Href Hkl]. cbn [b_ref_log_prob d batch_of]. rewrite Href. unfold opt. cbn [of_option mbind result_bind].
    change (kl_loss_type (with_batch_info c d)) with (kl_loss_type c).
    rewrite (tensor_mapM2_Ok _ (kl_estimate c)) by (intros; by apply kl_estimate_Ok). cbn [mbind result_bind].
    change (global_batch_info (with_batch_info c d)) with (info_of dp tokens seqs).
    change (b_response_mask d) with (r_mask <$> rows). change (loss_agg_mode (with_batch_info c d)) with (loss_agg_mode c).
    rewrite Hagg. eexists. cbn. do 3 f_equal. unfold num, kl_part. field. done.
  - eexists. do 3 f_equal. unfold Rdiv. ring.
Qed.

(** C3: A training step does not depend on how its batch is cut up.  With RLSD on, the
    [vanilla] loss, and any choice of token mask, importance weights, entropy bonus and KL
    penalty, cut a batch into micro-batches over [dp] ranks and give every call the global
    token and sequence counts: no call raises, and the micro-batch losses summed and divided
    by [dp] are the loss of the whole batch in one call. *)
Theorem ppo_loss_rlsd_parallel (dp tokens seqs : nat) (shards : list (list row)) :
  let rows := concat shards in
  let mask := r_mask <$> rows in
  shards ≠ [] → Forall (λ s, s ≠ [] ∧ Forall (row_ok width) s) shards →
  dp ≠ 0%nat → default width (cfg_loss_scale_factor c) ≠ 0%nat →
  tokens ≠ 0%nat → INR tokens = mask_count mask → seqs ≠ 0%nat → INR seqs = row_count (seq_valid mask) →
  ∃ losses loss,
    Forall2 (λ s l, ∃ metrics, ppo_run dp (Some tokens) (Some seqs) s = Ok (Fin l, metrics)) shards losses ∧
    (∃ metrics, ppo_run 1 None None rows = Ok (Fin loss, metrics)) ∧
    rsum losses / INR dp = loss.
Proof using Hc.
  intros rows mask Hne Hall Hdp Hfac Ht Htok Hs Hseq.
  apply not_0_INR in Ht, Hs, Hdp, Hfac.
  assert (Hwidth : ∀ s, s ≠ [] → Forall (row_ok width) s → tensor_width (r_mask <$> s) = width).
  { intros s Hs0 Hs1. destruct Hs1 as [|r s Hr]; [done|]. apply Hr. }
  assert (Hrows : Forall (row_ok width) rows).
  { apply Forall_concat. eapply Forall_impl; [exact Hall|]. by intros s [_ ?]. }
  assert (Hw : tensor_width mask = width).
  { apply Hwidth; [|done]. destruct Hall as [|s shards [Hs0 _] _]; [done|]. unfold rows. by destruct s. }
  set (den := agg_denominator (loss_agg_mode c) mask (info_of 1 None None)).
  assert (Hden : den ≠ 0).
  { unfold den, agg_denominator. cbn. rewrite <-Htok, <-Hseq, Hw. repeat case_bool_decide; [done|nra|lra]. }
  assert (Hsame : ∀ m, tensor_width m = width →
    agg_denominator (loss_agg_mode c) m (info_of dp (Some tokens) (Some seqs)) = den).
  { intros m Hm. unfold den, agg_denominator. cbn. by rewrite <-Htok, <-Hseq, Hw, Hm. }
  exists ((λ s, agg_numerator (loss_agg_mode c) (total s) (r_mask <$> s) * INR dp / den) <$> shards),
    (agg_numerator (loss_agg_mode c) (total rows) mask * INR 1 / den).
  split; [|split].
  - apply Forall2_fmap_r, Forall_Forall2_diag. eapply Forall_impl; [exact Hall|]. intros s [Hs0 Hs1]. cbn beta.
    rewrite <-(Hsame (r_mask <$> s)) by (by apply Hwidth).
    apply ppo_run_value; [done|right; done|]. rewrite Hsame by (by apply Hwidth). done.
  - apply ppo_run_value; [done|left; done|done].
  - assert (Hsum : rsum ((λ s, agg_numerator (loss_agg_mode c) (total s) (r_mask <$> s)) <$> shards) =
      agg_numerator (loss_agg_mode c) (total rows) mask).
    { assert (Hsh := agg_numerator_shards (loss_agg_mode c) width ((λ s, (total s, r_mask <$> s)) <$> shards)).
      rewrite <-!list_fmap_compose in Hsh. unfold compose in Hsh. cbn [fst snd] in Hsh. rewrite Hsh.
      - unfold rows, mask, rows, total. rewrite total_losses_concat. f_equal. symmetry. apply fmap_concat.
      - apply Forall_fmap. eapply Forall_impl; [exact Hall|]. intros s [Hs0 Hs1]. cbn.
        split; [by destruct s|]. split; [|by apply Hwidth]. rewrite length_fmap. by apply length_total. }
    rewrite (rsum_ext _ (λ s, INR dp / den * agg_numerator (loss_agg_mode c) (total s) (r_mask <$> s)))
      by (intros s _; field; done).
    rewrite rsum_scale_f, Hsum. simpl. field. done.
Qed.

Lemma tget_rows {A} (f : row → list A) rows i j r :
  rows !! i = Some r → tget (f <$> rows) i j = f r !! j.
Proof using Type. intros Hr. unfold tget. by rewrite list_lookup_fmap, Hr. Qed.

Lemma opt_weight_at rows i j r w :
  rows !! i = Some r → r_weight r !! j = Some w →
  match opt (has_weight fl) (r_weight <$> rows) with
  | Some t => tget t i j = Some (if has_weight fl then w else 1)
  | None => (if has_weight fl then w else 1) = 1
  end.
Proof using Type. intros Hr Hw. unfold opt. destruct (has_weight fl); [by rewrite (tget_rows _ _ _ _ r)|done]. Qed.

Lemma total_token rows i j r p lp e ref :
  rows !! i = Some r → r_log_prob r !! j = Some lp → r_entropy r !! j = Some e → r_ref r !! j = Some ref →
  tget (policy_part c rc_of fl rows) i j = Some p →
  tget (total rows) i j = Some (p - (if has_entropy fl then entropy_coeff c * e else 0)
    + (if use_kl_loss c then kl_loss_coef c * kl_estimate c lp ref else 0)).
Proof using Type.
  intros Hr Hl He Href Hp. unfold total, total_losses.
  assert (Hwe : tget (with_entropy c rc_of fl rows) i j =
    Some (p - (if has_entropy fl then entropy_coeff c * e else 0))).
  { unfold with_entropy. destruct (has_entropy fl); [|rewrite Hp; f_equal; lra].
    rewrite (tget_tzip _ _ _ _ _ p e) by (by rewrite ?(tget_rows _ _ _ _ r)). f_equal. lra. }
  destruct (use_kl_loss c); [|rewrite Hwe; f_equal; lra].
  rewrite (tget_tzip _ _ _ _ _ _ (kl_estimate c lp ref) Hwe); [f_equal; lra|].
  unfold kl_part. apply tget_tzip; by rewrite (tget_rows _ _ _ _ r).
Qed.

(** C1: What an RLSD step trains on.  The loss is the aggregate of one value per response
    token: the dual-clipped surrogate of the evidence-reweighted advantage
    [a * token_factor credit neg a (teacher - current)] at the importance ratio, times the
    importance weight, minus the weighted entropy, plus the weighted KL penalty to the
    reference. *)
Theorem ppo_loss_rlsd_token (dp : nat) (tokens seqs : option nat) (rows : list row) :
  Forall (row_ok width) rows → counts_given (info_of dp tokens seqs) →
  agg_denominator (loss_agg_mode c) (r_mask <$> rows) (info_of dp tokens seqs) ≠ 0 →
  - cliprange_low c <= cliprange_high c →
  ∃ losses x metrics, ppo_run dp tokens seqs rows = Ok (Fin x, metrics) ∧
    agg_loss losses (r_mask <$> rows) (loss_agg_mode c) (info_of dp tokens seqs) = Ok (Fin x) ∧
    ∀ i j r old lp a t w e ref, rows !! i = Some r → r_mask r !! j = Some true →
      r_old r !! j = Some old → r_log_prob r !! j = Some lp → r_adv r !! j = Some a →
      r_teacher r !! j = Some t → r_weight r !! j = Some w → r_entropy r !! j = Some e → r_ref r !! j = Some ref →
      ∃ neg, negative_seq (to_fin (r_adv <$> rows)) (r_mask <$> rows) !! i = Some neg ∧
        let credit := if has_credit fl then default false (r_credit r !! j) else true in
        tget losses i j = Some (
          dual_clip (cliprange_low c) (cliprange_high c) (default 3 (clip_ratio_c c))
            (a * token_factor rc_of credit neg a (t - lp)) (importance_ratio old lp)
            * (if has_weight fl then w else 1)
          - (if has_entropy fl then entropy_coeff c * e else 0)
          + (if use_kl_loss c then kl_loss_coef c * kl_estimate c lp ref else 0)).
Proof using Hc.
  intros Hrows Hg Hd Hclip. destruct (ppo_run_value dp tokens seqs rows Hrows Hg Hd) as [metrics Hrun].
  eexists (total rows), _, metrics. split; [exact Hrun|]. split; [apply agg_loss_value; [apply Hc|done|done]|].
  intros i j r old lp a t w e ref Hr Hm Ho Hl Ha Ht Hw He Href.
  destruct (rlsd_token _ _ _ _ _ _ i j (rows_rlsd_valid rows Hrows)) as (t' & s' & a' & credit & neg & Ht' & Hs' & Ha' & Hcr & Hneg & Hout).
  { by rewrite (tget_rows _ _ _ _ r). }
  unfold to_fin in Ht', Hs', Ha'. 
  rewrite tget_tmap, (tget_rows _ _ _ _ r) in Ht' by done. rewrite tget_tmap, (tget_rows _ _ _ _ r) in Hs' by done.
  rewrite tget_tmap, (tget_rows _ _ _ _ r) in Ha' by done. rewrite Ht in Ht'. rewrite Hl in Hs'. rewrite Ha in Ha'. injection Ht' as <-. injection Hs' as <-. injection Ha' as <-.
  destruct (credit_at _ _ _ _ _ _ i j (rows_rlsd_valid rows Hrows)) as (credit' & Hcr' & Hcredit).
  { by rewrite (tget_rows _ _ _ _ r). }
  rewrite Hcr in Hcr'. injection Hcr' as <-.
  exists neg. split; [done|]. cbv zeta.
  assert (Hc' : credit = if has_credit fl then default false (r_credit r !! j) else true).
  { rewrite Hcredit. unfold opt. destruct (has_credit fl); [by rewrite (tget_rows _ _ _ _ r)|done]. }
  rewrite <-Hc'.
  assert (Hp : tget (policy_part c rc_of fl rows) i j = Some (dual_clip (cliprange_low c) (cliprange_high c)
      (default 3 (clip_ratio_c c)) (a * token_factor rc_of credit neg a (t - lp)) (importance_ratio old lp)
      * (if has_weight fl then w else 1))).
  { apply vanilla_token; [done|by rewrite (tget_rows _ _ _ _ r)|by rewrite (tget_rows _ _ _ _ r)| |by apply (opt_weight_at _ _ _ r)].
    unfold of_fin, rlsd_advantages. by rewrite tget_tmap, Hout. }
  by apply (total_token _ _ _ r).
Qed.
End ppo_value.

(** ** Witnesses: two one-token samples, an entropy bonus and no KL penalty *)

Definition ex_registry : list (string * policy_loss_fn) :=
  POLICY_LOSS_REGISTRY (λ n, seq 0 n) (λ _ k, seq 0 k) compute_policy_loss_vanilla.
Definition ex_fields : fields :=
  {| has_credit := false; has_weight := false; has_ref := false; has_entropy := true |}.
Definition ex_row (lp a : R) : row := {|
  r_mask := [true]; r_old := [lp]; r_log_prob := [lp]; r_adv := [a]; r_teacher := [0];
  r_credit := [true]; r_weight := [1]; r_ref := [0]; r_entropy := [1 / 10] |}.

Lemma ex_ppo_config : rlsd_ppo_config (λ s, s) ex_registry (ex_actor no_batch_info) ex_fields None.
Proof.
  split; try done; unfold rc_of; simpl; try lra. apply elem_of_cons. by left.
Defined.

Lemma ex_denominator rows : rows ≠ [] → Forall (λ r, r_mask r = [true]) rows →
  mask_count (r_mask <$> rows) = INR (length rows).
Proof.
  intros _. induction 1 as [|r rows Hr _ IH]; [done|]. rewrite INR_cons, <-IH.
  unfold mask_count, row_count. rewrite !fmap_cons, Hr. simpl. lra.
Qed.

Lemma ppo_loss_rlsd_token_witness :
  let run := ppo_run (λ _ _, NonFin) (λ s, s) ex_registry (ex_actor no_batch_info) ex_fields None in
  ∃ losses x metrics neg, run 1%nat None None [ex_row (-1) (-2)] = Ok (Fin x, metrics) ∧
    agg_loss losses [[true]] "token-mean" no_batch_info = Ok (Fin x) ∧
    tget losses 0 0 = Some (dual_clip (2 / 10) (3 / 10) 3
      (-2 * token_factor (rc_of (ex_actor no_batch_info) None) true neg (-2) (0 - -1)) (importance_ratio (-1) (-1)) * 1
      - 0 * (1 / 10) + 0).
Proof.
  intros run.
  destruct (ppo_loss_rlsd_token (λ _ _, NonFin) (λ s, s) ex_registry (ex_actor no_batch_info) ex_fields None 1
    ex_ppo_config 1 None None [ex_row (-1) (-2)]) as (losses & x & metrics & Hrun & Hagg & Htok).
  - repeat constructor.
  - left. simpl. lia.
  - unfold agg_denominator. simpl. unfold mask_count, row_count. simpl. lra.
  - unfold cliprange_low, cliprange_high. simpl. lra.
  - destruct (Htok 0%nat 0%nat (ex_row (-1) (-2)) (-1) (-1) (-2) 0 1 (1 / 10) 0) as (neg & _ & Hget);
      [reflexivity..|].
    exists losses, x, metrics, neg. split; [exact Hrun|]. split; [exact Hagg|exact Hget].
Defined.

Lemma ppo_loss_rlsd_parallel_witness :
  let run := ppo_run (λ _ _, NonFin) (λ s, s) ex_registry (ex_actor no_batch_info) ex_fields None in
  ∃ l1 l2 loss m1 m2 m, run 2%nat (Some 2%nat) (Some 2%nat) [ex_row (-1) (-2)] = Ok (Fin l1, m1) ∧
    run 2%nat (Some 2%nat) (Some 2%nat) [ex_row (-3) 1] = Ok (Fin l2, m2) ∧
    run 1%nat None None [ex_row (-1) (-2); ex_row (-3) 1] = Ok (Fin loss, m) ∧ (l1 + (l2 + 0)) / INR 2 = loss.
Proof.
  intros run.
  destruct (ppo_loss_rlsd_parallel (λ _ _, NonFin) (λ s, s) ex_registry (ex_actor no_batch_info) ex_fields None 1
    ex_ppo_config 2 2 2 [[ex_row (-1) (-2)]; [ex_row (-3) 1]]) as (losses & loss & Hs & (m & Hw) & Hsum).
  - discriminate.
  - repeat constructor; discriminate.
  - discriminate.
  - discriminate.
  - discriminate.
  - unfold mask_count, row_count. simpl. lra.
  - discriminate.
  - unfold seq_valid, row_count. simpl. unfold Rltb. repeat (destruct (Rlt_dec _ _); [|lra]). simpl. lra.
  - inversion Hs as [|? l1 ? ls1 (m1 & H1) Hs1]; subst. inversion Hs1 as [|? l2 ? ls2 (m2 & H2) Hs2]; subst.
    inversion Hs2; subst. exists l1, l2, ((l1 + (l2 + 0)) / INR 2), m1, m2, m.
    split; [exact H1|]. split; [exact H2|]. split; [exact Hw|]. reflexivity.
Defined.

(** ** [sft_loss] *)

(** The mask of a sequence seen from the position that predicts each token. *)
Definition shift_row (m : list bool) : list bool := drop 1 m ++ [false].

Lemma roll_left_concat (masks : list (list bool)) :
  masks ≠ [] → Forall (λ m, head m = Some false) masks →
  roll_left (concat masks) = concat (shift_row <$> masks).
Proof.
  intros Hne Hall.
  assert (H : ∀ ms, Forall (λ m, head m = Some false) ms → concat ms ++ [false] = false :: concat (shift_row <$> ms)).
  { clear. induction 1 as [|m ms Hm _ IH]; [done|]. destruct m as [|b m]; [done|]. injection Hm as ->.
    change (false :: ((m ++ concat ms) ++ [false]) = false :: ((m ++ [false]) ++ concat (shift_row <$> ms))).
    by rewrite <-!(assoc_L (++)), IH. }
  specialize (H masks Hall). destruct Hall as [|m ms Hm Hms]; [done|]. destruct m as [|b m]; [done|]. injection Hm as ->.
  apply (f_equal tail) in H. exact H.
Qed.

Lemma row_masked_sum_concat (lps : tensor R) (masks : tensor bool) :
  same_shape lps masks → row_masked_sum (concat lps) (concat masks) = masked_sum lps masks.
Proof.
  unfold masked_sum. induction 1 as [|l m lps masks Hl _ IH]; [done|]. csimpl.
  rewrite row_masked_sum_app by done. by rewrite IH.
Qed.

(** The flat shift of the SFT loss is a shift per sequence.  When every sequence starts
    with a token outside the loss (its prompt), rolling the concatenated loss mask left by
    one pairs each prediction with the mask of the token it predicts, in every sequence, and
    nothing leaks across a boundary: the loss is minus the sum of these log probabilities
    over [batch_num_tokens], and sums over shards like the PPO loss. *)
Theorem sft_loss_shift (log_probs : tensor R) (masks : tensor bool) (n dp : nat) :
  masks ≠ [] → same_shape log_probs masks → Forall (λ m, head m = Some false) masks → n ≠ 0%nat →
  sft_loss_no_padding (concat log_probs) (concat masks) n dp =
    sft_loss_padded log_probs (shift_row <$> masks) n dp ∧
  sft_loss_no_padding (concat log_probs) (concat masks) n dp =
    Fin (- rsum (zip_with (λ l m, rsum (pick (shift_row m) l)) log_probs masks) / INR n * INR dp).
Proof.
  intros Hne Hs Hh Hn. unfold sft_loss_no_padding, sft_loss_padded. rewrite roll_left_concat by done.
  assert (Hs' : same_shape log_probs (shift_row <$> masks)).
  { apply Forall2_fmap_r. revert Hs Hh. clear. induction 1 as [|l m lps masks Hl Hs IH]; intros Hh; [constructor|].
    inversion_clear Hh as [|? ? Hm Hms]. constructor; [|by apply IH]. destruct m; [done|].
    change (length l = length (m ++ [false])). rewrite length_app. simpl in *. lia. }
  rewrite row_masked_sum_concat by done. split; [done|].
  rewrite fdiv_Fin by (by apply not_0_INR). cbn [f1]. do 2 f_equal. unfold Rdiv. f_equal. f_equal.
  unfold masked_sum. rewrite zip_with_fmap_r. f_equal. apply zip_with_ext; [|done..]. intros l m. apply row_masked_sum_pick.
Qed.

Lemma sft_loss_shift_witness :
  sft_loss_no_padding [-1; -2; -3; -4; -5] [false; true; true; false; true] 3 1 = Fin (- (-1 + (-2 + 0) + (-4 + 0 + 0)) / INR 3 * INR 1).
Proof.
  destruct (sft_loss_shift [[-1; -2; -3]; [-4; -5]] [[false; true; true]; [false; true]] 3 1) as [_ H];
    [discriminate|repeat constructor|repeat constructor|discriminate|]. exact H.
Defined.
