(* ===== verification/RolloutCorrection.v ===== *)
(** * Rollout correction: [src/verl/trainer/ppo/rollout_corr_helper.py]

    Importance weights and rejection masks for the gap between the rollout policy and the
    training policy, their metrics, and the bypass-mode loss of
    [src/verl/trainer/ppo/core_algos.py].  Tensors are rows of reals and masks are boolean,
    as in [TorchFunctional]; thresholds are rationals, read by [PyNum.float_of_str].  The
    numbers in error messages are left out.  A float written by [str] is read back by
    [float], so [str(1.0 / float(s))] is kept as a number. *)

From S2P Require Import Prelude PyStr PyNum PyDict Rlsd TorchFunctional PolicyLoss.
From Stdlib Require Import Reals Lra QArith Qreals.
Local Close Scope Q_scope.
Local Open Scope R_scope.
Local Open Scope py_scope.

Definition SAFETY_BOUND : R := 20.
Definition clamp_log (x : R) : R := rclamp (- SAFETY_BOUND) SAFETY_BOUND x.

(** ** Options: how a divergence is estimated per token, and how a sequence aggregates it *)

Inductive estimator := K1 | K2 | K3.
Inductive level := Token | SeqSum | SeqMean | SeqMax.
#[export] Instance estimator_eq_dec : EqDecision estimator.
Proof. solve_decision. Defined.
#[export] Instance level_eq_dec : EqDecision level.
Proof. solve_decision. Defined.

Definition SUPPORTED_ROLLOUT_RS_OPTIONS : list (string * (level * estimator)) :=
  [("token_k1", (Token, K1)); ("token_k2", (Token, K2)); ("token_k3", (Token, K3));
   ("seq_sum_k1", (SeqSum, K1)); ("seq_sum_k2", (SeqSum, K2)); ("seq_sum_k3", (SeqSum, K3));
   ("seq_mean_k1", (SeqMean, K1)); ("seq_mean_k2", (SeqMean, K2)); ("seq_mean_k3", (SeqMean, K3));
   ("seq_max_k2", (SeqMax, K2)); ("seq_max_k3", (SeqMax, K3))]%string.

(** ** Threshold specifications *)

Inductive threshold_spec :=
  | NoneSpec
  | BoolSpec (b : bool)
  | NumSpec (q : Q)
  | StrSpec (s : string)
  | OtherSpec.

Definition Qpos (q : Q) : bool := negb (Qle_bool q 0).
(** [s.split("_", 1)] when there is an underscore. *)
Definition split_once (s : string) : option (string * string) :=
  n ← find "_" s; Some (stake n s, sdrop (S n) s).

(** The upper bound and, for IcePop, the lower one. *)
Definition read_is_threshold (spec : threshold_spec) : result (Q * option Q) :=
  match spec with
  | BoolSpec _ => Raise (TypeError "rollout_is_threshold must be specified as a float or a string threshold specification, not a boolean.")
  | NumSpec q => Ok (q, None)
  | StrSpec s =>
      let invalid := ValueError ("Invalid rollout_is_threshold '" +:+ s +:+ "'.") in
      let spec := strip s in
      require negb (bool_decide (spec = EmptyString))
        else ValueError "rollout_is_threshold must not be an empty string." ;;
      match split_once spec with
      | Some (lo, hi) =>
          lower ← of_option invalid (float_of_str lo);
          upper ← of_option invalid (float_of_str hi);
          Ok (upper, Some lower)
      | None => upper ← of_option invalid (float_of_str spec); Ok (upper, None)
      end
  | NoneSpec | OtherSpec => Raise (TypeError "rollout_is_threshold must be a float or a string threshold specification.")
  end.

Definition parse_rollout_is_threshold (spec : threshold_spec) : result (Q * option Q) :=
  '(upper, lower) ← read_is_threshold spec;
  require Qpos upper else ValueError "rollout_is_threshold upper bound must be positive" ;;
  match lower with
  | None => Ok (upper, None)
  | Some l =>
      require Qpos l else ValueError "rollout_is_threshold lower bound must be positive" ;;
      require Qle_bool l upper else ValueError "rollout_is_threshold lower bound must be <= upper bound." ;;
      Ok (upper, Some l)
  end.

(** One entry of a rejection threshold: text, or the text of a number. *)
Inductive raw_spec := RawNum (q : Q) | RawStr (s : string).
Definition raw_float (r : raw_spec) : option Q :=
  match r with RawNum q => Some q | RawStr s => float_of_str s end.
Definition raw_split (r : raw_spec) : option (string * string) :=
  match r with RawNum _ => None | RawStr s => split_once s end.

Definition comma_list (s : string) : list string :=
  List.filter (λ p, negb (bool_decide (p = EmptyString))) (strip <$> split_on "," s).

Definition raw_specs (spec : threshold_spec) : result (list raw_spec) :=
  match spec with
  | NoneSpec => Raise (ValueError "rollout_rs_threshold must be provided for rejection sampling.")
  | BoolSpec b => Ok [RawStr (if b then "True" else "False")]
  | NumSpec q => Ok [RawNum q]
  | StrSpec s => Ok (RawStr <$> comma_list s)
  | OtherSpec => Raise (TypeError "rollout_rs_threshold must be a string or numeric value specifying per-option thresholds.")
  end.

Record thresholds := { th_lower : option Q; th_upper : Q }.

Definition rs_threshold (option : string) (spec : raw_spec) : result thresholds :=
  let invalid := ValueError ("Invalid numeric threshold for option '" +:+ option +:+ "'.") in
  if endswith "k1" option then
    '(lower, upper) ←
      match raw_split spec with
      | Some (lo, hi) =>
          lower ← of_option invalid (float_of_str lo);
          upper ← of_option invalid (float_of_str hi);
          Ok (lower, upper)
      | None =>
          upper ← of_option (ValueError "could not convert string to float") (raw_float spec);
          require negb (Qeq_bool upper 0) else ZeroDivisionError "float division by zero" ;;
          Ok ((/ upper)%Q, upper)
      end;
    require Qpos lower && Qpos upper
      else ValueError ("Thresholds for option '" +:+ option +:+ "' must be positive") ;;
    Ok {| th_lower := Some lower; th_upper := upper |}
  else
    require bool_decide (raw_split spec = None)
      else ValueError ("rollout_rs_threshold for option '" +:+ option +:+ "' must provide a single upper bound without '_'.") ;;
    upper ← of_option invalid (raw_float spec);
    require Qpos upper else ValueError ("Threshold for option '" +:+ option +:+ "' must be positive") ;;
    Ok {| th_lower := None; th_upper := upper |}.

Definition parse_rollout_rs_thresholds (options : list string) (spec : threshold_spec) :
    result (list (string * thresholds)) :=
  specs ← raw_specs spec;
  require negb (bool_decide (specs = [])) else ValueError "rollout_rs_threshold must contain at least one threshold value." ;;
  require bool_decide (length specs = 1 ∨ length specs = length options)%nat
    else ValueError "rollout_rs_threshold expects either one threshold shared by all options or exactly one per option" ;;
  let specs := match specs with
               | [s] => if Nat.ltb 1 (length options) then replicate (length options) s else specs
               | _ => specs end in
  foldM (λ d (os : string * raw_spec), t ← rs_threshold os.1 os.2; Ok (dset os.1 t d)) [] (zip options specs).

(** ** Statistics *)

Definition token_stat (est : estimator) (log_ratio : R) : R :=
  let x := clamp_log log_ratio in
  match est with K1 => - x | K2 => 1 / 2 * x ^ 2 | K3 => exp x - 1 - x end.

(** The largest valid entry, 0 when there is none. *)
Definition sequence_max (row : list R) (m : list bool) : R := max_of (pick m row).
Definition sequence_stat (lvl : level) (row : list R) (m : list bool) : R :=
  match lvl with
  | SeqSum => row_masked_sum row m
  | SeqMean => row_masked_mean row m
  | SeqMax => sequence_max row m
  | Token => 0
  end.

(** The bounds a statistic is compared with: logarithms of ratio bounds for K1. *)
Definition upper_bound (est : estimator) (t : thresholds) : R :=
  match est with K1 => ln (Q2R (th_upper t)) | _ => Q2R (th_upper t) end.
Definition lower_bound (est : estimator) (t : thresholds) : option R :=
  match est with K1 => (λ l, ln (Q2R l)) <$> th_lower t | _ => None end.
Definition within (lower : option R) (upper s : R) : bool :=
  match lower with Some l => Rleb l s | None => true end && Rleb s upper.

Definition expand (col : list R) (mask : tensor bool) : tensor R :=
  zip_with (λ x row, (λ _, x) <$> row) col mask.

Record option_stats := { per_token : tensor R; per_sequence : option (list R); token_keep : tensor bool }.

Definition option_statistics (lvl : level) (est : estimator) (t : thresholds) (log_ratio : tensor R)
    (mask : tensor bool) : result option_stats :=
  let keep := within (lower_bound est t) (upper_bound est t) in
  let stat := tmap (token_stat est) log_ratio in
  if bool_decide (lvl = Token) then
    Ok {| per_token := stat; per_sequence := None; token_keep := tmap keep stat |}
  else
    require negb (bool_decide (lvl = SeqMax) && Nat.eqb (tensor_width mask) 0)
      else IndexError "max(): Expected reduction dim to have non-zero size." ;;
    let seq_stat := zip_with (sequence_stat lvl) stat mask in
    Ok {| per_token := expand seq_stat mask; per_sequence := Some seq_stat;
          token_keep := zip_with (λ x row, (λ _, keep x) <$> row) seq_stat mask |}.

(** ** Metrics of rejection *)

Definition any_valid (mask : tensor bool) : bool := existsb (existsb (λ b : bool, b)) mask.
Definition no_valid_token : exn := ValueError "response_mask must contain at least one valid token (1).".
Definition fraction (p : R → bool) (l : list R) : R := average (b2r ∘ p <$> l).
Definition masked_fraction (p : R → bool) (t : tensor R) (mask : tensor bool) : R := mean_of_bools (tmap p t) mask.
(** [Tensor.std]: unbiased. *)
Definition sample_std (l : list R) : R :=
  sqrt (rsum ((λ x, (x - average l) ^ 2) <$> l) / (INR (length l) - 1)).
Definition std_or_0 (l : list R) : R := if Nat.ltb 1 (length l) then sample_std l else 0.
(** The standard deviation of a clamped statistic over the valid tokens. *)
Definition clamped_std (lo hi : R) (t : tensor R) (mask : tensor bool) : R :=
  if Rltb 1 (mask_count mask) then
    let s := tmap (rclamp lo hi) t in
    sqrt (Rmax (TorchFunctional.masked_mean (tmap (λ x, x ^ 2) s) mask - TorchFunctional.masked_mean s mask ^ 2) 0)
  else 0.

Definition compute_rs_metrics (option_name : string) (rs_statistic : tensor R) (response_mask : tensor bool)
    (seq_valid_mask : list bool) (is_sequence : bool) (per_sequence_values : option (list R))
    (upper lower : R) (apply_lower : bool) : result metric_list :=
  require any_valid response_mask else no_valid_token ;;
  let name := (λ s, "rollout_rs_" +:+ option_name +:+ s) in
  let seq_values := default (zip_with row_masked_mean rs_statistic response_mask) per_sequence_values in
  let valid := pick seq_valid_mask seq_values in
  let some_valid := negb (Nat.eqb (length valid) 0) in
  let population := if is_sequence && some_valid then valid else picks response_mask rs_statistic in
  let part p := if is_sequence && some_valid then fraction p valid else masked_fraction p rs_statistic response_mask in
  let above x := Rltb upper x in
  let below x := Rltb x lower in
  let if_lower x := if apply_lower then x else 0 in
  let seq v := if some_valid then v else 0 in
  Ok ([(name "_mean", TorchFunctional.masked_mean rs_statistic response_mask);
       (name "_max", max_of population); (name "_min", min_of population);
       (name "_fraction_high", part above); (name "_fraction_low", if_lower (part below));
       (name "_std", clamped_std (if_lower lower) upper rs_statistic response_mask);
       (name "_seq_mean", seq (average valid)); (name "_seq_std", seq (std_or_0 valid));
       (name "_seq_max", seq (max_of valid)); (name "_seq_min", seq (min_of valid));
       (name "_seq_max_deviation", seq (max_of (Rabs <$> valid)));
       (name "_seq_fraction_high", seq (fraction above valid))]
      ++ (if negb some_valid || apply_lower then [(name "_seq_fraction_low", seq (fraction below valid))] else [])).

(** ** [compute_rollout_rejection_mask] *)

Definition merge_metrics (d new : metric_list) : metric_list := foldl (λ d kv, dset kv.1 kv.2 d) d new.

Definition invert (b : bool) : R := 1 - b2r b.
Definition all_kept (keep mask : list bool) : bool := forallb (λ b : bool, b) (zip_with (λ k m, negb (negb k && m)) keep mask).

Definition rejection_metrics (name : string) (keep mask : tensor bool) : metric_list :=
  let valid := seq_valid mask in
  let rejected := zip_with (λ k m, invert (all_kept k m)) keep mask in
  [("rollout_rs_" +:+ name +:+ "_masked_fraction", TorchFunctional.masked_mean (tmap invert keep) mask);
   ("rollout_rs_" +:+ name +:+ "_seq_masked_fraction",
    if Rltb 0 (row_count valid) then rsum (zip_with (λ r v, r * b2r v) rejected valid) / row_count valid else 0)].

(** One option: its statistics, its metrics, and the tokens it keeps. *)
Definition apply_option (log_ratio : tensor R) (mask : tensor bool) (specs : list (string * thresholds))
    (acc : tensor bool * metric_list) (name : string) : result (tensor bool * metric_list) :=
  '(lvl, est) ← of_option (ValueError ("Unsupported rollout_rs option: " +:+ name))
                  (dget name SUPPORTED_ROLLOUT_RS_OPTIONS);
  t ← ditem name specs;
  stats ← option_statistics lvl est t log_ratio mask;
  metrics ← compute_rs_metrics name (per_token stats) mask (seq_valid mask) (negb (bool_decide (lvl = Token)))
              (per_sequence stats) (upper_bound est t) (default 0 (lower_bound est t)) (bool_decide (est = K1));
  Ok (tzip andb acc.1 (token_keep stats),
      merge_metrics (merge_metrics acc.2 metrics) (rejection_metrics name (token_keep stats) mask)).

(** The requested options, without repetitions. *)
Definition normalize_step (normalized : list string) (opt : string) : result (list string) :=
  require dmem opt SUPPORTED_ROLLOUT_RS_OPTIONS else ValueError ("Invalid rollout_rs option: " +:+ opt) ;;
  Ok (if bool_decide (opt ∈ normalized) then normalized else normalized ++ [opt]).

Definition normalized_options (rollout_rs : string) : result (list string) :=
  let option_modes := comma_list rollout_rs in
  require negb (bool_decide (option_modes = [])) else ValueError "rollout_rs must contain at least one valid option." ;;
  foldM normalize_step [] option_modes.

Definition compute_rollout_rejection_mask (log_ratio : tensor R) (response_mask : tensor bool)
    (rollout_rs : option string) (rollout_rs_threshold : threshold_spec) : result (tensor bool * metric_list) :=
  rollout_rs ← of_option (ValueError "rollout_rs must be a non-empty string (comma separated for multiple options).") rollout_rs;
  require (match rollout_rs_threshold with NoneSpec => false | _ => true end)
    else ValueError "rollout_rs_threshold must be provided for rejection sampling." ;;
  if Nat.eqb (length log_ratio) 0 then Ok (response_mask, []) else
  options ← normalized_options rollout_rs;
  specs ← parse_rollout_rs_thresholds options rollout_rs_threshold;
  '(final_mask, metrics) ← foldM (apply_option log_ratio response_mask specs) (tmap (λ _, true) response_mask, []) options;
  let modified_response_mask := tzip andb response_mask final_mask in
  let seq_has_masked := zip_with (λ f m, b2r (negb (all_kept f m))) final_mask response_mask in
  Ok (modified_response_mask,
      merge_metrics metrics
        [("rollout_rs_masked_fraction", TorchFunctional.masked_mean (tmap invert final_mask) response_mask);
         ("rollout_rs_seq_masked_fraction", average seq_has_masked)]%string).

(** ** Importance weights *)

(** The value each row reports metrics about: its tokens' log ratios, or their sum. *)
Definition log_ratio_for_metrics (is_sequence : bool) (log_ratio : tensor R) (mask : tensor bool) : tensor R :=
  if is_sequence then zip_with (λ row m, [row_masked_sum row m]) log_ratio mask else log_ratio.

Definition raw_weights (is_sequence : bool) (log_ratio : tensor R) (mask : tensor bool) : tensor R :=
  if is_sequence then
    spread_mask (zip_with (λ row m, exp (clamp_log (row_masked_sum row m))) log_ratio mask) mask
  else mask_mul (tmap (λ x, exp (clamp_log x)) log_ratio) mask.

(** TIS truncates at the upper bound; IcePop zeroes what leaves [lower, upper]. *)
Definition correct_weight (upper : R) (lower : option R) (w : R) : R :=
  match lower with
  | None => Rmin w upper
  | Some l => if Rleb l w && Rleb w upper then w else 0
  end.

Definition compute_is_metrics (weights raw log_ratio : tensor R) (mask : tensor bool) (is_sequence : bool)
    (upper : R) (lower : option R) : result metric_list :=
  require any_valid mask else no_valid_token ;;
  require bool_decide (lower ≠ None) || negb (Reqb upper 0) else ZeroDivisionError "float division by zero" ;;
  let low := default (1 / upper) lower in
  let mean t := TorchFunctional.masked_mean t mask in
  let level_metrics :=
    if is_sequence then
      let logs := concat log_ratio in
      [("rollout_is_max", exp (Rmin (max_of logs) SAFETY_BOUND)); ("rollout_is_min", exp (min_of logs));
       ("rollout_is_mean", mean weights);
       ("rollout_is_ratio_fraction_high", fraction (λ x, Rltb (ln upper) x) logs);
       ("rollout_is_ratio_fraction_low", fraction (λ x, Rltb x (ln low)) logs)]%string
    else
      [("rollout_is_mean", mean weights);
       ("rollout_is_ratio_fraction_high", masked_fraction (λ w, Rltb upper w) raw mask);
       ("rollout_is_ratio_fraction_low", masked_fraction (λ w, Rltb w low) raw mask);
       ("rollout_is_max", max_of (picks mask weights)); ("rollout_is_min", min_of (picks mask weights))]%string in
  let for_ess := tmap (rclamp 0 upper) weights in
  let second_moment := mean (tmap (λ w, (w / (mean for_ess + 1 / 10 ^ 8)) ^ 2) for_ess) in
  require negb (Reqb second_moment 0) else ZeroDivisionError "float division by zero" ;;
  let seq_mean := zip_with row_masked_mean weights mask in
  Ok (level_metrics ++
      [("rollout_is_std", clamped_std 0 upper weights mask); ("rollout_is_eff_sample_size", 1 / second_moment);
       ("rollout_is_seq_mean", average seq_mean); ("rollout_is_seq_std", std_or_0 seq_mean);
       ("rollout_is_seq_max", max_of seq_mean); ("rollout_is_seq_min", min_of seq_mean);
       ("rollout_is_seq_max_deviation", max_of ((λ w, Rabs (w - 1)) <$> seq_mean));
       ("rollout_is_seq_fraction_high", fraction (λ w, Rltb upper w) seq_mean);
       ("rollout_is_seq_fraction_low", fraction (λ w, Rltb w low) seq_mean)]%string).

(** [other_ranks] is what the other processes add to a sum and to a count when
    [torch.distributed] is initialised. *)
Section weights.
Context (other_ranks : option (R * R)).

Definition weights_mean (is_sequence : bool) (weights : tensor R) (mask : tensor bool) : fnum :=
  if is_sequence then
    let seq_weights := zip_with row_masked_mean weights mask in
    let seq_mask := seq_valid mask in
    let total := rsum (zip_with (λ w v, w * b2r v) seq_weights seq_mask) in
    match other_ranks with
    | Some (s, n) => fdiv (total + s) (row_count seq_mask + n)
    | None => Fin (total / Rmax (row_count seq_mask) (1 / 10 ^ 8))
    end
  else
    match other_ranks with
    | Some (s, n) => fdiv (tsum (mask_mul weights mask) + s) (mask_count mask + n)
    | None => Fin (TorchFunctional.masked_mean weights mask)
    end.

Definition batch_normalize (is_sequence : bool) (weights : tensor R) (mask : tensor bool) : tensor R * R :=
  match weights_mean is_sequence weights mask with
  | Fin m => if Rltb (1 / 10 ^ 8) m then (tmap (λ w, w / m) weights, m) else (weights, 1)
  | NonFin => (weights, 1)
  end.

Definition is_level (rollout_is : string) : result bool :=
  if bool_decide (rollout_is = "token"%string) then Ok false
  else if bool_decide (rollout_is = "sequence"%string) then Ok true
  else Raise (ValueError ("Invalid rollout_is: " +:+ rollout_is)).

(** The corrected weights before normalisation. *)
Definition corrected_weights (is_sequence : bool) (upper : Q) (lower : option Q) (log_ratio : tensor R)
    (mask : tensor bool) : tensor R :=
  tmap (correct_weight (Q2R upper) (Q2R <$> lower)) (raw_weights is_sequence log_ratio mask).

Definition out_of_bounds (upper : Q) (lower : option Q) (raw : tensor R) (mask : tensor bool) : metric_list :=
  match lower with
  | Some l => [("rollout_is_oob_ratio"%string, masked_fraction (λ w, Rltb w (Q2R l) || Rltb (Q2R upper) w) raw mask)]
  | None => []
  end.

Definition compute_rollout_correction_weights (log_ratio : tensor R) (response_mask : tensor bool)
    (rollout_is : string) (rollout_is_threshold : threshold_spec) (rollout_is_batch_normalize : bool) :
    result (tensor R * metric_list) :=
  is_sequence ← is_level rollout_is;
  '(upper, lower) ← parse_rollout_is_threshold rollout_is_threshold;
  let raw := raw_weights is_sequence log_ratio response_mask in
  let weights := corrected_weights is_sequence upper lower log_ratio response_mask in
  metrics ← compute_is_metrics weights raw (log_ratio_for_metrics is_sequence log_ratio response_mask) response_mask
              is_sequence (Q2R upper) (Q2R <$> lower);
  let metrics := metrics ++ out_of_bounds upper lower raw response_mask in
  if rollout_is_batch_normalize then
    let '(weights, factor) := batch_normalize is_sequence weights response_mask in
    Ok (weights, metrics ++ [("rollout_is_batch_norm_factor"%string, factor)])
  else Ok (weights, metrics).

(** ** Off-policy metrics *)

Definition k3_kl (log_ratio : R) : R := exp log_ratio - log_ratio - 1.

Definition compute_offpolicy_metrics (old_log_prob : tensor R) (rollout_log_prob : option (tensor R))
    (response_mask : tensor bool) : result metric_list :=
  require any_valid response_mask else AssertionError "Expected at least one valid token in response_mask" ;;
  let mean t := TorchFunctional.masked_mean t response_mask in
  let row_means t := zip_with row_masked_mean t response_mask in
  let ppl l := average ((λ x, exp (- x)) <$> l) in
  let training := row_means old_log_prob in
  Ok ([("training_ppl", ppl training); ("training_log_ppl", average (Ropp <$> training))]%string ++
    match rollout_log_prob with
    | None => []
    | Some rollout_log_prob =>
        let log_ratio := tzip Rminus old_log_prob rollout_log_prob in
        let rollout := row_means rollout_log_prob in
        let diff := zip_with Rminus rollout training in
        let seq_ratio := (λ s, exp (2 * clamp_log s)) <$> zip_with row_masked_sum log_ratio response_mask in
        [("kl", mean (tzip Rminus rollout_log_prob old_log_prob)); ("k3_kl", mean (tmap k3_kl log_ratio));
         ("rollout_ppl", ppl rollout); ("rollout_log_ppl", average (Ropp <$> rollout));
         ("log_ppl_diff", average diff); ("log_ppl_abs_diff", average (Rabs <$> diff));
         ("log_ppl_diff_max", max_of diff); ("log_ppl_diff_min", min_of diff);
         ("ppl_ratio", average (exp <$> diff));
         ("chi2_token", mean (tmap (λ x, exp (clamp_log x) ^ 2) log_ratio) - 1);
         ("chi2_seq", average seq_ratio - 1)]%string
    end).

Definition prefix_metrics (metrics : metric_list) : metric_list :=
  (λ kv : string * R, ("rollout_corr/" +:+ kv.1, kv.2)) <$> metrics.

Definition compute_rollout_corr_metrics_from_logprobs (log_prob rollout_log_prob : tensor R)
    (response_mask : tensor bool) : result metric_list :=
  metrics ← compute_offpolicy_metrics log_prob (Some rollout_log_prob) response_mask;
  Ok (prefix_metrics metrics).

(** ** The unified interface *)

Record RolloutCorrectionConfig := {
  rollout_is : option string; rollout_is_threshold : threshold_spec; rollout_is_batch_normalize : bool;
  rollout_rs : option string; rollout_rs_threshold : threshold_spec; bypass_mode : bool; loss_type : string }.
Definition default_rollout_correction : RolloutCorrectionConfig := {|
  rollout_is := Some "sequence"%string; rollout_is_threshold := NumSpec 2; rollout_is_batch_normalize := false;
  rollout_rs := None; rollout_rs_threshold := NoneSpec; bypass_mode := false; loss_type := "ppo_clip" |}.

Definition correction_weights (c : RolloutCorrectionConfig) (log_ratio : tensor R) (response_mask : tensor bool) :
    result (option (tensor R) * metric_list) :=
  match rollout_is c, rollout_is_threshold c with
  | None, _ | _, NoneSpec => Ok (None, [])
  | Some level, spec =>
      '(weights, metrics) ← compute_rollout_correction_weights log_ratio response_mask level spec
                              (rollout_is_batch_normalize c);
      Ok (Some weights, metrics)
  end.

Definition rejection_mask (c : RolloutCorrectionConfig) (log_ratio : tensor R) (response_mask : tensor bool) :
    result (tensor bool * metric_list) :=
  match rollout_rs c with
  | None => Ok (response_mask, [])
  | Some options =>
      require (match rollout_rs_threshold c with NoneSpec => false | _ => true end)
        else ValueError "rollout_rs_threshold must be explicitly provided when rollout_rs is enabled." ;;
      compute_rollout_rejection_mask log_ratio response_mask (Some options) (rollout_rs_threshold c)
  end.

Definition compute_rollout_correction_and_rejection_mask (old_log_prob rollout_log_prob : tensor R)
    (response_mask : tensor bool) (c : RolloutCorrectionConfig) :
    result (option (tensor R) * tensor bool * metric_list) :=
  require any_valid response_mask else no_valid_token ;;
  require bool_decide (shape old_log_prob = shape rollout_log_prob)
    else ValueError "old_log_prob shape does not match rollout_log_prob shape." ;;
  require bool_decide (shape old_log_prob = shape response_mask)
    else ValueError "log_prob shape does not match response_mask shape." ;;
  let log_ratio := tzip Rminus old_log_prob rollout_log_prob in
  '(weights, is_metrics) ← correction_weights c log_ratio response_mask;
  '(modified_response_mask, rs_metrics) ← rejection_mask c log_ratio response_mask;
  offpolicy ← compute_offpolicy_metrics old_log_prob (Some rollout_log_prob) response_mask;
  Ok (weights, modified_response_mask,
      prefix_metrics (merge_metrics (merge_metrics is_metrics rs_metrics) offpolicy)).

(** ** The batch *)

Record corr_batch := {
  c_old_log_probs : option (tensor R); c_rollout_log_probs : option (tensor R);
  c_response_mask : tensor bool; c_rollout_is_weights : option (tensor R) }.

(** [DataProto.union] with one tensor: a present key must hold an equal tensor. *)
Definition union_weights (present : option (tensor R)) (weights : tensor R) : result (option (tensor R)) :=
  match present with
  | None => Ok (Some weights)
  | Some w =>
      require bool_decide (shape w = shape weights) && forallb (forallb (λ b : bool, b)) (tzip Reqb w weights)
        else AssertionError "rollout_is_weights in tensor_dict1 and tensor_dict2 are not the same object" ;;
      Ok (Some w)
  end.

Definition compute_rollout_correction_and_add_to_batch (batch : corr_batch) (c : RolloutCorrectionConfig) :
    result (corr_batch * metric_list) :=
  old ← of_option (KeyError "old_log_probs") (c_old_log_probs batch);
  rollout ← of_option (KeyError "rollout_log_probs") (c_rollout_log_probs batch);
  '(weights, mask, metrics) ← compute_rollout_correction_and_rejection_mask old rollout (c_response_mask batch) c;
  is_weights ← match weights with
               | None => Ok (c_rollout_is_weights batch)
               | Some w => union_weights (c_rollout_is_weights batch) w
               end;
  Ok ({| c_old_log_probs := Some old; c_rollout_log_probs := Some rollout; c_response_mask := mask;
         c_rollout_is_weights := is_weights |}, metrics).

(** ** Bypass mode: the rollout policy stands in for the old one *)

(** The policy-loss configuration of the actor: the loss mode and the correction. *)
Definition apply_bypass_mode (batch : corr_batch) (rollout_corr_config : option RolloutCorrectionConfig) :
    result (corr_batch * (string * option RolloutCorrectionConfig)) :=
  rollout ← of_option (ValueError "bypass_mode=True requires rollout_log_probs in batch. Ensure rollout worker is configured to calculate_log_probs=true.")
              (c_rollout_log_probs batch);
  Ok ({| c_old_log_probs := Some rollout; c_rollout_log_probs := Some rollout;
         c_response_mask := c_response_mask batch; c_rollout_is_weights := c_rollout_is_weights batch |},
      ("bypass_mode"%string, rollout_corr_config)).

Definition compute_policy_loss_bypass_mode (rollout_correction : option RolloutCorrectionConfig) : policy_loss_fn :=
  λ old_log_prob log_prob advantages response_mask loss_agg_mode config _,
  c ← of_option (ValueError "rollout_correction config not found in policy_loss. When using loss_mode='bypass_mode', ensure rollout_correction config is passed.") rollout_correction;
  '(weights, effective_mask, rollout_metrics) ←
     compute_rollout_correction_and_rejection_mask log_prob old_log_prob response_mask c;
  '(pg_loss, pg_metrics) ←
    (if bool_decide (loss_type c = "reinforce"%string) then
       compute_policy_loss_reinforce old_log_prob log_prob advantages effective_mask loss_agg_mode config weights
     else if bool_decide (loss_type c = "ppo_clip"%string) then
       compute_policy_loss_vanilla old_log_prob log_prob advantages effective_mask loss_agg_mode config None
     else Raise (ValueError ("Invalid loss_type: " +:+ loss_type c)));
  Ok (pg_loss, merge_metrics pg_metrics rollout_metrics).
End weights.

(** The registry of policy losses with the bypass loss of a correction. *)
Definition policy_losses (randperm : nat → list nat) (topk : list R → nat → list nat)
    (other_ranks : option (R * R)) (c : option RolloutCorrectionConfig) : list (string * policy_loss_fn) :=
  POLICY_LOSS_REGISTRY randperm topk (compute_policy_loss_bypass_mode other_ranks c).

(** ** Rejection: what a list of options keeps *)

(** Does option [name] keep the token with log ratio [x] of a row? *)
Definition option_keeps (specs : list (string * thresholds)) (name : string) (row : list R) (m : list bool) (x : R) : bool :=
  match dget name SUPPORTED_ROLLOUT_RS_OPTIONS, dget name specs with
  | Some (lvl, est), Some t =>
      within (lower_bound est t) (upper_bound est t)
        (if bool_decide (lvl = Token) then token_stat est x else sequence_stat lvl (token_stat est <$> row) m)
  | _, _ => false
  end.
Definition keep_tensor (specs : list (string * thresholds)) (log_ratio : tensor R) (mask : tensor bool) (name : string) :
    tensor bool :=
  zip_with (λ row m, (λ x, option_keeps specs name row m x) <$> row) log_ratio mask.

Lemma const_fmap {A B C} (c : C) (l : list A) (k : list B) :
  length l = length k → (λ _, c) <$> l = (λ _, c) <$> k.
Proof. revert k. induction l as [|a l IH]; intros [|b k] [=]; [done|]. csimpl. f_equal. by apply IH. Qed.

Lemma token_keep_tensor (f : R → bool) (log_ratio : tensor R) (mask : tensor bool) :
  length log_ratio = length mask →
  tmap f log_ratio = zip_with (λ row (_ : list bool), f <$> row) log_ratio mask.
Proof.
  revert mask. induction log_ratio as [|row t IH]; intros [|m mask] [=]; [done|].
  cbn [zip_with]. rewrite <-IH by done. done.
Qed.

Lemma sequence_keep_tensor (f : R → bool) (g : list R → list bool → R) (log_ratio : tensor R) (mask : tensor bool) (h : R → R) :
  shape log_ratio = shape mask →
  zip_with (λ x row, (λ _, f x) <$> row) (zip_with g (tmap h log_ratio) mask) mask =
  zip_with (λ row m, (λ _, f (g (h <$> row) m)) <$> row) log_ratio mask.
Proof.
  unfold shape. revert mask. induction log_ratio as [|row t IH]; intros [|m mask] Hs; csimpl in *; [done..|].
  injection Hs as Hl Hs. rewrite IH by done. f_equal. by apply const_fmap.
Qed.

Lemma apply_option_keeps log_ratio mask specs acc name acc' :
  shape log_ratio = shape mask → apply_option log_ratio mask specs acc name = Ok acc' →
  acc'.1 = tzip andb acc.1 (keep_tensor specs log_ratio mask name).
Proof.
  intros Hs H. pose proof (shape_length _ _ Hs) as Hl. unfold apply_option in H.
  apply bind_Ok_inv in H as ([lvl est] & Hname & H). apply of_option_Ok in Hname.
  apply bind_Ok_inv in H as (t & Hspec & H). apply of_option_Ok in Hspec.
  apply bind_Ok_inv in H as (stats & Hstats & H). apply bind_Ok_inv in H as (metrics & _ & [= <-]).
  cbn [fst]. f_equal. unfold option_statistics in Hstats. unfold keep_tensor, option_keeps.
  rewrite Hname, Hspec. case_bool_decide as Hlvl.
  - injection Hstats as <-. cbn [token_keep]. rewrite <-token_keep_tensor by done.
    unfold tmap. rewrite <-list_fmap_compose. apply list_fmap_ext. intros i row _. cbn. by rewrite <-list_fmap_compose.
  - apply require_inv in Hstats as [_ [= <-]]. cbn [token_keep]. by apply sequence_keep_tensor.
Qed.

Lemma rejection_loop log_ratio mask specs names acc acc' i j row m x b :
  shape log_ratio = shape mask →
  log_ratio !! i = Some row → mask !! i = Some m → row !! j = Some x → tget acc.1 i j = Some b →
  foldM (apply_option log_ratio mask specs) acc names = Ok acc' →
  tget acc'.1 i j = Some (b && forallb (λ name, option_keeps specs name row m x) names).
Proof.
  intros Hs Hrow Hm Hx. revert acc b. induction names as [|name names IH]; intros acc b Hb H; cbn [foldM forallb] in *.
  - injection H as <-. by rewrite andb_true_r.
  - apply bind_Ok_inv in H as (acc1 & H1 & H). rewrite andb_assoc.
    apply (IH acc1); [|done]. rewrite (apply_option_keeps _ _ _ _ _ _ Hs H1).
    apply (tget_tzip andb); [done|]. unfold keep_tensor, tget. rewrite lookup_zip_with, Hrow. cbn. rewrite Hm. cbn.
    by rewrite list_lookup_fmap, Hx.
Qed.

Lemma tmap_const_shape {A B} (c : B) (t : tensor A) : shape (tmap (λ _, c) t) = shape t.
Proof. unfold shape, tmap. rewrite <-list_fmap_compose. apply list_fmap_ext. intros i r _. cbn. by rewrite length_fmap. Qed.

Lemma keep_tensor_shape specs log_ratio mask name :
  shape log_ratio = shape mask → shape (keep_tensor specs log_ratio mask name) = shape mask.
Proof.
  unfold shape, keep_tensor. revert mask. induction log_ratio as [|row t IH]; intros [|m mask] Hs; csimpl in *; [done..|].
  injection Hs as Hl Hs. rewrite IH by done. by rewrite length_fmap, Hl.
Qed.

Lemma rejection_loop_shape log_ratio mask specs names acc acc' :
  shape log_ratio = shape mask → shape acc.1 = shape mask →
  foldM (apply_option log_ratio mask specs) acc names = Ok acc' → shape acc'.1 = shape mask.
Proof.
  intros Hs. revert acc. induction names as [|name names IH]; intros acc Ha H; cbn [foldM] in H.
  - by injection H as <-.
  - apply bind_Ok_inv in H as (acc1 & H1 & H). apply (IH acc1); [|done].
    rewrite (apply_option_keeps _ _ _ _ _ _ Hs H1), shape_tzip; [done|]. by rewrite keep_tensor_shape.
Qed.

(** ** Parsed options and thresholds *)

Lemma normalize_loop opts acc names :
  foldM normalize_step acc opts = Ok names →
  NoDup acc → Forall (λ n, is_Some (dget n SUPPORTED_ROLLOUT_RS_OPTIONS)) acc →
  NoDup names ∧ Forall (λ n, is_Some (dget n SUPPORTED_ROLLOUT_RS_OPTIONS)) names.
Proof.
  revert acc. induction opts as [|o opts IH]; intros acc H Hn Hf; cbn [foldM] in H; [by injection H as <-|].
  apply bind_Ok_inv in H as (acc1 & H1 & H). apply require_inv in H1 as [Ho [= <-]].
  apply dmem_spec in Ho as [v Ho]. apply (IH _ H); case_bool_decide; try done.
  - apply NoDup_app. split_and!; [done|set_solver|apply NoDup_singleton].
  - apply Forall_app. split; [done|]. apply Forall_singleton. by exists v.
Qed.

Lemma normalized_options_ok rollout_rs names :
  normalized_options rollout_rs = Ok names →
  NoDup names ∧ Forall (λ n, is_Some (dget n SUPPORTED_ROLLOUT_RS_OPTIONS)) names.
Proof.
  unfold normalized_options. intros [_ H]%require_inv. by apply (normalize_loop _ _ _ H); [constructor|].
Qed.

Definition thresholds_ok (name : string) (t : thresholds) : Prop :=
  Qpos (th_upper t) = true ∧
  if endswith "k1" name then ∃ l, th_lower t = Some l ∧ Qpos l = true else th_lower t = None.

Lemma rs_threshold_ok name spec t : rs_threshold name spec = Ok t → thresholds_ok name t.
Proof.
  unfold rs_threshold, thresholds_ok. destruct (endswith "k1" name).
  - intros H. apply bind_Ok_inv in H as ([lo hi] & _ & H). apply require_inv in H as [Hp [= <-]].
    apply andb_true_iff in Hp as [Hlo Hhi]. split; [done|]. by exists lo.
  - intros [_ H]%require_inv. apply bind_Ok_inv in H as (u & _ & H). by apply require_inv in H as [Hu [= <-]].
Qed.

Lemma thresholds_loop pairs acc specs name :
  foldM (λ d (os : string * raw_spec), t ← rs_threshold os.1 os.2; Ok (dset os.1 t d)) acc pairs = Ok specs →
  name ∈ pairs.*1 ∨ (∃ t, dget name acc = Some t ∧ thresholds_ok name t) →
  ∃ t, dget name specs = Some t ∧ thresholds_ok name t.
Proof.
  revert acc. induction pairs as [|[n r] pairs IH]; intros acc H Hin; cbn [foldM] in H.
  - injection H as <-. destruct Hin as [Hin|]; [|done]. by apply elem_of_nil in Hin.
  - apply bind_Ok_inv in H as (acc1 & H1 & H). apply bind_Ok_inv in H1 as (t & Ht & [= <-]). cbn [fst snd] in *.
    apply (IH _ H). destruct (decide (n = name)) as [->|Hne].
    + right. exists t. rewrite dget_dset, bool_decide_eq_true_2 by done. split; [done|by eapply rs_threshold_ok].
    + rewrite dget_dset, bool_decide_eq_false_2 by done. csimpl in Hin. set_solver.
Qed.

Lemma parse_thresholds_ok options spec specs name :
  parse_rollout_rs_thresholds options spec = Ok specs → name ∈ options →
  ∃ t, dget name specs = Some t ∧ thresholds_ok name t.
Proof.
  unfold parse_rollout_rs_thresholds. intros H Hin. apply bind_Ok_inv in H as (raws & _ & H).
  apply require_inv in H as [_ H]. apply require_inv in H as [Hlen H].
  apply (thresholds_loop _ _ _ _ H). left. rewrite fst_zip; [done|].
  apply bool_decide_eq_true in Hlen. destruct raws as [|s [|s' raws]]; simpl in *; [lia| |lia].
  destruct (Nat.ltb_spec 1 (length options)); simpl; [by rewrite length_replicate|lia].
Qed.

(** ** The loop over the options succeeds *)

Lemma option_statistics_total lvl est t log_ratio mask :
  tensor_width mask ≠ 0%nat → is_ok (option_statistics lvl est t log_ratio mask) = true.
Proof.
  intros Hw. unfold option_statistics. case_bool_decide; [done|].
  destruct (Nat.eqb_spec (tensor_width mask) 0); [done|]. by rewrite andb_false_r.
Qed.

Lemma is_ok_Ok {A} (r : result A) : is_ok r = true → ∃ a, r = Ok a.
Proof. destruct r; [eauto|done]. Qed.

Lemma rejection_loop_total log_ratio mask specs names acc :
  any_valid mask = true → tensor_width mask ≠ 0%nat →
  (∀ name, name ∈ names → is_Some (dget name SUPPORTED_ROLLOUT_RS_OPTIONS) ∧ is_Some (dget name specs)) →
  ∃ acc', foldM (apply_option log_ratio mask specs) acc names = Ok acc'.
Proof.
  intros Hany Hw. revert acc. induction names as [|name names IH]; intros acc Hn; cbn [foldM]; [by eexists|].
  destruct (Hn name (list_elem_of_here _ _)) as [[[lvl est] Hs] [t Ht]].
  assert (∃ acc1, apply_option log_ratio mask specs acc name = Ok acc1) as [acc1 H1].
  { unfold apply_option, ditem. rewrite Hs, Ht. cbn [of_option mbind result_bind].
    destruct (is_ok_Ok _ (option_statistics_total lvl est t log_ratio mask Hw)) as [st ->].
    cbn [mbind result_bind]. unfold compute_rs_metrics. rewrite Hany. cbn [mbind result_bind]. by eexists. }
  rewrite H1. cbn [mbind result_bind]. apply IH. set_solver.
Qed.

Lemma any_valid_width mask w :
  Forall (λ m : list bool, length m = w) mask → any_valid mask = true → tensor_width mask ≠ 0%nat.
Proof.
  intros Hw Hany. apply existsb_exists in Hany as (m & Hm & Hb). apply existsb_exists in Hb as (b & Hb & _).
  rewrite Forall_forall in Hw. assert (w ≠ 0%nat).
  { rewrite <-(Hw m) by (by apply list_elem_of_In). destruct m; [done|simpl; lia]. }
  destruct mask as [|m0 mask]; [done|]. simpl. by rewrite (Hw m0) by (left).
Qed.

(** With options and thresholds that parse, the call returns the mask cut by the loop's result. *)
Lemma rejection_mask_run (log_ratio : tensor R) (mask : tensor bool) options spec names specs (w : nat) :
  shape log_ratio = shape mask → Forall (λ m, length m = w) mask → any_valid mask = true →
  normalized_options options = Ok names → parse_rollout_rs_thresholds names spec = Ok specs →
  ∃ final ms metrics,
    foldM (apply_option log_ratio mask specs) (tmap (λ _, true) mask, []) names = Ok (final, ms) ∧
    compute_rollout_rejection_mask log_ratio mask (Some options) spec = Ok (tzip andb mask final, metrics).
Proof.
  intros Hs Hw Hany Hnames Hspecs. pose proof (shape_length _ _ Hs) as Hl.
  pose proof (normalized_options_ok _ _ Hnames) as [_ Hsup].
  destruct (rejection_loop_total log_ratio mask specs names (tmap (λ _, true) mask, [])) as [[final ms] Hloop];
    [done|by eapply any_valid_width| |].
  { intros name Hin. rewrite Forall_forall in Hsup. split; [by apply Hsup|].
    destruct (parse_thresholds_ok _ _ _ _ Hspecs Hin) as (t & -> & _). done. }
  assert (Hspec : (match spec with NoneSpec => false | _ => true end) = true) by (by destruct spec).
  assert (Hne : Nat.eqb (length log_ratio) 0 = false).
  { apply Nat.eqb_neq. rewrite Hl. destruct mask; done. }
  eexists final, ms, _. split; [done|].
  unfold compute_rollout_rejection_mask. cbn [of_option mbind result_bind].
  rewrite Hspec, Hne, Hnames. cbn [mbind result_bind]. rewrite Hspecs. cbn [mbind result_bind].
  rewrite Hloop. cbn [mbind result_bind]. reflexivity.
Qed.

(** With options and thresholds that parse, [compute_rollout_rejection_mask] returns a mask
    of the same shape in which a token survives exactly if it was valid and passes every
    requested option: token options look at the token's own clamped log ratio, sequence options
    at the sum, mean or maximum over the valid tokens of its row, so they keep or drop the whole
    row. *)
Theorem rejection_mask_conjunction (log_ratio : tensor R) (mask : tensor bool) (options : string)
    (spec : threshold_spec) (names : list string) (specs : list (string * thresholds)) (w : nat) :
  shape log_ratio = shape mask → Forall (λ m, length m = w) mask → any_valid mask = true →
  normalized_options options = Ok names → parse_rollout_rs_thresholds names spec = Ok specs →
  ∃ out metrics, compute_rollout_rejection_mask log_ratio mask (Some options) spec = Ok (out, metrics) ∧
    shape out = shape mask ∧
    ∀ i j row m x b, log_ratio !! i = Some row → mask !! i = Some m → row !! j = Some x → m !! j = Some b →
      tget out i j = Some (b && forallb (λ name, option_keeps specs name row m x) names).
Proof.
  intros Hs Hw Hany Hnames Hspecs.
  destruct (rejection_mask_run _ _ _ _ _ _ _ Hs Hw Hany Hnames Hspecs) as (final & ms & metrics & Hloop & Hcall).
  exists (tzip andb mask final), metrics. split; [done|].
  assert (Hf : shape final = shape mask).
  { apply (rejection_loop_shape log_ratio mask specs names (tmap (λ _, true) mask, []) (final, ms)); [done| |done].
    apply tmap_const_shape. }
  split; [by rewrite shape_tzip|]. intros i j row m x b Hrow Hm Hx Hb.
  apply (tget_tzip andb); [unfold tget; by rewrite Hm|].
  apply (rejection_loop log_ratio mask specs names (tmap (λ _, true) mask, []) (final, ms) i j row m x true); [done..| |done].
  cbn [fst]. rewrite tget_tmap. unfold tget. rewrite Hm. cbn. by rewrite Hb.
Qed.

Lemma rejection_mask_conjunction_witness :
  ∃ out metrics, compute_rollout_rejection_mask [[0; 3]; [-1; 2]] [[true; true]; [false; true]]
      (Some "token_k1, seq_max_k2,token_k1"%string) (StrSpec "0.5_2.0, 1") = Ok (out, metrics) ∧
    shape out = [2; 2]%nat ∧
    tget out 1 1 = Some (option_keeps
      [("token_k1"%string, {| th_lower := Some (5 # 10)%Q; th_upper := (20 # 10)%Q |});
       ("seq_max_k2"%string, {| th_lower := None; th_upper := 1%Q |})] "token_k1" [-1; 2] [false; true] 2 &&
      (option_keeps
      [("token_k1"%string, {| th_lower := Some (5 # 10)%Q; th_upper := (20 # 10)%Q |});
       ("seq_max_k2"%string, {| th_lower := None; th_upper := 1%Q |})] "seq_max_k2" [-1; 2] [false; true] 2 && true)).
Proof.
  destruct (rejection_mask_conjunction [[0; 3]; [-1; 2]] [[true; true]; [false; true]]
    "token_k1, seq_max_k2,token_k1" (StrSpec "0.5_2.0, 1") ["token_k1"; "seq_max_k2"]%string
    [("token_k1"%string, {| th_lower := Some (5 # 10)%Q; th_upper := (20 # 10)%Q |});
     ("seq_max_k2"%string, {| th_lower := None; th_upper := 1%Q |})] 2) as (out & ms & H & Hs & Hk);
    [reflexivity|by repeat constructor|reflexivity|by vm_compute|by vm_compute|].
  exists out, ms. split; [exact H|]. split; [exact Hs|].
  exact (Hk 1%nat 1%nat [-1; 2] [false; true] 2 true eq_refl eq_refl eq_refl eq_refl).
Defined.

(** The K1 statistic is minus the log ratio of the training to the rollout policy: bounds
    [l] and [u] accept the ratios between [1/u] and [1/l]. *)
Lemma k1_bounds_reciprocal (l u x : R) :
  0 < l → 0 < u → - SAFETY_BOUND <= x <= SAFETY_BOUND →
  within (Some (ln l)) (ln u) (token_stat K1 x) = true ↔ / u <= exp x <= / l.
Proof.
  intros Hl Hu Hx. unfold within, token_stat, clamp_log, rclamp.
  rewrite Rmax_left, Rmin_left by lra. rewrite andb_true_iff. unfold Rleb.
  assert (H1 : ln l <= - x ↔ exp x <= / l).
  { rewrite <-(exp_ln l) at 2 by done. rewrite <-exp_Ropp. split; intros H.
    - destruct (Req_dec x (- ln l)) as [->|]; [lra|]. apply Rlt_le, exp_increasing. lra.
    - destruct (Rle_lt_dec (ln l) (- x)); [done|]. assert (exp (- ln l) < exp x) by (apply exp_increasing; lra). lra. }
  assert (H2 : - x <= ln u ↔ / u <= exp x).
  { rewrite <-(exp_ln u) at 2 by done. rewrite <-exp_Ropp. split; intros H.
    - destruct (Req_dec x (- ln u)) as [->|]; [lra|]. apply Rlt_le, exp_increasing. lra.
    - destruct (Rle_lt_dec (- x) (ln u)); [done|]. assert (exp x < exp (- ln u)) by (apply exp_increasing; lra). lra. }
  destruct (Rle_dec (ln l) (- x)), (Rle_dec (- x) (ln u)); intuition (done || lra).
Qed.

(** ** Importance weights: values *)

Lemma Qpos_Q2R q : Qpos q = true → 0 < Q2R q.
Proof.
  unfold Qpos. intros H%negb_true_iff. replace 0 with (Q2R 0) by (unfold Q2R; simpl; lra).
  apply Qlt_Rlt. apply Qnot_le_lt. intros Hle%Qle_bool_iff. congruence.
Qed.

Definition bounds_ok (upper : Q) (lower : option Q) : Prop :=
  0 < Q2R upper ∧ match lower with Some l => 0 < Q2R l <= Q2R upper | None => True end.

Lemma parse_is_threshold_ok spec upper lower :
  parse_rollout_is_threshold spec = Ok (upper, lower) → bounds_ok upper lower.
Proof.
  unfold parse_rollout_is_threshold, bounds_ok. intros H. apply bind_Ok_inv in H as ([u l] & _ & H).
  apply require_inv in H as [Hu H]. apply Qpos_Q2R in Hu. destruct l as [l|]; [|by injection H as <- <-].
  apply require_inv in H as [Hl H]. apply require_inv in H as [Hle [= <- <-]]. apply Qpos_Q2R in Hl.
  split; [done|]. split; [done|]. by apply Qle_Rle, Qle_bool_iff.
Qed.

Lemma correct_weight_0 upper lower :
  0 < upper → match lower with Some l => 0 < l | None => True end → correct_weight upper lower 0 = 0.
Proof.
  intros Hu Hl. unfold correct_weight. destruct lower as [l|]; [|by rewrite Rmin_left by lra].
  unfold Rleb. destruct (Rle_dec l 0); [lra|done].
Qed.

Lemma correct_weight_bounds upper lower w :
  0 < upper → 0 <= w → 0 <= correct_weight upper lower w <= upper ∧
  (correct_weight upper lower w = 0 ∨ default 0 lower <= correct_weight upper lower w) ∧
  (lower = None → 0 < w → 0 < correct_weight upper lower w).
Proof.
  intros Hu Hw. unfold correct_weight. destruct lower as [l|]; cbn [default from_option id].
  - unfold Rleb. destruct (Rle_dec l w), (Rle_dec w upper); simpl; split_and!; auto; lra || done.
  - unfold Rmin. destruct (Rle_dec w upper); split_and!; auto; lra.
Qed.

(** The ratio a valid token is weighted by. *)
Definition weight_ratio (is_sequence : bool) (row : list R) (m : list bool) (x : R) : R :=
  exp (clamp_log (if is_sequence then row_masked_sum row m else x)).
Definition row_raw (is_sequence : bool) (row : list R) (m : list bool) : list R :=
  zip_with (λ x b, weight_ratio is_sequence row m x * b2r b) row m.

Lemma raw_weights_rows is_sequence log_ratio mask :
  shape log_ratio = shape mask → raw_weights is_sequence log_ratio mask = zip_with (row_raw is_sequence) log_ratio mask.
Proof.
  unfold shape, raw_weights. destruct is_sequence.
  - unfold spread_mask. revert mask. induction log_ratio as [|row t IH]; intros [|m mask] Hs; csimpl in *; [done..|].
    injection Hs as Hl Hs. rewrite IH by done. f_equal. unfold row_raw, weight_ratio.
    generalize (exp (clamp_log (row_masked_sum row m))). clear -Hl. intros c. revert m Hl.
    induction row as [|x row IH]; intros [|b m] [=]; csimpl; [done..|]. f_equal. by apply IH.
  - unfold mask_mul. intros _. revert mask. induction log_ratio as [|row t IH]; intros [|m mask]; csimpl; [done..|].
    rewrite IH. f_equal. unfold row_mul, row_raw, weight_ratio. by rewrite zip_with_fmap_l.
Qed.

Lemma corrected_weights_rows is_sequence upper lower log_ratio mask :
  shape log_ratio = shape mask → bounds_ok upper lower →
  corrected_weights is_sequence upper lower log_ratio mask =
  zip_with (λ row m, zip_with (λ x b, if (b : bool) then
      correct_weight (Q2R upper) (Q2R <$> lower) (weight_ratio is_sequence row m x) else 0) row m) log_ratio mask.
Proof.
  intros Hs [Hu Hl]. unfold corrected_weights. rewrite raw_weights_rows by done. unfold tmap. rewrite fmap_zip_with.
  assert (He : ∀ row m, correct_weight (Q2R upper) (Q2R <$> lower) <$> row_raw is_sequence row m =
    zip_with (λ x b, if (b : bool) then correct_weight (Q2R upper) (Q2R <$> lower) (weight_ratio is_sequence row m x) else 0) row m).
  { intros row m. unfold row_raw. rewrite fmap_zip_with. generalize (weight_ratio is_sequence row m). intros g.
    revert m. induction row as [|x row IH]; intros [|b m]; csimpl; [done..|]. rewrite IH. f_equal.
    destruct b; cbn [b2r]; [by rewrite Rmult_1_r|]. rewrite Rmult_0_r. apply correct_weight_0; [done|].
    destruct lower; simpl; tauto. }
  clear Hs. revert mask. induction log_ratio as [|row t IH]; intros [|m mask]; cbn [zip_with]; [done..|]. by rewrite He, IH.
Qed.

(** ** Importance weights: when the call succeeds *)

Lemma rsum_zero_all (l : list R) : Forall (λ x, 0 <= x) l → rsum l = 0 → Forall (λ x, x = 0) l.
Proof.
  induction 1 as [|x l Hx Hl IH]; intros H; [done|]. rewrite rsum_cons in H. pose proof (rsum_nonneg l Hl).
  constructor; [lra|]. apply IH. lra.
Qed.

Lemma picks_elem {A} (mask : tensor bool) (t : tensor A) x : x ∈ picks mask t → x ∈ concat t.
Proof.
  unfold picks. revert t. induction mask as [|m mask IH]; intros [|r t] H; cbn [zip_with concat] in *; try (by apply elem_of_nil in H).
  apply elem_of_app in H as [H|H]; apply elem_of_app; [left|right; by apply IH].
  revert r H. induction m as [|b m IHm]; intros [|y r]; cbn [pick]; [by rewrite elem_of_nil..|].
  destruct b; set_solver.
Qed.

Lemma corrected_weights_bounds is_sequence upper lower log_ratio mask w :
  shape log_ratio = shape mask → bounds_ok upper lower →
  w ∈ concat (corrected_weights is_sequence upper lower log_ratio mask) → 0 <= w <= Q2R upper.
Proof.
  intros Hs Hb. rewrite corrected_weights_rows by done. destruct Hb as [Hu _].
  clear Hs. revert mask. induction log_ratio as [|row t IH]; intros [|m mask]; cbn [zip_with concat]; [by rewrite elem_of_nil..|].
  rewrite elem_of_app. intros [H|H]; [|by eapply IH].
  apply elem_of_lookup_zip_with in H as (i & x & b & -> & _ & _). destruct b; [|lra].
  apply correct_weight_bounds; [done|]. apply Rlt_le, exp_pos.
Qed.

Lemma tmap_ext_in {A B} (f g : A → B) (t : tensor A) : (∀ x, x ∈ concat t → f x = g x) → tmap f t = tmap g t.
Proof.
  unfold tmap. induction t as [|r t IH]; intros H; csimpl in *; [done|]. f_equal.
  - apply list_fmap_ext. intros i x Hx. apply H, elem_of_app. left. by eapply list_elem_of_lookup_2.
  - apply IH. intros x Hx. apply H, elem_of_app. by right.
Qed.

Lemma tmap_id {A} (t : tensor A) : tmap (λ x, x) t = t.
Proof. unfold tmap. rewrite <-(list_fmap_id t) at 2. apply list_fmap_ext. intros. apply list_fmap_id. Qed.

(** The mean of squares in the effective sample size vanishes exactly when every valid weight does. *)
Lemma second_moment_zero (upper : R) (weights : tensor R) (mask : tensor bool) (mean : R) :
  0 < upper → 0 <= mean → (∀ w, w ∈ concat weights → 0 <= w <= upper) →
  Reqb (TorchFunctional.masked_mean (tmap (λ w, (w / (mean + 1 / 10 ^ 8)) ^ 2) (tmap (rclamp 0 upper) weights)) mask) 0 =
  forallb (λ w, Reqb w 0) (picks mask weights).
Proof.
  intros Hu Hm Hw. pose proof (eps_pos 8) as He. pose proof (mask_count_nonneg mask) as Hc.
  rewrite (tmap_ext_in (rclamp 0 upper) (λ w, w)) by (intros; apply rclamp_id; auto). rewrite tmap_id.
  rewrite masked_mean_picks, picks_tmap. set (l := picks mask weights).
  assert (Hl : Forall (λ x, 0 <= x) ((λ w, (w / (mean + 1 / 10 ^ 8)) ^ 2) <$> l)).
  { apply Forall_fmap, Forall_true. intros w. cbn. apply pow2_ge_0. }
  apply eq_bool_prop_intro. split; intros H%Is_true_true; apply Is_true_true.
  - apply forallb_Forall. unfold Reqb in H. destruct (Req_EM_T _ 0) as [E|]; [|done].
    assert (rsum ((λ w, (w / (mean + 1 / 10 ^ 8)) ^ 2) <$> l) = 0) as Hz%(rsum_zero_all _ Hl).
    { apply (Rmult_eq_reg_r (/ (mask_count mask + 1 / 10 ^ 8))); [rewrite Rmult_0_l; exact E|].
      apply Rinv_neq_0_compat. lra. }
    apply Forall_fmap in Hz. eapply Forall_impl; [exact Hz|]. intros w Hz0. unfold compose in Hz0.
    unfold Reqb. destruct (Req_EM_T w 0) as [|Hn]; [done|]. exfalso.
    apply (pow_nonzero (w / (mean + 1 / 10 ^ 8)) 2); [|done]. unfold Rdiv. apply Rmult_integral_contrapositive. split; [done|].
    apply Rinv_neq_0_compat. lra.
  - apply forallb_Forall in H. unfold Reqb. destruct (Req_EM_T _ 0) as [|Hn]; [done|]. destruct Hn.
    rewrite (rsum_ext _ (λ _, 0)), rsum_const; [unfold Rdiv; ring|].
    intros w Hin. rewrite Forall_forall in H. specialize (H w Hin). unfold Reqb in H.
    destruct (Req_EM_T w 0) as [->|]; [|done]. unfold Rdiv. ring.
Qed.

Lemma rclamp_nonneg hi x : 0 <= hi → 0 <= rclamp 0 hi x.
Proof. intros Hhi. unfold rclamp. apply Rmin_glb; [apply Rmax_r|done]. Qed.

Lemma masked_mean_nonneg t mask : (∀ x, x ∈ concat t → 0 <= x) → 0 <= TorchFunctional.masked_mean t mask.
Proof.
  intros H. rewrite masked_mean_picks. pose proof (mask_count_nonneg mask). pose proof (eps_pos 8).
  apply Rdiv_nonneg; [|lra]. apply rsum_nonneg, Forall_forall. intros x Hx. by eapply H, picks_elem.
Qed.

(** The metrics succeed exactly when some valid weight is not zero. *)
Lemma is_metrics_outcome weights raw logs mask is_sequence upper lower :
  any_valid mask = true → 0 < upper → (∀ w, w ∈ concat weights → 0 <= w <= upper) →
  if forallb (λ w, Reqb w 0) (picks mask weights)
  then compute_is_metrics weights raw logs mask is_sequence upper lower =
         Raise (ZeroDivisionError "float division by zero")
  else ∃ ms, compute_is_metrics weights raw logs mask is_sequence upper lower = Ok ms.
Proof.
  intros Hany Hu Hw. unfold compute_is_metrics. rewrite Hany.
  assert (bool_decide (lower ≠ None) || negb (Reqb upper 0) = true) as ->.
  { apply orb_true_iff. right. unfold Reqb. destruct (Req_EM_T upper 0); [lra|done]. }
  cbn [mbind result_bind].
  rewrite second_moment_zero; [|done| |done].
  - destruct (forallb _ _); [done|]. cbn. by eexists.
  - apply masked_mean_nonneg. intros x. unfold tmap. rewrite <-fmap_concat. intros Hx.
    apply list_elem_of_fmap in Hx as (y & -> & _). apply rclamp_nonneg. lra.
Qed.

Lemma pick_intro {A} (m : list bool) (row : list A) (j : nat) (x : A) : m !! j = Some true → row !! j = Some x → x ∈ pick m row.
Proof.
  revert row j. induction m as [|b m IH]; intros [|y row] [|j] Hm Hx; simplify_eq/=; [by left|].
  destruct b; [right|]; by eapply IH.
Qed.
Lemma picks_intro {A} (mask : tensor bool) (t : tensor A) (i j : nat) (x : A) :
  tget mask i j = Some true → tget t i j = Some x → x ∈ picks mask t.
Proof.
  unfold tget, picks. revert t i. induction mask as [|m mask IH]; intros [|r t] [|i] Hm Hx; simplify_eq/=.
  - apply elem_of_app. left. by eapply pick_intro.
  - apply elem_of_app. right. by eapply IH.
Qed.
Lemma any_valid_tget mask : any_valid mask = true → ∃ i j, tget mask i j = Some true.
Proof.
  intros (m & Hm & Hb)%existsb_exists. apply existsb_exists in Hb as (b & Hb & Ht).
  apply list_elem_of_In, list_elem_of_lookup_1 in Hm as [i Hi].
  apply list_elem_of_In, list_elem_of_lookup_1 in Hb as [j Hj]. exists i, j. unfold tget. rewrite Hi. cbn. by destruct b.
Qed.

Lemma tget_rows_2 {A B C} (f : list A → list B → list C) t u i j :
  tget (zip_with f t u) i j = match t !! i, u !! i with Some r, Some s => f r s !! j | _, _ => None end.
Proof. unfold tget. rewrite lookup_zip_with. destruct (t !! i); [|done]. by destruct (u !! i). Qed.

Lemma corrected_weights_tget is_sequence upper lower (log_ratio : tensor R) (mask : tensor bool) (i j : nat) row m x (b : bool) :
  shape log_ratio = shape mask → bounds_ok upper lower →
  log_ratio !! i = Some row → mask !! i = Some m → row !! j = Some x → m !! j = Some b →
  tget (corrected_weights is_sequence upper lower log_ratio mask) i j =
  Some (if b then correct_weight (Q2R upper) (Q2R <$> lower) (weight_ratio is_sequence row m x) else 0).
Proof.
  intros Hs Hb Hrow Hm Hx Hmb. rewrite corrected_weights_rows by done. rewrite tget_rows_2, Hrow, Hm.
  by rewrite lookup_zip_with, Hx; cbn; rewrite Hmb.
Qed.

Lemma corrected_weights_shape is_sequence upper lower log_ratio mask :
  shape log_ratio = shape mask → bounds_ok upper lower →
  shape (corrected_weights is_sequence upper lower log_ratio mask) = shape mask.
Proof.
  intros Hs Hb. rewrite corrected_weights_rows by done. revert Hs. unfold shape. clear Hb. revert mask.
  induction log_ratio as [|row t IH]; intros [|m mask] Hs; csimpl in *; [done..|]. injection Hs as Hl Hs.
  rewrite IH by done. f_equal. rewrite length_zip_with. lia.
Qed.

(** Truncation never zeroes a valid token. *)
Lemma tis_weight_positive is_sequence upper log_ratio mask :
  shape log_ratio = shape mask → any_valid mask = true → 0 < Q2R upper →
  forallb (λ w : R, Reqb w 0) (picks mask (corrected_weights is_sequence upper None log_ratio mask)) = false.
Proof.
  intros Hs Hany Hu. destruct (any_valid_tget _ Hany) as (i & j & Hij).
  apply not_true_iff_false. intros H%forallb_Forall. rewrite Forall_forall in H.
  destruct (tget_shape mask log_ratio i j true) as [x Hx]; [by symmetry|done|].
  unfold tget in Hx. destruct (log_ratio !! i) as [row|] eqn:Hrow; [|done]. cbn in Hx.
  pose proof Hij as Hm. unfold tget in Hm. destruct (mask !! i) as [m|] eqn:Hmi; [|done]. cbn in Hm.
  pose proof (corrected_weights_tget is_sequence upper None log_ratio mask i j row m x true Hs (conj Hu I) Hrow Hmi Hx Hm) as Hw.
  specialize (H _ (picks_intro _ _ _ _ _ Hij Hw)). cbn in H. unfold Reqb in H.
  destruct (Req_EM_T _ 0) as [E|]; [|done]. unfold weight_ratio, Rmin in E.
  destruct (Rle_dec _ _); [|lra]. pose proof (exp_pos (clamp_log (if is_sequence then row_masked_sum row m else x))). lra.
Qed.

(** The call returns the corrected weights unless they all vanish on the valid tokens. *)
Lemma weights_outcome (other_ranks : option (R * R)) (log_ratio : tensor R) (mask : tensor bool)
    (lvl : string) (spec : threshold_spec) (normalize : bool) (is_sequence : bool) (upper : Q) (lower : option Q) :
  shape log_ratio = shape mask → any_valid mask = true →
  is_level lvl = Ok is_sequence → parse_rollout_is_threshold spec = Ok (upper, lower) →
  let weights := corrected_weights is_sequence upper lower log_ratio mask in
  let call := compute_rollout_correction_weights other_ranks log_ratio mask lvl spec normalize in
  if forallb (λ w, Reqb w 0) (picks mask weights)
  then call = Raise (ZeroDivisionError "float division by zero") ∧ lower ≠ None
  else ∃ metrics, call = Ok (if normalize then (batch_normalize other_ranks is_sequence weights mask).1 else weights, metrics).
Proof.
  intros Hs Hany Hlvl Hspec weights call. pose proof (parse_is_threshold_ok _ _ _ Hspec) as Hb.
  assert (Hlow : forallb (λ w, Reqb w 0) (picks mask weights) = true → lower ≠ None).
  { unfold weights. intros H ->. by rewrite tis_weight_positive in H by (done || apply Hb). }
  unfold call, compute_rollout_correction_weights. rewrite Hlvl. cbn [mbind result_bind]. rewrite Hspec.
  cbn [mbind result_bind]. fold weights.
  pose proof (is_metrics_outcome weights
    (raw_weights is_sequence log_ratio mask) (log_ratio_for_metrics is_sequence log_ratio mask) mask is_sequence
    (Q2R upper) (Q2R <$> lower) Hany (proj1 Hb) (λ w, corrected_weights_bounds _ _ _ _ _ _ Hs Hb)) as H.
  destruct (forallb _ _); [rewrite H; auto|]. destruct H as [ms ->]. cbn [mbind result_bind].
  destruct normalize; [|by eexists]. destruct (batch_normalize _ _ _ _) as [w f]. by eexists.
Qed.

(** For a known level and a threshold that parses, the importance weight of a valid token is
    the (clamped) ratio of its policies, or of its row's, truncated at the upper bound (TIS) or
    zeroed outside the bounds (IcePop); it is 0 on masked tokens and lies in the bounds
    otherwise.  The call returns these weights, except when IcePop zeroes every valid weight:
    then the effective sample size divides by zero.  TIS always returns. *)
Theorem importance_weights_correct (other_ranks : option (R * R)) (log_ratio : tensor R) (mask : tensor bool)
    (lvl : string) (spec : threshold_spec) (is_sequence : bool) (upper : Q) (lower : option Q) :
  shape log_ratio = shape mask → any_valid mask = true →
  is_level lvl = Ok is_sequence → parse_rollout_is_threshold spec = Ok (upper, lower) →
  let call := compute_rollout_correction_weights other_ranks log_ratio mask lvl spec false in
  ∃ weights, shape weights = shape mask ∧
    (∀ i j row m x b, log_ratio !! i = Some row → mask !! i = Some m → row !! j = Some x → m !! j = Some b →
       ∃ v, tget weights i j = Some v ∧
         v = (if (b : bool) then correct_weight (Q2R upper) (Q2R <$> lower) (weight_ratio is_sequence row m x) else 0) ∧
         0 <= v <= Q2R upper ∧ (v = 0 ∨ default 0 (Q2R <$> lower) <= v)) ∧
    (if forallb (λ w, Reqb w 0) (picks mask weights)
     then call = Raise (ZeroDivisionError "float division by zero")
     else ∃ metrics, call = Ok (weights, metrics)) ∧
    (lower = None → ∃ metrics, call = Ok (weights, metrics)).
Proof.
  intros Hs Hany Hlvl Hspec call. pose proof (parse_is_threshold_ok _ _ _ Hspec) as Hb.
  exists (corrected_weights is_sequence upper lower log_ratio mask).
  pose proof (weights_outcome other_ranks _ _ _ _ false _ _ _ Hs Hany Hlvl Hspec) as Hcall. cbn zeta in Hcall.
  split_and!; [by apply corrected_weights_shape| | |].
  - intros i j row m x b Hrow Hm Hx Hmb. eexists. split; [by eapply corrected_weights_tget|]. split; [done|].
    destruct b; [|split; [pose proof (proj1 Hb); lra|by left]].
    destruct (correct_weight_bounds (Q2R upper) (Q2R <$> lower) (weight_ratio is_sequence row m x)) as (H1 & H2 & _);
      [apply Hb|apply Rlt_le, exp_pos|done].
  - unfold call. by destruct (forallb _ _); [destruct Hcall|].
  - intros ->. unfold call. by destruct (forallb _ _); [destruct Hcall|].
Qed.

Lemma importance_weights_correct_witness :
  (∃ metrics, compute_rollout_correction_weights None [[0; 1]] [[true; false]] "sequence" (StrSpec " 2.0 ") false =
     Ok ([[correct_weight (Q2R (20 # 10)) None (weight_ratio true [0; 1] [true; false] 0); 0]], metrics)).
Proof.
  destruct (importance_weights_correct None [[0; 1]] [[true; false]] "sequence" (StrSpec " 2.0 ") true
    (20 # 10) None) as (w & Hs & Hw & _ & H); [done..|by vm_compute|].
  destruct (H eq_refl) as [ms Hms]. exists ms. rewrite Hms. do 2 f_equal.
  destruct (Hw 0%nat 0%nat [0; 1] [true; false] 0 true) as (v & Hv & Ev & _); [done..|].
  destruct (Hw 0%nat 1%nat [0; 1] [true; false] 1 false) as (v' & Hv' & Ev' & _); [done..|].
  destruct w as [|r [|]]; try done. destruct r as [|a [|a' [|]]]; try done.
  unfold tget in Hv, Hv'. simpl in Hv, Hv'. injection Hv as ->. injection Hv' as ->.
  by rewrite Ev, Ev'.
Defined.

(** ** Normalisation over the ranks of a job *)

(** What one rank adds to the global sum and count. *)
Definition rank_total (is_sequence : bool) (wm : tensor R * tensor bool) : R :=
  if is_sequence then rsum (zip_with (λ w v, w * b2r v) (zip_with row_masked_mean wm.1 wm.2) (seq_valid wm.2))
  else tsum (mask_mul wm.1 wm.2).
Definition rank_count (is_sequence : bool) (wm : tensor R * tensor bool) : R :=
  if is_sequence then row_count (seq_valid wm.2) else mask_count wm.2.
Definition totals (is_sequence : bool) (ranks : list (tensor R * tensor bool)) : R * R :=
  (rsum (rank_total is_sequence <$> ranks), rsum (rank_count is_sequence <$> ranks)).

Lemma row_masked_sum_scale c row m : row_masked_sum ((λ w, w * c) <$> row) m = row_masked_sum row m * c.
Proof. rewrite !row_masked_sum_pick, pick_fmap. rewrite (rsum_ext _ (λ w, c * w)) by (intros; ring). rewrite rsum_scale. ring. Qed.

Lemma rank_total_scale is_sequence c (w : tensor R) (m : tensor bool) :
  rank_total is_sequence (tmap (λ x, x * c) w, m) = rank_total is_sequence (w, m) * c.
Proof.
  unfold rank_total. cbn [fst snd]. destruct is_sequence.
  - generalize (seq_valid m). revert m. induction w as [|row w IH]; intros [|r m] l; csimpl; try (rewrite Rmult_0_l; done).
    destruct l as [|b l]; csimpl; [ring|]. rewrite IH. unfold row_masked_mean. rewrite row_masked_sum_scale.
    unfold Rdiv. ring.
  - unfold tsum, mask_mul. revert m. induction w as [|row w IH]; intros [|r m]; csimpl; try (rewrite Rmult_0_l; done).
    rewrite IH. rewrite Rmult_plus_distr_r. f_equal. unfold row_mul. clear. revert r.
    induction row as [|x row IH]; intros [|b r]; csimpl; [ring..|]. rewrite IH. ring.
Qed.

(** With [torch.distributed] initialised, every rank divides its weights by the same number,
    the mean weight over the whole job, and the normalised weights have mean one over the valid
    tokens (or sequences) of all ranks together. *)
Theorem batch_normalize_global (is_sequence : bool) (ranks : list (tensor R * tensor bool)) :
  let '(total, count) := totals is_sequence ranks in
  0 < count → 1 / 10 ^ 8 < total / count →
  (∀ before w m after, ranks = before ++ (w, m) :: after →
     batch_normalize (Some (totals is_sequence (before ++ after))) is_sequence w m =
       (tmap (λ x, x / (total / count)) w, total / count)) ∧
  rsum (rank_total is_sequence <$> ((λ wm, (tmap (λ x, x / (total / count)) wm.1, wm.2)) <$> ranks)) / count = 1.
Proof.
  unfold totals. set (T := rsum (rank_total is_sequence <$> ranks)). set (N := rsum (rank_count is_sequence <$> ranks)).
  intros HN Hmean. pose proof (eps_pos 8) as He. split.
  - intros before w m after E.
    assert (ET : T = rank_total is_sequence (w, m) + rsum (rank_total is_sequence <$> (before ++ after))).
    { unfold T. rewrite E, !fmap_app, fmap_cons, !rsum_app, rsum_cons. ring. }
    assert (EN : N = rank_count is_sequence (w, m) + rsum (rank_count is_sequence <$> (before ++ after))).
    { unfold N. rewrite E, !fmap_app, fmap_cons, !rsum_app, rsum_cons. ring. }
    assert (Hm : weights_mean (Some (rsum (rank_total is_sequence <$> (before ++ after)),
      rsum (rank_count is_sequence <$> (before ++ after)))) is_sequence w m = Fin (T / N)).
    { rewrite ET, EN. unfold weights_mean. destruct is_sequence.
      - apply (fdiv_Fin (rank_total true (w, m) + _) (rank_count true (w, m) + _)). lra.
      - apply (fdiv_Fin (rank_total false (w, m) + _) (rank_count false (w, m) + _)). lra. }
    unfold batch_normalize. rewrite Hm. unfold Rltb. by destruct (Rlt_dec _ _).
  - rewrite <-list_fmap_compose. unfold compose.
    rewrite (rsum_ext _ (λ wm, / (T / N) * rank_total is_sequence wm)).
    + rewrite rsum_scale_f. fold T. assert (T <> 0). { intros E0. rewrite E0 in Hmean. unfold Rdiv in Hmean. lra. }
      field. split; lra.
    + intros [w m] _. cbn [fst snd]. unfold Rdiv at 1. rewrite rank_total_scale. ring.
Qed.

Lemma batch_normalize_global_witness :
  rsum (rank_total false <$> ((λ wm : tensor R * tensor bool, (tmap (λ x, x / (6 / 2)) wm.1, wm.2)) <$>
      [([[2; 5]], [[true; false]]); ([[4]], [[true]])])) / 2 = 1.
Proof.
  pose proof (batch_normalize_global false [([[2; 5]], [[true; false]]); ([[4]], [[true]])]) as H.
  cbv beta iota zeta delta [totals] in H.
  assert (ET : rsum (rank_total false <$> [([[2; 5]], [[true; false]]); ([[4]], [[true]])]) = 6).
  { unfold rank_total, tsum, mask_mul, row_mul. simpl. lra. }
  assert (EN : rsum (rank_count false <$> [([[2; 5]], [[true; false]]); ([[4]], [[true]])]) = 2).
  { unfold rank_count, mask_count, row_count. simpl. lra. }
  rewrite ET, EN in H. apply H; lra.
Defined.

(** ** The bypass loss sees only what rejection keeps *)

(** The tensors have one shape and the same entries on the mask. *)
Definition agree_on (mask : tensor bool) (t u : tensor R) : Prop :=
  shape t = shape mask ∧ shape u = shape mask ∧
  ∀ i j, tget mask i j = Some true → tget t i j = tget u i j.

Lemma tensor_ext {A} (t u : tensor A) : shape t = shape u → (∀ i j, tget t i j = tget u i j) → t = u.
Proof.
  intros Hs H. apply list_eq. intros i. pose proof (f_equal (λ l, l !! i) Hs) as Hi.
  unfold shape in Hi. rewrite !list_lookup_fmap in Hi.
  destruct (t !! i) as [r|] eqn:Ht, (u !! i) as [s|] eqn:Hu; try done. f_equal. apply list_eq. intros j.
  specialize (H i j). unfold tget in H. by rewrite Ht, Hu in H.
Qed.

Lemma mask_mul_tzip t mask : mask_mul t mask = tzip (λ v b, v * b2r b) t mask.
Proof. done. Qed.

Lemma agree_mask_mul mask t u : agree_on mask t u → mask_mul t mask = mask_mul u mask.
Proof.
  intros (Ht & Hu & H). rewrite (mask_mul_tzip t), (mask_mul_tzip u). apply tensor_ext.
  { rewrite (shape_tzip _ t) by done. rewrite (shape_tzip _ u) by done. congruence. }
  intros i j. destruct (tget mask i j) as [b|] eqn:Hb.
  - destruct (tget_shape mask t i j b) as [x Hx]; [done..|]. destruct (tget_shape mask u i j b) as [y Hy]; [done..|].
    rewrite (tget_tzip (λ v b, v * b2r b) t mask i j x b), (tget_tzip (λ v b, v * b2r b) u mask i j y b) by done.
    destruct b; cbn [b2r]; [|f_equal; ring]. specialize (H i j Hb). congruence.
  - assert (Hn : ∀ s : tensor R, tget (tzip (λ v b, v * b2r b) s mask) i j = None).
    { intros s. destruct (tget (tzip _ s mask) i j) as [z|] eqn:E; [|done].
      apply tget_tzip_inv in E as (x & b & _ & E & _). by rewrite Hb in E. }
    by rewrite !Hn.
Qed.

Lemma masked_sum_mask_mul t mask : masked_sum t mask = tsum (mask_mul t mask).
Proof.
  unfold masked_sum, tsum, mask_mul. revert mask. induction t as [|r t IH]; intros [|m mask]; csimpl; [done..|].
  rewrite IH. f_equal. unfold row_masked_sum, row_mul. clear. revert m.
  induction r as [|x r IH]; intros [|b m]; csimpl; [done..|]. rewrite IH. f_equal. destruct b; simpl; ring.
Qed.

Lemma agg_loss_agree mask t u mode info : agree_on mask t u → agg_loss t mask mode info = agg_loss u mask mode info.
Proof.
  intros H%agree_mask_mul. unfold agg_loss, seq_sums. by rewrite !masked_sum_mask_mul, H.
Qed.

Lemma agree_tzip {A} (f : R → A → R) mask t u (v : tensor A) :
  agree_on mask t u → shape v = shape mask → agree_on mask (tzip f t v) (tzip f u v).
Proof.
  intros (Ht & Hu & H) Hv. split_and!; [rewrite shape_tzip; congruence..|]. intros i j Hb.
  destruct (tget_shape mask t i j true) as [x Hx]; [done..|]. destruct (tget_shape mask v i j true) as [y Hy]; [done..|].
  rewrite (tget_tzip f t v i j x y) by done. symmetry. apply tget_tzip; [|done]. by rewrite <-H.
Qed.

Lemma agree_shape mask t u {A} (v : tensor A) : agree_on mask t u → shape v = shape mask → shape t = shape v.
Proof. intros (-> & _ & _). congruence. Qed.

Lemma shape_negative_approx_kl log_prob old_log_prob :
  shape log_prob = shape old_log_prob → shape (tmap exp (negative_approx_kl log_prob old_log_prob)) = shape log_prob.
Proof.
  intros H. unfold negative_approx_kl. transitivity (shape (tzip Rminus log_prob old_log_prob)); [|by apply shape_tzip].
  unfold shape, tmap. rewrite <-!list_fmap_compose. apply list_fmap_ext. intros i r _. cbn. by rewrite !length_fmap.
Qed.

(** A loss that is a function of each token's advantage and of quantities that do not depend on
    the advantages. *)
Lemma vanilla_losses_token c old_log_prob log_prob advantages :
  shape old_log_prob = shape advantages → shape log_prob = shape advantages →
  vanilla_losses c old_log_prob log_prob advantages None =
  tzip (λ a r, let l := Rmax (- a * r) (- a * rclamp (1 - cliprange_low c) (1 + cliprange_high c) r) in
               if Rltb a 0 then Rmin (- a * default 3 (clip_ratio_c c)) l else l)
    advantages (tmap exp (negative_approx_kl log_prob old_log_prob)).
Proof.
  intros Ho Hl. unfold vanilla_losses, clipped_losses, with_weights, neg_mul.
  set (ratio := tmap exp _). assert (Hr : shape advantages = shape ratio).
  { symmetry. etrans; [apply shape_negative_approx_kl|done]. by rewrite Hl, Ho. }
  clearbody ratio. clear Ho Hl. unfold tzip, tmap. revert ratio Hr.
  induction advantages as [|row t IH]; intros [|s ratio] Hr; csimpl in *; try done.
  injection Hr as Hrow Hr. rewrite IH by done. f_equal. clear IH Hr. revert s Hrow.
  induction row as [|a row IH]; intros [|x s] [=]; csimpl; [done|]. rewrite IH by done. done.
Qed.

Lemma vanilla_agree c mode mask old_log_prob log_prob adv adv' loss ms :
  agree_on mask adv adv' → shape old_log_prob = shape mask → shape log_prob = shape mask →
  compute_policy_loss_vanilla old_log_prob log_prob adv mask mode c None = Ok (loss, ms) →
  ∃ ms', compute_policy_loss_vanilla old_log_prob log_prob adv' mask mode c None = Ok (loss, ms').
Proof.
  intros Ha Ho Hl H. pose proof Ha as (H1 & H2 & _). unfold compute_policy_loss_vanilla in *.
  apply require_inv in H as [Hb H]. rewrite Hb. unfold clipped_losses in *.
  apply bind_Ok_inv in H as (l & Hagg & [= -> _]).
  rewrite (agg_loss_agree mask _ (vanilla_losses c old_log_prob log_prob adv' None)) in Hagg.
  - rewrite Hagg. cbn [mbind result_bind]. by eexists.
  - rewrite (vanilla_losses_token c old_log_prob log_prob adv) by (by rewrite H1).
    rewrite (vanilla_losses_token c old_log_prob log_prob adv') by (by rewrite H2). apply agree_tzip; [done|].
    etrans; [apply shape_negative_approx_kl|done]. by rewrite Hl, Ho.
Qed.

Lemma reinforce_agree c mode mask old_log_prob log_prob adv adv' weights loss ms :
  agree_on mask adv adv' → shape log_prob = shape mask →
  match weights with Some w => shape w = shape mask | None => True end →
  compute_policy_loss_reinforce old_log_prob log_prob adv mask mode c weights = Ok (loss, ms) →
  ∃ ms', compute_policy_loss_reinforce old_log_prob log_prob adv' mask mode c weights = Ok (loss, ms').
Proof.
  intros Ha Hl Hw H. unfold compute_policy_loss_reinforce in *. apply bind_Ok_inv in H as (l & Hagg & [= -> _]).
  rewrite (agg_loss_agree mask _ (with_weights (neg_mul adv' log_prob) weights)) in Hagg.
  - rewrite Hagg. cbn [mbind result_bind]. by eexists.
  - unfold with_weights, neg_mul. destruct weights as [w|]; [apply agree_tzip; [|done]|]; by apply agree_tzip.
Qed.

Lemma rejection_mask_shape c log_ratio mask out ms :
  shape log_ratio = shape mask → rejection_mask c log_ratio mask = Ok (out, ms) → shape out = shape mask.
Proof.
  unfold rejection_mask. intros Hs H. destruct (rollout_rs c) as [options|]; [|by injection H as <- _].
  apply require_inv in H as [_ H]. unfold compute_rollout_rejection_mask in H. cbn [of_option mbind result_bind] in H.
  apply require_inv in H as [_ H]. destruct (Nat.eqb _ _); [by injection H as <- _|].
  apply bind_Ok_inv in H as (names & _ & H). apply bind_Ok_inv in H as (specs & _ & H).
  apply bind_Ok_inv in H as ([final ms'] & Hloop & [= <- _]).
  rewrite shape_tzip; [done|]. symmetry.
  apply (rejection_loop_shape log_ratio mask specs names (tmap (λ _, true) mask, []) (final, ms')); [done| |done].
  apply tmap_const_shape.
Qed.

Lemma correction_weights_shape other_ranks c log_ratio mask weights ms :
  shape log_ratio = shape mask → correction_weights other_ranks c log_ratio mask = Ok (weights, ms) →
  match weights with Some w => shape w = shape mask | None => True end.
Proof.
  unfold correction_weights. intros Hs H. destruct (rollout_is c) as [lvl|]; [|by injection H as <- _].
  assert (Hcall : ∀ spec w ms0, compute_rollout_correction_weights other_ranks log_ratio mask lvl spec
      (rollout_is_batch_normalize c) = Ok (w, ms0) → shape w = shape mask).
  { clear H. intros spec w ms0 H. unfold compute_rollout_correction_weights in H.
    apply bind_Ok_inv in H as (sq & _ & H). apply bind_Ok_inv in H as ([u l] & Hp & H).
    apply bind_Ok_inv in H as (ms1 & _ & H). apply parse_is_threshold_ok in Hp.
    pose proof (corrected_weights_shape sq u l log_ratio mask Hs Hp) as Hc.
    destruct (rollout_is_batch_normalize c); [|by injection H as <- _].
    unfold batch_normalize in H. destruct (weights_mean _ _ _ _) as [x|]; [|by injection H as <- _].
    destruct (Rltb _ x); injection H as <- _; by rewrite ?shape_tmap. }
  destruct (rollout_is_threshold c); try (by injection H as <- _);
    apply bind_Ok_inv in H as ([w ms0] & Hw & [= <- _]); by eapply Hcall.
Qed.

Lemma correction_shapes other_ranks old_log_prob rollout_log_prob mask c weights out ms :
  compute_rollout_correction_and_rejection_mask other_ranks old_log_prob rollout_log_prob mask c = Ok (weights, out, ms) →
  shape old_log_prob = shape mask ∧ shape rollout_log_prob = shape mask ∧ shape out = shape mask ∧
  match weights with Some w => shape w = shape mask | None => True end.
Proof.
  unfold compute_rollout_correction_and_rejection_mask. intros [_ H]%require_inv.
  apply require_inv in H as [H1%bool_decide_eq_true H]. apply require_inv in H as [H2%bool_decide_eq_true H].
  assert (Hs : shape (tzip Rminus old_log_prob rollout_log_prob) = shape mask) by (by rewrite shape_tzip).
  apply bind_Ok_inv in H as ([w ms1] & Hw & H). apply bind_Ok_inv in H as ([o ms2] & Ho & H).
  apply bind_Ok_inv in H as (ms3 & _ & [= <- <- _]).
  split_and!; [done|by rewrite <-H1|by eapply rejection_mask_shape|by eapply correction_weights_shape].
Qed.

(** In bypass mode a rejected token has no influence on the loss: two advantage tensors that
    agree on the tokens kept by the rejection mask have the same loss, for both loss types,
    every aggregation mode and every configuration. *)
Theorem bypass_ignores_rejected (other_ranks : option (R * R)) (c : RolloutCorrectionConfig) (config : ActorConfig)
    (old_log_prob log_prob adv adv' : tensor R) (mask effective : tensor bool) (mode : string)
    (weights : option (tensor R)) (ms0 ms : metric_list) (loss : fnum) :
  compute_rollout_correction_and_rejection_mask other_ranks log_prob old_log_prob mask c = Ok (weights, effective, ms0) →
  agree_on effective adv adv' →
  compute_policy_loss_bypass_mode other_ranks (Some c) old_log_prob log_prob adv mask mode config None = Ok (loss, ms) →
  ∃ ms', compute_policy_loss_bypass_mode other_ranks (Some c) old_log_prob log_prob adv' mask mode config None = Ok (loss, ms').
Proof.
  intros Hc Ha H. pose proof (correction_shapes _ _ _ _ _ _ _ _ Hc) as (Hl & Ho & He & Hw).
  assert (Hw' : match weights with Some w => shape w = shape effective | None => True end).
  { destruct weights; [by rewrite He|done]. }
  rewrite <-He in Hl, Ho. unfold compute_policy_loss_bypass_mode in *. cbn [of_option mbind result_bind] in *.
  rewrite Hc in *. cbn [mbind result_bind] in *. apply bind_Ok_inv in H as ([l ms1] & Hloss & [= -> _]).
  case_bool_decide; [|case_bool_decide; [|done]].
  - destruct (reinforce_agree _ _ _ _ _ _ _ _ _ _ Ha Hl Hw' Hloss) as [ms' ->]. cbn [mbind result_bind]. by eexists.
  - destruct (vanilla_agree _ _ _ _ _ _ _ _ _ Ha Ho Hl Hloss) as [ms' ->]. cbn [mbind result_bind]. by eexists.
Qed.

Definition example_policy_config : PolicyLossConfig := {|
  loss_mode := "bypass_mode"; clip_cov_ratio := None; clip_cov_lb := None; clip_cov_ub := None; kl_cov_ratio := None;
  ppo_kl_coef := None; rlsd_enabled := false; rlsd_lambda := 0; rlsd_reweight_clip_range := 0;
  rlsd_negative_only := false; rlsd_delta_student_logp_source := "old"; opd_pg_enabled := false;
  opd_logratio_clip_abs := 1 |}.
Definition example_actor_config : ActorConfig := {|
  clip_ratio := 2 / 10; clip_ratio_low := None; clip_ratio_high := None; clip_ratio_c := None; tau_pos := 1;
  tau_neg := 1; loss_agg_mode := "token-mean"; cfg_loss_scale_factor := None; entropy_coeff := 0;
  use_kl_loss := false; kl_loss_coef := 0; kl_loss_type := "k1"; policy_loss := example_policy_config;
  global_batch_info := no_batch_info |}.
Definition example_correction : RolloutCorrectionConfig := {|
  rollout_is := None; rollout_is_threshold := NoneSpec; rollout_is_batch_normalize := false;
  rollout_rs := Some "token_k2"%string; rollout_rs_threshold := NumSpec 1; bypass_mode := true; loss_type := "reinforce" |}.

(** The second token moved by 3, so its K2 divergence 4.5 is rejected. *)
Lemma example_keep :
  tzip andb [[true; true]] (tzip andb (tmap (λ _, true) [[true; true]])
    (tmap (within None (Q2R 1)) (tmap (token_stat K2) [[0 - 0; -5 - -2]]))) = [[true; false]].
Proof.
  unfold tmap, tzip, within, token_stat, clamp_log, rclamp, SAFETY_BOUND. simpl.
  rewrite !Rmax_left, !Rmin_left by lra. unfold Rleb, Q2R. simpl.
  destruct (Rle_dec _ _); [|lra]. destruct (Rle_dec _ _); [lra|done].
Qed.

Lemma bypass_ignores_rejected_witness : ∃ loss ms ms',
  compute_policy_loss_bypass_mode None (Some example_correction) [[0; -2]] [[0; -5]] [[1; 7]] [[true; true]]
    "token-mean" example_actor_config None = Ok (loss, ms) ∧
  compute_policy_loss_bypass_mode None (Some example_correction) [[0; -2]] [[0; -5]] [[1; -8]] [[true; true]]
    "token-mean" example_actor_config None = Ok (loss, ms').
Proof.
  assert (Hc : ∃ ms0, compute_rollout_correction_and_rejection_mask None [[0; -5]] [[0; -2]] [[true; true]]
    example_correction = Ok (None, tzip andb [[true; true]] (tzip andb (tmap (λ _, true) [[true; true]])
    (tmap (within None (Q2R 1)) (tmap (token_stat K2) [[0 - 0; -5 - -2]]))), ms0)) by (eexists; reflexivity).
  destruct Hc as [ms0 Hc]. rewrite example_keep in Hc.
  assert (H1 : ∃ loss ms, compute_policy_loss_bypass_mode None (Some example_correction) [[0; -2]] [[0; -5]] [[1; 7]]
    [[true; true]] "token-mean" example_actor_config None = Ok (loss, ms)) by (eexists _, _; reflexivity).
  destruct H1 as (loss & ms & H1).
  destruct (bypass_ignores_rejected None example_correction example_actor_config [[0; -2]] [[0; -5]]
    [[1; 7]] [[1; -8]] [[true; true]] [[true; false]] "token-mean" None ms0 ms loss Hc) as [ms' H2]; [|exact H1|].
  - split_and!; [done..|]. intros [|[|i]] [|[|[|j]]]; done.
  - by exists loss, ms, ms'.
Defined.
