(* ===== verification/RolloutPresets.v ===== *)
(** * Presets of rollout correction: [RolloutCorrectionConfig] of
    [src/verl/trainer/config/algorithm.py]

    Every class method as a function of its arguments, a check that a configuration is well
    formed, and its soundness: a well-formed configuration runs on every aligned batch.
    [str_float] is what an f-string writes for a float. *)

From S2P Require Import Prelude PyStr PyNum PyDict Rlsd TorchFunctional PolicyLoss RolloutCorrection.
From Stdlib Require Import Reals Lra QArith Qreals.
Local Close Scope Q_scope.
Local Open Scope R_scope.
Local Open Scope py_scope.

(** [cls(rollout_is=..., rollout_is_threshold=..., rollout_rs=..., rollout_rs_threshold=...)],
    the other fields at their defaults. *)
Definition decoupled (lvl : option string) (threshold : threshold_spec) (rs : option string) (rs_threshold : threshold_spec) :
    RolloutCorrectionConfig := {|
  rollout_is := lvl; rollout_is_threshold := threshold;
  rollout_is_batch_normalize := rollout_is_batch_normalize default_rollout_correction;
  rollout_rs := rs; rollout_rs_threshold := rs_threshold; bypass_mode := bypass_mode default_rollout_correction;
  loss_type := loss_type default_rollout_correction |}.
Definition bypass (lvl : option string) (threshold : threshold_spec) (rs : option string) (rs_threshold : threshold_spec)
    (loss : string) : RolloutCorrectionConfig := {|
  rollout_is := lvl; rollout_is_threshold := threshold;
  rollout_is_batch_normalize := rollout_is_batch_normalize default_rollout_correction;
  rollout_rs := rs; rollout_rs_threshold := rs_threshold; bypass_mode := true; loss_type := loss |}.
(** The thresholds that [cls] fills in. *)
Definition is_default : threshold_spec := rollout_is_threshold default_rollout_correction.
Definition rs_default : threshold_spec := rollout_rs_threshold default_rollout_correction.

Section presets.
Local Open Scope string_scope.
Context (str_float : Q → string).

Definition icepop_threshold (threshold threshold_lower : Q) : threshold_spec :=
  StrSpec (str_float threshold_lower ++ "_" ++ str_float threshold).

Definition decoupled_token_is (threshold : Q) := decoupled (Some "token") (NumSpec threshold) None rs_default.
Definition decoupled_seq_is (threshold : Q) := decoupled (Some "sequence") (NumSpec threshold) None rs_default.
Definition decoupled_token_icepop (threshold threshold_lower : Q) :=
  decoupled (Some "token") (icepop_threshold threshold threshold_lower) None rs_default.
Definition decoupled_seq_is_rs (is_threshold : Q) (rs_threshold : threshold_spec) :=
  decoupled (Some "sequence") (NumSpec is_threshold) (Some "seq_sum_k1") rs_threshold.
Definition decoupled_geo_rs (rs_threshold : threshold_spec) :=
  decoupled None is_default (Some "seq_mean_k1") rs_threshold.
Definition bypass_ppo_clip := bypass None is_default None rs_default "ppo_clip".
Definition bypass_ppo_clip_geo_rs (rs_threshold : threshold_spec) :=
  bypass None is_default (Some "seq_mean_k1") rs_threshold "ppo_clip".
Definition bypass_ppo_clip_k3_rs (rs_threshold : Q) :=
  bypass None is_default (Some "seq_mean_k3") (NumSpec rs_threshold) "ppo_clip".
Definition bypass_pg_is (threshold : Q) := bypass (Some "sequence") (NumSpec threshold) None rs_default "reinforce".
Definition bypass_pg_token_icepop (threshold threshold_lower : Q) :=
  bypass (Some "token") (icepop_threshold threshold threshold_lower) None rs_default "reinforce".
Definition bypass_pg_geo_rs (rs_threshold : threshold_spec) :=
  bypass None is_default (Some "seq_mean_k1") rs_threshold "reinforce".
Definition decoupled_geo_rs_seq_tis (is_threshold : Q) (rs_threshold : threshold_spec) :=
  decoupled (Some "sequence") (NumSpec is_threshold) (Some "seq_mean_k1") rs_threshold.
Definition decoupled_geo_rs_token_tis (is_threshold : Q) (rs_threshold : threshold_spec) :=
  decoupled (Some "token") (NumSpec is_threshold) (Some "seq_mean_k1") rs_threshold.
Definition bypass_pg_geo_rs_seq_tis (is_threshold : Q) (rs_threshold : threshold_spec) :=
  bypass (Some "sequence") (NumSpec is_threshold) (Some "seq_mean_k1") rs_threshold "reinforce".
Definition bypass_pg_geo_rs_token_tis (is_threshold : Q) (rs_threshold : threshold_spec) :=
  bypass (Some "token") (NumSpec is_threshold) (Some "seq_mean_k1") rs_threshold "reinforce".
Definition decoupled_k3_rs (rs_threshold : Q) :=
  decoupled None is_default (Some "seq_mean_k3") (NumSpec rs_threshold).
Definition decoupled_k3_rs_seq_tis (is_threshold rs_threshold : Q) :=
  decoupled (Some "sequence") (NumSpec is_threshold) (Some "seq_mean_k3") (NumSpec rs_threshold).
Definition decoupled_k3_rs_token_tis (is_threshold rs_threshold : Q) :=
  decoupled (Some "token") (NumSpec is_threshold) (Some "seq_mean_k3") (NumSpec rs_threshold).
Definition disabled := decoupled None is_default None rs_default.

(** All presets of an importance threshold with its lower bound, a ratio specification and a K3
    threshold. *)
Definition presets (threshold threshold_lower : Q) (ratio : threshold_spec) (k3 : Q) : list RolloutCorrectionConfig :=
  [decoupled_token_is threshold; decoupled_seq_is threshold; decoupled_token_icepop threshold threshold_lower;
   decoupled_seq_is_rs threshold ratio; decoupled_geo_rs ratio; bypass_ppo_clip; bypass_ppo_clip_geo_rs ratio;
   bypass_ppo_clip_k3_rs k3; bypass_pg_is threshold; bypass_pg_token_icepop threshold threshold_lower;
   bypass_pg_geo_rs ratio; decoupled_geo_rs_seq_tis threshold ratio; decoupled_geo_rs_token_tis threshold ratio;
   bypass_pg_geo_rs_seq_tis threshold ratio; bypass_pg_geo_rs_token_tis threshold ratio; decoupled_k3_rs k3;
   decoupled_k3_rs_seq_tis threshold k3; decoupled_k3_rs_token_tis threshold k3; disabled].
End presets.

(** ** Well-formed configurations *)

Definition is_part_ok (c : RolloutCorrectionConfig) : bool :=
  match rollout_is c, rollout_is_threshold c with
  | None, _ | _, NoneSpec => true
  | Some lvl, spec => is_ok (is_level lvl) && is_ok (parse_rollout_is_threshold spec)
  end.
Definition rs_part_ok (c : RolloutCorrectionConfig) : bool :=
  match rollout_rs c with
  | None => true
  | Some options => is_ok (names ← normalized_options options; parse_rollout_rs_thresholds names (rollout_rs_threshold c))
  end.
Definition config_ok (c : RolloutCorrectionConfig) : bool := is_part_ok c && rs_part_ok c.

Definition uses_icepop (c : RolloutCorrectionConfig) : bool :=
  match parse_rollout_is_threshold (rollout_is_threshold c) with Ok (_, Some _) => true | _ => false end.

Lemma is_part_runs other_ranks c log_ratio mask :
  is_part_ok c = true → shape log_ratio = shape mask → any_valid mask = true →
  is_ok (correction_weights other_ranks c log_ratio mask) = true ∨
  (uses_icepop c = true ∧
   correction_weights other_ranks c log_ratio mask = Raise (ZeroDivisionError "float division by zero")).
Proof.
  intros Hok Hs Hany. unfold is_part_ok, correction_weights, uses_icepop in *.
  destruct (rollout_is c) as [lvl|]; [|by left]. destruct (rollout_is_threshold c) as [|b|q|s|] eqn:Hspec; [by left|..].
  all: apply andb_true_iff in Hok as [[sq Hl]%is_ok_Ok [[u l] Hp]%is_ok_Ok].
  all: pose proof (weights_outcome other_ranks log_ratio mask lvl _ (rollout_is_batch_normalize c) _ _ _ Hs Hany Hl Hp) as H;
    cbn zeta in H; destruct (forallb _ _);
    [destruct H as [H Hn]; right; rewrite Hp, H; destruct l; done|left; destruct H as [ms ->]; done].
Qed.

Lemma rs_part_runs c log_ratio mask w :
  rs_part_ok c = true → shape log_ratio = shape mask → Forall (λ m, length m = w) mask → any_valid mask = true →
  is_ok (rejection_mask c log_ratio mask) = true.
Proof.
  intros Hok Hs Hw Hany. unfold rs_part_ok, rejection_mask in *. destruct (rollout_rs c) as [options|]; [|done].
  apply is_ok_Ok in Hok as [specs H]. apply bind_Ok_inv in H as (names & Hn & Hp).
  destruct (rejection_mask_run log_ratio mask options _ names specs w Hs Hw Hany Hn Hp) as (f & ms & m & _ & Hcall).
  rewrite Hcall. by destruct (rollout_rs_threshold c).
Qed.

(** A well-formed configuration runs on every aligned batch; only IcePop can fail. *)
Lemma config_ok_sound other_ranks c old_log_prob rollout_log_prob mask w :
  config_ok c = true → shape old_log_prob = shape mask → shape rollout_log_prob = shape mask →
  Forall (λ m, length m = w) mask → any_valid mask = true →
  let call := compute_rollout_correction_and_rejection_mask other_ranks old_log_prob rollout_log_prob mask c in
  is_ok call = true ∨ (uses_icepop c = true ∧ call = Raise (ZeroDivisionError "float division by zero")).
Proof.
  intros [H1 H2]%andb_true_iff Ho Hr Hw Hany call. unfold call, compute_rollout_correction_and_rejection_mask.
  rewrite Hany, !bool_decide_eq_true_2 by congruence. cbn [mbind result_bind].
  assert (Hs : shape (tzip Rminus old_log_prob rollout_log_prob) = shape mask) by (rewrite shape_tzip; congruence).
  destruct (is_part_runs other_ranks c _ _ H1 Hs Hany) as [[[ws ms] ->]%is_ok_Ok|[Hu ->]]; [left|by right].
  cbn [mbind result_bind]. destruct (is_ok_Ok _ (rs_part_runs c _ _ _ H2 Hs Hw Hany)) as [[out ms'] ->].
  cbn [mbind result_bind]. unfold compute_offpolicy_metrics. rewrite Hany. done.
Qed.

(** ** The presets are well formed *)

Fixpoint plain (s : string) : bool :=
  match s with
  | EmptyString => true
  | String c s => negb (is_space c) && negb (bool_decide (c = "_"%char)) && plain s
  end.
(** The text of a float has neither blanks nor underscores, and [float] reads it back. *)
Definition reads_back (str_float : Q → string) (q : Q) : Prop :=
  plain (str_float q) = true ∧ ∃ q', float_of_str (str_float q) = Some q' ∧ (q' == q)%Q.

Fixpoint no_space (s : string) : bool :=
  match s with EmptyString => true | String c s => negb (is_space c) && no_space s end.
Lemma strip_no_space s : no_space s = true → strip s = s.
Proof.
  intros H. unfold strip. assert (Hl : lstrip s = s).
  { destruct s; [done|]. simpl in *. apply andb_true_iff in H as [->%negb_true_iff _]. done. }
  rewrite Hl. clear Hl. induction s as [|c s IH]; [done|]. simpl in *.
  apply andb_true_iff in H as [->%negb_true_iff H]. rewrite IH by done. by destruct s.
Qed.
Lemma plain_no_space s : plain s = true → no_space s = true.
Proof.
  induction s as [|c s IH]; [done|]. simpl. rewrite !andb_true_iff. intros [[? _] ?]. auto.
Qed.
Lemma no_space_app s t : no_space s = true → no_space t = true → no_space (s ++ t) = true.
Proof. induction s as [|c s IH]; [done|]. simpl. rewrite !andb_true_iff. intros [? ?] ?. auto. Qed.
Lemma plain_has_no_underscore s : plain s = true → has_char "_" s = false.
Proof.
  induction s as [|c s IH]; [done|]. simpl. rewrite !andb_true_iff. intros [[_ Hc%negb_true_iff] ?].
  apply orb_false_iff. split; [|auto]. apply bool_decide_eq_false in Hc. apply bool_decide_eq_false. congruence.
Qed.

Lemma Qpos_eq q q' : (q' == q)%Q → Qpos q' = Qpos q.
Proof.
  intros E. unfold Qpos. f_equal. apply eq_bool_prop_intro. rewrite !Is_true_true, !Qle_bool_iff. by rewrite E.
Qed.

Lemma icepop_parses str_float threshold threshold_lower :
  reads_back str_float threshold → reads_back str_float threshold_lower →
  Qpos threshold_lower = true → Qle_bool threshold_lower threshold = true →
  is_ok (parse_rollout_is_threshold (icepop_threshold str_float threshold threshold_lower)) = true.
Proof.
  intros [Hp (u & Hu & Eu)] [Hpl (l & Hl & El)] Hpos Hle. unfold parse_rollout_is_threshold, icepop_threshold.
  cbn [read_is_threshold].
  assert (Hstrip : strip (str_float threshold_lower ++ "_" ++ str_float threshold) =
    (str_float threshold_lower ++ "_" ++ str_float threshold)%string).
  { apply strip_no_space, no_space_app; [by apply plain_no_space|]. apply no_space_app; [done|by apply plain_no_space]. }
  rewrite Hstrip. rewrite bool_decide_eq_false_2 by (destruct (str_float threshold_lower); discriminate).
  cbn [negb mbind result_bind]. unfold split_once.
  change ("_" ++ str_float threshold)%string with (String "_" (str_float threshold)).
  rewrite find_char_app by (by apply plain_has_no_underscore). cbn [mbind option_bind].
  rewrite stake_app, <-(Nat.add_1_r (String.length _)), sdrop_app_add. cbn [sdrop].
  rewrite Hl, Hu. cbn [of_option mbind result_bind].
  rewrite (Qpos_eq threshold u), (Qpos_eq threshold_lower l) by done.
  assert (Hlu : Qle_bool l u = true) by (apply Qle_bool_iff; rewrite El, Eu; by apply Qle_bool_iff).
  assert (Ht : Qpos threshold = true).
  { unfold Qpos in *. apply negb_true_iff in Hpos. apply negb_true_iff.
    apply not_true_iff_false. rewrite Qle_bool_iff. intros H0. apply Qle_bool_iff in Hle.
    assert (Qle_bool threshold_lower 0 = true); [|congruence]. apply Qle_bool_iff. by eapply Qle_trans. }
  by rewrite Ht, Hpos, Hlu.
Qed.

Lemma number_threshold_parses q : Qpos q = true → is_ok (parse_rollout_is_threshold (NumSpec q)) = true.
Proof. intros H. unfold parse_rollout_is_threshold. cbn. by rewrite H. Qed.
Lemma k3_threshold_parses q :
  Qpos q = true → is_ok (parse_rollout_rs_thresholds ["seq_mean_k3"%string] (NumSpec q)) = true.
Proof. intros H. unfold parse_rollout_rs_thresholds, rs_threshold. cbn. by rewrite H. Qed.

Lemma presets_config_ok str_float threshold threshold_lower ratio k3 :
  Qpos threshold_lower = true → Qle_bool threshold_lower threshold = true → Qpos threshold = true → Qpos k3 = true →
  reads_back str_float threshold → reads_back str_float threshold_lower →
  is_ok (parse_rollout_rs_thresholds ["seq_sum_k1"%string] ratio) = true →
  is_ok (parse_rollout_rs_thresholds ["seq_mean_k1"%string] ratio) = true →
  Forall (λ c, config_ok c = true) (presets str_float threshold threshold_lower ratio k3).
Proof.
  intros Hlow Hle Hpos Hk3 Hr Hrl Hsum Hmean. pose proof (icepop_parses _ _ _ Hr Hrl Hlow Hle) as Hice.
  pose proof (number_threshold_parses _ Hpos) as Hnum. pose proof (k3_threshold_parses _ Hk3) as Hk.
  assert (Hopt : ∀ o, o ∈ ["seq_sum_k1"; "seq_mean_k1"; "seq_mean_k3"]%string → normalized_options o = Ok [o]).
  { intros o. rewrite !elem_of_cons, elem_of_nil. intros [->|[->|[->|[]]]]; by vm_compute. }
  apply Forall_forall. intros c Hc. unfold presets in Hc.
  repeat (apply elem_of_cons in Hc as [->|Hc]); [..|by apply elem_of_nil in Hc].
  all: unfold config_ok, is_part_ok, rs_part_ok;
    cbn -[parse_rollout_is_threshold parse_rollout_rs_thresholds normalized_options is_level icepop_threshold];
    rewrite ?Hopt by set_solver; cbn [mbind result_bind]; rewrite ?Hice, ?Hnum, ?Hk, ?Hsum, ?Hmean; try done.
  all: unfold icepop_threshold in *; by rewrite Hice.
Qed.

(** Every preset with positive thresholds and a ratio specification that parses runs on every
    aligned batch with a valid token, whatever the log probabilities: it returns weights, mask
    and metrics.  The only exception is the division by zero of the IcePop presets. *)
Theorem presets_run (str_float : Q → string) (threshold threshold_lower k3 : Q) (ratio : threshold_spec)
    (c : RolloutCorrectionConfig) (other_ranks : option (R * R)) (old_log_prob rollout_log_prob : tensor R)
    (mask : tensor bool) (w : nat) :
  Qpos threshold_lower = true → Qle_bool threshold_lower threshold = true → Qpos threshold = true → Qpos k3 = true →
  reads_back str_float threshold → reads_back str_float threshold_lower →
  is_ok (parse_rollout_rs_thresholds ["seq_sum_k1"%string] ratio) = true →
  is_ok (parse_rollout_rs_thresholds ["seq_mean_k1"%string] ratio) = true →
  c ∈ presets str_float threshold threshold_lower ratio k3 →
  shape old_log_prob = shape mask → shape rollout_log_prob = shape mask →
  Forall (λ m, length m = w) mask → any_valid mask = true →
  let call := compute_rollout_correction_and_rejection_mask other_ranks old_log_prob rollout_log_prob mask c in
  is_ok call = true ∨ (uses_icepop c = true ∧ call = Raise (ZeroDivisionError "float division by zero")).
Proof.
  intros Hlow Hle Hpos Hk3 Hr Hrl Hsum Hmean Hc Ho Hr' Hw Hany call.
  pose proof (presets_config_ok _ _ _ _ _ Hlow Hle Hpos Hk3 Hr Hrl Hsum Hmean) as Hok.
  rewrite Forall_forall in Hok. by eapply config_ok_sound; [apply Hok| | | |].
Qed.

Definition example_str_float (q : Q) : string := if Qeq_bool q 5 then "5.0" else "0.5".

Lemma presets_run_witness :
  is_ok (compute_rollout_correction_and_rejection_mask None [[0; -5]] [[-1; 0]] [[true; true]]
           (decoupled_geo_rs_seq_tis 5 (StrSpec "0.999_1.001"))) = true ∧
  (is_ok (compute_rollout_correction_and_rejection_mask None [[0; -5]] [[-1; 0]] [[true; true]]
           (bypass_pg_token_icepop example_str_float 5 (5 # 10))) = true ∨
   compute_rollout_correction_and_rejection_mask None [[0; -5]] [[-1; 0]] [[true; true]]
           (bypass_pg_token_icepop example_str_float 5 (5 # 10)) = Raise (ZeroDivisionError "float division by zero")).
Proof.
  assert (H5 : reads_back example_str_float 5) by (split; [done|eexists; split; [vm_compute; reflexivity|done]]).
  assert (Hl : reads_back example_str_float (5 # 10)) by (split; [done|eexists; split; [vm_compute; reflexivity|done]]).
  pose proof (λ c Hc, presets_run example_str_float 5 (5 # 10) (1 # 100) (StrSpec "0.999_1.001") c None
    [[0; -5]] [[-1; 0]] [[true; true]] 2 eq_refl eq_refl eq_refl eq_refl H5 Hl eq_refl eq_refl Hc eq_refl eq_refl
    ltac:(by repeat constructor) eq_refl) as H.
  split.
  - destruct (H (decoupled_geo_rs_seq_tis 5 (StrSpec "0.999_1.001"))) as [H'|[Hice _]]; [|exact H'|vm_compute in Hice; done].
    unfold presets. do 11 right. left.
  - destruct (H (bypass_pg_token_icepop example_str_float 5 (5 # 10))) as [H'|[_ H']]; [|by left|by right].
    unfold presets. do 9 right. left.
Defined.
