(* ===== verification/DataProto.v ===== *)
(** * DataProto: [src/verl/protocol.py]

    The batch that every part of the trainer exchanges: a tensor dict, a dict of object
    arrays and meta information.  A tensor is the list of its rows along the batch dimension,
    an array the list of its elements; rows ([A]), elements ([B]) and opaque meta values ([V])
    are parameters.  [torch] and [numpy] primitives (indexing, [cat], [chunk],
    [repeat_interleave], [array_split], ...) are written as their documentation describes them.
    Objects are values here: an operation that changes its receiver returns the new one. *)

From S2P Require Import Prelude PyDict.
Local Open Scope py_scope.

(** ** Meta information *)

Section meta.
Context {V : Type} `{EqDecision V}.

Inductive meta :=
  | MNone
  | MBool (b : bool)
  | MVal (v : V)
  | MList (l : list meta)
  | MDict (d : list (string * meta)).

(** Python's [==]: dicts are compared without their order.  The values [V] are those whose
    equality is an equivalence, so no [nan]. *)
Fixpoint meta_eqb (a b : meta) : bool :=
  let eqb_list := fix go (l k : list meta) :=
    match l, k with [], [] => true | x :: l, y :: k => meta_eqb x y && go l k | _, _ => false end in
  match a, b with
  | MNone, MNone => true
  | MBool x, MBool y => Bool.eqb x y
  | MVal v, MVal w => bool_decide (v = w)
  | MList l, MList k => eqb_list l k
  | MDict d, MDict e =>
      Nat.eqb (length d) (length e)
      && forallb (λ kv : string * meta, match dget kv.1 e with Some y => meta_eqb kv.2 y | None => false end) d
  | _, _ => false
  end.

(** The keys of a dict are distinct, at every depth. *)
Fixpoint meta_ok (m : meta) : bool :=
  match m with
  | MList l => forallb meta_ok l
  | MDict d => bool_decide (NoDup (keys d)) && forallb (λ kv : string * meta, meta_ok kv.2) d
  | _ => true
  end.
End meta.
Arguments meta : clear implicits.

Definition is_true_meta {V} (m : option (meta V)) : bool :=
  match m with Some (MBool b) => b | _ => false end.

(** ** [list_of_dict_to_dict_of_list], [union_two_dict] *)

Definition append_item {X} (d : list (string * list X)) (kv : string * X) : result (list (string * list X)) :=
  l ← of_option (AssertionError ("Key '" +:+ kv.1 +:+ "' is not present in the keys of the first dictionary in the list."))
        (dget kv.1 d);
  Ok (dset kv.1 (l ++ [kv.2]) d).
Definition list_of_dict_to_dict_of_list {X} (l : list (list (string * X))) : result (list (string * list X)) :=
  match l with
  | [] => Ok []
  | d0 :: _ => foldM (foldM append_item) ((λ kv : string * X, (kv.1, [])) <$> d0) l
  end.

(** Union of two dicts whose common keys must hold equal values. *)
Definition union_step {X} (eqb : X → X → bool) (msg : string) (d : list (string * X)) (kv : string * X) :
    result (list (string * X)) :=
  require (match dget kv.1 d with Some x => eqb x kv.2 | None => true end) else AssertionError (kv.1 +:+ msg) ;;
  Ok (dset kv.1 kv.2 d).
Definition union_dict {X} (eqb : X → X → bool) (msg : string) (d1 d2 : list (string * X)) : result (list (string * X)) :=
  foldM (union_step eqb msg) d1 d2.

(** ** The data *)

Record tensor_dict (A : Type) := { bsz : nat; tensors : list (string * list A) }.
Arguments bsz {A} _. Arguments tensors {A} _.

Record DataProto (A B V : Type) := {
  batch : option (tensor_dict A);
  non_tensor_batch : list (string * list B);
  meta_info : list (string * meta V) }.
Arguments batch {A B V} _. Arguments non_tensor_batch {A B V} _. Arguments meta_info {A B V} _.

(** [TensorDict(source, batch_size)] refuses tensors of another length. *)
Definition new_tensor_dict {A} (n : nat) (source : list (string * list A)) : result (tensor_dict A) :=
  require forallb (λ kv : string * list A, Nat.eqb (length kv.2) n) source
    else RuntimeError "batch dimension mismatch" ;;
  Ok {| bsz := n; tensors := source |}.

Section data.
Context {A B V : Type} `{EqDecision V}.
Notation data := (DataProto A B V).

Definition len (d : data) : nat :=
  match batch d with
  | Some td => bsz td
  | None => match non_tensor_batch d with [] => 0 | kv :: _ => length kv.2 end
  end.

Definition check_consistency (b : option (tensor_dict A)) (nt : list (string * list B)) : bool :=
  match b with
  | Some td => forallb (λ kv : string * list B, Nat.eqb (length kv.2) (bsz td)) nt
  | None => true
  end.
(** The constructor runs the check. *)
Definition new (b : option (tensor_dict A)) (nt : list (string * list B)) (m : list (string * meta V)) : result data :=
  require check_consistency b nt else AssertionError "length is not equal to batch size" ;;
  Ok {| batch := b; non_tensor_batch := nt; meta_info := m |}.

(** [from_dict] for one batch dimension. *)
Definition same_batch (ts : list (string * list A)) : bool :=
  match ts with [] => true | kv :: ts => forallb (λ kv' : string * list A, Nat.eqb (length kv'.2) (length kv.2)) ts end.
Definition from_dict (ts : list (string * list A)) (nts : list (string * list B)) (m : list (string * meta V))
    (auto_padding : bool) : result data :=
  require same_batch ts else AssertionError "Not all the tensor in tensors have the same batch size" ;;
  b ← match ts with [] => Ok None | kv :: _ => td ← new_tensor_dict (length kv.2) ts; Ok (Some td) end;
  new b nts (if auto_padding then dset "_verl_auto_padding" (MBool true) m else m).

(** ** Operations on rows *)

Definition dict_mapM {X Y} (f : X → result Y) (d : list (string * X)) : result (list (string * Y)) :=
  mapM (λ kv : string * X, y ← f kv.2; Ok (kv.1, y)) d.
Definition row_op := ∀ X : Type, list X → result (list X).

(** Apply an operation to every tensor and array; [n] is the new batch size. *)
Definition apply_rows (f : row_op) (n : nat → nat) (d : data) : result data :=
  b ← match batch d with
      | None => Ok None
      | Some td => ts ← dict_mapM (f A) (tensors td); td ← new_tensor_dict (n (bsz td)) ts; Ok (Some td)
      end;
  nt ← dict_mapM (f B) (non_tensor_batch d);
  new b nt (meta_info d).

Definition gather {X} (idx : list nat) (l : list X) : list X := omap (λ i, l !! i) idx.

(** Integer indices may be negative; a boolean index must have the length of the data. *)
Inductive index := Ints (l : list Z) | Bools (l : list bool).
Definition resolve (n : nat) (z : Z) : option nat :=
  if Z.leb (- Z.of_nat n) z && Z.ltb z (Z.of_nat n)
  then Some (Z.to_nat (if Z.ltb z 0 then z + Z.of_nat n else z)) else None.
Definition true_positions (l : list bool) : list nat := (List.filter (λ p : nat * bool, p.2) (zip (seq 0 (length l)) l)).*1.
Definition index_rows (idx : index) : row_op := λ X l,
  match idx with
  | Ints zs => ids ← of_option (IndexError "index out of range") (mapM (resolve (length l)) zs); Ok (gather ids l)
  | Bools bs =>
      require Nat.eqb (length bs) (length l) else IndexError "boolean index did not match" ;;
      Ok (gather (true_positions bs) l)
  end.
Definition index_size (idx : index) : nat :=
  match idx with Ints zs => length zs | Bools bs => length (true_positions bs) end.
Definition select_idxs (idx : index) (d : data) : result data := apply_rows (index_rows idx) (λ _, index_size idx) d.

(** [range( *slice(start, end, step).indices(n))] for a positive step. *)
Definition slice_indices (start stop : option Z) (step n : nat) : list nat :=
  let a := match start with Some i => slice_bound n i | None => 0 end in
  let b := match stop with Some i => slice_bound n i | None => n end in
  List.filter (λ i, Nat.eqb ((i - a) mod step) 0) (seq a (b - a)).
Definition slice_proto (start stop : option Z) (step : nat) (d : data) : result data :=
  require negb (Nat.eqb step 0) else ValueError "slice step cannot be zero" ;;
  apply_rows (λ X l, Ok (gather (slice_indices start stop step (length l)) l))
    (λ n, length (slice_indices start stop step n)) d.

(** [repeat_interleave] and tiling. *)
Definition repeat_rows (repeat_times : nat) (interleave : bool) : row_op := λ X l,
  Ok (if interleave then x ← l; replicate repeat_times x else concat (replicate repeat_times l)).
Definition repeat_proto (repeat_times : nat) (interleave : bool) (d : data) : result data :=
  apply_rows (repeat_rows repeat_times interleave) (λ n, n * repeat_times) d.
Definition sample_level_repeat (repeat_times : list nat) (d : data) : result data :=
  apply_rows (λ X l,
      require Nat.eqb (length repeat_times) (length l) else RuntimeError "repeats must have the same size as input" ;;
      Ok (concat (zip_with replicate repeat_times l)))
    (λ _, nsum repeat_times) d.

(** [reorder] indexes in place and does not build a new object. *)
Definition reorder (indices : list Z) (d : data) : result data :=
  b ← match batch d with
      | None => Raise (TypeError "'NoneType' object is not subscriptable")
      | Some td => ts ← dict_mapM (index_rows (Ints indices) A) (tensors td);
                   Ok (Some {| bsz := length indices; tensors := ts |})
      end;
  nt ← dict_mapM (index_rows (Ints indices) B) (non_tensor_batch d);
  Ok {| batch := b; non_tensor_batch := nt; meta_info := meta_info d |}.

(** ** Splitting *)

(** Pieces of the given sizes, and how [torch.chunk] and [np.array_split] choose them. *)
Fixpoint cut {X} (sizes : list nat) (l : list X) : list (list X) :=
  match sizes with [] => [] | n :: sizes => take n l :: cut sizes (drop n l) end.
Definition chunk_sizes (n chunks : nat) : list nat :=
  let size := (n + chunks - 1) / chunks in
  if Nat.eqb size 0 then [] else replicate (n / size) size ++ (if Nat.eqb (n mod size) 0 then [] else [n mod size]).
Definition split_sizes (n chunks : nat) : list nat :=
  replicate (n mod chunks) (S (n / chunks)) ++ replicate (chunks - n mod chunks) (n / chunks).

Definition is_padding_enabled (auto_padding : bool) (d : data) : bool :=
  is_true_meta (dget "_verl_auto_padding" (meta_info d)) || auto_padding.

(** Piece [i] of every tensor or array. *)
Definition pieces {X} (sizes : list nat) (i : nat) (ds : list (string * list X)) : list (string * list X) :=
  (λ kv : string * list X, (kv.1, default [] (cut sizes kv.2 !! i))) <$> ds.

Definition chunk (auto_padding : bool) (chunks : nat) (d : data) : result (list data) :=
  require negb (Nat.eqb chunks 0) else ZeroDivisionError "integer modulo by zero" ;;
  require is_padding_enabled auto_padding d || Nat.eqb (len d mod chunks) 0
    else AssertionError "only support equal chunk." ;;
  match batch d with
  | Some td =>
      let sizes := chunk_sizes (bsz td) chunks in
      require bool_decide (non_tensor_batch d = [] ∨ length sizes = chunks) else AssertionError "" ;;
      mapM (λ i,
        n ← of_option (IndexError "tuple index out of range") (sizes !! i);
        new (Some {| bsz := n; tensors := pieces sizes i (tensors td) |}) (pieces sizes i (non_tensor_batch d)) (meta_info d))
        (seq 0 chunks)
  | None =>
      mapM (λ i, new None ((λ kv : string * list B,
          (kv.1, default [] (cut (split_sizes (length kv.2) chunks) kv.2 !! i))) <$> non_tensor_batch d) (meta_info d))
        (seq 0 chunks)
  end.

Definition split (split_size : nat) (d : data) : result (list data) :=
  require negb (Nat.eqb split_size 0) else ValueError "range() arg 3 must not be zero" ;;
  mapM (λ k, slice_proto (Some (Z.of_nat (k * split_size))) (Some (Z.of_nat (k * split_size + split_size))) 1 d)
    (seq 0 ((len d + split_size - 1) / split_size)).

(** ** [concat] *)

(** [torch.cat] of tensor dicts: all must have the keys of the first. *)
Definition cat_tensors (tds : list (tensor_dict A)) : result (tensor_dict A) :=
  match tds with
  | [] => Raise (RuntimeError "expected a non-empty list of Tensors")
  | td0 :: _ =>
      require forallb (λ td : tensor_dict A, bool_decide (length (tensors td) = length (tensors td0))
                                && forallb (λ k, dmem k (tensors td)) (keys (tensors td0))) tds
        else KeyError "all tensordicts must have the same keys" ;;
      Ok {| bsz := nsum (bsz <$> tds);
            tensors := (λ k, (k, concat ((λ td : tensor_dict A, default [] (dget k (tensors td))) <$> tds)))
                         <$> keys (tensors td0) |}
  end.
Definition cat_batches (bs : list (option (tensor_dict A))) : result (option (tensor_dict A)) :=
  match bs with
  | [] => Raise (IndexError "list index out of range")
  | None :: _ => Ok None
  | Some _ :: _ =>
      tds ← of_option (TypeError "expected Tensor as element, but got NoneType") (mapM (λ b : option (tensor_dict A), b) bs);
      td ← cat_tensors tds; Ok (Some td)
  end.

(** Metrics of all workers are collected, other entries must agree. *)
Definition merge_meta_entry (acc : list (string * meta V) * list (meta V)) (kv : string * meta V) :
    result (list (string * meta V) * list (meta V)) :=
  if bool_decide (kv.1 = "metrics"%string) then
    Ok (acc.1, acc.2 ++ match kv.2 with MNone => [] | MList l => l | v => [v] end)
  else match dget kv.1 acc.1 with
       | Some v =>
           require meta_eqb v kv.2 else AssertionError ("Conflicting values for meta_info key '" +:+ kv.1 +:+ "'") ;;
           Ok acc
       | None => Ok (dset kv.1 kv.2 acc.1, acc.2)
       end.
Definition meta_dict (m : meta V) : result (list (string * meta V)) :=
  match m with MDict d => Ok d | _ => Raise (RuntimeError "object has no attribute 'keys'") end.
Definition merge_meta (ms : list (list (string * meta V))) : result (list (string * meta V)) :=
  '(merged, all_metrics) ← foldM (foldM merge_meta_entry) ([], []) ms;
  if bool_decide (length all_metrics = 0) then Ok merged else
    dicts ← mapM meta_dict all_metrics;
    lists ← list_of_dict_to_dict_of_list dicts;
    Ok (dset "metrics" (MDict ((λ kv : string * list (meta V), (kv.1, MList kv.2)) <$> lists)) merged).

Definition concat_protos (ds : list data) : result data :=
  b ← cat_batches (batch <$> ds);
  nts ← list_of_dict_to_dict_of_list (non_tensor_batch <$> ds);
  m ← merge_meta (meta_info <$> ds);
  new b ((λ kv : string * list (list B), (kv.1, concat kv.2)) <$> nts) m.

(** ** Padding *)

(** The loop of [pad_dataproto_to_divisor]: prefixes of the data until [remaining] rows are
    collected; one iteration per unit of fuel. *)
Fixpoint padding_protos (fuel remaining : nat) (d : data) : result (list data) :=
  match fuel with
  | 0 => Ok []
  | S fuel =>
      if Nat.eqb remaining 0 then Ok [] else
      let take_size := Nat.min remaining (len d) in
      p ← slice_proto None (Some (Z.of_nat take_size)) 1 d;
      ps ← padding_protos fuel (remaining - take_size) d;
      Ok (p :: ps)
  end.
Definition pad_dataproto_to_divisor (size_divisor : nat) (d : data) : result (data * nat) :=
  require negb (Nat.eqb size_divisor 0) else ZeroDivisionError "integer modulo by zero" ;;
  if Nat.eqb (len d mod size_divisor) 0 then Ok (d, 0) else
    let pad_size := size_divisor - len d mod size_divisor in
    ps ← padding_protos pad_size pad_size d;
    padded ← concat_protos (d :: ps);
    Ok (padded, pad_size).
Definition unpad_dataproto (pad_size : nat) (d : data) : result data :=
  if Nat.eqb pad_size 0 then Ok d else slice_proto None (Some (- Z.of_nat pad_size)%Z) 1 d.

(** [padding] repeats the first or the last row and keeps the receiver's meta information. *)
Definition padding (padding_size : nat) (first : bool) (d : data) : result data :=
  if Nat.eqb padding_size 0 then Ok d else
  candidate ← select_idxs (Ints [if first then 0%Z else (Z.of_nat (len d) - 1)%Z]) d;
  part ← repeat_proto padding_size true candidate;
  padded ← concat_protos [d; part];
  Ok {| batch := batch padded; non_tensor_batch := non_tensor_batch padded; meta_info := meta_info d |}.

(** ** Selecting, popping and joining keys *)

Definition select_keys {X} (ks : list string) (d : list (string * X)) : list (string * X) :=
  List.filter (λ kv : string * X, bool_decide (kv.1 ∈ ks)) d.
Definition select (batch_keys non_tensor_keys meta_keys : option (list string)) (d : data) : result data :=
  b ← match batch_keys with
      | None => Ok (batch d)
      | Some ks =>
          td ← of_option (TypeError "'NoneType' object has no attribute 'select'") (batch d);
          ts ← mapM (λ k, v ← ditem k (tensors td); Ok (k, v)) ks;
          Ok (Some {| bsz := bsz td; tensors := ts |})
      end;
  new b (match non_tensor_keys with None => non_tensor_batch d | Some ks => select_keys ks (non_tensor_batch d) end)
    (match meta_keys with None => meta_info d | Some ks => select_keys ks (meta_info d) end).

(** Move the entries [ks] of a dict out of it. *)
Definition pop_step {X} (acc : list (string * X) * list (string * X)) (k : string) :
    result (list (string * X) * list (string * X)) :=
  v ← of_option (AssertionError k) (dget k acc.1);
  Ok (ddel k acc.1, dset k v acc.2).
Definition pop_keys {X} (ks : list string) (d : list (string * X)) : result (list (string * X) * list (string * X)) :=
  foldM pop_step (d, []) ks.

(** What remains in the receiver, and the popped data. *)
Definition pop (batch_keys non_tensor_keys meta_keys : list string) (d : data) : result (data * data) :=
  '(b, ts) ← match batch d with
             | None => require bool_decide (batch_keys = []) else TypeError "'NoneType' object has no attribute 'keys'" ;;
                       Ok (None, [])
             | Some td => '(rest, ts) ← pop_keys batch_keys (tensors td);
                          Ok (Some {| bsz := bsz td; tensors := rest |}, ts)
             end;
  '(nt, nts) ← pop_keys non_tensor_keys (non_tensor_batch d);
  '(m, ms) ← pop_keys meta_keys (meta_info d);
  popped ← from_dict ts nts ms false;
  Ok ({| batch := b; non_tensor_batch := nt; meta_info := m |}, popped).

Section union.
Context (tensor_equal : list A → list A → bool) (array_equal : list B → list B → bool).

(** [union_tensor_dict] keeps the present tensor; [union_numpy_dict] and [union_two_dict] assign
    the new one, which is equal. *)
Definition union_tensor_step (d : list (string * list A)) (kv : string * list A) : result (list (string * list A)) :=
  match dget kv.1 d with
  | None => Ok (dset kv.1 kv.2 d)
  | Some x => require tensor_equal x kv.2
                else AssertionError (kv.1 +:+ " in tensor_dict1 and tensor_dict2 are not the same object") ;; Ok d
  end.
Definition union_tensor_dict (td1 td2 : tensor_dict A) : result (tensor_dict A) :=
  require Nat.eqb (bsz td1) (bsz td2) else AssertionError "Two tensor dict must have identical batch size." ;;
  ts ← foldM union_tensor_step (tensors td1) (tensors td2);
  Ok {| bsz := bsz td1; tensors := ts |}.
Definition union (d1 d2 : data) : result data :=
  match batch d1, batch d2 with
  | Some td1, Some td2 =>
      td ← union_tensor_dict td1 td2;
      nt ← union_dict array_equal " in tensor_dict1 and tensor_dict2 are not the same object."
             (non_tensor_batch d1) (non_tensor_batch d2);
      m ← union_dict meta_eqb " in meta_dict1 and meta_dict2 are not the same object" (meta_info d1) (meta_info d2);
      Ok {| batch := Some td; non_tensor_batch := nt; meta_info := m |}
  | _, _ => Raise (TypeError "'NoneType' object has no attribute 'batch_size'")
  end.
End union.
End data.

(** ** A DataProto is a list of items *)

Section items.
Context {A B V : Type}.
Implicit Types d : DataProto A B V.

Definition tensors_of d : list (string * list A) := match batch d with Some td => tensors td | None => [] end.
Definition row_at {X} (i : nat) (ds : list (string * list X)) : list (string * option X) :=
  (λ kv : string * list X, (kv.1, kv.2 !! i)) <$> ds.
Definition item_at d (i : nat) : list (string * option A) * list (string * option B) :=
  (row_at i (tensors_of d), row_at i (non_tensor_batch d)).
Definition items d := item_at d <$> seq 0 (len d).

Definition rows_of {X} (n : nat) (ds : list (string * list X)) : Prop := Forall (λ kv : string * list X, length kv.2 = n) ds.

(** Every tensor and array has the length of the batch, and keys are distinct. *)
Definition wf d : Prop :=
  rows_of (len d) (tensors_of d) ∧ rows_of (len d) (non_tensor_batch d) ∧
  NoDup (keys (tensors_of d)) ∧ NoDup (keys (non_tensor_batch d)).

End items.

(** ** Gathering rows *)

Lemma gather_length {X} (idx : list nat) (l : list X) :
  Forall (λ i, i < length l) idx → length (gather idx l) = length idx.
Proof.
  unfold gather. induction 1 as [|i idx Hi H IH]; [done|]. csimpl.
  apply lookup_lt_is_Some in Hi as [x ->]. csimpl. lia.
Qed.

Lemma gather_lookup {X} (idx : list nat) (l : list X) j :
  Forall (λ i, i < length l) idx → gather idx l !! j = match idx !! j with Some i => l !! i | None => None end.
Proof.
  unfold gather. intros H. revert j. induction H as [|i idx Hi H IH]; intros j; [done|]. csimpl.
  apply lookup_lt_is_Some in Hi as [x Hx]. rewrite Hx. destruct j; [done|]. apply IH.
Qed.

Lemma gather_seq {X} (l : list X) : gather (seq 0 (length l)) l = l.
Proof.
  apply list_eq. intros j. rewrite gather_lookup by (apply Forall_seq; lia). destruct (decide (j < length l)) as [Hj|Hj].
  - by rewrite lookup_seq_lt by done.
  - rewrite lookup_seq_ge by lia. symmetry. apply lookup_ge_None. lia.
Qed.

Lemma gather_fmap {X Y} (f : X → Y) idx (l : list X) : gather idx (f <$> l) = f <$> gather idx l.
Proof.
  unfold gather. induction idx as [|i idx IH]; [done|]. csimpl. rewrite list_lookup_fmap.
  destruct (l !! i); csimpl; by rewrite IH.
Qed.

Lemma gather_seq_fmap {Y} (f : nat → Y) n idx : Forall (λ i, i < n) idx → gather idx (f <$> seq 0 n) = f <$> idx.
Proof.
  intros H. rewrite gather_fmap. f_equal. unfold gather. induction H as [|i idx Hi H IH]; [done|]. csimpl.
  rewrite lookup_seq_lt by done. csimpl. by rewrite IH.
Qed.

Lemma gather_app {X} idx1 idx2 (l : list X) : gather (idx1 ++ idx2) l = gather idx1 l ++ gather idx2 l.
Proof. unfold gather. by rewrite omap_app. Qed.

(** ** Row operations that gather *)

Section gather_ops.
Context {A B V : Type}.
Implicit Types d : DataProto A B V.

(** [f] gathers the rows [idx] from data of length [n]. *)
Definition gathers (f : row_op) (n : nat) (idx : list nat) : Prop :=
  ∀ X (l : list X), length l = n → f X l = Ok (gather idx l).

Lemma dict_mapM_gather {X} f n idx (ds : list (string * list X)) :
  gathers f n idx → rows_of n ds →
  dict_mapM (f X) ds = Ok ((λ kv : string * list X, (kv.1, gather idx kv.2)) <$> ds).
Proof.
  intros Hf Hr. unfold dict_mapM. apply mapM_Ok_map. intros kv Hkv. unfold rows_of in Hr. rewrite Forall_forall in Hr.
  by rewrite (Hf _ _ (Hr kv Hkv)).
Qed.

Lemma gather_rows_of {X} n idx (ds : list (string * list X)) :
  rows_of n ds → Forall (λ i, i < n) idx →
  rows_of (length idx) ((λ kv : string * list X, (kv.1, gather idx kv.2)) <$> ds).
Proof.
  unfold rows_of. intros H Hidx. apply Forall_fmap. eapply Forall_impl; [exact H|]. intros kv Hkv. cbn.
  rewrite gather_length; [done|by rewrite Hkv].
Qed.

Lemma rows_of_forallb {X} n (ds : list (string * list X)) :
  rows_of n ds → forallb (λ kv : string * list X, Nat.eqb (length kv.2) n) ds = true.
Proof. intros H. apply forallb_Forall. eapply Forall_impl; [exact H|]. intros kv Hkv. by apply Nat.eqb_eq. Qed.

Lemma row_at_gather {X} n idx (ds : list (string * list X)) j i :
  rows_of n ds → Forall (λ i, i < n) idx → idx !! j = Some i →
  row_at j ((λ kv : string * list X, (kv.1, gather idx kv.2)) <$> ds) = row_at i ds.
Proof.
  intros H Hidx Hj. unfold row_at. rewrite <-list_fmap_compose. apply list_fmap_ext. intros k kv Hkv. cbn. f_equal.
  rewrite gather_lookup.
  - by rewrite Hj.
  - unfold rows_of in H. rewrite Forall_forall in H. by rewrite (H kv) by (by eapply list_elem_of_lookup_2).
Qed.

Lemma keys_gather {X} idx (ds : list (string * list X)) :
  keys ((λ kv : string * list X, (kv.1, gather idx kv.2)) <$> ds) = keys ds.
Proof. unfold keys. rewrite <-list_fmap_compose. by apply list_fmap_ext. Qed.

(** An operation that gathers [idx] succeeds and maps the items accordingly. *)
Lemma apply_rows_gather f (n : nat → nat) d idx :
  wf d → gathers f (len d) idx → Forall (λ i, i < len d) idx → n (len d) = length idx →
  ∃ d', apply_rows f n d = Ok d' ∧ wf d' ∧ len d' = length idx ∧ items d' = gather idx (items d) ∧
        keys (tensors_of d') = keys (tensors_of d) ∧ keys (non_tensor_batch d') = keys (non_tensor_batch d) ∧
        meta_info d' = meta_info d ∧ (batch d = None ↔ batch d' = None) ∧
        tensors_of d' = (λ kv : string * list A, (kv.1, gather idx kv.2)) <$> tensors_of d ∧
        non_tensor_batch d' = (λ kv : string * list B, (kv.1, gather idx kv.2)) <$> non_tensor_batch d.
Proof.
  intros (Ht & Hn & Nt & Nn) Hf Hidx Hlen. unfold apply_rows, tensors_of in *.
  rewrite (dict_mapM_gather f _ idx (non_tensor_batch d) Hf Hn).
  assert (Hr : ∀ d', len d' = length idx →
      tensors_of d' = (λ kv : string * list A, (kv.1, gather idx kv.2)) <$> tensors_of d →
      non_tensor_batch d' = (λ kv : string * list B, (kv.1, gather idx kv.2)) <$> non_tensor_batch d →
      wf d' ∧ items d' = gather idx (items d)).
  { intros d' Hl Et En. split.
    - unfold wf. rewrite Hl, Et, En, !keys_gather. split_and!; [by eapply gather_rows_of..|done|done].
    - unfold items. rewrite gather_seq_fmap by done. apply list_eq. intros j. rewrite !list_lookup_fmap, Hl.
      destruct (idx !! j) as [i|] eqn:Hj.
      + rewrite lookup_seq_lt by (by eapply lookup_lt_Some). cbn. f_equal. unfold item_at. rewrite Et, En.
        by f_equal; eapply row_at_gather.
      + apply lookup_ge_None in Hj. by rewrite lookup_seq_ge. }
  destruct (batch d) as [td|] eqn:Eb.
  - assert (El : len d = bsz td) by (unfold len; by rewrite Eb). rewrite El in *.
    rewrite (dict_mapM_gather f _ idx (tensors td) Hf Ht). cbn [mbind result_bind]. unfold new_tensor_dict.
    rewrite Hlen, rows_of_forallb by (by eapply gather_rows_of). cbn [mbind result_bind]. unfold new, check_consistency.
    cbn [bsz]. rewrite rows_of_forallb by (by eapply gather_rows_of). cbn [mbind result_bind].
    eexists. split; [reflexivity|]. unfold tensors_of. cbn [batch tensors non_tensor_batch meta_info].
    destruct (Hr {| batch := Some {| bsz := length idx; tensors := (λ kv : string * list A, (kv.1, gather idx kv.2)) <$> tensors td |};
      non_tensor_batch := (λ kv : string * list B, (kv.1, gather idx kv.2)) <$> non_tensor_batch d; meta_info := meta_info d |})
      as [Hwf Hit]; [done|unfold tensors_of; by rewrite Eb|done|].
    split_and!; try done; first [by rewrite keys_gather|by rewrite Eb|intros; congruence].
  - cbn [mbind result_bind]. unfold new, check_consistency. cbn [mbind result_bind].
    eexists. split; [reflexivity|]. unfold tensors_of. cbn [batch tensors non_tensor_batch meta_info].
    set (d' := {| batch := None; non_tensor_batch := (λ kv : string * list B, (kv.1, gather idx kv.2)) <$> non_tensor_batch d;
      meta_info := meta_info d |} : DataProto A B V).
    assert (Hl : len d' = length idx).
    { unfold len, d' in *. cbn [batch non_tensor_batch] in *. rewrite Eb in *. destruct (non_tensor_batch d) as [|[k l] nt]; csimpl.
      - destruct idx as [|i idx]; [done|]. apply Forall_cons in Hidx as [Hi _]. lia.
      - by rewrite gather_length. }
    destruct (Hr d') as [Hwf Hit]; [done|unfold tensors_of; by rewrite Eb|done|].
    split_and!; try done; first [by rewrite keys_gather|by rewrite Eb|intros; congruence].
Qed.
End gather_ops.

(** ** The row operations of DataProto gather *)

Section operations.
Context {A B V : Type}.
Implicit Types d : DataProto A B V.

Lemma items_length d : length (items d) = len d.
Proof. unfold items. by rewrite length_fmap, length_seq. Qed.

Lemma mapM_resolve_lt n zs ids : mapM (resolve n) zs = Some ids → Forall (λ i, i < n) ids ∧ length ids = length zs.
Proof.
  intros H%mapM_Some. split; [|symmetry; by eapply Forall2_length].
  eapply Forall2_Forall_r; [exact H|]. apply Forall_forall. intros z _ i. unfold resolve.
  destruct (Z.leb_spec (- Z.of_nat n) z), (Z.ltb_spec z (Z.of_nat n)); cbn; try done.
  intros [= <-]. destruct (Z.ltb_spec z 0); lia.
Qed.

Lemma gathers_ints n zs ids : mapM (resolve n) zs = Some ids → gathers (index_rows (Ints zs)) n ids.
Proof. intros H X l Hl. cbn. by rewrite Hl, H. Qed.

Lemma true_positions_lt bs : Forall (λ i, i < length bs) (true_positions bs).
Proof.
  unfold true_positions. apply Forall_fmap, Forall_forall. intros [i b] Hin. cbn.
  apply list_elem_of_In, List.filter_In in Hin as [Hin _]. apply list_elem_of_In, elem_of_zip_l, elem_of_seq in Hin. lia.
Qed.
Lemma gathers_bools n bs : length bs = n → gathers (index_rows (Bools bs)) n (true_positions bs).
Proof. intros H X l Hl. cbn. by rewrite H, Hl, Nat.eqb_refl. Qed.

Lemma slice_bound_le n i : slice_bound n i ≤ n.
Proof. unfold slice_bound. destruct (Z.ltb_spec i 0); lia. Qed.
Lemma slice_indices_lt start stop step n : Forall (λ i, i < n) (slice_indices start stop step n).
Proof.
  unfold slice_indices. apply Forall_forall. intros i Hi. apply list_elem_of_In, List.filter_In in Hi as [Hi _].
  apply list_elem_of_In, elem_of_seq in Hi. destruct stop as [z|]; [pose proof (slice_bound_le n z)|]; lia.
Qed.

Definition repeat_list {X} (k : nat) (interleave : bool) (l : list X) : list X :=
  if interleave then x ← l; replicate k x else concat (replicate k l).

Lemma omap_replicate {X Y} (f : X → option Y) k x :
  omap f (replicate k x) = match f x with Some y => replicate k y | None => [] end.
Proof. induction k as [|k IH]; csimpl; [by destruct (f x)|]. rewrite IH. by destruct (f x). Qed.

Lemma repeat_list_omap {X Y} (f : X → option Y) k interleave l :
  omap f (repeat_list k interleave l) = repeat_list k interleave (omap f l).
Proof.
  destruct interleave; cbn.
  - induction l as [|x l IH]; [done|]. rewrite bind_cons, omap_app, IH, omap_replicate. csimpl. by destruct (f x).
  - induction k as [|k IH]; [done|]. cbn. by rewrite omap_app, IH.
Qed.
Lemma repeat_list_elem {X} k interleave (l : list X) x : x ∈ repeat_list k interleave l → x ∈ l.
Proof.
  destruct interleave; cbn.
  - intros (y & Hx%elem_of_replicate & Hy)%list_elem_of_bind. by destruct Hx as [-> _].
  - intros (ls & Hls & Hx)%list_elem_of_In%in_concat. apply list_elem_of_In in Hls, Hx.
    by apply elem_of_replicate in Hls as [-> _].
Qed.
Lemma gathers_repeat n k interleave :
  gathers (repeat_rows k interleave) n (repeat_list k interleave (seq 0 n)).
Proof.
  intros X l Hl. unfold repeat_rows, gather. rewrite repeat_list_omap. subst n.
  change (omap _ (seq 0 (length l))) with (gather (seq 0 (length l)) l). by rewrite gather_seq.
Qed.

Definition repeat_each {X} (ks : list nat) (l : list X) : list X := concat (zip_with replicate ks l).
Lemma repeat_each_omap {X Y} (f : X → option Y) ks l l' :
  Forall2 (λ x y, f x = Some y) l l' → omap f (repeat_each ks l) = repeat_each ks l'.
Proof.
  unfold repeat_each. intros H. revert ks. induction H as [|x y l l' Hx H IH]; intros [|k ks]; csimpl; try done.
  by rewrite omap_app, IH, omap_replicate, Hx.
Qed.
Lemma gathers_repeat_each n ks : length ks = n →
  gathers (λ X l, require Nat.eqb (length ks) (length l) else RuntimeError "repeats must have the same size as input" ;;
      Ok (concat (zip_with replicate ks l))) n (repeat_each ks (seq 0 n)).
Proof.
  intros Hk X l Hl. rewrite Hk, Hl, Nat.eqb_refl. cbn. f_equal. unfold gather. symmetry. apply repeat_each_omap.
  subst n. rewrite <-Hl. apply Forall2_same_length_lookup. rewrite length_seq. split; [done|].
  intros i x y Hx Hy. apply lookup_seq in Hx as [-> _]. done.
Qed.
Lemma repeat_each_elem {X} ks (l : list X) x : x ∈ repeat_each ks l → x ∈ l.
Proof.
  unfold repeat_each. revert ks. induction l as [|y l IH]; intros [|k ks] Hx; cbn in Hx;
    try (by apply elem_of_nil in Hx).
  apply elem_of_app in Hx as [[-> _]%elem_of_replicate|Hx]; [by left|right; by eapply IH].
Qed.
Lemma length_repeat_list {X} k interleave (l : list X) : length (repeat_list k interleave l) = length l * k.
Proof.
  destruct interleave; cbn.
  - induction l as [|x l IH]; [done|]. rewrite bind_cons, length_app, length_replicate, IH. cbn. lia.
  - induction k as [|k IH]; [cbn; lia|]. cbn. rewrite length_app, IH. lia.
Qed.
Lemma length_repeat_each {X} ks (l : list X) : length ks = length l → length (repeat_each ks l) = nsum ks.
Proof.
  unfold repeat_each. revert ks. induction l as [|x l IH]; intros [|k ks] [=]; [done|].
  cbn. rewrite length_app, length_replicate, IH by done. done.
Qed.
End operations.

Section refinement.
Context {A B V : Type}.
Implicit Types d : DataProto A B V.

(** An operation behaves as [f] on the list of items and preserves well-formedness. *)
Definition acts_as (r : result (DataProto A B V)) (l : list (list (string * option A) * list (string * option B))) : Prop :=
  ∃ d', r = Ok d' ∧ wf d' ∧ items d' = l.

Lemma apply_rows_acts f (n : nat → nat) d idx l :
  wf d → gathers f (len d) idx → Forall (λ i, i < len d) idx → n (len d) = length idx →
  l = gather idx (items d) → acts_as (apply_rows f n d) l.
Proof.
  intros Hw Hg Hi Hn ->. destruct (apply_rows_gather f n d idx Hw Hg Hi Hn) as (d' & Hd & Hw' & _ & Hit & _).
  by exists d'.
Qed.

Lemma gather_items_seq d : gather (seq 0 (len d)) (items d) = items d.
Proof. rewrite <-(items_length d). apply gather_seq. Qed.

Lemma select_acts d zs ids :
  wf d → mapM (resolve (len d)) zs = Some ids → acts_as (select_idxs (Ints zs) d) (gather ids (items d)).
Proof.
  intros Hw H. destruct (mapM_resolve_lt _ _ _ H) as [Hlt Hlen].
  eapply apply_rows_acts; [done|by apply gathers_ints|done|by cbn|done].
Qed.

Lemma slice_acts d start stop step :
  wf d → step ≠ 0 →
  acts_as (slice_proto start stop step d) (gather (slice_indices start stop step (len d)) (items d)).
Proof.
  intros Hw Hs. unfold slice_proto. destruct (Nat.eqb_spec step 0); [done|]. cbn [negb mbind result_bind].
  eapply apply_rows_acts; [done| |apply slice_indices_lt|done|done]. intros X l Hl. by rewrite Hl.
Qed.

Lemma repeat_acts d k interleave : wf d → acts_as (repeat_proto k interleave d) (repeat_list k interleave (items d)).
Proof.
  intros Hw. eapply apply_rows_acts; [done|apply gathers_repeat| | |].
  - apply Forall_forall. intros i Hi%repeat_list_elem%elem_of_seq. lia.
  - by rewrite length_repeat_list, length_seq.
  - unfold gather. rewrite repeat_list_omap. f_equal. symmetry. apply gather_items_seq.
Qed.

Lemma sample_repeat_acts d ks : wf d → length ks = len d → acts_as (sample_level_repeat ks d) (repeat_each ks (items d)).
Proof.
  intros Hw Hk. eapply apply_rows_acts; [done|by apply gathers_repeat_each| | |].
  - apply Forall_forall. intros i Hi%repeat_each_elem%elem_of_seq. lia.
  - symmetry. apply length_repeat_each. by rewrite length_seq.
  - unfold gather. symmetry. apply repeat_each_omap. apply Forall2_same_length_lookup.
    rewrite length_seq, items_length. split; [done|]. intros i x y Hx Hy. apply lookup_seq in Hx as [-> _]. done.
Qed.

Lemma reorder_acts d zs ids :
  wf d → batch d ≠ None → mapM (resolve (len d)) zs = Some ids → acts_as (reorder zs d) (gather ids (items d)).
Proof.
  intros Hw Hb H. destruct (mapM_resolve_lt _ _ _ H) as [Hlt Hlen].
  destruct (apply_rows_gather (index_rows (Ints zs)) (λ _, length zs) d ids Hw (gathers_ints _ _ _ H) Hlt) as
    (d' & Hd & Hw' & Hl & Hit & _ & _ & Hm & [_ Hbn] & Et & En); [done|].
  exists d'. split; [|done]. destruct Hw as (Ht & Hn & _ & _). unfold reorder. unfold tensors_of in *.
  destruct (batch d) as [td|] eqn:Eb; [|done].
  rewrite (dict_mapM_gather _ _ ids _ (gathers_ints _ _ _ H) Ht), (dict_mapM_gather _ _ ids _ (gathers_ints _ _ _ H) Hn).
  cbn [mbind result_bind]. f_equal. destruct d' as [b' nt' m']. cbn in *.
  destruct b' as [[n' ts']|]; [|by specialize (Hbn eq_refl)].
  unfold len in Hl. cbn in *. subst. by rewrite Hlen.
Qed.

(** A well-formed DataProto behaves as the list of its items (a row of every tensor with the
    entry of every array): indexing, slicing, repeating and reordering succeed and act on the
    tensors and arrays as the same list operation on the items, so rows of different fields are
    never misaligned. *)
Theorem row_operations_refine_list d :
  wf d →
  (∀ zs ids, mapM (resolve (len d)) zs = Some ids →
     acts_as (select_idxs (Ints zs) d) (gather ids (items d)) ∧
     (batch d ≠ None → acts_as (reorder zs d) (gather ids (items d)))) ∧
  (∀ bs, length bs = len d → acts_as (select_idxs (Bools bs) d) (gather (true_positions bs) (items d))) ∧
  (∀ start stop step, step ≠ 0 →
     acts_as (slice_proto start stop step d) (gather (slice_indices start stop step (len d)) (items d))) ∧
  (∀ k interleave, acts_as (repeat_proto k interleave d) (repeat_list k interleave (items d))) ∧
  (∀ ks, length ks = len d → acts_as (sample_level_repeat ks d) (repeat_each ks (items d))).
Proof.
  intros Hw. split_and!.
  - intros zs ids H. split; [by apply select_acts|intros Hb; by apply reorder_acts].
  - intros bs Hb. eapply apply_rows_acts; [done|by apply gathers_bools| |done|done].
    rewrite <-Hb. apply true_positions_lt.
  - intros. by apply slice_acts.
  - intros. by apply repeat_acts.
  - intros. by apply sample_repeat_acts.
Qed.
End refinement.

Definition example_proto : DataProto nat string nat := {|
  batch := Some {| bsz := 3; tensors := [("ids"%string, [10; 11; 12])] |};
  non_tensor_batch := [("uid"%string, ["a"; "b"; "c"]%string)]; meta_info := [("step"%string, MVal 7)] |}.
Lemma example_wf : wf example_proto.
Proof. unfold wf, rows_of. split_and!; repeat constructor; set_solver. Qed.

Lemma row_operations_refine_list_witness :
  acts_as (repeat_proto 2 true example_proto) (repeat_list 2 true (items example_proto)) ∧
  acts_as (slice_proto (Some 1%Z) None 1 example_proto) (gather [1; 2] (items example_proto)).
Proof.
  pose proof (row_operations_refine_list example_proto example_wf) as (_ & _ & Hs & Hr & _).
  split; [exact (Hr 2 true)|exact (Hs (Some 1%Z) None 1 ltac:(lia))].
Defined.

(** ** Dicts of lists *)

Lemma dict_ext {X} (a b : list (string * X)) :
  keys a = keys b → NoDup (keys a) → (∀ k, dget k a = dget k b) → a = b.
Proof.
  revert b. induction a as [|[k x] a IH]; intros [|[k' x'] b] Hk Hn Hd; csimpl in *; try done.
  injection Hk as -> Hk. apply NoDup_cons in Hn as [Hnin Hn].
  pose proof (Hd k') as H. cbn in H. rewrite bool_decide_eq_true_2 in H by done. injection H as ->. f_equal.
  apply IH; [done..|]. intros k. specialize (Hd k). cbn in Hd. case_bool_decide as E; [|done]. subst k.
  assert (Hnone : ∀ c : list (string * X), k' ∉ keys c → dget k' c = None).
  { intros c Hc. destruct (dget k' c) as [v|] eqn:Ev; [|done]. exfalso. apply Hc, dmem_keys, dmem_spec. by exists v. }
  rewrite !Hnone; [done| |done]. by rewrite <-Hk.
Qed.

Lemma dget_fmap {X Y} (f : X → Y) k (d : list (string * X)) :
  dget k ((λ kv : string * X, (kv.1, f kv.2)) <$> d) = f <$> dget k d.
Proof. induction d as [|[k' x] d IH]; csimpl; [done|]. by case_bool_decide. Qed.
Lemma keys_fmap {X Y} (f : X → Y) (d : list (string * X)) : keys ((λ kv : string * X, (kv.1, f kv.2)) <$> d) = keys d.
Proof. unfold keys. rewrite <-list_fmap_compose. by apply list_fmap_ext. Qed.
Lemma dget_is_Some {X} k (d : list (string * X)) : is_Some (dget k d) ↔ k ∈ keys d.
Proof. rewrite <-dmem_keys, dmem_spec. done. Qed.
Lemma dget_keys_map {X} (g : string → X) ks k : dget k ((λ k, (k, g k)) <$> ks) = if bool_decide (k ∈ ks) then Some (g k) else None.
Proof.
  induction ks as [|k' ks IH]; csimpl; [done|].
  rewrite IH. repeat case_bool_decide; subst; try done; set_solver.
Qed.

Lemma append_items {X} (d : list (string * X)) acc :
  NoDup (keys d) → (∀ k, k ∈ keys d → k ∈ keys acc) →
  ∃ acc', foldM append_item acc d = Ok acc' ∧ keys acc' = keys acc ∧
    ∀ k, dget k acc' = (λ l, l ++ option_list (dget k d)) <$> dget k acc.
Proof.
  revert acc. induction d as [|[k x] d IH]; intros acc Hn Hk; cbn [foldM].
  { exists acc. split_and!; [done..|]. intros k. cbn. destruct (dget k acc); cbn; [by rewrite app_nil_r|done]. }
  csimpl in Hn. apply NoDup_cons in Hn as [Hnin Hn].
  assert (Hacc : k ∈ keys acc) by (apply Hk; csimpl; by left).
  destruct (proj2 (dget_is_Some k acc) Hacc) as [l Hl]. 
  assert (H1 : append_item acc (k, x) = Ok (dset k (l ++ [x]) acc)) by (unfold append_item; cbn [fst snd]; by rewrite Hl).
  rewrite H1. cbn [mbind result_bind].
  destruct (IH (dset k (l ++ [x]) acc)) as (acc' & Hf & Hkeys & Hd); [done| |].
  { intros k' Hk'. rewrite dset_keys_mem by done. apply Hk. csimpl. by right. }
  exists acc'. split; [done|]. split; [by rewrite Hkeys, dset_keys_mem|]. intros k'. rewrite Hd, dget_dset.
  cbn [dget]. case_bool_decide as E; [subst k'|].
  - rewrite bool_decide_eq_true_2 by done. rewrite Hl. cbn. destruct (dget k d) eqn:Ek; [|cbn; by rewrite app_nil_r].
    exfalso. apply Hnin, dget_is_Some. by eexists.
  - by rewrite bool_decide_eq_false_2 by (intros ->; done).
Qed.

Lemma dict_of_lists {X} (d0 : list (string * X)) l :
  NoDup (keys d0) → Forall (λ d, keys d = keys d0) l →
  ∃ out, list_of_dict_to_dict_of_list (d0 :: l) = Ok out ∧ keys out = keys d0 ∧
    ∀ k, k ∈ keys d0 → dget k out = Some (omap (dget k) (d0 :: l)).
Proof.
  intros Hn Hl. unfold list_of_dict_to_dict_of_list.
  assert (Hgen : ∀ l acc, Forall (λ d : list (string * X), keys d = keys d0) l → keys acc = keys d0 →
    ∃ out, foldM (foldM append_item) acc l = Ok out ∧ keys out = keys d0 ∧
      ∀ k, dget k out = (λ x, x ++ omap (dget k) l) <$> dget k acc).
  { clear Hl l. induction l as [|d l IH]; intros acc Hl Hk; cbn [foldM].
    - exists acc. split_and!; [done..|]. intros k. destruct (dget k acc); cbn; [by rewrite app_nil_r|done].
    - apply Forall_cons in Hl as [Hd Hl].
      destruct (append_items d acc) as (acc1 & -> & Hk1 & Hd1); [by rewrite Hd|intros k; by rewrite Hd, Hk|].
      cbn [mbind result_bind]. destruct (IH acc1 Hl) as (out & Ho & Hko & Hdo); [by rewrite Hk1|].
      exists out. split_and!; [done..|]. intros k. rewrite Hdo, Hd1. destruct (dget k acc); cbn; [|done].
      f_equal. rewrite <-app_assoc. f_equal. by destruct (dget k d). }
  destruct (Hgen (d0 :: l) ((λ kv : string * X, (kv.1, [])) <$> d0)) as (out & Ho & Hk & Hd).
  { by constructor. }
  { by apply (keys_fmap (λ _, [])). }
  exists out. split_and!; [done..|]. intros k Hin. rewrite Hd, (dget_fmap (λ _, [])).
  apply dget_is_Some in Hin as [x ->]. done.
Qed.

Lemma omap_dget_all {X} k (l : list (list (string * X))) ks :
  Forall (λ d, keys d = ks) l → k ∈ ks → Forall2 (λ d x, dget k d = Some x) l (omap (dget k) l).
Proof.
  intros H Hk. induction H as [|d l Hd H IH]; [constructor|]. csimpl.
  assert (is_Some (dget k d)) as [x Hx] by (apply dget_is_Some; by rewrite Hd).
  rewrite Hx. by constructor.
Qed.

(** ** Positions in a concatenation *)

Fixpoint locate (ns : list nat) (i : nat) : option (nat * nat) :=
  match ns with
  | [] => None
  | n :: ns => if Nat.ltb i n then Some (0, i) else (λ po : nat * nat, (S po.1, po.2)) <$> locate ns (i - n)
  end.
Lemma concat_locate {X} (ls : list (list X)) i :
  concat ls !! i = match locate (length <$> ls) i with
                   | Some (p, o) => match ls !! p with Some l => l !! o | None => None end
                   | None => None
                   end.
Proof.
  revert i. induction ls as [|l ls IH]; intros i; [done|]. csimpl. destruct (Nat.ltb_spec i (length l)) as [Hi|Hi].
  - by rewrite lookup_app_l.
  - rewrite lookup_app_r by done. rewrite IH. destruct (locate _ _) as [[p o]|]; done.
Qed.
Lemma locate_lt ns i p o : locate ns i = Some (p, o) → ∃ n, ns !! p = Some n ∧ o < n.
Proof.
  revert i p. induction ns as [|n ns IH]; intros i p H; [done|]. cbn [locate] in H. destruct (Nat.ltb_spec i n).
  - simplify_eq. by exists n.
  - destruct (locate ns (i - n)) as [[p' o']|] eqn:E; [|done]. cbn in H. simplify_eq. by apply IH in E.
Qed.
Lemma locate_None ns i : nsum ns ≤ i → locate ns i = None.
Proof.
  revert i. induction ns as [|n ns IH]; intros i H; [done|]. cbn [locate nsum foldr] in *.
  destruct (Nat.ltb_spec i n); [lia|]. rewrite IH; [done|]. unfold nsum. lia.
Qed.

(** ** Concatenation *)

Section concatenation.
Context {A B V : Type} `{EqDecision V}.

(** [d] has the fields of [d0]. *)
Definition like (d0 d : DataProto A B V) : Prop :=
  keys (tensors_of d) = keys (tensors_of d0) ∧ keys (non_tensor_batch d) = keys (non_tensor_batch d0) ∧
  (batch d = None ↔ batch d0 = None).

(** The column of key [k] in a list of dicts. *)
Definition column {X} (k : string) (l : list (list (string * list X))) : list X :=
  concat (omap (dget k) l).

Lemma rows_of_dget {X} n (ds : list (string * list X)) k l : rows_of n ds → dget k ds = Some l → length l = n.
Proof. unfold rows_of. rewrite Forall_forall. intros H Hk%dget_elem. apply (H _ Hk). Qed.

Lemma column_length {X} k ks (l : list (list (string * list X))) (ns : list nat) :
  Forall2 rows_of ns l → Forall (λ d, keys d = ks) l → k ∈ ks → length <$> omap (dget k) l = ns.
Proof.
  intros H Hks Hk. induction H as [|n d ns l Hd H IH]; [done|]. apply Forall_cons in Hks as [Hkd Hks]. csimpl.
  assert (is_Some (dget k d)) as [x Hx] by (apply dget_is_Some; by rewrite Hkd). rewrite Hx. csimpl. f_equal.
  - by eapply rows_of_dget.
  - by apply IH.
Qed.

Lemma row_at_keys {X} (e : list (string * list X)) j :
  NoDup (keys e) →
  row_at j e = (λ k, (k, match dget k e with Some c => c !! j | None => None end)) <$> keys e.
Proof.
  intros Hn. unfold row_at. trans ((λ kv : string * list X,
    (kv.1, match dget kv.1 e with Some c => c !! j | None => None end : option X)) <$> e).
  - apply list_fmap_ext. intros q [k x] Hkv. cbn. f_equal.
    by rewrite (elem_dget k x) by (done || by eapply list_elem_of_lookup_2).
  - unfold keys. by rewrite <-list_fmap_compose.
Qed.

(** Row [i] of the concatenated columns is row [o] of piece [p]. *)
Lemma row_at_columns {X} (ks : list string) (l : list (list (string * list X))) ns out i p o d :
  Forall2 rows_of ns l → Forall (λ d, keys d = ks) l → NoDup ks →
  keys out = ks → (∀ k, k ∈ ks → dget k out = Some (column k l)) →
  locate ns i = Some (p, o) → l !! p = Some d → row_at i out = row_at o d.
Proof.
  intros H Hks Hn Hko Hout Hloc Hp. assert (Hkd : keys d = ks).
  { rewrite Forall_forall in Hks. apply Hks. by eapply list_elem_of_lookup_2. }
  rewrite !row_at_keys by (by rewrite ?Hkd, ?Hko). rewrite Hkd, Hko. apply list_fmap_ext. intros q k Hk. f_equal.
  assert (Hin : k ∈ ks) by (by eapply list_elem_of_lookup_2). rewrite Hout by done.
  unfold column. rewrite concat_locate, (column_length k ks l ns) by done. rewrite Hloc.
  pose proof (omap_dget_all k l ks Hks Hin) as H2. destruct (Forall2_lookup_l _ _ _ _ _ H2 Hp) as (c & Hc & Hd).
  by rewrite Hc, Hd.
Qed.

Lemma rows_of_columns {X} (ks : list string) (l : list (list (string * list X))) ns out :
  Forall2 rows_of ns l → Forall (λ d, keys d = ks) l → NoDup ks →
  keys out = ks → (∀ k, k ∈ ks → dget k out = Some (column k l)) → rows_of (nsum ns) out.
Proof.
  intros H Hks Hn Hko Hout. unfold rows_of. apply Forall_forall. intros [k c] Hin. cbn.
  assert (Hk : k ∈ ks). { rewrite <-Hko. unfold keys. apply list_elem_of_fmap. by exists (k, c). }
  apply elem_dget in Hin; [|by rewrite Hko]. rewrite Hout in Hin by done. injection Hin as <-.
  unfold column. by rewrite length_concat_nsum, (column_length k ks l ns).
Qed.

Lemma items_concat (d' : DataProto A B V) (l : list (DataProto A B V)) :
  NoDup (keys (tensors_of d')) → NoDup (keys (non_tensor_batch d')) → Forall wf l →
  Forall (λ d, keys (tensors_of d) = keys (tensors_of d') ∧ keys (non_tensor_batch d) = keys (non_tensor_batch d')) l →
  (∀ k, k ∈ keys (tensors_of d') → dget k (tensors_of d') = Some (column k (tensors_of <$> l))) →
  (∀ k, k ∈ keys (non_tensor_batch d') → dget k (non_tensor_batch d') = Some (column k (non_tensor_batch <$> l))) →
  len d' = nsum (len <$> l) →
  wf d' ∧ items d' = concat (items <$> l).
Proof.
  intros Nt Nn Hw Hk Ht Hn Hlen.
  assert (Ft : Forall2 rows_of (len <$> l) (tensors_of <$> l)).
  { apply Forall2_fmap, Forall_Forall2_diag. eapply Forall_impl; [exact Hw|]. by intros d (H & _). }
  assert (Fn : Forall2 rows_of (len <$> l) (non_tensor_batch <$> l)).
  { apply Forall2_fmap, Forall_Forall2_diag. eapply Forall_impl; [exact Hw|]. by intros d (_ & H & _). }
  assert (Kt : Forall (λ d, keys d = keys (tensors_of d')) (tensors_of <$> l)).
  { apply Forall_fmap. eapply Forall_impl; [exact Hk|]. by intros d [H _]. }
  assert (Kn : Forall (λ d, keys d = keys (non_tensor_batch d')) (non_tensor_batch <$> l)).
  { apply Forall_fmap. eapply Forall_impl; [exact Hk|]. by intros d [_ H]. }
  split.
  - unfold wf. rewrite Hlen. split_and!; [by eapply rows_of_columns..|done|done].
  - apply list_eq. intros i. rewrite concat_locate. unfold items at 1. rewrite list_lookup_fmap.
    assert (El : length <$> (items <$> l) = len <$> l).
    { rewrite <-list_fmap_compose. apply list_fmap_ext. intros q d _. cbn. apply items_length. }
    rewrite El. destruct (decide (i < len d')) as [Hi|Hi].
    + rewrite lookup_seq_lt by done. cbn. destruct (locate (len <$> l) i) as [[p o]|] eqn:Hloc.
      * destruct (locate_lt _ _ _ _ Hloc) as (n & Hn' & Ho). rewrite list_lookup_fmap in Hn'.
        rewrite list_lookup_fmap. destruct (l !! p) as [d|] eqn:Hp; cbn in Hn' |- *; simplify_eq.
        unfold items. rewrite list_lookup_fmap, lookup_seq_lt by done. cbn. f_equal. unfold item_at.
        f_equal.
        -- eapply row_at_columns; [exact Ft|exact Kt|done..|exact Ht|exact Hloc|]. by rewrite list_lookup_fmap, Hp.
        -- eapply row_at_columns; [exact Fn|exact Kn|done..|exact Hn|exact Hloc|]. by rewrite list_lookup_fmap, Hp.
      * exfalso. clear -Hi Hloc Hlen. rewrite Hlen in Hi. revert i Hi Hloc. generalize (len <$> l). intros ns.
        induction ns as [|n ns IH]; cbn [nsum foldr locate]; intros i Hi Hloc; [lia|].
        destruct (Nat.ltb_spec i n); [done|]. destruct (locate ns (i - n)) eqn:E; [done|].
        apply (IH (i - n)); [unfold nsum; lia|done].
    + rewrite lookup_seq_ge by lia. rewrite locate_None by lia. done.
Qed.

Lemma column_default {X} k ks (l : list (list (string * list X))) :
  Forall (λ d, keys d = ks) l → k ∈ ks → concat ((λ d, default [] (dget k d)) <$> l) = column k l.
Proof.
  intros H Hk. unfold column. f_equal. induction H as [|d l Hd H IH]; [done|]. csimpl.
  assert (is_Some (dget k d)) as [x ->] by (apply dget_is_Some; by rewrite Hd). csimpl. by f_equal.
Qed.

Lemma cat_tensors_like (td0 : tensor_dict A) tds :
  NoDup (keys (tensors td0)) → Forall (λ td, keys (tensors td) = keys (tensors td0)) (td0 :: tds) →
  ∃ td, cat_tensors (td0 :: tds) = Ok td ∧ bsz td = nsum (bsz <$> (td0 :: tds)) ∧
    keys (tensors td) = keys (tensors td0) ∧
    ∀ k, k ∈ keys (tensors td0) → dget k (tensors td) = Some (column k (tensors <$> (td0 :: tds))).
Proof.
  intros Hn Hk. unfold cat_tensors.
  assert (Hc : forallb (λ td : tensor_dict A, bool_decide (length (tensors td) = length (tensors td0))
      && forallb (λ k, dmem k (tensors td)) (keys (tensors td0))) (td0 :: tds) = true).
  { apply forallb_Forall. eapply Forall_impl; [exact Hk|]. intros td Htd. apply andb_true_iff. split.
    - apply bool_decide_eq_true. apply (f_equal length) in Htd. unfold keys in Htd. by rewrite !length_fmap in Htd.
    - apply forallb_Forall, Forall_forall. intros k Hin. apply dmem_keys. by rewrite Htd. }
  rewrite Hc. cbn [mbind result_bind]. eexists. split; [reflexivity|]. cbn [bsz tensors]. split; [done|]. split.
  - unfold keys. rewrite <-list_fmap_compose. apply list_fmap_id.
  - intros k Hin. rewrite dget_keys_map, bool_decide_eq_true_2 by done. f_equal.
    rewrite <-(column_default k (keys (tensors td0))); [by rewrite <-list_fmap_compose| |done].
    by apply Forall_fmap.
Qed.

Lemma all_batches (l : list (DataProto A B V)) :
  Forall (λ d, batch d ≠ None) l →
  ∃ tds, batch <$> l = Some <$> tds ∧ tensors_of <$> l = tensors <$> tds ∧ len <$> l = bsz <$> tds.
Proof.
  induction 1 as [|d l Hd H (tds & E1 & E2 & E3)]; [by exists []|].
  destruct (batch d) as [td|] eqn:Eb; [|done]. exists (td :: tds). csimpl. rewrite E1, E2, E3.
  unfold tensors_of, len. by rewrite Eb.
Qed.

Lemma mapM_Some_id {X} (l : list X) : mapM (λ b : option X, b) (Some <$> l) = Some l.
Proof. by apply mapM_fmap_Some. Qed.

Lemma cat_batches_like (d0 : DataProto A B V) ds :
  Forall wf (d0 :: ds) → Forall (like d0) ds →
  ∃ b, cat_batches (batch <$> (d0 :: ds)) = Ok b ∧ (b = None ↔ batch d0 = None) ∧
    let ts := match b with Some td => tensors td | None => [] end in
    keys ts = keys (tensors_of d0) ∧
    (∀ k, k ∈ keys (tensors_of d0) → dget k ts = Some (column k (tensors_of <$> (d0 :: ds)))) ∧
    match b with Some td => bsz td = nsum (len <$> (d0 :: ds)) | None => True end.
Proof.
  intros Hw Hl. destruct (batch d0) as [td0|] eqn:Eb.
  - assert (Ha : Forall (λ d, batch d ≠ None) (d0 :: ds)).
    { constructor; [by rewrite Eb|]. eapply Forall_impl; [exact Hl|]. intros d (_ & _ & H) E.
      apply H in E. by rewrite Eb in E. }
    destruct (all_batches _ Ha) as (tds & E1 & E2 & E3). rewrite E1, E2, E3.
    destruct tds as [|td0' tds]; [by destruct ds|]. csimpl in E1. injection E1 as E0 E1.
    rewrite Eb in E0. injection E0 as <-. unfold cat_batches. csimpl.
    change (Some td0 :: (Some <$> tds)) with (Some <$> (td0 :: tds)) in |- *. rewrite mapM_Some_id.
    cbn [of_option mbind result_bind]. csimpl in E2. injection E2 as E0 E2.
    destruct (cat_tensors_like td0 tds) as (td & Hc & Hb & Hk & Hd).
    + apply Forall_cons in Hw as [(_ & _ & H & _) _]. by rewrite <-E0.
    + constructor; [done|]. assert (H : Forall (λ ts, keys ts = keys (tensors td0)) (tensors <$> tds)).
      { rewrite <-E2. apply Forall_fmap. eapply Forall_impl; [exact Hl|]. intros d (H & _). cbn. by rewrite H, E0. }
      by apply Forall_fmap in H.
    + cbn [option_bind mret option_ret of_option mbind result_bind]. rewrite Hc. cbn [mbind result_bind]. exists (Some td). rewrite E0. split_and!; try done.
  - exists None. csimpl. rewrite Eb. split; [done|]. split; [done|]. unfold tensors_of. rewrite Eb. cbn.
    split; [done|]. split; [|done]. intros k Hk. by apply elem_of_nil in Hk.
Qed.

(** Data with the same fields concatenate to the concatenation of their items. *)
Lemma concat_like (d0 : DataProto A B V) ds m :
  Forall wf (d0 :: ds) → Forall (like d0) ds → merge_meta (meta_info <$> (d0 :: ds)) = Ok m →
  ∃ d', concat_protos (d0 :: ds) = Ok d' ∧ like d0 d' ∧ meta_info d' = m ∧ wf d' ∧
    len d' = nsum (len <$> (d0 :: ds)) ∧ items d' = concat (items <$> (d0 :: ds)) ∧
    (∀ k, k ∈ keys (tensors_of d0) → dget k (tensors_of d') = Some (column k (tensors_of <$> (d0 :: ds)))) ∧
    (∀ k, k ∈ keys (non_tensor_batch d0) →
       dget k (non_tensor_batch d') = Some (column k (non_tensor_batch <$> (d0 :: ds)))).
Proof.
  intros Hw Hl Hm. unfold concat_protos.
  destruct (cat_batches_like d0 ds Hw Hl) as (b & -> & Hb & Hkt & Hdt & Hbs). cbn [mbind result_bind].
  pose proof (proj1 (Forall_cons _ _ _) Hw) as [(Hr0 & Hn0 & Nt & Nn) _].
  destruct (dict_of_lists (non_tensor_batch d0) (non_tensor_batch <$> ds)) as (out & Ho & Hko & Hdo); [done| |].
  { apply Forall_fmap. eapply Forall_impl; [exact Hl|]. by intros d (_ & H & _). }
  rewrite (fmap_cons non_tensor_batch). rewrite Ho. cbn [mbind result_bind]. rewrite Hm. cbn [mbind result_bind].
  set (nt := (λ kv : string * list (list B), (kv.1, concat kv.2)) <$> out).
  assert (Hkn : keys nt = keys (non_tensor_batch d0)) by (unfold nt; by rewrite (keys_fmap (@concat B))).
  assert (Hdn : ∀ k, k ∈ keys (non_tensor_batch d0) → dget k nt = Some (column k (non_tensor_batch <$> (d0 :: ds)))).
  { intros k Hk. unfold nt. rewrite (dget_fmap (@concat B)), Hdo by done. done. }
  assert (Fn : Forall2 rows_of (len <$> (d0 :: ds)) (non_tensor_batch <$> (d0 :: ds))).
  { apply Forall2_fmap, Forall_Forall2_diag. eapply Forall_impl; [exact Hw|]. by intros d (_ & H & _). }
  assert (Kn : Forall (λ d, keys d = keys (non_tensor_batch d0)) (non_tensor_batch <$> (d0 :: ds))).
  { apply Forall_fmap. constructor; [done|]. eapply Forall_impl; [exact Hl|]. by intros d (_ & H & _). }
  assert (Hrn : rows_of (nsum (len <$> (d0 :: ds))) nt) by (by eapply rows_of_columns).
  unfold new. assert (check_consistency b nt = true) as ->.
  { unfold check_consistency. destruct b as [td|]; [|done]. rewrite Hbs. by apply rows_of_forallb. }
  cbn [mbind result_bind]. set (d' := {| batch := b; non_tensor_batch := nt; meta_info := m |}).
  exists d'. split; [done|].
  assert (Hlen : len d' = nsum (len <$> (d0 :: ds))).
  { unfold len at 1, d'. cbn [batch non_tensor_batch]. destruct b as [td|]; [done|].
    destruct nt as [|[k c] nt'] eqn:En.
    - assert (E0 : Forall (λ d : DataProto A B V, len d = 0) (d0 :: ds)).
      { rewrite Forall_forall. intros d Hd. assert (Hlike : like d0 d).
        { apply elem_of_cons in Hd as [->|Hd]; [by repeat split|]. rewrite Forall_forall in Hl. by apply Hl. }
        destruct Hlike as (_ & Hk & Hbd). unfold len. rewrite (proj2 Hbd) by (by apply Hb).
        rewrite <-Hkn in Hk. unfold keys in Hk. by destruct (non_tensor_batch d). }
      symmetry. clear -E0. induction E0 as [|d l Hd H IH]; [done|]. cbn. by rewrite Hd.
    - unfold rows_of in Hrn. by apply Forall_cons in Hrn as [Hc _]. }
  assert (Hkt' : keys (tensors_of d') = keys (tensors_of d0)) by exact Hkt.
  assert (Hkn' : keys (non_tensor_batch d') = keys (non_tensor_batch d0)) by exact Hkn.
  destruct (items_concat d' (d0 :: ds)) as [Hwf Hit]; [by rewrite Hkt'|by rewrite Hkn'|done| | | |done|].
  - rewrite Hkt', Hkn'. constructor; [done|].
    eapply Forall_impl; [exact Hl|]. intros d (H1 & H2 & _). by rewrite H1, H2.
  - rewrite Hkt'. exact Hdt.
  - rewrite Hkn'. exact Hdn.
  - split_and!; done.
Qed.
End concatenation.

(** ** Merging equal meta information *)

Section meta_lemmas.
Context {V : Type} `{EqDecision V}.

Lemma meta_eqb_refl : ∀ m : meta V, meta_ok m = true → meta_eqb m m = true.
Proof.
  fix IH 1. intros [|b|v|l|d]; cbn.
  - done.
  - by destruct b.
  - intros _. by apply bool_decide_eq_true.
  - revert l. fix IHl 1. intros [|x l]; [done|]. cbn. intros [Hx Hl]%andb_true_iff. by rewrite (IH x Hx), IHl.
  - intros [Hn%bool_decide_eq_true Ho]%andb_true_iff. rewrite Nat.eqb_refl. cbn [andb].
    assert (Hin : ∀ kv, kv ∈ d → dget kv.1 d = Some kv.2) by (intros [k x] Hk; by apply elem_dget).
    assert (H : ∀ e : list (string * meta V), (∀ kv, kv ∈ d → dget kv.1 e = Some kv.2) →
      forallb (λ kv : string * meta V, match dget kv.1 e with Some y => meta_eqb kv.2 y | None => false end) d = true);
      [|by apply H].
    clear Hn Hin. intros e. revert d Ho. fix IHd 1. intros [|x d] Ho Hin; [done|].
    cbn in *. apply andb_true_iff in Ho as [Hx Ho]. rewrite Hin by (by left). rewrite (IH x.2 Hx).
    apply IHd; [done|]. intros kv Hk. apply Hin. by right.
Qed.

Lemma merge_fresh (m pre : list (string * meta V)) ms :
  NoDup (keys (pre ++ m)) → "metrics"%string ∉ keys m →
  foldM merge_meta_entry (pre, ms) m = Ok (pre ++ m, ms).
Proof.
  revert pre. induction m as [|[k v] m IH]; intros pre Hn Hm; cbn [foldM]; [by rewrite app_nil_r|].
  unfold keys in Hm. csimpl in Hm. apply not_elem_of_cons in Hm as [Hk Hm].
  assert (Hnew : k ∉ keys pre).
  { unfold keys in *. rewrite fmap_app in Hn. apply NoDup_app in Hn as (_ & Hn & _). intros Hin.
    apply (Hn k Hin). csimpl. by left. }
  assert (Hstep : merge_meta_entry (pre, ms) (k, v) = Ok (pre ++ [(k, v)], ms)).
  { unfold merge_meta_entry. cbn [fst snd]. rewrite bool_decide_eq_false_2 by done.
    destruct (dget k pre) eqn:E; [|by rewrite dset_new]. exfalso. apply Hnew, dget_is_Some. by eexists. }
  rewrite Hstep. cbn [mbind result_bind]. rewrite IH; [by rewrite <-app_assoc|by rewrite <-app_assoc|done].
Qed.

Lemma merge_present (m acc : list (string * meta V)) ms :
  "metrics"%string ∉ keys m → (∀ k v, (k, v) ∈ m → dget k acc = Some v ∧ meta_ok v = true) →
  foldM merge_meta_entry (acc, ms) m = Ok (acc, ms).
Proof.
  intros Hm. induction m as [|[k v] m IH]; intros H; cbn [foldM]; [done|].
  unfold keys in Hm. csimpl in Hm. apply not_elem_of_cons in Hm as [Hk Hm].
  assert (Hstep : merge_meta_entry (acc, ms) (k, v) = Ok (acc, ms)).
  { unfold merge_meta_entry. cbn [fst snd]. rewrite bool_decide_eq_false_2 by done.
    destruct (H k v) as [-> Hv]; [by left|]. by rewrite meta_eqb_refl. }
  rewrite Hstep. cbn [mbind result_bind]. apply IH; [done|]. intros k' v' Hin. apply H. by right.
Qed.

(** Equal meta information without metrics merges to itself. *)
Lemma merge_meta_same (m : list (string * meta V)) l :
  NoDup (keys m) → "metrics"%string ∉ keys m → (∀ kv, kv ∈ m → meta_ok kv.2 = true) → Forall (λ m', m' = m) l → merge_meta (m :: l) = Ok m.
Proof.
  intros Hn Hm Ho Hl. unfold merge_meta. cbn [foldM]. rewrite merge_fresh by done. cbn [mbind result_bind app].
  assert (H : foldM (foldM merge_meta_entry) (m, []) l = Ok (m, [])).
  { induction Hl as [|m' l -> Hl IH]; [done|]. cbn [foldM]. rewrite merge_present; [done|done|].
    intros k v Hin. split; [by apply elem_dget|by apply (Ho (k, v))]. }
  rewrite H. done.
Qed.
End meta_lemmas.

(** ** Chunks *)

Section chunks.
Context {A B V : Type} `{EqDecision V}.

Lemma cut_length {X} sizes (l : list X) : length (cut sizes l) = length sizes.
Proof. revert l. induction sizes as [|n sizes IH]; intros l; cbn; [done|]. by rewrite IH. Qed.
Lemma concat_cut {X} sizes (l : list X) : nsum sizes = length l → concat (cut sizes l) = l.
Proof.
  revert l. induction sizes as [|n sizes IH]; intros l H; cbn in *; [by destruct l|].
  rewrite IH; [apply take_drop|]. rewrite length_drop. unfold nsum. lia.
Qed.
Lemma cut_lengths {X} sizes (l : list X) : nsum sizes = length l → length <$> cut sizes l = sizes.
Proof.
  revert l. induction sizes as [|n sizes IH]; intros l H; cbn in *; [done|]. unfold fmap in IH.
  rewrite IH; [|rewrite length_drop; unfold nsum; lia]. f_equal. rewrite length_take. lia.
Qed.
Lemma imap_cut {X} sizes (l : list X) c :
  length sizes = c → (λ i, default [] (cut sizes l !! i)) <$> seq 0 c = cut sizes l.
Proof.
  intros Hc. apply list_eq. intros i. rewrite list_lookup_fmap. destruct (decide (i < c)) as [Hi|Hi].
  - rewrite lookup_seq_lt by done. cbn.
    destruct (lookup_lt_is_Some_2 (cut sizes l) i) as [x ->]; [by rewrite cut_length, Hc|done].
  - rewrite lookup_seq_ge by lia. symmetry. apply lookup_ge_None. rewrite cut_length. lia.
Qed.

Lemma nsum_replicate c m : nsum (replicate c m) = c * m.
Proof. induction c as [|c IH]; [done|]. cbn. unfold nsum in IH. lia. Qed.

Lemma equal_sizes c m : c ≠ 0 → m ≠ 0 → chunk_sizes (c * m) c = replicate c m ∧ split_sizes (c * m) c = replicate c m.
Proof.
  intros Hc Hm. unfold chunk_sizes, split_sizes.
  assert (E1 : (c * m + c - 1) / c = m) by (symmetry; apply (Nat.div_unique _ _ _ (c - 1)); lia).
  assert (E2 : (c * m) mod c = 0) by (rewrite Nat.mul_comm; by apply Nat.Div0.mod_mul).
  assert (E3 : c * m / c = m) by (rewrite Nat.mul_comm; by apply Nat.div_mul).
  rewrite E1, E2, E3, Nat.div_mul, Nat.Div0.mod_mul by done. destruct (Nat.eqb_spec m 0); [done|].
  rewrite Nat.eqb_refl, app_nil_r, Nat.sub_0_r. done.
Qed.

(** Piece [i] of [c] equal pieces of [m] rows. *)
Definition piece (c m i : nat) (d : DataProto A B V) : DataProto A B V := {|
  batch := (λ td, {| bsz := m; tensors := pieces (replicate c m) i (tensors td) |}) <$> batch d;
  non_tensor_batch := pieces (replicate c m) i (non_tensor_batch d); meta_info := meta_info d |}.

Lemma cut_replicate_length {X} c m i (l : list X) :
  length l = c * m → i < c → length (default [] (cut (replicate c m) l !! i)) = m.
Proof.
  intros Hl Hi. assert (Hs : nsum (replicate c m) = length l) by (by rewrite nsum_replicate).
  pose proof (cut_lengths _ _ Hs) as H. apply (f_equal (λ k, k !! i)) in H.
  rewrite list_lookup_fmap, lookup_replicate_2 in H by done. destruct (cut _ l !! i); [|done]. cbn in *. congruence.
Qed.

Lemma keys_pieces {X} sizes i (ds : list (string * list X)) : keys (pieces sizes i ds) = keys ds.
Proof. unfold pieces, keys. rewrite <-list_fmap_compose. by apply list_fmap_ext. Qed.

Lemma pieces_rows {X} c m i (ds : list (string * list X)) :
  rows_of (c * m) ds → i < c → rows_of m (pieces (replicate c m) i ds).
Proof.
  unfold rows_of, pieces. intros H Hi. apply Forall_fmap. eapply Forall_impl; [exact H|]. intros kv Hkv. cbn.
  by apply cut_replicate_length.
Qed.

Lemma column_pieces {X} c m k l (ds : list (string * list X)) :
  rows_of (c * m) ds → dget k ds = Some l →
  column k ((λ i, pieces (replicate c m) i ds) <$> seq 0 c) = l.
Proof.
  intros Hr Hl. unfold column.
  assert (E : omap (dget k) ((λ i, pieces (replicate c m) i ds) <$> seq 0 c) = cut (replicate c m) l).
  { rewrite <-(imap_cut (replicate c m) l c) by (by rewrite length_replicate).
    generalize (seq 0 c). intros js. induction js as [|i js IH]; [done|]. csimpl. unfold pieces at 1.
    rewrite (dget_fmap (λ x, default [] (cut (replicate c m) x !! i))), Hl. cbn [fmap option_fmap option_map].
    by rewrite IH. }
  rewrite E. apply concat_cut. rewrite nsum_replicate. symmetry. by eapply rows_of_dget.
Qed.

Lemma piece_wf c m i (d : DataProto A B V) :
  wf d → len d = c * m → c * m ≠ 0 → i < c → wf (piece c m i d) ∧ (batch d ≠ None ∨ non_tensor_batch d ≠ [] → len (piece c m i d) = m).
Proof.
  intros (Ht & Hn & Nt & Nn) Hlen Hne Hi. rewrite Hlen in *.
  assert (Hl : len (piece c m i d) = m).
  { unfold len, piece in *. cbn [batch non_tensor_batch]. destruct (batch d) as [td|]; [done|]. cbn.
    destruct (non_tensor_batch d) as [|[k l] nt]; [done|]. cbn. by apply cut_replicate_length. }
  split; [|done]. unfold wf. rewrite Hl. unfold tensors_of in *. cbn [piece batch non_tensor_batch].
  destruct (batch d) as [td|]; cbn [fmap option_fmap option_map tensors]; rewrite ?keys_pieces;
    split_and!; first [done|by apply pieces_rows|by constructor].
Qed.

(** Chunking into a divisor of the length gives the equal pieces. *)
Lemma chunk_pieces auto_padding c m (d : DataProto A B V) :
  wf d → len d = c * m → c ≠ 0 → m ≠ 0 → chunk auto_padding c d = Ok ((λ i, piece c m i d) <$> seq 0 c).
Proof.
  intros Hw Hlen Hc Hm. destruct (equal_sizes c m Hc Hm) as [E1 E2].
  assert (E0 : (c * m) mod c = 0) by (rewrite Nat.mul_comm; by apply Nat.Div0.mod_mul).
  unfold chunk. destruct (Nat.eqb_spec c 0); [done|]. rewrite Hlen, E0. cbn [negb Nat.eqb mbind result_bind].
  rewrite orb_true_r. cbn [mbind result_bind]. pose proof Hw as (Ht & Hn & _). rewrite Hlen in Ht, Hn.
  destruct (batch d) as [td|] eqn:Eb.
  - assert (Eb' : bsz td = c * m) by (unfold len in Hlen; by rewrite Eb in Hlen). rewrite Eb', E1.
    rewrite bool_decide_eq_true_2 by (right; by rewrite length_replicate). cbn [mbind result_bind].
    apply mapM_Ok_map. intros i Hi%elem_of_seq. rewrite lookup_replicate_2 by lia. cbn [of_option mbind result_bind].
    unfold new, check_consistency. cbn [bsz]. rewrite rows_of_forallb by (apply pieces_rows; [done|lia]).
    unfold piece. by rewrite Eb.
  - apply mapM_Ok_map. intros i Hi%elem_of_seq. unfold new, check_consistency. cbn [mbind result_bind].
    unfold piece. rewrite Eb. cbn. do 2 f_equal. unfold pieces. apply list_fmap_ext. intros q kv Hkv.
    unfold rows_of in Hn. rewrite Forall_forall in Hn. rewrite (Hn kv) by (by eapply list_elem_of_lookup_2).
    by rewrite E2.
Qed.

(** Data of the same fields and columns are the same. *)
Lemma same_columns (d d' : DataProto A B V) :
  wf d → like d d' → meta_info d' = meta_info d → len d' = len d →
  (∀ k l, dget k (tensors_of d) = Some l → dget k (tensors_of d') = Some l) →
  (∀ k l, dget k (non_tensor_batch d) = Some l → dget k (non_tensor_batch d') = Some l) → d' = d.
Proof.
  intros (_ & _ & Nt & Nn) (Kt & Kn & Hb) Hm Hl Ht Hn.
  assert (Hext : ∀ X (a b : list (string * list X)), NoDup (keys b) → keys a = keys b →
    (∀ k l, dget k b = Some l → dget k a = Some l) → a = b).
  { intros X a b Hnd Hk H. apply dict_ext; [done|by rewrite Hk|]. intros k. destruct (dget k b) as [l|] eqn:E; [by apply H|].
    destruct (dget k a) as [l|] eqn:E'; [|done]. exfalso.
    assert (is_Some (dget k b)) as [? ?]; [|congruence]. apply dget_is_Some. rewrite <-Hk. apply dget_is_Some. by eexists. }
  assert (Et : tensors_of d' = tensors_of d) by (by apply Hext).
  assert (En : non_tensor_batch d' = non_tensor_batch d) by (by apply Hext).
  destruct d as [[[n ts]|] nt m], d' as [[[n' ts']|] nt' m']; unfold tensors_of, len in *; cbn in *;
    [congruence|destruct Hb as [Hb _]; by specialize (Hb eq_refl)|destruct Hb as [_ Hb]; by specialize (Hb eq_refl)|congruence].
Qed.
End chunks.

(** ** Chunks concatenate to the data; padding is undone *)

Section roundtrips.
Context {A B V : Type} `{EqDecision V}.

(** Meta information without metrics survives a merge of equal copies. *)
Definition mergeable (d : DataProto A B V) : Prop :=
  NoDup (keys (meta_info d)) ∧ "metrics"%string ∉ keys (meta_info d) ∧ ∀ kv, kv ∈ meta_info d → meta_ok kv.2 = true.

Lemma concat_same_meta (d0 : DataProto A B V) ds :
  Forall wf (d0 :: ds) → Forall (like d0) ds → mergeable d0 → Forall (λ d, meta_info d = meta_info d0) ds →
  ∃ d', concat_protos (d0 :: ds) = Ok d' ∧ like d0 d' ∧ meta_info d' = meta_info d0 ∧ wf d' ∧
    len d' = nsum (len <$> (d0 :: ds)) ∧ items d' = concat (items <$> (d0 :: ds)) ∧
    (∀ k, k ∈ keys (tensors_of d0) → dget k (tensors_of d') = Some (column k (tensors_of <$> (d0 :: ds)))) ∧
    (∀ k, k ∈ keys (non_tensor_batch d0) →
       dget k (non_tensor_batch d') = Some (column k (non_tensor_batch <$> (d0 :: ds)))).
Proof.
  intros Hw Hl (Hn & Hm & Ho) Hme. apply concat_like; [done..|]. csimpl. apply merge_meta_same; [done..|]. by apply Forall_fmap.
Qed.

Lemma piece_like c m i (d : DataProto A B V) : like d (piece c m i d).
Proof.
  unfold like, piece, tensors_of. cbn [batch non_tensor_batch].
  destruct (batch d); cbn [fmap option_fmap option_map tensors]; rewrite ?keys_pieces; (split; [done|split; done]).
Qed.

Lemma concat_pieces c m (d : DataProto A B V) :
  wf d → mergeable d → len d = c * m → c ≠ 0 → m ≠ 0 →
  concat_protos ((λ i, piece c m i d) <$> seq 0 c) = Ok d ∧ items d = concat (items <$> ((λ i, piece c m i d) <$> seq 0 c)).
Proof.
  intros Hw Hm Hlen Hc Hm0. assert (Hne : c * m ≠ 0) by lia.
  assert (Hp : ∀ i, i < c → wf (piece c m i d)) by (intros i Hi; by apply piece_wf).
  assert (Hpl : ∀ i, i < c → len (piece c m i d) = m).
  { intros i Hi. apply (piece_wf c m i d Hw Hlen Hne Hi). unfold len in Hlen. destruct (batch d); [by left|].
    right. by destruct (non_tensor_batch d). }
  destruct c as [|c]; [done|]. set (l := (λ i, piece (S c) m i d) <$> seq 0 (S c)) in *.
  assert (El : l = piece (S c) m 0 d :: ((λ i, piece (S c) m i d) <$> seq 1 c)) by done.
  destruct (concat_same_meta (piece (S c) m 0 d) ((λ i, piece (S c) m i d) <$> seq 1 c)) as
    (d' & Hcat & Hlike & Hmeta & Hwf & Hl' & Hit & Ht & Hn).
  - rewrite <-El. unfold l. apply Forall_fmap, Forall_forall. intros i Hi%elem_of_seq. apply Hp. lia.
  - apply Forall_fmap, Forall_true. intros i. cbn.
    destruct (piece_like (S c) m i d) as (H1 & H2 & H3), (piece_like (S c) m 0 d) as (H4 & H5 & H6).
    unfold like. rewrite H1, H2, H4, H5. split_and!; tauto.
  - done.
  - by apply Forall_fmap, Forall_true.
  - rewrite <-El in *. destruct (piece_like (S c) m 0 d) as (H4 & H5 & H6). destruct Hlike as (H1 & H2 & H3).
    rewrite H4 in *. rewrite H5 in *. pose proof Hw as (Hrt & Hrn & _). rewrite Hlen in Hrt, Hrn.
    assert (E : d' = d); [|subst d'; done].
    apply same_columns; [done| |by rewrite Hmeta| | |].
    + split; [done|split; [done|tauto]].
    + rewrite Hl', Hlen. unfold l. rewrite <-list_fmap_compose.
      rewrite (list_fmap_ext _ (λ _, m) (seq 0 (S c))).
      * rewrite <-(nsum_replicate (S c) m). f_equal. rewrite (const_fmap _ _ m) by done. by rewrite length_seq.
      * intros q i Hi. apply lookup_seq in Hi as [-> Hi]. cbn. apply Hpl. lia.
    + intros k x Hk. rewrite Ht by (apply dget_is_Some; by eexists). f_equal.
      unfold l. rewrite <-list_fmap_compose. rewrite (list_fmap_ext _ (λ i, pieces (replicate (S c) m) i (tensors_of d))).
      * by apply column_pieces.
      * intros q i _. unfold compose, tensors_of, piece. cbn. by destruct (batch d).
    + intros k x Hk. rewrite Hn by (apply dget_is_Some; by eexists). f_equal.
      unfold l. rewrite <-list_fmap_compose. by apply column_pieces.
Qed.

(** Splitting data into a number of chunks that divides its length gives that many
    well-formed pieces of equal length, whose items in order are the items of the data, and
    [concat] of them is the data itself (meta information without metrics included); without
    padding any other number of chunks is refused. *)
Theorem chunk_concat_roundtrip (auto_padding : bool) (chunks : nat) (d : DataProto A B V) :
  wf d → mergeable d → chunks ≠ 0 → len d ≠ 0 →
  if Nat.eqb (len d mod chunks) 0 then
    ∃ ps, chunk auto_padding chunks d = Ok ps ∧ length ps = chunks ∧
      Forall (λ p, wf p ∧ len p = len d / chunks ∧ meta_info p = meta_info d) ps ∧
      concat (items <$> ps) = items d ∧ concat_protos ps = Ok d
  else is_padding_enabled auto_padding d = false →
    chunk auto_padding chunks d = Raise (AssertionError "only support equal chunk.").
Proof.
  intros Hw Hm Hc Hl. destruct (Nat.eqb_spec (len d mod chunks) 0) as [E|E].
  - pose proof (Nat.div_mod_eq (len d) chunks) as Ed. rewrite E, Nat.add_0_r in Ed.
    set (m := len d / chunks) in *. assert (Hm0 : m ≠ 0) by nia.
    destruct (concat_pieces chunks m d Hw Hm Ed Hc Hm0) as [H1 H2].
    exists ((λ i, piece chunks m i d) <$> seq 0 chunks). split_and!.
    + by apply chunk_pieces.
    + by rewrite length_fmap, length_seq.
    + apply Forall_fmap, Forall_forall. intros i Hi%elem_of_seq. cbn.
      destruct (piece_wf chunks m i d Hw Ed) as [Hp Hpl]; [lia|lia|]. split_and!; [done| |done]. apply Hpl.
      unfold len in Hl. destruct (batch d); [by left|]. right. by destruct (non_tensor_batch d).
    + done.
    + done.
  - intros Hp. unfold chunk. destruct (Nat.eqb_spec chunks 0); [done|]. cbn [negb mbind result_bind].
    rewrite Hp. by destruct (Nat.eqb_spec (len d mod chunks) 0).
Qed.
End roundtrips.

Lemma chunk_concat_roundtrip_witness : ∃ ps, chunk false 3 example_proto = Ok ps ∧ concat_protos ps = Ok example_proto.
Proof.
  pose proof (chunk_concat_roundtrip false 3 example_proto example_wf
    ltac:(split; [repeat constructor; set_solver|set_solver]) ltac:(lia) ltac:(done)) as H.
  cbn in H. destruct H as (ps & H1 & _ & _ & _ & H2). by exists ps.
Defined.

Section padding_roundtrip.
Context {A B V : Type} `{EqDecision V}.

Lemma filter_all {X} (f : X → bool) l : (∀ x, f x = true) → List.filter f l = l.
Proof. intros H. induction l as [|x l IH]; [done|]. cbn. by rewrite H, IH. Qed.
Lemma slice_indices_prefix (stop : Z) n t : slice_bound n stop = t → slice_indices None (Some stop) 1 n = seq 0 t.
Proof. intros <-. unfold slice_indices. rewrite Nat.sub_0_r. apply filter_all. intros i. by rewrite Nat.mod_1_r. Qed.
Lemma gather_prefix {X} t (l : list X) : t ≤ length l → gather (seq 0 t) l = take t l.
Proof.
  intros Ht. apply list_eq. intros i. rewrite gather_lookup by (apply Forall_seq; lia).
  destruct (decide (i < t)) as [Hi|Hi].
  - by rewrite lookup_seq_lt, lookup_take_lt by done.
  - rewrite lookup_seq_ge, lookup_take_ge by lia. done.
Qed.

(** A prefix slice of [t] rows. *)
Lemma slice_prefix (d : DataProto A B V) (stop : Z) t :
  wf d → slice_bound (len d) stop = t →
  ∃ p, slice_proto None (Some stop) 1 d = Ok p ∧ wf p ∧ like d p ∧ meta_info p = meta_info d ∧ len p = t ∧
    items p = take t (items d) ∧
    tensors_of p = (λ kv : string * list A, (kv.1, gather (seq 0 t) kv.2)) <$> tensors_of d ∧
    non_tensor_batch p = (λ kv : string * list B, (kv.1, gather (seq 0 t) kv.2)) <$> non_tensor_batch d.
Proof.
  intros Hw Ht. assert (Hle : t ≤ len d) by (subst t; apply slice_bound_le).
  pose proof (slice_indices_prefix stop (len d) t Ht) as Hidx.
  destruct (apply_rows_gather (λ X l, Ok (gather (slice_indices None (Some stop) 1 (length l)) l))
    (λ n, length (slice_indices None (Some stop) 1 n)) d (seq 0 t)) as
    (p & Hp & Hwf & Hl & Hit & Kt & Kn & Hm & Hb & Et & En); [done| | | |].
  - intros X l Hl. by rewrite Hl, Hidx.
  - apply Forall_seq. lia.
  - by rewrite Hidx.
  - exists p. rewrite length_seq in Hl. rewrite gather_prefix in Hit by (by rewrite items_length).
    split; [exact Hp|]. split_and!; done.
Qed.

Lemma padding_protos_cycle (d : DataProto A B V) fuel r :
  wf d → len d ≠ 0 → r ≤ fuel →
  ∃ ps, padding_protos fuel r d = Ok ps ∧ Forall (λ p, wf p ∧ like d p ∧ meta_info p = meta_info d) ps ∧
    nsum (len <$> ps) = r ∧ ∀ i, i < r → concat (items <$> ps) !! i = items d !! (i mod len d).
Proof.
  intros Hw Hne. revert r. induction fuel as [|fuel IH]; intros r Hr.
  { exists []. assert (r = 0) as -> by lia. split_and!; [done|constructor|done|lia]. }
  cbn [padding_protos]. destruct (Nat.eqb_spec r 0) as [->|Hr0].
  { exists []. split_and!; [done|constructor|done|lia]. }
  set (t := Nat.min r (len d)).
  destruct (slice_prefix d (Z.of_nat t) t) as (p & -> & Hwp & Hlp & Hmp & Hlen & Hit & _ & _); [done| |].
  { unfold slice_bound. destruct (Z.ltb_spec (Z.of_nat t) 0); lia. }
  cbn [mbind result_bind]. destruct (IH (r - t)) as (ps & -> & Hps & Hsum & Hcyc); [lia|].
  cbn [mbind result_bind]. exists (p :: ps). split_and!; [done|by constructor| |].
  - csimpl. rewrite Hlen. unfold nsum in *. cbn. lia.
  - intros i Hi. csimpl. destruct (decide (i < t)) as [Hit'|Hit'].
    + rewrite lookup_app_l by (rewrite items_length; lia). rewrite Hit, lookup_take_lt by done.
      rewrite Nat.mod_small by lia. done.
    + rewrite lookup_app_r by (rewrite items_length; lia). rewrite items_length, Hlen, Hcyc by lia.
      assert (t = len d) as -> by lia. f_equal.
      replace i with ((i - len d) + 1 * len d) at 2 by lia. by rewrite Nat.Div0.mod_add.
Qed.

Lemma pad_unpad_spec (size_divisor : nat) (d : DataProto A B V) :
  wf d → mergeable d → size_divisor ≠ 0 →
  ∃ p n, pad_dataproto_to_divisor size_divisor d = Ok (p, n) ∧ wf p ∧
    len p = len d + n ∧ n < size_divisor ∧ len p mod size_divisor = 0 ∧
    (∀ i, i < len p → items p !! i = items d !! (i mod len d)) ∧
    unpad_dataproto n p = Ok d.
Proof.
  intros Hw Hm Hk. unfold pad_dataproto_to_divisor. destruct (Nat.eqb_spec size_divisor 0) as [|_]; [done|].
  cbn [negb mbind result_bind]. destruct (Nat.eqb_spec (len d mod size_divisor) 0) as [E|E].
  { exists d, 0. split_and!; [done|done|lia|lia|done| |done]. intros i Hi. by rewrite Nat.mod_small. }
  assert (Hne : len d ≠ 0). { intros E0. rewrite E0 in E. by rewrite Nat.Div0.mod_0_l in E. }
  set (n := size_divisor - len d mod size_divisor).
  pose proof (Nat.mod_upper_bound (len d) size_divisor Hk) as Hub.
  destruct (padding_protos_cycle d n n Hw Hne) as (ps & Hps & Hall & Hsum & Hcyc); [done|]. rewrite Hps.
  cbn [mbind result_bind].
  assert (Hwl : Forall wf (d :: ps)) by (constructor; [done|]; eapply Forall_impl; [exact Hall|]; naive_solver).
  destruct (concat_same_meta d ps) as (p & -> & Hlike & Hmeta & Hwf & Hlen & Hit & Ht & Hn);
    [done|eapply Forall_impl; [exact Hall|]; naive_solver|done|eapply Forall_impl; [exact Hall|]; naive_solver|].
  cbn [mbind result_bind]. exists p, n.
  assert (Hlp : len p = len d + n) by (rewrite Hlen; csimpl; unfold nsum in *; cbn; lia).
  split_and!; [done|done|done|lia| | |].
  - rewrite Hlp. unfold n. pose proof (Nat.div_mod_eq (len d) size_divisor) as Ed.
    replace (len d + (size_divisor - len d mod size_divisor)) with ((len d / size_divisor + 1) * size_divisor) by lia.
    apply Nat.Div0.mod_mul.
  - intros i Hi. rewrite Hit. csimpl. destruct (decide (i < len d)) as [Hd|Hd].
    + by rewrite lookup_app_l, Nat.mod_small by (rewrite ?items_length; lia).
    + rewrite lookup_app_r by (rewrite items_length; lia). rewrite items_length, Hcyc by lia.
      f_equal. replace i with ((i - len d) + 1 * len d) at 2 by lia. by rewrite Nat.Div0.mod_add.
  - unfold unpad_dataproto. destruct (Nat.eqb_spec n 0) as [|Hn0]; [lia|].
    destruct (slice_prefix p (- Z.of_nat n) (len d)) as (q & -> & Hwq & Hlq & Hmq & Hlenq & _ & Etq & Enq); [done| |].
    { unfold slice_bound. destruct (Z.ltb_spec (- Z.of_nat n) 0); lia. }
    f_equal. pose proof Hw as (Hrt & Hrn & _). destruct Hlike as (L1 & L2 & L3), Hlq as (L4 & L5 & L6).
    apply same_columns; [done| |congruence|done| |].
    + split; [congruence|split; [congruence|tauto]].
    + intros k l Hl. rewrite Etq, (dget_fmap (gather (seq 0 (len d)))), Ht by (apply dget_is_Some; by eexists).
      cbn. f_equal. unfold column. csimpl. rewrite Hl. cbn [concat]. pose proof (rows_of_dget _ _ _ _ Hrt Hl) as Hll.
      rewrite gather_prefix by (rewrite length_app; lia). by apply take_app_length'.
    + intros k l Hl. rewrite Enq, (dget_fmap (gather (seq 0 (len d)))), Hn by (apply dget_is_Some; by eexists).
      cbn. f_equal. unfold column. csimpl. rewrite Hl. cbn [concat]. pose proof (rows_of_dget _ _ _ _ Hrn Hl) as Hll.
      rewrite gather_prefix by (rewrite length_app; lia). by apply take_app_length'.
Qed.

(** [pad_dataproto_to_divisor] returns data of a length that the divisor divides, fewer than
    a divisor longer, whose items repeat those of the data cyclically, and [unpad_dataproto] of
    it with the returned size is the data itself (meta information without metrics included). *)
Theorem pad_unpad_roundtrip (size_divisor : nat) (d : DataProto A B V) :
  wf d → mergeable d → size_divisor ≠ 0 →
  ∃ p n, pad_dataproto_to_divisor size_divisor d = Ok (p, n) ∧ wf p ∧
    len p = len d + n ∧ n < size_divisor ∧ len p mod size_divisor = 0 ∧
    (∀ i, i < len p → items p !! i = items d !! (i mod len d)) ∧
    unpad_dataproto n p = Ok d.
Proof. apply pad_unpad_spec. Qed.
End padding_roundtrip.

Lemma pad_unpad_roundtrip_witness : ∃ p, pad_dataproto_to_divisor 8 example_proto = Ok (p, 5) ∧ len p = 8 ∧
  unpad_dataproto 5 p = Ok example_proto.
Proof.
  destruct (pad_unpad_roundtrip 8 example_proto example_wf
    ltac:(split; [repeat constructor; set_solver|set_solver]) ltac:(lia)) as (p & n & H1 & _ & Hl & Hn & Hmod & _ & H2).
  assert (En : n = 5).
  { rewrite Hl in Hmod. cbn [len example_proto batch bsz] in *. do 8 (destruct n as [|n]; [done|]). lia. }
  subst n. exists p. split; [exact H1|]. split; [rewrite Hl; reflexivity|exact H2].
Defined.
