(* ===== verification/Dispatch.v ===== *)
(** * Dispatching a call over a worker group: [src/verl/single_controller/base/decorator.py]

    With the call path of [src/verl/single_controller/ray/base.py] ([func_generator],
    [execute_all]), the rank registry of [src/verl/single_controller/base/worker.py] and
    [parallel_put] of [src/verl/utils/ray_utils.py].  The driver's DataProto objects live in a
    store, since automatic padding changes them in place; what travels to and from a worker is
    a value.  Calls are blocking: futures and the other batch types (TensorDict, BatchMeta) are
    not modelled.  The methods of the workers are a parameter. *)

From S2P Require Import Prelude PyDict DataProto.
Local Open Scope py_scope.

(** ** The rank registry of a worker *)

Record worker := { dispatch_dp_rank : list (string * nat); collect_dp_rank : list (string * bool) }.

Definition register_dispatch_collect_info (mesh_name : string) (dp_rank : nat) (is_collect : bool) (w : worker) :
    result worker :=
  require negb (dmem mesh_name (dispatch_dp_rank w) || dmem mesh_name (collect_dp_rank w))
    else ValueError ("mesh_name " +:+ mesh_name +:+ " has been registered") ;;
  Ok {| dispatch_dp_rank := dset mesh_name dp_rank (dispatch_dp_rank w);
        collect_dp_rank := dset mesh_name is_collect (collect_dp_rank w) |}.

(** ** [parallel_put] *)

(** Results arrive in the order [completed] of the indices and are stored at their index. *)
Definition parallel_put {X} (completed : list nat) (data_list : list X) : result (list (option X)) :=
  require negb (Nat.eqb (length data_list) 0) else AssertionError "data_list must not be empty" ;;
  Ok (foldl (λ output index, <[index := data_list !! index]> output) (replicate (length data_list) None) completed).

(** ** Values, and the state of the driver *)

Section dispatch.
Context {A B V F O : Type} `{EqDecision V}.
Notation data := (DataProto A B V).

Inductive value :=
  | VNone
  | VRef (a : nat)
  | VData (d : data)
  | VInt (n : nat)
  | VFunc (f : F)
  | VObj (o : O)
  | VList (l : list value)
  | VTuple (l : list value).
Notation kwargs := (list (string * value)).

(** [VRef a] is the driver's object at place [a] of the store. *)
Record driver := {
  workers : list worker;
  dispatch_info : list (string * list nat);
  collect_info : list (string * list bool);
  store : list data }.

Definition world_size (s : driver) : nat := length (workers s).
Definition set_store (h : list data) (s : driver) : driver :=
  {| workers := workers s; dispatch_info := dispatch_info s; collect_info := collect_info s; store := h |}.
Definition set_dispatch_info (m : list (string * list nat)) (s : driver) : driver :=
  {| workers := workers s; dispatch_info := m; collect_info := collect_info s; store := store s |}.
Definition set_collect_info (m : list (string * list bool)) (s : driver) : driver :=
  {| workers := workers s; dispatch_info := dispatch_info s; collect_info := m; store := store s |}.

(** The DataProto a value is, and the elements of a list or tuple. *)
Definition load (h : list data) (v : value) : option data :=
  match v with VRef a => h !! a | VData d => Some d | _ => None end.
Definition elements (v : value) : option (list value) :=
  match v with VList l | VTuple l => Some l | _ => None end.
(** A value as a remote worker receives it. *)
Fixpoint send (h : list data) (v : value) : value :=
  match v with
  | VRef a => match h !! a with Some d => VData d | None => v end
  | VList l => VList (map (send h) l)
  | VTuple l => VTuple (map (send h) l)
  | _ => v
  end.

(** [_query_dispatch_info] and [_query_collect_info], called on all workers. *)
Definition query_dispatch_info (mesh_name : string) (s : driver) : result (list nat) :=
  mapM (λ w, of_option (AssertionError (mesh_name +:+ " is not registered")) (dget mesh_name (dispatch_dp_rank w))) (workers s).
Definition query_collect_info (mesh_name : string) (s : driver) : result (list bool) :=
  mapM (λ w, of_option (AssertionError (mesh_name +:+ " is not registered")) (dget mesh_name (collect_dp_rank w))) (workers s).

(** ** Splitting arguments *)

Section splitting.
Context (auto_padding : bool).

Definition split_value (chunks : nat) (h : list data) (v : value) : result value :=
  d ← of_option (AssertionError "arg is not chunkable") (load h v);
  ps ← chunk auto_padding chunks d;
  require Nat.eqb (length ps) chunks else AssertionError "" ;;
  Ok (VList (VData <$> ps)).
Definition split_args_kwargs_data_proto (chunks : nat) (h : list data) (args : list value) (kw : kwargs) :
    result (list value * kwargs) :=
  args ← mapM (split_value chunks h) args;
  kw ← dict_mapM (split_value chunks h) kw;
  Ok (args, kw).

(** The variables [data_proto_len], [padding_size] of [_padding_and_split_data] and the store. *)
Record pad_state := { data_proto_len : option nat; padding_size : option nat; pad_store : list data }.

Definition padding_and_split_data (chunks : nat) (st : pad_state) (v : value) : result (pad_state * value) :=
  d ← of_option (AssertionError "") (load (pad_store st) v);
  '(st, d) ← (if is_padding_enabled auto_padding d then
     require negb (Nat.eqb chunks 0) else ZeroDivisionError "integer modulo by zero" ;;
     st ← match data_proto_len st with
          | None =>
              Ok {| data_proto_len := Some (len d);
                    padding_size := Some (if Nat.ltb 0 (len d mod chunks) then chunks - len d mod chunks else 0);
                    pad_store := pad_store st |}
          | Some n =>
              require Nat.eqb n (len d) else AssertionError "expecting all arg share same length" ;; Ok st
          end;
     d ← padding (default 0 (padding_size st)) false d;
     Ok ({| data_proto_len := data_proto_len st; padding_size := padding_size st;
            pad_store := match v with VRef a => <[a := d]> (pad_store st) | _ => pad_store st end |}, d)
   else Ok (st, d));
  ps ← chunk auto_padding chunks d;
  Ok (st, VList (VData <$> ps)).

Definition padding_size_key : string := "_padding_size_key_x123d".

Definition split_step (chunks : nat) (acc : pad_state * list value) (v : value) : result (pad_state * list value) :=
  '(st, x) ← padding_and_split_data chunks acc.1 v;
  Ok (st, acc.2 ++ [x]).
Definition split_with_auto_padding (chunks : nat) (args : list value) (kw : kwargs) (s : driver) :
    result (driver * list value * kwargs) :=
  '(st, args) ← foldM (split_step chunks) ({| data_proto_len := None; padding_size := None; pad_store := store s |}, []) args;
  '(st, vals) ← foldM (split_step chunks) (st, []) kw.*2;
  let kw := zip kw.*1 vals in
  Ok (set_store (pad_store st) s, args,
      match padding_size st with Some p => dset padding_size_key (VInt p) kw | None => kw end).

(** ** Dispatch functions *)

Definition dispatch_one_to_all (args : list value) (kw : kwargs) (s : driver) : list value * kwargs :=
  ((λ v, VList (replicate (world_size s) v)) <$> args, (λ kv : string * value, (kv.1, VList (replicate (world_size s) kv.2))) <$> kw).

Definition has_length (n : nat) (v : value) : bool :=
  match elements v with Some l => Nat.eqb (length l) n | None => false end.
Definition dispatch_dp_compute (args : list value) (kw : kwargs) (s : driver) : result (list value * kwargs) :=
  require forallb (has_length (world_size s)) (args ++ kw.*2) else AssertionError "" ;; Ok (args, kw).

Definition dispatch_dp_compute_data_proto_with_func (args : list value) (kw : kwargs) (s : driver) :
    result (list value * kwargs) :=
  match args with
  | [] => Raise (IndexError "tuple index out of range")
  | VFunc f :: args =>
      '(args, kw) ← split_args_kwargs_data_proto (world_size s) (store s) args kw;
      Ok (VList (replicate (world_size s) (VFunc f)) :: args, kw)
  | _ => Raise (AssertionError "")
  end.

(** [completed l] is the order in which the items of [l] arrive in the object store. *)
Context (completed : list value → list nat).

Definition put_value (v : value) : result value :=
  l ← of_option (TypeError "object has no len()") (elements v);
  refs ← parallel_put (completed l) l;
  Ok (VList ((λ o, default VNone o) <$> refs)).
Definition to_rank (dp_rank_mapping : list nat) (dp_size : nat) (s : driver) (v : value) : result value :=
  require has_length dp_size v else AssertionError "" ;;
  l ← of_option (TypeError "object is not subscriptable") (elements v);
  transformed ← mapM (λ i, r ← of_option (IndexError "list index out of range") (dp_rank_mapping !! i);
                           of_option (IndexError "list index out of range") (l !! r)) (seq 0 (world_size s));
  Ok (VList transformed).
Definition dispatch_nd_compute (dp_rank_mapping : list nat) (dp_size : nat) (args : list value) (kw : kwargs) (s : driver) :
    result (list value * kwargs) :=
  first ← of_option (IndexError "tuple index out of range") (head args);
  _ ← of_option (TypeError "object has no len()") (elements first);
  args ← mapM put_value args;
  kw ← dict_mapM put_value kw;
  args ← mapM (to_rank dp_rank_mapping dp_size s) args;
  kw ← dict_mapM (to_rank dp_rank_mapping dp_size s) kw;
  Ok (args, kw).
Definition dispatch_nd_compute_dataproto (dp_rank_mapping : list nat) (dp_size : nat) (args : list value) (kw : kwargs)
    (s : driver) : result (list value * kwargs) :=
  '(args, kw) ← split_args_kwargs_data_proto dp_size (store s) args kw;
  dispatch_nd_compute dp_rank_mapping dp_size args kw s.

Definition dispatch_lazy_compute_data_proto (mesh_name : string) (args : list value) (kw : kwargs) (s : driver) :
    result (driver * list value * kwargs) :=
  '(s, dp_rank_mapping) ← match dget mesh_name (dispatch_info s) with
    | Some m => Ok (s, m)
    | None =>
        m ← query_dispatch_info mesh_name s;
        require Nat.eqb (length m) (world_size s) else AssertionError "" ;;
        Ok (set_dispatch_info (dset mesh_name m (dispatch_info s)) s, m)
    end;
  require negb (Nat.eqb (length dp_rank_mapping) 0) else ValueError "max() arg is an empty sequence" ;;
  '(args, kw) ← dispatch_nd_compute_dataproto dp_rank_mapping (S (max_list dp_rank_mapping)) args kw s;
  Ok (s, args, kw).

(** ** Collect functions *)

(** [len(output)] of what was collected. *)
Definition py_len (v : value) : result nat :=
  match v with
  | VList l | VTuple l => Ok (length l)
  | VData d => Ok (len d)
  | _ => Raise (TypeError "object has no len()")
  end.
Definition collect_dp_compute (s : driver) (output : value) : result value :=
  n ← py_len output; require Nat.eqb n (world_size s) else AssertionError "" ;; Ok output.

Definition is_concatable (v : value) : bool :=
  match elements v with Some (VData _ :: _) => true | _ => false end.
Definition as_data (v : value) : option data := match v with VData d => Some d | _ => None end.
Definition concat_data_proto (v : value) : result value :=
  l ← of_option (AssertionError "") (elements v);
  ds ← of_option (AssertionError "") (mapM as_data l);
  d ← concat_protos ds; Ok (VData d).
Definition collect_dp_compute_data_proto (s : driver) (output : value) : result value :=
  require is_concatable output else AssertionError "expecting concatable output" ;;
  output ← collect_dp_compute s output;
  concat_data_proto output.

Definition collect_nd_compute (collect_mask : list bool) (s : driver) (output : value) : result value :=
  n ← py_len output;
  require Nat.eqb n (world_size s) else AssertionError "" ;;
  l ← of_option (TypeError "object is not subscriptable") (elements output);
  kept ← mapM (λ i, b ← of_option (IndexError "list index out of range") (collect_mask !! i);
                    if (b : bool) then v ← of_option (IndexError "list index out of range") (l !! i); Ok [v] else Ok [])
              (seq 0 (world_size s));
  Ok (VList (concat kept)).
Definition collect_nd_compute_dataproto (collect_mask : list bool) (s : driver) (output : value) : result value :=
  output ← collect_nd_compute collect_mask s output;
  require is_concatable output else AssertionError "expecting concatable output" ;;
  concat_data_proto output.
Definition collect_lazy_compute_data_proto (mesh_name : string) (s : driver) (output : value) : result (driver * value) :=
  require dmem mesh_name (dispatch_info s) else AssertionError "" ;;
  '(s, collect_mask) ← match dget mesh_name (collect_info s) with
    | Some m => Ok (s, m)
    | None =>
        m ← query_collect_info mesh_name s;
        require Nat.eqb (length m) (world_size s) else AssertionError "" ;;
        Ok (set_collect_info (dset mesh_name m (collect_info s)) s, m)
    end;
  v ← collect_nd_compute_dataproto collect_mask s output;
  Ok (s, v).

(** ** The registry of modes *)

Inductive dispatch_mode :=
  | RANK_ZERO | ONE_TO_ALL | ALL_TO_ALL | DP_COMPUTE | DP_COMPUTE_PROTO | DP_COMPUTE_PROTO_WITH_FUNC
  | DP_COMPUTE_METRIC | DIRECT_ROLLOUT_METHOD
  | ND_COMPUTE (mesh_name : string).
Inductive execute_mode := EXECUTE_ALL | EXECUTE_RANK_ZERO.

Definition dispatch_fn (mode : dispatch_mode) (args : list value) (kw : kwargs) (s : driver) :
    result (driver * list value * kwargs) :=
  let pure r := '(args, kw) ← r; Ok (s, args, kw) in
  match mode with
  | RANK_ZERO => Raise (KeyError "Dispatch.RANK_ZERO")
  | ONE_TO_ALL => pure (Ok (dispatch_one_to_all args kw s))
  | ALL_TO_ALL => pure (Ok (args, kw))
  | DP_COMPUTE => pure (dispatch_dp_compute args kw s)
  | DP_COMPUTE_PROTO | DP_COMPUTE_METRIC => split_with_auto_padding (world_size s) args kw s
  | DP_COMPUTE_PROTO_WITH_FUNC => pure (dispatch_dp_compute_data_proto_with_func args kw s)
  | DIRECT_ROLLOUT_METHOD => Raise (NotImplementedError "Direct rollout call is forbidden.")
  | ND_COMPUTE mesh_name => dispatch_lazy_compute_data_proto mesh_name args kw s
  end.
Definition collect_fn (mode : dispatch_mode) (s : driver) (output : value) : result (driver * value) :=
  let pure r := v ← r; Ok (s, v) in
  match mode with
  | RANK_ZERO => Raise (KeyError "Dispatch.RANK_ZERO")
  | ONE_TO_ALL | ALL_TO_ALL => Ok (s, output)
  | DP_COMPUTE | DP_COMPUTE_METRIC => pure (collect_dp_compute s output)
  | DP_COMPUTE_PROTO | DP_COMPUTE_PROTO_WITH_FUNC => pure (collect_dp_compute_data_proto s output)
  | DIRECT_ROLLOUT_METHOD => Raise (NotImplementedError "Direct rollout call is forbidden.")
  | ND_COMPUTE mesh_name => collect_lazy_compute_data_proto mesh_name s output
  end.

(** ** Calling a method of the group *)

(** What the method does on the worker of a rank. *)
Context (call : nat → list value → kwargs → result value).

Definition is_list (v : value) : bool := match v with VList _ => true | _ => false end.
Definition nth_value (v : value) (i : nat) : option value := l ← elements v; l !! i.
Definition execute_all (args : list value) (kw : kwargs) (s : driver) : result value :=
  let n := world_size s in
  if forallb (λ v, is_list v && has_length n v) (args ++ kw.*2) then
    outs ← mapM (λ i,
      let args := omap (λ v, nth_value v i) args in
      let kw := omap (λ kv : string * value, (λ x, (kv.1, x)) <$> nth_value kv.2 i) kw in
      call i (send (store s) <$> args) ((λ kv : string * value, (kv.1, send (store s) kv.2)) <$> kw)) (seq 0 n);
    Ok (VList outs)
  else
    outs ← mapM (λ i, call i (send (store s) <$> args) ((λ kv : string * value, (kv.1, send (store s) kv.2)) <$> kw)) (seq 0 n);
    Ok (VList outs).
Definition execute_rank_zero (args : list value) (kw : kwargs) (s : driver) : result value :=
  require negb (Nat.eqb (world_size s) 0) else IndexError "list index out of range" ;;
  call 0 (send (store s) <$> args) ((λ kv : string * value, (kv.1, send (store s) kv.2)) <$> kw).
Definition execute_fn (mode : execute_mode) : list value → kwargs → driver → result value :=
  match mode with EXECUTE_ALL => execute_all | EXECUTE_RANK_ZERO => execute_rank_zero end.

(** [output[:-padding_count]], or [select_idxs] of the same indices. *)
Definition drop_padding (padding_count : nat) (output : value) : result value :=
  if Nat.eqb padding_count 0 then Ok output else
  let prefix {X} (l : list X) := zslice 0 (- Z.of_nat padding_count) l in
  match output with
  | VData d => d ← select_idxs (Ints (Z.of_nat <$> prefix (seq 0 (len d)))) d; Ok (VData d)
  | VList l => Ok (VList (prefix l))
  | v => Ok v
  end.

(** [Functor.__call__] of [func_generator]. *)
Definition call_method (mode : dispatch_mode) (exec : execute_mode) (args : list value) (kw : kwargs) (s : driver) :
    result (driver * value) :=
  '(s, args, kw) ← dispatch_fn mode args kw s;
  let padding_count := match dget padding_size_key kw with Some (VInt n) => n | _ => 0 end in
  output ← execute_fn exec args (ddel padding_size_key kw) s;
  '(s, output) ← collect_fn mode s output;
  output ← drop_padding padding_count output;
  Ok (s, output).
End splitting.
End dispatch.
Arguments value : clear implicits.
Arguments driver : clear implicits.

(** ** [parallel_put] does not depend on the order of completion *)

Lemma fill_lookup {X} (l : list X) c out i :
  length out = length l → Forall (λ j, j < length l) c →
  foldl (λ output index, <[index := l !! index]> output) out c !! i = if bool_decide (i ∈ c) then Some (l !! i) else out !! i.
Proof.
  revert out. induction c as [|j c IH]; intros out Ho Hc; cbn [foldl].
  - by rewrite bool_decide_eq_false_2 by set_solver.
  - apply Forall_cons in Hc as [Hj Hc]. rewrite IH by (rewrite ?length_insert; done).
    destruct (decide (i ∈ c)) as [Hi|Hi].
    + by rewrite !bool_decide_eq_true_2 by set_solver.
    + rewrite (bool_decide_eq_false_2 (i ∈ c)) by done. destruct (decide (i = j)) as [->|Hij].
      * rewrite bool_decide_eq_true_2 by set_solver. apply list_lookup_insert_eq. lia.
      * rewrite bool_decide_eq_false_2 by set_solver. by apply list_lookup_insert_ne.
Qed.

Lemma parallel_put_in_order {X} completed (l : list X) :
  completed ≡ₚ seq 0 (length l) → l ≠ [] → parallel_put completed l = Ok (Some <$> l).
Proof.
  intros Hc Hl. unfold parallel_put. destruct l as [|x l]; [done|]. cbn [length Nat.eqb negb mbind result_bind]. f_equal.
  set (l' := x :: l) in *. apply list_eq. intros i. rewrite fill_lookup.
  - rewrite list_lookup_fmap. destruct (decide (i < length l')) as [Hi|Hi].
    + rewrite bool_decide_eq_true_2 by (rewrite Hc; apply elem_of_seq; lia).
      destruct (lookup_lt_is_Some_2 l' i Hi) as [y ->]. done.
    + rewrite bool_decide_eq_false_2 by (rewrite Hc, elem_of_seq; lia).
      assert (Hn : length l' ≤ i) by lia. rewrite (lookup_ge_None_2 l' i Hn). by apply lookup_replicate_None.
  - by rewrite length_replicate.
  - rewrite Hc. apply Forall_seq. lia.
Qed.

(** ** Generic lemmas *)

Lemma max_list_le (l : list nat) n : Forall (λ i, i < n) l → n - 1 ∈ l → S (max_list l) = n.
Proof.
  intros Hl Hin. assert (H1 : Forall (λ i, i ≤ n - 1) l) by (eapply Forall_impl; [exact Hl|]; intros; cbn in *; lia).
  assert (Hn : n ≠ 0) by (intros ->; rewrite Forall_forall in Hl; by apply Hl in Hin; lia).
  assert (max_list l ≤ n - 1) by (clear -H1; induction H1; cbn; lia).
  apply max_list_elem_of_le in Hin. lia.
Qed.

(** The data-parallel ranks of the workers that are collected, in the order of the workers. *)
Definition collected {X} (mask : list bool) (l : list X) : list X := (List.filter (λ p : bool * X, p.1) (zip mask l)).*2.

Lemma collected_cons {X} b mask (x : X) l : collected (b :: mask) (x :: l) = (if b then [x] else []) ++ collected mask l.
Proof. unfold collected. cbn. by destruct b. Qed.
Lemma collected_agree {X Y} (h : X → Y) mask (l : list X) (k : list Y) :
  length l = length k → (∀ i x y, mask !! i = Some true → l !! i = Some x → k !! i = Some y → y = h x) →
  collected mask k = h <$> collected mask l.
Proof.
  revert l k. induction mask as [|b mask IH]; intros [|x l] [|y k] Hlen H; try done.
  rewrite !collected_cons, fmap_app. f_equal.
  - destruct b; [|done]. cbn. by rewrite (H 0 x y).
  - apply IH; [by injection Hlen|]. intros i x' y' Hm Hx Hy. by apply (H (S i)).
Qed.
Lemma concat_collected {X} mask (l : list X) :
  concat (zip_with (λ (b : bool) x, if b then [x] else []) mask l) = collected mask l.
Proof. revert l. induction mask as [|b mask IH]; intros [|x l]; try done. rewrite collected_cons. cbn. by rewrite IH. Qed.

(** ** Workers that compute row by row *)

Section rowwise.
Context {A B V F O : Type} `{EqDecision V}.
Notation data := (DataProto A B V).
Notation value := (value A B V F O).
Notation drv := (driver A B V).
Notation item := (list (string * option A) * list (string * option B))%type.

(** What a worker method promises to the dispatcher: on data with the fields of [src] it returns
    data with the fields and the meta information of [tmpl], whose items are the images of the
    input's items under [g].  This is the interface of the log-probability, value, reference and
    reward computations. *)
Class RowWise (f : data → result data) (src tmpl : data) (g : item → item) : Prop := {
  rw_template : mergeable tmpl;
  rw_run p : wf p → like src p → meta_info p = meta_info src → len p ≠ 0 →
    ∃ q, f p = Ok q ∧ wf q ∧ like tmpl q ∧ meta_info q = meta_info tmpl ∧ items q = g <$> items p }.

Context (f : data → result data) (src tmpl : data) (g : item → item) {RowWise0 : RowWise f src tmpl g}.

Definition valid_piece (p : data) : Prop := wf p ∧ like src p ∧ meta_info p = meta_info src ∧ len p ≠ 0.

(** Running the method on all pieces and concatenating maps [g] over their items. *)
Lemma run_concat ps :
  ps ≠ [] → Forall valid_piece ps →
  ∃ qs out, mapM f ps = Ok qs ∧ length qs = length ps ∧ concat_protos qs = Ok out ∧ wf out ∧
    items out = g <$> concat (items <$> ps).
Proof using Type RowWise0.
  intros Hne Hps. destruct (mapM_total f (λ p q, wf q ∧ like tmpl q ∧ meta_info q = meta_info tmpl ∧ items q = g <$> items p) ps)
    as (qs & Hqs & Hf).
  { intros p Hp. rewrite Forall_forall in Hps. destruct (Hps p Hp) as (? & ? & ? & ?). by apply rw_run. }
  destruct Hf as [|p0 q0 ps qs (Hw & Hl & Hm & Hi) Hf]; [done|].
  assert (Hall : Forall (λ q, wf q ∧ like tmpl q ∧ meta_info q = meta_info tmpl) qs).
  { eapply Forall2_Forall_r; [exact Hf|]. apply Forall_true. naive_solver. }
  destruct (concat_same_meta q0 qs) as (out & Hout & _ & _ & Hwf & _ & Hit & _).
  - constructor; [done|]. eapply Forall_impl; [exact Hall|]. naive_solver.
  - eapply Forall_impl; [exact Hall|]. intros q (_ & (H1 & H2 & H3) & _). destruct Hl as (L1 & L2 & L3).
    unfold like. rewrite H1, H2, L1, L2. split_and!; tauto.
  - pose proof rw_template as Ht. unfold mergeable in *. by rewrite Hm.
  - eapply Forall_impl; [exact Hall|]. cbn. intros q (_ & _ & ->). done.
  - exists (q0 :: qs), out. split_and!; [done| |done|done|].
    + cbn. f_equal. symmetry. by eapply Forall2_length.
    + rewrite Hit. csimpl. rewrite fmap_app, Hi. f_equal. clear -Hf. induction Hf as [|p q ps qs (_ & _ & _ & Hi) Hf IH]; [done|].
      csimpl. by rewrite fmap_app, Hi, IH.
Qed.

(** ** Executing on all workers *)

Context (call : nat → list value → list (string * value) → result value).

(** The method runs everywhere; the workers that are collected return the result of [f]. *)
Definition runs_on (mask : list bool) (n : nat) : Prop :=
  ∀ r p, r < n → valid_piece p →
    ∃ v, call r [VData p : value] [] = Ok v ∧ (mask !! r = Some true → ∃ q, f p = Ok q ∧ v = VData q).

Definition pick (ds : list data) (j : nat) : value := match ds !! j with Some d => VData d | None => VNone end.
Definition shards (ps : list data) (mapping : list nat) : value := VList (pick ps <$> mapping).

Lemma execute_one v (s : drv) outs :
  is_list v && has_length (world_size s) v = true →
  mapM (λ i, call i (send (store s) <$> omap (λ v, nth_value v i) [v]) []) (seq 0 (world_size s)) = Ok outs →
  execute_all call [v] [] s = Ok (VList outs).
Proof using Type.
  intros Hv Ho. unfold execute_all. cbn [app fmap list_fmap omap list_omap forallb] in *. by rewrite Hv, Ho.
Qed.

Lemma execute_shards ps qs mapping mask (s : drv) :
  Forall valid_piece ps → mapM f ps = Ok qs → length mapping = world_size s →
  Forall (λ j, j < length ps) mapping → runs_on mask (world_size s) →
  ∃ outs, execute_all call [shards ps mapping] [] s = Ok (VList outs) ∧ length outs = world_size s ∧
    collected mask outs = pick qs <$> collected mask mapping.
Proof using All.
  intros Hps Hqs Hlen Hmap Hrun. apply mapM_Ok_Forall2 in Hqs.
  destruct (mapM_total (λ i, call i (send (store s) <$> omap (λ v, nth_value v i) [shards ps mapping]) [])
    (λ i v, ∀ j, mapping !! i = Some j → mask !! i = Some true → v = pick qs j)
    (seq 0 (world_size s))) as (outs & Ho & Hf).
  { intros i Hi%elem_of_seq. destruct (lookup_lt_is_Some_2 mapping i) as [j Hj]; [lia|].
    assert (Hjl : j < length ps) by (by eapply (Forall_lookup_1 (λ j, j < length ps))).
    destruct (lookup_lt_is_Some_2 ps j Hjl) as [p Hp].
    assert (E : nth_value (shards ps mapping) i = Some (VData p)).
    { unfold nth_value, shards. cbn [elements mbind option_bind]. rewrite list_lookup_fmap, Hj. cbn. unfold pick. by rewrite Hp. }
    cbn [omap list_omap]. rewrite E. csimpl. destruct (Hrun i p) as (v & Hv & Hm); [lia|by eapply (Forall_lookup_1 valid_piece)|].
    exists v. split; [exact Hv|]. intros j' Hj' Hmi. destruct (Hm Hmi) as (q & Hq & ->).
    replace j' with j by congruence. destruct (Forall2_lookup_l _ _ _ _ _ Hqs Hp) as (q' & Hq' & Hfq).
    unfold pick. rewrite Hq'. congruence. }
  exists outs. split; [|split].
  - assert (Hl : has_length (world_size s) (shards ps mapping) = true).
    { unfold has_length, shards. cbn [elements]. by rewrite length_fmap, Hlen, Nat.eqb_refl. }
    apply execute_one; [by rewrite Hl|exact Ho].
  - apply Forall2_length in Hf. by rewrite length_seq in Hf.
  - apply (collected_agree (pick qs)).
    + apply Forall2_length in Hf. rewrite length_seq in Hf. by rewrite Hlen.
    + intros i j v Hm Hj Hv. destruct (Forall2_lookup_r _ _ _ _ _ Hf Hv) as (i' & Hi & Hp).
      apply lookup_seq in Hi as [-> _]. by apply Hp.
Qed.

Lemma pick_all (ds : list data) : pick ds <$> seq 0 (length ds) = VData <$> ds.
Proof using Type.
  apply list_eq. intros i. rewrite !list_lookup_fmap. unfold pick. destruct (decide (i < length ds)) as [Hi|Hi].
  - rewrite lookup_seq_lt by done. cbn. by destruct (lookup_lt_is_Some_2 ds i Hi) as [x ->].
  - rewrite lookup_seq_ge by lia. by rewrite lookup_ge_None_2 by lia.
Qed.

(** The collected outputs, concatenated. *)
Lemma concat_outputs qs out :
  mapM as_data (VData <$> qs : list value) = Some qs ∧
  (concat_protos qs = Ok out → qs ≠ [] →
   is_concatable (VList (VData <$> qs) : value) = true ∧ concat_data_proto (VList (VData <$> qs) : value) = Ok (VData out)).
Proof using Type.
  assert (E : mapM as_data (VData <$> qs : list value) = Some qs) by (by apply mapM_fmap_Some).
  split; [done|]. intros Hc Hne. split; [by destruct qs|]. unfold concat_data_proto. cbn [elements of_option mbind result_bind].
  rewrite E. cbn [of_option mbind result_bind]. by rewrite Hc.
Qed.
End rowwise.

(** ** Splitting, dispatching over a mesh, collecting *)

Section nd_compute.
Context {A B V F O : Type} `{EqDecision V}.
Notation data := (DataProto A B V).
Notation value := (value A B V F O).
Notation drv := (driver A B V).
Implicit Types (d : data) (s : drv).

Lemma chunk_valid auto_padding c d :
  wf d → c ≠ 0 → len d ≠ 0 → len d mod c = 0 →
  ∃ ps, chunk auto_padding c d = Ok ps ∧ length ps = c ∧ Forall (valid_piece d) ps ∧ concat (items <$> ps) = items d ∧
    Forall (λ p, len p = len d / c) ps.
Proof.
  intros Hw Hc Hl E. pose proof (Nat.div_mod_eq (len d) c) as Ed. rewrite E, Nat.add_0_r in Ed.
  set (m := len d / c) in *. assert (Hm0 : m ≠ 0) by nia.
  assert (Hpiece : ∀ i, i < c → wf (piece c m i d) ∧ len (piece c m i d) = m).
  { intros i Hi. destruct (piece_wf c m i d Hw Ed) as [Hp Hpl]; [lia|lia|]. split; [done|]. apply Hpl.
    unfold len in Hl. destruct (batch d); [by left|]. right. by destruct (non_tensor_batch d). }
  exists ((λ i, piece c m i d) <$> seq 0 c). split_and!.
  - by apply chunk_pieces.
  - by rewrite length_fmap, length_seq.
  - apply Forall_fmap, Forall_forall. intros i Hi%elem_of_seq. unfold compose. destruct (Hpiece i) as [Hp Hpl]; [lia|].
    split_and!; [done|apply piece_like|done|by rewrite Hpl].
  - set (d0 := {| batch := batch d; non_tensor_batch := non_tensor_batch d; meta_info := [] |} : data).
    destruct (concat_pieces c m d0) as [_ Hi]; [done| |done|done|done|].
    { split; [constructor|]. split; [set_solver|]. intros kv Hkv. set_solver. }
    change (items d) with (items d0). rewrite Hi, <-!list_fmap_compose. done.
  - apply Forall_fmap, Forall_forall. intros i Hi%elem_of_seq. unfold compose. destruct (Hpiece i) as [_ Hpl]; [lia|]. exact Hpl.
Qed.

Lemma chunk_refused auto_padding c d :
  c ≠ 0 → len d mod c ≠ 0 → is_padding_enabled auto_padding d = false →
  chunk auto_padding c d = Raise (AssertionError "only support equal chunk.").
Proof.
  intros Hc E Hp. unfold chunk. rewrite Hp. destruct (Nat.eqb_spec c 0); [done|].
  by destruct (Nat.eqb_spec (len d mod c) 0).
Qed.

Lemma split_ref auto_padding c (h : list data) a d ps :
  h !! a = Some d → chunk auto_padding c d = Ok ps → length ps = c →
  split_args_kwargs_data_proto auto_padding c h [VRef a : value] [] = Ok ([VList (VData <$> ps)], []).
Proof.
  intros Ha Hc Hl. unfold split_args_kwargs_data_proto, split_value. cbn [mapM load]. rewrite Ha.
  cbn [of_option mbind result_bind]. rewrite Hc. cbn [mbind result_bind]. by rewrite Hl, Nat.eqb_refl.
Qed.

Context (completed : list value → list nat) (Hcompleted : ∀ l, completed l ≡ₚ seq 0 (length l)).

Lemma put_list (l : list value) : l ≠ [] → put_value completed (VList l) = Ok (VList l).
Proof using Hcompleted.
  intros Hl. unfold put_value. cbn [elements of_option mbind result_bind].
  rewrite (parallel_put_in_order (completed l) l (Hcompleted l) Hl). cbn [mbind result_bind]. do 2 f_equal.
  rewrite <-list_fmap_compose. rewrite (list_fmap_ext _ id l) by done. by rewrite list_fmap_id.
Qed.

Lemma to_rank_shards mapping s (ps : list data) :
  length mapping = world_size s → Forall (λ j, j < length ps) mapping →
  to_rank mapping (length ps) s (VList (VData <$> ps) : value) = Ok (shards ps mapping).
Proof using Type.
  intros Hlen Hmap. unfold to_rank, has_length. cbn [elements of_option mbind result_bind].
  rewrite length_fmap, Nat.eqb_refl. cbn [mbind result_bind].
  rewrite (mapM_Ok_map _ (λ i, match mapping !! i with Some j => pick ps j | None => VNone end)).
  - cbn [mbind result_bind]. unfold shards. do 2 f_equal. rewrite <-Hlen. apply list_eq. intros i. rewrite !list_lookup_fmap.
    destruct (decide (i < length mapping)) as [Hi|Hi].
    + rewrite lookup_seq_lt by done. cbn. by destruct (lookup_lt_is_Some_2 mapping i Hi) as [j ->].
    + rewrite lookup_seq_ge by lia. by rewrite lookup_ge_None_2 by lia.
  - intros i Hi%elem_of_seq. destruct (lookup_lt_is_Some_2 mapping i) as [j Hj]; [lia|]. rewrite Hj.
    cbn [of_option mbind result_bind]. assert (Hjl : j < length ps) by (by eapply (Forall_lookup_1 (λ j, j < length ps))).
    destruct (lookup_lt_is_Some_2 ps j Hjl) as [p Hp]. unfold pick. rewrite list_lookup_fmap, Hp. done.
Qed.

Lemma nd_dispatch auto_padding s a d ps mapping :
  store s !! a = Some d → chunk auto_padding (length ps) d = Ok ps → ps ≠ [] →
  length mapping = world_size s → Forall (λ j, j < length ps) mapping →
  dispatch_nd_compute_dataproto auto_padding completed mapping (length ps) [VRef a : value] [] s =
    Ok ([shards ps mapping], []).
Proof using Hcompleted.
  intros Ha Hc Hne Hlen Hmap. unfold dispatch_nd_compute_dataproto. rewrite (split_ref _ _ _ _ d ps) by done.
  cbn [mbind result_bind]. unfold dispatch_nd_compute. cbn [head of_option mbind result_bind elements mapM].
  rewrite put_list by (by destruct ps). cbn [mbind result_bind]. unfold dict_mapM. cbn [mapM mbind result_bind mret result_ret].
  rewrite to_rank_shards by done. done.
Qed.

Lemma nd_collect mask s (outs : list value) qs out :
  length mask = world_size s → length outs = world_size s → collected mask outs = VData <$> qs → qs ≠ [] →
  concat_protos qs = Ok out → collect_nd_compute_dataproto mask s (VList outs) = Ok (VData out).
Proof using Type.
  intros Hm Ho Hc Hne Hout. unfold collect_nd_compute_dataproto, collect_nd_compute.
  cbn [py_len mbind result_bind elements of_option]. rewrite Ho, Nat.eqb_refl.
  rewrite (mapM_Ok_map _ (λ i, match mask !! i, outs !! i with Some true, Some v => [v] | _, _ => [] end)).
  - cbn [mbind result_bind].
    assert (E : ((λ i, match mask !! i, outs !! i with Some true, Some v => [v] | _, _ => [] end) <$> seq 0 (world_size s)) =
                zip_with (λ (b : bool) x, if b then [x] else []) mask outs).
    { apply list_eq. intros i. rewrite list_lookup_fmap, lookup_zip_with. destruct (decide (i < world_size s)) as [Hi|Hi].
      - rewrite lookup_seq_lt by done. destruct (lookup_lt_is_Some_2 mask i) as [b Hb]; [lia|].
        destruct (lookup_lt_is_Some_2 outs i) as [v Hv]; [lia|]. cbn. rewrite Hb, Hv. by destruct b.
      - rewrite lookup_seq_ge by lia. rewrite (lookup_ge_None_2 mask) by lia. done. }
    rewrite E, concat_collected, Hc. destruct (concat_outputs (F := F) (O := O) qs out) as [_ H]. destruct (H Hout Hne) as [-> ->]. done.
  - intros i Hi%elem_of_seq. destruct (lookup_lt_is_Some_2 mask i) as [b Hb]; [lia|].
    destruct (lookup_lt_is_Some_2 outs i) as [v Hv]; [lia|]. rewrite Hb, Hv. cbn. by destruct b.
Qed.
End nd_compute.

(** ** A call over a mesh maps the worker's function over the batch *)

Section mesh.
Context {A B V F O : Type} `{EqDecision V}.
Notation data := (DataProto A B V).
Notation value := (value A B V F O).
Notation drv := (driver A B V).
Implicit Types (d : data) (s : drv).

(** What the workers of a group registered under a mesh name: the data-parallel rank of every
    worker, and one collected worker for every rank, in the order of the ranks.  A cached answer
    is the registered one. *)
Record mesh_ok (s : drv) (mesh_name : string) (mapping : list nat) (mask : list bool) (dp_size : nat) : Prop := {
  mesh_dispatch : query_dispatch_info mesh_name s = Ok mapping;
  mesh_collect : query_collect_info mesh_name s = Ok mask;
  mesh_dispatch_cached m : dget mesh_name (dispatch_info s) = Some m → m = mapping;
  mesh_collect_cached m : dget mesh_name (collect_info s) = Some m → m = mask;
  mesh_ranks : collected mask mapping = seq 0 dp_size;
  mesh_ranks_lt : Forall (λ j, j < dp_size) mapping;
  mesh_nonempty : dp_size ≠ 0 }.

Context (auto_padding : bool) (completed : list value → list nat).
Context (call : nat → list value → list (string * value) → result value).

Lemma mesh_lengths s mesh_name mapping mask dp :
  mesh_ok s mesh_name mapping mask dp → length mapping = world_size s ∧ length mask = world_size s ∧ S (max_list mapping) = dp.
Proof using Type.
  intros [Hd Hc _ _ Hr Hlt Hne]. apply mapM_Ok_length in Hd, Hc. split_and!; [done|done|].
  apply max_list_le; [done|]. assert (Hin : dp - 1 ∈ collected mask mapping) by (rewrite Hr; apply elem_of_seq; lia).
  unfold collected in Hin. apply list_elem_of_fmap in Hin as ([b j] & Hj & Hin). cbn in Hj. subst j.
  apply list_elem_of_In, List.filter_In in Hin as [Hin _]. by apply list_elem_of_In, elem_of_zip_r in Hin.
Qed.

(** Asking for the ranks and for the mask keeps everything but the cache. *)
Lemma lazy_dispatch s mesh_name mapping mask dp args kw :
  mesh_ok s mesh_name mapping mask dp →
  ∃ s', mesh_ok s' mesh_name mapping mask dp ∧ store s' = store s ∧ workers s' = workers s ∧
    dmem mesh_name (dispatch_info s') = true ∧
    dispatch_lazy_compute_data_proto auto_padding completed mesh_name args kw s =
      ('(args, kw) ← dispatch_nd_compute_dataproto auto_padding completed mapping dp args kw s'; Ok (s', args, kw)).
Proof using Type.
  intros Hok. destruct (mesh_lengths _ _ _ _ _ Hok) as (Hl & _ & Hmax). pose proof Hok as [Hd Hc Hdc Hcc Hr Hlt Hne].
  assert (Hl0 : Nat.eqb (length mapping) 0 = false).
  { apply Nat.eqb_neq. intros E. destruct mapping; [|done]. apply (f_equal length) in Hr. rewrite length_seq in Hr. unfold collected in Hr. destruct mask; cbn in Hr; lia. }
  unfold dispatch_lazy_compute_data_proto. destruct (dget mesh_name (dispatch_info s)) as [m|] eqn:Em.
  - exists s. rewrite (Hdc m eq_refl). split_and!; [exact Hok|done|done|unfold dmem; by rewrite Em|].
    cbn [mbind result_bind]. rewrite Hl0. cbn [negb mbind result_bind]. by rewrite Hmax.
  - exists (set_dispatch_info (dset mesh_name mapping (dispatch_info s)) s). rewrite Hd. cbn [mbind result_bind].
    rewrite Hl, Nat.eqb_refl. cbn [mbind result_bind]. rewrite Hl in Hl0. rewrite Hl, Hl0. cbn [negb mbind result_bind]. rewrite Hmax.
    split_and!; [|done|done| |done].
    + split; try done. intros m. cbn. rewrite dget_dset, bool_decide_eq_true_2 by done. congruence.
    + unfold dmem. cbn. by rewrite dget_dset, bool_decide_eq_true_2.
Qed.

Lemma lazy_collect s mesh_name mapping mask dp (output : value) :
  mesh_ok s mesh_name mapping mask dp → dmem mesh_name (dispatch_info s) = true →
  ∃ s', mesh_ok s' mesh_name mapping mask dp ∧ store s' = store s ∧ workers s' = workers s ∧
    collect_lazy_compute_data_proto mesh_name s output =
      (v ← collect_nd_compute_dataproto mask s' output; Ok (s', v)).
Proof using Type.
  intros Hok Hm. destruct (mesh_lengths _ _ _ _ _ Hok) as (_ & Hl & _). pose proof Hok as [Hd Hc Hdc Hcc Hr Hlt Hne].
  unfold collect_lazy_compute_data_proto. rewrite Hm. cbn [mbind result_bind].
  destruct (dget mesh_name (collect_info s)) as [m|] eqn:Em.
  - exists s. rewrite (Hcc m eq_refl). split_and!; [exact Hok|done|done|done].
  - exists (set_collect_info (dset mesh_name mask (collect_info s)) s). rewrite Hc. cbn [mbind result_bind].
    rewrite Hl, Nat.eqb_refl. cbn [mbind result_bind]. split_and!; [|done|done|done].
    split; try done. intros m. cbn. rewrite dget_dset, bool_decide_eq_true_2 by done. congruence.
Qed.

Context (f : data → result data) (tmpl : data)
  (g : list (string * option A) * list (string * option B) → list (string * option A) * list (string * option B)).

(** C5: calling a row-wise method over a mesh of workers computes that function on the batch.
    When the data-parallel size divides the batch, the call returns well-formed data whose items
    are the images of the batch's items, in order, whatever the order in which chunks reach the
    object store and whether the ranks were already cached; tensor-parallel copies of a rank see
    the same chunk and are not collected twice; the driver's objects are unchanged.  Otherwise
    the call fails (unless padding is enabled). *)
Theorem nd_compute_is_map d s a mesh_name mapping mask dp_size :
  RowWise f d tmpl g → (∀ l, completed l ≡ₚ seq 0 (length l)) →
  mesh_ok s mesh_name mapping mask dp_size → store s !! a = Some d → wf d → len d ≠ 0 →
  runs_on f d call mask (world_size s) →
  if Nat.eqb (len d mod dp_size) 0 then
    ∃ s' out, call_method auto_padding completed call (ND_COMPUTE mesh_name) EXECUTE_ALL [VRef a] [] s = Ok (s', VData out) ∧
      wf out ∧ items out = g <$> items d ∧ store s' = store s ∧ mesh_ok s' mesh_name mapping mask dp_size
  else is_padding_enabled auto_padding d = false →
    call_method auto_padding completed call (ND_COMPUTE mesh_name) EXECUTE_ALL [VRef a] [] s =
      Raise (AssertionError "only support equal chunk.").
Proof using Type.
  intros Hrow Hcomp Hok Ha Hw Hl Hrun. destruct (lazy_dispatch s mesh_name mapping mask dp_size [VRef a] [] Hok)
    as (s1 & Hok1 & Hs1 & Hw1 & Hmem & Hdisp). pose proof (mesh_nonempty _ _ _ _ _ Hok) as Hdp.
  unfold call_method. cbn [dispatch_fn]. rewrite Hdisp. destruct (Nat.eqb_spec (len d mod dp_size) 0) as [E|E].
  - destruct (chunk_valid auto_padding dp_size d Hw Hdp Hl E) as (ps & Hc & Hlp & Hps & Hit & _). subst dp_size.
    destruct (run_concat f d tmpl g ps) as (qs & out & Hqs & Hlq & Hout & Hwo & Hio); [by destruct ps|done|].
    destruct (mesh_lengths _ _ _ _ _ Hok1) as (Hl1 & Hl2 & _).
    assert (Hws : world_size s1 = world_size s) by (unfold world_size; by rewrite Hw1).
    destruct (execute_shards f d tmpl g call ps qs mapping mask s1) as (outs & Hex & Hlo & Hcol);
      [done|done|done|apply (mesh_ranks_lt _ _ _ _ _ Hok1)|by rewrite Hws|].
    rewrite (mesh_ranks _ _ _ _ _ Hok1), <-Hlq, pick_all in Hcol.
    rewrite (nd_dispatch completed Hcomp auto_padding s1 a d ps mapping);
      [|by rewrite Hs1|done|by destruct ps|done|apply (mesh_ranks_lt _ _ _ _ _ Hok1)].
    cbn [mbind result_bind dget ddel execute_fn]. rewrite Hex. cbn [mbind result_bind collect_fn].
    destruct (lazy_collect s1 mesh_name mapping mask (length ps) (VList outs) Hok1 Hmem) as (s2 & Hok2 & Hs2 & Hw2 & ->).
    assert (Hws2 : world_size s2 = world_size s1) by (unfold world_size; by rewrite Hw2).
    rewrite (nd_collect mask s2 outs qs out) by (rewrite ?Hws2; done || by destruct qs, ps).
    cbn [mbind result_bind drop_padding Nat.eqb]. exists s2, out. split_and!; [done|done|by rewrite Hio, Hit|by rewrite Hs2, Hs1|done].
  - intros Hp. unfold dispatch_nd_compute_dataproto, split_args_kwargs_data_proto. cbn [mapM].
    unfold split_value. cbn [load]. rewrite Hs1, Ha. cbn [of_option mbind result_bind].
    by rewrite chunk_refused.
Qed.
End mesh.

(** ** Automatic padding *)

Section auto_padding.
Context {A B V F O : Type} `{EqDecision V}.
Notation data := (DataProto A B V).
Notation value := (value A B V F O).
Notation drv := (driver A B V).
Implicit Types (d : data) (s : drv).

(** A row operation keeps the fields. *)
Lemma gather_like f (n : nat → nat) d idx :
  wf d → gathers f (len d) idx → Forall (λ i, i < len d) idx → n (len d) = length idx →
  ∃ p, apply_rows f n d = Ok p ∧ wf p ∧ like d p ∧ meta_info p = meta_info d ∧ len p = length idx ∧
    items p = gather idx (items d).
Proof.
  intros Hw Hg Hi Hn. destruct (apply_rows_gather f n d idx Hw Hg Hi Hn) as (p & Hp & Hwp & Hl & Hit & Kt & Kn & Hm & Hb & _ & _).
  exists p. split_and!; [done|done| |done|done|done]. split_and!; [done|done|tauto].
Qed.

Lemma padding_last d k x :
  wf d → mergeable d → k ≠ 0 → last (items d) = Some x →
  ∃ p, padding k false d = Ok p ∧ wf p ∧ like d p ∧ meta_info p = meta_info d ∧ len p = len d + k ∧
    items p = items d ++ replicate k x.
Proof.
  intros Hw Hm Hk Hx. rewrite last_lookup, items_length in Hx. pose proof (lookup_lt_Some _ _ _ Hx) as Hlt.
  rewrite items_length in Hlt. unfold padding. destruct (Nat.eqb_spec k 0); [done|].
  assert (Hres : mapM (resolve (len d)) [(Z.of_nat (len d) - 1)%Z] = Some [Nat.pred (len d)]).
  { cbn. unfold resolve. destruct (Z.leb_spec (- Z.of_nat (len d)) (Z.of_nat (len d) - 1)); [|lia].
    destruct (Z.ltb_spec (Z.of_nat (len d) - 1) (Z.of_nat (len d))); [|lia]. cbn.
    destruct (Z.ltb_spec (Z.of_nat (len d) - 1) 0); [lia|]. do 2 f_equal. lia. }
  destruct (gather_like (index_rows (Ints [(Z.of_nat (len d) - 1)%Z])) (λ _, 1) d [Nat.pred (len d)]) as
    (c & Hc & Hwc & (C1 & C2 & C3) & Hmc & Hlc & Hic); [done|by apply gathers_ints|by constructor|done|].
  unfold select_idxs at 1. cbn [index_size length]. rewrite Hc. cbn [mbind result_bind].
  destruct (gather_like (repeat_rows k true) (λ n, n * k) c (repeat_list k true (seq 0 (len c)))) as
    (r & Hr & Hwr & (R1 & R2 & R3) & Hmr & Hlr & Hir);
    [done|apply gathers_repeat| |by rewrite length_repeat_list, length_seq|].
  { apply Forall_forall. intros i Hi%repeat_list_elem%elem_of_seq. lia. }
  unfold repeat_proto. rewrite Hr. cbn [mbind result_bind].
  destruct (concat_same_meta d [r]) as (q & Hq & Hlq & Hmq & Hwq & Hlenq & Hiq & _ & _);
    [apply Forall_cons; split; [done|by apply Forall_singleton]| |done|apply Forall_singleton; congruence|].
  { constructor; [|constructor]. split_and!; [congruence|congruence|tauto]. }
  rewrite Hq. cbn [mbind result_bind]. eexists. split; [reflexivity|]. split_and!; [exact Hwq|exact Hlq|done| |].
  - change (len q = len d + k). rewrite Hlenq. csimpl. unfold nsum. cbn. rewrite Hlr, length_repeat_list, length_seq, Hlc. cbn. lia.
  - change (items q = items d ++ replicate k x). rewrite Hiq. csimpl. rewrite app_nil_r. f_equal. rewrite Hir.
    unfold gather at 1. rewrite repeat_list_omap. change (omap _ (seq 0 (len c))) with (gather (seq 0 (len c)) (items c)).
    rewrite gather_items_seq, Hic. cbn. rewrite Hx. cbn. by rewrite app_nil_r.
Qed.

Lemma resolve_nats n idx : Forall (λ i, i < n) idx → mapM (resolve n) (Z.of_nat <$> idx) = Some idx.
Proof.
  intros H. apply mapM_Some, Forall2_fmap_l, Forall_Forall2_diag. eapply Forall_impl; [exact H|]. cbn. intros i Hi. unfold compose, resolve.
  destruct (Z.leb_spec (- Z.of_nat n) (Z.of_nat i)); [|lia]. destruct (Z.ltb_spec (Z.of_nat i) (Z.of_nat n)); [|lia].
  cbn [andb]. destruct (Z.ltb_spec (Z.of_nat i) 0); [lia|]. by rewrite Nat2Z.id.
Qed.

Lemma drop_padding_items d k :
  wf d → k ≠ 0 → k ≤ len d →
  ∃ p, drop_padding k (VData d : value) = Ok (VData p) ∧ wf p ∧ items p = take (len d - k) (items d).
Proof.
  intros Hw Hk Hle. unfold drop_padding. destruct (Nat.eqb_spec k 0); [done|].
  assert (E : zslice 0 (- Z.of_nat k) (seq 0 (len d)) = seq 0 (len d - k)).
  { unfold zslice, slice, slice_bound. rewrite length_seq. destruct (Z.ltb_spec (- Z.of_nat k) 0); [|lia].
    change (Z.ltb 0 0) with false. cbn match. change (Z.to_nat 0) with 0. rewrite Nat.min_0_l, drop_0.
    replace (Z.to_nat (Z.of_nat (len d) + - Z.of_nat k) - 0) with (len d - k) by lia.
    rewrite take_seq. f_equal. lia. }
  rewrite E.
  assert (Hres : mapM (resolve (len d)) (Z.of_nat <$> seq 0 (len d - k)) = Some (seq 0 (len d - k))).
  { apply resolve_nats, Forall_seq. lia. }
  destruct (select_acts d _ _ Hw Hres) as (p & -> & Hwp & Hit). exists p. split; [done|]. split; [done|].
  rewrite Hit. apply gather_prefix. rewrite items_length. lia.
Qed.
End auto_padding.

Section dp_compute.
Context {A B V F O : Type} `{EqDecision V}.
Notation data := (DataProto A B V).
Notation value := (value A B V F O).
Notation drv := (driver A B V).
Implicit Types (d : data) (s : drv).
Context (auto_padding : bool) (completed : list value → list nat).
Context (call : nat → list value → list (string * value) → result value).
Context (f : data → result data) (d tmpl : data)
  (g : list (string * option A) * list (string * option B) → list (string * option A) * list (string * option B)).
Context {Hrow : RowWise f d tmpl g}.

(** The rows that [_padding_and_split_data] adds. *)
Definition missing (n chunks : nat) : nat := if Nat.ltb 0 (n mod chunks) then chunks - n mod chunks else 0.
Lemma missing_spec n chunks : chunks ≠ 0 → missing n chunks < chunks ∧ (n + missing n chunks) mod chunks = 0.
Proof using Type.
  intros Hc. unfold missing. pose proof (Nat.mod_upper_bound n chunks Hc). pose proof (Nat.div_mod_eq n chunks) as Ed.
  destruct (Nat.ltb_spec 0 (n mod chunks)).
  - split; [lia|]. replace (n + (chunks - n mod chunks)) with ((n / chunks + 1) * chunks) by lia. apply Nat.Div0.mod_mul.
  - split; [lia|]. rewrite Nat.add_0_r. lia.
Qed.

(** The chunks of padded data, run on the workers one each and collected. *)
Lemma run_chunks s p :
  wf p → like d p → meta_info p = meta_info d → len p ≠ 0 → world_size s ≠ 0 → len p mod world_size s = 0 →
  runs_on f d call (replicate (world_size s) true) (world_size s) →
  ∃ ps outs out, chunk auto_padding (world_size s) p = Ok ps ∧ execute_all call [VList (VData <$> ps)] [] s = Ok (VList outs) ∧
    collect_dp_compute_data_proto s (VList outs) = Ok (VData out) ∧ wf out ∧ items out = g <$> items p.
Proof using Hrow.
  intros Hw (P1 & P2 & P3) Hm Hl Hws E Hrun.
  destruct (chunk_valid auto_padding (world_size s) p Hw Hws Hl E) as (ps & Hc & Hlp & Hps & Hit & _).
  assert (Hps' : Forall (valid_piece d) ps).
  { eapply Forall_impl; [exact Hps|]. intros q (Q1 & (Q2 & Q3 & Q4) & Q5 & Q6). unfold valid_piece, like.
    rewrite Q2, Q3, Q5, P1, P2. split_and!; tauto. }
  destruct (run_concat f d tmpl g ps) as (qs & out & Hqs & Hlq & Hout & Hwo & Hio); [by destruct ps|done|].
  destruct (execute_shards f d tmpl g call ps qs (seq 0 (world_size s)) (replicate (world_size s) true) s) as (outs & Hex & Hlo & Hcol);
    [done|done|by rewrite length_seq|apply Forall_seq; lia|done|].
  assert (Hid : ∀ X (l : list X), length l = world_size s → collected (replicate (world_size s) true) l = l).
  { intros X l <-. induction l as [|x l IH]; [done|]. cbn [length replicate]. rewrite collected_cons, IH. done. }
  rewrite !Hid in Hcol by (rewrite ?length_seq; done). rewrite <-Hlp, <-Hlq, pick_all in Hcol.
  unfold shards in Hex. rewrite <-Hlp, pick_all in Hex. exists ps, outs, out. split_and!; [done|done| |done|by rewrite Hio, Hit].
  unfold collect_dp_compute_data_proto, collect_dp_compute. destruct (concat_outputs (F := F) (O := O) qs out) as [_ H].
  rewrite Hcol in *. destruct (H Hout) as [-> Hcat]; [by destruct qs, ps|]. cbn [mbind result_bind py_len].
  rewrite length_fmap, Hlq, Hlp, Nat.eqb_refl. exact Hcat.
Qed.

Lemma padded s x :
  wf d → mergeable d → world_size s ≠ 0 → last (items d) = Some x →
  ∃ p, padding (missing (len d) (world_size s)) false d = Ok p ∧ wf p ∧ like d p ∧ meta_info p = meta_info d ∧
    len p = len d + missing (len d) (world_size s) ∧ items p = items d ++ replicate (missing (len d) (world_size s)) x.
Proof using Type.
  intros Hw Hm Hws Hx. destruct (decide (missing (len d) (world_size s) = 0)) as [E|E].
  - rewrite E. exists d. cbn [replicate]. split_and!; [done|done| |done|lia|by rewrite app_nil_r]. by split_and!.
  - by apply padding_last.
Qed.

(** With automatic padding, calling a row-wise method over all workers computes that function
    on the batch for every batch size: rows that repeat the last item fill the batch up to a
    multiple of the number of workers, and their results are removed from the output.  The
    driver's own batch is left with the added rows. *)
Theorem dp_compute_auto_padding s a x :
  mergeable d → wf d → last (items d) = Some x → store s !! a = Some d → world_size s ≠ 0 →
  is_padding_enabled auto_padding d = true → runs_on f d call (replicate (world_size s) true) (world_size s) →
  ∃ s' out p, call_method auto_padding completed call DP_COMPUTE_PROTO EXECUTE_ALL [VRef a] [] s = Ok (s', VData out) ∧
    wf out ∧ items out = g <$> items d ∧ store s' = <[a := p]> (store s) ∧
    len p mod world_size s = 0 ∧ len p < len d + world_size s ∧
    items p = items d ++ replicate (len p - len d) x.
Proof using Hrow.
  intros Hm Hw Hx Ha Hws Hpad Hrun. destruct (padded s x Hw Hm Hws Hx) as (p & Hp & Hwp & Hlike & Hmp & Hlp & Hip).
  destruct (missing_spec (len d) (world_size s) Hws) as [Hlt Hmod]. set (k := missing (len d) (world_size s)) in *.
  assert (Hl : len d ≠ 0). { intros E. rewrite last_lookup, items_length in Hx. apply lookup_lt_Some in Hx. rewrite items_length in Hx. lia. }
  set (s' := set_store (<[a := p]> (store s)) s).
  destruct (run_chunks s' p Hwp Hlike Hmp) as (ps & outs & out & Hc & Hex & Hcol & Hwo & Hio); [lia|done|by rewrite Hlp|done|].
  assert (Hdisp : dispatch_fn auto_padding completed DP_COMPUTE_PROTO [VRef a : value] [] s =
    Ok (s', [VList (VData <$> ps)], [(padding_size_key, VInt k)])).
  { assert (Hstep : split_step auto_padding (world_size s)
        ({| data_proto_len := None; padding_size := None; pad_store := store s |}, []) (VRef a : value) =
        Ok ({| data_proto_len := Some (len d); padding_size := Some k; pad_store := <[a := p]> (store s) |}, [VList (VData <$> ps)])).
    { unfold split_step, padding_and_split_data. cbn [fst snd load pad_store]. rewrite Ha. cbn [of_option mbind result_bind].
      rewrite Hpad. destruct (Nat.eqb_spec (world_size s) 0); [done|]. cbn [negb mbind result_bind data_proto_len padding_size].
      fold (missing (len d) (world_size s)). fold k. cbn [pad_store]. change (default 0 (Some k)) with k. rewrite Hp. cbn [mbind result_bind].
      change (world_size s') with (world_size s) in Hc. rewrite Hc. done. }
    cbn [dispatch_fn]. unfold split_with_auto_padding. cbn [foldM]. rewrite Hstep. done. }
  unfold call_method. rewrite Hdisp. cbn [mbind result_bind execute_fn]. cbn [dget ddel].
  rewrite bool_decide_eq_true_2 by done. cbn [fst snd]. rewrite Hex. cbn [mbind result_bind collect_fn]. rewrite Hcol.
  cbn [mbind result_bind]. assert (Hlo : len out = len p) by (rewrite <-!items_length, Hio; by rewrite length_fmap).
  
  assert (Hip' : items p = items d ++ replicate (len p - len d) x) by (rewrite Hip; do 2 f_equal; lia).
  destruct (decide (k = 0)) as [E|E].
  - exists s', out, p. rewrite E in *. split_and!; [done|done| |done|by rewrite Hlp|lia|done].
    by rewrite Hio, Hip, app_nil_r.
  - destruct (drop_padding_items (F := F) (O := O) out k Hwo E) as (q & -> & Hwq & Hiq); [lia|].
    exists s', q, p. split_and!; [done|done| |done|by rewrite Hlp|lia|done].
    rewrite Hiq, Hio, Hip, Hlo, Hlp, fmap_app. apply take_app_length'. rewrite length_fmap, items_length. lia.
Qed.
End dp_compute.

(** ** A group of six workers: three data-parallel ranks of two tensor-parallel workers *)

Notation item := (list (string * option nat) * list (string * option string))%type.

Definition example_run (p : DataProto nat string nat) : result (DataProto nat string nat) :=
  Ok {| batch := (λ td, {| bsz := bsz td; tensors := [("values"%string, S <$> default [] (dget "ids" (tensors td)))] |}) <$> batch p;
        non_tensor_batch := []; meta_info := [] |}.
Definition example_row (i : item) : item := ([("values"%string, S <$> default None (dget "ids" i.1))], []).
Definition example_out : DataProto nat string nat :=
  {| batch := Some {| bsz := 0; tensors := [("values"%string, [])] |}; non_tensor_batch := []; meta_info := [] |}.

#[export] Instance example_row_wise : RowWise example_run example_proto example_out example_row.
Proof.
  split.
  - split; [constructor|]. split; [set_solver|]. intros kv Hkv. set_solver.
  - intros p (Ht & _) (Kt & _ & Hb) _ _. destruct p as [[td|] nt m]; [|by destruct Hb as [Hb _]; specialize (Hb eq_refl)].
    destruct td as [n ts]. unfold tensors_of in *. cbn in *.
    destruct ts as [|[k l] [|? ?]]; try done. unfold keys in Kt. cbn in Kt. injection Kt as ->.
    unfold rows_of in Ht. rewrite Forall_singleton in Ht. cbn in Ht.
    unfold example_run. cbn [batch fmap option_fmap option_map tensors bsz]. change (default [] (dget "ids" [("ids"%string, l)])) with l.
    eexists. split; [reflexivity|]. split_and!; try done.
    + unfold wf, rows_of, tensors_of, len. cbn. rewrite Forall_singleton. cbn. rewrite length_fmap.
      split_and!; [exact Ht|constructor|apply NoDup_singleton|constructor].
    + unfold items, len. cbn. rewrite <-list_fmap_compose. apply list_fmap_ext. intros j i _.
      unfold item_at, example_row, row_at, tensors_of. cbn. by rewrite list_lookup_fmap.
Qed.

Definition example_value := value nat string nat unit unit.
(** Rank [r] runs [example_run]; tensor-parallel copies return nothing. *)
Definition example_call (copies : nat) (r : nat) (args : list example_value) (_ : list (string * example_value)) :
    result example_value :=
  match args with
  | [VData p] => if Nat.eqb (r mod copies) 0 then q ← example_run p; Ok (VData q) else Ok VNone
  | _ => Raise (TypeError "missing argument")
  end.
Definition example_driver (dp copies : nat) : driver nat string nat := {|
  workers := (λ r, {| dispatch_dp_rank := [("actor"%string, r / copies)];
                      collect_dp_rank := [("actor"%string, Nat.eqb (r mod copies) 0)] |}) <$> seq 0 (dp * copies);
  dispatch_info := []; collect_info := []; store := [example_proto] |}.

Lemma example_runs_on copies mask n :
  (∀ r, mask !! r = Some true → Nat.eqb (r mod copies) 0 = true) →
  runs_on example_run example_proto (example_call copies) mask n.
Proof.
  intros H r p Hr _. unfold example_call. destruct (Nat.eqb (r mod copies) 0) eqn:E.
  - eexists. split; [reflexivity|]. intros _. by eexists.
  - exists VNone. split; [done|]. intros Hm%H. congruence.
Qed.

Definition backwards (l : list example_value) : list nat := rev (seq 0 (length l)).
Lemma backwards_perm l : backwards l ≡ₚ seq 0 (length l).
Proof. unfold backwards. by rewrite <-Permutation_rev. Qed.

Definition example_mask : list bool := [true; false; true; false; true; false].
Lemma example_mask_even r : example_mask !! r = Some true → Nat.eqb (r mod 2) 0 = true.
Proof. intros H. do 6 (destruct r as [|r]; [done|]). done. Qed.

Lemma nd_compute_is_map_witness :
  ∃ s' out, call_method false backwards (example_call 2) (ND_COMPUTE "actor") EXECUTE_ALL [VRef 0] [] (example_driver 3 2) =
    Ok (s', VData out) ∧ items out = example_row <$> items example_proto.
Proof.
  assert (Hok : mesh_ok (example_driver 3 2) "actor" [0; 0; 1; 1; 2; 2] example_mask 3).
  { split; try done. by repeat (constructor; [lia|]). }
  pose proof (nd_compute_is_map false backwards (example_call 2) example_run example_out example_row example_proto
    (example_driver 3 2) 0 "actor" [0; 0; 1; 1; 2; 2] example_mask 3 _ backwards_perm Hok eq_refl example_wf
    ltac:(done) (example_runs_on 2 example_mask 6 example_mask_even)) as H.
  change (Nat.eqb (len example_proto mod 3) 0) with true in H. cbn beta iota in H.
  destruct H as (s' & out & H1 & _ & H2 & _). by exists s', out.
Defined.

Lemma dp_compute_auto_padding_witness :
  ∃ s' out, call_method true backwards (example_call 1) DP_COMPUTE_PROTO EXECUTE_ALL [VRef 0] [] (example_driver 2 1) =
    Ok (s', VData out) ∧ items out = example_row <$> items example_proto.
Proof.
  destruct (dp_compute_auto_padding true backwards (example_call 1) example_run example_proto example_out example_row
    (example_driver 2 1) 0 ([("ids"%string, Some 12)], [("uid"%string, Some "c"%string)])) as (s' & out & p & H1 & _ & H2 & _);
    [split; [repeat constructor; set_solver|set_solver]|apply example_wf|done|done|done|done| |by exists s', out].
  apply example_runs_on. intros r _. by rewrite Nat.mod_1_r.
Defined.

(** Padding changes the driver's batch: the same call again no longer finds rows to remove. *)
Example auto_padding_second_call :
  (let call s := call_method true backwards (example_call 1) DP_COMPUTE_PROTO EXECUTE_ALL [VRef 0] [] s in
   '(s, v1) ← call (example_driver 2 1); '(_, v2) ← call s; n1 ← py_len v1; n2 ← py_len v2; Ok (n1, n2)) = Ok (3, 4).
Proof. vm_compute. reflexivity. Qed.
