(* ===== verification/Balance.v ===== *)
(** * Balancing a batch over data-parallel ranks: [src/verl/trainer/ppo/ray_trainer.py]

    [_get_dp_size] and [_balance_batch]: the batch is reordered in place so that the chunks
    that the dispatcher will cut give every rank a partition of about the same work.  The row
    sums of the attention mask and the uids are parameters of the rows and of the elements. *)

From S2P Require Import Prelude PyDict SeqlenBalancing DataProto Dispatch.
Local Open Scope py_scope.

Section balance.
Context {A B V U : Type} `{EqDecision V, EqDecision U}.
Notation data := (DataProto A B V).
(** [attention_mask.view(batch_size, -1).sum(-1)] of one row, and the uid of an element. *)
Context (mask_sum : A → Z) (uid_of : B → U).

(** The ranks registered for a role; the answer is cached in the worker group. *)
Definition get_dp_size (role : string) (s : driver A B V) : result (driver A B V * nat) :=
  '(s, dp_rank_mapping) ← match dget role (dispatch_info s) with
    | Some m => Ok (s, m)
    | None => m ← query_dispatch_info role s; Ok (set_dispatch_info (dset role m (dispatch_info s)) s, m)
    end;
  require negb (Nat.eqb (length dp_rank_mapping) 0) else ValueError "max() arg is an empty sequence" ;;
  Ok (s, S (max_list_with id dp_rank_mapping)).

Definition workload_lt (workload : list Z) (x y : nat) : bool :=
  seqlen_lt (nth x workload 0%Z, x) (nth y workload 0%Z, y).
(** Small samples at both ends: [partition[::2] + partition[1::2][::-1]] of the sorted partition. *)
Definition ends_first (workload : list Z) (partition : list nat) : list nat :=
  let l := sort_by (workload_lt workload) partition in every_other l ++ reverse (every_other (drop 1 l)).

(** One mini-batch after the other; samples after the last full mini-batch are in no partition. *)
Definition minibatch_partitions (workload : list Z) (minibatch_size dp_size : nat) : result (list (list nat)) :=
  require negb (Nat.eqb minibatch_size 0) else ZeroDivisionError "integer division or modulo by zero" ;;
  foldM (λ global i,
      parts ← get_seqlen_balanced_partitions (slice (i * minibatch_size) ((i + 1) * minibatch_size) workload) dp_size true;
      Ok (zip_with (λ l part, l ++ ((λ x, x + minibatch_size * i) <$> part)) global parts))
    (replicate dp_size []) (seq 0 (length workload / minibatch_size)).

Record balance_options := { use_prefix_grouper : bool; keep_minibatch : bool; ppo_mini_batch_size : nat }.

Definition global_partitions (o : balance_options) (dp_size : nat) (seqlens : list Z) (nt : list (string * list B)) :
    result (list (list nat)) :=
  let workload := calculate_workload <$> seqlens in
  if use_prefix_grouper o && dmem "uid" nt then
    uids ← ditem "uid" nt;
    let uids := uid_of <$> uids in
    require negb (Nat.eqb dp_size 0) else ZeroDivisionError "integer modulo by zero" ;;
    require Nat.eqb (length (remove_dups uids) mod dp_size) 0
      else ValueError "PrefixGrouper with balance_batch requires num_uid_groups % dp_size == 0" ;;
    get_group_balanced_partitions seqlens uids dp_size
  else if keep_minibatch o then minibatch_partitions workload (ppo_mini_batch_size o) dp_size
  else get_seqlen_balanced_partitions workload dp_size true.

Definition balance_batch (o : balance_options) (dp_size : nat) (d : data) : result (data * unbalance_metrics) :=
  td ← of_option (TypeError "'NoneType' object is not subscriptable") (batch d);
  attention_mask ← ditem "attention_mask" (tensors td);
  let seqlens := mask_sum <$> attention_mask in
  partitions ← global_partitions o dp_size seqlens (non_tensor_batch d);
  let partitions :=
    if use_prefix_grouper o then partitions else ends_first (calculate_workload <$> seqlens) <$> partitions in
  d ← reorder (Z.of_nat <$> concat partitions) d;
  stats ← log_seqlen_unbalance seqlens partitions;
  Ok (d, stats).
End balance.

(** ** Lemmas *)

Lemma ends_first_perm workload p : ends_first workload p ≡ₚ p.
Proof. unfold ends_first. rewrite reverse_Permutation, every_other_perm. apply sort_by_perm. Qed.

(** Lists of lists of the same lengths with the same concatenation are equal. *)
Lemma concat_lengths_inj {X} (l k : list (list X)) : length <$> l = length <$> k → concat l = concat k → l = k.
Proof.
  revert k. induction l as [|x l IH]; intros [|y k] Hl Hc; try done. csimpl in Hl. injection Hl as Hxy Hl.
  cbn in Hc. apply app_inj_1 in Hc as [-> Hc]; [|done]. f_equal. by apply IH.
Qed.

Lemma all_replicate {X} n (x : X) l : length l = n → Forall (λ y, y = x) l → l = replicate n x.
Proof. intros Hl H. symmetry. apply replicate_as_Forall. split; [done|]. eapply Forall_impl; [exact H|]. by intros y ->. Qed.

Lemma gather_concat {X} (ls : list (list nat)) (l : list X) : gather (concat ls) l = concat ((λ i, gather i l) <$> ls).
Proof. induction ls as [|i ls IH]; [done|]. cbn [concat fmap list_fmap]. by rewrite gather_app, IH. Qed.

Lemma gather_perm {X} (idx : list nat) (l : list X) : idx ≡ₚ seq 0 (length l) → gather idx l ≡ₚ l.
Proof. intros H. rewrite <-(gather_seq l) at 2. unfold gather. by rewrite H. Qed.

(** The statistics of partitions of the batch are always computed. *)
Lemma unbalance_logged seqlens ps :
  ps ≠ [] → length ps ≤ length seqlens → Forall (λ i, i < length seqlens) (concat ps) →
  is_ok (log_seqlen_unbalance seqlens ps) = true.
Proof.
  intros Hne Hle Hin. unfold log_seqlen_unbalance. destruct (Nat.eqb_spec (length ps) 0) as [E|E]; [by destruct ps|].
  cbn [negb mbind result_bind].
  assert (Hb : length seqlens / length ps ≠ 0). { pose proof (Nat.div_str_pos (length seqlens) (length ps)). lia. }
  destruct (Nat.eqb_spec (length seqlens / length ps) 0); [done|]. cbn [negb mbind result_bind].
  assert (Hm : ∃ b, mapM (λ partition, zsum <$> mapM (nth_result seqlens) partition) ps = Ok b ∧ length b = length ps).
  { destruct (mapM_total (λ partition, zsum <$> mapM (nth_result seqlens) partition) (λ _ _, True) ps) as (b & Hb' & Hf).
    - intros p Hp. destruct (mapM_total (nth_result seqlens) (λ _ _, True) p) as (k & -> & _); [|by eexists].
      intros i Hi. unfold nth_result. rewrite Forall_forall in Hin.
      destruct (lookup_lt_is_Some_2 seqlens i) as [z ->]; [|by exists z].
      apply Hin. apply list_elem_of_In, in_concat. exists p. by split; apply list_elem_of_In.
    - exists b. split; [done|]. by apply Forall2_length in Hf. }
  destruct Hm as (b & -> & Hlb). cbn [mbind result_bind].
  destruct b as [|b0 b]; [by destruct ps|]. cbn [min_list max_list of_option mbind result_bind].
  destruct (length seqlens) as [|N] eqn:En; [destruct ps; cbn in *; lia|]. destruct seqlens as [|z zs]; [done|].
  destruct (S N / length ps) as [|m]; [done|]. cbn. done.
Qed.

Section correct.
Context {A B V U : Type} `{EqDecision V, EqDecision U}.
Notation data := (DataProto A B V).
Context (mask_sum : A → Z) (uid_of : B → U).

(** C15: without the prefix grouper and without fixed mini-batches, [_balance_batch] succeeds on a
    batch that the number of ranks divides and reorders it, losing and repeating no sample, such
    that the chunk which the dispatcher cuts for rank [i] consists exactly of the samples of
    partition [i]: the partition of the Karmarkar-Karp balancer for the workloads, in the order of
    rising workload at even and falling at odd places. *)
Theorem balance_reaches_ranks (o : balance_options) dp_size auto_padding (d : data) td mask :
  use_prefix_grouper o = false → keep_minibatch o = false →
  wf d → batch d = Some td → dget "attention_mask" (tensors td) = Some mask → Forall (λ x, 0 ≤ mask_sum x)%Z mask →
  dp_size ≠ 0 → len d ≠ 0 → len d mod dp_size = 0 →
  let workload := calculate_workload <$> (mask_sum <$> mask) in
  ∃ parts d' stats ps,
    get_seqlen_balanced_partitions workload dp_size true = Ok parts ∧
    balance_batch mask_sum uid_of o dp_size d = Ok (d', stats) ∧ wf d' ∧ items d' ≡ₚ items d ∧
    chunk auto_padding dp_size d' = Ok ps ∧
    (items <$> ps) = (λ p, gather (ends_first workload p) (items d)) <$> parts ∧ concat parts ≡ₚ seq 0 (len d).
Proof.
  intros Ho Hk Hw Hb Hmask Hpos Hdp Hl Hmod workload.
  assert (Hlm : length mask = len d).
  { destruct Hw as (Ht & _). unfold tensors_of in Ht. rewrite Hb in Ht. by eapply rows_of_dget. }
  assert (Hlw : length workload = len d) by (unfold workload; by rewrite !length_fmap).
  assert (Hle : 0 < dp_size ≤ len d).
  { split; [lia|]. pose proof (Nat.div_mod_eq (len d) dp_size). assert (len d / dp_size ≠ 0) by (intros E; rewrite E in *; lia). nia. }
  destruct (get_seqlen_balanced_partitions_ok workload dp_size true) as (parts & Hparts & Hlp & Hperm & _ & Heq).
  { by rewrite Hlw. }
  { unfold workload. apply Forall_fmap, Forall_fmap. eapply Forall_impl; [exact Hpos|]. cbn. intros x Hx. unfold compose, calculate_workload.
    rewrite Z.pow_2_r. nia. }
  { by rewrite Hlw. }
  rewrite Hlw in Hperm. set (parts' := ends_first workload <$> parts).
  assert (Hperm' : concat parts' ≡ₚ seq 0 (len d)).
  { rewrite <-Hperm. unfold parts'. clear. induction parts as [|p ps IH]; [done|]. cbn. by rewrite ends_first_perm, IH. }
  assert (Hlt : Forall (λ i, i < len d) (concat parts')) by (rewrite Hperm'; apply Forall_seq; lia).
  destruct (reorder_acts d _ _ Hw ltac:(congruence) (resolve_nats (len d) (concat parts') Hlt)) as (d' & Hd' & Hw' & Hit').
  assert (Hld' : len d' = len d).
  { rewrite <-!items_length, Hit'. rewrite gather_length by (by rewrite items_length). by rewrite Hperm', length_seq, items_length. }
  destruct (log_seqlen_unbalance (mask_sum <$> mask) parts') as [stats|e] eqn:Hstats.
  2: { exfalso. assert (H : is_ok (log_seqlen_unbalance (mask_sum <$> mask) parts') = true); [|by rewrite Hstats in H].
       assert (Hlp' : length parts' = dp_size) by (unfold parts'; by rewrite length_fmap).
       apply unbalance_logged; rewrite ?length_fmap, ?Hlm; [intros E; rewrite E in Hlp'; cbn in Hlp'; lia|lia|done]. }
  destruct (chunk_valid auto_padding dp_size d' Hw' Hdp) as (ps & Hc & Hlps & _ & Hcat & Hlens); [by rewrite Hld'..|].
  exists parts, d', stats, ps. split_and!; [done| |done| |done| |done].
  - unfold balance_batch. rewrite Hb. cbn [of_option mbind result_bind]. unfold ditem. rewrite Hmask.
    cbn [of_option mbind result_bind]. unfold global_partitions. rewrite Ho, Hk. cbn [andb]. fold workload. rewrite Hparts.
    cbn [mbind result_bind]. fold parts'. rewrite Hd'. cbn [mbind result_bind]. by rewrite Hstats.
  - rewrite Hit'. apply gather_perm. by rewrite items_length.
  - apply concat_lengths_inj.
    + rewrite <-!list_fmap_compose. transitivity (replicate dp_size (len d / dp_size)).
      * apply all_replicate; [by rewrite length_fmap|]. apply Forall_fmap.
        eapply Forall_impl; [exact Hlens|]. unfold compose. intros p Hp. by rewrite items_length, Hp, Hld'.
      * symmetry. apply all_replicate; [by rewrite length_fmap|]. apply Forall_fmap, Forall_forall.
        intros p Hp. unfold compose. rewrite gather_length.
        -- rewrite ends_first_perm. specialize (Heq eq_refl). rewrite Forall_forall in Heq. specialize (Heq p Hp).
           rewrite Hlw in Heq. pose proof (Nat.div_mod_eq (len d) dp_size). rewrite Hmod in *. nia.
        -- rewrite items_length. rewrite Forall_forall in Hlt |- *. intros i Hi. apply Hlt.
           apply list_elem_of_In, in_concat. exists (ends_first workload p). split; [|by apply list_elem_of_In].
           apply list_elem_of_In, list_elem_of_fmap. by exists p.
    + rewrite Hcat, Hit', gather_concat. unfold parts'. by rewrite <-list_fmap_compose.
Qed.
End correct.

(** ** Examples: a row of the mask stands for its sum *)

Definition example_batch (uids : list string) : DataProto Z string nat := {|
  batch := Some {| bsz := 4; tensors := [("attention_mask"%string, [5; 3; 8; 1]%Z)] |};
  non_tensor_batch := [("uid"%string, uids)]; meta_info := [] |}.
Definition example_options (prefix keep : bool) : balance_options :=
  {| use_prefix_grouper := prefix; keep_minibatch := keep; ppo_mini_batch_size := 2 |}.

Lemma balance_reaches_ranks_witness :
  ∃ parts d' stats ps,
    balance_batch id (λ u : string, u) (example_options false false) 2 (example_batch ["a"; "b"; "c"; "d"]%string) = Ok (d', stats) ∧
    chunk false 2 d' = Ok ps ∧ concat parts ≡ₚ seq 0 4 ∧
    (items <$> ps) = (λ p, gather (ends_first (calculate_workload <$> [5; 3; 8; 1]%Z) p)
                             (items (example_batch ["a"; "b"; "c"; "d"]%string))) <$> parts.
Proof.
  destruct (balance_reaches_ranks id (λ u : string, u) (example_options false false) 2 false
    (example_batch ["a"; "b"; "c"; "d"]%string) {| bsz := 4; tensors := [("attention_mask"%string, [5; 3; 8; 1]%Z)] |} [5; 3; 8; 1]%Z)
    as (parts & d' & stats & ps & _ & H1 & _ & _ & H2 & H3 & H4); try done.
  - unfold wf, rows_of. split_and!; repeat constructor; set_solver.
  - repeat (constructor; [cbn; lia|]). constructor.
  - by exists parts, d', stats, ps.
Defined.

(** The uids that every rank receives. *)
Definition rank_uids (o : balance_options) (d : DataProto Z string nat) : list (list (string * list string)) :=
  match balance_batch (λ z : Z, z) (λ u : string, u) o 2 d with
  | Ok (d, _) => match chunk false 2 d with Ok ps => map non_tensor_batch ps | Raise _ => [] end
  | Raise _ => []
  end.

(** With the prefix grouper the partitions follow the groups, but the chunks are cut at equal
    lengths: groups of one and three samples are split over the ranks. *)
Example prefix_groups_split :
  rank_uids (example_options true false) (example_batch ["a"; "b"; "b"; "b"]%string) =
    [[("uid", ["b"; "b"])]; [("uid", ["b"; "a"])]]%string.
Proof. vm_compute. reflexivity. Qed.

(** With fixed mini-batches of two (the samples [a, b] and [c, d]) the final sort by workload mixes
    them again: the first samples of the two ranks are [a] and [d]. *)
Example minibatches_mixed :
  rank_uids (example_options false true) (example_batch ["a"; "b"; "c"; "d"]%string) =
    [[("uid", ["a"; "c"])]; [("uid", ["d"; "b"])]]%string.
Proof. vm_compute. reflexivity. Qed.

(** Samples after the last full mini-batch are dropped. *)
Example minibatches_drop_rest :
  minibatch_partitions (calculate_workload <$> [5; 3; 8; 1; 9; 9; 9]%Z) 4 2 = Ok [[2; 3]; [0; 1]].
Proof. vm_compute. reflexivity. Qed.
