(* ===== verification/PyRat.v ===== *)
(** * PyRat: the float arithmetic the models share

    Floats are rationals without rounding: Python's [min], a division that
    raises, comparisons, sums. *)

From S2P Require Import Prelude.
From Stdlib Require Import QArith Lqa.
Local Close Scope Q_scope.
#[local] Open Scope py_scope.

Definition qmin (a b : Q) : Q := if Qle_bool a b then a else b.
Definition qdiv (a b : Q) : result Q :=
  if Qeq_bool b 0 then Raise (ZeroDivisionError "float division by zero") else Ok (a / b)%Q.
Definition qlt (a b : Q) : bool := negb (Qle_bool b a).

Lemma qmin_cases a b : ((a <= b)%Q ∧ qmin a b = a) ∨ ((b < a)%Q ∧ qmin a b = b).
Proof.
  unfold qmin. destruct (Qle_bool a b) eqn:E.
  - left. split; [by apply Qle_bool_iff | done].
  - right. split; [|done]. apply Qnot_le_lt. intros H%Qle_bool_iff. congruence.
Qed.

Lemma Qle_bool_false a b : Qle_bool a b = false ↔ (b < a)%Q.
Proof.
  split.
  - intros E. apply Qnot_le_lt. intros H%Qle_bool_iff. congruence.
  - intros H. apply not_true_iff_false. intros E%Qle_bool_iff. lra.
Qed.
Lemma qlt_true a b : qlt a b = true ↔ (a < b)%Q.
Proof. unfold qlt. rewrite negb_true_iff. apply Qle_bool_false. Qed.
Lemma qlt_false a b : qlt a b = false ↔ (b <= a)%Q.
Proof. unfold qlt. rewrite negb_false_iff. apply Qle_bool_iff. Qed.

Lemma qdiv_pos a r : (0 < r)%Q → qdiv a r = Ok (a / r)%Q.
Proof.
  intros H. unfold qdiv. destruct (Qeq_bool r 0) eqn:E; [|done].
  apply Qeq_bool_iff in E. lra.
Qed.

Lemma div_times a r : (0 < r)%Q → (a / r * r == a)%Q.
Proof. intros H. field. lra. Qed.

Definition qsum (l : list Q) : Q := foldr Qplus 0%Q l.
(** Python's [max] and [min]: the first of equal elements. *)
Definition qmax_of (x : Q) (l : list Q) : Q := foldl (λ m y, if qlt m y then y else m) x l.
Definition qmin_of (x : Q) (l : list Q) : Q := foldl (λ m y, if qlt y m then y else m) x l.
Definition qlen {A} (l : list A) : Q := inject_Z (Z.of_nat (length l)).
