(* ===== verification/PyRegex.v ===== *)
(** * PyRegex: scanning strings with matchers

    A regular expression of the scoring functions is a matcher: what it captures
    and how many characters it consumes at the head of a string.  [findall] and
    [sub] are the scans of [re.findall] and [re.sub]; strings are ASCII. *)

From S2P Require Import Prelude PyStr.
Local Open Scope string_scope.
#[local] Open Scope py_scope.

(** Non-overlapping matches from the left; a match consumes at least one character. *)
Fixpoint findall_skip {A} (m : string → option (A * nat)) (skip : nat) (s : string) : list A :=
  match s with
  | EmptyString => []
  | String _ s' =>
      match skip with
      | S k => findall_skip m k s'
      | 0 => match m s with
             | Some (a, n) => a :: findall_skip m (n - 1) s'
             | None => findall_skip m 0 s'
             end
      end
  end.
Definition findall {A} (m : string → option (A * nat)) (s : string) : list A := findall_skip m 0 s.

(** [re.sub]: the matcher gives the replacement. *)
Fixpoint sub_skip (m : string → option (string * nat)) (skip : nat) (s : string) : string :=
  match s with
  | EmptyString => EmptyString
  | String c s' =>
      match skip with
      | S k => sub_skip m k s'
      | 0 => match m s with
             | Some (r, n) => r ++ sub_skip m (n - 1) s'
             | None => String c (sub_skip m 0 s')
             end
      end
  end.
Definition sub (m : string → option (string * nat)) (s : string) : string := sub_skip m 0 s.

(** The longest prefix of characters that satisfy [p]. *)
Fixpoint span (p : ascii → bool) (s : string) : string :=
  match s with
  | String c s' => if p c then String c (span p s') else EmptyString
  | EmptyString => EmptyString
  end.

(** [s.split(sep)] for a non-empty separator; the fuel is the length. *)
Fixpoint split_fuel (fuel : nat) (sep s : string) : list string :=
  match fuel with
  | 0 => [s]
  | S fuel =>
      match find sep s with
      | Some n => stake n s :: split_fuel fuel sep (sdrop (n + String.length sep) s)
      | None => [s]
      end
  end.
Definition split_str (sep s : string) : list string := split_fuel (String.length s) sep s.

(** [s[-n:]] for a positive [n]. *)
Definition last_chars (n : nat) (s : string) : string := sdrop (String.length s - n) s.

Definition head_char (s : string) : result ascii :=
  match s with String c _ => Ok c | EmptyString => Raise (IndexError "string index out of range") end.

Fixpoint all_chars (p : ascii → bool) (s : string) : bool :=
  match s with EmptyString => true | String c s => p c && all_chars p s end.
Lemma findall_skip_all {A} (m : string → option (A * nat)) s : ∀ k,
  (String.length s ≤ k)%nat → findall_skip m k s = [].
Proof.
  induction s as [|c s IH]; intros k Hk; [done|]. cbn in *. destruct k as [|k]; [lia|]. apply IH. lia.
Qed.

Lemma span_stop p s c t : p c = false → (String.length (span p (s ++ String c t)) ≤ String.length s)%nat.
Proof.
  intros Hc. induction s as [|d s IH]; cbn; [by rewrite Hc|]. destruct (p d); cbn; lia.
Qed.

Lemma span_all p s : all_chars p s = true → span p s = s.
Proof.
  induction s as [|c s IH]; [done|]. cbn. intros [-> H]%andb_true_iff. by rewrite IH.
Qed.

Lemma startswith_app_long m p s :
  (String.length m ≤ String.length p)%nat → startswith m (p ++ s) = startswith m p.
Proof.
  revert p. induction m as [|c m IH]; intros p Hl; [by destruct p|].
  destruct p as [|d p]; cbn in *; [lia|]. f_equal. apply IH. lia.
Qed.

Lemma sdrop_app_le k p s : (k ≤ String.length p)%nat → sdrop k (p ++ s) = sdrop k p ++ s.
Proof. revert p. induction k as [|k IH]; intros [|c p] Hk; cbn in *; [done|done|lia|]. apply IH. lia. Qed.

Lemma last_chars_app n p s : (String.length s ≤ n)%nat → ∃ p', last_chars n (p ++ s) = p' ++ s.
Proof.
  intros Hn. unfold last_chars. rewrite length_sapp. eexists. apply sdrop_app_le. lia.
Qed.

(** ** Tags and scans *)

Lemma startswith_short c s : ∀ q t, startswith t (q ++ String c s) = true → (String.length q < String.length t)%nat →
  has_char c (sdrop (String.length q) t) = true.
Proof.
  induction q as [|e q IH]; intros [|d t] Hs Hl; cbn in *; try lia.
  - apply andb_true_iff in Hs as [Hd _]. apply bool_decide_eq_true in Hd as ->. by rewrite bool_decide_eq_true_2.
  - apply andb_true_iff in Hs as [_ Hs]. apply IH; [done | lia].
Qed.

Lemma has_char_sdrop c n s : has_char c (sdrop n s) = true → has_char c s = true.
Proof.
  revert n. induction s as [|d s IH]; intros [|n]; cbn; try done. intros Hh. apply orb_true_iff. right. by eapply IH.
Qed.

(** A tag whose first character occurs in it once does not match inside a text free
    of it, also where the text is followed by the tag's first character. *)
Lemma tag_free c m p s k :
  has_char c m = false → contains (String c m) p = false → (s = EmptyString ∨ ∃ r, s = String c r) →
  (k < String.length p)%nat → startswith (String c m) (sdrop k p ++ s) = false.
Proof.
  intros Hm Hp Hs Hk. destruct (startswith _ _) eqn:Hst; [|done]. exfalso.
  assert (Hq : contains (String c m) (sdrop k p) = false).
  { apply not_true_iff_false. intros Hc. rewrite (contains_trans _ _ p Hc) in Hp; [done|].
    apply contains_spec. exists (stake k p), EmptyString. rewrite app_nil_r_s.
    clear. revert p. induction k as [|k IH]; intros [|d p]; cbn; f_equal; auto. }
  assert (Hne : sdrop k p ≠ EmptyString).
  { clear - Hk. revert p Hk. induction k as [|k IH]; intros [|d p] Hk; cbn in *; [lia|done|lia|]. apply IH. lia. }
  destruct (sdrop k p) as [|d q]; [done|].
  destruct (decide (String.length (String c m) ≤ String.length (String d q))%nat) as [Hl|Hl].
  - rewrite startswith_app_long in Hst by done.
    assert (contains (String c m) (String d q) = true) by (simpl in *; by rewrite Hst). congruence.
  - destruct Hs as [->|[r ->]].
    + rewrite app_nil_r_s in Hst. apply startswith_spec in Hst as [r Hr]. rewrite Hr, length_sapp in Hl. lia.
    + apply startswith_short in Hst; [|lia]. cbn [String.length sdrop] in Hst.
      apply has_char_sdrop in Hst. congruence.
Qed.

Lemma find_after c m p s : has_char c m = false → contains (String c m) p = false →
  find (String c m) (p ++ String c m ++ s) = Some (String.length p).
Proof.
  intros Hm Hp.
  assert (Hf : ∀ k, (k < String.length p)%nat → startswith (String c m) (sdrop k p ++ String c m ++ s) = false).
  { intros k Hk. apply tag_free; eauto. }
  clear Hp. induction p as [|d p IH].
  - assert (Hst : startswith (String c m) (String c m ++ s) = true) by (apply startswith_spec; by exists s).
    change (EmptyString ++ String c m ++ s) with (String c m ++ s).
    revert Hst. generalize (String c m ++ s). intros u Hst. destruct u; cbn [find]; by rewrite Hst.
  - pose proof (Hf 0 ltac:(cbn; lia)) as H0. cbn [sdrop] in H0.
    change (String d p ++ String c m ++ s) with (String d (p ++ String c m ++ s)) in *.
    cbn [find]. rewrite H0, IH; [done|]. intros k Hk. apply (Hf (S k)). cbn. lia.
Qed.

Lemma findall_skip_drop {A} (m : string → option (A * nat)) k s : findall_skip m k s = findall m (sdrop k s).
Proof. revert s. induction k as [|k IH]; intros [|c s]; try done. apply IH. Qed.

Lemma sub_skip_drop m k s : sub_skip m k s = sub m (sdrop k s).
Proof. revert s. induction k as [|k IH]; intros [|c s]; try done. apply IH. Qed.

Lemma findall_text {A} (m : string → option (A * nat)) p s :
  (∀ k, (k < String.length p)%nat → m (sdrop k p ++ s) = None) → findall m (p ++ s) = findall m s.
Proof.
  induction p as [|d p IH]; intros Hm; [done|]. pose proof (Hm 0 ltac:(cbn; lia)) as H0. cbn [sdrop] in H0.
  change (String d p ++ s) with (String d (p ++ s)) in *. unfold findall in *. cbn [findall_skip]. rewrite H0.
  apply IH. intros k Hk. apply (Hm (S k)). cbn. lia.
Qed.

Lemma findall_hit {A} (m : string → option (A * nat)) c p s a :
  m (String c p ++ s) = Some (a, S (String.length p)) → findall m (String c p ++ s) = a :: findall m s.
Proof.
  intros Hm. change (String c p ++ s) with (String c (p ++ s)) in *. unfold findall at 1. cbn [findall_skip].
  rewrite Hm. f_equal. rewrite findall_skip_drop. cbn. by rewrite Nat.sub_0_r, sdrop_app.
Qed.
