(* ===== verification/RateLimiter.v ===== *)
(** * RateLimiter: the token bucket and the rate-limited reward manager

    Models src/verl/experimental/reward_loop/reward_manager/limited.py.
    [acquire] is a coroutine; what runs without interruption is the section
    under its lock, one [attempt] here.  A [system] is the bucket with the
    callers asleep between two attempts; its steps are the sections, in the
    order in which the event loop runs them, each with the clock it reads.
    Times and amounts are rationals (the code's floats without rounding). *)

From S2P Require Import Prelude PyRat.
From Stdlib Require Import QArith Lqa.
Local Close Scope Q_scope.
#[local] Open Scope py_scope.

Record bucket := { rate_limit : Q; max_tokens : Q; tokens : Q; last_update : option Q }.

(** [max_tokens or rate_limit]: both [None] and [0.0] are falsy. *)
Definition AsyncTokenBucket (rate_limit : Q) (max_tokens : option Q) : bucket :=
  let m := match max_tokens with
           | Some m => if Qeq_bool m 0 then rate_limit else m
           | None => rate_limit
           end in
  {| rate_limit := rate_limit; max_tokens := m; tokens := m; last_update := None |}.

Definition set_tokens (t : Q) (b : bucket) : bucket :=
  {| rate_limit := rate_limit b; max_tokens := max_tokens b; tokens := t; last_update := last_update b |}.
Definition set_last (t : Q) (b : bucket) : bucket :=
  {| rate_limit := rate_limit b; max_tokens := max_tokens b; tokens := tokens b; last_update := Some t |}.

Definition last_or (now : Q) (b : bucket) : Q := default now (last_update b).

(** [elapsed = now - last_update; tokens = min(max_tokens, tokens + elapsed * rate_limit)]. *)
Definition refilled (now : Q) (b : bucket) : Q :=
  qmin (max_tokens b) (tokens b + (now - last_or now b) * rate_limit b)%Q.

Definition refill (now : Q) : stateR bucket unit :=
  modify (λ b, set_tokens (refilled now b) (set_last (last_or now b) b)).

(** What a section under the lock ends with: the tokens are granted and the
    caller returns after sleeping [wait], or it sleeps [wait] and tries again. *)
Inductive outcome := Granted (wait : Q) | Retry (wait : Q).

(** A request above the capacity: debited at once, paid for by sleeping. *)
Definition acquire_large (num_tokens now : Q) : stateR bucket outcome :=
  _ ← refill now;
  tokens_needed ← gets (λ b, (num_tokens - tokens b)%Q);
  rate ← gets rate_limit;
  wait_time ← (if qlt 0 tokens_needed then lift (qdiv tokens_needed rate) else mret 0%Q);
  _ ← modify (λ b, set_last now (set_tokens (tokens b - num_tokens)%Q b));
  mret (Granted wait_time).

(** One turn of the [while True] loop. *)
Definition acquire_standard (num_tokens now : Q) : stateR bucket outcome :=
  _ ← refill now;
  _ ← modify (set_last now);
  have ← gets tokens;
  if Qle_bool num_tokens have then
    _ ← modify (λ b, set_tokens (tokens b - num_tokens)%Q b);
    mret (Granted 0%Q)
  else
    rate ← gets rate_limit;
    wait_time ← lift (qdiv (num_tokens - have)%Q rate);
    mret (Retry wait_time).

Definition attempt (num_tokens now : Q) : stateR bucket outcome := λ b,
  if qlt (max_tokens b) num_tokens then acquire_large num_tokens now b
  else acquire_standard num_tokens now b.

(** ** The callers *)

(** A caller asleep: who, how much it asked for, and until when. *)
Record sleeper := { who : nat; amount : Q; wake : Q }.
(** A call of [acquire] that has been granted: when its tokens were debited
    and when it returns. *)
Record grant := { g_who : nat; g_amount : Q; g_debit : Q; g_return : Q }.

Record system := { bkt : bucket; clock : Q; sleeping : list sleeper }.

Inductive event :=
  | Call (c : nat) (n : Q) (now : Q)     (** a coroutine enters [acquire(n)] *)
  | Resume (i : nat) (now : Q).          (** the [i]-th sleeper's sleep is over *)

Definition when (e : event) : Q := match e with Call _ _ t => t | Resume _ t => t end.

(** The caller and amount of a step: a sleeper runs no earlier than its sleep says. *)
Definition requester (s : system) (e : event) : option (nat * Q * list sleeper) :=
  match e with
  | Call c n _ => Some (c, n, sleeping s)
  | Resume i now =>
      z ← sleeping s !! i;
      if Qle_bool (wake z) now then Some (who z, amount z, delete i (sleeping s)) else None
  end.

Definition sys_step (s : system) (e : event) : option (list grant * system) :=
  let now := when e in
  if Qle_bool (clock s) now then
    match requester s e with
    | Some (c, n, others) =>
        match attempt n now (bkt s) with
        | (Ok (Granted w), b) =>
            Some ([{| g_who := c; g_amount := n; g_debit := now; g_return := (now + w)%Q |}],
                  {| bkt := b; clock := now; sleeping := others |})
        | (Ok (Retry w), b) =>
            Some ([], {| bkt := b; clock := now;
                         sleeping := others ++ [{| who := c; amount := n; wake := (now + w)%Q |}] |})
        | (Raise _, _) => None
        end
    | None => None
    end
  else None.

Fixpoint sys_run (s : system) (es : list event) : option (list grant * system) :=
  match es with
  | [] => Some ([], s)
  | e :: es =>
      match sys_step s e with
      | Some (g, s) => match sys_run s es with Some (gs, s) => Some (g ++ gs, s) | None => None end
      | None => None
      end
  end.

(** The tokens of the grants debited from [a] on that have returned by [T]. *)
Definition counted (a T : Q) (g : grant) : bool := Qle_bool a (g_debit g) && Qle_bool (g_return g) T.
Definition spent (a T : Q) (gs : list grant) : Q :=
  foldr (λ g acc, if counted a T g then g_amount g + acc else acc)%Q 0%Q gs.

(** ** What one section does *)

Definition debited (now : Q) (t : Q) (b : bucket) : bucket :=
  {| rate_limit := rate_limit b; max_tokens := max_tokens b; tokens := t; last_update := Some now |}.

(** The three ways a section ends. *)
Inductive attempt_spec (num now : Q) (b : bucket) : outcome → bucket → Prop :=
  | spec_large :
      (max_tokens b < num)%Q →
      attempt_spec num now b
        (Granted (if qlt 0 (num - refilled now b) then (num - refilled now b) / rate_limit b else 0)%Q)
        (debited now (refilled now b - num)%Q b)
  | spec_grant :
      (num <= max_tokens b)%Q → (num <= refilled now b)%Q →
      attempt_spec num now b (Granted 0%Q) (debited now (refilled now b - num)%Q b)
  | spec_retry :
      (num <= max_tokens b)%Q → (refilled now b < num)%Q →
      attempt_spec num now b (Retry ((num - refilled now b) / rate_limit b)%Q)
        (debited now (refilled now b) b).

Lemma attempt_ok num now b : (0 < rate_limit b)%Q →
  ∃ o b', attempt num now b = (Ok o, b') ∧ attempt_spec num now b o b'.
Proof.
  intros Hr. unfold attempt. destruct (qlt (max_tokens b) num) eqn:Hn.
  - apply qlt_true in Hn. eexists _, _. split; [|by apply spec_large].
    unfold acquire_large, refill, modify, gets, mbind, stateR_bind, mret, stateR_ret, lift. cbn.
    rewrite qdiv_pos by done. destruct (qlt 0 _); reflexivity.
  - apply qlt_false in Hn.
    unfold acquire_standard, refill, modify, gets, mbind, stateR_bind, mret, stateR_ret, lift. cbn.
    destruct (Qle_bool num (refilled now b)) eqn:Hg.
    + eexists _, _. split; [reflexivity|]. apply spec_grant; [done | by apply Qle_bool_iff].
    + rewrite qdiv_pos by done. eexists _, _. split; [reflexivity|].
      exact (spec_retry num now b Hn (proj1 (Qle_bool_false _ _) Hg)).
Qed.

Lemma attempt_inv num now b o b' : (0 < rate_limit b)%Q →
  attempt num now b = (Ok o, b') → attempt_spec num now b o b'.
Proof. intros Hr E. destruct (attempt_ok num now b Hr) as (? & ? & E' & H). rewrite E in E'. by simplify_eq. Qed.

Lemma attempt_spec_frame num now b o b' : attempt_spec num now b o b' →
  rate_limit b' = rate_limit b ∧ max_tokens b' = max_tokens b ∧ last_update b' = Some now.
Proof. by destruct 1. Qed.

(** The level at [x] as [x] grows. *)
Lemma refilled_le_max now b : (refilled now b <= max_tokens b)%Q.
Proof. unfold refilled. destruct (qmin_cases (max_tokens b) (tokens b + (now - last_or now b) * rate_limit b)) as [[? ->]|[? ->]]; lra. Qed.

Lemma refilled_le_line now b l : last_update b = Some l →
  (refilled now b <= tokens b + (now - l) * rate_limit b)%Q.
Proof.
  intros Hl. unfold refilled, last_or. rewrite Hl. cbn.
  destruct (qmin_cases (max_tokens b) (tokens b + (now - l) * rate_limit b)) as [[? ->]|[? ->]]; lra.
Qed.

(** ** Inversion of a step *)

Lemma sys_step_inv s e g s' : (0 < rate_limit (bkt s))%Q → sys_step s e = Some (g, s') →
  (clock s <= when e)%Q ∧ clock s' = when e ∧
  ∃ c n others, requester s e = Some (c, n, others) ∧
    ((∃ w, attempt_spec n (when e) (bkt s) (Granted w) (bkt s') ∧
           g = [{| g_who := c; g_amount := n; g_debit := when e; g_return := (when e + w)%Q |}] ∧
           sleeping s' = others) ∨
     (∃ w, attempt_spec n (when e) (bkt s) (Retry w) (bkt s') ∧ g = [] ∧
           sleeping s' = others ++ [{| who := c; amount := n; wake := (when e + w)%Q |}])).
Proof.
  intros Hr. unfold sys_step. destruct (Qle_bool (clock s) (when e)) eqn:Hc; [|done].
  apply Qle_bool_iff in Hc. destruct (requester s e) as [[[c n] others]|] eqn:Hq; [|done].
  destruct (attempt_ok n (when e) (bkt s) Hr) as (o & b' & -> & Ho).
  destruct o as [w|w]; intros [= <- <-]; cbn; (split; [done|]); (split; [done|]);
    exists c, n, others; (split; [done|]); [left|right]; eauto.
Qed.

Lemma sys_step_frame s e g s' : (0 < rate_limit (bkt s))%Q → sys_step s e = Some (g, s') →
  rate_limit (bkt s') = rate_limit (bkt s) ∧ max_tokens (bkt s') = max_tokens (bkt s) ∧
  last_update (bkt s') = Some (when e).
Proof.
  intros Hr H. destruct (sys_step_inv _ _ _ _ Hr H) as (_ & _ & c & n & others & _ & [(w & Ha & _)|(w & Ha & _)]);
    by apply attempt_spec_frame in Ha.
Qed.

(** ** The rate bound *)

Definition nonneg_call (e : event) : Prop := match e with Call _ n _ => (0 <= n)%Q | Resume _ _ => True end.
Definition nonneg (s : system) : Prop := Forall (λ z, (0 <= amount z)%Q) (sleeping s).

Lemma requester_nonneg s e c n others : nonneg s → nonneg_call e →
  requester s e = Some (c, n, others) → (0 <= n)%Q ∧ Forall (λ z, (0 <= amount z)%Q) others.
Proof.
  intros Hs He. destruct e as [c' n' t|i t]; cbn.
  - by intros [= -> -> <-].
  - destruct (sleeping s !! i) as [z|] eqn:Hz; cbn; [|done].
    destruct (Qle_bool (wake z) t); [|done]. intros [= <- <- <-]. split.
    + by apply (Forall_lookup_1 _ _ _ _ Hs Hz).
    + unfold nonneg in Hs. rewrite (delete_take_drop (sleeping s) i). apply Forall_app. split.
      * by apply Forall_take.
      * by apply Forall_drop.
Qed.

Lemma sys_step_nonneg s e g s' : (0 < rate_limit (bkt s))%Q → nonneg s → nonneg_call e →
  sys_step s e = Some (g, s') → nonneg s'.
Proof.
  intros Hr Hs He H.
  destruct (sys_step_inv _ _ _ _ Hr H) as (_ & _ & c & n & others & Hq & Hcase).
  destruct (requester_nonneg _ _ _ _ _ Hs He Hq) as [Hn Ho].
  unfold nonneg. destruct Hcase as [(w & _ & _ & ->)|(w & _ & _ & ->)]; [done|].
  apply Forall_app. split; [done | by apply Forall_singleton].
Qed.

Lemma refilled_nonneg_step now b b' o num : attempt_spec num now b o b' →
  (tokens b' <= refilled now b)%Q ∨ (num < 0)%Q.
Proof.
  destruct 1; cbn; [|destruct (Qlt_le_dec num 0)..]; try (right; lra); try (left; lra).
  destruct (Qlt_le_dec num 0); [right|left]; lra.
Qed.

Section window.
Variables a T : Q.

(** A step turns a budget that covers the level into one that covers the rest. *)
Lemma step_spend s e g s' X :
  (0 < rate_limit (bkt s))%Q → nonneg s → nonneg_call e → sys_step s e = Some (g, s') →
  (0 <= X)%Q → (refilled (when e) (bkt s) + (T - when e) * rate_limit (bkt s) <= X)%Q →
  ∃ X', (0 <= X')%Q ∧ (tokens (bkt s') + (T - clock s') * rate_limit (bkt s) <= X')%Q ∧
    ∀ rest, (spent a T (g ++ rest) <= spent a T rest + (X - X'))%Q.
Proof.
  intros Hr Hs He H HX Hline.
  destruct (sys_step_inv _ _ _ _ Hr H) as (_ & -> & c & n & others & Hq & Hcase).
  destruct (requester_nonneg _ _ _ _ _ Hs He Hq) as [Hn _].
  set (t := when e) in *. pose proof (refilled_le_max t (bkt s)) as Hmax.
  destruct Hcase as [(w & Ha & -> & _)|(w & Ha & -> & _)].
  - set (gr := {| g_who := c; g_amount := n; g_debit := t; g_return := (t + w)%Q |}).
    assert (Hcons : ∀ rest, spent a T ([gr] ++ rest) =
                      if counted a T gr then (n + spent a T rest)%Q else spent a T rest) by done.
    destruct (counted a T gr) eqn:Hc.
    + exists (X - n)%Q. assert (Hret : (t + w <= T)%Q).
      { apply andb_true_iff in Hc as [_ Hc]. by apply Qle_bool_iff in Hc. }
      assert (Hlevel : (tokens (bkt s') == refilled t (bkt s) - n)%Q) by (inversion Ha; reflexivity).
      split; [|split; [lra|]].
      * assert ((n <= refilled t (bkt s) + w * rate_limit (bkt s))%Q ∧ (0 <= w)%Q) as [Hw Hw0].
        { inversion Ha as [Hbig Hweq Hb|Hle Hfit Hweq Hb|]; [|split; lra].
          destruct (qlt 0 (n - refilled t (bkt s))) eqn:Hneed.
          - apply qlt_true in Hneed. split.
            + rewrite div_times by done. lra.
            + apply Qle_shift_div_l; lra.
          - apply qlt_false in Hneed. split; lra. }
        assert ((w * rate_limit (bkt s) <= (T - t) * rate_limit (bkt s))%Q)
          by (apply Qmult_le_compat_r; lra).
        lra.
      * intros rest. rewrite Hcons. lra.
    + exists X. split; [done|]. split; [|intros rest; rewrite Hcons; lra].
      apply refilled_nonneg_step in Ha as [Ha|Ha]; lra.
  - exists X. split; [done|]. split; [|intros rest; rewrite app_nil_l; lra].
    apply refilled_nonneg_step in Ha as [Ha|Ha]; lra.
Qed.

(** After the first section, the budget is the level extrapolated to [T]. *)
Lemma run_spend es : ∀ s gs s' X,
  (0 < rate_limit (bkt s))%Q → last_update (bkt s) = Some (clock s) → nonneg s → Forall nonneg_call es →
  sys_run s es = Some (gs, s') → (0 <= X)%Q →
  (tokens (bkt s) + (T - clock s) * rate_limit (bkt s) <= X)%Q → (spent a T gs <= X)%Q.
Proof.
  induction es as [|e es IH]; intros s gs s' X Hr Hl Hs Hes; cbn.
  - intros [= <- <-] ? ?. done.
  - apply Forall_cons in Hes as [He Hes].
    destruct (sys_step s e) as [[g s1]|] eqn:Hstep; [|done].
    destruct (sys_run s1 es) as [[gs1 s2]|] eqn:Hrun; [|done]. intros [= <- <-] HX Hline.
    destruct (sys_step_inv _ _ _ _ Hr Hstep) as (Hclk & Hclk1 & _).
    destruct (sys_step_frame _ _ _ _ Hr Hstep) as (Hrate & _ & Hl1).
    pose proof (refilled_le_line (when e) _ _ Hl) as Href.
    destruct (step_spend s e g s1 X Hr Hs He Hstep HX) as (X' & HX' & Hline' & Hspend); [lra|].
    assert (spent a T gs1 <= X')%Q.
    { apply (IH s1 gs1 s2 X'); rewrite ?Hrate; try done; [by rewrite Hl1, Hclk1|].
      by eapply sys_step_nonneg. }
    specialize (Hspend gs1). lra.
Qed.

Lemma run_window es : ∀ s gs s',
  (0 < rate_limit (bkt s))%Q → (0 <= max_tokens (bkt s))%Q → (a <= T)%Q → nonneg s → Forall nonneg_call es →
  sys_run s es = Some (gs, s') →
  (spent a T gs <= max_tokens (bkt s) + (T - a) * rate_limit (bkt s))%Q.
Proof.
  induction es as [|e es IH]; intros s gs s' Hr Hm HaT Hs Hes; cbn.
  - intros [= <- <-]. cbn.
    assert (0 <= (T - a) * rate_limit (bkt s))%Q by (apply Qmult_le_0_compat; lra). lra.
  - apply Forall_cons in Hes as [He Hes].
    destruct (sys_step s e) as [[g s1]|] eqn:Hstep; [|done].
    destruct (sys_run s1 es) as [[gs1 s2]|] eqn:Hrun; [|done]. intros [= <- <-].
    destruct (sys_step_frame _ _ _ _ Hr Hstep) as (Hrate & Hmax & Hl1).
    destruct (sys_step_inv _ _ _ _ Hr Hstep) as (_ & Hclk1 & c & n & others & _ & Hcase).
    assert (Hs1 : nonneg s1) by (by eapply sys_step_nonneg).
    destruct (Qlt_le_dec (when e) a) as [Hbefore|Hafter].
    + assert (Hskip : spent a T (g ++ gs1) = spent a T gs1).
      { destruct Hcase as [(w & _ & -> & _)|(w & _ & -> & _)]; [|done]. cbn. unfold counted at 1. cbn.
        by rewrite (proj2 (Qle_bool_false a (when e)) Hbefore). }
      rewrite Hskip. rewrite <-Hrate, <-Hmax.
      apply (IH s1 gs1 s2); rewrite ?Hrate, ?Hmax; done.
    + set (X := (max_tokens (bkt s) + (T - a) * rate_limit (bkt s))%Q).
      assert (0 <= (T - a) * rate_limit (bkt s))%Q by (apply Qmult_le_0_compat; lra).
      assert ((T - when e) * rate_limit (bkt s) <= (T - a) * rate_limit (bkt s))%Q
        by (apply Qmult_le_compat_r; lra).
      pose proof (refilled_le_max (when e) (bkt s)).
      destruct (step_spend s e g s1 X Hr Hs He Hstep) as (X' & HX' & Hline' & Hspend);
        [unfold X; lra..|].
      assert (spent a T gs1 <= X')%Q.
      { apply (run_spend es s1 gs1 s2 X'); rewrite ?Hrate; try done. by rewrite Hl1, Hclk1. }
      specialize (Hspend gs1). lra.
Qed.

End window.

Definition start (b : bucket) (t0 : Q) : system := {| bkt := b; clock := t0; sleeping := [] |}.

(** A request within the capacity is granted without a sleep after it. *)
Definition prompt (cap : Q) (g : grant) : Prop := (g_amount g <= cap)%Q → (g_return g == g_debit g)%Q.
Lemma run_prompt es : ∀ s gs s', (0 < rate_limit (bkt s))%Q → sys_run s es = Some (gs, s') → Forall (prompt (max_tokens (bkt s))) gs.
Proof.
  induction es as [|e es IH]; intros s gs s' Hr; cbn; [by intros [= <- <-]|].
  destruct (sys_step s e) as [[g s1]|] eqn:Hstep; [|done].
  destruct (sys_run s1 es) as [[gs1 s2]|] eqn:Hrun; [|done]. intros [= <- <-].
  destruct (sys_step_frame _ _ _ _ Hr Hstep) as (Hrate & Hmax & _).
  destruct (sys_step_inv _ _ _ _ Hr Hstep) as (_ & _ & c & n & others & _ & Hcase).
  apply Forall_app. split; [|rewrite <-Hmax; by apply (IH s1 gs1 s2); rewrite ?Hrate].
  destruct Hcase as [(w & Ha & -> & _)|(w & _ & -> & _)]; [|constructor].
  apply Forall_singleton. intros Hle. cbn in *. inversion Ha; subst; lra.
Qed.

(** C16: The limiter keeps its rate.  Whatever callers arrive and in whatever order the event
    loop runs them, in every window [a, T] the tokens granted to requests within the
    capacity, whenever these were made, together with those of the larger requests that are
    debited and return inside the window, are at most the capacity plus the rate times the
    window's length.  ([spent] counts by debit and return; a request within the capacity is
    debited when it returns.  A larger one is debited before the sleep that pays for it, so
    counting it by one of the two alone would break the bound: [large_request_exceeds].) *)
Theorem acquired_within_rate rate max t0 es gs s' a T :
  (0 < rate)%Q → (0 <= max_tokens (AsyncTokenBucket rate max))%Q → Forall nonneg_call es → (a <= T)%Q →
  sys_run (start (AsyncTokenBucket rate max) t0) es = Some (gs, s') →
  (spent a T gs <= max_tokens (AsyncTokenBucket rate max) + (T - a) * rate)%Q ∧
  Forall (prompt (max_tokens (AsyncTokenBucket rate max))) gs.
Proof.
  intros Hr Hm Hes HaT H. split.
  - apply (run_window a T es (start (AsyncTokenBucket rate max) t0) gs s' Hr Hm HaT); [|done|exact H]. by apply Forall_nil.
  - exact (run_prompt es (start (AsyncTokenBucket rate max) t0) gs s' Hr H).
Qed.

(** Two requests per second, capacity 2: 2 + 1 tokens at once, a request of 5
    (above the capacity) and the refused caller's second attempt. *)
Definition sample_events : list event :=
  [Call 0 2 0; Call 1 1 0; Call 2 5 (1 # 4); Resume 0 5]%Q.

Lemma acquired_within_rate_witness :
  (spent 0 10 (match sys_run (start (AsyncTokenBucket 2 None) 0) sample_events with
               | Some (gs, _) => gs | None => [] end) == 8)%Q ∧ (8 <= 2 + (10 - 0) * 2)%Q.
Proof.
  destruct (sys_run (start (AsyncTokenBucket 2 None) 0) sample_events) as [[gs s']|] eqn:E; [|discriminate E].
  assert (H8 : (spent 0 10 gs == 8)%Q).
  { vm_compute in E. injection E as <- <-. reflexivity. }
  split; [exact H8|]. rewrite <-H8. cut ((spent 0 10 gs <= max_tokens (AsyncTokenBucket 2 None) + (10 - 0) * 2)%Q ∧
    Forall (prompt (max_tokens (AsyncTokenBucket 2 None))) gs); [by intros [? _]|].
  apply (acquired_within_rate 2 None 0 sample_events gs s' 0 10); [done..| |done|exact E].
  repeat constructor; discriminate.
Defined.

(** A request of 100 tokens at capacity 2 is debited at once and returns 49 seconds later:
    alone it exceeds the bound of a short window around either moment. *)
Example large_request_exceeds :
  (λ p, p.1) <$> sys_run (start (AsyncTokenBucket 2 None) 0) [Call 0 100 0]%Q =
  Some [{| g_who := 0; g_amount := 100; g_debit := 0; g_return := (0 + (98 / 2))%Q |}].
Proof. reflexivity. Qed.

(** ** Every acquisition returns *)

(** The time the sleeper can next run, and whether the level then covers it if
    nobody else takes tokens in between. *)
Definition ready_at (s : system) (z : sleeper) : Q :=
  if Qle_bool (wake z) (clock s) then clock s else wake z.
Definition armed (s : system) (z : sleeper) : bool :=
  Qle_bool (amount z) (tokens (bkt s) + (ready_at s z - clock s) * rate_limit (bkt s))%Q.
Definition unarmed (s : system) : nat := length (filter (λ z, armed s z = false) (sleeping s)).

Definition asleep_ok (s : system) : Prop :=
  (0 < rate_limit (bkt s))%Q ∧
  (sleeping s = [] ∨ last_update (bkt s) = Some (clock s)) ∧
  Forall (λ z, (amount z <= max_tokens (bkt s))%Q) (sleeping s).

Lemma ready_at_spec s z : (wake z <= ready_at s z)%Q ∧ (clock s <= ready_at s z)%Q ∧
  ∀ x, (wake z <= x)%Q → (clock s <= x)%Q → (ready_at s z <= x)%Q.
Proof.
  unfold ready_at. destruct (Qle_bool (wake z) (clock s)) eqn:E.
  - apply Qle_bool_iff in E. split; [done|]. split; [lra | done].
  - apply Qle_bool_false in E. split; [lra|]. split; [lra | done].
Qed.

Lemma refilled_covers s z x :
  asleep_ok s → sleeping s ≠ [] → (amount z <= max_tokens (bkt s))%Q → armed s z = true →
  (wake z <= x)%Q → (clock s <= x)%Q → (amount z <= refilled x (bkt s))%Q.
Proof.
  intros (Hr & [Hl|Hl] & _) Hne Hm Ha Hw Hc; [done|].
  apply Qle_bool_iff in Ha. destruct (ready_at_spec s z) as (_ & _ & Hx). specialize (Hx x Hw Hc).
  assert ((ready_at s z - clock s) * rate_limit (bkt s) <= (x - clock s) * rate_limit (bkt s))%Q
    by (apply Qmult_le_compat_r; lra).
  unfold refilled, last_or. rewrite Hl. cbn.
  destruct (qmin_cases (max_tokens (bkt s)) (tokens (bkt s) + (x - clock s) * rate_limit (bkt s))) as [[? ->]|[? ->]]; lra.
Qed.

(** A refused attempt takes nothing from the others. *)
Lemma armed_after_retry s e s' z w n :
  asleep_ok s → sleeping s ≠ [] → (amount z <= max_tokens (bkt s))%Q → (clock s <= when e)%Q →
  clock s' = when e → attempt_spec n (when e) (bkt s) (Retry w) (bkt s') →
  armed s z = true → armed s' z = true.
Proof.
  intros Hok Hne Hm Hc Hc' Ha Harm.
  destruct (attempt_spec_frame _ _ _ _ _ Ha) as (Hr' & _ & _).
  assert (Htok : tokens (bkt s') = refilled (when e) (bkt s)) by (by inversion Ha).
  unfold armed. rewrite Hr', Htok, Hc'. apply Qle_bool_iff.
  destruct (ready_at_spec s' z) as (Hw & Hcl & _). rewrite Hc' in Hcl.
  pose proof Hok as (Hr & [Hl|Hl] & _); [done|].
  pose proof Harm as Harm'. apply Qle_bool_iff in Harm'.
  assert (Hready : (ready_at s z <= ready_at s' z)%Q).
  { destruct (ready_at_spec s z) as (_ & _ & Hx). apply Hx; lra. }
  assert (0 <= (ready_at s' z - when e) * rate_limit (bkt s))%Q by (apply Qmult_le_0_compat; lra).
  assert ((ready_at s z - clock s) * rate_limit (bkt s) <=
          (ready_at s' z - clock s) * rate_limit (bkt s))%Q by (apply Qmult_le_compat_r; lra).
  unfold refilled, last_or. rewrite Hl. cbn.
  destruct (qmin_cases (max_tokens (bkt s)) (tokens (bkt s) + (when e - clock s) * rate_limit (bkt s))) as [[? ->]|[? ->]]; lra.
Qed.

Lemma armed_new s e s' c n w :
  (0 < rate_limit (bkt s))%Q → clock s' = when e → attempt_spec n (when e) (bkt s) (Retry w) (bkt s') →
  armed s' {| who := c; amount := n; wake := (when e + w)%Q |} = true.
Proof.
  intros Hr Hc' Ha. set (z := {| who := c; amount := n; wake := (when e + w)%Q |}).
  destruct (attempt_spec_frame _ _ _ _ _ Ha) as (Hr' & _ & _).
  destruct (ready_at_spec s' z) as (Hw & _ & _). cbn in Hw.
  unfold armed. rewrite Hr', Hc'. apply Qle_bool_iff. cbn.
  assert (Hlevel : (tokens (bkt s') + w * rate_limit (bkt s) == n)%Q).
  { inversion Ha as [|? ? Hweq|? ? Hweq]; subst; cbn. rewrite div_times by done. lra. }
  assert (w * rate_limit (bkt s) <= (ready_at s' z - when e) * rate_limit (bkt s))%Q
    by (apply Qmult_le_compat_r; lra).
  lra.
Qed.

Lemma requester_sub s e c n others : requester s e = Some (c, n, others) →
  match e with
  | Call _ _ _ => others = sleeping s
  | Resume _ now => ∃ z l1 l2, sleeping s = l1 ++ z :: l2 ∧ others = l1 ++ l2 ∧ n = amount z ∧
                               (wake z <= now)%Q
  end.
Proof.
  destruct e as [c' n' t|i t]; cbn; [by intros [= _ _ <-]|].
  destruct (sleeping s !! i) as [z|] eqn:Hz; cbn; [|done].
  destruct (Qle_bool (wake z) t) eqn:Hw; [|done]. intros [= _ <- <-].
  exists z, (take i (sleeping s)), (drop (S i) (sleeping s)).
  split; [by rewrite take_drop_middle|]. split; [by rewrite delete_take_drop|].
  split; [done | by apply Qle_bool_iff].
Qed.

Lemma asleep_ok_step s e g s' : asleep_ok s → sys_step s e = Some (g, s') → asleep_ok s'.
Proof.
  intros (Hr & Hl & Hm) H.
  destruct (sys_step_frame _ _ _ _ Hr H) as (Hr' & Hm' & Hl').
  destruct (sys_step_inv _ _ _ _ Hr H) as (_ & Hc' & c & n & others & Hq & Hcase).
  apply requester_sub in Hq.
  assert (Ho : Forall (λ z, (amount z <= max_tokens (bkt s'))%Q) others).
  { rewrite Hm'. destruct e as [|i t]; [by rewrite Hq|]. destruct Hq as (z & l1 & l2 & Hs & -> & _).
    rewrite Hs in Hm. apply Forall_app in Hm as [? [_ ?]%Forall_cons]. by apply Forall_app. }
  split; [by rewrite Hr'|]. split; [right; by rewrite Hc'|].
  destruct Hcase as [(w & _ & _ & ->)|(w & Ha & _ & ->)]; [done|].
  apply Forall_app. split; [done|]. apply Forall_singleton. rewrite Hm'. by inversion Ha.
Qed.

(** ** The variant *)

Definition is_call (e : event) : bool := match e with Call _ _ _ => true | Resume _ _ => false end.
Definition calls (es : list event) : nat := length (filter (λ e, is_call e = true) es).

(** Attempts that can still happen: one per call to come and per unarmed
    sleeper, and each grant can disarm all the others once. *)
Definition attempts_left (s : system) (k : nat) : nat :=
  let m := k + length (sleeping s) in unarmed s + k + m * m.

Lemma unarmed_app s l1 l2 :
  length (filter (λ z, armed s z = false) (l1 ++ l2)) =
  length (filter (λ z, armed s z = false) l1) + length (filter (λ z, armed s z = false) l2).
Proof. by rewrite filter_app, length_app. Qed.

Lemma unarmed_mono s s' l :
  Forall (λ z, armed s z = true → armed s' z = true) l →
  length (filter (λ z, armed s' z = false) l) ≤ length (filter (λ z, armed s z = false) l).
Proof.
  induction 1 as [|z l Hz _ IH]; [done|]. rewrite !filter_cons.
  destruct (decide (armed s' z = false)) as [E'|E'], (decide (armed s z = false)) as [E|E]; cbn; try lia.
  apply not_false_iff_true in E. apply Hz in E. congruence.
Qed.

Lemma attempts_left_step s e g s' k :
  asleep_ok s → sys_step s e = Some (g, s') →
  S (attempts_left s' k) ≤ attempts_left s (if is_call e then S k else k) ∧
  length g + length (sleeping s') = (if is_call e then 1 else 0) + length (sleeping s).
Proof.
  intros Hok H. pose proof Hok as (Hr & Hl & Hm).
  destruct (sys_step_inv _ _ _ _ Hr H) as (Hc & Hc' & c & n & others & Hq & Hcase).
  assert (Hu' : unarmed s' ≤ length (sleeping s')) by apply length_filter.
  unfold attempts_left. destruct Hcase as [(w & Ha & -> & Hs')|(w & Ha & -> & Hs')].
  - apply requester_sub in Hq. rewrite Hs' in *. destruct e as [c' n' t|i t]; cbn [is_call length].
    + subst others. split; [nia | lia].
    + destruct Hq as (z & l1 & l2 & -> & -> & _). rewrite !length_app in *. cbn. split; [nia | lia].
  - assert (Hkeep : ∀ l, (∀ z, z ∈ l → z ∈ sleeping s) →
        length (filter (λ z, armed s' z = false) l) ≤ length (filter (λ z, armed s z = false) l)).
    { intros l Hsub. apply unarmed_mono, Forall_forall. intros z Hz%Hsub Harm.
      eapply armed_after_retry; try done; [by intros E; rewrite E in Hz; apply elem_of_nil in Hz|].
      rewrite Forall_forall in Hm. by apply Hm. }
    pose proof (armed_new s e s' c n w Hr Hc' Ha) as Hnew.
    apply requester_sub in Hq. unfold unarmed in *. rewrite Hs', unarmed_app, !length_app in *.
    rewrite filter_cons, decide_False in * by congruence. cbn [filter list_filter length] in *.
    destruct e as [c' n' t|i t]; cbn [is_call].
    + subst others. specialize (Hkeep (sleeping s) ltac:(done)). split; [nia | lia].
    + destruct Hq as (z & l1 & l2 & Hs & -> & -> & Hw).
      assert (Hun : armed s z = false).
      { apply not_true_iff_false. intros Harm. assert (Hz : z ∈ sleeping s) by (rewrite Hs; set_solver).
        assert (amount z <= refilled t (bkt s))%Q.
        { apply refilled_covers; try done; [by intros E; rewrite E in Hz; apply elem_of_nil in Hz|].
          rewrite Forall_forall in Hm. by apply Hm. }
        inversion Ha. cbn in *. lra. }
      specialize (Hkeep (l1 ++ l2) ltac:(rewrite Hs; set_solver)). rewrite Hs.
      rewrite !unarmed_app, !length_app in *. rewrite filter_cons, decide_True by done.
      cbn [length]. split; [nia | lia].
Qed.

Lemma run_bounded es : ∀ s gs s', asleep_ok s → sys_run s es = Some (gs, s') →
  asleep_ok s' ∧ length es ≤ attempts_left s (calls es) ∧
  length gs + length (sleeping s') = calls es + length (sleeping s).
Proof.
  induction es as [|e es IH]; intros s gs s' Hok; cbn [sys_run].
  - intros [= <- <-]. split; [done|]. cbn. lia.
  - destruct (sys_step s e) as [[g s1]|] eqn:Hstep; [|done].
    destruct (sys_run s1 es) as [[gs1 s2]|] eqn:Hrun; [|done]. intros [= <- <-].
    destruct (attempts_left_step s e g s1 (calls es) Hok Hstep) as [Hleft Hcount].
    destruct (IH s1 gs1 s2) as (Hok2 & Hlen & Hcount2); [by eapply asleep_ok_step | done|].
    assert (Hcalls : calls (e :: es) = if is_call e then S (calls es) else calls es).
    { unfold calls. rewrite filter_cons. by destruct e. }
    rewrite Hcalls, length_app. split; [done|]. destruct (is_call e); cbn in *; lia.
Qed.

Lemma sleeper_enabled s z l : asleep_ok s → sleeping s = z :: l →
  ∃ g s', sys_step s (Resume 0 (ready_at s z)) = Some (g, s').
Proof.
  intros (Hr & _ & _) Hs. destruct (ready_at_spec s z) as (Hw & Hc & _).
  unfold sys_step. cbn. rewrite Hs. cbn.
  rewrite (proj2 (Qle_bool_iff _ _) Hc), (proj2 (Qle_bool_iff _ _) Hw).
  destruct (attempt_ok (amount z) (ready_at s z) (bkt s) Hr) as (o & b' & -> & _).
  destruct o; eauto.
Qed.

(** C40: with a positive rate, whatever the schedule, the [n] calls of [acquire]
    of a run account for at most [n * (n + 1)] attempts; each call has been
    granted or sleeps, and while one sleeps the run can go on: no run starves
    or spins, and every call returns. *)
Theorem every_acquire_returns rate max t0 es gs s' :
  (0 < rate)%Q → sys_run (start (AsyncTokenBucket rate max) t0) es = Some (gs, s') →
  length es ≤ calls es * (calls es + 1) ∧ length gs + length (sleeping s') = calls es ∧
  ∀ z l, sleeping s' = z :: l → ∃ g s'', sys_step s' (Resume 0 (ready_at s' z)) = Some (g, s'').
Proof.
  intros Hr H. destruct (run_bounded es (start (AsyncTokenBucket rate max) t0) gs s') as (Hok & Hlen & Hcount); [|done|].
  { split; [done|]. split; [by left | by apply Forall_nil]. }
  split; [|split].
  - unfold attempts_left in Hlen. cbn in Hlen. lia.
  - cbn in Hcount. lia.
  - intros z l Hs. by eapply sleeper_enabled.
Qed.

Lemma every_acquire_returns_witness :
  ∃ gs s', sys_run (start (AsyncTokenBucket 2 None) 0) sample_events = Some (gs, s') ∧
    4 ≤ 3 * 4 ∧ length gs + length (sleeping s') = 3.
Proof.
  destruct (sys_run (start (AsyncTokenBucket 2 None) 0) sample_events) as [[gs s']|] eqn:E; [|discriminate E].
  destruct (every_acquire_returns 2 None 0 sample_events gs s') as (H1 & H2 & _); [done | exact E |].
  exists gs, s'. split; [reflexivity|]. split; [exact H1 | exact H2].
Defined.

(** ** The class-level limiters of [RateLimitedRewardManager] *)

(** [config.get("reward") or {}], the keys the limiters read. *)
Record reward_config := {
  cfg_max_concurrent : option Z; cfg_max_rpm : option Q; cfg_max_tpm : option Q;
  cfg_estimated_tokens : option Q }.

Record class_state := {
  class_initialized : bool;
  semaphore : option Z;                 (** the number of permits *)
  rpm_limiter : option bucket; max_rpm : option Q;
  tpm_limiter : option bucket; max_tpm : option Q;
  estimated_tokens_per_request : option Q }.

Definition uninitialized : class_state :=
  {| class_initialized := false; semaphore := None; rpm_limiter := None; max_rpm := None;
     tpm_limiter := None; max_tpm := None; estimated_tokens_per_request := None |}.

(** [AsyncTokenBucket(limit / 60.0, limit / 60.0)], or no limiter. *)
Definition per_minute (limit : option Q) : option bucket :=
  l ← limit; Some (AsyncTokenBucket (l / 60)%Q (Some (l / 60)%Q)).

(** [asyncio.Semaphore(n)] refuses a negative [n]. *)
Definition Semaphore (n : Z) : result Z :=
  require (0 <=? n)%Z else ValueError "Semaphore initial value must be >= 0" ;; Ok n.

(** The base class marks the class initialised before the limiters are built. *)
Definition init_class (cfg : reward_config) : stateR class_state unit := λ c,
  if class_initialized c then (Ok tt, c) else
  let c1 := {| class_initialized := true; semaphore := semaphore c; rpm_limiter := rpm_limiter c;
               max_rpm := max_rpm c; tpm_limiter := tpm_limiter c; max_tpm := max_tpm c;
               estimated_tokens_per_request := estimated_tokens_per_request c |} in
  match Semaphore (default 1%Z (cfg_max_concurrent cfg)) with
  | Raise e => (Raise e, c1)
  | Ok sem =>
      (Ok tt, {| class_initialized := true; semaphore := Some sem;
                 rpm_limiter := per_minute (cfg_max_rpm cfg); max_rpm := cfg_max_rpm cfg;
                 tpm_limiter := per_minute (cfg_max_tpm cfg); max_tpm := cfg_max_tpm cfg;
                 estimated_tokens_per_request := Some (default 2000%Q (cfg_estimated_tokens cfg)) |})
  end.

(** The limiters a request passes, with what it takes from each. *)
Definition layers (c : class_state) : list (bucket * Q) :=
  match rpm_limiter c with Some b => [(b, 1%Q)] | None => [] end ++
  match tpm_limiter c, estimated_tokens_per_request c with
  | Some b, Some n => [(b, n)] | _, _ => [] end.

(** Every later instance shares the limiters of the first one. *)
Lemma init_class_once cfg cfg' c c1 : init_class cfg c = (Ok tt, c1) → init_class cfg' c1 = (Ok tt, c1).
Proof.
  unfold init_class. destruct (class_initialized c) eqn:E.
  - intros [= <-]. by rewrite E.
  - destruct (Semaphore _); [|done]. by intros [= <-].
Qed.

(** A limit of [l] per minute is a bucket in the range of the rate bound. *)
Lemma per_minute_ok l b : per_minute (Some l) = Some b → (0 < l)%Q →
  (0 < rate_limit b)%Q ∧ (max_tokens b == rate_limit b)%Q ∧ last_update b = None.
Proof.
  intros [= <-] Hl. cbn. assert (0 < l / 60)%Q by (apply Qlt_shift_div_l; lra).
  destruct (Qeq_bool (l / 60) 0); done.
Qed.

(** A limit of zero: the first request divides by it. *)
Lemma zero_limit_raises b : per_minute (Some 0%Q) = Some b →
  ∃ b', attempt 1 0 b = (Raise (ZeroDivisionError "float division by zero"), b').
Proof. intros [= <-]. vm_compute. eauto. Qed.
