(* ===== verification/FullyAsync.v ===== *)
(** * FullyAsync: the streaming rollouter and its trainer

    Models src/verl/experimental/fully_async_policy/fully_async_rollouter.py
    (the sample feed, the processor coroutine, the sample tasks, the monitor,
    [reset_staleness]), the consuming side of fully_async_trainer.py and the
    metric aggregator of detach_utils.py.  The message queue between them is
    the one of [MessageQueue].

    A coroutine runs without interruption between two [await]s that suspend,
    so the program is a transition system: a label per coroutine, and a step
    per stretch of code that runs at once.  A value read from the queue actor
    is kept in the program counter until the code uses it, as the other
    coroutines run in between.  [async with self.lock] is the [lock] field. *)

From S2P Require Import Prelude PyDict PyStr MessageQueue.
From coqutil Require Import Datatypes.RecordSetters.
From Stdlib Require Import QArith Qround Lqa.
Import TriangleBracketNotations.
Local Close Scope Q_scope.
#[local] Open Scope py_scope.

(** ** The limits of [set_max_required_samples] *)

Record limits := {
  required_samples : nat; trigger_parameter_sync_step : nat;
  max_required_samples : nat; max_concurrent_samples : nat; max_queue : nat; total_train_steps : nat }.

Definition set_max_required_samples
    (required trigger total_rollout_steps replicas : nat) (staleness_threshold : Q) : result limits :=
  let required' := inject_Z (Z.of_nat required) in
  let trigger' := inject_Z (Z.of_nat trigger) in
  let max_required := Z.to_nat (Qfloor (required' * (staleness_threshold + 1) * trigger')%Q) in
  require negb (Nat.eqb (required * trigger) 0) else ZeroDivisionError "division by zero" ;;
  Ok {| required_samples := required; trigger_parameter_sync_step := trigger;
        max_required_samples := max_required;
        max_concurrent_samples := Nat.min (replicas * 16) max_required;
        max_queue := max_required;
        total_train_steps := total_rollout_steps / (required * trigger) |}.

(** ** [_feed_samples] *)

(** The sample ids put into [pending_queue] ([None] ends the stream): one per
    element of the iterator, until [global_steps] reaches [total_rollout_steps].
    The number of samples fed is added to [global_steps]. *)
Fixpoint feed_samples (total_rollout_steps global_steps : nat) (epochs : list nat)
    : list (option (nat * nat)) * nat :=
  match epochs with
  | [] => ([None], global_steps)
  | epoch :: epochs =>
      let sample := Some (epoch, global_steps) in
      if Nat.leb total_rollout_steps global_steps then ([sample; None], global_steps)
      else let '(rest, g) := feed_samples total_rollout_steps (S global_steps) epochs in (sample :: rest, g)
  end.

(** ** State *)

(** A task of [_process_single_sample_streaming]: generating, its sample put
    (with the queue's answer), returned, or failed while generating. *)
Inductive status := Generating | Stored (success : bool) | Finished | Crashed.
#[export] Instance status_eq_dec : EqDecision status.
Proof. solve_decision. Defined.
Record task := { t_sample : nat; t_status : status }.

(** Where [_processor_worker] is. *)
Inductive pc :=
  | Top                        (** the head of [while True] *)
  | Asked (queue_size : nat)   (** [_should_pause_generation] got the statistics *)
  | Pausing                    (** about to set [paused] under the lock *)
  | Draining                   (** the drain loop, then the wait for the resume signal *)
  | Getting                    (** about to pop [pending_queue] *)
  | Holding (x : nat)          (** a popped sample, not yet submitted *)
  | Limiting (x : nat)         (** waiting for a task to finish, holding the lock *)
  | Ending                     (** got the end signal *)
  | LastTasks                  (** waiting for the last tasks, holding the lock *)
  | Ended | Died.

Inductive owner := Processor | Resetter.
(** Where [reset_staleness] is. *)
Inductive reset_pc :=
  | NoReset | Called
  | Counted (active : nat)     (** [len(self.active_tasks)] read, the queue's size asked for *)
  | Answered (total : nat).    (** the sum, not yet assigned *)
(** Where [_async_monitor_loop] is: idle, statistics read, about to resume. *)
Inductive monitor_pc := Sleeping | Polled (queue_size : nat) | Waking.

(** The trainer between two weight updates. *)
Record trainer := { queue_samples : list nat; local_trigger_step : nat; current_param_version : nat }.

Record state := {
  paused : bool; resume_event : bool; staleness_samples : nat;
  active_tasks : list task; pending : list nat; at_pc : pc; lock : option owner;
  mq : queue (A := nat); resetting : reset_pc; monitor : monitor_pc; fit : trainer;
  total_generated_samples : nat; dropped_stale_samples : nat; processed_sample_count : nat }.


Definition fresh_trainer : trainer :=
  {| queue_samples := []; local_trigger_step := 1; current_param_version := 0 |}.

(** [fit]: running, nothing generated, the stream of [_feed_samples] ahead. *)
Definition init_state (q : queue) (stream : list nat) : state :=
  {| paused := false; resume_event := true; staleness_samples := 0; active_tasks := [];
     pending := stream; at_pc := Top; lock := None; mq := q; resetting := NoReset;
     monitor := Sleeping; fit := fresh_trainer; total_generated_samples := 0;
     dropped_stale_samples := 0; processed_sample_count := 0 |}.

Definition done (t : task) : bool := match t_status t with Finished | Crashed => true | _ => false end.
Definition failed (t : task) : bool := match t_status t with Crashed => true | _ => false end.
Definition generating (t : task) : bool := match t_status t with Generating => true | _ => false end.

Section rollouter.
Variable cfg : limits.

(** [paused := True, event cleared] and [paused := False, event set]. *)
Definition pause (s : state) : state := s <| paused := true |> <| resume_event := false |>.
Definition resume (s : state) : state := s <| paused := false |> <| resume_event := true |>.

(** What [_should_pause_generation] answers once it has the queue's size. *)
Definition should_pause (queue_size : nat) (s : state) : bool :=
  Nat.leb (max_queue cfg) queue_size || Nat.leb (max_required_samples cfg) (staleness_samples s).

(** [asyncio.wait(active_tasks, FIRST_COMPLETED)] and the loop awaiting the
    tasks that are done: a failed one raises out of [_processor_worker]. *)
Definition unfinished (l : list task) : list task := filter (λ t, done t = false) l.
Definition reap (next : pc) (s : state) : option state :=
  let finished := filter (λ t, done t = true) (active_tasks s) in
  match finished with
  | [] => None
  | _ => Some (s <| active_tasks := unfinished (active_tasks s) |>
                 <| at_pc := if existsb failed finished then Died else next |>)
  end.

Definition queue_size (s : state) : nat := length (q_samples (mq s)).

(** One stretch of [_processor_worker]. *)
Definition processor (s : state) : option state :=
  match at_pc s with
  | Top => Some (s <| at_pc := if paused s then Pausing else Asked (queue_size s) |>)
  | Asked n => Some (s <| at_pc := if should_pause n s then Pausing else Getting |>)
  | Pausing => match lock s with None => Some (pause s <| at_pc := Draining |>) | Some _ => None end
  | Draining =>
      match lock s with
      | None => if resume_event s then Some (s <| at_pc := Top |>) else reap Draining s
      | Some _ => if resume_event s then Some (s <| at_pc := Top |>) else None
      end
  | Getting =>
      let s := s <| staleness_samples ::= S |> in
      match pending s with
      | [] => Some (s <| at_pc := Ending |>)
      | x :: rest => Some (s <| pending := rest |> <| at_pc := Holding x |>)
      end
  | Holding x =>
      match lock s with
      | Some _ => None
      | None =>
          if Nat.leb (max_concurrent_samples cfg) (length (active_tasks s)) then
            Some (s <| lock := Some Processor |> <| at_pc := Limiting x |>)
          else if paused s && negb (resume_event s) then None
          else Some (s <| active_tasks ::= (λ l, l ++ [{| t_sample := x; t_status := Generating |}]) |>
                       <| at_pc := Top |>)
      end
  | Limiting x =>
      match active_tasks s with
      | [] => Some (s <| lock := None |> <| at_pc := Holding x |>)
      | _ => match reap (Holding x) s with Some s => Some (s <| lock := None |>) | None => None end
      end
  | Ending =>
      match active_tasks s, lock s with
      | [], _ => Some (s <| at_pc := Ended |>)
      | _, None => Some (s <| lock := Some Processor |> <| at_pc := LastTasks |>)
      | _, Some _ => None
      end
  | LastTasks =>
      match active_tasks s with
      | [] => Some (s <| lock := None |> <| at_pc := Ending |>)
      | _ => match reap Ending s with Some s => Some (s <| lock := None |>) | None => None end
      end
  | Ended | Died => None
  end.

(** In the drain loop a finished task may also be reaped when the resume signal
    is there: [asyncio.wait] returned before the signal came. *)
Definition reap_in_drain (s : state) : option state :=
  match at_pc s, lock s with Draining, None => reap Draining s | _, _ => None end.

(** A generating task ends: its sample goes to the queue, or it raises. *)
Definition store (i : nat) (s : state) : option state :=
  match active_tasks s !! i with
  | Some {| t_sample := x; t_status := Generating |} =>
      let '(r, q) := put_sample x (mq s) in
      let st := match r with Ok success => Stored success | Raise _ => Crashed end in
      Some (s <| mq := q |> <| active_tasks ::= <[i := {| t_sample := x; t_status := st |}]> |>)
  | _ => None
  end.
Definition crash (i : nat) (s : state) : option state :=
  match active_tasks s !! i with
  | Some {| t_sample := x; t_status := Generating |} =>
      Some (s <| active_tasks ::= <[i := {| t_sample := x; t_status := Crashed |}]> |>)
  | _ => None
  end.
(** The queue's answer arrives and the task returns. *)
Definition return_task (i : nat) (s : state) : option state :=
  match active_tasks s !! i with
  | Some {| t_sample := x; t_status := Stored success |} =>
      let s := s <| processed_sample_count ::= S |>
                 <| active_tasks ::= <[i := {| t_sample := x; t_status := Finished |}]> |> in
      Some (if success then s <| total_generated_samples ::= S |> else s <| dropped_stale_samples ::= S |>)
  | _ => None
  end.

(** [reset_staleness], called by the trainer after a weight update. *)
Definition reset_staleness (s : state) : option state :=
  match resetting s with
  | NoReset => None
  | Called =>
      match lock s with
      | None => Some (resume s <| lock := Some Resetter |>
                               <| resetting := Counted (length (active_tasks s)) |>)
      | Some _ => None
      end
  | Counted n => Some (s <| resetting := Answered (n + queue_size s) |>)
  | Answered v => Some (s <| staleness_samples := v |> <| lock := None |> <| resetting := NoReset |>)
  end.

(** [_async_monitor_loop], its recovery part. *)
Definition monitor_loop (s : state) : option state :=
  match monitor s with
  | Sleeping => if paused s then Some (s <| monitor := Polled (queue_size s) |>) else None
  | Polled n => Some (s <| monitor := if should_pause n s then Sleeping else Waking |>)
  | Waking => match lock s with None => Some (resume s <| monitor := Sleeping |>) | Some _ => None end
  end.

(** [_fit_update_local_step]. *)
Definition fit_update_local_step (t : trainer) : trainer :=
  if Nat.ltb (local_trigger_step t) (trigger_parameter_sync_step cfg)
  then t <| local_trigger_step ::= S |>
  else t <| current_param_version ::= S |> <| local_trigger_step := 1 |>.

(** The trainer: one [get_sample] of [_get_samples_from_queue]; with the last
    sample of a batch it trains ([fit_step]) and, at a weight update
    ([_fit_update_weights]: [local_trigger_step == 1]), calls [reset_staleness]
    and waits for it. *)
Definition consume (s : state) : option state :=
  match resetting s, get_sample (mq s) with
  | NoReset, (Ok (Got x _), q) =>
      let s := s <| mq := q |> in
      let got := queue_samples (fit s) ++ [x] in
      if Nat.leb (required_samples cfg) (length got) then
        let t := fit_update_local_step ((fit s) <| queue_samples := [] |>) in
        Some (s <| fit := t |>
                <| resetting := if Nat.eqb (local_trigger_step t) 1 then Called else NoReset |>)
      else Some (s <| fit := (fit s) <| queue_samples := got |> |>)
  | _, _ => None
  end.

Inductive label := Proc | Reap | Store (i : nat) | Return (i : nat) | Crash (i : nat) | ResetStep | MonitorStep | Consume.

Definition step (l : label) (s : state) : option state :=
  match l with
  | Proc => processor s
  | Reap => reap_in_drain s
  | Store i => store i s
  | Return i => return_task i s
  | Crash i => crash i s
  | ResetStep => reset_staleness s
  | MonitorStep => monitor_loop s
  | Consume => consume s
  end.

Fixpoint run (ls : list label) (s : state) : option state :=
  match ls with
  | [] => Some s
  | l :: ls => match step l s with Some s => run ls s | None => None end
  end.

(** Nothing but an idle poll of the monitor can happen: every coroutine is
    blocked or over. *)
Definition blocked (s : state) : bool :=
  let tasks := seq 0 (length (active_tasks s)) in
  let off l := match step l s with None => true | Some _ => false end in
  off Proc && off Reap && off ResetStep && off Consume &&
  forallb (λ i, off (Store i) && off (Return i)) tasks &&
  match monitor s with
  | Sleeping => negb (paused s) || should_pause (queue_size s) s
  | _ => false
  end.

(** Samples being generated, popped but not submitted, and in the queue. *)
Definition gens (l : list task) : nat := length (filter (λ t, generating t = true) l).
Definition in_generation (s : state) : nat := gens (active_tasks s).
Definition held (s : state) : nat := match at_pc s with Holding _ | Limiting _ => 1 | _ => 0 end.
Definition in_system (s : state) : nat := in_generation s + queue_size s + held s.

(** Samples the trainer took since the last weight update. *)
Definition consumed_since (s : state) : nat :=
  (local_trigger_step (fit s) - 1) * required_samples cfg + length (queue_samples (fit s)).

Inductive reachable (stream : list nat) : state → Prop :=
  | reach_init q : init_queue (Some (Z.of_nat (max_queue cfg))) = Ok q → reachable stream (init_state q stream)
  | reach_step s l s' : reachable stream s → step l s = Some s' → reachable stream s'.

(** ** Counting tasks *)

Lemma gens_app l1 l2 : gens (l1 ++ l2) = gens l1 + gens l2.
Proof using Type. unfold gens. by rewrite filter_app, length_app. Qed.

Lemma gens_length l : gens l ≤ length l.
Proof using Type. apply length_filter. Qed.

Lemma gens_one t : gens [t] = if generating t then 1 else 0.
Proof using Type. unfold gens. rewrite filter_cons. by destruct (generating t). Qed.

(** Reaping only removes tasks that no longer generate. *)
Lemma gens_reaped l : gens (unfinished l) = gens l.
Proof using Type.
  unfold unfinished. induction l as [|t l IH]; [done|]. rewrite filter_cons. change (t :: l) with ([t] ++ l).
  rewrite gens_app, gens_one, <-IH. destruct (done t) eqn:Hd.
  - rewrite decide_False by done. unfold done, generating in *. by destruct (t_status t).
  - rewrite decide_True by done. change (t :: ?k) with ([t] ++ k). by rewrite gens_app, gens_one.
Qed.

Lemma gens_insert l i t t' : l !! i = Some t →
  gens (<[i := t']> l) + (if generating t then 1 else 0) = gens l + (if generating t' then 1 else 0).
Proof using Type.
  intros Hi. rewrite <-(take_drop_middle l i t Hi) at 2.
  rewrite insert_take_drop by (by apply lookup_lt_Some in Hi).
  change (?a :: ?k) with ([a] ++ k). rewrite !gens_app, !gens_one. lia.
Qed.

Lemma reap_inv next s s' : reap next s = Some s' →
  ∃ p, (p = next ∨ p = Died) ∧
    s' = s <| active_tasks := unfinished (active_tasks s) |> <| at_pc := p |>.
Proof using Type.
  unfold reap. destruct (filter (λ t, done t = true) (active_tasks s)) as [|t l]; [done|]. intros [= <-].
  exists (if existsb failed (t :: l) then Died else next). split; [|done].
  destruct (existsb failed (t :: l)); auto.
Qed.

Lemma put_bounds (x : nat) (q q' : queue) r :
  put_sample x q = (r, q') → length (q_samples q) ≤ MessageQueue.max_queue_size q →
  MessageQueue.max_queue_size q' = MessageQueue.max_queue_size q ∧
  length (q_samples q') ≤ MessageQueue.max_queue_size q ∧ length (q_samples q') ≤ S (length (q_samples q)).
Proof using Type.
  unfold put_sample. intros H Hlen. destruct (Nat.leb_spec (MessageQueue.max_queue_size q) (length (q_samples q))).
  - destruct (q_samples q) as [|y l] eqn:Eq; [by injection H as _ <-; rewrite Eq; auto with lia|].
    injection H as _ <-. cbn in *. rewrite deque_append_room by lia. rewrite length_app. cbn. lia.
  - injection H as _ <-. cbn. rewrite deque_append_room by lia. rewrite length_app. cbn. lia.
Qed.

(** ** The invariant *)

(** Who holds the lock, against the two coroutines that wait while holding it. *)
Definition lock_ok (s : state) : Prop :=
  (lock s = Some Processor ↔ match at_pc s with Limiting _ | LastTasks => True | _ => False end) ∧
  (lock s = Some Resetter ↔ match resetting s with Counted _ | Answered _ => True | _ => False end).

(** What the reset has read covers the samples that generate or are queued. *)
Definition reset_ok (s : state) : Prop :=
  match resetting s with
  | Counted n => gens (active_tasks s) ≤ n
  | Answered v => gens (active_tasks s) + queue_size s ≤ v
  | _ => True
  end.

Definition bound_ok (s : state) : Prop :=
  in_system s ≤ S (staleness_samples s) ∧ in_system s ≤ S (max_required_samples cfg) ∧
  (at_pc s = Getting → in_system s ≤ max_required_samples cfg).

Definition flags_ok (s : state) : Prop :=
  resume_event s = negb (paused s) ∧ (paused s = true → at_pc s = Draining ∨ at_pc s = Died).

Definition queue_ok (s : state) : Prop :=
  MessageQueue.max_queue_size (mq s) = max_queue cfg ∧ queue_size s ≤ max_queue cfg.

Definition fit_ok (s : state) : Prop :=
  1 ≤ local_trigger_step (fit s) ≤ trigger_parameter_sync_step cfg ∧
  length (queue_samples (fit s)) < required_samples cfg.

Record inv (s : state) : Prop := {
  inv_lock : lock_ok s; inv_reset : reset_ok s; inv_bound : bound_ok s;
  inv_flags : flags_ok s; inv_queue : queue_ok s; inv_fit : fit_ok s }.

Hypothesis required_pos : 0 < required_samples cfg.
Hypothesis trigger_pos : 0 < trigger_parameter_sync_step cfg.

Lemma inv_init stream q : init_queue (Some (Z.of_nat (max_queue cfg))) = Ok q → inv (init_state q stream).
Proof.
  intros H. unfold init_queue in H. inv_oks H. subst q.
  split; cbn; unfold lock_ok, reset_ok, bound_ok, flags_ok, queue_ok, fit_ok, in_system, in_generation, queue_size; cbn;
    rewrite ?Nat2Z.id; try done; try (repeat split; cbn; lia); repeat split; by intros.
Qed.

(** A step on a destructed state: the lock and the flags decide what is possible. *)
Ltac open_inv :=
  unfold lock_ok, reset_ok, bound_ok, flags_ok, queue_ok, fit_ok, in_system, in_generation, queue_size, held, pause, resume, constant in *;
  cbn -[gens unfinished] in *.
Ltac absurd_lock :=
  exfalso; match goal with
  | HL : ?P ↔ False |- _ => apply HL; reflexivity
  | HL : ?P ↔ True |- _ => assert P by (by apply HL); discriminate
  end.
Ltac close_inv :=
  try absurd_lock;
  repeat match goal with E : ?x = ?x → _ |- _ => specialize (E eq_refl) end;
  split; open_inv; rewrite ?gens_reaped, ?gens_app, ?gens_one; cbn -[gens unfinished];
  repeat split; intros; simplify_eq; try done; try tauto; try lia; auto.
Ltac by_cases s H :=
  let l := fresh "lk" in let r := fresh "rs" in let p := fresh "p" in
  destruct s as [pa ev st act pend p l q r mo fi g d c]; open_inv; destruct_and?; subst ev;
  destruct pa; [assert (p = Draining ∨ p = Died) as [?|?] by auto; subst p|];
  destruct l as [[]|], r as [| |n1|n1]; try absurd_lock;
  cbn -[gens unfinished] in H.

(** Take the branches of the step apart. *)
Ltac branches H :=
  repeat match type of H with
  | context [should_pause ?n ?s] =>
      let E := fresh "E" in
      destruct (should_pause n s) eqn:E; cbn -[gens unfinished] in H;
      [clear E | apply orb_false_iff in E as [_ E%Nat.leb_gt]; cbn in E]
  | Some _ = Some _ => injection H as <-
  | None = Some _ => discriminate H
  | reap _ _ = Some _ =>
      let E := fresh "E" in apply reap_inv in H as (? & [->| ->] & E); cbn -[gens unfinished] in E; subst
  | context [match ?x with _ => _ end] =>
      lazymatch type of x with
      | option state => let E := fresh "E" in destruct x eqn:E; [branches E|]
      | pc => destruct x
      | _ => destruct x eqn:?
      end; cbn -[gens unfinished] in H
  end.

Lemma step_processor_inv s s' : inv s → processor s = Some s' → inv s'.
Proof.
  intros [HL HR HB HF HQ HT] H. unfold processor, constant in H.
  by_cases s H.
  all: branches H.
  all: close_inv.
Qed.

Lemma step_reap_in_drain_inv s s' : inv s → reap_in_drain s = Some s' → inv s'.
Proof.
  intros [HL HR HB HF HQ HT] H. unfold reap_in_drain, constant in H.
  by_cases s H. all: branches H. all: close_inv.
Qed.

Ltac split_getting :=
  let E := fresh "E" in
  split; [lia|]; split; [lia|]; intros E;
  match goal with F : ?p = Getting → _, E : ?p = Getting |- _ => specialize (F E) end; lia.

Lemma step_store_inv i s s' : inv s → store i s = Some s' → inv s'.
Proof.
  intros [HL HR HB HF HQ HT] H. unfold store, constant in H.
  destruct (active_tasks s !! i) as [[x st]|] eqn:Hi; [|done].
  destruct st; try done. destruct (put_sample x (mq s)) as [r q'] eqn:Hput.
  assert (Hlen : length (q_samples (mq s)) ≤ MessageQueue.max_queue_size (mq s))
    by (destruct HQ as [-> HQ]; exact HQ).
  destruct (put_bounds _ _ _ _ Hput Hlen) as (Hmax & Hle & HS).
  set (st' := match r with Ok success => Stored success | Raise _ => Crashed end) in H.
  pose proof (gens_insert _ _ _ {| t_sample := x; t_status := st' |} Hi) as Hg.
  assert (Hst : generating {| t_sample := x; t_status := st' |} = false) by (by subst st'; destruct r).
  rewrite Hst in Hg. cbn -[gens] in Hg. clearbody st'.
  injection H as <-. destruct s as [pa ev st act pend p l q rs mo fi g d c].
  open_inv. destruct_and?. split; open_inv; try tauto; try (destruct rs; tauto || lia).
  split_getting.
Qed.

Lemma step_crash_inv i s s' : inv s → crash i s = Some s' → inv s'.
Proof.
  intros [HL HR HB HF HQ HT] H. unfold crash, constant in H.
  destruct (active_tasks s !! i) as [[x st]|] eqn:Hi; [|done]. destruct st; try done.
  pose proof (gens_insert _ _ _ {| t_sample := x; t_status := Crashed |} Hi) as Hg. cbn -[gens] in Hg.
  injection H as <-. destruct s as [pa ev st act pend p l q rs mo fi g d c].
  open_inv. destruct_and?. split; open_inv; try tauto; try (destruct rs; tauto || lia).
Qed.

Lemma step_return_inv i s s' : inv s → return_task i s = Some s' → inv s'.
Proof.
  intros [HL HR HB HF HQ HT] H. unfold return_task, constant in H.
  destruct (active_tasks s !! i) as [[x st]|] eqn:Hi; [|done]. destruct st as [|b| |]; try done.
  pose proof (gens_insert _ _ _ {| t_sample := x; t_status := Finished |} Hi) as Hg. cbn -[gens] in Hg.
  assert (Hg' : gens (<[i := {| t_sample := x; t_status := Finished |}]> (active_tasks s)) = gens (active_tasks s)) by lia.
  injection H as <-. destruct s as [pa ev st act pend p l q rs mo fi g d c].
  destruct b; open_inv; destruct_and?; split; open_inv; rewrite ?Hg'; tauto.
Qed.

Lemma step_reset_inv s s' : inv s → reset_staleness s = Some s' → inv s'.
Proof.
  intros [HL HR HB HF HQ HT] H. unfold reset_staleness, constant in H.
  by_cases s H. all: branches H. all: try destruct p. all: close_inv.
  all: apply gens_length.
Qed.

Lemma step_monitor_inv s s' : inv s → monitor_loop s = Some s' → inv s'.
Proof.
  intros [HL HR HB HF HQ HT] H. unfold monitor_loop, constant in H.
  by_cases s H. all: branches H. all: close_inv.
Qed.

Lemma consumed_update t : 1 ≤ local_trigger_step t ≤ trigger_parameter_sync_step cfg →
  1 ≤ local_trigger_step (fit_update_local_step t) ≤ trigger_parameter_sync_step cfg ∧
  queue_samples (fit_update_local_step t) = queue_samples t.
Proof.
  intros Ht. unfold fit_update_local_step. destruct (Nat.ltb_spec (local_trigger_step t) (trigger_parameter_sync_step cfg));
    destruct t; unfold constant; cbn in *; (split; [lia | done]).
Qed.

Lemma step_consume_inv s s' : inv s → consume s = Some s' → inv s'.
Proof.
  intros [HL HR HB HF HQ HT] H. unfold consume, constant in H.
  destruct (resetting s) eqn:Hrs; try done. unfold get_sample in H.
  destruct (q_samples (mq s)) as [|x rest] eqn:Hq; [by destruct (running (mq s))|]. cbn zeta in H.
  assert (Hlen : length (q_samples (mq s)) = S (length rest)) by (by rewrite Hq).
  set (q' := {| MessageQueue.max_queue_size := _ |}) in H.
  assert (Hq' : length (q_samples q') = length rest ∧
                MessageQueue.max_queue_size q' = MessageQueue.max_queue_size (mq s)) by done.
  clearbody q'. destruct s as [pa ev st act pend p l q rs mo fi g d c]. cbn in *. subst rs.
  assert (HT' : 1 ≤ local_trigger_step (fi <| queue_samples := [] |>) ≤ trigger_parameter_sync_step cfg)
    by (by destruct fi, HT).
  apply consumed_update in HT' as [Hlts Hqs].
  set (t := fit_update_local_step _) in *. clearbody t.
  destruct (Nat.leb_spec (required_samples cfg) (length (queue_samples fi ++ [x]))) as [Hfull|Hroom];
    injection H as <-; split; open_inv; destruct_and?; rewrite ?Hqs in *; try tauto; try lia.
    all: destruct (Nat.eqb (local_trigger_step t) 1); tauto.
Qed.

Lemma step_inv l s s' : inv s → step l s = Some s' → inv s'.
Proof.
  destruct l; cbn.
  - apply step_processor_inv. - apply step_reap_in_drain_inv. - apply step_store_inv.
  - apply step_return_inv. - apply step_crash_inv. - apply step_reset_inv.
  - apply step_monitor_inv. - apply step_consume_inv.
Qed.

Lemma reachable_inv stream s : reachable stream s → inv s.
Proof. induction 1; [by apply inv_init | by eapply step_inv]. Qed.

Lemma run_reachable stream ls : ∀ s s', reachable stream s → run ls s = Some s' → reachable stream s'.
Proof using Type.
  induction ls as [|l ls IH]; intros s s' Hs; cbn; [by intros [= <-]|].
  destruct (step l s) as [s1|] eqn:E; [|done]. intros H. by apply (IH s1 s'); [eapply reach_step|].
Qed.

(** ** Between two assignments of the counter *)

Definition assigns (l : label) (s : state) : bool :=
  match l, resetting s with ResetStep, Answered _ => true | _, _ => false end.

(** No step of the run is the assignment of [reset_staleness]. *)
Fixpoint keeps_counter (ls : list label) (s : state) : bool :=
  match ls with
  | [] => true
  | l :: ls => negb (assigns l s) && match step l s with Some s => keeps_counter ls s | None => true end
  end.

(** Samples popped from [pending_queue] between two states. *)
Definition started (s0 s : state) : nat := length (pending s0) - length (pending s).

Definition since (s0 s : state) : Prop :=
  length (pending s) ≤ length (pending s0) ∧ staleness_samples s0 + started s0 s ≤ staleness_samples s ∧
  in_system s0 + started s0 s ≤ S (max_required_samples cfg) ∧
  (at_pc s = Getting → in_system s0 + started s0 s ≤ max_required_samples cfg).

Lemma since_refl s : inv s → since s s.
Proof.
  intros [_ _ (_ & HB & HG) _ _ _]. unfold since, started. rewrite Nat.sub_diag, !Nat.add_0_r. by split_and!.
Qed.

(** Only the processor pops samples, counts them and goes on to the next. *)
Lemma others_keep l s s' : step l s = Some s' → l ≠ Proc → assigns l s = false →
  pending s' = pending s ∧ staleness_samples s' = staleness_samples s ∧ (at_pc s' = Getting → at_pc s = Getting).
Proof.
  intros H Hl Ha. destruct s as [pa ev st act pend p lk q rs mo fi g d c], l; cbn -[should_pause] in H; try done.
  all: unfold reap_in_drain, store, return_task, crash, reset_staleness, monitor_loop, consume, constant, pause, resume in H;
    cbn -[should_pause reap] in H.
  all: branches H; repeat case_match; cbn in *; by split_and!.
Qed.

Lemma processor_since s0 s s' : inv s0 → since s0 s → processor s = Some s' → since s0 s'.
Proof.
  intros [_ _ (HB & _ & _) _ _ _] (Hlen & Hst & Hmax & HG) H. unfold since, started in *.
  destruct s as [pa ev st act pend p lk q rs mo fi g d c]. unfold processor in H. cbn -[unfinished reap should_pause] in *.
  destruct p; branches H; unfold constant, pause in *; cbn -[unfinished] in *;
    repeat match goal with E : ?x = ?x → _ |- _ => specialize (E eq_refl) end;
    split_and!; try done; try (by intros; repeat case_match; discriminate); try lia.
Qed.

Lemma run_since ls : ∀ s0 s s', inv s0 → inv s → since s0 s → run ls s = Some s' → keeps_counter ls s = true → since s0 s'.
Proof.
  induction ls as [|l ls IH]; intros s0 s s' H0 Hs Hsince; cbn [run keeps_counter]; [by intros [= <-]|].
  destruct (step l s) as [s1|] eqn:E; [|done]. intros Hrun [Ha Hk]%andb_true_iff. apply negb_true_iff in Ha.
  apply (IH s0 s1 s' H0); [by eapply step_inv| |done|done].
  assert (l = Proc ∨ l ≠ Proc) as [->|Hl] by (destruct l; auto); [by apply (processor_since s0 s)|].
  destruct (others_keep l s s1 E Hl Ha) as (Hp & Hst & HG). unfold since, started in *. rewrite Hp, Hst. intuition.
Qed.

(** ** Deadlock *)

Lemma consumed_since_lt s : fit_ok s →
  consumed_since s < required_samples cfg * trigger_parameter_sync_step cfg.
Proof. unfold fit_ok, consumed_since. nia. Qed.

(** A task that cannot be reaped can still move. *)
Lemma task_moves next s t l :
  active_tasks s = t :: l → reap next s = None → store 0 s = None → return_task 0 s = None → False.
Proof using Type.
  unfold reap, store, return_task. intros Ha. rewrite Ha. cbn.
  destruct t as [x [| | |]]; cbn; [destruct (put_sample x (mq s))|..]; done.
Qed.

Lemma blocked_inv s : blocked s = true →
  processor s = None ∧ reap_in_drain s = None ∧ reset_staleness s = None ∧ consume s = None ∧
  (∀ i, i < length (active_tasks s) → store i s = None ∧ return_task i s = None) ∧
  match monitor s with
  | Sleeping => negb (paused s) || should_pause (queue_size s) s = true
  | _ => False
  end.
Proof.
  unfold blocked. cbn [step].
  assert (Hoff : ∀ o : option state, match o with None => true | Some _ => false end = true → o = None)
    by (by intros []).
  intros H. repeat (apply andb_true_iff in H as [H ?]).
  repeat split; try (by apply Hoff).
  - match goal with F : forallb _ _ = true |- _ => rewrite forallb_forall in F;
      specialize (F i ltac:(apply in_seq; lia)); apply andb_true_iff in F as [F _] end. by apply Hoff.
  - match goal with F : forallb _ _ = true |- _ => rewrite forallb_forall in F;
      specialize (F i ltac:(apply in_seq; lia)); apply andb_true_iff in F as [_ F] end. by apply Hoff.
  - by destruct (monitor s).
Qed.

Lemma blocked_lock s : inv s → blocked s = true → lock s = None ∧ resetting s = NoReset.
Proof.
  intros [[HL1 HL2] _ _ _ _ _] (Hp & _ & Hr & _ & Ht & _)%blocked_inv.
  assert (Hproc : lock s ≠ Some Processor).
  { intros Hlk. apply HL1 in Hlk. unfold processor in Hp.
    destruct (at_pc s); try done; destruct (active_tasks s) as [|t l] eqn:Ha; try done;
      (destruct (reap _ s) eqn:Hreap in Hp; [done|]);
      destruct (Ht 0 ltac:(cbn; lia)); by eapply task_moves. }
  unfold reset_staleness in Hr.
  destruct (resetting s); try done; destruct (lock s) as [[]|]; try done; exfalso; tauto.
Qed.

Lemma blocked_draining s : inv s → blocked s = true →
  at_pc s = Draining ∨ at_pc s = Ended ∨ at_pc s = Died.
Proof.
  intros Hinv Hb. destruct (blocked_lock s Hinv Hb) as [Hlk _].
  destruct Hinv as [[HL1 _] _ _ [HF1 HF2] _ _]. apply blocked_inv in Hb as (Hp & _ & _ & _ & _ & _).
  unfold processor in Hp. rewrite Hlk in Hp, HL1.
  destruct (at_pc s) eqn:Hpc; try done; auto.
  - cbn zeta in Hp. by destruct (pending _) in Hp.
  - destruct (Nat.leb _ _); [done|]. rewrite HF1 in Hp.
    destruct (paused s); [by destruct (HF2 eq_refl) | done].
  - exfalso. by assert (None = Some Processor) by (by apply HL1).
  - by destruct (active_tasks s).
  - exfalso. by assert (None = Some Processor) by (by apply HL1).
Qed.

(** ** Properties *)

(** C17: The staleness bound.  Take any reachable state and any run from it, in whatever
    interleaving of the processor, the tasks, the resets, the monitor and the trainer, in
    which [reset_staleness] does not assign the counter.  The samples in generation, popped or
    queued at its start together with all that are popped during the run, whether the trainer
    has consumed them or not, number at most one more than [max_required_samples].  So do
    those in generation, popped or queued at its end, and the queue is within its capacity. *)
Theorem staleness_bounded stream s ls s' : reachable stream s → run ls s = Some s' → keeps_counter ls s = true →
  in_system s + (length (pending s) - length (pending s')) ≤ max_required_samples cfg + 1 ∧
  in_system s' ≤ max_required_samples cfg + 1 ∧ queue_size s' ≤ max_queue cfg.
Proof.
  intros Hs Hrun Hk. pose proof (reachable_inv _ _ Hs) as Hinv.
  destruct (run_since ls s s s' Hinv Hinv (since_refl s Hinv) Hrun Hk) as (_ & _ & HB & _).
  apply (run_reachable _ _ _ _ Hs), reachable_inv in Hrun as [_ _ (_ & HB' & _) _ [_ HQ] _].
  fold (started s s'). lia.
Qed.

(** C18: The ways the program can come to a halt.  In a reachable state in which every coroutine
    is blocked, either the processor has ended, or it died of a task's exception, or the run
    has stalled in exactly one way: the processor waits for the resume signal with no task
    and nothing queued or popped, the counter has reached [max_required_samples], and the
    trainer holds fewer samples than a weight update, the only thing that lowers the counter,
    takes.  Counting a finished task twice makes the counter that large: [double_count_stalls]. *)
Theorem no_deadlock stream s :
  max_queue cfg = max_required_samples cfg → reachable stream s → blocked s = true →
  at_pc s = Ended ∨ at_pc s = Died ∨
  (at_pc s = Draining ∧ active_tasks s = [] ∧ in_system s = 0 ∧ max_required_samples cfg ≤ staleness_samples s ∧
   consumed_since s < required_samples cfg * trigger_parameter_sync_step cfg).
Proof.
  intros HM Hreach Hb. apply reachable_inv in Hreach.
  destruct (blocked_draining s Hreach Hb) as [Hd|[?|?]]; [right; right|by left|by right; left].
  destruct (blocked_lock s Hreach Hb) as [Hlk Hrs].
  destruct Hreach as [_ _ _ [HF1 HF2] [HQ1 HQ2] HT].
  apply blocked_inv in Hb as (Hp & _ & _ & Hc & Ht & Hm).
  unfold processor in Hp. rewrite Hd, Hlk in Hp. destruct (resume_event s) eqn:Hev; [done|].
  assert (Hact : active_tasks s = []).
  { destruct (active_tasks s) as [|t l] eqn:Ha; [done|]. exfalso.
    destruct (Ht 0 ltac:(cbn; lia)). by eapply task_moves. }
  assert (Hempty : queue_size s = 0).
  { unfold consume, get_sample in Hc. rewrite Hrs in Hc. unfold queue_size.
    destruct (q_samples (mq s)); [done|]. cbn zeta in Hc. by destruct (Nat.leb _ _). }
  destruct (monitor s); try done.
  destruct (paused s); [|done]. cbn in Hm. unfold should_pause in Hm. rewrite Hempty, HM in Hm.
  assert (max_required_samples cfg ≤ staleness_samples s).
  { apply orb_true_iff in Hm as [Hm%Nat.leb_le|Hm%Nat.leb_le]; lia. }
  pose proof (consumed_since_lt s HT). unfold in_system, in_generation, held. rewrite Hd, Hact, Hempty.
  split_and!; try done; lia.
Qed.

(** ** The staleness ledger *)

(** What the trainer took since the assignment of [staleness_samples]: a reset
    in progress has a full quota behind it. *)
Definition taken (s : state) : nat :=
  match resetting s with
  | NoReset => consumed_since s
  | _ => required_samples cfg * trigger_parameter_sync_step cfg
  end.

(** How far the counter is ahead of the samples in the system and those taken. *)
Definition excess (s : state) : Z :=
  (Z.of_nat (staleness_samples s) - Z.of_nat (in_system s) - Z.of_nat (taken s))%Z.

Lemma put_size (x : nat) (q q' : queue) r :
  put_sample x q = (r, q') → length (q_samples q) ≤ MessageQueue.max_queue_size q → 0 < MessageQueue.max_queue_size q →
  length (q_samples q') + (if Nat.eqb (length (q_samples q)) (MessageQueue.max_queue_size q) then 1 else 0) =
  S (length (q_samples q)).
Proof.
  unfold put_sample. intros H Hlen Hpos.
  destruct (Nat.leb_spec (MessageQueue.max_queue_size q) (length (q_samples q))) as [Hf|Hf].
  - rewrite (proj2 (Nat.eqb_eq _ _)) by lia.
    destruct (q_samples q) as [|y l]; cbn in Hf, Hlen; [lia|]. injection H as _ <-. cbn.
    rewrite deque_append_room by lia. rewrite length_app. cbn. lia.
  - rewrite (proj2 (Nat.eqb_neq _ _)) by lia.
    injection H as _ <-. cbn. rewrite deque_append_room by lia. rewrite length_app. cbn. lia.
Qed.

Lemma excess_reap next s s' : reap next s = Some s' → held (s <| at_pc := next |>) = held s →
  at_pc s' ≠ Died → excess s' = excess s.
Proof.
  intros H Hh Hd. apply reap_inv in H as (p & [->| ->] & ->); [|done].
  unfold excess, in_system, in_generation, held, queue_size, taken, consumed_since, constant in *.
  destruct s as [pa ev st act pend p l q rs mo fi g d c]. cbn -[gens unfinished] in *.
  rewrite gens_reaped, Hh. done.
Qed.

Ltac open_excess :=
  unfold excess, in_system, in_generation, held, queue_size, taken, consumed_since, pause, resume, constant in *;
  cbn -[gens unfinished] in *; rewrite ?gens_reaped, ?gens_app, ?gens_one; cbn -[gens unfinished] in *.

Lemma excess_processor s s' : inv s → processor s = Some s' → at_pc s' ≠ Ending → at_pc s' ≠ Died →
  excess s' = excess s.
Proof.
  intros _ H He Hd. unfold processor in H.
  destruct s as [pa ev st act pend p l q r mo fi g d c]; cbn -[gens unfinished reap should_pause] in H, He, Hd.
  destruct p; branches H; unfold constant in *; cbn -[gens unfinished] in He, Hd; try done;
    try (destruct pa); open_excess; try lia.
Qed.

Lemma excess_update i x st st' act : act !! i = Some {| t_sample := x; t_status := st |} →
  generating {| t_sample := x; t_status := st' |} = false →
  gens (<[i := {| t_sample := x; t_status := st' |}]> act) +
    (if generating {| t_sample := x; t_status := st |} then 1 else 0) = gens act.
Proof.
  intros Hi Hg. pose proof (gens_insert _ _ _ {| t_sample := x; t_status := st' |} Hi) as H.
  rewrite Hg in H. lia.
Qed.

Lemma excess_store i s s' : inv s → 0 < max_queue cfg → store i s = Some s' →
  excess s' = (excess s + (if Nat.eqb (queue_size s) (max_queue cfg) then 1 else 0))%Z.
Proof.
  intros [_ _ _ _ [HM HQ] _] Hpos H. unfold store in H.
  destruct (active_tasks s !! i) as [[x st]|] eqn:Hi; [|done].
  destruct st; try done. destruct (put_sample x (mq s)) as [r q'] eqn:Hput.
  pose proof (put_size _ _ _ _ Hput) as Hs. rewrite HM in Hs.
  specialize (Hs HQ Hpos). unfold queue_size at 1.
  set (st' := match r with Ok success => Stored success | Raise _ => Crashed end) in H.
  assert (Hg : generating {| t_sample := x; t_status := st' |} = false) by (subst st'; by destruct r).
  clearbody st'. pose proof (excess_update _ _ _ _ _ Hi Hg) as He.
  injection H as <-. destruct s as [pa ev st act pend p l q rs mo fi g d c]. open_excess.
  destruct (Nat.eqb _ _); lia.
Qed.

Lemma excess_crash i s s' : crash i s = Some s' → excess s' = (excess s + 1)%Z.
Proof.
  intros H. unfold crash in H.
  destruct (active_tasks s !! i) as [[x st]|] eqn:Hi; [|done]. destruct st; try done.
  pose proof (excess_update _ _ _ Crashed _ Hi eq_refl) as He.
  injection H as <-. destruct s as [pa ev st act pend p l q rs mo fi g d c]. open_excess. lia.
Qed.

Lemma excess_return i s s' : return_task i s = Some s' → excess s' = excess s.
Proof.
  intros H. unfold return_task in H.
  destruct (active_tasks s !! i) as [[x st]|] eqn:Hi; [|done]. destruct st as [|b| |]; try done.
  pose proof (excess_update _ _ _ Finished _ Hi eq_refl) as He.
  injection H as <-. destruct s as [pa ev st act pend p l q rs mo fi g d c]. destruct b; open_excess; lia.
Qed.

Lemma excess_reset s s' : reset_staleness s = Some s' →
  excess s' = match resetting s with
              | Answered v => (Z.of_nat v - Z.of_nat (in_system s) - Z.of_nat (consumed_since s))%Z
              | _ => excess s
              end.
Proof.
  intros H. unfold reset_staleness in H.
  destruct s as [pa ev st act pend p l q rs mo fi g d c]; cbn in H |- *.
  destruct rs; try done; [destruct l; [done|]|..]; injection H as <-; open_excess; done.
Qed.

Lemma excess_monitor s s' : monitor_loop s = Some s' → excess s' = excess s.
Proof.
  intros H. unfold monitor_loop in H.
  destruct s as [pa ev st act pend p l q rs mo fi g d c]; cbn -[should_pause] in H.
  branches H; open_excess; done.
Qed.

Lemma consumed_full t : 1 ≤ local_trigger_step t ≤ trigger_parameter_sync_step cfg →
  local_trigger_step (fit_update_local_step t) =
    (if Nat.eqb (local_trigger_step t) (trigger_parameter_sync_step cfg) then 1 else S (local_trigger_step t)).
Proof.
  intros Ht. unfold fit_update_local_step.
  destruct (Nat.ltb_spec (local_trigger_step t) (trigger_parameter_sync_step cfg)),
    (Nat.eqb_spec (local_trigger_step t) (trigger_parameter_sync_step cfg)); destruct t; cbn in *; try done; lia.
Qed.

Lemma excess_consume s s' : inv s → consume s = Some s' → excess s' = excess s.
Proof.
  intros [_ _ _ _ _ [HT HT2]] H. unfold consume in H.
  destruct (resetting s) eqn:Hrs; try done. unfold get_sample in H.
  destruct (q_samples (mq s)) as [|x rest] eqn:Hq; [by destruct (running (mq s))|]. cbn zeta in H.
  assert (Hlen : length (q_samples (mq s)) = S (length rest)) by (by rewrite Hq).
  set (q' := {| MessageQueue.max_queue_size := _ |}) in H.
  assert (Hq' : length (q_samples q') = length rest) by done. clearbody q'.
  destruct s as [pa ev st act pend p l q rs mo fi g d c]. cbn in *. subst rs.
  assert (Hupd : local_trigger_step (fit_update_local_step (fi <| queue_samples := [] |>)) =
    (if Nat.eqb (local_trigger_step fi) (trigger_parameter_sync_step cfg) then 1 else S (local_trigger_step fi)))
    by (rewrite consumed_full; by destruct fi).
  assert (Hqs : queue_samples (fit_update_local_step (fi <| queue_samples := [] |>)) = []).
  { unfold fit_update_local_step. destruct (Nat.ltb _ _); by destruct fi. }
  set (t := fit_update_local_step _) in *. clearbody t. rewrite length_app in H. cbn in H.
  destruct (Nat.leb_spec (required_samples cfg) (length (queue_samples fi) + 1)) as [Hfull|Hroom];
    injection H as <-; open_excess.
  - rewrite Hqs, Hupd in *. destruct (Nat.eqb_spec (local_trigger_step fi) (trigger_parameter_sync_step cfg)) as [E|E]; cbn.
    + rewrite <-E. nia.
    + destruct (local_trigger_step fi) as [|[|k]]; cbn; nia.
  - destruct fi. cbn in *. rewrite length_app. cbn. lia.
Qed.

(** The staleness counter is a ledger: as long as no sample is evicted from a
    full queue and no task fails, every step but the last one of a reset keeps
    its distance to the samples in the system and those taken by the trainer;
    the reset sets that distance to what it counted twice (tasks already stored
    when it counted them) minus the popped sample it does not see. *)
Theorem staleness_ledger stream s l s' :
  0 < max_queue cfg → reachable stream s → step l s = Some s' → at_pc s' ≠ Ending → at_pc s' ≠ Died →
  excess s' =
    match l, resetting s with
    | ResetStep, Answered v => Z.of_nat v - Z.of_nat (in_system s) - Z.of_nat (consumed_since s)
    | Crash _, _ => excess s + 1
    | Store _, _ => excess s + (if Nat.eqb (queue_size s) (max_queue cfg) then 1 else 0)
    | _, _ => excess s
    end%Z.
Proof.
  intros Hpos Hinv%reachable_inv H He Hd. destruct l; cbn in H.
  - by apply excess_processor.
  - unfold reap_in_drain in H. destruct (at_pc s) eqn:Hpc, (lock s); try done.
    apply (excess_reap Draining); [done | | done]. destruct s. cbn in *. by subst.
  - by apply excess_store in H.
  - by apply excess_return in H.
  - by apply excess_crash in H.
  - apply excess_reset in H. by destruct (resetting s).
  - by apply excess_monitor in H.
  - by apply excess_consume.
Qed.
End rollouter.

(** ** The limits and the feed *)

Lemma limits_spec required trigger steps replicas thr cfg :
  (0 <= thr)%Q → set_max_required_samples required trigger steps replicas thr = Ok cfg →
  0 < required_samples cfg ∧ 0 < trigger_parameter_sync_step cfg ∧
  max_queue cfg = max_required_samples cfg ∧
  max_concurrent_samples cfg ≤ max_required_samples cfg ∧
  required_samples cfg * trigger_parameter_sync_step cfg ≤ max_required_samples cfg.
Proof.
  intros Ht H. unfold set_max_required_samples in H. cbv zeta in H.
  remember (Qfloor _) as f eqn:Hf in H. inv_oks H. subst cfg.
  cbn [required_samples trigger_parameter_sync_step max_required_samples max_concurrent_samples max_queue].
  apply negb_true_iff, Nat.eqb_neq in Hreq.
  split; [nia|]. split; [nia|]. split; [done|]. split; [lia|].
  set (r := inject_Z (Z.of_nat required)). set (t := inject_Z (Z.of_nat trigger)).
  assert (Hr : (0 <= r)%Q) by (change (inject_Z 0 <= inject_Z (Z.of_nat required))%Q; rewrite <-Zle_Qle; lia).
  assert (Htr : (0 <= t)%Q) by (change (inject_Z 0 <= inject_Z (Z.of_nat trigger))%Q; rewrite <-Zle_Qle; lia).
  assert (Hle : (inject_Z (Z.of_nat (required * trigger)) <= r * (thr + 1) * t)%Q).
  { rewrite Nat2Z.inj_mul, inject_Z_mult. fold r t. clearbody r t.
    apply Qmult_le_compat_r; [|done].
    assert (r * (thr + 1) == r + r * thr)%Q by ring.
    assert (0 <= r * thr)%Q by (by apply Qmult_le_0_compat). lra. }
  apply Qfloor_resp_le in Hle. rewrite Qfloor_Z in Hle. unfold r, t in Hle. rewrite <-Hf in Hle. lia.
Qed.

Lemma feed_count total g epochs : g ≤ total →
  ∃ l, (feed_samples total g epochs).1 = (Some <$> l) ++ [None] ∧
    length l = Nat.min (length epochs) (total + 1 - g).
Proof.
  revert g. induction epochs as [|e epochs IH]; intros g Hg; cbn [feed_samples]; [by exists []|].
  destruct (Nat.leb_spec total g) as [Hle|Hlt].
  - exists [(e, g)]. split; [done|]. cbn [length]. lia.
  - destruct (IH (S g) ltac:(lia)) as (l & Hl & Hlen).
    destruct (feed_samples total (S g) epochs) as [rest g']. cbn [fst] in *.
    exists ((e, g) :: l). split; [by rewrite Hl|]. cbn [length]. lia.
Qed.

(** ** Concrete runs *)

Definition fresh_queue (n : nat) : queue (A := nat) :=
  {| MessageQueue.max_queue_size := n; q_samples := []; val_queue := []; running := true;
     total_produced := 0; total_consumed := 0; dropped_samples := 0 |}.

(** One sample per step, a threshold of 1: [max_required_samples] is 2. *)
Definition loose : limits :=
  {| required_samples := 1; trigger_parameter_sync_step := 1; max_required_samples := 2;
     max_concurrent_samples := 2; max_queue := 2; total_train_steps := 9 |}.
Example loose_limits : set_max_required_samples 1 1 9 1 1 = Ok loose.
Proof. reflexivity. Qed.

Definition submit : list label := [Proc; Proc; Proc; Proc].
Definition reset_all : list label := [ResetStep; ResetStep; ResetStep].

(** Two samples stored and consumed one by one; the second reset runs while a
    third one is popped and not submitted, and does not see it. *)
Definition overshoot : list label :=
  submit ++ submit ++ [Proc; Proc; Proc; Store 0; Store 1; Return 0; Return 1; Reap; Consume] ++
  reset_all ++ [Proc; Proc; Proc; Proc; Consume] ++ reset_all ++ [Proc] ++ submit ++ [Proc; Proc; Proc].

Example overshoot_tight :
  (λ s, (in_system s, staleness_samples s)) <$> run loose overshoot (init_state (fresh_queue 2) (seq 1 9)) =
  Some (3, 2).
Proof. vm_compute. reflexivity. Qed.

(** The state a run ends in (the initial one if it does not go through). *)
Definition end_of (cfg : limits) (ls : list label) (s : state) : state := default s (run cfg ls s).

Lemma end_reachable cfg stream n ls s :
  init_queue (Some (Z.of_nat (max_queue cfg))) = Ok (fresh_queue n) →
  run cfg ls (init_state (fresh_queue n) stream) = Some s → reachable cfg stream s.
Proof. intros Hq. apply run_reachable. by apply reach_init. Qed.

(** From the second assignment of the counter on, two more samples start while one is popped. *)
Definition overshoot_start : state :=
  Eval vm_compute in end_of loose (take 28 overshoot) (init_state (fresh_queue 2) (seq 1 9)).
Definition overshoot_end : state := Eval vm_compute in end_of loose overshoot (init_state (fresh_queue 2) (seq 1 9)).
Lemma staleness_bounded_witness :
  (in_system overshoot_start, started overshoot_start overshoot_end) = (1, 2) ∧ 1 + 2 ≤ 2 + 1 ∧ in_system overshoot_end ≤ 2 + 1.
Proof.
  split; [reflexivity|].
  destruct (staleness_bounded loose ltac:(cbn; lia) ltac:(cbn; lia) (seq 1 9) overshoot_start (drop 28 overshoot) overshoot_end)
    as (Hsum & Hend & _); [| vm_compute; reflexivity | vm_compute; reflexivity | exact (conj Hsum Hend)].
  apply (end_reachable loose (seq 1 9) 2 (take 28 overshoot)); [reflexivity | vm_compute; reflexivity].
Defined.

(** Two samples per update, threshold 0: no slack. *)
Definition strict : limits :=
  {| required_samples := 2; trigger_parameter_sync_step := 1; max_required_samples := 2;
     max_concurrent_samples := 2; max_queue := 2; total_train_steps := 4 |}.
Example strict_limits : set_max_required_samples 2 1 9 1 0 = Ok strict.
Proof. reflexivity. Qed.

(** The reset runs before the processor has reaped the two finished tasks: they
    count again, and nobody can move any more. *)
Definition double_count : list label :=
  submit ++ submit ++ [Proc; Proc; Proc; Store 0; Store 1; Return 0; Return 1; Consume; Consume] ++
  reset_all ++ [Proc; Proc; Proc; Proc; Reap].
Example double_count_stalls :
  (λ s, (blocked strict s, at_pc s, in_system s, staleness_samples s, consumed_since strict s)) <$>
    run strict double_count (init_state (fresh_queue 2) (seq 1 9)) =
  Some (true, Draining, 0, 2, 0).
Proof. vm_compute. reflexivity. Qed.

(** That state is the stall of the theorem. *)
Definition stalled : state := Eval vm_compute in end_of strict double_count (init_state (fresh_queue 2) (seq 1 9)).
Lemma no_deadlock_witness :
  blocked strict stalled = true ∧ (at_pc stalled = Ended ∨ at_pc stalled = Died ∨ max_required_samples strict ≤ staleness_samples stalled).
Proof.
  split; [vm_compute; reflexivity|].
  destruct (no_deadlock strict ltac:(cbn; lia) ltac:(cbn; lia) (seq 1 9) stalled) as [H|[H|(_ & _ & _ & H & _)]];
    [reflexivity | | vm_compute; reflexivity | by left | by right; left | by right; right].
  apply (end_reachable strict (seq 1 9) 2 double_count); [reflexivity | vm_compute; reflexivity].
Defined.

(** Reaped in time, a run goes on to the end of its stream of two. *)
Definition to_the_end : list label :=
  submit ++ submit ++ [Proc; Proc; Proc; Store 0; Store 1; Return 0; Return 1; Reap; Consume] ++
  reset_all ++ [Consume] ++ reset_all ++ [Proc; Proc; Proc; Proc; Proc].
Example reaches_the_end :
  (λ s, (blocked loose s, at_pc s)) <$> run loose to_the_end (init_state (fresh_queue 2) [1; 2]) = Some (true, Ended).
Proof. vm_compute. reflexivity. Qed.

Definition first_consumed : state :=
  Eval vm_compute in end_of strict (submit ++ [Store 0; Consume]) (init_state (fresh_queue 2) (seq 1 9)).
Lemma staleness_ledger_witness :
  excess strict (first_consumed <| at_pc := Asked 0 |>) = excess strict first_consumed.
Proof.
  apply (staleness_ledger strict ltac:(cbn; lia) ltac:(cbn; lia) (seq 1 9) first_consumed Proc);
    [cbn; lia | | reflexivity | done..].
  apply (end_reachable strict (seq 1 9) 2 (submit ++ [Store 0; Consume])); [reflexivity | vm_compute; reflexivity].
Defined.
