(* ===== verification/StepMetrics.v ===== *)
(** * StepMetrics: the metric aggregator of the asynchronous trainer

    Models [MetricsAggregator] and the version statistics of
    [assemble_batch_from_rollout_samples] in
    src/verl/experimental/fully_async_policy/detach_utils.py. *)

From S2P Require Import Prelude PyRat PyDict PyStr.
From Stdlib Require Import QArith Lqa.
Local Close Scope Q_scope.
#[local] Open Scope py_scope.

(** A logged value: a Python or numpy number, a tensor of some elements, or
    anything else. *)
Inductive metric_value := Number (q : Q) | Tensor (elements : list Q) | Other.

Record aggregator := {
  metric_values : list (string * list Q);   (** a [defaultdict(list)] *)
  sample_counts : list Z; timestamps : list Q; step_count : nat; total_gpus : Z }.

Definition MetricsAggregator (gpus : Z) : aggregator :=
  {| metric_values := []; sample_counts := []; timestamps := []; step_count := 0; total_gpus := gpus |}.

(** [_init_aggregation_rules]. *)
Definition aggregation_rules : list (string * list string) :=
  [("time_sum", ["perf/time_per_step"]);
   ("min", ["timing_s/agent_loop/tool_calls/min"]);
   ("avg", ["timing_s/agent_loop/tool_calls/mean"]);
   ("max", ["timing_s/agent_loop/tool_calls/max"]);
   ("last", ["fully_async/count/total_generated_samples"; "fully_async/count/stale_samples_processed";
             "fully_async/count/stale_trajectory_processed"; "fully_async/count/current_param_version";
             "fully_async/count/dropped_stale_samples"; "training/global_step"])].

Definition append_value (k : string) (v : Q) (d : list (string * list Q)) : list (string * list Q) :=
  dset k (default [] (dget k d) ++ [v]) d.

(** [value.item()] raises unless the tensor has exactly one element. *)
Definition add_value (d : list (string * list Q)) (kv : string * metric_value) : result (list (string * list Q)) :=
  match kv with
  | (k, Number q) => Ok (append_value k q d)
  | (k, Tensor [q]) => Ok (append_value k q d)
  | (k, Tensor _) => Raise (RuntimeError "a Tensor with several elements cannot be converted to Scalar")
  | (_, Other) => Ok d
  end.

Definition add_step_metrics (metrics : list (string * metric_value)) (sample_count : Z) (timestamp : Q)
    (a : aggregator) : result aggregator :=
  values ← foldM add_value (metric_values a) metrics;
  Ok {| metric_values := values; sample_counts := sample_counts a ++ [sample_count];
        timestamps := timestamps a ++ [timestamp]; step_count := S (step_count a);
        total_gpus := total_gpus a |}.

(** [_get_aggregation_type]: the configured rules, then the words in the name. *)
Definition get_aggregation_type (metric_name : string) : string :=
  match list_find (λ r : string * list string, bool_decide (metric_name ∈ r.2) = true) aggregation_rules with
  | Some (_, (agg_type, _)) => agg_type
  | None =>
      let l := lower metric_name in
      let any := existsb (λ keyword, contains keyword l) in
      if any ["timing_s/"] then "time_sum"
      else if any ["mean"; "avg"; "average"] then "avg"
      else if any ["max"; "maximum"] then "max"
      else if any ["min"; "minimum"] then "min"
      else if any ["sum"; "total"] then "sum"
      else if any ["weighted_avg"] then "weighted_avg"
      else "avg"
  end%string.

Definition mean (l : list Q) : Q := (qsum l / qlen l)%Q.

Definition weighted_avg (values : list Q) (counts : list Z) : Q :=
  if negb (Nat.eqb (length values) (length counts)) then mean values
  else let total_samples := inject_Z (zsum counts) in
       if Qeq_bool total_samples 0 then mean values
       else (qsum (zip_with (λ v c, v * inject_Z c) values counts) / total_samples)%Q.

Definition aggregate_single_metric (a : aggregator) (metric_name : string) (values : list Q) : Q :=
  match values with
  | [] => 0%Q
  | v :: rest =>
      let agg_type := get_aggregation_type metric_name in
      if String.eqb agg_type "last" then List.last values 0%Q
      else if String.eqb agg_type "weighted_avg" then weighted_avg values (sample_counts a)
      else if String.eqb agg_type "sum" || String.eqb agg_type "time_sum" then qsum values
      else if String.eqb agg_type "avg" then mean values
      else if String.eqb agg_type "max" then qmax_of v rest
      else if String.eqb agg_type "min" then qmin_of v rest
      else mean values
  end.

Definition div (a b : Q) : result Q := qdiv a b.

(** [_special_metrics_aggergate]. *)
Definition special_metrics (gpus : Z) (m : list (string * Q)) : result (list (string * Q)) :=
  m ← (if dmem "global_seqlen/minmax_diff" m then
         hi ← ditem "global_seqlen/max" m;
         lo ← ditem "global_seqlen/min" m;
         Ok (dset "global_seqlen/minmax_diff" (hi - lo)%Q m)
       else Ok m);
  m ← (match dget "perf/throughput" m, dget "perf/total_num_tokens" m, dget "perf/time_per_step" m with
       | Some _, Some tokens, Some time =>
           t ← div tokens (time * inject_Z gpus)%Q; Ok (dset "perf/throughput" t m)
       | _, _, _ => Ok m
       end);
  match dget "timing_s/gen" m, dget "timing_s/step" m with
  | Some gen, Some step => r ← div gen step; Ok (dset "fully_async/trainer/idle_ratio" r m)
  | _, _ => Ok m
  end.

Definition get_aggregated_metrics (a : aggregator) : result (list (string * Q)) :=
  if Nat.eqb (step_count a) 0 then Ok []
  else special_metrics (total_gpus a)
         ((λ kv, (kv.1, aggregate_single_metric a kv.1 kv.2)) <$> metric_values a).

Definition reset (a : aggregator) : aggregator :=
  {| metric_values := []; sample_counts := []; timestamps := []; step_count := 0; total_gpus := total_gpus a |}.

(** [get_current_stats]. *)
Definition get_current_stats (a : aggregator) : nat * nat * Z * list string :=
  (step_count a, length (metric_values a), zsum (sample_counts a), keys (metric_values a)).

(** ** The version statistics of an assembled batch *)

Record partial_stats := { total_partial_num : nat; partial_ratio : Q; max_partial_span : Z }.

(** [param_version_diff] and [partial_stats]: how many trajectories span several
    parameter versions.  An empty batch divides by zero. *)
Definition version_stats (version_start version_end : list Z) : result partial_stats :=
  let diff := zip_with (λ a b, Z.abs (a - b)) version_end version_start in
  let num_diff0 := length (filter (λ d, d = 0%Z) diff) in
  ratio ← qdiv (qlen diff - inject_Z (Z.of_nat num_diff0))%Q (qlen diff);
  match diff with
  | [] => Raise (ValueError "max() arg is an empty sequence")
  | d :: rest => Ok {| total_partial_num := length diff - num_diff0; partial_ratio := ratio;
                       max_partial_span := foldl Z.max d rest |}
  end.

(** ** What is collected *)

Definition values_of (k : string) (metrics : list (string * metric_value)) : list Q :=
  omap (λ kv, if bool_decide (k = kv.1) then
                match kv.2 with Number q => Some q | Tensor [q] => Some q | _ => None end
              else None) metrics.

Lemma append_value_get k k' v d :
  default [] (dget k' (append_value k v d)) = default [] (dget k' d) ++ (if bool_decide (k = k') then [v] else []).
Proof.
  unfold append_value. rewrite dget_dset. case_bool_decide; subst; [done|]. by rewrite app_nil_r.
Qed.

Lemma add_values_get k ms : ∀ d d', foldM add_value d ms = Ok d' →
  default [] (dget k d') = default [] (dget k d) ++ values_of k ms.
Proof.
  induction ms as [|[k0 v] ms IH]; intros d d'; cbn.
  - intros [= <-]. by rewrite app_nil_r.
  - intros H. apply bind_Ok_inv in H as (d1 & H1 & H). apply IH in H. rewrite H.
    destruct v as [q|[|q [|]]|]; try done; injection H1 as <-; rewrite ?append_value_get;
      repeat case_bool_decide; subst; try done; by rewrite <-?(assoc_L (++)), ?app_nil_r.
Qed.

(** A step after a sequence of steps. *)
Definition add_steps (steps : list (list (string * metric_value) * Z * Q)) (a : aggregator) : result aggregator :=
  foldM (λ a s, let '(ms, n, t) := s in add_step_metrics ms n t a) a steps.

(** Whatever an aggregator held before a [reset], after any accepted sequence
    of steps the values kept for a metric are those logged since, in order, and
    the sample counts are those of the steps: what is aggregated is exactly what
    was logged between two weight updates. *)
Theorem aggregator_collects a steps a' k :
  add_steps steps (reset a) = Ok a' →
  default [] (dget k (metric_values a')) = concat ((λ s, values_of k s.1.1) <$> steps) ∧
  sample_counts a' = (λ s, s.1.2) <$> steps ∧ step_count a' = length steps.
Proof.
  revert a'. unfold add_steps. induction steps as [|[[ms n] t] steps IH] using rev_ind; intros a' H.
  - injection H as <-. done.
  - rewrite foldM_app in H. apply bind_Ok_inv in H as (a1 & H1 & H2). cbn in H2.
    apply bind_Ok_inv in H2 as (a2 & H2 & [= <-]). unfold add_step_metrics in H2.
    apply bind_Ok_inv in H2 as (vs & Hvs & [= <-]). destruct (IH _ H1) as (Hk & Hc & Hn).
    apply (add_values_get k) in Hvs. cbn. rewrite Hvs, Hk, Hc, Hn, !fmap_app, concat_app, length_app.
    cbn. rewrite app_nil_r. split; [done|]. split; [done | lia].
Qed.

Lemma startswith_app a b s : startswith (a +:+ b) s = true → contains b s = true.
Proof.
  revert s. induction a as [|c a IH]; intros s H; cbn in H.
  - destruct s; cbn; rewrite H; done.
  - destruct s as [|d s]; [done|]. apply andb_true_iff in H as [_ H%IH]. cbn. rewrite H. apply orb_true_r.
Qed.

Lemma contains_app a b s : contains (a +:+ b) s = true → contains b s = true.
Proof.
  induction s as [|c s IH]; cbn [contains].
  - rewrite orb_false_r. apply startswith_app.
  - intros [H%startswith_app|H%IH]%orb_true_iff; [done|]. rewrite H. apply orb_true_r.
Qed.

(** No metric is ever averaged by sample counts: a name that contains
    ["weighted_avg"] contains ["avg"], which is tried first. *)
Lemma weighted_avg_unreachable name : get_aggregation_type name ≠ "weighted_avg".
Proof.
  unfold get_aggregation_type.
  destruct (list_find _ aggregation_rules) as [[i [agg_type names]]|] eqn:Hf.
  - apply list_find_Some in Hf as (Hi & _ & _).
    do 5 (destruct i as [|i]; [injection Hi as <- _; discriminate|]). done.
  - set (l := lower name). cbn [existsb]. rewrite !orb_false_r.
    destruct (contains "timing_s/" l); [done|].
    destruct (contains "mean" l || (contains "avg" l || contains "average" l)) eqn:Havg; [done|].
    apply orb_false_iff in Havg as [_ [Havg _]%orb_false_iff].
    destruct (contains "max" l || contains "maximum" l); [done|].
    destruct (contains "min" l || contains "minimum" l); [done|].
    destruct (contains "sum" l || contains "total" l); [done|].
    destruct (contains "weighted_avg" l) eqn:Hw; [|done].
    apply (contains_app "weighted_" "avg") in Hw. congruence.
Qed.
