(* ===== verification/RewardManagers.v ===== *)
(** * RewardManagers: from responses to token-level rewards

    Models the reward managers of src/verl/experimental/reward_loop/reward_manager/
    (base, naive, dapo, gdpo, remote, limited) and of src/verl/workers/reward_manager/
    (naive, dapo, batch, prime), their registries, and the choice of the
    scoring function in src/verl/utils/reward_score/__init__.py.  The tokenizer
    and the scoring function are parameters; what a scoring call ends in is a
    [scored].  Values are [json]; rewards are rationals. *)

From S2P Require Import Prelude PyStr PyNum PyDict Json PyRat.
From Stdlib Require Import QArith Lqa.
Local Close Scope Q_scope.
#[local] Open Scope py_scope.

(** ** Rows *)

(** One item of a batch: the three tensors and the non-tensor fields. *)
Record item := { prompts : list Z; responses : list Z; attention_mask : list Z; fields : dict }.

(** [attention_mask[-response_length:].sum()], and [attention_mask[prompt_length:].sum()]. *)
Definition valid_by_response (it : item) : Z :=
  zsum (zslice (- Z.of_nat (length (responses it))) (Z.of_nat (length (attention_mask it))) (attention_mask it)).
Definition valid_by_prompt (it : item) : Z :=
  zsum (drop (length (prompts it)) (attention_mask it)).

(** [responses[:valid]]. *)
Definition valid_ids (valid : Z) (it : item) : list Z := zslice 0 valid (responses it).

(** [tensor[i] = v] for a one-dimensional tensor: a negative index counts from the end. *)
Definition set_at (row : list Q) (i : Z) (v : Q) : result (list Q) :=
  let i' := if (i <? 0)%Z then (i + Z.of_nat (length row))%Z else i in
  require (0 <=? i')%Z && (i' <? Z.of_nat (length row))%Z else IndexError "index out of range" ;;
  Ok (<[Z.to_nat i' := v]> row).

(** The row of zeros with the reward at the last valid token. *)
Definition place (width : nat) (valid : Z) (reward : Q) : result (list Q) :=
  set_at (replicate width 0%Q) (valid - 1) reward.

Definition number (v : json) : result Q :=
  of_option (TypeError "must be real number") (as_number v).
Definition as_dict (v : json) : result dict :=
  match v with JObj d => Ok d | _ => Raise (TypeError "object is not subscriptable") end.

(** [item["reward_model"]["ground_truth"]]. *)
Definition ground_truth (it : item) : result json :=
  rm ← getitem "reward_model" (fields it);
  d ← as_dict rm;
  getitem "ground_truth" d.

(** What a call of the scoring function ends in. *)
Inductive scored := Scored (v : json) | TimedOut | Failed (e : exn).

(** [str(e)]: a [KeyError] prints the key's [repr]. *)
Definition exn_str (e : exn) : string :=
  match e with
  | KeyError k => "'" +:+ k +:+ "'"
  | ValueError m | TypeError m | IndexError m | AssertionError m | RuntimeError m
  | NotImplementedError m | ZeroDivisionError m | SystemExit m
  | AttributeError m | OSError m => m
  end.

Definition scored_result (r : scored) : result json :=
  match r with Scored v => Ok v | TimedOut => Raise (RuntimeError "TimeoutError") | Failed e => Raise e end.

(** The score and the extra information of a result. *)
Definition unpack (v : json) : result (json * dict) :=
  match v with
  | JObj d => s ← getitem "score" d; Ok (s, update d [])
  | _ => Ok (v, [("acc"%string, v)])
  end.

(** ** The overlong penalty of DAPO *)

Record overlong_cfg := { enable : bool; buffer_len : Z; penalty_factor : Q; log : bool }.

Definition overlong_active (c : option overlong_cfg) : option overlong_cfg :=
  c ← c; if enable c then Some c else None.

(** The assertions of the constructors. *)
Definition dapo_init (c : option overlong_cfg) (max_resp_len : option Z) : result unit :=
  match overlong_active c with
  | None => Ok tt
  | Some c =>
      m ← of_option (AssertionError "max_resp_len must be provided") max_resp_len;
      require (buffer_len c <=? m)%Z else AssertionError "max_resp_len must be larger than overlong_buffer.len" ;;
      require (0 <? buffer_len c)%Z else AssertionError "overlong_buffer.len must be positive when overlong penalty is enabled" ;;
      Ok tt
  end.

(** [min(-exceed_len / overlong_buffer_len * penalty_factor, 0)]. *)
Definition overlong_reward (c : overlong_cfg) (max_resp_len valid : Z) : Q :=
  let expected_len := (max_resp_len - buffer_len c)%Z in
  let exceed_len := (valid - expected_len)%Z in
  qmin (inject_Z (- exceed_len) / inject_Z (buffer_len c) * penalty_factor c)%Q 0%Q.

(** The reward and the extra information after the penalty. *)
Definition add_overlong (c : option overlong_cfg) (max_resp_len : option Z) (valid : Z) (score : json)
    (info : dict) : result (json * dict) :=
  match overlong_active c with
  | None => Ok (score, info)
  | Some c =>
      m ← of_option (TypeError "unsupported operand") max_resp_len;
      s ← number score;
      let r := overlong_reward c m valid in
      Ok (JFloat (s + r)%Q,
          if log c then set "overlong" (JBool (qlt r 0)) (set "overlong_reward" (JFloat r) info) else info)
  end.

Section managers.
Variable decode : list Z → string.
Variable compute_score : json → string → json → dict → scored.

(** ** The reward-loop managers *)

Inductive manager :=
  | Naive | Remote | Dapo (c : option overlong_cfg) (max_resp_len : option Z)
  | Gdpo (experiment_name : string) | RateLimited.

(** The [extra_info] handed to the scoring function. *)
Definition extra_info_of (m : manager) (it : item) : result dict :=
  extra ← as_dict (get_default "extra_info" (JObj []) (fields it));
  extra ← (match m, get "tool_extra_fields" (fields it) with
           | (Naive | Remote | RateLimited), JObj tool => Ok (update tool extra)
           | (Naive | Remote | RateLimited), JNull => Ok extra
           | (Naive | Remote | RateLimited), _ => Raise (TypeError "items")
           | _, _ => Ok extra
           end);
  Ok (match m with
      | Naive | Remote =>
          set "rollout_reward_scores" (get_default "reward_scores" (JObj []) (fields it))
            (set "num_turns" (get "__num_turns__" (fields it)) extra)
      | Gdpo name => set "experiment_name" (JStr name) extra
      | _ => extra
      end).

(** [except asyncio.TimeoutError] and [except Exception] of the rate-limited manager. *)
Definition failure_info (key : string) (v : json) : json * dict :=
  (JFloat 0, [(key, v); ("acc"%string, JFloat 0)]).

Definition settle (m : manager) (r : scored) : result (json * dict) :=
  match m with
  | RateLimited =>
      Ok (match r with
          | TimedOut => failure_info "timeout" (JBool true)
          | Failed e => failure_info "error" (JStr (exn_str e))
          | Scored v => match unpack v with
                        | Ok p => p
                        | Raise e => failure_info "error" (JStr (exn_str e))
                        end
          end)
  | _ => v ← scored_result r; unpack v
  end.

(** [run_single]: [reward_score] and [reward_extra_info] of one item. *)
Definition run_single (m : manager) (it : item) : result (json * dict) :=
  let valid := valid_by_response it in
  data_source ← getitem "data_source" (fields it);
  truth ← ground_truth it;
  extra ← extra_info_of m it;
  '(score, info) ← settle m (compute_score data_source (decode (valid_ids valid it)) truth extra);
  match m with
  | Dapo c max_resp_len => add_overlong c max_resp_len valid score info
  | _ => Ok (score, info)
  end.

(** ** Batches of rewards *)

(** [reward_extra_info[key].append(value)] for the items of a dict. *)
Definition append_info (extra : list (string * list json)) (info : dict) : list (string * list json) :=
  foldl (λ e kv, dset kv.1 (default [] (dget kv.1 e) ++ [kv.2]) e) extra info.

Definition score_step (f : item → result (Z * json * dict))
    (acc : list (list Q) * list (string * list json)) (it : item) : result (list (list Q) * list (string * list json)) :=
  '(valid, reward, info) ← f it;
  r ← number reward;
  row ← place (length (responses it)) valid r;
  Ok (acc.1 ++ [row], append_info acc.2 info).

(** The loop of a [__call__]: reward tensor and extra information. *)
Definition score_rows (f : item → result (Z * json * dict)) (its : list item)
    : result (list (list Q) * list (string * list json)) :=
  foldM (score_step f) ([], []) its.

(** [RateLimitedRewardManager.__call__]. *)
Definition limited_call (its : list item) : result (list (list Q) * list (string * list json)) :=
  results ← mapM (run_single RateLimited) its;
  foldM (λ acc p, score_step (λ it, Ok (valid_by_response it, p.2.1, p.2.2)) acc p.1) ([], []) (zip its results).

(** [NaiveRewardManager.__call__] of the legacy managers: a timeout scores 0 and
    contributes nothing to the extra information. *)
Definition legacy_extra (dapo : bool) (it : item) : result dict :=
  extra ← as_dict (get_default "extra_info" (JObj []) (fields it));
  let scores := get_default "reward_scores" (JObj []) (fields it) in
  Ok (if dapo then set "rollout_reward_scores" scores extra
      else set "rollout_reward_scores" scores (set "num_turns" (get "__num_turns__" (fields it)) extra)).

Definition naive_row (reward_fn_key : string) (it : item) : result (Z * json * dict) :=
  let valid := valid_by_prompt it in
  truth ← ground_truth it;
  data_source ← getitem reward_fn_key (fields it);
  extra ← legacy_extra false it;
  v ← (match compute_score data_source (decode (valid_ids valid it)) truth extra with
       | TimedOut => Ok (JFloat 0)
       | r => scored_result r
       end);
  match v with
  | JObj d => s ← getitem "score" d; Ok (valid, s, d)
  | _ => Ok (valid, v, [])
  end.
Definition naive_call (reward_fn_key : string) := score_rows (naive_row reward_fn_key).

(** [if response_str.endswith(eos): response_str[:-len(eos)]]; [s[:-0]] is empty. *)
Definition strip_eos (eos s : string) : string :=
  if endswith eos s then
    if Nat.eqb (String.length eos) 0 then ""%string else stake (String.length s - String.length eos) s
  else s.

(** The legacy [DAPORewardManager.__call__]. *)
Definition dapo_row (eos reward_fn_key : string) (c : option overlong_cfg) (max_resp_len : option Z)
    (it : item) : result (Z * json * dict) :=
  let valid := valid_by_prompt it in
  truth ← ground_truth it;
  data_source ← getitem reward_fn_key (fields it);
  extra ← legacy_extra true it;
  v ← scored_result (compute_score data_source (strip_eos eos (decode (valid_ids valid it))) truth extra);
  '(score, info) ← (match v with
                    | JObj d => s ← getitem "score" d; Ok (s, d)
                    | _ => Ok (v, [("acc"%string, v)])
                    end);
  match overlong_active c with
  | None => Ok (valid, score, info)
  | Some c =>
      m ← of_option (TypeError "unsupported operand") max_resp_len;
      s ← number score;
      let r := overlong_reward c m valid in
      Ok (valid, JFloat (s + r)%Q,
          info ++ (if log c then [("overlong_reward"%string, JFloat r); ("overlong"%string, JBool (qlt r 0))] else []))
  end.
Definition dapo_call (eos reward_fn_key : string) (c : option overlong_cfg) (max_resp_len : option Z) :=
  score_rows (dapo_row eos reward_fn_key c max_resp_len).

(** ** [BatchRewardManager] *)

Section batch.
Variable compute_scores : list json → list string → list json → list dict → result (list json).

Definition batch_extra (it : item) : result dict :=
  extra ← as_dict (get_default "extra_info" (JObj []) (fields it));
  Ok (set "rollout_reward_scores" (get_default "reward_scores" (JObj []) (fields it)) extra).

Definition batch_truth (it : item) : result json :=
  rm ← getitem "reward_model" (fields it); d ← as_dict rm; Ok (get "ground_truth" d).

(** [verify]. *)
Definition batch_verify (reward_fn_key : string) (its : list item) : result (list json) :=
  truths ← mapM batch_truth its;
  sources ← mapM (λ it, getitem reward_fn_key (fields it)) its;
  extras ← mapM batch_extra its;
  compute_scores sources ((λ it, decode (valid_ids (valid_by_prompt it) it)) <$> its) truths extras.

Definition batch_row (score : json) (it : item) : result (Z * json * dict) :=
  match score with
  | JObj d => s ← getitem "score" d; Ok (valid_by_prompt it, s, d)
  | _ => Ok (valid_by_prompt it, score, [])
  end.

(** [__call__]: the reward tensor, the extra information and the ["acc"] column. *)
Definition batch_call (reward_fn_key : string) (its : list item)
    : result (list (list Q) * list (string * list json) * list Q) :=
  _ ← mapM (λ it, getitem reward_fn_key (fields it)) its;
  scores ← batch_verify reward_fn_key its;
  require Nat.leb (length its) (length scores) else IndexError "list index out of range" ;;
  out ← foldM (λ acc p, score_step (batch_row p.2) acc p.1) ([], []) (zip its scores);
  acc ← mapM (λ p, '(_, reward, _) ← batch_row p.2 p.1; number reward) (zip its scores);
  Ok (out, acc).
End batch.

(** ** [PrimeRewardManager] *)

(** [float(result)] and [float(result[0])]. *)
Definition prime_float (v : json) : result Q :=
  match as_number v with
  | Some q => Ok q
  | None =>
      match v with
      | JList (x :: _) =>
          match as_number x, x with
          | Some q, _ => Ok q
          | None, JStr s => of_option (ValueError "could not convert string to float") (PyNum.float_of_str s)
          | None, _ => Raise (TypeError "float() argument must be a string or a real number")
          end
      | JStr (String c _) =>
          of_option (ValueError "could not convert string to float") (PyNum.float_of_str (String c EmptyString))
      | JList [] | JStr EmptyString => Raise (IndexError "index out of range")
      | JObj _ => Raise (KeyError "0")
      | _ => Raise (TypeError "object is not subscriptable")
      end
  end.

(** [single_compute_score] and the loop over its results: a failed or
    timed-out call scores 0, and so does a call that returned [None]. *)
Definition prime_score (r : scored) : result Q :=
  match r with
  | TimedOut | Failed _ | Scored JNull => Ok 0%Q
  | Scored v => prime_float v
  end.

Definition prime_scored (reward_fn_key : string) (it : item) : result scored :=
  truth ← ground_truth it;
  task ← getitem reward_fn_key (fields it);
  extra ← (match lookup "extra_info" (fields it) with Some e => as_dict e | None => Ok [] end);
  Ok (compute_score task (decode (responses it)) truth extra).

(** [verify]: any exception of the scoring loop zeroes the whole batch. *)
Definition prime_verify (reward_fn_key : string) (its : list item) : result (list Q) :=
  outcomes ← mapM (prime_scored reward_fn_key) its;
  Ok (match mapM prime_score outcomes with
      | Ok scores => scores
      | Raise _ => replicate (length its) 0%Q
      end).

Definition prime_call (reward_fn_key : string) (its : list item) : result (list (list Q)) :=
  _ ← mapM (λ it, getitem "data_source" (fields it)) its;
  scores ← prime_verify reward_fn_key its;
  mapM (λ p, place (length (responses p.1)) (valid_by_prompt p.1) p.2) (zip its scores).

End managers.

(** ** Registries and the choice of the scoring function *)

(** [register(name)(cls)]: a name keeps the class it was first given. *)
Definition register {C} `{EqDecision C} (name : string) (cls : C) (reg : list (string * C)) : result (list (string * C)) :=
  match dget name reg with
  | Some c => if bool_decide (c = cls) then Ok (dset name cls reg) else Raise (ValueError ("reward manager " +:+ name +:+ " has already been registered"))
  | None => Ok (dset name cls reg)
  end.
Definition get_reward_manager_cls {C} (name : string) (reg : list (string * C)) : result C :=
  of_option (ValueError ("Unknown reward manager: " +:+ name)) (dget name reg).

(** The scoring modules [default_compute_score] dispatches to. *)
Inductive scorer := gsm8k | math_reward | math_dapo | prime_math | sandbox_fusion | prime_code | geo3k | search_r1.

Definition scorer_for (data_source : string) (sandbox : bool) : result scorer :=
  let is_in l := bool_decide (data_source ∈ l) in
  if bool_decide (data_source = "openai/gsm8k") then Ok gsm8k
  else if is_in ["lighteval/MATH"; "DigitalLearningGmbH/MATH-lighteval"; "HuggingFaceH4/MATH-500"] then Ok math_reward
  else if is_in ["math_dapo"; "math"; "math_dapo_reasoning"] || startswith "aime" data_source then Ok math_dapo
  else if is_in ["numina_aops_forum"; "numina_synthetic_math"; "numina_amc_aime"; "numina_synthetic_amc";
                 "numina_cn_k12"; "numina_olympiads"] then Ok prime_math
  else if is_in ["codecontests"; "apps"; "codeforces"; "taco"] then Ok (if sandbox then sandbox_fusion else prime_code)
  else if is_in ["hiyouga/geometry3k"] then Ok geo3k
  else if is_in ["searchR1_nq"; "searchR1_triviaqa"; "searchR1_popqa"; "searchR1_hotpotqa";
                 "searchR1_2wikimultihopqa"; "searchR1_musique"; "searchR1_bamboogle"] then Ok search_r1
  else Raise (NotImplementedError ("Reward function is not implemented for data_source=" +:+ data_source))%string.

(** The end of [default_compute_score]: a dict as it is, anything else a float. *)
Definition finish_score (res : json) : result json :=
  match res with
  | JObj d => Ok (JObj d)
  | _ => q ← prime_float res; Ok (JFloat q)
  end.

Definition default_compute_score (run : scorer → result json) (data_source : string) (sandbox : bool) : result json :=
  s ← scorer_for data_source sandbox;
  res ← run s;
  finish_score res.

(** ** The last valid token *)

(** The column that takes the reward: that of the last valid token, or the last
    column when the response is empty (index -1). *)
Definition last_valid (width : nat) (valid : Z) : nat :=
  if (valid =? 0)%Z then width - 1 else Z.to_nat (valid - 1).

Lemma place_ok width valid r : (0 <= valid <= Z.of_nat width)%Z → 0 < width →
  place width valid r = Ok (<[last_valid width valid := r]> (replicate width 0%Q)) ∧ last_valid width valid < width.
Proof.
  intros Hv Hw. unfold place, set_at, last_valid. rewrite length_replicate.
  destruct (Z.eqb_spec valid 0) as [->|Hne].
  - change (0 - 1 <? 0)%Z with true. cbn iota.
    rewrite (proj2 (Z.leb_le _ _)), (proj2 (Z.ltb_lt _ _)) by lia. cbn [andb].
    split; [do 2 f_equal; lia | lia].
  - rewrite (proj2 (Z.ltb_ge _ _)) by lia.
    rewrite (proj2 (Z.leb_le _ _)), (proj2 (Z.ltb_lt _ _)) by lia. cbn [andb]. split; [done | lia].
Qed.

Definition row_sum (row : list Q) : Q := foldr Qplus 0%Q row.

Lemma row_sum_zeros n : (row_sum (replicate n 0) == 0)%Q.
Proof. induction n as [|n IH]; [done|]. cbn. change (0 + row_sum (replicate n 0) == 0)%Q. rewrite IH. reflexivity. Qed.

Lemma row_sum_insert n i r : i < n → (row_sum (<[i := r]> (replicate n 0)) == r)%Q.
Proof.
  revert i. induction n as [|n IH]; intros i Hi; [lia|]. destruct i as [|i]; cbn.
  - change (r + row_sum (replicate n 0) == r)%Q. rewrite row_sum_zeros. ring.
  - change (0 + row_sum (<[i := r]> (replicate n 0)) == r)%Q. rewrite IH by lia. ring.
Qed.

(** ** The overlong penalty *)

(** With the checks of the constructor passed and a non-negative factor, the
    overlong penalty never rewards: it is 0 exactly up to [max_resp_len -
    buffer_len], decreases with the length, and stays above [- penalty_factor]
    for responses of at most [max_resp_len] tokens. *)
Theorem overlong_penalty_bounds c m valid valid' :
  dapo_init (Some c) (Some m) = Ok tt → enable c = true → (0 < penalty_factor c)%Q →
  (overlong_reward c m valid <= 0)%Q ∧
  ((overlong_reward c m valid == 0)%Q ↔ (valid <= m - buffer_len c)%Z) ∧
  ((valid <= m)%Z → (- penalty_factor c <= overlong_reward c m valid)%Q) ∧
  ((valid <= valid')%Z → (overlong_reward c m valid' <= overlong_reward c m valid)%Q).
Proof.
  intros Hinit He Hf. unfold dapo_init, overlong_active in Hinit. cbn in Hinit. rewrite He in Hinit.
  cbn in Hinit. inv_ok Hinit. inv_ok Hinit. apply Z.ltb_lt in Hreq0.
  set (L := inject_Z (buffer_len c)). set (F := penalty_factor c) in *.
  assert (HL : (0 < L)%Q) by (change (inject_Z 0 < L)%Q; unfold L; by rewrite <-Zlt_Qlt).
  set (x v := inject_Z (- (v - (m - buffer_len c)))).
  assert (Hval : ∀ v, overlong_reward c m v = qmin (x v / L * F)%Q 0%Q) by done.
  assert (Hmono : ∀ a b, (a <= b)%Q → (a / L * F <= b / L * F)%Q).
  { intros a b Hab. apply Qmult_le_compat_r; [|lra]. unfold Qdiv. apply Qmult_le_compat_r; [done|].
    apply Qlt_le_weak, Qinv_lt_0_compat, HL. }
  assert (Hzero : (0 / L * F == 0)%Q) by (field; lra).
  assert (Hone : (- L / L * F == - F)%Q) by (field; lra).
  assert (Hx : ∀ v w, (v <= w)%Z → (x w <= x v)%Q) by (intros v w Hvw; unfold x; rewrite <-Zle_Qle; lia).
  rewrite !Hval. split; [|split; [|split]].
  - destruct (qmin_cases (x valid / L * F) 0) as [[? ->]|[? ->]]; lra.
  - split; intros H.
    + destruct (Z.le_gt_cases valid (m - buffer_len c)) as [|Hgt]; [done|]. exfalso.
      assert (x valid < 0)%Q by (change (x valid < inject_Z 0)%Q; unfold x; rewrite <-Zlt_Qlt; lia).
      assert (x valid / L * F < 0)%Q.
      { assert (Hneg : (0 < (- x valid) / L * F)%Q).
        { apply Qmult_lt_0_compat; [|done]. apply Qlt_shift_div_l; lra. }
        assert ((- x valid) / L * F == - (x valid / L * F))%Q by (field; lra). lra. }
      destruct (qmin_cases (x valid / L * F) 0) as [[? E]|[? E]]; rewrite E in H; lra.
    + assert (0 <= x valid)%Q by (change (inject_Z 0 <= x valid)%Q; unfold x; rewrite <-Zle_Qle; lia).
      pose proof (Hmono 0%Q (x valid) ltac:(done)).
      destruct (qmin_cases (x valid / L * F) 0) as [[? E]|[? E]]; rewrite E; lra.
  - intros Hle. assert (- L <= x valid)%Q.
    { unfold x, L. rewrite <-inject_Z_opp, <-Zle_Qle. lia. }
    pose proof (Hmono (- L)%Q (x valid) ltac:(done)).
    destruct (qmin_cases (x valid / L * F) 0) as [[? ->]|[? ->]]; lra.
  - intros Hvw. pose proof (Hmono _ _ (Hx _ _ Hvw)).
    destruct (qmin_cases (x valid / L * F) 0) as [[? E]|[? E]], (qmin_cases (x valid' / L * F) 0) as [[? E']|[? E']];
      rewrite E, E'; lra.
Qed.

Definition sample_overlong : overlong_cfg := {| enable := true; buffer_len := 4; penalty_factor := 2; log := true |}.
Lemma overlong_penalty_bounds_witness :
  (overlong_reward sample_overlong 10 8 == - 1)%Q ∧ (overlong_reward sample_overlong 10 8 <= 0)%Q.
Proof.
  split; [reflexivity|].
  exact (proj1 (overlong_penalty_bounds sample_overlong 10 8 9 eq_refl eq_refl ltac:(reflexivity))).
Defined.

(** ** What a batch of rewards contains *)

Definition entries (k : string) (info : dict) : list json :=
  omap (λ kv, if bool_decide (k = kv.1) then Some kv.2 else None) info.

Lemma append_info_get k info : ∀ extra,
  default [] (dget k (append_info extra info)) = default [] (dget k extra) ++ entries k info.
Proof.
  unfold append_info. induction info as [|[k0 v] info IH]; intros extra; cbn; [by rewrite app_nil_r|].
  rewrite IH, dget_dset. unfold entries. cbn.
  repeat case_bool_decide; subst; try done. cbn. by rewrite <-(assoc_L (++)).
Qed.

(** A row of the reward tensor: its reward at the last valid token. *)
Definition rewarded (it : item) (out : Z * json * dict) (row : list Q) : Prop :=
  ∃ r, number out.1.2 = Ok r ∧ place (length (responses it)) out.1.1 r = Ok row.

Lemma score_rows_inv f its : ∀ rows extra rows' extra',
  foldM (score_step f) (rows, extra) its = Ok (rows', extra') →
  ∃ outs, mapM f its = Ok outs ∧
    (∃ new, rows' = rows ++ new ∧ Forall2 (λ p row, rewarded p.1 p.2 row) (zip its outs) new) ∧
    ∀ k, default [] (dget k extra') = default [] (dget k extra) ++ concat ((λ o, entries k o.2) <$> outs).
Proof.
  induction its as [|it its IH]; intros rows extra rows' extra'.
  - intros [= <- <-]. exists []. split; [done|]. split.
    + exists []. by rewrite app_nil_r.
    + intros k. by rewrite app_nil_r.
  - cbn [foldM]. intros H. apply bind_Ok_inv in H as ([rows1 extra1] & H1 & H).
    unfold score_step in H1. apply bind_Ok_inv in H1 as ([[valid reward] info] & Hf & H1).
    apply bind_Ok_inv in H1 as (r & Hr & H1). apply bind_Ok_inv in H1 as (row & Hrow & [= <- <-]).
    destruct (IH _ _ _ _ H) as (outs & Houts & (new & -> & Hnew) & Hext).
    exists ((valid, reward, info) :: outs). split; [cbn; by rewrite Hf; cbn; rewrite Houts|]. split.
    + exists (row :: new). split; [by rewrite <-(assoc_L (++) rows [row] new)|]. cbn. constructor; [|done]. by exists r.
    + intros k. rewrite Hext. cbn [fst snd]. rewrite append_info_get. csimpl. by rewrite (assoc_L (++)).
Qed.

(** What a reward manager's loop returns: row [i] is zero but for item [i]'s
    reward at its last valid token, and the extra information of a key lists the
    values of the items whose result has the key, in order, so it has one value
    per item only when every result has the key once. *)
Theorem score_rows_spec f its rows extra :
  score_rows f its = Ok (rows, extra) →
  ∃ outs, mapM f its = Ok outs ∧
    Forall2 (λ p row, rewarded p.1 p.2 row ∧
               ((0 <= p.2.1.1 <= Z.of_nat (length (responses p.1)))%Z → 0 < length (responses p.1) →
                ∃ r, number p.2.1.2 = Ok r ∧ (row_sum row == r)%Q ∧
                     row !! last_valid (length (responses p.1)) p.2.1.1 = Some r))
      (zip its outs) rows ∧
    (∀ k, default [] (dget k extra) = concat ((λ o, entries k o.2) <$> outs)) ∧
    (∀ k, length (default [] (dget k extra)) = nsum ((λ o, length (entries k o.2)) <$> outs)).
Proof.
  intros H. destruct (score_rows_inv f its [] [] rows extra H) as (outs & Houts & (new & -> & Hnew) & Hext).
  exists outs. split; [done|]. cbn in *. split; [|split].
  - eapply Forall2_impl; [exact Hnew|]. intros [it [[v rw] info]] row (r & Hr & Hrow). cbn in *.
    split; [by exists r|]. intros Hv Hw. exists r. split; [done|].
    destruct (place_ok _ _ r Hv Hw) as [Hp Hlt]. rewrite Hp in Hrow. injection Hrow as <-.
    split; [by apply row_sum_insert|]. apply list_lookup_insert_eq. by rewrite length_replicate.
  - done.
  - intros k. rewrite Hext, length_concat_nsum, <-list_fmap_compose. done.
Qed.

(** ** Failures of the scoring function *)

(** The rate-limited manager turns every failure of the scoring function into
    a reward of 0: on an item with the fields it reads, [run_single] returns
    whatever the scoring call ends in, with a numeric reward unless the
    function itself returned another score. *)
Theorem limited_never_raises decode compute_score it truth src extra :
  ground_truth it = Ok truth → getitem "data_source" (fields it) = Ok src →
  extra_info_of RateLimited it = Ok extra →
  ∃ score info, run_single decode compute_score RateLimited it = Ok (score, info) ∧
    match compute_score src (decode (valid_ids (valid_by_response it) it)) truth extra with
    | TimedOut => score = JFloat 0 ∧ info = [("timeout", JBool true); ("acc", JFloat 0)]%string
    | Failed e => score = JFloat 0 ∧ info = [("error", JStr (exn_str e)); ("acc", JFloat 0)]%string
    | Scored v =>
        match unpack v with
        | Ok (s, d) => score = s ∧ info = d
        | Raise e => score = JFloat 0 ∧ lookup "acc" info = Some (JFloat 0)
        end
    end.
Proof.
  intros Ht Hs He. unfold run_single. rewrite Hs. cbn [mbind result_bind]. rewrite Ht. cbn [mbind result_bind].
  rewrite He. cbn [mbind result_bind].
  destruct (compute_score src _ truth extra) as [v| |e]; cbn [settle mbind result_bind];
    [destruct (unpack v) as [[s d]|e]|..]; cbn; eauto.
Qed.

(** With the PRIME manager the scoring function's failures cost only their own
    item, but one result that is a dict zeroes the scores of the whole batch. *)
Theorem prime_scores decode compute_score key its outcomes :
  mapM (prime_scored decode compute_score key) its = Ok outcomes →
  ∃ scores, prime_verify decode compute_score key its = Ok scores ∧ length scores = length its ∧
    ((∃ d, Scored (JObj d) ∈ outcomes) → scores = replicate (length its) 0%Q) ∧
    ((∀ o, o ∈ outcomes → ∃ q, prime_score o = Ok q) →
     Forall2 (λ o q, prime_score o = Ok q) outcomes scores).
Proof.
  intros Ho. unfold prime_verify. rewrite Ho. cbn [mbind result_bind].
  pose proof (mapM_Ok_length _ _ _ Ho) as Hlen.
  destruct (mapM prime_score outcomes) as [scores|e] eqn:Hm.
  - exists scores. split; [done|]. split; [by rewrite (mapM_Ok_length _ _ _ Hm)|]. split.
    + intros (d & Hd). exfalso. apply mapM_Ok_Forall2 in Hm.
      apply list_elem_of_lookup in Hd as (i & Hi).
      destruct (Forall2_lookup_l _ _ _ _ _ Hm Hi) as (q & _ & Hq). done.
    + intros _. by apply mapM_Ok_Forall2.
  - exists (replicate (length its) 0%Q). split; [done|]. split; [by rewrite length_replicate|].
    split; [done|]. intros Hall. exfalso.
    assert (∃ k, mapM prime_score outcomes = Ok k) as (k & Hk); [|congruence].
    clear -Hall. induction outcomes as [|o os IH]; [by exists []|]. cbn.
    destruct (Hall o ltac:(by left)) as (q & ->). cbn.
    destruct IH as (k & ->); [intros o' Ho'; apply Hall; by right|]. cbn. eauto.
Qed.

(** ** Concrete items *)

Definition sample_item (mask : list Z) : item :=
  {| prompts := [7; 7]%Z; responses := [1; 2; 3]%Z; attention_mask := mask;
     fields := [("data_source", JStr "math"); ("reward_model", JObj [("ground_truth", JStr "4")])]%string |}.
Definition sample_items : list item := [sample_item [1; 1; 1; 1; 0]%Z; sample_item [1; 1; 1; 0; 0]%Z].
Definition show_len (ids : list Z) : string := pretty (length ids).

(** A scoring function that times out on responses of one token. *)
Definition sample_score (_ : json) (response : string) (_ : json) (_ : dict) : scored :=
  if bool_decide (response = "1")%string then TimedOut
  else Scored (JObj [("score", JFloat 1); ("acc", JBool true)]%string).

Lemma score_rows_spec_witness :
  ∃ rows extra, naive_call show_len sample_score "data_source" sample_items = Ok (rows, extra) ∧
    rows = [[0; 1; 0]; [0; 0; 0]]%Q ∧ length (default [] (dget "acc"%string extra)) = 1.
Proof.
  destruct (naive_call show_len sample_score "data_source" sample_items) as [[rows extra]|] eqn:E; [|discriminate E].
  destruct (score_rows_spec _ _ _ _ E) as (outs & Ho & _ & _ & Hlen).
  exists rows, extra. split; [reflexivity|]. split.
  - vm_compute in E. injection E as <- _. reflexivity.
  - rewrite Hlen. vm_compute in Ho. injection Ho as <-. reflexivity.
Defined.

Lemma limited_never_raises_witness :
  ∃ score info, run_single show_len sample_score RateLimited (sample_item [1; 1; 1; 0; 0]%Z) = Ok (score, info) ∧
    score = JFloat 0.
Proof.
  destruct (limited_never_raises show_len sample_score (sample_item [1; 1; 1; 0; 0]%Z) (JStr "4") (JStr "math") []
              eq_refl eq_refl eq_refl) as (score & info & H & Hs & _).
  by exists score, info.
Defined.

Lemma prime_scores_witness :
  ∃ scores, prime_verify show_len sample_score "data_source" sample_items = Ok scores ∧ scores = [0; 0]%Q.
Proof.
  destruct (prime_scores show_len sample_score "data_source" sample_items
              [Scored (JObj [("score", JFloat 1); ("acc", JBool true)]%string);
               Scored (JObj [("score", JFloat 1); ("acc", JBool true)]%string)] eq_refl) as (scores & H & _ & Hd & _).
  exists scores. split; [exact H|]. apply Hd. eexists. by left.
Defined.
