(* ===== verification/RewardLoop.v ===== *)
(** * RewardLoop: scoring a batch on the reward-loop workers

    Models src/verl/experimental/reward_loop/reward_loop.py and
    [RewardManagerBase.assemble_rm_scores]: the batch is padded to the number
    of workers, split, scored item by item on every worker, and the scores of
    the original items become the token-level reward tensor.  A batch is a
    [DataProto] whose tensors have rows of integers; the scoring of an item
    and the reward model's HTTP server are parameters. *)

From S2P Require Import Prelude PyStr PyDict Json PyRat RewardManagers DataProto Dispatch.
From Stdlib Require Import QArith.
Local Close Scope Q_scope.
#[local] Open Scope py_scope.

Section reward_loop.
Context {V : Type} `{EqDecision V}.
Notation batch_data := (DataProto (list Z) json V).
(** The row view of an item: its named tensors and fields. *)
Notation row_item := (list (string * option (list Z)) * list (string * option json))%type.

(** What [compute_score] returns for an item: [reward_score] and, unless a
    reward model scored it, [reward_extra_info]. *)
Record output := { reward_score : json; reward_extra_info : option dict }.

(** [RewardLoopWorker.compute_score]: a custom function or the rules score the
    item with the reward manager, a discriminative reward model alone with it. *)
Definition compute_score {I} (custom_path : option string) (rm_enabled : bool)
    (run_single : I → result (json * dict)) (disrm : I → result json) (it : I) : result output :=
  let with_manager :=
    '(s, info) ← run_single it; Ok {| reward_score := s; reward_extra_info := Some info |} in
  match custom_path with
  | Some _ => with_manager
  | None => if rm_enabled then s ← disrm it; Ok {| reward_score := s; reward_extra_info := None |}
            else with_manager
  end.

(** [compute_score_batch]: a task per item, gathered in order. *)
Definition compute_score_batch (score : row_item → result output) (data : batch_data) : result (list output) :=
  mapM score (items data).

(** [assemble_rm_scores]. *)
Definition assemble_rm_scores (data : batch_data) (scores : list Q) : result (list (list Q)) :=
  ps ← ditem "prompts" (tensors_of data);
  mask ← ditem "attention_mask" (tensors_of data);
  resp ← ditem "responses" (tensors_of data);
  let prompt_length := length (default [] (head ps)) in
  require Nat.eqb (length scores) (length resp) else RuntimeError "shape mismatch" ;;
  mapM (λ p, place (length p.1.1) (zsum (drop prompt_length p.1.2)) p.2) (zip (zip resp mask) scores).

Record rm_output := {
  rm_scores : list (list Q); extra_infos : list (string * list json); reward_extra_keys : list string }.

(** The second half of [compute_rm_score]: tensor and extra information.  The
    keys are those of the first item. *)
Definition finish (data : batch_data) (outputs : list output) : result rm_output :=
  scores ← mapM (λ o, number (reward_score o)) outputs;
  rows ← assemble_rm_scores data scores;
  let infos := (λ o, default [] (reward_extra_info o)) <$> outputs in
  first ← of_option (IndexError "list index out of range") (head infos);
  let ks := first.*1 in
  cols ← mapM (λ k, vs ← mapM (getitem k) infos; Ok (k, vs)) ks;
  Ok {| rm_scores := rows; extra_infos := cols; reward_extra_keys := ks |}.

(** [RewardLoopManager.compute_rm_score]. *)
Definition compute_rm_score (auto_padding : bool) (num_workers : nat) (score : row_item → result output)
    (data : batch_data) : result rm_output :=
  '(padded, pad_size) ← pad_dataproto_to_divisor num_workers data;
  chunks ← chunk auto_padding num_workers padded;
  outputs ← mapM (compute_score_batch score) chunks;
  let flat := concat outputs in
  finish data (if Nat.ltb 0 pad_size then take (len data) flat else flat).

(** [_init_reward_loop_workers]: the node of worker [i]. *)
Definition worker_node {N} (node_ids : list N) (i : nat) : result N :=
  require negb (Nat.eqb (length node_ids) 0) else ZeroDivisionError "integer modulo by zero" ;;
  of_option (IndexError "list index out of range") (node_ids !! (i mod length node_ids)).

(** [reward_loop_worker_handles]: exposed only when scoring can overlap the rollout. *)
Definition reward_loop_worker_handles {W} (rm_enabled enable_resource_pool : bool) (workers : W) : option W :=
  if negb rm_enabled || enable_resource_pool then Some workers else None.

(** ** The number of workers does not matter *)

Lemma mapM_concat {X Y} (f : X → result Y) (g : X → Y) (ls : list (list X)) :
  (∀ x, x ∈ concat ls → f x = Ok (g x)) → mapM (λ l : list X, mapM f l) ls = Ok ((λ l : list X, g <$> l) <$> ls).
Proof.
  intros H. apply mapM_Ok_map. intros l Hl. apply mapM_Ok_map. intros x Hx. apply H.
  apply list_elem_of_In, in_concat. exists l. split; by apply list_elem_of_In.
Qed.

Lemma fmap_concat_lists {X Y} (g : X → Y) (ls : list (list X)) : concat ((λ l : list X, g <$> l) <$> ls) = g <$> concat ls.
Proof. induction ls as [|l ls IH]; [done|]. csimpl. by rewrite fmap_app, IH. Qed.

Lemma take_cyclic {X} (p l : list X) n :
  length p = length l + n → (∀ i, i < length p → p !! i = l !! (i mod length l)) → take (length l) p = l.
Proof.
  intros Hlen H. apply list_eq. intros i. destruct (decide (i < length l)) as [Hi|Hi].
  - rewrite lookup_take_lt, H, Nat.mod_small by lia. done.
  - rewrite lookup_take_ge by lia. symmetry. apply lookup_ge_None. lia.
Qed.

(** C19: scoring a batch on any positive number of workers is scoring its items
    one by one: padding and splitting change neither which items are scored for
    the result nor their order. *)
Theorem compute_rm_score_is_map auto_padding num_workers score g (data : batch_data) :
  wf data → mergeable data → len data ≠ 0 → num_workers ≠ 0 →
  (∀ it, it ∈ items data → score it = Ok (g it)) →
  compute_rm_score auto_padding num_workers score data = finish data (g <$> items data).
Proof.
  intros Hw Hm Hl Hn Hg. unfold compute_rm_score.
  destruct (pad_unpad_spec num_workers data Hw Hm Hn) as (p & n & Hp & Hwp & Hlp & Hlt & Hmod & Hit & _).
  rewrite Hp. cbn [mbind result_bind].
  destruct (chunk_valid auto_padding num_workers p Hwp Hn ltac:(lia) Hmod) as (ps & Hc & _ & _ & Hcat & _).
  rewrite Hc. cbn [mbind result_bind].
  assert (Hall : ∀ it, it ∈ items p → score it = Ok (g it)).
  { intros it (i & Hi)%list_elem_of_lookup. apply Hg. pose proof (lookup_lt_Some _ _ _ Hi) as Hilt.
    rewrite items_length in Hilt. rewrite Hit in Hi by done. by eapply list_elem_of_lookup_2. }
  assert (Hout : mapM (compute_score_batch score) ps = Ok ((λ l, g <$> l) <$> (items <$> ps))).
  { pose proof (mapM_concat score g (items <$> ps) ltac:(rewrite Hcat; exact Hall)) as H.
    rewrite <-H. clear. induction ps as [|q ps IH]; [done|]. cbn.
    unfold compute_score_batch in *. destruct (mapM score (items q)); cbn; [|done]. by rewrite IH. }
  rewrite Hout. cbn [mbind result_bind]. rewrite fmap_concat_lists, Hcat. f_equal.
  assert (Htake : take (len data) (items p) = items data).
  { rewrite <-(items_length data). apply (take_cyclic _ _ n); rewrite !items_length; [lia|].
    intros i Hi. by apply Hit. }
  destruct (Nat.ltb_spec 0 n).
  - by rewrite <-fmap_take, Htake.
  - rewrite <-Htake, take_ge; [done|]. rewrite items_length. lia.
Qed.

(** What a returned batch of rewards needs: every item has every key of the
    first one, and the rows are the items' rewards in order. *)
Lemma finish_needs_keys (data : batch_data) outputs r :
  finish data outputs = Ok r →
  ∃ first, head outputs = Some first ∧ reward_extra_keys r = (default [] (reward_extra_info first)).*1 ∧
    ∀ o k, o ∈ outputs → k ∈ reward_extra_keys r → ∃ v, lookup k (default [] (reward_extra_info o)) = Some v.
Proof.
  unfold finish. intros H. apply bind_Ok_inv in H as (scores & _ & H). apply bind_Ok_inv in H as (rows & _ & H).
  apply bind_Ok_inv in H as (first & Hf & H). apply of_option_Ok in Hf.
  apply bind_Ok_inv in H as (cols & Hc & [= <-]).
  destruct outputs as [|o0 rest]; [done|]. injection Hf as <-.
  exists o0. split; [done|]. split; [done|]. intros o k Ho Hk. cbn [reward_extra_keys] in Hk.
  apply mapM_Ok_Forall2 in Hc. apply list_elem_of_lookup in Hk as (i & Hi).
  destruct (Forall2_lookup_l _ _ _ _ _ Hc Hi) as ([k' vs] & _ & Hk').
  apply bind_Ok_inv in Hk' as (vs' & Hvs & _). apply mapM_Ok_Forall2 in Hvs.
  assert (Hin : default [] (reward_extra_info o) ∈ ((λ o, default [] (reward_extra_info o)) <$> (o0 :: rest)))
    by (apply list_elem_of_fmap; by exists o).
  apply list_elem_of_lookup in Hin as (j & Hj).
  destruct (Forall2_lookup_l _ _ _ _ _ Hvs Hj) as (v & _ & Hv). apply of_option_Ok in Hv. by exists v.
Qed.
End reward_loop.

(** ** The HTTP client of a discriminative reward model *)

(** What an attempt of [session.post] ends in. *)
Inductive reply := Answer (v : json) | HttpError (status : Z) | ConnectionError | OtherError (msg : string).

(** How [_post_request] ends: the answer, the exception of the last attempt, or
    (without attempts) [None]. *)
Inductive posted := Posted (v : json) | GaveUp (r : reply) | NoRequest.

(** The attempts from the [attempt]-th on, [tries] of them, with the sleeps
    between them; a 4xx status is raised at once. *)
Fixpoint post_from (server : nat → reply) (attempt tries : nat) (last : option reply) : posted * list Z :=
  match tries with
  | 0 => (match last with Some r => GaveUp r | None => NoRequest end, [])
  | S tries =>
      match server attempt with
      | Answer v => (Posted v, [])
      | HttpError st =>
          if (400 <=? st)%Z && (st <? 500)%Z then (GaveUp (HttpError st), [])
          else let '(r, sleeps) := post_from server (S attempt) tries (Some (HttpError st)) in
               (r, (if Nat.eqb tries 0 then [] else [Z.min (2 ^ Z.of_nat attempt) 30]) ++ sleeps)
      | e => let '(r, sleeps) := post_from server (S attempt) tries (Some e) in
             (r, (if Nat.eqb tries 0 then [] else [Z.min (2 ^ Z.of_nat attempt) 30]) ++ sleeps)
      end
  end.
Definition post_request (server : nat → reply) (max_retries : nat) : posted * list Z :=
  post_from server 0 max_retries None.

(** Whether the loop tries again after this reply. *)
Definition retried (r : reply) : bool :=
  match r with
  | Answer _ => false
  | HttpError st => negb ((400 <=? st)%Z && (st <? 500)%Z)
  | _ => true
  end.
Definition ended (r : reply) : posted := match r with Answer v => Posted v | r => GaveUp r end.

Lemma post_from_spec server : ∀ tries attempt last,
  (∃ n, n < tries ∧ (∀ i, i < n → retried (server (attempt + i)) = true) ∧
     retried (server (attempt + n)) = false ∧
     post_from server attempt tries last =
       (ended (server (attempt + n)), (λ i, Z.min (2 ^ Z.of_nat (attempt + i)) 30) <$> seq 0 n)) ∨
  ((∀ i, i < tries → retried (server (attempt + i)) = true) ∧
     post_from server attempt tries last =
       (match tries with 0 => match last with Some r => GaveUp r | None => NoRequest end
                   | S k => ended (server (attempt + k)) end,
        (λ i, Z.min (2 ^ Z.of_nat (attempt + i)) 30) <$> seq 0 (tries - 1))).
Proof.
  induction tries as [|tries IH]; intros attempt last; [by right; split; [lia|]|].
  destruct (retried (server attempt)) eqn:Hr.
  - assert (Hstep : ∃ l', post_from server attempt (S tries) last =
      (let '(r, sleeps) := post_from server (S attempt) tries (Some l') in
       (r, (if Nat.eqb tries 0 then [] else [Z.min (2 ^ Z.of_nat attempt) 30]) ++ sleeps)) ∧ GaveUp l' = ended (server attempt)).
    { cbn [post_from]. unfold retried in Hr. destruct (server attempt) as [v|st| |m]; [done|..]; [|by eexists..].
      apply negb_true_iff in Hr. rewrite Hr. by eexists. }
    destruct Hstep as (l' & -> & Hl').
    assert (Hsleeps : ∀ n, (λ i, Z.min (2 ^ Z.of_nat (attempt + i)) 30) <$> seq 0 (S n) =
      Z.min (2 ^ Z.of_nat attempt) 30 :: ((λ i, Z.min (2 ^ Z.of_nat (S attempt + i)) 30) <$> seq 0 n)).
    { intros n. cbn [seq]. rewrite fmap_cons, Nat.add_0_r, <-fmap_S_seq, <-list_fmap_compose. f_equal.
      apply list_fmap_ext. intros _ i _. unfold compose. by rewrite Nat.add_succ_r. }
    assert (Hall : ∀ k, (∀ i, i < k → retried (server (S attempt + i)) = true) →
                    ∀ i, i < S k → retried (server (attempt + i)) = true).
    { intros k Hk [|i] Hi; [by rewrite Nat.add_0_r|]. rewrite Nat.add_succ_r. apply Hk. lia. }
    destruct (IH (S attempt) (Some l')) as [(n & Hn & Hbefore & Hend & ->)|(Hretried & ->)].
    + left. exists (S n). split; [lia|]. split; [by apply Hall|]. rewrite Nat.add_succ_r. split; [done|].
      rewrite Hsleeps. destruct tries; [lia|]. done.
    + right. split; [by apply Hall|]. destruct tries as [|k].
      * cbn. by rewrite Hl', Nat.add_0_r.
      * rewrite Nat.add_succ_r. f_equal. replace (S (S k) - 1) with (S (S k - 1)) by lia. by rewrite Hsleeps.
  - left. exists 0. split; [lia|]. rewrite Nat.add_0_r. split; [lia|]. split; [done|].
    cbn [post_from]. unfold retried in Hr. destruct (server attempt) as [v|st| |m]; try done.
    apply negb_false_iff in Hr. by rewrite Hr.
Qed.

(** [_post_request] makes at most [max_retries] attempts: it ends with the
    first answer or 4xx error, or with the last error after the last attempt,
    and sleeps [min(2^i, 30)] seconds after attempt [i] when another follows. *)
Theorem post_request_spec server max_retries :
  0 < max_retries →
  ∃ n, n < max_retries ∧ (∀ i, i < n → retried (server i) = true) ∧
    (retried (server n) = true → n = max_retries - 1) ∧
    post_request server max_retries =
      (ended (server n), (λ i, Z.min (2 ^ Z.of_nat i) 30) <$> seq 0 n).
Proof.
  intros Hm. unfold post_request.
  destruct (post_from_spec server max_retries 0 None) as [(n & Hn & Hbefore & Hend & ->)|(Hall & ->)].
  - exists n. split; [done|]. split; [done|]. split; [cbn in Hend; congruence | done].
  - exists (max_retries - 1). split; [lia|]. split; [intros i Hi; apply Hall; lia|]. split; [done|].
    destruct max_retries as [|k]; [lia|]. cbn. by rewrite Nat.sub_0_r.
Qed.

Definition flaky (i : nat) : reply := if Nat.ltb i 2 then HttpError 503 else Answer (JInt 1).
Lemma post_request_spec_witness : ∃ n, n < 16 ∧ post_request flaky 16 = (ended (flaky n), [1; 2]%Z).
Proof.
  destruct (post_request_spec flaky 16 ltac:(lia)) as (n & Hn & _ & _ & H).
  assert (E : n = 2).
  { vm_compute in H. destruct n as [|[|[|n]]]; [discriminate H..|done|].
    exfalso. do 13 (destruct n as [|n]; [discriminate H|]). lia. }
  subst n. exists 2. split; [lia | exact H].
Defined.

Section disrm.
Variable decode : list Z → string.
Variable eos_token : string.
Variable chat_template : list json → string.
Variable bos_token : option string.

(** [_preprocess_reward_inputs]: the chat with the response, through the reward
    model's template, without a leading beginning-of-sequence token. *)
Definition preprocess_reward_inputs (raw_prompt : list json) (it : RewardManagers.item) : string :=
  let response := decode (valid_ids (valid_by_response it) it) in
  let response := if String.eqb eos_token "" then response else replace eos_token "" response in
  let rm_prompt := chat_template (raw_prompt ++ [JObj [("role", JStr "assistant"); ("content", JStr response)]%string]) in
  match bos_token with
  | Some bos => if startswith bos rm_prompt then sdrop (String.length bos) rm_prompt else rm_prompt
  | None => rm_prompt
  end.

(** [l[-1]] and the fields [compute_score_disrm] reads. *)
Definition last_of (v : json) : result json :=
  match v with
  | JList l => of_option (IndexError "list index out of range") (List.last (Some <$> l) None)
  | _ => Raise (TypeError "object is not subscriptable")
  end.
Definition field_of (k : string) (v : json) : result json := d ← as_dict v; getitem k d.

Inductive engine := Vllm | Sglang | Trtllm | OtherEngine (name : string).

(** The request's endpoint and payload, and the score in the answer. *)
Definition disrm_request (e : engine) (model prompt : string) : result (string * json) :=
  match e with
  | Vllm => Ok ("classify", JObj [("model", JStr model); ("input", JStr prompt); ("use_activation", JBool false)])
  | Sglang => Ok ("v1/embeddings", JObj [("model", JStr model); ("input", JStr prompt)])
  | Trtllm => Raise (ValueError "TensorRT-LLM backend does not support reward models currently.")
  | OtherEngine n => Raise (NotImplementedError ("RewardLoopManager does not support " +:+ n))
  end%string.
Definition disrm_score (e : engine) (output : json) : result json :=
  data ← field_of "data" output;
  x ← last_of data;
  scores ← field_of (match e with Vllm => "probs" | _ => "embedding" end) x;
  last_of scores.

Definition compute_score_disrm (e : engine) (model : string) (server : string → json → nat → reply)
    (raw_prompt : list json) (it : RewardManagers.item) : result json :=
  '(endpoint, payload) ← disrm_request e model (preprocess_reward_inputs raw_prompt it);
  match post_request (server endpoint payload) 16 with
  | (Posted v, _) => disrm_score e v
  | (GaveUp _, _) => Raise (RuntimeError "request failed")
  | (NoRequest, _) => disrm_score e JNull
  end.
End disrm.

(** ** A concrete batch *)

Definition loop_batch : DataProto (list Z) json nat := {|
  batch := Some {| bsz := 3; tensors :=
    [("prompts", [[7]; [7]; [7]]%Z); ("responses", [[1; 2]; [3; 0]; [4; 5]]%Z);
     ("attention_mask", [[1; 1; 1]; [1; 1; 0]; [1; 1; 1]]%Z)]%string |};
  non_tensor_batch := []; meta_info := [] |}.
Definition first_token (it : list (string * option (list Z)) * list (string * option json)) : Q :=
  match dget "responses"%string it.1 with Some (Some (x :: _)) => inject_Z x | _ => 0%Q end.
Definition token_score (it : list (string * option (list Z)) * list (string * option json)) : output :=
  {| reward_score := JFloat (first_token it); reward_extra_info := Some [("acc"%string, JFloat (first_token it))] |}.

Lemma loop_batch_ok : wf loop_batch ∧ mergeable loop_batch.
Proof.
  split; [|split; [constructor | split; [set_solver | intros kv Hkv; set_solver]]].
  unfold wf, rows_of. split_and!; repeat constructor; set_solver.
Qed.

Lemma compute_rm_score_is_map_witness :
  compute_rm_score false 2 (λ it, Ok (token_score it)) loop_batch =
  Ok {| rm_scores := [[0; 1]; [3; 0]; [0; 4]]%Q;
        extra_infos := [("acc"%string, [JFloat 1; JFloat 3; JFloat 4])]; reward_extra_keys := ["acc"%string] |}.
Proof.
  rewrite (compute_rm_score_is_map false 2 (λ it, Ok (token_score it)) token_score loop_batch);
    [vm_compute; reflexivity | apply loop_batch_ok | apply loop_batch_ok | discriminate | discriminate | done].
Defined.

(** One timed-out item among the others: the batch raises. *)
Definition second_timed_out (it : list (string * option (list Z)) * list (string * option json)) : output :=
  if Qeq_bool (first_token it) 3 then
    {| reward_score := JFloat 0; reward_extra_info := Some [("timeout", JBool true); ("acc", JFloat 0)]%string |}
  else {| reward_score := JFloat 1; reward_extra_info := Some [("score", JFloat 1); ("acc", JBool true)]%string |}.
Example timeout_aborts_batch :
  compute_rm_score false 2 (λ it, Ok (second_timed_out it)) loop_batch = Raise (KeyError "score").
Proof. vm_compute. reflexivity. Qed.
