(* ===== verification/Gsm8kScore.v ===== *)
(** * Gsm8kScore: src/verl/utils/reward_score/gsm8k.py *)

From S2P Require Import Prelude PyStr PyNum PyRegex.
From Stdlib Require Import QArith.
Local Close Scope Q_scope.
Local Open Scope string_scope.
#[local] Open Scope py_scope.

Definition digit_class (c : ascii) : bool :=
  match digit_of c with Some _ => true | None => bool_decide (c = "."%char) || bool_decide (c = ","%char) end.

(** [(\-?[0-9\.\,]+)]. *)
Definition number_at (s : string) : option (string * nat) :=
  let '(sign, rest) := match s with String "-"%char r => ("-", r) | _ => ("", s) end in
  match span digit_class rest with
  | EmptyString => None
  | d => Some (sign ++ d, String.length (sign ++ d))
  end.

(** [#### (\-?[0-9\.\,]+)]. *)
Definition marker : string := "#### ".
Definition marked_number_at (s : string) : option (string * nat) :=
  if startswith marker s then
    '(d, n) ← number_at (sdrop (String.length marker) s); Some (d, String.length marker + n)
  else None.

Inductive method := strict | flexible.

Definition clip : nat := 300.

(** The [for] loop over the reversed matches: the last number that is not
    empty or a dot, otherwise the first match. *)
Definition last_valid_number (l : list string) : option string :=
  match list_find (λ a, negb (bool_decide (a ∈ ["" ; "."]%list)) = true) (rev l) with
  | Some (_, a) => Some a
  | None => head l
  end.

Definition extract_solution (m : method) (solution_str : string) : option string :=
  let s := if Nat.ltb clip (String.length solution_str) then last_chars clip solution_str else solution_str in
  match m with
  | strict => d ← last (findall marked_number_at s); Some (replace "$" "" (replace "," "" d))
  | flexible => last_valid_number (findall number_at s)
  end.

Definition compute_score (m : method) (format_score score : Q) (solution_str ground_truth : string) : Q :=
  match extract_solution m solution_str with
  | None => 0%Q
  | Some answer => if bool_decide (answer = ground_truth) then score else format_score
  end.

(** ** The last marked number *)

(** A number read before a [#] stays before it. *)
Lemma number_before_hash p t d n :
  number_at (p ++ String "#" t) = Some (d, n) → (n ≤ String.length p)%nat.
Proof.
  unfold number_at. destruct p as [|c p]; [done|]. cbn [append].
  destruct (decide (c = "-"%char)) as [->|Hc].
  - pose proof (span_stop digit_class p "#" t eq_refl) as Hs.
    destruct (span digit_class (p ++ String "#" t)) as [|e r]; [done|].
    intros [= <- <-]. cbn in *. lia.
  - pose proof (span_stop digit_class (String c p) "#" t eq_refl) as Hs. cbn [append] in Hs.
    assert (E : (match String c (p ++ String "#" t) with String "-"%char r => ("-", r) | _ => ("", String c (p ++ String "#" t)) end)
                = ("", String c (p ++ String "#" t))).
    { destruct c as [[] [] [] [] [] [] [] []]; done. }
    rewrite E. destruct (span digit_class (String c (p ++ String "#" t))) as [|e r]; [done|].
    intros [= <- <-]. exact Hs.
Qed.

(** A match that starts before the marker ends before it. *)
Lemma match_before p t d n :
  p ≠ "" → marked_number_at (p ++ marker ++ t) = Some (d, n) → (n ≤ String.length p)%nat.
Proof.
  intros Hp H. unfold marked_number_at in H.
  destruct (startswith marker (p ++ marker ++ t)) eqn:Hs; [|done].
  destruct (decide (5 ≤ String.length p)%nat) as [Hlong|Hshort].
  - assert (Hm : startswith marker p = true) by (by rewrite startswith_app_long in Hs).
    apply startswith_spec in Hm as [r ->]. rewrite sapp_assoc, sdrop_app in H.
    change (marker ++ t) with (String "#" ("### " ++ t)) in H.
    destruct (number_at (r ++ String "#" ("### " ++ t))) as [[d' n']|] eqn:Hn; [|done].
    injection H as <- <-. apply number_before_hash in Hn. rewrite length_sapp.
    change (String.length marker) with 5%nat. lia.
  - exfalso. destruct p as [|c1 [|c2 [|c3 [|c4 [|c5 p]]]]]; try done; cbn in Hshort; try lia;
      unfold marker in Hs; cbn [append startswith] in Hs;
      repeat (apply andb_true_iff in Hs as [?%bool_decide_eq_true_1 Hs]); discriminate.
Qed.

(** The number at the end, whatever precedes its marker. *)
Definition numeric (d : string) : Prop := d ≠ "" ∧ all_chars digit_class d = true.

Lemma number_alone d : numeric d → number_at d = Some (d, String.length d).
Proof.
  intros [Hne Hall]. unfold number_at. destruct d as [|c d]; [done|].
  assert (Hc : digit_class c = true) by (by apply andb_true_iff in Hall as [? _]).
  assert (E : (match String c d with String "-"%char r => ("-", r) | _ => ("", String c d) end) = ("", String c d)).
  { destruct c as [[] [] [] [] [] [] [] []]; done. }
  rewrite E, span_all by done. done.
Qed.

Lemma findall_ends d p : numeric d → ∀ k, (k ≤ String.length p)%nat →
  ∃ l, findall_skip marked_number_at k (p ++ marker ++ d) = (l ++ [d])%list.
Proof.
  intros Hd. induction p as [|c p IH]; intros k Hk.
  - cbn in Hk. assert (k = 0)%nat as -> by lia. exists []%list. cbn [append].
    assert (Hm : marked_number_at (marker ++ d) = Some (d, (5 + String.length d)%nat)).
    { unfold marked_number_at. rewrite (proj2 (startswith_spec _ _)) by (by exists d).
      rewrite sdrop_app, number_alone by done. done. }
    change (marker ++ d) with (String "#" ("### " ++ d)) in *. cbn [findall_skip]. rewrite Hm.
    rewrite findall_skip_all; [done|]. rewrite length_sapp. cbn. lia.
  - cbn [append findall_skip]. destruct k as [|k]; [|apply IH; cbn in Hk; lia].
    change (String c (p ++ marker ++ d)) with (String c p ++ marker ++ d).
    destruct (marked_number_at (String c p ++ marker ++ d)) as [[a n]|] eqn:Hm.
    + apply match_before in Hm; [|done]. cbn in Hm.
      destruct (IH (n - 1)%nat ltac:(lia)) as [l Hl]. exists (a :: l)%list. by rewrite Hl.
    + apply IH. lia.
Qed.

(** A response that ends in the marker and a number is graded by that number,
    whatever precedes it and however long it is, as long as the marker and the
    number fit in the 300 characters the code looks at: commas are dropped, and
    the score is the full one exactly when the rest equals the ground truth. *)
Theorem strict_grades_final_number p d format_score score ground_truth :
  numeric d → (String.length marker + String.length d ≤ clip)%nat →
  extract_solution strict (p ++ marker ++ d) = Some (replace "$" "" (replace "," "" d)) ∧
  compute_score strict format_score score (p ++ marker ++ d) ground_truth =
    if bool_decide (replace "$" "" (replace "," "" d) = ground_truth) then score else format_score.
Proof.
  intros Hd Hlen.
  assert (Hclip : ∃ p', (if Nat.ltb clip (String.length (p ++ marker ++ d))
                         then last_chars clip (p ++ marker ++ d) else p ++ marker ++ d) = p' ++ marker ++ d).
  { destruct (Nat.ltb _ _); [|by exists p]. apply last_chars_app. by rewrite length_sapp. }
  destruct Hclip as [p' Hp'].
  assert (Hext : extract_solution strict (p ++ marker ++ d) = Some (replace "$" "" (replace "," "" d))).
  { unfold extract_solution. rewrite Hp'. unfold findall.
    destruct (findall_ends d p' Hd 0 ltac:(lia)) as [l ->]. by rewrite last_snoc. }
  split; [done|]. unfold compute_score. by rewrite Hext.
Qed.

Lemma strict_grades_final_number_witness :
  compute_score strict 0 1 ("2 #### 3, so " ++ marker ++ "1,234") "1234" = 1%Q.
Proof.
  rewrite (proj2 (strict_grades_final_number "2 #### 3, so " "1,234" 0 1 "1234" ltac:(by split) ltac:(cbn; unfold clip; lia))).
  reflexivity.
Defined.
