(* ===== verification/HendrycksScore.v ===== *)
(** * HendrycksScore: src/verl/utils/reward_score/math_reward.py *)

From S2P Require Import Prelude PyStr PyNum PyRegex MathReward.
From Stdlib Require Import QArith.
Local Close Scope Q_scope.
Local Open Scope string_scope.
#[local] Open Scope py_scope.

(** The brace loop of [last_boxed_only_string] from [idx] on. *)
Definition upto_close (s : string) : option string :=
  pos ← close_brace 0 s; Some (stake (S pos) s).

Definition last_boxed_only_string (s : string) : option string :=
  if contains "\boxed " s then
    Some ("\boxed " ++ List.hd "" (split_on "$" (List.last (split_str "\boxed " s) "")))
  else
    match rfind "\boxed" s with
    | Some idx => upto_close (sdrop idx s)
    | None => idx ← rfind "\fbox" s; upto_close (sdrop idx s)
    end.

(** [s[len(left):-1]] and [s[-1] == "}"]. *)
Definition drop_last (s : string) : string := stake (String.length s - 1) s.
Definition last_is (c : ascii) (s : string) : bool := bool_decide (sdrop (String.length s - 1) s = String c "").

Definition remove_boxed (s : string) : result string :=
  if contains "\boxed " s then
    require startswith "\boxed " s else AssertionError "" ;; Ok (sdrop 7 s)
  else
    require startswith "\boxed{" s else AssertionError "" ;;
    require last_is "}" s else AssertionError "" ;;
    Ok (drop_last (sdrop 7 s)).

(** One part after a [\frac]; [None] is the [return string] of a short part. *)
Definition fix_frac_part (part : string) : result (option string) :=
  c ← head_char part;
  if bool_decide (c = "{"%char) then Ok (Some part)
  else match part with
       | String a (String b post) =>
           let a := String a "" in
           let b' := String b "" in
           Ok (Some (if bool_decide (b = "{"%char) then "{" ++ a ++ "}" ++ b' ++ post
                     else "{" ++ a ++ "}{" ++ b' ++ "}" ++ post))
       | _ => Ok None
       end.

Fixpoint fix_frac_parts (parts : list string) : result (option string) :=
  match parts with
  | [] => Ok (Some "")
  | p :: parts =>
      p' ← fix_frac_part p;
      match p' with
      | None => Ok None
      | Some p' =>
          rest ← fix_frac_parts parts;
          Ok (rest ← rest; Some ("\frac" ++ p' ++ rest))
      end
  end.
Definition fix_fracs (s : string) : result string :=
  match split_str "\frac" s with
  | [] => Ok s
  | first :: parts => r ← fix_frac_parts parts; Ok (match r with Some r => first ++ r | None => s end)
  end.

(** [a/b] with two integers in canonical form. *)
Definition fix_a_slash_b (s : string) : string :=
  match split_on "/" s with
  | [a; b] =>
      match int_of_str a, int_of_str b with
      | Some a, Some b =>
          if bool_decide (s = pretty a ++ "/" ++ pretty b)
          then "\frac{" ++ pretty a ++ "}{" ++ pretty b ++ "}" else s
      | _, _ => s
      end
  | _ => s
  end.

Definition remove_right_units (s : string) : result string :=
  if contains "\text{ " s then
    match split_str "\text{ " s with
    | [a; _] => Ok a
    | _ => Raise (AssertionError "")
    end
  else Ok s.

Definition fix_sqrt_part (part : string) : result string :=
  c ← head_char part;
  Ok (if bool_decide (c = "{"%char) then "\sqrt" ++ part
      else "\sqrt{" ++ String c "" ++ "}" ++ sdrop 1 part).
Definition fix_sqrt (s : string) : result string :=
  if negb (contains "\sqrt" s) then Ok s
  else match split_str "\sqrt" s with
       | [] => Ok s
       | first :: parts => ps ← mapM fix_sqrt_part parts; Ok (first ++ str_join "" ps)
       end.

(** The replacements of [strip_string] up to the units, and those after them. *)
Definition strip_latex (s : string) : string :=
  foldl (λ s p, replace p.1 p.2 s) s
    [(nl, ""); ("\!", ""); ("\\", "\"); ("tfrac", "frac"); ("dfrac", "frac"); ("\left", ""); ("\right", "");
     ("^{\circ}", ""); ("^\circ", ""); ("\$", "")].
Definition strip_percent (s : string) : string :=
  foldl (λ s p, replace p.1 p.2 s) s [("\\%", ""); ("\%", ""); (" .", " 0."); ("{.", "{0.")].

(** ["k = 3"] is ["3"] when at most two characters precede the equals sign. *)
Definition drop_lhs (s : string) : string :=
  match split_on "=" s with
  | [lhs; rhs] => if Nat.leb (String.length lhs) 2 then rhs else s
  | _ => s
  end.

Definition strip_string (s : string) : result string :=
  s ← remove_right_units (strip_latex s);
  let s := strip_percent s in
  match s with
  | EmptyString => Ok s
  | String c _ =>
      let s := if bool_decide (c = "."%char) then "0" ++ s else s in
      s ← fix_sqrt (drop_lhs s);
      s ← fix_fracs (replace " " "" s);
      let s := if bool_decide (s = "0.5") then "\frac{1}{2}" else s in
      Ok (fix_a_slash_b s)
  end.

(** [is_equiv]: an exception of the normalisation falls back to equality. *)
Definition is_equiv (str1 str2 : option string) : bool :=
  match str1, str2 with
  | None, None => true
  | Some s1, Some s2 =>
      match strip_string s1, strip_string s2 with
      | Ok a, Ok b => bool_decide (a = b)
      | _, _ => bool_decide (s1 = s2)
      end
  | _, _ => false
  end.

(** [compute_score]: an exception (a malformed box) scores 0. *)
Definition compute_score (solution_str ground_truth : string) : Q :=
  match last_boxed_only_string solution_str with
  | None => 0%Q
  | Some boxed =>
      match remove_boxed boxed with
      | Ok answer => if is_equiv (Some answer) (Some ground_truth) then 1%Q else 0%Q
      | Raise _ => 0%Q
      end
  end.

(** Two answers are the same text, or both normalise to the same one. *)
Lemma is_equiv_spec a b :
  is_equiv (Some a) (Some b) = true ↔ a = b ∨ ∃ x, strip_string a = Ok x ∧ strip_string b = Ok x.
Proof.
  cbn. destruct (strip_string a) as [x|e] eqn:Ha, (strip_string b) as [y|e'] eqn:Hb; rewrite bool_decide_eq_true;
    (split; [intros ->; eauto | intros [->|(z & [=] & [=])]; congruence]).
Qed.

(** [is_equiv] is an equivalence relation, although a normalisation that
    raises falls back to comparing the raw strings. *)
Theorem is_equiv_equivalence : Equivalence (λ a b : option string, is_equiv a b = true).
Proof.
  split.
  - intros [a|]; [|done]. apply is_equiv_spec. by left.
  - intros [a|] [b|]; try done. rewrite !is_equiv_spec. intros [->|(x & ? & ?)]; eauto.
  - intros [a|] [b|] [c|]; try done. rewrite !is_equiv_spec. intros [->|(x & Hx & Hy)] [->|(y & Hy' & Hz)]; eauto.
    right. exists x. split; [done|]. congruence.
Qed.

Lemma upto_close_boxed b t : balanced b → upto_close ("\boxed{" ++ b ++ "}" ++ t) = Some ("\boxed{" ++ b ++ "}").
Proof.
  intros Hb. unfold upto_close. cbn [append close_brace]. char_decide.
  rewrite close_brace_balanced by (done || lia). cbn [append close_brace]. char_decide.
  change (0 + 1 - 1 =? 0)%Z with true. cbn [fmap option_fmap option_map mbind option_bind].
  rewrite Nat.add_0_r. f_equal.
  change (String "\" ("boxed{" ++ b ++ String "}" t)) with ("\boxed{" ++ (b ++ "}" ++ t)).
  replace (S (S (S (S (S (S (S (S (String.length b)))))))))%nat with (String.length ("\boxed{" ++ b ++ "}"))
    by (rewrite !length_sapp; cbn; lia).
  assert (E : "\boxed{" ++ (b ++ "}" ++ t) = ("\boxed{" ++ b ++ "}") ++ t) by (by rewrite !sapp_assoc).
  change (stake (String.length ("\boxed{" ++ b ++ "}")) ("\boxed{" ++ b ++ "}" ++ t) = "\boxed{" ++ b ++ "}").
  rewrite E. apply stake_app.
Qed.

Lemma last_is_app c s : last_is c (s ++ String c "") = true.
Proof.
  unfold last_is. rewrite length_sapp. cbn [String.length]. rewrite Nat.add_sub, sdrop_app.
  by apply bool_decide_eq_true.
Qed.
Lemma drop_last_app c s : drop_last (s ++ String c "") = s.
Proof. unfold drop_last. rewrite length_sapp. cbn [String.length]. by rewrite Nat.add_sub, stake_app. Qed.

(** The score of a response is decided by its last box: with balanced content
    and no box after it, the response scores 1 when the content is equivalent to
    the ground truth and 0 otherwise, whatever surrounds the box. *)
Theorem grades_last_box pre b post ground_truth :
  balanced b → contains "\boxed" (String "{" (b ++ "}" ++ post)) = false →
  contains "\boxed " (pre ++ "\boxed{" ++ b ++ "}" ++ post) = false →
  last_boxed_only_string (pre ++ "\boxed{" ++ b ++ "}" ++ post) = Some ("\boxed{" ++ b ++ "}") ∧
  compute_score (pre ++ "\boxed{" ++ b ++ "}" ++ post) ground_truth =
    if is_equiv (Some b) (Some ground_truth) then 1%Q else 0%Q.
Proof.
  intros Hb Hno Hsp.
  assert (Hlast : last_boxed_only_string (pre ++ "\boxed{" ++ b ++ "}" ++ post) = Some ("\boxed{" ++ b ++ "}")).
  { unfold last_boxed_only_string. rewrite Hsp.
    change ("\boxed{" ++ b ++ "}" ++ post) with (boxed_tag ++ String "{" (b ++ "}" ++ post)).
    change "\boxed" with boxed_tag. rewrite rfind_boxed_tag by done. rewrite sdrop_app.
    by apply upto_close_boxed. }
  split; [done|]. unfold compute_score. rewrite Hlast. unfold remove_boxed.
  assert (Hsp' : contains "\boxed " ("\boxed{" ++ b ++ "}") = false).
  { apply not_true_iff_false. intros H. apply not_true_iff_false in Hsp. apply Hsp.
    apply contains_app_r. apply contains_spec in H as (x & y & H). apply contains_spec.
    exists x, (y ++ post). assert (E : "\boxed{" ++ b ++ "}" ++ post = ("\boxed{" ++ b ++ "}") ++ post) by (by rewrite !sapp_assoc).
    rewrite E, H. by rewrite !sapp_assoc. }
  rewrite Hsp', (proj2 (startswith_spec _ _)) by (by exists (b ++ "}")).
  assert (El : last_is "}" ("\boxed{" ++ b ++ "}") = true).
  { rewrite <-sapp_assoc. apply last_is_app. }
  rewrite El. change (sdrop 7 ("\boxed{" ++ b ++ "}")) with (b ++ "}"). by rewrite drop_last_app.
Qed.

Lemma grades_last_box_witness :
  compute_score ("so " ++ "\boxed{" ++ "\frac{1}{2}" ++ "}" ++ " holds") "1/2" = 1%Q.
Proof.
  rewrite (proj2 (grades_last_box "so " "\frac{1}{2}" " holds" "1/2"
    ltac:(repeat (apply (bal_char _ _); [discriminate..|]);
          apply (bal_nest "1" "{2}"); [repeat constructor; discriminate|];
          apply (bal_nest "2" ""); repeat constructor; discriminate) eq_refl eq_refl)).
  vm_compute. reflexivity.
Defined.
