(* ===== verification/DapoScore.v ===== *)
(** * DapoScore: src/verl/utils/reward_score/math_dapo.py *)

From S2P Require Import Prelude PyStr PyNum PyRegex.
From S2P Require HendrycksScore.
From Stdlib Require Import QArith.
Local Close Scope Q_scope.
Local Open Scope string_scope.
#[local] Open Scope py_scope.

Definition last_boxed_only_string (s : string) : option string :=
  idx ← rfind "\boxed{" s; HendrycksScore.upto_close (sdrop idx s).

Definition remove_boxed (s : string) : result string :=
  require startswith "\boxed{" s else AssertionError "box error" ;;
  require HendrycksScore.last_is "}" s else AssertionError "box error" ;;
  Ok (HendrycksScore.drop_last (sdrop 7 s)).

Definition SUBSTITUTIONS : list (string * string) :=
  [("an ", ""); ("a ", ""); (".$", "$"); ("\$", ""); ("\ ", ""); (" ", ""); ("mbox", "text");
   (",\text{and}", ","); ("\text{and}", ","); ("\text{m}", "\text{}")].

Definition REMOVED_EXPRESSIONS : list string :=
  ["square"; "ways"; "integers"; "dollars"; "mph"; "inches"; "hours"; "km"; "units"; "\ldots"; "sue"; "points";
   "feet"; "minutes"; "digits"; "cents"; "degrees"; "cm"; "gm"; "pounds"; "meters"; "meals"; "edges"; "students";
   "childrentickets"; "multiples"; "\text{s}"; "\text{.}"; "\text{" ++ nl ++ "s}"; "\text{}^2"; "\text{}^3";
   "\text{" ++ nl ++ "}"; "\text{}"; "\mathrm{th}"; "^\circ"; "^{\circ}"; "\;"; ",\!"; "{,}";
   String (ascii_of_nat 34) ""; "\dots"].

(** The first [re.sub]: a line with two dollars becomes what they enclose, in dollars. *)
Definition dollar_line (line : string) : string :=
  match split_on "$" line with
  | _ :: inner :: _ :: _ => "$" ++ inner ++ "$"
  | _ => line
  end.
Definition sub_dollars (s : string) : string := str_join nl (dollar_line <$> split_on (ascii_of_nat 10) s).

Definition not_newline (c : ascii) : bool := negb (bool_decide (c = ascii_of_nat 10)).

(** A tag, the shortest text up to a brace on the same line: the text remains. *)
Definition braced_at (tag s : string) : option (string * nat) :=
  if startswith tag s then
    let rest := sdrop (String.length tag) s in
    n ← find "}" (span not_newline rest);
    Some (stake n rest, String.length tag + n + 1)
  else None.

(** The boxed one is greedy: up to the last brace of the line. *)
Definition boxed_at (s : string) : option (string * nat) :=
  if startswith "\boxed{" s then
    let rest := sdrop 7 s in
    n ← rfind "}" (span not_newline rest);
    Some (stake n rest, 7 + n + 1)
  else None.

(** [(frac)([^{])(.)] and [(sqrt)([^{])]. *)
Definition frac_at (s : string) : option (string * nat) :=
  if startswith "frac" s then
    match sdrop 4 s with
    | String a (String b _) =>
        if negb (bool_decide (a = "{"%char)) && not_newline b
        then Some ("frac{" ++ String a "}{" ++ String b "}", 6) else None
    | _ => None
    end
  else None.
Definition sqrt_at (s : string) : option (string * nat) :=
  if startswith "sqrt" s then
    match sdrop 4 s with
    | String a _ => if negb (bool_decide (a = "{"%char)) then Some ("sqrt{" ++ String a "}", 5) else None
    | EmptyString => None
    end
  else None.

Definition isdigit (s : string) : bool :=
  negb (bool_decide (s = "")) && all_chars (λ c, if digit_of c then true else false) s.

Definition normalize_final_answer (final_answer : string) : string :=
  let s := List.last (split_on "=" final_answer) "" in
  let s := foldl (λ s p, replace p.1 p.2 s) s SUBSTITUTIONS in
  let s := foldl (λ s e, replace e "" s) s REMOVED_EXPRESSIONS in
  let s := sub_dollars s in
  let s := sub (braced_at "\text{") s in
  let s := sub (braced_at "\textbf{") s in
  let s := sub (braced_at "\overline{") s in
  let s := sub boxed_at s in
  let s := sub frac_at s in
  let s := sub sqrt_at s in
  let s := replace "$" "" s in
  let s := if isdigit (replace "," "" s) then replace "," "" s else s in
  strip s.

(** After the colon of [(?i)Answer\s*:\s*([^\n]+)]: the blanks are given back
    one by one until a character other than a newline follows. *)
Fixpoint answer_text (s : string) : option (string * nat) :=
  match s with
  | EmptyString => None
  | String c s' =>
      let here := if not_newline c then let t := span not_newline s in Some (t, String.length t) else None in
      if is_space c then
        match answer_text s' with
        | Some (t, n) => Some (t, S n)
        | None => here
        end
      else here
  end.
Definition answer_at (s : string) : option (string * nat) :=
  if startswith "answer" (lower s) then
    let blanks := span is_space (sdrop 6 s) in
    let k := 6 + String.length blanks in
    match sdrop k s with
    | String ":"%char rest => '(t, n) ← answer_text rest; Some (t, S k + n)
    | _ => None
    end
  else None.

Definition is_correct_minerva (solution_str gt : string) (gt_need_extract : bool) : result (bool * string) :=
  let extracted := default "[INVALID]" (last (findall answer_at solution_str)) in
  let pred := normalize_final_answer extracted in
  gt ← (if gt_need_extract then
          boxed ← of_option (TypeError "'NoneType' object is not subscriptable") (last_boxed_only_string gt);
          inner ← remove_boxed boxed;
          Ok (normalize_final_answer inner)
        else Ok (normalize_final_answer gt));
  Ok (bool_decide (pred = gt), pred).

(** [pred[start:]] for any integer. *)
Definition from_index (start : Z) (s : string) : string :=
  sdrop (slice_bound (String.length s) start) s.

(** [is_correct_strict_box]: 1 or -1, and the prediction. *)
Definition is_correct_strict_box (pred gt : string) (pause_tokens_index : option (list Z))
    : result (Z * option string) :=
  pred ← (match pause_tokens_index with
          | Some idx =>
              require Nat.eqb (length idx) 4 else AssertionError "" ;;
              Ok (from_index (List.last idx 0 - 100)%Z pred)
          | None => Ok (last_chars 100 pred)
          end);
  extracted ← (match last_boxed_only_string pred with
               | Some b => p ← remove_boxed b; Ok (Some p)
               | None => Ok None
               end);
  Ok (if bool_decide (extracted = Some gt) then 1%Z else (-1)%Z, extracted).

Definition verify (solution_str answer : string) (strict_box_verify : bool) (pause : option (list Z))
    : result (bool * option string) :=
  if strict_box_verify then
    '(correct, pred) ← is_correct_strict_box solution_str answer pause; Ok (Z.eqb correct 1, pred)
  else
    '(correct, pred) ← is_correct_minerva solution_str answer false; Ok (correct, Some pred).

Record row := { score : Q; acc : bool; pred : option string }.

Definition compute_score (solution_str ground_truth : string) (strict_box_verify : bool) (pause : option (list Z))
    : result row :=
  '(correct, pred) ← verify (last_chars 300 solution_str) ground_truth strict_box_verify pause;
  Ok {| score := if (correct : bool) then 1%Q else (-1)%Q; acc := correct; pred := pred |}.
