(* ===== verification/QaScore.v ===== *)
(** * QaScore: src/verl/utils/reward_score/search_r1_like_qa_em.py and geo3k.py

    Of geo3k.py, [extract_boxed_content] and [grade_answer] are mathruler's. *)

From S2P Require Import Prelude PyStr PyRegex.
From Stdlib Require Import QArith.
Local Close Scope Q_scope.
Local Open Scope string_scope.
#[local] Open Scope py_scope.

Definition is_punctuation (c : ascii) : bool :=
  let n := nat_of_ascii c in
  (Nat.leb 33 n && Nat.leb n 47) || (Nat.leb 58 n && Nat.leb n 64) ||
  (Nat.leb 91 n && Nat.leb n 96) || (Nat.leb 123 n && Nat.leb n 126).
Fixpoint remove_punc (s : string) : string :=
  match s with
  | EmptyString => EmptyString
  | String c s => if is_punctuation c then remove_punc s else String c (remove_punc s)
  end.

Definition is_word (c : ascii) : bool :=
  let n := nat_of_ascii c in
  (Nat.leb 48 n && Nat.leb n 57) || (Nat.leb 65 n && Nat.leb n 90) || (Nat.leb 97 n && Nat.leb n 122) || Nat.eqb n 95.

(** [re.sub(r"\b(a|an|the)\b", " ", text)]: the maximal runs of word characters
    that are an article; [word] is the run read so far. *)
Definition article (w : string) : string := if bool_decide (w ∈ ["a"; "an"; "the"]%list) then " " else w.
Fixpoint remove_articles_from (word : string) (s : string) : string :=
  match s with
  | EmptyString => article word
  | String c s =>
      if is_word c then remove_articles_from (word ++ String c "") s
      else article word ++ String c (remove_articles_from "" s)
  end.
Definition remove_articles (s : string) : string := remove_articles_from "" s.

(** [text.split()]: the runs of non-blank characters. *)
Fixpoint split_blank_from (word : string) (s : string) : list string :=
  match s with
  | EmptyString => if bool_decide (word = "") then [] else [word]
  | String c s =>
      if is_space c then (if bool_decide (word = "") then [] else [word]) ++ split_blank_from "" s
      else split_blank_from (word ++ String c "") s
  end%list.
Definition split_blank (s : string) : list string := split_blank_from "" s.
Definition white_space_fix (s : string) : string := str_join " " (split_blank s).

Definition normalize_answer (s : string) : string :=
  white_space_fix (remove_articles (remove_punc (lower s))).

Definition em_check (prediction : string) (golden_answers : list string) : bool :=
  existsb (λ g, bool_decide (normalize_answer g = normalize_answer prediction)) golden_answers.
Definition subem_check (prediction : string) (golden_answers : list string) : bool :=
  existsb (λ g, contains (normalize_answer g) (normalize_answer prediction)) golden_answers.

(** [<answer>(.*?)</answer>], with newlines. *)
Definition answer_at (s : string) : option (string * nat) :=
  if startswith "<answer>" s then
    let rest := sdrop 8 s in
    n ← find "</answer>" rest;
    Some (stake n rest, 8 + n + 9)
  else None.

Definition extract_solution (solution_str : string) : option string :=
  strip <$> last (findall answer_at solution_str).

(** [text.count(sub)]. *)
Definition count (tag s : string) : nat :=
  length (findall (λ s, if startswith tag s then Some (tt, String.length tag) else None) s).
Definition count_answer_tags (text : string) : nat * nat := (count "<answer>" text, count "</answer>" text).

Definition compute_score (format_score score : Q) (solution_str : string) (target : list string) : Q :=
  let '(open_count, close_count) := count_answer_tags solution_str in
  match extract_solution solution_str with
  | None => 0%Q
  | Some answer =>
      if em_check answer target then
        if Nat.ltb 10 open_count || Nat.ltb 10 close_count then (score / 4)%Q else score
      else format_score
  end.
Definition compute_score_subem (format_score score : Q) (solution_str : string) (target : list string) : Q :=
  match extract_solution solution_str with
  | None => 0%Q
  | Some answer => if subem_check answer target then score else format_score
  end.

(** ** geo3k.py *)

Section geo3k.
Variable extract_boxed_content : string → string.
Variable grade_answer : string → string → bool.

Definition after (sub s : string) : option string :=
  n ← find sub s; Some (sdrop (n + String.length sub) s).

(** [<think>.*</think>.*\\boxed\{.*\}.*] matches the whole string: the four
    literals in this order, the first one at the start. *)
Definition format_reward (predict_str : string) : Q :=
  match (if startswith "<think>" predict_str then
           r ← after "</think>" (sdrop 7 predict_str); r ← after "\boxed{" r; after "}" r
         else None) with
  | Some _ => 1%Q
  | None => 0%Q
  end.
Definition acc_reward (predict_str ground_truth : string) (use_boxed : bool) : Q :=
  let answer := if use_boxed then extract_boxed_content predict_str else predict_str in
  if grade_answer answer ground_truth then 1%Q else 0%Q.
Definition geo3k_compute_score (predict_str ground_truth : string) (use_boxed : bool) (format_score : Q) : Q :=
  ((1 - format_score) * acc_reward predict_str ground_truth use_boxed + format_score * format_reward predict_str)%Q.
End geo3k.
