(* ===== verification/Uplift.v ===== *)
(** * Recipient uplift and the frontier rule

    [compute_recipient_uplift.py]: how much more often a recipient model solves a
    problem when it sees the privileged trace, from plain and privileged
    completions, and [eligible_frontier] of [build_frontier.py], which selects by it
    (both in [src/tools/extpi_rlsd/]).  Files are lists of rows, ratios are rationals
    without rounding. *)

From S2P Require Import Prelude PyStr Json PyDict PyRat MathReward.
From Stdlib Require Import QArith Lqa.
Local Close Scope Q_scope.
#[local] Open Scope py_scope.

(** The field of the verdict that goes with a trace field. *)
Definition verified_field (trace_field : string) : string :=
  if endswith "_trace" trace_field then replace "_trace" "_verified" trace_field
  else trace_field +:+ "_verified".

Definition TEXT_KEYS : list string := ["completion"; "response"; "solution_str"; "text"; "output"]%string.
Definition ID_KEYS : list string := ["id"; "problem_id"; "sample_id"]%string.

Section uplift.
Context `{PyPrims} `{MathVerify}.

(** The first key whose value is not [None]. *)
Fixpoint first_value (row : dict) (keys : list string) : option json :=
  match keys with
  | [] => None
  | key :: keys => let v := get key row in if is_none v then first_value row keys else Some v
  end.

Definition sample_id (row : dict) : result string :=
  let missing := Raise (ValueError "Completion row is missing an id field") in
  match first_value row ID_KEYS with
  | Some v => Ok (py_str v)
  | None =>
      match get "extra_info" row with
      | JObj extra => match first_value extra ID_KEYS with Some v => Ok (py_str v) | None => missing end
      | _ => missing
      end
  end.

Definition completion_text (row : dict) : result string :=
  py_str <$> of_option (ValueError "Completion row is missing one of the text keys") (first_value row TEXT_KEYS).

Definition is_truncated (row : dict) : bool :=
  truthy (get_default "truncated" (get_default "completion_truncated" (JBool false) row) row)
  || bool_decide (lower (py_str (get_default "finish_reason" (JStr "") row)) ∈ ["length"; "max_tokens"]%string).

(** [_group_completions]: completions by sample id, in the order of the file. *)
Definition add_completion (g : list (string * list dict)) (row : dict) : result (list (string * list dict)) :=
  id ← sample_id row; Ok (dset id (default [] (dget id g) ++ [row]) g).
Definition group_completions (rows : list dict) : result (list (string * list dict)) := foldM add_completion [] rows.

(** [_correct_count]: how many samples are right, how many were cut. *)
Definition count_sample (gold : string) (acc : nat * nat) (sample : dict) : result (nat * nat) :=
  text ← completion_text sample;
  ok ← verify_answer (extract_boxed_answer text) gold;
  Ok (acc.1 + Nat.b2n ok, acc.2 + Nat.b2n (is_truncated sample)).
Definition correct_count (samples : list dict) (gold : string) : result (nat * nat) :=
  foldM (count_sample gold) (0, 0) samples.

(** ** The frontier rule *)

Definition one_of_quarters (p : Q) : bool := Qeq_bool p (1 # 4) || Qeq_bool p (1 # 2) || Qeq_bool p (3 # 4).
Definition strict_rule (p_plain p_pi : Q) : bool :=
  one_of_quarters p_plain && Qle_bool (3 # 4) p_pi && Qle_bool (1 # 4) (p_pi - p_plain).
Definition relaxed_rule (p_plain p_pi : Q) : bool :=
  Qle_bool (1 # 10) p_plain && Qle_bool p_plain (3 # 4) && qlt 0 (p_pi - p_plain).

(** [eligible_frontier]: the two ratios are read before anything is decided. *)
Definition p_plain_of (row : dict) : result Q :=
  py_float (py_or (get_default "p_plain" (get_default "pS" (JFloat 0) row) row) (JFloat 0)).
Definition p_pi_of (row : dict) : result Q :=
  py_float (py_or (get_default "p_PI" (get_default "pPI" (get_default "pTPI" (JFloat 0) row) row) row) (JFloat 0)).
Definition pi_verified (trace_field : string) (row : dict) : bool :=
  truthy (get_default (verified_field trace_field) (get_default "pi_trace_verified" (JBool false) row) row).
Definition usable (trace_field : string) (row : dict) : bool :=
  pi_verified trace_field row && truthy (get trace_field row)
  && negb (truthy (get_default "student_completion_truncated" (JBool false) row)).

Definition eligible_frontier (trace_field : string) (relaxed : bool) (row : dict) : result bool :=
  p_plain ← p_plain_of row;
  p_pi ← p_pi_of row;
  Ok (usable trace_field row && (if relaxed then relaxed_rule else strict_rule) p_plain p_pi).

(** ** Attaching the statistics *)

Record uplift_stats := {
  rows : nat; with_plain : nat; with_pi : nat; with_uplift_positive : nat;
  strict_frontier_eligible : nat; relaxed_frontier_eligible : nat }.
Definition no_stats : uplift_stats :=
  {| rows := 0; with_plain := 0; with_pi := 0; with_uplift_positive := 0;
     strict_frontier_eligible := 0; relaxed_frontier_eligible := 0 |}.

(** [row.setdefault("metadata", {})[key] = value]. *)
Definition set_metadata (key : string) (value : json) (row : dict) : result dict :=
  match lookup "metadata" row with
  | None => Ok (set "metadata" (JObj [(key, value)]) row)
  | Some (JObj m) => Ok (set "metadata" (JObj (set key value m)) row)
  | Some _ => Raise (TypeError "metadata is not a dict")
  end.

Definition measured_keys : list string :=
  ["p_plain"; "p_PI"; "uplift"; "correct_plain"; "correct_PI"; "student_completion_truncated"]%string.
Definition measured (p_plain p_pi : Q) (correct_plain correct_pi : nat) (truncated : bool) : dict :=
  [("p_plain"%string, JFloat p_plain); ("p_PI"%string, JFloat p_pi); ("uplift"%string, JFloat (p_pi - p_plain)%Q);
   ("correct_plain"%string, JInt (Z.of_nat correct_plain)); ("correct_PI"%string, JInt (Z.of_nat correct_pi));
   ("student_completion_truncated"%string, JBool truncated)].

Definition nat_Z_Q (n : nat) : Q := inject_Z (Z.of_nat n).

Section files.
Context (trace_field : string) (expected_samples : Z) (plain pi : list (string * list dict)).

Definition samples_of (g : list (string * list dict)) (id : string) : list dict := default [] (dget id g).
Definition complete (id : string) : bool :=
  (Z.of_nat (length (samples_of plain id)) =? expected_samples)%Z
  && (Z.of_nat (length (samples_of pi id)) =? expected_samples)%Z.

Definition incomplete_info (id : string) : json :=
  JObj [("plain_samples"%string, JInt (Z.of_nat (length (samples_of plain id))));
        ("pi_samples"%string, JInt (Z.of_nat (length (samples_of pi id))));
        ("expected_samples"%string, JInt expected_samples)].

Definition nonempty (l : list dict) : bool := match l with [] => false | _ => true end.

(** One round of the loop of [main]: the output row and the statistics. *)
Definition uplift_row (st : uplift_stats) (row : dict) : result (dict * uplift_stats) :=
  id ← py_str <$> getitem "id" row;
  gold ← py_str <$> getitem "gold_answer" row;
  let st := {| rows := S (rows st); with_plain := with_plain st + Nat.b2n (nonempty (samples_of plain id));
               with_pi := with_pi st + Nat.b2n (nonempty (samples_of pi id));
               with_uplift_positive := with_uplift_positive st;
               strict_frontier_eligible := strict_frontier_eligible st;
               relaxed_frontier_eligible := relaxed_frontier_eligible st |} in
  if negb (complete id) then
    new_row ← set_metadata "recipient_uplift_incomplete" (incomplete_info id) row;
    Ok (new_row, st)
  else
    '(correct_plain, truncated_plain) ← correct_count (samples_of plain id) gold;
    '(correct_pi, truncated_pi) ← correct_count (samples_of pi id) gold;
    p_plain ← qdiv (nat_Z_Q correct_plain) (inject_Z expected_samples);
    p_pi ← qdiv (nat_Z_Q correct_pi) (inject_Z expected_samples);
    let truncated := Nat.ltb 0 truncated_plain || Nat.ltb 0 truncated_pi in
    let new_row := update (measured p_plain p_pi correct_plain correct_pi truncated) row in
    let countable := truthy (get_default (verified_field trace_field) (JBool false) new_row) && negb truncated in
    Ok (new_row,
        {| rows := rows st; with_plain := with_plain st; with_pi := with_pi st;
           with_uplift_positive := with_uplift_positive st + Nat.b2n (qlt 0 (p_pi - p_plain)%Q);
           strict_frontier_eligible := strict_frontier_eligible st + Nat.b2n (countable && strict_rule p_plain p_pi);
           relaxed_frontier_eligible := relaxed_frontier_eligible st + Nat.b2n (countable && relaxed_rule p_plain p_pi) |}).

Definition uplift_step (acc : list dict * uplift_stats) (row : dict) : result (list dict * uplift_stats) :=
  '(new_row, st) ← uplift_row acc.2 row; Ok (acc.1 ++ [new_row], st).
Definition uplift_rows (base_rows : list dict) : result (list dict * uplift_stats) :=
  foldM uplift_step ([], no_stats) base_rows.
End files.

(** [main]: what is written, with its statistics. *)
Definition compute_recipient_uplift (trace_field : string) (expected_samples : Z) (base_rows plain_rows pi_rows : list dict)
    : result (list dict * uplift_stats) :=
  plain ← group_completions plain_rows;
  pi ← group_completions pi_rows;
  uplift_rows trace_field expected_samples plain pi base_rows.

(** ** The two tools agree *)

Lemma strict_relaxed p_plain p_pi : strict_rule p_plain p_pi = true → relaxed_rule p_plain p_pi = true.
Proof using Type.
  unfold strict_rule, relaxed_rule, one_of_quarters. rewrite !andb_true_iff, !orb_true_iff, !Qeq_bool_iff, !Qle_bool_iff, qlt_true.
  intros [[[[->| ->]| ->] ?] ?]; repeat split; lra.
Qed.

#[local] Instance strict_rule_proper : Proper (Qeq ==> Qeq ==> eq) strict_rule.
Proof using Type. intros p p' Hp q q' Hq. unfold strict_rule, one_of_quarters. by rewrite Hp, Hq. Qed.
#[local] Instance relaxed_rule_proper : Proper (Qeq ==> Qeq ==> eq) relaxed_rule.
Proof using Type. intros p p' Hp q q' Hq. unfold relaxed_rule, qlt. by rewrite Hp, Hq. Qed.

Lemma py_float_or_zero p : ∃ p', py_float (py_or (JFloat p) (JFloat 0)) = Ok p' ∧ (p' == p)%Q.
Proof using Type.
  unfold py_or. cbn [truthy]. destruct (Qeq_bool p 0) eqn:E; cbn.
  - exists 0%Q. apply Qeq_bool_iff in E. by rewrite E.
  - by exists p.
Qed.

(** What the frontier rule finds in a row that [compute_recipient_uplift] measured. *)
Lemma eligible_measured trace_field relaxed row p_plain p_pi cp ci truncated (v : json) :
  trace_field ∉ measured_keys → verified_field trace_field ∉ measured_keys →
  lookup (verified_field trace_field) row = Some v → (truthy v = true → truthy (get trace_field row) = true) →
  let new_row := update (measured p_plain p_pi cp ci truncated) row in
  eligible_frontier trace_field relaxed new_row =
    Ok (truthy (get_default (verified_field trace_field) (JBool false) new_row) && negb truncated
        && (if relaxed then relaxed_rule else strict_rule) p_plain p_pi).
Proof using Type.
  intros Ht Hv Hlook Htrace new_row.
  assert (Hsame : ∀ k, k ∉ measured_keys → lookup k new_row = lookup k row).
  { intros k Hk. unfold new_row, update, measured, measured_keys in *. cbn [foldl fst snd].
    rewrite !lookup_set. by rewrite !bool_decide_eq_false_2 by set_solver. }
  unfold eligible_frontier, p_plain_of, p_pi_of, usable, pi_verified, get_default.
  replace (lookup "p_plain" new_row) with (Some (JFloat p_plain)) by (unfold new_row, update, measured; cbn [foldl fst snd]; rewrite !lookup_set; reflexivity).
  replace (lookup "p_PI" new_row) with (Some (JFloat p_pi)) by (unfold new_row, update, measured; cbn [foldl fst snd]; rewrite !lookup_set; reflexivity).
  replace (lookup "student_completion_truncated" new_row) with (Some (JBool truncated))
    by (unfold new_row, update, measured; cbn [foldl fst snd]; rewrite !lookup_set; reflexivity).
  unfold get, get_default in *. rewrite (Hsame (verified_field trace_field) Hv), (Hsame trace_field Ht), Hlook.
  destruct (py_float_or_zero p_plain) as (p & Hp & Hpe), (py_float_or_zero p_pi) as (q & Hq & Hqe).
  cbn [default from_option id]. rewrite Hp. cbn [mbind result_bind]. rewrite Hq. cbn [mbind result_bind truthy].
  f_equal. assert ((if relaxed then relaxed_rule else strict_rule) p q = (if relaxed then relaxed_rule else strict_rule) p_plain p_pi) as ->.
  { destruct relaxed; by rewrite Hpe, Hqe. }
  destruct (truthy v) eqn:E; cbn; [|done]. by rewrite Htrace.
Qed.

Section agreement.
Context (trace_field : string) (expected_samples : Z) (plain pi : list (string * list dict)).
Context (Htrace : trace_field ∉ "metadata"%string :: measured_keys)
        (Hverified : verified_field trace_field ∉ "metadata"%string :: measured_keys).

(** A row of [prepare_opsd_data.py] with its trace: the verdict is there, a verified
    row has a trace, and the ratios have not been attached before. *)
Definition prepared_row (row : dict) : Prop :=
  (∃ v, lookup (verified_field trace_field) row = Some v ∧ (truthy v = true → truthy (get trace_field row) = true)) ∧
  Forall (λ k, lookup k row = None) ["p_plain"; "pS"; "p_PI"; "pPI"; "pTPI"]%string.

(** The output row has every other field of its source row. *)
Definition attached (row new_row : dict) : Prop :=
  ∀ k, k ∉ "metadata"%string :: measured_keys → lookup k new_row = lookup k row.

Definition count_eligible (relaxed : bool) (rs : list dict) : nat :=
  length (filter (λ r, eligible_frontier trace_field relaxed r = Ok true) rs).

Lemma eligible_unmeasured relaxed row m :
  prepared_row row → eligible_frontier trace_field relaxed (set "metadata" m row) = Ok false.
Proof using Type.
  intros [_ Hp]. rewrite !Forall_cons in Hp. destruct Hp as (H1 & H2 & H3 & H4 & H5 & _).
  unfold eligible_frontier, p_plain_of, p_pi_of, get_default.
  rewrite !(lookup_set_ne "metadata") by discriminate. rewrite H1, H2, H3, H4, H5.
  change (py_float _) with (Ok 0%Q). cbn [mbind result_bind]. destruct relaxed; f_equal; apply andb_false_r.
Qed.

Lemma set_metadata_inv k v row new_row : set_metadata k v row = Ok new_row → ∃ m, new_row = set "metadata" m row.
Proof using Type. unfold set_metadata. destruct (lookup "metadata" row) as [[]|]; try done; intros [= <-]; eauto. Qed.

(** One row, measured or not. *)
Lemma uplift_row_spec st row new_row st' :
  prepared_row row → uplift_row trace_field expected_samples plain pi st row = Ok (new_row, st') →
  attached row new_row ∧ rows st' = S (rows st) ∧
  ∃ s r, eligible_frontier trace_field false new_row = Ok s ∧ eligible_frontier trace_field true new_row = Ok r ∧
    strict_frontier_eligible st' = strict_frontier_eligible st + Nat.b2n s ∧
    relaxed_frontier_eligible st' = relaxed_frontier_eligible st + Nat.b2n r ∧ (s = true → r = true).
Proof using Htrace Hverified.
  intros Hprep Hu. unfold uplift_row in Hu.
  apply bind_Ok_inv in Hu as (id & _ & Hu). apply bind_Ok_inv in Hu as (gold & _ & Hu). cbn zeta in Hu.
  destruct (complete expected_samples plain pi id); cbn [negb] in Hu.
  - apply bind_Ok_inv in Hu as ([cp tp] & _ & Hu). apply bind_Ok_inv in Hu as ([ci ti] & _ & Hu).
    apply bind_Ok_inv in Hu as (p & _ & Hu). apply bind_Ok_inv in Hu as (q & _ & Hu). cbn zeta in Hu.
    destruct Hprep as [(v & Hv & Ht) _]. apply not_elem_of_cons in Htrace as [_ Ht'], Hverified as [_ Hv'].
    assert (He : ∀ relaxed, _) by (intros relaxed; apply (eligible_measured trace_field relaxed row p q cp ci
                                     (Nat.ltb 0 tp || Nat.ltb 0 ti) v Ht' Hv' Hv Ht)).
    cbn zeta in He. pose proof (He false) as Hs. pose proof (He true) as Hr. clear He.
    remember (update _ row) as nr eqn:Hnr. injection Hu as <- <-. split; [|split; [done|]].
    + intros k Hk. subst nr. unfold update, measured. cbn [foldl fst snd]. unfold measured_keys in Hk.
      rewrite !lookup_set. by rewrite !bool_decide_eq_false_2 by set_solver.
    + do 2 eexists. split; [exact Hs|]. split; [exact Hr|]. cbn. split; [done|]. split; [done|].
      rewrite !andb_true_iff. intros [? ?]. split; [done|]. by apply strict_relaxed.
  - apply bind_Ok_inv in Hu as (nr & Hm & Hu). injection Hu as <- <-. apply set_metadata_inv in Hm as [m ->].
    split; [|split; [done|]].
    + intros k Hk. apply lookup_set_ne. set_solver.
    + exists false, false. rewrite !eligible_unmeasured by done. cbn. repeat split; try done; lia.
Qed.

Lemma count_eligible_snoc relaxed rs r b : eligible_frontier trace_field relaxed r = Ok b →
  count_eligible relaxed (rs ++ [r]) = count_eligible relaxed rs + Nat.b2n b.
Proof using Type.
  intros Hb. unfold count_eligible. rewrite filter_app, length_app. f_equal.
  destruct b; [rewrite filter_cons_True by done | rewrite filter_cons_False by congruence]; done.
Qed.

(** [compute_recipient_uplift] and [build_frontier] agree: on rows as
    [prepare_opsd_data] leaves them (verdict present, verified rows with a trace,
    no ratios yet), every output row keeps its source row's other fields, the
    reported numbers of strictly and loosely eligible rows are exactly the numbers of
    output rows that the frontier rule later accepts - rows with missing
    completions included - and what is strictly eligible is loosely eligible. *)
Theorem uplift_agrees_with_frontier base out st :
  Forall prepared_row base → uplift_rows trace_field expected_samples plain pi base = Ok (out, st) →
  Forall2 attached base out ∧ rows st = length base ∧
  strict_frontier_eligible st = count_eligible false out ∧
  relaxed_frontier_eligible st = count_eligible true out ∧
  strict_frontier_eligible st ≤ relaxed_frontier_eligible st.
Proof using Htrace Hverified.
  intros Hprep Hu. unfold uplift_rows in Hu.
  set (Inv := λ (done : list dict) (acc : list dict * uplift_stats), Forall prepared_row done →
    Forall2 attached done acc.1 ∧ rows acc.2 = length done ∧
    strict_frontier_eligible acc.2 = count_eligible false acc.1 ∧
    relaxed_frontier_eligible acc.2 = count_eligible true acc.1 ∧
    strict_frontier_eligible acc.2 ≤ relaxed_frontier_eligible acc.2).
  apply (foldM_inv Inv _ _ _ _) in Hu; [by apply Hu | done |].
  intros seen row [rs s] acc' IH Hstep Hall. apply Forall_app in Hall as [Hseen [Hrow _]%Forall_cons].
  destruct (IH Hseen) as (Hatt & Hn & Hs & Hr & Hle). cbn [fst snd] in *.
  unfold uplift_step in Hstep. apply bind_Ok_inv in Hstep as ([nr s'] & Hone & Hstep). injection Hstep as <-.
  apply uplift_row_spec in Hone as (Ha & Hn' & b & b' & Hb & Hb' & Hs' & Hr' & Himp); [|done].
  cbn [fst snd]. rewrite (count_eligible_snoc _ _ _ _ Hb), (count_eligible_snoc _ _ _ _ Hb'), length_app.
  split; [by apply Forall2_app; [|constructor] |]. cbn [fst snd length] in *.
  assert (Nat.b2n b ≤ Nat.b2n b') by (destruct b; [rewrite (Himp eq_refl)|]; cbn; lia). lia.
Qed.
End agreement.
End uplift.

(** ** Concrete rows *)

#[export] Instance sample_prims : PyPrims :=
  {| py_repr := λ _, "?"%string; float_of_str := λ _, None; int_of_str := λ _, None |}.
(** A verifier that compares texts. *)
#[export] Instance sample_verify : MathVerify := λ gold pred, Ok (bool_decide (gold = pred)).

Definition base_row (id : string) : dict :=
  [("id", JStr id); ("gold_answer", JStr "7"); ("t_trace", JStr "trace"); ("t_verified", JBool true)]%string.
Definition completion (id answer : string) : dict :=
  [("id", JStr id); ("completion", JStr ("so \boxed{" +:+ answer +:+ "}"))]%string.

Definition sample_uplift : result (list dict * uplift_stats) :=
  compute_recipient_uplift "t_trace" 2 [base_row "a"; base_row "b"]
    [completion "a" "7"; completion "a" "8"] [completion "a" "7"; completion "a" "7"; completion "b" "7"].

Definition sample_out : list dict * uplift_stats := Eval vm_compute in
  match sample_uplift with Ok p => p | Raise _ => ([], no_stats) end.

Definition sample_plain : list (string * list dict) := Eval vm_compute in
  match group_completions [completion "a" "7"; completion "a" "8"] with Ok g => g | Raise _ => [] end.
Definition sample_pi : list (string * list dict) := Eval vm_compute in
  match group_completions [completion "a" "7"; completion "a" "7"; completion "b" "7"] with Ok g => g | Raise _ => [] end.

Lemma uplift_agrees_with_frontier_witness :
  strict_frontier_eligible sample_out.2 = count_eligible "t_trace" false sample_out.1 ∧
  strict_frontier_eligible sample_out.2 = 1.
Proof.
  split; [|reflexivity].
  apply (uplift_agrees_with_frontier "t_trace" 2 sample_plain sample_pi
           ltac:(by apply (bool_decide_unpack _)) ltac:(by apply (bool_decide_unpack _))
           [base_row "a"; base_row "b"] sample_out.1 sample_out.2).
  - repeat constructor; (by eexists) || done.
  - vm_compute. reflexivity.
Defined.

(** Ratios of an earlier run survive in a row whose completions are now missing:
    it is written as incomplete and not counted, yet the frontier rule accepts it. *)
Definition stale_row : dict := base_row "c" ++ [("p_plain", JFloat (1 # 2)); ("p_PI", JFloat 1)]%string.
Example stale_ratios :
  ('(out, st) ← uplift_rows "t_trace" 2 [] [] [stale_row];
   flags ← mapM (eligible_frontier "t_trace" false) out; Ok (flags, strict_frontier_eligible st)) = Ok ([true], 0).
Proof. vm_compute. reflexivity. Qed.
