(* ===== verification/Splits.v ===== *)
(** * Training and evaluation splits

    [build_frontier.py], [build_common_verified_split.py], [build_shuffled_pi.py] and
    [jsonl_to_verl_parquet.py] of [src/tools/extpi_rlsd/].  [random.Random(seed)] is a
    parameter: the order in which its [k]-th [shuffle] puts a list of [n] elements. *)

From S2P Require Import Prelude PyStr Json PromptAssembly Uplift.
From Stdlib Require Import QArith.
Local Close Scope Q_scope.
#[local] Open Scope py_scope.

(** The generator: every shuffle permutes the positions. *)
Class Rng := order : nat → nat → list nat.
Class RngLaws (rng : Rng) := order_perm (k n : nat) : order k n ≡ₚ seq 0 n.

Definition shuffle `{Rng} {A} (k : nat) (l : list A) : list A := omap (λ i : nat, l !! i) (order k (length l)).

(** A comprehension with a condition that may raise. *)
Fixpoint filterM {A} (f : A → result bool) (l : list A) : result (list A) :=
  match l with
  | [] => Ok []
  | a :: l => b ← f a; rest ← filterM f l; Ok (if (b : bool) then a :: rest else rest)
  end.

Section splits.
Context `{PyPrims} `{Rng} (pi_trace_field : string).

(** ** [build_frontier.py] *)

Record sizes := {
  n_smoke : Z; n_mvp_train : Z; n_matched_dev : Z; n_confirmation_train : Z; n_confirmation_dev : Z }.
Record splits := {
  smoke : list dict; mvp_train : list dict; matched_dev : list dict;
  confirmation_train : list dict; confirmation_dev : list dict;
  strict_frontier_count : nat; relaxed_frontier_count : nat; frontier_rule : string }.

(** An element of the set of used ids. *)
Definition hashable (v : json) : result json :=
  match v with JList _ | JObj _ => Raise (TypeError "unhashable type") | _ => Ok v end.
Definition used_id (row : dict) : result json := id ← getitem "id" row; hashable id.

Definition in_pool (used : list json) (row : dict) : result bool :=
  id ← hashable (get "id" row);
  Ok (negb (existsb (py_eq id) used) && usable pi_trace_field row).

Definition build_frontier (n : sizes) (rows : list dict) : result splits :=
  strict ← filterM (eligible_frontier pi_trace_field false) rows;
  relaxed ← filterM (eligible_frontier pi_trace_field true) rows;
  let enough := (n_mvp_train n + n_matched_dev n <=? Z.of_nat (length strict))%Z in
  let frontier := shuffle 0 (if enough then strict else relaxed) in
  let train := zslice 0 (n_mvp_train n) frontier in
  let dev := zslice (n_mvp_train n) (n_mvp_train n + n_matched_dev n) frontier in
  used ← mapM used_id (train ++ dev);
  pool ← filterM (in_pool used) rows;
  let pool := shuffle 1 pool in
  Ok {| smoke := zslice 0 (n_smoke n) frontier; mvp_train := train; matched_dev := dev;
        confirmation_train := zslice 0 (n_confirmation_train n) pool;
        confirmation_dev := zslice (n_confirmation_train n) (n_confirmation_train n + n_confirmation_dev n) pool;
        strict_frontier_count := length strict; relaxed_frontier_count := length relaxed;
        frontier_rule := if enough then "strict" else "relaxed" |}.

(** ** [build_common_verified_split.py] *)

Definition common_verified (row : dict) : bool :=
  truthy (get_default (verified_field pi_trace_field) (JBool false) row) && truthy (get pi_trace_field row).
Definition build_common_verified_split (train_size dev_size : Z) (rows : list dict) : list dict * list dict :=
  let rows := shuffle 0 (List.filter common_verified rows) in
  (zslice 0 train_size rows, zslice train_size (train_size + dev_size) rows).

(** ** [build_shuffled_pi.py] *)

(** [shuffled[1:] + shuffled[:1]] when a shuffled trace is still in its place. *)
Definition rotate1 {A} (l : list A) : list A := drop 1 l ++ take 1 l.
Definition shuffled_traces (traces : list json) : list json :=
  let shuffled := shuffle 0 traces in
  if Nat.ltb 1 (length shuffled) && existsb (λ p, py_eq p.1 p.2) (zip traces shuffled) then rotate1 shuffled
  else shuffled.

Definition control_row (info : json) (row : dict) (trace : json) : result dict :=
  set_metadata "shuffled_pi_control" info (set pi_trace_field trace row).
Definition build_shuffled_pi (info : json) (rows : list dict) : result (list dict) :=
  let traces := shuffled_traces (get pi_trace_field <$> rows) in
  require Nat.eqb (length rows) (length traces) else ValueError "zip() arguments differ in length" ;;
  mapM (λ p, control_row info p.1 p.2) (zip rows traces).

(** ** [jsonl_to_verl_parquet.py] *)

Definition verl_prompt (problem : json) : json :=
  JList [JObj [("role"%string, JStr "user");
               ("content"%string, JStr ("Solve the following mathematics problem. Give a concise, self-contained derivation." +:+ nl
                  +:+ "End with the final answer in \boxed{...}." +:+ nl +:+ nl +:+ py_str problem))]].
Definition verl_row (prompt_key : string) (row : dict) : result dict :=
  problem ← getitem "problem" row;
  gold ← getitem "gold_answer" row;
  id ← getitem "id" row;
  let field k v := (k, get_default k v row) in
  let extra := foldl (λ d kv, set kv.1 kv.2 d) []
    [("id"%string, id); ("problem"%string, problem);
     (pi_trace_field, get pi_trace_field row);
     field (verified_field pi_trace_field) (JBool false);
     field "qwen32b_pi_trace"%string JNull; field "qwen32b_pi_verified"%string (JBool false);
     field "qwen8b_pi_trace"%string JNull; field "qwen8b_pi_verified"%string (JBool false);
     ("pi_trace_field"%string, JStr pi_trace_field)] in
  Ok (foldl (λ d kv, set kv.1 kv.2 d) []
        [(prompt_key, verl_prompt problem); ("data_source"%string, JStr "extpi_rlsd/math");
         ("reward_model"%string, JObj [("style"%string, JStr "rule"); ("ground_truth"%string, gold)]);
         ("extra_info"%string, JObj extra)]).
Definition jsonl_to_verl (prompt_key : string) (rows : list dict) : result (list dict) := mapM (verl_row prompt_key) rows.
End splits.

(** ** Lemmas *)

Lemma shuffle_perm {rng : Rng} {laws : RngLaws rng} {A : Type} k (l : list A) : shuffle k l ≡ₚ l.
Proof.
  unfold shuffle. rewrite (order_perm k (length l)).
  induction l as [|a l IH] using rev_ind; [done|].
  rewrite length_app, Nat.add_1_r, seq_S, omap_app. cbn.
  rewrite lookup_app_r, Nat.sub_diag by lia. cbn.
  apply Permutation_app_tail. rewrite <-IH at 2. apply reflexive_eq, list_omap_ext.
  apply Forall_Forall2_diag, Forall_forall. intros i [_ Hi]%elem_of_seq. by rewrite lookup_app_l by lia.
Qed.

Lemma filterM_Ok {A} (f : A → result bool) (g : A → bool) l :
  (∀ a, a ∈ l → f a = Ok (g a)) → filterM f l = Ok (List.filter g l).
Proof.
  induction l as [|a l IH]; intros Hf; cbn; [done|].
  rewrite Hf by set_solver. cbn. rewrite IH by set_solver. done.
Qed.

Lemma zslice_split {A} (a b : Z) (l : list A) : (0 ≤ a)%Z → (0 ≤ b)%Z →
  zslice 0 a l ++ zslice a (a + b) l = take (Z.to_nat (a + b)) l.
Proof.
  intros Ha Hb. rewrite zslice_head by done.
  unfold zslice, slice, slice_bound. replace (a <? 0)%Z with false by lia. replace (a + b <? 0)%Z with false by lia.
  rewrite <-(take_drop (Z.to_nat a) (take (Z.to_nat (a + b)) l)), take_take, skipn_firstn_comm.
  f_equal; [f_equal; lia|]. destruct (decide (Z.to_nat a ≤ length l)).
  - rewrite (Nat.min_l (Z.to_nat a)) by done. destruct (decide (Z.to_nat (a + b) ≤ length l)).
    + by rewrite Nat.min_l.
    + rewrite Nat.min_r by lia. rewrite !take_ge by (rewrite length_drop; lia). done.
  - rewrite !drop_ge by lia. by rewrite !take_nil.
Qed.

(** The student prompt of training is the one whose guard [PromptAssembly] proves. *)
Lemma verl_prompt_is_student_prompt `{PyPrims} problem :
  verl_prompt problem =
    JList [JObj [("role"%string, JStr "user"); ("content"%string, JStr (STUDENT_USER_TEMPLATE (py_str problem)))]].
Proof. done. Qed.

Section frontier_facts.
Context `{PyPrims} {rng : Rng} {laws : RngLaws rng} (pi_trace_field : string).

(** A row with a string id whose two ratios are numbers. *)
Definition readable (row : dict) : Prop :=
  (∃ id, lookup "id" row = Some (JStr id)) ∧ (∃ p, p_plain_of row = Ok p) ∧ (∃ p, p_pi_of row = Ok p).

Definition eligible (relaxed : bool) (row : dict) : bool :=
  match eligible_frontier pi_trace_field relaxed row with Ok b => b | Raise _ => false end.

Lemma eligible_ok relaxed row : readable row → eligible_frontier pi_trace_field relaxed row = Ok (eligible relaxed row).
Proof using Type.
  intros (_ & (p & Hp) & (q & Hq)). unfold eligible, eligible_frontier. by rewrite Hp, Hq.
Qed.

Lemma eligible_usable relaxed row : eligible relaxed row = true → usable pi_trace_field row = true.
Proof using Type.
  unfold eligible, eligible_frontier. destruct (p_plain_of row); [|done]. cbn [mbind result_bind].
  destruct (p_pi_of row); [|done]. cbn [mbind result_bind]. by intros [? _]%andb_true_iff.
Qed.

Lemma eligible_relaxed relaxed row : eligible relaxed row = true → eligible true row = true.
Proof using Type.
  destruct relaxed; [done|]. unfold eligible, eligible_frontier. destruct (p_plain_of row); [|done].
  cbn [mbind result_bind]. destruct (p_pi_of row); [|done]. cbn [mbind result_bind].
  rewrite !andb_true_iff. intros [? ?]. split; [done|]. by apply strict_relaxed.
Qed.

Definition pooled (used : list json) (row : dict) : bool :=
  match in_pool pi_trace_field used row with Ok b => b | Raise _ => false end.

Lemma in_pool_ok used row : (∃ id, lookup "id" row = Some (JStr id)) → in_pool pi_trace_field used row = Ok (pooled used row).
Proof using Type. intros [id Hid]. unfold pooled, in_pool, get, get_default. by rewrite Hid. Qed.

Lemma pooled_fresh used row : (∃ id, lookup "id" row = Some (JStr id)) → pooled used row = true →
  get "id" row ∉ used ∧ usable pi_trace_field row = true.
Proof using Type.
  intros [id Hid]. unfold pooled, in_pool, get, get_default. rewrite Hid. cbn.
  intros [Hne ?]%andb_true_iff. split; [|done]. intros Hin. apply negb_true_iff in Hne.
  apply not_true_iff_false in Hne. apply Hne, existsb_exists. exists (JStr id).
  split; [by apply list_elem_of_In|]. cbn. by apply bool_decide_eq_true.
Qed.

Lemma used_ok rows : Forall (λ r, ∃ id, lookup "id" r = Some (JStr id)) rows →
  mapM used_id rows = Ok (get "id" <$> rows) ∧ Forall (λ v, ∃ s, v = JStr s) (get "id" <$> rows).
Proof using Type.
  intros Hall. rewrite Forall_forall in Hall. split.
  - apply mapM_Ok_map. intros r Hr. destruct (Hall r Hr) as [id Hid].
    unfold used_id, getitem, get, get_default. by rewrite Hid.
  - apply Forall_fmap, Forall_forall. intros r Hr. destruct (Hall r Hr) as [id Hid].
    exists id. cbn. unfold get, get_default. by rewrite Hid.
Qed.

(** A prefix of a shuffled part of the rows. *)
Lemma taken_from (f : dict → bool) k n (rows : list dict) :
  NoDup (get "id" <$> rows) → let part := take n (shuffle k (List.filter f rows)) in
  NoDup (get "id" <$> part) ∧ Forall (λ r, r ∈ rows ∧ f r = true) part.
Proof using laws.
  intros Hnd part.
  assert (Hsub : Forall (λ r, r ∈ rows ∧ f r = true) (shuffle k (List.filter f rows))).
  { rewrite shuffle_perm. apply Forall_forall. intros r Hr%list_elem_of_In. apply filter_In in Hr as [Hr ?].
    split; [by apply list_elem_of_In | done]. }
  split; [|by apply Forall_take].
  apply (sublist_NoDup _ (get "id" <$> shuffle k (List.filter f rows))).
  - rewrite shuffle_perm. eapply sublist_NoDup; [exact Hnd|]. clear. apply fmap_sublist.
    induction rows as [|r rows IH]; cbn; [constructor|]. destruct (f r); by constructor.
  - apply fmap_sublist, sublist_take.
Qed.

Definition sizes_ok (n : sizes) : Prop :=
  (0 ≤ n_smoke n ∧ 0 ≤ n_mvp_train n ∧ 0 ≤ n_matched_dev n ∧
   0 ≤ n_confirmation_train n ∧ 0 ≤ n_confirmation_dev n)%Z.

Definition chosen (s : splits) : list dict := mvp_train s ++ matched_dev s.
Definition confirmation (s : splits) : list dict := confirmation_train s ++ confirmation_dev s.

Lemma strict_count_le rows :
  length (List.filter (eligible false) rows) ≤ length (List.filter (eligible true) rows).
Proof using Type.
  induction rows as [|r rows IH]; cbn; [done|].
  destruct (eligible false r) eqn:E; [apply eligible_relaxed in E; rewrite E; cbn; lia|].
  destruct (eligible true r); cbn; lia.
Qed.

(** What [build_frontier] computes on readable rows. *)
Lemma build_frontier_eq n rows :
  Forall readable rows → sizes_ok n →
  ∃ relaxed s used, build_frontier pi_trace_field n rows = Ok s ∧
    let frontier := shuffle 0 (List.filter (eligible relaxed) rows) in
    let pool := shuffle 1 (List.filter (pooled used) rows) in
    chosen s = take (Z.to_nat (n_mvp_train n + n_matched_dev n)) frontier ∧
    confirmation s = take (Z.to_nat (n_confirmation_train n + n_confirmation_dev n)) pool ∧
    used = get "id" <$> chosen s ∧
    smoke s = take (Z.to_nat (n_smoke n)) frontier ∧ mvp_train s = take (Z.to_nat (n_mvp_train n)) frontier ∧
    confirmation_train s = take (Z.to_nat (n_confirmation_train n)) pool ∧
    strict_frontier_count s = length (List.filter (eligible false) rows) ∧
    relaxed_frontier_count s = length (List.filter (eligible true) rows) ∧
    frontier_rule s = (if relaxed then "relaxed" else "strict")%string ∧
    relaxed = negb (n_mvp_train n + n_matched_dev n <=? Z.of_nat (length (List.filter (eligible false) rows)))%Z.
Proof using laws.
  intros Hrows Hn. destruct Hn as (? & ? & ? & ? & ?).
  unfold build_frontier. rewrite Forall_forall in Hrows.
  rewrite !(filterM_Ok _ (eligible _)) by (intros r Hr; apply eligible_ok; auto). cbn [mbind result_bind].
  set (enough := (_ <=? _)%Z).
  replace (if enough then List.filter (eligible false) rows else List.filter (eligible true) rows)
    with (List.filter (eligible (negb enough)) rows) by (by destruct enough).
  set (frontier := shuffle 0 _).
  assert (Hids : Forall (λ r, ∃ id, lookup "id" r = Some (JStr id))
    (zslice 0 (n_mvp_train n) frontier ++ zslice (n_mvp_train n) (n_mvp_train n + n_matched_dev n) frontier)).
  { rewrite zslice_split by done. apply Forall_take. unfold frontier. rewrite shuffle_perm.
    apply Forall_forall. intros r Hr%list_elem_of_In. apply filter_In in Hr as [Hr%list_elem_of_In _]. by apply Hrows. }
  apply used_ok in Hids as [Hused Hstr]. rewrite Hused. cbn [mbind result_bind].
  rewrite (filterM_Ok _ (pooled _)) by (intros r Hr; apply in_pool_ok; by apply Hrows). cbn [mbind result_bind].
  exists (negb enough). eexists. eexists. split; [reflexivity|]. unfold chosen, confirmation. cbn.
  rewrite !zslice_split by done. rewrite !(zslice_head (n_smoke n)), !(zslice_head (n_mvp_train n)), !(zslice_head (n_confirmation_train n)) by done.
  repeat split; try done; by destruct enough.
Qed.

(** Two consecutive parts of [have] rows, when [a] and [b] are asked for. *)
Definition parts_filled (a b : Z) (have : nat) (part1 part2 : list dict) : Prop :=
  length part1 = Nat.min (Z.to_nat a) have ∧ length part2 = Nat.min (Z.to_nat b) (have - Z.to_nat a).

Lemma parts_taken a b part1 part2 l : (0 ≤ a)%Z → (0 ≤ b)%Z →
  part1 = take (Z.to_nat a) l → part1 ++ part2 = take (Z.to_nat (a + b)) l → parts_filled a b (length l) part1 part2.
Proof using Type.
  intros Ha Hb -> Hl. apply (f_equal length) in Hl. rewrite length_app, !length_take in Hl. unfold parts_filled. rewrite length_take. lia.
Qed.

Lemma pooled_or_used used row : (∃ id, lookup "id" row = Some (JStr id)) → Forall (λ v, ∃ s, v = JStr s) used →
  usable pi_trace_field row = true → pooled used row = true ∨ get "id" row ∈ used.
Proof using Type.
  intros [id Hid] Hstr Hu. unfold pooled, in_pool, get, get_default. rewrite Hid. cbn. rewrite Hu, andb_true_r.
  destruct (existsb _ used) eqn:E; [right|by left]. apply existsb_exists in E as (v & Hv%list_elem_of_In & Heq).
  rewrite Forall_forall in Hstr. destruct (Hstr v Hv) as [s ->]. cbn in Heq. apply bool_decide_eq_true in Heq. by subst.
Qed.

Lemma same_id rows r r' : NoDup (get "id" <$> rows) → r ∈ rows → r' ∈ rows → get "id" r = get "id" r' → r = r'.
Proof using Type.
  intros Hnd [i Hi]%list_elem_of_lookup [j Hj]%list_elem_of_lookup Heq.
  assert (i = j) as <-; [|congruence]. eapply (NoDup_lookup _ _ _ (get "id" r) Hnd); rewrite list_lookup_fmap; [by rewrite Hi|].
  rewrite Hj. cbn. by rewrite Heq.
Qed.

(** The pool is what the chosen rows leave of the usable ones. *)
Lemma pool_size picked rows : Forall readable rows → NoDup (get "id" <$> rows) →
  NoDup (get "id" <$> picked) → Forall (λ r, r ∈ rows ∧ usable pi_trace_field r = true) picked →
  length (List.filter (pooled (get "id" <$> picked)) rows) = length (List.filter (usable pi_trace_field) rows) - length picked.
Proof using Type.
  intros Hread Hnd Hnd' Hpicked. rewrite Forall_forall in Hread, Hpicked.
  assert (Hstr : Forall (λ v, ∃ s, v = JStr s) (get "id" <$> picked)).
  { apply used_ok, Forall_forall. intros r Hr. by apply Hread, Hpicked. }
  assert (Hfil : ∀ (f : dict → bool) l, NoDup l → NoDup (List.filter f l)).
  { intros f l Hl. by apply NoDup_ListNoDup, List.NoDup_filter, NoDup_ListNoDup. }
  apply NoDup_fmap_1 in Hnd as Hnd1. apply NoDup_fmap_1 in Hnd' as Hnd2.
  enough (Hperm : List.filter (usable pi_trace_field) rows ≡ₚ List.filter (pooled (get "id" <$> picked)) rows ++ picked)
    by (rewrite Hperm, length_app; lia).
  assert (Hin : ∀ f r, r ∈ List.filter f rows ↔ r ∈ rows ∧ f r = true) by (intros; by rewrite list_elem_of_In, filter_In, <-list_elem_of_In).
  apply NoDup_Permutation; [by apply Hfil| |].
  - apply NoDup_app. split; [by apply Hfil|]. split; [|done]. intros r [Hr Hp]%Hin Hr'.
    apply pooled_fresh in Hp as [Hno _]; [|by apply Hread]. apply Hno, list_elem_of_fmap. by exists r.
  - intros r. rewrite elem_of_app, !Hin. split.
    + intros [Hr Hu]. destruct (pooled_or_used (get "id" <$> picked) r) as [Hp|(r' & Heq & Hr')%list_elem_of_fmap]; [by apply Hread|done|done|by left|].
      right. rewrite (same_id rows r r' Hnd Hr (proj1 (Hpicked r' Hr')) Heq). done.
    + intros [[Hr Hp]|Hr]; [|by apply Hpicked]. split; [done|]. apply pooled_fresh in Hp as [_ ?]; [done|by apply Hread].
Qed.

(** C21: The splits of [build_frontier].  With unique ids, no problem is in two of the training,
    matched development and confirmation sets; every row in them is a source row with a
    verified, untruncated trace; the training and development rows satisfy the relaxed rule,
    and the strict rule when the manifest says so; the smoke set is the head of the training
    set; and the strict rule is used exactly when it fills both sets.  Training and
    development sets are as large as asked for as far as the rows eligible under the rule
    go, training first, and so are the confirmation sets as far as the usable rows go that
    training and development leave. *)
Theorem frontier_splits_disjoint n rows :
  Forall readable rows → NoDup (get "id" <$> rows) → sizes_ok n → (n_smoke n ≤ n_mvp_train n)%Z →
  ∃ s, build_frontier pi_trace_field n rows = Ok s ∧
    NoDup (get "id" <$> chosen s ++ confirmation s) ∧
    Forall (λ r, r ∈ rows ∧ usable pi_trace_field r = true) (chosen s ++ confirmation s) ∧
    Forall (λ r, eligible (bool_decide (frontier_rule s = "relaxed"%string)) r = true) (chosen s) ∧
    Forall (λ r, eligible true r = true) (chosen s) ∧
    smoke s = take (Z.to_nat (n_smoke n)) (mvp_train s) ∧
    strict_frontier_count s ≤ relaxed_frontier_count s ∧
    (frontier_rule s = "strict"%string ↔ (n_mvp_train n + n_matched_dev n ≤ Z.of_nat (strict_frontier_count s))%Z) ∧
    strict_frontier_count s = length (List.filter (eligible false) rows) ∧
    relaxed_frontier_count s = length (List.filter (eligible true) rows) ∧
    parts_filled (n_mvp_train n) (n_matched_dev n)
      (if bool_decide (frontier_rule s = "relaxed"%string) then relaxed_frontier_count s else strict_frontier_count s)
      (mvp_train s) (matched_dev s) ∧
    parts_filled (n_confirmation_train n) (n_confirmation_dev n)
      (length (List.filter (usable pi_trace_field) rows) - length (chosen s)) (confirmation_train s) (confirmation_dev s).
Proof using laws.
  intros Hrows Hnd Hn Hsmoke.
  destruct (build_frontier_eq n rows Hrows Hn) as (relaxed & s & used & Hs & Hch & Hco & Hused & Hsm & Htr & Hct & Hc1 & Hc2 & Hrule & Hrel).
  exists s. split; [exact Hs|].
  destruct (taken_from (eligible relaxed) 0 (Z.to_nat (n_mvp_train n + n_matched_dev n)) rows Hnd) as [Hnd1 Hall1].
  destruct (taken_from (pooled used) 1 (Z.to_nat (n_confirmation_train n + n_confirmation_dev n)) rows Hnd) as [Hnd2 Hall2].
  rewrite <-Hch in Hnd1, Hall1. rewrite <-Hco in Hnd2, Hall2.
  assert (Hfresh : Forall (λ r, r ∈ rows ∧ get "id" r ∉ used ∧ usable pi_trace_field r = true) (confirmation s)).
  { eapply Forall_impl; [exact Hall2|]. intros r [Hr Hp]. split; [done|]. apply pooled_fresh; [|done].
    rewrite Forall_forall in Hrows. by apply Hrows. }
  assert (Husable : Forall (λ r, r ∈ rows ∧ usable pi_trace_field r = true) (chosen s))
    by (eapply Forall_impl; [exact Hall1|]; intros r [Hr He]; split; [done|by eapply eligible_usable]).
  destruct Hn as (Hn1 & Hn2 & Hn3 & Hn4 & Hn5). split_and!; try done.
  - rewrite fmap_app. apply NoDup_app. split; [done|]. split; [|done]. intros id Hid1 Hid2.
    apply list_elem_of_fmap in Hid2 as (r & -> & Hr). rewrite Forall_forall in Hfresh.
    destruct (Hfresh r Hr) as (_ & Hno & _). apply Hno. by rewrite Hused.
  - apply Forall_app. split; [done|]. eapply Forall_impl; [exact Hfresh|]. by intros r (Hr & _ & Hu).
  - eapply Forall_impl; [exact Hall1|]. intros r [_ He]. rewrite Hrule. by destruct relaxed.
  - eapply Forall_impl; [exact Hall1|]. intros r [_ He]. by eapply eligible_relaxed.
  - rewrite Hsm, Htr, take_take. f_equal. lia.
  - rewrite Hc1, Hc2. apply strict_count_le.
  - rewrite Hrule, Hc1. split.
    + intros Hstrict. destruct relaxed; [done|]. symmetry in Hrel. apply negb_false_iff, Z.leb_le in Hrel. done.
    + intros Hle. apply Z.leb_le in Hle. by rewrite Hrel, Hle.
  - replace (if bool_decide _ then _ else _) with (length (shuffle 0 (List.filter (eligible relaxed) rows)))
      by (rewrite shuffle_perm, Hrule, Hc1, Hc2; by destruct relaxed).
    by apply parts_taken.
  - rewrite <-(pool_size (chosen s) rows) by done. rewrite <-Hused, <-(shuffle_perm 1). by apply parts_taken.
Qed.
End frontier_facts.

(** ** The shuffled control *)

Section control.
Context `{PyPrims} (pi_trace_field : string).

Lemma rotate1_perm {A} (l : list A) : rotate1 l ≡ₚ l.
Proof using Type. unfold rotate1. by rewrite Permutation_app_comm, take_drop. Qed.

Lemma shuffled_traces_perm {rng : Rng} {laws : RngLaws rng} traces : shuffled_traces traces ≡ₚ traces.
Proof using Type.
  unfold shuffled_traces. destruct (_ && _); [rewrite rotate1_perm|]; apply shuffle_perm.
Qed.

(** The control moves the traces and nothing else. *)
Lemma shuffled_pi_rows {rng : Rng} {laws : RngLaws rng} info rows out :
  pi_trace_field ≠ "metadata"%string → build_shuffled_pi pi_trace_field info rows = Ok out →
  (get pi_trace_field <$> out) ≡ₚ (get pi_trace_field <$> rows) ∧
  Forall2 (λ row new_row, ∀ k, k ∉ [pi_trace_field; "metadata"%string] → lookup k new_row = lookup k row) rows out.
Proof using Type.
  intros Hne Hb. unfold build_shuffled_pi in Hb. cbn zeta in Hb.
  set (traces := shuffled_traces _) in Hb. apply require_inv in Hb as [Hlen%Nat.eqb_eq Hb].
  apply mapM_Ok_Forall2 in Hb.
  assert (Hrow : ∀ row t new_row, control_row pi_trace_field info row t = Ok new_row →
    get pi_trace_field new_row = t ∧ ∀ k, k ∉ [pi_trace_field; "metadata"%string] → lookup k new_row = lookup k row).
  { intros row t nr Hr. apply set_metadata_inv in Hr as [m ->]. split.
    - unfold get, get_default. by rewrite lookup_set_ne, lookup_set_eq by done.
    - intros k Hk. rewrite !lookup_set_ne by set_solver. done. }
  split.
  - transitivity traces; [|apply shuffled_traces_perm]. apply reflexive_eq.
    rewrite <-(snd_zip rows traces) by lia. clear Hlen. induction Hb as [|[r t] nr ps out Hr Hb IH]; [done|].
    cbn. rewrite IH. f_equal. by apply Hrow in Hr as [? _].
  - rewrite <-(fst_zip rows traces) by lia. apply Forall2_fmap_l. eapply Forall2_impl; [exact Hb|].
    intros [r t] nr Hr. by apply Hrow in Hr as [_ ?].
Qed.

(** The order that swaps the second and third element. *)
Definition swap_rng : Rng := λ _ n,
  match n with S (S (S m)) => [0; 2; 1] ++ seq 3 m | n => seq 0 n end.
#[export] Instance swap_rng_laws : RngLaws swap_rng.
Proof.
  intros k n. unfold order, swap_rng. destruct n as [|[|[|m]]]; [done..|]. cbn.
  apply Permutation_skip, perm_swap.
Qed.

(** The shuffled control does not separate every problem from its own trace, although
    [build_shuffled_pi] rotates the shuffled traces when one is still in its place:
    from three rows on there is an order of the generator (a permutation) for which
    the rotated list has a trace back in its own row. *)
Theorem control_keeps_own_trace traces :
  3 ≤ length traces → Forall (λ t, ∃ s, t = JStr s) traces →
  ∃ rng : Rng, RngLaws rng ∧
    @shuffled_traces rng traces = rotate1 (@shuffle rng json 0 traces) ∧
    @shuffled_traces rng traces !! 1 = traces !! 1.
Proof using Type.
  intros Hlen Hstr. exists swap_rng. split; [apply _|].
  destruct traces as [|a [|b [|c rest]]]; cbn in Hlen; try lia.
  assert (Hsh : ∃ tail, @shuffle swap_rng json 0 (a :: b :: c :: rest) = a :: c :: b :: tail) by (by eexists).
  destruct Hsh as [tail Hsh]. unfold shuffled_traces. rewrite Hsh. cbn.
  apply Forall_cons in Hstr as [[s ->] _]. cbn. by rewrite bool_decide_eq_true_2.
Qed.
End control.

(** ** Concrete rows *)

Definition frontier_row (id : string) (p_plain p_pi : Q) : dict :=
  [("id", JStr id); ("t_trace", JStr ("trace " +:+ id)); ("t_verified", JBool true);
   ("p_plain", JFloat p_plain); ("p_PI", JFloat p_pi)]%string.
Definition frontier_rows : list dict :=
  [frontier_row "a" (1 # 4) 1; frontier_row "b" (1 # 2) 1; frontier_row "c" 0 (1 # 2); frontier_row "d" (3 # 4) 1]%Q.
Definition small_sizes : sizes :=
  {| n_smoke := 1; n_mvp_train := 2; n_matched_dev := 1; n_confirmation_train := 1; n_confirmation_dev := 1 |}.

Definition frontier_split : splits := Eval vm_compute in
  match @build_frontier sample_prims swap_rng "t_trace" small_sizes frontier_rows with
  | Ok s => s
  | Raise _ => {| smoke := []; mvp_train := []; matched_dev := []; confirmation_train := []; confirmation_dev := [];
                  strict_frontier_count := 0; relaxed_frontier_count := 0; frontier_rule := "" |}
  end.

Lemma frontier_splits_disjoint_witness :
  frontier_rule frontier_split = "strict"%string ∧
  NoDup (get "id" <$> chosen frontier_split ++ confirmation frontier_split).
Proof.
  split; [reflexivity|].
  assert (Hread : Forall readable frontier_rows) by (repeat constructor; by eexists).
  assert (Hnd : NoDup (get "id" <$> frontier_rows)).
  { repeat (apply NoDup_cons; split; [rewrite ?not_elem_of_cons; repeat split; done || apply not_elem_of_nil|]). by apply NoDup_nil. }
  destruct (@frontier_splits_disjoint sample_prims swap_rng swap_rng_laws "t_trace" small_sizes frontier_rows Hread Hnd
              ltac:(repeat split; done) ltac:(done)) as (s & Hs & Hdisjoint & _).
  assert (@build_frontier sample_prims swap_rng "t_trace" small_sizes frontier_rows = Ok frontier_split) as Heq
    by (vm_compute; reflexivity).
  rewrite Heq in Hs. injection Hs as <-. exact Hdisjoint.
Defined.

Definition three_traces : list json := [JStr "t1"; JStr "t2"; JStr "t3"].
Lemma control_keeps_own_trace_witness :
  ∃ rng : Rng, RngLaws rng ∧ @shuffled_traces rng three_traces !! 1 = Some (JStr "t2").
Proof.
  destruct (control_keeps_own_trace three_traces ltac:(cbn; lia) ltac:(repeat constructor; by eexists)) as (rng & Hl & _ & Hown).
  exists rng. split; [exact Hl | exact Hown].
Defined.
