(* ===== verification/PiShard.v ===== *)
(** * Generating verified privileged traces, shard by shard

    [generate_verified_pi_shard.py] of [src/tools/extpi_rlsd/]: a worker takes every
    [num_workers]-th row, samples solutions, keeps the shortest verified one and
    appends the row to its success or failure file; a restarted worker skips the ids
    it finds in its files.  The files are lists of rows and a run is the log of its
    appends, so that an interrupted run is a prefix of that log.  The language model,
    the chat template and the provenance record are parameters. *)

From S2P Require Import Prelude PyStr Json MathReward Uplift.
Local Open Scope py_scope.

Definition PI_GENERATION_PROMPT (problem : string) : string :=
  "Solve the following mathematics problem. Provide self-contained visible reasoning." +:+ nl +:+
  "End with the final answer in \boxed{...}." +:+ nl +:+ nl +:+
  "Do not mention any gold or reference solution." +:+ nl +:+ nl +:+ problem.

(** A sampled completion. *)
Record candidate := { text : string; finish_reason : json; token_count : nat }.

Record config := {
  worker_id : Z; num_workers : Z; target_successes : nat; batch_size : nat; max_input_rows : option Z }.

Record files := { success : list dict; failure : list dict }.

Section shard.
Context `{PyPrims} `{MathVerify} (chat : string → string) (generate : list string → list (list candidate))
        (provenance : list json → json) (cfg : config).

Definition row_key (row : dict) : string := py_str (get "id" row).

(** [load_seen_ids]: rows whose id is truthy. *)
Definition seen_ids (rows : list dict) : list string := row_key <$> List.filter (λ r, truthy (get "id" r)) rows.
Definition load_seen_ids (f : files) : list string := seen_ids (success f) ++ seen_ids (failure f).

(** A gold answer that is not a string makes the verifier raise, and the texts are compared. *)
Definition verify_gold (boxed : option string) (gold : json) : result bool :=
  match boxed, gold with
  | _, JStr g => verify_answer boxed g
  | Some p, g => Ok (bool_decide (normalize_string p = normalize_string (py_str g)))
  | None, _ => Ok false
  end.

Definition attempt_json (idx : nat) (c : candidate) (boxed : option string) (ok : bool) : json :=
  JObj [("attempt_index", JInt (Z.of_nat idx)); ("text", JStr (text c));
        ("boxed_answer", match boxed with Some b => JStr b | None => JNull end); ("verified", JBool ok);
        ("finish_reason", finish_reason c); ("token_count", JInt (Z.of_nat (token_count c)))]%string.

Definition attempt (row : dict) (ic : nat * candidate) : result (json * (bool * candidate)) :=
  let boxed := extract_boxed_answer (text ic.2) in
  gold ← getitem "gold_answer" row;
  ok ← verify_gold boxed gold;
  Ok (attempt_json ic.1 ic.2 boxed ok, (ok, ic.2)).

(** [min(verified, key=token_count)]: the first of the shortest. *)
Definition shorter (best c : candidate) : candidate := if Nat.ltb (token_count c) (token_count best) then c else best.
Definition select (tried : list (bool * candidate)) : option candidate :=
  match (List.filter fst tried).*2 with [] => None | c :: cs => Some (foldl shorter c cs) end.

(** The row that is written, and whether to the success file. *)
Definition process_row (row : dict) (outputs : list candidate) : result (bool * dict) :=
  attempts ← mapM (attempt row) (zip (seq 0 (length outputs)) outputs);
  let selected := select attempts.*2 in
  let ok := match selected with Some _ => true | None => false end in
  let trace := match selected with Some c => JStr (text c) | None => JNull end in
  let new_row := set "qwen32b_pi_verified" (JBool ok) (set "qwen32b_pi_trace" trace
    (set "qwen8b_pi_attempts" (JInt (Z.of_nat (length attempts)))
      (set "qwen8b_pi_verified" (JBool ok) (set "qwen8b_pi_trace" trace row)))) in
  let info := provenance attempts.*1 in
  new_row ← set_metadata "qwen8b_pi_generation" info new_row;
  new_row ← set_metadata "qwen32b_pi_generation" info new_row;
  Ok (ok, new_row).

(** The rows of this worker that it has not written yet. *)
Definition mine (seen : list string) (ir : nat * dict) : bool :=
  (Z.of_nat ir.1 mod num_workers cfg =? worker_id cfg)%Z && negb (bool_decide (row_key ir.2 ∈ seen)).
Definition shard_rows (seen : list string) (source : list dict) : list dict :=
  (List.filter (mine seen) (zip (seq 0 (length source)) source)).*2.

(** [rows[start : start + batch_size]] for the starts of [range]; the fuel is the number of rows. *)
Fixpoint batches (fuel : nat) (rows : list dict) : list (list dict) :=
  match fuel, rows with
  | S fuel, _ :: _ => take (batch_size cfg) rows :: batches fuel (drop (batch_size cfg) rows)
  | _, _ => []
  end.

Definition successes_in (log : list (bool * dict)) : nat := length (List.filter fst log).

(** A run ends in a log and, possibly, an exception. *)
Definition run : Type := list (bool * dict) * result unit.
Definition failed (e : exn) : run := ([], Raise e).
Definition then_run (r k : run) : run := match r.2 with Ok _ => (r.1 ++ k.1, k.2) | Raise e => r end.

Fixpoint run_rows (ps : list (dict * list candidate)) : run :=
  match ps with
  | [] => ([], Ok tt)
  | p :: ps =>
      match process_row p.1 p.2 with
      | Raise e => failed e
      | Ok entry => then_run ([entry], Ok tt) (run_rows ps)
      end
  end.

(** [zip(batch, outputs, strict=True)] raises once the shorter one is used up. *)
Definition run_batch (batch : list dict) : run :=
  match mapM (getitem "problem") batch with
  | Raise e => failed e
  | Ok problems =>
      let outputs := generate ((λ p, chat (PI_GENERATION_PROMPT (py_str p))) <$> problems) in
      then_run (run_rows (zip batch outputs))
        (if Nat.eqb (length batch) (length outputs) then ([], Ok tt) else failed (ValueError "zip() argument lengths differ"))
  end.

(** The loop over the batches. *)
Fixpoint run_batches (bs : list (list dict)) (successes : nat) : run :=
  match bs with
  | [] => ([], Ok tt)
  | batch :: bs =>
      if Nat.leb (target_successes cfg) successes then ([], Ok tt) else
      let r := run_batch batch in
      then_run r (run_batches bs (successes + successes_in r.1))
  end.

Definition run_worker (source : list dict) (f : files) : run :=
  if Nat.leb (target_successes cfg) (length (success f)) then ([], Ok tt) else
  let source := match max_input_rows cfg with Some n => zslice 0 n source | None => source end in
  if Z.eqb (num_workers cfg) 0 && negb (Nat.eqb (length source) 0) then failed (ZeroDivisionError "integer modulo by zero") else
  let rows := shard_rows (load_seen_ids f) source in
  if Nat.eqb (batch_size cfg) 0 then failed (ValueError "range() arg 3 must not be zero") else
  run_batches (batches (length rows) rows) (length (success f)).

Definition append_log (f : files) (log : list (bool * dict)) : files :=
  {| success := success f ++ (List.filter fst log).*2;
     failure := failure f ++ (List.filter (λ p, negb p.1) log).*2 |}.

(** The files a worker can leave after any number of runs, each finished, ended by
    an exception or interrupted between two appends. *)
Inductive reachable (source : list dict) : files → Prop :=
  | fresh : reachable source {| success := []; failure := [] |}
  | ran f k : reachable source f → reachable source (append_log f (take k (run_worker source f).1)).

(** ** What a row becomes *)

Lemma shorter_le c d : token_count (shorter c d) ≤ token_count c ∧ token_count (shorter c d) ≤ token_count d.
Proof using Type. unfold shorter. destruct (Nat.ltb _ _) eqn:E; [apply Nat.ltb_lt in E|apply Nat.ltb_ge in E]; lia. Qed.

Lemma foldl_shorter cs : ∀ c, foldl shorter c cs ∈ c :: cs ∧
  ∀ c', c' ∈ c :: cs → token_count (foldl shorter c cs) ≤ token_count c'.
Proof using Type.
  induction cs as [|d cs IH]; intros c; cbn [foldl].
  - split; [set_solver|]. intros c' ->%list_elem_of_singleton. done.
  - destruct (IH (shorter c d)) as [Hin Hmin]. split.
    + apply elem_of_cons in Hin as [Hin|Hin]; [|by do 2 apply list_elem_of_further].
      rewrite Hin. unfold shorter. destruct (Nat.ltb _ _); [apply list_elem_of_further|]; apply list_elem_of_here.
    + pose proof (Hmin _ (list_elem_of_here _ _)) as Hs. destruct (shorter_le c d) as [Hc Hd].
      intros c' Hc'. apply elem_of_cons in Hc' as [-> |[-> |Hc']%elem_of_cons]; [lia..|].
      by apply Hmin, list_elem_of_further.
Qed.

Lemma select_shortest tried :
  match select tried with
  | Some c => (true, c) ∈ tried ∧ ∀ c', (true, c') ∈ tried → token_count c ≤ token_count c'
  | None => ∀ c, (true, c) ∉ tried
  end.
Proof using Type.
  assert (Hin : ∀ c, c ∈ (List.filter fst tried).*2 ↔ (true, c) ∈ tried).
  { intros c. rewrite list_elem_of_fmap. split.
    - intros ([b c'] & -> & Hc). apply list_elem_of_In, filter_In in Hc as [Hc Hb]. cbn in Hb. subst. by apply list_elem_of_In.
    - intros Hc. exists (true, c). split; [done|]. by apply list_elem_of_In, filter_In; split; [apply list_elem_of_In|]. }
  unfold select. destruct (List.filter fst tried).*2 as [|c cs].
  - intros c Hc%Hin. by apply not_elem_of_nil in Hc.
  - destruct (foldl_shorter cs c) as [H1 H2]. split; [by apply Hin|]. intros c' Hc'%Hin. by apply H2.
Qed.

(** Whether a completion passes for the row. *)
Definition passes (row : dict) (c : candidate) : Prop :=
  ∃ gold, getitem "gold_answer" row = Ok gold ∧ verify_gold (extract_boxed_answer (text c)) gold = Ok true.

Lemma attempts_spec row outputs attempts :
  mapM (attempt row) (zip (seq 0 (length outputs)) outputs) = Ok attempts →
  ∀ c, (true, c) ∈ attempts.*2 ↔ c ∈ outputs ∧ passes row c.
Proof using Type.
  intros Hm%mapM_Ok_Forall2 c. generalize dependent attempts. generalize 0. unfold passes.
  induction outputs as [|o outputs IH]; intros n attempts Hm; cbn in Hm.
  - inversion Hm; subst. set_solver.
  - apply Forall2_cons_inv_l in Hm as ([j [ok o']] & rest & Ha & Hm & ->). unfold attempt in Ha.
    apply bind_Ok_inv in Ha as (gold & Hg & Ha). apply bind_Ok_inv in Ha as (ok' & Hok & Ha). injection Ha as <- <- <-.
    cbn [fst snd] in *. cbn [fmap list_fmap snd]. rewrite !elem_of_cons, (IH (S n) rest Hm). split.
    + intros [[= <- <-]|[? ?]]; [|tauto]. split; [by left|]. eauto.
    + intros [[-> |?] (gold' & Hg' & Hv)]; [|right; eauto]. left. congruence.
Qed.

(** A written row keeps its id; a success carries a passing trace, the shortest
    among those that pass, and a failure has none. *)
Lemma process_row_spec row outputs ok new_row :
  process_row row outputs = Ok (ok, new_row) →
  get "id" new_row = get "id" row ∧ get "qwen32b_pi_verified" new_row = JBool ok ∧
  if ok then ∃ c, c ∈ outputs ∧ passes row c ∧ get "qwen32b_pi_trace" new_row = JStr (text c) ∧
                  ∀ c', c' ∈ outputs → passes row c' → token_count c ≤ token_count c'
  else ∀ c, c ∈ outputs → ¬ passes row c.
Proof using Type.
  intros Hp. unfold process_row in Hp. apply bind_Ok_inv in Hp as (attempts & Ha & Hp).
  pose proof (attempts_spec _ _ _ Ha) as Hiff. pose proof (select_shortest attempts.*2) as Hs. cbn zeta in Hp.
  apply bind_Ok_inv in Hp as (r1 & H1 & Hp). apply bind_Ok_inv in Hp as (r2 & H2 & Hp).
  apply set_metadata_inv in H1 as [m1 ->]. apply set_metadata_inv in H2 as [m2 ->].
  injection Hp as <- <-. unfold get, get_default.
  repeat rewrite (lookup_set_ne "metadata") by done. rewrite !lookup_set. cbn.
  repeat split. destruct (select attempts.*2) as [c|].
  - destruct Hs as [[Hin Hpass]%Hiff Hmin]. exists c. repeat split; try done.
    intros c' Hc' Hp'. apply Hmin, Hiff. done.
  - intros c Hc Hp. apply (Hs c), Hiff. done.
Qed.

(** ** What a run logs *)

Definition entry_of (row : dict) (entry : bool * dict) : Prop := ∃ outputs, process_row row outputs = Ok entry.

(** The log of a run over [rows]: an entry for each row of a prefix, in order; all
    rows unless the run raised. *)
Definition logged (rows : list dict) (r : run) : Prop :=
  ∃ srcs, srcs `prefix_of` rows ∧ Forall2 entry_of srcs r.1 ∧ (r.2 = Ok tt → srcs = rows).

Lemma logged_then rows1 rows2 r k : logged rows1 r → logged rows2 k → logged (rows1 ++ rows2) (then_run r k).
Proof using Type.
  intros (s1 & Hp1 & Hf1 & He1) (s2 & Hp2 & Hf2 & He2). unfold then_run. destruct r as [log [[]|e]]; cbn in *.
  - rewrite He1 in Hf1 by done. exists (rows1 ++ s2). split; [by apply prefix_app|]. split; [by apply Forall2_app|].
    intros Hk. by rewrite He2.
  - exists s1. split; [by apply prefix_app_r|]. by split.
Qed.

Lemma logged_done : logged [] ([], Ok tt).
Proof using Type. exists []. by repeat split. Qed.
Lemma logged_failed rows e : logged rows (failed e).
Proof using Type. exists []. repeat split; [apply prefix_nil | constructor | done]. Qed.

Lemma run_rows_logged ps : logged ps.*1 (run_rows ps).
Proof using Type.
  induction ps as [|[row outs] ps IH]; cbn [run_rows fst snd]; [apply logged_done|].
  destruct (process_row row outs) as [entry|e] eqn:E; [|apply logged_failed].
  change (logged ([row] ++ ps.*1) (then_run ([entry], Ok tt) (run_rows ps))).
  apply logged_then; [|exact IH]. exists [row]. split; [done|]. split; [|done].
  constructor; [by exists outs | constructor].
Qed.

Lemma run_batch_logged batch : logged batch (run_batch batch).
Proof using Type.
  unfold run_batch. destruct (mapM _ batch) as [problems|e] eqn:E; [|apply logged_failed].
  set (outputs := generate _). cbn zeta. destruct (run_rows_logged (zip batch outputs)) as (srcs & Hp & Hf & He).
  assert (Hpre : (zip batch outputs).*1 `prefix_of` batch).
  { clear. generalize outputs. clear. induction batch as [|b batch IH]; intros [|o outs]; cbn; try apply prefix_nil. by apply prefix_cons, IH. }
  destruct (Nat.eqb (length batch) (length outputs)) eqn:Hl.
  - apply Nat.eqb_eq in Hl. assert (Hfst : (zip batch outputs).*1 = batch) by (apply fst_zip; lia).
    rewrite Hfst in Hp, He. assert (Hrows : logged batch (run_rows (zip batch outputs))) by (exists srcs; by split).
    pose proof (logged_then batch [] _ _ Hrows logged_done) as Hboth. by rewrite app_nil_r in Hboth.
  - exists srcs. unfold then_run. destruct (run_rows (zip batch outputs)) as [log [[]|e]]; cbn in *.
    + rewrite app_nil_r. split; [by etrans|]. by split.
    + split; [by etrans|]. by split.
Qed.

Lemma batches_concat fuel rows : batch_size cfg ≠ 0 → length rows ≤ fuel → concat (batches fuel rows) = rows.
Proof using Type.
  intros Hb. revert rows. induction fuel as [|fuel IH]; intros [|r rows] Hl; cbn in *; try done; [lia|].
  rewrite IH.
  - apply (take_drop (batch_size cfg) (r :: rows)).
  - rewrite length_drop. cbn. lia.
Qed.
Lemma batches_small fuel rows : Forall (λ b, length b ≤ batch_size cfg) (batches fuel rows).
Proof using Type.
  revert rows. induction fuel as [|fuel IH]; intros [|r rows]; cbn [batches]; constructor; [|apply IH].
  rewrite length_take. lia.
Qed.

Lemma successes_app l1 l2 : successes_in (l1 ++ l2) = successes_in l1 + successes_in l2.
Proof using Type. unfold successes_in. by rewrite List.filter_app, length_app. Qed.
Lemma successes_le log : successes_in log ≤ length log.
Proof using Type. unfold successes_in. induction log as [|[[] ?] log IH]; cbn; lia. Qed.

Lemma run_batches_spec bs : ∀ n, Forall (λ b, length b ≤ batch_size cfg) bs →
  let r := run_batches bs n in
  ∃ srcs, srcs `prefix_of` concat bs ∧ Forall2 entry_of srcs r.1 ∧
    (r.2 = Ok tt → srcs = concat bs ∨ target_successes cfg ≤ n + successes_in r.1) ∧
    n + successes_in r.1 ≤ Nat.max n (pred (target_successes cfg) + batch_size cfg).
Proof using Type.
  induction bs as [|batch bs IH]; intros n Hbs; cbn zeta; cbn [run_batches concat].
  - exists []. cbn. split_and!; [done | constructor | by left | lia].
  - apply Forall_cons in Hbs as [Hb Hbs]. destruct (Nat.leb _ n) eqn:Ht.
    + apply Nat.leb_le in Ht. exists []. cbn. split_and!; [apply prefix_nil | constructor | right; lia | lia].
    + apply Nat.leb_gt in Ht. destruct (run_batch_logged batch) as (s1 & Hp1 & Hf1 & He1).
      pose proof (prefix_length _ _ Hp1) as Hlen. pose proof (Forall2_length _ _ _ Hf1) as Hlog.
      pose proof (successes_le (run_batch batch).1) as Hsuc.
      unfold then_run. destruct (run_batch batch) as [log [[]|e]]; cbn [fst snd] in *.
      * rewrite He1 in Hf1 by done.
        destruct (IH (n + successes_in log) Hbs) as (s2 & Hp2 & Hf2 & He2 & Hle). cbn zeta in *.
        exists (batch ++ s2). rewrite successes_app. split; [by apply prefix_app|]. split; [by apply Forall2_app|]. split; [|lia].
        intros Hok. destruct (He2 Hok) as [-> |?]; [by left | right; lia].
      * exists s1. split; [by apply prefix_app_r|]. split; [done|]. split; [done | lia].
Qed.

(** The rows a run has before it. *)
Definition considered (source : list dict) : list dict :=
  match max_input_rows cfg with Some n => zslice 0 n source | None => source end.

Lemma run_worker_spec source f :
  let r := run_worker source f in
  ∃ srcs, srcs `prefix_of` shard_rows (load_seen_ids f) (considered source) ∧ Forall2 entry_of srcs r.1 ∧
    (r.2 = Ok tt → srcs = shard_rows (load_seen_ids f) (considered source) ∨
       target_successes cfg ≤ length (success f) + successes_in r.1) ∧
    length (success f) + successes_in r.1 ≤ Nat.max (length (success f)) (pred (target_successes cfg) + batch_size cfg).
Proof using Type.
  cbn zeta. unfold run_worker. fold (considered source).
  destruct (Nat.leb _ _) eqn:Ht.
  { apply Nat.leb_le in Ht. exists []. cbn. split_and!; [apply prefix_nil | constructor | right; lia | lia]. }
  assert (Hfail : ∀ e, ∃ srcs, srcs `prefix_of` shard_rows (load_seen_ids f) (considered source) ∧ Forall2 entry_of srcs (failed e).1 ∧
    ((failed e).2 = Ok tt → srcs = shard_rows (load_seen_ids f) (considered source) ∨
       target_successes cfg ≤ length (success f) + successes_in (failed e).1) ∧
    length (success f) + successes_in (failed e).1 ≤ Nat.max (length (success f)) (pred (target_successes cfg) + batch_size cfg)).
  { intros e. exists []. cbn. split_and!; [apply prefix_nil | constructor | done | lia]. }
  destruct (Z.eqb _ 0 && _); [apply Hfail|]. destruct (Nat.eqb (batch_size cfg) 0) eqn:Hb; [apply Hfail|].
  apply Nat.eqb_neq in Hb. set (rows := shard_rows _ _).
  destruct (run_batches_spec (batches (length rows) rows) (length (success f)) (batches_small _ _)) as (srcs & Hp & Hrest).
  rewrite batches_concat in * by done. by exists srcs.
Qed.

(** ** Runs and restarts *)

Definition recorded (f : files) : list dict := success f ++ failure f.
Definition has_id (row : dict) : Prop := truthy (get "id" row) = true.

Lemma entry_id row entry : entry_of row entry → get "id" entry.2 = get "id" row.
Proof using Type. intros [outs He]. destruct entry as [ok nr]. by apply process_row_spec in He as [? _]. Qed.

Lemma entries_keys srcs log : Forall2 entry_of srcs log → row_key <$> log.*2 = row_key <$> srcs.
Proof using Type.
  induction 1 as [|row entry srcs log He _ IH]; [done|]. cbn. rewrite IH. f_equal. unfold row_key. by rewrite (entry_id _ _ He).
Qed.

Lemma recorded_append f log : recorded (append_log f log) ≡ₚ recorded f ++ log.*2.
Proof using Type.
  unfold recorded, append_log. cbn [success failure].
  assert (Hsplit : (List.filter fst log).*2 ++ (List.filter (λ p, negb p.1) log).*2 ≡ₚ log.*2).
  { induction log as [|[[] nr] log IH]; cbn; [done | by rewrite IH |]. by rewrite <-Permutation_middle, IH. }
  rewrite <-Hsplit, <-!(assoc_L (++)). apply Permutation_app_head.
  rewrite !(assoc_L (++)). apply Permutation_app_tail, Permutation_app_comm.
Qed.

Lemma seen_all rows : Forall has_id rows → seen_ids rows = row_key <$> rows.
Proof using Type.
  unfold seen_ids, has_id. induction 1 as [|r rows Hr _ IH]; [done|]. cbn. rewrite Hr. cbn. by rewrite IH.
Qed.

Lemma shard_rows_in seen rows row :
  row ∈ shard_rows seen rows ↔
  ∃ i, rows !! i = Some row ∧ (Z.of_nat i mod num_workers cfg = worker_id cfg)%Z ∧ row_key row ∉ seen.
Proof using Type.
  unfold shard_rows. rewrite list_elem_of_fmap. split.
  - intros ([i r] & -> & Hin). apply list_elem_of_In, filter_In in Hin as [Hin Hm]. apply list_elem_of_In, list_elem_of_lookup in Hin as [j Hj].
    apply lookup_zip_Some in Hj as [Hs Hr]. apply lookup_seq in Hs as [-> _]. cbn in *. exists j. split; [done|].
    unfold mine in Hm. cbn in Hm. apply andb_true_iff in Hm as [Hm%Z.eqb_eq Hns]. split; [done|].
    by apply negb_true_iff, bool_decide_eq_false in Hns.
  - intros (i & Hr & Hm & Hns). exists (i, row). split; [done|]. apply list_elem_of_In, filter_In. split.
    + apply list_elem_of_In, list_elem_of_lookup. exists i. apply lookup_zip_Some. split; [|done].
      apply lookup_seq. split; [done|]. by eapply lookup_lt_Some.
    + unfold mine. cbn. apply andb_true_iff. split; [by apply Z.eqb_eq|]. by apply negb_true_iff, bool_decide_eq_false.
Qed.

Lemma shard_rows_sublist seen rows : shard_rows seen rows `sublist_of` rows.
Proof using Type.
  unfold shard_rows. rewrite <-(snd_zip (seq 0 (length rows)) rows) at 3 by (rewrite length_seq; lia).
  apply fmap_sublist. generalize (zip (seq 0 (length rows)) rows). intros l.
  induction l as [|p l IH]; cbn; [constructor|]. destruct (mine seen p); by constructor.
Qed.

Section runs.
Context (source : list dict) (Hkeys : NoDup (row_key <$> source)) (Hids : Forall has_id source).

(** A success: it passes with the trace it carries, the shortest that passed. *)
Definition verified_row (nr : dict) : Prop :=
  ∃ row c, row ∈ source ∧ get "id" nr = get "id" row ∧ passes row c ∧
    get "qwen32b_pi_trace" nr = JStr (text c) ∧ get "qwen32b_pi_verified" nr = JBool true.

Record consistent (f : files) : Prop := {
  no_repeats : NoDup (row_key <$> recorded f);
  from_shard : ∀ nr, nr ∈ recorded f → ∃ row, row ∈ shard_rows [] source ∧ get "id" nr = get "id" row;
  all_verified : Forall verified_row (success f);
  bounded : length (success f) ≤ pred (target_successes cfg) + batch_size cfg }.

Lemma considered_prefix : ∀ i row, considered source !! i = Some row → source !! i = Some row.
Proof using Type.
  intros i row. unfold considered. destruct (max_input_rows cfg); [|done].
  unfold zslice, slice, slice_bound. rewrite Z.ltb_irrefl. cbn. rewrite drop_0. intros Hi.
  apply lookup_take_Some in Hi as [? _]. done.
Qed.

Lemma considered_shard seen row : row ∈ shard_rows seen (considered source) → row ∈ shard_rows [] source ∧ row ∈ source.
Proof using Type.
  intros (i & Hi%considered_prefix & Hm & _)%shard_rows_in. split.
  - apply shard_rows_in. exists i. split; [done|]. split; [done | apply not_elem_of_nil].
  - by eapply list_elem_of_lookup_2.
Qed.

Lemma recorded_ids f : consistent f → Forall has_id (recorded f).
Proof using Hids.
  intros Hc. apply Forall_forall. intros nr Hnr. destruct (from_shard _ Hc _ Hnr) as (row & Hrow & Heq).
  unfold has_id. rewrite Heq. apply shard_rows_in in Hrow as (i & Hi & _). rewrite Forall_forall in Hids.
  apply Hids. by eapply list_elem_of_lookup_2.
Qed.

Lemma seen_recorded f : consistent f → load_seen_ids f = row_key <$> recorded f.
Proof using Hids.
  intros Hc. pose proof (recorded_ids f Hc) as Hall. unfold recorded in *. apply Forall_app in Hall as [H1 H2].
  unfold load_seen_ids. rewrite !seen_all by done. by rewrite fmap_app.
Qed.

Lemma considered_sublist : considered source `sublist_of` source.
Proof using Type.
  unfold considered. destruct (max_input_rows cfg); [|done].
  unfold zslice, slice, slice_bound. rewrite Z.ltb_irrefl. cbn. rewrite drop_0. apply sublist_take.
Qed.

(** Appending any entries made from rows of the shard that are not yet recorded. *)
Lemma consistent_append f srcs log :
  consistent f → srcs `sublist_of` shard_rows (load_seen_ids f) (considered source) → Forall2 entry_of srcs log →
  length (success f) + successes_in log ≤ pred (target_successes cfg) + batch_size cfg →
  consistent (append_log f log).
Proof using Hkeys Hids.
  intros Hc Hsub Hlog Hbound. rewrite (seen_recorded f Hc) in Hsub.
  assert (Hin : ∀ row, row ∈ srcs → row ∈ shard_rows (row_key <$> recorded f) (considered source))
    by (intros row; by apply sublist_subseteq).
  split.
  - rewrite recorded_append, fmap_app, (entries_keys _ _ Hlog). apply NoDup_app. split; [apply Hc|]. split.
    + intros k Hk (row & -> & Hrow)%list_elem_of_fmap. apply Hin, shard_rows_in in Hrow as (_ & _ & _ & Hno). done.
    + eapply sublist_NoDup; [exact Hkeys|]. apply fmap_sublist. etrans; [exact Hsub|].
      etrans; [apply shard_rows_sublist | apply considered_sublist].
  - intros nr. rewrite recorded_append, elem_of_app. intros [Hnr|(en & -> & Hen)%list_elem_of_fmap]; [by apply Hc|].
    apply list_elem_of_lookup in Hen as [i Hi]. destruct (Forall2_lookup_r _ _ _ _ _ Hlog Hi) as (row & Hrow & He).
    exists row. split; [by eapply considered_shard, Hin, list_elem_of_lookup_2 | by apply entry_id].
  - cbn [append_log success]. apply Forall_app. split; [apply Hc|]. apply Forall_fmap, Forall_forall.
    intros [ok nr] Hen. apply list_elem_of_In, filter_In in Hen as [Hen Hok]. cbn in Hok. subst ok.
    apply list_elem_of_In, list_elem_of_lookup in Hen as [i Hi].
    destruct (Forall2_lookup_r _ _ _ _ _ Hlog Hi) as (row & Hrow & outs & He).
    apply process_row_spec in He as (Hid & Hv & c & _ & Hpass & Htr & _). exists row, c.
    split_and!; try done. by eapply considered_shard, Hin, list_elem_of_lookup_2.
  - cbn [append_log success]. rewrite length_app, length_fmap. exact Hbound.
Qed.

Lemma successes_take k log : successes_in (take k log) ≤ successes_in log.
Proof using Type. rewrite <-(take_drop k log) at 2. rewrite successes_app. lia. Qed.

Lemma reachable_consistent f : reachable source f → consistent f.
Proof using Hkeys Hids.
  induction 1 as [|f k Hf IH].
  { split; cbn; [constructor | intros ? []%not_elem_of_nil | constructor | lia]. }
  destruct (run_worker_spec source f) as (srcs & Hp & Hlog & _ & Hbound). cbn zeta in *.
  apply (consistent_append f (take k srcs)); [done | | by apply Forall2_take |].
  - etrans; [apply sublist_take|]. destruct Hp as [l ->]. by apply sublist_inserts_r.
  - pose proof (bounded _ IH). pose proof (successes_take k (run_worker source f).1). lia.
Qed.

(** C20: Whatever a worker's history of finished, failed and interrupted runs, its files are
    consistent: no id is written twice, every written row comes from the worker's own
    shard, every success carries a trace that passed the verifier, and the number of
    successes exceeds the target by less than a batch.  A run that returns has reached
    the target or leaves every row of the shard written - so restarting after a crash
    neither repeats nor loses a row. *)
Theorem restarts_lose_nothing f :
  reachable source f →
  consistent f ∧
  ((run_worker source f).2 = Ok tt →
   let f' := append_log f (run_worker source f).1 in
   target_successes cfg ≤ length (success f') ∨
   ∀ row, row ∈ shard_rows [] (considered source) → row_key row ∈ row_key <$> recorded f').
Proof using Hkeys Hids.
  intros Hf. pose proof (reachable_consistent f Hf) as Hc. split; [done|]. intros Hok f'.
  destruct (run_worker_spec source f) as (srcs & _ & Hlog & Hdone & _). cbn zeta in *.
  destruct (Hdone Hok) as [-> |Ht]; [right | left].
  - intros row Hrow. subst f'. rewrite recorded_append, fmap_app, (entries_keys _ _ Hlog). apply elem_of_app.
    destruct (decide (row_key row ∈ row_key <$> recorded f)) as [|Hno]; [by left|]. right.
    apply list_elem_of_fmap. exists row. split; [done|]. rewrite (seen_recorded f Hc).
    apply shard_rows_in in Hrow as (i & Hi & Hm & _). apply shard_rows_in. by exists i.
  - subst f'. cbn [append_log success]. rewrite length_app, length_fmap. exact Ht.
Qed.
End runs.
End shard.

(** ** The workers together *)

Definition with_worker (cfg : config) (i : Z) : config :=
  {| worker_id := i; num_workers := num_workers cfg; target_successes := target_successes cfg;
     batch_size := batch_size cfg; max_input_rows := max_input_rows cfg |}.

(** With a positive number of workers, every position is in the shard of exactly one. *)
Lemma shards_partition `{PyPrims} cfg (rows : list dict) i row : (0 < num_workers cfg)%Z → rows !! i = Some row →
  exists! w, (0 ≤ w < num_workers cfg)%Z ∧ mine (with_worker cfg w) [] (i, row) = true.
Proof.
  intros Hn Hi. exists (Z.of_nat i mod num_workers cfg)%Z. unfold mine. cbn. split.
  - split; [by apply Z.mod_pos_bound|]. by rewrite Z.eqb_refl.
  - intros w [_ Hw]. rewrite andb_true_r in Hw. by apply Z.eqb_eq in Hw.
Qed.

(** ** A concrete worker *)

Definition shard_source : list dict :=
  (λ i, [("id", JStr i); ("problem", JStr "1+6"); ("gold_answer", JStr "7")]%string) <$> ["a"; "b"; "c"; "d"; "e"]%string.
Definition sample_cfg : config :=
  {| worker_id := 0; num_workers := 2; target_successes := 5; batch_size := 2; max_input_rows := None |}.
(** One right completion and one wrong one. *)
Definition sample_generate (prompts : list string) : list (list candidate) :=
  (λ _, [{| text := "\boxed{8}"; finish_reason := JStr "stop"; token_count := 3 |};
         {| text := "\boxed{7}"; finish_reason := JStr "stop"; token_count := 4 |}]%string) <$> prompts.
Definition sample_provenance (attempts : list json) : json := JList attempts.
Definition sample_chat (s : string) : string := s.

Definition sample_run (f : files) := run_worker sample_chat sample_generate sample_provenance sample_cfg shard_source f.
(** The files after a run interrupted at its second append. *)
Definition interrupted : files := Eval vm_compute in
  append_log {| success := []; failure := [] |} (take 2 (sample_run {| success := []; failure := [] |}).1).

Lemma restarts_lose_nothing_witness :
  length (success interrupted) = 2 ∧
  (target_successes sample_cfg ≤ length (success (append_log interrupted (sample_run interrupted).1)) ∨
   ∀ row, row ∈ shard_rows sample_cfg [] (considered sample_cfg shard_source) →
     row_key row ∈ row_key <$> recorded (append_log interrupted (sample_run interrupted).1)).
Proof.
  split; [reflexivity|].
  assert (Hk : NoDup (row_key <$> shard_source)) by (apply (bool_decide_unpack _); vm_compute; exact I).
  assert (Hi : Forall has_id shard_source) by (repeat constructor).
  assert (Hr : reachable sample_chat sample_generate sample_provenance sample_cfg shard_source interrupted).
  { assert (interrupted = append_log {| success := []; failure := [] |}
              (take 2 (sample_run {| success := []; failure := [] |}).1)) as -> by (vm_compute; reflexivity).
    apply ran, fresh. }
  destruct (restarts_lose_nothing sample_chat sample_generate sample_provenance sample_cfg shard_source Hk Hi interrupted Hr)
    as [_ Hfin].
  apply Hfin. vm_compute. reflexivity.
Defined.
