(* ===== verification/SftData.v ===== *)
(** * Rows for supervised fine-tuning

    [build_rows] of [build_teacher_sft_parquet.py] and of
    [build_closed_sft_parquet.py] in [src/tools/extpi_rlsd/]: off-policy teacher
    responses as chat rows.  Parquet files are the lists of rows written. *)

From S2P Require Import Prelude PyStr Json PyDict PromptAssembly DataPrep.
#[local] Open Scope py_scope.

Definition DEFAULT_RESPONSE_FIELDS : list string :=
  ["closed_teacher_output"; "teacher_output"; "response"; "solution"; "assistant"]%string.

Section sft.
Context `{PyPrims} (sha256 : string → string).

Definition has_text (v : json) : bool := negb (is_none v) && negb (bool_decide (strip (py_str v) = ""%string)).

(** [_pick_response]: the first field with text, and its text. *)
Fixpoint pick_from (row : dict) (fields : list string) : option (string * string) :=
  match fields with
  | [] => None
  | f :: fields => if has_text (get f row) then Some (py_str (get f row), f) else pick_from row fields
  end.
Definition pick_response (row : dict) (response_field : string) : option (string * string) :=
  pick_from row (if bool_decide (response_field = ""%string) then DEFAULT_RESPONSE_FIELDS else [response_field]).

Definition messages (problem response : string) : json :=
  JList [JObj [("role", JStr "user"); ("content", JStr (STUDENT_USER_TEMPLATE problem))];
         JObj [("role", JStr "assistant"); ("content", JStr response)]]%string.

Record options := {
  problem_field : string; response_field : string; answer_field : string; opt_verified_field : string;
  require_verified : bool; enable_thinking : bool; data_source : string; max_rows : option Z }.

(** What a source row becomes, with the field its response came from; [None] is dropped. *)
Definition teacher_row (o : options) (row : dict) : option (dict * string) :=
  let verified := truthy (get_default (opt_verified_field o) (JBool false) row) in
  if require_verified o && negb verified then None else
  let problem := get (problem_field o) row in
  match has_text problem, pick_response row (response_field o) with
  | true, Some (response, used) =>
      let text := py_str problem in
      let id := py_or (get "id" row) (JStr (stable_problem_id sha256 text)) in
      Some ([("messages", messages text response); ("enable_thinking", JBool (enable_thinking o));
             ("data_source", JStr (data_source o));
             ("reward_model", JObj [("style", JStr "rule"); ("ground_truth", get (answer_field o) row)]);
             ("extra_info", JObj [("id", JStr (py_str id)); ("problem", JStr text); ("response_field", JStr used);
                                  ("verified", JBool verified)])]%string, used)
  | _, _ => None
  end.

Definition full (max : option Z) (n : nat) : bool := match max with Some m => (m <=? Z.of_nat n)%Z | None => false end.

(** [build_rows] of the teacher tool: rows, the fields used, how many rows were dropped. *)
Fixpoint build_from (o : options) (source : list dict) (rows : list dict) (fields : list (string * nat)) (dropped : nat)
    : list dict * list (string * nat) * nat :=
  match source with
  | [] => (rows, fields, dropped)
  | row :: source =>
      match teacher_row o row with
      | None => build_from o source rows fields (S dropped)
      | Some (new_row, used) =>
          if full (max_rows o) (length (rows ++ [new_row])) then (rows ++ [new_row], bump used fields, dropped)
          else build_from o source (rows ++ [new_row]) (bump used fields) dropped
      end
  end.
Definition build_rows (o : options) (source : list dict) := build_from o source [] [] 0.

(** [build_rows] of the closed-teacher tool. *)
Definition closed_row (row : dict) : result (option dict) :=
  if negb (truthy (get_default "closed_teacher_verified" (JBool false) row)) then Ok None else
  let response := get "closed_teacher_output" row in
  if negb (truthy response) then Ok None else
  problem ← py_str <$> getitem "problem" row;
  gold ← getitem "gold_answer" row;
  id ← getitem "id" row;
  model ← (match lookup "metadata" row with
           | Some (JObj m) =>
               match get_default "closed_teacher_generation" (JObj []) m with
               | JObj g => Ok (get "model" g)
               | _ => Raise (TypeError "no attribute get")
               end
           | _ => Ok JNull
           end);
  Ok (Some [("messages", messages problem (py_str response)); ("enable_thinking", JBool false);
            ("data_source", JStr "extpi_rlsd/closed_sft");
            ("reward_model", JObj [("style", JStr "rule"); ("ground_truth", gold)]);
            ("extra_info", JObj [("id", id); ("problem", JStr problem); ("closed_teacher_verified", JBool true);
                                 ("closed_teacher_model", model)])]%string).

Fixpoint closed_from (max : option Z) (source rows : list dict) : result (list dict) :=
  match source with
  | [] => Ok rows
  | row :: source =>
      r ← closed_row row;
      match r with
      | None => closed_from max source rows
      | Some new_row => if full max (length (rows ++ [new_row])) then Ok (rows ++ [new_row])
                        else closed_from max source (rows ++ [new_row])
      end
  end.
Definition build_closed_rows (max : option Z) (source : list dict) : result (list dict) := closed_from max source [].

(** ** What is written *)

(** At most [max_rows] rows, but never fewer than one. *)
Definition capped {A} (max : option Z) (l : list A) : list A :=
  match max with Some m => take (Nat.max 1 (Z.to_nat m)) l | None => l end.

Definition total (fields : list (string * nat)) : nat := nsum fields.*2.

Lemma total_bump k fields : total (bump k fields) = S (total fields).
Proof using Type.
  unfold total, bump. induction fields as [|[k' n] fields IH]; [done|]. cbn. destruct (bool_decide (k = k')); unfold nsum in *; cbn in *; [done | rewrite IH; lia].
Qed.

Lemma capped_snoc {A} max (rows rest : list A) new : full max (length rows) = false ∨ rows = [] →
  full max (length (rows ++ [new])) = true → capped max (rows ++ new :: rest) = rows ++ [new].
Proof using Type.
  unfold capped, full. destruct max as [m|]; [|done]. rewrite length_app. cbn [length]. intros Hb Hf%Z.leb_le.
  replace (rows ++ new :: rest) with ((rows ++ [new]) ++ rest) by (by rewrite <-(assoc_L (++))).
  assert (Nat.max 1 (Z.to_nat m) = length (rows ++ [new])) as ->.
  { rewrite length_app. cbn. destruct Hb as [Hb%Z.leb_gt| ->]; cbn in *; lia. }
  apply take_app_length.
Qed.

Lemma capped_all {A} max (rows : list A) : full max (length rows) = false → capped max rows = rows.
Proof using Type. unfold capped, full. destruct max as [m|]; [|done]. intros Hf%Z.leb_gt. apply take_ge. lia. Qed.

Lemma build_from_spec o source : ∀ rows fields dropped rows' fields' dropped',
  (full (max_rows o) (length rows) = false ∨ rows = []) → total fields = length rows →
  build_from o source rows fields dropped = (rows', fields', dropped') →
  rows' = capped (max_rows o) (rows ++ (omap (teacher_row o) source).*1) ∧
  total fields' = length rows' ∧ length rows' + dropped' ≤ length rows + dropped + length source ∧
  (length rows' + dropped' = length rows + dropped + length source ∨ full (max_rows o) (length rows') = true).
Proof using Type.
  induction source as [|row source IH]; intros rows fields dropped rows' fields' dropped' Hb Ht; cbn [build_from omap list_omap].
  - intros [= <- <- <-]. cbn [fmap list_fmap]. rewrite app_nil_r. split; [|cbn; split_and!; [done|lia|left; lia]].
    destruct Hb as [Hb| ->]; [by rewrite capped_all|]. unfold capped. by destruct (max_rows o); rewrite ?take_nil.
  - destruct (teacher_row o row) as [[new used]|] eqn:Hrow; cbn [fmap list_fmap fst].
    + destruct (full (max_rows o) (length (rows ++ [new]))) eqn:Hf.
      * intros [= <- <- <-]. rewrite (capped_snoc _ _ _ _ Hb Hf), total_bump, length_app. cbn.
        rewrite length_app in Hf. cbn in Hf. split_and!; [done | lia | lia | by right].
      * intros Heq. apply IH in Heq as (H1 & H2 & H3 & H4);
          [|by left | rewrite total_bump, length_app; cbn; lia].
        rewrite length_app in *. cbn in *. rewrite <-(assoc_L (++)) in H1. split_and!; [done | done | lia |].
        destruct H4 as [?|?]; [left; lia | by right].
    + intros Heq. apply IH in Heq as (H1 & H2 & H3 & H4); [|done|done]. cbn [length]. split_and!; [done | done | lia |].
      destruct H4 as [?|?]; [left; lia | by right].
Qed.

(** [build_rows] writes exactly the usable source rows, in order, cut at [max_rows] but
    never below one row; the response-field counts add up to the rows written, and
    every source row is written or counted as dropped unless the cap ended the loop. *)
Theorem sft_rows_spec o source :
  let '(rows, fields, dropped) := build_rows o source in
  rows = capped (max_rows o) (omap (teacher_row o) source).*1 ∧
  total fields = length rows ∧
  (length rows + dropped = length source ∨ full (max_rows o) (length rows) = true).
Proof using Type.
  destruct (build_rows o source) as [[rows fields] dropped] eqn:Heq.
  apply build_from_spec in Heq as (H1 & H2 & _ & H4); [|by right|done].
  split_and!; [exact H1 | exact H2 |]. destruct H4; [left; cbn in *; lia | by right].
Qed.

(** The closed-teacher rows, when no row raises. *)
Lemma closed_from_spec max (f : dict → option dict) source : ∀ rows,
  (∀ row, row ∈ source → closed_row row = Ok (f row)) → full max (length rows) = false ∨ rows = [] →
  closed_from max source rows = Ok (capped max (rows ++ omap f source)).
Proof using Type.
  induction source as [|row source IH]; intros rows Hf Hb; cbn [closed_from omap list_omap].
  - rewrite app_nil_r. f_equal. destruct Hb as [Hb| ->]; [by rewrite capped_all|]. unfold capped. by destruct max; rewrite ?take_nil.
  - rewrite Hf by set_solver. cbn [mbind result_bind]. destruct (f row) as [new|]; [|by apply IH; [set_solver|]].
    destruct (full max (length (rows ++ [new]))) eqn:He.
    + f_equal. by rewrite (capped_snoc _ _ _ _ Hb He).
    + rewrite IH by (set_solver || by left). by rewrite <-(assoc_L (++)).
Qed.
End sft.

(** [max_rows = 0] writes a row: the cap is tested after the append. *)
Definition no_row_options : options :=
  {| problem_field := "problem"; response_field := ""; answer_field := "gold_answer"; opt_verified_field := "verified";
     require_verified := false; enable_thinking := false; data_source := "s"; max_rows := Some 0%Z |}.
Definition no_prims : PyPrims := {| py_repr := λ _, "?"%string; float_of_str := λ _, None; int_of_str := λ _, None |}.
Definition taught : dict := [("id", JStr "a"); ("problem", JStr "p"); ("solution", JStr "s")]%string.
Example zero_rows_writes_one :
  length (@build_rows no_prims (λ s, s) no_row_options [taught; taught]).1.1 = 1.
Proof. vm_compute. reflexivity. Qed.
