(* ===== verification/EvalSummary.v ===== *)
(** * Evaluating checkpoints

    The data handling of [src/tools/extpi_rlsd/evaluate_checkpoints.py]: reading
    evaluation rows, the fixed seeds, and the summary of scored samples.  Generation
    is left out: what it returns is the list of scored items.  Numbers are exact
    rationals. *)

From S2P Require Import Prelude PyStr PyNum PyDict PyRat Json PromptAssembly MathReward DataPrep.
From Stdlib Require Import QArith Lqa.
Local Close Scope Q_scope.
#[local] Open Scope py_scope.

(** ** [parse_seeds] *)

Definition parse_seed (item : string) : result (option Z) :=
  let s := strip item in
  if bool_decide (s = ""%string) then Ok None
  else Some <$> of_option (ValueError "invalid literal for int()") (PyNum.int_of_str s).

Definition zrange (a : Z) (n : nat) : list Z := (λ i, a + Z.of_nat i)%Z <$> seq 0 n.

Definition parse_seeds (value : string) (num_samples : Z) : result (list Z) :=
  seeds ← (if bool_decide (value = ""%string) then Ok (zrange 0 (Z.to_nat num_samples))
           else omap id <$> mapM parse_seed (split_on ","%char value));
  match last seeds with
  | None => Raise (ValueError "At least one evaluation seed is required")
  | Some final =>
      let missing := Z.to_nat (num_samples - Z.of_nat (length seeds)) in
      Ok (zslice 0 num_samples (seeds ++ zrange (final + 1) missing))
  end.

Section summary.
Context `{PyPrims} `{MathVerify}.

(** ** [load_eval_items] *)

Record eval_item := {
  sample_id : string; problem : string; item_truth : string; item_messages : list (string * string); item_trace : json }.

Definition dict_or_empty (v : json) : dict := match v with JObj d => d | _ => [] end.

Definition message_of (msg : json) : result (string * string) :=
  match msg with
  | JObj m => role ← getitem "role" m; content ← getitem "content" m; Ok (py_str role, py_str content)
  | _ => Raise (TypeError "message is not a dict")
  end.

Definition first_content (l : list json) : result json :=
  match l with
  | [] => Ok JNull
  | JObj m :: _ => Ok (get_default "content" (JStr "") m)
  | _ => Raise (TypeError "no attribute get")
  end.

Definition eval_item_of (pi_trace_field : string) (idx : nat) (row : dict) : result eval_item :=
  let extra := dict_or_empty (get "extra_info" row) in
  let reward := dict_or_empty (get "reward_model" row) in
  let p := py_or (get "problem" row) (get "problem" extra) in
  p ← (match is_none p, get "prompt" row with true, JList l => first_content l | _, _ => Ok p end);
  require negb (is_none p) else ValueError "Cannot find problem text in eval row" ;;
  let truth := py_or (get "gold_answer" row) (get "ground_truth" reward) in
  require negb (is_none truth) else ValueError "Cannot find ground truth in eval row" ;;
  messages ← (match get "prompt" row with
              | JList l => mapM message_of l
              | _ => Ok [("user"%string, STUDENT_USER_TEMPLATE (py_str p))]
              end);
  Ok {| sample_id := py_str (py_or (py_or (get "id" row) (get "id" extra)) (JInt (Z.of_nat idx)));
        problem := py_str p; item_truth := py_str truth; item_messages := messages;
        item_trace := py_or (get pi_trace_field extra) (get pi_trace_field row) |}.

Definition load_eval_items (pi_trace_field : string) (max_rows : option Z) (rows : list dict) : result (list eval_item) :=
  let rows := match max_rows with Some n => zslice 0 n rows | None => rows end in
  mapM (λ ir, eval_item_of pi_trace_field ir.1 ir.2) (zip (seq 0 (length rows)) rows).

(** [_hf_truncated]: as many tokens as allowed and no end of sequence among them. *)
Definition hf_truncated (eos : option Z) (max_new_tokens : nat) (token_ids : list Z) : bool :=
  Nat.leb max_new_tokens (length token_ids)
  && match eos with None => true | Some e => negb (bool_decide (e ∈ token_ids)) end.

(** ** [summarize_scored_items] *)

Record sample := { s_text : string; s_truncated : bool; s_prompt_tokens : nat; s_completion_tokens : nat }.
Record scored_item := {
  si_id : string; ground_truth : string; pi_trace : option string; greedy : sample; samples : list sample }.

Definition normal_answer (answer : string) : string := remove_spaces (lower answer).

(** [Counter(...).most_common(1)]: the first of the most frequent answers. *)
Definition more_common (best c : string * nat) : string * nat := if Nat.ltb best.2 c.2 then c else best.
Definition majority_answer (boxed : list string) : string :=
  let answers := normal_answer <$> List.filter (λ b, negb (bool_decide (b = ""%string))) boxed in
  match foldl (λ c a, bump a c) [] answers with
  | [] => ""%string
  | c :: cs => (foldl more_common c cs).1
  end.

Definition leaks (trace : option string) (s : sample) : bool :=
  contains "<reference_solution>" (s_text s)
  || match trace with
     | Some t => negb (bool_decide (t = ""%string)) && contains (strip t) (s_text s)
     | None => false
     end.

Definition mean (l : list Q) : Q := match l with [] => 0%Q | _ => (qsum l / qlen l)%Q end.
Definition indicator (b : bool) : Q := if b then 1%Q else 0%Q.

(** A problem's row, with what its samples contribute to the totals. *)
Record problem_row := {
  pr_id : string; pr_accuracies : list Q; pr_formats : list Q; pr_truncated : list bool; pr_leaked : list bool;
  pr_lengths : list nat; pr_prompt_tokens : list nat;
  pr_majority : bool; pr_greedy : Q; pr_greedy_format : Q; pr_greedy_boxed : string }.
Definition pr_avg (r : problem_row) : Q := mean (pr_accuracies r).
Definition pr_pass (r : problem_row) : Q := indicator (existsb (qlt 0) (pr_accuracies r)).

Definition score_item (it : scored_item) : result problem_row :=
  rows ← mapM (λ s, compute_score (s_text s) (ground_truth it)) (samples it);
  let best := majority_answer (boxed_answer <$> rows) in
  majority ← (if bool_decide (best = ""%string) then Ok false else verify_answer (Some best) (ground_truth it));
  g ← compute_score (s_text (greedy it)) (ground_truth it);
  Ok {| pr_id := si_id it; pr_accuracies := accuracy <$> rows; pr_formats := format <$> rows;
        pr_truncated := s_truncated <$> samples it; pr_leaked := leaks (pi_trace it) <$> samples it;
        pr_lengths := s_completion_tokens <$> samples it; pr_prompt_tokens := s_prompt_tokens <$> samples it;
        pr_majority := majority; pr_greedy := accuracy g; pr_greedy_format := format g; pr_greedy_boxed := boxed_answer g |}.

Record summary := {
  avg : Q; majority : Q; pass_rate : Q; greedy_accuracy : Q; format_rate : Q; truncation_rate : Q;
  mean_response_length : Q; group_variance : Q; all_correct_rate : Q; all_wrong_rate : Q;
  prompt_tokens : nat; completion_tokens : nat; total_samples : nat; privacy_leakage_rate : Q;
  per_problem : list problem_row }.

Definition nat_Q (n : nat) : Q := inject_Z (Z.of_nat n).
(** [sum(1.0 for row in per_problem if ...) / len(per_problem)]. *)
Definition fraction (f : problem_row → bool) (rows : list problem_row) : Q := mean ((λ r, indicator (f r)) <$> rows).

(** The lists that the loop over samples extends. *)
Definition gather {A : Type} (f : problem_row → list A) (rows : list problem_row) : list A := concat (f <$> rows).

Definition summarize (rows : list problem_row) : summary :=
  let avgs := pr_avg <$> rows in
  {| avg := mean (gather pr_accuracies rows); majority := fraction pr_majority rows; pass_rate := mean (pr_pass <$> rows);
     greedy_accuracy := mean (pr_greedy <$> rows); format_rate := mean (gather pr_formats rows);
     truncation_rate := mean (indicator <$> gather pr_truncated rows);
     mean_response_length := mean (nat_Q <$> gather pr_lengths rows);
     group_variance := mean ((λ v, (v - mean avgs) * (v - mean avgs))%Q <$> avgs);
     all_correct_rate := fraction (λ r, Qeq_bool (pr_avg r) 1) rows;
     all_wrong_rate := fraction (λ r, Qeq_bool (pr_avg r) 0) rows;
     prompt_tokens := nsum (gather pr_prompt_tokens rows); completion_tokens := nsum (gather pr_lengths rows);
     total_samples := length (gather pr_leaked rows); privacy_leakage_rate := mean (indicator <$> gather pr_leaked rows);
     per_problem := rows |}.

Definition summarize_scored_items (items : list scored_item) : result summary :=
  summarize <$> mapM score_item items.
End summary.

(** ** Means *)

Lemma qsum_app l1 l2 : (qsum (l1 ++ l2) == qsum l1 + qsum l2)%Q.
Proof. unfold qsum. induction l1 as [|x l1 IH]; cbn in *; [lra|]. rewrite IH. lra. Qed.

Lemma mean_sum l : (mean l == qsum l / qlen l)%Q.
Proof. destruct l; [reflexivity | done]. Qed.

Lemma qlen_pos {A} (l : list A) : l ≠ [] → (0 < qlen l)%Q.
Proof. destruct l as [|a l]; [done|]. intros _. unfold qlen. change 0%Q with (inject_Z 0). rewrite <-Zlt_Qlt. cbn [length]. lia. Qed.

Lemma qsum_le {A} (f g : A → Q) l : (∀ a, a ∈ l → (f a <= g a)%Q) → (qsum (f <$> l) <= qsum (g <$> l))%Q.
Proof.
  unfold qsum. induction l as [|a l IH]; intros Hle; cbn; [lra|].
  pose proof (Hle a (list_elem_of_here _ _)).
  pose proof (IH (λ b Hb, Hle b (list_elem_of_further _ _ _ Hb))). cbn in *. lra.
Qed.

Lemma qlen_fmap {A B} (f : A → B) l : qlen (f <$> l) = qlen l.
Proof. unfold qlen. by rewrite length_fmap. Qed.

Lemma qlen_nonneg {A} (l : list A) : (0 <= qlen l)%Q.
Proof. unfold qlen. change 0%Q with (inject_Z 0). rewrite <-Zle_Qle. lia. Qed.

Lemma mean_le {A} (f g : A → Q) l : (∀ a, a ∈ l → (f a <= g a)%Q) → (mean (f <$> l) <= mean (g <$> l))%Q.
Proof.
  intros Hle. rewrite !mean_sum, !qlen_fmap. unfold Qdiv. apply Qmult_le_compat_r; [by apply qsum_le|].
  apply Qinv_le_0_compat, qlen_nonneg.
Qed.

Lemma qsum_const {A} (c : Q) (l : list A) : (qsum ((λ _, c) <$> l) == c * qlen l)%Q.
Proof.
  unfold qsum, qlen. induction l as [|a l IH]; cbn -[inject_Z Z.of_nat]; [change (inject_Z (Z.of_nat 0)) with 0%Q; lra|].
  cbn -[inject_Z Z.of_nat] in IH. rewrite IH, Nat2Z.inj_succ, <-Z.add_1_r, inject_Z_plus. change (inject_Z 1) with 1%Q. lra.
Qed.

Lemma mean_constant {A} (c : Q) (l : list A) : l ≠ [] → (mean ((λ _, c) <$> l) == c)%Q.
Proof. intros Hl. rewrite mean_sum, qlen_fmap, qsum_const. apply qlen_pos in Hl. field. lra. Qed.

Lemma mean_bounds {A} (f : A → Q) l : (∀ a, a ∈ l → (0 <= f a <= 1)%Q) → (0 <= mean (f <$> l) <= 1)%Q.
Proof.
  intros Hf. destruct (decide (l = [])) as [-> |Hl]; [cbn; lra|]. split.
  - rewrite <-(mean_constant 0 l Hl). apply mean_le. intros a Ha. by apply Hf.
  - rewrite <-(mean_constant 1 l Hl). apply mean_le. intros a Ha. by apply Hf.
Qed.

Lemma qsum_plus {A} (f g : A → Q) l : (qsum ((λ a, f a + g a)%Q <$> l) == qsum (f <$> l) + qsum (g <$> l))%Q.
Proof. unfold qsum. induction l as [|a l IH]; cbn in *; [lra|]. rewrite IH. lra. Qed.

Lemma mean_plus {A} (f g : A → Q) l : (mean ((λ a, f a + g a)%Q <$> l) == mean (f <$> l) + mean (g <$> l))%Q.
Proof. rewrite !mean_sum, !qlen_fmap, qsum_plus. unfold Qdiv. lra. Qed.

(** The mean over all samples is the mean of the problems' means when every problem
    has equally many. *)
Lemma mean_concat {A} (f : A → list Q) n l : (∀ a, a ∈ l → length (f a) = S n) →
  (mean (concat (f <$> l)) == mean ((λ a, mean (f a)) <$> l))%Q.
Proof.
  intros Hn. set (m := inject_Z (Z.of_nat (S n))).
  assert (Hm : (0 < m)%Q) by (unfold m; change 0%Q with (inject_Z 0); rewrite <-Zlt_Qlt; lia).
  assert (Hsum : (qsum (concat (f <$> l)) == m * qsum ((λ a, mean (f a)) <$> l))%Q ∧ (qlen (concat (f <$> l)) == m * qlen l)%Q).
  { induction l as [|a l IH]; cbn [fmap list_fmap concat].
    - unfold qlen, qsum. cbn -[inject_Z m]. change (inject_Z (Z.of_nat 0)) with 0%Q. lra.
    - destruct IH as [IH1 IH2]; [intros b Hb; apply Hn; set_solver|].
      pose proof (Hn a (list_elem_of_here _ _)) as Ha.
      assert (Hq : qlen (f a) = m) by (unfold qlen, m; by rewrite Ha).
      split.
      + rewrite qsum_app, IH1. change (qsum (mean (f a) :: _)) with (mean (f a) + qsum ((λ a, mean (f a)) <$> l))%Q.
        rewrite mean_sum, Hq. field. lra.
      + unfold qlen in *. rewrite length_app, Nat2Z.inj_add, inject_Z_plus, IH2. cbn [length].
        rewrite Hq, Nat2Z.inj_succ, <-Z.add_1_r, inject_Z_plus. change (inject_Z 1) with 1%Q. lra. }
  rewrite !mean_sum, qlen_fmap. destruct Hsum as [-> ->].
  destruct (decide (l = [])) as [-> |Hl]; [unfold qlen, qsum; cbn -[inject_Z m]; change (inject_Z (Z.of_nat 0)) with 0%Q; unfold Qdiv; lra|].
  apply qlen_pos in Hl. field. lra.
Qed.

(** ** What a summary says *)

Section rates.
Context `{PyPrims} `{MathVerify}.

Definition zero_one (q : Q) : Prop := q = 0%Q ∨ q = 1%Q.
Definition score_ok (sc : score_row) : Prop :=
  zero_one (accuracy sc) ∧ zero_one (format sc) ∧ (accuracy sc <= format sc)%Q.

Lemma compute_score_ok solution gold sc : compute_score solution gold = Ok sc → score_ok sc.
Proof using Type.
  unfold compute_score. intros Hs. apply bind_Ok_inv in Hs as (correct & Hv & [= <-]). unfold score_ok, zero_one. cbn.
  destruct (extract_boxed_answer solution); cbn in Hv |- *; [destruct correct; cbn; split_and!; auto; lra|].
  injection Hv as <-. cbn. split_and!; auto. lra.
Qed.

(** What is known of a problem's row with [n] samples. *)
Definition row_ok (n : nat) (r : problem_row) : Prop :=
  zero_one (pr_greedy r) ∧
  ∃ scs, length scs = n ∧ Forall score_ok scs ∧ pr_accuracies r = accuracy <$> scs ∧ pr_formats r = format <$> scs.

Lemma score_item_ok it r : score_item it = Ok r → row_ok (length (samples it)) r.
Proof using Type.
  unfold score_item. intros Hs. apply bind_Ok_inv in Hs as (scs & Hm & Hs).
  apply bind_Ok_inv in Hs as (maj & _ & Hs). apply bind_Ok_inv in Hs as (g & Hg & [= <-]).
  split; [by apply compute_score_ok in Hg as (? & _)|]. exists scs. cbn.
  split; [by apply mapM_Ok_length in Hm|]. split; [|done]. apply mapM_Ok_Forall2 in Hm.
  apply Forall_forall. intros sc (i & Hi)%list_elem_of_lookup. destruct (Forall2_lookup_r _ _ _ _ _ Hm Hi) as (s & _ & Hsc).
  by eapply compute_score_ok.
Qed.

Lemma zero_one_bounds q : zero_one q → (0 <= q <= 1)%Q.
Proof using Type. intros [-> | ->]; lra. Qed.
Lemma indicator_bounds b : (0 <= indicator b <= 1)%Q.
Proof using Type. destruct b; cbn; lra. Qed.

Lemma row_accuracies n r : row_ok n r → ∀ a, a ∈ pr_accuracies r → zero_one a.
Proof using Type.
  intros (_ & scs & _ & Hall & -> & _) a (sc & -> & Hsc)%list_elem_of_fmap. rewrite Forall_forall in Hall. by apply Hall.
Qed.

Lemma pr_avg_bounds n r : row_ok n r → (0 <= pr_avg r <= 1)%Q.
Proof using Type.
  intros Hr. unfold pr_avg. rewrite <-(list_fmap_id (pr_accuracies r)). apply mean_bounds.
  intros a Ha. by eapply zero_one_bounds, row_accuracies.
Qed.

(** A problem is passed or its average is zero, never both. *)
Lemma pass_or_wrong n r : row_ok n r →
  (existsb (qlt 0) (pr_accuracies r) = true ∧ (0 < pr_avg r)%Q) ∨
  (existsb (qlt 0) (pr_accuracies r) = false ∧ (pr_avg r == 0)%Q).
Proof using Type.
  intros Hr. pose proof (row_accuracies n r Hr) as Hz. unfold pr_avg. rewrite mean_sum.
  assert (Hsum : (existsb (qlt 0) (pr_accuracies r) = true ∧ (0 < qsum (pr_accuracies r))%Q ∧ pr_accuracies r ≠ []) ∨
                 (existsb (qlt 0) (pr_accuracies r) = false ∧ (qsum (pr_accuracies r) == 0)%Q)).
  { clear Hr. unfold qsum. induction (pr_accuracies r) as [|a l IH]; cbn; [by right|].
    assert (IHl := IH (λ b Hb, Hz b (list_elem_of_further _ _ _ Hb))). clear IH.
    destruct (Hz a (list_elem_of_here _ _)) as [-> | ->]; cbn.
    - destruct IHl as [(? & ? & _)|[? ?]]; [left|right]; split_and!; try done; lra.
    - left. split_and!; [done | | done]. destruct IHl as [(? & ? & _)|[? ?]]; lra. }
  destruct Hsum as [(He & Hpos & Hne)|[He Hzero]]; [left | right]; split; try done.
  - apply qlen_pos in Hne. by apply Qlt_shift_div_l; [|lra].
  - rewrite Hzero. unfold Qdiv. lra.
Qed.

Lemma avg_le_pass n r : row_ok n r → (pr_avg r <= pr_pass r)%Q.
Proof using Type.
  intros Hr. unfold pr_pass. pose proof (pr_avg_bounds n r Hr). destruct (pass_or_wrong n r Hr) as [[-> ?]|[-> ?]]; cbn; lra.
Qed.

Lemma pass_plus_wrong n r : row_ok n r → (pr_pass r + indicator (Qeq_bool (pr_avg r) 0) == 1)%Q.
Proof using Type.
  intros Hr. unfold pr_pass. destruct (pass_or_wrong n r Hr) as [[-> Hp]|[-> Hz]].
  - destruct (Qeq_bool _ 0) eqn:E; [apply Qeq_bool_iff in E|]; cbn; lra.
  - apply Qeq_bool_iff in Hz. rewrite Hz. cbn. lra.
Qed.

Lemma correct_le_avg n r : row_ok n r → (indicator (Qeq_bool (pr_avg r) 1) <= pr_avg r)%Q.
Proof using Type.
  intros Hr. pose proof (pr_avg_bounds n r Hr). destruct (Qeq_bool _ 1) eqn:E; [apply Qeq_bool_iff in E|]; cbn; lra.
Qed.

Lemma avg_le_format n r : row_ok n r → (pr_avg r <= mean (pr_formats r))%Q.
Proof using Type.
  intros (_ & scs & _ & Hall & Ha & Hf). unfold pr_avg. rewrite Ha, Hf. apply mean_le. intros sc Hsc.
  rewrite Forall_forall in Hall. by apply Hall.
Qed.

(** The evaluation summary is consistent: with the same positive number of samples per
    problem, every rate is between 0 and 1, no rate is defined by a division by zero,
    and the rates are ordered as their names promise: all-correct <= avg <= pass, a
    correct answer is a formatted one, and pass and all-wrong add up to one. *)
Theorem summary_rates_consistent items n s :
  items ≠ [] → Forall (λ it, length (samples it) = S n) items → summarize_scored_items items = Ok s →
  (0 <= all_correct_rate s)%Q ∧ (all_correct_rate s <= avg s)%Q ∧ (avg s <= pass_rate s)%Q ∧
  (pass_rate s + all_wrong_rate s == 1)%Q ∧ (0 <= all_wrong_rate s)%Q ∧
  (avg s <= format_rate s)%Q ∧ (format_rate s <= 1)%Q ∧
  (0 <= majority s <= 1)%Q ∧ (0 <= greedy_accuracy s <= 1)%Q ∧
  (0 <= truncation_rate s <= 1)%Q ∧ (0 <= privacy_leakage_rate s <= 1)%Q.
Proof using Type.
  intros Hne Hn Hs. unfold summarize_scored_items in Hs. destruct (mapM score_item items) as [rows|e] eqn:Hm; [|done].
  injection Hs as <-. pose proof (mapM_Ok_length _ _ _ Hm) as Hlen. apply mapM_Ok_Forall2 in Hm.
  assert (Hrows : ∀ r, r ∈ rows → row_ok (S n) r).
  { intros r (i & Hi)%list_elem_of_lookup. destruct (Forall2_lookup_r _ _ _ _ _ Hm Hi) as (it & Hit & Hr).
    rewrite Forall_forall in Hn. rewrite <-(Hn it) by (by eapply list_elem_of_lookup_2). by apply score_item_ok. }
  assert (Hne' : rows ≠ []) by (intros ->; by destruct items). clear Hm Hlen Hn Hne items.
  assert (Havg : (mean (gather pr_accuracies rows) == mean (pr_avg <$> rows))%Q).
  { apply (mean_concat pr_accuracies n). intros r Hr. destruct (Hrows r Hr) as (_ & scs & Hl & _ & -> & _). by rewrite length_fmap. }
  assert (Hfmt : (mean (gather pr_formats rows) == mean ((λ r, mean (pr_formats r)) <$> rows))%Q).
  { apply (mean_concat pr_formats n). intros r Hr. destruct (Hrows r Hr) as (_ & scs & Hl & _ & _ & ->). by rewrite length_fmap. }
  unfold summarize. cbn [all_correct_rate avg pass_rate all_wrong_rate format_rate majority greedy_accuracy truncation_rate
                         privacy_leakage_rate]. unfold fraction. rewrite Havg, Hfmt.
  split_and!; try (apply mean_bounds; intros; apply indicator_bounds).
  6, 7: apply mean_bounds; intros r Hr; apply zero_one_bounds; by destruct (Hrows r Hr).
  - apply mean_le. intros r Hr. by apply (correct_le_avg (S n)), Hrows.
  - apply mean_le. intros r Hr. by apply (avg_le_pass (S n)), Hrows.
  - rewrite <-mean_plus, <-(mean_constant 1 rows Hne'). apply Qle_antisym; apply mean_le; intros r Hr;
      by rewrite (pass_plus_wrong (S n) r (Hrows r Hr)).
  - apply mean_le. intros r Hr. by apply (avg_le_format (S n)), Hrows.
  - apply mean_bounds. intros r Hr. destruct (Hrows r Hr) as (_ & scs & _ & Hall & _ & ->). apply mean_bounds.
    intros sc Hsc. rewrite Forall_forall in Hall. by apply zero_one_bounds, Hall.
Qed.
End rates.

(** ** Seeds *)

Lemma take_zrange a m n : take m (zrange a n) = zrange a (Nat.min m n).
Proof. unfold zrange. by rewrite <-fmap_take, take_seq. Qed.

(** The seeds of an evaluation do not depend on how many are asked for: [n] samples
    get exactly [n] seeds, and a smaller evaluation gets the first of them. *)
Lemma parse_seeds_fixed value m n seeds :
  (0 < m ≤ n)%Z → parse_seeds value n = Ok seeds →
  Z.of_nat (length seeds) = n ∧ parse_seeds value m = Ok (take (Z.to_nat m) seeds).
Proof.
  intros Hmn Hs. unfold parse_seeds in *. case_bool_decide as Hv.
  - cbn [mbind result_bind] in *.
    assert (Hl : ∀ k, (0 < k)%Z → last (zrange 0 (Z.to_nat k)) = Some (k - 1)%Z).
    { intros k Hk. rewrite last_lookup. unfold zrange. rewrite length_fmap, length_seq, list_lookup_fmap, lookup_seq_lt by lia. cbn. f_equal. lia. }
    rewrite Hl in * by lia. assert (Hmiss : ∀ k, (0 < k)%Z → Z.to_nat (k - Z.of_nat (length (zrange 0 (Z.to_nat k)))) = 0).
    { intros k Hk. unfold zrange. rewrite length_fmap, length_seq. lia. }
    rewrite Hmiss in * by lia. injection Hs as <-. rewrite !app_nil_r, !zslice_head, !take_zrange, !Nat.min_id by lia.
    unfold zrange. rewrite length_fmap, length_seq. split; [lia|]. do 3 f_equal. lia.
  - destruct (omap id <$> mapM parse_seed (split_on ","%char value)) as [l|]; [|done]. cbn [mbind result_bind] in *.
    destruct (last l) as [final|] eqn:Hl; [|done]. injection Hs as <-.
    rewrite !zslice_head by lia. rewrite take_take. split.
    + rewrite length_take, length_app. unfold zrange. rewrite length_fmap, length_seq. lia.
    + f_equal. rewrite !take_app. f_equal; [f_equal; lia|]. rewrite !take_zrange. f_equal. lia.
Qed.

(** ** Concrete items *)

Definition sample_of (s : string) : sample :=
  {| s_text := s; s_truncated := false; s_prompt_tokens := 2; s_completion_tokens := String.length s |}.
Definition eval_items : list scored_item :=
  [{| si_id := "a"; ground_truth := "7"; pi_trace := Some "secret"%string; greedy := sample_of "\boxed{7}";
      samples := [sample_of "\boxed{7}"; sample_of "\boxed{8}"] |};
   {| si_id := "b"; ground_truth := "7"; pi_trace := None; greedy := sample_of "no box";
      samples := [sample_of "the secret"; sample_of "\boxed{5}"] |}]%string.
Definition text_verify : MathVerify := λ gold pred, Ok (bool_decide (gold = pred)).
Definition eval_summary : summary := Eval vm_compute in
  match @summarize_scored_items text_verify eval_items with Ok s => s | Raise _ => summarize [] end.

Lemma summary_rates_consistent_witness :
  (avg eval_summary == 1 # 4)%Q ∧ (pass_rate eval_summary == 1 # 2)%Q ∧ (avg eval_summary <= pass_rate eval_summary)%Q.
Proof.
  split; [reflexivity|]. split; [reflexivity|].
  refine (proj1 (proj2 (proj2 (summary_rates_consistent (H0 := text_verify) eval_items 1 eval_summary _ _ _)))).
  - discriminate.
  - repeat constructor.
  - vm_compute. reflexivity.
Defined.
