(* ===== verification/HparamMatrix.v ===== *)
(** * Choosing hyperparameters

    [src/tools/extpi_rlsd/hparam_matrix.py]: the environment of a run of the matrix,
    the summary of a run's metrics with its hard gates, the proxy score against a
    baseline, the summary table and the selection of the best runs.  CSV files are
    lists of string rows, metric files lists of records; numbers are exact rationals
    with one non-finite value. *)

From S2P Require Import Prelude PyStr PyNum PyDict PyRat Json.
From Stdlib Require Import QArith Qabs Lqa.
Local Close Scope Q_scope.
#[local] Open Scope py_scope.

(** A row read by [csv.DictReader]. *)
Abbreviation csv_row := (list (string * string)).

Definition cell (k : string) (row : csv_row) : string := default ""%string (dget k row).
(** [row.get(k) or v]. *)
Definition cell_or (k v : string) (row : csv_row) : string :=
  if bool_decide (cell k row = ""%string) then v else cell k row.

(** ** The matrix *)

Definition DEFAULT_PI_TRACE_FIELD : string := "qwen32b_pi_trace".

Definition bool_env (value : string) (def : bool) : string :=
  let show (b : bool) := if b then "True"%string else "False"%string in
  if bool_decide (value = ""%string) then show def
  else show (bool_decide (lower (strip value) ∈ ["1"; "true"; "yes"; "y"]%string)).

Definition verified_name (trace_field : string) : string :=
  if endswith "_trace" trace_field then replace "_trace" "_verified" trace_field else trace_field +:+ "_verified".

Section matrix.
Context (expandvars : string → string).

Definition expand (value : string) : string := expandvars (strip value).

Definition load_matrix (rows : list csv_row) : result (list csv_row) :=
  let rows := (λ row : csv_row, (λ kv, (kv.1, expand kv.2)) <$> row) <$> rows in
  require negb (Nat.eqb (length rows) 0) else ValueError "Empty hyperparameter matrix" ;; Ok rows.

Definition get_run (rows : list csv_row) (run_id : string) : result csv_row :=
  match List.filter (λ row, bool_decide (dget "run_id" row = Some run_id)) rows with
  | [] => Raise (ValueError "Unknown RUN_ID")
  | [row] => Ok row
  | _ => Raise (ValueError "Duplicate RUN_ID")
  end.

Definition env_for_run (row : csv_row) : result csv_row :=
  let seed := cell_or "seed" "42" row in
  run_id ← of_option (KeyError "run_id") (dget "run_id" row);
  let trace := cell_or "pi_trace_field" DEFAULT_PI_TRACE_FIELD row in
  let batch := cell_or "train_batch_size" "16" row in
  Ok ((λ kv, (kv.1, expand kv.2)) <$>
    [("HPARAM_RUN_ID", run_id);
     ("EXPERIMENT_NAME", cell_or "experiment_name" ("UPOD-SELF-q4-ot800-hparam-" +:+ run_id +:+ "-s" +:+ seed) row);
     ("MODEL_PATH", cell_or "model_path" "Qwen/Qwen3-4B-Thinking-2507" row);
     ("TRAIN_FILE", cell_or "train_file" "${EXTPI_DATA_ROOT}/datasets/splits/frontier_mvp/mvp_train.parquet" row);
     ("VAL_FILE", cell_or "val_file" "${EXTPI_DATA_ROOT}/datasets/splits/frontier_mvp/matched_dev.parquet" row);
     ("RLSD_LAMBDA", cell_or "rlsd_lambda" "0.2" row);
     ("RLSD_LAMBDA_WARMUP_STEPS", cell_or "rlsd_lambda_warmup_steps" "0" row);
     ("RLSD_LAMBDA_DECAY_STEPS", cell_or "rlsd_lambda_decay_steps" "0" row);
     ("RLSD_CLIP_RANGE", cell_or "rlsd_clip_range" (cell_or "rlsd_reweight_clip_range" "0.1" row) row);
     ("RLSD_NEGATIVE_ONLY", bool_env (cell "rlsd_negative_only" row) true);
     ("RLSD_TOKEN_MASK", cell_or "rlsd_token_mask" "4k+ans" row);
     ("TRAIN_BATCH_SIZE", batch);
     ("PPO_MINI_BATCH_SIZE", cell_or "ppo_mini_batch_size" batch row);
     ("ROLLOUT_N", cell_or "rollout_n" "4" row);
     ("ACTOR_LR", cell_or "actor_lr" "5e-7" row);
     ("TEACHER_UPDATE_MODE", cell_or "teacher_update_mode" "periodic_snapshot" row);
     ("TEACHER_SYNC_INTERVAL", cell_or "teacher_sync_interval" "10" row);
     ("MAX_RESPONSE_LENGTH", cell_or "max_response_length" "6144" row);
     ("TEACHER_MAX_PROMPT_LENGTH", cell_or "teacher_max_prompt_length" "12288" row);
     ("TOTAL_TRAINING_STEPS", cell_or "total_training_steps" "25" row);
     ("SAVE_FREQ", cell_or "save_freq" "25" row);
     ("TEST_FREQ", cell_or "test_freq" "25" row);
     ("SEED", seed);
     ("PI_TRACE_FIELD", trace);
     ("PI_VERIFIED_FIELD", cell_or "pi_verified_field" (verified_name trace) row);
     ("HPARAM_EVAL_MAX_ROWS", cell_or "eval_max_rows" "128" row);
     ("HPARAM_EVAL_NUM_SAMPLES", cell_or "eval_num_samples" "4" row);
     ("HPARAM_EVAL_SEEDS", cell_or "eval_seeds" "0,1,2,3" row);
     ("HPARAM_EVAL_MAX_NEW_TOKENS", cell_or "eval_max_new_tokens" "8192" row)]%string).
End matrix.

(** ** Metrics and gates *)

(** A logged value: a number or a boolean, infinity or NaN, or something else. *)
Inductive metric := Num (q : Q) | NonFin | NotNumber.
Abbreviation record := (list (string * metric)).

(** The first of the keys with a finite number. *)
Fixpoint metric_value (data : record) (keys : list string) : option Q :=
  match keys with
  | [] => None
  | k :: keys => match dget k data with Some (Num q) => Some q | _ => metric_value data keys end
  end.
Definition metric_or_zero (data : record) (keys : list string) : Q := default 0%Q (metric_value data keys).

Definition hmean (l : list Q) : Q := match l with [] => 0%Q | _ => (qsum l / qlen l)%Q end.

Definition window : nat := 5.
Definition rolling_violation (values : list Q) (threshold : Q) : bool :=
  if Nat.ltb (length values) window then false
  else existsb (λ i, qlt threshold (hmean (slice i (i + window) values))) (seq 0 (length values - window + 1)).

(** The loop of [_zero_grad_violation]. *)
Fixpoint zero_streak (streak : nat) (values : list Q) : bool :=
  match values with
  | [] => false
  | v :: values =>
      if Qeq_bool v 0 then if Nat.leb window (S streak) then true else zero_streak (S streak) values
      else zero_streak 0 values
  end.
Definition zero_grad_violation (values : list Q) : bool := zero_streak 0 values.

Definition LEAK : list string := ["privacy/student_prompt_pi_leak_count"]%string.
Definition PROMPT_TRUNC : list string := ["extpi/pi_teacher_prompt_truncated_count"]%string.
Definition SIGN_FLIP : list string := ["actor/rlsd/sign_flip_count"; "rlsd/sign_flip_count"]%string.

Record gathered := {
  group_values : list Q; weight_std_values : list Q; clip_totals : list Q; truncation_values : list Q;
  grad_values : list Q; leak_count : Q; prompt_trunc_count : Q; sign_flip_count : Q; non_finite : bool }.
Definition nothing_gathered : gathered :=
  {| group_values := []; weight_std_values := []; clip_totals := []; truncation_values := []; grad_values := [];
     leak_count := 0; prompt_trunc_count := 0; sign_flip_count := 0; non_finite := false |}.

Definition qmax (a b : Q) : Q := if qlt a b then b else a.
Definition is_nonfinite (m : metric) : bool := match m with NonFin => true | _ => false end.
Definition opt_snoc (l : list Q) (v : option Q) : list Q := match v with Some q => l ++ [q] | None => l end.

Definition gather_record (g : gathered) (data : record) : gathered :=
  let clip_low := metric_or_zero data ["actor/rlsd/clip_low_ratio"; "rlsd/clip_low_ratio"]%string in
  let clip_high := metric_or_zero data ["actor/rlsd/clip_high_ratio"; "rlsd/clip_high_ratio"]%string in
  {| group_values := opt_snoc (group_values g) (metric_value data ["train/group_nonzero_std_ratio"]%string);
     weight_std_values := opt_snoc (weight_std_values g) (metric_value data ["actor/rlsd/weight_std"; "rlsd/weight_std"]%string);
     clip_totals := (if Qeq_bool clip_low 0 && Qeq_bool clip_high 0 then clip_totals g
                     else clip_totals g ++ [(clip_low + clip_high)%Q]);
     truncation_values := opt_snoc (truncation_values g)
       (metric_value data ["response_length/clip_ratio"; "train/truncation_proxy_last_token_ratio"]%string);
     grad_values := opt_snoc (grad_values g) (metric_value data ["actor/grad_norm"]%string);
     leak_count := qmax (leak_count g) (metric_or_zero data LEAK);
     prompt_trunc_count := qmax (prompt_trunc_count g) (metric_or_zero data PROMPT_TRUNC);
     sign_flip_count := qmax (sign_flip_count g) (metric_or_zero data SIGN_FLIP);
     non_finite := non_finite g || existsb is_nonfinite data.*2 |}.

Definition violations (g : gathered) : list string :=
  let when (b : bool) (name : string) := if b then [name] else [] in
  when (qlt 0 (leak_count g)) "pi_leak"%string ++ when (qlt 0 (prompt_trunc_count g)) "pi_prompt_truncation"%string ++
  when (qlt 0 (sign_flip_count g)) "sign_flip"%string ++ when (non_finite g) "non_finite_metric"%string ++
  when (rolling_violation (clip_totals g) (1 # 4)) "rlsd_clip_total"%string ++
  when (rolling_violation (truncation_values g) (1 # 5)) "response_truncation"%string ++
  when (zero_grad_violation (grad_values g)) "zero_grad_norm"%string.

Definition summarize_metrics (records : list record) : dict :=
  let g := foldl gather_record nothing_gathered records in
  [("group_nonzero_std_ratio_mean", JFloat (hmean (group_values g)));
   ("rlsd_weight_std_mean", JFloat (hmean (weight_std_values g)));
   ("rlsd_clip_total_mean", JFloat (hmean (clip_totals g)));
   ("privacy_leak_count", JFloat (leak_count g)); ("pi_prompt_trunc_count", JFloat (prompt_trunc_count g));
   ("hard_gate_violation", JStr (str_join ";" (violations g)))]%string.

(** ** The proxy score *)

Section selection.
Context `{PyPrims}.

Definition number_of (k : string) (payload : dict) : result Q := py_float (get_default k (JFloat 0) payload).

(** What a baseline adds: the length penalty and the reasons for a veto. *)
Definition against_baseline (base : dict) (fmt truncation mean_len : Q) : result (Q * list string) :=
  base_len ← number_of "mean_response_length" base;
  base_fmt ← number_of "format_rate" base;
  base_trunc ← number_of "truncation_rate" base;
  Ok (if qlt 0 base_len then (Qabs (mean_len - base_len) / base_len)%Q else 0%Q,
      (if qlt fmt (base_fmt - (2 # 100)) then ["format_drop"%string] else []) ++
      (if qlt (base_trunc + (5 # 100)) truncation then ["truncation_increase"%string] else [])).

Definition proxy_score (eval : dict) (baseline : option dict) : result dict :=
  avg ← number_of "avg" eval;
  majority ← number_of "majority" eval;
  pass_at ← number_of "pass" eval;
  greedy ← number_of "greedy_accuracy" eval;
  fmt ← number_of "format_rate" eval;
  truncation ← number_of "truncation_rate" eval;
  mean_len ← number_of "mean_response_length" eval;
  '(length_penalty, veto) ← (match baseline with
                             | Some base => against_baseline base fmt truncation mean_len
                             | None => Ok (0%Q, [])
                             end);
  let score := ((40 # 100) * avg + (25 # 100) * majority + (20 # 100) * pass_at + (10 # 100) * greedy
                + (5 # 100) * fmt - (10 # 100) * truncation - (3 # 100) * length_penalty)%Q in
  Ok [("ProxyScore", JFloat score);
      ("ranking_score", JFloat (score - match veto with [] => 0 | _ => 1 end)%Q);
      ("selection_veto", JStr (str_join ";" veto));
      ("baseline_missing", JBool (match baseline with Some _ => false | None => true end))]%string.

Definition checkpoint_step (checkpoint : string) : string :=
  if startswith "step_" checkpoint then replace "step_" "" checkpoint else checkpoint.

Definition build_summary_row (run_id : string) (records : list record) (eval : dict) (baseline : option dict) : result dict :=
  score ← proxy_score eval baseline;
  avg ← number_of "avg" eval;
  majority ← number_of "majority" eval;
  pass_at ← number_of "pass" eval;
  greedy ← number_of "greedy_accuracy" eval;
  fmt ← number_of "format_rate" eval;
  truncation ← number_of "truncation_rate" eval;
  mean_len ← number_of "mean_response_length" eval;
  Ok ([("run_id", JStr run_id);
       ("step", JStr (checkpoint_step (py_str (get_default "checkpoint" (JStr "") eval))));
       ("avg@4", JFloat avg); ("majority@4", JFloat majority); ("pass@4", JFloat pass_at); ("greedy", JFloat greedy);
       ("format", JFloat fmt); ("truncation", JFloat truncation); ("mean_len", JFloat mean_len)]%string
      ++ score ++ summarize_metrics records).

(** ** The summary table *)

Definition SUMMARY_FIELDS : list string :=
  ["run_id"; "step"; "avg@4"; "majority@4"; "pass@4"; "greedy"; "format"; "truncation"; "mean_len"; "ProxyScore";
   "ranking_score"; "group_nonzero_std_ratio_mean"; "rlsd_weight_std_mean"; "rlsd_clip_total_mean"; "privacy_leak_count";
   "pi_prompt_trunc_count"; "hard_gate_violation"; "selection_veto"; "baseline_missing"]%string.

(** What [csv.DictWriter] writes for a value. *)
Definition csv_text (v : json) : string := match v with JNull => ""%string | _ => py_str v end.

(** The rows of the file after [write_summary_csv]: an earlier row of the same run
    and step is replaced. *)
Definition same_run (row : dict) (old : csv_row) : bool :=
  bool_decide (dget "run_id" old = Some (py_str (get "run_id" row))) && bool_decide (dget "step" old = Some (py_str (get "step" row))).
Definition write_summary_csv (rows : list csv_row) (row : dict) : list csv_row :=
  List.filter (λ old, negb (same_run row old)) rows ++
  [(λ f, (f, csv_text (get_default f (JStr "") row))) <$> SUMMARY_FIELDS].

(** ** [select-top] *)

Definition not_vetoed (row : csv_row) : bool :=
  bool_decide (cell "hard_gate_violation" row = ""%string) && bool_decide (cell "selection_veto" row = ""%string).
Definition rank_key (row : csv_row) : result Q :=
  let text := if bool_decide (cell "ranking_score" row = ""%string) then cell "ProxyScore" row else cell "ranking_score" row in
  if bool_decide (text = ""%string) then Ok 0%Q
  else of_option (ValueError "could not convert string to float") (PyNum.float_of_str text).

(** [eligible.sort(key=..., reverse=True)] keeps the order of equal keys. *)
Definition select_top (rows : list csv_row) (top_k : Z) : result (list csv_row) :=
  let ok := List.filter not_vetoed rows in
  keys ← mapM rank_key ok;
  Ok (zslice 0 top_k (snd <$> sort_by (λ a b, qlt b.1 a.1) (zip keys ok))).
Definition cmd_select_top (rows : list csv_row) (top_k : Z) : result (list string) :=
  chosen ← select_top rows top_k;
  mapM (λ row, of_option (KeyError "run_id") (dget "run_id" row)) chosen.
End selection.

(** ** The gates *)

Lemma zero_streak_spec values : ∀ streak, streak < window →
  zero_streak streak values = true ↔
  (∃ pre post, values = pre ++ post ∧ length pre + streak = window ∧ Forall (λ v, v == 0)%Q pre) ∨
  (∃ pre mid post, values = pre ++ mid ++ post ∧ length mid = window ∧ Forall (λ v, v == 0)%Q mid).
Proof.
  induction values as [|v values IH]; intros streak Hs; cbn [zero_streak].
  - split; [done|]. intros [(pre & post & Hv & Hl & _)|(pre & mid & post & Hv & Hl & _)].
    + symmetry in Hv. apply app_nil in Hv as [-> _]. cbn in Hl. lia.
    + symmetry in Hv. apply app_nil in Hv as [_ Hv]. apply app_nil in Hv as [-> _]. cbn in Hl. unfold window in Hl. lia.
  - assert (Hlater : (∃ pre mid post, values = pre ++ mid ++ post ∧ length mid = window ∧ Forall (λ v, v == 0)%Q mid) →
                     ∃ pre mid post, v :: values = pre ++ mid ++ post ∧ length mid = window ∧ Forall (λ v, v == 0)%Q mid).
    { intros (pre & mid & post & -> & ? & ?). by exists (v :: pre), mid, post. }
    destruct (Qeq_bool v 0) eqn:Ev.
    + apply Qeq_bool_iff in Ev. destruct (Nat.leb window (S streak)) eqn:Ew.
      * split; [|done]. intros _. left. exists [v], values. apply Nat.leb_le in Ew. cbn. split_and!; [done | lia | by constructor].
      * apply Nat.leb_gt in Ew. rewrite IH by done. split.
        -- intros [(pre & post & -> & Hl & Hz)|Hl]; [left | right; by apply Hlater].
           exists (v :: pre), post. cbn. split_and!; [done | lia | by constructor].
        -- intros [(pre & post & Heq & Hl & Hz)|(pre & mid & post & Heq & Hl & Hz)].
           ++ destruct pre as [|v' pre]; [cbn in Hl; lia|]. injection Heq as <- ->. left. exists pre, post. cbn in Hl.
              apply Forall_cons in Hz as [_ Hz]. split_and!; [done | lia | done].
           ++ destruct pre as [|v' pre]; [|injection Heq as <- ->; right; by exists pre, mid, post].
              destruct mid as [|m mid]; [done|]. injection Heq as <- ->. left. cbn in Hl. apply Forall_cons in Hz as [_ Hz].
              exists (take (window - S streak) mid), (drop (window - S streak) mid ++ post).
              split_and!; [by rewrite (assoc_L (++)), take_drop | rewrite length_take; lia | by apply Forall_take].
    + assert (¬ (v == 0)%Q) by (intros E; apply Qeq_bool_iff in E; congruence). rewrite IH by (unfold window; lia). split.
      * intros [(pre & post & -> & Hl & Hz)|Hl]; right; [|by apply Hlater].
        exists [v], pre, post. split_and!; [done | lia | done].
      * intros [(pre & post & Heq & Hl & Hz)|(pre & mid & post & Heq & Hl & Hz)].
        -- destruct pre as [|v' pre]; [cbn in Hl; unfold window in *; lia|]. injection Heq as <- _. by apply Forall_cons in Hz as [? _].
        -- destruct pre as [|v' pre]; [|injection Heq as <- ->; right; by exists pre, mid, post].
           destruct mid as [|m mid]; [done|]. injection Heq as <- _. by apply Forall_cons in Hz as [? _].
Qed.

(** The streak loop finds five consecutive zero gradients, and nothing else. *)
Lemma zero_grad_violation_iff values :
  zero_grad_violation values = true ↔
  ∃ pre mid post, values = pre ++ mid ++ post ∧ length mid = window ∧ Forall (λ v, v == 0)%Q mid.
Proof.
  unfold zero_grad_violation. rewrite zero_streak_spec by (unfold window; lia). split; [|by right].
  intros [(pre & post & -> & Hl & Hz)|?]; [|done]. exists [], pre, post. split_and!; [done | lia | done].
Qed.

(** ** Runs that must not be chosen *)

(** A record that shows a leak, a truncated privileged prompt, a flipped sign or a
    non-finite value. *)
Definition gated_record (data : record) : Prop :=
  (0 < metric_or_zero data LEAK)%Q ∨ (0 < metric_or_zero data PROMPT_TRUNC)%Q ∨
  (0 < metric_or_zero data SIGN_FLIP)%Q ∨ NonFin ∈ data.*2.

Definition gated (g : gathered) : Prop :=
  (0 < leak_count g)%Q ∨ (0 < prompt_trunc_count g)%Q ∨ (0 < sign_flip_count g)%Q ∨ non_finite g = true.

Lemma qmax_pos a b : (0 < qmax a b)%Q ↔ (0 < a)%Q ∨ (0 < b)%Q.
Proof.
  unfold qmax. destruct (qlt a b) eqn:E; [apply qlt_true in E | apply qlt_false in E]; split; try tauto; try (intros [?|?]; lra).
Qed.

Lemma gather_gated g data : gated (gather_record g data) ↔ gated g ∨ gated_record data.
Proof.
  unfold gated, gated_record, gather_record. cbn. rewrite !qmax_pos, orb_true_iff, existsb_exists.
  assert ((∃ x, In x data.*2 ∧ is_nonfinite x = true) ↔ NonFin ∈ data.*2) as ->; [|tauto].
  split; [intros ([] & Hin & Hx); try done; by apply list_elem_of_In | intros Hin; exists NonFin; by split; [apply list_elem_of_In|]].
Qed.

Lemma gathered_gated records : ∀ g, gated (foldl gather_record g records) ↔ gated g ∨ Exists gated_record records.
Proof.
  induction records as [|data records IH]; intros g; cbn [foldl]; [rewrite Exists_nil; tauto|].
  rewrite IH, gather_gated, Exists_cons. tauto.
Qed.

Lemma join_nonempty sep s l : s ≠ ""%string → str_join sep (s :: l) ≠ ""%string.
Proof. intros Hs. destruct s as [|c s]; [done|]. by destruct l. Qed.

Lemma gated_violation g : gated g → str_join ";" (violations g) ≠ ""%string.
Proof.
  unfold violations. intros Hg.
  destruct (qlt 0 (leak_count g)) eqn:E1; [by apply join_nonempty|].
  destruct (qlt 0 (prompt_trunc_count g)) eqn:E2; [by apply join_nonempty|].
  destruct (qlt 0 (sign_flip_count g)) eqn:E3; [by apply join_nonempty|].
  destruct (non_finite g) eqn:E4; [by apply join_nonempty|].
  apply qlt_false in E1, E2, E3. exfalso. destruct Hg as [?|[?|[?|?]]]; [lra..|congruence].
Qed.

Section chosen.
Context `{PyPrims}.

(** Selected rows come from the table, have neither violation nor veto, and are in
    the order of their scores. *)
Lemma select_top_spec rows top_k chosen :
  (0 ≤ top_k)%Z → select_top rows top_k = Ok chosen →
  Forall (λ r, r ∈ rows ∧ not_vetoed r = true) chosen ∧ length chosen ≤ Z.to_nat top_k ∧
  ∃ keys, Forall2 (λ k r, rank_key r = Ok k) keys chosen ∧ StronglySorted (λ a b, b <= a)%Q keys.
Proof using Type.
  intros Hk Hs. unfold select_top in Hs. apply bind_Ok_inv in Hs as (keys & Hm & [= <-]).
  set (ok := List.filter not_vetoed rows) in *. set (pairs := sort_by _ _).
  assert (Hz : ∀ l : list csv_row, zslice 0 top_k l = take (Z.to_nat top_k) l).
  { intros l. unfold zslice, slice, slice_bound. replace (top_k <? 0)%Z with false by lia. cbn. rewrite drop_0, Nat.sub_0_r.
    destruct (decide (Z.to_nat top_k ≤ length l)); [by rewrite Nat.min_l|]. rewrite Nat.min_r by lia. by rewrite !take_ge by lia. }
  rewrite Hz. apply mapM_Ok_length in Hm as Hlen. apply mapM_Ok_Forall2 in Hm.
  assert (Hpairs : Forall (λ p, rank_key p.2 = Ok p.1 ∧ p.2 ∈ rows ∧ not_vetoed p.2 = true) pairs).
  { unfold pairs. rewrite sort_by_perm. apply Forall_forall. intros [k r] Hin. apply list_elem_of_lookup in Hin as [i Hi].
    apply lookup_zip_Some in Hi as [Hki Hri]. pose proof (Forall2_lookup_lr _ _ _ _ _ _ Hm Hri Hki) as Hkey.
    apply list_elem_of_lookup_2, list_elem_of_In, filter_In in Hri as [Hr Hv]. cbn in *.
    split_and!; [done | by apply list_elem_of_In | done]. }
  split; [|split; [rewrite length_take; lia|]].
  - apply Forall_take, Forall_fmap. eapply Forall_impl; [exact Hpairs|]. by intros p (_ & ? & ?).
  - exists (take (Z.to_nat top_k) pairs.*1). split.
    + apply Forall2_take, Forall2_fmap, Forall_Forall2_diag. eapply Forall_impl; [exact Hpairs|]. by intros p (? & _).
    + assert (Hsorted : StronglySorted (λ a b, b <= a)%Q pairs.*1).
      { assert (Hss : StronglySorted (no_inversion (λ a b : Q * csv_row, qlt b.1 a.1)) pairs).
        { apply sort_by_sorted; intros ? ?; [|]; intros; unfold no_inversion in *; rewrite ?qlt_true, ?qlt_false in *; lra. }
        clear -Hss. induction Hss as [|p l _ IH Hall]; constructor; [done|]. apply Forall_fmap.
        eapply Forall_impl; [exact Hall|]. intros q Hq. by apply qlt_false. }
      clear -Hsorted. revert Hsorted. generalize (Z.to_nat top_k). induction pairs.*1 as [|k l IH]; intros [|n] Hs; cbn; try constructor.
      * apply StronglySorted_inv in Hs as [Hs _]. by apply IH.
      * apply StronglySorted_inv in Hs as [_ Hs]. by apply Forall_take.
Qed.

Lemma proxy_score_shape eval baseline score :
  proxy_score eval baseline = Ok score →
  ∃ a b c d, score = [("ProxyScore", a); ("ranking_score", b); ("selection_veto", c); ("baseline_missing", d)]%string.
Proof using Type.
  unfold proxy_score. intros Hs.
  do 7 (apply bind_Ok_inv in Hs as (? & _ & Hs)). apply bind_Ok_inv in Hs as ([? ?] & _ & [= <-]). by do 4 eexists.
Qed.

(** What the summary row of a run says where the selection looks. *)
Lemma summary_row_cells run_id records eval baseline row :
  build_summary_row run_id records eval baseline = Ok row →
  get "run_id" row = JStr run_id ∧
  get_default "hard_gate_violation" (JStr "") row =
    JStr (str_join ";" (violations (foldl gather_record nothing_gathered records))).
Proof using Type.
  unfold build_summary_row. intros Hs. apply bind_Ok_inv in Hs as (score & Hscore & Hs).
  apply proxy_score_shape in Hscore as (a & b & c & d & ->).
  do 7 (apply bind_Ok_inv in Hs as (? & _ & Hs)). injection Hs as <-.
  unfold summarize_metrics. set (g := foldl _ _ _). by split.
Qed.

(** A run that leaked privileged text into a student prompt, truncated a privileged
    prompt, flipped an advantage's sign or logged a non-finite value is never selected:
    once its summary row is written, over whatever table, the selection - however many
    runs it is asked for - contains no row of that run and step; what it contains has
    no violation and no veto, and comes in the order of the scores. *)
Theorem gated_run_not_selected rows run_id records eval baseline row top_k chosen :
  (0 ≤ top_k)%Z → build_summary_row run_id records eval baseline = Ok row → Exists gated_record records →
  select_top (write_summary_csv rows row) top_k = Ok chosen →
  Forall (λ r, not_vetoed r = true ∧ same_run row r = false) chosen ∧ length chosen ≤ Z.to_nat top_k ∧
  ∃ keys, Forall2 (λ k r, rank_key r = Ok k) keys chosen ∧ StronglySorted (λ a b, b <= a)%Q keys.
Proof using Type.
  intros Hk Hrow Hgated Hsel. destruct (select_top_spec _ _ _ Hk Hsel) as (Hall & Hlen & Hkeys).
  split; [|done]. eapply Forall_impl; [exact Hall|]. intros r [Hin Hok]. split; [done|].
  unfold write_summary_csv in Hin. apply elem_of_app in Hin as [Hin|Hin].
  - apply list_elem_of_In, filter_In in Hin as [_ Hin]. by apply negb_true_iff in Hin.
  - exfalso. apply list_elem_of_singleton in Hin as ->. apply summary_row_cells in Hrow as [_ Hgate].
    apply andb_true_iff in Hok as [Hok _]. apply bool_decide_eq_true in Hok.
    assert (Hcell : cell "hard_gate_violation" ((λ f, (f, csv_text (get_default f (JStr "") row))) <$> SUMMARY_FIELDS) =
                    csv_text (get_default "hard_gate_violation" (JStr "") row)) by done.
    rewrite Hcell, Hgate in Hok. cbn in Hok.
    apply (gated_violation (foldl gather_record nothing_gathered records)); [|done]. apply gathered_gated. by right.
Qed.
End chosen.

(** ** A concrete table *)

Definition plain_prims : PyPrims :=
  {| py_repr := λ v, match v with JFloat q => if Qeq_bool q 1 then "1.0"%string else "0.5"%string | _ => "?"%string end;
     float_of_str := PyNum.float_of_str; int_of_str := PyNum.int_of_str |}.
Definition leaky_records : list record := [[("actor/grad_norm", Num 1)]; [("privacy/student_prompt_pi_leak_count", Num 1)]]%string.
Definition good_row : csv_row := [("run_id", "R1"); ("step", "25"); ("ranking_score", "0.5")]%string.
Definition leaky_eval : dict := [("checkpoint", JStr "step_25"); ("avg", JFloat 1)]%string.
Definition leaky_row : dict := Eval vm_compute in
  match @build_summary_row plain_prims "R2" leaky_records leaky_eval None with Ok r => r | Raise _ => [] end.

Lemma gated_run_not_selected_witness :
  select_top (@write_summary_csv plain_prims [good_row] leaky_row) 2 = Ok [good_row] ∧
  Forall (λ r, not_vetoed r = true ∧ @same_run plain_prims leaky_row r = false) [good_row].
Proof.
  split; [vm_compute; reflexivity|].
  refine (proj1 (@gated_run_not_selected plain_prims [good_row] "R2" leaky_records leaky_eval None leaky_row 2 [good_row] _ _ _ _)).
  - done.
  - vm_compute. reflexivity.
  - apply Exists_cons_tl, Exists_cons_hd. by left.
  - vm_compute. reflexivity.
Defined.
