(* ===== verification/ToolParser.v ===== *)
(** * Tool parsers

    [src/verl/experimental/agent_loop/tool_parser.py]: how the text of a model becomes
    its content and its tool calls, for every registered parser.  The regular
    expressions are matchers of [PyRegex]; decoding, [json.loads], [json.dumps] and
    [ast.literal_eval] are parameters ([None] where they raise). *)

From S2P Require Import Prelude PyStr PyNum PyDict Json PyRegex ToolAgentLoop.
From Stdlib Require Import QArith.
Local Close Scope Q_scope.
#[local] Open Scope py_scope.

Abbreviation parsed := (string * list FunctionCall)%type.

(** ** Matchers *)

(** [left(.*?)right], the dot matching newlines: the text up to the first [right]. *)
Definition until (close s : string) : option (string * nat) :=
  n ← find close s; Some (stake n s, n + String.length close).
Definition between (opening close s : string) : option (string * nat) :=
  if startswith opening s then
    '(body, n) ← until close (sdrop (String.length opening) s); Some (body, String.length opening + n)
  else None.
(** The matcher whose matches [re.sub] replaces by nothing. *)
Definition erase {A} (m : string → option (A * nat)) (s : string) : option (string * nat) :=
  match m s with Some (_, n) => Some (EmptyString, n) | None => None end.
Definition erased {A} (m : string → option (A * nat)) (s : string) : string := sub (erase m) s.

(** [$] also matches before a newline that ends the text. *)
Definition chomp (s : string) : string := if endswith nl s then stake (String.length s - 1) s else s.
(** [left(.*?)right|left(.*?)$] (lazy) and [left(.*?)right|left( .* )$] (greedy). *)
Definition until_end (lazy : bool) (opening close s : string) : option (string * nat) :=
  match between opening close s with
  | Some m => Some m
  | None =>
      if startswith opening s then
        let rest := sdrop (String.length opening) s in
        let body := if lazy then chomp rest else rest in
        Some (body, String.length opening + String.length body)
      else None
  end.

Definition lspace (s : string) : nat := String.length s - String.length (lstrip s).

(** [left([^stop]+)right], where [right] starts with a stop character. *)
Definition run_until (stop : ascii → bool) (opening close s : string) : option (string * nat) :=
  if startswith opening s then
    let rest := sdrop (String.length opening) s in
    let name := span (λ c, negb (stop c)) rest in
    if negb (bool_decide (name = EmptyString)) && startswith close (sdrop (String.length name) rest) then
      Some (name, String.length opening + String.length name + String.length close)
    else None
  else None.
(** [left([^stop]+)right\s*(.*?)end]. *)
Definition named_block (skip_space : bool) (stop : ascii → bool) (opening close ending s : string)
    : option (string * string * nat) :=
  '(name, n) ← run_until stop opening close s;
  let k := if skip_space then lspace (sdrop n s) else 0 in
  '(body, m) ← until ending (sdrop (n + k) s);
  Some (name, body, n + k + m).

(** [re.search]: the leftmost match. *)
Definition search {A} (m : string → option (A * nat)) (s : string) : option A := head (findall m s).

Definition dquote : string := String (ascii_of_nat 34) EmptyString.
Definition is_dquote (c : ascii) : bool := bool_decide (nat_of_ascii c = 34).
Definition ends_tag (c : ascii) : bool := bool_decide (c = ">"%char) || bool_decide (nat_of_ascii c = 10).
Definition word_class (c : ascii) : bool :=
  let n := nat_of_ascii c in
  (Nat.leb 48 n && Nat.leb n 57) || (Nat.leb 65 n && Nat.leb n 90) || (Nat.leb 97 n && Nat.leb n 122) || Nat.eqb n 95.

(** Text before the first [tag]; the whole text if there is none. *)
Definition before (tag s : string) : string := match find tag s with Some n => stake n s | None => s end.

(** ** Schemas *)

(** A function tool of the request, with the dumped property schemas. *)
Record tool_schema := {
  ts_type : string; ts_name : string; ts_properties : list (string * dict); ts_required : list string }.

Record tok := {
  decode : list Z → string;                        (** with the tokenizer's defaults *)
  decode_special : list Z → string;                (** [skip_special_tokens=False] *)
  pad_token : string; convert_tokens_to_ids : string → json }.

Section parsers.
Context `{PyPrims} (json_loads : string → option json) (json_dumps : json → option string)
        (literal_eval : string → option json).

(** [FunctionCall(name=name, arguments=json.dumps(arguments))]. *)
Definition make_call (name : string) (arguments : json) (id : option string) : option FunctionCall :=
  args ← json_dumps arguments; Some {| fc_name := name; fc_arguments := args; fc_tool_call_id := id |}.

(** [json.loads(value)], or the text itself. *)
Definition loads_or_text (raw : string) : json := let v := strip raw in default (JStr v) (json_loads v).

(** The dict of the pairs that a pattern finds; a later key replaces an earlier one. *)
Definition arguments_of (pairs : list (string * string)) : json :=
  JObj (foldl (λ d kv, set (strip kv.1) (loads_or_text kv.2) d) [] pairs).

(** *** Hermes *)

Definition call_start : string := "<tool_call>".
Definition call_end : string := "</tool_call>".
Definition hermes_at : string → option (string * nat) := between call_start call_end.

(** A call that does not decode is logged and left out. *)
Definition hermes_call (body : string) : option FunctionCall :=
  match json_loads body with
  | Some (JObj d) =>
      name ← lookup "name" d;
      arguments ← lookup "arguments" d;
      match name with JStr name => make_call name arguments None | _ => None end
  | _ => None
  end.
Definition hermes (text : string) : parsed :=
  if negb (contains call_start text) || negb (contains call_end text) then (text, [])
  else (erased hermes_at text, omap hermes_call (findall hermes_at text)).

(** *** gpt-oss *)

Definition to_functions : string := " to=functions.".
Definition before_bracket (c : ascii) : bool := negb (bool_decide (c = "<"%char)).

(** [[^<]* to=functions\.([^<]+) ] on the text between two brackets: the last name
    with at least one character before the final blank. *)
Definition recipient (segment : string) : option string :=
  if endswith " " segment then
    let body := stake (String.length segment - 1) segment in
    n ← rfind to_functions (stake (String.length body - 1) body);
    Some (sdrop (n + String.length to_functions) body)
  else None.

Definition oss_open : string := "<|start|>assistant<|channel|>".
Definition oss_json : string := "<|constrain|>json<|message|>".
Definition oss_call_at (s : string) : option (string * string * nat) :=
  if startswith oss_open s then
    let rest := sdrop (String.length oss_open) s in
    let segment := span before_bracket rest in
    name ← recipient segment;
    '(arguments, n) ← between oss_json "<|call|>" (sdrop (String.length segment) rest);
    Some (name, arguments, String.length oss_open + String.length segment + n)
  else None.

Definition strip_cot (text : string) : string :=
  erased (between "<|channel|>analysis<|message|>" "<|end|>")
    (erased (between "<|start|>assistant<|channel|>analysis<|message|>" "<|end|>") text).

Definition gpt_oss (pad text : string) : parsed :=
  let text := strip_cot (replace pad "" text) in
  match findall oss_call_at text with
  | [] => (text, [])
  | found => (erased oss_call_at text,
              (λ m, {| fc_name := m.1; fc_arguments := m.2; fc_tool_call_id := None |}) <$> found)
  end.

(** *** Qwen3 coder *)

Definition type_of (config : dict) : string :=
  match lookup "type" config with Some t => lower (strip (py_str t)) | None => "string" end.

Definition int_types : list string := ["int"; "uint"; "long"; "short"; "unsigned"]%string.
Definition qtrunc (q : Q) : Z := Z.quot (Qnum q) (Zpos (Qden q)).

Definition convert_param_value (value name : string) (config : list (string * dict)) : json :=
  if bool_decide (lower value = "null"%string) then JNull else
  match dget name config with
  | None => JStr value
  | Some c =>
      let t := type_of c in
      let literal := default (JStr value) (literal_eval value) in
      if bool_decide (t ∈ ["string"; "str"; "text"; "varchar"; "char"; "enum"]%string) then JStr value
      else if existsb (λ p, startswith p t) int_types then
        match PyNum.int_of_str value with Some z => JInt z | None => JStr value end
      else if startswith "num" t || startswith "float" t then
        match PyNum.float_of_str value with
        | Some q => if Qeq_bool q (inject_Z (qtrunc q)) then JInt (qtrunc q) else JFloat q
        | None => JStr value
        end
      else if bool_decide (t ∈ ["boolean"; "bool"; "binary"]%string) then JBool (bool_decide (lower value = "true"%string))
      else if bool_decide (t = "object"%string) || startswith "dict" t then
        match json_loads value with Some v => v | None => literal end
      else literal
  end.

(** The configuration of the first tool of that name; iterating [None] raises. *)
Definition get_arguments_config (tools : option (list tool_schema)) (func_name : string) : result (list (string * dict)) :=
  tools ← of_option (TypeError "'NoneType' object is not iterable") tools;
  Ok (match List.filter (λ t, bool_decide (ts_type t = "function"%string) && bool_decide (ts_name t = func_name)) tools with
      | t :: _ => ts_properties t
      | [] => []
      end).

(** One newline is removed at either end of a value. *)
Definition trim_newlines (v : string) : string :=
  let v := if startswith nl v then sdrop 1 v else v in
  if endswith nl v then stake (String.length v - 1) v else v.

Definition split_gt (s : string) : result (string * string) :=
  n ← of_option (ValueError "substring not found") (find ">" s); Ok (stake n s, sdrop (S n) s).

Definition add_param (config : list (string * dict)) (d : dict) (match_text : string) : result dict :=
  '(name, value) ← split_gt match_text;
  Ok (set name (convert_param_value (trim_newlines value) name config) d).

Definition parse_xml_function_call (tools : option (list tool_schema)) (call : string) : result FunctionCall :=
  '(name, parameters) ← split_gt call;
  config ← get_arguments_config tools name;
  params ← foldM (add_param config) [] (findall (until_end true "<parameter=" "</parameter>") parameters);
  of_option (TypeError "Object is not JSON serializable") (make_call name (JObj params) None).

Definition get_function_calls (output : string) : list string :=
  let raw := findall (until_end true call_start call_end) output in
  let raw := match raw with [] => [output] | _ => raw end in
  mjoin (findall (until_end false "<function=" "</function>") <$> raw).

Definition qwen3_coder (tools : option (list tool_schema)) (text : string) : parsed :=
  if negb (contains call_start text) then (text, []) else
  match get_function_calls text with
  | [] => (text, [])
  | calls => match mapM (parse_xml_function_call tools) calls with
             | Ok calls => (before call_start text, calls)
             | Raise _ => (text, [])
             end
  end.

(** *** GLM *)

Definition arg_value_at (s : string) : option (string * nat) :=
  let k := lspace s in
  '(value, n) ← between "<arg_value>" "</arg_value>" (sdrop k s); Some (value, k + n).
(** The shortest key whose closing tag is followed by a value. *)
Fixpoint key_end (s : string) : option (string * string * nat) :=
  match (if startswith "</arg_key>" s then arg_value_at (sdrop 10 s) else None) with
  | Some (value, n) => Some (EmptyString, value, 10 + n)
  | None => match s with
            | EmptyString => None
            | String c s => '(key, value, n) ← key_end s; Some (String c key, value, S n)
            end
  end.
Definition arg_pair_at (s : string) : option (string * string * nat) :=
  if startswith "<arg_key>" s then '(key, value, n) ← key_end (sdrop 9 s); Some (key, value, 9 + n) else None.

Definition glm_call (body : string) : option FunctionCall :=
  match find "<arg_key>" body with
  | None => make_call (strip body) (JObj []) None
  | Some n => make_call (strip (stake n body)) (arguments_of (findall arg_pair_at (sdrop n body))) None
  end.

(** [^\s*<think>.*?</think>] and [^\s*</think>], at the start of the text only. *)
Definition strip_thinking_markers (content : string) : string :=
  let t := lstrip content in
  let content := match between "<think>" "</think>" t with Some (_, n) => sdrop n t | None => content end in
  let t := lstrip content in
  if startswith "</think>" t then sdrop 8 t else content.

Definition glm (text : string) : parsed :=
  if negb (contains call_start text) || negb (contains call_end text) then (text, [])
  else (strip_thinking_markers (before call_start text), omap glm_call (findall hermes_at text)).

(** *** Seed *)

Definition seed_start : string := "<seed:tool_call>".
Definition seed_end : string := "</seed:tool_call>".
Definition seed_params (body : string) : list (string * string) :=
  findall (named_block false ends_tag "<parameter=" ">" "</parameter>") body.
Definition seed_call (call : string) : option FunctionCall :=
  '(name, body) ← search (named_block true ends_tag "<function=" ">" "</function>") call;
  make_call (strip name) (arguments_of (seed_params body)) None.
Definition seed (text : string) : parsed :=
  if negb (contains seed_start text) || negb (contains seed_end text) then (text, [])
  else (before seed_start text, omap seed_call (findall (between seed_start seed_end) text)).

(** *** MiniMax: several invocations in one block; a block that raises is left out *)

Definition minimax_start : string := "<minimax:tool_call>".
Definition minimax_end : string := "</minimax:tool_call>".
Definition minimax_call (nb : string * string) : option FunctionCall :=
  make_call (strip nb.1)
    (arguments_of (findall (named_block false is_dquote ("<parameter name=" ++ dquote) (dquote ++ ">") "</parameter>") nb.2)) None.
Definition minimax_calls (block : string) : list FunctionCall :=
  default [] (mapM minimax_call (findall (named_block true is_dquote ("<invoke name=" ++ dquote) (dquote ++ ">") "</invoke>") block)).
Definition minimax (text : string) : parsed :=
  if negb (contains minimax_start text) || negb (contains minimax_end text) then (text, [])
  else (before minimax_start text, mjoin (minimax_calls <$> findall (between minimax_start minimax_end) text)).

(** *** Kimi *)

Definition kimi_section : string := "<|tool_calls_section_begin|>".
Definition kimi_call_at (s : string) : option (string * string * nat) :=
  '(name, n) ← between "<|tool_call_begin|>" "<|tool_call_argument_begin|>" s;
  '(arguments, m) ← until "<|tool_call_end|>" (sdrop n s);
  Some (name, arguments, n + m).

Definition kimi_arguments (raw : string) : dict :=
  match json_loads (strip raw) with Some (JObj d) => d | _ => [] end.

Definition function_tools (tools : list tool_schema) : list tool_schema :=
  List.filter (λ t, bool_decide (ts_type t = "function"%string)) tools.

(** The tool a call means: its own name, the only tool whose name it contains, or the
    only tool whose required arguments it has. *)
Definition infer_tool_name (raw_name : string) (arguments : dict) (tools : option (list tool_schema)) : string :=
  match tools with
  | None | Some [] => raw_name
  | Some tools =>
      let tools := function_tools tools in
      let names := ts_name <$> tools in
      if bool_decide (raw_name ∈ names) then raw_name else
      let compact := replace "-" "_" (lower raw_name) in
      match List.filter (λ name, contains (lower name) compact) names with
      | [name] => name
      | _ =>
          let has_required t := negb (Nat.eqb (length (ts_required t)) 0) &&
                                forallb (λ k, bool_decide (k ∈ arguments.*1)) (ts_required t) in
          match ts_name <$> List.filter has_required tools with
          | [name] => name
          | _ => raw_name
          end
      end
  end.

(** The arguments were decoded, so encoding them does not raise. *)
Definition kimi_call (tools : option (list tool_schema)) (m : string * string) : option FunctionCall :=
  let raw_name := strip m.1 in
  let arguments := kimi_arguments m.2 in
  make_call (infer_tool_name raw_name arguments tools) (JObj arguments) (Some raw_name).
Definition kimi (tools : option (list tool_schema)) (text : string) : result parsed :=
  if negb (contains kimi_section text) then Ok (text, []) else
  calls ← of_option (TypeError "Object is not JSON serializable") (mapM (kimi_call tools) (findall kimi_call_at text));
  Ok (before kimi_section text, calls).

(** *** Gemma 4 *)

Definition gemma_start : string := "<|tool_call>".
Definition gemma_quote : string := "<|" ++ dquote ++ "|>".
(** [\w+] and what must follow it. *)
Definition word_then (close s : string) : option (string * nat) :=
  let w := span word_class s in
  if negb (bool_decide (w = EmptyString)) && startswith close (sdrop (String.length w) s)
  then Some (w, String.length w + String.length close) else None.
Definition gemma_call_at (s : string) : option (string * string * nat) :=
  if startswith (gemma_start ++ "call:") s then
    '(name, n) ← word_then "{" (sdrop 17 s);
    '(body, m) ← until "}<tool_call|>" (sdrop (17 + n) s);
    Some (name, body, 17 + n + m)
  else None.

Inductive gemma_value := Quoted (s : string) | Bare (s : string).
(** The dot of this pattern does not match a newline. *)
Definition gemma_arg_at (s : string) : option (string * gemma_value * nat) :=
  '(key, n) ← word_then ":" s;
  let rest := sdrop n s in
  let bare := span (λ c, negb (bool_decide (c = ","%char) || bool_decide (c = "}"%char))) rest in
  match between gemma_quote gemma_quote rest with
  | Some (v, m) => if contains nl v then Some (key, Bare bare, n + String.length bare) else Some (key, Quoted v, n + m)
  | None => Some (key, Bare bare, n + String.length bare)
  end.
(** Numbers are finite: [nan] and [inf], which Python would read as floats, stay texts. *)
Definition gemma_scalar (raw : string) : json :=
  let v := strip raw in
  if bool_decide (lower v = "true"%string) then JBool true
  else if bool_decide (lower v = "false"%string) then JBool false
  else if bool_decide (lower v = "null"%string) then JNull
  else match PyNum.int_of_str v with
       | Some z => JInt z
       | None => match PyNum.float_of_str v with Some q => JFloat q | None => JStr v end
       end.
Definition gemma_arguments (args : string) : json :=
  JObj (foldl (λ d kv, set kv.1 (match kv.2 with Quoted v => JStr v | Bare v => gemma_scalar v end) d) []
              (findall gemma_arg_at args)).
Definition gemma4 (pad text : string) : parsed :=
  let text := replace pad "" text in
  if negb (contains gemma_start text) then (text, []) else
  match findall gemma_call_at text with
  | [] => (text, [])
  | found => (before gemma_start text, omap (λ m, make_call m.1 (gemma_arguments m.2) None) found)
  end.

(** ** The registry *)

Inductive parser := Hermes | GptOss | Qwen3Coder | Glm | Seed | MiniMax | Kimi | Gemma4.
Definition registry : list (string * parser) :=
  [("hermes", Hermes); ("gpt-oss", GptOss); ("qwen3_coder", Qwen3Coder); ("glm", Glm); ("seed", Seed);
   ("minimax", MiniMax); ("kimi", Kimi); ("gemma4", Gemma4)]%string.
Definition get_tool_parser (name : string) : result parser :=
  of_option (ValueError ("Unknown tool parser: " ++ name)) (dget name registry).

Definition extract_tool_calls (p : parser) (tk : tok) (responses_ids : list Z) (tools : option (list tool_schema))
    : result parsed :=
  let text := decode tk responses_ids in
  let raw := decode_special tk responses_ids in
  match p with
  | Hermes => Ok (hermes text)
  | GptOss => Ok (gpt_oss (pad_token tk) raw)
  | Qwen3Coder => Ok (qwen3_coder tools text)
  | Glm => Ok (glm raw)
  | Seed => Ok (seed raw)
  | MiniMax => Ok (minimax raw)
  | Kimi => kimi tools raw
  | Gemma4 => Ok (gemma4 (pad_token tk) raw)
  end.

(** The tokens on which generation must stop for the parser to run. *)
Definition stop_token_ids (p : parser) (tk : tok) : list json :=
  let known t := match convert_tokens_to_ids tk t with JInt z => if (0 <=? z)%Z then [JInt z] else [] | _ => [] end in
  match p with
  | Glm => known "<|observation|>"%string
  | Kimi => known "<|im_end|>"%string
  | Gemma4 => [convert_tokens_to_ids tk "<tool_call|>"%string]
  | _ => []
  end.
End parsers.

(** ** Scans of a text made of segments *)

Lemma erased_text {A} (m : string → option (A * nat)) p s :
  (∀ k, (k < String.length p)%nat → m (sdrop k p +:+ s) = None) → erased m (p +:+ s) = p +:+ erased m s.
Proof.
  induction p as [|d p IH]; intros Hm; [done|]. pose proof (Hm 0 ltac:(cbn; lia)) as H0. cbn [sdrop] in H0.
  change (String d p +:+ s) with (String d (p +:+ s)) in *. unfold erased, sub in *. cbn [sub_skip].
  unfold erase at 1. rewrite H0. cbn [String.append]. f_equal. apply IH. intros k Hk. apply (Hm (S k)). cbn. lia.
Qed.

Lemma erased_hit {A} (m : string → option (A * nat)) c p s a :
  m (String c p +:+ s) = Some (a, S (String.length p)) → erased m (String c p +:+ s) = erased m s.
Proof.
  intros Hm. change (String c p +:+ s) with (String c (p +:+ s)) in *. unfold erased at 1, sub at 1. cbn [sub_skip].
  unfold erase at 1. rewrite Hm. cbn [String.append]. rewrite sub_skip_drop. cbn. by rewrite Nat.sub_0_r, sdrop_app.
Qed.

(** ** A transcript of calls is read back *)

(** Calls with the text that follows each. *)
Fixpoint transcript (items : list (string * string)) : string :=
  match items with
  | [] => EmptyString
  | (body, text) :: items => call_start +:+ body +:+ call_end +:+ text +:+ transcript items
  end.
Definition tag_free_item (i : string * string) : Prop :=
  contains call_end i.1 = false ∧ contains call_start i.2 = false.
Definition texts (items : list (string * string)) : string := foldr String.append EmptyString items.*2.

Lemma transcript_head items : transcript items = EmptyString ∨ ∃ r, transcript items = String "<" r.
Proof. destruct items as [|[b t] l]; [by left | right; by eexists]. Qed.

Lemma hermes_at_call body s : contains call_end body = false →
  hermes_at (call_start +:+ body +:+ call_end +:+ s) = Some (body, 11 + (String.length body + 12)).
Proof.
  intros Hb. unfold hermes_at, between.
  rewrite (proj2 (startswith_spec call_start _)) by by eexists.
  rewrite sdrop_app. unfold until. pose proof (find_after "<" "/tool_call>" body s eq_refl Hb) as Hf.
  fold call_end in Hf. rewrite Hf. csimpl. by rewrite stake_app.
Qed.

Lemma hermes_at_text t s k : contains call_start t = false → (s = EmptyString ∨ ∃ r, s = String "<" r) →
  (k < String.length t)%nat → hermes_at (sdrop k t +:+ s) = None.
Proof.
  intros Ht Hs Hk. pose proof (tag_free "<" "tool_call>" t s k eq_refl Ht Hs Hk) as Hf.
  unfold hermes_at, between. change call_start with "<tool_call>"%string. by rewrite Hf.
Qed.

Lemma transcript_cons b t items :
  transcript ((b, t) :: items) = (call_start +:+ b +:+ call_end) +:+ (t +:+ transcript items).
Proof. cbn [transcript]. by rewrite !sapp_assoc. Qed.

Lemma hermes_segments items : ∀ t, contains call_start t = false → Forall tag_free_item items →
  findall hermes_at (t +:+ transcript items) = items.*1 ∧
  erased hermes_at (t +:+ transcript items) = t +:+ texts items.
Proof.
  induction items as [|[b u] items IH]; intros t Ht Hi.
  - rewrite findall_text, erased_text by (intros k Hk; apply hermes_at_text; auto). done.
  - apply Forall_cons in Hi as [[Hb Hu] Hi]. destruct (IH u Hu Hi) as [IH1 IH2].
    rewrite findall_text, erased_text by (intros k Hk; apply hermes_at_text; [done | apply transcript_head | done]).
    pose proof (hermes_at_call b (u +:+ transcript items) Hb) as Hhit.
    rewrite transcript_cons.
    assert (Hh : hermes_at ((call_start +:+ b +:+ call_end) +:+ (u +:+ transcript items))
                 = Some (b, S (String.length ("tool_call>" +:+ b +:+ call_end)))).
    { rewrite !sapp_assoc, Hhit. f_equal. f_equal. cbn. rewrite length_sapp. cbn. lia. }
    split.
    + erewrite (findall_hit hermes_at "<" ("tool_call>" +:+ b +:+ call_end)) by exact Hh. by rewrite IH1.
    + erewrite (erased_hit hermes_at "<" ("tool_call>" +:+ b +:+ call_end)) by exact Hh. by rewrite IH2.
Qed.

Lemma contains_transcript b t items : 
  contains call_start (transcript ((b, t) :: items)) = true ∧ contains call_end (transcript ((b, t) :: items)) = true.
Proof.
  split; apply contains_spec.
  - exists EmptyString. eexists. reflexivity.
  - exists (call_start +:+ b). eexists. cbn [transcript]. by rewrite sapp_assoc.
Qed.

Section transcripts.
Context `{PyPrims} (json_loads : string → option json) (json_dumps : json → option string).

Lemma hermes_transcript t items : contains call_start t = false → Forall tag_free_item items →
  hermes json_loads json_dumps (t +:+ transcript items)
  = (t +:+ texts items, omap (hermes_call json_loads json_dumps) items.*1).
Proof.
  intros Ht Hi. unfold hermes. destruct items as [|[b u] items].
  - cbn [transcript]. rewrite app_nil_r_s, Ht. cbn. by rewrite app_nil_r_s.
  - destruct (contains_transcript b u items) as [Hs He].
    rewrite (contains_app_r _ t _ Hs), (contains_app_r _ t _ He). cbn [negb orb].
    by destruct (hermes_segments _ t Ht Hi) as [-> ->].
Qed.

(** A call as the chat template writes it. *)
Definition call_json (name : string) (arguments : json) : json :=
  JObj [("name", JStr name); ("arguments", arguments)]%string.
(** The body is a JSON text of the call, whose arguments can be encoded; or it decodes to no call. *)
Definition written (c : option (string * json)) (i : string * string) : Prop :=
  match c with
  | Some (name, arguments) =>
      json_loads i.1 = Some (call_json name arguments) ∧
      ∃ a, json_dumps arguments = Some a ∧ json_loads a = Some arguments
  | None => json_loads i.1 = None
  end.
Definition reads_back (c : string * json) (f : FunctionCall) : Prop :=
  fc_name f = c.1 ∧ json_loads (fc_arguments f) = Some c.2.

Lemma hermes_calls_written calls items : Forall2 written calls items →
  Forall2 reads_back (omap id calls) (omap (hermes_call json_loads json_dumps) items.*1).
Proof.
  induction 1 as [|[[name arguments]|] [b u] calls items Hw _ IH]; csimpl; [by constructor| |].
  - destruct Hw as (Hb & a & Ha & Hl). unfold hermes_call at 1. cbn in Hb. rewrite Hb. csimpl.
    change (lookup "name" _) with (Some (JStr name)). change (lookup "arguments" _) with (Some arguments). csimpl.
    unfold make_call. rewrite Ha. csimpl. constructor; [by split | exact IH].
  - cbn in Hw. unfold hermes_call at 1. by rewrite Hw.
Qed.

(** C22: what a model writes as Hermes tool calls is what the agent loop gets: from a
    text in which well-formed calls, garbled calls and prose alternate, the parser
    returns the prose as content and exactly the well-formed calls, in their order,
    with names and arguments that decode to those written; a garbled call costs no other. *)
Theorem hermes_reads_calls literal_eval tk ids tools t calls items :
  decode tk ids = t +:+ transcript items →
  contains call_start t = false → Forall tag_free_item items → Forall2 written calls items →
  ∃ found, extract_tool_calls json_loads json_dumps literal_eval Hermes tk ids tools = Ok (t +:+ texts items, found) ∧
    Forall2 reads_back (omap id calls) found.
Proof.
  intros Hd Ht Hi Hw. eexists. split; [|by apply hermes_calls_written].
  cbn. by rewrite Hd, hermes_transcript.
Qed.
End transcripts.

(** Text without the opening tag is content, for every parser that keeps its text. *)
Lemma prose_is_content `{PyPrims} json_loads json_dumps literal_eval text tools :
  contains call_start text = false → contains seed_start text = false →
  contains minimax_start text = false → contains kimi_section text = false →
  hermes json_loads json_dumps text = (text, []) ∧
  qwen3_coder json_loads json_dumps literal_eval tools text = (text, []) ∧
  glm json_loads json_dumps text = (text, []) ∧ seed json_loads json_dumps text = (text, []) ∧
  minimax json_loads json_dumps text = (text, []) ∧ kimi json_loads json_dumps tools text = Ok (text, []).
Proof.
  intros Hc Hs Hm Hk. unfold hermes, qwen3_coder, glm, seed, minimax, kimi. by rewrite Hc, Hs, Hm, Hk.
Qed.

(** Without tools every call of the Qwen parser raises, so its text is all content. *)
Lemma qwen3_coder_needs_tools `{PyPrims} json_loads json_dumps literal_eval text :
  qwen3_coder json_loads json_dumps literal_eval None text = (text, []).
Proof.
  unfold qwen3_coder. destruct (contains call_start text); [|done]. cbn [negb].
  destruct (get_function_calls text) as [|call calls]; [done|].
  assert (Hr : ∃ e, parse_xml_function_call json_loads json_dumps literal_eval None call = Raise e).
  { unfold parse_xml_function_call. destruct (split_gt call) as [[name params]|e]; cbn; eauto. }
  destruct Hr as [e He]. by cbn [mapM]; rewrite He.
Qed.

(** The type of a union is the text of a list, which no branch knows: its values are read
    as Python literals, so the text [12] of an optional string becomes a number. *)
Lemma union_types_are_literals `{PyPrims} json_loads literal_eval value name config c t :
  lower value ≠ "null"%string → dget name config = Some c → type_of c = String "[" t →
  convert_param_value json_loads literal_eval value name config = default (JStr value) (literal_eval value).
Proof.
  intros Hn Hc Ht. unfold convert_param_value. by rewrite bool_decide_eq_false_2, Hc, Ht.
Qed.

Section sample_transcript.
Local Definition sample_call : json := call_json "add" (JObj [("a", JInt 1)])%string.
Local Definition sample_loads (s : string) : option json :=
  if bool_decide (s = "ADD") then Some sample_call
  else if bool_decide (s = "ARGS") then Some (JObj [("a", JInt 1)]) else None.
Local Definition sample_dumps (v : json) : option string :=
  match v with JObj [("a", JInt 1)] => Some "ARGS" | _ => None end%string.
Local Definition sample_tok : tok := {|
  decode := λ _, "I add. <tool_call>{oops</tool_call> Again: <tool_call>ADD</tool_call> done";
  decode_special := λ _, EmptyString; pad_token := EmptyString; convert_tokens_to_ids := λ _, JNull |}%string.

Lemma hermes_reads_calls_witness :
  ∃ found, extract_tool_calls (H := Json.sample_prims) sample_loads sample_dumps (λ _, None) Hermes sample_tok [] None
           = Ok ("I add.  Again:  done"%string, found) ∧
    Forall2 (reads_back sample_loads) [("add"%string, JObj [("a"%string, JInt 1)])] found.
Proof.
  apply (hermes_reads_calls (H := Json.sample_prims) sample_loads sample_dumps (λ _, None) sample_tok [] None "I add. "
           [None; Some ("add", JObj [("a", JInt 1)])] [("{oops", " Again: "); ("ADD", " done")]%string).
  - reflexivity.
  - reflexivity.
  - repeat constructor.
  - constructor; [reflexivity|]. constructor; [|constructor]. split; [reflexivity|]. exists "ARGS"%string. by split.
Defined.
End sample_transcript.
