(* ===== verification/Checkpoint.v ===== *)
(** * Checkpoints

    [src/verl/utils/checkpoint/checkpoint_manager.py], the rotation and the files of
    [fsdp_checkpoint_manager.py], the handler of [checkpoint_handler.py] and the saving
    and loading of [src/verl/trainer/ppo/ray_trainer.py].  A save is the list of the file
    operations of all ranks, in the order in which they happen; a crash leaves the effect of a
    prefix of the list.  After the engine's last barrier every rank goes through the handler
    on its own, so its operations are an interleaving of the ranks'.  Paths are lists of
    components.  Writing a file is one operation, except where a torn write can be read
    later: the dataloader states, which a rank may still be writing when rank 0 commits the
    tracker, and the tracker that the trainer overwrites in place. *)

From S2P Require Import Prelude PyStr PyNum PyRegex.
From Stdlib Require Import QArith.
Local Close Scope Q_scope.
#[local] Open Scope py_scope.

Abbreviation path := (list string).

(** ** The file system *)

Inductive content (B : Type) := Text (s : string) | Data (b : B).
Arguments Text {_} s.
Arguments Data {_} b.
Inductive node (B : Type) := Dir | File (c : content B).
Arguments Dir {_}.
Arguments File {_} c.

Inductive io (B : Type) :=
  | MakeDirs (p : path)
  | Write (p : path) (c : content B)
  | Rmtree (p : path)
  | Rename (p q : path).
Arguments MakeDirs {_} p.
Arguments Write {_} p c.
Arguments Rmtree {_} p.
Arguments Rename {_} p q.

Definition step_name (n : Z) : string := "global_step_" +:+ pretty n.
Definition tracker_name : string := "latest_checkpointed_iteration.txt".
Definition render (p : path) : string := "/" +:+ str_join "/" p.

Section checkpoints.
Context {B : Type}.
Abbreviation disk := (gmap path (node B)).

Definition exists_at (d : disk) (p : path) : bool := if d !! p then true else false.
(** [os.makedirs(p, exist_ok=True)]: the directories on the way that are missing. *)
Definition make_dirs (p : path) (d : disk) : disk :=
  foldl (λ d n, let q := take n p in if exists_at d q then d else <[q := Dir]> d) d (seq 1 (length p)).
(** [shutil.rmtree(p, ignore_errors=True)]. *)
Definition rmtree (p : path) (d : disk) : disk := filter (λ e, ¬ p `prefix_of` e.1) d.
Definition exec (d : disk) (o : io B) : disk :=
  match o with
  | MakeDirs p => make_dirs p d
  | Write p c => <[p := File c]> d
  | Rmtree p => rmtree p d
  | Rename p q => match d !! p with Some n => <[q := n]> (delete p d) | None => d end
  end.
Definition exec_all (ops : list (io B)) (d : disk) : disk := foldl exec d ops.

Definition read (d : disk) (p : path) : result (content B) :=
  match d !! p with Some (File c) => Ok c | _ => Raise (OSError "No such file or directory") end.

(** ** Retention *)

Definition remove_previous_save_local_path (paths : list path) : list (io B) := Rmtree <$> paths.

(** Before a save: at most [max_ckpt_to_keep - 1] are kept; one is always kept. *)
Definition ensure_checkpoint_capacity (max_ckpt_to_keep : option Z) (previous : list path) : list (io B) * list path :=
  match max_ckpt_to_keep with
  | Some k =>
      if (1 <? k)%Z && (k <=? Z.of_nat (length previous))%Z then
        let keep_start := Z.to_nat (Z.of_nat (length previous) - k + 1) in
        (remove_previous_save_local_path (take keep_start previous), drop keep_start previous)
      else ([], previous)
  | None => ([], previous)
  end.

(** After a save. *)
Definition register_checkpoint (new_path : path) (max_ckpt_to_keep : option Z) (previous : list path)
    : list (io B) * list path :=
  let previous := previous ++ [new_path] in
  match max_ckpt_to_keep with
  | Some k =>
      if (0 <? k)%Z && (k <? Z.of_nat (length previous))%Z then
        let keep_start := Z.to_nat (Z.of_nat (length previous) - k) in
        (remove_previous_save_local_path (take keep_start previous), drop keep_start previous)
      else ([], previous)
  | None => ([], previous)
  end.

(** ** The latest checkpoint *)

Definition get_checkpoint_tracker_filename (root : path) : path := root ++ [tracker_name].

Definition find_latest_ckpt_path (d : disk) (root : path) : result (option path) :=
  let tracker_file := get_checkpoint_tracker_filename root in
  if negb (exists_at d tracker_file) then Ok None else
  c ← read d tracker_file;
  iteration ← of_option (ValueError "invalid literal for int() with base 10")
                (match c with Text s => PyNum.int_of_str s | Data _ => None end);
  let ckpt_path := root ++ [step_name iteration] in
  Ok (if exists_at d ckpt_path then Some ckpt_path else None).

(** [should_save_ckpt_esi]: whether the capacity block ends before another step and save. *)
Definition should_save_ckpt_esi (mlp aws : option string) (now : Q) (max_steps_duration save_ckpt_duration redundant_time : Q)
    : result bool :=
  let needed := (save_ckpt_duration + max_steps_duration + redundant_time)%Q in
  let set v := match v with Some s => negb (bool_decide (s = EmptyString)) | None => false end in
  if set mlp then
    Ok (match mlp ≫= PyNum.float_of_str with
        | Some e => let remaining := (e - now)%Q in
                    negb (Qle_bool remaining 0) && negb (Qle_bool max_steps_duration 0) && Qle_bool remaining needed
        | None => false
        end)
  else if set aws then
    e ← of_option (ValueError "invalid literal for int() with base 10") (aws ≫= PyNum.int_of_str);
    Ok (negb (Qle_bool needed (inject_Z e - now)))
  else Ok false.

(** ** The FSDP engine: [FSDPCheckpointManager] *)

Record checkpoint_contents := {
  should_model : bool; should_optimizer : bool; should_extra : bool; should_hf_model : bool }.
(** [checkpoint_config.get("save_contents")], or the default. *)
Definition contents_of (names : option (list string)) : checkpoint_contents :=
  let l := default ["model"; "optimizer"; "extra"]%string names in
  {| should_model := bool_decide ("model"%string ∈ l); should_optimizer := bool_decide ("optimizer"%string ∈ l);
     should_extra := bool_decide ("extra"%string ∈ l); should_hf_model := bool_decide ("hf_model"%string ∈ l) |}.

(** What the engine and the libraries write at a step. *)
Record engine := {
  world_size : nat;
  save_contents : checkpoint_contents;
  model_state : Z → nat → B; optim_state : Z → nat → B; extra_state : Z → nat → B;
  hf_config_files : list (string * B);               (** config, tokenizer, generation config *)
  fsdp_config : B;
  lora_train_meta : option B;
  hf_model_files : Z → list (string * B) }.

Context (e : engine).

Definition shard_name (kind : string) (rank : nat) : string :=
  kind +:+ "_world_size_" +:+ pretty (world_size e) +:+ "_rank_" +:+ pretty rank +:+ ".pt".

(** What one rank writes between the barriers. *)
Definition rank_writes (step : Z) (local : path) (rank : nat) : list (io B) :=
  (if should_model (save_contents e) then [Write (local ++ [shard_name "model" rank]) (Data (model_state e step rank))] else [])
  ++ (if should_optimizer (save_contents e) then [Write (local ++ [shard_name "optim" rank]) (Data (optim_state e step rank))] else [])
  ++ (if should_extra (save_contents e) then [Write (local ++ [shard_name "extra_state" rank]) (Data (extra_state e step rank))] else []).
Definition shard_writes (step : Z) (local : path) : list (io B) := mjoin (rank_writes step local <$> seq 0 (world_size e)).

Definition hf_writes (local : path) (files : list (string * B)) : list (io B) :=
  MakeDirs (local ++ ["huggingface"]%string) ::
  ((λ f, Write (local ++ ["huggingface"%string; f.1]) (Data f.2)) <$> files).
Definition rank0_writes (step : Z) (local : path) : list (io B) :=
  hf_writes local (hf_config_files e)
  ++ [Write (local ++ ["fsdp_config.json"]%string) (Data (fsdp_config e))]
  ++ (match lora_train_meta e with Some m => [Write (local ++ ["lora_train_meta.json"]%string) (Data m)] | None => [] end)
  ++ (if should_hf_model (save_contents e) then hf_writes local (hf_model_files e step) else []).

(** [shards]: the writes of all ranks, in the order in which they happen. *)
Definition fsdp_save_checkpoint (max_ckpt_to_keep : option Z) (previous : list path) (local : path) (step : Z)
    (shards : list (io B)) : list (io B) * list path :=
  let '(before, previous) := ensure_checkpoint_capacity max_ckpt_to_keep previous in
  let '(after, previous) := register_checkpoint local max_ckpt_to_keep previous in
  (before ++ [MakeDirs local] ++ shards ++ rank0_writes step local ++ after, previous).

(** What a rank loads. *)
Definition read_blob (d : disk) (p : path) : result B :=
  c ← read d p; of_option (RuntimeError "not a saved state") (match c with Data b => Some b | Text _ => None end).
Definition load_shard (wanted : bool) (d : disk) (local : path) (kind : string) (rank : nat) : result (option B) :=
  if wanted then Some <$> read_blob d (local ++ [shard_name kind rank]) else Ok None.
Definition fsdp_load_checkpoint (load_contents : checkpoint_contents) (d : disk) (local : path) (rank : nat)
    : result (option B * option B * option B) :=
  m ← load_shard (should_model load_contents) d local "model" rank;
  o ← load_shard (should_optimizer load_contents) d local "optim" rank;
  x ← load_shard (should_extra load_contents) d local "extra_state" rank;
  Ok (m, o, x).

(** ** The handler: [CheckpointHandler] *)

(** [re.search(r"global_step_(\d+)", path)]. *)
Definition step_at (s : string) : option (Z * nat) :=
  if startswith "global_step_" s then
    let digits := span (λ c, if digit_of c then true else false) (sdrop 12 s) in
    n ← PyNum.parse_digits 0 false digits; Some (n, 12 + String.length digits)
  else None.
Definition extract_step (p : string) : option Z := head (findall step_at p).

Inductive resume := Disable | Auto | ResumePath | OtherMode (s : string).
Record handler := {
  default_local_dir : path;
  max_ckpt_to_keep : option Z;
  resume_mode : resume;
  resume_from_path : option path;
  handler_lora_meta : option B;
  spmd : bool;                          (** [OrchestrationMode.SPMD], or [RAY] *)
  engine_mp_src : nat → bool;           (** the engine's answers for a rank *)
  engine_dp_rank : nat → nat;
  dataloader_state : Z → nat → B;
  load_contents : checkpoint_contents }.
Context (h : handler).

Definition step_folder (step : Z) : path := default_local_dir h ++ [step_name step].
Definition temp_tracker_file : path := default_local_dir h ++ [tracker_name +:+ ".tmp"].

(** A handler per rank, or the controller's alone. *)
Definition handler_ranks : list nat := if spmd h then seq 0 (world_size e) else [0].
Definition is_mp_src_rank_with_outputs (rank : nat) : bool := negb (spmd h) || engine_mp_src h rank.
Definition dp_rank (rank : nat) : nat := if spmd h then engine_dp_rank h rank else 0.
Definition dataloader_name (rank : nat) : string := "data_" +:+ pretty (dp_rank rank) +:+ ".pt".

(** [save_checkpoint] of one rank, after its engine.  [torch.save] opens the file first. *)
Definition lora_writes (step : Z) (rank : nat) : list (io B) :=
  match handler_lora_meta h with
  | Some m => if Nat.eqb rank 0 then [MakeDirs (step_folder step); Write (step_folder step ++ ["lora_train_meta.json"]%string) (Data m)] else []
  | None => []
  end.
Definition dataloader_writes (step : Z) (rank : nat) : list (io B) :=
  if is_mp_src_rank_with_outputs rank then
    let dataloader_local_path := step_folder step ++ [dataloader_name rank] in
    [MakeDirs (step_folder step); Write dataloader_local_path (Text EmptyString);
     Write dataloader_local_path (Data (dataloader_state h step rank))]
  else [].
Definition commit : io B := Rename temp_tracker_file (get_checkpoint_tracker_filename (default_local_dir h)).
Definition tracker_writes (step : Z) (rank : nat) : list (io B) :=
  if Nat.eqb rank 0 then [Write temp_tracker_file (Text (pretty step)); commit] else [].
Definition handler_writes (step : Z) (rank : nat) : list (io B) :=
  lora_writes step rank ++ dataloader_writes step rank ++ tracker_writes step rank.

(** The save of all ranks: [shards] are the writes of their engines and [tail] those of their
    handlers, an interleaving of [handler_writes step <$> handler_ranks], in the order in
    which they happen.  The engine ends with a barrier; rank 0 commits with none before it. *)
Definition save_checkpoint (previous : list path) (step : Z) (shards tail : list (io B)) : list (io B) * list path :=
  let '(ops, previous) := fsdp_save_checkpoint (max_ckpt_to_keep h) previous (step_folder step) step shards in
  (ops ++ tail, previous).

Definition find_latest_checkpoint (d : disk) : result (option path) :=
  if exists_at d (default_local_dir h) then find_latest_ckpt_path d (default_local_dir h) else Ok None.

Definition resume_path (d : disk) (p : path) : result (option path) :=
  require exists_at d p else AssertionError "resume_from_path must be an existing path" ;;
  require contains "global_step_" (render p) else AssertionError "resume_from_path must specify the global_steps" ;;
  Ok (Some p).
Definition determine_resume_path (d : disk) : result (option path) :=
  match resume_mode h with
  | Disable => Ok None
  | Auto => match resume_from_path h with
            | Some p => resume_path d p
            | None => find_latest_checkpoint d
            end
  | ResumePath => match resume_from_path h with
                  | Some p => resume_path d p
                  | None => Raise (TypeError "stat: path should be string, bytes, os.PathLike or integer, not NoneType")
                  end
  | OtherMode s => Raise (ValueError ("Invalid resume_mode: " +:+ s))
  end.

(** The step to go on from, what the rank's engine loads, and its dataloader's state. *)
Definition restored : Type := (Z * option (option B * option B * option B) * option B)%type.
Definition load_dataloader_state (d : disk) (p : path) (rank : nat) : result (option B) :=
  let f := p ++ [dataloader_name rank] in
  if exists_at d f then Some <$> read_blob d f else Ok None.
Definition load_checkpoint (d : disk) (rank : nat) : result restored :=
  p ← determine_resume_path d;
  match p with
  | None => Ok (0%Z, None, None)
  | Some p =>
      match extract_step (render p) with
      | None => Ok (0%Z, None, None)
      | Some step =>
          states ← fsdp_load_checkpoint (load_contents h) d p rank;
          data ← load_dataloader_state d p rank;
          Ok (step, Some states, data)
      end
  end.
End checkpoints.

(** ** The trainer: [RayPPOTrainer] *)

Section trainers.
Context {B : Type}.
Abbreviation disk := (gmap path (node B)).

Record trainer := {
  t_default_local_dir : path;
  default_hdfs_dir : option path;
  remove_previous_ckpt_in_save : bool;
  max_actor_ckpt_to_keep : option Z;
  max_critic_ckpt_to_keep : option Z;
  async_save : bool;
  t_resume_mode : resume;
  t_resume_from_path : option path;
  steps_per_epoch : Z;                               (** [len(train_dataloader)] *)
  t_dataloader_state : Z → B;
  critic : option (engine (B := B));
  t_load_contents : checkpoint_contents }.
Context (actor : engine (B := B)) (t : trainer).

Definition t_folder (step : Z) : path := t_default_local_dir t ++ [step_name step].
Definition kept (max : option Z) : option Z := if remove_previous_ckpt_in_save t then Some 1%Z else max.

(** The paths that the actor's and the critic's managers remember. *)
Definition trainer_save (previous : list path * list path) (step : Z) (actor_shards critic_shards : list (io B))
    : list (io B) * (list path * list path) :=
  let '(a, pa) := fsdp_save_checkpoint actor (kept (max_actor_ckpt_to_keep t)) previous.1
                    (t_folder step ++ ["actor"]%string) step actor_shards in
  let '(c, pc) := match critic t with
                  | Some critic => fsdp_save_checkpoint critic (kept (max_critic_ckpt_to_keep t)) previous.2
                                     (t_folder step ++ ["critic"]%string) step critic_shards
                  | None => ([], previous.2)
                  end in
  let tracker := get_checkpoint_tracker_filename (t_default_local_dir t) in
  (a ++ c ++ [MakeDirs (t_folder step); Write (t_folder step ++ ["data.pt"]%string) (Data (t_dataloader_state t step))]
     ++ (if async_save t then [] else [Write tracker (Text EmptyString); Write tracker (Text (pretty step))]),
   (pa, pc)).

(** The dataloader's state is not restored at the end of an epoch. *)
Definition load_dataloader (d : disk) (step : Z) (folder : path) : result (option B) :=
  let f := folder ++ ["data.pt"]%string in
  if exists_at d f then
    if (0 <? steps_per_epoch t)%Z && (step mod steps_per_epoch t =? 0)%Z then Ok None else Some <$> read_blob d f
  else Ok None.

Definition trainer_load (d : disk) (rank : nat)
    : result (Z * option (option B * option B * option B) * option (option B * option B * option B) * option B) :=
  match t_resume_mode t with
  | Disable => Ok (0%Z, None, None, None)
  | mode =>
      if default_hdfs_dir t then Raise (NotImplementedError "load from hdfs is not implemented yet") else
      latest ← find_latest_ckpt_path d (t_default_local_dir t);
      let go (folder : path) :=
        step ← of_option (ValueError "invalid literal for int() with base 10")
                 (last (split_str "global_step_" (render folder)) ≫= PyNum.int_of_str);
        a ← fsdp_load_checkpoint actor (t_load_contents t) d (folder ++ ["actor"]%string) rank;
        c ← match critic t with
            | Some critic => Some <$> fsdp_load_checkpoint critic (t_load_contents t) d (folder ++ ["critic"]%string) rank
            | None => Ok None
            end;
        data ← load_dataloader d step folder;
        Ok (step, Some a, c, data) in
      let no_folder := Raise (AttributeError "'NoneType' object has no attribute 'split'") in
      match mode with
      | Auto => match latest with Some folder => go folder | None => Ok (0%Z, None, None, None) end
      | ResumePath =>
          match t_resume_from_path t with
          | Some folder =>
              require contains "global_step_" (render folder) else AssertionError "resume ckpt must specify the global_steps" ;;
              go folder
          | None => Raise (AssertionError "resume ckpt must be str type")
          end
      | _ => match latest with Some folder => go folder | None => no_folder end
      end
  end.
End trainers.

(** ** The effect of a list of operations *)

Section disks.
Context {B : Type}.
Implicit Types (d : gmap path (node B)) (p q : path) (o : io B) (ops : list (io B)).

(** [o] leaves what is at [p] as it is; leaves something there; creates nothing there. *)
Definition keeps p o : Prop :=
  match o with
  | MakeDirs _ => True
  | Write q _ => q ≠ p
  | Rmtree q => ¬ q `prefix_of` p
  | Rename a b => a ≠ p ∧ b ≠ p
  end.
Definition stays p o : Prop :=
  match o with Rmtree q => ¬ q `prefix_of` p | Rename a _ => a ≠ p | _ => True end.
Definition avoids p o : Prop :=
  match o with MakeDirs q => ¬ p `prefix_of` q | Write q _ => q ≠ p | Rmtree _ => True | Rename _ b => b ≠ p end.

Lemma make_dirs_keeps p q d n : d !! p = Some n → make_dirs q d !! p = Some n.
Proof.
  intros Hd. unfold make_dirs. generalize (seq 1 (length q)). intros l. revert d Hd.
  induction l as [|k l IH]; intros d Hd; [done|]. apply IH. unfold exists_at.
  destruct (d !! take k q) eqn:Hk; [done|]. rewrite lookup_insert_ne by congruence. done.
Qed.

Lemma make_dirs_makes p q d : p `prefix_of` q → p ≠ [] → is_Some (make_dirs q d !! p).
Proof.
  intros [r ->] Hp. unfold make_dirs.
  assert (Hin : length p ∈ seq 1 (length (p ++ r))).
  { apply elem_of_seq. rewrite length_app. destruct p; [done|]. cbn. lia. }
  apply list_elem_of_split in Hin as (l1 & l2 & ->). rewrite foldl_app. cbn [foldl].
  set (d1 := foldl _ d l1). rewrite take_app_length.
  assert (Hs : ∃ n, (if exists_at d1 p then d1 else <[p := Dir]> d1) !! p = Some n).
  { unfold exists_at. destruct (d1 !! p) eqn:Hp1; [by eexists|]. eexists. by rewrite lookup_insert_eq. }
  destruct Hs as [n Hn]. exists n. revert Hn. generalize (if exists_at d1 p then d1 else <[p := Dir]> d1). clear.
  induction l2 as [|k l IH]; intros d Hd; [done|]. cbn. apply IH. unfold exists_at.
  destruct (d !! take k (p ++ r)) eqn:Hk; [done|]. rewrite lookup_insert_ne by congruence. done.
Qed.

Lemma make_dirs_avoids p q d : ¬ p `prefix_of` q → make_dirs q d !! p = d !! p.
Proof.
  intros Hp. unfold make_dirs. generalize (seq 1 (length q)). intros l. revert d.
  induction l as [|k l IH]; intros d; [done|]. cbn. rewrite IH. unfold exists_at.
  destruct (d !! take k q); [done|]. rewrite lookup_insert_ne; [done|]. intros <-. apply Hp.
  exists (drop k q). by rewrite take_drop.
Qed.

Lemma exec_keeps p o d n : keeps p o → d !! p = Some n → exec d o !! p = Some n.
Proof.
  destruct o as [q|q c|q|a b]; cbn; intros Hk Hd.
  - by apply make_dirs_keeps.
  - by rewrite lookup_insert_ne.
  - apply map_lookup_filter_Some. done.
  - destruct Hk. destruct (d !! a); [|done]. by rewrite lookup_insert_ne, lookup_delete_ne.
Qed.

Lemma exec_stays p o d : stays p o → is_Some (d !! p) → is_Some (exec d o !! p).
Proof.
  destruct o as [q|q c|q|a b]; cbn; intros Hk [n Hd].
  - exists n. by apply make_dirs_keeps.
  - destruct (decide (q = p)) as [->|]; [rewrite lookup_insert_eq; by eexists | rewrite lookup_insert_ne by done; by eexists].
  - exists n. apply map_lookup_filter_Some. done.
  - destruct (d !! a); [|by eexists]. destruct (decide (b = p)) as [->|]; [rewrite lookup_insert_eq; by eexists|].
    rewrite lookup_insert_ne, lookup_delete_ne by done. by eexists.
Qed.

Lemma exec_avoids p o d : avoids p o → d !! p = None → exec d o !! p = None.
Proof.
  destruct o as [q|q c|q|a b]; cbn; intros Hk Hd.
  - by rewrite make_dirs_avoids.
  - by rewrite lookup_insert_ne.
  - apply map_lookup_filter_None. by left.
  - destruct (d !! a); [|done]. rewrite lookup_insert_ne by done. rewrite lookup_delete_None. by right.
Qed.

Lemma exec_all_keeps p ops d n : Forall (keeps p) ops → d !! p = Some n → exec_all ops d !! p = Some n.
Proof. intros Hk. revert d. induction Hk as [|o ops Ho _ IH]; intros d Hd; [done|]. apply (IH (exec d o)). by apply exec_keeps. Qed.
Lemma exec_all_stays p ops d : Forall (stays p) ops → is_Some (d !! p) → is_Some (exec_all ops d !! p).
Proof. intros Hk. revert d. induction Hk as [|o ops Ho _ IH]; intros d Hd; [done|]. apply (IH (exec d o)). by apply exec_stays. Qed.
Lemma exec_all_avoids p ops d : Forall (avoids p) ops → d !! p = None → exec_all ops d !! p = None.
Proof. intros Hk. revert d. induction Hk as [|o ops Ho _ IH]; intros d Hd; [done|]. apply (IH (exec d o)). by apply exec_avoids. Qed.

(** The only content that is written at [p] is there in the end. *)
Lemma written_stays p c ops d :
  Write p c ∈ ops → Forall (λ o, keeps p o ∨ o = Write p c) ops → exec_all ops d !! p = Some (File c).
Proof.
  intros Hin Hk. induction ops as [|o ops IH] using rev_ind; [by apply not_elem_of_nil in Hin|].
  apply Forall_app in Hk as [Hk [Ho _]%Forall_cons]. unfold exec_all. rewrite foldl_app. cbn.
  destruct Ho as [Ho|Ho]; [|subst o; apply lookup_insert_eq].
  apply exec_keeps; [done|]. apply elem_of_app in Hin as [Hin|Hin]; [by apply IH|].
  apply list_elem_of_singleton in Hin as <-. by destruct Ho.
Qed.

Lemma made_stays p q ops d :
  MakeDirs q ∈ ops → p `prefix_of` q → p ≠ [] → Forall (stays p) ops → is_Some (exec_all ops d !! p).
Proof.
  intros (l1 & l2 & ->)%list_elem_of_split Hp Hn [_ [_ Hk]%Forall_cons]%Forall_app.
  unfold exec_all. rewrite foldl_app. cbn. apply exec_all_stays; [done|]. by apply make_dirs_makes.
Qed.
End disks.

(** ** Names *)

Lemma sapp_inv_tail (s t u : string) : s +:+ u = t +:+ u → s = t.
Proof.
  intros Hs. assert (String.length s = String.length t) as Hl.
  { apply (f_equal String.length) in Hs. rewrite !length_sapp in Hs. lia. }
  rewrite <- (stake_app s u), <- (stake_app t u), Hs, Hl. done.
Qed.

Lemma step_name_inj : Inj (=) (=) step_name.
Proof. intros m n Hm. by apply (inj (String.append _)), (inj pretty) in Hm. Qed.

(** ** Interleavings *)

(** [ops] takes the next element of one of the lists at a time, to the end of all. *)
Inductive interleaving {A} : list (list A) → list A → Prop :=
  | inter_done ls : Forall (λ l, l = []) ls → interleaving ls []
  | inter_next ls i a l ops : ls !! i = Some (a :: l) → interleaving (<[i := l]> ls) ops → interleaving ls (a :: ops).

Section interleavings.
Context {A : Type}.
Implicit Types (ls : list (list A)) (l ops : list A).

Lemma interleaving_Forall (P : A → Prop) ls ops : interleaving ls ops → Forall (Forall P) ls → Forall P ops.
Proof.
  induction 1 as [|ls i a l ops Hi _ IH]; intros Hall; [constructor|].
  pose proof (Forall_lookup_1 _ _ _ _ Hall Hi) as [Ha Hl]%Forall_cons. constructor; [done|]. by apply IH, Forall_insert.
Qed.

Lemma interleaving_concat ls : interleaving ls (concat ls).
Proof.
  enough (Hgen : ∀ done, Forall (λ l, l = []) done → interleaving (done ++ ls) (concat ls)) by by apply (Hgen []).
  induction ls as [|l ls IH]; intros done Hdone; [rewrite app_nil_r; by constructor|]. cbn. revert done Hdone.
  induction l as [|a l IHl]; intros done Hdone; cbn.
  - change (done ++ [] :: ls) with (done ++ [[]] ++ ls). rewrite (assoc_L (++)). apply IH, Forall_app. by split; [|apply Forall_singleton].
  - apply (inter_next _ (length done) a l); [by rewrite list_lookup_middle|].
    rewrite <-(Nat.add_0_r (length done)), insert_app_r. by apply IHl.
Qed.

(** The first steps of an interleaving interleave first parts of the lists. *)
Lemma interleaving_take ls ops k : interleaving ls ops → ∃ ls', Forall2 prefix ls' ls ∧ interleaving ls' (take k ops).
Proof.
  intros Hi. revert k. induction Hi as [ls Hls|ls i a l ops Hi _ IH]; intros [|k].
  1,2: exists ls; split; [by apply Forall_Forall2_diag, Forall_true|by constructor].
  - exists ((λ _, []) <$> ls). split; [|constructor; by apply Forall_fmap, Forall_true].
    apply Forall2_fmap_l, Forall_Forall2_diag, Forall_true. intros l'. by exists l'.
  - destruct (IH k) as (ls' & Hpre & Hrun). assert (Hlt : i < length ls) by by apply lookup_lt_Some in Hi.
    destruct (Forall2_lookup_r _ _ _ i l Hpre) as (l' & Hl' & [r ->]); [by apply list_lookup_insert_eq|].
    exists (<[i := a :: l']> ls'). split.
    + rewrite <-(list_insert_id ls i (a :: l' ++ r) Hi), <-(list_insert_insert_eq ls i _ (l' ++ r)). apply Forall2_insert; [done|]. by exists r.
    + cbn. apply (inter_next _ i a l'); [apply list_lookup_insert_eq; by apply lookup_lt_Some in Hl'|].
      by rewrite list_insert_insert_eq, (list_insert_id ls' i l').
Qed.

(** The element that ends the [i]-th list comes once, after the rest of that list. *)
Lemma interleaving_mark ls ops i l c : interleaving ls ops → ls !! i = Some (l ++ [c]) → c ∉ l →
  (∀ j l', j ≠ i → ls !! j = Some l' → c ∉ l') → ∃ pre post, ops = pre ++ c :: post ∧ l ⊆ pre ∧ c ∉ pre ∧ c ∉ post.
Proof.
  intros Hi. revert l. induction Hi as [ls Hls|ls j a l' ops Hj Hrun IH]; intros l Hl Hc Hother.
  - rewrite Forall_lookup in Hls. by apply Hls, app_nil in Hl as [_ ?].
  - assert (Hlt : j < length ls) by by apply lookup_lt_Some in Hj.
    assert (Hother' : ∀ k l'', k ≠ i → <[j := l']> ls !! k = Some l'' → c ∉ l'').
    { intros k l'' Hk. destruct (decide (j = k)) as [->|Hjk]; [|rewrite list_lookup_insert_ne by done; by apply Hother].
      rewrite list_lookup_insert_eq by done. intros [= <-] Hin. apply (Hother k _ Hk Hj). by right. }
    destruct (decide (j = i)) as [->|Hji].
    + rewrite Hj in Hl. destruct l as [|x l]; injection Hl as -> ->.
      * exists [], ops. split_and!; [done|set_solver|apply not_elem_of_nil|]. intros Hin. enough (Forall (λ x, x ≠ c) ops) as Hne by (rewrite Forall_forall in Hne; by apply (Hne c)).
        apply (interleaving_Forall _ _ _ Hrun), Forall_lookup. intros k l'' Hk. apply Forall_forall. intros x Hx ->.
        destruct (decide (k = i)) as [->|Hki]; [rewrite list_lookup_insert_eq in Hk by done; injection Hk as <-; by apply not_elem_of_nil in Hx|by apply (Hother' k l'')].
      * apply not_elem_of_cons in Hc as [Hne Hc]. destruct (IH l) as (pre & post & -> & Hsub & Hpre & Hpost); [by apply list_lookup_insert_eq|done|done|].
        exists (x :: pre), post. split_and!; [done|set_solver|by apply not_elem_of_cons|done].
    + destruct (IH l) as (pre & post & -> & Hsub & Hpre & Hpost); [by rewrite list_lookup_insert_ne|done|done|].
      exists (a :: pre), post. split_and!; [done|set_solver| |done]. apply not_elem_of_cons. split; [|done]. intros ->. apply (Hother j _ Hji Hj). by left.
Qed.

(** If only the [i]-th list has elements outside [P], so does what follows its last one. *)
Lemma interleaving_last (P : A → Prop) ls ops i l1 w l2 : interleaving ls ops → ls !! i = Some (l1 ++ w :: l2) → Forall P l2 →
  (∀ j l', j ≠ i → ls !! j = Some l' → Forall P l') → ∃ pre post, ops = pre ++ w :: post ∧ Forall P post.
Proof.
  intros Hi. revert l1. induction Hi as [ls Hls|ls j a l' ops Hj Hrun IH]; intros l1 Hl Hl2 Hother.
  - rewrite Forall_lookup in Hls. by apply Hls, app_nil in Hl as [_ ?].
  - assert (Hlt : j < length ls) by by apply lookup_lt_Some in Hj.
    assert (Hother' : ∀ k l'', k ≠ i → <[j := l']> ls !! k = Some l'' → Forall P l'').
    { intros k l'' Hk. destruct (decide (j = k)) as [->|Hjk]; [|rewrite list_lookup_insert_ne by done; by apply Hother].
      rewrite list_lookup_insert_eq by done. intros [= <-]. apply (Hother k _ Hk) in Hj. by apply Forall_cons in Hj as [_ ?]. }
    destruct (decide (j = i)) as [->|Hji].
    + rewrite Hj in Hl. destruct l1 as [|x l1]; injection Hl as -> ->.
      * exists [], ops. split; [done|]. apply (interleaving_Forall _ _ _ Hrun), Forall_lookup. intros k l'' Hk.
        destruct (decide (k = i)) as [->|Hki]; [rewrite list_lookup_insert_eq in Hk by done; by injection Hk as <-|by apply (Hother' k l'')].
      * destruct (IH l1) as (pre & post & -> & Hpost); [by apply list_lookup_insert_eq|done|done|]. by exists (x :: pre), post.
    + destruct (IH l1) as (pre & post & -> & Hpost); [by rewrite list_lookup_insert_ne|done|done|]. by exists (a :: pre), post.
Qed.
End interleavings.

(** ** Histories of a handler: saves, crashes and restarts *)

Section histories.
Context {B : Type} (e : engine (B := B)) (h : handler (B := B)).
Abbreviation disk := (gmap path (node B)).
Let root := default_local_dir h.
Let tracker := get_checkpoint_tracker_filename root.
Abbreviation folder := (step_folder h).
Definition data_file (step : Z) (rank : nat) : path := folder step ++ [dataloader_name h rank].

Definition orders (n : Z) (shards tail : list (io B)) : Prop :=
  shards ≡ₚ shard_writes e n (folder n) ∧ interleaving (handler_writes h n <$> handler_ranks e h) tail.

(** The disk, the paths that the running manager remembers, the last step whose save rank 0
    committed, and whether every rank has finished that save.  A crash leaves a prefix of a
    save's operations, and a new process starts with no path to remember. *)
Inductive reachable : disk → list path → option Z → bool → Prop :=
  | reach_start d : d !! tracker = None → (∀ n rank, d !! data_file n rank = None) → reachable d [] None true
  | reach_save d previous saved finished n shards tail :
      reachable d previous saved finished → (default 0 saved < n)%Z → orders n shards tail →
      let saved := save_checkpoint e h previous n shards tail in
      reachable (exec_all saved.1 d) saved.2 (Some n) true
  | reach_crash_early d previous saved finished n shards tail k :
      reachable d previous saved finished → (default 0 saved < n)%Z → orders n shards tail →
      let ops := (save_checkpoint e h previous n shards tail).1 in
      commit h ∉ take k ops → reachable (exec_all (take k ops) d) [] saved finished
  | reach_crash_late d previous saved finished n shards tail k :
      reachable d previous saved finished → (default 0 saved < n)%Z → orders n shards tail →
      let ops := (save_checkpoint e h previous n shards tail).1 in
      commit h ∈ take k ops → reachable (exec_all (take k ops) d) [] (Some n) false.

(** What the engines load from a checkpoint. *)
Definition complete (d : disk) (s : Z) : Prop :=
  is_Some (d !! folder s) ∧ (∀ p c, Write p c ∈ shard_writes e s (folder s) → d !! p = Some (File c)).

(** *** Which paths the operations of a save touch *)

Lemma folder_prefix m s x : folder m `prefix_of` (folder s ++ x) → m = s.
Proof.
  intros [r Hr]. unfold step_folder in Hr. rewrite <- !app_assoc in Hr. apply app_inv_head in Hr.
  cbn in Hr. injection Hr as Hr _. by apply (inj pretty) in Hr.
Qed.
Lemma folder_not_name m x : (∀ k, step_name k ≠ x) → ¬ folder m `prefix_of` (root ++ [x]).
Proof.
  intros Hx [r Hr]. unfold step_folder in Hr. fold root in Hr. rewrite <- app_assoc in Hr. apply app_inv_head in Hr.
  cbn in Hr. injection Hr as Hr _. by apply (Hx m).
Qed.
Lemma name_not_folder s x y : (∀ k, step_name k ≠ y) → ¬ (root ++ [y]) `prefix_of` (folder s ++ x).
Proof.
  intros Hy [r Hr]. unfold step_folder in Hr. fold root in Hr. rewrite <- !app_assoc in Hr. apply app_inv_head in Hr.
  cbn in Hr. injection Hr as Hr _. by apply (Hy s).
Qed.
Lemma step_not_tracker k : step_name k ≠ tracker_name.
Proof. discriminate. Qed.
Lemma step_not_temp k : step_name k ≠ tracker_name +:+ ".tmp".
Proof. discriminate. Qed.

(** But for the commit a save only removes folders in [removed], and writes below its own
    folder and to the temporary file. *)
Definition save_op (removed : list Z) (n : Z) (o : io B) : Prop :=
  match o with
  | MakeDirs p => p = folder n ∨ p = folder n ++ ["huggingface"%string]
  | Write p c => (∃ x, p = folder n ++ x ∧ x ≠ []) ∨ (p = temp_tracker_file h ∧ c = Text (pretty n))
  | Rmtree p => ∃ m, m ∈ removed ∧ p = folder m
  | Rename _ _ => False
  end.

Lemma shard_write_op n local rank o : o ∈ rank_writes e n local rank →
  ∃ kind c, o = Write (local ++ [shard_name e kind rank]) c.
Proof.
  unfold rank_writes. rewrite !elem_of_app. intros [Hin|[Hin|Hin]]; case_match;
    first [by apply not_elem_of_nil in Hin | apply list_elem_of_singleton in Hin as ->; eauto].
Qed.

Lemma shard_writes_ops n shards : shards ≡ₚ shard_writes e n (folder n) → Forall (save_op [] n) shards.
Proof.
  intros ->. unfold shard_writes. apply Forall_forall. intros o Ho.
  apply list_elem_of_join in Ho as (l & Ho & (r & -> & Hr)%list_elem_of_fmap).
  apply shard_write_op in Ho as (kind & c & ->). left. by exists [shard_name e kind r].
Qed.

Lemma Forall_two {A} (P : A → Prop) a b : P a → P b → Forall P [a; b].
Proof. by repeat constructor. Qed.

Lemma hf_writes_ops removed n files : Forall (save_op removed n) (hf_writes (folder n) files).
Proof.
  unfold hf_writes. constructor; [by right|]. apply Forall_fmap, Forall_true. intros f. cbn.
  left. by eexists [_; _].
Qed.

Lemma rank0_writes_ops removed n : Forall (save_op removed n) (rank0_writes e n (folder n)).
Proof.
  unfold rank0_writes. repeat (apply Forall_app; split); try apply hf_writes_ops.
  - apply Forall_singleton. left. by eexists [_].
  - case_match; [|constructor]. apply Forall_singleton. left. by eexists [_].
  - case_match; [apply hf_writes_ops | constructor].
Qed.

Lemma handler_writes_ops n rank : Forall (λ o, save_op [] n o ∨ o = commit h) (handler_writes h n rank).
Proof.
  assert (Hmk : save_op [] n (MakeDirs (folder n))) by by left.
  assert (Hfile : ∀ x c, save_op [] n (Write (folder n ++ [x]) c)) by (intros x c; left; by eexists [_]).
  assert (Htemp : save_op [] n (Write (temp_tracker_file h) (Text (pretty n)))) by by right.
  unfold handler_writes, lora_writes, dataloader_writes, tracker_writes. rewrite !Forall_app.
  split_and!; repeat case_match; rewrite ?Forall_cons; auto 10.
Qed.

(** *** Retention keeps the latest checkpoint *)

Lemma ensure_spec K (previous : list path) : K ≠ Some 1%Z →
  ∃ j, ensure_checkpoint_capacity (B := B) K previous = (Rmtree <$> take j previous, drop j previous) ∧
    (j = 0 ∨ j < length previous).
Proof.
  intros HK. unfold ensure_checkpoint_capacity, remove_previous_save_local_path.
  destruct K as [k|]; [|by exists 0; split; [rewrite drop_0 | left]].
  destruct ((1 <? k)%Z && (k <=? Z.of_nat (length previous))%Z) eqn:Hk; [|by exists 0; split; [rewrite drop_0 | left]].
  apply andb_true_iff in Hk as [Hk1%Z.ltb_lt Hk2%Z.leb_le]. eexists. split; [done|]. right. lia.
Qed.
Lemma register_spec new K (previous : list path) : K ≠ Some 1%Z →
  ∃ j, register_checkpoint (B := B) new K previous = (Rmtree <$> take j previous, drop j (previous ++ [new])) ∧
    (j = 0 ∨ j < length previous).
Proof.
  intros HK. unfold register_checkpoint, remove_previous_save_local_path.
  destruct K as [k|]; [|by exists 0; split; [rewrite drop_0 | left]].
  destruct ((0 <? k)%Z && (k <? Z.of_nat (length (previous ++ [new])))%Z) eqn:Hk; [|by exists 0; split; [rewrite drop_0 | left]].
  apply andb_true_iff in Hk as [Hk1%Z.ltb_lt Hk2%Z.ltb_lt].
  assert (k ≠ 1%Z) by congruence. rewrite length_app in *. cbn [length] in *.
  eexists. rewrite take_app_le by lia. split; [done|]. right. lia.
Qed.

Lemma removed_ops removed n steps : Forall (λ m, m ∈ removed) steps →
  Forall (save_op removed n) (Rmtree <$> (folder <$> steps)).
Proof. intros Hs. rewrite <- list_fmap_compose. apply Forall_fmap. eapply Forall_impl; [exact Hs|]. intros m Hm. by exists m. Qed.

Lemma save_op_weaken removed removed' n o : removed ⊆ removed' → save_op removed n o → save_op removed' n o.
Proof. intros Hr. destruct o; cbn; try done. intros (m & Hm & ->). exists m. split; [by apply Hr | done]. Qed.

Lemma save_spec steps n shards tail : max_ckpt_to_keep h ≠ Some 1%Z → shards ≡ₚ shard_writes e n (folder n) →
  ∃ eng j, save_checkpoint e h (folder <$> steps) n shards tail = (eng ++ tail, folder <$> drop j (steps ++ [n])) ∧
    Forall (save_op (take j steps) n) eng ∧ (j = 0 ∨ j < length steps) ∧
    MakeDirs (folder n) ∈ eng ∧ shards ⊆ eng ∧
    (∀ p c, Write p c ∈ eng → Write p c ∈ shards ∨ Write p c ∈ rank0_writes e n (folder n)).
Proof.
  intros HK Hs. unfold save_checkpoint, fsdp_save_checkpoint.
  destruct (ensure_spec (max_ckpt_to_keep h) (folder <$> steps) HK) as (j1 & -> & Hj1).
  rewrite <- fmap_drop, <- fmap_take.
  destruct (register_spec (folder n) (max_ckpt_to_keep h) (folder <$> drop j1 steps) HK) as (j2 & -> & Hj2).
  rewrite length_fmap in Hj1, Hj2. rewrite length_drop in Hj2. rewrite <- fmap_take.
  eexists _, (j1 + j2). split; [|split; [|split]].
  - f_equal. change [folder n] with (folder <$> [n]). rewrite <- fmap_app, <- fmap_drop. f_equal.
    rewrite <- drop_drop. destruct Hj1 as [->|Hj1]; [by rewrite !drop_0|]. by rewrite (drop_app_le steps) by lia.
  - assert (Hsub : ∀ l, Forall (save_op [] n) l → Forall (save_op (take (j1 + j2) steps) n) l).
    { intros l Hl. eapply Forall_impl; [exact Hl|]. intros o. apply save_op_weaken. set_solver. }
    rewrite !Forall_app. split_and!.
    + apply removed_ops, Forall_forall. intros m Hm. rewrite <- take_take_drop. by apply elem_of_app; left.
    + apply Forall_singleton. by left.
    + apply Hsub. by apply shard_writes_ops.
    + apply rank0_writes_ops.
    + apply removed_ops, Forall_forall. intros m Hm. rewrite <- take_take_drop. by apply elem_of_app; right.
  - lia.
  - split_and!; [set_solver..|]. intros p c. rewrite !elem_of_app.
    intros [Hin|[Hin|[Hin|[Hin|Hin]]]]; auto;
      first [by apply list_elem_of_fmap in Hin as (? & ? & _) | by apply list_elem_of_singleton in Hin].
Qed.

(** *** What a save leaves alone *)

Lemma save_op_keeps removed n o s x : save_op removed n o → s ∉ removed → s ≠ n → keeps (folder s ++ x) o.
Proof.
  intros Ho Hs Hn. destruct o as [p|p c|p|]; cbn in *; [done| | |done].
  - intros Hp. destruct Ho as [(y & -> & _)|[-> _]].
    + apply Hn. symmetry. apply (folder_prefix n s x). rewrite <- Hp. by apply prefix_app_r.
    + apply (name_not_folder s x _ step_not_temp). rewrite <- Hp. done.
  - destruct Ho as (m & Hm & ->). intros ->%folder_prefix. done.
Qed.
Lemma save_op_tracker removed n o : save_op removed n o → keeps tracker o ∧ avoids tracker o.
Proof.
  assert (Ht : ∀ m, ¬ folder m `prefix_of` tracker) by (intros m; apply folder_not_name, step_not_tracker).
  intros Ho. destruct o as [p|p c|p|]; cbn in *; try done.
  - split; [done|]. destruct Ho as [->| ->]; [rewrite <-(app_nil_r (folder n))|]; apply name_not_folder, step_not_tracker.
  - assert (p ≠ tracker); [|done]. intros ->. destruct Ho as [(y & Hy & _)|[Hp _]].
    + apply (Ht n). rewrite Hy. by apply prefix_app_r.
    + by apply app_inv_head in Hp.
  - destruct Ho as (m & _ & ->). by split.
Qed.
Lemma save_op_stays removed n o s : save_op removed n o → s ∉ removed → stays (folder s) o ∧ stays root o.
Proof.
  intros Ho Hs. destruct o as [p|p c|p|]; cbn in *; try done. destruct Ho as (m & Hm & ->). split.
  - intros Hp. apply Hs. assert (m = s) as <-; [|done]. apply (folder_prefix m s []). by rewrite app_nil_r.
  - intros Hp%prefix_length. unfold step_folder in Hp. fold root in Hp. rewrite length_app in Hp. cbn in Hp. lia.
Qed.
Lemma commit_keeps s x : keeps (folder s ++ x) (commit h) ∧ stays (folder s) (commit h) ∧ stays root (commit h).
Proof.
  assert (Ht : temp_tracker_file h ≠ folder s ++ x).
  { intros Hp. apply (name_not_folder s x _ step_not_temp). by rewrite <- Hp. }
  assert (Hc : tracker ≠ folder s ++ x).
  { intros Hp. apply (name_not_folder s x _ step_not_tracker). by rewrite <- Hp. }
  split_and!; [done | |].
  - cbn. intros Hp. apply (name_not_folder s [] _ step_not_temp). rewrite app_nil_r, <- Hp. done.
  - cbn. intros Hp%(f_equal length). unfold temp_tracker_file in Hp. fold root in Hp. rewrite length_app in Hp. cbn in Hp. lia.
Qed.

(** *** A completed save can be loaded *)

Lemma shard_name_inj kind r r' : shard_name e kind r = shard_name e kind r' → r = r'.
Proof.
  unfold shard_name. intros Hs. do 4 apply (inj (String.append _)) in Hs. apply sapp_inv_tail in Hs. by apply (inj pretty) in Hs.
Qed.

Lemma in_rank_writes n local r p c : Write p c ∈ rank_writes e n local r →
  (should_model (save_contents e) = true ∧ p = local ++ [shard_name e "model" r] ∧ c = Data (model_state e n r)) ∨
  (should_optimizer (save_contents e) = true ∧ p = local ++ [shard_name e "optim" r] ∧ c = Data (optim_state e n r)) ∨
  (should_extra (save_contents e) = true ∧ p = local ++ [shard_name e "extra_state" r] ∧ c = Data (extra_state e n r)).
Proof.
  unfold rank_writes. rewrite !elem_of_app. intros [Hin|[Hin|Hin]]; case_match;
    first [by apply not_elem_of_nil in Hin | apply list_elem_of_singleton in Hin as [= -> ->]]; auto.
Qed.
Lemma in_shard_writes n local p c : Write p c ∈ shard_writes e n local ↔
  ∃ r, (r < world_size e)%nat ∧ Write p c ∈ rank_writes e n local r.
Proof.
  unfold shard_writes. rewrite list_elem_of_join. split.
  - intros (l & Ho & (r & -> & Hr)%list_elem_of_fmap). exists r. apply elem_of_seq in Hr. split; [lia | done].
  - intros (r & Hr & Hin). eexists. split; [exact Hin|]. apply list_elem_of_fmap. exists r. split; [done|].
    apply elem_of_seq. lia.
Qed.
Lemma shard_writes_unique n local p c c' :
  Write p c ∈ shard_writes e n local → Write p c' ∈ shard_writes e n local → c = c'.
Proof.
  intros (r & _ & Hr)%in_shard_writes (r' & _ & Hr')%in_shard_writes.
  apply in_rank_writes in Hr, Hr'. destruct_or! Hr; destruct Hr as (_ & -> & ->);
    destruct_or! Hr'; destruct Hr' as (_ & Hp & ->); apply app_inj_tail in Hp as [_ Hp];
    first [discriminate | apply shard_name_inj in Hp as ->; done].
Qed.

(** The files of a checkpoint besides the shards and the dataloader's state. *)
Definition other_file (n : Z) (p : path) : Prop :=
  ∃ x, p = folder n ++ x ∧ (length x = 2 ∨ x = ["fsdp_config.json"%string] ∨ x = ["lora_train_meta.json"%string]).
Lemma in_rank0_writes n p c : Write p c ∈ rank0_writes e n (folder n) → other_file n p.
Proof.
  assert (Hhf : ∀ files, Write p c ∈ hf_writes (folder n) files → other_file n p).
  { intros files [Hin|(f & Hf & _)%list_elem_of_fmap]%elem_of_cons; [done|]. injection Hf as -> _. eexists. by split; [|left]. }
  unfold rank0_writes. rewrite !elem_of_app. intros [Hin|[Hin|[Hin|Hin]]]; [by eapply Hhf| | |].
  - apply list_elem_of_singleton in Hin as [= -> _]. eexists. split; [done|]. auto.
  - case_match; [apply list_elem_of_singleton in Hin as [= -> _] | by apply not_elem_of_nil in Hin].
    eexists. split; [done|]. auto.
  - case_match; [by eapply Hhf | by apply not_elem_of_nil in Hin].
Qed.
Lemma in_handler_writes n rank p c : Write p c ∈ handler_writes h n rank →
  other_file n p ∨
  (is_mp_src_rank_with_outputs h rank = true ∧ p = data_file n rank ∧ (c = Text EmptyString ∨ c = Data (dataloader_state h n rank))) ∨
  (p = temp_tracker_file h ∧ c = Text (pretty n)).
Proof.
  unfold handler_writes, lora_writes, dataloader_writes, tracker_writes, data_file. rewrite !elem_of_app.
  intros [Hin|[Hin|Hin]]; repeat case_match; try (by apply not_elem_of_nil in Hin).
  - apply elem_of_cons in Hin as [Hin|Hin]; [done|].
    apply list_elem_of_singleton in Hin as [= -> _]. left. eexists. split; [done|]. auto.
  - repeat (apply elem_of_cons in Hin as [[= -> ->]|Hin]; [by auto 6|]). apply elem_of_cons in Hin as [Hin|Hin]; [done|].
    apply elem_of_cons in Hin as [[= -> ->]|Hin]; [by auto 6|]. apply list_elem_of_singleton in Hin as [= -> ->]. auto 6.
  - apply elem_of_cons in Hin as [[= -> ->]|Hin]; [by auto|]. by apply list_elem_of_singleton in Hin.
Qed.

Lemma not_other n x : x ≠ "fsdp_config.json"%string → x ≠ "lora_train_meta.json"%string → ¬ other_file n (folder n ++ [x]).
Proof.
  intros Hf Hl (y & Hy & Hc). apply app_inv_head in Hy as <-. destruct Hc as [Hc|[Hc|Hc]]; [done | congruence..].
Qed.
Lemma temp_not_below n x : temp_tracker_file h ≠ folder n ++ x.
Proof. intros Hp. apply (name_not_folder n x _ step_not_temp). by rewrite <- Hp. Qed.

Lemma last_write (p : path) (c : content B) (l1 l2 : list (io B)) (d : disk) : Forall (keeps p) l2 → exec_all (l1 ++ Write p c :: l2) d !! p = Some (File c).
Proof. intros Hk. unfold exec_all. rewrite foldl_app. cbn. apply exec_all_keeps; [done|]. apply lookup_insert_eq. Qed.

Section completed.
Context (removed : list Z) (n : Z) (ops : list (io B)) (d : disk).
Hypothesis Hops : Forall (λ o, save_op removed n o ∨ o = commit h) ops.
Hypothesis Hn : n ∉ removed.

Lemma file_stays x c : Write (folder n ++ x) c ∈ ops → (∀ c', Write (folder n ++ x) c' ∈ ops → c' = c) →
  exec_all ops d !! (folder n ++ x) = Some (File c).
Proof using Hops Hn.
  intros Hin Hu. apply written_stays; [done|]. apply Forall_forall. intros o Ho.
  destruct (proj1 (Forall_forall _ _) Hops o Ho) as [Hs|Hs]; [|left; rewrite Hs; apply commit_keeps].
  destruct o as [q|q c'|q|]; cbn in *; [auto| | |done].
  - destruct (decide (q = folder n ++ x)) as [->|]; [right; f_equal; by apply Hu | by left].
  - left. destruct Hs as (m & Hm & ->). intros ->%folder_prefix. done.
Qed.

Lemma commit_moves pre post : ops = pre ++ commit h :: post → commit h ∉ pre → commit h ∉ post →
  Write (temp_tracker_file h) (Text (pretty n)) ∈ pre → exec_all ops d !! tracker = Some (File (Text (pretty n))).
Proof using Hops.
  intros -> Hno1 Hno2 Hin. apply Forall_app in Hops as [Hpre [_ Hpost]%Forall_cons]. rewrite Forall_forall in Hpre, Hpost.
  unfold exec_all. rewrite foldl_app. cbn [foldl]. apply exec_all_keeps.
  { apply Forall_forall. intros o Ho. destruct (Hpost o Ho) as [Hs|Hs]; [by eapply save_op_tracker|]. by subst o. }
  assert (Ht : exec_all pre d !! temp_tracker_file h = Some (File (Text (pretty n)))).
  { apply written_stays; [done|]. apply Forall_forall. intros o Ho. destruct (Hpre o Ho) as [Hs|Hs]; [|by subst o].
    destruct o as [q|q c'|q|]; cbn in *; [auto| | |done].
    - destruct Hs as [(x & -> & _)|[-> ->]]; [left; intros Hp; by apply (temp_not_below n x) | by right].
    - left. destruct Hs as (m & Hm & ->). apply folder_not_name, step_not_temp. }
  unfold exec_all in Ht. cbn. rewrite Ht. apply lookup_insert_eq.
Qed.

Lemma folders_stay p : MakeDirs (folder n) ∈ ops → p `prefix_of` folder n → p ≠ [] →
  (p = folder n ∨ p = root) → is_Some (exec_all ops d !! p).
Proof using Hops Hn.
  intros Hin Hp Hne Hor. eapply made_stays; [exact Hin | done..|]. eapply Forall_impl; [exact Hops|]. intros o [Ho| ->].
  - apply (save_op_stays _ _ _ n) in Ho as [H1 H2]; [|done]. by destruct Hor as [->| ->].
  - destruct Hor as [->| ->]; apply (commit_keeps n []).
Qed.
End completed.

Lemma shard_path n p c : Write p c ∈ shard_writes e n (folder n) →
  ∃ x, p = folder n ++ [x] ∧ x ≠ "fsdp_config.json"%string ∧ x ≠ "lora_train_meta.json"%string ∧ (∀ rank, x ≠ dataloader_name h rank).
Proof.
  intros (r & _ & Hr%in_rank_writes)%in_shard_writes. destruct_or! Hr; destruct Hr as (_ & -> & _); eexists; by split_and!.
Qed.

(** *** The handlers' part of a save *)

Lemma handler_rank i n l : (handler_writes h n <$> handler_ranks e h) !! i = Some l → i ∈ handler_ranks e h ∧ l = handler_writes h n i.
Proof.
  rewrite list_lookup_fmap. intros (r & Hr & ->)%fmap_Some. apply list_elem_of_lookup_2 in Hr as Hin. unfold handler_ranks in *.
  destruct (spmd h); [apply lookup_seq in Hr as [-> _]; done|]. apply list_lookup_singleton_Some in Hr as [-> <-]. done.
Qed.

Lemma commit_only_first n i : commit h ∈ handler_writes h n i → i = 0.
Proof.
  unfold handler_writes, lora_writes, dataloader_writes, tracker_writes. destruct i; [done|]. cbn [Nat.eqb]. rewrite !elem_of_app.
  intros [Hin|[Hin|Hin]]; repeat case_match; try (by apply not_elem_of_nil in Hin).
  repeat (apply elem_of_cons in Hin as [Hin|Hin]; [done|]). by apply not_elem_of_nil in Hin.
Qed.

Lemma first_writes n : ∃ l, handler_writes h n 0 = l ++ [commit h] ∧ commit h ∉ l ∧ Write (temp_tracker_file h) (Text (pretty n)) ∈ l.
Proof.
  exists (lora_writes h n 0 ++ dataloader_writes h n 0 ++ [Write (temp_tracker_file h) (Text (pretty n))]). split; [|split].
  - unfold handler_writes, tracker_writes. cbn [Nat.eqb]. by rewrite <-!(assoc_L (++)).
  - unfold lora_writes, dataloader_writes. rewrite !elem_of_app. intros [Hin|[Hin|Hin]]; repeat case_match; try (by apply not_elem_of_nil in Hin);
      repeat (apply elem_of_cons in Hin as [Hin|Hin]; [done|]); by apply not_elem_of_nil in Hin.
  - rewrite !elem_of_app. right. right. by apply list_elem_of_singleton.
Qed.

Definition is_source (rank : nat) : Prop := rank ∈ handler_ranks e h ∧ is_mp_src_rank_with_outputs h rank = true.
(** No two ranks save the dataloader state of the same data-parallel rank. *)
Definition one_source_each : Prop := ∀ r1 r2, is_source r1 → is_source r2 → dp_rank h r1 = dp_rank h r2 → r1 = r2.

Lemma data_file_inj m n r1 r2 : data_file m r1 = data_file n r2 → m = n ∧ dp_rank h r1 = dp_rank h r2.
Proof.
  unfold data_file. intros Hp. split; [apply (folder_prefix m n [dataloader_name h r2]); rewrite <-Hp; by apply prefix_app_r|].
  apply app_inj_tail in Hp as [_ Hp]. unfold dataloader_name in Hp. by apply (inj (String.append _)), sapp_inv_tail, (inj pretty) in Hp.
Qed.
Lemma data_not_other m n rank : ¬ other_file n (data_file m rank).
Proof.
  intros (x & Hx & Hor). unfold data_file in Hx. assert (m = n) as -> by (apply (folder_prefix m n x); rewrite <-Hx; by apply prefix_app_r).
  apply app_inv_head in Hx as <-. destruct Hor as [?|[[= ?]|[= ?]]]; done.
Qed.

(** What the operations do to the file of a source: nothing, or write its state at the step. *)
Definition tame (rank : nat) (o : io B) : Prop :=
  match o with
  | MakeDirs p => ∀ m, ¬ data_file m rank `prefix_of` p
  | Write p c => ∀ m, p = data_file m rank → c = Text EmptyString ∨ c = Data (dataloader_state h m rank)
  | Rmtree _ => True
  | Rename _ p => ∀ m, p ≠ data_file m rank
  end.
Definition data_ok (d : disk) (rank : nat) : Prop := ∀ m,
  d !! data_file m rank = None ∨ d !! data_file m rank = Some (File (Text EmptyString)) ∨
  d !! data_file m rank = Some (File (Data (dataloader_state h m rank))).

Lemma exec_tame rank o d : tame rank o → data_ok d rank → data_ok (exec d o) rank.
Proof.
  intros Ho Hd m. specialize (Hd m). destruct o as [p|p c|p|a b]; cbn in *.
  - by rewrite make_dirs_avoids.
  - destruct (decide (p = data_file m rank)) as [->|]; [|by rewrite lookup_insert_ne]. rewrite lookup_insert_eq. destruct (Ho m eq_refl) as [->| ->]; auto.
  - unfold rmtree. destruct (filter _ d !! data_file m rank) as [x|] eqn:E; [|by left]. apply map_lookup_filter_Some in E as [E _]. by rewrite <-E.
  - destruct (d !! a); [|done]. rewrite lookup_insert_ne by done. destruct (decide (a = data_file m rank)) as [->|]; [left; by apply lookup_delete_eq|].
    by rewrite lookup_delete_ne.
Qed.
Lemma exec_all_tame rank ops d : Forall (tame rank) ops → data_ok d rank → data_ok (exec_all ops d) rank.
Proof. intros Hk. revert d. induction Hk as [|o ops Ho _ IH]; intros d Hd; [done|]. by apply (IH (exec d o)), exec_tame. Qed.

Lemma save_op_tame removed n rank o : save_op removed n o →
  (∀ p c, o = Write p c → ∀ m, p = data_file m rank → c = Text EmptyString ∨ c = Data (dataloader_state h m rank)) → tame rank o.
Proof.
  intros Ho Hw. destruct o as [p|p c|p|]; cbn in *; [|by apply Hw|done|done].
  intros m Hp. unfold data_file in Hp. destruct Ho as [->| ->].
  - apply prefix_length in Hp as Hl. unfold step_folder in Hl. rewrite !length_app in Hl. cbn in Hl. lia.
  - assert (m = n) as -> by (apply (folder_prefix m n ["huggingface"%string]); etrans; [|exact Hp]; by apply prefix_app_r).
    destruct Hp as [x Hp]. rewrite <-app_assoc in Hp. apply app_inv_head in Hp. by injection Hp.
Qed.
Lemma commit_tame rank : tame rank (commit h).
Proof. intros m Hp. apply (name_not_folder m [dataloader_name h rank] _ step_not_tracker). unfold data_file in Hp. by rewrite <-Hp. Qed.

Lemma engine_tame removed n rank shards eng : shards ≡ₚ shard_writes e n (folder n) → Forall (save_op removed n) eng →
  (∀ p c, Write p c ∈ eng → Write p c ∈ shards ∨ Write p c ∈ rank0_writes e n (folder n)) → Forall (tame rank) eng.
Proof.
  intros Hs Hall Hw. apply Forall_forall. intros o Ho. rewrite Forall_forall in Hall. apply (save_op_tame removed n); [by apply Hall|].
  intros p c -> m ->. exfalso. destruct (Hw _ _ Ho) as [Hin|Hin].
  - rewrite Hs in Hin. apply shard_path in Hin as (x & Hx & _ & _ & Hne). apply app_inj_tail in Hx as [_ Hx]. by apply (Hne rank).
  - apply in_rank0_writes in Hin. by apply data_not_other in Hin.
Qed.
Lemma handler_tame n rank r : one_source_each → is_source rank → r ∈ handler_ranks e h → Forall (tame rank) (handler_writes h n r).
Proof.
  intros Hone Hsrc Hr. pose proof (handler_writes_ops n r) as Hall. apply Forall_forall. intros o Ho. rewrite Forall_forall in Hall.
  destruct (Hall o Ho) as [Hs| ->]; [|apply commit_tame]. apply (save_op_tame [] n); [done|]. intros p c -> m ->.
  apply in_handler_writes in Ho as [Ho|[(Hmp & Hp & Hc)|[Hp _]]]; [by apply data_not_other in Ho| |].
  - apply data_file_inj in Hp as [-> Hdp]. rewrite (Hone rank r Hsrc (conj Hr Hmp) Hdp). by destruct Hc as [->| ->]; auto.
  - symmetry in Hp. by apply temp_not_below in Hp.
Qed.

(** The handlers' operations, as far as they have got. *)
Section tail.
Context (n : Z) (parts : list (list (io B))) (tail : list (io B)).
Hypothesis Hparts : Forall2 prefix parts (handler_writes h n <$> handler_ranks e h).
Hypothesis Htail : interleaving parts tail.

Lemma part_of i l : parts !! i = Some l → i ∈ handler_ranks e h ∧ l `prefix_of` handler_writes h n i.
Proof using Hparts. intros Hl. destruct (Forall2_lookup_l _ _ _ _ _ Hparts Hl) as (l' & Hl' & Hp). apply handler_rank in Hl' as [? ->]. by split. Qed.

Lemma tail_Forall (P : io B → Prop) : (∀ r, r ∈ handler_ranks e h → Forall P (handler_writes h n r)) → Forall P tail.
Proof using Hparts Htail.
  intros HP. apply (interleaving_Forall _ _ _ Htail), Forall_lookup. intros i l [Hi [l' Hl]]%part_of. specialize (HP i Hi).
  rewrite Hl in HP. by apply Forall_app in HP as [? _].
Qed.

(** Once rank 0 has committed, it has done all it has to. *)
Lemma committed_first : commit h ∈ tail → parts !! 0 = Some (handler_writes h n 0).
Proof using Hparts Htail.
  intros Hin. assert (∃ i l, parts !! i = Some l ∧ commit h ∈ l) as (i & l & Hi & Hl).
  { assert (Hall : Forall (λ o, ∃ i l, parts !! i = Some l ∧ o ∈ l) tail); [|by rewrite Forall_forall in Hall; apply Hall].
    apply (interleaving_Forall _ _ _ Htail), Forall_lookup. intros i l Hi. apply Forall_forall. eauto. }
  destruct (part_of _ _ Hi) as [_ [r Hr]]. assert (i = 0) as -> by (apply (commit_only_first n); rewrite Hr; apply elem_of_app; by left).
  rewrite Hi. f_equal. destruct (first_writes n) as (l0 & Hl0 & Hno & _). rewrite Hl0 in Hr.
  destruct r as [|x r _] using rev_ind; [by rewrite app_nil_r in Hr; rewrite Hl0|]. rewrite (assoc_L (++)) in Hr. apply app_inj_tail in Hr as [Hr _].
  exfalso. apply Hno. rewrite Hr. apply elem_of_app. by left.
Qed.

Lemma tail_commit : parts !! 0 = Some (handler_writes h n 0) → ∃ pre post, tail = pre ++ commit h :: post ∧
  Write (temp_tracker_file h) (Text (pretty n)) ∈ pre ∧ commit h ∉ pre ∧ commit h ∉ post.
Proof using Hparts Htail.
  intros H0. destruct (first_writes n) as (l & Hl & Hno & Hin). rewrite Hl in H0.
  destruct (interleaving_mark parts tail 0 l (commit h) Htail H0 Hno) as (pre & post & -> & Hsub & Hpre & Hpost).
  - intros i l' Hi Hl' Hc. apply Hi. destruct (part_of _ _ Hl') as [_ [r Hr]]. apply (commit_only_first n). rewrite Hr. apply elem_of_app. by left.
  - exists pre, post. split_and!; try done. by apply Hsub.
Qed.

Lemma other_keeps_data rank r l : one_source_each → is_source rank → r ≠ rank → parts !! r = Some l → Forall (keeps (data_file n rank)) l.
Proof using Hparts.
  intros Hone Hsrc Hne [Hr [l' Hl]]%part_of. assert (Hall : Forall (keeps (data_file n rank)) (handler_writes h n r)); [|by rewrite Hl in Hall; apply Forall_app in Hall as [? _]].
  pose proof (handler_writes_ops n r) as Hops. rewrite Forall_forall in Hops. apply Forall_forall. intros o Ho.
  destruct (Hops o Ho) as [Hs| ->]; [|by apply commit_keeps]. destruct o as [p|p c|p|]; cbn in Hs |- *; [done| | |done].
  - intros ->. apply in_handler_writes in Ho as [Ho|[(Hmp & Hp & _)|[Hp _]]]; [by apply data_not_other in Ho| |].
    + apply data_file_inj in Hp as [_ Hdp]. apply Hne. symmetry. by apply Hone.
    + symmetry in Hp. by apply temp_not_below in Hp.
  - by destruct Hs as (m & Hm%not_elem_of_nil & _).
Qed.

(** A rank that is through has its state in its file. *)
Lemma tail_data rank : one_source_each → is_source rank → parts !! rank = Some (handler_writes h n rank) →
  ∃ pre post, tail = pre ++ Write (data_file n rank) (Data (dataloader_state h n rank)) :: post ∧ Forall (keeps (data_file n rank)) post.
Proof using Hparts Htail.
  intros Hone Hsrc Hp. pose proof Hsrc as [_ Hmp].
  apply (interleaving_last _ parts tail rank (lora_writes h n rank ++ [MakeDirs (folder n); Write (data_file n rank) (Text EmptyString)]) _ (tracker_writes h n rank) Htail).
  - rewrite Hp. unfold handler_writes, dataloader_writes. rewrite Hmp. by rewrite <-(assoc_L (++)).
  - unfold tracker_writes. case_match; [|constructor]. rewrite !Forall_cons. split_and!; [apply temp_not_below|apply commit_keeps|constructor].
  - intros r l Hne Hl. by apply (other_keeps_data rank r).
Qed.
End tail.

Section retained.
Hypothesis HK : max_ckpt_to_keep h ≠ Some 1%Z.
Hypothesis Hroot : root ≠ [].

(** Once the tracker is committed the checkpoint can be loaded, and every rank that is through
    finds its dataloader state. *)
Lemma save_commits steps n shards tail part parts d : n ∉ steps → shards ≡ₚ shard_writes e n (folder n) →
  Forall2 prefix parts (handler_writes h n <$> handler_ranks e h) → interleaving parts part → parts !! 0 = Some (handler_writes h n 0) →
  ∀ eng previous, save_checkpoint e h (folder <$> steps) n shards tail = (eng ++ tail, previous) →
  let d' := exec_all (eng ++ part) d in
  complete d' n ∧ d' !! tracker = Some (File (Text (pretty n))) ∧ is_Some (d' !! root) ∧
  (∀ rank, one_source_each → is_source rank → parts !! rank = Some (handler_writes h n rank) →
    d' !! data_file n rank = Some (File (Data (dataloader_state h n rank)))).
Proof using HK Hroot.
  intros Hn Hs Hparts Hpart H0 eng previous Hsave. destruct (save_spec steps n shards tail HK Hs) as (eng' & j & Heq & Hops & _ & Hmk & Hsh & Hwr).
  rewrite Heq in Hsave. injection Hsave as ->%app_inv_tail _.
  assert (Hr : n ∉ take j steps) by (intros Hin; apply Hn; rewrite <- (take_drop j steps); apply elem_of_app; by left).
  pose proof (tail_Forall n parts part Hparts Hpart _ (λ r _, handler_writes_ops n r)) as Hpops.
  assert (Hall : Forall (λ o, save_op (take j steps) n o ∨ o = commit h) (eng ++ part)).
  { apply Forall_app. split; [by eapply Forall_impl; [exact Hops|auto]|]. eapply Forall_impl; [exact Hpops|].
    intros o [Ho|Ho]; [left|by right]. eapply save_op_weaken; [|exact Ho]. set_solver. }
  assert (Hmk' : MakeDirs (folder n) ∈ eng ++ part) by (apply elem_of_app; by left).
  split; [split|split; [|split]].
  - apply (folders_stay _ n _ d Hall Hr _ Hmk'); [done | by unfold step_folder; destruct (default_local_dir h) | by left].
  - intros p c Hin. destruct (shard_path n p c Hin) as (x & -> & Hf & Hl & Hd).
    apply (file_stays _ n _ d Hall Hr); [apply elem_of_app; left; apply Hsh; by rewrite Hs|].
    intros c' [[Hc|Hc]%Hwr|Hc]%elem_of_app.
    + rewrite Hs in Hc. by eapply shard_writes_unique.
    + apply in_rank0_writes in Hc. by apply not_other in Hc.
    + assert (Hfrom : Forall (λ o, ∃ r, o ∈ handler_writes h n r) part)
        by (apply (tail_Forall n parts part Hparts Hpart); intros r _; apply Forall_forall; eauto).
      rewrite Forall_forall in Hfrom. destruct (Hfrom _ Hc) as [r Hc'].
      apply in_handler_writes in Hc' as [Hc'|[(_ & Hp & _)|[Hp _]]]; [by apply not_other in Hc'| |].
      * apply app_inj_tail in Hp as [_ Hp]. by destruct (Hd r).
      * by symmetry in Hp; apply temp_not_below in Hp.
  - destruct (tail_commit n parts part Hparts Hpart H0) as (pre & post & -> & Hin & Hpre & Hpost).
    apply (commit_moves _ n _ d Hall (eng ++ pre) post); [by rewrite (assoc_L (++))| |done|apply elem_of_app; by right].
    intros [Hc|Hc]%elem_of_app; [|done]. rewrite Forall_forall in Hops. by apply Hops in Hc.
  - apply (folders_stay _ n _ d Hall Hr _ Hmk'); [by apply prefix_app_r | done | by right].
  - intros rank Hone Hsrc Hp. destruct (tail_data n parts part Hparts Hpart rank Hone Hsrc Hp) as (pre & post & -> & Hk).
    rewrite (assoc_L (++)). by apply last_write.
Qed.

(** A crash before the commit changes nothing of what was saved before. *)
Lemma crash_keeps steps n shards tail d k s : s ∉ take (length steps - 1) steps → s ≠ n → orders n shards tail →
  let ops := (save_checkpoint e h (folder <$> steps) n shards tail).1 in commit h ∉ take k ops →
  let d' := exec_all (take k ops) d in
  (complete d s → complete d' s) ∧ (∀ c, d !! tracker = Some c → d' !! tracker = Some c) ∧
  (d !! tracker = None → d' !! tracker = None) ∧ (is_Some (d !! root) → is_Some (d' !! root)) ∧
  (∀ rank c, d !! data_file s rank = Some c → d' !! data_file s rank = Some c).
Proof using HK.
  clear Hroot.
  intros Hlast Hne [Hs Htail]. destruct (save_spec steps n shards tail HK Hs) as (eng & j & -> & Hops & Hj & _). cbn [fst].
  intros Hk.
  assert (Hr : s ∉ take j steps).
  { destruct Hj as [->|Hj]; [apply not_elem_of_nil|]. intros Hin. apply Hlast.
    rewrite <- (take_drop j (take (length steps - 1) steps)), take_take, Nat.min_l by lia. apply elem_of_app. by left. }
  assert (Hall : Forall (save_op (take j steps) n) (take k (eng ++ tail))).
  { apply Forall_forall. intros o Ho. assert (Ho' : o ∈ eng ++ tail) by (rewrite <-(take_drop k (eng ++ tail)); apply elem_of_app; by left).
    apply elem_of_app in Ho' as [Ho'|Ho']; [by rewrite Forall_forall in Hops; apply Hops|].
    pose proof (tail_Forall n _ tail (reflexivity _) Htail _ (λ r _, handler_writes_ops n r)) as Ht. rewrite Forall_forall in Ht.
    destruct (Ht o Ho') as [Hso|Hso]; [|by subst o]. eapply save_op_weaken; [|exact Hso]. set_solver. }
  assert (Hkeep : ∀ x, Forall (keeps (folder s ++ x)) (take k (eng ++ tail))).
  { intros x. eapply Forall_impl; [exact Hall|]. intros o Ho. by eapply save_op_keeps. }
  split_and!.
  - intros (Hf & Hsh). split.
    + apply exec_all_stays; [|done]. eapply Forall_impl; [exact Hall|]. intros o Ho. by eapply save_op_stays.
    + intros p c Hin. destruct (shard_path s p c Hin) as (x & -> & _). apply exec_all_keeps; [done|]. by apply Hsh.
  - intros c Hc. apply exec_all_keeps; [|done]. eapply Forall_impl; [exact Hall|]. intros o Ho. by eapply save_op_tracker.
  - intros Hc. apply exec_all_avoids; [|done]. eapply Forall_impl; [exact Hall|]. intros o Ho. by eapply save_op_tracker.
  - intros Hc. apply exec_all_stays; [|done]. eapply Forall_impl; [exact Hall|]. intros o Ho. by eapply (save_op_stays _ _ _ s).
  - intros rank c Hc. apply exec_all_keeps; [apply Hkeep|done].
Qed.

(** Whatever part of a save happens, a source's file holds nothing but its states. *)
Lemma save_tame steps n shards tail rank : one_source_each → is_source rank → orders n shards tail →
  Forall (tame rank) (save_checkpoint e h (folder <$> steps) n shards tail).1.
Proof using HK.
  clear Hroot.
  intros Hone Hsrc [Hs Htail]. destruct (save_spec steps n shards tail HK Hs) as (eng & j & -> & Hops & _ & _ & _ & Hwr). cbn [fst].
  apply Forall_app. split; [by eapply engine_tame|]. apply (tail_Forall n _ tail (reflexivity _) Htail). intros r Hr. by apply handler_tame.
Qed.
End retained.

(** *** Loading *)

Lemma pretty_pos s : (0 < s)%Z → pretty s = pretty (Z.to_N s).
Proof. intros Hs. by destruct s. Qed.

Lemma render_snoc p x : p ≠ [] → render (p ++ [x]) = render p +:+ "/" +:+ x.
Proof.
  intros Hp. unfold render. rewrite sapp_assoc. f_equal. induction p as [|a p IH]; [done|].
  destruct p as [|b p]; [done|]. change (str_join "/" ((a :: b :: p) ++ [x])) with (a +:+ "/" +:+ str_join "/" ((b :: p) ++ [x])).
  rewrite IH by done. change (str_join "/" (a :: b :: p)) with (a +:+ "/" +:+ str_join "/" (b :: p)). by rewrite !sapp_assoc.
Qed.

Lemma all_digits_span s : all_digits s = true → span (λ c, if digit_of c then true else false) s = s.
Proof. induction s as [|c s IH]; [done|]. cbn. destruct (digit_of c); [|done]. cbn. intros Hs. by rewrite IH. Qed.

Lemma step_at_name s : (0 < s)%Z → step_at (step_name s) = Some (s, String.length (step_name s)).
Proof.
  intros Hs. unfold step_at, step_name. rewrite (proj2 (startswith_spec _ _)) by by eexists.
  change 12 with (String.length "global_step_"). rewrite sdrop_app, pretty_pos by done.
  rewrite all_digits_span by apply pretty_N_digits. rewrite parse_pretty. csimpl. rewrite Z2N.id by lia. done.
Qed.

Hypothesis Hclean : contains "global_step_" (render root +:+ "/") = false.

Lemma extract_step_folder s : root ≠ [] → (0 < s)%Z → extract_step (render (folder s)) = Some s.
Proof using Hclean.
  intros Hr Hs. unfold extract_step, step_folder. fold root. rewrite render_snoc by done. rewrite <- sapp_assoc.
  rewrite findall_text.
  - rewrite <- (app_nil_r_s (step_name s)).
    change (step_name s) with (String "g" ("lobal_step_" +:+ pretty s)).
    rewrite (findall_hit step_at "g" _ _ s); [done|]. rewrite app_nil_r_s. by apply step_at_name.
  - intros k Hk. unfold step_at. pose proof (tag_free "g" "lobal_step_" (render root +:+ "/") (step_name s) k eq_refl Hclean
      ltac:(right; by eexists) Hk) as Ht.
    change (String "g" "lobal_step_") with "global_step_"%string in Ht. by rewrite Ht.
Qed.

Definition states_at (s : Z) (rank : nat) : option B * option B * option B :=
  let at_step (wanted : bool) (state : Z → nat → B) := if wanted then Some (state s rank) else None in
  (at_step (should_model (load_contents h)) (model_state e), at_step (should_optimizer (load_contents h)) (optim_state e),
   at_step (should_extra (load_contents h)) (extra_state e)).
Definition loads_what_is_saved : Prop :=
  (should_model (load_contents h) = true → should_model (save_contents e) = true) ∧
  (should_optimizer (load_contents h) = true → should_optimizer (save_contents e) = true) ∧
  (should_extra (load_contents h) = true → should_extra (save_contents e) = true).

Lemma load_shard_complete d s rank wanted saved kind state :
  complete d s → (rank < world_size e)%nat → (wanted = true → saved = true) →
  (saved = true → Write (folder s ++ [shard_name e kind rank]) (Data (state s rank)) ∈ rank_writes e s (folder s) rank) →
  load_shard e wanted d (folder s) kind rank = Ok (if wanted then Some (state s rank) else None).
Proof.
  intros (_ & Hsh) Hr Hw Hin. destruct wanted; [|done]. unfold load_shard, read_blob, read.
  rewrite (Hsh _ (Data (state s rank))); [done|]. apply in_shard_writes. exists rank. auto.
Qed.

(** What a rank's restart returns, given its dataloader's file. *)
Lemma load_complete d s rank : complete d s → d !! tracker = Some (File (Text (pretty s))) → is_Some (d !! root) →
  root ≠ [] → (0 < s)%Z → resume_mode h = Auto → resume_from_path h = None → loads_what_is_saved → (rank < world_size e)%nat →
  load_checkpoint e h d rank = (data ← load_dataloader_state h d (folder s) rank; Ok (s, Some (states_at s rank), data)).
Proof using Hclean.
  intros Hc Ht [nr Hr] Hne Hs Hm Hp (Hl1 & Hl2 & Hl3) Hrank. pose proof Hc as ([nf Hf] & _).
  assert (Hfind : find_latest_ckpt_path d root = Ok (Some (folder s))).
  { unfold find_latest_ckpt_path, exists_at, read. fold tracker. rewrite Ht. cbn [negb mbind result_bind].
    rewrite pretty_pos, int_of_str_pretty, Z2N.id by lia. cbn [of_option mbind result_bind]. unfold step_folder in Hf. fold root in Hf. by rewrite Hf. }
  unfold load_checkpoint, determine_resume_path, find_latest_checkpoint, exists_at. rewrite Hm, Hp. fold root. rewrite Hr, Hfind.
  cbn [mbind result_bind]. rewrite extract_step_folder by done. unfold fsdp_load_checkpoint.
  rewrite (load_shard_complete d s rank _ _ "model" (model_state e) Hc Hrank Hl1) by
    (intros Hsv; unfold rank_writes; rewrite Hsv, !elem_of_app; left; by apply list_elem_of_singleton).
  cbn [mbind result_bind].
  rewrite (load_shard_complete d s rank _ _ "optim" (optim_state e) Hc Hrank Hl2) by
    (intros Hsv; unfold rank_writes; rewrite Hsv, !elem_of_app; right; left; by apply list_elem_of_singleton).
  cbn [mbind result_bind].
  rewrite (load_shard_complete d s rank _ _ "extra_state" (extra_state e) Hc Hrank Hl3) by
    (intros Hsv; unfold rank_writes; rewrite Hsv, !elem_of_app; right; right; by apply list_elem_of_singleton).
  done.
Qed.

(** *** The invariant of histories *)

Definition consistent (d : disk) (previous : list path) (saved : option Z) (finished : bool) : Prop :=
  ∃ steps : list Z, previous = folder <$> steps ∧ NoDup steps ∧ (∀ m : Z, m ∈ steps → (m ≤ default 0 saved)%Z) ∧
    (∀ src, is_source src → data_ok d src) ∧
    match saved with
    | None => d !! tracker = None
    | Some s => (0 < s)%Z ∧ s ∉ take (length steps - 1) steps ∧ complete d s ∧
                d !! tracker = Some (File (Text (pretty s))) ∧ is_Some (d !! root) ∧
                (∀ src, is_source src → finished = true ∨ src = 0 →
                   d !! data_file s src = Some (File (Data (dataloader_state h s src))))
    end.

Lemma last_not_before (steps : list Z) n j : NoDup (steps ++ [n]) → n ∉ take (length (drop j (steps ++ [n])) - 1) (drop j (steps ++ [n])).
Proof.
  intros Hnd. destruct (decide (j ≤ length steps)) as [Hj|Hj].
  - rewrite drop_app_le by done. rewrite length_app. cbn. rewrite Nat.add_sub, take_app_length.
    apply NoDup_app in Hnd as (_ & Hd & _). intros Hin. apply (Hd n); [|by apply list_elem_of_singleton].
    rewrite <- (take_drop j steps). apply elem_of_app. by right.
  - rewrite drop_ge by (rewrite length_app; cbn; lia). apply not_elem_of_nil.
Qed.

Lemma rank_handler n i : i ∈ handler_ranks e h → (handler_writes h n <$> handler_ranks e h) !! i = Some (handler_writes h n i).
Proof.
  intros Hi. rewrite list_lookup_fmap. unfold handler_ranks in *. destruct (spmd h).
  - apply elem_of_seq in Hi. by rewrite lookup_seq_lt by lia.
  - by apply list_elem_of_singleton in Hi as ->.
Qed.

Section kept.
Hypothesis HK : max_ckpt_to_keep h ≠ Some 1%Z.
Hypothesis Hroot : root ≠ [].
Hypothesis Hworld : (0 < world_size e)%nat.
Hypothesis Hone : one_source_each.

Lemma first_rank : 0 ∈ handler_ranks e h.
Proof using Hworld. unfold handler_ranks. destruct (spmd h); [apply elem_of_seq; lia|by apply list_elem_of_singleton]. Qed.

Lemma take_tame steps n shards tail k d : orders n shards tail → (∀ src, is_source src → data_ok d src) →
  ∀ src, is_source src → data_ok (exec_all (take k (save_checkpoint e h (folder <$> steps) n shards tail).1) d) src.
Proof using HK Hone. intros Ho Hd src Hsrc. apply exec_all_tame; [|by apply Hd]. apply Forall_take. by apply save_tame. Qed.

Lemma save_consistent d previous saved finished n shards tail : consistent d previous saved finished → (default 0 saved < n)%Z →
  (0 < n)%Z → orders n shards tail →
  consistent (exec_all (save_checkpoint e h previous n shards tail).1 d) (save_checkpoint e h previous n shards tail).2 (Some n) true.
Proof using HK Hroot Hone Hworld.
  intros (steps & -> & Hnd & Hle & Hok & _) Hn Hpos Ho. assert (Hfresh : n ∉ steps) by (intros Hin%Hle; lia).
  pose proof (take_tame steps n shards tail (length (save_checkpoint e h (folder <$> steps) n shards tail).1) d Ho Hok) as Hok'.
  rewrite firstn_all in Hok'. destruct Ho as [Hs Htail]. destruct (save_spec steps n shards tail HK Hs) as (eng & j & Hsave & _).
  destruct (save_commits HK Hroot steps n shards tail tail _ d Hfresh Hs (reflexivity _) Htail (rank_handler n 0 first_rank) eng _ Hsave)
    as (Hc & Ht & Hro & Hdata).
  rewrite Hsave in *. cbn [fst snd] in *.
  assert (Hnd' : NoDup (steps ++ [n])).
  { apply NoDup_app. split_and!; [done | | apply NoDup_singleton]. by intros m Hm ->%list_elem_of_singleton. }
  exists (drop j (steps ++ [n])). split_and!; try done.
  - eapply sublist_NoDup; [exact Hnd' | apply sublist_drop].
  - intros m Hm. assert (m ∈ steps ++ [n]) as [Hin|Hin]%elem_of_app
      by (rewrite <- (take_drop j (steps ++ [n])); apply elem_of_app; by right); cbn.
    + apply Hle in Hin. lia.
    + by apply list_elem_of_singleton in Hin as ->.
  - by apply last_not_before.
  - intros src Hsrc _. apply Hdata; [done|done|]. apply rank_handler, Hsrc.
Qed.

Lemma crash_early_consistent d previous saved finished n shards tail k : consistent d previous saved finished → (default 0 saved < n)%Z →
  orders n shards tail → let ops := (save_checkpoint e h previous n shards tail).1 in
  commit h ∉ take k ops → consistent (exec_all (take k ops) d) [] saved finished.
Proof using HK Hone.
  clear Hroot Hworld.
  intros (steps & -> & Hnd & Hle & Hok & Hsv) Hn Ho ops Hk. exists [].
  split_and!; [done | constructor | by intros m Hm%not_elem_of_nil | by apply take_tame|].
  destruct saved as [s|].
  - destruct Hsv as (Hpos & Hlast & Hc & Ht & Hro & Hdata). cbn in Hn.
    destruct (crash_keeps HK steps n shards tail d k s Hlast ltac:(lia) Ho Hk) as (H1 & H2 & _ & H4 & H5).
    split_and!; auto. by intros Hin%not_elem_of_nil.
  - destruct (crash_keeps HK steps n shards tail d k (n + 1)) as (_ & _ & H3 & _); [|lia|done|done|by apply H3].
    intros Hin. assert (n + 1 ∈ steps)%Z as Hin'%Hle; [|cbn in *; lia].
    rewrite <- (take_drop (length steps - 1) steps). apply elem_of_app. by left.
Qed.

Lemma crash_late_consistent d previous saved finished n shards tail k : consistent d previous saved finished → (default 0 saved < n)%Z →
  (0 < n)%Z → orders n shards tail → let ops := (save_checkpoint e h previous n shards tail).1 in
  commit h ∈ take k ops → consistent (exec_all (take k ops) d) [] (Some n) false.
Proof using HK Hroot Hone.
  clear Hworld.
  intros (steps & -> & Hnd & Hle & Hok & _) Hn Hpos Ho ops Hk. assert (Hfresh : n ∉ steps) by (intros Hin%Hle; lia).
  pose proof (take_tame steps n shards tail k d Ho Hok) as Hok'. subst ops.
  destruct Ho as [Hs Htail]. destruct (save_spec steps n shards tail HK Hs) as (eng & j & Hsave & Heng & _).
  rewrite Hsave in *. cbn [fst] in *. rewrite take_app in *.
  assert (Hno : commit h ∉ eng) by (intros Hin; rewrite Forall_forall in Heng; by apply Heng in Hin).
  apply elem_of_app in Hk as [Hk|Hk]; [destruct Hno; rewrite <-(take_drop k eng); apply elem_of_app; by left|].
  rewrite (take_ge eng) in * by (destruct (decide (length eng ≤ k)); [done|]; replace (k - length eng) with 0 in Hk by lia; by apply not_elem_of_nil in Hk).
  destruct (interleaving_take _ tail (k - length eng) Htail) as (parts & Hparts & Hpart).
  pose proof (committed_first n parts _ Hparts Hpart Hk) as H0.
  destruct (save_commits HK Hroot steps n shards tail _ parts d Hfresh Hs Hparts Hpart H0 eng _ Hsave) as (Hc & Ht & Hro & Hdata).
  exists []. split_and!; try done; [constructor|by intros m Hm%not_elem_of_nil|by intros Hin%not_elem_of_nil|].
  intros src Hsrc [?| ->]; [done|]. by apply Hdata.
Qed.

Lemma history_consistent d previous saved finished : reachable d previous saved finished → consistent d previous saved finished.
Proof using HK Hroot Hone Hworld.
  assert (Hsaved : ∀ d previous saved finished, consistent d previous saved finished → (0 ≤ default 0 saved)%Z).
  { intros ? ? [s|] ? (? & _ & _ & _ & _ & Hs); [|done]. destruct Hs as [? _]. cbn. lia. }
  induction 1 as [d Hd Hno| |d|].
  - exists []. split_and!; [done | constructor | by intros m Hm%not_elem_of_nil | | done]. intros src _ m. left. apply Hno.
  - apply (save_consistent d previous saved finished); try done. pose proof (Hsaved _ _ _ _ IHreachable). lia.
  - by eapply crash_early_consistent.
  - apply (crash_late_consistent d previous saved finished); try done. pose proof (Hsaved _ _ _ _ IHreachable). lia.
Qed.
End kept.

(** C24: Checkpoints survive crashes.  Suppose that every checkpoint or at least two are kept,
    that resuming is automatic and loads nothing that is not saved, that the directory's own
    path does not contain [global_step_], and that every data-parallel rank has one rank that
    saves its dataloader's state.  After any history of
    saves, crashes anywhere in a save and restarts, every rank resumes from the last step whose
    tracker rank 0 has committed, with exactly the states of the model, the optimizer and the
    scheduler that were saved at that step, and from scratch if there is none.  The dataloader's
    state is the one its data-parallel rank saved at that step if all ranks have finished that
    save, or if it is rank 0's; if the last save was interrupted after the commit, another
    rank's file may be missing, so that its dataloader starts over, or torn, so that the
    restart fails. *)
Theorem resume_finds_last_save d previous saved finished rank src :
  max_ckpt_to_keep h ≠ Some 1%Z → root ≠ [] → resume_mode h = Auto → resume_from_path h = None → loads_what_is_saved →
  (rank < world_size e)%nat → one_source_each → is_source src → dp_rank h src = dp_rank h rank →
  reachable d previous saved finished →
  match saved with
  | None => load_checkpoint e h d rank = Ok (0%Z, None, None)
  | Some s =>
      load_checkpoint e h d rank = Ok (s, Some (states_at s rank), Some (dataloader_state h s src)) ∨
      finished = false ∧ src ≠ 0 ∧
        (load_checkpoint e h d rank = Ok (s, Some (states_at s rank), None) ∨
         load_checkpoint e h d rank = Raise (RuntimeError "not a saved state"))
  end.
Proof using Hclean.
  intros HK Hroot Hm Hp Hl Hrank Hone Hsrc Hdp Hr.
  destruct (history_consistent HK Hroot ltac:(lia) Hone d previous saved finished Hr) as (steps & _ & _ & _ & Hok & Hs).
  destruct saved as [s|].
  - destruct Hs as (Hpos & _ & Hc & Ht & Hro & Hdata).
    rewrite (load_complete d s rank) by done. unfold load_dataloader_state, exists_at, read_blob, read.
    assert (Hf : folder s ++ [dataloader_name h rank] = data_file s src) by (unfold data_file, dataloader_name; by rewrite Hdp).
    rewrite Hf. destruct (Hok src Hsrc s) as [E|[E|E]]; rewrite E; cbn; [right|right|by left].
    all: destruct finished; [by rewrite Hdata in E by auto|]; destruct (decide (src = 0)) as [->|]; [by rewrite Hdata in E by auto|]; auto.
  - unfold load_checkpoint, determine_resume_path, find_latest_checkpoint, find_latest_ckpt_path, exists_at. rewrite Hm, Hp.
    fold root tracker. rewrite Hs. by destruct (d !! root).
Qed.
End histories.

(** ** Concrete runs *)

Section sample_checkpoints.
Local Definition small_engine : engine (B := Z) := {|
  world_size := 2; save_contents := contents_of None;
  model_state := λ s r, (100 * s + Z.of_nat r)%Z; optim_state := λ s r, (100 * s + 10 + Z.of_nat r)%Z;
  extra_state := λ s r, (100 * s + 20 + Z.of_nat r)%Z; hf_config_files := [("config.json"%string, 0%Z)];
  fsdp_config := 0%Z; lora_train_meta := None; hf_model_files := λ _, [] |}.
Local Definition small_handler (keep : option Z) : handler (B := Z) := {|
  default_local_dir := ["ckpt"]%string; max_ckpt_to_keep := keep; resume_mode := Auto; resume_from_path := None;
  handler_lora_meta := None; spmd := true; engine_mp_src := λ _, true; engine_dp_rank := λ r, r; dataloader_state := λ s r, (10 * s + Z.of_nat r)%Z;
  load_contents := contents_of None |}.
(** Rank 0 goes through its handler first. *)
Local Definition saved_at (keep : option Z) (previous : list path) (n : Z) : list (io Z) * list path :=
  let h := small_handler keep in
  save_checkpoint small_engine h previous n (shard_writes small_engine n (step_folder h n)) (concat (handler_writes h n <$> handler_ranks small_engine h)).
(** Step 5 is saved; the save of step 10 stops after [k] operations. *)
Local Definition interrupted (keep : option Z) (k : nat) : gmap path (node Z) :=
  let first := saved_at keep [] 5 in
  exec_all (take k (saved_at keep first.2 10).1) (exec_all first.1 ∅).

Local Lemma no_rename p q (ops : list (io Z)) : forallb (λ o, match o with Rename _ _ => false | _ => true end) ops = true → Rename p q ∉ ops.
Proof. intros Hall Hin%list_elem_of_In. rewrite forallb_forall in Hall. by apply Hall in Hin. Qed.

Lemma resume_finds_last_save_witness :
  load_checkpoint small_engine (small_handler (Some 2%Z)) (interrupted (Some 2%Z) 9) 1
  = Ok (5%Z, Some (Some 501%Z, Some 511%Z, Some 521%Z), Some 51%Z).
Proof.
  destruct (resume_finds_last_save small_engine (small_handler (Some 2%Z)) eq_refl (interrupted (Some 2%Z) 9) [] (Some 5%Z) true 1 1)
    as [H|(H & _)]; try done.
  - cbn. lia.
  - intros r1 r2 _ _. exact (λ E, E).
  - split; [cbn; set_solver|done].
  - apply (reach_crash_early small_engine (small_handler (Some 2%Z)) _ (saved_at (Some 2%Z) [] 5).2 (Some 5%Z) true 10).
    + apply (reach_save small_engine (small_handler (Some 2%Z)) ∅ [] None true 5); [by constructor|done|split; [done|apply interleaving_concat]].
    + done.
    + split; [done|apply interleaving_concat].
    + apply no_rename. vm_compute. reflexivity.
Defined.

(** A crash after rank 0's commit: rank 1 has not opened its file, or not finished it. *)
Example dataloader_missing_after_commit :
  load_checkpoint small_engine (small_handler None) (interrupted None 16) 1
  = Ok (10%Z, Some (Some 1001%Z, Some 1011%Z, Some 1021%Z), None).
Proof. by vm_compute. Qed.
Example dataloader_torn_after_commit :
  load_checkpoint small_engine (small_handler None) (interrupted None 17) 1 = Raise (RuntimeError "not a saved state").
Proof. by vm_compute. Qed.

(** With one checkpoint to keep, the old one is removed before the tracker names the new
    one: a crash in between loses both, and training starts from scratch. *)
Example one_checkpoint_is_lost :
  let ops := (saved_at (Some 1%Z) (saved_at (Some 1%Z) [] 5).2 10).1 in
  load_checkpoint small_engine (small_handler (Some 1%Z)) (interrupted (Some 1%Z) (length ops - 4)) 0
  = Ok (0%Z, None, None).
Proof. by vm_compute. Qed.

Local Definition small_trainer (keep : option Z) : trainer (B := Z) := {|
  t_default_local_dir := ["ckpt"]%string; default_hdfs_dir := None; remove_previous_ckpt_in_save := false;
  max_actor_ckpt_to_keep := keep; max_critic_ckpt_to_keep := keep; async_save := false; t_resume_mode := Auto;
  t_resume_from_path := None; steps_per_epoch := 100; t_dataloader_state := λ s, s; critic := None;
  t_load_contents := contents_of None |}.
Local Definition trainer_saved (keep : option Z) previous (n : Z) :=
  trainer_save small_engine (small_trainer keep) previous n
    (shard_writes small_engine n (t_folder (small_trainer keep) n ++ ["actor"]%string)) [].
Local Definition trainer_interrupted (keep : option Z) (missing : nat) : gmap path (node Z) :=
  let first := trainer_saved keep ([], []) 5 in
  let ops := (trainer_saved keep first.2 10).1 in
  exec_all (take (length ops - missing) ops) (exec_all first.1 ∅).

(** The trainer opens the tracker and then writes it: a crash in between leaves an empty
    tracker, which no restart can read. *)
Example empty_tracker_stops_restarts :
  trainer_load small_engine (small_trainer None) (trainer_interrupted None 1) 0
  = Raise (ValueError "invalid literal for int() with base 10").
Proof. by vm_compute. Qed.

(** With one checkpoint to keep, the folder that the tracker names has lost its actor. *)
Example removed_actor_stops_restarts :
  trainer_load small_engine (small_trainer (Some 1%Z)) (trainer_interrupted (Some 1%Z) 3) 0
  = Raise (OSError "No such file or directory").
Proof. by vm_compute. Qed.

(** A directory that is named after a step hides the step of the checkpoints in it. *)
Example step_of_parent_directory :
  extract_step (render ["global_step_100_more"; "global_step_7"]%string) = Some 100%Z.
Proof. by vm_compute. Qed.
End sample_checkpoints.
