(* ===== verification/RolloutRequest.v ===== *)
(** * Multi-turn rollout requests

    [src/verl/workers/rollout/schemas.py]: a request that collects the tokens of a
    conversation with the masks that say which of them are trained, and
    [ToolResponse] of [src/verl/tools/schemas.py].  Tensors with one row are lists;
    the chat template, the tokenizer and the processor are parameters. *)

From S2P Require Import Prelude PyStr PyDict Json.
#[local] Open Scope py_scope.

(** ** Messages and tool responses *)

Section requests.
Context {Media Tensor Tool : Type}.

Record ToolResponse := { text : option string; image : option (list Media); video : option (list Media) }.
Definition truthy_text (t : option string) : bool := match t with Some s => negb (bool_decide (s = EmptyString)) | None => false end.
Definition truthy_list {A} (l : option (list A)) : bool := match l with Some (_ :: _) => true | _ => false end.
Definition is_empty (t : ToolResponse) : bool := negb (truthy_text (text t)) && negb (truthy_list (image t)) && negb (truthy_list (video t)).
Definition is_text_only (t : ToolResponse) : bool := truthy_text (text t) && negb (truthy_list (image t)) && negb (truthy_list (video t)).

Inductive part := ImagePart | VideoPart | TextPart (s : string).
Inductive message_content := Str (s : string) | Parts (l : list part).
Record Message := { role : string; content : message_content; tool_calls : option json }.
Definition text_message (r s : string) : Message := {| role := r; content := Str s; tool_calls := None |}.

Definition BASE_CHAT_HISTORY : list Message :=
  [text_message "system" "You are a helpful assistant."; text_message "user" "I am a user."]%string.

(** ** What the libraries provide *)

Abbreviation media_dict := (list (string * list Media)).
(** [others]: the further inputs of the model, by their first dimension. *)
Record model_inputs := { mi_input_ids : list Z; mi_attention_mask : list Z; others : list (string * list Tensor) }.
Record processing := {
  apply_chat_template : list Message → option (list Tool) → bool → string;
  is_processor : bool;                                (** a processor, not a tokenizer *)
  tokenize : string → model_inputs;
  process : string → option (list Media) → option (list Media) → option (list Media) → model_inputs;
  is_qwen2vl : bool;
  get_rope_index : list Z → list (string * list Tensor) → list Z → list (list Z) }.
Context (pc : processing).

Definition media_of (key : string) (d : media_dict) : option (list Media) :=
  match dget key d with Some (x :: l) => Some (x :: l) | _ => None end.
Definition handle_apply_chat_template (messages : list Message) (multi_modal_data : media_dict) (tools : option (list Tool))
    (add_generation_prompt : bool) : model_inputs :=
  let raw_prompt := apply_chat_template pc messages tools add_generation_prompt in
  if is_processor pc then
    process pc raw_prompt (media_of "image" multi_modal_data) (media_of "video" multi_modal_data) (media_of "audio" multi_modal_data)
  else tokenize pc raw_prompt.

(** [torch.clip(torch.cumsum(mask, dim=-1) - 1, min=0)]. *)
Fixpoint cumsum (acc : Z) (l : list Z) : list Z :=
  match l with [] => [] | x :: l => (acc + x)%Z :: cumsum (acc + x)%Z l end.
Definition compute_position_id_with_mask (mask : list Z) : list Z := (λ p, Z.max (p - 1) 0) <$> cumsum 0 mask.
Definition get_position_ids (input_ids attention_mask : list Z) (multi_modal_inputs : list (string * list Tensor)) : list (list Z) :=
  if is_qwen2vl pc then get_rope_index pc input_ids multi_modal_inputs attention_mask
  else [compute_position_id_with_mask attention_mask].

(** ** The request *)

Inductive request_state := PENDING | RUNNING | COMPLETED | FAILED | TOOL_CALLING.
Inductive finish_reason := LENGTH | STOP | TOOL_CALL.
Definition from_str (value : string) : result finish_reason :=
  if bool_decide (value = "stop"%string) then Ok STOP
  else if bool_decide (value = "length"%string) then Ok LENGTH
  else if bool_decide (value = "tool_calls"%string) then Ok TOOL_CALL
  else Raise (ValueError ("Unsupported finish reason type: " +:+ value)).

(** [position_ids] has one row, or three for Qwen2-VL. *)
Record request := {
  state : request_state;
  messages : list Message;
  multi_modal_keys : list string;
  multi_modal_data : media_dict;
  multi_modal_inputs : list (string * list Tensor);
  tool_schemas : option (list Tool);
  input_ids : list Z; prompt_ids : list Z; response_ids : option (list Z);
  attention_mask : list Z; prompt_attention_mask : list Z; response_attention_mask : option (list Z);
  position_ids : list (list Z); prompt_position_ids : option (list (list Z)); response_position_ids : option (list (list Z));
  loss_mask : list Z; prompt_loss_mask : list Z; response_loss_mask : option (list Z);
  reward_scores : list (string * json);
  max_response_len : Z; max_model_len : Z;
  metrics : list (string * list json);
  use_inference_chat_template : bool;
  generation_prompt_ids : list Z;
  base_conv_wo_gen_prompt_end_pos : nat;
  base_conv_with_gen_prompt_end_pos : nat }.

Definition set_sequence (r : request) (ids att : list Z) (pos : list (list Z)) (loss : list Z) : request :=
  {| state := state r; messages := messages r; multi_modal_keys := multi_modal_keys r; multi_modal_data := multi_modal_data r;
     multi_modal_inputs := multi_modal_inputs r; tool_schemas := tool_schemas r;
     input_ids := ids; prompt_ids := prompt_ids r; response_ids := response_ids r;
     attention_mask := att; prompt_attention_mask := prompt_attention_mask r; response_attention_mask := response_attention_mask r;
     position_ids := pos; prompt_position_ids := prompt_position_ids r; response_position_ids := response_position_ids r;
     loss_mask := loss; prompt_loss_mask := prompt_loss_mask r; response_loss_mask := response_loss_mask r;
     reward_scores := reward_scores r; max_response_len := max_response_len r; max_model_len := max_model_len r;
     metrics := metrics r; use_inference_chat_template := use_inference_chat_template r;
     generation_prompt_ids := generation_prompt_ids r; base_conv_wo_gen_prompt_end_pos := base_conv_wo_gen_prompt_end_pos r;
     base_conv_with_gen_prompt_end_pos := base_conv_with_gen_prompt_end_pos r |}.
Definition set_messages (r : request) (ms : list Message) (data : media_dict) (inputs : list (string * list Tensor)) : request :=
  {| state := state r; messages := ms; multi_modal_keys := multi_modal_keys r; multi_modal_data := data;
     multi_modal_inputs := inputs; tool_schemas := tool_schemas r;
     input_ids := input_ids r; prompt_ids := prompt_ids r; response_ids := response_ids r;
     attention_mask := attention_mask r; prompt_attention_mask := prompt_attention_mask r; response_attention_mask := response_attention_mask r;
     position_ids := position_ids r; prompt_position_ids := prompt_position_ids r; response_position_ids := response_position_ids r;
     loss_mask := loss_mask r; prompt_loss_mask := prompt_loss_mask r; response_loss_mask := response_loss_mask r;
     reward_scores := reward_scores r; max_response_len := max_response_len r; max_model_len := max_model_len r;
     metrics := metrics r; use_inference_chat_template := use_inference_chat_template r;
     generation_prompt_ids := generation_prompt_ids r; base_conv_wo_gen_prompt_end_pos := base_conv_wo_gen_prompt_end_pos r;
     base_conv_with_gen_prompt_end_pos := base_conv_with_gen_prompt_end_pos r |}.
Definition set_response (r : request) (st : request_state) (rewards : list (string * json)) (ids att : option (list Z))
    (pos : option (list (list Z))) (loss : option (list Z)) : request :=
  {| state := st; messages := messages r; multi_modal_keys := multi_modal_keys r; multi_modal_data := multi_modal_data r;
     multi_modal_inputs := multi_modal_inputs r; tool_schemas := tool_schemas r;
     input_ids := input_ids r; prompt_ids := prompt_ids r; response_ids := ids;
     attention_mask := attention_mask r; prompt_attention_mask := prompt_attention_mask r; response_attention_mask := att;
     position_ids := position_ids r; prompt_position_ids := prompt_position_ids r; response_position_ids := pos;
     loss_mask := loss_mask r; prompt_loss_mask := prompt_loss_mask r; response_loss_mask := loss;
     reward_scores := rewards; max_response_len := max_response_len r; max_model_len := max_model_len r;
     metrics := metrics r; use_inference_chat_template := use_inference_chat_template r;
     generation_prompt_ids := generation_prompt_ids r; base_conv_wo_gen_prompt_end_pos := base_conv_wo_gen_prompt_end_pos r;
     base_conv_with_gen_prompt_end_pos := base_conv_with_gen_prompt_end_pos r |}.
Definition set_metrics (r : request) (m : list (string * list json)) : request :=
  {| state := state r; messages := messages r; multi_modal_keys := multi_modal_keys r; multi_modal_data := multi_modal_data r;
     multi_modal_inputs := multi_modal_inputs r; tool_schemas := tool_schemas r;
     input_ids := input_ids r; prompt_ids := prompt_ids r; response_ids := response_ids r;
     attention_mask := attention_mask r; prompt_attention_mask := prompt_attention_mask r; response_attention_mask := response_attention_mask r;
     position_ids := position_ids r; prompt_position_ids := prompt_position_ids r; response_position_ids := response_position_ids r;
     loss_mask := loss_mask r; prompt_loss_mask := prompt_loss_mask r; response_loss_mask := response_loss_mask r;
     reward_scores := reward_scores r; max_response_len := max_response_len r; max_model_len := max_model_len r;
     metrics := m; use_inference_chat_template := use_inference_chat_template r;
     generation_prompt_ids := generation_prompt_ids r; base_conv_wo_gen_prompt_end_pos := base_conv_wo_gen_prompt_end_pos r;
     base_conv_with_gen_prompt_end_pos := base_conv_with_gen_prompt_end_pos r |}.

(** The arguments of the constructor; [given]: the tokens, mask and positions when all
    three are passed, and then the prompt's positions if they are passed too. *)
Record arguments := {
  a_state : request_state; a_messages : list Message; a_max_prompt_len : Z;
  a_multi_modal_keys : list string; a_multi_modal_data : media_dict; a_tool_schemas : option (list Tool);
  given : option (list Z * list Z * list (list Z) * option (list (list Z)));
  a_reward_scores : list (string * json); a_max_response_len : Z; a_max_model_len : Z; a_use_inference_chat_template : bool }.

(** An empty list of tools is passed to the template as [None]. *)
Definition tools_of (t : option (list Tool)) : option (list Tool) := match t with Some (x :: l) => Some (x :: l) | _ => None end.
Definition fill_keys (ks : list string) (d : media_dict) : media_dict :=
  foldl (λ d k, match dget k d with Some _ => d | None => dset k [] d end) d ks.

Definition initialize_request (a : arguments) : result request :=
  require negb (Nat.eqb (length (a_messages a)) 0) else ValueError "messages is required for AsyncRolloutRequest initialization" ;;
  require negb (a_max_prompt_len a =? 0)%Z else ValueError "max_prompt_len is required for AsyncRolloutRequest initialization" ;;
  let ks := match a_multi_modal_keys a with [] => ["image"; "video"; "audio"]%string | ks => ks end in
  let data := fill_keys ks (a_multi_modal_data a) in
  let tools := tools_of (a_tool_schemas a) in
  let template ms gen := handle_apply_chat_template ms data tools gen in
  let without := mi_input_ids (template (a_messages a) false) in
  let '(ids, att, pos, prompt_pos, inputs) :=
    match given a with
    | Some (ids, att, pos, prompt_pos) => (ids, att, pos, prompt_pos, [])
    | None =>
        let m := template (a_messages a) true in
        let pos := get_position_ids (mi_input_ids m) (mi_attention_mask m) (others m) in
        (mi_input_ids m, mi_attention_mask m, pos, Some pos, others m)
    end in
  let loss := replicate (length ids) 0%Z in
  Ok {| state := a_state a; messages := a_messages a; multi_modal_keys := ks; multi_modal_data := data; multi_modal_inputs := inputs;
        tool_schemas := a_tool_schemas a;
        input_ids := ids; prompt_ids := ids; response_ids := None;
        attention_mask := att; prompt_attention_mask := att; response_attention_mask := None;
        position_ids := pos; prompt_position_ids := prompt_pos; response_position_ids := None;
        loss_mask := loss; prompt_loss_mask := loss; response_loss_mask := None;
        reward_scores := a_reward_scores a; max_response_len := a_max_response_len a; max_model_len := a_max_model_len a;
        metrics := []; use_inference_chat_template := a_use_inference_chat_template a;
        generation_prompt_ids := drop (length without) ids;
        base_conv_wo_gen_prompt_end_pos := length (mi_input_ids (template BASE_CHAT_HISTORY false));
        base_conv_with_gen_prompt_end_pos := length (mi_input_ids (template BASE_CHAT_HISTORY true)) |}.

(** ** Growing the sequence *)

Definition update_multi_modal_inputs (old new : list (string * list Tensor)) : list (string * list Tensor) :=
  foldl (λ d kt, match dget kt.1 d with Some t => dset kt.1 (t ++ kt.2) d | None => dset kt.1 kt.2 d end) old new.

(** Positions go on after the last one; there is none after an empty row. *)
Definition extend_positions (row new : list Z) : result (list Z) :=
  match new, last row with
  | [], _ => Ok row
  | _, Some p => Ok (row ++ ((λ x, x + (p + 1))%Z <$> new))
  | _, None => Raise (RuntimeError "The size of tensor a must match the size of tensor b")
  end.
Fixpoint extend_rows (rows new : list (list Z)) : result (list (list Z)) :=
  match rows, new with
  | [], [] => Ok []
  | row :: rows, n :: new => r ← extend_positions row n; rs ← extend_rows rows new; Ok (r :: rs)
  | _, _ => Raise (RuntimeError "The size of tensor a must match the size of tensor b")
  end.
Definition same_lengths (ids att : list Z) (pos : list (list Z)) (loss : list Z) : bool :=
  forallb (λ n, Nat.eqb n (length ids)) ([length att; length loss] ++ (length <$> pos)).

Definition update_input_ids (new_input_ids : list Z) (attention loss : bool) (new_multi_modal_inputs : list (string * list Tensor))
    (r : request) : result request :=
  let ones (b : bool) := replicate (length new_input_ids) (if b then 1 else 0)%Z in
  let ids := input_ids r ++ new_input_ids in
  let att := attention_mask r ++ ones attention in
  let loss := loss_mask r ++ ones loss in
  let inputs := update_multi_modal_inputs (multi_modal_inputs r) new_multi_modal_inputs in
  pos ← extend_rows (position_ids r) (get_position_ids new_input_ids (ones attention) new_multi_modal_inputs);
  require same_lengths ids att pos loss else AssertionError "Request has different length of input_ids" ;;
  Ok (set_sequence (set_messages r (messages r) (multi_modal_data r) inputs) ids att pos loss).

(** [a.eq(b).all()] with broadcasting. *)
Definition eq_all (a b : list Z) : result bool :=
  if Nat.eqb (length a) (length b) then Ok (bool_decide (a = b))
  else match a, b with
       | [x], b => Ok (forallb (Z.eqb x) b)
       | a, [y] => Ok (forallb (Z.eqb y) a)
       | _, _ => Raise (RuntimeError "The size of tensor a must match the size of tensor b")
       end.
Definition ends_with_generation_prompt (r : request) : result bool :=
  eq_all (zslice (- Z.of_nat (length (generation_prompt_ids r))) (Z.of_nat (length (input_ids r))) (input_ids r))
         (generation_prompt_ids r).

Definition tool_schemas_of (r : request) : option (list Tool) := tools_of (tool_schemas r).

Definition get_generation_prompt_ids (r : request) : result (list Z * request) :=
  present ← ends_with_generation_prompt r;
  r ← (if (present : bool) then Ok r else update_input_ids (generation_prompt_ids r) true false [] r);
  if use_inference_chat_template r then
    Ok (mi_input_ids (handle_apply_chat_template (messages r) (multi_modal_data r) (tool_schemas_of r) true), r)
  else Ok (input_ids r, r).

Definition add_message (m : Message) (r : request) : request := set_messages r (messages r ++ [m]) (multi_modal_data r) (multi_modal_inputs r).
(** The tokens of new messages after the base conversation. *)
Definition message_ids (ms : list Message) (data : media_dict) (start : nat) (r : request) : model_inputs :=
  let m := handle_apply_chat_template (BASE_CHAT_HISTORY ++ ms) data (tool_schemas_of r) false in
  {| mi_input_ids := drop start (mi_input_ids m); mi_attention_mask := mi_attention_mask m; others := others m |}.

Definition add_user_message (content : string) (r : request) : result request :=
  let m := text_message "user" content in
  update_input_ids (mi_input_ids (message_ids [m] [] (base_conv_wo_gen_prompt_end_pos r) r)) true false [] (add_message m r).

Definition add_assistant_message (content : string) (content_ids : option (list Z)) (calls : option json) (r : request) : result request :=
  let m := {| role := "assistant"; content := Str content; tool_calls := calls |} in
  let ids := match content_ids with
             | Some ids => ids
             | None => mi_input_ids (message_ids [m] [] (base_conv_with_gen_prompt_end_pos r) r)
             end in
  update_input_ids ids true true [] (add_message m r).

Definition remove_generation_prompt_ids_if_present (r : request) : result request :=
  present ← ends_with_generation_prompt r;
  let cut {A} (l : list A) := zslice 0 (- Z.of_nat (length (generation_prompt_ids r))) l in
  Ok (if (present : bool) then set_sequence r (cut (input_ids r)) (cut (attention_mask r)) (cut <$> position_ids r) (cut (loss_mask r)) else r).

(** ** Tool responses, metrics *)

(** The message of a response and the media it brings. *)
Definition response_message (delta : media_dict) (c : ToolResponse) : result (Message * media_dict) :=
  let take_media (key : string) (l : option (list Media)) (delta : media_dict) : result media_dict :=
    match l with
    | Some (x :: l) => old ← ditem key delta; Ok (dset key (old ++ x :: l) delta)
    | _ => Ok delta
    end in
  let parts_of (p : part) (l : option (list Media)) := match l with Some l => replicate (length l) p | None => [] end in
  if is_text_only c then Ok (text_message "tool" (default EmptyString (text c)), delta)
  else
    delta ← take_media "image"%string (image c) delta;
    delta ← take_media "video"%string (video c) delta;
    let parts := parts_of ImagePart (image c) ++ parts_of VideoPart (video c)
                 ++ (if truthy_text (text c) then [TextPart (default EmptyString (text c))] else []) in
    Ok ({| role := "tool"; content := Parts parts; tool_calls := None |}, delta).
Definition response_messages (ks : list string) (contents : list ToolResponse) : result (list Message * media_dict) :=
  foldM (λ st c, '(m, delta) ← response_message st.2 c; Ok (st.1 ++ [m], delta)) ([], (λ k, (k, [])) <$> ks) contents.

Definition extend_media (ks : list string) (delta data : media_dict) : result media_dict :=
  foldM (λ d k, new ← ditem k delta;
                match new with [] => Ok d | _ => old ← ditem k d; Ok (dset k (old ++ new) d) end) data ks.

Definition add_tool_response_messages (contents : list ToolResponse) (r : request) : result request :=
  if Nat.eqb (length contents) 0 || forallb is_empty contents then Ok r else
  '(ms, delta) ← response_messages (multi_modal_keys r) contents;
  data ← extend_media (multi_modal_keys r) delta (multi_modal_data r);
  let r := set_messages r (messages r ++ ms) data (multi_modal_inputs r) in
  let info := message_ids ms delta (base_conv_wo_gen_prompt_end_pos r) r in
  r ← remove_generation_prompt_ids_if_present r;
  update_input_ids (mi_input_ids info) true false (others info) r.

Definition update_metrics (new : json) (tool_id : string) (r : request) : request :=
  set_metrics r (dset tool_id (default [] (dget tool_id (metrics r)) ++ [new]) (metrics r)).

(** ** The end of a request; the tokenization check only logs *)

Definition zhead {A} (n : Z) (l : list A) : list A := zslice 0 n l.
Definition response_part {A} (prompt : list A) (max_response_len : Z) (l : list A) : list A :=
  zhead max_response_len (drop (length prompt) l).
Definition truncate_output_ids (r : request) : result request :=
  let cut {A} (l : list A) := zhead (max_model_len r) l in
  let r := set_sequence r (cut (input_ids r)) (cut (attention_mask r)) (cut <$> position_ids r) (cut (loss_mask r)) in
  prompt_pos ← of_option (AttributeError "'NoneType' object has no attribute 'shape'") (prompt_position_ids r);
  let width := default [] (head prompt_pos) in
  Ok (set_response r (state r) (reward_scores r)
        (Some (response_part (prompt_ids r) (max_response_len r) (input_ids r)))
        (Some (response_part (prompt_attention_mask r) (max_response_len r) (attention_mask r)))
        (Some (response_part width (max_response_len r) <$> position_ids r))
        (Some (response_part (prompt_loss_mask r) (max_response_len r) (loss_mask r)))).

Definition finalize (rewards : list (string * json)) (reason : finish_reason) (r : request) : result request :=
  r ← remove_generation_prompt_ids_if_present (set_response r COMPLETED rewards (response_ids r) (response_attention_mask r)
                                                 (response_position_ids r) (response_loss_mask r));
  let r := set_response r (state r) (reward_scores r) (Some (drop (length (prompt_ids r)) (input_ids r))) (response_attention_mask r)
             (response_position_ids r) (response_loss_mask r) in
  match reason with
  | STOP | LENGTH =>
      r ← truncate_output_ids r;
      require same_lengths (input_ids r) (attention_mask r) (position_ids r) (loss_mask r)
        else AssertionError "Request has different length of input_ids" ;;
      Ok r
  | TOOL_CALL => Raise (ValueError "Unsupported finalize finish reason type: FinishReasonTypeEnum.TOOL_CALL")
  end.
End requests.

(** ** A conversation *)

Section conversations.
Context {Media Tensor Tool : Type} (pc : processing (Media := Media) (Tensor := Tensor) (Tool := Tool)).
Abbreviation req := (@request Media Tensor Tool).
Implicit Types r : req.

(** A reply of the engine, whose tokens are [ids]; a user's message; responses of tools. *)
Inductive turn :=
  | Reply (content : string) (ids : list Z)
  | User (content : string)
  | Tools (contents : list (@ToolResponse Media)).
Definition take_turn (r : req) (t : turn) : result req :=
  match t with
  | Reply content ids => '(_, r) ← get_generation_prompt_ids pc r; add_assistant_message pc content (Some ids) None r
  | User content => add_user_message pc content r
  | Tools contents => add_tool_response_messages pc contents r
  end.
Definition replies (turns : list turn) : list Z :=
  mjoin ((λ t, match t with Reply _ ids => ids | _ => [] end) <$> turns).

(** *** Tokens with their loss masks *)

Definition pairs (b : Z) (ids : list Z) : list (Z * Z) := (λ t, (t, b)) <$> ids.
Definition trained (tr : list (Z * Z)) : list Z := omap (λ p, if (p.2 =? 1)%Z then Some p.1 else None) tr.
Definition untrained (p : Z * Z) : Prop := p.2 = 0%Z.
Definition trace r : list (Z * Z) := zip (input_ids r) (loss_mask r).

Lemma pairs_fst b ids : (pairs b ids).*1 = ids.
Proof. unfold pairs. rewrite <- list_fmap_compose. apply list_fmap_id. Qed.
Lemma pairs_app b l k : pairs b (l ++ k) = pairs b l ++ pairs b k.
Proof. apply fmap_app. Qed.
Lemma pairs_untrained ids : Forall untrained (pairs 0 ids).
Proof. apply Forall_fmap, Forall_true. done. Qed.
Lemma trained_app tr tr' : trained (tr ++ tr') = trained tr ++ trained tr'.
Proof. unfold trained. induction tr as [|p tr IH]; [done|]. csimpl. rewrite IH. by case_match. Qed.
Lemma trained_untrained tr : Forall untrained tr → trained tr = [].
Proof. unfold trained. induction 1 as [|p tr Hp _ IH]; [done|]. csimpl. by rewrite Hp. Qed.
Lemma trained_pairs ids : trained (pairs 1 ids) = ids.
Proof. unfold trained. induction ids as [|t ids IH]; [done|]. csimpl. by f_equal. Qed.
Lemma trained_prefix tr tr' : tr `prefix_of` tr' → trained tr `prefix_of` trained tr'.
Proof. intros [k ->]. rewrite trained_app. by apply prefix_app_r. Qed.

Lemma last_occurrence (x : Z) a b a' b' : a ++ x :: b = a' ++ x :: b' → x ∉ b → x ∉ b' → b = b'.
Proof.
  intros He Hb Hb'. apply app_eq_inv in He as [(k & -> & Hk)|(k & -> & Hk)]; destruct k as [|y k]; cbn in Hk; simplify_eq;
    try done; exfalso; [apply Hb' | apply Hb]; set_solver.
Qed.

(** *** One row of positions, as long as the masks *)

Definition well_formed r : Prop :=
  length (loss_mask r) = length (input_ids r) ∧ length (attention_mask r) = length (input_ids r) ∧
  ∃ row, position_ids r = [row] ∧ length row = length (input_ids r).
(** What no turn changes. *)
Definition framed r r' : Prop :=
  generation_prompt_ids r' = generation_prompt_ids r ∧ prompt_ids r' = prompt_ids r ∧ prompt_loss_mask r' = prompt_loss_mask r ∧
  prompt_attention_mask r' = prompt_attention_mask r ∧ prompt_position_ids r' = prompt_position_ids r ∧
  tool_schemas r' = tool_schemas r ∧ base_conv_wo_gen_prompt_end_pos r' = base_conv_wo_gen_prompt_end_pos r ∧
  max_response_len r' = max_response_len r ∧ max_model_len r' = max_model_len r ∧ multi_modal_keys r' = multi_modal_keys r ∧
  state r' = state r.
Lemma framed_refl r : framed r r.
Proof. by split_and!. Qed.
Lemma framed_trans r r' r'' : framed r r' → framed r' r'' → framed r r''.
Proof. unfold framed. intros. destruct_and!. split_and!; congruence. Qed.

Hypothesis Htext : is_qwen2vl pc = false.

Lemma cumsum_length acc l : length (cumsum acc l) = length l.
Proof. revert acc. induction l; intros; cbn; auto. Qed.

Lemma update_spec ids (b : bool) others r : well_formed r → input_ids r ≠ [] →
  ∃ r', update_input_ids pc ids true b others r = Ok r' ∧ well_formed r' ∧ framed r r' ∧
    input_ids r' = input_ids r ++ ids ∧ trace r' = trace r ++ pairs (if b then 1 else 0)%Z ids ∧
    multi_modal_data r' = multi_modal_data r.
Proof using Htext.
  intros (Hl & Ha & row & Hp & Hrow) Hne. unfold update_input_ids, get_position_ids. rewrite Htext, Hp. cbn [extend_rows].
  assert (Hext : ∃ row', extend_positions row (compute_position_id_with_mask (replicate (length ids) 1%Z)) = Ok row' ∧
                   length row' = length (input_ids r ++ ids)).
  { set (new := compute_position_id_with_mask _). assert (Hnew : length new = length ids).
    { unfold new, compute_position_id_with_mask. by rewrite length_fmap, cumsum_length, length_replicate. }
    unfold extend_positions. clearbody new. destruct new as [|x new'].
    - exists row. split; [done|]. rewrite length_app, <- Hnew, Hrow. cbn. lia.
    - destruct (last row) as [p|] eqn:Hlast.
      + eexists. split; [done|]. rewrite !length_app, length_fmap. cbn in *. lia.
      + apply last_None in Hlast as ->. destruct (input_ids r); done. }
  destruct Hext as (row' & -> & Hrow'). cbn [mbind result_bind].
  assert (Hsame : same_lengths (input_ids r ++ ids) (attention_mask r ++ replicate (length ids) 1%Z) [row']
                    (loss_mask r ++ replicate (length ids) (if b then 1 else 0)%Z) = true).
  { unfold same_lengths. cbn. rewrite Hrow', !length_app, !length_replicate, Hl, Ha. by rewrite !Nat.eqb_refl. }
  rewrite Hsame. eexists. split; [reflexivity|]. split_and!; try done.
  - unfold well_formed. cbn. split_and!; [rewrite !length_app, length_replicate; lia..|]. by exists row'.
  - unfold trace. cbn. rewrite zip_with_app by done. f_equal. unfold pairs. generalize (if b then 1 else 0)%Z. intros z.
    clear. induction ids as [|t ids IH]; [done|]. cbn. by f_equal.
Qed.

(** *** The generation prompt [m :: g] starts with a token [m] that only templates write *)

Context (m : Z) (g : list Z) (Q : list Z).
Hypothesis Hmg : m ∉ g.
Hypothesis HQ : (length g < length Q)%nat.
Abbreviation gen := (m :: g).

(** Between turns the last [m] of the sequence is untrained, and what follows it is
    untrained too, or it is [g] and then a reply. *)
Definition tail_ok (Y : list (Z * Z)) : Prop :=
  m ∉ Y.*1 ∧ (Forall untrained Y ∨ ∃ ids, ids ≠ [] ∧ Y = pairs 0 g ++ pairs 1 ids).
Definition loose (S : list Z) (tr : list (Z * Z)) : Prop :=
  (∃ A, tr = pairs 0 Q ++ A) ∧ trained tr = S ∧ Forall untrained (take (length Q + length gen) tr).
Definition settled (S : list Z) (tr : list (Z * Z)) : Prop :=
  loose S tr ∧ ∃ A Y, tr = pairs 0 Q ++ A ++ (m, 0%Z) :: Y ∧ tail_ok Y.

Lemma trace_fst r : well_formed r → (trace r).*1 = input_ids r.
Proof. intros (Hl & _). unfold trace. apply fst_zip. lia. Qed.

Lemma loose_length S tr : loose S tr → (length Q ≤ length tr)%nat.
Proof. intros ((A & ->) & _). rewrite length_app. unfold pairs. rewrite length_fmap. lia. Qed.

Lemma ends_spec r S : well_formed r → generation_prompt_ids r = gen → loose S (trace r) →
  ∃ b, ends_with_generation_prompt r = Ok b ∧ (b = true ↔ gen `suffix_of` input_ids r).
Proof using HQ.
  intros Hw Hg Hs. pose proof (loose_length _ _ Hs) as Hlen.
  assert (Hl : length (trace r) = length (input_ids r)) by (rewrite <- (trace_fst r Hw); by rewrite length_fmap).
  unfold ends_with_generation_prompt, eq_all. rewrite Hg. set (k := length (input_ids r) - length gen).
  assert (Hz : zslice (- Z.of_nat (length gen)) (Z.of_nat (length (input_ids r))) (input_ids r) = drop k (input_ids r)).
  { unfold zslice, slice, slice_bound. replace (- Z.of_nat (length gen) <? 0)%Z with true by done.
    replace (Z.of_nat (length (input_ids r)) <? 0)%Z with false by lia. unfold k.
    replace (Z.to_nat (Z.of_nat (length (input_ids r)) + - Z.of_nat (length gen))) with (length (input_ids r) - length gen) by lia.
    rewrite take_ge; [done|]. rewrite length_drop. lia. }
  rewrite Hz, length_drop. replace (length (input_ids r) - k) with (length gen) by (unfold k; cbn in *; lia).
  rewrite Nat.eqb_refl. eexists. split; [done|]. rewrite bool_decide_eq_true. split.
  - intros <-. exists (take k (input_ids r)). by rewrite take_drop.
  - intros [X HX]. rewrite HX. unfold k. rewrite HX, length_app, Nat.add_sub. apply drop_app_length.
Qed.

Lemma zslice_cut {A} (l : list A) : zslice 0 (- Z.of_nat (length gen)) l = take (length l - length gen) l.
Proof.
  unfold zslice, slice, slice_bound. replace (- Z.of_nat (length gen) <? 0)%Z with true by done. cbn [Z.ltb].
  rewrite drop_0. f_equal. change (Z.to_nat 0) with 0. rewrite Nat.min_0_l. replace (0 <? 0)%Z with false by done. lia.
Qed.

Lemma remove_spec r S : well_formed r → generation_prompt_ids r = gen → settled S (trace r) →
  ∃ r', remove_generation_prompt_ids_if_present r = Ok r' ∧ well_formed r' ∧ framed r r' ∧ loose S (trace r') ∧
    multi_modal_data r' = multi_modal_data r ∧ (length (input_ids r') ≤ length (input_ids r))%nat.
Proof using HQ Hmg.
  intros Hw Hg [Hs (A & Y & Htr & HmY & Htail)]. destruct (ends_spec r S Hw Hg Hs) as (b & Hb & Hiff).
  unfold remove_generation_prompt_ids_if_present. rewrite Hb. cbn [mbind result_bind]. destruct b; [|by exists r].
  destruct (proj1 Hiff eq_refl) as [X HX]. pose proof (trace_fst r Hw) as Hfst.
  assert (HY : Y.*1 = g).
  { rewrite Htr, !fmap_app, fmap_cons, HX, app_assoc in Hfst. by eapply last_occurrence. }
  assert (Hlen : length Y = length g) by by rewrite <- HY, length_fmap.
  destruct Htail as [Hu|(ids & Hne & ->)].
  2:{ rewrite fmap_app, !pairs_fst in HY. destruct ids; [done|]. apply (f_equal length) in HY. rewrite length_app in HY. cbn in HY. lia. }
  pose proof Hw as (Hl & Ha & row & Hp & Hrow). rewrite Hg, Hp. eexists. split; [done|].
  assert (Htr' : trace (set_sequence r (zslice 0 (- Z.of_nat (length gen)) (input_ids r)) (zslice 0 (- Z.of_nat (length gen)) (attention_mask r))
                   (zslice 0 (- Z.of_nat (length gen)) <$> [row]) (zslice 0 (- Z.of_nat (length gen)) (loss_mask r)))
                 = pairs 0 Q ++ A).
  { unfold trace. cbn [input_ids loss_mask set_sequence]. rewrite !zslice_cut, Hl, <- zip_with_take. fold (trace r).
    rewrite Htr, app_assoc. rewrite <- (trace_fst r Hw), length_fmap, Htr, app_assoc, length_app. cbn [length]. rewrite Hlen, Nat.add_sub.
    apply take_app_length. }
  assert (Hloose : loose S (pairs 0 Q ++ A)).
  { destruct Hs as (_ & HS & Hfirst). split_and!.
    - by exists A.
    - rewrite <- HS, Htr, app_assoc, (trained_app (_ ++ A)), (trained_untrained (_ :: Y)); [by rewrite app_nil_r|]. by constructor.
    - rewrite Htr, app_assoc in Hfirst. rewrite take_app in Hfirst. by apply Forall_app in Hfirst as [? _]. }
  rewrite <- Htr' in Hloose. split_and!; try done; [|cbn [input_ids set_sequence]; rewrite zslice_cut, length_take; lia].
  unfold well_formed. cbn [input_ids loss_mask attention_mask position_ids set_sequence]. rewrite !zslice_cut, !length_take.
  split_and!; [lia..|]. eexists. split; [done|]. rewrite zslice_cut, length_take. lia.
Qed.

(** *** How the turns grow the sequence *)

Definition ready (S : list Z) (tr : list (Z * Z)) : Prop := loose S tr ∧ ∃ A, tr = pairs 0 Q ++ A ++ pairs 0 gen.

Lemma loose_untrained S tr env : loose S tr → loose S (tr ++ pairs 0 env).
Proof.
  intros ((A & ->) & HS & Hf). split_and!.
  - exists (A ++ pairs 0 env). by rewrite app_assoc.
  - by rewrite trained_app, (trained_untrained (pairs 0 env)), app_nil_r by apply pairs_untrained.
  - rewrite take_app. apply Forall_app. split; [done|]. apply Forall_take, pairs_untrained.
Qed.

Lemma append_env S tr env : loose S tr → m ∈ env → settled S (tr ++ pairs 0 env).
Proof.
  intros Hl (E1 & E2 & -> & Hm)%list_elem_of_split_r. split; [by apply loose_untrained|].
  destruct Hl as ((A & ->) & _). exists (A ++ pairs 0 E1), (pairs 0 E2). split.
  - rewrite pairs_app. change (pairs 0 (m :: E2)) with ((m, 0%Z) :: pairs 0 E2). by rewrite !app_assoc.
  - split; [by rewrite pairs_fst|]. left. apply pairs_untrained.
Qed.

Lemma ready_settled S tr : ready S tr → settled S tr.
Proof using Hmg.
  intros [Hl (A & ->)]. split; [done|]. exists A, (pairs 0 g). split; [done|]. split; [by rewrite pairs_fst|].
  left. apply pairs_untrained.
Qed.

Lemma append_reply S tr ids : ready S tr → ids ≠ [] → m ∉ ids → settled (S ++ ids) (tr ++ pairs 1 ids).
Proof using Hmg.
  intros [(_ & HS & Hf) (A & ->)] Hne Hm. split; [split_and!|].
  - eexists. by rewrite <- !app_assoc.
  - by rewrite trained_app, HS, trained_pairs.
  - rewrite take_app_le; [done|]. rewrite !length_app. unfold pairs. rewrite !length_fmap. cbn. clear. lia.
  - exists A, (pairs 0 g ++ pairs 1 ids). split.
    + change (pairs 0 gen) with ((m, 0%Z) :: pairs 0 g). by rewrite <- !app_assoc.
    + split; [|by right; exists ids]. rewrite fmap_app, !pairs_fst, not_elem_of_app. by split.
Qed.

Lemma generation_prompt_spec r S : well_formed r → generation_prompt_ids r = gen → settled S (trace r) →
  ∃ ids r', get_generation_prompt_ids pc r = Ok (ids, r') ∧ well_formed r' ∧ framed r r' ∧ ready S (trace r') ∧
    multi_modal_data r' = multi_modal_data r.
Proof using Htext HQ Hmg.
  intros Hw Hg Hs. pose proof Hs as [Hl (A & Y & Htr & HmY & Htail)]. destruct (ends_spec r S Hw Hg Hl) as (b & Hb & Hiff).
  unfold get_generation_prompt_ids. rewrite Hb, Hg. cbn [mbind result_bind]. destruct b.
  - assert (HY : Y = pairs 0 g).
    { destruct (proj1 Hiff eq_refl) as [X HX]. pose proof (trace_fst r Hw) as Hfst.
      rewrite Htr, !fmap_app, fmap_cons, HX, app_assoc in Hfst.
      assert (Hg' : Y.*1 = g) by by eapply last_occurrence.
      destruct Htail as [Hu|(ids & Hne & ->)].
      - rewrite <- Hg'. clear - Hu. induction Hu as [|[t z] Y Hz _ IH]; [done|]. unfold untrained in Hz. cbn in Hz. subst z. unfold pairs in *. csimpl. by f_equal.
      - rewrite fmap_app, !pairs_fst in Hg'. destruct ids; [done|]. apply (f_equal length) in Hg'. rewrite length_app in Hg'. cbn in Hg'. lia. }
    cbn [mbind result_bind].
    assert (Hr : ready S (trace r)) by (split; [done|]; exists A; by rewrite Htr, HY).
    destruct (use_inference_chat_template r); eexists _, r; split_and!; try done; apply framed_refl.
  - destruct (update_spec gen false [] r Hw) as (r' & -> & Hw' & Hf & _ & Ht & Hd).
    { rewrite <- (trace_fst r Hw). pose proof (loose_length _ _ Hl). destruct (trace r); [cbn in *; lia | done]. }
    cbn [mbind result_bind]. assert (Hr : ready S (trace r')).
    { rewrite Ht. split; [by apply loose_untrained|]. exists (A ++ (m, 0%Z) :: Y). rewrite Htr. by rewrite <- !app_assoc. }
    destruct (use_inference_chat_template r'); eexists _, r'; by split_and!.
Qed.

(** *** Media *)

Definition has_keys {V} (ks : list string) (d : list (string * V)) : Prop := ∀ k, k ∈ ks → ∃ v, dget k d = Some v.
Lemma has_keys_dset {V} ks k (v : V) d : has_keys ks d → has_keys ks (dset k v d).
Proof. intros Hd k' Hk. rewrite dget_dset. case_bool_decide; eauto. Qed.
Lemma has_keys_fresh {V} (v : V) ks : has_keys ks ((λ k, (k, v)) <$> ks).
Proof.
  intros k Hk. induction ks as [|k' ks IH]; [by apply not_elem_of_nil in Hk|]. csimpl. case_bool_decide as Hc; [by eexists|].
  apply elem_of_cons in Hk as [->|Hk]; [done|]. by apply IH.
Qed.

Lemma response_message_ok ks delta (c : @ToolResponse Media) : has_keys ks delta → "image"%string ∈ ks → "video"%string ∈ ks →
  ∃ msg delta', response_message delta c = Ok (msg, delta') ∧ has_keys ks delta'.
Proof.
  intros Hd Hi Hv. unfold response_message. destruct (is_text_only c); [by eexists _, _|].
  assert (Htake : ∀ key (l : option (list Media)) d, key ∈ ks → has_keys ks d → ∃ d',
    (match l with Some (x :: l) => old ← ditem key d; Ok (dset key (old ++ x :: l) d) | _ => Ok d end) = Ok d' ∧ has_keys ks d').
  { intros key l d Hk Hh. destruct l as [[|x l]|]; [by eexists| |by eexists]. unfold ditem. destruct (Hh key Hk) as [v ->].
    eexists. split; [done|]. by apply has_keys_dset. }
  destruct (Htake "image"%string (image c) delta Hi Hd) as (d1 & -> & H1). cbn [mbind result_bind].
  destruct (Htake "video"%string (video c) d1 Hv H1) as (d2 & -> & H2). by eexists _, d2.
Qed.

Lemma response_messages_ok ks (contents : list (@ToolResponse Media)) : "image"%string ∈ ks → "video"%string ∈ ks →
  ∃ ms delta, response_messages ks contents = Ok (ms, delta) ∧ has_keys ks delta ∧ length ms = length contents.
Proof.
  intros Hi Hv. unfold response_messages.
  destruct (foldM_total (λ done (st : list _ * list (string * list Media)), has_keys ks st.2 ∧ length st.1 = length done)
    (λ st c, '(m, delta) ← response_message st.2 c; Ok (st.1 ++ [m], delta)) ([], (λ k, (k, [])) <$> ks) contents) as ([ms delta] & -> & Hk & Hl).
  - split; [apply has_keys_fresh | done].
  - intros done c rest [ms delta] _ [Hk Hl]. cbn [fst snd] in *.
    destruct (response_message_ok ks delta c Hk Hi Hv) as (msg & d' & -> & Hk'). eexists. split; [reflexivity|].
    split; [done|]. cbn. rewrite !length_app, Hl. done.
  - by eexists _, _.
Qed.

Lemma extend_media_ok ks (delta data : list (string * list Media)) : has_keys ks delta → has_keys ks data →
  ∃ data', extend_media ks delta data = Ok data' ∧ has_keys ks data'.
Proof.
  intros Hd Hdata. unfold extend_media.
  destruct (foldM_total (λ _ d, has_keys ks d)
    (λ d k, new ← ditem k delta; match new with [] => Ok d | _ => old ← ditem k d; Ok (dset k (old ++ new) d) end) data ks)
    as (data' & -> & Hk); [done| |by eexists].
  intros done k rest d Hks Hk. assert (Hin : k ∈ ks) by (rewrite Hks; apply elem_of_app; right; apply list_elem_of_here).
  unfold ditem. destruct (Hd k Hin) as [v ->]. cbn. destruct (Hk k Hin) as [w Hw]. destruct v as [|x v]; [by eexists|].
  rewrite Hw. eexists. split; [reflexivity|]. by apply has_keys_dset.
Qed.

(** *** A turn *)

Context (tools : option (list Tool)) (pos : nat).
(** Every rendered message after the base conversation contains [m]. *)
Hypothesis Hmarked : ∀ ms data, ms ≠ [] →
  m ∈ drop pos (mi_input_ids (handle_apply_chat_template pc (BASE_CHAT_HISTORY ++ ms) data tools false)).

Definition turn_ok (t : turn) : Prop := match t with Reply _ ids => ids ≠ [] ∧ m ∉ ids | _ => True end.
Definition live r : Prop :=
  well_formed r ∧ generation_prompt_ids r = gen ∧ tool_schemas_of r = tools ∧ base_conv_wo_gen_prompt_end_pos r = pos ∧
  "image"%string ∈ multi_modal_keys r ∧ "video"%string ∈ multi_modal_keys r ∧ has_keys (multi_modal_keys r) (multi_modal_data r).

Lemma live_framed r r' : live r → well_formed r' → framed r r' → has_keys (multi_modal_keys r) (multi_modal_data r') → live r'.
Proof.
  intros (_ & Hg & Ht & Hp & Hi & Hv & Hk) Hw Hf Hk'. destruct Hf as (E1 & _ & _ & _ & _ & E2 & E3 & _ & _ & E4 & _).
  unfold live, tool_schemas_of in *. rewrite E4, E2. split_and!; (done || congruence).
Qed.

Lemma input_nonempty r S : well_formed r → loose S (trace r) → input_ids r ≠ [].
Proof using HQ.
  intros Hw Hl. rewrite <- (trace_fst r Hw). pose proof (loose_length _ _ Hl). destruct (trace r); [cbn in *; lia | done].
Qed.

Lemma take_turn_ok r t S : live r → settled S (trace r) → turn_ok t →
  ∃ r', take_turn r t = Ok r' ∧ live r' ∧ framed r r' ∧ settled (S ++ replies [t]) (trace r').
Proof using Htext HQ Hmg Hmarked.
  intros Hlive Hs Ht. pose proof Hlive as (Hw & Hg & Htools & Hpos & Hi & Hv & Hk).
  destruct t as [content ids|content|contents]; cbn [take_turn]; unfold replies; cbn [fmap list_fmap mjoin list_join]; rewrite app_nil_r.
  - destruct Ht as [Hne Hm]. destruct (generation_prompt_spec r S Hw Hg Hs) as (prompt & r1 & -> & Hw1 & Hf1 & Hr1 & Hd1).
    cbn [mbind result_bind]. unfold add_assistant_message.
    set (r2 := add_message _ r1). assert (Hw2 : well_formed r2) by exact Hw1. assert (Ht2 : trace r2 = trace r1) by done.
    destruct (update_spec ids true [] r2 Hw2) as (r3 & H3 & Hw3 & Hf3 & _ & Ht3 & Hd3).
    { eapply input_nonempty; [done|]. rewrite Ht2. apply Hr1. }
    assert (Hf : framed r r3) by (eapply framed_trans; [exact Hf1|]; exact Hf3).
    exists r3. split; [exact H3|]. split_and!; [|done|].
    + eapply live_framed; [done..|]. rewrite Hd3. change (multi_modal_data r2) with (multi_modal_data r1). by rewrite Hd1.
    + rewrite Ht3, Ht2. by apply append_reply.
  - unfold add_user_message. set (r1 := add_message _ r).
    assert (Hm : m ∈ mi_input_ids (message_ids pc [text_message "user" content] [] (base_conv_wo_gen_prompt_end_pos r) r)).
    { unfold message_ids. cbn [mi_input_ids]. rewrite Hpos, Htools. by apply Hmarked. }
    destruct (update_spec (mi_input_ids (message_ids pc [text_message "user" content] [] (base_conv_wo_gen_prompt_end_pos r) r)) false [] r1 Hw)
      as (r2 & H2 & Hw2 & Hf2 & _ & Ht2 & Hd2); [by eapply input_nonempty; [|apply Hs]|].
    exists r2. split; [exact H2|]. split_and!; [|exact Hf2|].
    + eapply live_framed; [done|done|exact Hf2|]. by rewrite Hd2.
    + rewrite Ht2. change (trace r1) with (trace r). apply append_env; [apply Hs | exact Hm].
  - unfold add_tool_response_messages. destruct (Nat.eqb (length contents) 0 || forallb is_empty contents) eqn:He.
    { exists r. split_and!; [done..|apply framed_refl|done]. }
    apply orb_false_iff in He as [He _]. apply Nat.eqb_neq in He.
    destruct (response_messages_ok (multi_modal_keys r) contents Hi Hv) as (ms & delta & -> & Hdk & Hml). cbn [mbind result_bind].
    destruct (extend_media_ok _ _ _ Hdk Hk) as (data & -> & Hdata). cbn [mbind result_bind].
    set (r1 := set_messages r _ data _). assert (Hw1 : well_formed r1) by exact Hw.
    destruct (remove_spec r1 S Hw1 Hg Hs) as (r2 & -> & Hw2 & Hf2 & Hl2 & Hd2 & _). cbn [mbind result_bind].
    set (info := message_ids _ _ _ _ _).
    assert (Hm : m ∈ mi_input_ids info).
    { unfold info, message_ids. cbn [mi_input_ids]. change (tool_schemas_of r1) with (tool_schemas_of r). rewrite Htools.
      change (base_conv_wo_gen_prompt_end_pos r1) with (base_conv_wo_gen_prompt_end_pos r). rewrite Hpos. apply Hmarked.
      intros ->. cbn in Hml. lia. }
    destruct (update_spec (mi_input_ids info) false (others info) r2 Hw2) as (r3 & -> & Hw3 & Hf3 & _ & Ht3 & Hd3);
      [by eapply input_nonempty|].
    assert (Hf : framed r r3) by (eapply framed_trans; [|exact Hf3]; exact Hf2).
    exists r3. split_and!; [done| |done|].
    + eapply live_framed; [done..|]. rewrite Hd3, Hd2. exact Hdata.
    + rewrite Ht3. by apply append_env.
Qed.

Lemma replies_cons t turns : replies (t :: turns) = replies [t] ++ replies turns.
Proof. unfold replies. csimpl. cbn [mjoin list_join]. by rewrite app_nil_r. Qed.

Lemma turns_spec turns : ∀ r S, live r → settled S (trace r) → Forall turn_ok turns →
  ∃ r', foldM take_turn r turns = Ok r' ∧ live r' ∧ framed r r' ∧ settled (S ++ replies turns) (trace r').
Proof using Htext HQ Hmg Hmarked.
  induction turns as [|t turns IH]; intros r S Hl Hs Ht.
  - exists r. split_and!; [done..|apply framed_refl|]. by rewrite app_nil_r.
  - apply Forall_cons in Ht as [Ht Hts]. destruct (take_turn_ok r t S Hl Hs Ht) as (r1 & Hr1 & Hl1 & Hf1 & Hs1).
    destruct (IH r1 _ Hl1 Hs1 Hts) as (r2 & Hr2 & Hl2 & Hf2 & Hs2). exists r2. cbn [foldM]. rewrite Hr1. cbn [mbind result_bind].
    split_and!; [done..|by eapply framed_trans|]. by rewrite replies_cons, app_assoc.
Qed.

Lemma trained_response S tr p M k : loose S tr → (p ≤ length Q + length gen)%nat →
  trained (take k (drop p (take M tr))) `prefix_of` S ∧
  ((length tr ≤ M)%nat → (length tr - p ≤ k)%nat → trained (take k (drop p (take M tr))) = S).
Proof.
  intros (_ & HS & Hf) Hp.
  assert (Hdrop : ∀ T, T `prefix_of` tr → trained (drop p T) = trained T).
  { intros T [T' HT]. rewrite <- (take_drop p T) at 2. rewrite trained_app, (trained_untrained (take p T)); [done|].
    assert (Hf' : Forall untrained (take p (take (length Q + length gen) tr))) by by apply Forall_take.
    rewrite take_take, Nat.min_l, HT, take_app in Hf' by done. clear Hf. rename Hf' into Hf. by apply Forall_app in Hf as [? _]. }
  assert (Hpre : take M tr `prefix_of` tr) by (exists (drop M tr); by rewrite take_drop). split.
  - rewrite <- HS. etrans; [apply trained_prefix; by exists (drop k (drop p (take M tr))); rewrite take_drop|].
    rewrite Hdrop by done. by apply trained_prefix.
  - intros HM Hk. rewrite (take_ge tr) by done. rewrite take_ge by (rewrite length_drop; lia). by rewrite Hdrop.
Qed.

(** The parts of the prompt that the end of a request measures. *)
Definition prompt_lengths r : Prop :=
  let n := length Q + length gen in
  length (prompt_ids r) = n ∧ length (prompt_loss_mask r) = n ∧ length (prompt_attention_mask r) = n ∧
  ∃ row, prompt_position_ids r = Some [row] ∧ length row = n.

Lemma finalized_response r S rewards reason : live r → settled S (trace r) → prompt_lengths r → reason ≠ TOOL_CALL →
  (0 ≤ max_model_len r)%Z → (0 ≤ max_response_len r)%Z →
  ∃ r' ids mask, finalize rewards reason r = Ok r' ∧ state r' = COMPLETED ∧
    response_ids r' = Some ids ∧ response_loss_mask r' = Some mask ∧
    length mask = length ids ∧ (Z.of_nat (length ids) ≤ max_response_len r)%Z ∧
    trained (zip ids mask) `prefix_of` S ∧
    ((Z.of_nat (length (input_ids r)) ≤ max_model_len r)%Z →
     (Z.of_nat (length (input_ids r)) - Z.of_nat (length Q + length gen) ≤ max_response_len r)%Z → trained (zip ids mask) = S).
Proof using HQ Hmg.
  intros Hl Hs Hp Hreason HM HR. pose proof Hl as (Hw & Hg & _). unfold finalize.
  set (r0 := set_response r COMPLETED _ _ _ _ _). assert (Hw0 : well_formed r0) by exact Hw.
  destruct (remove_spec r0 S Hw0 Hg Hs) as (r1 & -> & Hw1 & Hf1 & Hl1 & _ & Hlen). cbn [mbind result_bind].
  set (r2 := set_response r1 _ _ _ _ _ _).
  assert (Hfin : ∃ r', truncate_output_ids r2 = Ok r' ∧ same_lengths (input_ids r') (attention_mask r') (position_ids r') (loss_mask r') = true ∧
    state r' = state r1 ∧
    response_ids r' = Some (response_part (prompt_ids r1) (max_response_len r1) (zhead (max_model_len r1) (input_ids r1))) ∧
    response_loss_mask r' = Some (response_part (prompt_loss_mask r1) (max_response_len r1) (zhead (max_model_len r1) (loss_mask r1)))).
  { unfold truncate_output_ids. destruct Hp as (_ & _ & _ & prow & Hprow & _). pose proof Hf1 as (_ & _ & _ & _ & E & _).
    change (prompt_position_ids r0) with (prompt_position_ids r) in E. rewrite Hprow in E. cbn [prompt_position_ids set_sequence r2 set_response].
    rewrite E. cbn [of_option mbind result_bind]. eexists. split; [reflexivity|]. split_and!; try done.
    destruct Hw1 as (H1 & H2 & row & H3 & H4). unfold same_lengths.
    cbn -[zhead Nat.eqb]. rewrite H3. cbn -[zhead Nat.eqb]. unfold zhead, zslice, slice. rewrite !length_take, !length_drop, H1, H2, H4.
    by rewrite !Nat.eqb_refl. }
  destruct Hfin as (r' & Htr & Hsame & Hst & Hri & Hrl).
  destruct Hf1 as (_ & E1 & E2 & E3 & E4 & _ & _ & E5 & E6 & _ & E7). cbn in E1, E2, E3, E4, E5, E6, E7.
  destruct Hp as (P1 & P2 & _). rewrite E1, E5, E6 in Hri. rewrite E2, E5, E6 in Hrl.
  unfold response_part, zhead in Hri, Hrl. rewrite !zslice_head, P1 in Hri by done. rewrite !zslice_head, P2 in Hrl by done.
  eexists r', _, _. split.
  { destruct reason; [| |done]; rewrite Htr; cbn [mbind result_bind]; by rewrite Hsame. }
  split; [by rewrite Hst, E7|]. split; [exact Hri|]. split; [exact Hrl|].
  destruct Hw1 as (Hlm & _). rewrite <- zip_with_take, <- zip_with_drop, <- zip_with_take. fold (trace r1).
  rewrite !length_take, !length_drop, !length_take, Hlm. split; [done|]. split; [lia|].
  destruct (trained_response S (trace r1) (length Q + length gen) (Z.to_nat (max_model_len r)) (Z.to_nat (max_response_len r)) Hl1) as [Hpre Hall]; [done|].
  split; [exact Hpre|]. intros H1 H2. apply Hall; unfold trace; rewrite length_zip_with; change (input_ids r0) with (input_ids r) in Hlen; lia.
Qed.

Definition default_keys : list string := ["image"; "video"; "audio"]%string.
Lemma fill_keys_has ks (d : list (string * list Media)) : has_keys ks (fill_keys ks d).
Proof.
  unfold fill_keys. assert (Hkeep : ∀ ks k (d : list (string * list Media)), (∃ v, dget k d = Some v) →
    ∃ v, dget k (foldl (λ d k, match dget k d with Some _ => d | None => dset k [] d end) d ks) = Some v).
  { clear. intros ks k. induction ks as [|k' ks IH]; intros d Hd; [done|]. cbn. apply IH. destruct (dget k' d); [done|].
    rewrite dget_dset. case_bool_decide; [by eexists | done]. }
  revert d. induction ks as [|k ks IH]; intros d k' Hk'; [by apply not_elem_of_nil in Hk'|].
  apply elem_of_cons in Hk' as [->|Hk']; cbn; [|by apply IH]. apply Hkeep. destruct (dget k d) eqn:Hd; [by eexists|].
  rewrite dget_dset, bool_decide_eq_true_2 by done. by eexists.
Qed.

Lemma pairs_zeros ids : zip ids (replicate (length ids) 0%Z) = pairs 0 ids.
Proof. unfold pairs. induction ids as [|t ids IH]; [done|]. cbn. by f_equal. Qed.

(** The request of a conversation whose tokens the template provides. *)
Lemma initialize_spec (a : @arguments Media Tool) :
  given a = None → a_messages a ≠ [] → a_max_prompt_len a ≠ 0%Z → a_multi_modal_keys a = [] →
  let template ms gen := handle_apply_chat_template pc ms (fill_keys default_keys (a_multi_modal_data a)) tools gen in
  tools = tools_of (a_tool_schemas a) → pos = length (mi_input_ids (template BASE_CHAT_HISTORY false)) →
  mi_input_ids (template (a_messages a) false) = Q →
  mi_input_ids (template (a_messages a) true) = Q ++ gen →
  length (mi_attention_mask (template (a_messages a) true)) = length Q + length gen →
  ∃ r0, initialize_request pc a = Ok r0 ∧ live r0 ∧ settled [] (trace r0) ∧ prompt_lengths r0 ∧
    max_model_len r0 = a_max_model_len a ∧ max_response_len r0 = a_max_response_len a.
Proof using Htext Hmg.
  intros Hgiven Hms Hmax Hks template Htools Hpos Hwithout Hwith Hatt.
  remember (template (a_messages a) true) as m0 eqn:Hm0. remember (template (a_messages a) false) as m1 eqn:Hm1.
  unfold initialize_request. rewrite Hgiven, Hks, <- Htools.
  replace (negb (Nat.eqb (length (a_messages a)) 0)) with true by (destruct (a_messages a); done).
  replace (negb (a_max_prompt_len a =? 0)%Z) with true by (symmetry; apply negb_true_iff; by apply Z.eqb_neq).
  fold default_keys. cbv zeta.
  change (handle_apply_chat_template pc (a_messages a) _ tools true) with (template (a_messages a) true).
  change (handle_apply_chat_template pc (a_messages a) _ tools false) with (template (a_messages a) false).
  rewrite <- Hm0, <- Hm1, Hwithout.
  eexists. split; [reflexivity|].
  assert (Hids : length (mi_input_ids m0) = length Q + length gen) by (rewrite Hwith; apply length_app).
  assert (Hpos' : get_position_ids pc (mi_input_ids m0) (mi_attention_mask m0) (others m0) = [compute_position_id_with_mask (mi_attention_mask m0)]).
  { unfold get_position_ids. by rewrite Htext. }
  assert (Hrow : length (compute_position_id_with_mask (mi_attention_mask m0)) = length Q + length gen).
  { unfold compute_position_id_with_mask. by rewrite length_fmap, cumsum_length. }
  split_and!; try done.
  - split_and!; cbn [loss_mask input_ids attention_mask position_ids generation_prompt_ids multi_modal_keys multi_modal_data].
    + unfold well_formed. cbn [loss_mask input_ids attention_mask position_ids].
      split_and!; [by rewrite length_replicate | etrans; [exact Hatt | symmetry; exact Hids] |]. exists (compute_position_id_with_mask (mi_attention_mask m0)).
      split; [exact Hpos' | etrans; [exact Hrow | symmetry; exact Hids]].
    + rewrite Hwith. apply drop_app_length.
    + unfold tool_schemas_of. cbn. by rewrite Htools.
    + by rewrite Hpos.
    + apply list_elem_of_here.
    + apply list_elem_of_further, list_elem_of_here.
    + apply fill_keys_has.
  - unfold trace. cbn [input_ids loss_mask]. rewrite pairs_zeros, Hwith, pairs_app. split.
    + split_and!; [by eexists | by apply trained_untrained, Forall_app; split; apply pairs_untrained|].
      apply Forall_take, Forall_app. split; apply pairs_untrained.
    + exists [], (pairs 0 g). split; [done|]. split; [by rewrite pairs_fst|]. left. apply pairs_untrained.
  - unfold prompt_lengths. cbn. rewrite length_replicate. split_and!; [done..|]. by exists (compute_position_id_with_mask (mi_attention_mask m0)); rewrite Hpos'.
Qed.

(** C25: A finished conversation trains exactly on what the model wrote.  For a chat
    template whose messages start with a token that the model does not write, any
    sequence of replies, user messages and tool responses, with their media, is accepted;
    the response and its loss mask have the same length, within the limit; and the
    tokens under the mask are the replies' tokens in order, all of them unless the
    limits cut the sequence. *)
Theorem trains_on_replies_only (a : @arguments Media Tool) turns rewards reason :
  given a = None → a_messages a ≠ [] → a_max_prompt_len a ≠ 0%Z → a_multi_modal_keys a = [] →
  let template ms gen := handle_apply_chat_template pc ms (fill_keys default_keys (a_multi_modal_data a)) tools gen in
  tools = tools_of (a_tool_schemas a) → pos = length (mi_input_ids (template BASE_CHAT_HISTORY false)) →
  mi_input_ids (template (a_messages a) false) = Q →
  mi_input_ids (template (a_messages a) true) = Q ++ gen →
  length (mi_attention_mask (template (a_messages a) true)) = length Q + length gen →
  Forall turn_ok turns → reason ≠ TOOL_CALL → (0 ≤ a_max_model_len a)%Z → (0 ≤ a_max_response_len a)%Z →
  ∃ r0 r1 r ids mask,
    initialize_request pc a = Ok r0 ∧ foldM take_turn r0 turns = Ok r1 ∧ finalize rewards reason r1 = Ok r ∧
    response_ids r = Some ids ∧ response_loss_mask r = Some mask ∧
    length mask = length ids ∧ (Z.of_nat (length ids) ≤ a_max_response_len a)%Z ∧
    trained (zip ids mask) `prefix_of` replies turns ∧
    ((Z.of_nat (length (input_ids r1)) ≤ a_max_model_len a)%Z →
     (Z.of_nat (length (input_ids r1)) - Z.of_nat (length Q + length gen) ≤ a_max_response_len a)%Z →
     trained (zip ids mask) = replies turns).
Proof using Htext HQ Hmg Hmarked.
  intros Hgiven Hms Hmax Hks template Htools Hpos Hwithout Hwith Hatt Hturns Hreason HM HR.
  destruct (initialize_spec a Hgiven Hms Hmax Hks Htools Hpos Hwithout Hwith Hatt) as (r0 & Hr0 & Hl0 & Hs0 & Hp0 & HM0 & HR0).
  destruct (turns_spec turns r0 [] Hl0 Hs0 Hturns) as (r1 & Hr1 & Hl1 & Hf1 & Hs1).
  destruct Hf1 as (_ & E1 & E2 & E3 & E4 & _ & _ & E5 & E6 & _).
  assert (Hp1 : prompt_lengths r1) by (unfold prompt_lengths in *; by rewrite E1, E2, E3, E4).
  destruct (finalized_response r1 _ rewards reason Hl1 Hs1 Hp1 Hreason) as (r & ids & mask & Hr & _ & Hfin); [lia..|].
  rewrite E5, E6, HM0, HR0 in Hfin. by exists r0, r1, r, ids, mask.
Qed.
End conversations.

(** ** A concrete template: characters are tokens, messages start with [<] *)

Section sample_conversation.
Local Definition codes (s : string) : list Z := (λ c, Z.of_nat (nat_of_ascii c)) <$> String.list_ascii_of_string s.
Local Definition body_of (c : message_content) : string := match c with Str s => s | Parts l => String.concat "" ((λ _, "[media]"%string) <$> l) end.
Local Definition write_message (msg : Message) : string := ("<" ++ role msg ++ ":" ++ body_of (content msg) ++ ">")%string.
Local Definition char_processing (prompt : string) : processing (Media := nat) (Tensor := nat) (Tool := nat) := {|
  apply_chat_template := λ ms _ gen, (foldr String.append (if gen : bool then prompt else "") (write_message <$> ms))%string;
  is_processor := false;
  tokenize := λ s, {| mi_input_ids := codes s; mi_attention_mask := replicate (String.length s) 1%Z; others := [] |};
  process := λ _ _ _ _, {| mi_input_ids := []; mi_attention_mask := []; others := [] |};
  is_qwen2vl := false; get_rope_index := λ _ _ _, [] |}.
Local Definition chat (response model : Z) : @arguments nat nat := {|
  a_state := PENDING; a_messages := [text_message "user" "2+2? Use the calculator."]; a_max_prompt_len := 100; a_multi_modal_keys := [];
  a_multi_modal_data := []; a_tool_schemas := None; given := None; a_reward_scores := []; a_max_response_len := response;
  a_max_model_len := model; a_use_inference_chat_template := false |}%string.
Local Definition dialogue : list (@turn nat) :=
  [Reply "calc(2+2)" (codes "calc(2+2)"); Tools [{| text := Some "4"; image := Some [7]; video := None |}]; Reply "4" (codes "4!")]%string.

Lemma codes_app s t : codes (s +:+ t) = codes s ++ codes t.
Proof. unfold codes. induction s as [|c s IH]; [done|]. cbn. by f_equal. Qed.

Lemma char_template_marked prompt ms (data : list (string * list nat)) : ms ≠ [] →
  60%Z ∈ drop (length (mi_input_ids (handle_apply_chat_template (char_processing prompt) BASE_CHAT_HISTORY [] None false)))
    (mi_input_ids (handle_apply_chat_template (char_processing prompt) (BASE_CHAT_HISTORY ++ ms) data None false)).
Proof.
  intros Hms. unfold handle_apply_chat_template. cbn [is_processor tokenize apply_chat_template char_processing mi_input_ids].
  rewrite fmap_app, foldr_app. set (rest := foldr String.append "" (write_message <$> ms)).
  assert (Hsplit : ∀ (l : list string) r, foldr String.append r l = (foldr String.append "" l +:+ r)).
  { clear. induction l as [|s l IH]; intros r; [done|]. cbn. by rewrite IH, sapp_assoc. }
  rewrite (Hsplit _ rest), codes_app, drop_app_length. destruct ms as [|msg ms]; [done|]. unfold rest, codes. csimpl.
  apply list_elem_of_here.
Qed.

Lemma trains_on_replies_only_witness :
  ∃ r0 r1 r ids mask,
    initialize_request (char_processing "<assistant:") (chat 100 200) = Ok r0 ∧
    foldM (take_turn (char_processing "<assistant:")) r0 dialogue = Ok r1 ∧ finalize [] STOP r1 = Ok r ∧
    response_ids r = Some ids ∧ response_loss_mask r = Some mask ∧
    length mask = length ids ∧ (Z.of_nat (length ids) ≤ 100)%Z ∧ trained (zip ids mask) = codes "calc(2+2)4!".
Proof.
  destruct (trains_on_replies_only (char_processing "<assistant:") eq_refl 60 (codes "assistant:") (codes "<user:2+2? Use the calculator.>"))
    with (tools := @None (list nat)) (pos := length (mi_input_ids (handle_apply_chat_template (char_processing "<assistant:") BASE_CHAT_HISTORY [] None false)))
         (a := chat 100 200) (turns := dialogue) (rewards := @nil (string * json)) (reason := STOP)
    as (r0 & r1 & r & ids & mask & H1 & H2 & H3 & H4 & H5 & H6 & H7 & _ & H8); try done.
  - intros Hin. apply (bool_decide_eq_true_2 _) in Hin. by vm_compute in Hin.
  - apply Nat.ltb_lt. by vm_compute.
  - intros ms data Hms. by apply char_template_marked.
  - repeat constructor; try done; intros Hin; apply (bool_decide_eq_true_2 _) in Hin; by vm_compute in Hin.
  - exists r0, r1, r, ids, mask. split_and!; try done.
    assert (E : (r0 ← initialize_request (char_processing "<assistant:") (chat 100 200); foldM (take_turn (char_processing "<assistant:")) r0 dialogue) = Ok r1).
    { rewrite H1. exact H2. }
    apply (f_equal (λ x, match x with Ok r => length (input_ids r) | Raise _ => 0 end)) in E. cbv beta match in E.
    rewrite H8; [by vm_compute| |]; rewrite <- E; intros Hc; vm_compute in Hc; congruence.
Defined.

(** Without a generation prompt the slice of the last zero tokens is the whole sequence. *)
Example no_generation_prompt :
  (r ← initialize_request (char_processing "") (chat 100 200); get_generation_prompt_ids (char_processing "") r)
  = Raise (RuntimeError "The size of tensor a must match the size of tensor b").
Proof. by vm_compute. Qed.

(** A request that is given its tokens, mask and positions cannot be finalized, unless it
    is given the prompt's positions too. *)
Example given_tokens_cannot_finalize :
  (r ← initialize_request (char_processing "<assistant:")
         {| a_state := PENDING; a_messages := [text_message "user" "hi"]; a_max_prompt_len := 100; a_multi_modal_keys := [];
            a_multi_modal_data := []; a_tool_schemas := None; given := Some (Z.of_nat <$> seq 0 21, replicate 21 1%Z, [Z.of_nat <$> seq 0 21], None);
            a_reward_scores := []; a_max_response_len := 100; a_max_model_len := 200; a_use_inference_chat_template := false |};
   finalize [] STOP r)
  = Raise (AttributeError "'NoneType' object has no attribute 'shape'").
Proof. by vm_compute. Qed.
End sample_conversation.
