(* ===== verification/WeightSync.v ===== *)
(** * Weight synchronisation over a collective

    [src/verl/checkpoint_engine/base.py] (splitting weights into chunks and merging them) and
    [src/verl/checkpoint_engine/nccl_checkpoint_engine.py]: rank 0 fills one of two buffers while
    the other is broadcast in a thread; a receiver hands out the tensors of one buffer while the
    next bucket arrives in the other.  The threads and the device are interleaved as steps of one
    sender and one receiver; a broadcast copies the bytes of the bucket one by one, in any order.
    A handed-out tensor is a view of the buffer: it is read when it is handed out, as consumers
    that copy it do.  Sockets and process groups are not modelled. *)

From S2P Require Import Prelude PyDict BucketedTransfer.
Local Open Scope py_scope.

(** ** Chunks *)

(** [offset]: the place in the bucket, filled in by the sender. *)
Record TensorMeta := { name : string; ttype : tensor_type; chunk_offset : nat; chunk_size : nat; offset : option nat }.
Abbreviation chunk := (TensorMeta * list Z)%type.

(** The [while] loop over one weight; [None] if the fuel runs out. *)
Fixpoint weight_chunks (bucket_size fuel : nat) (nm : string) (w : weight) (off : nat) : option (list chunk) :=
  if Nat.ltb off (nbytes w) then
    match fuel with
    | O => None
    | S fuel =>
        let size := Nat.min bucket_size (nbytes w - off) in
        let meta := {| name := nm; ttype := w_type w; chunk_offset := off; chunk_size := size; offset := None |} in
        rest ← weight_chunks bucket_size fuel nm w (off + size);
        Some ((meta, slice off (off + size) (w_data w)) :: rest)
    end
  else Some [].
(** A chunk holds at least one byte, so the number of bytes is enough fuel. *)
Definition split_weight_chunks (bucket_size : nat) (weights : list (string * weight)) : option (list chunk) :=
  (λ l, concat l) <$> mapM (λ nw, weight_chunks bucket_size (nbytes nw.2) nw.1 nw.2 0) weights.

(** [chunk.view(dtype).view(shape)] of bytes that lie at [offset] of a buffer: torch refuses an
    offset or a length that is no multiple of the element size. *)
Definition view_dtype (m : TensorMeta) (data : list Z) : result weight :=
  require Nat.eqb (default 0 (offset m) mod itemsize (ttype m)) 0
    else RuntimeError "self.storage_offset() must be divisible" ;;
  require Nat.eqb (length data mod itemsize (ttype m)) 0 else RuntimeError "self.size(-1) must be divisible" ;;
  require Nat.eqb (length data) (size_of (ttype m)) else RuntimeError "shape is invalid for input" ;;
  Ok {| w_type := ttype m; w_data := data |}.

Section merge.
(** [torch.empty]: the bytes of a fresh tensor. *)
Context (empty : nat → list Z) (bucket_size : nat).

(** The weight under construction: name, type, buffer and bytes filled. *)
Abbreviation merging := (option (string * tensor_type * list Z * nat)).

Definition merge_chunk (s : merging * list (string * weight)) (c : chunk) : result (merging * list (string * weight)) :=
  let '(m, data) := c in
  if Nat.leb (size_of (ttype m)) bucket_size then
    require match s.1 with None => true | Some _ => false end else AssertionError "Weight must be None" ;;
    w ← view_dtype m data;
    Ok (None, s.2 ++ [(name m, w)])
  else
    '(nm, t, buf, off) ← match s.1 with
      | Some st => Ok st
      | None => require Nat.eqb (chunk_offset m) 0 else AssertionError "Chunk offset must be 0" ;;
                Ok (name m, ttype m, empty (size_of (ttype m)), 0)
      end;
    require bool_decide (name m = nm) else AssertionError "" ;;
    require Nat.eqb off (chunk_offset m) else AssertionError "" ;;
    let buf := copy_into (chunk_offset m) data buf in
    let off := off + chunk_size m in
    if Nat.eqb (chunk_offset m + chunk_size m) (size_of (ttype m)) then
      Ok (None, s.2 ++ [(nm, {| w_type := t; w_data := buf |})])
    else Ok (Some (nm, t, buf, off), s.2).

Definition merge_weight_chunks (chunks : list chunk) : result (list (string * weight)) :=
  snd <$> foldM merge_chunk (None, []) chunks.
End merge.

(** ** The two sides *)

Abbreviation bucket := (list (string * TensorMeta)).

(** A receiver's broadcast: not started, started, or finished with the metadata. *)
Inductive reception := Idle | Launched | Arrived (meta : bucket) (last : bool).

(** The sender's [flight] is the bucket being broadcast: from the other buffer, and from
    [send_buf] itself for the last one.  The receiver's [pending] are the entries of the bucket in
    its [r_send_buf] that it has not handed out. *)
Record system := {
  todo : list chunk; send_buf : list Z; recv_buf : list Z; meta : bucket; off : nat;
  closed : bool; flight : option (bucket * bool);
  copied : list nat;
  r_send_buf : list Z; r_recv_buf : list Z; pending : list TensorMeta; r_last : bool; rx : reception;
  handed : list chunk }.

Section transfer.
Context (bucket_size : nat).

(** [prepare]: two buffers of zeros on each side. *)
Definition prepare (chunks : list chunk) : system :=
  let zeros := replicate bucket_size 0%Z in
  {| todo := chunks; send_buf := zeros; recv_buf := zeros; meta := []; off := 0; closed := false; flight := None;
     copied := []; r_send_buf := zeros; r_recv_buf := zeros; pending := []; r_last := false; rx := Idle; handed := [] |}.

Definition with_offset (o : nat) (m : TensorMeta) : TensorMeta :=
  {| name := name m; ttype := ttype m; chunk_offset := chunk_offset m; chunk_size := chunk_size m; offset := Some o |}.

(** The body of the loop of [send_weights] after the bucket was made room. *)
Definition put_chunk (s : system) (c : chunk) (rest : list chunk) : result system :=
  let '(m, data) := c in
  require Nat.leb (off s + chunk_size m) bucket_size else AssertionError "" ;;
  require negb (dmem (name m) (meta s)) else AssertionError "" ;;
  Ok {| todo := rest; send_buf := copy_into (off s) data (send_buf s); recv_buf := recv_buf s;
        meta := dset (name m) (with_offset (off s) m) (meta s); off := off s + chunk_size m;
        closed := closed s; flight := flight s; copied := copied s;
        r_send_buf := r_send_buf s; r_recv_buf := r_recv_buf s; pending := pending s; r_last := r_last s; rx := rx s;
        handed := handed s |}.

(** The broadcast of a full bucket, and the swap of the buffers. *)
Definition flush_bucket (s : system) : system :=
  {| todo := todo s; send_buf := recv_buf s; recv_buf := send_buf s; meta := []; off := 0;
     closed := closed s; flight := Some (meta s, false); copied := copied s;
     r_send_buf := r_send_buf s; r_recv_buf := r_recv_buf s; pending := pending s; r_last := r_last s; rx := rx s;
     handed := handed s |}.
(** The broadcast of the last bucket. *)
Definition close_bucket (s : system) : system :=
  {| todo := todo s; send_buf := send_buf s; recv_buf := recv_buf s; meta := []; off := off s;
     closed := true; flight := Some (meta s, true); copied := copied s;
     r_send_buf := r_send_buf s; r_recv_buf := r_recv_buf s; pending := pending s; r_last := r_last s; rx := rx s;
     handed := handed s |}.
Definition source (s : system) (last : bool) : list Z := if last then send_buf s else recv_buf s.

Definition set_receiver (s : system) (fl : option (bucket * bool)) (cp : list nat) (b b' : list Z) (p : list TensorMeta)
    (l : bool) (r : reception) (h : list chunk) : system :=
  {| todo := todo s; send_buf := send_buf s; recv_buf := recv_buf s; meta := meta s; off := off s;
     closed := closed s; flight := fl; copied := cp;
     r_send_buf := b; r_recv_buf := b'; pending := p; r_last := l; rx := r; handed := h |}.

Inductive event :=
  | Fill                (** the sender puts the next chunk into the bucket *)
  | Flush               (** the sender waits for its broadcast and starts the next *)
  | Close               (** the same after the last chunk *)
  | Launch              (** the receiver starts a broadcast *)
  | Copy (i : nat)      (** the device copies byte [i] of the bucket *)
  | Complete            (** both broadcasts return *)
  | Yield               (** the receiver hands out an entry of its bucket *)
  | Next.               (** the receiver waits for its broadcast and swaps its buffers *)

Definition fits (s : system) (c : chunk) : bool := Nat.leb (off s + chunk_size c.1) bucket_size.

(** [None]: the event cannot happen in this state. *)
Definition step (e : event) (s : system) : option (result system) :=
  match e with
  | Fill => match todo s with
            | c :: rest => if fits s c then Some (put_chunk s c rest) else None
            | [] => None
            end
  | Flush => match todo s, flight s with
             | c :: _, None => if fits s c then None else Some (Ok (flush_bucket s))
             | _, _ => None
             end
  | Close => match todo s, flight s, closed s with
             | [], None, false => Some (Ok (close_bucket s))
             | _, _, _ => None
             end
  | Launch => match rx s, r_last s with
              | Idle, false => Some (Ok (set_receiver s (flight s) (copied s) (r_send_buf s) (r_recv_buf s) (pending s)
                                                     (r_last s) Launched (handed s)))
              | _, _ => None
              end
  | Copy i => match flight s, rx s with
              | Some (_, last), Launched =>
                  if bool_decide (i < bucket_size) && negb (bool_decide (i ∈ copied s)) then
                    Some (Ok (set_receiver s (flight s) (i :: copied s) (r_send_buf s)
                                           (<[i := nth i (source s last) 0%Z]> (r_recv_buf s)) (pending s) (r_last s) (rx s) (handed s)))
                  else None
              | _, _ => None
              end
  | Complete => match flight s, rx s with
                | Some (m, last), Launched =>
                    if forallb (λ i, bool_decide (i ∈ copied s)) (seq 0 bucket_size) then
                      Some (Ok (set_receiver s None [] (r_send_buf s) (r_recv_buf s) (pending s) (r_last s) (Arrived m last) (handed s)))
                    else None
                | _, _ => None
                end
  | Yield => match pending s, rx s, r_last s with
             | m :: p, Idle, false => None
             | m :: p, _, _ =>
                 let o := default 0 (offset m) in
                 Some (Ok (set_receiver s (flight s) (copied s) (r_send_buf s) (r_recv_buf s) p (r_last s) (rx s)
                                        (handed s ++ [(m, slice o (o + chunk_size m) (r_send_buf s))])))
             | [], _, _ => None
             end
  | Next => match pending s, rx s with
            | [], Arrived m last =>
                Some (Ok (set_receiver s (flight s) (copied s) (r_recv_buf s) (r_send_buf s) (m.*2) last Idle (handed s)))
            | _, _ => None
            end
  end.

Definition runs (s s' : system) : Prop := ∃ e, step e s = Some (Ok s').
(** Both loops have returned. *)
Definition finished (s : system) : bool :=
  closed s && bool_decide (flight s = None) && r_last s && match pending s with [] => true | _ => false end.
End transfer.

(** ** Chunks of a weight *)

Inductive chunks_of (bucket_size : nat) (nm : string) (w : weight) : nat → list chunk → Prop :=
  | chunks_nil o : nbytes w ≤ o → chunks_of bucket_size nm w o []
  | chunks_cons o size cs : o < nbytes w → size = Nat.min bucket_size (nbytes w - o) →
      chunks_of bucket_size nm w (o + size) cs →
      chunks_of bucket_size nm w o
        (({| name := nm; ttype := w_type w; chunk_offset := o; chunk_size := size; offset := None |},
          slice o (o + size) (w_data w)) :: cs).

Lemma weight_chunks_spec bucket_size nm w fuel o :
  0 < bucket_size → nbytes w - o ≤ fuel →
  ∃ cs, weight_chunks bucket_size fuel nm w o = Some cs ∧ chunks_of bucket_size nm w o cs.
Proof.
  intros Hb. revert o. induction fuel as [|fuel IH]; intros o Hf; cbn [weight_chunks].
  - destruct (Nat.ltb_spec o (nbytes w)); [lia|]. eexists. split; [done|]. by constructor.
  - destruct (Nat.ltb_spec o (nbytes w)); [|eexists; split; [done|]; by constructor].
    destruct (IH (o + Nat.min bucket_size (nbytes w - o))) as (cs & -> & Hcs); [lia|].
    eexists. split; [done|]. by constructor.
Qed.

Lemma split_spec bucket_size ws : 0 < bucket_size →
  ∃ css, split_weight_chunks bucket_size ws = Some (concat css) ∧
         Forall2 (λ nw cs, chunks_of bucket_size nw.1 nw.2 0 cs) ws css.
Proof.
  intros Hb. unfold split_weight_chunks. induction ws as [|[nm w] ws (css & E & H)]; [by exists []|].
  destruct (weight_chunks_spec bucket_size nm w (nbytes w) 0) as (cs & E' & H'); [done|lia|].
  exists (cs :: css). split; [|by constructor]. cbn [mapM]. cbn [fst snd]. rewrite E'. cbn.
  destruct (mapM _ ws) as [l|]; [|done]. cbn in E |- *. by injection E as ->.
Qed.

(** What the transfer needs of a chunk; [ks]: the element sizes in use. *)
Definition chunk_ok (bucket_size : nat) (ks : list nat) (c : chunk) : Prop :=
  0 < chunk_size c.1 ≤ bucket_size ∧ length c.2 = chunk_size c.1 ∧ offset c.1 = None ∧
  Forall (λ k, (k | chunk_size c.1)) ks.

Lemma chunks_of_ok bucket_size ks nm w o cs :
  0 < bucket_size → Forall (λ k, (k | bucket_size) ∧ (k | nbytes w) ∧ (k | o)) ks →
  chunks_of bucket_size nm w o cs →
  Forall (λ c, chunk_ok bucket_size ks c ∧ name c.1 = nm) cs.
Proof.
  intros Hb Hk H. revert Hk. induction H as [o Ho|o size cs Ho -> H IH]; intros Hk; constructor.
  - unfold chunk_ok. cbn [fst snd chunk_size offset name]. split_and!; [lia|lia| |done| |done].
    + unfold slice. rewrite length_take, length_drop. unfold nbytes. unfold nbytes in Ho. lia.
    + eapply Forall_impl; [exact Hk|]. cbn. intros k (K1 & K2 & K3).
      destruct (Nat.min_spec bucket_size (nbytes w - o)) as [[_ ->]|[_ ->]]; [done|]. by apply Nat.divide_sub_r.
  - apply IH. eapply Forall_impl; [exact Hk|]. cbn. intros k (K1 & K2 & K3). split_and!; [done|done|].
    apply Nat.divide_add_r; [done|].
    destruct (Nat.min_spec bucket_size (nbytes w - o)) as [[_ ->]|[_ ->]]; [done|]. by apply Nat.divide_sub_r.
Qed.

(** A chunk that another one of the same weight follows fills a bucket. *)
Definition full_unless_last (bucket_size : nat) (cs : list chunk) : Prop :=
  ∀ pre c mid c' post, cs = pre ++ c :: mid ++ c' :: post → name c.1 = name c'.1 → chunk_size c.1 = bucket_size.

Lemma chunks_of_full bucket_size nm w o cs :
  chunks_of bucket_size nm w o cs → full_unless_last bucket_size cs.
Proof.
  induction 1 as [o Ho|o size cs Ho Hs H IH]; intros pre c mid c' post E Hn; [by destruct pre|].
  destruct pre as [|c0 pre]; [|injection E as _ E; by eapply IH]. injection E as <- E. cbn [fst chunk_size].
  subst cs. inversion H as [? ? E'|o' s' cs' Ho' Hs' H' E1]; [by destruct mid|]. lia.
Qed.

Lemma full_app bucket_size l k :
  full_unless_last bucket_size l → full_unless_last bucket_size k →
  (∀ c c', c ∈ l → c' ∈ k → name c.1 ≠ name c'.1) → full_unless_last bucket_size (l ++ k).
Proof.
  intros Hl Hk Hd pre c mid c' post E Hn.
  destruct (app_eq_inv l k pre (c :: mid ++ c' :: post) E) as [(p & E1 & E2)|(p & E1 & E2)].
  - destruct p as [|c0 p]; [by eapply (Hk [])|]. injection E2 as <- E2.
    apply app_eq_inv in E2 as [(q & Q1 & Q2)|(q & Q1 & Q2)].
    + exfalso. apply (Hd c c'); [subst; set_solver| |done]. rewrite Q2. set_solver.
    + destruct q as [|c1 q]; cbn in Q2.
      * exfalso. apply (Hd c c'); [subst; set_solver| |done]. rewrite <-Q2. set_solver.
      * injection Q2 as <- Q2. eapply (Hl pre c mid c' q); [|done]. by rewrite E1, Q1.
  - eapply (Hk p c mid c' post); done.
Qed.

(** Weights that can be sent: types match contents, none is empty, and every size is a multiple of
    every element size in use, as it is when all weights have one type. *)
Definition aligned (bucket_size : nat) (ws : list (string * weight)) : Prop :=
  Forall (λ nw, wf_weight nw.2 ∧ nbytes nw.2 ≠ 0 ∧
    Forall (λ nw', let k := itemsize (w_type nw'.2) in k ≠ 0 ∧ (k | bucket_size) ∧ (k | nbytes nw.2)) ws) ws.

Definition item_sizes (ws : list (string * weight)) : list nat := (λ nw, itemsize (w_type nw.2)) <$> ws.

Lemma split_ok bucket_size ks ws css :
  0 < bucket_size → NoDup ws.*1 → Forall (λ nw, Forall (λ k, (k | bucket_size) ∧ (k | nbytes nw.2)) ks) ws →
  Forall2 (λ nw cs, chunks_of bucket_size nw.1 nw.2 0 cs) ws css →
  Forall (λ c, chunk_ok bucket_size ks c ∧ name c.1 ∈ ws.*1) (concat css) ∧ full_unless_last bucket_size (concat css).
Proof.
  intros Hb Hnd Hal H. revert Hnd Hal. induction H as [|[nm w] cs ws css H1 H IH]; intros Hnd Hal.
  { split; [constructor|]. intros pre c mid c' post E. by destruct pre. }
  cbn in Hnd. apply NoDup_cons in Hnd as [Hnm Hnd]. apply Forall_cons in Hal as [Hal1 Hal].
  destruct (IH Hnd Hal) as [IH1 IH2]. cbn [concat fst snd] in *.
  assert (Hok : Forall (λ c, chunk_ok bucket_size ks c ∧ name c.1 = nm) cs).
  { eapply chunks_of_ok; [done| |done]. eapply Forall_impl; [exact Hal1|]. cbn. intros k [K1 K2].
    split_and!; [done|done|]. apply Nat.divide_0_r. }
  split.
  - apply Forall_app. split.
    + eapply Forall_impl; [exact Hok|]. cbn. intros c [Hc ->]. split; [done|set_solver].
    + eapply Forall_impl; [exact IH1|]. cbn. intros c [Hc Hin]. split; [done|set_solver].
  - apply full_app; [by eapply chunks_of_full|done|]. intros c c' Hc Hc' E.
    rewrite Forall_forall in Hok. rewrite Forall_forall in IH1. destruct (Hok c Hc) as [_ N1]. destruct (IH1 c' Hc') as [_ N2].
    rewrite <-E, N1 in N2. done.
Qed.

(** ** The invariant of the transfer *)

Section correct.
Context (bucket_size : nat) (ks : list nat).

Definition erase (c : chunk) : chunk :=
  ({| name := name c.1; ttype := ttype c.1; chunk_offset := chunk_offset c.1; chunk_size := chunk_size c.1; offset := None |}, c.2).
(** The entry of a bucket with its bytes. *)
Definition read (buf : list Z) (m : TensorMeta) : chunk :=
  let o := default 0 (offset m) in (m, slice o (o + chunk_size m) buf).
Definition arrived (s : system) : list TensorMeta := match rx s with Arrived m _ => m.*2 | _ => [] end.
Definition flying (s : system) : list TensorMeta := match flight s with Some (m, _) => m.*2 | None => [] end.
Definition flight_last (s : system) : bool := match flight s with Some (_, b) => b | None => false end.
Definition arrived_last (s : system) : bool := match rx s with Arrived _ b => b | _ => false end.

(** Every chunk in the order in which the receiver will hand it out, wherever it is now. *)
Definition stream (s : system) : list chunk :=
  handed s ++ (read (r_send_buf s) <$> pending s) ++ (read (r_recv_buf s) <$> arrived s) ++
  (read (source s (flight_last s)) <$> flying s) ++ (read (send_buf s) <$> (meta s).*2).

Definition placed (limit : nat) (m : TensorMeta) : Prop :=
  ∃ o, offset m = Some o ∧ o + chunk_size m ≤ limit ∧ Forall (λ k, (k | o)) ks.

Record inv (cs : list chunk) (s : system) : Prop := {
  i_stream : (erase <$> stream s) ++ todo s = cs;
  i_lens : length (send_buf s) = bucket_size ∧ length (recv_buf s) = bucket_size ∧
           length (r_send_buf s) = bucket_size ∧ length (r_recv_buf s) = bucket_size;
  i_meta : Forall (placed (off s)) (meta s).*2 ∧ keys (meta s) = name <$> (meta s).*2 ∧ off s ≤ bucket_size ∧
           (closed s = false → off s = nsum (chunk_size <$> (meta s).*2)) ∧ Forall (λ k, (k | off s)) ks;
  i_handed : Forall (λ c, placed bucket_size c.1) (handed s);
  i_moving : Forall (placed bucket_size) (pending s ++ arrived s ++ flying s);
  i_copied : NoDup (copied s) ∧ (copied s ≠ [] → rx s = Launched ∧ flight s ≠ None) ∧
             Forall (λ i, i < bucket_size ∧ nth i (r_recv_buf s) 0%Z = nth i (source s (flight_last s)) 0%Z) (copied s);
  i_closed : closed s = flight_last s || arrived_last s || r_last s;
  i_ended : closed s = true → todo s = [] ∧ meta s = [];
  i_order : (r_last s = true → flight s = None ∧ rx s = Idle) ∧ (arrived_last s = true → flight s = None) }.

Lemma fmap_read_ext limit buf buf' ms :
  Forall (placed limit) ms → (∀ a b, a ≤ b → b ≤ limit → slice a b buf = slice a b buf') →
  read buf <$> ms = read buf' <$> ms.
Proof.
  intros Hm Hs. apply list_fmap_ext. intros i m Hi. eapply Forall_lookup_1 in Hm as (o & Ho & Hl & _); [|exact Hi].
  unfold read. rewrite Ho. cbn [from_option id]. f_equal. apply Hs; lia.
Qed.

Lemma placed_weaken l l' m : l ≤ l' → placed l m → placed l' m.
Proof. intros Hl (o & H1 & H2 & H3). exists o. split_and!; [done|lia|done]. Qed.

Lemma todo_chunk cs s c rest : Forall (chunk_ok bucket_size ks) cs → inv cs s → todo s = c :: rest → chunk_ok bucket_size ks c.
Proof.
  intros Hok Hi E. pose proof (i_stream _ _ Hi) as Hs. rewrite E in Hs. rewrite Forall_forall in Hok. apply Hok.
  subst cs. set_solver.
Qed.

Lemma nsum_elem x l : x ∈ l → x ≤ nsum l.
Proof. induction 1; unfold nsum in *; cbn; lia. Qed.

(** The next chunk's name is free when the chunk fits. *)
Lemma name_free cs s c rest :
  Forall (chunk_ok bucket_size ks) cs → full_unless_last bucket_size cs → inv cs s → todo s = c :: rest → fits bucket_size s c = true →
  dmem (name c.1) (meta s) = false.
Proof.
  intros Hok Hf Hi E Hfit. destruct (dmem (name c.1) (meta s)) eqn:Hd; [|done]. exfalso.
  apply dmem_keys in Hd. destruct (i_meta _ _ Hi) as (_ & Hk & _ & Hoff & _). rewrite Hk in Hd.
  apply list_elem_of_fmap in Hd as (m & Hn & Hm).
  assert (Hc : closed s = false). { destruct (closed s) eqn:Hc; [|done]. destruct (i_ended _ _ Hi Hc) as [Et _]. rewrite E in Et. done. }
  specialize (Hoff Hc). unfold fits in Hfit. apply Nat.leb_le in Hfit.
  pose proof (todo_chunk _ _ _ _ Hok Hi E) as (Hpos & _).
  assert (Hsz : chunk_size m ≤ off s). { rewrite Hoff. apply nsum_elem, list_elem_of_fmap. by exists m. }
  assert (Hfull : chunk_size m = bucket_size); [|lia].
  apply list_elem_of_split in Hm as (l1 & l2 & Hm). pose proof (i_stream _ _ Hi) as Hs. rewrite E in Hs.
  unfold stream in Hs. rewrite Hm in Hs. rewrite !fmap_app in Hs. cbn [fmap list_fmap] in Hs.
  set (x := erase (read (send_buf s) m)) in *.
  assert (Hcs : ∃ pre mid, cs = pre ++ x :: mid ++ c :: rest).
  { rewrite <-Hs. generalize (erase <$> handed s) as A0. generalize (erase <$> (read (send_buf s) <$> l1)) as A4.
    generalize (erase <$> (read (send_buf s) <$> l2)) as A5. intros A5 A4 A0.
    match goal with |- context [A0 ++ ?b1 ++ ?b2 ++ ?b3 ++ A4 ++ _] => exists (A0 ++ b1 ++ b2 ++ b3 ++ A4), A5 end.
    by rewrite <-!app_assoc. }
  destruct Hcs as (pre & mid & Hcs). apply (Hf pre x mid c rest Hcs). exact (eq_sym Hn).
Qed.

Lemma put_chunk_inv cs s c rest :
  Forall (chunk_ok bucket_size ks) cs → full_unless_last bucket_size cs → inv cs s → todo s = c :: rest → fits bucket_size s c = true →
  ∃ s', put_chunk bucket_size s c rest = Ok s' ∧ inv cs s'.
Proof.
  intros Hok Hf Hi E Hfit. pose proof (name_free _ _ _ _ Hok Hf Hi E Hfit) as Hfree.
  pose proof (todo_chunk _ _ _ _ Hok Hi E) as (Hpos & Hlen & Hnone & Hdiv).
  pose proof Hfit as Hfit'. apply Nat.leb_le in Hfit'. destruct c as [m data]. cbn [fst snd] in *.
  unfold put_chunk. replace (Nat.leb (off s + chunk_size m) bucket_size) with true by (symmetry; by apply Nat.leb_le).
  rewrite Hfree. cbn [negb]. eexists. split; [done|].
  assert (Hc : closed s = false). { destruct (closed s) eqn:Hc; [|done]. destruct (i_ended _ _ Hi Hc) as [Et _]. rewrite E in Et. done. }
  assert (Hfl : flight_last s = false). { pose proof (i_closed _ _ Hi) as H. rewrite Hc in H. by destruct (flight_last s). }
  destruct Hi as [Hst (L1 & L2 & L3 & L4) (M1 & M2 & M3 & M4 & M5) Hh Hmv (C1 & C2 & C3) Hcl He Ho].
  assert (Hnk : name m ∉ keys (meta s)). { intros H. apply dmem_keys in H. congruence. }
  rewrite (dset_new _ _ _ Hnk).
  assert (Hread : read (copy_into (off s) data (send_buf s)) <$> (meta s).*2 = read (send_buf s) <$> (meta s).*2).
  { eapply fmap_read_ext; [exact M1|]. intros a b Hab Hb. apply slice_copy_below; lia. }
  unfold flight_last, flying, source, arrived, arrived_last in *.
  constructor; cbn [todo send_buf recv_buf meta off closed flight copied r_send_buf r_recv_buf pending r_last rx handed]; try done.
  - rewrite <-Hst, E. unfold stream, flight_last, flying, source, arrived in *.
    cbn [todo send_buf recv_buf meta off closed flight copied r_send_buf r_recv_buf pending r_last rx handed].
    rewrite Hfl, (fmap_app snd (meta s)). cbn [fmap list_fmap fst snd]. rewrite (fmap_app (read _) (meta s).*2), Hread.
    rewrite !fmap_app. cbn [fmap list_fmap]. rewrite <-!(assoc_L (++)). repeat f_equal. unfold erase, read, with_offset.
    cbn [fst snd name ttype chunk_offset chunk_size offset from_option id]. cbn [app]. f_equal. f_equal.
    + destruct m. cbn in *. by subst.
    + rewrite <-Hlen. apply slice_copy_same. lia.
  - split_and!; try done. rewrite copy_into_length; lia.
  - rewrite fmap_app. cbn [fmap list_fmap snd]. unfold keys in *. split_and!.
    + apply Forall_app. split; [eapply Forall_impl; [exact M1|]; intros x; apply placed_weaken; lia|].
      constructor; [|constructor]. exists (off s). cbn. done.
    + rewrite !fmap_app, M2. done.
    + lia.
    + intros _. rewrite fmap_app, nsum_app, (M4 Hc). cbn. lia.
    + rewrite Forall_forall in M5, Hdiv |- *. intros k Hk. by apply Nat.divide_add_r; [apply M5|apply Hdiv].
  - split_and!; [done|done|]. eapply Forall_impl; [exact C3|]. cbn. intros i [Hi1 Hi2]. split; [done|]. rewrite Hfl in Hi2. unfold source, flight_last. cbn. rewrite Hfl. exact Hi2.
  - intros H. rewrite Hc in H. done.
Qed.

Lemma transfer_step_inv cs s e :
  Forall (chunk_ok bucket_size ks) cs → full_unless_last bucket_size cs → inv cs s →
  match step bucket_size e s with Some (Ok s') => inv cs s' | Some (Raise _) => False | None => True end.
Proof.
  intros Hok Hf Hi. destruct e as [| | | |i| | |].
  - (* Fill *) cbn. destruct (todo s) as [|c rest] eqn:E; [done|]. destruct (fits bucket_size s c) eqn:Hfit; [|done].
    destruct (put_chunk_inv cs s c rest Hok Hf Hi E Hfit) as (s' & -> & H). done.
  - (* Flush *) cbn. destruct (todo s) as [|c rest] eqn:E; [done|]. destruct (flight s) as [fl|] eqn:Efl; [done|].
    destruct (fits bucket_size s c); [done|].
    assert (Hc : closed s = false). { destruct (closed s) eqn:Hc; [|done]. destruct (i_ended _ _ Hi Hc) as [Et _]. rewrite E in Et. done. }
    pose proof (i_closed _ _ Hi) as Hcl. rewrite Hc in Hcl. symmetry in Hcl. apply orb_false_iff in Hcl as [Hcl Hrl].
    apply orb_false_iff in Hcl as [_ Hal].
    destruct Hi as [Hst (L1 & L2 & L3 & L4) (M1 & M2 & M3 & M4 & M5) Hh Hmv (C1 & C2 & C3) _ He Ho].
    assert (Hcp : copied s = []). { destruct (copied s); [done|]. by destruct C2. }
    constructor; unfold flush_bucket; cbn [todo send_buf recv_buf meta off closed flight copied r_send_buf r_recv_buf pending r_last rx handed]; try done.
    + rewrite <-Hst. unfold stream, flight_last, flying, source, arrived. cbn. rewrite Efl. cbn. by rewrite !app_nil_r.
    + split_and!; [constructor|done|lia|done|]. rewrite Forall_forall. intros k _. apply Nat.divide_0_r.
    + unfold flying, arrived in *. cbn. rewrite Efl, app_nil_r in Hmv. rewrite (assoc_L (++)). apply Forall_app. split; [done|].
      eapply Forall_impl; [exact M1|]. intros x. by apply placed_weaken.
    + rewrite Hcp. split_and!; [constructor|done|constructor].
    + unfold flight_last, arrived_last in *. cbn. by rewrite Hal, Hrl.
    + intros H. rewrite Hc in H. done.
    + unfold arrived_last in *. cbn. rewrite Hal, Hrl. done.
  - (* Close *) cbn. destruct (todo s) as [|c rest] eqn:E; [|done]. destruct (flight s) as [fl|] eqn:Efl; [done|].
    destruct (closed s) eqn:Hc; [done|].
    pose proof (i_closed _ _ Hi) as Hcl. rewrite Hc in Hcl. symmetry in Hcl. apply orb_false_iff in Hcl as [Hcl Hrl].
    apply orb_false_iff in Hcl as [_ Hal].
    destruct Hi as [Hst (L1 & L2 & L3 & L4) (M1 & M2 & M3 & M4 & M5) Hh Hmv (C1 & C2 & C3) _ He Ho].
    assert (Hcp : copied s = []). { destruct (copied s); [done|]. by destruct C2. }
    constructor; unfold close_bucket; cbn [todo send_buf recv_buf meta off closed flight copied r_send_buf r_recv_buf pending r_last rx handed]; try done.
    + rewrite <-Hst, E. unfold stream, flight_last, flying, source, arrived. cbn. rewrite Efl. cbn. by rewrite !app_nil_r.
    + unfold flying, arrived in *. cbn. rewrite Efl, app_nil_r in Hmv. rewrite (assoc_L (++)). apply Forall_app. split; [done|].
      eapply Forall_impl; [exact M1|]. intros x. by apply placed_weaken.
    + rewrite Hcp. split_and!; [constructor|done|constructor].
    + unfold arrived_last in *. cbn. rewrite Hal, Hrl. done.
  - (* Launch *) cbn. destruct (rx s) as [| |m l] eqn:Erx; [|done..]. destruct (r_last s) eqn:Hrl; [done|].
    destruct Hi as [Hst HL HM Hh Hmv (C1 & C2 & C3) Hcl He Ho].
    unfold arrived, arrived_last in *. rewrite Erx in *.
    constructor; unfold set_receiver; cbn [todo send_buf recv_buf meta off closed flight copied r_send_buf r_recv_buf pending r_last rx handed]; try done.
    + rewrite <-Hst. unfold stream, flight_last, flying, source, arrived. cbn. by rewrite Erx.
    + split_and!; [done| |done]. intros H. by destruct (C2 H).
    + by rewrite Hcl, Hrl.
  - (* Copy *) cbn. destruct (flight s) as [[fm last]|] eqn:Efl; [|done]. destruct (rx s) as [| |m l] eqn:Erx; [done| |done].
    destruct (bool_decide_reflect (i < bucket_size)) as [Hlt|]; [|done].
    destruct (bool_decide_reflect (i ∈ copied s)) as [|Hni]; [done|]. cbn [negb andb].
    destruct Hi as [Hst (L1 & L2 & L3 & L4) HM Hh Hmv (C1 & C2 & C3) Hcl He Ho].
    unfold arrived, arrived_last, flying, flight_last in *. rewrite Erx, Efl in *.
    constructor; unfold set_receiver; cbn [todo send_buf recv_buf meta off closed flight copied r_send_buf r_recv_buf pending r_last rx handed]; try done.
    + rewrite <-Hst. unfold stream, flight_last, flying, source, arrived. cbn. by rewrite Erx, Efl.
    + split_and!; [done..|]. by rewrite length_insert.
    + split_and!; [by constructor|done|]. constructor.
      * split; [done|]. unfold source. cbn. rewrite (nth_lookup _ i), list_lookup_insert_eq by lia. done.
      * eapply Forall_impl; [exact C3|]. cbn. intros j [J1 J2]. split; [done|]. destruct (decide (i = j)) as [<-|Hij].
        -- rewrite (nth_lookup _ i), list_lookup_insert_eq by lia. done.
        -- rewrite (nth_lookup _ j), list_lookup_insert_ne by done. rewrite <-nth_lookup. exact J2.
  - (* Complete *) cbn. destruct (flight s) as [[fm last]|] eqn:Efl; [|done]. destruct (rx s) as [| |m l] eqn:Erx; [done| |done].
    destruct (forallb _ _) eqn:Hall; [|done].
    destruct Hi as [Hst (L1 & L2 & L3 & L4) HM Hh Hmv (C1 & C2 & C3) Hcl He Ho].
    unfold arrived, arrived_last, flying, flight_last in *. rewrite Erx, Efl in *.
    assert (Hbuf : r_recv_buf s = source s last).
    { apply list_eq_same_length with bucket_size; [by destruct last|done|]. intros i x y Hi Hx Hy.
      apply forallb_forall with (x := i) in Hall; [|apply in_seq; lia]. apply bool_decide_eq_true in Hall.
      rewrite Forall_forall in C3. destruct (C3 i Hall) as [_ H]. rewrite !nth_lookup, Hx, Hy in H. exact H. }
    constructor; unfold set_receiver; cbn [todo send_buf recv_buf meta off closed flight copied r_send_buf r_recv_buf pending r_last rx handed]; try done.
    + rewrite <-Hst. unfold stream, flight_last, flying, source, arrived. cbn. rewrite Erx, Efl. cbn [app fmap list_fmap].
      unfold source in Hbuf. rewrite Hbuf. done.
    + cbn. rewrite app_nil_r. cbn in Hmv. done.
    + split_and!; [constructor|done|constructor].
    + rewrite Hcl. cbn. by destruct last.
    + cbn. split; [|done]. intros H. destruct Ho as [Ho _]. destruct (Ho H). done.
  - (* Yield *) cbn. destruct (pending s) as [|m p] eqn:Ep; [done|].
    assert (Hgoal : inv cs (set_receiver s (flight s) (copied s) (r_send_buf s) (r_recv_buf s) p (r_last s) (rx s)
               (handed s ++ [(m, slice (default 0 (offset m)) (default 0 (offset m) + chunk_size m) (r_send_buf s))]))).
    { destruct Hi as [Hst HL HM Hh Hmv (C1 & C2 & C3) Hcl He Ho].
      constructor; unfold set_receiver; cbn [todo send_buf recv_buf meta off closed flight copied r_send_buf r_recv_buf pending r_last rx handed]; try done.
      + rewrite <-Hst. unfold stream, flight_last, flying, source, arrived. rewrite Ep. cbn. by rewrite <-!(assoc_L (++)).
      + rewrite Ep in Hmv. apply Forall_app in Hmv as [Hm _]. apply Forall_cons in Hm as [Hm _].
        apply Forall_app. split; [done|]. by repeat constructor.
      + rewrite Ep in Hmv. by apply Forall_cons in Hmv as [_ Hmv]. }
    destruct (rx s); [destruct (r_last s)|..]; done.
  - (* Next *) cbn. destruct (pending s) as [|m p] eqn:Ep; [|done]. destruct (rx s) as [| |bm last] eqn:Erx; [done..|].
    destruct Hi as [Hst (L1 & L2 & L3 & L4) HM Hh Hmv (C1 & C2 & C3) Hcl He (O1 & O2)].
    unfold arrived, arrived_last in *. rewrite Erx in *.
    assert (Hcp : copied s = []). { destruct (copied s); [done|]. by destruct C2. }
    assert (Hrl : r_last s = false). { destruct (r_last s); [|done]. by destruct O1. }
    constructor; unfold set_receiver; cbn [todo send_buf recv_buf meta off closed flight copied r_send_buf r_recv_buf pending r_last rx handed]; try done.
    + rewrite <-Hst. unfold stream, flight_last, flying, source, arrived. cbn. by rewrite Erx, Ep.
    + rewrite Ep in Hmv. done.
    + rewrite Hcp. split_and!; [constructor|done|constructor].
    + rewrite Hcl, Hrl. cbn. unfold flight_last. cbn. by destruct (flight s) as [[? []]|], last.
    + cbn. split; [|done]. intros H. split; [by apply O2|done].
Qed.

Lemma prepare_inv cs : inv cs (prepare bucket_size cs).
Proof.
  constructor; cbn; try done; repeat split; try done; try lia; try constructor.
  1-4: by rewrite length_replicate.
  apply Forall_forall. intros k _. apply Nat.divide_0_r.
Qed.

Lemma finished_stream cs s : inv cs s → finished s = true → erase <$> handed s = cs ∧ Forall (λ c, placed bucket_size c.1) (handed s).
Proof.
  intros Hi Hf. unfold finished in Hf. apply andb_true_iff in Hf as [Hf Hp]. apply andb_true_iff in Hf as [Hf Hl].
  apply andb_true_iff in Hf as [Hc Hfl]. apply bool_decide_eq_true in Hfl.
  destruct (i_ended _ _ Hi Hc) as [Ht Hm]. destruct (i_order _ _ Hi) as [Ho _]. destruct (Ho Hl) as [_ Hrx].
  pose proof (i_stream _ _ Hi) as Hs. unfold stream, arrived, flying in Hs. rewrite Hrx, Hfl, Ht, Hm in Hs.
  destruct (pending s); [|done]. cbn in Hs. rewrite !app_nil_r in Hs. split; [done|]. apply (i_handed _ _ Hi).
Qed.

(** *** Progress *)

Lemma not_all_copied l n : forallb (λ i, bool_decide (i ∈ l)) (seq 0 n) = false → ∃ i, i < n ∧ i ∉ (l : list nat).
Proof.
  intros H. destruct (decide (Forall (λ i, i ∈ l) (seq 0 n))) as [Hf|Hf].
  - exfalso. assert (forallb (λ i, bool_decide (i ∈ l)) (seq 0 n) = true); [|congruence].
    apply forallb_forall. intros i Hi. apply bool_decide_eq_true. rewrite Forall_forall in Hf. apply Hf. by apply list_elem_of_In.
  - apply not_Forall_Exists in Hf; [|apply _]. apply Exists_exists in Hf as (i & Hi & Hn). exists i. split; [|done].
    apply elem_of_seq in Hi. lia.
Qed.

Definition some_ok (r : option (result system)) : Prop := match r with Some (Ok _) => True | _ => False end.

Lemma progress cs s :
  Forall (chunk_ok bucket_size ks) cs → full_unless_last bucket_size cs → inv cs s → finished s = false →
  ∃ e s', step bucket_size e s = Some (Ok s').
Proof.
  intros Hok Hf Hi Hnf.
  cut (∃ e, is_Some (step bucket_size e s)).
  { intros (e & r & Hr). exists e. pose proof (transfer_step_inv cs s e Hok Hf Hi) as H. rewrite Hr in H |- *. destruct r; [by eexists|done]. }
  destruct (i_order _ _ Hi) as [O1 O2]. pose proof (i_closed _ _ Hi) as Hcl.
  destruct (pending s) as [|m p] eqn:Ep.
  - destruct (rx s) as [| |bm last] eqn:Erx.
    + destruct (r_last s) eqn:Erl; [|exists Launch; cbn; rewrite Erx, Erl; by eexists].
      destruct (O1 eq_refl) as [Hfl _]. exfalso. unfold finished in Hnf. rewrite Hcl, Hfl, Erl, Ep in Hnf.
      rewrite orb_true_r in Hnf. rewrite (bool_decide_eq_true_2 (None = None)) in Hnf by done. done.
    + assert (Erl : r_last s = false). { destruct (r_last s); [|done]. by destruct (O1 eq_refl). }
      destruct (flight s) as [[fm last]|] eqn:Efl.
      * destruct (forallb (λ i, bool_decide (i ∈ copied s)) (seq 0 bucket_size)) eqn:Hall.
        -- exists Complete. cbn [step]. rewrite Efl, Erx, Hall. by eexists.
        -- destruct (not_all_copied _ _ Hall) as (i & Hi1 & Hi2). exists (Copy i). cbn [step]. rewrite Efl, Erx.
           rewrite bool_decide_eq_true_2, bool_decide_eq_false_2 by done. by eexists.
      * destruct (todo s) as [|c rest] eqn:Et.
        -- exists Close. cbn. rewrite Et, Efl. destruct (closed s); [|by eexists]. exfalso.
           rewrite Erl in Hcl. unfold flight_last, arrived_last in Hcl. by rewrite Efl, Erx in Hcl.
        -- destruct (fits bucket_size s c) eqn:Hfit; [exists Fill|exists Flush]; cbn; rewrite Et, Hfit, ?Efl; by eexists.
    + exists Next. cbn. rewrite Ep, Erx. by eexists.
  - destruct (rx s) eqn:Erx; [destruct (r_last s) eqn:Erl; [|exists Launch; cbn; rewrite Erx, Erl; by eexists]|..];
      exists Yield; cbn; rewrite Ep, Erx, ?Erl; by eexists.
Qed.

(** *** Termination *)

Definition fuel (s : system) : nat :=
  let w := bucket_size + 5 in
  length (todo s) * (w + 2) + length (meta s) * (w + 1) + (if closed s then 0 else w) +
  match flight s with Some (m, _) => 4 + (bucket_size - length (copied s)) + length m | None => 0 end +
  match rx s with Idle => 2 | Launched => 1 | Arrived m _ => 3 + length m end + length (pending s).

Lemma step_decreases cs s e s' :
  Forall (chunk_ok bucket_size ks) cs → inv cs s → step bucket_size e s = Some (Ok s') → fuel s' < fuel s.
Proof.
  intros Hok Hi H. destruct e as [| | | |i| | |]; cbn in H.
  - destruct (todo s) as [|c rest] eqn:E; [done|]. destruct (fits bucket_size s c); [|done]. injection H as H.
    unfold put_chunk in H. destruct c as [m data]. inv_oks H. subst s'. unfold fuel. cbn. rewrite E.
    assert (length (dset (name m) (with_offset (off s) m) (meta s)) = S (length (meta s))).
    { apply negb_true_iff in Hreq0. rewrite dset_new, length_app; [cbn; lia|]. intros Hk. apply dmem_keys in Hk. congruence. }
    cbn [length]. lia.
  - destruct (todo s) as [|c rest] eqn:E; [done|]. destruct (flight s) eqn:Efl; [done|].
    destruct (fits bucket_size s c) eqn:Hfit; [done|]. injection H as <-.
    assert (Hm : length (meta s) ≠ 0).
    { intros Hm. apply nil_length_inv in Hm. destruct (todo_chunk _ _ _ _ Hok Hi E) as (Hpos & _).
      assert (Hc : closed s = false). { destruct (closed s) eqn:Hc; [|done]. destruct (i_ended _ _ Hi Hc) as [Et _]. rewrite E in Et. done. }
      destruct (i_meta _ _ Hi) as (_ & _ & _ & Ho & _). specialize (Ho Hc). rewrite Hm in Ho. cbn in Ho.
      unfold fits in Hfit. apply Nat.leb_gt in Hfit. lia. }
    unfold fuel, flush_bucket. cbn. rewrite E, Efl. cbn [length]. nia.
  - destruct (todo s) eqn:E; [|done]. destruct (flight s) eqn:Efl; [done|]. destruct (closed s) eqn:Ec; [done|]. injection H as <-.
    unfold fuel, close_bucket. cbn. rewrite E, Ec, Efl. cbn [length]. nia.
  - destruct (rx s) eqn:Erx; [|done..]. destruct (r_last s); [done|]. injection H as <-. unfold fuel, set_receiver. cbn. rewrite Erx. lia.
  - destruct (flight s) as [[fm last]|] eqn:Efl; [|done]. destruct (rx s) eqn:Erx; [done| |done].
    destruct (bool_decide_reflect (i < bucket_size)); [|done]. destruct (bool_decide_reflect (i ∈ copied s)) as [|Hni]; [done|].
    injection H as <-. unfold fuel, set_receiver. cbn. rewrite Efl, Erx.
    destruct (i_copied _ _ Hi) as (Hnd & _ & Hall).
    assert (S (length (copied s)) ≤ bucket_size); [|lia].
    change (S (length (copied s))) with (length (i :: copied s)). rewrite <-(length_seq bucket_size 0).
    apply submseteq_length, NoDup_submseteq; [by constructor|]. intros j Hj. apply elem_of_seq.
    apply list_elem_of_In in Hj. destruct Hj as [<-|Hj]; [lia|]. rewrite Forall_forall in Hall.
    apply list_elem_of_In in Hj. destruct (Hall j Hj). lia.
  - destruct (flight s) as [[fm last]|] eqn:Efl; [|done]. destruct (rx s) eqn:Erx; [done| |done].
    destruct (forallb _ _); [|done]. injection H as <-. unfold fuel, set_receiver. cbn. rewrite Efl, Erx. lia.
  - destruct (pending s) as [|m p] eqn:Ep; [done|].
    assert (E : s' = set_receiver s (flight s) (copied s) (r_send_buf s) (r_recv_buf s) p (r_last s) (rx s)
               (handed s ++ [(m, slice (default 0 (offset m)) (default 0 (offset m) + chunk_size m) (r_send_buf s))])).
    { destruct (rx s); [destruct (r_last s); [|done]|..]; by injection H as <-. }
    subst s'. unfold fuel, set_receiver. cbn. rewrite Ep. cbn [length]. lia.
  - destruct (pending s) as [|m p] eqn:Ep; [|done]. destruct (rx s) as [| |bm last] eqn:Erx; [done..|]. injection H as <-.
    unfold fuel, set_receiver. cbn. rewrite Ep, Erx. cbn. rewrite length_fmap. lia.
Qed.

(** *** Merging *)

Section merged.
Context (empty : nat → list Z) (empty_length : ∀ n, length (empty n) = n).

Lemma copy_prefix (o n : nat) (data buf : list Z) :
  o + n ≤ length data → length buf = length data → take o buf = take o data →
  take (o + n) (copy_into o (slice o (o + n) data) buf) = take (o + n) data.
Proof.
  intros Hl Hlb Ht. unfold copy_into, slice. replace (o + n - o) with n by lia.
  rewrite Ht. rewrite (assoc_L (++)), take_app_le by (rewrite length_app, !length_take, length_drop; lia).
  rewrite take_ge by (rewrite length_app, !length_take, length_drop; lia). apply take_take_drop.
Qed.

(** The later chunks of a weight that is larger than a bucket. *)
Lemma merge_tail nm w o cs acc buf ds :
  0 < bucket_size → wf_weight w → bucket_size < nbytes w → chunks_of bucket_size nm w o cs → o < nbytes w →
  length buf = nbytes w → take o buf = take o (w_data w) → erase <$> ds = cs →
  foldM (merge_chunk empty bucket_size) (Some (nm, w_type w, buf, o), acc) ds = Ok (None, acc ++ [(nm, w)]).
Proof.
  intros Hb Hwf Hbig H. revert buf ds. induction H as [o Ho|o size cs Ho Hsize H IH]; intros buf ds Hlt Hlen Htk Hds; [lia|].
  destruct ds as [|[m data] ds]; [done|]. cbn [fmap list_fmap] in Hds. injection Hds as H1 H2 Hco Hcs Hd Hds.
  cbn [fst snd] in *. cbn [foldM merge_chunk fst snd]. rewrite H2, Hwf.
  destruct (Nat.leb_spec (nbytes w) bucket_size); [lia|]. rewrite H1, Hco, Hcs. cbn [mbind result_bind].
  rewrite bool_decide_eq_true_2 by done. rewrite Nat.eqb_refl.
  assert (Hpre : take (o + size) (copy_into o data buf) = take (o + size) (w_data w)).
  { rewrite Hd. apply copy_prefix; [unfold nbytes in *; lia|done|done]. }
  assert (Hlen' : length (copy_into o data buf) = nbytes w).
  { rewrite copy_into_length; [done|]. rewrite Hd. unfold slice. rewrite length_take, length_drop. unfold nbytes in *. lia. }
  destruct (Nat.eqb_spec (o + size) (nbytes w)) as [E|E]; cbn [mbind result_bind].
  - rewrite E in Hpre. rewrite !take_ge in Hpre by (unfold nbytes in *; lia). rewrite Hpre.
    assert (Hnil : ds = []). { rewrite E in H. inversion H as [? ? E'|? ? ? ? ? ? E']; [|lia]. subst cs. by destruct ds. }
    subst ds. cbn. by destruct w.
  - apply IH; [lia|done|done|done].
Qed.

Lemma merge_weight nm w cs acc ds :
  0 < bucket_size → wf_weight w → nbytes w ≠ 0 → itemsize (w_type w) ∈ ks → itemsize (w_type w) ≠ 0 →
  (itemsize (w_type w) | nbytes w) →
  chunks_of bucket_size nm w 0 cs → erase <$> ds = cs → Forall (λ c, placed bucket_size c.1) ds →
  foldM (merge_chunk empty bucket_size) (None, acc) ds = Ok (None, acc ++ [(nm, w)]).
Proof using empty_length.
  intros Hb Hwf Hne Hk Hk0 Hdiv H Hds Hpl. rewrite <-Hds in H. clear Hds cs.
  inversion H as [? ? E|o size cs' Ho Hsize H' Eo Hds]; [lia|]. subst o. symmetry in Hds.
  destruct ds as [|[m data] ds]; [done|]. cbn [fmap list_fmap] in Hds. injection Hds as H1 H2 Hco Hcs Hd Hds.
  apply Forall_cons in Hpl as [(o & Hoff & Hol & Hal) Hpl]. cbn [fst snd] in *.
  cbn [foldM merge_chunk fst snd]. rewrite H2, Hwf.
  destruct (Nat.leb_spec (nbytes w) bucket_size) as [Hs|Hs].
  - cbn [mbind result_bind].
    assert (Hsz : size = nbytes w) by lia. unfold view_dtype. rewrite Hoff, H2. cbn [from_option id].
    assert (Hdata : data = w_data w). { rewrite Hd, Hsz. unfold slice. rewrite drop_0. apply take_ge. unfold nbytes. lia. }
    rewrite Forall_forall in Hal. specialize (Hal _ Hk). apply Nat.Lcm0.mod_divide in Hal. rewrite Hal.
    apply Nat.Lcm0.mod_divide in Hdiv. rewrite Hdata. change (length (w_data w)) with (nbytes w). rewrite Hdiv, Hwf, Nat.eqb_refl. cbn.
    assert (Hnil : ds = []). { rewrite Hsz in H'. inversion H' as [? ? E'|? ? ? ? ? ? E']; [|cbn in *; lia]. subst cs'. by destruct ds. }
    subst ds. cbn [foldM mbind result_bind]. rewrite Nat.eqb_refl, H1. by destruct w.
  - rewrite Hco, Hcs. cbn [Nat.eqb mbind result_bind]. rewrite bool_decide_eq_true_2 by done.
    destruct (Nat.eqb_spec (0 + size) (nbytes w)); [lia|]. rewrite H1. cbn [mbind result_bind].
    assert (Hle : length (empty (nbytes w)) = nbytes w) by apply empty_length.
    eapply merge_tail; [done|done|done|exact H'|lia| | |done].
    + rewrite copy_into_length; [done|]. rewrite Hd. unfold slice. rewrite length_take, length_drop. unfold nbytes in *. lia.
    + rewrite Hd. apply (copy_prefix 0 size); [unfold nbytes in *; lia|done|done].
Qed.

Lemma merge_all ws css acc ds :
  0 < bucket_size →
  Forall (λ nw, wf_weight nw.2 ∧ nbytes nw.2 ≠ 0 ∧ itemsize (w_type nw.2) ∈ ks ∧ itemsize (w_type nw.2) ≠ 0 ∧
                (itemsize (w_type nw.2) | nbytes nw.2)) ws →
  Forall2 (λ nw cs, chunks_of bucket_size nw.1 nw.2 0 cs) ws css →
  erase <$> ds = concat css → Forall (λ c, placed bucket_size c.1) ds →
  foldM (merge_chunk empty bucket_size) (None, acc) ds = Ok (None, acc ++ ws).
Proof using empty_length.
  intros Hb Hws H. revert acc ds Hws. induction H as [|[nm w] cs ws css H1 H IH]; intros acc ds Hws.
  { intros Hds _. destruct ds; [|done]. cbn. by rewrite app_nil_r. }
  intros Hds Hpl.
  apply Forall_cons in Hws as [(W1 & W2 & W3 & W4 & W5) Hws]. cbn [concat fst snd] in *.
  apply fmap_app_inv in Hds as (d1 & d2 & E1 & E2 & ->). apply Forall_app in Hpl as [Hp1 Hp2].
  rewrite foldM_app, (merge_weight nm w cs acc d1 Hb W1 W2 W3 W4 W5 H1 (eq_sym E1) Hp1). cbn [mbind result_bind].
  rewrite (IH (acc ++ [(nm, w)]) d2 Hws (eq_sym E2) Hp2). by rewrite <-(assoc_L (++)).
Qed.
End merged.
End correct.

(** C23: sending named weights over the collective delivers exactly these weights, in order,
    whatever the interleaving of the two processes, their broadcast threads and the copying of
    single bytes, and whatever a bucket size that every element size divides: no assertion fails,
    every run is finite, a run that cannot go on has finished on both sides, and then what the
    receiver merged is what was sent, weights larger than a bucket included. *)
Theorem collective_delivers_weights (empty : nat → list Z) (bucket_size : nat) (ws : list (string * weight)) :
  (∀ n, length (empty n) = n) → 0 < bucket_size → NoDup ws.*1 → aligned bucket_size ws →
  ∃ chunks, split_weight_chunks bucket_size ws = Some chunks ∧
  ∀ s, rtc (runs bucket_size) (prepare bucket_size chunks) s →
    (∀ e x, step bucket_size e s = Some x → ∃ s', x = Ok s' ∧ fuel bucket_size s' < fuel bucket_size s) ∧
    (finished s = true ∨ ∃ s', runs bucket_size s s') ∧
    (finished s = true → merge_weight_chunks empty bucket_size (handed s) = Ok ws).
Proof.
  intros He Hb Hnd Hal. destruct (split_spec bucket_size ws Hb) as (css & Hs & H2). exists (concat css). split; [done|].
  set (ks := item_sizes ws).
  destruct (split_ok bucket_size ks ws css Hb Hnd) as [Hok Hfull]; [|done|].
  { eapply Forall_impl; [exact Hal|]. intros nw (_ & _ & H). unfold ks, item_sizes. apply Forall_fmap.
    eapply Forall_impl; [exact H|]. cbn. tauto. }
  assert (Hok' : Forall (chunk_ok bucket_size ks) (concat css)) by (eapply Forall_impl; [exact Hok|]; cbn; tauto).
  intros s Hrun. assert (Hi : inv bucket_size ks (concat css) s).
  { refine (rtc_ind_r (λ s, inv bucket_size ks (concat css) s) _ (prepare_inv bucket_size ks _) _ s Hrun).
    intros s1 s2 _ (e & Hstep) Hi.
    pose proof (transfer_step_inv bucket_size ks _ _ e Hok' Hfull Hi) as H. by rewrite Hstep in H. }
  split_and!.
  - intros e x Hstep. pose proof (transfer_step_inv bucket_size ks _ _ e Hok' Hfull Hi) as H. rewrite Hstep in H.
    destruct x as [s'|]; [|done]. exists s'. split; [done|]. by eapply step_decreases.
  - destruct (finished s) eqn:Hf; [by left|right]. destruct (progress bucket_size ks _ s Hok' Hfull Hi Hf) as (e & s' & H).
    by exists s', e.
  - intros Hf. destruct (finished_stream bucket_size ks _ s Hi Hf) as [Hh Hpl].
    unfold merge_weight_chunks. erewrite (merge_all bucket_size ks empty He ws css []); [done|done| |done|done|done].
    apply Forall_forall. intros nw Hin. unfold aligned in Hal. rewrite Forall_forall in Hal.
    destruct (Hal nw Hin) as (W1 & W2 & W3). rewrite Forall_forall in W3. destruct (W3 nw Hin) as (K1 & K2 & K3).
    split_and!; try done. unfold ks, item_sizes. apply list_elem_of_fmap. by exists nw.
Qed.

(** ** Examples *)

Definition bf16 (shape : list nat) : tensor_type := {| dtype := "bfloat16"; itemsize := 2; tshape := shape |}.
Definition float32 (shape : list nat) : tensor_type := {| dtype := "float32"; itemsize := 4; tshape := shape |}.
Definition sample_weights : list (string * weight) :=
  [("w", {| w_type := bf16 [2]; w_data := [1; 2; 3; 4]%Z |}); ("v", {| w_type := bf16 [5]; w_data := [5; 6; 7; 8; 9; 10; 11; 12; 13; 14]%Z |});
   ("u", {| w_type := bf16 [1]; w_data := [15; 16]%Z |})]%string.

(** One scheduler: the first event of the list that can happen, up to a number of steps. *)
Fixpoint drive (bucket_size n : nat) (s : system) : result system :=
  match n with
  | O => Ok s
  | S n => match omap (λ e, step bucket_size e s) ([Fill; Flush; Close; Launch] ++ (Copy <$> seq 0 bucket_size) ++ [Complete; Yield; Next]) with
           | Ok s' :: _ => drive bucket_size n s'
           | Raise e :: _ => Raise e
           | [] => Ok s
           end
  end.
Definition transfer (bucket_size n : nat) (ws : list (string * weight)) : result (list (string * weight)) :=
  match split_weight_chunks bucket_size ws with
  | Some chunks => s ← drive bucket_size n (prepare bucket_size chunks);
                   require finished s else RuntimeError "not finished" ;;
                   merge_weight_chunks (λ n, replicate n 0%Z) bucket_size (handed s)
  | None => Raise (RuntimeError "does not terminate")
  end.

Example three_weights_delivered : transfer 4 100 sample_weights = Ok sample_weights.
Proof. vm_compute. reflexivity. Qed.

(** A [float32] tensor behind an odd number of [bfloat16] elements lies at an offset that torch
    cannot view as [float32]. *)
Example mixed_types_fail :
  transfer 16 100 [("w", {| w_type := bf16 [1]; w_data := [1; 2]%Z |}); ("v", {| w_type := float32 [1]; w_data := [3; 4; 5; 6]%Z |})]%string =
  Raise (RuntimeError "self.storage_offset() must be divisible").
Proof. vm_compute. reflexivity. Qed.

(** A parameter without elements is not delivered. *)
Example empty_weight_is_lost :
  transfer 4 100 [("w", {| w_type := bf16 [0]; w_data := [] |}); ("v", {| w_type := bf16 [1]; w_data := [3; 4]%Z |})]%string =
  Ok [("v", {| w_type := bf16 [1]; w_data := [3; 4]%Z |})]%string.
Proof. vm_compute. reflexivity. Qed.

Lemma collective_delivers_weights_witness :
  ∃ chunks s, split_weight_chunks 4 sample_weights = Some chunks ∧ rtc (runs 4) (prepare 4 chunks) s ∧
    ((finished s = true ∨ ∃ s', runs 4 s s') ∧
     (finished s = true → merge_weight_chunks (λ n, replicate n 0%Z) 4 (handed s) = Ok sample_weights)).
Proof.
  destruct (collective_delivers_weights (λ n, replicate n 0%Z) 4 sample_weights) as (chunks & Hs & H).
  - intros n. apply length_replicate.
  - lia.
  - cbn. repeat constructor; set_solver.
  - unfold aligned. repeat constructor; try done; (exists 1; done) || (exists 2; done) || (exists 5; done).
  - exists chunks, (prepare 4 chunks). split_and!; [done|apply rtc_refl| |]; by apply H, rtc_refl.
Defined.
