(* ===== verification/StepAdvantage.v ===== *)
(** * Rewards and advantages of a training step

    [apply_kl_penalty], [compute_response_mask], [compute_spec_decode_metrics] and
    [compute_advantage] of [src/verl/trainer/ppo/ray_trainer.py], and
    [compute_advantage_for_multi_trajectories] of [src/verl/trainer/ppo/v1/utils.py].  The batch
    is a record of its named columns, [None] for an absent key; tensors are rows of reals and masks
    are boolean, as in [TorchFunctional]. *)

From S2P Require Import Prelude PyStr PyNum PyDict GroupBy Rlsd TeacherBatch TorchFunctional Groupwise Advantages PolicyLoss ActorLoss.
From Stdlib Require Import Reals Lra.
Local Open Scope R_scope.
Local Open Scope py_scope.

Record step_batch := {
  responses_width : nat; s_attention_mask : tensor bool; s_response_mask : option (tensor bool);
  token_level_scores : option (tensor R); token_level_rewards : option (tensor R);
  s_old_log_probs : option (tensor R); s_ref_log_prob : option (tensor R); s_values : option (tensor R);
  s_reward_baselines : option (list R); s_sum_pi_squared : option (tensor R); s_rollout_is_weights : option (tensor R);
  uid : option (list string);
  s_advantages : option (tensor R); s_returns : option (tensor R) }.

Definition set_rewards (d : step_batch) (r : tensor R) : step_batch :=
  {| responses_width := responses_width d; s_attention_mask := s_attention_mask d; s_response_mask := s_response_mask d;
     token_level_scores := token_level_scores d; token_level_rewards := Some r;
     s_old_log_probs := s_old_log_probs d; s_ref_log_prob := s_ref_log_prob d; s_values := s_values d;
     s_reward_baselines := s_reward_baselines d; s_sum_pi_squared := s_sum_pi_squared d;
     s_rollout_is_weights := s_rollout_is_weights d; uid := uid d; s_advantages := s_advantages d; s_returns := s_returns d |}.
Definition set_mask (d : step_batch) (m : tensor bool) : step_batch :=
  {| responses_width := responses_width d; s_attention_mask := s_attention_mask d; s_response_mask := Some m;
     token_level_scores := token_level_scores d; token_level_rewards := token_level_rewards d;
     s_old_log_probs := s_old_log_probs d; s_ref_log_prob := s_ref_log_prob d; s_values := s_values d;
     s_reward_baselines := s_reward_baselines d; s_sum_pi_squared := s_sum_pi_squared d;
     s_rollout_is_weights := s_rollout_is_weights d; uid := uid d; s_advantages := s_advantages d; s_returns := s_returns d |}.
Definition set_advantages (d : step_batch) (a r : tensor R) : step_batch :=
  {| responses_width := responses_width d; s_attention_mask := s_attention_mask d; s_response_mask := s_response_mask d;
     token_level_scores := token_level_scores d; token_level_rewards := token_level_rewards d;
     s_old_log_probs := s_old_log_probs d; s_ref_log_prob := s_ref_log_prob d; s_values := s_values d;
     s_reward_baselines := s_reward_baselines d; s_sum_pi_squared := s_sum_pi_squared d;
     s_rollout_is_weights := s_rollout_is_weights d; uid := uid d; s_advantages := Some a; s_returns := Some r |}.

(** [{key: tensor[indices]}] and [select_idxs]: the rows at given indices. *)
Definition rows_of_indices {X} (idx : list nat) (l : list X) : list X := omap (λ i, l !! i) idx.
Definition select_rows (idx : list nat) (d : step_batch) : step_batch :=
  {| responses_width := responses_width d; s_attention_mask := rows_of_indices idx (s_attention_mask d); s_response_mask := rows_of_indices idx <$> s_response_mask d;
     token_level_scores := rows_of_indices idx <$> token_level_scores d; token_level_rewards := rows_of_indices idx <$> token_level_rewards d;
     s_old_log_probs := rows_of_indices idx <$> s_old_log_probs d; s_ref_log_prob := rows_of_indices idx <$> s_ref_log_prob d; s_values := rows_of_indices idx <$> s_values d;
     s_reward_baselines := rows_of_indices idx <$> s_reward_baselines d; s_sum_pi_squared := rows_of_indices idx <$> s_sum_pi_squared d;
     s_rollout_is_weights := rows_of_indices idx <$> s_rollout_is_weights d; uid := rows_of_indices idx <$> uid d;
     s_advantages := rows_of_indices idx <$> s_advantages d; s_returns := rows_of_indices idx <$> s_returns d |}.

Definition column {A} (key : string) (c : option A) : result A := of_option (KeyError key) c.

(** ** The KL penalty in the reward *)

Record kl_metrics := { reward_kl_penalty : R; reward_kl_penalty_coeff : R }.

Definition apply_kl_penalty (d : step_batch) (kl_ctrl : kl_controller) (penalty : string) :
    result (step_batch * kl_controller * kl_metrics) :=
  response_mask ← column "response_mask" (s_response_mask d);
  scores ← column "token_level_scores" (token_level_scores d);
  old ← column "old_log_probs" (s_old_log_probs d);
  ref ← column "ref_log_prob" (s_ref_log_prob d);
  kld ← tensor_mapM2 (λ lp r, kl_penalty lp r penalty) old ref;
  let kld := mask_mul kld response_mask in
  let beta := kl_value kl_ctrl in
  let rewards := tzip Rminus scores (tmap (λ k, beta * k) kld) in
  let current_kl := mean (zip_with row_masked_mean kld response_mask) in
  Ok (set_rewards d rewards, kl_update kl_ctrl current_kl (INR (length response_mask)),
      {| reward_kl_penalty := current_kl; reward_kl_penalty_coeff := beta |}).

(** [attention_mask[:, -response_length:]]: with no response column the slice is the whole row. *)
Definition compute_response_mask (d : step_batch) : tensor bool :=
  (λ row, match responses_width d with O => row | w => drop (length row - w) row end) <$> s_attention_mask d.

(** ** Speculative decoding: ratios per request, zero where the denominator is zero. *)

Definition keep_by {A} (mask : option (list bool)) (l : list A) : result (list A) :=
  match mask with
  | Some m => require Nat.eqb (length m) (length l) else ValueError "zip() argument 2 is shorter than argument 1" ;; Ok (pick m l)
  | None => Ok l
  end.
Definition per_sample (f : Z → Z → R) (nums dens : list Z) : result (list R) :=
  require Nat.eqb (length nums) (length dens) else ValueError "zip() argument 2 is shorter than argument 1" ;;
  Ok (zip_with f nums dens).
Definition accept_rate (a d : Z) : R := if (0 <? d)%Z then IZR a / IZR d else 0.
Definition accept_length (a v : Z) : R := if (0 <? v)%Z then 1 + IZR a / IZR v else 0.

(** The two metrics, or the empty dict. *)
Definition compute_spec_decode_metrics (drafts accepts verifies : option (list Z)) (non_padding_mask : option (list bool)) :
    result (option (R * R)) :=
  match drafts, accepts, verifies with
  | None, None, None => Ok None
  | Some d, Some a, Some v =>
      d ← keep_by non_padding_mask d;
      a ← keep_by non_padding_mask a;
      v ← keep_by non_padding_mask v;
      match d with
      | [] => Ok None
      | _ => rates ← per_sample accept_rate a d;
             lens ← per_sample accept_length a v;
             Ok (Some (rsum rates / INR (length d), rsum lens / INR (length d)))
      end
  | _, _, _ => Raise (AssertionError "spec_decode metrics require all three")
  end.

(** ** Advantages *)

(** What the other estimators are called with. *)
Record adv_kwargs := {
  k_rewards : tensor R; k_mask : tensor bool; k_index : option (list string); k_baselines : option (list R);
  k_raw_batch : option step_batch;
  k_optimal_baseline : option (tensor R * option (tensor R) * option (tensor R)) }.

Definition FUNCTIONAL_EPSILON : R := 1 / 10 ^ 6.

Section compute_advantage.
(** The registered estimators, and [torch.multinomial] with replacement. *)
Context (registry : list (string * (adv_kwargs → result (tensor R * tensor R)))) (multinomial : list R → nat → list nat).

(** [config]: the method and power of PF-PPO if [use_pf_ppo] is set. *)
Definition compute_pf_ppo_reweight_data (reweight_method : string) (weight_pow : R) (d : step_batch) : result step_batch :=
  scores ← column "token_level_scores" (token_level_scores d);
  let scores := rsum <$> scores in
  weights ← resample_weights scores reweight_method weight_pow;
  Ok (select_rows (multinomial weights (length scores)) d).

Definition otb_names : list string := ["optimal_token_baseline"; "tir_optimal_token_baseline"]%string.

Definition compute_advantage (d : step_batch) (adv_estimator : string) (gamma lam : R) (norm_adv_by_std_in_grpo : bool)
    (config : option (option (string * R))) : result step_batch :=
  let d := match s_response_mask d with None => set_mask d (compute_response_mask d) | Some _ => d end in
  rewards ← column "token_level_rewards" (token_level_rewards d);
  mask ← column "response_mask" (s_response_mask d);
  if bool_decide (adv_estimator = "gae"%string) then
    values ← column "values" (s_values d);
    '(adv, ret) ← compute_gae_advantage_return rewards values mask gamma lam;
    let d := set_advantages d adv ret in
    pf ← of_option (AttributeError "'NoneType' object has no attribute 'get'") config;
    match pf with
    | Some (reweight_method, weight_pow) => compute_pf_ppo_reweight_data reweight_method weight_pow d
    | None => Ok d
    end
  else if bool_decide (adv_estimator = "grpo"%string) then
    uids ← column "uid" (uid d);
    '(adv, ret) ← compute_grpo_outcome_advantage rewards mask uids FUNCTIONAL_EPSILON norm_adv_by_std_in_grpo;
    Ok (set_advantages d adv ret)
  else
    fn ← get_adv_estimator_fn registry adv_estimator;
    otb ← (if bool_decide (adv_estimator ∈ otb_names) then
             sums ← of_option (AssertionError "Step-dependent optimal baseline requires sum_pi_squared from actor.") (s_sum_pi_squared d);
             old ← column "old_log_probs" (s_old_log_probs d);
             Ok (Some (sums, Some old, s_rollout_is_weights d))
           else Ok None);
    '(adv, ret) ← fn {| k_rewards := rewards; k_mask := mask; k_index := uid d; k_baselines := s_reward_baselines d;
                        k_raw_batch := if bool_decide (adv_estimator = "gdpo"%string) then Some d else None;
                        k_optimal_baseline := otb |};
    Ok (set_advantages d adv ret).

(** ** Several trajectories per session *)

(** [s.rsplit(sep, k)]. *)
Definition rsplit (sep : ascii) (k : nat) (s : string) : list string :=
  let parts := split_on sep s in
  let n := length parts in
  if Nat.leb n (S k) then parts else str_join (String sep EmptyString) (take (n - k) parts) :: drop (n - k) parts.

(** A key [{uid}_{session_id}_{index}]: the session and the index. *)
Definition parse_key (key : string) : result (string * Z) :=
  match rsplit "_" 2 key with
  | [u; session_id; index] =>
      i ← of_option (ValueError "invalid literal for int() with base 10") (int_of_str index);
      Ok (u +:+ "_" +:+ session_id, i)
  | _ => Raise (AssertionError ("Unexpected key format: " +:+ key))
  end.

(** The loop over the keys: for every session the largest index so far and its row. *)
Definition final_step (sessions : list (string * (Z * nat))) (row : nat * (string * Z)) : list (string * (Z * nat)) :=
  let '(i, (session_key, index)) := row in
  match dget session_key sessions with
  | Some (best, _) => if (best <? index)%Z then dset session_key (index, i) sessions else sessions
  | None => dset session_key (index, i) sessions
  end.
Definition final_sessions (rows : list (string * Z)) : list (string * (Z * nat)) :=
  foldl final_step [] (imap (λ i r, (i, r)) rows).

(** [row.argmax()]: the first true entry, or 0. *)
Fixpoint argmax_from (i : nat) (m : list bool) : option nat :=
  match m with [] => None | b :: m => if b then Some i else argmax_from (S i) m end.
Definition has_true (m : list bool) : bool := existsb (λ b : bool, b) m.
Definition argmax (m : list bool) : nat := default 0%nat (argmax_from 0 m).

Definition compute_advantage_for_multi_trajectories (d : step_batch) (batch_keys : list string) (adv_estimator : string)
    (gamma lam : R) (norm_adv_by_std_in_grpo : bool) (config : option (option (string * R))) : result step_batch :=
  if negb (bool_decide (adv_estimator = "grpo"%string)) then
    compute_advantage d adv_estimator gamma lam norm_adv_by_std_in_grpo config
  else
    rows ← mapM parse_key batch_keys;
    let finals := final_sessions rows in
    let final_indices := (λ s : string * (Z * nat), s.2.2) <$> finals in
    let session_key_to_local_index := imap (λ i (s : string * (Z * nat)), (s.1, i)) finals in
    row_to_local_index ← mapM (λ r : string * Z, ditem r.1 session_key_to_local_index) rows;
    final ← compute_advantage (select_rows final_indices d) adv_estimator gamma lam norm_adv_by_std_in_grpo config;
    final_mask ← column "response_mask" (s_response_mask final);
    final_adv ← column "advantages" (s_advantages final);
    final_scores ← mapM (λ rm : list R * list bool, of_option (IndexError "index out of range") (rm.1 !! argmax rm.2))
                        (zip final_adv final_mask);
    scores ← mapM (λ l, of_option (IndexError "index out of range") (final_scores !! l)) row_to_local_index;
    mask ← column "response_mask" (s_response_mask d);
    let scores := spread_mask scores mask in
    Ok (set_advantages d scores scores).
End compute_advantage.

(** ** Keys *)

Lemma split_on_ne sep s : split_on sep s ≠ [].
Proof. destruct s as [|c s]; cbn; [done|]. case_bool_decide; [done|]. by destruct (split_on sep s). Qed.

Lemma split_on_app sep a b : split_on sep (a +:+ String sep b) = split_on sep a ++ split_on sep b.
Proof.
  induction a as [|c a IH]; cbn [split_on append].
  - by rewrite bool_decide_eq_true_2.
  - rewrite IH. case_bool_decide; [done|]. pose proof (split_on_ne sep a). by destruct (split_on sep a).
Qed.

Lemma split_on_none sep s : has_char sep s = false → split_on sep s = [s].
Proof.
  induction s as [|c s IH]; [done|]. cbn [split_on has_char]. intros H. apply orb_false_iff in H as [Hc Hs].
  rewrite (IH Hs). apply bool_decide_eq_false in Hc. case_bool_decide; [congruence|done].
Qed.

Lemma str_join_split sep s : str_join (String sep EmptyString) (split_on sep s) = s.
Proof.
  induction s as [|c s IH]; [done|]. cbn [split_on]. pose proof (split_on_ne sep s) as Hne. case_bool_decide as E.
  - subst c. transitivity (String sep (str_join (String sep EmptyString) (split_on sep s))); [|by rewrite IH].
    by destruct (split_on sep s).
  - destruct (split_on sep s) as [|w ws]; [done|]. transitivity (String c (str_join (String sep EmptyString) (w :: ws))); [|by rewrite IH].
    by destruct ws.
Qed.

Lemma digits_no_underscore (x : N) : has_char "_" (pretty x) = false.
Proof.
  generalize (pretty_N_digits x). generalize (pretty x). induction s as [|c s IH]; [done|].
  cbn [all_digits has_char]. intros H. destruct (digit_of c) eqn:Ec; [|done]. rewrite (IH H).
  case_bool_decide as E; [|done]. by subst c.
Qed.

(** The key that [AgentLoopWorkerTQ] gives to an output. *)
Definition trajectory_key (t : string * N * N) : string :=
  let '(u, s, i) := t in u +:+ "_" +:+ pretty s +:+ "_" +:+ pretty i.
Definition session_of (t : string * N * N) : string := t.1.1 +:+ "_" +:+ pretty t.1.2.

Lemma split_session u s : split_on "_" (u +:+ "_" +:+ pretty (s : N)) = split_on "_" u ++ [pretty s].
Proof. change ("_" +:+ pretty s)%string with (String "_" (pretty s)). by rewrite split_on_app, (split_on_none _ (pretty s)) by apply digits_no_underscore. Qed.

Lemma parse_trajectory_key t : parse_key (trajectory_key t) = Ok (session_of t, Z.of_N t.2).
Proof.
  destruct t as [[u s] i]. unfold parse_key, trajectory_key, rsplit, session_of. cbn [fst snd].
  assert (E : split_on "_" (u +:+ "_" +:+ pretty s +:+ "_" +:+ pretty i) = split_on "_" u ++ [pretty s; pretty i]).
  { change ("_" +:+ pretty s +:+ "_" +:+ pretty i)%string with (String "_" (pretty s +:+ String "_" (pretty i))).
    rewrite !split_on_app, !(split_on_none _ (pretty _)) by apply digits_no_underscore. done. }
  rewrite E, length_app. cbn [length].
  pose proof (split_on_ne "_" u) as Hne. pose proof (str_join_split "_" u) as Hj.
  destruct (split_on "_" u) as [|w [|w' ws]] eqn:Eu; [done| |].
  - cbn in Hj |- *. by rewrite Hj, int_of_str_pretty.
  - cbn [length]. replace (Nat.leb (S (S (length ws)) + 2) 3) with false by (symmetry; apply Nat.leb_gt; lia).
    replace (S (S (length ws)) + 2 - 2)%nat with (length (w :: w' :: ws)) by (cbn; lia).
    rewrite take_app_length, drop_app_length, Hj. cbn. by rewrite int_of_str_pretty.
Qed.

Lemma session_of_inj t t' : session_of t = session_of t' ↔ t.1 = t'.1.
Proof.
  split; [|intros E; unfold session_of; by rewrite E].
  intros E. apply (f_equal (split_on "_")) in E. unfold session_of in E. rewrite !split_session in E.
  apply app_inj_tail in E as [E1 E2]. apply (f_equal (str_join "_")) in E1. rewrite !str_join_split in E1.
  apply (inj pretty) in E2. destruct t as [[u s] i], t' as [[u' s'] i']. cbn in *. by subst.
Qed.

(** ** The last output of every session *)

Lemma imap_app_one {A B} (f : nat → A → B) l x : imap f (l ++ [x]) = imap f l ++ [f (length l) x].
Proof. rewrite imap_app. cbn. unfold compose. by rewrite Nat.add_0_r. Qed.

Lemma final_sessions_snoc rows r : final_sessions (rows ++ [r]) = final_step (final_sessions rows) (length rows, r).
Proof. unfold final_sessions. rewrite imap_app_one, foldl_app. done. Qed.

Lemma final_sessions_spec rows :
  NoDup (keys (final_sessions rows)) ∧
  (∀ k z, (∃ i, rows !! i = Some (k, z)) → is_Some (dget k (final_sessions rows))) ∧
  ∀ k z i, dget k (final_sessions rows) = Some (z, i) →
    rows !! i = Some (k, z) ∧ ∀ j z', rows !! j = Some (k, z') → (z' <= z)%Z.
Proof.
  induction rows as [|[k0 z0] rows (IHn & IHe & IH)] using rev_ind.
  { split_and!; [constructor|by intros k z [i Hi]|done]. }
  rewrite final_sessions_snoc. cbn [final_step].
  assert (Hlast : (rows ++ [(k0, z0)]) !! length rows = Some (k0, z0)).
  { rewrite lookup_app_r, Nat.sub_diag by lia. done. }
  assert (Hold : ∀ j k z, rows !! j = Some (k, z) → (rows ++ [(k0, z0)]) !! j = Some (k, z)).
  { intros j k z H. by rewrite lookup_app_l by (by eapply lookup_lt_Some). }
  assert (Hinv : ∀ j k z, (rows ++ [(k0, z0)]) !! j = Some (k, z) → rows !! j = Some (k, z) ∨ (k, z) = (k0, z0)).
  { intros j k z H. apply lookup_app_Some in H as [H|[_ H]]; [by left|right].
    destruct (j - length rows)%nat; [cbn in H; congruence|done]. }
  assert (Hset : (∀ j z', rows !! j = Some (k0, z') → (z' <= z0)%Z) →
    NoDup (keys (dset k0 (z0, length rows) (final_sessions rows))) ∧
    (∀ k z, (∃ i, (rows ++ [(k0, z0)]) !! i = Some (k, z)) → is_Some (dget k (dset k0 (z0, length rows) (final_sessions rows)))) ∧
    ∀ k z i, dget k (dset k0 (z0, length rows) (final_sessions rows)) = Some (z, i) →
      (rows ++ [(k0, z0)]) !! i = Some (k, z) ∧ ∀ j z', (rows ++ [(k0, z0)]) !! j = Some (k, z') → (z' <= z)%Z).
  { intros Hbig. split_and!.
    - by apply dset_keys_nodup.
    - intros k z [i Hi]. rewrite dget_dset. case_bool_decide; [by eexists|].
      destruct (Hinv _ _ _ Hi) as [Hi'|[= -> ->]]; [by eapply IHe; eexists|done].
    - intros k z i. rewrite dget_dset. case_bool_decide as E.
      + subst k. intros [= <- <-]. split; [done|]. intros j z' Hj. destruct (Hinv _ _ _ Hj) as [Hj'|[= ->]]; [by eapply Hbig|lia].
      + intros Hd. destruct (IH _ _ _ Hd) as [H1 H2]. split; [by apply Hold|]. intros j z' Hj.
        destruct (Hinv _ _ _ Hj) as [Hj'|[= -> ->]]; [by eapply H2|done]. }
  destruct (dget k0 (final_sessions rows)) as [[best ib]|] eqn:Ed.
  - destruct (IH _ _ _ Ed) as [H1 H2]. destruct (Z.ltb_spec best z0) as [Hlt|Hge].
    + apply Hset. intros j z' Hj. specialize (H2 _ _ Hj). lia.
    + split_and!; [done| |].
      * intros k z [i Hi]. destruct (Hinv _ _ _ Hi) as [Hi'|[= -> ->]]; [by eapply IHe; eexists|by eexists].
      * intros k z i Hd. destruct (IH _ _ _ Hd) as [H3 H4]. split; [by apply Hold|]. intros j z' Hj.
        destruct (Hinv _ _ _ Hj) as [Hj'|[= -> ->]]; [by eapply H4|]. rewrite Ed in Hd. injection Hd as <- <-. done.
  - apply Hset. intros j z' Hj. destruct (IHe k0 z') as [? ?]; [by eexists|congruence].
Qed.

(** ** Advantages of all trajectories *)

Section spec.
Context (norm : bool) (rewards : tensor R) (mask : tensor bool) (uids : list string).

(** The GRPO advantage of row [f] among the rows [finals]: relative to those with its uid. *)
Definition group_of_final (finals : list nat) (f : nat) : list R :=
  members (nth f uids EmptyString) (rows_of_indices finals uids) (row_scores (rows_of_indices finals rewards)).
Definition final_advantage (finals : list nat) (f : nat) : R :=
  let group := group_of_final finals f in
  grpo_scalar FUNCTIONAL_EPSILON norm (rsum (nth f rewards [])) (stat_mean group) (stat_std group).
(** A final output without a trained token has no advantage to hand on. *)
Definition session_advantage (finals : list nat) (f : nat) : R :=
  if has_true (nth f mask []) then final_advantage finals f else 0.
End spec.

Lemma rows_of_indices_length {X} idx (l : list X) : Forall (λ i, (i < length l)%nat) idx → length (rows_of_indices idx l) = length idx.
Proof.
  intros H. unfold rows_of_indices. induction H as [|i idx Hi H IH]; [done|]. cbn. destruct (lookup_lt_is_Some_2 l i Hi) as [x ->]. cbn. by rewrite IH.
Qed.
Lemma rows_of_indices_lookup {X} idx (l : list X) p i :
  Forall (λ i, (i < length l)%nat) idx → idx !! p = Some i → rows_of_indices idx l !! p = l !! i.
Proof.
  intros H. revert p. unfold rows_of_indices. induction H as [|j idx Hj H IH]; intros p Hp; [done|].
  cbn. destruct (lookup_lt_is_Some_2 l j Hj) as [x Ex]. rewrite Ex. destruct p as [|p]; cbn in *; [congruence|by apply IH].
Qed.

Lemma argmax_from_spec m i : match argmax_from i m with
  | Some j => (i <= j)%nat ∧ m !! (j - i)%nat = Some true
  | None => has_true m = false end.
Proof.
  revert i. induction m as [|b m IH]; intros i; [done|]. cbn. destruct b.
  - split; [lia|]. by rewrite Nat.sub_diag.
  - cbn. specialize (IH (S i)). destruct (argmax_from (S i) m) as [j|]; [|done]. destruct IH as [H1 H2].
    split; [lia|]. replace (j - i)%nat with (S (j - S i)) by lia. done.
Qed.

Lemma argmax_lookup m : m ≠ [] → m !! argmax m = Some (has_true m).
Proof.
  intros Hm. unfold argmax. pose proof (argmax_from_spec m 0) as H. destruct (argmax_from 0 m) as [j|]; cbn.
  - destruct H as [_ H]. rewrite Nat.sub_0_r in H. rewrite H. f_equal. symmetry. unfold has_true. apply existsb_exists.
    exists true. split; [|done]. apply list_elem_of_In. by eapply list_elem_of_lookup_2.
  - destruct m as [|b m]; [done|]. rewrite H. cbn in H |- *. by destruct b.
Qed.

(** The entries at the first trained token of the rows. *)
Lemma first_entries (advs : list R) (mask : tensor bool) :
  length advs = length mask → Forall (λ m, m ≠ []) mask →
  mapM (λ rm : list R * list bool, of_option (IndexError "index out of range") (rm.1 !! argmax rm.2)) (zip (spread_mask advs mask) mask) =
  Ok (zip_with (λ a m, if has_true m then a else 0) advs mask).
Proof.
  intros Hl Hm. revert advs Hl. induction Hm as [|m mask Hm _ IH]; intros [|a advs] Hl; try done.
  cbn [spread_mask zip_with zip mapM]. cbn [fst snd].
  rewrite list_lookup_fmap, (argmax_lookup m Hm). cbn [fmap option_fmap option_map of_option mbind result_bind].
  injection Hl as Hl. unfold spread_mask in IH. rewrite (IH advs Hl). cbn. f_equal. f_equal.
  destruct (has_true m); cbn; ring.
Qed.

Lemma zip_with_rows {A B C} (f : A → B → C) l k i c :
  zip_with f l k !! i = Some c ↔ ∃ a b, l !! i = Some a ∧ k !! i = Some b ∧ c = f a b.
Proof. rewrite lookup_zip_with_Some. naive_solver. Qed.

Lemma ditem_imap_index {A} (l : list (string * A)) k p x :
  NoDup (keys l) → l !! p = Some (k, x) → ditem k (imap (λ i s, (s.1, i)) l) = Ok p.
Proof.
  intros Hn Hp. unfold ditem. rewrite (elem_dget k p); [done| |].
  - replace (keys _) with (keys l); [done|]. unfold keys. apply list_eq. intros i. rewrite !list_lookup_fmap, list_lookup_imap.
    by destruct (l !! i).
  - apply list_elem_of_lookup. exists p. by rewrite list_lookup_imap, Hp.
Qed.

(** *** The rows and their last outputs *)

Section outputs.
Context (ts : list (string * N * N)).

Definition parsed_rows : list (string * Z) := (λ t, (session_of t, Z.of_N t.2)) <$> ts.
Definition finals : list nat := (λ s : string * (Z * nat), s.2.2) <$> final_sessions parsed_rows.
Definition last_output (f : nat) : Prop :=
  ∃ t, ts !! f = Some t ∧ ∀ j t', ts !! j = Some t' → t'.1 = t.1 → (t'.2 <= t.2)%N.

Lemma parsed_rows_at i k z : parsed_rows !! i = Some (k, z) ↔ ∃ t, ts !! i = Some t ∧ k = session_of t ∧ z = Z.of_N t.2.
Proof. unfold parsed_rows. rewrite list_lookup_fmap. destruct (ts !! i); cbn; naive_solver. Qed.

Lemma final_at p k z f : final_sessions parsed_rows !! p = Some (k, (z, f)) →
  finals !! p = Some f ∧ parsed_rows !! f = Some (k, z) ∧ ∀ j z', parsed_rows !! j = Some (k, z') → (z' <= z)%Z.
Proof.
  destruct (final_sessions_spec parsed_rows) as (Fn & _ & Fs). intros H. split.
  - unfold finals. by rewrite list_lookup_fmap, H.
  - apply Fs, elem_dget; [done|]. by eapply list_elem_of_lookup_2.
Qed.

Lemma finals_lookup p f : finals !! p = Some f → ∃ k z, final_sessions parsed_rows !! p = Some (k, (z, f)).
Proof.
  unfold finals. rewrite list_lookup_fmap. destruct (final_sessions parsed_rows !! p) as [[k [z i]]|]; [|done].
  intros [= <-]. by exists k, z.
Qed.

Lemma finals_last_output f : f ∈ finals → last_output f.
Proof.
  intros Hf. apply list_elem_of_lookup in Hf as [p Hp]. destruct (finals_lookup p f Hp) as (k & z & Hk).
  destruct (final_at _ _ _ _ Hk) as (_ & H1 & H2). apply parsed_rows_at in H1 as (t & Ht & -> & ->). exists t. split; [done|].
  intros j t' Hj E. assert (Z.of_N t'.2 <= Z.of_N t.2)%Z; [|lia]. apply (H2 j), parsed_rows_at. exists t'.
  split_and!; [done|by apply session_of_inj|done].
Qed.

(** Every row's session has a final row, found at the same place in both lists. *)
Lemma session_final i t : ts !! i = Some t →
  ∃ p z f t', final_sessions parsed_rows !! p = Some (session_of t, (z, f)) ∧ finals !! p = Some f ∧
    ts !! f = Some t' ∧ t'.1 = t.1 ∧ (t.2 <= t'.2)%N.
Proof.
  intros Ht. destruct (final_sessions_spec parsed_rows) as (_ & Fe & _).
  destruct (Fe (session_of t) (Z.of_N t.2)) as [[z f] Hd]; [exists i; apply parsed_rows_at; by exists t|].
  apply dget_elem, list_elem_of_lookup in Hd as [p Hp]. destruct (final_at _ _ _ _ Hp) as (H0 & H1 & H2).
  apply parsed_rows_at in H1 as (t' & Ht' & E & ->). exists p, (Z.of_N t'.2), f, t'. split_and!; [done|done|done| |].
  - symmetry. by apply session_of_inj.
  - assert (Z.of_N t.2 <= Z.of_N t'.2)%Z; [|lia]. apply (H2 i), parsed_rows_at. by exists t.
Qed.

Lemma finals_iff : NoDup ts → ∀ f, f ∈ finals ↔ last_output f.
Proof.
  intros Hnd f. split; [apply finals_last_output|]. intros (t & Ht & Hmax).
  destruct (session_final f t Ht) as (p & z & f' & t' & _ & Hp & Ht' & E & Hle).
  assert (Hle' : (t'.2 <= t.2)%N) by (by apply (Hmax f')).
  assert (t' = t) by (destruct t, t'; cbn in *; f_equal; [done|lia]). subst t'.
  rewrite (NoDup_lookup ts f f' t Hnd Ht Ht'). by eapply list_elem_of_lookup_2.
Qed.

Lemma finals_nodup : NoDup finals.
Proof.
  destruct (final_sessions_spec parsed_rows) as (Fn & _ & _). apply NoDup_alt. intros p q f Hp Hq.
  destruct (finals_lookup p f Hp) as (k & z & Ep). destruct (finals_lookup q f Hq) as (k' & z' & Eq).
  destruct (final_at _ _ _ _ Ep) as (_ & H1 & _). destruct (final_at _ _ _ _ Eq) as (_ & H2 & _).
  rewrite H1 in H2. injection H2 as -> ->. unfold keys in Fn.
  apply (NoDup_lookup _ p q k' Fn); by rewrite list_lookup_fmap, ?Ep, ?Eq.
Qed.

Lemma finals_lt : Forall (λ i, (i < length ts)%nat) finals.
Proof. apply Forall_forall. intros f Hf. destruct (finals_last_output f Hf) as (t & Ht & _). by eapply lookup_lt_Some. Qed.

(** [row_to_local_index]. *)
Lemma local_indices : ∃ locs,
  mapM (λ r : string * Z, ditem r.1 (imap (λ i (s : string * (Z * nat)), (s.1, i)) (final_sessions parsed_rows))) parsed_rows = Ok locs ∧
  Forall2 (λ t p, ∃ f t', finals !! p = Some f ∧ ts !! f = Some t' ∧ t'.1 = t.1) ts locs.
Proof.
  destruct (final_sessions_spec parsed_rows) as (Fn & _ & _).
  destruct (mapM_total (λ r : string * Z, ditem r.1 (imap (λ i (s : string * (Z * nat)), (s.1, i)) (final_sessions parsed_rows)))
    (λ r p, ∃ f t', finals !! p = Some f ∧ ts !! f = Some t' ∧ session_of t' = r.1) parsed_rows) as (locs & H1 & H2).
  { intros [k z] Hin. apply list_elem_of_lookup in Hin as [i Hi]. apply parsed_rows_at in Hi as (t & Ht & -> & ->).
    destruct (session_final i t Ht) as (p & z & f & t' & Hs & Hp & Ht' & E & _). exists p. split.
    - cbn. by eapply ditem_imap_index.
    - exists f, t'. split_and!; [done|done|]. by apply session_of_inj. }
  exists locs. split; [done|]. unfold parsed_rows in H2. apply Forall2_fmap_l in H2.
  eapply Forall2_impl; [exact H2|]. cbn. intros t p (f & t' & H3 & H4 & H5). exists f, t'. split_and!; [done..|]. by apply session_of_inj.
Qed.

Lemma parse_keys : mapM parse_key (trajectory_key <$> ts) = Ok parsed_rows.
Proof.
  apply mapM_Ok_Forall2, Forall2_fmap, Forall_Forall2_diag, Forall_forall. intros t _. by rewrite parse_trajectory_key.
Qed.

(** *** Their advantages *)

Context (norm : bool) (rewards : tensor R) (mask : tensor bool) (uids : list string).
Context (Lr : length rewards = length ts) (Lm : length mask = length ts) (Lu : length uids = length ts).

Definition relative_advantages : list R :=
  let rewards' := rows_of_indices finals rewards in
  let uids' := rows_of_indices finals uids in
  zip_with (λ k s, let l := members k uids' (row_scores rewards') in
    grpo_scalar FUNCTIONAL_EPSILON norm s (stat_mean l) (stat_std l)) uids' (row_scores rewards').

Lemma finals_grpo :
  length relative_advantages = length (rows_of_indices finals mask) ∧
  compute_grpo_outcome_advantage (rows_of_indices finals rewards) (rows_of_indices finals mask) (rows_of_indices finals uids) FUNCTIONAL_EPSILON norm =
    Ok (spread_mask relative_advantages (rows_of_indices finals mask), spread_mask relative_advantages (rows_of_indices finals mask)).
Proof using Lr Lm Lu.
  pose proof finals_lt as Hlt.
  assert (L1 : length (rows_of_indices finals rewards) = length finals) by (apply rows_of_indices_length; by rewrite Lr).
  assert (L2 : length (rows_of_indices finals mask) = length finals) by (apply rows_of_indices_length; by rewrite Lm).
  assert (L3 : length (rows_of_indices finals uids) = length finals) by (apply rows_of_indices_length; by rewrite Lu).
  split.
  - unfold relative_advantages, row_scores. rewrite length_zip_with, length_fmap, L1, L2, L3. lia.
  - rewrite grpo_closed by lia. cbv zeta. rewrite (take_ge (rows_of_indices finals uids)) by (unfold row_scores; rewrite length_fmap; lia). done.
Qed.

Lemma finals_mask_nonempty : Forall (λ m, m ≠ []) mask → Forall (λ m, m ≠ []) (rows_of_indices finals mask).
Proof.
  clear Lr Lm Lu. rewrite !Forall_forall. intros Hne m Hin. unfold rows_of_indices in Hin. apply list_elem_of_omap in Hin as (i & _ & Hi).
  apply Hne. by eapply list_elem_of_lookup_2.
Qed.

Lemma final_value p f : finals !! p = Some f →
  zip_with (λ a m, if has_true m then a else 0) relative_advantages (rows_of_indices finals mask) !! p =
  Some (session_advantage norm rewards mask uids finals f).
Proof using Lr Lm Lu.
  intros Hp. pose proof finals_lt as Hlt. assert (Hf : (f < length ts)%nat) by (by eapply Forall_lookup_1 in Hlt).
  destruct (lookup_lt_is_Some_2 rewards f ltac:(lia)) as [r Er]. destruct (lookup_lt_is_Some_2 mask f ltac:(lia)) as [m Em].
  destruct (lookup_lt_is_Some_2 uids f ltac:(lia)) as [u Eu].
  assert (R1 : rows_of_indices finals rewards !! p = Some r) by (rewrite (rows_of_indices_lookup finals rewards p f); [done|by rewrite Lr|done]).
  assert (M1 : rows_of_indices finals mask !! p = Some m) by (rewrite (rows_of_indices_lookup finals mask p f); [done|by rewrite Lm|done]).
  assert (U1 : rows_of_indices finals uids !! p = Some u) by (rewrite (rows_of_indices_lookup finals uids p f); [done|by rewrite Lu|done]).
  apply zip_with_rows. exists (final_advantage norm rewards uids finals f), m. split_and!; [|done|].
  - unfold relative_advantages. apply zip_with_rows. exists u, (rsum r).
    split_and!; [done|unfold row_scores; by rewrite list_lookup_fmap, R1|].
    unfold final_advantage, group_of_final. rewrite !nth_lookup, Er, Eu. done.
  - unfold session_advantage. by rewrite nth_lookup, Em.
Qed.

Lemma gathered_scores locs :
  Forall2 (λ t p, ∃ f t', finals !! p = Some f ∧ ts !! f = Some t' ∧ t'.1 = t.1) ts locs →
  ∃ scores,
    mapM (λ l, of_option (IndexError "index out of range")
      (zip_with (λ a m, if has_true m then a else 0) relative_advantages (rows_of_indices finals mask) !! l)) locs = Ok scores ∧
    Forall2 (λ t s, ∃ f t', f ∈ finals ∧ ts !! f = Some t' ∧ t'.1 = t.1 ∧ s = session_advantage norm rewards mask uids finals f) ts scores.
Proof using Lr Lm Lu.
  pose proof final_value as Hval.
  generalize ts at 2 4. induction 1 as [|t p ts0 locs0 (f & t' & Hp & Ht' & E) _ (scores & IH1 & IH2)]; [by exists []|].
  exists (session_advantage norm rewards mask uids finals f :: scores). split.
  - cbn [mapM]. rewrite (Hval p f Hp). cbn [of_option mbind result_bind]. by rewrite IH1.
  - constructor; [|done]. exists f, t'. split_and!; [by eapply list_elem_of_lookup_2|done..].
Qed.
End outputs.

(** The loop's result: the rows get the advantages of their sessions' final rows. *)
Lemma multi_trajectory_scores registry multinomial (d : step_batch) (ts : list (string * N * N))
    (rewards : tensor R) (mask : tensor bool) (uids : list string) gamma lam norm config :
  token_level_rewards d = Some rewards → s_response_mask d = Some mask → uid d = Some uids →
  length rewards = length ts → length mask = length ts → length uids = length ts → Forall (λ m, m ≠ []) mask →
  ∃ scores,
    compute_advantage_for_multi_trajectories registry multinomial d (trajectory_key <$> ts) "grpo" gamma lam norm config =
      Ok (set_advantages d (spread_mask scores mask) (spread_mask scores mask)) ∧
    Forall2 (λ t s, ∃ f t', f ∈ finals ts ∧ ts !! f = Some t' ∧ t'.1 = t.1 ∧
                            s = session_advantage norm rewards mask uids (finals ts) f) ts scores.
Proof.
  intros Hr Hm Hu Lr Lm Lu Hne. destruct (local_indices ts) as (locs & Hlocs & Hloc).
  destruct (finals_grpo ts norm rewards mask uids Lr Lm Lu) as [Ladv Hgrpo].
  destruct (gathered_scores ts norm rewards mask uids Lr Lm Lu locs Hloc) as (scores & Hscores & Hsc).
  exists scores. split; [|done].
  unfold compute_advantage_for_multi_trajectories. rewrite bool_decide_eq_true_2 by done. cbn [negb].
  rewrite parse_keys. cbn [mbind result_bind]. fold (finals ts). rewrite Hlocs. cbn [mbind result_bind].
  unfold compute_advantage, select_rows. cbn [s_response_mask token_level_rewards uid]. rewrite Hr, Hm, Hu.
  cbn [fmap option_fmap option_map s_response_mask token_level_rewards uid column of_option mbind result_bind].
  rewrite (bool_decide_eq_false_2 ("grpo"%string = "gae"%string)) by done. rewrite bool_decide_eq_true_2 by done.
  cbn [mbind result_bind]. rewrite Hgrpo. cbn [mbind result_bind s_response_mask s_advantages set_advantages column of_option].
  rewrite (first_entries _ _ Ladv (finals_mask_nonempty ts mask Hne)). cbn [mbind result_bind]. rewrite Hscores. done.
Qed.

(** C26: with GRPO, every trajectory gets the advantage of the last output of its session.  The
    outputs are named [{uid}_{session_id}_{index}], whatever the uid; the last output of a session
    is the one with the largest index.  Its advantage is relative to the last outputs of the
    sessions with its uid, one per session; it is spread over the trained tokens of every output of
    the session, and is zero if the last output has no trained token. *)
Theorem multi_trajectory_advantage registry multinomial (d : step_batch) (ts : list (string * N * N))
    (rewards : tensor R) (mask : tensor bool) (uids : list string) gamma lam norm config :
  NoDup ts → token_level_rewards d = Some rewards → s_response_mask d = Some mask → uid d = Some uids →
  length rewards = length ts → length mask = length ts → length uids = length ts → Forall (λ m, m ≠ []) mask →
  ∃ fs adv, NoDup fs ∧
    (∀ f, f ∈ fs ↔ ∃ t, ts !! f = Some t ∧ ∀ j t', ts !! j = Some t' → t'.1 = t.1 → (t'.2 <= t.2)%N) ∧
    compute_advantage_for_multi_trajectories registry multinomial d (trajectory_key <$> ts) "grpo" gamma lam norm config =
      Ok (set_advantages d adv adv) ∧ length adv = length ts ∧
    ∀ i t m, ts !! i = Some t → mask !! i = Some m →
      ∃ f t', f ∈ fs ∧ ts !! f = Some t' ∧ t'.1 = t.1 ∧
        adv !! i = Some ((λ b, session_advantage norm rewards mask uids fs f * b2r b) <$> m).
Proof.
  intros Hnd Hr Hm Hu Lr Lm Lu Hne.
  destruct (multi_trajectory_scores registry multinomial d ts rewards mask uids gamma lam norm config Hr Hm Hu Lr Lm Lu Hne) as (scores & Hc & Hsc).
  assert (Lsc : length scores = length ts) by (symmetry; by eapply Forall2_length).
  exists (finals ts), (spread_mask scores mask). split_and!; [apply finals_nodup|by apply finals_iff|done| |].
  - unfold spread_mask. rewrite length_zip_with, Lsc, Lm. lia.
  - intros i t m Ht Hmi. destruct (lookup_lt_is_Some_2 scores i) as [s Hs]; [rewrite Lsc; by eapply lookup_lt_Some|].
    destruct (Forall2_lookup_lr _ _ _ _ _ _ Hsc Ht Hs) as (f & t' & Hf & Ht' & E & ->).
    exists f, t'. split_and!; [done..|]. unfold spread_mask. apply zip_with_rows. eexists _, m. by split_and!.
Qed.

Definition plain_batch (rewards : tensor R) (mask : tensor bool) (uids : list string) : step_batch :=
  {| responses_width := 2; s_attention_mask := mask; s_response_mask := Some mask; token_level_scores := Some rewards;
     token_level_rewards := Some rewards; s_old_log_probs := None; s_ref_log_prob := None; s_values := None;
     s_reward_baselines := None; s_sum_pi_squared := None; s_rollout_is_weights := None; uid := Some uids;
     s_advantages := None; s_returns := None |}.

Lemma multi_trajectory_advantage_witness :
  let ts := [("a", 0, 0); ("a", 0, 1); ("a", 1, 0)]%string%N in
  let rewards := [[0; 0]; [1; 0]; [0; 3]] in let mask := [[true; true]; [true; false]; [false; true]] in
  ∃ fs adv, NoDup fs ∧
    compute_advantage_for_multi_trajectories [] (λ _ _, []) (plain_batch rewards mask ["a"; "a"; "a"]%string) (trajectory_key <$> ts)
      "grpo" 1 1 true None = Ok (set_advantages (plain_batch rewards mask ["a"; "a"; "a"]%string) adv adv) ∧
    ∃ f t', f ∈ fs ∧ ts !! f = Some t' ∧ t'.1 = ("a"%string, 0%N) ∧
      adv !! 0%nat = Some ((λ b, session_advantage true rewards mask ["a"; "a"; "a"]%string fs f * b2r b) <$> [true; true]).
Proof.
  intros ts rewards mask.
  destruct (multi_trajectory_advantage [] (λ _ _, []) (plain_batch rewards mask ["a"; "a"; "a"]%string) ts rewards mask
    ["a"; "a"; "a"]%string 1 1 true None) as (fs & adv & H1 & _ & H2 & _ & H3); try done.
  - unfold ts. repeat constructor; set_solver.
  - repeat constructor; done.
  - exists fs, adv. split_and!; [done|done|]. by apply (H3 0%nat ("a"%string, 0%N, 0%N) [true; true]).
Defined.

(** ** The KL penalty and the speculative-decoding metrics *)

(** The penalty is subtracted at trained tokens only, and the controller keeps its sign while the
    batch is smaller than five horizons. *)
Lemma kl_penalty_spec (d : step_batch) ctrl penalty d' ctrl' metrics :
  apply_kl_penalty d ctrl penalty = Ok (d', ctrl', metrics) →
  ∃ mask scores old ref kld rewards,
    s_response_mask d = Some mask ∧ token_level_scores d = Some scores ∧ s_old_log_probs d = Some old ∧ s_ref_log_prob d = Some ref ∧
    tensor_mapM2 (λ lp r, kl_penalty lp r penalty) old ref = Ok kld ∧ d' = set_rewards d rewards ∧
    reward_kl_penalty_coeff metrics = kl_value ctrl ∧
    ∀ i j s k b, tget scores i j = Some s → tget kld i j = Some k → tget mask i j = Some b →
      tget rewards i j = Some (if (b : bool) then s - kl_value ctrl * k else s).
Proof.
  unfold apply_kl_penalty. intros H. do 5 inv_ok H. injection H as <- <- <-. apply of_option_Ok in Hv, Hv0, Hv1, Hv2.
  exists v, v0, v1, v2, v3, (tzip Rminus v0 (tmap (λ k, kl_value ctrl * k) (mask_mul v3 v))).
  split_and!; try done. intros i j s k b Hs Hk Hb. unfold tget in *.
  destruct (v0 !! i) as [srow|] eqn:E0; [|done]. destruct (v3 !! i) as [krow|] eqn:E3; [|done]. destruct (v !! i) as [brow|] eqn:Ev; [|done].
  cbn in Hs, Hk, Hb. unfold tzip, tmap, mask_mul, row_mul.
  rewrite lookup_zip_with, E0, list_lookup_fmap, lookup_zip_with, E3, Ev. cbn.
  rewrite lookup_zip_with, Hs, list_lookup_fmap, lookup_zip_with, Hk, Hb. cbn. f_equal. destruct b; cbn; ring.
Qed.

Lemma Forall_zip_with_of {A B C} (P : C → Prop) (f : A → B → C) l k : Forall2 (λ a b, P (f a b)) l k → Forall P (zip_with f l k).
Proof. induction 1; constructor; done. Qed.

Lemma rsum_mean_bounds (l : list R) lo hi : l ≠ [] → Forall (λ x, lo <= x <= hi) l → lo <= rsum l / INR (length l) <= hi.
Proof.
  intros Hne H. assert (Hp : 0 < INR (length l)). { apply lt_0_INR. destruct l; [done|cbn; lia]. }
  assert (Hs : lo * INR (length l) <= rsum l <= hi * INR (length l)).
  { clear Hne Hp. induction H as [|x l Hx H IH]; [cbn; lra|]. rewrite INR_cons, rsum_cons. lra. }
  split; apply (Rmult_le_reg_r (INR (length l))); try done; unfold Rdiv; rewrite Rmult_assoc, Rinv_l by lra; lra.
Qed.

(** Accepted drafts never outnumber the drafts: the rate is in [0, 1] and the accepted length is at
    most one more than the drafts of a verification step. *)
Lemma spec_decode_bounds ds acs vs rate len n :
  compute_spec_decode_metrics (Some ds) (Some acs) (Some vs) None = Ok (Some (rate, len)) →
  Forall2 (λ a d, 0 <= a <= d)%Z acs ds → Forall2 (λ a v, 0 <= a <= n * v)%Z acs vs → (0 <= n)%Z →
  0 <= rate <= 1 ∧ 0 <= len <= 1 + IZR n.
Proof.
  intros H H1 H2 Hn. unfold compute_spec_decode_metrics in H. cbn [keep_by mbind result_bind] in H. assert (Hne : ds ≠ []) by (by destruct ds).
  replace (match ds with [] => Ok None | _ :: _ => _ end) with
    (rates ← per_sample accept_rate acs ds; lens ← per_sample accept_length acs vs;
     Ok (Some (rsum rates / INR (length ds), rsum lens / INR (length ds)))) in H by (by destruct ds).
  do 2 inv_ok H. injection H as <- <-. unfold per_sample in *. inv_oks Hv. inv_oks Hv0. subst v v0.
  pose proof (Forall2_length _ _ _ H1) as L1. pose proof (Forall2_length _ _ _ H2) as L2. split.
  - replace (length ds) with (length (zip_with accept_rate acs ds)) by (rewrite length_zip_with, L1; lia).
    apply rsum_mean_bounds; [by destruct acs, ds|]. apply Forall_zip_with_of. eapply Forall2_impl; [exact H1|]. intros a d [Ha Hd].
    unfold accept_rate. destruct (Z.ltb_spec 0 d) as [Hp|]; [|lra]. apply IZR_lt in Hp. apply IZR_le in Ha, Hd.
    split; [by apply Rdiv_nonneg|]. apply (Rmult_le_reg_r (IZR d)); [done|]. unfold Rdiv. rewrite Rmult_assoc, Rinv_l by lra. lra.
  - replace (length ds) with (length (zip_with accept_length acs vs)) by (rewrite length_zip_with, L1, <-L2, L1; lia).
    apply IZR_le in Hn. apply rsum_mean_bounds; [by destruct acs, vs, ds|]. apply Forall_zip_with_of. eapply Forall2_impl; [exact H2|]. intros a d [Ha Hd].
    unfold accept_length. destruct (Z.ltb_spec 0 d) as [Hp|]; [|lra]. apply IZR_lt in Hp. apply IZR_le in Ha, Hd. rewrite mult_IZR in Hd.
    assert (0 <= IZR a / IZR d) by (by apply Rdiv_nonneg). split; [lra|].
    assert (IZR a / IZR d <= IZR n); [|lra]. apply (Rmult_le_reg_r (IZR d)); [done|]. unfold Rdiv. rewrite Rmult_assoc, Rinv_l by lra. lra.
Qed.
