(* ===== verification/Upsample.v ===== *)
(** * Filling a batch up and balancing it

    [src/verl/trainer/ppo/padding_utils.py], and [_get_required_batch_multiple] and [_balance_batch]
    of [src/verl/trainer/ppo/v1/trainer_base.py].  A partition of the transfer queue maps keys to
    samples; a batch is the keys and tags of the samples to train on.  A tensor is its shape and its
    entries. *)

From S2P Require Import Prelude PyDict Json SeqlenBalancing Balance GroupBy Rlsd TeacherBatch TorchFunctional Groupwise Advantages StepAdvantage.
From Stdlib Require Import Reals QArith.
From stdpp Require Import pretty.
Local Close Scope Q_scope.
Local Close Scope R_scope.
Local Open Scope py_scope.

(** ** Samples *)

Inductive field :=
  | IntTensor (shape : list nat) (entries : list Z)
  | FloatTensor (shape : list nat) (entries : list Q)
  | Object (v : json).
Abbreviation sample := (list (string * field)).
Abbreviation tag := (list (string * json)).
Abbreviation store := (list (string * sample)).
Record KVBatchMeta := { bm_keys : list string; bm_tags : list tag }.

Definition product (shape : list nat) : nat := foldr Nat.mul 1 shape.

(** [compute_position_id_with_mask] of a mask of two ones. *)
Definition two_positions : list Z := [0; 1]%Z.

(** A source with leading dimensions gets the positions for each of them. *)
Definition build_padding_position_ids (source : option field) : field :=
  match source with
  | Some (IntTensor shape _) | Some (FloatTensor shape _) =>
      if Nat.leb (length shape) 1 then IntTensor [2] two_positions
      else let prefix := removelast shape in
           IntTensor (prefix ++ [2]) (concat (replicate (product prefix) two_positions))
  | _ => IntTensor [2] two_positions
  end.

Definition build_padding_routed_experts (source : option field) (seq_len : nat) : option field :=
  match source with
  | Some (IntTensor [] _) => Some (IntTensor [] [0%Z])
  | Some (IntTensor (_ :: shape) _) => Some (IntTensor (seq_len :: shape) (replicate (product (seq_len :: shape)) 0%Z))
  | Some (FloatTensor [] _) => Some (FloatTensor [] [0%Q])
  | Some (FloatTensor (_ :: shape) _) => Some (FloatTensor (seq_len :: shape) (replicate (product (seq_len :: shape)) 0%Q))
  | _ => None
  end.

(** [dict.update]. *)
Definition update {V} (d : list (string * V)) (kvs : list (string * V)) : list (string * V) := foldl (λ d kv, dset kv.1 kv.2 d) d kvs.

Definition construct_minimal_padding_template (source : sample) (source_tag : tag) (eos_token_id : Z) : sample * tag :=
  let position_ids := build_padding_position_ids (dget "position_ids" source) in
  let routed_experts := build_padding_routed_experts (dget "routed_experts" source) 2 in
  let s := update source
    [("prompts", IntTensor [1] [eos_token_id]); ("responses", IntTensor [1] [eos_token_id]);
     ("input_ids", IntTensor [2] [eos_token_id; eos_token_id]); ("attention_mask", IntTensor [2] [1; 1]%Z);
     ("position_ids", position_ids); ("num_turns", Object (JInt 0)); ("response_mask", IntTensor [1] [0%Z]);
     ("loss_mask", IntTensor [1] [0%Z]); ("rm_scores", FloatTensor [1] [0%Q]); ("rollout_log_probs", FloatTensor [1] [0%Q])]%string in
  let s := if dmem "multi_modal_inputs" s then dset "multi_modal_inputs" (Object (JObj [])) s else s in
  let s := match routed_experts with Some e => dset "routed_experts" e s | None => ddel "routed_experts" s end in
  let t := update source_tag
    [("is_padding", JBool true); ("prompt_len", JInt 1); ("response_len", JInt 1); ("seq_len", JInt 2)]%string in
  (s, t).

Definition padding_key (pad_uid : string) (local_idx : nat) : string := pad_uid +:+ "_" +:+ pretty (N.of_nat local_idx) +:+ "_0".
Definition padding_sample (template : sample) (local_idx : nat) : sample :=
  if dmem "session_id" template then dset "session_id" (Object (JInt (Z.of_nat local_idx))) template else template.

(** The new store and batch; [hex]: the digits of the fresh uuid. *)
Definition upsample_batch_to_divisible_size (hex : string) (st : store) (batch : KVBatchMeta) (batch_multiple : nat) (eos_token_id : Z) :
    result (store * KVBatchMeta) :=
  require negb (Nat.eqb batch_multiple 0) else ZeroDivisionError "integer modulo by zero" ;;
  let remainder := length (bm_keys batch) mod batch_multiple in
  if Nat.eqb remainder 0 then Ok (st, batch)
  else
    source_key ← of_option (IndexError "list index out of range") (bm_keys batch !! 0);
    source ← ditem source_key st;
    source_tag ← of_option (IndexError "list index out of range") (bm_tags batch !! 0);
    let '(template, template_tag) := construct_minimal_padding_template source source_tag eos_token_id in
    let pad_uid := "pad" +:+ hex in
    let template := dset "uid" (Object (JStr pad_uid)) template in
    let pad_size := batch_multiple - remainder in
    let pad_keys := padding_key pad_uid <$> seq 0 pad_size in
    let pad_fields := padding_sample template <$> seq 0 pad_size in
    Ok (update st (zip pad_keys pad_fields),
        {| bm_keys := bm_keys batch ++ pad_keys; bm_tags := bm_tags batch ++ replicate pad_size template_tag |}).

(** ** The multiple and the balancing *)

Record train_config := {
  use_critic : bool; critic_ppo_mini_batch_size : nat; critic_warmup : Z; actor_ppo_mini_batch_size : nat; rollout_n : nat }.

Definition get_required_batch_multiple (c : train_config) (global_steps : Z) (dp_size : nat) : nat :=
  let required := dp_size in
  let required := if use_critic c then Nat.lcm required (critic_ppo_mini_batch_size c * rollout_n c) else required in
  if (critic_warmup c <=? global_steps)%Z then Nat.lcm required (actor_ppo_mini_batch_size c * rollout_n c) else required.

Definition tag_seq_len (t : tag) : result Z :=
  v ← ditem "seq_len" t;
  match v with JInt z => Ok z | _ => Raise (TypeError "an integer is required") end.

Definition reorder_meta (order : list nat) (b : KVBatchMeta) : KVBatchMeta :=
  {| bm_keys := omap (λ i, bm_keys b !! i) order; bm_tags := omap (λ i, bm_tags b !! i) order |}.

Definition balance_meta (c : train_config) (global_steps : Z) (dp_size : nat) (eos_token_id : Z) (hex : string) (st : store) (batch : KVBatchMeta) :
    result (store * KVBatchMeta * unbalance_metrics) :=
  let batch_multiple := get_required_batch_multiple c global_steps dp_size in
  '(st, batch) ← upsample_batch_to_divisible_size hex st batch batch_multiple eos_token_id;
  seqlens ← mapM tag_seq_len (bm_tags batch);
  partitions ← get_seqlen_balanced_partitions (calculate_workload <$> seqlens) dp_size true;
  stats ← log_seqlen_unbalance seqlens partitions;
  Ok (st, reorder_meta (concat partitions) batch, stats).

(** ** The multiple *)

Lemma required_multiple_divides c g dp :
  (dp | get_required_batch_multiple c g dp) ∧
  (use_critic c = true → (critic_ppo_mini_batch_size c * rollout_n c | get_required_batch_multiple c g dp)) ∧
  ((critic_warmup c <=? g)%Z = true → (actor_ppo_mini_batch_size c * rollout_n c | get_required_batch_multiple c g dp)) ∧
  ∀ m, (dp | m) → (use_critic c = true → (critic_ppo_mini_batch_size c * rollout_n c | m)) →
    ((critic_warmup c <=? g)%Z = true → (actor_ppo_mini_batch_size c * rollout_n c | m)) →
    (get_required_batch_multiple c g dp | m).
Proof.
  unfold get_required_batch_multiple. destruct (use_critic c), (critic_warmup c <=? g)%Z; split_and!; intros; try done;
    repeat match goal with H : true = true → _ |- _ => specialize (H eq_refl) end;
    try apply Nat.divide_refl; try apply Nat.divide_lcm_r; try apply Nat.divide_lcm_l;
    try (etransitivity; [|apply Nat.divide_lcm_l]; try apply Nat.divide_lcm_r; apply Nat.divide_lcm_l);
    repeat apply Nat.lcm_least; done.
Qed.

(** ** The padding *)

Lemma dget_update_fresh {V} k (kvs d : list (string * V)) : k ∉ kvs.*1 → dget k (update d kvs) = dget k d.
Proof.
  revert d. unfold update. induction kvs as [|[k' v] kvs IH]; intros d Hk; [done|]. cbn in Hk |- *. apply not_elem_of_cons in Hk as [Hk Hks].
  rewrite IH by done. rewrite dget_dset. by rewrite bool_decide_eq_false_2.
Qed.

Lemma dget_update_in {V} k v (kvs d : list (string * V)) : NoDup kvs.*1 → (k, v) ∈ kvs → dget k (update d kvs) = Some v.
Proof.
  revert d. induction kvs as [|[k' v'] kvs IH]; intros d Hn Hin; [by apply elem_of_nil in Hin|]. cbn in Hn. apply NoDup_cons in Hn as [Hk Hn].
  apply elem_of_cons in Hin as [[= <- <-]|Hin]; [|by apply IH].
  change (dget k (update (dset k v d) kvs) = Some v). rewrite dget_update_fresh by done. by rewrite dget_dset, bool_decide_eq_true_2.
Qed.

(** A sample whose tokens are trained nowhere and that carries no reward. *)
Definition inert (s : sample) : Prop :=
  dget "response_mask" s = Some (IntTensor [1] [0%Z]) ∧ dget "loss_mask" s = Some (IntTensor [1] [0%Z]) ∧
  dget "rm_scores" s = Some (FloatTensor [1] [0%Q]).

Lemma dget_dset_ne {V} k k' (v : V) d : k ≠ k' → dget k' (dset k v d) = dget k' d.
Proof. intros H. rewrite dget_dset. by rewrite bool_decide_eq_false_2. Qed.

Lemma template_inert source t eos hex i :
  let s := padding_sample (dset "uid" (Object (JStr hex)) (construct_minimal_padding_template source t eos).1) i in
  inert s ∧ dget "uid" s = Some (Object (JStr hex)).
Proof.
  intros s. assert (Hkey : ∀ k v, k ∈ ["response_mask"; "loss_mask"; "rm_scores"]%string →
    dget k (update source
    [("prompts", IntTensor [1] [eos]); ("responses", IntTensor [1] [eos]);
     ("input_ids", IntTensor [2] [eos; eos]); ("attention_mask", IntTensor [2] [1; 1]%Z);
     ("position_ids", build_padding_position_ids (dget "position_ids" source)); ("num_turns", Object (JInt 0)); ("response_mask", IntTensor [1] [0%Z]);
     ("loss_mask", IntTensor [1] [0%Z]); ("rm_scores", FloatTensor [1] [0%Q]); ("rollout_log_probs", FloatTensor [1] [0%Q])]%string) = v →
    dget k s = v).
  { intros k v Hk <-. unfold s, padding_sample, construct_minimal_padding_template. cbn [fst].
    match goal with |- context [update source ?l] => generalize (update source l) end. intros d.
    assert (Hne : "session_id"%string ≠ k ∧ "uid"%string ≠ k ∧ "routed_experts"%string ≠ k ∧ "multi_modal_inputs"%string ≠ k).
    { rewrite !elem_of_cons, elem_of_nil in Hk. destruct Hk as [->|[->|[->|[]]]]; done. }
    destruct Hne as (N1 & N2 & N3 & N4).
    destruct (dmem "session_id" _); rewrite ?(dget_dset_ne "session_id"), ?(dget_dset_ne "uid") by done;
      destruct (build_padding_routed_experts _ _); rewrite ?(dget_dset_ne "routed_experts"), ?dget_ddel, ?bool_decide_eq_false_2 by done;
      destruct (dmem "multi_modal_inputs" d); rewrite ?(dget_dset_ne "multi_modal_inputs") by done; done. }
  split; [split_and!; apply Hkey; try set_solver; apply dget_update_in; try (repeat constructor; set_solver); set_solver|].
  unfold s, padding_sample. destruct (dmem "session_id" _); rewrite ?(dget_dset_ne "session_id") by done;
    rewrite dget_dset; by rewrite bool_decide_eq_true_2.
Qed.

Lemma padding_key_inj pad i j : padding_key pad i = padding_key pad j → i = j.
Proof.
  unfold padding_key. intros H. change "_0"%string with ("_" +:+ pretty 0%N)%string in H.
  assert (E : trajectory_key (pad, N.of_nat i, 0%N) = trajectory_key (pad, N.of_nat j, 0%N)) by exact H.
  apply (f_equal parse_key) in E. rewrite !parse_trajectory_key in E. injection E as E. 
  apply (session_of_inj (pad, N.of_nat i, 0%N) (pad, N.of_nat j, 0%N)) in E. injection E as E. lia.
Qed.

Lemma padding_keys_nodup pad n : NoDup (padding_key pad <$> seq 0 n).
Proof. apply NoDup_fmap_2_strong; [|apply NoDup_seq]. intros i j _ _. apply padding_key_inj. Qed.

(** What upsampling returns when it has work to do. *)
Lemma upsample_spec hex st b m eos :
  m ≠ 0 → length (bm_tags b) = length (bm_keys b) → Forall (λ k, k ∈ keys st) (bm_keys b) →
  ∃ st' ptag n, let pads := padding_key ("pad" +:+ hex) <$> seq 0 n in
    n < m ∧ (m | length (bm_keys b) + n) ∧ tag_seq_len ptag = Ok 2%Z ∧ dget "is_padding" ptag = Some (JBool true) ∧
    upsample_batch_to_divisible_size hex st b m eos =
      Ok (st', {| bm_keys := bm_keys b ++ pads; bm_tags := bm_tags b ++ replicate n ptag |}) ∧
    (∀ k, k ∉ pads → dget k st' = dget k st) ∧
    ∀ k, k ∈ pads → ∃ s, dget k st' = Some s ∧ inert s ∧ dget "uid" s = Some (Object (JStr ("pad" +:+ hex))).
Proof.
  intros Hm Hl Hst. unfold upsample_batch_to_divisible_size. destruct (Nat.eqb_spec m 0); [lia|]. cbn [negb].
  destruct (Nat.eqb_spec (length (bm_keys b) mod m) 0) as [E|E].
  - exists st, (construct_minimal_padding_template [] [] 0).2, 0. cbn [seq fmap list_fmap replicate]. rewrite !app_nil_r. split_and!; try done.
    + lia.
    + rewrite Nat.add_0_r. by apply Nat.Lcm0.mod_divide.
    + by destruct b.
    + intros k Hk. by apply elem_of_nil in Hk.
  - destruct (bm_keys b) as [|k0 ks] eqn:Ek; [by rewrite Nat.Div0.mod_0_l in E|]. cbn [lookup list_lookup of_option mbind result_bind].
    apply Forall_cons in Hst as [Hk0 _]. apply dmem_keys, dmem_spec in Hk0 as [src Hsrc]. unfold ditem. rewrite Hsrc. cbn [of_option mbind result_bind].
    destruct (bm_tags b) as [|t0 tgs] eqn:Et; [done|]. cbn [lookup list_lookup of_option mbind result_bind].
    destruct (construct_minimal_padding_template src t0 eos) as [tmpl ptag] eqn:Ec.
    set (pad := ("pad" +:+ hex)%string). set (np := m - length (k0 :: ks) mod m).
    assert (Hmod : length (k0 :: ks) mod m < m) by (by apply Nat.mod_upper_bound).
    eexists _, ptag, np. split_and!; [unfold np; lia| | | |done| |].
    + unfold np. pose proof (Nat.div_mod_eq (length (k0 :: ks)) m) as Hd. exists (length (k0 :: ks) / m + 1). nia.
    + apply (f_equal snd) in Ec. cbn in Ec. subst ptag. unfold tag_seq_len, ditem. rewrite !dget_dset. done.
    + apply (f_equal snd) in Ec. cbn in Ec. subst ptag. rewrite !dget_dset. done.
    + intros k Hk. apply dget_update_fresh. rewrite fst_zip; [done|by rewrite !length_fmap].
    + intros k Hk. apply list_elem_of_fmap in Hk as (i & -> & Hi).
      exists (padding_sample (dset "uid" (Object (JStr pad)) tmpl) i).
      split; [|pose proof (template_inert src t0 eos pad i) as H; by rewrite Ec in H].
      apply dget_update_in; [rewrite fst_zip by (by rewrite !length_fmap); apply padding_keys_nodup|].
      apply list_elem_of_lookup in Hi as [p Hp]. apply list_elem_of_lookup. exists p. apply lookup_zip_Some. by rewrite !list_lookup_fmap, Hp.
Qed.

Lemma zip_reordered {A B} (l : list A) (k : list B) order :
  length l = length k → Forall (λ i, i < length l) order →
  zip (omap (λ i, l !! i) order) (omap (λ i, k !! i) order) = omap (λ i, zip l k !! i) order.
Proof.
  intros Hl H. induction H as [|i order Hi H IH]; [done|]. cbn.
  destruct (lookup_lt_is_Some_2 l i Hi) as [x Ex]. destruct (lookup_lt_is_Some_2 k i ltac:(lia)) as [y Ey].
  assert (Ez : zip l k !! i = Some (x, y)) by (by apply lookup_zip_Some). rewrite Ex, Ey, Ez. cbn. by rewrite IH.
Qed.

Lemma reordered_perm {A} (l : list A) order : order ≡ₚ seq 0 (length l) → omap (λ i, l !! i) order ≡ₚ l.
Proof.
  intros H. rewrite H. clear H. cut (omap (λ i, l !! i) (seq 0 (length l)) = l); [by intros ->|]. induction l as [|x l IH] using rev_ind; [done|].
  rewrite length_app. cbn [length]. rewrite Nat.add_1_r, seq_S, omap_app. cbn [omap list_omap plus].
  rewrite lookup_app_r, Nat.sub_diag by lia. cbn. f_equal. rewrite <-IH at 2. apply list_omap_ext, Forall_Forall2_diag, Forall_forall.
  intros i Hi. apply elem_of_seq in Hi. by rewrite lookup_app_l by lia.
Qed.

(** C27: a batch of any size is filled up and reordered so that every rank gets the same number of
    samples and the mini-batches of critic and actor divide it: no sample is lost or repeated, the
    padding is less than the required multiple (the least one that all of them divide), its
    samples are trained nowhere, carry no reward and have an uid of their own, and the samples of
    the batch are unchanged in the store. *)
Theorem balanced_batch_fits (c : train_config) (g : Z) (dp_size : nat) eos hex (st : store) (b : KVBatchMeta) lens :
  let m := get_required_batch_multiple c g dp_size in
  m ≠ 0 → dp_size ≠ 0 → bm_keys b ≠ [] → length (bm_tags b) = length (bm_keys b) →
  mapM tag_seq_len (bm_tags b) = Ok lens → Forall (λ z, 0 ≤ z)%Z lens →
  Forall (λ k, k ∈ keys st) (bm_keys b) → (∀ i, padding_key ("pad" +:+ hex) i ∉ bm_keys b) →
  ∃ st' b' stats ptag n, let pads := padding_key ("pad" +:+ hex) <$> seq 0 n in
    balance_meta c g dp_size eos hex st b = Ok (st', b', stats) ∧
    zip (bm_keys b') (bm_tags b') ≡ₚ zip (bm_keys b) (bm_tags b) ++ ((λ k, (k, ptag)) <$> pads) ∧
    length (bm_keys b') = length (bm_keys b) + n ∧ n < m ∧ dget "is_padding" ptag = Some (JBool true) ∧
    (dp_size | length (bm_keys b')) ∧
    (use_critic c = true → (critic_ppo_mini_batch_size c * rollout_n c | length (bm_keys b'))) ∧
    ((critic_warmup c <=? g)%Z = true → (actor_ppo_mini_batch_size c * rollout_n c | length (bm_keys b'))) ∧
    (∀ k, k ∈ bm_keys b → dget k st' = dget k st) ∧
    ∀ k, k ∈ pads → ∃ s, dget k st' = Some s ∧ inert s ∧ dget "uid" s = Some (Object (JStr ("pad" +:+ hex))).
Proof.
  intros m Hm Hdp Hne Hl Hlens Hpos Hst Hfresh.
  destruct (upsample_spec hex st b m eos Hm Hl Hst) as (st' & ptag & n & Hn & Hdiv & Htag & Hflag & Hup & Hold & Hnew).
  destruct (required_multiple_divides c g dp_size) as (D1 & D2 & D3 & _). fold m in D1, D2, D3.
  set (pads := padding_key ("pad" +:+ hex) <$> seq 0 n) in *.
  assert (Lp : length pads = n) by (unfold pads; by rewrite length_fmap, length_seq).
  set (N := length (bm_keys b) + n) in *.
  assert (HN : dp_size ≤ N). { apply Nat.divide_pos_le; [unfold N; destruct (bm_keys b); [done|cbn; lia]|]. by transitivity m. }
  assert (Hlens' : mapM tag_seq_len (bm_tags b ++ replicate n ptag) = Ok (lens ++ replicate n 2%Z)).
  { apply mapM_Ok_Forall2. apply Forall2_app; [by apply mapM_Ok_Forall2|]. apply Forall2_replicate. done. }
  set (ls := lens ++ replicate n 2%Z) in *.
  assert (Lls : length ls = N). { unfold ls. rewrite length_app, length_replicate. apply mapM_Ok_length in Hlens. lia. }
  destruct (get_seqlen_balanced_partitions_ok (calculate_workload <$> ls) dp_size true) as (parts & Hparts & Hlp & Hperm & _).
  { rewrite length_fmap, Lls. lia. }
  { apply Forall_fmap, Forall_app. unfold compose, calculate_workload. split; [|apply Forall_replicate; lia].
    eapply Forall_impl; [exact Hpos|]. cbn. intros z Hz. rewrite Z.pow_2_r. nia. }
  { intros _. rewrite length_fmap, Lls. apply Nat.Lcm0.mod_divide. by transitivity m. }
  rewrite length_fmap, Lls in Hperm.
  destruct (log_seqlen_unbalance ls parts) as [stats|e] eqn:Hlog.
  2: { exfalso. assert (H : is_ok (log_seqlen_unbalance ls parts) = true); [|by rewrite Hlog in H].
       apply unbalance_logged; [by intros ->|lia|]. rewrite Hperm, Lls. apply Forall_seq. lia. }
  set (up := {| bm_keys := bm_keys b ++ pads; bm_tags := bm_tags b ++ replicate n ptag |}) in *.
  assert (Lk : length (bm_keys up) = N) by (cbn; rewrite length_app, Lp; done).
  assert (Lt : length (bm_tags up) = N) by (cbn; rewrite length_app, length_replicate; lia).
  exists st', (reorder_meta (concat parts) up), stats, ptag, n. cbv zeta. fold pads.
  assert (Hkeys : bm_keys (reorder_meta (concat parts) up) ≡ₚ bm_keys up) by (apply reordered_perm; by rewrite Lk).
  assert (Hlen : length (bm_keys (reorder_meta (concat parts) up)) = N) by (by rewrite Hkeys).
  split_and!.
  - unfold balance_meta. fold m. rewrite Hup. cbn [mbind result_bind]. change (bm_tags up) with (bm_tags b ++ replicate n ptag). rewrite Hlens'. cbn [mbind result_bind].
    rewrite Hparts. cbn [mbind result_bind]. by rewrite Hlog.
  - unfold reorder_meta. cbn [bm_keys bm_tags]. rewrite zip_reordered; [|by rewrite Lk, Lt|rewrite Hperm, Lk; apply Forall_seq; lia].
    rewrite reordered_perm by (rewrite length_zip_with, Lk, Lt, Hperm; by rewrite Nat.min_id).
    cbn [bm_keys bm_tags up]. rewrite zip_with_app by done. apply Permutation_app_head. clear -Lp. rewrite <-Lp. clear.
    induction pads as [|k ks IH]; [done|]. cbn. by apply perm_skip.
  - exact Hlen.
  - done.
  - done.
  - rewrite Hlen. by transitivity m.
  - intros H. rewrite Hlen. transitivity m; [by apply D2|done].
  - intros H. rewrite Hlen. transitivity m; [by apply D3|done].
  - intros k Hk. apply Hold. unfold pads. intros Hp. apply list_elem_of_fmap in Hp as (i & -> & _). by apply (Hfresh i).
  - exact Hnew.
Qed.

Definition sample_tag (n : Z) : tag := [("seq_len", JInt n)]%string.
Definition sample_store : store := [("a_0_0", []); ("a_1_0", []); ("b_0_0", [])]%string.
Definition sample_batch : KVBatchMeta := {| bm_keys := ["a_0_0"; "a_1_0"; "b_0_0"]%string; bm_tags := [sample_tag 7; sample_tag 5; sample_tag 9] |}.
Definition sample_config : train_config :=
  {| use_critic := false; critic_ppo_mini_batch_size := 1; critic_warmup := 0; actor_ppo_mini_batch_size := 2; rollout_n := 2 |}.

Lemma balanced_batch_fits_witness :
  ∃ st' b' stats ptag n,
    balance_meta sample_config 1 2 0 "f" sample_store sample_batch = Ok (st', b', stats) ∧
    zip (bm_keys b') (bm_tags b') ≡ₚ zip (bm_keys sample_batch) (bm_tags sample_batch) ++ ((λ k, (k, ptag)) <$> (padding_key "padf" <$> seq 0 n)) ∧
    (2 | length (bm_keys b')) ∧ (4 | length (bm_keys b')).
Proof.
  destruct (balanced_batch_fits sample_config 1 2 0 "f" sample_store sample_batch [7; 5; 9]%Z)
    as (st' & b' & stats & ptag & n & H1 & H2 & _ & _ & _ & H3 & _ & H4 & _); try done.
  - repeat constructor; lia.
  - repeat constructor; cbn; set_solver.
  - intros i. unfold padding_key, sample_batch. cbn [bm_keys]. rewrite !elem_of_cons, elem_of_nil. by intros [[=]|[[=]|[[=]|[]]]].
  - exists st', b', stats, ptag, n. split_and!; [done|exact H2|done|by apply H4].
Defined.

(** ** Padding and order do not change advantages *)

Section neutral.
Local Open Scope R_scope.

Record advantage_row := { a_key : string * N * N; a_rewards : list R; a_mask : list bool; a_uid : string }.
Definition has_rows (d : step_batch) (rows : list advantage_row) : Prop :=
  token_level_rewards d = Some (a_rewards <$> rows) ∧ s_response_mask d = Some (a_mask <$> rows) ∧ uid d = Some (a_uid <$> rows).

(** The rows that are the last of their session. *)
Definition final_rows (rows : list advantage_row) : list advantage_row := omap (λ i, rows !! i) (finals (a_key <$> rows)).
Definition is_final (rows : list advantage_row) (x : advantage_row) : Prop :=
  x ∈ rows ∧ ∀ y, y ∈ rows → (a_key y).1 = (a_key x).1 → ((a_key y).2 <= (a_key x).2)%N.
Definition uid_scores (u : string) (rows : list advantage_row) : list R :=
  (λ x, rsum (a_rewards x)) <$> List.filter (λ x, bool_decide (a_uid x = u)) rows.
Definition row_value (norm : bool) (rows : list advantage_row) (x : advantage_row) : R :=
  let group := uid_scores (a_uid x) (final_rows rows) in
  if has_true (a_mask x) then grpo_scalar FUNCTIONAL_EPSILON norm (rsum (a_rewards x)) (stat_mean group) (stat_std group) else 0.

Lemma final_rows_elem rows x : NoDup (a_key <$> rows) → x ∈ final_rows rows ↔ is_final rows x.
Proof.
  intros Hnd. unfold final_rows. rewrite list_elem_of_omap. split.
  - intros (i & Hi & Hx). apply finals_iff in Hi as (t & Ht & Hmax); [|done]. rewrite list_lookup_fmap, Hx in Ht. injection Ht as <-.
    split; [by eapply list_elem_of_lookup_2|]. intros y Hy E. apply list_elem_of_lookup in Hy as [j Hj].
    apply (Hmax j); [by rewrite list_lookup_fmap, Hj|done].
  - intros [Hx Hmax]. apply list_elem_of_lookup in Hx as [i Hi]. exists i. split; [|done]. apply finals_iff; [done|].
    exists (a_key x). split; [by rewrite list_lookup_fmap, Hi|]. intros j t' Hj E. rewrite list_lookup_fmap in Hj.
    destruct (rows !! j) as [y|] eqn:Ey; [|done]. injection Hj as <-. apply Hmax; [by eapply list_elem_of_lookup_2|done].
Qed.

Lemma final_rows_nodup rows : NoDup (a_key <$> rows) → NoDup (final_rows rows).
Proof.
  intros Hnd. unfold final_rows. pose proof (finals_nodup (a_key <$> rows)) as Hf. induction Hf as [|i l Hi Hf IH]; [constructor|].
  cbn. destruct (rows !! i) as [x|] eqn:Ex; [|done]. constructor; [|done]. intros Hin. apply list_elem_of_omap in Hin as (j & Hj & Hx).
  apply Hi. rewrite (NoDup_lookup (a_key <$> rows) i j (a_key x) Hnd); [done| |]; by rewrite list_lookup_fmap, ?Ex, ?Hx.
Qed.

Lemma members_rows u rows : members u (a_uid <$> rows) ((λ x, rsum (a_rewards x)) <$> rows) = uid_scores u rows.
Proof.
  unfold members, uid_scores. induction rows as [|x rows IH]; [done|]. cbn in IH |- *. case_bool_decide; cbn; by rewrite IH.
Qed.

Lemma finals_in_rows rows i : i ∈ finals (a_key <$> rows) → (i < length rows)%nat.
Proof.
  intros Hi. pose proof (finals_lt (a_key <$> rows)) as H. rewrite Forall_forall in H. specialize (H i Hi). by rewrite length_fmap in H.
Qed.

Lemma session_advantage_row norm rows i x :
  rows !! i = Some x →
  session_advantage norm (a_rewards <$> rows) (a_mask <$> rows) (a_uid <$> rows) (finals (a_key <$> rows)) i = row_value norm rows x.
Proof.
  intros Hi. unfold session_advantage, final_advantage, group_of_final, row_value.
  rewrite !nth_lookup, !list_lookup_fmap, Hi. cbn [from_option fmap option_fmap option_map default].
  assert (E : ∀ {X} (f : advantage_row → X), rows_of_indices (finals (a_key <$> rows)) (f <$> rows) = f <$> final_rows rows).
  { intros X f. unfold rows_of_indices, final_rows. generalize (finals (a_key <$> rows)). intros l. induction l as [|j l IH]; [done|].
    cbn. rewrite list_lookup_fmap. destruct (rows !! j); cbn; by rewrite IH. }
  rewrite !E. unfold row_scores. rewrite <-list_fmap_compose. unfold compose. by rewrite members_rows.
Qed.

(** The advantages of a batch by its rows. *)
Lemma advantages_by_rows registry multinomial d rows gamma lam norm config :
  has_rows d rows → Forall (λ x, a_mask x ≠ []) rows →
  ∃ adv, compute_advantage_for_multi_trajectories registry multinomial d (trajectory_key <$> (a_key <$> rows)) "grpo" gamma lam norm config =
      Ok (set_advantages d adv adv) ∧
    Forall2 (λ x a, ∃ y, y ∈ final_rows rows ∧ (a_key y).1 = (a_key x).1 ∧ a = (λ b, row_value norm rows y * b2r b) <$> a_mask x) rows adv.
Proof.
  intros (Hr & Hm & Hu) Hne.
  destruct (multi_trajectory_scores registry multinomial d (a_key <$> rows) (a_rewards <$> rows) (a_mask <$> rows) (a_uid <$> rows)
    gamma lam norm config Hr Hm Hu) as (scores & Hc & Hsc); rewrite ?length_fmap; try done; [by apply Forall_fmap|].
  exists (spread_mask scores (a_mask <$> rows)). split; [done|]. apply Forall2_fmap_l in Hsc.
  assert (Hrow : ∀ (ls : list advantage_row) ss, Forall2 (λ x s, ∃ f t', f ∈ finals (a_key <$> rows) ∧ (a_key <$> rows) !! f = Some t' ∧ t'.1 = (a_key x).1 ∧
      s = session_advantage norm (a_rewards <$> rows) (a_mask <$> rows) (a_uid <$> rows) (finals (a_key <$> rows)) f) ls ss →
    Forall2 (λ x a, ∃ y, y ∈ final_rows rows ∧ (a_key y).1 = (a_key x).1 ∧ a = (λ b, row_value norm rows y * b2r b) <$> a_mask x) ls (spread_mask ss (a_mask <$> ls))).
  { induction 1 as [|x s ls ss (f & t' & Hf & Ht' & E & ->) _ IH]; [constructor|]. cbn [fmap list_fmap]. constructor; [|exact IH].
    destruct (lookup_lt_is_Some_2 rows f (finals_in_rows rows f Hf)) as [y Hy]. rewrite list_lookup_fmap, Hy in Ht'. injection Ht' as <-.
    exists y. split_and!; [unfold final_rows; apply list_elem_of_omap; by exists f|done|]. by rewrite (session_advantage_row norm rows f y Hy). }
  by apply Hrow.
Qed.

Lemma uid_scores_perm u l k : l ≡ₚ k → uid_scores u l ≡ₚ uid_scores u k.
Proof.
  intros H. unfold uid_scores. apply fmap_Permutation.
  induction H as [|x l k _ IH|x y l|l1 l2 l3 _ IH1 _ IH2]; cbn; [done|case_bool_decide; [by constructor|done]| |by rewrite IH1].
  repeat case_bool_decide; try done. constructor.
Qed.

Lemma stats_perm l k : l ≡ₚ k → stat_mean l = stat_mean k ∧ stat_std l = stat_std k.
Proof.
  intros H. assert (Hm : mean l = mean k) by (unfold mean; by rewrite (rsum_perm l k H), (Permutation_length H)).
  assert (Hs : torch_std l = torch_std k).
  { unfold torch_std. rewrite Hm, (Permutation_length H). by rewrite (rsum_perm _ _ (fmap_Permutation (λ x, (x - mean k) ^ 2) _ _ H)). }
  destruct l as [|x [|y l]], k as [|x' [|y' k]]; try (apply Permutation_length in H; cbn in H; lia); cbn; try done.
Qed.

Lemma filter_perm (f : advantage_row → bool) l k : NoDup l → NoDup k → (∀ x, f x = true → x ∈ l ↔ x ∈ k) → List.filter f l ≡ₚ List.filter f k.
Proof.
  intros Hl Hk H. apply NoDup_Permutation; [by apply NoDup_ListNoDup, List.NoDup_filter, NoDup_ListNoDup..|].
  intros x. rewrite !list_elem_of_In, !filter_In, <-!list_elem_of_In. split; intros [H1 H2]; (split; [by apply (H x H2)|done]).
Qed.

Definition last_of (rows : list advantage_row) (x : advantage_row) : advantage_row :=
  default x (head (List.filter (λ y, bool_decide ((a_key y).1 = (a_key x).1)) (final_rows rows))).

Lemma last_of_unique rows x y :
  NoDup (a_key <$> rows) → is_final rows y → (a_key y).1 = (a_key x).1 → last_of rows x = y.
Proof.
  intros Hnd Hy E. unfold last_of.
  assert (Hin : y ∈ List.filter (λ y, bool_decide ((a_key y).1 = (a_key x).1)) (final_rows rows)).
  { apply list_elem_of_In, filter_In. split; [by apply list_elem_of_In, final_rows_elem|by apply bool_decide_eq_true]. }
  destruct (List.filter _ _) as [|z l] eqn:Ef; [by apply elem_of_nil in Hin|]. cbn.
  assert (Hz : z ∈ List.filter (λ y, bool_decide ((a_key y).1 = (a_key x).1)) (final_rows rows)) by (rewrite Ef; left).
  apply list_elem_of_In, filter_In in Hz as [Hz Ez]. apply list_elem_of_In, final_rows_elem in Hz; [|done]. apply bool_decide_eq_true in Ez.
  destruct Hy as [Hy1 Hy2], Hz as [Hz1 Hz2].
  assert (Ek : a_key z = a_key y).
  { specialize (Hy2 z Hz1 ltac:(congruence)). specialize (Hz2 y Hy1 ltac:(congruence)).
    destruct (a_key z), (a_key y); cbn in *. f_equal; [congruence|lia]. }
  apply list_elem_of_lookup in Hy1 as [i Hi]. apply list_elem_of_lookup in Hz1 as [j Hj].
  assert (i = j) by (apply (NoDup_lookup (a_key <$> rows) i j (a_key y) Hnd); rewrite list_lookup_fmap, ?Hi, ?Hj; cbn; by rewrite ?Ek).
  congruence.
Qed.

Definition row_advantages (norm : bool) (rows : list advantage_row) (x : advantage_row) : list R :=
  (λ b, row_value norm rows (last_of rows x) * b2r b) <$> a_mask x.

Lemma advantages_of_rows registry multinomial d rows gamma lam norm config :
  NoDup (a_key <$> rows) → has_rows d rows → Forall (λ x, a_mask x ≠ []) rows →
  compute_advantage_for_multi_trajectories registry multinomial d (trajectory_key <$> (a_key <$> rows)) "grpo" gamma lam norm config =
  Ok (set_advantages d (row_advantages norm rows <$> rows) (row_advantages norm rows <$> rows)).
Proof.
  intros Hnd Hd Hne. destruct (advantages_by_rows registry multinomial d rows gamma lam norm config Hd Hne) as (adv & -> & H2).
  assert (adv = row_advantages norm rows <$> rows) as ->; [|done].
  assert (Hrow : ∀ ls as_, Forall2 (λ x a, ∃ y, y ∈ final_rows rows ∧ (a_key y).1 = (a_key x).1 ∧ a = (λ b, row_value norm rows y * b2r b) <$> a_mask x) ls as_ →
    as_ = row_advantages norm rows <$> ls).
  { induction 1 as [|x a ls as_ (y & Hy & E & ->) _ ->]; [done|]. cbn. f_equal. unfold row_advantages.
    apply final_rows_elem in Hy; [|done]. by rewrite (last_of_unique rows x y Hnd Hy E). }
  by apply Hrow.
Qed.

Section padded.
Context (norm : bool) (pad_uid : string) (rows pads rows' : list advantage_row).
Context (Hperm : rows' ≡ₚ rows ++ pads) (Hnd : NoDup (a_key <$> rows')).
Context (Hreal : Forall (λ x, (a_key x).1.1 ≠ pad_uid ∧ a_uid x ≠ pad_uid) rows)
        (Hpads : Forall (λ p, (a_key p).1.1 = pad_uid ∧ a_uid p = pad_uid) pads).

Lemma real_nodup : NoDup (a_key <$> rows).
Proof using Hperm Hnd. assert (H : NoDup (a_key <$> (rows ++ pads))) by (by rewrite <-Hperm). rewrite fmap_app in H. by apply NoDup_app in H as (? & _). Qed.

Lemma real_or_pad x : x ∈ rows' ↔ x ∈ rows ∨ x ∈ pads.
Proof using Hperm. by rewrite Hperm, elem_of_app. Qed.

Lemma real_final x : (a_key x).1.1 ≠ pad_uid → is_final rows' x ↔ is_final rows x.
Proof using Hperm Hpads.
  intros Hx. pose proof (proj1 (Forall_forall _ _) Hpads) as HP. unfold is_final. split; intros [H1 H2].
  - apply real_or_pad in H1 as [H1|H1]; [|by destruct (HP x H1)]. split; [done|]. intros y Hy. apply H2, real_or_pad. by left.
  - split; [apply real_or_pad; by left|]. intros y Hy E. apply real_or_pad in Hy as [Hy|Hy]; [by apply H2|].
    destruct (HP y Hy) as [Hk _]. congruence.
Qed.

Lemma real_group u : u ≠ pad_uid → uid_scores u (final_rows rows') ≡ₚ uid_scores u (final_rows rows).
Proof using Hperm Hnd Hreal Hpads.
  intros Hu. pose proof real_nodup as Hnd'. unfold uid_scores. apply fmap_Permutation, filter_perm; [by apply final_rows_nodup..|].
  intros x Hx. apply bool_decide_eq_true in Hx. rewrite !final_rows_elem by done. pose proof (proj1 (Forall_forall _ _) Hpads) as HP. pose proof (proj1 (Forall_forall _ _) Hreal) as HR.
  destruct (decide ((a_key x).1.1 = pad_uid)) as [Hk|Hk]; [|by apply real_final]. split; intros [H1 H2].
  - apply real_or_pad in H1 as [H1|H1]; [by destruct (HR x H1)|]. destruct (HP x H1). congruence.
  - by destruct (HR x H1).
Qed.

Lemma real_value x : a_uid x ≠ pad_uid → row_value norm rows' x = row_value norm rows x.
Proof using Hperm Hnd Hreal Hpads.
  intros Hx. unfold row_value. destruct (stats_perm _ _ (real_group _ Hx)) as [-> ->]. done.
Qed.

Lemma real_last x : x ∈ rows → ∃ y, is_final rows y ∧ (a_key y).1 = (a_key x).1.
Proof using Hperm Hnd.
  intros Hx. apply list_elem_of_lookup in Hx as [i Hi].
  destruct (session_final (a_key <$> rows) i (a_key x)) as (p & z & f & t' & _ & Hp & Ht' & E & _); [by rewrite list_lookup_fmap, Hi|].
  assert (Hf : f ∈ finals (a_key <$> rows)) by (by eapply list_elem_of_lookup_2).
  rewrite list_lookup_fmap in Ht'. destruct (rows !! f) as [y|] eqn:Ey; [|done]. injection Ht' as <-. exists y. split; [|done].
  apply final_rows_elem; [apply real_nodup|]. apply list_elem_of_omap. by exists f.
Qed.

Lemma real_advantages x : x ∈ rows → row_advantages norm rows' x = row_advantages norm rows x.
Proof using Hperm Hnd Hreal Hpads.
  intros Hx. destruct (real_last x Hx) as (y & Hy & E). unfold row_advantages.
  assert (Hr : (a_key y).1.1 ≠ pad_uid ∧ a_uid y ≠ pad_uid) by (apply (proj1 (Forall_forall _ _) Hreal), Hy).
  rewrite (last_of_unique rows x y real_nodup Hy E).
  destruct Hr as [Hr1 Hr2]. rewrite (last_of_unique rows' x y Hnd); [|by apply real_final|done]. by rewrite real_value.
Qed.
End padded.

(** Filling up and reordering a batch does not change its advantages.  Let a batch of distinct
    outputs be extended by rows of a fresh uid without trained tokens and then permuted: GRPO over
    sessions gives every row of the batch the advantages that it has without the extension, and
    zeros to the added rows. *)
Theorem padding_is_neutral registry multinomial (d d' : step_batch) (rows pads rows' : list advantage_row) pad_uid gamma lam norm config :
  has_rows d rows → has_rows d' rows' → rows' ≡ₚ rows ++ pads → NoDup (a_key <$> rows') →
  Forall (λ x, a_mask x ≠ []) rows' →
  Forall (λ x, (a_key x).1.1 ≠ pad_uid ∧ a_uid x ≠ pad_uid) rows →
  Forall (λ p, ((a_key p).1.1 = pad_uid ∧ a_uid p = pad_uid) ∧ Forall (λ b, b = false) (a_mask p)) pads →
  ∃ f : advantage_row → list R,
    compute_advantage_for_multi_trajectories registry multinomial d (trajectory_key <$> (a_key <$> rows)) "grpo" gamma lam norm config =
      Ok (set_advantages d (f <$> rows) (f <$> rows)) ∧
    compute_advantage_for_multi_trajectories registry multinomial d' (trajectory_key <$> (a_key <$> rows')) "grpo" gamma lam norm config =
      Ok (set_advantages d' (f <$> rows') (f <$> rows')) ∧
    ∀ p, p ∈ pads → Forall (λ a, a = 0) (f p).
Proof.
  intros Hd Hd' Hperm Hnd Hne Hreal Hpads. exists (row_advantages norm rows').
  assert (Hpads' : Forall (λ p, (a_key p).1.1 = pad_uid ∧ a_uid p = pad_uid) pads) by (eapply Forall_impl; [exact Hpads|]; cbn; tauto).
  split_and!.
  - rewrite advantages_of_rows; [|by eapply real_nodup|done|rewrite Hperm in Hne; by apply Forall_app in Hne as [? _]].
    assert (E : row_advantages norm rows <$> rows = row_advantages norm rows' <$> rows); [|by rewrite E].
    apply list_fmap_ext. intros i x Hi. symmetry. eapply real_advantages; try done. by eapply list_elem_of_lookup_2.
  - by apply advantages_of_rows.
  - intros p Hp. rewrite Forall_forall in Hpads. destruct (Hpads p Hp) as [_ Hm]. unfold row_advantages. apply Forall_fmap.
    eapply Forall_impl; [exact Hm|]. cbn. intros b ->. cbn. ring.
Qed.
End neutral.

Lemma padding_is_neutral_witness :
  let x := {| a_key := ("a", 0, 0)%N; a_rewards := [1]%R; a_mask := [true]; a_uid := "a" |}%string in
  let y := {| a_key := ("a", 1, 0)%N; a_rewards := [2]%R; a_mask := [true]; a_uid := "a" |}%string in
  let p := {| a_key := ("p", 0, 0)%N; a_rewards := [0]%R; a_mask := [false]; a_uid := "p" |}%string in
  let batch := λ rows, plain_batch (a_rewards <$> rows) (a_mask <$> rows) (a_uid <$> rows) in
  ∃ f, compute_advantage_for_multi_trajectories [] (λ _ _, []) (batch [x; y]) (trajectory_key <$> (a_key <$> [x; y])) "grpo" 1 1 true None =
         Ok (set_advantages (batch [x; y]) [f x; f y] [f x; f y]) ∧
       compute_advantage_for_multi_trajectories [] (λ _ _, []) (batch [y; p; x]) (trajectory_key <$> (a_key <$> [y; p; x])) "grpo" 1 1 true None =
         Ok (set_advantages (batch [y; p; x]) [f y; f p; f x] [f y; f p; f x]).
Proof.
  intros x y p batch.
  destruct (padding_is_neutral [] (λ _ _, []) (batch [x; y]) (batch [y; p; x]) [x; y] [p] [y; p; x] "p" 1 1 true None) as (f & H1 & H2 & _).
  - done.
  - done.
  - change ([y; p; x] ≡ₚ [x; y; p]). etransitivity; [apply (Permutation_cons_append [p; x] y)|]. cbn. etransitivity; [|apply (Permutation_cons_append [x; y] p)].
    cbn. done.
  - cbn. repeat constructor; set_solver.
  - repeat constructor; done.
  - repeat constructor; done.
  - repeat constructor; done.
  - by exists f.
Defined.
