(* ===== verification/AgentLoopBatch.v ===== *)
(** * AgentLoopBatch: rolling out a batch

    Models src/verl/experimental/agent_loop/agent_loop.py from [generate_sequences] on
    (sampling parameters, the agent loop of every row, padding, positions, reward, teacher log
    probabilities, the batch of a worker, the manager that splits and joins batches),
    [AgentLoopOutput.as_dict], and src/verl/experimental/teacher_loop/teacher_manager.py.
    A tensor is the list of its rows along the batch dimension, a row a [cell].  Parameters: what
    a registered agent loop returns, the tokenizer, the multi-modal processor, the teacher
    servers, the reward workers and the clock.  Which rows are traced is left out. *)

From S2P Require Import Prelude PyStr PyDict Json PyRat RolloutRequest DataProto Dispatch RewardManagers RewardLoop.
From Stdlib Require Import QArith.
Local Close Scope Q_scope.
#[local] Open Scope py_scope.

(** ** Data *)

(** A row of a batch tensor. *)
Inductive cell := Ints (l : list Z) | Mat (l : list (list Z)) | Floats (l : list Q) | FloatMat (l : list (list Q)).
(** The dimensions of a row. *)
Definition shape (c : cell) : list nat :=
  let width {A} (l : list (list A)) := length (default [] (head l)) in
  match c with
  | Ints l => [length l] | Floats l => [length l]
  | Mat l => [length l; width l] | FloatMat l => [length l; width l]
  end.

(** A leaf of the meta information. *)
Inductive mval := MNum (q : Q) | MStr (s : string).
#[export] Instance Q_eq_dec : EqDecision Q.
Proof. solve_decision. Defined.
#[export] Instance mval_eq_dec : EqDecision mval.
Proof. solve_decision. Defined.

Record AgentLoopMetrics := { generate_sequences_time : Q; tool_calls_time : Q; compute_score_time : Q; num_preempted : Z }.

(** [reward_score] is [JNull] for [None]. *)
Record AgentLoopOutput := {
  o_prompt_ids : list Z; o_response_ids : list Z; o_response_mask : list Z; o_response_logprobs : option (list Q);
  o_routed_experts : option (list (list Z)); o_multi_modal_data : dict; o_reward_score : json; o_num_turns : Z;
  o_metrics : AgentLoopMetrics; o_extra_fields : dict; o_mm_processor_kwargs : option dict }.

Definition with_score (score : json) (info : dict) (time : option Q) (o : AgentLoopOutput) : AgentLoopOutput :=
  let m := o_metrics o in
  {| o_prompt_ids := o_prompt_ids o; o_response_ids := o_response_ids o; o_response_mask := o_response_mask o;
     o_response_logprobs := o_response_logprobs o; o_routed_experts := o_routed_experts o;
     o_multi_modal_data := o_multi_modal_data o; o_reward_score := score; o_num_turns := o_num_turns o;
     o_metrics := match time with
                  | Some t => {| generate_sequences_time := generate_sequences_time m; tool_calls_time := tool_calls_time m;
                                 compute_score_time := t; num_preempted := num_preempted m |}
                  | None => m
                  end;
     o_extra_fields := set "reward_extra_info" (JObj info) (o_extra_fields o);
     o_mm_processor_kwargs := o_mm_processor_kwargs o |}.
Definition with_extra (extra : dict) (o : AgentLoopOutput) : AgentLoopOutput :=
  {| o_prompt_ids := o_prompt_ids o; o_response_ids := o_response_ids o; o_response_mask := o_response_mask o;
     o_response_logprobs := o_response_logprobs o; o_routed_experts := o_routed_experts o;
     o_multi_modal_data := o_multi_modal_data o; o_reward_score := o_reward_score o; o_num_turns := o_num_turns o;
     o_metrics := o_metrics o; o_extra_fields := extra; o_mm_processor_kwargs := o_mm_processor_kwargs o |}.

(** The padded output of a row. *)
Record internal_output := {
  i_prompt_ids : list Z; i_response_ids : list Z; i_input_ids : list Z; i_position_ids : cell; i_response_mask : list Z;
  i_attention_mask : list Z; i_response_logprobs : option (list Q); i_routed_experts : option (list (list Z));
  i_multi_modal_inputs : dict; i_teacher : option (list (list Z) * list (list Q)); i_reward_score : json;
  i_num_turns : Z; i_metrics : AgentLoopMetrics; i_extra_fields : dict }.

Record sampling_params := { temperature : Q; top_p : Q; top_k : Z; repetition_penalty : Q; logprobs : bool }.

(** ** Parameters *)

Inductive side := Front | Back.

(** The tokenizer: [tokenizer.pad] to a maximal length gives token ids and attention mask. *)
Class tokenizer := {
  pad_token_id : option Z;
  tokenizer_pad : side → nat → list Z → result (list Z * list Z);
  tokenizer_decode : list Z → string }.

(** A multi-modal processor: its call on keyword arguments, the position function bound to it,
    its special tokens and the sampling rate of its feature extractor. *)
Record processor := {
  processor_call : dict → dict;
  get_rope_index : option (list Z → list Z → json → json → option (list Z) → list (list Z));
  image_token_id : option Z; video_token_id : option Z; sampling_rate : option Z }.

Record rollout_config := {
  prompt_length : nat; response_length : nat; c_temperature : Q; c_top_p : Q; c_top_k : Z; calculate_log_probs : bool;
  val_temperature : Q; val_top_p : Q; val_top_k : Z; default_agent_loop : string }.

(** ** The teacher *)

Section teacher.
Context {client : Type}.
Record teacher_manager := {
  teacher_models : list (string * Q);   (* routing key, sampling temperature *)
  teacher_topk : option nat;            (* [topk] when the loss uses it *)
  teacher_clients : list (string * client) }.

(** [AsyncTeacherLLMServerManager.__init__]. *)
Definition init_teacher (models : list (string * Q)) (topk : option nat) (clients : list (string * client)) : result teacher_manager :=
  require bool_decide (keys clients ⊆ keys models) && bool_decide (keys models ⊆ keys clients)
    else ValueError "teacher client keys do not match teacher routing keys" ;;
  Ok {| teacher_models := models; teacher_topk := topk; teacher_clients := clients |}.

Definition resolve_teacher_key (t : teacher_manager) (routing_key : option string) : result string :=
  match teacher_models t with
  | [(k, _)] => Ok k
  | models =>
      k ← of_option (ValueError "Routing key is required for multi-teacher distillation") routing_key;
      require dmem k models else ValueError "No teacher configured for routing key" ;;
      Ok k
  end.

(** [max_tokens], [temperature], [prompt_logprobs]. *)
Definition teacher_sampling_params (temp : Q) (topk : option nat) : result (nat * Q * nat) :=
  require Qeq_bool temp 1 else NotImplementedError "vLLM does not support temperature for prompt_logprobs." ;;
  Ok (1, temp, default 0 topk).

(** [compute_teacher_logprobs_single]; [generate] is the client's answer: ids and log
    probabilities, a row per prompt token. *)
Definition compute_teacher_logprobs_single
    (generate : client → list Z → nat * Q * nat → dict → option dict → result (list (list Z) * list (list Q)))
    (t : teacher_manager) (sequence_ids : list Z) (media : dict) (mm_kwargs : option dict) (routing_key : option string)
    : result (list (list Z) * list (list Q)) :=
  k ← resolve_teacher_key t routing_key;
  temp ← ditem k (teacher_models t);
  c ← ditem k (teacher_clients t);
  params ← teacher_sampling_params temp (teacher_topk t);
  '(ids, lps) ← generate c sequence_ids params media mm_kwargs;
  require Nat.eqb (length ids) (length lps) && Nat.eqb (length lps) (length sequence_ids) else AssertionError "" ;;
  Ok (ids, lps).
End teacher.
Arguments teacher_manager : clear implicits.

(** [F.pad] of the last but one dimension: a negative amount crops. *)
Definition pad_rows {A} (before after : Z) (v : A) (rows : list (list A)) : list (list A) :=
  let pads (n : Z) := replicate (Z.to_nat n) (replicate (length (default [] (head rows))) v) in
  let cropped := drop (Z.to_nat (- before)) (take (length rows - Z.to_nat (- after)) rows) in
  pads before ++ cropped ++ pads after.

Definition pad_teacher_outputs (t : list (list Z) * list (list Q)) (prompt_width response_width prompt_len response_len : nat)
    (pad_id : option Z) : list (list Z) * list (list Q) :=
  let front := (Z.of_nat prompt_width - Z.of_nat prompt_len)%Z in
  let back := (Z.of_nat response_width - Z.of_nat response_len)%Z in
  (pad_rows front back (default 0%Z pad_id) t.1, pad_rows front back 0%Q t.2).

(** ** Multi-modal inputs and positions *)

(** [_split_videos_and_metadata]; a pair is a list of two. *)
Definition split_videos_and_metadata (videos : json) : result (json * json) :=
  match videos with
  | JNull => Ok (JNull, JNull)
  | JList (JList [_; _] :: _ as l) =>
      ps ← mapM (λ v, match v with JList [a; b] => Ok (a, b) | _ => Raise (TypeError "not a pair") end) l;
      Ok (JList ps.*1, JList ps.*2)
  | JList l => Ok (JList l, JNull)
  | _ => Raise (TypeError "object is not iterable")
  end.

(** [if audio is not None and "sampling_rate" not in kwargs]. *)
Definition with_sampling_rate (rate : option Z) (audio : json) (kwargs : dict) : dict :=
  match audio, rate with
  | JNull, _ | _, None => kwargs
  | _, Some r => setdefault "sampling_rate" (JInt r) kwargs
  end.

Definition build_multimodal_processor_inputs (p : processor) (text images videos audio : json) (kwargs : dict) : result dict :=
  let kwargs := with_sampling_rate (sampling_rate p) audio kwargs in
  '(videos, metadata) ← split_videos_and_metadata videos;
  let kwargs := setdefault "return_tensors" (JStr "pt") kwargs in
  let kwargs := match metadata with
                | JNull => kwargs
                | m => setdefault "do_sample_frames" (JBool false) (setdefault "video_metadata" m kwargs)
                end in
  let inputs := update kwargs [("text"%string, text); ("images"%string, images); ("videos"%string, videos)] in
  Ok (processor_call p (match audio with JNull => inputs | a => set "audio" a inputs end)).

(** [repeat_interleave(thw[:, 1] * thw[:, 2], thw[:, 0])]. *)
Definition images_seqlens (grid : json) : result json :=
  match grid with
  | JList rows =>
      ls ← mapM (λ r, match r with
                      | JList [JInt t; JInt h; JInt w] => Ok (replicate (Z.to_nat t) (JInt (h * w)))
                      | _ => Raise (IndexError "too many indices for tensor")
                      end) rows;
      Ok (JList (concat ls))
  | _ => Raise (TypeError "object is not subscriptable")
  end.

Section rollout.
Context `{tokenizer} (proc : option processor) (base_mm_kwargs : dict) (cfg : rollout_config).

(** [_get_mm_processor_kwargs]. *)
Definition get_mm_processor_kwargs (audio : json) : dict :=
  with_sampling_rate (p ← proc; sampling_rate p) audio base_mm_kwargs.
Definition mm_kwargs_of (o : AgentLoopOutput) : dict :=
  match o_mm_processor_kwargs o with
  | Some k => k
  | None => get_mm_processor_kwargs (get "audios" (o_multi_modal_data o))
  end.

Definition compute_multi_modal_inputs (o : AgentLoopOutput) (input_ids : list Z) : result dict :=
  match proc with
  | None => Ok []
  | Some p =>
      let media k := get k (o_multi_modal_data o) in
      inputs ← build_multimodal_processor_inputs p (JList [JStr (tokenizer_decode input_ids)]) (media "images"%string)
                 (media "videos"%string) (media "audios"%string) (mm_kwargs_of o);
      let inputs := ddel "attention_mask" (ddel "input_ids" inputs) in
      match get "image_grid_thw" inputs with
      | JNull => Ok inputs
      | grid => s ← images_seqlens grid; Ok (set "images_seqlens" s inputs)
      end
  end.

(** Ones, with the attended places numbered. *)
Fixpoint text_positions (next : Z) (mask : list Z) : list Z :=
  match mask with
  | [] => []
  | m :: mask => if (m =? 0)%Z then 1%Z :: text_positions next mask else next :: text_positions (next + 1) mask
  end.

(** Marks 1 and 2 at image and video tokens. *)
Definition mm_token_types (p : processor) (input_ids : list Z) : list Z :=
  let same_id (t : option Z) (i : Z) := match t with Some t => Z.eqb i t | None => false end in
  (λ i, if same_id (video_token_id p) i then 2 else if same_id (image_token_id p) i then 1 else 0)%Z <$> input_ids.

(** The positions, and the inputs that are left: [mm_token_type_ids] is popped. *)
Definition compute_position_ids (input_ids attention_mask : list Z) (inputs : dict) : cell * dict :=
  match p ← proc; r ← get_rope_index p; Some (p, r) with
  | None => (Ints (compute_position_id_with_mask attention_mask), inputs)
  | Some (p, rope) =>
      let types := match get "mm_token_type_ids" inputs with JNull => None | _ => Some (mm_token_types p input_ids) end in
      let vision := rope input_ids attention_mask (get "image_grid_thw" inputs) (get "video_grid_thw" inputs) types in
      (Mat (text_positions 0 attention_mask :: vision), ddel "mm_token_type_ids" inputs)
  end.

(** ** Padding *)

Definition pad_token_ids (tokens : list Z) (max_length : nat) (s : side) : result (list Z * list Z) :=
  match tokens with
  | [] => Ok (replicate max_length (default 0%Z pad_token_id), replicate max_length 0%Z)
  | _ => tokenizer_pad s max_length tokens
  end.

(** A product of two rows, with broadcasting. *)
Definition mul_rows (a b : list Z) : result (list Z) :=
  match a, b with
  | [x], b => Ok (Z.mul x <$> b)
  | a, [y] => Ok ((λ x, x * y)%Z <$> a)
  | a, b => require Nat.eqb (length a) (length b) else RuntimeError "The size of tensor a must match the size of tensor b" ;;
            Ok (zip_with Z.mul a b)
  end.

(** The routed experts, a row per token, placed where the left padding ends. *)
Definition place_experts (experts : list (list Z)) (prompt_width prompt_len total : nat) : result (list (list Z)) :=
  let len := length experts in
  let width := length (default [] (head experts)) in
  let start_pos := (Z.of_nat prompt_width - Z.of_nat prompt_len)%Z in
  let end_pos := Z.min (start_pos + Z.of_nat len) (Z.of_nat total) in
  require negb ((start_pos <? 0)%Z || (Z.of_nat total <? end_pos)%Z) else ValueError "Invalid position range" ;;
  let room := Z.to_nat (end_pos - start_pos) in
  values ← (if Nat.eqb len room then Ok experts
            else match experts with
                 | [e] => Ok (replicate room e)
                 | _ => Raise (RuntimeError "The expanded size of the tensor must match the existing size")
                 end);
  Ok (replicate (Z.to_nat start_pos) (replicate width 0%Z) ++ values
      ++ replicate (total - Z.to_nat start_pos - room) (replicate width 0%Z)).

(** ** The reward of a trajectory *)

Definition max_length (ls : list nat) : nat := foldr Nat.max 0 ls.
(** [pad_sequence(batch_first=True)]. *)
Definition pad_sequence (ls : list (list Z)) : list (list Z) :=
  let n := max_length (length <$> ls) in (λ l, l ++ replicate (n - length l) 0%Z) <$> ls.
(** The same for positions: rows of several lines are padded in the number of lines only. *)
Definition pad_positions (cs : list cell) : result (list cell) :=
  match mapM (λ c, match c with Ints l => Some l | _ => None end) cs with
  | Some ls => Ok (Ints <$> pad_sequence ls)
  | None =>
      require forallb (λ c, bool_decide (tail (shape c) = tail (shape (default (Ints []) (head cs))))) cs
        else RuntimeError "The expanded size of the tensor must match the existing size" ;;
      Ok cs
  end.

(** A row of the batch that is sent to a reward worker. *)
Record score_row := { sr_item : item; sr_input_ids : list Z; sr_position_ids : cell }.

Definition score_fields (kwargs : dict) (o : AgentLoopOutput) : dict :=
  update [("__num_turns__"%string, JInt (o_num_turns o)); ("tool_extra_fields"%string, JObj (o_extra_fields o));
          ("prompt_len"%string, JInt (Z.of_nat (length (o_prompt_ids o))));
          ("response_len"%string, JInt (Z.of_nat (length (o_response_ids o))))] kwargs.

Definition score_batch (outputs : list AgentLoopOutput) (kwargs : dict) : result (list score_row) :=
  let ids o := o_prompt_ids o ++ o_response_ids o in
  let mask o := replicate (length (ids o)) 1%Z in
  positions ← mapM (λ o, inputs ← compute_multi_modal_inputs o (ids o);
                         Ok (compute_position_ids (ids o) (mask o) inputs).1) outputs;
  positions ← pad_positions positions;
  let padded f := pad_sequence (f <$> outputs) in
  let items := zip (zip (padded o_prompt_ids) (padded o_response_ids)) (zip (padded mask) (score_fields kwargs <$> outputs)) in
  Ok (zip_with (λ it ip : _ * _,
        {| sr_item := {| prompts := it.1.1; responses := it.1.2; attention_mask := it.2.1; fields := it.2.2 |};
           sr_input_ids := ip.1; sr_position_ids := ip.2 |}) items (zip (padded ids) positions)).

(** The reward workers; [choice] is the random one that is picked, [clock] the time it takes. *)
Abbreviation reward_worker := (list score_row → result RewardLoop.output).

Definition compute_trajectory_score (handles : option (list reward_worker)) (choice : nat) (clock : Q)
    (outputs : list AgentLoopOutput) (kwargs : dict) : result (list AgentLoopOutput) :=
  final ← of_option (IndexError "list index out of range") (last outputs);
  match o_reward_score final, handles with
  | JNull, Some ws =>
      rows ← score_batch outputs kwargs;
      w ← of_option (IndexError "Cannot choose from an empty sequence") (ws !! (choice mod length ws));
      r ← w rows;
      info ← of_option (KeyError "reward_extra_info") (reward_extra_info r);
      Ok (removelast outputs ++ [with_score (reward_score r) info (Some clock) final])
  | _, _ => Ok outputs
  end.

(** ** The output of a row *)

Context {client : Type}.
Record worker := {
  registry : list (string * (sampling_params → dict → result AgentLoopOutput));
  reward_handles : option (list reward_worker);
  teacher : option (teacher_manager client); teacher_key : string;
  teacher_generate : client → list Z → nat * Q * nat → dict → option dict → result (list (list Z) * list (list Q)) }.
Context (w : worker).

(** [_compute_teacher_logprobs]. *)
Definition routing_key (kwargs : dict) : option string := match get (teacher_key w) kwargs with JStr s => Some s | _ => None end.
Definition compute_teacher_logprobs (o : AgentLoopOutput) (prompt response : list Z) (validate : bool) (kwargs : dict)
    : result (option (list (list Z) * list (list Q))) :=
  match teacher w, validate with
  | Some t, false =>
      r ← compute_teacher_logprobs_single (teacher_generate w) t (prompt ++ response) (o_multi_modal_data o)
            (o_mm_processor_kwargs o) (routing_key kwargs);
      Ok (Some r)
  | _, _ => Ok None
  end.

Definition agent_loop_postprocess (choice : nat) (clock : Q) (validate : bool) (kwargs : dict) (o : AgentLoopOutput)
    : result internal_output :=
  raw_prompt ← getitem "raw_prompt" kwargs;
  let o := with_extra (set "raw_prompt" raw_prompt (o_extra_fields o)) o in
  '(prompt, prompt_mask) ← pad_token_ids (o_prompt_ids o) (prompt_length cfg) Front;
  '(response, attended) ← pad_token_ids (o_response_ids o) (response_length cfg) Back;
  '(mask, _) ← pad_token_ids (o_response_mask o) (response_length cfg) Back;
  let logprobs := (λ l, l ++ replicate (response_length cfg - length l) 0%Q) <$> o_response_logprobs o in
  response_mask ← mul_rows mask attended;
  let attention := prompt_mask ++ attended in
  let input_ids := prompt ++ response in
  experts ← match o_routed_experts o with
            | Some e => e ← place_experts e (length prompt) (length (o_prompt_ids o)) (length input_ids); Ok (Some e)
            | None => Ok None
            end;
  inputs ← compute_multi_modal_inputs o input_ids;
  let '(position_ids, inputs) := compute_position_ids input_ids attention inputs in
  scored ← compute_trajectory_score (reward_handles w) choice clock [o] kwargs;
  o ← of_option (IndexError "list index out of range") (last scored);
  t ← compute_teacher_logprobs o (o_prompt_ids o) (o_response_ids o) validate kwargs;
  Ok {| i_prompt_ids := prompt; i_response_ids := response; i_input_ids := input_ids; i_position_ids := position_ids;
        i_response_mask := response_mask; i_attention_mask := attention; i_response_logprobs := logprobs;
        i_routed_experts := experts; i_multi_modal_inputs := inputs;
        i_teacher := (λ t, pad_teacher_outputs t (length prompt) (length response) (length (o_prompt_ids o))
                             (length (o_response_ids o)) pad_token_id) <$> t;
        i_reward_score := o_reward_score o; i_num_turns := o_num_turns o; i_metrics := o_metrics o;
        i_extra_fields := o_extra_fields o |}.

Definition run_agent_loop (params : sampling_params) (choice : nat) (clock : Q) (validate : bool) (kwargs : dict)
    : result internal_output :=
  name ← getitem "agent_name" kwargs;
  name ← match name with JStr s => Ok s | _ => Raise (AssertionError "Agent loop not registered") end;
  loop ← of_option (AssertionError "Agent loop not registered") (dget name (registry w));
  let kwargs := ddel "agent_name" kwargs in
  o ← loop params kwargs;
  agent_loop_postprocess choice clock validate kwargs o.

(** ** The batch of a worker *)

(** [np.arange] when the batch has no [index]; equal neighbours are numbered. *)
Record trajectory_info := { t_step : Z; sample_index : json; rollout_n : nat; t_validate : bool }.
Fixpoint trajectory_infos (step : Z) (validate : bool) (previous : option (json * nat)) (index : list json) : list trajectory_info :=
  match index with
  | [] => []
  | i :: index =>
      let n := match previous with Some (p, n) => if py_eq p i then S n else 0 | None => 0 end in
      {| t_step := step; sample_index := i; rollout_n := n; t_validate := validate |}
      :: trajectory_infos step validate (Some (i, n)) index
  end.
Definition get_trajectory_info (step : Z) (index : list json) (validate : bool) : list trajectory_info :=
  trajectory_infos step validate None index.

Definition apply_greedy_sampling_params (p : sampling_params) : sampling_params :=
  {| temperature := 0; top_p := 1; top_k := -1; repetition_penalty := repetition_penalty p; logprobs := logprobs p |}.
Definition base_params (validate : bool) : sampling_params := {|
  temperature := if validate then val_temperature cfg else c_temperature cfg;
  top_p := if validate then val_top_p cfg else c_top_p cfg; top_k := if validate then val_top_k cfg else c_top_k cfg;
  repetition_penalty := 1; logprobs := calculate_log_probs cfg |}.
Definition row_params (validate : bool) (do_sample : option json) : sampling_params :=
  match do_sample with
  | Some b => if negb validate && negb (truthy b) then apply_greedy_sampling_params (base_params validate) else base_params validate
  | None => base_params validate
  end.

Abbreviation batch_data := (DataProto cell json mval).

(** The keyword arguments of a row. *)
Definition row_of (fields : list (string * option json)) : dict := omap (λ kv : string * option json, (λ v, (kv.1, v)) <$> kv.2) fields.
Definition row_kwargs (row : dict) : dict := ddel "__do_sample__" row.

Definition cat (cells : list cell) : result (list cell) :=
  match cells with
  | [] => Raise (RuntimeError "torch.cat(): expected a non-empty list of Tensors")
  | c :: _ => require forallb (λ c', bool_decide (shape c' = shape c)) cells else RuntimeError "Sizes of tensors must match" ;;
              Ok cells
  end.
(** A column that is present when the first output has it. *)
Definition optional_column (k : string) (f : internal_output → option cell) (outputs : list internal_output) : result (list (string * list cell)) :=
  match head outputs ≫= f with
  | None => Ok []
  | Some _ => cells ← of_option (TypeError "expected Tensor as element, but got NoneType") (mapM f outputs);
              cells ← cat cells; Ok [(k, cells)]
  end.

Definition rm_row (prompt_width : nat) (o : internal_output) : result (list Q) :=
  s ← number (i_reward_score o);
  place (length (i_response_mask o)) (zsum (drop prompt_width (i_attention_mask o))) s.

Definition default_extra_keys : list string := ["turn_scores"; "tool_rewards"; "min_global_steps"; "max_global_steps"; "extras"]%string.
(** A set of keys, in the order of their first appearance. *)
Definition union_keys (l : list string) : list string := foldl (λ acc k, if bool_decide (k ∈ acc) then acc else acc ++ [k]) [] l.
Definition reward_info (o : internal_output) : json := get_default "reward_extra_info" (JObj []) (i_extra_fields o).
Definition info_item (k : string) (o : internal_output) : result json := d ← as_dict (reward_info o); getitem k d.
Definition info_keys (o : internal_output) : result (list string) :=
  match reward_info o with JObj d => Ok d.*1 | _ => Raise (AttributeError "object has no attribute 'keys'") end.
Definition metrics_meta (m : AgentLoopMetrics) : meta mval := MDict
  [("generate_sequences"%string, MVal (MNum (generate_sequences_time m))); ("tool_calls"%string, MVal (MNum (tool_calls_time m)));
   ("compute_score"%string, MVal (MNum (compute_score_time m))); ("num_preempted"%string, MVal (MNum (inject_Z (num_preempted m))))].

Definition set_columns {X} (columns ds : list (string * X)) : list (string * X) := foldl (λ d kv, dset kv.1 kv.2 d) ds columns.

Definition postprocess (inputs : list internal_output) (input_non_tensor_batch : list (string * list json)) : result batch_data :=
  prompts ← cat (Ints ∘ i_prompt_ids <$> inputs); responses ← cat (Ints ∘ i_response_ids <$> inputs);
  masks ← cat (Ints ∘ i_response_mask <$> inputs); attention ← cat (Ints ∘ i_attention_mask <$> inputs);
  ids ← cat (Ints ∘ i_input_ids <$> inputs); positions ← cat (i_position_ids <$> inputs);
  logprobs ← optional_column "rollout_log_probs" (λ o, Floats <$> i_response_logprobs o) inputs;
  experts ← optional_column "routed_experts" (λ o, Mat <$> i_routed_experts o) inputs;
  t_lps ← optional_column "teacher_logprobs" (λ o, FloatMat ∘ snd <$> i_teacher o) inputs;
  t_ids ← optional_column "teacher_ids" (λ o, Mat ∘ fst <$> i_teacher o) inputs;
  first ← of_option (IndexError "list index out of range") (head inputs);
  let scored := forallb (λ o, negb (is_none (i_reward_score o))) inputs in
  rm ← (if scored then rows ← mapM (rm_row (length (i_prompt_ids first))) inputs; Ok [("rm_scores"%string, Floats <$> rows)] else Ok []);
  td ← new_tensor_dict (length inputs)
    ([("prompts", prompts); ("responses", responses); ("response_mask", masks); ("input_ids", ids); ("attention_mask", attention);
      ("position_ids", positions)]%string ++ logprobs ++ experts ++ t_lps ++ t_ids ++ rm);
  let turns := [("__num_turns__"%string, (λ o, JInt (i_num_turns o)) <$> inputs)] in
  let base := match reward_handles w with None => set_columns input_non_tensor_batch turns | Some _ => turns end in
  ks ← info_keys first;
  info_columns ← mapM (λ k, vs ← mapM (info_item k) inputs; Ok (k, vs)) ks;
  let mmi := [("multi_modal_inputs"%string, (λ o, JObj (i_multi_modal_inputs o)) <$> inputs)] in
  let all_keys := union_keys (concat ((λ o, (i_extra_fields o).*1) <$> inputs) ++ default_extra_keys) in
  let extra := (λ k, (k, (λ o, get k (i_extra_fields o)) <$> inputs)) <$> all_keys in
  new (Some td) (set_columns extra (set_columns mmi (set_columns info_columns base)))
    (("metrics"%string, MList (metrics_meta ∘ i_metrics <$> inputs))
     :: if scored then [("reward_extra_keys"%string, MList (MVal ∘ MStr <$> ks))] else []).

Definition meta_bool (k : string) (d : batch_data) : bool := is_true_meta (dget k (meta_info d)).

(** The batch with an [agent_name] in every row. *)
Definition with_agent_name (d : batch_data) : batch_data :=
  if dmem "agent_name" (non_tensor_batch d) then d
  else {| batch := batch d; meta_info := meta_info d;
          non_tensor_batch := dset "agent_name" (replicate (len d) (JStr (default_agent_loop cfg))) (non_tensor_batch d) |}.
(** What row [i] of a batch is run with: [choices] and [clocks] are what happens in the row. *)
Definition run_row (choices : dict → nat) (clocks : dict → Q) (validate : bool) (row : dict) : result internal_output :=
  run_agent_loop (row_params validate (lookup "__do_sample__" row)) (choices row) (clocks row) validate (row_kwargs row).

Definition batch_trajectories (step : Z) (d : batch_data) : list trajectory_info :=
  let index := match dget "index" (non_tensor_batch d) with
               | Some l => l
               | None => (λ i, JInt (Z.of_nat i)) <$> seq 0 (len d)
               end in
  get_trajectory_info step index (meta_bool "validate" d).

Definition worker_generate_sequences (choices : dict → nat) (clocks : dict → Q) (d : batch_data) : result batch_data :=
  let validate := meta_bool "validate" d in
  let d := with_agent_name d in
  outputs ← mapM (run_row choices clocks validate) ((λ it, row_of it.2) <$> items d);
  postprocess outputs (non_tensor_batch d).

(** ** The manager *)

(** [np.argmax]: the first of the largest. *)
Fixpoint argmax_q (i best : nat) (top : Q) (l : list Q) : nat :=
  match l with
  | [] => best
  | q :: l => if qlt top q then argmax_q (S i) i q l else argmax_q (S i) best top l
  end.
Definition slowest (l : list Q) : nat := match l with [] => 0 | q :: l => argmax_q 1 0 q l end.

Definition qsum (l : list Q) : Q := foldr Qplus 0%Q l.
Definition stats (name : string) (l : list Q) : list (string * Q) :=
  let q0 := default 0%Q (head l) in
  [(name +:+ "/min", foldl qmin q0 l); (name +:+ "/max", foldl (λ a b, if qlt a b then b else a) q0 l);
   (name +:+ "/mean", (qsum l / inject_Z (Z.of_nat (length l)))%Q)]%string.

(** [_performance_metrics]: [ms] are the metrics of all rows; [attention] the attention masks. *)
Definition performance_metrics (ms : list AgentLoopMetrics) (prompt_width : nat) (attention : option (list (list Z)))
    : result (list (string * Q)) :=
  let gen := generate_sequences_time <$> ms in
  let tool := tool_calls_time <$> ms in
  let score := compute_score_time <$> ms in
  let preempted := (λ m, inject_Z (num_preempted m)) <$> ms in
  require negb (Nat.eqb (length ms) 0) else ValueError "zero-size array to reduction operation minimum which has no identity" ;;
  let i := slowest (zip_with Qplus (zip_with Qplus gen tool) score) in
  let at_slowest name l := ("agent_loop/slowest/" +:+ name, default 0%Q (l !! i)) in
  lengths ← match attention with
            | None => Ok []
            | Some rows =>
                row ← of_option (IndexError "index out of range") (rows !! i);
                Ok [("agent_loop/slowest/prompt_length"%string, inject_Z (zsum (take prompt_width row)));
                    ("agent_loop/slowest/response_length"%string, inject_Z (zsum (drop prompt_width row)))]
            end;
  Ok (stats "agent_loop/num_preempted" preempted ++ stats "agent_loop/generate_sequences" gen
      ++ stats "agent_loop/tool_calls" tool ++ stats "agent_loop/compute_score" score
      ++ [at_slowest "generate_sequences"%string gen; at_slowest "tool_calls"%string tool;
          at_slowest "compute_score"%string score; at_slowest "num_preempted"%string preempted] ++ lengths).

(** The metrics of a worker's batch, read back from its meta information. *)
Definition number_meta (k : string) (d : list (string * meta mval)) : result Q :=
  match dget k d with Some (MVal (MNum q)) => Ok q | _ => Raise (KeyError k) end.
Definition read_metrics (m : meta mval) : result AgentLoopMetrics :=
  match m with
  | MDict d =>
      g ← number_meta "generate_sequences" d; t ← number_meta "tool_calls" d; c ← number_meta "compute_score" d;
      n ← number_meta "num_preempted" d;
      Ok {| generate_sequences_time := g; tool_calls_time := t; compute_score_time := c; num_preempted := Qnum n |}
  | _ => Raise (TypeError "indices must be integers")
  end.
Definition batch_metrics (d : batch_data) : result (list AgentLoopMetrics) :=
  m ← ditem "metrics" (meta_info d);
  match m with MList l => mapM read_metrics l | _ => Raise (TypeError "not iterable") end.

Definition with_priority (d : batch_data) : batch_data :=
  if dmem "priority" (non_tensor_batch d) then d
  else {| batch := batch d; meta_info := meta_info d;
          non_tensor_batch := dset "priority" ((λ i, JInt (Z.of_nat i)) <$> seq 0 (len d)) (non_tensor_batch d) |}.

Definition int_rows (cells : list cell) : list (list Z) := omap (λ c, match c with Ints l => Some l | _ => None end) cells.

(** [AgentLoopManager.generate_sequences] on [num_workers] workers. *)
Definition generate_sequences (auto_padding : bool) (num_workers : nat) (choices : dict → nat) (clocks : dict → Q)
    (prompts : batch_data) : result batch_data :=
  chunks ← chunk auto_padding num_workers (with_priority prompts);
  outputs ← mapM (worker_generate_sequences choices clocks) chunks;
  output ← concat_protos outputs;
  metrics ← mapM batch_metrics outputs;
  prompt_cells ← ditem "prompts" (tensors_of output);
  let prompt_width := length (default [] (head (int_rows prompt_cells))) in
  timing ← performance_metrics (concat metrics) prompt_width (int_rows <$> dget "attention_mask" (tensors_of output));
  first ← of_option (IndexError "list index out of range") (head outputs);
  Ok {| batch := batch output; non_tensor_batch := non_tensor_batch output;
        meta_info := set_columns (ddel "metrics" (meta_info first))
                       [("timing"%string, MDict ((λ kv : string * Q, (kv.1, MVal (MNum kv.2))) <$> timing))] |}.
End rollout.

(** ** [AgentLoopOutput.as_dict] *)

(** The tensors of an output that is stored without padding. *)
Definition as_dict_tensors (o : AgentLoopOutput) (teacher : option (list (list Z) * list (list Q))) : result (list (string * cell)) :=
  rm ← match o_reward_score o with
       | JNull => Ok []
       | s => q ← number s; row ← set_at (replicate (length (o_response_mask o)) 0%Q) (-1) q; Ok [("rm_scores"%string, Floats row)]
       end;
  Ok ([("prompts"%string, Ints (o_prompt_ids o)); ("responses"%string, Ints (o_response_ids o));
       ("response_mask"%string, Ints (o_response_mask o))]
      ++ match o_response_logprobs o with Some l => [("rollout_log_probs"%string, Floats l)] | None => [] end
      ++ match o_routed_experts o with Some e => [("routed_experts"%string, Mat e)] | None => [] end
      ++ rm ++ match teacher with Some (ids, lps) => [("teacher_ids"%string, Mat ids); ("teacher_logprobs"%string, FloatMat lps)] | None => [] end).

(** ** One padded row *)

Definition padded {A} (s : side) (n : nat) (v : A) (l : list A) : list A :=
  match s with Front => replicate (n - length l) v ++ l | Back => l ++ replicate (n - length l) v end.

(** What [tokenizer.pad] is documented to do. *)
Definition pads (t : tokenizer) (p : Z) : Prop :=
  @pad_token_id t = Some p ∧
  ∀ s n ts, ts ≠ [] → tokenizer_pad s n ts = Ok (padded s n p ts, padded s n 0%Z (replicate (length ts) 1%Z)).

Lemma pad_token_ids_padded `{t : tokenizer} p ts n s :
  pads t p → pad_token_ids ts n s = Ok (padded s n p ts, padded s n 0%Z (replicate (length ts) 1%Z)).
Proof.
  intros [Hp Hl]. destruct ts as [|x ts]; [|by apply Hl]. unfold pad_token_ids. rewrite Hp.
  by destruct s; cbn [padded length replicate app]; rewrite ?Nat.sub_0_r, ?app_nil_r.
Qed.

Lemma length_padded {A} s n (v : A) l : length l ≤ n → length (padded s n v l) = n.
Proof. destruct s; cbn; rewrite length_app, length_replicate; lia. Qed.

Lemma mul_rows_same a b : length a = length b → mul_rows a b = Ok (zip_with Z.mul a b).
Proof.
  intros H. destruct a as [|x [|x' a]], b as [|y [|y' b]]; try done.
  unfold mul_rows. cbn [length] in *. by rewrite H, Nat.eqb_refl.
Qed.

(** Whatever pads the mask is erased by the attention mask. *)
Lemma mask_times_attention mask m n p : length mask = m → m ≤ n →
  mul_rows (padded Back n p mask) (padded Back n 0%Z (replicate m 1%Z)) = Ok (padded Back n 0%Z mask).
Proof.
  intros Hm Hn. rewrite mul_rows_same by (rewrite !length_padded; rewrite ?length_replicate; lia). f_equal. cbn [padded].
  rewrite length_replicate, Hm, zip_with_app by (by rewrite length_replicate). f_equal.
  - clear Hn. revert m Hm. induction mask as [|x mask IH]; intros [|m] Hm; [done..|]. cbn in *. f_equal; [lia|]. apply IH. lia.
  - generalize (n - m). intros k. induction k as [|k IH]; [done|]. cbn. f_equal; [lia|done].
Qed.

(** The entries a row keeps where it is attended. *)
Definition kept {A} (mask : list Z) (l : list A) : list A :=
  (List.filter (λ p : Z * A, Z.eqb p.1 1) (zip mask l)).*2.

Lemma kept_app {A} m1 m2 (l1 l2 : list A) : length m1 = length l1 → kept (m1 ++ m2) (l1 ++ l2) = kept m1 l1 ++ kept m2 l2.
Proof. intros H. unfold kept. by rewrite zip_with_app, List.filter_app, fmap_app by done. Qed.
Lemma kept_ones {A} n (l : list A) : length l = n → kept (replicate n 1%Z) l = l.
Proof. intros <-. unfold kept. induction l as [|x l IH]; [done|]. cbn in *. by f_equal. Qed.
Lemma kept_zeros {A} n (l : list A) : kept (replicate n 0%Z) l = [].
Proof. unfold kept. revert l. induction n as [|n IH]; intros [|x l]; [done..|]. cbn in *. apply IH. Qed.
Lemma kept_padded {A} s n (v : A) l : length l ≤ n → kept (padded s n 0%Z (replicate (length l) 1%Z)) (padded s n v l) = l.
Proof.
  intros Hl. destruct s; cbn [padded]; rewrite length_replicate, kept_app by (by rewrite !length_replicate);
    rewrite kept_ones, kept_zeros by done; by rewrite ?app_nil_r.
Qed.

(** [text_positions] of the standard kind: padding counts for nothing. *)
Lemma cumsum_zeros n m k : cumsum k (replicate n 0%Z ++ m) = replicate n k ++ cumsum k m.
Proof. induction n as [|n IH]; [done|]. cbn. rewrite Z.add_0_r. by f_equal. Qed.
Lemma cumsum_ones n m k : cumsum k (replicate n 1%Z ++ m) = ((λ i, k + 1 + Z.of_nat i)%Z <$> seq 0 n) ++ cumsum (k + Z.of_nat n) m.
Proof.
  revert k. induction n as [|n IH]; intros k; [cbn; f_equal; lia|]. cbn [replicate app cumsum seq]. rewrite fmap_cons. cbn [app].
  f_equal; [lia|]. rewrite IH. f_equal.
  - rewrite <-(fmap_S_seq 0 n), <-list_fmap_compose. apply list_fmap_ext. intros. unfold compose. lia.
  - f_equal. lia.
Qed.

Lemma kept_positions a n b :
  let mask := replicate a 0%Z ++ replicate n 1%Z ++ replicate b 0%Z in
  kept mask (compute_position_id_with_mask mask) = Z.of_nat <$> seq 0 n.
Proof.
  intros mask. unfold compute_position_id_with_mask, mask at 2. rewrite cumsum_zeros, cumsum_ones, !fmap_app. unfold mask.
  rewrite kept_app by (by rewrite length_fmap, !length_replicate). rewrite kept_zeros. cbn [app].
  rewrite kept_app by (by rewrite !length_fmap, length_seq, length_replicate). rewrite kept_zeros, app_nil_r.
  rewrite kept_ones by (by rewrite !length_fmap, length_seq). rewrite <-list_fmap_compose. apply list_fmap_ext.
  intros i x Hx. unfold compose. lia.
Qed.

Section rows.
Context `{t : tokenizer} (base_mm_kwargs : dict) (cfg : rollout_config) {client : Type} (w : worker (client := client)) (pad : Z).

(** What a text-only row ends with: the answer of its agent loop, with prompt and score. *)
Definition finished (choices : dict → nat) (clocks : dict → Q) (validate : bool) (row : dict) : result AgentLoopOutput :=
  let kwargs := row_kwargs row in
  name ← getitem "agent_name" kwargs;
  name ← match name with JStr s => Ok s | _ => Raise (AssertionError "Agent loop not registered") end;
  loop ← of_option (AssertionError "Agent loop not registered") (dget name (registry w));
  let kwargs := ddel "agent_name" kwargs in
  o ← loop (row_params cfg validate (lookup "__do_sample__" row)) kwargs;
  raw_prompt ← getitem "raw_prompt" kwargs;
  scored ← compute_trajectory_score None base_mm_kwargs (reward_handles w) (choices row) (clocks row)
             [with_extra (set "raw_prompt" raw_prompt (o_extra_fields o)) o] kwargs;
  of_option (IndexError "list index out of range") (last scored).

(** Within the configured lengths, with a mask entry and a log probability per response token. *)
Record fits (o : AgentLoopOutput) : Prop := {
  fits_prompt : length (o_prompt_ids o) ≤ prompt_length cfg;
  fits_response : length (o_response_ids o) ≤ response_length cfg;
  fits_mask : length (o_response_mask o) = length (o_response_ids o);
  fits_logprobs : match o_response_logprobs o with Some l => length l = length (o_response_ids o) | None => True end;
  fits_experts : o_routed_experts o = None }.

Definition attention_row (o : AgentLoopOutput) : list Z :=
  padded Front (prompt_length cfg) 0%Z (replicate (length (o_prompt_ids o)) 1%Z)
  ++ padded Back (response_length cfg) 0%Z (replicate (length (o_response_ids o)) 1%Z).
Definition pad_output (o : AgentLoopOutput) : internal_output :=
  let prompt := padded Front (prompt_length cfg) pad (o_prompt_ids o) in
  let response := padded Back (response_length cfg) pad (o_response_ids o) in
  {| i_prompt_ids := prompt; i_response_ids := response; i_input_ids := prompt ++ response;
     i_position_ids := Ints (compute_position_id_with_mask (attention_row o));
     i_response_mask := padded Back (response_length cfg) 0%Z (o_response_mask o); i_attention_mask := attention_row o;
     i_response_logprobs := padded Back (response_length cfg) 0%Q <$> o_response_logprobs o; i_routed_experts := None;
     i_multi_modal_inputs := []; i_teacher := None; i_reward_score := o_reward_score o; i_num_turns := o_num_turns o;
     i_metrics := o_metrics o; i_extra_fields := o_extra_fields o |}.

(** Scoring changes the score, the extra fields and the time only. *)
Definition same_tokens (o o' : AgentLoopOutput) : Prop :=
  o_prompt_ids o' = o_prompt_ids o ∧ o_response_ids o' = o_response_ids o ∧ o_response_mask o' = o_response_mask o ∧
  o_response_logprobs o' = o_response_logprobs o ∧ o_routed_experts o' = o_routed_experts o ∧ o_num_turns o' = o_num_turns o.
Lemma score_keeps_tokens p b handles choice clock o kwargs scored o' :
  compute_trajectory_score p b handles choice clock [o] kwargs = Ok scored → last scored = Some o' → same_tokens o o'.
Proof.
  unfold compute_trajectory_score. cbn [last of_option mbind result_bind]. intros Hs Hl.
  assert (Hsame : Ok [o] = Ok scored → same_tokens o o').
  { intros [= <-]. cbn in Hl. injection Hl as <-. by repeat split. }
  destruct (o_reward_score o), handles as [ws|]; try (by apply Hsame).
  inv_ok Hs. inv_ok Hs. inv_ok Hs. inv_ok Hs. injection Hs as <-. cbn in Hl. injection Hl as <-. by repeat split.
Qed.

Lemma run_row_padded choices clocks validate row o :
  pads t pad → teacher w = None → finished choices clocks validate row = Ok o → fits o →
  run_row None base_mm_kwargs cfg w choices clocks validate row = Ok (pad_output o).
Proof.
  intros Hpad Hteach Hf [F1 F2 F3 F4 F5]. unfold finished in Hf. unfold run_row, run_agent_loop.
  apply bind_Ok_inv in Hf as (name & -> & Hf). cbn [mbind result_bind].
  apply bind_Ok_inv in Hf as (s & -> & Hf). cbn [mbind result_bind].
  apply bind_Ok_inv in Hf as (loop & -> & Hf). cbn [mbind result_bind].
  apply bind_Ok_inv in Hf as (o0 & -> & Hf). cbn [mbind result_bind].
  apply bind_Ok_inv in Hf as (raw & Hraw & Hf). apply bind_Ok_inv in Hf as (scored & Hs & Hf). apply of_option_Ok in Hf.
  unfold agent_loop_postprocess. rewrite Hraw. cbn [mbind result_bind].
  set (o1 := with_extra _ o0) in *. destruct (score_keeps_tokens _ _ _ _ _ _ _ _ _ Hs Hf) as (E1 & E2 & E3 & E4 & E5 & E6).
  rewrite <-E1, <-E2, <-E3, <-E4, <-E5.
  rewrite !(pad_token_ids_padded pad) by done. cbn [mbind result_bind].
  rewrite (mask_times_attention _ (length (o_response_ids o))) by done. cbn [mbind result_bind]. rewrite F5. cbn [mbind result_bind].
  unfold compute_multi_modal_inputs. cbn [mbind result_bind compute_position_ids option_bind].
  rewrite Hs. cbn [mbind result_bind]. rewrite Hf. cbn [of_option mbind result_bind].
  unfold compute_teacher_logprobs. rewrite Hteach. cbn [mbind result_bind fmap option_fmap option_map].
  unfold pad_output. by destruct (o_response_logprobs o) as [l|].
Qed.
(** ** The batch of a worker *)

(** The rows of a batch have the same optional fields; [lp]: log probabilities, [sc]: scores. *)
Record uniform (extra_keys info_names : list string) (lp sc : bool) (o : AgentLoopOutput) : Prop := {
  u_extra : (o_extra_fields o).*1 = extra_keys;
  u_info : ∃ d, get_default "reward_extra_info" (JObj []) (o_extra_fields o) = JObj d ∧ d.*1 = info_names;
  u_logprobs : (if o_response_logprobs o then true else false) = lp;
  u_score : if sc then (∃ q, number (o_reward_score o) = Ok q) ∧ o_response_ids o ≠ [] else o_reward_score o = JNull }.

Definition reward_row (o : AgentLoopOutput) (q : Q) : list Q :=
  padded Back (response_length cfg) 0%Q (replicate (length (o_response_ids o) - 1) 0%Q ++ [q]).
Definition score_of (o : AgentLoopOutput) : Q := match number (o_reward_score o) with Ok q => q | Raise _ => 0%Q end.

(** The cells of a row. *)
Definition base_columns : list (string * (internal_output → cell)) :=
  [("prompts", Ints ∘ i_prompt_ids); ("responses", Ints ∘ i_response_ids); ("response_mask", Ints ∘ i_response_mask);
   ("input_ids", Ints ∘ i_input_ids); ("attention_mask", Ints ∘ i_attention_mask); ("position_ids", i_position_ids)]%string.
Definition columns (lp sc : bool) : list (string * (AgentLoopOutput → cell)) :=
  ((λ kv : string * (internal_output → cell), (kv.1, kv.2 ∘ pad_output)) <$> base_columns)
  ++ (if lp then [("rollout_log_probs"%string, λ o, Floats (padded Back (response_length cfg) 0%Q (default [] (o_response_logprobs o))))] else [])
  ++ (if sc then [("rm_scores"%string, λ o, Floats (reward_row o (score_of o)))] else []).

Lemma cat_same cells s : cells ≠ [] → Forall (λ c, shape c = s) cells → cat cells = Ok cells.
Proof.
  intros Hne H. destruct cells as [|c cells]; [done|]. unfold cat. apply Forall_cons in H as [Hc H].
  assert (forallb (λ c', bool_decide (shape c' = shape c)) (c :: cells) = true) as ->; [|done].
  apply forallb_Forall. constructor; [by apply bool_decide_eq_true_2|].
  eapply Forall_impl; [exact H|]. intros c' E. apply bool_decide_eq_true_2. by rewrite E.
Qed.

Lemma length_attention o : fits o → length (attention_row o) = prompt_length cfg + response_length cfg.
Proof. intros [F1 F2 _ _ _]. unfold attention_row. by rewrite length_app, !length_padded by (by rewrite length_replicate). Qed.
Lemma length_positions m : length (compute_position_id_with_mask m) = length m.
Proof. unfold compute_position_id_with_mask. rewrite length_fmap. generalize 0%Z. induction m; intros k; cbn; [done|]. by f_equal. Qed.

(** The shapes do not depend on the row. *)
Lemma column_shapes o k f : (k, f) ∈ base_columns → fits o →
  shape (f (pad_output o)) = [match k with
    | "prompts" => prompt_length cfg | "responses" | "response_mask" => response_length cfg
    | _ => prompt_length cfg + response_length cfg end%string].
Proof.
  intros Hin Hf. pose proof Hf as [F1 F2 F3 F4 _]. pose proof (length_attention o Hf) as Ha.
  unfold base_columns in Hin. repeat (apply elem_of_cons in Hin as [[= -> ->]|Hin]); [..|by apply elem_of_nil in Hin];
    unfold compose, shape, pad_output; cbn [i_prompt_ids i_response_ids i_response_mask i_input_ids i_attention_mask i_position_ids];
    rewrite ?length_positions, ?Ha, ?length_app, ?length_padded by lia; done.
Qed.

Lemma cat_column os k f : (k, f) ∈ base_columns → os ≠ [] → Forall fits os →
  cat (f <$> (pad_output <$> os)) = Ok ((f ∘ pad_output) <$> os).
Proof.
  intros Hin Hne Hf. rewrite <-list_fmap_compose. eapply cat_same; [by destruct os|]. apply Forall_fmap.
  eapply Forall_impl; [exact Hf|]. intros o Ho. unfold compose. by apply column_shapes.
Qed.

Lemma optional_none k f inputs : (head inputs ≫= f) = None → optional_column k f inputs = Ok [].
Proof. unfold optional_column. by intros ->. Qed.

Lemma logprob_column os lp : os ≠ [] → Forall fits os → Forall (λ o, (if o_response_logprobs o then true else false) = lp) os →
  optional_column "rollout_log_probs" (λ o, Floats <$> i_response_logprobs o) (pad_output <$> os)
  = Ok (if lp then [("rollout_log_probs"%string, (λ o, Floats (padded Back (response_length cfg) 0%Q (default [] (o_response_logprobs o)))) <$> os)] else []).
Proof.
  intros Hne Hf Hlp. destruct lp.
  - set (g := λ o, Floats (padded Back (response_length cfg) 0%Q (default [] (o_response_logprobs o)))).
    assert (Hm : mapM (λ o, Floats <$> i_response_logprobs o) (pad_output <$> os) = Some (g <$> os)).
    { clear Hne Hf. induction Hlp as [|o os Ho Hlp IH]; [done|]. cbn. unfold g at 1. destruct (o_response_logprobs o); [|done]. cbn in *.
      by rewrite IH. }
    unfold optional_column. destruct os as [|o os]; [done|]. rewrite Hm. cbn [of_option mbind result_bind].
    rewrite (cat_same _ [response_length cfg]); [|done|].
    + cbn. apply Forall_cons in Hlp as [Ho _]. by destruct (o_response_logprobs o).
    + apply Forall_fmap. clear Hm. revert Hf Hlp. generalize (o :: os) as l. intros l Hf Hlp. rewrite Forall_forall in *.
      intros o' Ho'. specialize (Hf o' Ho') as [_ F2 _ F4 _]. specialize (Hlp o' Ho'). unfold compose, g, shape.
      destruct (o_response_logprobs o') as [l'|]; [|done]. cbn [default from_option id]. by rewrite length_padded by lia.
  - apply optional_none. destruct os as [|o os]; [done|]. apply Forall_cons in Hlp as [Ho _]. cbn. by destruct (o_response_logprobs o).
Qed.
Lemma zsum_ones n : zsum (replicate n 1%Z) = Z.of_nat n.
Proof. induction n as [|n IH]; [done|]. rewrite replicate_S. unfold zsum in *. cbn [foldr]. rewrite IH. lia. Qed.
Lemma zsum_zeros n : zsum (replicate n 0%Z) = 0%Z.
Proof. by induction n. Qed.

(** The score lands on the last response token. *)
Lemma rm_row_placed o q : fits o → number (o_reward_score o) = Ok q → o_response_ids o ≠ [] →
  rm_row (prompt_length cfg) (pad_output o) = Ok (reward_row o (score_of o)).
Proof.
  intros [F1 F2 F3 _ _] Hq Hne. unfold rm_row, pad_output, score_of. cbn [i_reward_score i_response_mask i_attention_mask]. rewrite Hq.
  cbn [mbind result_bind]. rewrite length_padded by lia. unfold attention_row.
  rewrite drop_app_length' by (by rewrite length_padded by (by rewrite length_replicate)).
  cbn [padded]. rewrite zsum_app, zsum_ones, zsum_zeros, Z.add_0_r.
  assert (Hr : 1 ≤ length (o_response_ids o)) by (destruct (o_response_ids o); cbn; [done|lia]).
  unfold place, set_at. destruct (Z.ltb_spec (Z.of_nat (length (o_response_ids o)) - 1) 0) as [|_]; [lia|].
  rewrite length_replicate. destruct (Z.leb_spec 0 (Z.of_nat (length (o_response_ids o)) - 1)) as [_|]; [|lia].
  destruct (Z.ltb_spec (Z.of_nat (length (o_response_ids o)) - 1) (Z.of_nat (response_length cfg))) as [_|]; [|lia].
  cbn [andb mbind result_bind]. f_equal. unfold reward_row. cbn [padded]. rewrite length_app, length_replicate. cbn [length].
  replace (Z.to_nat (Z.of_nat (length (o_response_ids o)) - 1)) with (length (o_response_ids o) - 1) by lia.
  replace (response_length cfg) with (length (o_response_ids o) - 1 + S (response_length cfg - (length (o_response_ids o) - 1 + 1))) at 1 by lia.
  rewrite replicate_add, insert_app_r_alt by (by rewrite length_replicate). rewrite length_replicate, Nat.sub_diag. cbn.
  by rewrite <-app_assoc.
Qed.

Lemma score_rows (os : list AgentLoopOutput) (sc : bool) : Forall fits os →
  Forall (λ o, if sc then (∃ q, number (o_reward_score o) = Ok q) ∧ o_response_ids o ≠ [] else o_reward_score o = JNull) os →
  os ≠ [] →
  forallb (λ o, negb (is_none (i_reward_score o))) (pad_output <$> os) = sc ∧
  (sc = true → mapM (rm_row (prompt_length cfg)) (pad_output <$> os) = Ok ((λ o, reward_row o (score_of o)) <$> os)).
Proof.
  intros Hf Hs Hne. destruct sc.
  - split.
    + apply forallb_Forall, Forall_fmap. eapply Forall_impl; [exact Hs|]. intros o [[q Hq] _]. unfold compose. cbn.
      by destruct (o_reward_score o).
    + intros _. clear Hne. induction Hs as [|o os [[q Hq] Ho] Hs IH]; [done|]. apply Forall_cons in Hf as [Hfo Hf].
      cbn. rewrite (rm_row_placed o q) by done. cbn [mbind result_bind]. by rewrite IH.
  - split; [|done]. destruct os as [|o os]; [done|]. apply Forall_cons in Hs as [Ho _]. cbn. by rewrite Ho.
Qed.
End rows.

(** ** Reading a row back *)

Definition unpad_cell (mask : list Z) (c : cell) : cell :=
  match c with Ints l => Ints (kept mask l) | Floats l => Floats (kept mask l) | c => c end.
Definition cell_at (k : string) (row : list (string * option cell)) : option cell := c ← dget k row; c.
(** The attended entries of the prompt and of the response tensors of a row. *)
Definition unpad_row (row : list (string * option cell)) : option (list (string * cell)) :=
  match cell_at "attention_mask" row, cell_at "prompts" row with
  | Some (Ints att), Some (Ints p) =>
      let n := length p in
      Some (omap (λ kv : string * option cell,
        if existsb (String.eqb kv.1) ["input_ids"; "attention_mask"; "position_ids"]%string then None
        else (λ c, (kv.1, unpad_cell (if String.eqb kv.1 "prompts" then take n att else drop n att) c)) <$> kv.2) row)
  | _, _ => None
  end.
(** The attended tokens and positions of the sequence. *)
Definition sequence_of (row : list (string * option cell)) : option (list Z * list Z) :=
  match cell_at "attention_mask" row, cell_at "input_ids" row, cell_at "position_ids" row with
  | Some (Ints att), Some (Ints ids), Some (Ints pos) => Some (kept att ids, kept att pos)
  | _, _, _ => None
  end.

(** ** Columns *)

Definition add_keys (acc l : list string) : list string := foldl (λ acc k, if bool_decide (k ∈ acc) then acc else acc ++ [k]) acc l.

Lemma keys_tagged {X} (g : string → X) l : keys ((λ k, (k, g k)) <$> l) = l.
Proof. unfold keys. rewrite <-list_fmap_compose. apply list_fmap_id. Qed.
Lemma keys_set_columns {X} (cs ds : list (string * X)) : keys (set_columns cs ds) = add_keys (keys ds) (keys cs).
Proof.
  unfold set_columns, add_keys. revert ds. induction cs as [|[k v] cs IH]; intros ds; [done|]. csimpl. rewrite IH.
  unfold keys. csimpl. fold (keys (dset k v ds)). by rewrite dset_keys.
Qed.
Lemma set_columns_nodup {X} (cs ds : list (string * X)) : NoDup (keys ds) → NoDup (keys (set_columns cs ds)).
Proof. unfold set_columns. revert ds. induction cs as [|[k v] cs IH]; intros ds H; [done|]. cbn. by apply IH, dset_keys_nodup. Qed.
Lemma dset_rows {X} n k (v : list X) ds : rows_of n ds → length v = n → rows_of n (dset k v ds).
Proof.
  unfold rows_of. intros H Hv. induction H as [|[k' v'] ds Hd H IH]; cbn; [by repeat constructor|].
  case_bool_decide; by constructor.
Qed.
Lemma set_columns_rows {X} n (cs ds : list (string * list X)) : rows_of n ds → rows_of n cs → rows_of n (set_columns cs ds).
Proof.
  unfold set_columns. revert ds. induction cs as [|[k v] cs IH]; intros ds H Hc; [done|]. apply Forall_cons in Hc as [Hv Hc]. cbn.
  apply IH; [by apply dset_rows|done].
Qed.

Lemma add_keys_sub acc l k : k ∈ acc → k ∈ add_keys acc l.
Proof.
  unfold add_keys. revert acc. induction l as [|x l IH]; intros acc H; [done|]. cbn. apply IH. case_bool_decide; [done|].
  apply elem_of_app. by left.
Qed.
Lemma add_keys_elem acc l k : k ∈ l → k ∈ add_keys acc l.
Proof.
  revert acc. induction l as [|x l IH]; intros acc H; [by apply elem_of_nil in H|].
  change (add_keys acc (x :: l)) with (add_keys (if bool_decide (x ∈ acc) then acc else acc ++ [x]) l).
  apply elem_of_cons in H as [->|H]; [|by apply IH]. apply add_keys_sub. case_bool_decide; [done|].
  apply elem_of_app. right. by left.
Qed.
Lemma add_keys_known acc l : (∀ k, k ∈ l → k ∈ acc) → add_keys acc l = acc.
Proof.
  unfold add_keys. induction l as [|x l IH]; intros H; [done|]. cbn. rewrite bool_decide_eq_true_2 by (apply H; by left).
  apply IH. intros k Hk. apply H. by right.
Qed.
Lemma add_keys_app acc l k : add_keys acc (l ++ k) = add_keys (add_keys acc l) k.
Proof. unfold add_keys. by rewrite foldl_app. Qed.

Lemma add_keys_nodup acc l : NoDup acc → NoDup (add_keys acc l).
Proof.
  unfold add_keys. revert acc. induction l as [|x l IH]; intros acc H; [done|]. cbn. apply IH. case_bool_decide as Hx; [done|].
  apply NoDup_app. split_and!; [done| |repeat constructor; apply not_elem_of_nil]. intros y Hy ->%list_elem_of_singleton. done.
Qed.

(** The union of equal key sets is one of them. *)
Lemma union_keys_same ks (l : list (list string)) rest : l ≠ [] → Forall (λ k, k = ks) l →
  union_keys (concat l ++ rest) = add_keys [] (ks ++ rest).
Proof.
  intros Hne H. change (union_keys (concat l ++ rest)) with (add_keys [] (concat l ++ rest)). rewrite !add_keys_app. f_equal.
  destruct H as [|k l -> H]; [done|]. cbn [concat]. rewrite add_keys_app. apply add_keys_known.
  intros x Hx. assert (x ∈ ks) as Hin; [|by apply add_keys_elem].
  clear Hne. induction H as [|k l -> H IH]; [by apply elem_of_nil in Hx|]. cbn [concat] in Hx. apply elem_of_app in Hx as [Hx|Hx]; auto.
Qed.

Section batches.
Context `{t : tokenizer} (base_mm_kwargs : dict) (cfg : rollout_config) {client : Type} (w : worker (client := client)) (pad : Z).
Context (extra_keys info_names : list string) (lp sc : bool).
Notation pad_output := (pad_output cfg pad).
Notation uniform := (uniform extra_keys info_names lp sc).

(** The fields of the worker's batch, given those of its input. *)
Definition output_fields (input_keys : list string) : list string :=
  add_keys (add_keys (add_keys (add_keys ["__num_turns__"%string]
    (match reward_handles w with None => input_keys | Some _ => [] end)) info_names) ["multi_modal_inputs"%string])
    (add_keys [] (extra_keys ++ default_extra_keys)).
Definition output_meta (ms : list AgentLoopMetrics) : list (string * meta mval) :=
  ("metrics"%string, MList (metrics_meta <$> ms))
  :: if sc then [("reward_extra_keys"%string, MList ((λ k, MVal (MStr k)) <$> info_names))] else [].
Definition output_row (o : AgentLoopOutput) : list (string * option cell) :=
  (λ kv : string * (AgentLoopOutput → cell), (kv.1, Some (kv.2 o))) <$> columns cfg pad lp sc.
Definition output_columns (os : list AgentLoopOutput) : list (string * list cell) :=
  (λ kv : string * (AgentLoopOutput → cell), (kv.1, kv.2 <$> os)) <$> columns cfg pad lp sc.

Lemma columns_nodup : NoDup (columns cfg pad lp sc).*1.
Proof using Type. unfold columns. destruct lp, sc; cbn; apply (bool_decide_unpack _); by vm_compute. Qed.

Lemma output_columns_rows os : rows_of (length os) (output_columns os).
Proof using Type. unfold output_columns. apply Forall_fmap, Forall_forall. intros [k f] _. cbn. by rewrite length_fmap. Qed.

Lemma info_columns os : Forall uniform os →
  mapM (λ k, vs ← mapM (info_item k) (pad_output <$> os); Ok (k, vs)) info_names
  = Ok ((λ k, (k, (λ o, default JNull (d ← (match reward_info o with JObj d => Some d | _ => None end); lookup k d)) <$> (pad_output <$> os))) <$> info_names).
Proof using Type.
  intros Hu. apply mapM_Ok_map. intros k Hk.
  rewrite (mapM_Ok_map (info_item k) (λ o, default JNull (d ← (match reward_info o with JObj d => Some d | _ => None end); lookup k d))); [done|].
  intros i (o & -> & Ho)%list_elem_of_fmap. rewrite Forall_forall in Hu. destruct (Hu o Ho) as [_ (d & Hd & Hkeys) _ _].
  unfold info_item, reward_info, pad_output. cbn [i_extra_fields]. rewrite Hd. cbn [as_dict mbind result_bind option_bind].
  unfold getitem. destruct (lookup k d) as [v|] eqn:E; [done|]. exfalso. subst info_names. clear -Hk E.
  induction d as [|[k' v] d IH]; [by apply elem_of_nil in Hk|]. cbn in *. case_bool_decide; [done|]. apply IH; [|done].
  apply elem_of_cons in Hk as [|]; [done|done].
Qed.

Lemma info_keys_uniform o : uniform o → info_keys (pad_output o) = Ok info_names.
Proof using Type. intros [_ (d & Hd & Hk) _ _]. unfold info_keys.
  change (reward_info (pad_output o)) with (get_default "reward_extra_info" (JObj []) (o_extra_fields o)). by rewrite Hd, Hk.
Qed.

Lemma extra_keys_uniform os : os ≠ [] → Forall uniform os →
  union_keys (concat ((λ o, (i_extra_fields o).*1) <$> (pad_output <$> os)) ++ default_extra_keys) = add_keys [] (extra_keys ++ default_extra_keys).
Proof using Type.
  intros Hne Hu. apply union_keys_same; [by destruct os|]. apply Forall_fmap, Forall_fmap. eapply Forall_impl; [exact Hu|]. by intros o [Ho _ _ _].
Qed.

(** The batch of a worker: a row per output, in order. *)
Lemma postprocess_spec os (nt : list (string * list json)) :
  os ≠ [] → Forall (fits cfg) os → Forall uniform os → rows_of (length os) nt → NoDup (keys nt) →
  ∃ d, postprocess w (pad_output <$> os) nt = Ok d ∧ wf d ∧ len d = length os ∧ batch d ≠ None ∧
    tensors_of d = output_columns os ∧ keys (non_tensor_batch d) = output_fields (keys nt) ∧
    meta_info d = output_meta (o_metrics <$> os).
Proof using Type.
  intros Hne Hf Hu Hnt Hnd. unfold postprocess.
  assert (Hcol : ∀ i k f, base_columns !! i = Some (k, f) → cat (f <$> (pad_output <$> os)) = Ok ((f ∘ pad_output) <$> os)).
  { intros i k f Hin%list_elem_of_lookup_2. by eapply cat_column. }
  rewrite (Hcol 0 _ _ eq_refl). cbn [mbind result_bind].
  rewrite (Hcol 1 _ _ eq_refl). cbn [mbind result_bind].
  rewrite (Hcol 2 _ _ eq_refl). cbn [mbind result_bind].
  rewrite (Hcol 4 _ _ eq_refl). cbn [mbind result_bind].
  rewrite (Hcol 3 _ _ eq_refl). cbn [mbind result_bind].
  rewrite (Hcol 5 _ _ eq_refl). cbn [mbind result_bind].
  rewrite (logprob_column cfg pad os lp) by (done || (eapply Forall_impl; [exact Hu|]; by intros o [_ _ Ho _])). cbn [mbind result_bind].
  rewrite !optional_none by (by destruct os). cbn [mbind result_bind].
  destruct os as [|o0 os']; [done|]. set (os := o0 :: os') in *.
  change (head (pad_output <$> os)) with (Some (pad_output o0)). cbn [of_option mbind result_bind].
  assert (Hu0 : uniform o0) by (by apply Forall_cons in Hu as [? _]). assert (Hf0 : fits cfg o0) by (by apply Forall_cons in Hf as [? _]).
  destruct (score_rows cfg pad os sc Hf) as [Hsc Hrm]; [eapply Forall_impl; [exact Hu|]; by intros o [_ _ _ Ho]|done|].
  rewrite Hsc. assert (Hp : length (i_prompt_ids (pad_output o0)) = prompt_length cfg).
  { destruct Hf0 as [F1 _ _ _ _]. cbn. by apply (length_padded Front). }
  rewrite Hp, (info_keys_uniform o0 Hu0). cbn [mbind result_bind].
  assert (Hsel : (if sc then rows ← mapM (rm_row (prompt_length cfg)) (pad_output <$> os); Ok [("rm_scores"%string, Floats <$> rows)] else Ok [])
    = Ok (if sc then [("rm_scores"%string, (λ o, Floats (reward_row cfg o (score_of o))) <$> os)] else [])).
  { destruct sc; [|done]. rewrite Hrm by done. cbn [mbind result_bind]. by rewrite <-list_fmap_compose. }
  rewrite Hsel. cbn [mbind result_bind]. rewrite (length_fmap pad_output).
  match goal with |- context [new_tensor_dict (length os) ?l] => assert (El : l = output_columns os); [|rewrite El] end.
  { unfold output_columns, columns. by destruct lp, sc. }
  unfold new_tensor_dict. rewrite rows_of_forallb by apply output_columns_rows. cbn [mbind result_bind].
  rewrite (info_columns os Hu), (extra_keys_uniform os Hne Hu). cbn [mbind result_bind].
  match goal with |- context [new (Some ?td) ?nt' ?m] => set (fields' := nt'); set (meta' := m) end.
  assert (Hrows : rows_of (length os) fields').
  { unfold fields'. repeat apply set_columns_rows; try (apply Forall_fmap, Forall_forall; intros; cbn; by rewrite ?length_fmap).
    - destruct (reward_handles w); [|apply set_columns_rows; [|done]]; (constructor; [cbn; by rewrite !length_fmap|constructor]).
    - constructor; [cbn; by rewrite !length_fmap|constructor]. }
  assert (Hkeys : keys fields' = output_fields (keys nt)).
  { unfold fields', output_fields. rewrite !keys_set_columns, !keys_tagged. f_equal. f_equal. f_equal.
    destruct (reward_handles w); [done|]. by rewrite keys_set_columns. }
  eexists. unfold new, check_consistency. cbn [bsz]. rewrite rows_of_forallb by done. cbn [mbind result_bind].
  split; [done|]. split_and!; try done.
  - unfold wf, len, tensors_of. cbn [batch bsz tensors non_tensor_batch]. split_and!; [apply output_columns_rows|done| |].
    + unfold output_columns, keys. rewrite <-list_fmap_compose. apply columns_nodup.
    + rewrite Hkeys. unfold output_fields. repeat apply add_keys_nodup. constructor; [apply not_elem_of_nil|constructor].
  - unfold output_meta, meta'. cbn [meta_info]. rewrite <-!list_fmap_compose. by destruct sc.
Qed.

(** ** Reading back what was padded *)

Lemma set_last_score n q : 0 < n → set_at (replicate n 0%Q) (-1) q = Ok (replicate (n - 1) 0%Q ++ [q]).
Proof using Type.
  intros Hn. unfold set_at. rewrite length_replicate. cbn [Z.ltb Z.compare].
  destruct (Z.leb_spec 0 (-1 + Z.of_nat n)) as [_|]; [|lia]. destruct (Z.ltb_spec (-1 + Z.of_nat n) (Z.of_nat n)) as [_|]; [|lia].
  cbn [andb mbind result_bind]. f_equal. replace (Z.to_nat (-1 + Z.of_nat n)) with (n - 1) by lia.
  replace n with (n - 1 + 1) at 2 by lia. rewrite replicate_add, insert_app_r_alt by (by rewrite length_replicate).
  rewrite length_replicate, Nat.sub_diag. done.
Qed.

Lemma kept_response {A} (v : A) n l k : length l = n → n ≤ k → kept (padded Back k 0%Z (replicate n 1%Z)) (padded Back k v l) = l.
Proof using Type. intros <- Hk. by apply kept_padded. Qed.

Lemma take_attention o : fits cfg o →
  take (prompt_length cfg) (attention_row cfg o) = padded Front (prompt_length cfg) 0%Z (replicate (length (o_prompt_ids o)) 1%Z) ∧
  drop (prompt_length cfg) (attention_row cfg o) = padded Back (response_length cfg) 0%Z (replicate (length (o_response_ids o)) 1%Z).
Proof using Type.
  intros [F1 _ _ _ _]. unfold attention_row.
  assert (Hl : prompt_length cfg = length (padded Front (prompt_length cfg) 0%Z (replicate (length (o_prompt_ids o)) 1%Z))).
  { by rewrite length_padded by (by rewrite length_replicate). }
  split; [by rewrite take_app_length' | by rewrite drop_app_length'].
Qed.

(** The part of [as_dict] that stores the reward. *)
Definition reward_cells (o : AgentLoopOutput) : result (list (string * cell)) :=
  match o_reward_score o with
  | JNull => Ok []
  | s => q ← number s; row ← set_at (replicate (length (o_response_mask o)) 0%Q) (-1) q; Ok [("rm_scores"%string, Floats row)]
  end.
Lemma reward_cells_uniform o : fits cfg o → uniform o →
  reward_cells o = Ok (if sc then [("rm_scores"%string, Floats (replicate (length (o_response_ids o) - 1) 0%Q ++ [score_of o]))] else []).
Proof using Type.
  intros [_ _ F3 _ _] [_ _ _ Hsc]. unfold reward_cells. destruct sc; [|by rewrite Hsc].
  destruct Hsc as [[q Hq] Hne]. assert (Hlen : 0 < length (o_response_mask o)) by (rewrite F3; destruct (o_response_ids o); cbn; [done|lia]).
  unfold score_of. rewrite Hq, <-F3. destruct (o_reward_score o); [done|..]; rewrite Hq; cbn [mbind result_bind];
    by rewrite set_last_score.
Qed.

(** What is read back is what the transfer queue would store: [as_dict]. *)
Lemma unpad_output_row o : fits cfg o → uniform o →
  ∃ cells, as_dict_tensors o None = Ok cells ∧ unpad_row (output_row o) = Some cells.
Proof using Type.
  intros Hf Hu. pose proof Hf as [F1 F2 F3 F4 F5]. destruct (take_attention o Hf) as [Ht Hd].
  unfold as_dict_tensors. fold (reward_cells o). rewrite (reward_cells_uniform o Hf Hu). cbn [mbind result_bind].
  eexists. split; [done|]. unfold unpad_row.
  change (cell_at "attention_mask" (output_row o)) with (Some (Ints (attention_row cfg o))).
  change (cell_at "prompts" (output_row o)) with (Some (Ints (padded Front (prompt_length cfg) pad (o_prompt_ids o)))). cbn iota.
  rewrite length_padded by done. unfold output_row, columns. rewrite F5, !fmap_app, !omap_app, Ht, Hd. f_equal.
  destruct Hu as [_ _ <- Hsc]. f_equal; [|f_equal].
  - cbn -[padded kept replicate]. by rewrite !kept_padded, kept_response by done.
  - revert F4. destruct (o_response_logprobs o) as [l|] eqn:El; [|done]. intros F4. cbn -[padded kept replicate]. rewrite El. by rewrite kept_response by done.
  - destruct sc; [|done]. destruct Hsc as [_ Hne]. cbn -[padded kept replicate reward_row]. unfold reward_row.
    rewrite kept_response; [done| |done]. rewrite length_app, length_replicate. destruct (o_response_ids o); cbn; [done|lia].
Qed.

Lemma sequence_output_row o : fits cfg o →
  sequence_of (output_row o) = Some (o_prompt_ids o ++ o_response_ids o, Z.of_nat <$> seq 0 (length (o_prompt_ids o) + length (o_response_ids o))).
Proof using Type.
  intros [F1 F2 _ _ _]. unfold sequence_of.
  change (cell_at "attention_mask" (output_row o)) with (Some (Ints (attention_row cfg o))).
  change (cell_at "input_ids" (output_row o)) with (Some (Ints (padded Front (prompt_length cfg) pad (o_prompt_ids o)
    ++ padded Back (response_length cfg) pad (o_response_ids o)))).
  change (cell_at "position_ids" (output_row o)) with (Some (Ints (compute_position_id_with_mask (attention_row cfg o)))). cbn iota.
  f_equal. f_equal.
  - unfold attention_row. rewrite kept_app; [by rewrite !kept_padded|]. by rewrite !length_padded by (by rewrite ?length_replicate).
  - unfold attention_row. cbn [padded]. rewrite !length_replicate.
    rewrite <-app_assoc, (app_assoc (replicate (length (o_prompt_ids o)) _)), <-replicate_add. apply kept_positions.
Qed.

(** ** Joining the workers' batches *)

Lemma meta_dicts (ms : list AgentLoopMetrics) :
  mapM meta_dict (metrics_meta <$> ms) = Ok ((λ m, match metrics_meta m with MDict d => d | _ => [] end) <$> ms).
Proof using Type. induction ms as [|m ms IH]; [done|]. cbn. by rewrite IH. Qed.

Definition rest_meta : list (string * meta mval) :=
  if sc then [("reward_extra_keys"%string, MList ((λ k, MVal (MStr k)) <$> info_names))] else [].

Lemma merge_metrics mss acc (Hacc : acc = [] ∨ acc = rest_meta) all :
  ∃ acc', foldM (foldM merge_meta_entry) (acc, all) (output_meta <$> mss) = Ok (acc', all ++ (metrics_meta <$> concat mss)).
Proof using Type.
  revert acc all Hacc. induction mss as [|ms mss IH]; intros acc all Hacc; [exists acc; by rewrite app_nil_r|].
  rewrite fmap_cons. cbn [foldM]. unfold output_meta at 2. cbn [foldM].
  change (merge_meta_entry (acc, all) ("metrics"%string, MList (metrics_meta <$> ms))) with
    (Ok (acc, all ++ (metrics_meta <$> ms)) : result _). cbn [mbind result_bind]. fold rest_meta.
  assert (Hno : "metrics"%string ∉ keys rest_meta) by (unfold rest_meta; destruct sc; apply (bool_decide_unpack _); by vm_compute).
  assert (Hstep : foldM merge_meta_entry (acc, all ++ (metrics_meta <$> ms)) rest_meta = Ok (rest_meta, all ++ (metrics_meta <$> ms))).
  { destruct Hacc as [->| ->].
    - apply (merge_fresh rest_meta []); [|done]. unfold rest_meta. destruct sc; apply (bool_decide_unpack _); by vm_compute.
    - apply merge_present; [done|]. intros k v Hin. unfold rest_meta in *. destruct sc; [|by apply elem_of_nil in Hin].
      apply list_elem_of_singleton in Hin as [= -> ->]. split; [done|]. cbn. apply forallb_Forall, Forall_fmap, Forall_forall. done. }
  rewrite Hstep. cbn [mbind result_bind]. destruct (IH rest_meta (all ++ (metrics_meta <$> ms)) ltac:(by right)) as [acc' ->].
  exists acc'. do 2 f_equal. cbn [concat]. by rewrite fmap_app, <-app_assoc.
Qed.

Lemma merge_output_meta mss : ∃ m, merge_meta (output_meta <$> mss) = Ok m.
Proof using Type.
  unfold merge_meta. destruct (merge_metrics mss [] ltac:(by left) []) as [acc ->]. cbn [mbind result_bind app].
  destruct (concat mss) as [|m0 ms]; [by eexists|]. rewrite bool_decide_eq_false_2 by done. rewrite meta_dicts. cbn [mbind result_bind].
  rewrite fmap_cons. destruct (dict_of_lists (match metrics_meta m0 with MDict d => d | _ => [] end)
    ((λ m, match metrics_meta m with MDict d => d | _ => [] end) <$> ms)) as (out & -> & _).
  - apply (bool_decide_unpack _). by vm_compute.
  - apply Forall_fmap, Forall_forall. by intros.
  - cbn [mbind result_bind]. by eexists.
Qed.

Lemma read_back_metrics d ms : meta_info d = output_meta ms → batch_metrics d = Ok ms.
Proof using Type.
  intros Hm. unfold batch_metrics, ditem. rewrite Hm. cbn [output_meta dget]. rewrite bool_decide_eq_true_2 by done.
  cbn [of_option mbind result_bind]. clear Hm. induction ms as [|m ms IH]; [done|]. cbn. rewrite IH. by destruct m.
Qed.

(** ** Columns added to every row *)

Lemma add_column_spec k (v : list json) (d : DataProto cell json mval) :
  wf d → len d ≠ 0 → length v = len d → k ∉ keys (non_tensor_batch d) →
  let d' := {| batch := batch d; non_tensor_batch := dset k v (non_tensor_batch d); meta_info := meta_info d |} in
  wf d' ∧ len d' = len d ∧
  (λ it, row_of it.2) <$> items d' = zip_with (λ r x, r ++ [(k, x)]) ((λ it, row_of it.2) <$> items d) v.
Proof using Type.
  intros (Ht & Hn & Nt & Nn) Hl Hv Hk d'.
  assert (Hlen : len d' = len d).
  { unfold len, d' in *. cbn [batch non_tensor_batch]. destruct (batch d); [done|]. destruct (non_tensor_batch d) as [|[k0 v0] nt]; [done|].
    cbn. by case_bool_decide; subst. }
  split; [|split; [done|]].
  - unfold wf. rewrite Hlen. split_and!; [done|by apply dset_rows|done|by apply dset_keys_nodup].
  - apply list_eq. intros i. unfold items. rewrite lookup_zip_with, !list_lookup_fmap, Hlen.
    destruct (decide (i < len d)) as [Hi|Hi].
    + rewrite lookup_seq_lt by done. cbn [fmap option_fmap option_map].
      destruct (lookup_lt_is_Some_2 v i) as [x Hx]; [by rewrite Hv|]. rewrite Hx. cbn. f_equal.
      unfold row_of, row_at, d'. cbn [non_tensor_batch snd]. rewrite dset_new by done. rewrite fmap_app, omap_app. cbn. by rewrite Hx.
    + rewrite lookup_seq_ge by lia. done.
Qed.

(** The keyword arguments of the rows of a batch. *)
Definition arguments (d : DataProto cell json mval) : list dict := (λ it, row_of it.2) <$> items d.

(** A missing agent name is the default one. *)
Definition named (d : DataProto cell json mval) (r : dict) : dict :=
  if dmem "agent_name" (non_tensor_batch d) then r else r ++ [("agent_name"%string, JStr (default_agent_loop cfg))].
Lemma with_agent_name_spec d : wf d → len d ≠ 0 →
  let d' := with_agent_name cfg d in
  wf d' ∧ len d' = len d ∧ meta_info d' = meta_info d ∧ arguments d' = named d <$> arguments d.
Proof using Type.
  intros Hw Hl d'. unfold d', with_agent_name, named. destruct (dmem "agent_name" (non_tensor_batch d)) eqn:E.
  - split_and!; try done. by rewrite list_fmap_id.
  - destruct (add_column_spec "agent_name"%string (replicate (len d) (JStr (default_agent_loop cfg))) d) as (H1 & H2 & H3);
      [done|done|by rewrite length_replicate|intros H%dmem_keys; congruence|]. split_and!; [done|done|done|].
    unfold arguments. rewrite H3. rewrite zip_with_replicate_r by (by rewrite length_fmap, items_length). done.
Qed.

Definition good_row (choices : dict → nat) (clocks : dict → Q) (validate : bool) (row : dict) (o : AgentLoopOutput) : Prop :=
  finished base_mm_kwargs cfg w choices clocks validate row = Ok o ∧ fits cfg o ∧ uniform o.
(** [d] is the batch of a worker whose rows ended with [os]. *)
Definition holds_outputs (input_keys : list string) (os : list AgentLoopOutput) (d : DataProto cell json mval) : Prop :=
  wf d ∧ len d = length os ∧ batch d ≠ None ∧ tensors_of d = output_columns os ∧
  keys (non_tensor_batch d) = output_fields input_keys ∧ meta_info d = output_meta (o_metrics <$> os).

Lemma worker_run choices clocks d :
  pads t pad → teacher w = None → wf d → len d ≠ 0 →
  (∀ row, row ∈ arguments (with_agent_name cfg d) → ∃ o, good_row choices clocks (meta_bool "validate" d) row o) →
  ∃ os q, worker_generate_sequences None base_mm_kwargs cfg w choices clocks d = Ok q ∧
    Forall2 (good_row choices clocks (meta_bool "validate" d)) (arguments (with_agent_name cfg d)) os ∧
    holds_outputs (keys (non_tensor_batch (with_agent_name cfg d))) os q.
Proof using Type.
  intros Hpad Ht Hw Hl Hrows. destruct (with_agent_name_spec d Hw Hl) as (Hw' & Hl' & _ & _).
  set (d' := with_agent_name cfg d) in *.
  destruct (mapM_total (finished base_mm_kwargs cfg w choices clocks (meta_bool "validate" d))
    (good_row choices clocks (meta_bool "validate" d)) (arguments d')) as (os & Hos & Hgood).
  { intros row Hrow. destruct (Hrows row Hrow) as [o Ho]. exists o. split; [by destruct Ho|done]. }
  assert (Hlen : length os = len d) by (rewrite <-(Forall2_length _ _ _ Hgood); unfold arguments; by rewrite length_fmap, items_length).
  assert (Hne : os ≠ []) by (intros ->; cbn in Hlen; lia).
  assert (Hfit : Forall (fits cfg) os) by (clear -Hgood; induction Hgood as [|r o rs os (_ & H & _) _ IH]; by constructor).
  assert (Huni : Forall uniform os) by (clear -Hgood; induction Hgood as [|r o rs os (_ & _ & H) _ IH]; by constructor).
  assert (Hrun : mapM (run_row None base_mm_kwargs cfg w choices clocks (meta_bool "validate" d)) (arguments d') = Ok (pad_output <$> os)).
  { clear -Hgood Hpad Ht. induction Hgood as [|r o rs os (H1 & H2 & _) _ IH]; [done|]. cbn [mapM].
    rewrite (run_row_padded _ _ _ pad choices clocks _ r o) by done. cbn [mbind result_bind]. by rewrite IH. }
  destruct Hw' as (_ & Hn & _ & Nn). rewrite Hl' in Hn.
  destruct (postprocess_spec os (non_tensor_batch d')) as (q & Hq & Hspec); [done..|by rewrite Hlen|done|].
  exists os, q. split; [|done]. unfold worker_generate_sequences. fold d'. fold (arguments d'). rewrite Hrun. exact Hq.
Qed.

Lemma holds_items K os q : holds_outputs K os q → (items q).*1 = output_row <$> os.
Proof using Type.
  intros (_ & Hl & _ & Ht & _). apply list_eq. intros i. unfold items. rewrite !list_lookup_fmap, Hl.
  destruct (decide (i < length os)) as [Hi|Hi].
  - rewrite lookup_seq_lt by done. cbn [fmap option_fmap option_map]. destruct (lookup_lt_is_Some_2 os i Hi) as [o Ho]. rewrite Ho.
    cbn [fmap option_fmap option_map]. f_equal. unfold item_at. cbn [fst]. rewrite Ht. unfold row_at, output_columns, output_row. rewrite <-list_fmap_compose. apply list_fmap_ext. intros j [k f] _.
    unfold compose. cbn. by rewrite list_lookup_fmap, Ho.
  - rewrite lookup_seq_ge by lia. symmetry. rewrite lookup_ge_None_2 by lia. done.
Qed.

Lemma argmax_q_lt l i best top : best < i → argmax_q i best top l < i + length l.
Proof using Type.
  revert i best top. induction l as [|q l IH]; intros i best top H; cbn; [lia|]. destruct (qlt top q).
  - specialize (IH (S i) i q). lia.
  - specialize (IH (S i) best top). lia.
Qed.
Lemma slowest_lt l : l ≠ [] → slowest l < length l.
Proof using Type. destruct l as [|q l]; [done|]. intros _. unfold slowest. pose proof (argmax_q_lt l 1 0 q). cbn. lia. Qed.

Lemma performance_ok ms n rows : ms ≠ [] → length rows = length ms → ∃ timing, performance_metrics ms n (Some rows) = Ok timing.
Proof using Type.
  intros Hne Hl. unfold performance_metrics. destruct (Nat.eqb_spec (length ms) 0) as [H|_]; [by destruct ms|]. cbn [negb mbind result_bind].
  match goal with |- context [slowest ?l] => set (times := l) end.
  assert (Ht : length times = length ms) by (unfold times; rewrite !length_zip_with, !length_fmap; lia).
  pose proof (slowest_lt times ltac:(by destruct times, ms)) as Hs.
  destruct (lookup_lt_is_Some_2 rows (slowest times)) as [row Hrow]; [lia|]. rewrite Hrow. cbn [of_option mbind result_bind]. by eexists.
Qed.

Lemma collect_outputs (good : DataProto cell json mval → list AgentLoopOutput → Prop) K ps qs :
  Forall2 (λ p q, ∃ os, good p os ∧ holds_outputs K os q) ps qs → ∃ oss, Forall2 good ps oss ∧ Forall2 (holds_outputs K) oss qs.
Proof using Type.
  induction 1 as [|p q ps qs (os & H1 & H2) _ (oss & H3 & H4)]; [by exists []|]. exists (os :: oss). split; by constructor.
Qed.

(** The joined batch. *)
Lemma join_outputs (K : list string) (oss : list (list AgentLoopOutput)) (qs : list (DataProto cell json mval)) :
  Forall2 (holds_outputs K) oss qs → oss ≠ [] →
  ∃ out, concat_protos qs = Ok out ∧ len out = length (concat oss) ∧ (items out).*1 = output_row <$> concat oss ∧
    mapM batch_metrics qs = Ok ((λ os : list AgentLoopOutput, o_metrics <$> os) <$> oss) ∧
    dget "prompts" (tensors_of out) ≠ None ∧
    ∃ cells, dget "attention_mask" (tensors_of out) = Some cells ∧ length (int_rows cells) = length (concat oss).
Proof using Type.
  intros H Hne. destruct H as [|os0 q0 oss' qs' H0 H]; [done|]. set (oss := os0 :: oss') in *. set (qs := q0 :: qs').
  assert (Hall : Forall2 (holds_outputs K) oss qs) by (by constructor).
  destruct (merge_output_meta ((λ os : list AgentLoopOutput, o_metrics <$> os) <$> oss)) as [m Hm].
  assert (Hmeta : meta_info <$> qs = output_meta <$> ((λ os : list AgentLoopOutput, o_metrics <$> os) <$> oss)).
  { clear -Hall. induction Hall as [|os q oss qs (_ & _ & _ & _ & _ & Hq) _ IH]; [done|]. cbn. by rewrite Hq, IH. }
  destruct (concat_like q0 qs' m) as (out & Hout & Hlike & _ & Hw & Hlen & Hit & Hcol & _).
  - clear -Hall. fold qs. induction Hall as [|os q oss qs (Hq & _) _ IH]; by constructor.
  - destruct H0 as (_ & _ & Hb0 & Ht0 & Hk0 & _). clear -H Hb0 Ht0 Hk0.
    induction H as [|os q oss qs (_ & _ & Hb & Ht & Hk & _) _ IH]; [done|]. constructor; [|done]. unfold like.
    rewrite Ht, Ht0, Hk, Hk0. split_and!; [|done|done]. unfold output_columns, keys. by rewrite <-!list_fmap_compose.
  - fold qs. by rewrite Hmeta.
  - fold qs in Hout, Hlen, Hit, Hcol. exists out. split; [done|]. split_and!.
    + rewrite Hlen, length_concat_nsum. f_equal. clear -Hall. induction Hall as [|os q oss qs (_ & Hq & _) _ IH]; [done|].
      rewrite !fmap_cons, Hq. by f_equal.
    + rewrite Hit. clear -Hall. induction Hall as [|os q oss qs Hq _ IH]; [done|]. cbn. rewrite !fmap_app, IH. f_equal. by eapply holds_items.
    + clear -Hall. induction Hall as [|os q oss qs Hq _ IH]; [done|]. cbn. destruct Hq as (_ & _ & _ & _ & _ & Hq).
      rewrite (read_back_metrics _ _ Hq). cbn [mbind result_bind]. by rewrite IH.
    + destruct H0 as (_ & _ & _ & Ht0 & _). rewrite Hcol; [done|]. rewrite Ht0. apply dget_is_Some. by eexists.
    + destruct H0 as (_ & _ & _ & Ht0 & _). eexists. split; [apply Hcol; rewrite Ht0; apply dget_is_Some; by eexists|].
      clear -Hall. unfold column. induction Hall as [|os q oss qs (_ & _ & _ & Hq & _) _ IH]; [done|]. cbn [fmap list_fmap omap list_omap].
      rewrite Hq. change (dget "attention_mask" (output_columns os)) with (Some ((λ o, Ints (attention_row cfg o)) <$> os)).
      cbn [concat]. unfold int_rows in *. rewrite omap_app, !length_app, IH. f_equal. clear.
      induction os as [|o os IHo]; [done|]. cbn. by f_equal.
Qed.

(** ** A batch carries its trajectories *)

(** The keyword arguments of the rows of the manager's batch. *)
Definition batch_arguments (d : DataProto cell json mval) : list dict := arguments (with_agent_name cfg (with_priority d)).

Lemma with_priority_spec d : wf d → len d ≠ 0 →
  wf (with_priority d) ∧ len (with_priority d) = len d ∧ meta_info (with_priority d) = meta_info d.
Proof using Type.
  intros Hw Hl. unfold with_priority. destruct (dmem "priority" (non_tensor_batch d)) eqn:E; [done|].
  destruct (add_column_spec "priority"%string ((λ i, JInt (Z.of_nat i)) <$> seq 0 (len d)) d) as (H1 & H2 & _);
    [done|done|by rewrite length_fmap, length_seq|intros H%dmem_keys; congruence|]. done.
Qed.

(** The pieces of a batch have the rows of the batch. *)
Lemma pieces_arguments d ps : wf d → len d ≠ 0 → Forall (valid_piece d) ps → concat (items <$> ps) = items d →
  concat ((λ p, arguments (with_agent_name cfg p)) <$> ps) = arguments (with_agent_name cfg d) ∧
  Forall (λ p, keys (non_tensor_batch (with_agent_name cfg p)) = keys (non_tensor_batch (with_agent_name cfg d)) ∧
               meta_bool "validate" p = meta_bool "validate" d) ps.
Proof using Type.
  intros Hw Hl Hps Hit. assert (Hmem : ∀ p k, valid_piece d p → dmem k (non_tensor_batch p) = dmem k (non_tensor_batch d)).
  { intros p k (_ & (_ & Hk & _) & _). apply eq_true_iff_eq. by rewrite !dmem_keys, Hk. }
  split.
  - destruct (with_agent_name_spec d Hw Hl) as (_ & _ & _ & ->). transitivity (named d <$> concat (arguments <$> ps)).
    + clear Hit. induction Hps as [|p ps Hp _ IH]; [done|]. cbn [concat fmap list_fmap]. rewrite fmap_app, IH. f_equal.
      destruct (with_agent_name_spec p) as (_ & _ & _ & ->); [apply Hp|apply Hp|]. apply list_fmap_ext. intros i r _. unfold named.
      by rewrite Hmem.
    + f_equal. unfold arguments. rewrite <-Hit. clear. induction ps as [|p ps IH]; [done|]. cbn [concat fmap list_fmap].
      by rewrite fmap_app, IH.
  - eapply Forall_impl; [exact Hps|]. intros p Hp. pose proof Hp as (_ & (_ & Hk & _) & Hm & _). split.
    + unfold with_agent_name. rewrite (Hmem p _ Hp). destruct (dmem _ _); cbn [non_tensor_batch]; [done|]. by rewrite !dset_keys, Hk.
    + unfold meta_bool. by rewrite Hm.
Qed.

(** The manager's batch: a row per trajectory, in order. *)
Lemma generate_rows auto_padding num_workers choices clocks d :
  pads t pad → teacher w = None → wf d → len d ≠ 0 → num_workers ≠ 0 → len d mod num_workers = 0 →
  (∀ row, row ∈ batch_arguments d → ∃ o, good_row choices clocks (meta_bool "validate" d) row o) →
  ∃ out os, generate_sequences None base_mm_kwargs cfg w auto_padding num_workers choices clocks d = Ok out ∧ len out = len d ∧
    Forall2 (good_row choices clocks (meta_bool "validate" d)) (batch_arguments d) os ∧ (items out).*1 = output_row <$> os.
Proof using Type.
  intros Hpad Ht Hw Hl Hn Hmod Hrows. destruct (with_priority_spec d Hw Hl) as (Hwp & Hlp & Hmp).
  set (dp := with_priority d) in *. assert (Hval : meta_bool "validate" dp = meta_bool "validate" d) by (unfold meta_bool; by rewrite Hmp).
  destruct (chunk_valid auto_padding num_workers dp Hwp Hn) as (ps & Hc & Hlps & Hps & Hit & _); [by rewrite Hlp..|].
  destruct (pieces_arguments dp ps Hwp) as [Hargs Hall]; [by rewrite Hlp|done|done|]. change (arguments (with_agent_name cfg dp)) with (batch_arguments d) in Hargs.
  set (K := keys (non_tensor_batch (with_agent_name cfg dp))) in *.
  destruct (mapM_total (worker_generate_sequences None base_mm_kwargs cfg w choices clocks)
    (λ p q, ∃ os, Forall2 (good_row choices clocks (meta_bool "validate" d)) (arguments (with_agent_name cfg p)) os ∧ holds_outputs K os q) ps)
    as (qs & Hqs & Hf).
  { intros p Hp. rewrite Forall_forall in Hps, Hall. destruct (Hps p Hp) as (Hwp' & _ & _ & Hlp'), (Hall p Hp) as [HK Hv].
    destruct (worker_run choices clocks p Hpad Ht Hwp' Hlp') as (os & q & Hq & Hg & Ho).
    - rewrite Hv, Hval. intros row Hrow. apply Hrows. rewrite <-Hargs. apply list_elem_of_In, in_concat.
      exists (arguments (with_agent_name cfg p)). split; [|by apply list_elem_of_In].
      apply list_elem_of_In, list_elem_of_fmap. by exists p.
    - exists q. split; [done|]. exists os. rewrite <-Hval, <-Hv, <-HK. done. }
  destruct (collect_outputs _ K ps qs Hf) as (oss & Hgood & Hhold).
  destruct (join_outputs K oss qs Hhold) as (out & Hout & Hlen & Hitems & Hms & Hp & cells & Hatt & Hcells).
  { intros ->. apply Forall2_nil_inv_r in Hgood as ->. done. }
  assert (Hrel : Forall2 (good_row choices clocks (meta_bool "validate" d)) (batch_arguments d) (concat oss)).
  { rewrite <-Hargs. clear -Hgood. induction Hgood as [|p os ps oss H _ IH]; [constructor|]. cbn. by apply Forall2_app. }
  assert (Htotal : length (concat oss) = len d).
  { rewrite <-(Forall2_length _ _ _ Hrel). unfold batch_arguments, arguments. rewrite length_fmap, items_length.
    destruct (with_agent_name_spec dp Hwp) as (_ & Hla & _); [by rewrite Hlp|]. by etransitivity. }
  destruct (dget "prompts" (tensors_of out)) as [pc|] eqn:Epc; [|done].
  destruct (performance_ok (concat ((λ os : list AgentLoopOutput, o_metrics <$> os) <$> oss)) (length (default [] (head (int_rows pc)))) (int_rows cells))
    as (timing & Htm).
  { intros E. apply (f_equal length) in E. rewrite fmap_concat_lists, length_fmap, Htotal in E. done. }
  { by rewrite Hcells, fmap_concat_lists, length_fmap. }
  assert (Hq0 : ∃ q0, head qs = Some q0) by (destruct qs; [by apply Forall2_length in Hf; destruct ps|by eexists]). destruct Hq0 as [q0 Hq0].
  exists {| batch := batch out; non_tensor_batch := non_tensor_batch out;
            meta_info := set_columns (ddel "metrics" (meta_info q0))
              [("timing"%string, MDict ((λ kv : string * Q, (kv.1, MVal (MNum kv.2))) <$> timing))] |}, (concat oss).
  split; [|split_and!; [by transitivity (len out); [|by rewrite Hlen, Htotal]|done|exact Hitems]].
  unfold generate_sequences. fold dp. rewrite Hc. cbn [mbind result_bind]. rewrite Hqs. cbn [mbind result_bind]. rewrite Hout.
  cbn [mbind result_bind]. rewrite Hms. cbn [mbind result_bind]. unfold ditem at 1. rewrite Epc. cbn [of_option mbind result_bind].
  rewrite Hatt. cbn [fmap option_fmap option_map]. rewrite Htm. cbn [mbind result_bind]. by rewrite Hq0.
Qed.

(** C28: Rolling out a batch loses nothing.  Let every row's agent loop succeed within the
    configured lengths, and let the rows have the same optional fields.  Then on any number of
    workers that divides the batch, [generate_sequences] succeeds, and row [i] of its result,
    read through its attention mask, is the trajectory of row [i]: the tensors that [as_dict]
    would store without padding (prompt, response, mask, log probabilities and the reward on
    the last token), the whole sequence, and its positions from zero. *)
Theorem generated_batch_carries_trajectories auto_padding num_workers choices clocks d :
  pads t pad → teacher w = None → wf d → len d ≠ 0 → num_workers ≠ 0 → len d mod num_workers = 0 →
  (∀ row, row ∈ batch_arguments d → ∃ o, good_row choices clocks (meta_bool "validate" d) row o) →
  ∃ out, generate_sequences None base_mm_kwargs cfg w auto_padding num_workers choices clocks d = Ok out ∧ len out = len d ∧
    ∀ i row o, batch_arguments d !! i = Some row → finished base_mm_kwargs cfg w choices clocks (meta_bool "validate" d) row = Ok o →
      ∃ cells, unpad_row (row_at i (tensors_of out)) = Some cells ∧ as_dict_tensors o None = Ok cells ∧
        sequence_of (row_at i (tensors_of out)) =
          Some (o_prompt_ids o ++ o_response_ids o, Z.of_nat <$> seq 0 (length (o_prompt_ids o) + length (o_response_ids o))).
Proof using Type.
  intros Hpad Ht Hw Hl Hn Hmod Hrows.
  destruct (generate_rows auto_padding num_workers choices clocks d Hpad Ht Hw Hl Hn Hmod Hrows) as (out & os & Hout & Hlen & Hrel & Hitems).
  exists out. split_and!; [done|done|]. intros i row o Hrow Ho.
  destruct (Forall2_lookup_l _ _ _ _ _ Hrel Hrow) as (o' & Ho' & Hfin & Hfit & Hu). rewrite Ho in Hfin. injection Hfin as <-.
  assert (Hi : row_at i (tensors_of out) = output_row o).
  { assert (H : (items out).*1 !! i = Some (output_row o)) by (by rewrite Hitems, list_lookup_fmap, Ho').
    unfold items in H. rewrite !list_lookup_fmap in H. destruct (seq 0 (len out) !! i) as [j|] eqn:Ej; [|done].
    apply lookup_seq in Ej as [-> _]. cbn in H. by injection H. }
  rewrite Hi. destruct (unpad_output_row o Hfit Hu) as (row_cells & H1 & H2). exists row_cells.
  split_and!; [done|done|by apply sequence_output_row].
Qed.
End batches.

(** ** Routed experts and teacher log probabilities *)

(** The experts of the tokens, a row each, land on the tokens of the left-padded sequence. *)
Lemma place_experts_spec (experts : list (list Z)) P p total :
  p ≤ P → P - p + length experts ≤ total →
  let zero := replicate (length (default [] (head experts))) 0%Z in
  place_experts experts P p total = Ok (replicate (P - p) zero ++ experts ++ replicate (total - (P - p) - length experts) zero).
Proof.
  intros Hp Ht zero. unfold place_experts. destruct (Z.ltb_spec (Z.of_nat P - Z.of_nat p) 0) as [|_]; [lia|].
  destruct (Z.ltb_spec (Z.of_nat total) (Z.min (Z.of_nat P - Z.of_nat p + Z.of_nat (length experts)) (Z.of_nat total))) as [|_]; [lia|].
  cbn [orb negb mbind result_bind].
  replace (Z.to_nat (Z.min (Z.of_nat P - Z.of_nat p + Z.of_nat (length experts)) (Z.of_nat total) - (Z.of_nat P - Z.of_nat p)))
    with (length experts) by lia.
  rewrite Nat.eqb_refl. cbn [mbind result_bind]. by replace (Z.to_nat (Z.of_nat P - Z.of_nat p)) with (P - p) by lia.
Qed.

(** The teacher's rows, one per token, are read back where the sequence is attended. *)
Lemma pad_rows_kept {A} (v : A) rows P R p r :
  p ≤ P → r ≤ R → length rows = p + r →
  kept (padded Front P 0%Z (replicate p 1%Z) ++ padded Back R 0%Z (replicate r 1%Z))
       (pad_rows (Z.of_nat P - Z.of_nat p) (Z.of_nat R - Z.of_nat r) v rows) = rows.
Proof.
  intros Hp Hr Hl. unfold pad_rows. replace (Z.to_nat (- (Z.of_nat P - Z.of_nat p))) with 0 by lia.
  replace (Z.to_nat (- (Z.of_nat R - Z.of_nat r))) with 0 by lia. rewrite drop_0, Nat.sub_0_r, take_ge by lia.
  replace (Z.to_nat (Z.of_nat P - Z.of_nat p)) with (P - p) by lia. replace (Z.to_nat (Z.of_nat R - Z.of_nat r)) with (R - r) by lia.
  cbn [padded]. rewrite !length_replicate, <-app_assoc, (app_assoc (replicate p _)), <-replicate_add.
  rewrite kept_app by (by rewrite !length_replicate). rewrite kept_zeros. cbn [app].
  rewrite kept_app by (by rewrite length_replicate). by rewrite kept_zeros, kept_ones, app_nil_r.
Qed.

(** A manager finds a teacher: the only one, or the one of the sample's key. *)
Lemma resolve_teacher_key_spec {client} (m : teacher_manager client) key k :
  resolve_teacher_key m key = Ok k → teacher_models m ≠ [] →
  k ∈ keys (teacher_models m) ∧ (length (teacher_models m) ≠ 1 → key = Some k).
Proof.
  unfold resolve_teacher_key. intros H Hne. destruct (teacher_models m) as [|[k0 q0] [|e l]] eqn:E; [done|..].
  - injection H as <-. split; [by left|done].
  - inv_ok H. apply of_option_Ok in Hv as ->. inv_ok H. injection H as <-. split; [by apply dmem_keys|done].
Qed.

(** ** What a reward manager reads *)

Section scoring.
Context `{tokenizer} (base_mm_kwargs : dict).

Definition total_length (o : AgentLoopOutput) : nat := length (o_prompt_ids o) + length (o_response_ids o).
(** The number of tokens of the last response that a reward manager decodes. *)
Definition decoded_length (outputs : list AgentLoopOutput) (o : AgentLoopOutput) : nat :=
  total_length o - (max_length (total_length <$> outputs) - max_length ((λ o, length (o_response_ids o)) <$> outputs)).

Lemma max_length_ge l n : n ∈ l → n ≤ max_length l.
Proof using Type. unfold max_length. induction 1 as [n l|n m l _ IH]; cbn; lia. Qed.
Lemma max_length_lub l n : Forall (λ m, m ≤ n) l → max_length l ≤ n.
Proof using Type. unfold max_length. induction 1 as [|m l Hm _ IH]; cbn; lia. Qed.

Lemma response_le_total outputs : max_length ((λ o, length (o_response_ids o)) <$> outputs) ≤ max_length (total_length <$> outputs).
Proof using Type.
  apply max_length_lub, Forall_fmap, Forall_forall. intros o Ho. unfold compose. transitivity (total_length o); [unfold total_length; lia|].
  apply max_length_ge, list_elem_of_fmap. by exists o.
Qed.

(** The last row of the batch for the reward worker. *)
Lemma last_score_row outputs kwargs rows o : score_batch None base_mm_kwargs outputs kwargs = Ok rows → last outputs = Some o →
  ∃ row, last rows = Some row ∧ fields (sr_item row) = score_fields kwargs o ∧
    responses (sr_item row) = o_response_ids o ++ replicate (max_length ((λ o, length (o_response_ids o)) <$> outputs) - length (o_response_ids o)) 0%Z ∧
    attention_mask (sr_item row) = replicate (total_length o) 1%Z ++ replicate (max_length (total_length <$> outputs) - total_length o) 0%Z.
Proof using Type.
  intros Hs Hl. unfold score_batch in Hs. inv_ok Hs. inv_ok Hs. injection Hs as <-.
  apply mapM_Ok_length in Hv. assert (Hlen : length v0 = length v).
  { unfold pad_positions in Hv0. destruct (mapM _ v) as [ls|] eqn:E; [|by inv_ok Hv0; injection Hv0 as <-].
    injection Hv0 as <-. unfold pad_sequence. rewrite !length_fmap. symmetry. by apply length_mapM in E. }
  rewrite last_lookup in Hl. assert (Hn : length outputs ≠ 0) by (intros E; by destruct outputs).
  rewrite last_lookup. unfold pad_sequence. rewrite length_zip_with, !length_zip_with, !length_fmap.
  rewrite Hlen, Hv. rewrite !Nat.min_id. rewrite lookup_zip_with, !lookup_zip_with, !list_lookup_fmap, Hl. cbn.
  destruct (lookup_lt_is_Some_2 v0 (pred (length outputs))) as [c Hc]; [lia|]. rewrite Hc. cbn.
  eexists. split; [done|]. cbn. split_and!; [done| |].
  - by rewrite <-list_fmap_compose.
  - rewrite length_app, length_replicate. unfold total_length. f_equal. f_equal. f_equal. rewrite <-!list_fmap_compose. f_equal.
    apply list_fmap_ext. intros i x _. unfold compose. by rewrite length_replicate, length_app.
Qed.

Lemma zsum_drop_ones a b k : zsum (drop k (replicate a 1%Z ++ replicate b 0%Z)) = Z.of_nat (a - k).
Proof using Type.
  destruct (decide (k ≤ a)) as [Hk|Hk].
  - rewrite drop_app_le, drop_replicate by (by rewrite length_replicate). by rewrite zsum_app, zsum_ones, zsum_zeros, Z.add_0_r.
  - rewrite drop_app_ge, drop_replicate by (rewrite length_replicate; lia). rewrite zsum_zeros. lia.
Qed.

(** What a trajectory is scored on.  The batch that goes to a reward worker pads prompts,
    responses and sequences of a trajectory's outputs each on the right.  The reward managers
    decode of the last response (padded with zeros) as many tokens as the last sequence reaches
    into the last places of the mask.  That is the response itself for a single output; for
    several outputs it is the response exactly when the two numbers agree. *)
Theorem reward_reads_last_response outputs kwargs rows o :
  score_batch None base_mm_kwargs outputs kwargs = Ok rows → last outputs = Some o → o_response_ids o ≠ [] →
  ∃ it, sr_item <$> last rows = Some it ∧
    let ids := valid_ids (valid_by_response it) it in
    ids = take (decoded_length outputs o)
            (o_response_ids o ++ replicate (max_length ((λ o, length (o_response_ids o)) <$> outputs) - length (o_response_ids o)) 0%Z) ∧
    (ids = o_response_ids o ↔ decoded_length outputs o = length (o_response_ids o)) ∧
    (outputs = [o] → ids = o_response_ids o).
Proof using Type.
  intros Hs Hl Hne. destruct (last_score_row outputs kwargs rows o Hs Hl) as (row & Hrow & _ & Hresp & Hmask).
  exists (sr_item row). split; [by rewrite Hrow|]. intros ids. pose proof (response_le_total outputs) as HRL.
  set (R := max_length ((λ o, length (o_response_ids o)) <$> outputs)) in *. set (L := max_length (total_length <$> outputs)) in *.
  assert (Hin : o ∈ outputs) by (rewrite last_lookup in Hl; by eapply list_elem_of_lookup_2).
  assert (Hr : length (o_response_ids o) ≤ R) by (apply max_length_ge, list_elem_of_fmap; by exists o).
  assert (HtL : total_length o ≤ L) by (apply max_length_ge, list_elem_of_fmap; by exists o).
  assert (Hpos : 0 < length (o_response_ids o)) by (destruct (o_response_ids o); cbn; [done|lia]).
  assert (Hlr : length (responses (sr_item row)) = R) by (rewrite Hresp, length_app, length_replicate; lia).
  assert (Hlm : length (attention_mask (sr_item row)) = L) by (rewrite Hmask, length_app, !length_replicate; lia).
  assert (Hids : ids = take (decoded_length outputs o) (responses (sr_item row))).
  { unfold ids, valid_ids, valid_by_response. rewrite Hlr, Hlm. unfold zslice at 2, slice_bound. rewrite Hlm.
    destruct (Z.ltb_spec (- Z.of_nat R) 0) as [_|]; [|lia]. destruct (Z.ltb_spec (Z.of_nat L) 0) as [|_]; [lia|].
    unfold slice. replace (Z.to_nat (Z.of_nat L + - Z.of_nat R)) with (L - R) by lia.
    rewrite take_ge by (rewrite length_drop, Hlm; lia).
    rewrite Hmask, zsum_drop_ones, zslice_head by lia. by rewrite Nat2Z.id. }
  split; [by rewrite Hids, Hresp|]. assert (Hiff : ids = o_response_ids o ↔ decoded_length outputs o = length (o_response_ids o)).
  { rewrite Hids, Hresp. split.
    - intros E. apply (f_equal length) in E. rewrite length_take, length_app, length_replicate in E.
      assert (Hd : decoded_length outputs o = total_length o - (L - R)) by done. lia.
    - intros ->. apply take_app_length. }
  split; [done|]. intros ->. apply Hiff. unfold decoded_length, total_length. cbn. lia.
Qed.

(** With a discriminative reward model that is scored while rolling out, every answer lacks the
    extra information that [_compute_score] reads: no trajectory can be scored. *)
Lemma streamed_reward_model_fails {I} (run_single : I → result (json * dict)) disrm (it : list score_row → I) v outputs o kwargs choice clock rows :
  last outputs = Some o → o_reward_score o = JNull → score_batch None base_mm_kwargs outputs kwargs = Ok rows → disrm (it rows) = Ok v →
  compute_trajectory_score None base_mm_kwargs (Some [λ rows, RewardLoop.compute_score None true run_single disrm (it rows)])
    choice clock outputs kwargs = Raise (KeyError "reward_extra_info").
Proof using Type.
  intros Hl Ho Hs Hd. unfold compute_trajectory_score. rewrite Hl. cbn [of_option mbind result_bind]. rewrite Ho, Hs.
  cbn [mbind result_bind length]. rewrite Nat.mod_1_r. cbn [lookup list_lookup of_option mbind result_bind].
  unfold RewardLoop.compute_score. cbn. by rewrite Hd.
Qed.
End scoring.

(** ** Concrete rollouts *)

Section sample_rollouts.
Local Instance plain_tokenizer : tokenizer := {|
  pad_token_id := Some 0%Z; tokenizer_decode _ := EmptyString;
  tokenizer_pad s n ts := Ok (padded s n 0%Z ts, padded s n 0%Z (replicate (length ts) 1%Z)) |}.
Local Definition small_rollout : rollout_config := {|
  prompt_length := 4; response_length := 3; c_temperature := 1; c_top_p := 1; c_top_k := -1; calculate_log_probs := true;
  val_temperature := 0; val_top_p := 1; val_top_k := -1; default_agent_loop := "single_turn_agent" |}.
Local Definition output_of (prompt response : list Z) : AgentLoopOutput := {|
  o_prompt_ids := prompt; o_response_ids := response; o_response_mask := replicate (length response) 1%Z;
  o_response_logprobs := Some (replicate (length response) (-1)%Q); o_routed_experts := None; o_multi_modal_data := [];
  o_reward_score := JNull; o_num_turns := 2;
  o_metrics := {| generate_sequences_time := 1; tool_calls_time := 0; compute_score_time := 0; num_preempted := -1 |};
  o_extra_fields := []; o_mm_processor_kwargs := None |}.
(** The prompt of row [i] has [i + 1] tokens, its response is [i; i]. *)
Local Definition small_loop (params : sampling_params) (kwargs : dict) : result AgentLoopOutput :=
  match get "index" kwargs with
  | JInt i => Ok (output_of (replicate (Z.to_nat i + 1) 7%Z) [i; i])
  | _ => Raise (KeyError "index")
  end.
Local Definition small_worker : worker (client := unit) := {|
  registry := [("single_turn_agent"%string, small_loop)];
  reward_handles := Some [λ rows, Ok {| reward_score := JInt (Z.of_nat (length rows)); reward_extra_info := Some [("acc"%string, JInt 1)] |}];
  teacher := None; teacher_key := "data_source"; teacher_generate := λ _ _ _ _ _, Raise (RuntimeError "no teacher") |}.
Local Definition small_prompts : DataProto cell json mval := {|
  batch := None; meta_info := [];
  non_tensor_batch := [("raw_prompt"%string, (λ i, JStr "q") <$> seq 0 4); ("index"%string, (λ i, JInt (Z.of_nat i)) <$> seq 0 4)] |}.

Lemma generated_batch_carries_trajectories_witness : ∃ out,
  generate_sequences None [] small_rollout small_worker false 2 (λ _, 0) (λ _, 0%Q) small_prompts = Ok out ∧ len out = 4 ∧
  unpad_row (row_at 2 (tensors_of out)) =
    Some [("prompts", Ints [7; 7; 7]%Z); ("responses", Ints [2; 2]%Z); ("response_mask", Ints [1; 1]%Z);
          ("rollout_log_probs", Floats [-1; -1]%Q); ("rm_scores", Floats [0; 1]%Q)]%string.
Proof.
  destruct (generated_batch_carries_trajectories [] small_rollout small_worker 0%Z ["raw_prompt"; "reward_extra_info"]%string ["acc"%string]
    true true false 2 (λ _, 0) (λ _, 0%Q) small_prompts) as (out & Hout & Hlen & Hrows); [by split|done| |done|done|done| |].
  - split; [by repeat constructor|]. split; [by repeat constructor|]. split; apply (bool_decide_unpack _); by vm_compute.
  - intros row Hrow. vm_compute in Hrow. repeat (apply elem_of_cons in Hrow as [->|Hrow]); [..|by apply elem_of_nil in Hrow];
      (eexists; split; [vm_compute; reflexivity|]; split;
       [constructor; vm_compute; try done; lia | constructor; [by vm_compute|by eexists|by vm_compute|by split; [eexists|]]]).
  - exists out. split_and!; [done|done|].
    destruct (finished [] small_rollout small_worker (λ _, 0) (λ _, 0%Q) false
      (default [] (batch_arguments small_rollout small_prompts !! 2))) as [o|] eqn:Ho; [|vm_compute in Ho; done].
    destruct (Hrows 2 (default [] (batch_arguments small_rollout small_prompts !! 2)) o) as (cells & -> & Hc & _); [done|done|].
    vm_compute in Ho. injection Ho as <-. vm_compute in Hc. by injection Hc as <-.
Defined.

(** Two outputs of a trajectory whose last response is read short: prompts of 10 and 5 tokens,
    responses of 20 and 10; only 5 of the 10 tokens are scored. *)
Local Definition short_outputs : list AgentLoopOutput :=
  [output_of (replicate 10 1%Z) (replicate 20 2%Z); output_of (replicate 5 3%Z) (Z.of_nat <$> seq 0 10)].
Lemma reward_reads_last_response_witness : ∃ it rows,
  score_batch None [] short_outputs [] = Ok rows ∧ sr_item <$> last rows = Some it ∧
  valid_ids (valid_by_response it) it = [0; 1; 2; 3; 4]%Z.
Proof.
  destruct (score_batch None [] short_outputs []) as [rows|] eqn:Hs; [|vm_compute in Hs; done].
  destruct (reward_reads_last_response [] short_outputs [] rows (output_of (replicate 5 3%Z) (Z.of_nat <$> seq 0 10)) Hs) as (it & Hit & E & _);
    [done|done|].
  exists it, rows. split; [done|]. split; [done|]. rewrite E. by vm_compute.
Defined.
(** With prompts of 10 and 16 tokens, responses of 5 and 3, padding is scored too. *)
Example padding_is_scored :
  (λ rows, valid_ids (valid_by_response (sr_item rows)) (sr_item rows)) <$>
    (match score_batch None [] [output_of (replicate 10 1%Z) (replicate 5 2%Z); output_of (replicate 16 3%Z) [4; 5; 6]%Z] [] with
     | Ok rows => last rows | Raise _ => None end)
  = Some [4; 5; 6; 0; 0]%Z.
Proof. by vm_compute. Qed.

(** Repeats of a sample are numbered where they are neighbours. *)
Example interleaved_repeats :
  rollout_n <$> get_trajectory_info 1 [JInt 3; JInt 3; JInt 5; JInt 5; JInt 3] false = [0; 1; 0; 1; 0].
Proof. by vm_compute. Qed.
End sample_rollouts.
