(* ===== verification/RolloutGroup.v ===== *)
(** * RolloutGroup: prompts, sessions and the transfer queue

    Models src/verl/trainer/ppo/v1/agent_loop_tq.py: the agent-loop worker that rolls out
    every prompt in [n] concurrent sessions, stores the outputs of a session in the transfer
    queue and reports the group, together with the trainer that submits prompts and the
    replay buffer that samples groups (ReplayBuffer).  The transfer queue is an interface
    with its laws; sessions, reports and sampling interleave as steps. *)

From S2P Require Import Prelude PyStr PyDict Json PyRat RolloutRequest DataProto Dispatch RewardManagers RewardLoop AgentLoopBatch.
From S2P Require Import ReplayBuffer Rlsd TeacherBatch TorchFunctional Groupwise Advantages StepAdvantage.
From Stdlib Require Import QArith.
From stdpp Require Import pretty.
Local Close Scope Q_scope.
#[local] Open Scope py_scope.

(** ** The outputs of a session *)

(** The tag of a stored output. *)
Definition trajectory_tag (o : AgentLoopOutput) (global_steps : Z) : dict :=
  let p := Z.of_nat (length (o_prompt_ids o)) in
  let r := Z.of_nat (length (o_response_ids o)) in
  [("status", JStr "success"); ("prompt_len", JInt p); ("response_len", JInt r); ("seq_len", JInt (p + r));
   ("global_steps", JInt global_steps); ("min_global_steps", get "min_global_steps" (o_extra_fields o));
   ("max_global_steps", get "max_global_steps" (o_extra_fields o))]%string.

(** What is stored for an output: tensors, the other fields that are read later, tag. *)
Record stored_output := {
  st_tensors : list (string * cell); st_fields : dict; st_multi_modal_inputs : dict; st_tag : dict }.

Section postprocess.
Context `{tokenizer} (proc : option processor) (base_mm_kwargs : dict) {client : Type} (w : worker (client := client)).

(** The reward of the last output is that of all outputs of the session. *)
Definition share_reward (outputs : list AgentLoopOutput) : result (list AgentLoopOutput) :=
  final ← of_option (IndexError "list index out of range") (last outputs);
  match o_reward_score final, removelast outputs with
  | JNull, _ | _, [] => Ok outputs
  | s, firsts =>
      info ← getitem "reward_extra_info" (o_extra_fields final);
      Ok (((λ o, {| o_prompt_ids := o_prompt_ids o; o_response_ids := o_response_ids o; o_response_mask := o_response_mask o;
                    o_response_logprobs := o_response_logprobs o; o_routed_experts := o_routed_experts o;
                    o_multi_modal_data := o_multi_modal_data o; o_reward_score := s; o_num_turns := o_num_turns o;
                    o_metrics := o_metrics o; o_extra_fields := set "reward_extra_info" info (o_extra_fields o);
                    o_mm_processor_kwargs := o_mm_processor_kwargs o |}) <$> firsts) ++ [final])
  end.

Definition store_output (kwargs : dict) (global_steps : Z) (teacher : option (list (list Z) * list (list Q))) (o : AgentLoopOutput)
    : result stored_output :=
  let ids := o_prompt_ids o ++ o_response_ids o in
  let mask := replicate (length ids) 1%Z in
  inputs ← compute_multi_modal_inputs proc base_mm_kwargs o ids;
  let '(positions, inputs) := compute_position_ids proc ids mask inputs in
  tensors ← as_dict_tensors o teacher;
  response_mask ← ditem "response_mask" tensors;
  Ok {| st_tensors := set_columns [("loss_mask"%string, response_mask); ("input_ids"%string, Ints ids); ("position_ids"%string, positions)] tensors;
        st_fields := update kwargs [("num_turns"%string, JInt (o_num_turns o)); ("extra_fields"%string, JObj (o_extra_fields o))];
        st_multi_modal_inputs := inputs; st_tag := trajectory_tag o global_steps |}.

(** [AgentLoopWorkerTQ._agent_loop_postprocess]: keys and stored outputs of a session. *)
Definition store_session (choice : nat) (clock : Q) (validate : bool) (uid : string) (session_id : nat) (kwargs : dict)
    (outputs : list AgentLoopOutput) : result (list (string * stored_output)) :=
  match outputs with
  | [] => Ok []
  | _ =>
      outputs ← compute_trajectory_score proc base_mm_kwargs (reward_handles w) choice clock outputs kwargs;
      final ← of_option (IndexError "list index out of range") (last outputs);
      t ← compute_teacher_logprobs w final (o_prompt_ids final) (o_response_ids final) validate kwargs;
      outputs ← share_reward outputs;
      steps ← (v ← getitem "global_steps" kwargs; as_int v);
      let n := length outputs in
      rows ← mapM (λ io : nat * AgentLoopOutput, store_output kwargs steps (if Nat.eqb (S io.1) n then t else None) io.2)
               (imap (λ i o, (i, o)) outputs);
      Ok (imap (λ i r, (trajectory_key (uid, N.of_nat session_id, N.of_nat i), r)) rows)
  end.
End postprocess.

(** The number of sessions of a prompt, and whether it is sampled greedily. *)
Definition session_count (rollout_n val_n : nat) (validate : bool) (prompt : dict) : result nat :=
  match Json.lookup "__rollout_n__" prompt with
  | Some (JInt n) => Ok (Z.to_nat n)
  | Some _ => Raise (TypeError "object cannot be interpreted as an integer")
  | None => Ok (if validate then val_n else rollout_n)
  end.
Definition session_params (p : sampling_params) (validate : bool) (prompt : dict) : sampling_params :=
  if negb validate && negb (truthy (get_default "__do_sample__" (JBool true) prompt)) then apply_greedy_sampling_params p else p.

(** ** The transfer queue *)

(** The tags of the training partition: what a listing shows, and how putting and clearing
    change it.  A put merges into the tag that is there. *)
Class TransferQueue (Q : Type) := {
  tq_items : Q → list (string * dict);
  tq_put : list (string * dict) → Q → Q;
  tq_clear : list string → Q → Q }.
Definition tq_tag {Q} `{TransferQueue Q} (q : Q) (k : string) : option dict := dget k (tq_items q).
Class TransferQueueLaws (Q : Type) `{TransferQueue Q} := {
  tq_keys : ∀ q, NoDup (keys (tq_items q));
  tq_tag_put : ∀ kvs q k, NoDup (keys kvs) →
    tq_tag (tq_put kvs q) k = match dget k kvs with
                              | Some t => Some (update t (default [] (tq_tag q k)))
                              | None => tq_tag q k
                              end;
  tq_tag_clear : ∀ ks q k, tq_tag (tq_clear ks q) k = if bool_decide (k ∈ ks) then None else tq_tag q k }.

(** ** Groups *)

Inductive session := Running | Stored (outputs : list AgentLoopOutput) | Failed.
(** Where [_run_prompt] is: not begun, waiting for its sessions, or ended with a report. *)
Inductive progress := Submitted | Active | Finished | Failure.
(** [taken]: the replay buffer has sampled the prompt. *)
Record group := { g_steps : Z; g_sessions : list session; g_progress : progress; g_taken : bool }.

Definition status_name (p : progress) : string :=
  match p with Submitted => "pending" | Active => "running" | Finished => "finished" | Failure => "failure" end.
Definition is_stored (x : session) : bool := match x with Stored _ => true | _ => false end.
Definition is_failed (x : session) : bool := match x with Failed => true | _ => false end.

Definition with_sessions (l : list session) (g : group) : group :=
  {| g_steps := g_steps g; g_sessions := l; g_progress := g_progress g; g_taken := g_taken g |}.
Definition with_progress (p : progress) (g : group) : group :=
  {| g_steps := g_steps g; g_sessions := g_sessions g; g_progress := p; g_taken := g_taken g |}.
Definition take_group (g : group) : group :=
  {| g_steps := g_steps g; g_sessions := g_sessions g; g_progress := g_progress g; g_taken := true |}.

(** The entries of a session's outputs. *)
Definition session_entries (uid : string) (sid : nat) (g : group) (outputs : list AgentLoopOutput) : list (string * dict) :=
  imap (λ i o, (trajectory_key (uid, N.of_nat sid, N.of_nat i), trajectory_tag o (g_steps g))) outputs.

Section system.
Context {Q} `{TransferQueueLaws Q} (c : buffer_config) (iter : gset string → list string).

Record system := { store : Q; groups : gmap string group }.

Definition set_status (uid : string) (st : string) (q : Q) : Q := tq_put [(uid, [("status"%string, JStr st)])] q.
Definition listing_of (q : Q) : option listing := Some [("train"%string, tq_items q)].
Definition take_all (uids : list string) (gs : gmap string group) : gmap string group := foldr (alter take_group) gs uids.

Inductive group_step : system → system → Prop :=
  (** the trainer registers a prompt, under a fresh uid *)
  | step_submit s uid g : groups s !! uid = None → has_char "_" uid = false →
      group_step s {| store := tq_put [(uid, prompt_tag "pending" g)] (store s);
                groups := <[uid := {| g_steps := g; g_sessions := []; g_progress := Submitted; g_taken := false |}]> (groups s) |}
  (** [_run_prompt] begins and spawns [n] sessions *)
  | step_start s uid gr n : groups s !! uid = Some gr → g_progress gr = Submitted →
      group_step s {| store := set_status uid "running" (store s);
                groups := <[uid := with_progress Active (with_sessions (replicate n Running) gr)]> (groups s) |}
  (** a session stores its outputs *)
  | step_store s uid gr sid outputs : groups s !! uid = Some gr → g_sessions gr !! sid = Some Running →
      group_step s {| store := tq_put (session_entries uid sid gr outputs) (store s);
                groups := <[uid := with_sessions (<[sid := Stored outputs]> (g_sessions gr)) gr]> (groups s) |}
  (** a session raises *)
  | step_fail s uid gr sid : groups s !! uid = Some gr → g_sessions gr !! sid = Some Running →
      group_step s {| store := store s;
                groups := <[uid := with_sessions (<[sid := Failed]> (g_sessions gr)) gr]> (groups s) |}
  (** [asyncio.gather] returns when all sessions have, and raises as soon as one has; a bad
      number of sessions raises before any is spawned *)
  | step_finish s uid gr : groups s !! uid = Some gr → g_progress gr = Active → forallb is_stored (g_sessions gr) = true →
      group_step s {| store := set_status uid "finished" (store s); groups := <[uid := with_progress Finished gr]> (groups s) |}
  | step_failure s uid gr : groups s !! uid = Some gr → g_progress gr = Active → existsb is_failed (g_sessions gr) = true ∨ g_sessions gr = [] →
      group_step s {| store := set_status uid "failure" (store s); groups := <[uid := with_progress Failure gr]> (groups s) |}
  (** the replay buffer hands out a batch and clears prompts and dropped trajectories *)
  | step_sample s g n r selected dropped : sample_once c iter g n "train" (listing_of (store s)) = Ok (Some r) → (0 <= n)%Z →
      sr_cleared r = ("train"%string, selected) :: dropped →
      group_step s {| store := tq_clear (selected ++ concat dropped.*2) (store s); groups := take_all selected (groups s) |}
  (** the trainer clears trajectories of prompts it has sampled *)
  | step_clear s ks : (∀ k, k ∈ ks → ∃ gr, groups s !! uid_of k = Some gr ∧ g_taken gr = true ∧ k ≠ uid_of k) →
      group_step s {| store := tq_clear ks (store s); groups := groups s |}.

Inductive reachable : system → Prop :=
  | reach_init q : tq_items q = [] → reachable {| store := q; groups := ∅ |}
  | reach_step s s' : reachable s → group_step s s' → reachable s'.
End system.

(** ** Keys *)

Lemma uid_of_prompt u : has_char "_" u = false → uid_of u = u.
Proof. intros Hu. unfold uid_of. by rewrite split_on_none. Qed.

Lemma split_trajectory_key u s i : has_char "_" u = false →
  split_on "_" (trajectory_key (u, s, i)) = [u; pretty s; pretty i].
Proof.
  intros Hu. unfold trajectory_key.
  change ("_" +:+ pretty s +:+ "_" +:+ pretty i)%string with (String "_" (pretty s +:+ String "_" (pretty i))).
  rewrite !split_on_app, !split_on_none by (done || apply digits_no_underscore). done.
Qed.
Lemma uid_of_trajectory u s i : has_char "_" u = false → uid_of (trajectory_key (u, s, i)) = u.
Proof. intros Hu. unfold uid_of. by rewrite split_trajectory_key. Qed.
Lemma trajectory_not_prompt u s i : has_char "_" u = false → trajectory_key (u, s, i) ≠ u.
Proof. intros Hu E. pose proof (split_trajectory_key u s i Hu) as Hs. rewrite E, split_on_none in Hs by done. done. Qed.
Lemma trajectory_key_inj u s i s' i' : has_char "_" u = false → trajectory_key (u, s, i) = trajectory_key (u, s', i') → s = s' ∧ i = i'.
Proof.
  intros Hu E. apply (f_equal (split_on "_")) in E. rewrite !split_trajectory_key in E by done.
  injection E as E1 E2. split; by apply (inj pretty).
Qed.

Lemma session_entries_nodup uid sid g outputs : has_char "_" uid = false → NoDup (keys (session_entries uid sid g outputs)).
Proof.
  intros Hu. unfold keys, session_entries. rewrite fmap_imap. apply NoDup_alt. intros i j x Hi Hj. rewrite !list_lookup_imap in Hi, Hj.
  destruct (outputs !! i), (outputs !! j); try done. injection Hi as <-. injection Hj as E. apply trajectory_key_inj in E as [_ E]; [lia|done].
Qed.
Lemma session_entry uid sid g outputs k t : has_char "_" uid = false →
  dget k (session_entries uid sid g outputs) = Some t ↔
  ∃ i o, outputs !! i = Some o ∧ k = trajectory_key (uid, N.of_nat sid, N.of_nat i) ∧ t = trajectory_tag o (g_steps g).
Proof.
  intros Hu. split.
  - intros Hd%dget_elem. apply list_elem_of_lookup in Hd as [i Hi]. unfold session_entries in Hi. rewrite list_lookup_imap in Hi.
    destruct (outputs !! i) as [o|] eqn:Ho; [|done]. injection Hi as <- <-. by exists i, o.
  - intros (i & o & Ho & -> & ->). apply elem_dget; [by apply session_entries_nodup|]. apply list_elem_of_lookup. exists i.
    unfold session_entries. by rewrite list_lookup_imap, Ho.
Qed.

(** ** What a poll sees *)

Definition is_prompt (tag : dict) : bool := truthy (get_default "is_prompt" (JBool false) tag).
Definition done_prompt (tag : dict) : Prop := is_prompt tag = true ∧ (get "status" tag = JStr "finished" ∨ get "status" tag = JStr "failure").

Lemma is_str_eq v s : is_str v s = true → v = JStr s.
Proof. destruct v; cbn; try done. by intros ->%bool_decide_eq_true. Qed.
Lemma getitem_get k d v : getitem k d = Ok v → get k d = v.
Proof. unfold getitem, get, get_default. by intros ->%of_option_Ok. Qed.

Lemma sync_item_done p k tag p' : sync_item p (k, tag) = Ok p' →
  (∀ x, x ∈ finished_keys p' ∪ failure_keys p' ↔ x ∈ finished_keys p ∪ failure_keys p ∨ (x = k ∧ done_prompt tag)) ∧
  (∀ x, x ∈ keys (trajectories p') ↔ x ∈ keys (trajectories p) ∨ (x = k ∧ is_prompt tag = false)).
Proof.
  unfold sync_item. fold (is_prompt tag). unfold done_prompt. destruct (is_prompt tag) eqn:Ep.
  - intros H. inv_ok H. inv_ok H. apply getitem_get in Hv0. unfold add_prompt in H.
    destruct (is_str v0 "pending") eqn:E1; [apply is_str_eq in E1; injection H as <-; cbn; rewrite Hv0, E1; split; intros; naive_solver|].
    destruct (is_str v0 "running") eqn:E2; [apply is_str_eq in E2; injection H as <-; cbn; rewrite Hv0, E2; split; intros; naive_solver|].
    destruct (is_str v0 "finished") eqn:E3; [apply is_str_eq in E3; injection H as <-; cbn; rewrite Hv0, E3; split; intros; set_solver|].
    destruct (is_str v0 "failure") eqn:E4; [|done]. apply is_str_eq in E4. injection H as <-. cbn. rewrite Hv0, E4. split; intros; set_solver.
  - intros [= <-]. cbn [finished_keys failure_keys trajectories]. split; [intros; naive_solver|]. intros x. rewrite dset_keys. case_bool_decide as Hk.
    + split; [by left|]. intros [Hx|[-> _]]; done.
    + rewrite elem_of_app, list_elem_of_singleton. naive_solver.
Qed.

Lemma sync_items_done items p p' : foldM sync_item p items = Ok p' →
  (∀ x, x ∈ finished_keys p' ∪ failure_keys p' ↔ x ∈ finished_keys p ∪ failure_keys p ∨ ∃ tag, (x, tag) ∈ items ∧ done_prompt tag) ∧
  (∀ x, x ∈ keys (trajectories p') ↔ x ∈ keys (trajectories p) ∨ ∃ tag, (x, tag) ∈ items ∧ is_prompt tag = false).
Proof.
  revert p. induction items as [|[k tag] items IH]; intros p H.
  - injection H as <-. split; intros x; (split; [by left|]); intros [Hx|(t & Hin & _)]; try done; by apply elem_of_nil in Hin.
  - cbn [foldM] in H. apply bind_Ok_inv in H as (p1 & H1 & H). destruct (sync_item_done _ _ _ _ H1) as [A1 B1], (IH _ H) as [A B].
    split; intros x; [rewrite A, A1|rewrite B, B1]; split.
    + intros [[Hx|[-> Hd]]|(t & Hin & Hd)]; [by left|right; exists tag; split; [by left|done]|right; exists t; split; [by right|done]].
    + intros [Hx|(t & [[= -> ->]|Hin]%elem_of_cons & Hd)]; [by do 2 left|by left; right|right; by exists t].
    + intros [[Hx|[-> Hd]]|(t & Hin & Hd)]; [by left|right; exists tag; split; [by left|done]|right; exists t; split; [by right|done]].
    + intros [Hx|(t & [[= -> ->]|Hin]%elem_of_cons & Hd)]; [by do 2 left|by left; right|right; by exists t].
Qed.

(** ** The invariant *)

Lemma take_all_lookup uids (gs : gmap string group) x :
  NoDup uids → take_all uids gs !! x = if bool_decide (x ∈ uids) then take_group <$> gs !! x else gs !! x.
Proof.
  unfold take_all. induction 1 as [|u uids Hu Hn IH]; [by rewrite bool_decide_eq_false_2 by apply not_elem_of_nil|]. cbn [foldr].
  destruct (decide (x = u)) as [->|Hne].
  - rewrite lookup_alter_eq, IH, bool_decide_eq_false_2, bool_decide_eq_true_2 by (done || by left). done.
  - rewrite lookup_alter_ne, IH by done. repeat case_bool_decide; try done; set_solver.
Qed.


Section invariant.
Context {Q} `{TransferQueueLaws Q} (c : buffer_config) (iter : gset string → list string).
Hypothesis iter_perm : ∀ s, iter s ≡ₚ elements s.
Implicit Types s : system (Q := Q).

Definition output_at (gr : group) (sid i : nat) (o : AgentLoopOutput) : Prop :=
  ∃ outs, g_sessions gr !! sid = Some (Stored outs) ∧ outs !! i = Some o.
Definition output_key (uid : string) (sid i : nat) : string := trajectory_key (uid, N.of_nat sid, N.of_nat i).

(** A group against the tags of the queue. *)
Record group_ok (tag : string → option dict) (uid : string) (gr : group) : Prop := {
  ok_uid : has_char "_" uid = false;
  ok_prompt : tag uid = if g_taken gr then None else Some (prompt_tag (status_name (g_progress gr)) (g_steps gr));
  ok_outputs : g_taken gr = false → ∀ sid i o, output_at gr sid i o → tag (output_key uid sid i) = Some (trajectory_tag o (g_steps gr));
  ok_finished : g_progress gr = Finished → forallb is_stored (g_sessions gr) = true;
  ok_submitted : g_progress gr = Submitted → g_sessions gr = [];
  ok_taken : g_taken gr = true → g_progress gr = Finished ∨ g_progress gr = Failure }.

(** An entry of the queue is a prompt or an output of its group. *)
Definition entry_ok (gs : gmap string group) (k : string) (t : dict) : Prop :=
  ∃ gr, gs !! uid_of k = Some gr ∧
    (k = uid_of k ∨ ∃ sid i o, output_at gr sid i o ∧ k = output_key (uid_of k) sid i ∧ t = trajectory_tag o (g_steps gr)).

Record inv s : Prop := {
  inv_groups : ∀ uid gr, groups s !! uid = Some gr → group_ok (tq_tag (store s)) uid gr;
  inv_entries : ∀ k t, tq_tag (store s) k = Some t → entry_ok (groups s) k t }.

Lemma group_ok_frame tag tag' uid gr : (∀ k, uid_of k = uid → tag' k = tag k) → group_ok tag uid gr → group_ok tag' uid gr.
Proof using Type.
  intros Hf [H1 H2 H3 H4 H5 H6]. split; try done.
  - by rewrite Hf by (by apply uid_of_prompt).
  - intros Ht sid i o Ho. rewrite Hf by (by apply uid_of_trajectory). by apply H3.
Qed.

(** An entry stays justified when its group only gains outputs. *)
Definition grows (gr gr' : group) : Prop :=
  g_steps gr' = g_steps gr ∧ ∀ sid i o, output_at gr sid i o → output_at gr' sid i o.
Lemma entry_ok_grows gs gs' k t :
  (∀ gr, gs !! uid_of k = Some gr → ∃ gr', gs' !! uid_of k = Some gr' ∧ grows gr gr') → entry_ok gs k t → entry_ok gs' k t.
Proof using Type.
  intros Hg (gr & Hgr & Hk). destruct (Hg gr Hgr) as (gr' & Hgr' & Hs & Ho). exists gr'. split; [done|].
  destruct Hk as [Hk|(sid & i & o & H1 & H2 & H3)]; [by left|right]. exists sid, i, o. rewrite Hs. naive_solver.
Qed.
Lemma insert_grows (gs : gmap string group) uid gr gr' : gs !! uid = Some gr → grows gr gr' →
  ∀ x g, gs !! x = Some g → ∃ g', (<[uid := gr']> gs) !! x = Some g' ∧ grows g g'.
Proof using Type.
  intros Hu Hg x g Hx. destruct (decide (x = uid)) as [->|Hne].
  - exists gr'. rewrite lookup_insert_eq. split; [done|]. by simplify_eq.
  - exists g. rewrite lookup_insert_ne by done. split; [done|]. by split.
Qed.

(** A step that puts entries of one group. *)
Lemma inv_put s uid gr' kvs :
  inv s → (∀ x g, groups s !! x = Some g → ∃ g', (<[uid := gr']> (groups s)) !! x = Some g' ∧ grows g g') → NoDup (keys kvs) → (∀ k, k ∈ keys kvs → uid_of k = uid) →
  group_ok (tq_tag (tq_put kvs (store s))) uid gr' →
  (∀ k t, dget k kvs = Some t → entry_ok (<[uid := gr']> (groups s)) k (update t (default [] (tq_tag (store s) k)))) →
  inv {| store := tq_put kvs (store s); groups := <[uid := gr']> (groups s) |}.
Proof using H0.
  intros [Hg He] Hgrow Hnd Hown Hok Hnew. split; cbn [store groups].
  - intros u g Hl. destruct (decide (u = uid)) as [->|Hne]; [rewrite lookup_insert_eq in Hl; by injection Hl as <-|].
    rewrite lookup_insert_ne in Hl by done. eapply group_ok_frame; [|by apply Hg]. intros k Hk. rewrite tq_tag_put by done.
    destruct (dget k kvs) eqn:E; [|done]. exfalso. apply Hne. rewrite <-Hk. apply Hown, dget_is_Some. by eexists.
  - intros k t Hk. rewrite tq_tag_put in Hk by done. destruct (dget k kvs) as [t0|] eqn:E.
    + injection Hk as <-. by apply Hnew.
    + eapply entry_ok_grows; [|by apply He]. apply Hgrow.
Qed.

(** A step that changes a group only. *)
Lemma inv_groups_only s uid gr gr' : inv s → groups s !! uid = Some gr → grows gr gr' →
  group_ok (tq_tag (store s)) uid gr' → inv {| store := store s; groups := <[uid := gr']> (groups s) |}.
Proof using Type.
  intros [Hg He] Hu Hgrow Hok. split; cbn [store groups].
  - intros u g Hl. destruct (decide (u = uid)) as [->|Hne]; [rewrite lookup_insert_eq in Hl; by injection Hl as <-|].
    rewrite lookup_insert_ne in Hl by done. by apply Hg.
  - intros k t Hk. eapply entry_ok_grows; [|by apply He]. by apply insert_grows with gr.
Qed.

(** *** The steps of the workers *)

Lemma tag_status s uid gr st : inv s → groups s !! uid = Some gr → g_taken gr = false →
  tq_tag (set_status uid st (store s)) uid = Some (prompt_tag st (g_steps gr)).
Proof using H0.
  intros [Hg _] Hu Ht. destruct (Hg uid gr Hu) as [_ Hp _ _ _ _]. rewrite Ht in Hp. unfold set_status. rewrite tq_tag_put.
  - cbn [dget]. rewrite bool_decide_eq_true_2 by done. by rewrite Hp.
  - repeat constructor. apply not_elem_of_nil.
Qed.

(** A report changes the prompt's tag and nothing else. *)
Lemma inv_report s uid gr gr' p : inv s → groups s !! uid = Some gr → g_taken gr = false → g_steps gr' = g_steps gr →
  g_taken gr' = false → g_progress gr' = p → (∀ sid i o, output_at gr' sid i o ↔ output_at gr sid i o) →
  (p = Finished → forallb is_stored (g_sessions gr') = true) → (p = Submitted → g_sessions gr' = []) →
  inv {| store := set_status uid (status_name p) (store s); groups := <[uid := gr']> (groups s) |}.
Proof using H0.
  intros Hi Hu Ht Hs Ht' Hp Ho Hfin Hsub. pose proof (inv_groups _ Hi uid gr Hu) as [K1 K2 K3 _ _ _].
  assert (Hnd : NoDup (keys [(uid, [("status"%string, JStr (status_name p))])])) by (repeat constructor; apply not_elem_of_nil).
  apply inv_put; [done| |done| | |].
  - apply insert_grows with gr; [done|]. split; [done|]. intros sid i o Hx. by apply Ho.
  - intros k Hk. apply list_elem_of_singleton in Hk as ->. by apply uid_of_prompt.
  - split; [done| | |by rewrite Hp|by rewrite Hp|by rewrite Ht'].
    + rewrite Ht', Hp, Hs. by apply tag_status.
    + intros _ sid i o Hx. rewrite Hs, tq_tag_put by done. cbn [dget].
      rewrite bool_decide_eq_false_2 by (by apply trajectory_not_prompt). apply K3; [done|]. by apply Ho.
  - intros k t Hk. cbn [dget] in Hk. case_bool_decide as E; [|done]. subst k. exists gr'.
    rewrite uid_of_prompt, lookup_insert_eq by done. split; [done|by left].
Qed.

Lemma inv_submit s uid g : inv s → groups s !! uid = None → has_char "_" uid = false →
  inv {| store := tq_put [(uid, prompt_tag "pending" g)] (store s);
         groups := <[uid := {| g_steps := g; g_sessions := []; g_progress := Submitted; g_taken := false |}]> (groups s) |}.
Proof using H0.
  intros Hi Hu Hc. assert (Hnd : NoDup (keys [(uid, prompt_tag "pending" g)])) by (repeat constructor; apply not_elem_of_nil).
  assert (Hold : tq_tag (store s) uid = None).
  { destruct (tq_tag (store s) uid) as [t|] eqn:E; [|done]. apply (inv_entries _ Hi) in E as (gr & Hgr & _).
    rewrite uid_of_prompt in Hgr by done. congruence. }
  apply inv_put; [done| |done| | |].
  - intros x gr Hx. exists gr. rewrite lookup_insert_ne by congruence. by repeat split.
  - intros k Hk. apply list_elem_of_singleton in Hk as ->. by apply uid_of_prompt.
  - split; [done| | |done|done|done].
    + cbn [g_taken g_progress g_steps]. rewrite tq_tag_put by done. cbn [dget]. rewrite bool_decide_eq_true_2 by done. by rewrite Hold.
    + intros _ sid i o (outs & Ho & _). done.
  - intros k t Hk. cbn [dget] in Hk. case_bool_decide as E; [|done]. subst k. eexists.
    rewrite uid_of_prompt, lookup_insert_eq by done. split; [done|by left].
Qed.

Lemma inv_store s uid gr sid outputs : inv s → groups s !! uid = Some gr → g_sessions gr !! sid = Some Running →
  inv {| store := tq_put (session_entries uid sid gr outputs) (store s);
         groups := <[uid := with_sessions (<[sid := Stored outputs]> (g_sessions gr)) gr]> (groups s) |}.
Proof using H0.
  intros Hi Hu Hr. pose proof (inv_groups _ Hi uid gr Hu) as [K1 K2 K3 K4 K5 K6].
  set (gr' := with_sessions _ gr). pose proof (lookup_lt_Some _ _ _ Hr) as Hlt.
  assert (Hout : ∀ sid' i o, output_at gr' sid' i o ↔ output_at gr sid' i o ∨ (sid' = sid ∧ outputs !! i = Some o)).
  { intros sid' i o. unfold output_at, gr'. cbn. destruct (decide (sid' = sid)) as [->|Hne].
    - rewrite list_lookup_insert_eq by done. rewrite Hr. split; [intros (outs & [= <-] & Ho); by right|].
      intros [(outs & ? & _)|[_ Ho]]; [done|]. by exists outputs.
    - rewrite list_lookup_insert_ne by done. naive_solver. }
  assert (Hfresh : ∀ i, tq_tag (store s) (output_key uid sid i) = None).
  { intros i. destruct (tq_tag (store s) (output_key uid sid i)) as [t|] eqn:E; [|done].
    apply (inv_entries _ Hi) in E as (gr0 & Hgr & Hk). unfold output_key in *. rewrite uid_of_trajectory in Hgr, Hk by done. simplify_eq.
    destruct Hk as [Hk|(sid' & i' & o & (outs & Hx & _) & E & _)]; [by apply trajectory_not_prompt in Hk|].
    apply trajectory_key_inj in E as [E _]; [|done]. assert (sid' = sid) as -> by lia. by rewrite Hr in Hx. }
  apply inv_put; [done| |by apply session_entries_nodup| | |].
  - apply insert_grows with gr; [done|]. split; [done|]. intros sid' i o Hx. apply Hout. by left.
  - intros k Hk. apply dget_is_Some in Hk as [t Hk]. apply session_entry in Hk as (i & o & _ & -> & _); [|done]. by apply uid_of_trajectory.
  - assert (Hold : ∀ k, (∀ i o, outputs !! i = Some o → k ≠ output_key uid sid i) →
      tq_tag (tq_put (session_entries uid sid gr outputs) (store s)) k = tq_tag (store s) k).
    { intros k Hk. rewrite tq_tag_put by (by apply session_entries_nodup). destruct (dget k _) as [t|] eqn:E; [|done].
      apply session_entry in E as (i & o & Ho & -> & _); [|done]. by destruct (Hk i o). }
    split; [done| | | | |done].
    + rewrite Hold; [done|]. intros i o _ E. by eapply trajectory_not_prompt.
    + intros Ht sid' i o Hx. apply Hout in Hx as [Hx|[-> Ho]].
      * rewrite Hold; [by apply K3|]. intros i' o' _ E. apply trajectory_key_inj in E as [E _]; [|done]. assert (sid' = sid) as -> by lia.
        destruct Hx as (outs & Hx & _). by rewrite Hr in Hx.
      * rewrite tq_tag_put by (by apply session_entries_nodup).
        rewrite (proj2 (session_entry uid sid gr outputs _ (trajectory_tag o (g_steps gr)) K1)) by (by exists i, o).
        cbn [g_steps gr' with_sessions]. by rewrite Hfresh.
    + intros Hf. apply K4 in Hf. rewrite forallb_Forall, Forall_lookup in Hf. by apply Hf in Hr.
    + intros Hs. apply K5 in Hs. by rewrite Hs in Hr.
  - intros k t Hk. apply session_entry in Hk as (i & o & Ho & -> & ->); [|done]. fold (output_key uid sid i). rewrite Hfresh.
    exists gr'. unfold output_key. rewrite uid_of_trajectory, lookup_insert_eq by done. split; [done|]. right. exists sid, i, o.
    split; [apply Hout; by right|done].
Qed.

Lemma inv_fail s uid gr sid : inv s → groups s !! uid = Some gr → g_sessions gr !! sid = Some Running →
  inv {| store := store s; groups := <[uid := with_sessions (<[sid := Failed]> (g_sessions gr)) gr]> (groups s) |}.
Proof using Type.
  intros Hi Hu Hr. pose proof (inv_groups _ Hi uid gr Hu) as [K1 K2 K3 K4 K5 K6].
  set (gr' := with_sessions _ gr). pose proof (lookup_lt_Some _ _ _ Hr) as Hlt.
  assert (Hout : ∀ sid' i o, output_at gr' sid' i o ↔ output_at gr sid' i o).
  { intros sid' i o. unfold output_at, gr'. cbn. destruct (decide (sid' = sid)) as [->|Hne].
    - rewrite list_lookup_insert_eq by done. rewrite Hr. naive_solver.
    - by rewrite list_lookup_insert_ne. }
  apply inv_groups_only with gr; [done|done| |].
  - split; [done|]. intros sid' i o Hx. by apply Hout.
  - split; [done|done| | | |done].
    + intros Ht sid' i o Hx. apply K3; [done|]. by apply Hout.
    + intros Hf. apply K4 in Hf. rewrite forallb_Forall, Forall_lookup in Hf. by apply Hf in Hr.
    + intros Hs. apply K5 in Hs. by rewrite Hs in Hr.
Qed.

(** *** Sampling *)

(** What a sample of a poll hands out: [selected] prompts, a batch, cleared trajectories. *)
Lemma sample_entries s g n r : (0 <= n)%Z → sample_once c iter g n "train" (listing_of (store s)) = Ok (Some r) →
  ∃ selected dropped, sr_cleared r = ("train"%string, selected) :: dropped ∧
    (∀ uid, uid ∈ selected → ∃ tag, tq_tag (store s) uid = Some tag ∧ done_prompt tag) ∧
    (∀ k, k ∈ bm_keys (sr_batch r) ++ concat dropped.*2 ↔
          uid_of k ∈ selected ∧ ∃ tag, tq_tag (store s) k = Some tag ∧ is_prompt tag = false).
Proof using H0 iter_perm.
  intros Hn Hs. destruct (sample_once_spec c iter iter_perm g n "train" (listing_of (store s)) r Hn) as (parts & Hp & _ & Hsam); [|done|].
  { intros id items Hx. apply list_elem_of_singleton in Hx. injection Hx as _ ->. apply tq_keys. }
  unfold listing_of, sync_metadata in Hp. cbn [default from_option mapM id fst snd] in Hp. inv_ok Hp.
  apply bind_Ok_inv in Hv as (p & Hf & [= <-]). cbn [mbind result_bind] in Hp. injection Hp as <-.
  unfold partition_of in Hsam. cbn [dget] in Hsam. rewrite bool_decide_eq_true_2 in Hsam by done. cbn [default from_option] in Hsam.
  destruct (sync_items_done _ _ _ Hf) as [Hdone Hkeys].
  assert (Htag : ∀ k tag, (k, tag) ∈ tq_items (store s) ↔ tq_tag (store s) k = Some tag).
  { intros k tag. split; [apply elem_dget, tq_keys|apply dget_elem]. }
  destruct Hsam as (selected & dropped & Hc & _ & _ & Hin & _ & _ & _ & Hperm & _). exists selected, dropped. split; [done|]. split.
  - intros uid Hu. apply Hin, Hdone in Hu as [Hu|(tag & Ht & Hd)]; [set_solver|]. exists tag. split; [by apply Htag|done].
  - intros k. rewrite Hperm. unfold select_trajectories. rewrite list_elem_of_fmap. split.
    + intros ([k' t'] & -> & Hk). apply list_elem_of_In, List.filter_In in Hk as [Hk Hsel]. apply bool_decide_eq_true in Hsel.
      split; [done|]. assert (Hk' : k' ∈ keys (trajectories p)).
      { apply list_elem_of_fmap. exists (k', t'). split; [done|]. by apply list_elem_of_In. }
      apply Hkeys in Hk' as [Hk'|(tag & Ht & Hd)]; [by apply elem_of_nil in Hk'|]. exists tag. split; [by apply Htag|done].
    + intros (Hsel & tag & Ht & Hd). assert (Hk : k ∈ keys (trajectories p)) by (apply Hkeys; right; exists tag; split; [by apply Htag|done]).
      apply list_elem_of_fmap in Hk as ([k' t'] & -> & Hk). exists (k', t'). split; [done|]. apply list_elem_of_In, List.filter_In.
      split; [by apply list_elem_of_In|]. by apply bool_decide_eq_true.
Qed.

(** A done prompt tag belongs to a group that has reported and is not sampled yet. *)
Lemma done_group s uid tag : inv s → tq_tag (store s) uid = Some tag → done_prompt tag → uid_of uid = uid →
  ∃ gr, groups s !! uid = Some gr ∧ g_taken gr = false ∧ (g_progress gr = Finished ∨ g_progress gr = Failure).
Proof using Type.
  intros Hi Ht Hd Hu. pose proof (inv_entries _ Hi _ _ Ht) as (gr & Hgr & _). rewrite Hu in Hgr. exists gr. split; [done|].
  destruct (inv_groups _ Hi _ _ Hgr) as [_ Hp _ _ _ _]. destruct (g_taken gr); [congruence|]. split; [done|].
  rewrite Hp in Ht. injection Ht as <-. destruct Hd as [_ [Hd|Hd]]; destruct (g_progress gr); try done; first [by left|by right].
Qed.

(** In a reachable queue, prompts are the keys that are their own uid. *)
Lemma prompt_or_output s k tag : inv s → tq_tag (store s) k = Some tag →
  (is_prompt tag = true ∧ uid_of k = k) ∨
  (is_prompt tag = false ∧ ∃ gr sid i o, groups s !! uid_of k = Some gr ∧ output_at gr sid i o ∧ k = output_key (uid_of k) sid i).
Proof using Type.
  intros Hi Ht. pose proof (inv_entries _ Hi _ _ Ht) as (gr & Hgr & [Hk|(sid & i & o & Ho & Hk & ->)]).
  - left. rewrite <-Hk in Hgr. destruct (inv_groups _ Hi _ _ Hgr) as [_ Hp _ _ _ _]. destruct (g_taken gr); [congruence|].
    rewrite Hp in Ht. injection Ht as <-. by split.
  - right. split; [done|]. exists gr, sid, i, o. done.
Qed.


Lemma inv_sample s g n r selected dropped : inv s → (0 <= n)%Z →
  sample_once c iter g n "train" (listing_of (store s)) = Ok (Some r) → sr_cleared r = ("train"%string, selected) :: dropped → NoDup selected →
  inv {| store := tq_clear (selected ++ concat dropped.*2) (store s); groups := take_all selected (groups s) |}.
Proof using H0 iter_perm.
  intros Hi Hn Hs Hc Hnd. destruct (sample_entries s g n r Hn Hs) as (sel & drp & Hc' & Hsel & Hkeys). rewrite Hc in Hc'. injection Hc' as <- <-.
  assert (Hown : ∀ k, k ∈ selected ++ concat dropped.*2 → uid_of k ∈ selected).
  { intros k [Hk|Hk]%elem_of_app; [|by apply Hkeys, elem_of_app; right]. destruct (Hsel k Hk) as (tag & Ht & Hd).
    destruct (prompt_or_output s k tag Hi Ht) as [[_ E]|[E _]]; [by rewrite E|]. destruct Hd as [Hd _]. congruence. }
  assert (Huid : ∀ uid, uid ∈ selected → uid_of uid = uid).
  { intros uid Hu. destruct (Hsel uid Hu) as (tag & Ht & Hd & _). destruct (prompt_or_output s uid tag Hi Ht) as [[_ E]|[E _]]; congruence. }
  split; cbn [store groups].
  - intros uid gr Hl. rewrite take_all_lookup in Hl by done. case_bool_decide as Hu.
    + destruct (Hsel uid Hu) as (tag & Ht & Hd). destruct (done_group s uid tag Hi Ht Hd (Huid uid Hu)) as (gr0 & Hgr & Hfresh & Hrep).
      rewrite Hgr in Hl. injection Hl as <-. destruct (inv_groups _ Hi _ _ Hgr) as [K1 _ _ K4 K5 _]. split; try done.
      cbn [g_taken take_group]. rewrite tq_tag_clear, bool_decide_eq_true_2; [done|]. apply elem_of_app. by left.
    + eapply group_ok_frame; [|by apply (inv_groups _ Hi)]. intros k Hk. rewrite tq_tag_clear, bool_decide_eq_false_2; [done|].
      intros Hin%Hown. by rewrite Hk in Hin.
  - intros k t Hk. rewrite tq_tag_clear in Hk. case_bool_decide; [done|]. eapply entry_ok_grows; [|by apply (inv_entries _ Hi)].
    intros gr Hgr. rewrite take_all_lookup by done. case_bool_decide; [|exists gr; by repeat split].
    rewrite Hgr. exists (take_group gr). by repeat split.
Qed.

Lemma inv_clear s ks : inv s → (∀ k, k ∈ ks → ∃ gr, groups s !! uid_of k = Some gr ∧ g_taken gr = true ∧ k ≠ uid_of k) →
  inv {| store := tq_clear ks (store s); groups := groups s |}.
Proof using H0.
  intros Hi Hks. split; cbn [store groups].
  - intros uid gr Hgr. pose proof (inv_groups _ Hi _ _ Hgr) as [K1 K2 K3 K4 K5 K6]. split; try done.
    + rewrite tq_tag_clear, bool_decide_eq_false_2; [done|]. intros Hin. destruct (Hks uid Hin) as (_ & _ & _ & Hne). by rewrite uid_of_prompt in Hne.
    + intros Ht sid i o Ho. rewrite tq_tag_clear, bool_decide_eq_false_2; [by apply K3|]. intros Hin. destruct (Hks _ Hin) as (gr0 & Hg0 & Ht0 & _).
      unfold output_key in Hg0. rewrite uid_of_trajectory in Hg0 by done. congruence.
  - intros k t Hk. rewrite tq_tag_clear in Hk. case_bool_decide; [done|]. by apply (inv_entries _ Hi).
Qed.

Lemma inv_step s s' : inv s → group_step c iter s s' → inv s'.
Proof using H0 iter_perm.
  intros Hi Hstep. destruct Hstep as [s uid g Hu Hc|s uid gr n Hu Hp|s uid gr sid outputs Hu Hr|s uid gr sid Hu Hr|s uid gr Hu Hp Hall|s uid gr Hu Hp Hex|s g n r selected dropped Hs Hn Hc|s ks Hks].
  - by apply inv_submit.
  - pose proof (inv_groups _ Hi _ _ Hu) as [K1 K2 K3 K4 K5 K6]. assert (Ht : g_taken gr = false).
    { destruct (g_taken gr); [|done]. destruct K6; congruence. }
    apply (inv_report s uid gr _ Active); try done. intros sid i o. unfold output_at. cbn. rewrite K5 by done.
    split; intros (outs & Ho & _); [|done]. apply lookup_replicate in Ho as [Ho _]. done.
  - by apply inv_store.
  - by apply inv_fail.
  - pose proof (inv_groups _ Hi _ _ Hu) as [K1 K2 K3 K4 K5 K6]. assert (Ht : g_taken gr = false).
    { destruct (g_taken gr); [|done]. destruct K6; congruence. }
    by apply (inv_report s uid gr _ Finished).
  - pose proof (inv_groups _ Hi _ _ Hu) as [K1 K2 K3 K4 K5 K6]. assert (Ht : g_taken gr = false).
    { destruct (g_taken gr); [|done]. destruct K6; congruence. }
    by apply (inv_report s uid gr _ Failure).
  - eapply inv_sample; try done. destruct (sample_once_spec c iter iter_perm g n "train" (listing_of (store s)) r Hn) as (parts & _ & _ & Hsam); [|exact Hs|].
    { intros id items Hx. apply list_elem_of_singleton in Hx. injection Hx as _ ->. apply tq_keys. }
    destruct Hsam as (sel & drp & Hc' & Hnd & _). rewrite Hc in Hc'. by injection Hc' as <- _.
  - by apply inv_clear.
Qed.

Lemma reachable_group_inv s : reachable c iter s → inv s.
Proof using H0 iter_perm.
  induction 1 as [q Hq|s s' _ IH Hstep]; [|by eapply inv_step]. split; cbn [store groups].
  - intros uid gr Hu. by rewrite lookup_empty in Hu.
  - intros k t Hk. unfold tq_tag in Hk. by rewrite Hq in Hk.
Qed.

(** C29: A sampled batch is made of whole groups.  In every run of trainer and workers, with
    sessions ending in any order, a prompt that the replay buffer samples has been reported
    and not been sampled before; all outputs that its sessions have stored are handed out or
    dropped for staleness, all sessions have stored their outputs if it is finished, and
    nothing else is in the batch. *)
Theorem sampled_groups_are_whole s g n r : reachable c iter s → (0 <= n)%Z →
  sample_once c iter g n "train" (listing_of (store s)) = Ok (Some r) →
  ∃ selected dropped, sr_cleared r = ("train"%string, selected) :: dropped ∧
    (∀ uid, uid ∈ selected → ∃ gr, groups s !! uid = Some gr ∧ g_taken gr = false ∧
       (g_progress gr = Failure ∨ g_progress gr = Finished ∧ forallb is_stored (g_sessions gr) = true) ∧
       ∀ sid i o, output_at gr sid i o → output_key uid sid i ∈ bm_keys (sr_batch r) ++ concat dropped.*2) ∧
    (∀ k, k ∈ bm_keys (sr_batch r) → ∃ uid gr sid i o, uid ∈ selected ∧ groups s !! uid = Some gr ∧ output_at gr sid i o ∧
       k = output_key uid sid i).
Proof using H0 iter_perm.
  intros Hi%reachable_group_inv Hn Hs. destruct (sample_entries s g n r Hn Hs) as (selected & dropped & Hc & Hsel & Hkeys).
  exists selected, dropped. split; [done|]. split.
  - intros uid Hu. destruct (Hsel uid Hu) as (tag & Ht & Hd). assert (Huid : uid_of uid = uid).
    { destruct (prompt_or_output s uid tag Hi Ht) as [[_ E]|[E _]]; [done|]. destruct Hd as [Hd _]. congruence. }
    destruct (done_group s uid tag Hi Ht Hd Huid) as (gr & Hgr & Hfresh & Hrep). exists gr. pose proof (inv_groups _ Hi _ _ Hgr) as [K1 K2 K3 K4 K5 K6].
    split_and!; [done|done| |].
    + destruct Hrep as [Hrep|Hrep]; [right; split; [done|by apply K4]|by left].
    + intros sid i o Ho. apply Hkeys. unfold output_key at 1. rewrite uid_of_trajectory by done. split; [done|].
      exists (trajectory_tag o (g_steps gr)). split; [by apply K3|done].
  - intros k Hk. assert (Hk' : k ∈ bm_keys (sr_batch r) ++ concat dropped.*2) by (apply elem_of_app; by left).
    apply Hkeys in Hk' as (Hu & tag & Ht & Hp). destruct (prompt_or_output s k tag Hi Ht) as [[E _]|(_ & gr & sid & i & o & H1 & H2 & H3)]; [congruence|].
    by exists (uid_of k), gr, sid, i, o.
Qed.

(** An output that is stored after its group was sampled stays behind: no sample hands it out. *)
Lemma late_output_is_lost s uid gr g n r k : reachable c iter s → groups s !! uid = Some gr → g_taken gr = true → uid_of k = uid → (0 <= n)%Z →
  sample_once c iter g n "train" (listing_of (store s)) = Ok (Some r) → k ∉ bm_keys (sr_batch r) ∧ ∀ cl, cl ∈ sr_cleared r → k ∉ cl.2.
Proof using H0 iter_perm.
  intros Hi%reachable_group_inv Hgr Ht Hk Hn Hs. destruct (sample_entries s g n r Hn Hs) as (selected & dropped & Hc & Hsel & Hkeys).
  assert (Hno : uid ∉ selected).
  { intros Hu. destruct (Hsel uid Hu) as (tag & Htag & Hd). destruct (inv_groups _ Hi _ _ Hgr) as [_ Hp _ _ _ _]. rewrite Ht in Hp. congruence. }
  assert (Hnk : k ∉ bm_keys (sr_batch r) ++ concat dropped.*2) by (intros Hin; apply Hkeys in Hin as [Hin _]; congruence).
  split; [intros Hin; apply Hnk, elem_of_app; by left|]. intros cl Hcl Hin. rewrite Hc in Hcl. apply elem_of_cons in Hcl as [->|Hcl].
  - cbn in Hin. destruct (Hsel k Hin) as (tag & Htag & Hd). destruct (prompt_or_output s k tag Hi Htag) as [[_ E]|[E _]].
    + congruence.
    + destruct Hd as [Hd _]. congruence.
  - apply Hnk, elem_of_app. right. apply list_elem_of_In, in_concat. exists cl.2. split; apply list_elem_of_In; [|done]. apply list_elem_of_fmap. by exists cl.
Qed.
End invariant.

(** ** A queue that satisfies the interface *)

#[export] Instance map_queue : TransferQueue (gmap string dict) := {|
  tq_items := map_to_list;
  tq_put kvs q := foldl (λ q kv, <[kv.1 := update kv.2 (default [] (q !! kv.1))]> q) q kvs;
  tq_clear ks q := foldr delete q ks |}.

Lemma map_queue_tag (q : gmap string dict) k : tq_tag q k = q !! k.
Proof.
  unfold tq_tag. cbn [tq_items map_queue]. destruct (q !! k) as [t|] eqn:E.
  - apply elem_dget; [apply NoDup_fst_map_to_list|]. by apply elem_of_map_to_list.
  - destruct (dget k (map_to_list q)) as [t|] eqn:Ed; [|done]. apply dget_elem, elem_of_map_to_list in Ed. congruence.
Qed.

#[export] Instance map_queue_laws : TransferQueueLaws (gmap string dict).
Proof.
  split.
  - intros q. apply NoDup_fst_map_to_list.
  - intros kvs q k. rewrite !map_queue_tag. cbn [tq_put map_queue]. revert q. induction kvs as [|[k0 t0] kvs IH]; intros q Hnd; [done|].
    cbn [keys fmap list_fmap fst] in Hnd. apply NoDup_cons in Hnd as [Hk Hnd]. cbn [foldl fst snd]. rewrite IH by done. cbn [dget]. case_bool_decide as Hkk.
    + subst k0. destruct (dget k kvs) eqn:E; [exfalso; apply Hk, dget_is_Some; by eexists|]. by rewrite lookup_insert_eq.
    + by rewrite lookup_insert_ne by congruence.
  - intros ks q k. rewrite !map_queue_tag. cbn [tq_clear map_queue]. induction ks as [|k0 ks IH]; [by rewrite bool_decide_eq_false_2 by apply not_elem_of_nil|].
    cbn [foldr]. destruct (decide (k0 = k)) as [->|Hne].
    + rewrite lookup_delete_eq, bool_decide_eq_true_2 by (by left). done.
    + rewrite lookup_delete_ne, IH by done. repeat case_bool_decide; try done; set_solver.
Qed.

(** ** A run that loses an output

    Three sessions: session 1 stores its output, session 0 raises, the group is reported as
    failed and sampled, and only then session 2 stores its output. *)

Definition demo_config : buffer_config :=
  {| parameter_sync_step := 1; max_off_policy_threshold := 1; max_off_policy_strategy := Wait |}.
Definition demo_iter : gset string → list string := elements.
Definition demo_output : AgentLoopOutput := {|
  o_prompt_ids := [5%Z]; o_response_ids := [7%Z; 8%Z]; o_response_mask := [1%Z; 1%Z]; o_response_logprobs := None; o_routed_experts := None;
  o_multi_modal_data := []; o_reward_score := JNull; o_num_turns := 2;
  o_metrics := {| generate_sequences_time := 0; tool_calls_time := 0; compute_score_time := 0; num_preempted := 0%Z |};
  o_extra_fields := []; o_mm_processor_kwargs := None |}%string.

Definition demo_group (sessions : list session) (p : progress) (taken : bool) : group :=
  {| g_steps := 1; g_sessions := sessions; g_progress := p; g_taken := taken |}.
Definition demo_entries (sid : nat) : list (string * dict) := session_entries "u" sid (demo_group [] Active false) [demo_output].
Definition demo_states : list (gmap string dict * list (string * group)) :=
  let q1 := tq_put [("u", prompt_tag "pending" 1)] ∅ in
  let q2 := set_status "u" "running" q1 in
  let q3 := tq_put (demo_entries 1) q2 in
  let q4 := set_status "u" "failure" q3 in
  let q5 := tq_clear ["u"] q4 in
  let q6 := tq_put (demo_entries 2) q5 in
  let got := Stored [demo_output] in
  [(∅, []); (q1, [("u", demo_group [] Submitted false)]); (q2, [("u", demo_group [Running; Running; Running] Active false)]);
   (q3, [("u", demo_group [Running; got; Running] Active false)]); (q3, [("u", demo_group [Failed; got; Running] Active false)]);
   (q4, [("u", demo_group [Failed; got; Running] Failure false)]); (q5, [("u", demo_group [Failed; got; Running] Failure true)]);
   (q6, [("u", demo_group [Failed; got; got] Failure true)])]%string.
Definition demo_state (i : nat) : system (Q := gmap string dict) :=
  let qg := default (∅, []) (demo_states !! i) in {| store := qg.1; groups := list_to_map qg.2 |}.
Definition demo_sample (i : nat) : result (option sample_result) :=
  sample_once demo_config demo_iter 1 1 "train" (listing_of (store (demo_state i))).

Lemma reach_to s0 s1 s2 : reachable demo_config demo_iter s0 → group_step demo_config demo_iter s0 s1 → s1 = s2 →
  reachable demo_config demo_iter s2.
Proof. intros Hr Hs <-. by eapply reach_step. Qed.

Lemma demo_reachable : reachable demo_config demo_iter (demo_state 5) ∧ reachable demo_config demo_iter (demo_state 7).
Proof.
  assert (R5 : reachable demo_config demo_iter (demo_state 5)).
  { eapply (reach_to (demo_state 4)); [|apply (step_failure _ _ _ "u" (demo_group [Failed; Stored [demo_output]; Running] Active false)); [vm_compute; reflexivity|done|by left]|vm_compute; reflexivity].
    eapply (reach_to (demo_state 3)); [|apply (step_fail _ _ _ "u" (demo_group [Running; Stored [demo_output]; Running] Active false) 0); vm_compute; reflexivity|vm_compute; reflexivity].
    eapply (reach_to (demo_state 2)); [|apply (step_store _ _ _ "u" (demo_group [Running; Running; Running] Active false) 1 [demo_output]); vm_compute; reflexivity|vm_compute; reflexivity].
    eapply (reach_to (demo_state 1)); [|apply (step_start _ _ _ "u" (demo_group [] Submitted false) 3); vm_compute; reflexivity|vm_compute; reflexivity].
    eapply (reach_to (demo_state 0)); [|apply (step_submit _ _ _ "u" 1); vm_compute; reflexivity|vm_compute; reflexivity].
    change (demo_state 0) with {| store := ∅ : gmap string dict; groups := ∅ |}. by apply reach_init. }
  split; [done|].
  eapply (reach_to (demo_state 6)); [|apply (step_store _ _ _ "u" (demo_group [Failed; Stored [demo_output]; Running] Failure true) 2 [demo_output]); vm_compute; reflexivity|vm_compute; reflexivity].
  eapply (reach_to (demo_state 5)); [done|eapply (step_sample _ _ _ 1 1 _ ["u"%string] []); [vm_compute; reflexivity|done|vm_compute; reflexivity]|vm_compute; reflexivity].
Qed.

(** The late output stays in the queue; the buffer never hands it out. *)
Example orphaned_output :
  reachable demo_config demo_iter (demo_state 7) ∧ tq_tag (store (demo_state 7)) "u_2_0" = Some (trajectory_tag demo_output 1) ∧
  demo_sample 7 = Ok None.
Proof. split; [apply demo_reachable|]. split; vm_compute; reflexivity. Qed.

Lemma sampled_groups_are_whole_witness :
  ∃ r, demo_sample 5 = Ok (Some r) ∧
  ∃ selected dropped, sr_cleared r = ("train"%string, selected) :: dropped ∧
    (∀ uid, uid ∈ selected → ∃ gr, groups (demo_state 5) !! uid = Some gr ∧ g_taken gr = false ∧
       (g_progress gr = Failure ∨ g_progress gr = Finished ∧ forallb is_stored (g_sessions gr) = true) ∧
       ∀ sid i o, output_at gr sid i o → output_key uid sid i ∈ bm_keys (sr_batch r) ++ concat dropped.*2) ∧
    (∀ k, k ∈ bm_keys (sr_batch r) → ∃ uid gr sid i o, uid ∈ selected ∧ groups (demo_state 5) !! uid = Some gr ∧ output_at gr sid i o ∧
       k = output_key uid sid i).
Proof.
  assert (E : ∃ r, demo_sample 5 = Ok (Some r)) by (eexists; vm_compute; reflexivity).
  destruct E as [r E]. exists r. split; [exact E|].
  apply (sampled_groups_are_whole demo_config demo_iter (λ s, reflexivity (elements s)) (demo_state 5) 1 1 r (proj1 demo_reachable)); [lia|exact E].
Defined.

(** ** A multi-output loop that scores its trajectory itself

    The scored last output carries no extra information, and storing the session raises. *)
Definition scored_output : AgentLoopOutput := {|
  o_prompt_ids := [5%Z]; o_response_ids := [7%Z; 8%Z]; o_response_mask := [1%Z; 1%Z]; o_response_logprobs := None; o_routed_experts := None;
  o_multi_modal_data := []; o_reward_score := JInt 1; o_num_turns := 2; o_metrics := o_metrics demo_output;
  o_extra_fields := []; o_mm_processor_kwargs := None |}.
Example self_scored_session_fails :
  share_reward [demo_output; scored_output] = Raise (KeyError "reward_extra_info") ∧
  share_reward [scored_output] = Ok [scored_output].
Proof. done. Qed.
