(* ===== verification/TrainerLoop.v ===== *)
(** * TrainerLoop: the training loop and the life of the rollout replicas

    Models [PPOTrainer.fit] and [step] of src/verl/trainer/ppo/v1/trainer_base.py with the
    hooks of trainer_sync.py, trainer_colocate_async.py and trainer_separate_async.py, the
    [CheckpointEngineManager] of src/verl/checkpoint_engine/base.py that the hooks call, and
    the sleeping, waking and pausing of the vLLM servers it drives.  What a training step
    computes is the matter of other files; here are its order, its guards and the weights
    that serve it.  The trace of a run shows the replicas at the moments that matter. *)

From S2P Require Import Prelude.
From Stdlib Require Znumtheory.
From stdpp Require Import gmap.
#[local] Open Scope Z_scope.

(** ** Configuration *)

Inductive mode := Sync | ColocateAsync | SeparateAsync.
#[export] Instance mode_eq_dec : EqDecision mode.
Proof. solve_decision. Defined.

Record config := {
  trainer_mode : mode;
  total_epochs : Z;
  total_training_steps : Z;
  steps_per_epoch : Z;                    (** [len(train_dataloader)] *)
  save_freq : Z;
  test_freq : Z;
  val_before_train : bool;
  val_only : bool;
  val_batches : nat;                      (** batches of [val_dataloader] *)
  val_metrics : bool;                     (** whether [_validate] returns any metric *)
  critic_warmup : Z;
  use_critic : bool;
  use_reference_policy : bool;
  colocated_reward : bool;                (** [reward_loop_worker_handles is None] *)
  num_warmup_batches : nat;
  parameter_sync_step : Z;
  profile_steps : option (list Z);
  profile_continuous_steps : bool;
  free_cache_engine : bool;
  pausing : bool }.                       (** vLLM 0.12 or later: aborting pauses the engine *)

(** ** Replicas *)

Inductive rollout_mode := HYBRID | COLOCATED | STANDALONE.
#[export] Instance rollout_mode_eq_dec : EqDecision rollout_mode.
Proof. solve_decision. Defined.

(** A replica with the weights it holds, as the steps whose updates are in them, and the
    step number it puts on what it generates. *)
Record replica := {
  r_address : string; r_mode : rollout_mode; r_awake : bool; r_paused : bool; r_steps : option Z; r_weights : list Z }.

Definition set_awake (b : bool) (r : replica) : replica :=
  {| r_address := r_address r; r_mode := r_mode r; r_awake := b; r_paused := r_paused r; r_steps := r_steps r; r_weights := r_weights r |}.
Definition set_paused (b : bool) (r : replica) : replica :=
  {| r_address := r_address r; r_mode := r_mode r; r_awake := r_awake r; r_paused := b; r_steps := r_steps r; r_weights := r_weights r |}.
(** New weights; the step number stays when none comes with them. *)
Definition receive (steps : option Z) (weights : list Z) (r : replica) : replica :=
  {| r_address := r_address r; r_mode := r_mode r; r_awake := r_awake r; r_paused := r_paused r;
     r_steps := match steps with Some g => Some g | None => r_steps r end; r_weights := weights |}.

Section replicas.
Context (c : config).

Definition sleep (r : replica) : replica :=
  if negb (free_cache_engine c) then r else match r_mode r with STANDALONE => r | _ => set_awake false r end.
Definition wake_up (r : replica) : replica := match r_mode r with STANDALONE => r | _ => set_awake true r end.
Definition abort_all_requests (r : replica) : replica := if pausing c then set_paused true r else r.
Definition resume_generation (r : replica) : replica := if pausing c then set_paused false r else r.

(** [ActorRolloutRefWorker.update_weights] in mode naive: resume the memory, copy, resume
    the cache. *)
Definition naive_update (steps : option Z) (weights : list Z) (r : replica) : replica :=
  receive steps weights (if free_cache_engine c then wake_up r else r).

Inductive backend := Naive | Transfer.
(** [CheckpointEngineManager.update_weights]. *)
Definition update_weights (b : backend) (steps : option Z) (weights : list Z) (rs : list replica) : list replica :=
  match b with
  | Naive => naive_update steps weights <$> rs
  | Transfer => resume_generation <$> (receive steps weights <$> (abort_all_requests <$> rs))
  end.
End replicas.

(** ** The trainer *)

Inductive engine_mode := TRAINER | ROLLOUT.
#[export] Instance engine_mode_eq_dec : EqDecision engine_mode.
Proof. solve_decision. Defined.

Inductive phase := Reward | OldLogProb | RefLogProb | Values | Advantage | UpdateCritic | UpdateActor.
Inductive partition := Train | Val.

(** What happens, with the replicas as they are then: those that the balancer knows when a
    batch is sampled, the hybrid ones when the trainer computes or gives them weights. *)
Inductive event :=
  | Submitted (p : partition) (step : Z)
  | Sampled (p : partition) (step : Z) (serving : list replica)
  | Ran (p : phase) (step : Z) (hybrid : list replica)
  | Weights_given (hybrid : list replica)
  | Saved (step : Z)
  | Validated (step : Z)
  | Profile_started (step : Z)
  | Profile_stopped
  | Logged (step epoch : Z)
  | Train_ended
  | Dump_closed.

Record trainer := {
  global_steps : Z;
  actor_weights : list Z;
  hybrid : list replica;                 (** replicas of [llm_server_manager] *)
  standalone : list replica;             (** replicas of [standalone_server_manager] *)
  balancer : gset string;
  current_mode : engine_mode;
  prev_step_profile : bool;
  curr_step_profile : bool;
  next_step_profile : bool;
  trace : list event }.

Definition emit (e : event) (s : trainer) : trainer :=
  {| global_steps := global_steps s; actor_weights := actor_weights s; hybrid := hybrid s; standalone := standalone s;
     balancer := balancer s; current_mode := current_mode s; prev_step_profile := prev_step_profile s;
     curr_step_profile := curr_step_profile s; next_step_profile := next_step_profile s; trace := trace s ++ [e] |}.
Definition with_steps (g : Z) (s : trainer) : trainer :=
  {| global_steps := g; actor_weights := actor_weights s; hybrid := hybrid s; standalone := standalone s;
     balancer := balancer s; current_mode := current_mode s; prev_step_profile := prev_step_profile s;
     curr_step_profile := curr_step_profile s; next_step_profile := next_step_profile s; trace := trace s |}.
Definition with_weights (w : list Z) (s : trainer) : trainer :=
  {| global_steps := global_steps s; actor_weights := w; hybrid := hybrid s; standalone := standalone s;
     balancer := balancer s; current_mode := current_mode s; prev_step_profile := prev_step_profile s;
     curr_step_profile := curr_step_profile s; next_step_profile := next_step_profile s; trace := trace s |}.
Definition with_hybrid (l : list replica) (s : trainer) : trainer :=
  {| global_steps := global_steps s; actor_weights := actor_weights s; hybrid := l; standalone := standalone s;
     balancer := balancer s; current_mode := current_mode s; prev_step_profile := prev_step_profile s;
     curr_step_profile := curr_step_profile s; next_step_profile := next_step_profile s; trace := trace s |}.
Definition with_standalone (l : list replica) (s : trainer) : trainer :=
  {| global_steps := global_steps s; actor_weights := actor_weights s; hybrid := hybrid s; standalone := l;
     balancer := balancer s; current_mode := current_mode s; prev_step_profile := prev_step_profile s;
     curr_step_profile := curr_step_profile s; next_step_profile := next_step_profile s; trace := trace s |}.
Definition with_mode (m : engine_mode) (b : gset string) (s : trainer) : trainer :=
  {| global_steps := global_steps s; actor_weights := actor_weights s; hybrid := hybrid s; standalone := standalone s;
     balancer := b; current_mode := m; prev_step_profile := prev_step_profile s;
     curr_step_profile := curr_step_profile s; next_step_profile := next_step_profile s; trace := trace s |}.
Definition with_profile (p q n : bool) (s : trainer) : trainer :=
  {| global_steps := global_steps s; actor_weights := actor_weights s; hybrid := hybrid s; standalone := standalone s;
     balancer := balancer s; current_mode := current_mode s; prev_step_profile := p;
     curr_step_profile := q; next_step_profile := n; trace := trace s |}.

(** The replicas that the balancer can choose. *)
Definition serving (s : trainer) : list replica := filter (λ r, r_address r ∈ balancer s) (hybrid s ++ standalone s).
Definition addresses (l : list replica) : gset string := list_to_set (r_address <$> l).

Section trainer.
Context (c : config).

(** ** The checkpoint managers: [checkpoint_manager] is naive and drives the hybrid replicas *)

Definition sleep_replicas (s : trainer) : trainer := with_hybrid (sleep c <$> hybrid s) s.
Definition abort_replicas (s : trainer) : trainer := with_hybrid (abort_all_requests c <$> hybrid s) s.
Definition resume_generation_replicas (s : trainer) : trainer := with_hybrid (resume_generation c <$> hybrid s) s.
Definition checkpoint_update_weights (steps : option Z) (s : trainer) : trainer :=
  with_hybrid (update_weights c Naive steps (actor_weights s) (hybrid s)) (emit (Weights_given (hybrid s)) s).
Definition standalone_update_weights (steps : option Z) (s : trainer) : trainer :=
  with_standalone (update_weights c Transfer steps (actor_weights s) (standalone s)) s.

(** ** [PPOTrainerSeparateAsync]: the two modes of the hybrid engine *)

Definition add_replicas_to_balancer (s : trainer) : gset string := balancer s ∪ addresses (hybrid s).
Definition remove_replicas_from_balancer (s : trainer) : gset string := balancer s ∖ addresses (hybrid s).
Definition switch_to_rollout (s : trainer) : trainer :=
  let s := checkpoint_update_weights (Some (global_steps s)) s in
  let s := resume_generation_replicas s in
  with_mode ROLLOUT (add_replicas_to_balancer s) s.
Definition switch_to_trainer (s : trainer) : trainer :=
  let s := with_mode (current_mode s) (remove_replicas_from_balancer s) s in
  let s := sleep_replicas (abort_replicas s) in
  with_mode TRAINER (balancer s) s.
Definition should_switch_to_rollout (s : trainer) : bool := false.

(** ** Batches to generate *)

Definition add_batch_to_generate (s : trainer) : trainer := emit (Submitted Train (global_steps s)) s.
Definition add_warmup_batches (n : nat) (s : trainer) : trainer := Nat.iter n add_batch_to_generate s.

(** ** The hooks of the three trainers *)

(** [PPOTrainerSync] *)
Definition sync_on_init_end (s : trainer) : trainer := checkpoint_update_weights (Some (global_steps s)) s.
Definition sync_on_step_end (s : trainer) : trainer := checkpoint_update_weights (Some (global_steps s)) s.
Definition sync_on_sample_end (s : trainer) : trainer := sleep_replicas s.

(** [PPOTrainerColocateAsync] *)
Definition colocate_on_init_end (s : trainer) : trainer := checkpoint_update_weights (Some (global_steps s)) s.
Definition colocate_on_train_begin (s : trainer) : trainer := add_warmup_batches (num_warmup_batches c) s.
Definition colocate_on_step_end (s : trainer) : trainer :=
  resume_generation_replicas (checkpoint_update_weights (Some (global_steps s)) s).
Definition colocate_on_sample_end (s : trainer) : trainer := sleep_replicas (abort_replicas s).

(** [PPOTrainerSeparateAsync] *)
Definition separate_on_init_end (s : trainer) : trainer :=
  checkpoint_update_weights (Some (global_steps s)) (standalone_update_weights (Some (global_steps s)) s).
Definition separate_on_train_begin (s : trainer) : trainer := add_warmup_batches (num_warmup_batches c) s.
Definition separate_on_validate_begin (s : trainer) : trainer :=
  if bool_decide (current_mode s = TRAINER) then switch_to_rollout s else s.
Definition separate_on_sample_begin (s : trainer) : trainer :=
  if bool_decide (current_mode s = TRAINER) && should_switch_to_rollout s then switch_to_rollout s else s.
Definition separate_on_sample_end (s : trainer) : trainer :=
  if bool_decide (current_mode s = ROLLOUT) then switch_to_trainer s else s.
Definition separate_on_step_end (s : trainer) : trainer :=
  if bool_decide (global_steps s mod parameter_sync_step c = 0) then standalone_update_weights (Some (global_steps s)) s else s.

(** A hook that a trainer does not override does nothing. *)
Definition on_init_end (s : trainer) : trainer :=
  match trainer_mode c with
  | Sync => sync_on_init_end s | ColocateAsync => colocate_on_init_end s | SeparateAsync => separate_on_init_end s
  end.
Definition on_train_begin (s : trainer) : trainer :=
  match trainer_mode c with
  | Sync => s | ColocateAsync => colocate_on_train_begin s | SeparateAsync => separate_on_train_begin s
  end.
Definition on_train_end (s : trainer) : trainer := emit Train_ended s.
Definition on_validate_begin (s : trainer) : trainer :=
  match trainer_mode c with SeparateAsync => separate_on_validate_begin s | _ => s end.
Definition on_sample_begin (s : trainer) : trainer :=
  match trainer_mode c with SeparateAsync => separate_on_sample_begin s | _ => s end.
Definition on_sample_end (s : trainer) : trainer :=
  match trainer_mode c with
  | Sync => sync_on_sample_end s | ColocateAsync => colocate_on_sample_end s | SeparateAsync => separate_on_sample_end s
  end.
Definition on_step_end (s : trainer) : trainer :=
  match trainer_mode c with
  | Sync => sync_on_step_end s | ColocateAsync => colocate_on_step_end s | SeparateAsync => separate_on_step_end s
  end.

(** ** Profiling *)

Definition profiled_step (g : Z) : bool :=
  match profile_steps c with Some l => bool_decide (g ∈ l) | None => false end.
Definition start_profiling (s : trainer) : trainer :=
  let do := if profile_continuous_steps c then negb (prev_step_profile s) && curr_step_profile s else curr_step_profile s in
  if do then emit (Profile_started (global_steps s)) s else s.
Definition stop_profiling (s : trainer) : trainer :=
  let next := profiled_step (global_steps s + 1) in
  let do := if profile_continuous_steps c then curr_step_profile s && negb next else curr_step_profile s in
  let s := with_profile (curr_step_profile s) next next s in
  if do then emit Profile_stopped s else s.

(** ** A step *)

Definition sample (p : partition) (s : trainer) : trainer := emit (Sampled p (global_steps s) (serving s)) s.
Definition run_phase (p : phase) (s : trainer) : trainer := emit (Ran p (global_steps s) (hybrid s)) s.
Definition run_if (b : bool) (p : phase) (s : trainer) : trainer := if b then run_phase p s else s.
Definition update_actor (s : trainer) : trainer :=
  if critic_warmup c <=? global_steps s then with_weights (actor_weights s ++ [global_steps s]) (run_phase UpdateActor s) else s.

Definition compute (s : trainer) : trainer :=
  let s := run_if (colocated_reward c) Reward s in
  let s := run_phase OldLogProb s in
  let s := run_if (use_reference_policy c) RefLogProb s in
  let s := run_if (use_critic c) Values s in
  let s := run_phase Advantage s in
  let s := run_if (use_critic c) UpdateCritic s in
  update_actor s.
Definition step (s : trainer) : trainer :=
  let s := add_batch_to_generate s in
  let s := on_sample_end (sample Train (on_sample_begin s)) in
  compute s.

(** ** Validation *)

Definition validate_batch (s : trainer) : trainer :=
  let s := sample Val (emit (Submitted Val (global_steps s)) s) in
  if colocated_reward c then checkpoint_update_weights None (run_phase Reward (sleep_replicas s)) else s.
Definition validate (s : trainer) : trainer :=
  emit (Validated (global_steps s)) (Nat.iter (val_batches c) validate_batch (on_validate_begin s)).

(** ** [fit] *)

Definition is_last_step (g : Z) : bool := total_training_steps c <=? g.
Definition due (freq : Z) (g : Z) : bool := (0 <? freq) && (is_last_step g || (g mod freq =? 0)).
Definition save_checkpoint (s : trainer) : trainer := emit (Saved (global_steps s)) s.
Definition epoch_of (g : Z) : Z := (g - 1) / steps_per_epoch c.

Definition iteration (epoch : Z) (s : trainer) : trainer :=
  let s := stop_profiling (step (start_profiling s)) in
  let s := if due (save_freq c) (global_steps s) then save_checkpoint s else s in
  let s := on_step_end s in
  let s := if due (test_freq c) (global_steps s) then validate s else s in
  let s := emit (Logged (global_steps s) epoch) s in
  with_steps (global_steps s + 1) s.

(** [None]: out of fuel. *)
Fixpoint fit_loop (fuel : nat) (epoch : Z) (s : trainer) : option trainer :=
  match fuel with
  | O => None
  | S fuel =>
      if (epoch <? total_epochs c) && (global_steps s <=? total_training_steps c) then
        let last := is_last_step (global_steps s) in
        let s := iteration epoch s in
        if last then Some (emit Dump_closed s) else fit_loop fuel (epoch_of (global_steps s)) s
      else Some (emit Dump_closed (on_train_end s))
  end.

Definition fit (fuel : nat) (s : trainer) : result (option trainer) :=
  let s' := if val_before_train c then validate s else s in
  if val_before_train c && negb (val_metrics c) then Raise (AssertionError "val_metrics") else
  if val_before_train c && val_only c then Ok (Some (emit Dump_closed s')) else
  if steps_per_epoch c =? 0 then Raise (ZeroDivisionError "integer division or modulo by zero") else
  let epoch := global_steps s' / steps_per_epoch c in
  let s' := with_steps (global_steps s' + 1) s' in
  let s' := with_profile false (profiled_step (global_steps s')) false s' in
  Ok (fit_loop fuel epoch (on_train_begin s')).

(** ** Initialisation: from a loaded checkpoint with its step and weights *)

(** What [PPOTrainerSeparateAsync._setup] adds. *)
Definition separate_setup (s : trainer) : trainer := with_mode ROLLOUT (add_replicas_to_balancer s) s.
Definition setup (g : Z) (w : list Z) (hybrids standalones : list replica) : trainer :=
  let s := {| global_steps := g; actor_weights := w; hybrid := hybrids; standalone := standalones;
              balancer := match trainer_mode c with SeparateAsync => addresses standalones | _ => addresses hybrids end;
              current_mode := ROLLOUT;
              prev_step_profile := false; curr_step_profile := false; next_step_profile := false; trace := [] |} in
  let s := sleep_replicas s in
  match trainer_mode c with SeparateAsync => separate_setup s | _ => s end.
Definition init (g : Z) (w : list Z) (hybrids standalones : list replica) : trainer :=
  on_init_end (setup g w hybrids standalones).
End trainer.

(** ** What a run does, step by step *)

Inductive milestone := Trained (step : Z) | Kept (step : Z) | Tested (step : Z) | Reported (step : Z) | Ended | Closed.
#[export] Instance milestone_eq_dec : EqDecision milestone.
Proof. solve_decision. Defined.
Definition milestone_of (e : event) : option milestone :=
  match e with
  | Ran Advantage g _ => Some (Trained g)
  | Saved g => Some (Kept g)
  | Validated g => Some (Tested g)
  | Logged g _ => Some (Reported g)
  | Train_ended => Some Ended
  | Dump_closed => Some Closed
  | _ => None
  end.
Definition milestones (s : trainer) : list milestone := omap milestone_of (trace s).

Section run.
Context (c : config).
Implicit Types s : trainer.

(** [f] keeps the step and the profile flags, and adds [l] to the milestones. *)
Definition adds (l : list milestone) (f : trainer → trainer) : Prop :=
  ∀ s, global_steps (f s) = global_steps s ∧ milestones (f s) = milestones s ++ l.

Lemma milestones_emit e s : milestones (emit e s) = milestones s ++ omap milestone_of [e].
Proof. unfold milestones. cbn [trace emit]. by rewrite omap_app. Qed.
Lemma adds_comp l1 l2 f g : adds l1 f → adds l2 g → adds (l1 ++ l2) (λ s, g (f s)).
Proof. intros Hf Hg s. destruct (Hf s) as [F1 F2], (Hg (f s)) as [G1 G2]. by rewrite G1, G2, F1, F2, app_assoc. Qed.
Lemma adds_nil f : (∀ s, global_steps (f s) = global_steps s ∧ trace (f s) = trace s) → adds [] f.
Proof. intros Hf s. destruct (Hf s) as [F1 F2]. unfold milestones. by rewrite F1, F2, app_nil_r. Qed.
Lemma adds_emit (e : trainer → event) l : (∀ s, omap milestone_of [e s] = l) → adds l (λ s, emit (e s) s).
Proof. intros He s. by rewrite milestones_emit, He. Qed.
Lemma adds_if (b : trainer → bool) l f : adds l f → l = [] → adds l (λ s, if b s then f s else s).
Proof. intros Hf -> s. destruct (b s); [apply Hf|]. by rewrite app_nil_r. Qed.
Lemma adds_iter n f : adds [] f → adds [] (Nat.iter n f).
Proof. intros Hf. induction n as [|n IH]; [by apply adds_nil|]. exact (adds_comp [] [] _ _ IH Hf). Qed.

Lemma adds_sleep : adds [] (sleep_replicas c).
Proof. by apply adds_nil. Qed.
Lemma adds_abort : adds [] (abort_replicas c).
Proof. by apply adds_nil. Qed.
Lemma adds_resume : adds [] (resume_generation_replicas c).
Proof. by apply adds_nil. Qed.
Lemma adds_update g : adds [] (λ s, checkpoint_update_weights c (g s) s).
Proof. intros s. unfold checkpoint_update_weights. split; [done|]. exact (milestones_emit (Weights_given (hybrid s)) s). Qed.
Lemma adds_standalone g : adds [] (λ s, standalone_update_weights c (g s) s).
Proof. by apply adds_nil. Qed.
Lemma adds_rollout : adds [] (switch_to_rollout c).
Proof.
  apply (adds_comp [] [] _ (λ s, with_mode ROLLOUT (add_replicas_to_balancer s) s)); [|by apply adds_nil].
  apply (adds_comp [] []); [apply adds_update|apply adds_resume].
Qed.
Lemma adds_trainer : adds [] (switch_to_trainer c).
Proof. by apply adds_nil. Qed.
Lemma adds_sample_begin : adds [] (on_sample_begin c).
Proof. intros s. unfold on_sample_begin, separate_on_sample_begin. rewrite andb_false_r. destruct (trainer_mode c); by rewrite app_nil_r. Qed.
Lemma adds_sample_end : adds [] (on_sample_end c).
Proof. unfold on_sample_end, sync_on_sample_end, colocate_on_sample_end, separate_on_sample_end. destruct (trainer_mode c); [apply adds_sleep|by apply adds_nil|apply adds_if; [apply adds_trainer|done]]. Qed.
Lemma adds_step_end : adds [] (on_step_end c).
Proof.
  unfold on_step_end, sync_on_step_end, colocate_on_step_end, separate_on_step_end. destruct (trainer_mode c); [apply adds_update|apply (adds_comp [] []); [apply adds_update|apply adds_resume]|].
  apply adds_if; [apply adds_standalone|done].
Qed.
Lemma adds_validate_begin : adds [] (on_validate_begin c).
Proof. unfold on_validate_begin, separate_on_validate_begin. destruct (trainer_mode c); [by apply adds_nil..|apply adds_if; [apply adds_rollout|done]]. Qed.

Lemma adds_compute s : global_steps (compute c s) = global_steps s ∧ milestones (compute c s) = milestones s ++ [Trained (global_steps s)].
Proof.
  unfold compute, update_actor, run_if. destruct (colocated_reward c), (use_reference_policy c), (use_critic c);
  cbn [global_steps run_phase emit]; destruct (critic_warmup c <=? global_steps s);
  (split; [done|]); unfold milestones; cbn [trace run_phase emit with_weights]; rewrite !omap_app; cbn; by rewrite ?app_nil_r.
Qed.
Lemma adds_step s : global_steps (step c s) = global_steps s ∧ milestones (step c s) = milestones s ++ [Trained (global_steps s)].
Proof.
  unfold step. set (s1 := on_sample_end c _). assert (H : global_steps s1 = global_steps s ∧ milestones s1 = milestones s ++ []).
  { subst s1. apply (adds_comp [] [] (λ s, sample Train (on_sample_begin c (add_batch_to_generate s)))); [|apply adds_sample_end].
    apply (adds_comp [] [] (λ s, on_sample_begin c (add_batch_to_generate s)) (sample Train)); [|by apply (adds_emit (λ s, Sampled Train (global_steps s) (serving s)))].
    apply (adds_comp [] [] add_batch_to_generate); [by apply (adds_emit (λ s, Submitted Train (global_steps s)))|apply adds_sample_begin]. }
  destruct H as [H1 H2]. destruct (adds_compute s1) as [C1 C2]. by rewrite C1, C2, H1, H2, app_nil_r.
Qed.

Lemma adds_validate_batch : adds [] (validate_batch c).
Proof.
  apply (adds_comp [] [] (λ s, sample Val (emit (Submitted Val (global_steps s)) s))
           (λ s, if colocated_reward c then checkpoint_update_weights c None (run_phase Reward (sleep_replicas c s)) else s)).
  - apply (adds_comp [] [] (λ s, emit (Submitted Val (global_steps s)) s) (sample Val)); [by apply adds_emit|].
    by apply (adds_emit (λ s, Sampled Val (global_steps s) (serving s))).
  - apply (adds_if (λ _, colocated_reward c)); [|done].
    apply (adds_comp [] [] (λ s, run_phase Reward (sleep_replicas c s))); [|apply (adds_update (λ _, None))].
    apply (adds_comp [] [] (sleep_replicas c) (run_phase Reward)); [apply adds_sleep|]. by apply (adds_emit (λ s, Ran Reward (global_steps s) (hybrid s))).
Qed.
Lemma adds_validate s : global_steps (validate c s) = global_steps s ∧ milestones (validate c s) = milestones s ++ [Tested (global_steps s)].
Proof.
  unfold validate. set (s1 := Nat.iter _ _ _). assert (H : global_steps s1 = global_steps s ∧ milestones s1 = milestones s ++ []).
  { subst s1. apply (adds_comp [] [] (on_validate_begin c)); [apply adds_validate_begin|apply adds_iter, adds_validate_batch]. }
  destruct H as [H1 H2]. rewrite milestones_emit, H2, app_nil_r. cbn [global_steps emit omap list_omap milestone_of]. by rewrite H1.
Qed.

Lemma adds_start : adds [] (start_profiling c).
Proof. unfold start_profiling. apply (adds_if (λ s, _)); [by apply (adds_emit (λ s, Profile_started (global_steps s)))|done]. Qed.
Lemma adds_stop : adds [] (stop_profiling c).
Proof.
  intros s. unfold stop_profiling. match goal with |- context [if ?b then _ else _] => destruct b end.
  - rewrite milestones_emit. done.
  - by apply (adds_nil (with_profile _ _ _)).
Qed.

#[local] Instance divide_dec (a b : Z) : Decision (a | b) := Znumtheory.Zdivide_dec a b.
(** Positive frequencies ask for their multiples and for the last configured step. *)
Definition scheduled (freq g : Z) : bool := bool_decide (0 < freq ∧ (total_training_steps c <= g ∨ (freq | g))).
Lemma due_scheduled freq g : due c freq g = scheduled freq g.
Proof.
  unfold due, scheduled, is_last_step. apply eq_true_iff_eq. rewrite bool_decide_eq_true, andb_true_iff, orb_true_iff, Z.ltb_lt, Z.leb_le, Z.eqb_eq.
  split; intros [H1 H2]; (split; [done|]); (destruct H2 as [H2|H2]; [by left|right]); [by apply Z.mod_divide; lia|by apply Z.mod_divide; [lia|]].
Qed.
(** What step [g] does. *)
Definition milestones_at (g : Z) : list milestone :=
  [Trained g] ++ (if scheduled (save_freq c) g then [Kept g] else []) ++ (if scheduled (test_freq c) g then [Tested g] else []) ++ [Reported g].

Lemma iteration_milestones epoch s :
  global_steps (iteration c epoch s) = global_steps s + 1 ∧ milestones (iteration c epoch s) = milestones s ++ milestones_at (global_steps s).
Proof.
  unfold iteration, milestones_at. rewrite <-!due_scheduled. set (s1 := stop_profiling c _).
  assert (H1 : global_steps s1 = global_steps s ∧ milestones s1 = milestones s ++ [Trained (global_steps s)]).
  { subst s1. destruct (adds_start s) as [A1 A2], (adds_step (start_profiling c s)) as [B1 B2], (adds_stop (step c (start_profiling c s))) as [C1 C2].
    by rewrite C1, C2, B1, B2, A1, A2, !app_nil_r. }
  destruct H1 as [G1 M1]. set (s2 := if due c (save_freq c) (global_steps s1) then _ else s1).
  assert (H2 : global_steps s2 = global_steps s ∧ milestones s2 = milestones s1 ++ (if due c (save_freq c) (global_steps s) then [Kept (global_steps s)] else [])).
  { subst s2. rewrite G1. destruct (due c (save_freq c) (global_steps s)); [|by rewrite app_nil_r]. unfold save_checkpoint. rewrite milestones_emit. cbn. by rewrite G1. }
  destruct H2 as [G2 M2]. destruct (adds_step_end s2) as [G3 M3]. set (s3 := on_step_end c s2) in *.
  set (s4 := if due c (test_freq c) (global_steps s3) then _ else s3).
  assert (H4 : global_steps s4 = global_steps s ∧ milestones s4 = milestones s3 ++ (if due c (test_freq c) (global_steps s) then [Tested (global_steps s)] else [])).
  { subst s4. rewrite G3, G2. destruct (due c (test_freq c) (global_steps s)); [|by rewrite app_nil_r, G3, G2]. destruct (adds_validate s3) as [V1 V2]. by rewrite V1, V2, G3, G2. }
  destruct H4 as [G4 M4]. cbn [global_steps with_steps emit]. rewrite G4. split; [done|].
  change (milestones (with_steps _ (emit ?e s4))) with (milestones (emit e s4)). rewrite milestones_emit, M4, M3, M2, M1, app_nil_r.
  cbn [omap list_omap milestone_of]. rewrite <-!app_assoc. done.
Qed.

(** The last step of a run. *)
Definition last_step : Z := total_training_steps c `min` (total_epochs c * steps_per_epoch c).

Lemma epoch_before g : 0 < steps_per_epoch c → (epoch_of c g <? total_epochs c) = (g <=? total_epochs c * steps_per_epoch c).
Proof.
  intros Hl. unfold epoch_of. apply eq_true_iff_eq. rewrite Z.ltb_lt, Z.leb_le. split.
  - intros H. pose proof (Z.mul_succ_div_gt (g - 1) (steps_per_epoch c) Hl). nia.
  - intros H. apply Z.div_lt_upper_bound; lia.
Qed.

Lemma fit_loop_runs fuel s : 0 < steps_per_epoch c → (Z.to_nat (last_step + 1 - global_steps s) < fuel)%nat →
  ∃ s', fit_loop c fuel (epoch_of c (global_steps s)) s = Some s' ∧
    milestones s' = milestones s ++ concat (milestones_at <$> seqZ (global_steps s) (last_step + 1 - global_steps s)) ++
      (if bool_decide (global_steps s <= total_training_steps c <= total_epochs c * steps_per_epoch c) then [Closed] else [Ended; Closed]).
Proof.
  intros Hl. revert s. induction fuel as [|fuel IH]; intros s Hf; [lia|]. cbn [fit_loop]. rewrite epoch_before by done.
  destruct (Z.leb_spec (global_steps s) (total_epochs c * steps_per_epoch c)) as [He|He]; cbn [andb].
  2:{ eexists. split; [done|]. rewrite seqZ_nil, bool_decide_eq_false_2 by (unfold last_step; lia). rewrite milestones_emit.
      unfold on_train_end. by rewrite milestones_emit, <-app_assoc. }
  destruct (Z.leb_spec (global_steps s) (total_training_steps c)) as [Ht|Ht].
  2:{ eexists. split; [done|]. rewrite seqZ_nil, bool_decide_eq_false_2 by (unfold last_step; lia). rewrite milestones_emit.
      unfold on_train_end. by rewrite milestones_emit, <-app_assoc. }
  destruct (iteration_milestones (epoch_of c (global_steps s)) s) as [G M]. rewrite (seqZ_cons _ (last_step + 1 - _)) by (unfold last_step; lia).
  rewrite fmap_cons. cbn [concat]. unfold is_last_step. destruct (Z.leb_spec (total_training_steps c) (global_steps s)) as [Hlast|Hlast].
  - eexists. split; [done|]. rewrite milestones_emit, M, seqZ_nil, bool_decide_eq_true_2 by (unfold last_step; lia).
    cbn. by rewrite app_nil_r, <-app_assoc.
  - destruct (IH (iteration c (epoch_of c (global_steps s)) s)) as (s' & Hs & Hm); [rewrite G; unfold last_step in *; lia|].
    exists s'. split; [done|]. rewrite Hm, M, G, <-!app_assoc. f_equal. f_equal.
    replace (last_step + 1 - (global_steps s + 1)) with (Z.pred (last_step + 1 - global_steps s)) by lia. fold (Z.succ (global_steps s)).
    f_equal. destruct (decide (total_training_steps c <= total_epochs c * steps_per_epoch c)).
    + rewrite !bool_decide_eq_true_2 by lia. done.
    + rewrite !bool_decide_eq_false_2 by lia. done.
Qed.

Lemma adds_train_begin : adds [] (on_train_begin c).
Proof.
  unfold on_train_begin, colocate_on_train_begin, separate_on_train_begin. destruct (trainer_mode c); [by apply adds_nil|..];
  apply adds_iter; by apply (adds_emit (λ s, Submitted Train (global_steps s))).
Qed.

(** C30: Every step once, in order.  From any step and with the given fuel, [fit] ends.  With
    [val_before_train] it first validates once, at the step it starts from (the initial
    validation is taken to return metrics and [val_only] to be off, which otherwise end
    [fit] there).  It then trains each step up to the smaller of the configured number and
    what the epochs hold; after a step, and before reporting it, it saves and validates at
    the multiples of their frequencies and at the last configured step, and not otherwise.
    It calls [on_train_end] exactly when it does not reach the last configured step: at that
    step [fit] returns from inside the loop, where the hook's docstring says that it is
    called after the training loop ends. *)
Theorem fit_runs_every_step s : 0 < steps_per_epoch c → (val_before_train c = true → val_metrics c = true ∧ val_only c = false) →
  ∃ s', fit c (S (Z.to_nat (last_step - global_steps s))) s = Ok (Some s') ∧
    milestones s' = milestones s ++ (if val_before_train c then [Tested (global_steps s)] else []) ++
      concat (milestones_at <$> seqZ (global_steps s + 1) (last_step - global_steps s)) ++
      (if bool_decide (global_steps s < total_training_steps c <= total_epochs c * steps_per_epoch c) then [Closed] else [Ended; Closed]).
Proof.
  intros Hl Hv. unfold fit. set (s1 := if val_before_train c then validate c s else s).
  assert (H1 : global_steps s1 = global_steps s ∧ milestones s1 = milestones s ++ (if val_before_train c then [Tested (global_steps s)] else [])).
  { subst s1. destruct (val_before_train c); [apply adds_validate|by rewrite app_nil_r]. }
  destruct H1 as [G1 M1]. assert (E1 : val_before_train c && negb (val_metrics c) = false) by (destruct (val_before_train c); [by destruct Hv as [-> _]|done]).
  assert (E2 : val_before_train c && val_only c = false) by (destruct (val_before_train c); [by destruct Hv as [_ ->]|done]).
  rewrite E1, E2. destruct (Z.eqb_spec (steps_per_epoch c) 0); [lia|]. cbv zeta. set (s2 := on_train_begin c _).
  assert (H2 : global_steps s2 = global_steps s + 1 ∧ milestones s2 = milestones s1).
  { subst s2. destruct (adds_train_begin (with_profile false (profiled_step c (global_steps s1 + 1)) false (with_steps (global_steps s1 + 1) s1))) as [A1 A2].
    cbn [global_steps with_steps with_profile] in *. rewrite A1, A2, G1, app_nil_r. done. }
  destruct H2 as [G2 M2]. destruct (fit_loop_runs (S (Z.to_nat (last_step - global_steps s))) s2 Hl) as (s' & Hs & Hm).
  { rewrite G2. replace (last_step + 1 - (global_steps s + 1)) with (last_step - global_steps s) by lia. lia. }
  exists s'. split; [f_equal; rewrite <-Hs; f_equal; unfold epoch_of; rewrite G2, G1; f_equal; lia|].
  rewrite Hm, M2, M1, G2, <-!app_assoc. replace (last_step + 1 - (global_steps s + 1)) with (last_step - global_steps s) by lia.
  f_equal. f_equal. f_equal. destruct (decide (global_steps s < total_training_steps c <= total_epochs c * steps_per_epoch c)).
  - rewrite !bool_decide_eq_true_2 by lia. done.
  - rewrite !bool_decide_eq_false_2 by lia. done.
Qed.

(** ** The weights that serve *)

Context (g0 : Z) (w0 : list Z).

(** The actor's weights after step [g] of a run from step [g0]. *)
Definition weights_at (g : Z) : list Z := w0 ++ List.filter (λ k, critic_warmup c <=? k) (seqZ (g0 + 1) (g - g0)).

(** A replica that serves the weights of step [v] under that number. *)
Definition serves (v : Z) (r : replica) : Prop :=
  r_awake r = true ∧ r_paused r = false ∧ r_steps r = Some v ∧ r_weights r = weights_at v.
(** A hybrid replica that has given its memory to the trainer. *)
Definition parked (r : replica) : Prop := r_awake r = negb (free_cache_engine c).

(** How far behind the replicas may be. *)
Definition sync_period : Z := match trainer_mode c with SeparateAsync => parameter_sync_step c | _ => 1 end.
Definition recent (g : Z) (r : replica) : Prop := ∃ v, serves v r ∧ g0 <= v <= g ∧ g - v < sync_period.

Definition event_ok (e : event) : Prop :=
  match e with
  | Sampled Train g l => Forall (recent (g - 1)) l
  | Sampled Val g l => Forall (recent g) l
  | Ran _ _ l => Forall parked l
  | Weights_given l => Forall parked l
  | _ => True
  end.

(** The step whose weights the standalone replicas hold after step [g]: the last that was
    synchronised. *)
Definition synced (g : Z) : Z := g0 `max` (parameter_sync_step c * (g / parameter_sync_step c)).

(** The actor has the weights of step [gw], the standalone replicas those of step [gs]. *)
Record base (gw gs : Z) s : Prop := {
  base_started : g0 <= gs;
  base_weights : actor_weights s = weights_at gw;
  base_standalone : Forall (λ r, r_mode r = STANDALONE ∧ serves (synced gs) r) (standalone s);
  base_alone : trainer_mode c ≠ SeparateAsync → standalone s = [];
  base_apart : addresses (hybrid s) ## addresses (standalone s);
  base_trace : Forall event_ok (trace s) }.

(** The hybrid replicas serve the weights of step [g], or are parked; they may then be paused
    where the trainer resumes them. *)
Definition hybrid_serves (g : Z) s : Prop :=
  Forall (λ r, r_mode r = HYBRID ∧ serves g r) (hybrid s) ∧ (trainer_mode c = SeparateAsync → current_mode s = ROLLOUT).
Definition hybrid_parked s : Prop :=
  Forall (λ r, r_mode r = HYBRID ∧ parked r ∧ (r_paused r = true → pausing c = true ∧ trainer_mode c ≠ Sync)) (hybrid s) ∧
  (trainer_mode c = SeparateAsync → current_mode s = TRAINER ∧ addresses (hybrid s) ## balancer s).

(** Step [g] is done. *)
Definition between (g : Z) s : Prop :=
  base g g s ∧ (hybrid_serves g s ∨ (trainer_mode c = SeparateAsync ∧ hybrid_parked s)).

Hypothesis sync_pos : 0 < parameter_sync_step c.

Lemma synced_bounds g : g0 <= g → g0 <= synced g <= g ∧ g - synced g < parameter_sync_step c.
Proof using sync_pos.
  intros Hg. unfold synced. pose proof (Z.mul_div_le g _ sync_pos). pose proof (Z.mul_succ_div_gt g _ sync_pos). lia.
Qed.
Lemma synced_kept g : g0 <= g → (g + 1) mod parameter_sync_step c ≠ 0 → synced (g + 1) = synced g.
Proof using sync_pos.
  intros Hg Hm. unfold synced. f_equal. f_equal. set (p := parameter_sync_step c) in *.
  pose proof (Z.div_mod g p ltac:(lia)) as Hd. pose proof (Z.mod_pos_bound g p sync_pos) as Hb.
  assert (g mod p + 1 ≠ p) by (intros E; apply Hm; replace (g + 1) with ((g / p + 1) * p) by lia; apply Z.mod_mul; lia).
  symmetry. apply Z.div_unique with (g mod p + 1); [left; lia|lia].
Qed.
Lemma synced_now g : g0 <= g → g mod parameter_sync_step c = 0 → synced g = g.
Proof using sync_pos. intros Hg Hm. unfold synced. pose proof (Z.div_mod g (parameter_sync_step c)). lia. Qed.

Lemma recent_standalone g r : trainer_mode c = SeparateAsync → g0 <= g → serves (synced g) r → recent g r.
Proof using sync_pos. intros Hm Hg Hr. exists (synced g). unfold sync_period. rewrite Hm. pose proof (synced_bounds g Hg). split; [done|lia]. Qed.
Lemma recent_now g r : g0 <= g → serves g r → recent g r.
Proof using sync_pos. intros Hg Hr. exists g. split; [done|]. unfold sync_period. destruct (trainer_mode c); lia. Qed.

(** *** Frames *)

Lemma base_emit gw gs e s : event_ok e → base gw gs s → base gw gs (emit e s).
Proof using Type. intros He [B1 B2 B3 B4 B5 B6]. split; try done. cbn. apply Forall_app. split; [done|]. by constructor. Qed.
Lemma between_emit g e s : event_ok e → between g s → between g (emit e s).
Proof using Type. intros He [B H]. split; [by apply base_emit|done]. Qed.
Lemma addresses_fmap f l : (∀ r, r_address (f r) = r_address r) → addresses (f <$> l) = addresses l.
Proof using Type. intros Hf. unfold addresses. rewrite <-list_fmap_compose. f_equal. apply list_fmap_ext. intros i r _. apply Hf. Qed.
Lemma base_hybrid gw gs l s : addresses l = addresses (hybrid s) → base gw gs s → base gw gs (with_hybrid l s).
Proof using Type. intros Hl [B1 B2 B3 B4 B5 B6]. split; try done. cbn [hybrid standalone with_hybrid]. by rewrite Hl. Qed.

Lemma sleep_address r : r_address (sleep c r) = r_address r.
Proof using Type. unfold sleep. destruct (negb _); [done|]. by destruct (r_mode r). Qed.
Lemma abort_address r : r_address (abort_all_requests c r) = r_address r.
Proof using Type. unfold abort_all_requests. by destruct (pausing c). Qed.
Lemma resume_address r : r_address (resume_generation c r) = r_address r.
Proof using Type. unfold resume_generation. by destruct (pausing c). Qed.
Lemma update_address st w r : r_address (naive_update c st w r) = r_address r.
Proof using Type. unfold naive_update, wake_up. destruct (free_cache_engine c); [|done]. by destruct (r_mode r). Qed.

(** *** The replicas *)

Lemma sleep_parks r : r_mode r = HYBRID → r_awake r = true → parked (sleep c r).
Proof using Type. intros Hm Ha. unfold sleep, parked. rewrite Hm. destruct (free_cache_engine c); done. Qed.
Lemma update_wakes st w r : r_mode r = HYBRID → parked r → r_awake (naive_update c st w r) = true.
Proof using Type. intros Hm Hp. unfold naive_update, wake_up, parked in *. rewrite Hm. by destruct (free_cache_engine c). Qed.

Lemma serves_of_update v r : r_mode r = HYBRID → parked r → r_paused r = false → serves v (naive_update c (Some v) (weights_at v) r).
Proof using Type.
  intros Hm Hp Hpa. split_and!; [by apply update_wakes|..]; unfold naive_update, wake_up; rewrite Hm; destruct (free_cache_engine c); done.
Qed.
Lemma serves_of_resumed v r : r_mode r = HYBRID → parked r → (r_paused r = true → pausing c = true) →
  serves v (resume_generation c (naive_update c (Some v) (weights_at v) r)).
Proof using Type.
  intros Hm Hp Hpa. pose proof (update_wakes (Some v) (weights_at v) r Hm Hp) as Ha. unfold resume_generation. destruct (pausing c) eqn:Ep.
  - split_and!; try done; unfold naive_update, wake_up; rewrite Hm; destruct (free_cache_engine c); done.
  - apply serves_of_update; try done. destruct (r_paused r); [naive_solver|done].
Qed.
Lemma serves_again v r : r_mode r = HYBRID → serves v r → serves v (naive_update c None (weights_at v) (sleep c r)).
Proof using Type.
  intros Hm (Ha & Hp & Hs & Hw). unfold sleep, naive_update, wake_up, serves. rewrite Hm. destruct (free_cache_engine c); cbn [negb]; cbn; by rewrite ?Hm.
Qed.
Lemma serves_transferred v r : r_awake r = true → r_paused r = false →
  serves v (resume_generation c (receive (Some v) (weights_at v) (abort_all_requests c r))).
Proof using Type. intros Ha Hp. unfold resume_generation, abort_all_requests. by destruct (pausing c). Qed.
Lemma sleep_mode r : r_mode (sleep c r) = r_mode r.
Proof using Type. unfold sleep. destruct (negb _); [done|]. by destruct (r_mode r) eqn:E. Qed.
Lemma update_mode st w r : r_mode (naive_update c st w r) = r_mode r.
Proof using Type. unfold naive_update, wake_up. destruct (free_cache_engine c); [|done]. by destruct (r_mode r) eqn:E. Qed.
Lemma resume_mode r : r_mode (resume_generation c r) = r_mode r.
Proof using Type. unfold resume_generation. by destruct (pausing c). Qed.

(** *** The operations *)

Lemma hybrid_parked_ok s : hybrid_parked s → Forall parked (hybrid s).
Proof using Type. intros [H _]. eapply Forall_impl; [exact H|]. naive_solver. Qed.

Lemma naive_from_parked gw gs s : base gw gs s → hybrid_parked s →
  base gw gs (checkpoint_update_weights c (Some gw) s).
Proof using Type.
  intros B H. apply base_hybrid; [apply addresses_fmap, update_address|]. apply base_emit; [by apply hybrid_parked_ok|done].
Qed.

Lemma rollout_serves g s : trainer_mode c = SeparateAsync → global_steps s = g → base g g s → hybrid_parked s → base g g (switch_to_rollout c s) ∧ hybrid_serves g (switch_to_rollout c s).
Proof using Type.
  intros Hm Hg B H. unfold switch_to_rollout. rewrite Hg. split.
  - pose proof (naive_from_parked g g s B H) as B1. assert (B2 : base g g (resume_generation_replicas c (checkpoint_update_weights c (Some g) s))).
    { apply base_hybrid; [apply addresses_fmap, resume_address|done]. }
    destruct B2. by split.
  - split; [|done]. cbn [hybrid with_mode resume_generation_replicas with_hybrid checkpoint_update_weights update_weights actor_weights emit].
    rewrite (base_weights _ _ _ B). destruct H as [H _]. rewrite !Forall_fmap. eapply Forall_impl; [exact H|].
    intros r (H1 & H2 & H3). cbn. split; [by rewrite resume_mode, update_mode|]. apply serves_of_resumed; naive_solver.
Qed.

Lemma trainer_parks gw gs g s : trainer_mode c = SeparateAsync → base gw gs s → hybrid_serves g s → base gw gs (switch_to_trainer c s) ∧ hybrid_parked (switch_to_trainer c s).
Proof using Type.
  intros Hm B [H _]. split.
  - assert (B2 : base gw gs (with_hybrid (sleep c <$> (abort_all_requests c <$> hybrid s)) s)).
    { apply base_hybrid; [|done]. rewrite addresses_fmap by apply sleep_address. apply addresses_fmap, abort_address. }
    destruct B2. by split.
  - split.
    + cbn. rewrite !Forall_fmap. eapply Forall_impl; [exact H|]. intros r (H1 & H2 & H3 & _). cbn. unfold abort_all_requests.
      rewrite sleep_mode. assert (Hr : ∀ b, r_mode (if b : bool then set_paused true r else r) = HYBRID ∧ r_awake (if b then set_paused true r else r) = true) by (by intros []).
      destruct (Hr (pausing c)) as [R1 R2]. split_and!; [done|by apply sleep_parks|]. unfold sleep. rewrite R1.
      destruct (pausing c); [intros _; split; [done|congruence]|]. destruct (negb _); cbn; congruence.
    + intros _. split; [done|]. change (addresses (sleep c <$> (abort_all_requests c <$> hybrid s)) ## balancer s ∖ addresses (hybrid s)).
      rewrite (addresses_fmap (sleep c)), (addresses_fmap (abort_all_requests c)) by (apply sleep_address || apply abort_address). clear sync_pos. set_solver.
Qed.

Lemma serving_recent g s : g0 <= g → between g s → Forall (recent g) (serving s).
Proof using sync_pos.
  intros Hg [B H]. apply Forall_forall. intros r Hr. unfold serving in Hr. apply list_elem_of_filter in Hr as [Hb Hr]. apply elem_of_app in Hr as [Hr|Hr].
  - destruct H as [[H _]|(Hm & H & Haway)].
    + rewrite Forall_forall in H. destruct (H r Hr) as [_ Hs]. by apply recent_now.
    + destruct (Haway Hm) as [_ Hd]. exfalso. apply (Hd (r_address r)); [|done]. unfold addresses. apply elem_of_list_to_set, list_elem_of_fmap. by exists r.
  - destruct (decide (trainer_mode c = SeparateAsync)) as [Hm|Hm]; [|rewrite (base_alone _ _ _ B Hm) in Hr; by apply elem_of_nil in Hr].
    pose proof (base_standalone _ _ _ B) as Hs. rewrite Forall_forall in Hs. destruct (Hs r Hr) as [_ Hr']. by apply recent_standalone.
Qed.

Lemma between_profile g p q n s : between g s → between g (with_profile p q n s).
Proof using Type. intros [[B1 B2 B3 B4 B5 B6] H]. split; [by split|done]. Qed.
Lemma between_start g s : between g s → between g (start_profiling c s).
Proof using Type. intros H. unfold start_profiling. case_match; [by apply between_emit|done]. Qed.
Lemma between_steps g n s : between g s → between g (with_steps n s).
Proof using Type. intros [[B1 B2 B3 B4 B5 B6] H]. split; [by split|done]. Qed.

Lemma sample_end_parks g s : between g s → base g g (on_sample_end c s) ∧ hybrid_parked (on_sample_end c s).
Proof using Type.
  intros [B H]. unfold on_sample_end, sync_on_sample_end, colocate_on_sample_end, separate_on_sample_end. destruct (trainer_mode c) eqn:Em.
  - destruct H as [[H _]|[E _]]; [|congruence]. split; [apply base_hybrid; [apply addresses_fmap, sleep_address|done]|]. split; [|congruence].
    cbn. apply Forall_fmap. eapply Forall_impl; [exact H|]. intros r (H1 & H2 & H3 & _). cbn. rewrite sleep_mode.
    split_and!; [done|by apply sleep_parks|]. unfold sleep. rewrite H1. destruct (negb _); cbn; congruence.
  - destruct H as [[H _]|[E _]]; [|congruence]. split.
    + apply base_hybrid; [apply addresses_fmap, sleep_address|]. apply base_hybrid; [apply addresses_fmap, abort_address|done].
    + split; [|congruence]. cbn. rewrite !Forall_fmap. eapply Forall_impl; [exact H|]. intros r (H1 & H2 & H3 & _). cbn.
      unfold abort_all_requests. rewrite sleep_mode. destruct (pausing c) eqn:Ep.
      * split_and!; [done|by apply sleep_parks|]. intros _. split; [done|congruence].
      * split_and!; [done|by apply sleep_parks|]. unfold sleep. rewrite H1. destruct (negb _); cbn; congruence.
  - destruct H as [H|(_ & H)].
    + pose proof H as [_ Hmode]. rewrite (bool_decide_eq_true_2 _ (Hmode Em)). by apply (trainer_parks g g g).
    + pose proof H as [_ Hmode]. destruct (Hmode Em) as [Hmode' _]. rewrite bool_decide_eq_false_2 by congruence. done.
Qed.

(** While the trainer computes step [n]. *)
Definition away (gw gs n : Z) s : Prop := base gw gs s ∧ hybrid_parked s ∧ global_steps s = n.
Lemma away_phase gw gs n p s : away gw gs n s → away gw gs n (run_phase p s).
Proof using Type. intros (B & H & Hn). split; [apply base_emit; [by apply hybrid_parked_ok|done]|done]. Qed.
Lemma away_if b gw gs n p s : away gw gs n s → away gw gs n (run_if b p s).
Proof using Type. destruct b; [apply away_phase|done]. Qed.

Lemma weights_next g : g0 <= g → weights_at (g + 1) = weights_at g ++ (if critic_warmup c <=? g + 1 then [g + 1] else []).
Proof using Type.
  intros Hg. unfold weights_at. rewrite <-app_assoc. f_equal. replace (g + 1 - g0) with ((g - g0) + 1) by lia. rewrite seqZ_app by lia.
  rewrite List.filter_app. f_equal. replace (g0 + 1 + (g - g0)) with (g + 1) by lia. rewrite seqZ_cons, seqZ_nil by lia. cbn. by destruct (critic_warmup c <=? g + 1).
Qed.
Lemma away_update g s : away g g (g + 1) s → away (g + 1) g (g + 1) (update_actor c s).
Proof using Type.
  intros A. unfold update_actor. pose proof A as (B & H & Hg). rewrite Hg. pose proof (weights_next g (base_started _ _ _ B)) as Hw.
  destruct (critic_warmup c <=? g + 1).
  - destruct (away_phase _ _ _ UpdateActor s A) as (B' & H' & Hn). split; [|done]. destruct B' as [B1 B2 B3 B4 B5 B6].
    split; try done. cbn. rewrite Hw. f_equal. exact (base_weights _ _ _ B).
  - split; [|done]. rewrite app_nil_r in Hw. destruct B as [B1 B2 B3 B4 B5 B6]. split; try done. by rewrite Hw.
Qed.
Lemma away_compute g s : away g g (g + 1) s → away (g + 1) g (g + 1) (compute c s).
Proof using Type. intros A. unfold compute. apply away_update, away_if, away_phase, away_if, away_if, away_phase, away_if, A. Qed.

Lemma away_step g s : global_steps s = g + 1 → between g s → away (g + 1) g (g + 1) (step c s).
Proof using sync_pos.
  intros Hg Hb. unfold step. apply away_compute. set (s1 := add_batch_to_generate s).
  assert (H1 : between g s1) by (by apply between_emit). assert (E : on_sample_begin c s1 = s1).
  { unfold on_sample_begin, separate_on_sample_begin. rewrite andb_false_r. by destruct (trainer_mode c). }
  rewrite E. set (s2 := sample Train s1). assert (H2 : between g s2).
  { apply between_emit; [|done]. cbn [event_ok]. replace (global_steps s1 - 1) with g by (cbn; lia). apply serving_recent; [|done]. apply (base_started _ _ _ (proj1 H1)). }
  destruct (sample_end_parks g s2 H2) as [B H]. split_and!; [done|done|]. destruct (adds_sample_end s2) as [-> _]. done.
Qed.

(** *** The end of a step *)

Lemma base_synced g s : trainer_mode c ≠ SeparateAsync → base (g + 1) g s → base (g + 1) (g + 1) s.
Proof using Type.
  intros Hm [B1 B2 B3 B4 B5 B6]. split; try done; [lia|]. rewrite B4 by done. constructor.
Qed.
Lemma step_end_between g s : away (g + 1) g (g + 1) s → between (g + 1) (on_step_end c s).
Proof using sync_pos.
  intros (B & H & Hn). unfold on_step_end, sync_on_step_end, colocate_on_step_end, separate_on_step_end. destruct (trainer_mode c) eqn:Em; rewrite Hn.
  - apply base_synced in B; [|congruence]. split; [by apply naive_from_parked|]. left. split; [|congruence].
    cbn. rewrite (base_weights _ _ _ B). destruct H as [H _]. rewrite Forall_fmap. eapply Forall_impl; [exact H|].
    intros r (H1 & H2 & H3). unfold compose. rewrite update_mode. split; [done|]. apply serves_of_update; try done. destruct (r_paused r); naive_solver.
  - apply base_synced in B; [|congruence]. split; [apply base_hybrid; [apply addresses_fmap, resume_address|by apply naive_from_parked]|]. left. split; [|congruence].
    cbn. rewrite (base_weights _ _ _ B). destruct H as [H _]. rewrite !Forall_fmap. eapply Forall_impl; [exact H|].
    intros r (H1 & H2 & H3). unfold compose. rewrite resume_mode, update_mode. split; [done|]. apply serves_of_resumed; naive_solver.
  - case_bool_decide as Hmod.
    + split; [|right; by split]. destruct B as [B1 B2 B3 B4 B5 B6]. split; try done; [lia| |].
      * cbn. rewrite B2, !Forall_fmap. eapply Forall_impl; [exact B3|]. intros r (H1 & H2 & H3 & _). unfold compose. rewrite resume_mode. split.
        { unfold abort_all_requests. by destruct (pausing c). }
        rewrite synced_now by (done || lia). by apply serves_transferred.
      * cbn [hybrid standalone standalone_update_weights with_standalone update_weights]. rewrite !addresses_fmap; [done|apply abort_address|done|apply resume_address].
    + split; [|right; by split]. destruct B as [B1 B2 B3 B4 B5 B6]. split; try done; [lia|]. by rewrite synced_kept.
Qed.

(** *** Validation *)

Definition serving_all (g : Z) s : Prop := base g g s ∧ hybrid_serves g s ∧ global_steps s = g.
Lemma validate_begin_serves g s : between g s → global_steps s = g → serving_all g (on_validate_begin c s).
Proof using Type.
  intros [B H] Hg. unfold on_validate_begin, separate_on_validate_begin. destruct (trainer_mode c) eqn:Em; [by destruct H as [H|[? _]]; [split_and!|congruence]..|].
  case_bool_decide as Hmode.
  - destruct H as [[_ H]|[_ H]]; [rewrite H in Hmode; done|]. destruct (rollout_serves g s Em Hg B H) as [B' H']. by split_and!.
  - destruct H as [H|[_ [_ H]]]; [by split_and!|]. destruct (H Em) as [? _]. congruence.
Qed.
Lemma validate_batch_serves g s : serving_all g s → serving_all g (validate_batch c s).
Proof using sync_pos.
  intros (B & H & Hg). unfold validate_batch. set (s1 := emit (Submitted Val (global_steps s)) s). assert (B1 : base g g s1) by (by apply base_emit).
  assert (B2 : base g g (sample Val s1)).
  { apply base_emit; [|done]. cbn [event_ok]. replace (global_steps s1) with g by (by cbn). apply serving_recent; [apply (base_started _ _ _ B)|]. split; [done|by left]. }
  destruct (colocated_reward c); [|by split_and!]. set (s2 := sample Val s1) in *. change (hybrid_serves g s) with (hybrid_serves g s2) in H.
  destruct H as [H Hm]. assert (Hp : Forall parked (sleep c <$> hybrid s2)).
  { apply Forall_fmap. eapply Forall_impl; [exact H|]. intros r (H1 & H2 & _). by apply sleep_parks. }
  split_and!; [| |done].
  - apply base_hybrid; [|by do 2 (apply base_emit; [done|]); apply base_hybrid; [apply addresses_fmap, sleep_address|]].
    apply addresses_fmap, update_address.
  - split; [|done]. cbn [hybrid checkpoint_update_weights with_hybrid update_weights run_phase emit sleep_replicas actor_weights].
    rewrite (base_weights _ _ _ B2), !Forall_fmap. eapply Forall_impl; [exact H|]. intros r (H1 & H2). unfold compose.
    rewrite update_mode, sleep_mode. split; [done|]. by apply serves_again.
Qed.
Lemma validate_between g s : between g s → global_steps s = g → between g (validate c s) ∧ hybrid_serves g (validate c s).
Proof using sync_pos.
  intros Hb Hg. assert (Hs : serving_all g (Nat.iter (val_batches c) (validate_batch c) (on_validate_begin c s))).
  { generalize (val_batches c). intros n. induction n as [|n IH]; [by apply validate_begin_serves|by apply validate_batch_serves]. }
  destruct Hs as (B & H & _). split; [|done]. apply between_emit; [done|]. split; [done|by left].
Qed.

Lemma iteration_between epoch g s : global_steps s = g + 1 → between g s → between (g + 1) (iteration c epoch s).
Proof using sync_pos.
  intros Hg Hb. unfold iteration. apply between_steps. apply between_emit; [done|].
  set (s1 := stop_profiling c _). assert (H1 : away (g + 1) g (g + 1) s1).
  { assert (A : away (g + 1) g (g + 1) (step c (start_profiling c s))).
    { apply away_step; [|by apply between_start]. destruct (adds_start s) as [-> _]. done. }
    destruct A as ([B1 B2 B3 B4 B5 B6] & H & Hn). subst s1. unfold stop_profiling. case_match; (split_and!; [|done|done]); split; try done.
    cbn. apply Forall_app. split; [done|]. by constructor. }
  set (s2 := if due c (save_freq c) (global_steps s1) then _ else s1). assert (H2 : away (g + 1) g (g + 1) s2).
  { subst s2. case_match; [|done]. destruct H1 as (B1 & K1 & Hn). split; [by apply base_emit|done]. }
  pose proof (step_end_between g s2 H2) as H3. destruct (adds_step_end s2) as [G3 _]. destruct H2 as (_ & _ & Hn).
  case_match; [|done]. apply validate_between; [done|]. by rewrite G3.
Qed.

Lemma fit_loop_ok fuel epoch g s s' : global_steps s = g + 1 → between g s → fit_loop c fuel epoch s = Some s' → Forall event_ok (trace s').
Proof using sync_pos.
  revert epoch g s. induction fuel as [|fuel IH]; intros epoch g s Hg Hb; [done|]. cbn [fit_loop].
  destruct ((epoch <? total_epochs c) && (global_steps s <=? total_training_steps c)).
  - pose proof (iteration_between epoch g s Hg Hb) as Hi. destruct (iteration_milestones epoch s) as [G _]. case_match.
    + intros [= <-]. cbn. apply Forall_app. split; [apply (base_trace _ _ _ (proj1 Hi))|by constructor].
    + apply (IH _ (g + 1)); [by rewrite G, Hg|done].
  - intros [= <-]. cbn. rewrite <-app_assoc. apply Forall_app. split; [apply (base_trace _ _ _ (proj1 Hb))|by repeat constructor].
Qed.

(** Replicas before training: running, and reachable under different addresses. *)
Definition fresh (m : rollout_mode) (r : replica) : Prop := r_mode r = m ∧ r_awake r = true ∧ r_paused r = false.

Lemma init_between hybrids standalones : Forall (fresh HYBRID) hybrids → Forall (fresh STANDALONE) standalones →
  addresses hybrids ## addresses standalones → (trainer_mode c ≠ SeparateAsync → standalones = []) →
  between g0 (init c g0 w0 hybrids standalones).
Proof using sync_pos.
  intros Hh Hs Hd Hm. assert (W : weights_at g0 = w0) by (unfold weights_at; rewrite Z.sub_diag; by rewrite app_nil_r).
  assert (Y : synced g0 = g0) by (unfold synced; pose proof (Z.mul_div_le g0 _ sync_pos); lia).
  assert (A : Forall parked (sleep c <$> hybrids)).
  { apply Forall_fmap. eapply Forall_impl; [exact Hh|]. intros r (H1 & H2 & _). by apply sleep_parks. }
  assert (V : Forall (λ r, r_mode r = HYBRID ∧ serves g0 r) (naive_update c (Some g0) w0 <$> (sleep c <$> hybrids))).
  { rewrite !Forall_fmap. eapply Forall_impl; [exact Hh|]. intros r (H1 & H2 & H3). unfold compose. rewrite update_mode, sleep_mode.
    split; [done|]. rewrite <-W. apply serves_of_update; [by rewrite sleep_mode|by apply sleep_parks|]. unfold sleep. rewrite H1. by destruct (negb _). }
  assert (D : addresses (naive_update c (Some g0) w0 <$> (sleep c <$> hybrids)) = addresses hybrids).
  { by rewrite !addresses_fmap by (apply update_address || apply sleep_address). }
  unfold init, on_init_end, sync_on_init_end, colocate_on_init_end, separate_on_init_end, setup, separate_setup. destruct (trainer_mode c) eqn:Em.
  1, 2: rewrite (Hm ltac:(congruence)) in *; (split; [split|left; split]); cbn; rewrite ?D, ?W; try done; by constructor.
  split; [split|left; split]; cbn [global_steps actor_weights hybrid standalone balancer trace checkpoint_update_weights standalone_update_weights with_hybrid with_standalone with_mode sleep_replicas emit update_weights];
    rewrite ?D, ?W; try done; [| |by constructor].
  - rewrite Y, !Forall_fmap. eapply Forall_impl; [exact Hs|]. intros r (H1 & H2 & H3). unfold compose. rewrite resume_mode. split.
    + unfold abort_all_requests. by destruct (pausing c).
    + rewrite <-W. by apply serves_transferred.
  - by rewrite !addresses_fmap by (apply abort_address || apply resume_address || done).
Qed.

(** C31: What serves is recent, what trains has the memory.  In every run of [fit] after
    initialisation, in each of the three modes: while a batch is sampled, every replica that
    the balancer can choose is awake, not paused, and holds exactly the weights that its
    step number names, those of the last finished step in the colocated modes and of less
    than [parameter_sync_step] steps before in the separate mode; and whenever the trainer
    computes or hands weights to the hybrid replicas, these sleep (where their memory can be
    freed). *)
Theorem serving_weights_are_recent hybrids standalones fuel s : Forall (fresh HYBRID) hybrids → Forall (fresh STANDALONE) standalones →
  addresses hybrids ## addresses standalones → (trainer_mode c ≠ SeparateAsync → standalones = []) →
  fit c fuel (init c g0 w0 hybrids standalones) = Ok (Some s) → Forall event_ok (trace s).
Proof using sync_pos.
  intros Hh Hs Hd Hm. pose proof (init_between _ _ Hh Hs Hd Hm) as Hb. set (s0 := init _ _ _ _ _) in *.
  assert (G0 : global_steps s0 = g0) by (subst s0; unfold init, on_init_end, sync_on_init_end, colocate_on_init_end, separate_on_init_end, setup, separate_setup; by destruct (trainer_mode c)).
  unfold fit. set (s1 := if val_before_train c then validate c s0 else s0). assert (H1 : between g0 s1).
  { subst s1. case_match; [by apply validate_between|done]. }
  assert (G1 : global_steps s1 = g0) by (subst s1; case_match; [destruct (adds_validate s0) as [-> _]|]; done).
  case_match; [done|]. case_match.
  { intros [= <-]. cbn. apply Forall_app. split; [apply (base_trace _ _ _ (proj1 H1))|by constructor]. }
  case_match; [done|]. cbv zeta. intros [= Hf]. revert Hf. set (s2 := with_profile _ _ _ _). assert (K2 : between g0 s2) by (by apply between_profile, between_steps).
  assert (K3 : between g0 (on_train_begin c s2)).
  { unfold on_train_begin, colocate_on_train_begin, separate_on_train_begin. destruct (trainer_mode c); [done|..]; unfold add_warmup_batches; generalize (num_warmup_batches c); intros n;
    (induction n as [|n IH]; [done|by apply between_emit]). }
  apply (fit_loop_ok _ _ g0); [|done]. destruct (adds_train_begin s2) as [-> _]. cbn. by rewrite G1.
Qed.
End run.

(** ** Runs *)

Definition small_config (m : mode) (total sync test : Z) (profile : option (list Z)) : config := {|
  trainer_mode := m; total_epochs := 2; total_training_steps := total; steps_per_epoch := 2; save_freq := 2; test_freq := test;
  val_before_train := true; val_only := false; val_batches := 1; val_metrics := true; critic_warmup := 0; use_critic := false;
  use_reference_policy := true; colocated_reward := false; num_warmup_batches := 1; parameter_sync_step := sync;
  profile_steps := profile; profile_continuous_steps := true; free_cache_engine := true; pausing := true |}.
Definition new_replica (m : rollout_mode) (a : string) : replica :=
  {| r_address := a; r_mode := m; r_awake := true; r_paused := false; r_steps := None; r_weights := [] |}.
Definition small_start (c : config) (g : Z) : trainer :=
  init c g [] [new_replica HYBRID "h"] (match trainer_mode c with SeparateAsync => [new_replica STANDALONE "s"] | _ => [] end).
Definition small_run (c : config) (g : Z) : list event :=
  match fit c 9 (small_start c g) with Ok (Some s) => trace s | _ => [] end.

Lemma fit_runs_every_step_witness :
  let c := small_config Sync 3 1 2 None in
  ∃ s', fit c 3 (small_start c 1) = Ok (Some s') ∧
    milestones s' = [Tested 1; Trained 2; Kept 2; Tested 2; Reported 2; Trained 3; Kept 3; Tested 3; Reported 3; Closed].
Proof.
  intros c. destruct (fit_runs_every_step c (small_start c 1)) as (s' & H1 & H2); [done|done|]. exists s'. split; [exact H1|].
  rewrite H2. vm_compute. reflexivity.
Defined.

(** When the epochs end before the configured number of steps, there is no last step: what
    was trained since the last multiple of [save_freq] is neither saved nor validated. *)
Example epochs_end_first : omap milestone_of (small_run (small_config Sync 9 1 3 None) 2) =
  [Tested 2; Trained 3; Tested 3; Reported 3; Trained 4; Kept 4; Reported 4; Ended; Closed].
Proof. vm_compute. reflexivity. Qed.

Lemma serving_weights_are_recent_witness :
  Forall (event_ok (small_config SeparateAsync 4 2 3 None) 0 []) (small_run (small_config SeparateAsync 4 2 3 None) 0).
Proof.
  set (c := small_config SeparateAsync 4 2 3 None). destruct (fit c 9 (small_start c 0)) as [[s|]|e] eqn:E; [|vm_compute in E; discriminate E..].
  unfold small_run. rewrite E. apply (serving_weights_are_recent c 0 [] ltac:(reflexivity) [new_replica HYBRID "h"] [new_replica STANDALONE "s"] 9 s).
  - repeat constructor.
  - repeat constructor.
  - apply (bool_decide_unpack _). vm_compute. exact I.
  - intros H. destruct (H eq_refl).
  - exact E.
Defined.

Definition serving_steps (e : event) : option (Z * list (option Z)) :=
  match e with Sampled Val g l => Some (g, r_steps <$> l) | _ => None end.
(** In the separate mode the hybrid replicas validate with the newest weights and the
    standalone ones with those of the last synchronisation: one validation, two policies. *)
Example validation_mixes_weights : omap serving_steps (small_run (small_config SeparateAsync 2 2 1 None) 0) =
  [(0, [Some 0; Some 0]); (1, [Some 1; Some 0]); (2, [Some 2; Some 2])].
Proof. vm_compute. reflexivity. Qed.

Definition profile_event (e : event) : option (option Z) :=
  match e with Profile_started g => Some (Some g) | Profile_stopped => Some None | _ => None end.
(** Continuous profiling that is to go on after the last step is never stopped. *)
Example profile_left_running :
  omap profile_event (small_run (small_config Sync 3 1 9 (Some [1; 2])) 0) = [Some 1; None] ∧
  omap profile_event (small_run (small_config Sync 3 1 9 (Some [3; 4])) 0) = [Some 3].
Proof. split; vm_compute; reflexivity. Qed.
