(* ===== verification/DistillKL.v ===== *)
(** * DistillKL: the forward KL over the teacher's top-k tokens

    Models src/verl/trainer/distillation/fsdp/losses.py, where a rank has all logits of a
    position, and the vocabulary-parallel autograd function of
    src/verl/trainer/distillation/megatron/losses.py, where every rank has a shard of them
    and the backward pass is written by hand.  Positions are independent, so the functions
    are about one position; logits are reals, without rounding.  The shift of the logits,
    the ranges of the shards (Megatron) and [torch.topk] are parameters. *)

From S2P Require Import Prelude Rlsd TorchFunctional.
From Stdlib Require Import Reals Lra.
Local Open Scope R_scope.
#[local] Open Scope py_scope.

Definition clamp_min (clamp : option R) (x : R) : R := match clamp with Some c => Rmax x c | None => x end.

(** ** FSDP *)

Definition gather (row : list R) (ids : list nat) : result (list R) :=
  mapM (λ i, of_option (RuntimeError "index is out of bounds for dimension") (row !! i)) ids.
Definition log_softmax (row : list R) : list R := (λ x, x - logsumexp row) <$> row.

Definition topk_log_probs (row : list R) (ids : list nat) : result (list R) := gather (log_softmax row) ids.
(** A position of a chunk: the gathered logits minus the log partition function. *)
Definition chunk_row (row : list R) (ids : list nat) : result (list R) :=
  g ← gather row ids; Ok ((λ x, x - logsumexp row) <$> (g : list R)).
(** The chunks of [chunk_size] positions, one after the other. *)
Fixpoint chunks (fuel chunk_size : nat) (logits : list (list R)) (topk_ids : list (list nat)) : result (list (list R)) :=
  match fuel, logits with
  | _, [] => Ok []
  | O, _ => Raise (RuntimeError "out of fuel")
  | S fuel, _ =>
      out ← mapM (λ ri : list R * list nat, chunk_row ri.1 ri.2) (zip (take chunk_size logits) (take chunk_size topk_ids));
      rest ← chunks fuel chunk_size (drop chunk_size logits) (drop chunk_size topk_ids);
      Ok (out ++ rest)
  end.
Definition chunked_topk_log_probs (logits : list (list R)) (topk_ids : list (list nat)) (chunk_size : nat) : result (list (list R)) :=
  match logits with
  | [] => Ok []
  | _ =>
      require negb (Nat.eqb chunk_size 0) else ValueError "range() arg 3 must not be zero" ;;
      chunks (length logits) chunk_size logits topk_ids
  end.

Definition kl_divergence (log_q log_p : list R) : R := rsum (zip_with (λ q p, exp p * (p - q)) log_q log_p).

Record topk_output := {
  distillation_losses : R; student_mass : R; teacher_mass : R; overlap_count : nat; overlap_token_advantage : R }.

(** Which of the teacher's tokens the student has among its own, and their mean advantage. *)
Definition overlap_mask (teacher_ids student_ids : list nat) : list bool := (λ i, bool_decide (i ∈ student_ids)) <$> teacher_ids.
Definition count_true (l : list bool) : nat := length (List.filter (λ b : bool, b) l).
Definition token_advantage (token_kl : list R) (mask : list bool) : R :=
  if Nat.ltb 0 (count_true mask) then rsum (zip_with (λ k b, - k * b2r b) token_kl mask) / INR (count_true mask `max` 1) else 0.

Definition forward_row (clamp : option R) (student_log_probs teacher_log_probs : list R) (teacher_ids student_ids : list nat) : topk_output :=
  let q := clamp_min clamp <$> student_log_probs in
  let p := clamp_min clamp <$> teacher_log_probs in
  let mask := overlap_mask teacher_ids student_ids in
  {| distillation_losses := kl_divergence q p;
     student_mass := rsum (exp <$> student_log_probs); teacher_mass := rsum (exp <$> teacher_log_probs);
     overlap_count := count_true mask; overlap_token_advantage := token_advantage (zip_with (λ q p, exp p * (p - q)) q p) mask |}.

Section fsdp.
Context (topk : list R → nat → list nat).

(** [compute_forward_kl_topk] on the positions of a rank. *)
Definition fsdp_forward_kl_topk (clamp : option R) (chunk_size : option nat)
    (student_logits : list (list R)) (teacher_topk_log_probs : list (list R)) (teacher_topk_ids : list (list nat)) : result (list topk_output) :=
  require Nat.eqb (length teacher_topk_log_probs) (length teacher_topk_ids) && Nat.eqb (length teacher_topk_ids) (length student_logits)
    else AssertionError "" ;;
  let ids row teacher_ids := topk row (length (teacher_ids : list nat)) in
  student_topk_ids ← Ok (zip_with (λ row t, ids (match chunk_size with Some _ => row | None => log_softmax row end) t)
                          student_logits teacher_topk_ids);
  student_topk_log_probs ←
    match chunk_size with
    | Some n => chunked_topk_log_probs student_logits teacher_topk_ids n
    | None => mapM (λ ri : list R * list nat, topk_log_probs ri.1 ri.2) (zip student_logits teacher_topk_ids)
    end;
  Ok (zip_with (λ (st : list R * list R) (ids : list nat * list nat), forward_row clamp st.1 st.2 ids.1 ids.2)
        (zip student_topk_log_probs teacher_topk_log_probs) (zip teacher_topk_ids student_topk_ids)).
End fsdp.

(** ** Megatron *)

Section megatron.
Context (logits_max : list R → R) (vocab_range : nat → nat → nat → nat * nat) (topk : list R → nat → list nat).

(** [all_reduce] with MAX: the largest of the values of the ranks. *)
Definition reduce_max (l : list R) : R := match l with [] => 0 | x :: l => foldr Rmax x l end.

Definition vocab_parallel_log_softmax (shards : list (list R)) (vp_logits : list R) : list R :=
  let m := reduce_max (logits_max <$> shards) in
  let sum_exp := rsum ((λ sh, rsum ((λ x, exp (x - m)) <$> sh)) <$> shards) in
  (λ x, x - m - ln sum_exp) <$> vp_logits.

(** What a rank makes of one of the teacher's tokens: whether the token is in its shard, its
    local index, the teacher's probability and log probability, the student's log
    probability (zero where it is not), and whether it has a gradient. *)
Record entry := { e_here : bool; e_index : nat; e_prob : R; e_logp : R; e_source : R; e_active : bool }.
Definition target_entry (clamp : option R) (range : nat * nat) (vp_source_logps : list R) (il : nat * R) : entry :=
  let here := Nat.leb range.1 il.1 && Nat.ltb il.1 range.2 in
  let index := if here then (il.1 - range.1)%nat else 0%nat in
  let logp := clamp_min clamp il.2 in
  let source := nth index vp_source_logps 0 in
  {| e_here := here; e_index := index; e_prob := if here then exp logp else 0; e_logp := if here then logp else 0;
     e_source := if here then clamp_min clamp source else 0;
     e_active := here && match clamp with Some c => Rltb c source | None => true end |}.

Context (clamp : option R) (shards : list (list R)) (ids : list nat) (logps : list R).

Definition entries (rank : nat) (vp_logits : list R) : list entry :=
  target_entry clamp (vocab_range (length vp_logits) rank (length shards)) (vocab_parallel_log_softmax shards vp_logits) <$> zip ids logps.

(** [all_reduce] with SUM of what [f] computes from the entries of each rank. *)
Definition reduce_entries (f : list entry → R) : R := rsum (imap (λ rank vp_logits, f (entries rank vp_logits)) shards).
Definition entry_kl (e : entry) : R := e_prob e * (e_logp e - e_source e).

Definition per_token_kl_loss : R := reduce_entries (λ l, rsum (entry_kl <$> l)).
Definition per_token_topk_mass : R := reduce_entries (λ l, rsum ((λ e, exp (e_source e) * b2r (e_here e)) <$> l)).
Definition target_topk_mass : R := rsum ((λ l, exp (clamp_min clamp l)) <$> (zip ids logps).*2).
Definition target_active_mass : R :=
  match clamp with
  | Some _ => reduce_entries (λ l, rsum ((λ e, if e_active e then e_prob e else 0) <$> l))
  | None => target_topk_mass
  end.

(** The student's best tokens, from the best ones of every shard. *)
Definition local_topk (rank : nat) (vp_logits : list R) : list (nat * R) :=
  let source := vocab_parallel_log_softmax shards vp_logits in
  let best := topk source (length ids `min` length vp_logits) in
  (λ i, ((i + (vocab_range (length vp_logits) rank (length shards)).1)%nat, nth i source 0)) <$> best.
Definition student_topk_ids : list nat :=
  let candidates := concat (imap local_topk shards) in
  (λ i, nth i candidates.*1 0%nat) <$> topk candidates.*2 (length ids).
Definition per_target_token_kl : list R :=
  imap (λ i _, reduce_entries (λ l, match l !! i with Some e => entry_kl e | None => 0 end)) ids.

Definition megatron_forward : topk_output :=
  let mask := overlap_mask ids student_topk_ids in
  {| distillation_losses := per_token_kl_loss; student_mass := per_token_topk_mass; teacher_mass := target_topk_mass;
     overlap_count := count_true mask; overlap_token_advantage := token_advantage per_target_token_kl mask |}.

(** [backward] on a rank: the gradient of its logits. *)
Definition scatter_sub (grad : list R) (e : entry) : list R := alter (λ x, x + - (e_prob e * b2r (e_active e))) (e_index e) grad.
Definition megatron_backward (rank : nat) (vp_logits : list R) (grad_loss : R) : list R :=
  let grad := (λ l, exp l * target_active_mass) <$> vocab_parallel_log_softmax shards vp_logits in
  (λ g, g * grad_loss) <$> foldl scatter_sub grad (entries rank vp_logits).
End megatron.

(** ** Lemmas *)

Lemma rsum_swap {A B} (f : A → B → R) l k :
  rsum ((λ a, rsum ((λ b, f a b) <$> k)) <$> l) = rsum ((λ b, rsum ((λ a, f a b) <$> l)) <$> k).
Proof.
  induction l as [|a l IH]; csimpl.
  - induction k as [|b k IHk]; csimpl; lra.
  - rewrite IH. by rewrite rsum_add.
Qed.
Lemma imap_as_fmap {A B} (f : nat → A → B) l : imap f l = (λ ia : nat * A, f ia.1 ia.2) <$> imap pair l.
Proof. by rewrite fmap_imap. Qed.
Lemma zip_with_as_fmap {A B C} (f : A → B → C) l k : zip_with f l k = (λ ab : A * B, f ab.1 ab.2) <$> zip l k.
Proof. revert k. induction l as [|a l IH]; intros [|b k]; csimpl; congruence. Qed.

Lemma gather_Forall2 row ids lps : gather row ids = Ok lps ↔ Forall2 (λ i x, row !! i = Some x) ids lps.
Proof.
  unfold gather. rewrite mapM_Ok_Forall2. split; intros H; (eapply Forall2_impl; [exact H|]); intros i x Hx.
  - by apply of_option_Ok in Hx.
  - by rewrite Hx.
Qed.

Lemma mapM_then_fmap {A B C} (f : A → result B) (g : B → C) l :
  mbind (M := result) (λ x : list B, Ok (g <$> x)) (mapM f l) = mapM (λ a, b ← f a; Ok (g b)) l.
Proof.
  induction l as [|a l IH]; [done|]. cbn [mapM]. rewrite <-IH. destruct (f a); [|done]. cbn. by destruct (mapM f l).
Qed.
Lemma mapM_same {A B} (f g : A → result B) l : (∀ a, f a = g a) → mapM f l = mapM g l.
Proof. intros Hfg. induction l as [|a l IH]; [done|]. cbn [mapM]. by rewrite Hfg, IH. Qed.
Lemma chunk_row_topk row ids : chunk_row row ids = topk_log_probs row ids.
Proof.
  unfold chunk_row, topk_log_probs, gather. rewrite mapM_then_fmap. apply mapM_same. intros i. unfold log_softmax.
  rewrite list_lookup_fmap. by destruct (row !! i).
Qed.
Lemma mapM_app {A B} (f : A → result B) l k : mapM f (l ++ k) = (x ← mapM f l; y ← mapM f k; Ok (x ++ y)).
Proof.
  induction l as [|a l IH]; cbn [app mapM].
  - cbn. by destruct (mapM f k).
  - destruct (f a); [|done]. cbn. rewrite IH. destruct (mapM f l); [|done]. cbn. by destruct (mapM f k).
Qed.
Lemma zip_split {A B} n (l : list A) (k : list B) : zip l k = zip (take n l) (take n k) ++ zip (drop n l) (drop n k).
Proof. revert l k. induction n as [|n IH]; intros [|a l] [|b k]; [done..| |done| |]; csimpl; try done. - by rewrite zip_with_nil_r. - by f_equal. Qed.

(** Working in chunks changes nothing, for any positive chunk size. *)
Lemma chunks_topk fuel n logits ids : (0 < n)%nat → (length logits <= fuel)%nat →
  chunks fuel n logits ids = mapM (λ ri : list R * list nat, topk_log_probs ri.1 ri.2) (zip logits ids).
Proof.
  intros Hn. revert logits ids. induction fuel as [|fuel IH]; intros logits ids Hf; [by destruct logits; [|cbn in Hf; lia]|].
  destruct logits as [|row logits]; [done|]. cbn [chunks]. rewrite IH by (rewrite length_drop; cbn in *; lia).
  rewrite (zip_split n (row :: logits) ids), mapM_app.
  by rewrite (mapM_same (λ ri : list R * list nat, chunk_row ri.1 ri.2) _ _ (λ ri, chunk_row_topk ri.1 ri.2)).
Qed.
Lemma chunked_topk logits ids n : (0 < n)%nat →
  chunked_topk_log_probs logits ids n = mapM (λ ri : list R * list nat, topk_log_probs ri.1 ri.2) (zip logits ids).
Proof.
  intros Hn. destruct logits as [|row logits]; [done|]. unfold chunked_topk_log_probs.
  destruct (Nat.eqb_spec n 0); [lia|]. by apply chunks_topk.
Qed.

(** ** Sums over shards *)

Lemma concat_fmap_rsum (f : R → R) shards : rsum ((λ sh, rsum (f <$> sh)) <$> shards) = rsum (f <$> concat shards).
Proof. by rewrite fmap_concat, rsum_concat, <-list_fmap_compose. Qed.

Lemma logsumexp_shift m row : row ≠ [] → ln (rsum ((λ x, exp (x - m)) <$> row)) = logsumexp row - m.
Proof.
  intros Hne. unfold logsumexp. rewrite (rsum_ext _ (λ x, exp (- m) * exp x)) by (intros x _; rewrite <-exp_plus; f_equal; lra).
  rewrite rsum_scale_f, ln_mult, ln_exp by (apply exp_pos || by apply exp_sum_pos). lra.
Qed.

(** Whatever the shift is, the ranks compute the log softmax of all logits. *)
Lemma vocab_parallel_log_softmax_all logits_max shards vp_logits : concat shards ≠ [] →
  vocab_parallel_log_softmax logits_max shards vp_logits = (λ x, x - logsumexp (concat shards)) <$> vp_logits.
Proof.
  intros Hne. unfold vocab_parallel_log_softmax. set (m := reduce_max _). rewrite (concat_fmap_rsum (λ x, exp (x - m))).
  apply list_fmap_ext. intros i x _. rewrite logsumexp_shift by done. lra.
Qed.

Lemma nth_fmap_in (f : R → R) l j : (j < length l)%nat → nth j (f <$> l) 0 = f (nth j l 0).
Proof. intros H. rewrite (nth_indep _ 0 (f 0)) by (by rewrite length_fmap). exact (map_nth f l 0 j). Qed.

(** Exactly one shard has a token. *)
Lemma shard_sum (f : nat → R → R) per shards o tok : (0 < per)%nat → Forall (λ sh, length sh = per) shards →
  (o * per <= tok)%nat → (tok < (o + length shards) * per)%nat →
  rsum (imap (λ r sh, if Nat.leb ((o + r) * per) tok && Nat.ltb tok ((o + r) * per + per)
                     then f (tok - (o + r) * per)%nat (nth (tok - (o + r) * per) sh 0) else 0) shards) =
  f ((tok - o * per) mod per)%nat (nth (tok - o * per) (concat shards) 0).
Proof.
  intros Hper. revert o. induction shards as [|sh shards IH]; intros o Hall Hlo Hhi; [cbn in Hhi; lia|].
  apply Forall_cons in Hall as [Hsh Hall]. rewrite imap_cons. cbn [rsum foldr concat]. rewrite Nat.add_0_r.
  destruct (Nat.leb_spec (o * per) tok); [|lia]. cbn [andb].
  assert (E : imap ((λ r sh0, if Nat.leb ((o + r) * per) tok && Nat.ltb tok ((o + r) * per + per)
                     then f (tok - (o + r) * per)%nat (nth (tok - (o + r) * per) sh0 0) else 0) ∘ S) shards =
              imap (λ r sh0, if Nat.leb ((S o + r) * per) tok && Nat.ltb tok ((S o + r) * per + per)
                     then f (tok - (S o + r) * per)%nat (nth (tok - (S o + r) * per) sh0 0) else 0) shards).
  { apply imap_ext. intros i x _. unfold compose. by replace (o + S i)%nat with (S o + i)%nat by lia. }
  rewrite E. destruct (Nat.ltb_spec tok (o * per + per)).
  - assert (Z : rsum (imap (λ r sh0, if Nat.leb ((S o + r) * per) tok && Nat.ltb tok ((S o + r) * per + per)
                     then f (tok - (S o + r) * per)%nat (nth (tok - (S o + r) * per) sh0 0) else 0) shards) = 0).
    { rewrite imap_as_fmap, (rsum_ext _ (λ _, 0)), rsum_const; [lra|]. intros [r x] _. cbn [fst snd]. destruct (Nat.leb_spec ((S o + r) * per) tok); [nia|done]. }
    change (foldr Rplus 0) with rsum. rewrite Z, app_nth1 by lia. rewrite Nat.mod_small by lia. lra.
  - change (foldr Rplus 0) with rsum. cbn [length] in Hhi. rewrite IH by (done || nia). rewrite app_nth2 by lia. rewrite Hsh.
    replace (tok - o * per - per)%nat with (tok - S o * per)%nat by lia.
    replace ((tok - o * per) mod per)%nat with ((tok - S o * per) mod per)%nat; [lra|].
    replace (tok - o * per)%nat with ((tok - S o * per) + 1 * per)%nat by lia. by rewrite Nat.Div0.mod_add.
Qed.


(** ** Derivatives *)

Lemma derivable_rsum {A} (F : A → R → R) (D : A → R) x l : (∀ a, a ∈ l → derivable_pt_lim (F a) x (D a)) →
  derivable_pt_lim (λ h, rsum ((λ a, F a h) <$> l)) x (rsum (D <$> l)).
Proof.
  induction l as [|a l IH]; intros H; csimpl; [apply derivable_pt_lim_const|].
  apply derivable_pt_lim_plus; [apply H; by left|]. apply IH. intros b Hb. apply H. by right.
Qed.

(** Away from the kink a clamped function has the derivative of its branch. *)
Lemma derivable_Rmax f x d c : derivable_pt_lim f x d → f x ≠ c →
  derivable_pt_lim (λ h, Rmax (f h) c) x (if Rltb c (f x) then d else 0).
Proof.
  intros Hd Hne. assert (Hc : continuity_pt f x) by (by apply derivable_continuous_pt; exists d).
  destruct (Hc (Rabs (f x - c)) ltac:(apply Rabs_pos_lt; lra)) as (delta & Hdelta & Hclose).
  assert (Hnear : ∀ y, x - delta < y < x + delta → Rabs (f y - f x) < Rabs (f x - c)).
  { intros y Hy. destruct (Req_dec x y) as [<-|Hxy]; [rewrite Rminus_diag, Rabs_R0; apply Rabs_pos_lt; lra|].
    apply (Hclose y). split; [by split|]. cbn. unfold R_dist. apply Rabs_def1; lra. }
  unfold Rltb. destruct (Rlt_dec c (f x)) as [Hlt|Hge].
  - apply (derivable_pt_lim_locally_ext f _ x (x - delta) (x + delta)); [lra| |done]. intros y Hy. specialize (Hnear y Hy).
    rewrite (Rabs_right (f x - c)) in Hnear by lra. apply Rabs_def2 in Hnear. rewrite Rmax_left by lra. done.
  - apply (derivable_pt_lim_locally_ext (fct_cte c) _ x (x - delta) (x + delta)); [lra| |apply derivable_pt_lim_const]. intros y Hy. specialize (Hnear y Hy).
    rewrite (Rabs_left (f x - c)) in Hnear by lra. apply Rabs_def2 in Hnear. rewrite Rmax_right by lra. done.
Qed.

Definition bump (g : nat) (row : list R) (h : R) : list R := <[g := nth g row 0 + h]> row.

Lemma nth_bump i g row h : (g < length row)%nat → (i < length row)%nat → nth i (bump g row h) 0 = nth i row 0 + (if decide (i = g) then h else 0).
Proof.
  intros Hg Hi. unfold bump. rewrite !nth_lookup. destruct (decide (i = g)) as [->|Hne].
  - by rewrite list_lookup_insert_eq by done.
  - rewrite list_lookup_insert_ne by done. lra.
Qed.
Lemma exp_sum_bump g row h : (g < length row)%nat →
  rsum (exp <$> bump g row h) = rsum (exp <$> row) - exp (nth g row 0) + exp (nth g row 0 + h).
Proof.
  intros Hg. unfold bump. destruct (lookup_lt_is_Some_2 row g Hg) as [x Hx]. rewrite nth_lookup, Hx. cbn [default from_option id].
  assert (E : rsum (exp <$> row) = rsum (exp <$> take g row) + (exp x + rsum (exp <$> drop (S g) row))).
  { rewrite <-(take_drop_middle row g x Hx) at 1. by rewrite fmap_app, rsum_app. }
  rewrite insert_take_drop by done. rewrite E, fmap_app, rsum_app. csimpl. lra.
Qed.

Lemma derivable_shift_exp a x : derivable_pt_lim (λ h, exp (a + h)) x (exp (a + x)).
Proof.
  assert (H : derivable_pt_lim (comp exp (λ h, a + h)) x (exp (a + x) * 1)).
  { apply derivable_pt_lim_comp; [|apply derivable_pt_lim_exp]. replace 1 with (0 + 1) by lra.
    apply derivable_pt_lim_plus; [apply derivable_pt_lim_const|apply derivable_pt_lim_id]. }
  rewrite Rmult_1_r in H. exact H.
Qed.
Lemma derivable_logsumexp g row : (g < length row)%nat →
  derivable_pt_lim (λ h, logsumexp (bump g row h)) 0 (exp (nth g row 0 - logsumexp row)).
Proof.
  intros Hg. assert (Hne : row ≠ []) by (intros ->; cbn in Hg; lia). pose proof (exp_sum_pos row Hne) as Hpos.
  set (S0 := rsum (exp <$> row)) in *. set (e := exp (nth g row 0)).
  apply (derivable_pt_lim_ext (comp ln (λ h, (S0 - e) + exp (nth g row 0 + h)))).
  { intros h. unfold logsumexp. rewrite exp_sum_bump by done. done. }
  replace (exp (nth g row 0 - logsumexp row)) with (/ (S0 - e + exp (nth g row 0 + 0)) * (0 + exp (nth g row 0 + 0))).
  - apply derivable_pt_lim_comp; [apply derivable_pt_lim_plus; [apply derivable_pt_lim_const|apply derivable_shift_exp]|].
    apply derivable_pt_lim_ln. rewrite Rplus_0_r. fold e. lra.
  - rewrite !Rplus_0_r. fold e. rewrite Rplus_0_l. replace (S0 - e + e) with S0 by lra. unfold Rminus at 1.
    rewrite exp_plus, exp_Ropp. unfold logsumexp. fold S0. rewrite exp_ln by done. unfold e. lra.
Qed.

(** The loss of a position as a function of all its logits. *)
Definition whole_loss (clamp : option R) (ids : list nat) (logps row : list R) : R :=
  rsum ((λ il : nat * R, exp (clamp_min clamp il.2) * (clamp_min clamp il.2 - clamp_min clamp (nth il.1 row 0 - logsumexp row))) <$> zip ids logps).
(** A token's student log probability is not clamped. *)
Definition moves (clamp : option R) (row : list R) (i : nat) : bool :=
  match clamp with Some c => Rltb c (nth i row 0 - logsumexp row) | None => true end.

Lemma derivable_token clamp g row i : (g < length row)%nat → (i < length row)%nat →
  (∀ c, clamp = Some c → nth i row 0 - logsumexp row ≠ c) →
  derivable_pt_lim (λ h, clamp_min clamp (nth i (bump g row h) 0 - logsumexp (bump g row h))) 0
    (if moves clamp row i then (if decide (i = g) then 1 else 0) - exp (nth g row 0 - logsumexp row) else 0).
Proof.
  intros Hg Hi Hc.
  assert (H : derivable_pt_lim (λ h, nth i (bump g row h) 0 - logsumexp (bump g row h)) 0
                ((if decide (i = g) then 1 else 0) - exp (nth g row 0 - logsumexp row))).
  { apply derivable_pt_lim_minus; [|by apply derivable_logsumexp].
    apply (derivable_pt_lim_ext (λ h, nth i row 0 + (if decide (i = g) then h else 0))); [intros h; by rewrite nth_bump|].
    replace (if decide (i = g) then 1 else 0) with (0 + (if decide (i = g) then 1 else 0)) by lra.
    apply derivable_pt_lim_plus; [apply derivable_pt_lim_const|].
    destruct (decide (i = g)); [apply derivable_pt_lim_id|apply derivable_pt_lim_const]. }
  unfold clamp_min, moves. destruct clamp as [c|]; [|exact H].
  assert (E : nth i (bump g row 0) 0 - logsumexp (bump g row 0) = nth i row 0 - logsumexp row).
  { assert (B : bump g row 0 = row); [|by rewrite B]. unfold bump. rewrite Rplus_0_r. destruct (lookup_lt_is_Some_2 row g Hg) as [x Hx].
    rewrite nth_lookup, Hx. by apply list_insert_id. }
  pose proof (derivable_Rmax _ 0 _ c H) as Hd. cbn beta in Hd. rewrite E in Hd. apply Hd. by apply Hc.
Qed.

Lemma derivable_whole clamp g row ids logps : (g < length row)%nat → Forall (λ i, (i < length row)%nat) ids →
  (∀ c i, clamp = Some c → i ∈ ids → nth i row 0 - logsumexp row ≠ c) →
  derivable_pt_lim (λ h, whole_loss clamp ids logps (bump g row h)) 0
    (exp (nth g row 0 - logsumexp row) * rsum ((λ il : nat * R, if moves clamp row il.1 then exp (clamp_min clamp il.2) else 0) <$> zip ids logps)
     - rsum ((λ il : nat * R, if decide (il.1 = g) then exp (clamp_min clamp il.2) * b2r (moves clamp row il.1) else 0) <$> zip ids logps)).
Proof.
  intros Hg Hids Hc. set (p := exp (nth g row 0 - logsumexp row)).
  replace (p * _ - _) with (rsum ((λ il : nat * R, exp (clamp_min clamp il.2) * (0 - (if moves clamp row il.1 then (if decide (il.1 = g) then 1 else 0) - p else 0))) <$> zip ids logps)).
  - apply (derivable_rsum (λ (il : nat * R) h, exp (clamp_min clamp il.2) * (clamp_min clamp il.2 - clamp_min clamp (nth il.1 (bump g row h) 0 - logsumexp (bump g row h))))
             (λ il : nat * R, exp (clamp_min clamp il.2) * (0 - (if moves clamp row il.1 then (if decide (il.1 = g) then 1 else 0) - p else 0)))).
    intros [i l] Hil. cbn [fst snd]. apply elem_of_zip_l in Hil. rewrite Forall_forall in Hids.
    apply derivable_pt_lim_scal, derivable_pt_lim_minus; [apply derivable_pt_lim_const|]. apply derivable_token; [done|by apply Hids|]. intros c Hcl. by apply Hc.
  - generalize (zip ids logps). intros l. induction l as [|[i lp] l IH]; csimpl; [lra|]. rewrite IH.
    destruct (moves clamp row i); cbn [b2r]; destruct (decide (i = g)); lra.
Qed.

(** ** The shards together *)
Section shards.
Context (logits_max : list R → R) (vocab_range : nat → nat → nat → nat * nat).
Context (clamp : option R) (per : nat) (shards : list (list R)) (ids : list nat) (logps : list R).
(** Megatron gives rank [r] the tokens from [r * n] up to [r * n + n]. *)
Hypothesis range_law : ∀ n rank world, vocab_range n rank world = ((rank * n)%nat, (rank * n + n)%nat).
Hypothesis per_pos : (0 < per)%nat.
Hypothesis shards_even : Forall (λ sh, length sh = per) shards.
Hypothesis shards_some : shards ≠ [].
Hypothesis ids_in : Forall (λ i, (i < length shards * per)%nat) ids.
Hypothesis same_length : length ids = length logps.

Let logits : list R := concat shards.
Let source : list R := log_softmax logits.

Lemma concat_length l : Forall (λ sh : list R, length sh = per) l → length (concat l) = (length l * per)%nat.
Proof using All. induction 1 as [|sh l Hsh _ IH]; [done|]. cbn [concat length]. rewrite length_app, IH, Hsh. lia. Qed.
Lemma logits_length : length logits = (length shards * per)%nat.
Proof using All. by apply concat_length. Qed.
Lemma logits_some : logits ≠ [].
Proof using All.
  intros E. pose proof logits_length as H. rewrite E in H. destruct shards; [done|]. cbn in H. lia.
Qed.

(** A token's entry where its shard is. *)
Definition whole_entry (il : nat * R) : entry := target_entry clamp (0%nat, length logits) source il.
Definition index_free (h : entry → R) : Prop :=
  ∀ here i j p l s a, h {| e_here := here; e_index := i; e_prob := p; e_logp := l; e_source := s; e_active := a |} =
                      h {| e_here := here; e_index := j; e_prob := p; e_logp := l; e_source := s; e_active := a |}.
Definition absent : entry := {| e_here := false; e_index := 0; e_prob := 0; e_logp := 0; e_source := 0; e_active := false |}.

Lemma nth_source tok : (tok < length logits)%nat → nth tok source 0 = nth tok logits 0 - logsumexp logits.
Proof using All.
  intros H. unfold source, log_softmax. by rewrite nth_fmap_in.
Qed.

Lemma token_entries h il : index_free h → h absent = 0 → (il.1 < length logits)%nat →
  rsum (imap (λ rank sh, h (target_entry clamp (vocab_range (length sh) rank (length shards)) (vocab_parallel_log_softmax logits_max shards sh) il)) shards) =
  h (whole_entry il).
Proof using All.
  intros Hidx H0 Hin. destruct il as [tok lp]. cbn [fst] in Hin.
  set (F := λ (i : nat) (x : R), h {| e_here := true; e_index := i; e_prob := exp (clamp_min clamp lp); e_logp := clamp_min clamp lp;
    e_source := clamp_min clamp (x - logsumexp logits); e_active := match clamp with Some c => Rltb c (x - logsumexp logits) | None => true end |}).
  transitivity (F ((tok - 0 * per) mod per)%nat (nth (tok - 0 * per) logits 0)).
  - assert (HF := shard_sum F per shards 0 tok per_pos shards_even ltac:(lia) ltac:(rewrite logits_length in Hin; lia)).
    etransitivity; [|exact HF]. f_equal. apply imap_ext. intros r sh Hsh. cbn [Nat.add].
    pose proof shards_even as Hall. rewrite Forall_lookup in Hall. rewrite (Hall r sh Hsh), range_law. unfold target_entry. cbn [fst snd].
    destruct (Nat.leb_spec (r * per) tok), (Nat.ltb_spec tok (r * per + per)); cbn [andb]; try exact H0.
    unfold F. rewrite vocab_parallel_log_softmax_all by apply logits_some. fold logits.
    by rewrite nth_fmap_in by (rewrite (Hall r sh Hsh); lia).
  - unfold F, whole_entry, target_entry. cbn [fst snd]. destruct (Nat.ltb_spec tok (length logits)); [|lia].
    cbn [Nat.leb andb Nat.mul]. rewrite !Nat.sub_0_r, nth_source by done. apply Hidx.
Qed.

Lemma reduce_entries_whole h : index_free h → h absent = 0 →
  reduce_entries logits_max vocab_range clamp shards ids logps (λ l, rsum (h <$> l)) = rsum ((λ il, h (whole_entry il)) <$> zip ids logps).
Proof using All.
  intros Hidx H0. unfold reduce_entries, entries. rewrite imap_as_fmap.
  rewrite (rsum_ext _ (λ ra : nat * list R, rsum ((λ il, h (target_entry clamp (vocab_range (length ra.2) ra.1 (length shards)) (vocab_parallel_log_softmax logits_max shards ra.2) il)) <$> zip ids logps)))
    by (intros [r sh] _; cbn beta iota delta [fst snd]; by rewrite <-list_fmap_compose).
  rewrite rsum_swap. apply rsum_ext. intros il Hil. rewrite <-token_entries; [f_equal; symmetry; exact (imap_as_fmap _ _)|done|done|].
  rewrite logits_length. rewrite Forall_forall in ids_in. apply ids_in. destruct il as [i l]. by apply elem_of_zip_l in Hil.
Qed.

Lemma moves_entry il : (il.1 < length logits)%nat → e_active (whole_entry il) = moves clamp logits il.1.
Proof using All.
  intros Hi. unfold whole_entry, target_entry, moves. cbn [fst snd e_active Nat.leb andb]. destruct (Nat.ltb_spec il.1 (length logits)); [|lia].
  cbn [andb]. by rewrite Nat.sub_0_r, nth_source.
Qed.
Lemma prob_entry il : (il.1 < length logits)%nat → e_prob (whole_entry il) = exp (clamp_min clamp il.2).
Proof using All.
  intros Hi. unfold whole_entry, target_entry. cbn [fst snd e_prob Nat.leb andb]. by destruct (Nat.ltb_spec il.1 (length logits)); [|lia].
Qed.
Lemma kl_entry il : (il.1 < length logits)%nat →
  entry_kl (whole_entry il) = exp (clamp_min clamp il.2) * (clamp_min clamp il.2 - clamp_min clamp (nth il.1 logits 0 - logsumexp logits)).
Proof using All.
  intros Hi. unfold entry_kl, whole_entry, target_entry. cbn [fst snd e_prob e_logp e_source Nat.leb andb]. destruct (Nat.ltb_spec il.1 (length logits)); [|lia].
  cbn [andb]. by rewrite Nat.sub_0_r, nth_source.
Qed.
Lemma zip_in il : il ∈ zip ids logps → (il.1 < length logits)%nat.
Proof using All.
  intros Hil. rewrite logits_length. rewrite Forall_forall in ids_in. apply ids_in. destruct il as [i l]. by apply elem_of_zip_l in Hil.
Qed.

Lemma loss_whole : per_token_kl_loss logits_max vocab_range clamp shards ids logps = whole_loss clamp ids logps logits.
Proof using All.
  unfold per_token_kl_loss. rewrite reduce_entries_whole; [|done|unfold entry_kl; cbn; lra]. apply rsum_ext. intros il Hil. by apply kl_entry, zip_in.
Qed.
Lemma active_mass_whole : target_active_mass logits_max vocab_range clamp shards ids logps =
  rsum ((λ il : nat * R, if moves clamp logits il.1 then exp (clamp_min clamp il.2) else 0) <$> zip ids logps).
Proof using All.
  unfold target_active_mass, target_topk_mass. destruct clamp as [c|] eqn:Ec; rewrite <-?Ec in *.
  - rewrite reduce_entries_whole by done. apply rsum_ext. intros il Hil%zip_in. by rewrite moves_entry, prob_entry by done.
  - rewrite <-list_fmap_compose. apply rsum_ext. intros il _. by rewrite Ec.
Qed.

Lemma concat_shard l rank sh (k : list R) : Forall (λ s : list R, length s = per) l → l !! rank = Some sh → length k = length sh →
  concat (<[rank := k]> l) = take (rank * per) (concat l) ++ k ++ drop (rank * per + per) (concat l).
Proof using Type.
  revert rank. clear. induction l as [|s l IH]; intros [|rank] Hall Hl Hk; [done..| |]; apply Forall_cons in Hall as [Hs Hall]; cbn in Hl.
  - injection Hl as ->. cbn [insert list_insert concat Nat.mul Nat.add take app]. by rewrite <-Hs, drop_app_length.
  - change (<[S rank := k]> (s :: l)) with (s :: <[rank := k]> l). cbn [concat]. rewrite (IH rank Hall Hl Hk). cbn [Nat.mul].
    rewrite (take_app_add' s) by done. rewrite <-Nat.add_assoc, (drop_app_add' s) by done. by rewrite <-app_assoc.
Qed.
Lemma shard_split rank sh : shards !! rank = Some sh →
  logits = take (rank * per) logits ++ sh ++ drop (rank * per + per) logits ∧ length (take (rank * per) logits) = (rank * per)%nat ∧ length sh = per.
Proof using All.
  intros Hr. pose proof shards_even as Hall. rewrite Forall_lookup in Hall. split_and!; [| |by eapply Hall].
  - pose proof (concat_shard shards rank sh sh shards_even Hr eq_refl) as C. rewrite list_insert_id in C by done. exact C.
  - rewrite length_take, logits_length. apply lookup_lt_Some in Hr. nia.
Qed.
Lemma nth_shard rank sh j : shards !! rank = Some sh → (j < per)%nat → nth (rank * per + j) logits 0 = nth j sh 0.
Proof using All.
  intros Hr Hj. destruct (shard_split rank sh Hr) as (E & Hlen & Hsh). rewrite E at 1. rewrite app_nth2 by lia.
  replace (rank * per + j - length (take (rank * per) logits))%nat with j by lia. by rewrite app_nth1 by lia.
Qed.
Lemma concat_bump rank sh j h : shards !! rank = Some sh → (j < per)%nat →
  concat (<[rank := bump j sh h]> shards) = bump (rank * per + j) logits h.
Proof using All.
  intros Hr Hj. destruct (shard_split rank sh Hr) as (E & Hlen & Hsh).
  rewrite (concat_shard shards rank sh (bump j sh h) shards_even Hr) by (unfold bump; by rewrite length_insert). fold logits.
  unfold bump. rewrite (nth_shard rank sh j Hr Hj). rewrite E at 3. rewrite <-Hlen at 3. rewrite (insert_app_r (take (rank * per) logits)), insert_app_l by lia. done.
Qed.

Definition weight_at (j : nat) (e : entry) : R := if decide (e_index e = j) then e_prob e * b2r (e_active e) else 0.
Lemma scatter_lookup es grad j : foldl scatter_sub grad es !! j = (λ x, x - rsum (weight_at j <$> es)) <$> grad !! j.
Proof using Type.
  clear. revert grad. induction es as [|e es IH]; intros grad; csimpl.
  - rewrite <-(option_fmap_id (grad !! j)) at 1. apply option_fmap_ext. intros x. cbn. lra.
  - rewrite IH. unfold scatter_sub, weight_at at 2. destruct (decide (e_index e = j)) as [<-|Hne].
    + rewrite list_lookup_alter_eq, <-option_fmap_compose. apply option_fmap_ext. intros x. cbn. lra.
    + rewrite list_lookup_alter_ne by done. apply option_fmap_ext. intros x. cbn. lra.
Qed.

(** The entries of a rank that subtract from the gradient of one of its tokens. *)
Lemma rank_weights rank sh j : shards !! rank = Some sh → (j < per)%nat →
  rsum (weight_at j <$> entries logits_max vocab_range clamp shards ids logps rank sh) =
  rsum ((λ il : nat * R, if decide (il.1 = (rank * per + j)%nat) then exp (clamp_min clamp il.2) * b2r (moves clamp logits il.1) else 0) <$> zip ids logps).
Proof using All.
  intros Hr Hj. unfold entries. rewrite <-list_fmap_compose. apply rsum_ext. intros [i lp] Hil%zip_in. cbn [fst] in Hil.
  pose proof shards_even as Hall. rewrite Forall_lookup in Hall. pose proof (Hall rank sh Hr) as Hsh.
  unfold compose, weight_at, target_entry. rewrite range_law, Hsh. cbn [fst snd e_index e_prob e_active].
  destruct (Nat.leb_spec (rank * per) i), (Nat.ltb_spec i (rank * per + per)); cbn [andb b2r].
  2, 3, 4: destruct (decide (i = (rank * per + j)%nat)); [lia|]; destruct (decide (0%nat = j)); unfold b2r; lra.
  destruct (decide ((i - rank * per)%nat = j)) as [E|E], (decide (i = (rank * per + j)%nat)) as [E'|E']; try lia; [|done].
  f_equal. f_equal. unfold moves. destruct clamp as [c|]; [|done]. rewrite vocab_parallel_log_softmax_all by apply logits_some. fold logits. rewrite E.
  rewrite nth_fmap_in by lia. subst i. by rewrite (nth_shard rank sh j Hr Hj).
Qed.
(** The loss of every teacher token, summed over the ranks. *)
Lemma per_target_whole : per_target_token_kl logits_max vocab_range clamp shards ids logps = (λ il, entry_kl (whole_entry il)) <$> zip ids logps.
Proof using All.
  apply list_eq. intros i. unfold per_target_token_kl. rewrite list_lookup_imap, list_lookup_fmap.
  destruct (ids !! i) as [tok|] eqn:Ei; cbn [fmap option_fmap option_map].
  - destruct (lookup_lt_is_Some_2 logps i) as [lp El]; [rewrite <-same_length; by eapply lookup_lt_Some|].
    assert (Ez : zip ids logps !! i = Some (tok, lp)) by (apply lookup_zip_with_Some; eauto).
    rewrite Ez. cbn [fmap option_fmap option_map]. f_equal. rewrite <-token_entries; [|done|unfold entry_kl; cbn; lra|by apply zip_in, (list_elem_of_lookup_2 _ i)].
    unfold reduce_entries. f_equal. apply imap_ext. intros r sh _. unfold entries. by rewrite list_lookup_fmap, Ez.
  - destruct (zip ids logps !! i) as [[tok lp]|] eqn:Ez; [|done]. apply lookup_zip_with_Some in Ez as (? & ? & _ & ? & _). congruence.
Qed.
Lemma mass_whole : per_token_topk_mass logits_max vocab_range clamp shards ids logps =
  rsum ((λ il : nat * R, exp (clamp_min clamp (nth il.1 source 0))) <$> zip ids logps).
Proof using All.
  unfold per_token_topk_mass. rewrite reduce_entries_whole; [|done|cbn; lra]. apply rsum_ext. intros il Hil%zip_in.
  unfold whole_entry, target_entry. cbn [fst snd e_source e_here Nat.leb andb]. destruct (Nat.ltb_spec il.1 (length logits)); [|lia].
  cbn [b2r andb]. rewrite Nat.sub_0_r. lra.
Qed.
End shards.

(** C32: The hand-written backward pass is right.  On every tensor-parallel rank, the value
    that [backward] gives for a logit of its shard is the derivative of the loss that
    [forward] returns, as a function of that logit, times the incoming gradient, with the
    clamp at work or without it, with repeated tokens and with tokens of other shards; the
    student's log probabilities only must not lie on the clamp itself. *)
Theorem backward_is_gradient logits_max vocab_range (clamp : option R) (per : nat) (shards : list (list R)) (ids : list nat) (logps : list R)
    (rank : nat) (sh : list R) (j : nat) (grad_loss : R) :
  (∀ n rank world, vocab_range n rank world = ((rank * n)%nat, (rank * n + n)%nat)) →
  Forall (λ s, length s = per) shards → Forall (λ i, (i < length shards * per)%nat) ids → length ids = length logps →
  shards !! rank = Some sh → (j < per)%nat →
  (∀ c i, clamp = Some c → i ∈ ids → nth i (concat shards) 0 - logsumexp (concat shards) ≠ c) →
  ∃ d, megatron_backward logits_max vocab_range clamp shards ids logps rank sh grad_loss !! j = Some (d * grad_loss) ∧
    derivable_pt_lim (λ h, per_token_kl_loss logits_max vocab_range clamp (<[rank := bump j sh h]> shards) ids logps) 0 d.
Proof.
  intros Hrange Heven Hids Hlen Hr Hj Hkink. assert (Hper : (0 < per)%nat) by lia. assert (Hne : shards ≠ []) by (by intros ->).
  destruct (shard_split logits_max vocab_range clamp per shards ids logps Hrange Hper Heven Hne Hids Hlen rank sh Hr) as (_ & _ & Hsh).
  assert (Hin : (rank * per + j < length (concat shards))%nat).
  { rewrite (logits_length logits_max vocab_range clamp per shards ids logps Hrange Hper Heven Hne Hids Hlen). apply lookup_lt_Some in Hr. nia. }
  pose proof (derivable_whole clamp (rank * per + j) (concat shards) ids logps Hin) as Hd.
  eexists. split; [|apply (derivable_pt_lim_ext (λ h, whole_loss clamp ids logps (bump (rank * per + j) (concat shards) h))); [|apply Hd]].
  - unfold megatron_backward. rewrite list_lookup_fmap, scatter_lookup, vocab_parallel_log_softmax_all by (intros E; rewrite E in Hin; cbn in Hin; lia).
    rewrite !list_lookup_fmap. destruct (lookup_lt_is_Some_2 sh j) as [x Hx]; [lia|]. rewrite Hx. cbn [fmap option_fmap option_map].
    rewrite (rank_weights logits_max vocab_range clamp per), (active_mass_whole logits_max vocab_range clamp per) by done.
    rewrite (nth_shard logits_max vocab_range clamp per shards ids logps Hrange Hper Heven Hne Hids Hlen rank sh j Hr Hj). by rewrite nth_lookup, Hx.
  - intros h. rewrite (loss_whole logits_max vocab_range clamp per); rewrite ?length_insert; try done.
    + by rewrite (concat_bump logits_max vocab_range clamp per shards ids logps Hrange Hper Heven Hne Hids Hlen rank sh).
    + apply Forall_insert; [done|]. unfold bump. by rewrite length_insert.
    + intros E. apply (f_equal length) in E. rewrite length_insert in E. by destruct shards.
  - by rewrite (logits_length logits_max vocab_range clamp per shards ids logps Hrange Hper Heven Hne Hids Hlen).
  - intros c i Hc Hi. by apply Hkink.
Qed.

(** ** The best tokens *)

(** [torch.topk]: [k] distinct positions, no other of which has a larger value. *)
Definition topk_law (topk : list R → nat → list nat) : Prop := ∀ l k, (k <= length l)%nat →
  length (topk l k) = k ∧ NoDup (topk l k) ∧ Forall (λ i, (i < length l)%nat) (topk l k) ∧
  ∀ i j, i ∈ topk l k → j ∉ topk l k → (j < length l)%nat → nth j l 0 <= nth i l 0.

(** How many values are above that of position [i]. *)
Definition above (l : list R) (x : R) : nat := length (List.filter (λ y, Rltb x y) l).
Definition better (l : list R) (x : R) : list nat := List.filter (λ j, Rltb x (nth j l 0)) (seq 0 (length l)).

Lemma Rltb_true x y : Rltb x y = true ↔ x < y.
Proof. unfold Rltb. destruct (Rlt_dec x y); split; intros; try done; lra. Qed.
Lemma better_elem l x j : j ∈ better l x ↔ (j < length l)%nat ∧ x < nth j l 0.
Proof. unfold better. rewrite list_elem_of_In, List.filter_In, in_seq, Rltb_true. split; intros [? ?]; (split; [lia|done]). Qed.
Lemma better_length l x : length (better l x) = above l x.
Proof.
  unfold better, above. induction l as [|y l IH] using rev_ind; [done|]. rewrite length_app, seq_app, !List.filter_app, !length_app. cbn [length seq List.filter Nat.add].
  f_equal.
  - rewrite <-IH. f_equal. apply List.filter_ext_in. intros j Hj%in_seq. by rewrite app_nth1 by lia.
  - rewrite app_nth2, Nat.sub_diag by lia. cbn. by destruct (Rltb x y).
Qed.
Lemma better_nodup l x : NoDup (better l x).
Proof. unfold better. apply NoDup_ListNoDup, List.NoDup_filter, seq_NoDup. Qed.
Lemma nodup_incl (l k : list nat) : NoDup l → (∀ i, i ∈ l → i ∈ k) → (length l <= length k)%nat.
Proof. intros Hn Hi. apply List.NoDup_incl_length; [by apply NoDup_ListNoDup|]. intros i Hin%list_elem_of_In. by apply list_elem_of_In, Hi. Qed.
Lemma nth_inj l i j : NoDup l → (i < length l)%nat → (j < length l)%nat → nth i l 0 = nth j l 0 → i = j.
Proof. intros Hn%NoDup_ListNoDup Hi Hj E. by eapply List.NoDup_nth. Qed.

(** With distinct values the best [k] positions are those with less than [k] values above. *)
Lemma topk_above topk l k i : topk_law topk → NoDup l → (k <= length l)%nat → (i < length l)%nat →
  i ∈ topk l k ↔ (above l (nth i l 0%R) < k)%nat.
Proof.
  intros Hlaw Hn Hk Hi. destruct (Hlaw l k Hk) as (Hlen & Hnd & Hin & Hbest). rewrite <-better_length. split.
  - intros Hir. assert (H : (length (i :: better l (nth i l 0%R)) <= length (topk l k))%nat); [|cbn in H; lia].
    apply nodup_incl.
    + apply NoDup_cons. split; [|apply better_nodup]. rewrite better_elem. intros [_ ?]. lra.
    + intros j [->|[Hj Hlt]%better_elem]%elem_of_cons; [done|]. destruct (decide (j ∈ topk l k)) as [|Hno]; [done|].
      specialize (Hbest i j Hir Hno Hj). lra.
  - intros Hlt. destruct (decide (i ∈ topk l k)) as [|Hno]; [done|]. exfalso.
    assert (H : (length (topk l k) <= length (better l (nth i l 0%R)))%nat); [|lia]. apply nodup_incl; [done|].
    intros j Hj. rewrite Forall_forall in Hin. apply better_elem. split; [by apply Hin|].
    specialize (Hbest j i Hj Hno Hi). destruct (Req_dec (nth i l 0) (nth j l 0)) as [E|]; [|lra].
    apply nth_inj in E; [|done|done|by apply Hin]. by subst.
Qed.

Lemma above_app l k x : above (l ++ k) x = (above l x + above k x)%nat.
Proof. unfold above. by rewrite List.filter_app, length_app. Qed.

Lemma blocks_nodup {A} per (f : nat → A → list nat) l o :
  (∀ r a, l !! r = Some a → NoDup (f r a) ∧ ∀ i, i ∈ f r a → (o + r) * per <= i < (o + r) * per + per)%nat →
  NoDup (concat (imap f l)) ∧ ∀ i, i ∈ concat (imap f l) → (o * per <= i)%nat.
Proof.
  revert f o. induction l as [|a l IH]; intros f o H.
  { split; [constructor|]. intros i Hi. by apply elem_of_nil in Hi. }
  destruct (IH (f ∘ S) (S o)) as [Hn Hlo].
  { intros r b Hb. destruct (H (S r) b Hb) as [H1 H2]. split; [done|]. intros i Hi. specialize (H2 i Hi). lia. }
  destruct (H 0%nat a eq_refl) as [Ha Hb]. rewrite imap_cons. cbn [concat]. split.
  - apply NoDup_app. split_and!; [done| |done]. intros i Hi Hi'. specialize (Hlo i Hi'). specialize (Hb i Hi). lia.
  - intros i [Hi|Hi]%elem_of_app; [specialize (Hb i Hi); lia|specialize (Hlo i Hi); lia].
Qed.

Section overlap.
Context (logits_max : list R → R) (vocab_range : nat → nat → nat → nat * nat) (topk : list R → nat → list nat).
Context (clamp : option R) (per : nat) (shards : list (list R)) (ids : list nat) (logps : list R).
Hypothesis range_law : ∀ n rank world, vocab_range n rank world = ((rank * n)%nat, (rank * n + n)%nat).
Hypothesis best_law : topk_law topk.
Hypothesis per_pos : (0 < per)%nat.
Hypothesis shards_even : Forall (λ sh, length sh = per) shards.
Hypothesis shards_some : shards ≠ [].
Hypothesis distinct : NoDup (concat shards).
Hypothesis few : (length ids <= length shards * per)%nat.

Let logits : list R := concat shards.
Let source : list R := log_softmax logits.
Let k : nat := length ids.
Let m : nat := (k `min` per)%nat.
Let C : list (nat * R) := concat (imap (local_topk logits_max vocab_range topk shards ids) shards).

Lemma logits_not_nil : logits ≠ [].
Proof using All. destruct shards as [|sh l]; [done|]. apply Forall_cons in shards_even as [H _]. intros E. apply app_eq_nil in E as [-> _]. cbn in H. lia. Qed.
Lemma source_length : length source = (length shards * per)%nat.
Proof using All.
  unfold source, log_softmax. rewrite length_fmap. unfold logits. clear -shards_even. induction shards as [|sh l IH]; [done|].
  apply Forall_cons in shards_even as [H Hl]. cbn [concat length]. rewrite length_app, H, IH by done. lia.
Qed.
Lemma source_distinct : NoDup source.
Proof using All. unfold source, log_softmax. apply NoDup_fmap_2; [|done]. intros x y E. lra. Qed.

Definition local_source (sh : list R) : list R := (λ x, x - logsumexp logits) <$> sh.
Lemma source_concat : source = concat (local_source <$> shards).
Proof using All. unfold source, log_softmax, local_source. apply fmap_concat. Qed.
Lemma local_even : Forall (λ sh, length sh = per) (local_source <$> shards).
Proof using All. apply Forall_fmap. eapply Forall_impl; [exact shards_even|]. intros sh H. cbn. unfold local_source. by rewrite length_fmap. Qed.

(** A shard inside the whole. *)
Lemma local_split rank sh : shards !! rank = Some sh →
  source = take (rank * per) source ++ local_source sh ++ drop (rank * per + per) source ∧
  length (take (rank * per) source) = (rank * per)%nat ∧ length (local_source sh) = per.
Proof using All.
  intros Hr. assert (Hl : (local_source <$> shards) !! rank = Some (local_source sh)) by (by rewrite list_lookup_fmap, Hr).
  pose proof local_even as Hall. split_and!.
  - pose proof (concat_shard per (local_source <$> shards) rank _ (local_source sh) Hall Hl eq_refl) as E. rewrite list_insert_id in E by done.
    by rewrite <-source_concat in E.
  - rewrite length_take, source_length. apply lookup_lt_Some in Hr. nia.
  - rewrite Forall_lookup in Hall. by apply (Hall rank).
Qed.
Lemma local_nth rank sh i : shards !! rank = Some sh → (i < per)%nat → nth (i + rank * per) source 0 = nth i (local_source sh) 0.
Proof using All.
  intros Hr Hi. destruct (local_split rank sh Hr) as (E & H1 & H2). rewrite E at 1. rewrite app_nth2 by lia. rewrite app_nth1 by lia. f_equal. lia.
Qed.
Lemma local_above rank sh x : shards !! rank = Some sh → (above (local_source sh) x <= above source x)%nat.
Proof using All. intros Hr. destruct (local_split rank sh Hr) as (E & _). rewrite E, !above_app. lia. Qed.
Lemma local_distinct rank sh : shards !! rank = Some sh → NoDup (local_source sh).
Proof using All.
  intros Hr. destruct (local_split rank sh Hr) as (E & _). pose proof source_distinct as H. rewrite E in H. apply NoDup_app in H as (_ & _ & H). by apply NoDup_app in H as (H & _).
Qed.

(** ** The student's candidates from all shards *)

Lemma shard_length rank sh : shards !! rank = Some sh → length sh = per.
Proof using All. intros Hr. pose proof shards_even as H. rewrite Forall_lookup in H. by apply (H rank). Qed.
Lemma local_topk_eq rank sh : shards !! rank = Some sh →
  local_topk logits_max vocab_range topk shards ids rank sh =
  (λ i, ((i + rank * per)%nat, nth i (local_source sh) 0)) <$> topk (local_source sh) m.
Proof using All.
  intros Hr. unfold local_topk. rewrite vocab_parallel_log_softmax_all by apply logits_not_nil. fold logits.
  rewrite (shard_length rank sh Hr), range_law. done.
Qed.
Lemma local_best rank sh : shards !! rank = Some sh →
  length (topk (local_source sh) m) = m ∧ NoDup (topk (local_source sh) m) ∧ ∀ i, i ∈ topk (local_source sh) m → (i < per)%nat.
Proof using All.
  intros Hr. destruct (local_split rank sh Hr) as (_ & _ & Hl). destruct (best_law (local_source sh) m) as (H1 & H2 & H3 & _); [rewrite Hl; unfold m; lia|].
  split_and!; [done..|]. rewrite Forall_forall, Hl in H3. done.
Qed.
Lemma candidates_elem c : c ∈ C ↔ ∃ rank sh i, shards !! rank = Some sh ∧ i ∈ topk (local_source sh) m ∧
  c = ((i + rank * per)%nat, nth i (local_source sh) 0).
Proof using All.
  unfold C. rewrite list_elem_of_In, in_concat. split.
  - intros (l & Hl%list_elem_of_In & Hc%list_elem_of_In). apply elem_of_lookup_imap in Hl as (rank & sh & -> & Hr).
    rewrite (local_topk_eq rank sh Hr) in Hc. apply list_elem_of_fmap in Hc as (i & -> & Hi). by exists rank, sh, i.
  - intros (rank & sh & i & Hr & Hi & ->). exists (local_topk logits_max vocab_range topk shards ids rank sh).
    rewrite <-!list_elem_of_In. split; [by eapply elem_of_lookup_imap_2|]. rewrite (local_topk_eq rank sh Hr). apply list_elem_of_fmap. by exists i.
Qed.
Lemma candidates_valid c : c ∈ C → (c.1 < length source)%nat ∧ c.2 = nth c.1 source 0.
Proof using All.
  intros (rank & sh & i & Hr & Hi & ->)%candidates_elem. destruct (local_best rank sh Hr) as (_ & _ & Hb). specialize (Hb i Hi).
  cbn [fst snd]. rewrite (local_nth rank sh i Hr Hb), source_length. apply lookup_lt_Some in Hr. split; [nia|done].
Qed.
Lemma candidates_length : length C = (length shards * m)%nat.
Proof using All.
  unfold C. rewrite length_concat. rewrite fmap_imap. apply eq_trans with (sum_list ((λ _, m) <$> shards)).
  - f_equal. rewrite <-imap_const. apply imap_ext. intros r sh Hr. unfold compose. rewrite (local_topk_eq r sh Hr), length_fmap. apply (local_best r sh Hr).
  - clear. induction shards as [|sh l IH]; [done|]. csimpl. rewrite IH. lia.
Qed.
Lemma candidates_enough : (k <= length C)%nat.
Proof using All. rewrite candidates_length. unfold m. pose proof few as Hf. fold k in Hf. destruct shards; [done|]. cbn [length] in *. destruct (Nat.min_spec k per) as [[_ ->]|[_ ->]]; nia. Qed.
Lemma candidates_distinct : NoDup C.*1.
Proof using All.
  unfold C. rewrite fmap_concat, fmap_imap.
  destruct (blocks_nodup per (λ n sh, fst <$> local_topk logits_max vocab_range topk shards ids n sh) shards 0) as [H _]; [|exact H].
  intros r sh Hr. rewrite (local_topk_eq r sh Hr), <-list_fmap_compose. destruct (local_best r sh Hr) as (_ & Hn & Hb). split.
  - apply NoDup_fmap_2; [|done]. intros i j E. cbn in E. lia.
  - intros i (j & -> & Hj)%list_elem_of_fmap. specialize (Hb j Hj). cbn. lia.
Qed.
Lemma candidates_values : C.*2 = (λ tok, nth tok source 0) <$> C.*1.
Proof using All. rewrite <-list_fmap_compose. apply list_fmap_ext. intros i c Hc%list_elem_of_lookup_2. by apply candidates_valid. Qed.
Lemma candidates_values_distinct : NoDup C.*2.
Proof using All.
  rewrite candidates_values. apply NoDup_fmap_2_strong; [|apply candidates_distinct].
  intros i j (c & -> & Hc)%list_elem_of_fmap (d & -> & Hd)%list_elem_of_fmap E.
  apply candidates_valid in Hc as [Hc _], Hd as [Hd _]. by apply (nth_inj source) in E; [|apply source_distinct|..].
Qed.

(** The tokens among the candidates whose value is above [x]. *)
Definition better_candidates (x : R) : list nat := (List.filter (λ c : nat * R, Rltb x c.2) C).*1.
Lemma better_candidates_length x : length (better_candidates x) = above C.*2 x.
Proof using All.
  unfold better_candidates, above. rewrite length_fmap. induction C as [|c l IH]; [done|]. csimpl. destruct (Rltb x c.2); csimpl; by rewrite IH.
Qed.
Lemma better_candidates_nodup x : NoDup (better_candidates x).
Proof using All.
  unfold better_candidates. pose proof candidates_distinct as Hn. revert Hn. generalize C as l. clear. induction l as [|c l IH]; intros Hn; csimpl in *; [done|].
  apply NoDup_cons in Hn as [Hc Hn]. destruct (Rltb x c.2); [|by apply IH]. csimpl. apply NoDup_cons. split; [|by apply IH].
  intros (d & E & Hd)%list_elem_of_fmap. apply Hc. rewrite E. apply list_elem_of_fmap. exists d. split; [done|].
  apply list_elem_of_In, List.filter_In in Hd as [Hd _]. by apply list_elem_of_In.
Qed.
Lemma better_candidates_elem x tok : tok ∈ better_candidates x ↔ tok ∈ C.*1 ∧ x < nth tok source 0.
Proof using All.
  unfold better_candidates. rewrite !list_elem_of_fmap. split.
  - intros (c & -> & Hc). apply list_elem_of_In, List.filter_In in Hc as [Hc Hx%Rltb_true]. apply list_elem_of_In in Hc.
    destruct (candidates_valid c Hc) as [_ E]. rewrite <-E. split; [by exists c|done].
  - intros [(c & -> & Hc) Hx]. destruct (candidates_valid c Hc) as [_ E]. exists c. split; [done|].
    apply list_elem_of_In, List.filter_In. split; [by apply list_elem_of_In|]. apply Rltb_true. by rewrite E.
Qed.

(** One of the best tokens of the whole is a candidate. *)
Lemma best_is_candidate tok : (tok < length source)%nat → (above source (nth tok source 0%R) < k)%nat → tok ∈ C.*1.
Proof using All.
  intros Htok Ha. pose proof Htok as Hs. rewrite source_length in Hs.
  pose proof (Nat.mod_upper_bound tok per ltac:(lia)) as Hmod. pose proof (Nat.div_mod_eq tok per) as Hdiv.
  destruct (lookup_lt_is_Some_2 shards (tok / per)) as [sh Hr]; [apply Nat.Div0.div_lt_upper_bound; lia|].
  destruct (local_split _ sh Hr) as (_ & _ & Hl).
  assert (Hi : (tok mod per < length (local_source sh))%nat) by lia.
  apply list_elem_of_fmap. eexists. split; [|apply candidates_elem; exists (tok / per)%nat, sh, (tok mod per)%nat; split_and!; [done| |done]]; [cbn; lia|].
  apply topk_above; [done|by eapply local_distinct|unfold m; lia|done|]. rewrite <-(local_nth _ sh _ Hr Hmod).
  replace (tok mod per + tok / per * per)%nat with tok by lia. unfold m. apply Nat.min_glb_lt.
  - eapply Nat.le_lt_trans; [by eapply local_above|done].
  - rewrite <-Hl, <-better_length. assert (H : (length ((tok mod per)%nat :: better (local_source sh) (nth tok source 0%R)) <= length (seq 0 (length (local_source sh))))%nat); [|rewrite length_seq in H; cbn in H; lia].
    apply nodup_incl.
    + apply NoDup_cons. split; [|apply better_nodup]. rewrite better_elem, <-(local_nth _ sh _ Hr Hmod).
      replace (tok mod per + tok / per * per)%nat with tok by lia. intros [_ ?]. lra.
    + intros j Hj. apply elem_of_seq. apply elem_of_cons in Hj as [->|[? _]%better_elem]; lia.
Qed.
Lemma above_candidates tok : (tok < length source)%nat → (above C.*2 (nth tok source 0%R) < k)%nat ↔ (above source (nth tok source 0%R) < k)%nat.
Proof using All.
  intros Htok. rewrite <-better_candidates_length, <-better_length. split.
  - intros Hlt. destruct (Nat.lt_ge_cases (length (better source (nth tok source 0%R))) k) as [|Hge]; [done|exfalso].
    assert (Hk : (k <= length source)%nat) by (rewrite source_length; exact few).
    destruct (best_law source k Hk) as (Hlen & Hnd & Hin & _). rewrite Forall_forall in Hin.
    assert (H : (length (topk source k) <= length (better_candidates (nth tok source 0%R)))%nat); [|lia]. apply nodup_incl; [done|].
    intros j Hj. pose proof (Hin j Hj) as Hjl. apply topk_above in Hj; [|done|apply source_distinct|done|done].
    apply better_candidates_elem. split; [by apply best_is_candidate|].
    apply Rnot_le_lt. intros Hle. rewrite <-better_length in Hj. cut (length (better source (nth tok source 0%R)) <= length (better source (nth j source 0%R)))%nat; [lia|].
    apply nodup_incl; [apply better_nodup|]. intros i [? ?]%better_elem. apply better_elem. split; [done|lra].
  - intros Hlt. eapply Nat.le_lt_trans; [|exact Hlt]. apply nodup_incl; [apply better_candidates_nodup|].
    intros j [(c & -> & Hc)%list_elem_of_fmap Hx]%better_candidates_elem. apply better_elem. split; [by apply candidates_valid|done].
Qed.
(** The student's best tokens, from the shards or from the whole row. *)
Lemma student_topk_elem tok :
  tok ∈ student_topk_ids logits_max vocab_range topk shards ids ↔ tok ∈ topk source (length ids).
Proof using All.
  assert (Hk : (k <= length source)%nat) by (rewrite source_length; exact few).
  assert (HkC : (length ids <= length C.*2)%nat) by (rewrite length_fmap; apply candidates_enough).
  unfold student_topk_ids. fold C. rewrite list_elem_of_fmap. split.
  - intros (i & -> & Hi). destruct (best_law C.*2 _ HkC) as (_ & _ & Hin & _). rewrite Forall_forall in Hin. pose proof (Hin i Hi) as Hl.
    apply topk_above in Hi; [|done|apply candidates_values_distinct|done|done].
    rewrite length_fmap in Hl. destruct (lookup_lt_is_Some_2 C i Hl) as [c Hc]. pose proof (list_elem_of_lookup_2 _ _ _ Hc) as HcC.
    destruct (candidates_valid c HcC) as [Hv E].
    assert (E1 : nth i C.*1 0%nat = c.1) by (by rewrite nth_lookup, list_lookup_fmap, Hc).
    assert (E2 : nth i C.*2 0 = c.2) by (by rewrite nth_lookup, list_lookup_fmap, Hc).
    rewrite E1. rewrite E2, E in Hi. apply topk_above; [done|apply source_distinct|done|done|]. by apply above_candidates.
  - intros Ht. destruct (best_law source k Hk) as (_ & _ & Hin & _). rewrite Forall_forall in Hin. pose proof (Hin tok Ht) as Hl.
    apply topk_above in Ht; [|done|apply source_distinct|done|done].
    pose proof (best_is_candidate tok Hl Ht) as (c & -> & (i & Hc)%list_elem_of_lookup)%list_elem_of_fmap.
    destruct (candidates_valid c ltac:(by eapply list_elem_of_lookup_2)) as [_ E].
    exists i. rewrite nth_lookup, list_lookup_fmap, Hc. split; [done|].
    apply topk_above; [done|apply candidates_values_distinct|done|rewrite length_fmap; by eapply lookup_lt_Some|].
    rewrite nth_lookup, list_lookup_fmap, Hc. cbn. rewrite E. by apply above_candidates.
Qed.
Lemma overlap_mask_same : overlap_mask ids (student_topk_ids logits_max vocab_range topk shards ids) = overlap_mask ids (topk source (length ids)).
Proof using All. unfold overlap_mask. apply list_fmap_ext. intros i tok _. apply bool_decide_ext, student_topk_elem. Qed.
End overlap.

(** ** One rank against all *)

Lemma gather_in row ids : Forall (λ i, (i < length row)%nat) ids → gather row ids = Ok ((λ i, nth i row 0) <$> ids).
Proof.
  intros H. unfold gather. apply mapM_Ok_map. rewrite Forall_forall in H. intros i Hi%H.
  rewrite nth_lookup. by destruct (lookup_lt_is_Some_2 row i Hi) as [x ->].
Qed.
(** The losses that a rank with the whole row has for the teacher's tokens. *)
Lemma token_kl_row clamp ids logps row : Forall (λ i, (i < length row)%nat) ids →
  zip_with (λ q p, exp p * (p - q)) (clamp_min clamp <$> ((λ i, nth i (log_softmax row) 0) <$> ids)) (clamp_min clamp <$> logps) =
  (λ il : nat * R, exp (clamp_min clamp il.2) * (clamp_min clamp il.2 - clamp_min clamp (nth il.1 row 0 - logsumexp row))) <$> zip ids logps.
Proof.
  intros H. rewrite <-list_fmap_compose, zip_with_fmap_l, zip_with_fmap_r, zip_with_as_fmap. apply list_fmap_ext. intros n [i p] Hip. cbn.
  apply lookup_zip_with_Some in Hip as (i' & p' & [= <- <-] & Hi & _). rewrite Forall_lookup in H. unfold log_softmax. by rewrite nth_fmap_in by (by eapply H).
Qed.
Lemma topk_shift topk row k c tok : topk_law topk → NoDup row → (k <= length row)%nat → tok ∈ topk ((λ x, x - c) <$> row) k ↔ tok ∈ topk row k.
Proof.
  intros Hlaw Hn Hk.
  assert (Hn' : NoDup ((λ x, x - c) <$> row)) by (apply NoDup_fmap_2; [intros x y E; lra|done]).
  assert (Ha : ∀ x, above ((λ x, x - c) <$> row) (x - c) = above row x).
  { intros x. unfold above. clear. induction row as [|y row IH]; [done|]. csimpl. replace (Rltb (x - c) (y - c)) with (Rltb x y); [destruct (Rltb x y); csimpl; by rewrite IH|].
    unfold Rltb. destruct (Rlt_dec x y), (Rlt_dec (x - c) (y - c)); try done; lra. }
  destruct (Nat.lt_ge_cases tok (length row)) as [Hl|Hl].
  - rewrite !topk_above; rewrite ?length_fmap; try done. by rewrite nth_fmap_in, Ha.
  - destruct (Hlaw row k Hk) as (_ & _ & H1 & _). destruct (Hlaw ((λ x, x - c) <$> row) k) as (_ & _ & H2 & _); [by rewrite length_fmap|].
    rewrite Forall_forall in H1, H2. split; intros H; [apply H2 in H; rewrite length_fmap in H|apply H1 in H]; lia.
Qed.
Lemma overlap_mask_ext ids s s' : (∀ i, i ∈ s ↔ i ∈ s') → overlap_mask ids s = overlap_mask ids s'.
Proof. intros H. unfold overlap_mask. apply list_fmap_ext. intros i tok _. by apply bool_decide_ext. Qed.

(** What a rank that has the whole row computes, with its chunks or without them. *)
Lemma fsdp_row topk clamp chunk_size row ids logps : topk_law topk → NoDup row → (length ids <= length row)%nat →
  Forall (λ i, (i < length row)%nat) ids → chunk_size ≠ Some 0%nat →
  ∃ student_ids, (∀ tok, tok ∈ student_ids ↔ tok ∈ topk (log_softmax row) (length ids)) ∧
    fsdp_forward_kl_topk topk clamp chunk_size [row] [logps] [ids] =
    Ok [forward_row clamp ((λ i, nth i (log_softmax row) 0) <$> ids) logps ids student_ids].
Proof.
  intros Hlaw Hn Hk Hids Hc. eexists. split; cycle 1.
  - unfold fsdp_forward_kl_topk. cbn [length Nat.eqb andb].
    assert (E : match chunk_size with Some n => chunked_topk_log_probs [row] [ids] n
                | None => mapM (λ ri : list R * list nat, topk_log_probs ri.1 ri.2) (zip [row] [ids]) end = Ok [(λ i, nth i (log_softmax row) 0) <$> ids]).
    { transitivity (mapM (λ ri : list R * list nat, topk_log_probs ri.1 ri.2) (zip [row] [ids])).
      - destruct chunk_size as [n|]; [|done]. apply chunked_topk. destruct n; [done|lia].
      - cbn [zip zip_with mapM fst snd]. unfold topk_log_probs. rewrite gather_in; [done|]. unfold log_softmax. by rewrite length_fmap. }
    rewrite E. reflexivity.
  - intros tok. destruct chunk_size; [|done]. symmetry. by apply topk_shift.
Qed.

Lemma clamp_above clamp x : x <= clamp_min clamp x.
Proof. destruct clamp; cbn; [apply Rmax_l|lra]. Qed.
Lemma exp_le_mono x y : x <= y → exp x <= exp y.
Proof. intros [H| ->]; [left; by apply exp_increasing|lra]. Qed.
Lemma student_mass_row ids logps (f : nat → R) : length ids = length logps →
  exp <$> (f <$> ids) = (λ il : nat * R, exp (f il.1)) <$> zip ids logps.
Proof. intros H. rewrite <-(fst_zip ids logps) at 1 by lia. by rewrite <-!list_fmap_compose. Qed.
Lemma teacher_mass_row clamp ids logps : length ids = length logps →
  exp <$> logps = (λ il : nat * R, exp il.2) <$> zip ids logps ∧
  target_topk_mass clamp ids logps = rsum ((λ il : nat * R, exp (clamp_min clamp il.2)) <$> zip ids logps).
Proof.
  intros H. split.
  - rewrite <-(snd_zip ids logps) at 1 by lia. by rewrite <-list_fmap_compose.
  - unfold target_topk_mass. by rewrite <-list_fmap_compose.
Qed.

(** C33: The two backends compute the same distillation loss.  From the shards of the
    tensor-parallel ranks, [forward] of the Megatron autograd function returns the loss that
    [compute_forward_kl_topk] of FSDP returns from all logits of the position, whether it
    works in chunks or not; the number of tokens that teacher and student both have among
    their best, which Megatron finds from the best tokens of every shard, and their mean
    advantage agree too.  The masses agree without a clamp; with one, Megatron reports those
    of the clamped log probabilities, which are never below. *)
Theorem vocab_parallel_matches_whole_row logits_max vocab_range topk (clamp : option R) (chunk_size : option nat) (per : nat)
    (shards : list (list R)) (ids : list nat) (logps : list R) :
  (∀ n rank world, vocab_range n rank world = ((rank * n)%nat, (rank * n + n)%nat)) → topk_law topk →
  (0 < per)%nat → shards ≠ [] → Forall (λ s, length s = per) shards → NoDup (concat shards) →
  Forall (λ i, (i < length shards * per)%nat) ids → length ids = length logps → (length ids <= length shards * per)%nat →
  chunk_size ≠ Some 0%nat →
  ∃ out, fsdp_forward_kl_topk topk clamp chunk_size [concat shards] [logps] [ids] = Ok [out] ∧
    let mout := megatron_forward logits_max vocab_range topk clamp shards ids logps in
    distillation_losses mout = distillation_losses out ∧ overlap_count mout = overlap_count out ∧
    overlap_token_advantage mout = overlap_token_advantage out ∧
    student_mass out <= student_mass mout ∧ teacher_mass out <= teacher_mass mout ∧
    (clamp = None → mout = out).
Proof.
  intros Hrange Hlaw Hper Hne Heven Hdist Hids Hlen Hfew Hchunk.
  pose proof (logits_length logits_max vocab_range clamp per shards ids logps Hrange Hper Heven Hne Hids Hlen) as HL.
  assert (Hids' : Forall (λ i, (i < length (concat shards))%nat) ids) by (by rewrite HL).
  destruct (fsdp_row topk clamp chunk_size (concat shards) ids logps) as (sids & Hsids & E); [done..|by rewrite HL|done|done|].
  eexists. split; [exact E|]. cbv zeta. unfold megatron_forward, forward_row.
  cbn [distillation_losses overlap_count overlap_token_advantage student_mass teacher_mass].
  rewrite (overlap_mask_same logits_max vocab_range topk clamp per shards ids logps) by done.
  rewrite (overlap_mask_ext ids sids (topk (log_softmax (concat shards)) (length ids)) Hsids).
  rewrite (per_target_whole logits_max vocab_range clamp per), (loss_whole logits_max vocab_range clamp per), (mass_whole logits_max vocab_range clamp per) by done.
  unfold kl_divergence. rewrite token_kl_row by done. fold (whole_loss clamp ids logps (concat shards)).
  assert (Ekl : ((λ il, entry_kl (whole_entry clamp shards il)) <$> zip ids logps) = (λ il : nat * R, exp (clamp_min clamp il.2) *
    (clamp_min clamp il.2 - clamp_min clamp (nth il.1 (concat shards) 0 - logsumexp (concat shards)))) <$> zip ids logps).
  { apply list_fmap_ext. intros i il Hil%list_elem_of_lookup_2. apply (kl_entry logits_max vocab_range clamp per shards ids logps); try done.
    by apply (zip_in logits_max vocab_range clamp per shards ids logps). }
  destruct (teacher_mass_row clamp ids logps Hlen) as [-> ->]. rewrite Ekl, (student_mass_row ids logps) by done.
  split_and!; [done..|apply rsum_le|apply rsum_le|].
  1, 2: intros il _; apply exp_le_mono, clamp_above.
  intros ->. done.
Qed.

(** ** Witnesses *)

(** Positions sorted by value, largest first. *)
Definition sorted_topk (l : list R) (k : nat) : list nat :=
  take k (merge_sort (λ i j, bool_decide (Rltb (nth i l 0) (nth j l 0) = false)) (seq 0 (length l))).
Lemma sorted_topk_law : topk_law sorted_topk.
Proof.
  intros l k Hk. unfold sorted_topk. set (Rel := λ i j : nat, Is_true (bool_decide (Rltb (nth i l 0) (nth j l 0) = false))).
  set (s := merge_sort _ _). assert (HP : s ≡ₚ seq 0 (length l)) by apply merge_sort_Permutation.
  assert (Hrel : ∀ i j, Rel i j ↔ nth j l 0 <= nth i l 0).
  { intros i j. unfold Rel. rewrite bool_decide_spec. unfold Rltb. destruct (Rlt_dec _ _); split; intros; try done; lra. }
  assert (HT : Transitive Rel) by (intros a b c; rewrite !Hrel; lra).
  assert (Htot : Total Rel) by (intros a b; rewrite !Hrel; lra).
  assert (HS : StronglySorted Rel s) by (apply StronglySorted_merge_sort; done).
  assert (HN : NoDup s) by (rewrite HP; apply NoDup_seq).
  rewrite <-(take_drop k s) in HS, HN. apply NoDup_app in HN as (HN & _ & _). split_and!; [|done| |].
  - rewrite length_take, HP, length_seq. lia.
  - rewrite Forall_forall. intros i Hi. assert (Hs : i ∈ s) by (rewrite <-(take_drop k s); apply elem_of_app; tauto).
    rewrite HP, elem_of_seq in Hs. lia.
  - intros i j Hi Hj Hjl. assert (Hs : j ∈ s) by (rewrite HP, elem_of_seq; lia).
    rewrite <-(take_drop k s), elem_of_app in Hs. destruct Hs as [|Hs]; [done|]. apply Hrel.
    by eapply (StronglySorted_app_1_elem_of Rel).
Qed.

(** Two ranks with two tokens each, as Megatron splits the vocabulary. *)
Definition even_range (n rank world : nat) : nat * nat := ((rank * n)%nat, (rank * n + n)%nat).

Lemma backward_is_gradient_witness :
  ∃ d, megatron_backward (λ l, nth 0 l 0) even_range None [[0; 1]; [2; 3]] [2; 2; 0]%nat [-1; -2; -3] 1 [2; 3] 5 !! 0%nat = Some (d * 5) ∧
    derivable_pt_lim (λ h, per_token_kl_loss (λ l, nth 0 l 0) even_range None (<[1%nat := bump 0 [2; 3] h]> [[0; 1]; [2; 3]]) [2; 2; 0]%nat [-1; -2; -3]) 0 d.
Proof.
  apply (backward_is_gradient (λ l, nth 0 l 0) even_range None 2 [[0; 1]; [2; 3]] [2; 2; 0]%nat [-1; -2; -3] 1 [2; 3] 0 5).
  - intros n rank world. reflexivity.
  - repeat constructor.
  - repeat constructor.
  - reflexivity.
  - reflexivity.
  - lia.
  - intros c i Hc. discriminate Hc.
Defined.
Lemma vocab_parallel_matches_whole_row_witness :
  ∃ out, fsdp_forward_kl_topk sorted_topk (Some (-10)) (Some 4096%nat) [[0; 1; 2; 3]] [[-1; -2]] [[2; 0]%nat] = Ok [out] ∧
    let mout := megatron_forward (λ l, nth 0 l 0) even_range sorted_topk (Some (-10)) [[0; 1]; [2; 3]] [2; 0]%nat [-1; -2] in
    distillation_losses mout = distillation_losses out ∧ overlap_count mout = overlap_count out ∧
    overlap_token_advantage mout = overlap_token_advantage out ∧
    student_mass out <= student_mass mout ∧ teacher_mass out <= teacher_mass mout ∧
    (Some (-10) = None → mout = out).
Proof.
  apply (vocab_parallel_matches_whole_row (λ l, nth 0 l 0) even_range sorted_topk (Some (-10)) (Some 4096%nat) 2 [[0; 1]; [2; 3]] [2; 0]%nat [-1; -2]).
  - intros n rank world. reflexivity.
  - exact sorted_topk_law.
  - lia.
  - discriminate.
  - repeat constructor.
  - cbn [concat app]. repeat constructor; rewrite ?elem_of_cons, ?elem_of_nil; intros H; repeat destruct H as [H|H]; try lra; done.
  - repeat constructor.
  - reflexivity.
  - cbn [length]. lia.
  - discriminate.
Defined.
