(* ===== verification/DistillLoss.v ===== *)
(** * DistillLoss: the distillation loss next to the policy loss

    Models src/verl/trainer/distillation/losses.py and the validation of
    src/verl/workers/config/distillation.py: the registry of loss functions, the loss of a
    micro-batch, and its combination with [ppo_loss].  Both losses aggregate with
    [config.global_batch_info], a dict that lives as long as the worker: it is state here,
    threaded through the calls.  The top-k losses of the positions come from the logits
    processor ([DistillKL]) as flat model outputs. *)

From S2P Require Import Prelude GroupBy PyDict Rlsd TorchFunctional Padding PolicyLoss Metrics ActorLoss.
From Stdlib Require Import Reals Lra.
Local Open Scope R_scope.
Local Open Scope py_scope.

(** ** Settings and registry *)

Record DistillationLossSettings := { names : list string; use_topk : bool; use_estimator : bool }.
Definition settings_post_init (s : DistillationLossSettings) : result DistillationLossSettings :=
  require xorb (use_topk s) (use_estimator s) else ValueError "Expected only one of use_estimator, use_topk" ;; Ok s.

(** The registered functions. *)
Inductive loss_fn := ForwardKLTopk | ReverseKLEstimator.
Record registries := {
  DISTILLATION_LOSS_REGISTRY : list (string * loss_fn);
  DISTILLATION_SETTINGS_REGISTRY : list (string * DistillationLossSettings) }.
Definition register_distillation_loss (loss_settings : DistillationLossSettings) (func : loss_fn) (r : registries) : result registries :=
  foldM (λ r name,
      require negb (dmem name (DISTILLATION_LOSS_REGISTRY r))
        else ValueError ("Distillation loss function with name '" +:+ name +:+ "' is already registered.") ;;
      Ok {| DISTILLATION_LOSS_REGISTRY := dset name func (DISTILLATION_LOSS_REGISTRY r);
            DISTILLATION_SETTINGS_REGISTRY := dset name loss_settings (DISTILLATION_SETTINGS_REGISTRY r) |})
    r (names loss_settings).
Definition get_distillation_loss_fn (r : registries) (loss_name : string) : result loss_fn :=
  of_option (ValueError ("Unsupported loss mode: " +:+ loss_name)) (dget loss_name (DISTILLATION_LOSS_REGISTRY r)).
Definition get_distillation_loss_settings (r : registries) (loss_name : string) : result DistillationLossSettings :=
  of_option (ValueError ("Unsupported loss mode: " +:+ loss_name)) (dget loss_name (DISTILLATION_SETTINGS_REGISTRY r)).

Definition forward_kl_topk_settings : DistillationLossSettings :=
  {| names := ["forward_kl_topk"]%string; use_topk := true; use_estimator := false |}.
Definition estimator_settings : DistillationLossSettings :=
  {| names := ["kl"; "k1"; "abs"; "mse"; "k2"; "low_var_kl"; "k3"]%string; use_topk := false; use_estimator := true |}.
(** What importing the module leaves in the registries. *)
Definition module_registries : result registries :=
  topk ← settings_post_init forward_kl_topk_settings;
  r ← register_distillation_loss topk ForwardKLTopk {| DISTILLATION_LOSS_REGISTRY := []; DISTILLATION_SETTINGS_REGISTRY := [] |};
  estimator ← settings_post_init estimator_settings;
  register_distillation_loss estimator ReverseKLEstimator r.

(** ** Configuration *)

Record DistillationLossConfig := {
  d_loss_mode : string; d_topk : option nat; d_use_task_rewards : bool; d_distillation_loss_coef : R;
  d_loss_max_clamp : option R; d_use_policy_gradient : bool; d_policy_loss_mode : string;
  d_clip_ratio : R; d_clip_ratio_low : R; d_clip_ratio_high : R }.
(** [__post_init__]: the settings of the loss mode. *)
Definition loss_config_post_init (r : registries) (c : DistillationLossConfig) : result DistillationLossSettings :=
  settings ← get_distillation_loss_settings r (d_loss_mode c);
  require bool_decide (d_policy_loss_mode c = "vanilla"%string)
    else NotImplementedError "Only vanilla policy loss is currently supported when use_policy_gradient is True" ;;
  require d_use_policy_gradient c || negb (bool_decide (d_loss_mode c = "k1"%string))
    else ValueError "Directly backpropagating k1 loss is incorrect" ;;
  Ok settings.

(** The inference engine of a teacher; [max_logprobs] is that of [engine_kwargs["vllm"]]. *)
Record inference := {
  i_name : string; tensor_model_parallel_size : nat; data_parallel_size : nat; pipeline_model_parallel_size : nat;
  max_model_len : option nat; prompt_length : nat; response_length : nat; max_logprobs : option nat }.
Record teacher_model := { t_key : option string; model_path : option string; t_inference : inference; num_replicas : option nat }.

Definition per_replica_world_size (t : teacher_model) : nat :=
  let i := t_inference t in (tensor_model_parallel_size i * data_parallel_size i * pipeline_model_parallel_size i)%nat.
Definition world_size (t : teacher_model) : result nat :=
  n ← of_option (TypeError "unsupported operand type(s) for *: 'NoneType' and 'int'") (num_replicas t);
  Ok (n * per_replica_world_size t)%nat.
Definition check_configured (t : teacher_model) : result unit :=
  require bool_decide (model_path t ≠ None) else ValueError "model_path must be specified for distillation teacher model config." ;;
  require bool_decide (t_key t ≠ None) else ValueError "key must be specified for distillation teacher model config." ;;
  require bool_decide (num_replicas t ≠ None) else ValueError "num_replicas must be specified for distillation teacher model config." ;;
  Ok tt.

Definition with_inference (t : teacher_model) (i : inference) : teacher_model :=
  {| t_key := t_key t; model_path := model_path t; t_inference := i; num_replicas := num_replicas t |}.
Definition validate_topk_logprobs (topk_used : bool) (topk : option nat) (i : inference) : result inference :=
  if negb topk_used then Ok i
  else
    k ← of_option (ValueError "topk must be specified when use_topk is True.") topk;
    if bool_decide (i_name i = "vllm"%string) then
      let cap := default k (max_logprobs i) in
      require Nat.leb k cap else ValueError "VLLM max_logprobs must be >= distillation_loss topk" ;;
      Ok {| i_name := i_name i; tensor_model_parallel_size := tensor_model_parallel_size i; data_parallel_size := data_parallel_size i;
            pipeline_model_parallel_size := pipeline_model_parallel_size i; max_model_len := max_model_len i;
            prompt_length := prompt_length i; response_length := response_length i; max_logprobs := Some cap |}
    else if bool_decide (i_name i = "sglang"%string) then Ok i
    else Raise (NotImplementedError ("DistillationTeacherModelConfig does not support inference engine " +:+ i_name i)).
Definition validate_and_prepare_for_distillation (topk_used : bool) (topk : option nat) (t : teacher_model) : result teacher_model :=
  let i := t_inference t in
  require match max_model_len i with
          | Some n => Nat.leb (prompt_length i + response_length i + 1) n
          | None => true end
    else ValueError "Distillation teacher inference requires room for the student prompt, the full student response, and one generated token" ;;
  let i := {| i_name := i_name i; tensor_model_parallel_size := tensor_model_parallel_size i; data_parallel_size := data_parallel_size i;
              pipeline_model_parallel_size := pipeline_model_parallel_size i; max_model_len := max_model_len i;
              prompt_length := prompt_length i + response_length i; response_length := 1; max_logprobs := max_logprobs i |} in
  i ← validate_topk_logprobs topk_used topk i;
  Ok (with_inference t i).

Record DistillationConfig := {
  enabled : bool; n_gpus_per_node : nat; nnodes : nat; teacher_models : list (string * teacher_model);
  dc_loss : DistillationLossConfig }.
Definition is_distillation_enabled (c : option DistillationConfig) : bool := match c with None => false | Some c => enabled c end.

(** A single teacher gets the whole pool and the key [default]. *)
Definition single_teacher (pool_size : nat) (t : teacher_model) : result teacher_model :=
  let per_replica := per_replica_world_size t in
  require negb (Nat.eqb per_replica 0) else ZeroDivisionError "integer modulo by zero" ;;
  require Nat.eqb (pool_size mod per_replica) 0
    else ValueError "Single teacher's per_replica_world_size must divide the distillation resource pool size" ;;
  Ok {| t_key := Some "default"%string; model_path := model_path t; t_inference := t_inference t;
        num_replicas := Some (pool_size / per_replica)%nat |}.
Definition add_teacher (models : list (string * teacher_model)) (t : teacher_model) : result (list (string * teacher_model)) :=
  _ ← check_configured t;
  key ← of_option (ValueError "key must be specified for distillation teacher model config.") (t_key t);
  require negb (dmem key models) else ValueError ("Duplicate teacher key " +:+ key +:+ " found in teacher models.") ;;
  Ok (dset key t models).
Definition resolve_teacher_models (c : DistillationConfig) : result (list (string * teacher_model)) :=
  first ← of_option (AssertionError "") (dget "teacher_model" (teacher_models c));
  configured ← (if Nat.eqb (length (teacher_models c)) 1
                then t ← single_teacher (n_gpus_per_node c * nnodes c) first; Ok (dset "teacher_model" t (teacher_models c))
                else Ok (ddel "teacher_model" (teacher_models c)));
  foldM add_teacher [] (configured : list (string * teacher_model)).*2.

(** [DistillationConfig.__post_init__]: the teachers by their key. *)
Definition distillation_post_init (settings : DistillationLossSettings) (c : DistillationConfig) : result (list (string * teacher_model)) :=
  if negb (enabled c) then Ok (teacher_models c)
  else
    models ← resolve_teacher_models c;
    prepared ← mapM (λ kt : string * teacher_model,
        t ← validate_and_prepare_for_distillation (use_topk settings) (d_topk (dc_loss c)) kt.2; Ok (kt.1, t)) models;
    sizes ← mapM (λ kt : string * teacher_model, world_size kt.2) (prepared : list (string * teacher_model));
    require Nat.eqb (sum_list (sizes : list nat)) (n_gpus_per_node c * nnodes c)
      else ValueError "Sum of teacher (num_replicas * per_replica_world_size) must match the distillation resource pool size" ;;
    Ok prepared.

(** ** Losses of a micro-batch *)

(** Metrics of this module are [Metric] objects or plain numbers. *)
Definition dmetrics := list (string * (Metric + fnum)).
Definition widen (m : metric_dict) : dmetrics :=
  (λ kv : string * (Metric + R), (kv.1, match kv.2 with inl a => inl a | inr x => inr (Fin x) end)) <$> m.
Definition update (metrics new : dmetrics) : dmetrics := foldl (λ d kv, dset kv.1 kv.2 d) metrics new.

(** What the model leaves for the loss: flat over the tokens of the micro-batch. *)
Record model_output := {
  out_log_probs : list R; out_entropy : option (list R);
  out_distillation_losses : option (list R); out_student_mass : option (list R); out_teacher_mass : option (list R);
  out_overlap_count : option (list nat); out_overlap_token_advantage : option (list R) }.
Record micro_batch := { mb_batch : loss_batch; mb_nested : nested_data; mb_teacher_logprobs : list R; mb_output : model_output }.

Definition same_shapes {A B} (t : tensor A) (u : tensor B) : bool := bool_decide (shape t = shape u).
(** [t[mask]], and its [min()], [max()] and [mean()]. *)
Definition masked_values {A} (t : tensor A) (mask : tensor bool) : list A := concat (zip_with (λ row m, select m row) t mask).
Definition tensor_min (l : list R) : result R :=
  match l with [] => Raise (RuntimeError "min(): Expected reduction dim to be specified for input.numel() == 0") | _ => Ok (min_of l) end.
Definition tensor_max (l : list R) : result R :=
  match l with [] => Raise (RuntimeError "max(): Expected reduction dim to be specified for input.numel() == 0") | _ => Ok (max_of l) end.
Definition tensor_mean (l : list R) : fnum := fdiv (rsum l) (INR (length l)).

Definition compute_distillation_loss_range (distillation_losses : tensor R) (response_mask : tensor bool) : result dmetrics :=
  require same_shapes distillation_losses response_mask
    else IndexError "The shape of the mask does not match the shape of the indexed tensor" ;;
  let l := masked_values distillation_losses response_mask in
  lo ← tensor_min l;
  hi ← tensor_max l;
  Ok [("distillation/loss_min", inl (new_metric MIN (Some (Fin lo)))); ("distillation/loss_max", inl (new_metric MAX (Some (Fin hi))))]%string.

Definition overlap_metrics (topk : option nat) (overlap_count : tensor nat) (overlap_token_advantage : tensor R) (mask : tensor bool) : result dmetrics :=
  require same_shapes overlap_count overlap_token_advantage && same_shapes overlap_token_advantage mask else AssertionError "" ;;
  k ← of_option (AssertionError "") topk;
  let valid_overlap_count := masked_values overlap_count mask in
  let position_mask := tzip andb mask (tmap (Nat.ltb 0) overlap_count) in
  let on_overlap := masked_values overlap_token_advantage position_mask in
  Ok [("distillation/overlap_ratio",
        inr match tensor_mean (INR <$> valid_overlap_count) with Fin x => fdiv x (INR k) | NonFin => NonFin end);
      ("distillation/overlap_token_advantage",
        inr (match on_overlap with [] => Fin 0 | _ => tensor_mean on_overlap end))]%string.

(** The metrics of the mass that the top-k tokens have. *)
Definition mass_metrics (who : string) (mass : tensor R) (mask : tensor bool) : result dmetrics :=
  let l := masked_values mass mask in
  lo ← tensor_min l;
  hi ← tensor_max l;
  Ok [("distillation/" +:+ who +:+ "_mass", inr (tensor_mean l));
      ("distillation/" +:+ who +:+ "_mass_min", inl (new_metric MIN (Some (Fin lo))));
      ("distillation/" +:+ who +:+ "_mass_max", inl (new_metric MAX (Some (Fin hi))))]%string.

Definition padded_output (key : string) (v : option (list R)) (nested : nested_data) : result (tensor R) :=
  values ← of_option (KeyError key) v; no_padding_2_padding 0 values nested.
(** The overlap diagnostics, when the model output has both. *)
Definition padded_overlap (n : option (list nat)) (a : option (list R)) (nested : nested_data) : result (option (tensor nat * tensor R)) :=
  match n, a with
  | Some n, Some a =>
      n ← no_padding_2_padding 0%nat n nested; a ← no_padding_2_padding 0 a nested; Ok (Some (n, a))
  | _, _ => Ok None
  end.
Definition compute_forward_kl_topk (dc : DistillationLossConfig) (mb : micro_batch) : result (tensor R * dmetrics) :=
  let out := mb_output mb in
  let mask := b_response_mask (mb_batch mb) in
  distillation_losses ← padded_output "distillation_losses" (out_distillation_losses out) (mb_nested mb);
  student_mass ← padded_output "student_mass" (out_student_mass out) (mb_nested mb);
  teacher_mass ← padded_output "teacher_mass" (out_teacher_mass out) (mb_nested mb);
  overlap ← padded_overlap (out_overlap_count out) (out_overlap_token_advantage out) (mb_nested mb);
  require same_shapes distillation_losses student_mass && same_shapes student_mass teacher_mass && same_shapes teacher_mass mask
    else AssertionError "" ;;
  overlap_ms ← (match overlap with
                | Some na => overlap_metrics (d_topk dc) na.1 na.2 mask | None => Ok [] end : result dmetrics);
  student_ms ← mass_metrics "student" student_mass mask;
  teacher_ms ← mass_metrics "teacher" teacher_mass mask;
  Ok (tmap (λ x, Rmax x 0) distillation_losses, student_ms ++ teacher_ms ++ overlap_ms).

Definition compute_distillation_loss_reverse_kl_estimator (dc : DistillationLossConfig) (mb : micro_batch) : result (tensor R * dmetrics) :=
  let mask := b_response_mask (mb_batch mb) in
  student ← no_padding_2_padding 0 (out_log_probs (mb_output mb)) (mb_nested mb);
  teacher ← no_padding_2_padding 0 (mb_teacher_logprobs mb) (mb_nested mb);
  require same_shapes teacher student && same_shapes student mask else AssertionError "" ;;
  distillation_losses ← tensor_mapM2 (λ lp ref, kl_penalty lp ref (d_loss_mode dc)) student teacher;
  Ok (distillation_losses,
      [("distillation/abs_loss", inl (new_metric MEAN (Some (tensor_mean (Rabs <$> masked_values distillation_losses mask)))))]%string).

(** ** The distillation loss of a micro-batch *)

(** The two [global_batch_info] dicts, [None] while they are empty. *)
Record infos := { actor_info : option batch_info; loss_info : option batch_info }.

Section losses.
(** The registry of distillation losses, and the parameters of [ppo_loss]. *)
Context (dregistry : registries) (quantile : list fnum → R → fnum) (lower : string → string) (registry : list (string * policy_loss_fn)).
Context (config : ActorConfig) (dc : DistillationLossConfig).

(** The losses of the tokens, before they are clamped and aggregated. *)
Definition token_losses (mb : micro_batch) : result (tensor R * dmetrics) :=
  f ← get_distillation_loss_fn dregistry (d_loss_mode dc);
  match f with
  | ForwardKLTopk => compute_forward_kl_topk dc mb
  | ReverseKLEstimator => compute_distillation_loss_reverse_kl_estimator dc mb
  end.
Definition clamp_losses (losses : tensor R) : tensor R :=
  match d_loss_max_clamp dc with Some c => tmap (rclamp (- c) c) losses | None => losses end.

(** The distillation configuration where a policy loss expects that of the actor: [vanilla]
    reads the clip ranges and the counts, and [clip_ratio_c], which is not a field of it. *)
Definition as_actor_config (info : batch_info) : ActorConfig := {|
  clip_ratio := d_clip_ratio dc; clip_ratio_low := Some (d_clip_ratio_low dc); clip_ratio_high := Some (d_clip_ratio_high dc);
  clip_ratio_c := None; tau_pos := tau_pos config; tau_neg := tau_neg config; loss_agg_mode := loss_agg_mode config;
  cfg_loss_scale_factor := cfg_loss_scale_factor config; entropy_coeff := entropy_coeff config; use_kl_loss := use_kl_loss config;
  kl_loss_coef := kl_loss_coef config; kl_loss_type := kl_loss_type config; policy_loss := policy_loss config; global_batch_info := info |}.
Definition rename (k : string) : string := "distillation/" +:+ String.substring 6 (String.length k - 6) k.

Definition distillation_loss (s : infos) (mb : micro_batch) : result (infos * (fnum * dmetrics)) :=
  '(losses, metrics) ← token_losses mb;
  let mask := b_response_mask (mb_batch mb) in
  range ← compute_distillation_loss_range losses mask;
  let metrics := update metrics range in
  let losses := clamp_losses losses in
  if d_use_policy_gradient dc then
    policy_loss_fn ← get_policy_loss_fn registry (d_policy_loss_mode dc);
    let s := {| actor_info := actor_info s; loss_info := match actor_info s with Some i => Some i | None => loss_info s end |} in
    log_prob ← no_padding_2_padding 0 (out_log_probs (mb_output mb)) (mb_nested mb);
    '(loss, pg_metrics) ← policy_loss_fn (b_old_log_probs (mb_batch mb)) log_prob (tmap Ropp losses) mask (loss_agg_mode config)
        (as_actor_config (default no_batch_info (loss_info s))) (b_rollout_is_weights (mb_batch mb));
    Ok (s, (loss, update metrics ((λ kv : string * R, (rename kv.1, inr (Fin kv.2))) <$> pg_metrics)))
  else
    loss ← agg_loss losses mask (loss_agg_mode config) (default no_batch_info (actor_info s));
    Ok (s, (loss, metrics)).

(** [distillation_ppo_loss] as the final loss: [ppo_loss] writes the batch's counts into
    [config.global_batch_info] after the distillation loss has read it. *)
Definition distillation_ppo_loss (s : infos) (mb : micro_batch) : result (infos * (fnum * dmetrics)) :=
  '(s, (distill_loss, distill_metrics)) ← distillation_loss s mb;
  '(policy_loss, policy_metrics) ← ppo_loss quantile lower registry config (out_log_probs (mb_output mb)) (out_entropy (mb_output mb))
      (mb_nested mb) (mb_batch mb);
  let s := {| actor_info := Some (global_batch_info (with_batch_info config (mb_batch mb))); loss_info := loss_info s |} in
  let policy_loss := if d_use_task_rewards dc then policy_loss else Fin 0 in
  let metrics := update (widen policy_metrics) distill_metrics in
  let coef := if d_use_task_rewards dc then d_distillation_loss_coef dc else 1 in
  Ok (s, (f2 Rplus policy_loss (f1 (λ x, x * coef) distill_loss),
          dset "distillation/loss" (inl (new_metric SUM (Some distill_loss))) metrics)).

(** The calls of the micro-batches, one after the other. *)
Fixpoint run_micro_batches (s : infos) (l : list micro_batch) : result (infos * list (fnum * dmetrics)) :=
  match l with
  | [] => Ok (s, [])
  | mb :: l =>
      '(s, out) ← distillation_ppo_loss s mb;
      '(s, outs) ← run_micro_batches s l;
      Ok (s, out :: outs)
  end.
End losses.

(** ** The logits processor *)

Inductive topk_backend := FsdpBackend | MegatronBackend.
Definition compute_topk_backend (strategy : string) : result topk_backend :=
  if bool_decide (strategy ∈ ["fsdp"; "veomni"]%string) then Ok FsdpBackend
  else if bool_decide (strategy = "megatron"%string) then Ok MegatronBackend
  else Raise (NotImplementedError ("Unsupported strategy: config.strategy='" +:+ strategy +:+ "'")).

(** ** The loss of a mini-batch *)

Section minibatch.
Context (dregistry : registries) (quantile : list fnum → R → fnum) (lower : string → string) (registry : list (string * policy_loss_fn)).
Context (config : ActorConfig) (dc : DistillationLossConfig).
Hypothesis supervised : d_use_policy_gradient dc = false.

(** The clamped losses of the tokens of a micro-batch. *)
Definition has_losses (mb : micro_batch) (L : tensor R) : Prop :=
  ∃ t ms, token_losses dregistry dc mb = Ok (t, ms) ∧ L = clamp_losses dc t ∧ shape L = shape (b_response_mask (mb_batch mb)).
(** An outcome reports the distillation loss [d] and has added it to the policy loss. *)
Definition reports (mb : micro_batch) (out : fnum * dmetrics) (d : fnum) : Prop :=
  dget "distillation/loss" out.2 = Some (inl (new_metric SUM (Some d))) ∧
  ∃ policy ms, ppo_loss quantile lower registry config (out_log_probs (mb_output mb)) (out_entropy (mb_output mb)) (mb_nested mb) (mb_batch mb) = Ok (policy, ms) ∧
    out.1 = f2 Rplus (if d_use_task_rewards dc then policy else Fin 0)
              (f1 (λ x, x * (if d_use_task_rewards dc then d_distillation_loss_coef dc else 1)) d).
Definition batch_info_of (mb : micro_batch) : batch_info := global_batch_info (with_batch_info config (mb_batch mb)).

Lemma shape_clamp t : shape (clamp_losses dc t) = shape t.
Proof using Type. unfold clamp_losses. destruct (d_loss_max_clamp dc); [apply shape_tmap|done]. Qed.

(** One call aggregates with the counts of the call before. *)
Lemma supervised_step s mb s' out : distillation_ppo_loss dregistry quantile lower registry config dc s mb = Ok (s', out) →
  ∃ L d, has_losses mb L ∧ reports mb out d ∧ s' = {| actor_info := Some (batch_info_of mb); loss_info := loss_info s |} ∧
    agg_loss L (b_response_mask (mb_batch mb)) (loss_agg_mode config) (default no_batch_info (actor_info s)) = Ok d.
Proof using supervised.
  unfold distillation_ppo_loss. intros H. apply bind_Ok_inv in H as ([s1 [d dm]] & Hd & H).
  apply bind_Ok_inv in H as ([policy pm] & Hp & H). injection H as <- <-.
  unfold distillation_loss in Hd. apply bind_Ok_inv in Hd as ([t ms] & Ht & Hd). apply bind_Ok_inv in Hd as (range & Hr & Hd).
  rewrite supervised in Hd. apply bind_Ok_inv in Hd as (x & Hx & Hd). injection Hd as <- <- <-.
  unfold compute_distillation_loss_range, same_shapes in Hr. case_bool_decide as Hs; [|done].
  exists (clamp_losses dc t), x. split_and!; [|split|done|done].
  - exists t, ms. split_and!; [done..|]. by rewrite shape_clamp.
  - cbn [snd]. rewrite dget_dset. by rewrite bool_decide_eq_true_2.
  - by exists policy, pm.
Qed.

(** The counts that a mini-batch gives all its micro-batches. *)
Context (width dp tokens seqs : nat).
Definition of_minibatch (mb : micro_batch) : Prop :=
  b_dp_size (mb_batch mb) = dp ∧ b_batch_num_tokens (mb_batch mb) = Some tokens ∧ b_global_batch_size (mb_batch mb) = Some seqs ∧
  b_response_mask (mb_batch mb) ≠ [] ∧ tensor_width (b_response_mask (mb_batch mb)) = width.
Definition minibatch_info : batch_info :=
  {| dp_size := dp; batch_num_tokens := Some tokens; global_batch_size := Some seqs; loss_scale_factor := cfg_loss_scale_factor config |}.
Definition whole_info : batch_info :=
  {| dp_size := 1; batch_num_tokens := None; global_batch_size := None; loss_scale_factor := cfg_loss_scale_factor config |}.
Notation mask_of mb := (b_response_mask (mb_batch mb)).
Notation mode := (loss_agg_mode config).

Lemma batch_info_of_minibatch mb : of_minibatch mb → batch_info_of mb = minibatch_info.
Proof using Type. intros (H1 & H2 & H3 & _). unfold batch_info_of, with_batch_info, minibatch_info. cbn. by rewrite H1, H2, H3. Qed.

Context (den : R).
Hypothesis valid_mode : mode ∈ valid_modes.
Hypothesis den_pos : den ≠ 0.
Hypothesis same_den : ∀ m, tensor_width m = width → agg_denominator mode m minibatch_info = den.

(** Once the counts are those of the mini-batch, every micro-batch is scaled by them. *)
Lemma run_scaled l : Forall of_minibatch l → ∀ s s' outs, actor_info s = Some minibatch_info →
  run_micro_batches dregistry quantile lower registry config dc s l = Ok (s', outs) →
  ∃ Ls ds, Forall2 has_losses l Ls ∧ Forall2 (λ mo d, reports mo.1 mo.2 (Fin d)) (zip l outs) ds ∧ length outs = length l ∧
    rsum ds = INR dp / den * rsum ((λ s : tensor R * tensor bool, agg_numerator mode s.1 s.2) <$> zip Ls ((λ mb, mask_of mb) <$> l)).
Proof using All.
  induction 1 as [|mb l Hmb _ IH]; intros s s' outs Hs Hrun; cbn [run_micro_batches] in Hrun.
  { injection Hrun as <- <-. exists [], []. split_and!; [constructor..|done|]. cbn. lra. }
  apply bind_Ok_inv in Hrun as ([s1 out] & Hstep & Hrun). apply bind_Ok_inv in Hrun as ([s2 outs'] & Hrun & E). injection E as <- <-.
  apply supervised_step in Hstep as (L & d & HL & Hrep & -> & Hagg). rewrite (batch_info_of_minibatch mb Hmb) in Hrun.
  apply IH in Hrun as (Ls & ds & HLs & Hds & Hlen & Hsum); [|done].
  rewrite Hs in Hagg. cbn [default from_option] in Hagg. rewrite agg_loss_value in Hagg; [|done|by right|by rewrite same_den by apply Hmb].
  rewrite same_den in Hagg by apply Hmb. injection Hagg as <-.
  exists (L :: Ls), (agg_numerator mode L (mask_of mb) * INR dp / den :: ds). split_and!.
  - by constructor.
  - cbn [zip zip_with]. by constructor.
  - cbn. by rewrite Hlen.
  - rewrite rsum_cons, Hsum. cbn [fmap list_fmap zip zip_with]. rewrite rsum_cons. cbn [fst snd dp_size minibatch_info]. field. done.
Qed.
End minibatch.

(** The numerator of a mini-batch is that of its micro-batches together. *)
Lemma agg_numerator_micros mode L m Ls l : shape L = shape m →
  Forall2 (λ mb L, shape L = shape (b_response_mask (mb_batch mb))) l Ls →
  agg_numerator mode L m + rsum ((λ s : tensor R * tensor bool, agg_numerator mode s.1 s.2) <$> zip Ls ((λ mb, b_response_mask (mb_batch mb)) <$> l)) =
  agg_numerator mode (concat (L :: Ls)) (concat (m :: ((λ mb, b_response_mask (mb_batch mb)) <$> l))).
Proof.
  intros Hs Hall. revert L m Hs. induction Hall as [|mb L' l Ls Hs' Hall IH]; intros L m Hs.
  - cbn [fmap list_fmap zip zip_with concat]. rewrite !app_nil_r. cbn. lra.
  - cbn [fmap list_fmap zip zip_with]. rewrite rsum_cons. cbn [fst snd]. rewrite (IH L' (b_response_mask (mb_batch mb)) Hs').
    cbn [concat]. rewrite (agg_numerator_app mode L) by (by apply shape_length). done.
Qed.

(** C34: The distillation loss of a mini-batch.  In supervised mode, let all its micro-batches
    come with the counts of the whole mini-batch.  Then every call reports its distillation
    loss and adds it, times the coefficient, to the policy loss, and the reported losses, summed
    over micro-batches and averaged over ranks, are the loss of the mini-batch in one piece --
    when the actor's [global_batch_info] holds these counts already.  It holds those of the call
    before, so the first micro-batch is scaled by the counts of the previous mini-batch, or by
    its own local ones at the first call of a worker: the sum is off by exactly that. *)
Theorem distillation_minibatch_loss dregistry quantile lower registry (config : ActorConfig) (dc : DistillationLossConfig)
    (width dp tokens seqs : nat) (s s' : infos) (first : micro_batch) (rest : list micro_batch) outs :
  let micros := first :: rest in
  let mode := loss_agg_mode config in
  let masks := (λ mb, b_response_mask (mb_batch mb)) <$> micros in
  let previous := default no_batch_info (actor_info s) in
  d_use_policy_gradient dc = false → mode ∈ valid_modes → dp ≠ 0%nat → default width (cfg_loss_scale_factor config) ≠ 0%nat →
  tokens ≠ 0%nat → INR tokens = mask_count (concat masks) → seqs ≠ 0%nat → INR seqs = row_count (seq_valid (concat masks)) →
  Forall (of_minibatch width dp tokens seqs) micros →
  counts_given previous → agg_denominator mode (b_response_mask (mb_batch first)) previous ≠ 0 →
  run_micro_batches dregistry quantile lower registry config dc s micros = Ok (s', outs) →
  ∃ Ls ds loss, Forall2 (has_losses dregistry dc) micros Ls ∧
    Forall2 (λ mo d, reports quantile lower registry config dc mo.1 mo.2 (Fin d)) (zip micros outs) ds ∧ length outs = length micros ∧
    agg_loss (concat Ls) (concat masks) mode (whole_info config) = Ok (Fin loss) ∧
    rsum ds / INR dp = loss + agg_numerator mode (default [] (head Ls)) (b_response_mask (mb_batch first)) *
      (INR (dp_size previous) / (INR dp * agg_denominator mode (b_response_mask (mb_batch first)) previous)
       - 1 / agg_denominator mode (concat masks) (whole_info config)) ∧
    (previous = minibatch_info config dp tokens seqs → rsum ds / INR dp = loss).
Proof.
  intros micros mode masks previous Hsup Hmode Hdp Hfac Ht Htok Hs Hseq Hall Hprev Hpden Hrun.
  apply not_0_INR in Ht, Hs, Hdp, Hfac. set (den := agg_denominator mode (concat masks) (whole_info config)).
  assert (Hmasks : Forall (λ m, m ≠ [] ∧ tensor_width m = width) masks).
  { apply Forall_fmap. eapply Forall_impl; [exact Hall|]. intros mb (_ & _ & _ & H1 & H2). by split. }
  assert (Hw : tensor_width (concat masks) = width).
  { unfold masks, micros in *. cbn in Hmasks |- *. apply Forall_cons in Hmasks as [[H1 H2] _]. by destruct (b_response_mask (mb_batch first)). }
  assert (Hden : den ≠ 0).
  { unfold den, agg_denominator. cbn [whole_info batch_num_tokens global_batch_size loss_scale_factor from_option]. rewrite <-Htok, <-Hseq, Hw. repeat case_bool_decide; [done|nra|lra]. }
  assert (Hsame : ∀ m, tensor_width m = width → agg_denominator mode m (minibatch_info config dp tokens seqs) = den).
  { intros m Hm. unfold den, agg_denominator. cbn [whole_info minibatch_info batch_num_tokens global_batch_size loss_scale_factor from_option]. by rewrite <-Htok, <-Hseq, Hw, Hm. }
  cbn [run_micro_batches micros] in Hrun. apply bind_Ok_inv in Hrun as ([s1 out] & Hstep & Hrun). apply bind_Ok_inv in Hrun as ([s2 outs'] & Hrun & E).
  injection E as <- <-. apply Forall_cons in Hall as [Hfirst Hrest].
  apply (supervised_step dregistry quantile lower registry config dc Hsup) in Hstep as (L & d & HL & Hrep & -> & Hagg).
  rewrite (batch_info_of_minibatch config width dp tokens seqs first Hfirst) in Hrun.
  eapply (run_scaled dregistry quantile lower registry config dc Hsup width dp tokens seqs den Hmode Hden Hsame) in Hrun
    as (Ls & ds & HLs & Hds & Hlen & Hsum); [|done|done].
  fold previous mode in Hagg. rewrite agg_loss_value in Hagg by done. injection Hagg as <-.
  exists (L :: Ls), (agg_numerator mode L (b_response_mask (mb_batch first)) * INR (dp_size previous) / agg_denominator mode (b_response_mask (mb_batch first)) previous :: ds),
    (agg_numerator mode (concat (L :: Ls)) (concat masks) * INR 1 / den).
  assert (Hnum : agg_numerator mode (concat (L :: Ls)) (concat masks) = agg_numerator mode L (b_response_mask (mb_batch first)) +
    rsum ((λ s : tensor R * tensor bool, agg_numerator mode s.1 s.2) <$> zip Ls ((λ mb, b_response_mask (mb_batch mb)) <$> rest))).
  { symmetry. apply (agg_numerator_micros mode L (b_response_mask (mb_batch first)) Ls rest); [by destruct HL as (? & ? & _ & _ & ?)|].
    eapply Forall2_impl; [exact HLs|]. intros mb L' (? & ? & _ & _ & ?). done. }
  assert (Heq : rsum (agg_numerator mode L (b_response_mask (mb_batch first)) * INR (dp_size previous) / agg_denominator mode (b_response_mask (mb_batch first)) previous :: ds) / INR dp =
    agg_numerator mode (concat (L :: Ls)) (concat masks) * INR 1 / den + agg_numerator mode L (b_response_mask (mb_batch first)) *
      (INR (dp_size previous) / (INR dp * agg_denominator mode (b_response_mask (mb_batch first)) previous) - 1 / den)).
  { fold mode in Hsum. rewrite Hnum, rsum_cons, Hsum. generalize (rsum ((λ s : tensor R * tensor bool, agg_numerator mode s.1 s.2) <$> zip Ls ((λ mb, b_response_mask (mb_batch mb)) <$> rest))). intros r. change (INR 1) with 1. field. done. }
  split_and!.
  - by constructor.
  - by constructor.
  - cbn. by rewrite Hlen.
  - by apply (agg_loss_value mode (concat (L :: Ls)) (concat masks) (whole_info config)); [|left|].
  - exact Heq.
  - intros Ep. rewrite Heq, Ep, Hsame by apply Hfirst. cbn [dp_size minibatch_info]. field. done.
Qed.

(** ** Witnesses: a fresh worker, one micro-batch with one token and one with two *)

Definition ex_dregistry : registries := match module_registries with Ok r => r | Raise _ => {| DISTILLATION_LOSS_REGISTRY := []; DISTILLATION_SETTINGS_REGISTRY := [] |} end.
Definition ex_policy : PolicyLossConfig := {|
  loss_mode := "vanilla"; clip_cov_ratio := None; clip_cov_lb := None; clip_cov_ub := None; kl_cov_ratio := None; ppo_kl_coef := None;
  rlsd_enabled := false; rlsd_lambda := 0; rlsd_reweight_clip_range := 0; rlsd_negative_only := false;
  rlsd_delta_student_logp_source := "current"; opd_pg_enabled := false; opd_logratio_clip_abs := 5 |}.
Definition ex_config : ActorConfig := {|
  clip_ratio := 2 / 10; clip_ratio_low := None; clip_ratio_high := None; clip_ratio_c := None; tau_pos := 1; tau_neg := 1;
  loss_agg_mode := "token-mean"; cfg_loss_scale_factor := None; entropy_coeff := 0; use_kl_loss := false; kl_loss_coef := 0;
  kl_loss_type := "k1"; policy_loss := ex_policy; global_batch_info := no_batch_info |}.
Definition ex_distillation : DistillationLossConfig := {|
  d_loss_mode := "mse"; d_topk := None; d_use_task_rewards := true; d_distillation_loss_coef := 1; d_loss_max_clamp := None;
  d_use_policy_gradient := false; d_policy_loss_mode := "vanilla"; d_clip_ratio := 2 / 10; d_clip_ratio_low := 2 / 10; d_clip_ratio_high := 2 / 10 |}.
Definition ex_losses : list (string * policy_loss_fn) := [("vanilla"%string, λ _ _ _ _ _ _ _, Ok (Fin 0, []))].

(** One sample with one prompt token and two response tokens, of which [mask] count. *)
Definition ex_micro (tokens seqs : nat) (mask : list bool) (student teacher : list R) : micro_batch := {|
  mb_batch := {| b_response_mask := [mask]; b_old_log_probs := [[0; 0]]; b_advantages := [[0; 0]]; b_teacher_pi_log_probs := None;
                 b_rlsd_token_mask := None; b_teacher_opd_log_probs := None; b_rollout_is_weights := None; b_ref_log_prob := None;
                 b_rlsd_effective_lambda := None; b_dp_size := 1; b_batch_num_tokens := Some tokens; b_global_batch_size := Some seqs |};
  mb_nested := {| nd_input_ids := nested_of_rows [[1; 2; 3]%Z]; nd_position_ids := nested_of_rows [[0; 1; 2]%Z]; nd_loss_mask := [mask];
                  nd_attention_mask := [[true; true; true]]; nd_indices := [0; 1; 2]%nat; nd_max_seq_len := 3; nd_max_response_len := 2;
                  nd_prompts := [[1]%Z]; nd_responses := [[2; 3]%Z] |};
  mb_teacher_logprobs := teacher;
  mb_output := {| out_log_probs := student; out_entropy := None; out_distillation_losses := None; out_student_mass := None;
                  out_teacher_mass := None; out_overlap_count := None; out_overlap_token_advantage := None |} |}.
Definition ex_micros : list micro_batch :=
  [ex_micro 3 2 [true; false] [-1; -2; 0] [-2; -2; 0]; ex_micro 3 2 [true; true] [-1; -2; 0] [-3; -1; 0]].
Definition ex_run (s : infos) := run_micro_batches ex_dregistry (λ _ _, NonFin) (λ s, s) ex_losses ex_config ex_distillation s ex_micros.
Definition fresh : infos := {| actor_info := None; loss_info := None |}.

Lemma distillation_minibatch_loss_witness :
  ∃ s outs, ex_run fresh = Ok (s, outs) ∧
  ∃ Ls ds loss, Forall2 (has_losses ex_dregistry ex_distillation) ex_micros Ls ∧
    Forall2 (λ mo d, reports (λ _ _, NonFin) (λ s, s) ex_losses ex_config ex_distillation mo.1 mo.2 (Fin d)) (zip ex_micros outs) ds ∧
    length outs = 2%nat ∧
    agg_loss (concat Ls) [[true; false]; [true; true]] "token-mean" (whole_info ex_config) = Ok (Fin loss) ∧
    rsum ds / INR 1 = loss + agg_numerator "token-mean" (default [] (head Ls)) [[true; false]] *
      (INR 1 / (INR 1 * agg_denominator "token-mean" [[true; false]] no_batch_info)
       - 1 / agg_denominator "token-mean" [[true; false]; [true; true]] (whole_info ex_config)) ∧
    (no_batch_info = minibatch_info ex_config 1 3 2 → rsum ds / INR 1 = loss).
Proof.
  eexists _, _. split; [reflexivity|].
  eapply (distillation_minibatch_loss ex_dregistry (λ _ _, NonFin) (λ s, s) ex_losses ex_config ex_distillation 2 1 3 2 fresh
    _ (ex_micro 3 2 [true; false] [-1; -2; 0] [-2; -2; 0]) [ex_micro 3 2 [true; true] [-1; -2; 0] [-3; -1; 0]]).
  - reflexivity.
  - apply elem_of_cons. by left.
  - discriminate.
  - discriminate.
  - discriminate.
  - unfold mask_count, row_count. simpl. lra.
  - discriminate.
  - unfold seq_valid, row_count. simpl. unfold Rltb. repeat (destruct (Rlt_dec _ _); [|lra]). simpl. lra.
  - repeat constructor; discriminate.
  - left. simpl. lia.
  - unfold agg_denominator, mask_count, row_count. simpl. lra.
  - reflexivity.
Defined.

(** A fresh worker scales the first micro-batch by its own token: the losses 1/2 and 5/2 of
    the micro-batches make 1 for the three tokens of the mini-batch, but the calls report
    1/2 and 5/6.  In a worker that has the counts already they make 1. *)
Example first_call_scaled_locally :
  (∃ s outs, ex_run fresh = Ok (s, outs) ∧
    (λ out, dget "distillation/loss" out.2) <$> outs = [Some (inl (new_metric SUM (Some (Fin (1 / 2))))); Some (inl (new_metric SUM (Some (Fin (5 / 6)))))]) ∧
  (∃ s outs, ex_run {| actor_info := Some (minibatch_info ex_config 1 3 2); loss_info := None |} = Ok (s, outs) ∧
    (λ out, dget "distillation/loss" out.2) <$> outs = [Some (inl (new_metric SUM (Some (Fin (1 / 6))))); Some (inl (new_metric SUM (Some (Fin (5 / 6)))))]) ∧
  agg_loss [[1 / 2; 0]; [2; 1 / 2]] [[true; false]; [true; true]] "token-mean" no_batch_info = Ok (Fin 1).
Proof.
  assert (Hm : ∀ x n y, n ≠ 0 → x / n * 1 = y → f1 (λ x, x * INR 1) (fdiv x n) = Fin y) by (intros x n y Hn <-; by rewrite fdiv_Fin).
  assert (Htwo : ∀ (a b c d : fnum), a = c → b = d → [Some (@inl _ fnum (new_metric SUM (Some a))); Some (inl (new_metric SUM (Some b)))] =
    [Some (inl (new_metric SUM (Some c))); Some (inl (new_metric SUM (Some d)))]) by (by intros a b c d -> ->).
  split_and!.
  1, 2: eexists _, _; split; [reflexivity|]; apply Htwo; apply Hm; unfold mask_count, row_count, masked_sum, row_masked_sum; simpl; lra.
  - unfold agg_loss. cbn -[fdiv]. f_equal. apply Hm; unfold mask_count, row_count, masked_sum, row_masked_sum; simpl; lra.
Qed.

(** ** The registries and the configuration *)

(** The two registries agree on what a name stands for. *)
Lemma registries_agree name f : get_distillation_loss_fn ex_dregistry name = Ok f →
  ∃ s, get_distillation_loss_settings ex_dregistry name = Ok s ∧ use_topk s = (match f with ForwardKLTopk => true | _ => false end) ∧
    use_estimator s = negb (use_topk s).
Proof.
  unfold get_distillation_loss_fn, get_distillation_loss_settings. intros H. apply of_option_Ok in H.
  assert (E : DISTILLATION_LOSS_REGISTRY ex_dregistry = ("forward_kl_topk"%string, ForwardKLTopk) :: ((λ n, (n, ReverseKLEstimator)) <$> names estimator_settings))
    by reflexivity.
  rewrite E in H. cbn [names estimator_settings fmap list_fmap dget] in H. clear E.
  repeat match type of H with context [bool_decide (name = ?k)] =>
    destruct (decide (name = k)) as [->|Hne]; [cbn in H; injection H as <-; eexists; split; [reflexivity|by split]|
      rewrite (bool_decide_eq_false_2 (name = k) Hne) in H; clear Hne] end.
  done.
Qed.

(** A teacher that [__post_init__] has accepted under a key. *)
Record teacher_ready (topk_used : bool) (topk : option nat) (key : string) (t : teacher_model) : Prop := {
  tr_key : t_key t = Some key;
  tr_path : model_path t ≠ None;
  tr_length : response_length (t_inference t) = 1%nat;
  tr_context : ∀ n, max_model_len (t_inference t) = Some n → (prompt_length (t_inference t) + 1 <= n)%nat;
  tr_topk : topk_used = true → ∃ k, topk = Some k ∧ i_name (t_inference t) ∈ ["vllm"; "sglang"]%string ∧
    (i_name (t_inference t) = "vllm"%string → ∃ cap, max_logprobs (t_inference t) = Some cap ∧ (k <= cap)%nat) }.

Lemma prepare_ready topk_used topk key t t' : t_key t = Some key → model_path t ≠ None →
  validate_and_prepare_for_distillation topk_used topk t = Ok t' → teacher_ready topk_used topk key t'.
Proof.
  intros Hk Hp H. unfold validate_and_prepare_for_distillation in H. apply require_inv in H as [Hctx H].
  apply bind_Ok_inv in H as (i & Hi & H). injection H as <-. unfold validate_topk_logprobs in Hi.
  destruct topk_used; cbn [negb] in Hi.
  - apply bind_Ok_inv in Hi as (k & Hk' & Hi). apply of_option_Ok in Hk' as ->. cbn [i_name] in Hi. case_bool_decide as Hn.
    + apply require_inv in Hi as [Hcap Hi]. apply Nat.leb_le in Hcap. injection Hi as <-. split; cbn in *; try done.
      * intros n Hm. rewrite Hm in Hctx. apply Nat.leb_le in Hctx. lia.
      * intros _. exists k. split_and!; [done|by rewrite Hn; left|]. intros _. by eexists.
    + case_bool_decide as Hs; [|done]. injection Hi as <-. split; cbn in *; try done.
      * intros n Hm. rewrite Hm in Hctx. apply Nat.leb_le in Hctx. lia.
      * intros _. exists k. split_and!; [done|by rewrite Hs; right; left|done].
  - injection Hi as <-. split; cbn in *; try done. intros n Hm. rewrite Hm in Hctx. apply Nat.leb_le in Hctx. lia.
Qed.

(** The configured teachers: the default entry alone, or all the others. *)
Definition configured_teachers (c : DistillationConfig) : list teacher_model :=
  (if Nat.eqb (length (teacher_models c)) 1 then teacher_models c else ddel "teacher_model" (teacher_models c)).*2.

(** What a configured teacher becomes: the same model and engine, which is asked for one token
    after the student's prompt and response and has room for them. *)
Record prepared_from (t t' : teacher_model) : Prop := {
  pf_path : model_path t' = model_path t;
  pf_engine : i_name (t_inference t') = i_name (t_inference t) ∧ per_replica_world_size t' = per_replica_world_size t ∧
    max_model_len (t_inference t') = max_model_len (t_inference t);
  pf_prompt : prompt_length (t_inference t') = (prompt_length (t_inference t) + response_length (t_inference t))%nat;
  pf_response : response_length (t_inference t') = 1%nat;
  pf_room : ∀ n, max_model_len (t_inference t) = Some n → (prompt_length (t_inference t) + response_length (t_inference t) + 1 <= n)%nat }.

(** The key and the replicas: those configured, or for a single teacher [default] and as many
    as the pool takes. *)
Definition placed (c : DistillationConfig) (t : teacher_model) (key : string) (replicas : option nat) : Prop :=
  if Nat.eqb (length (teacher_models c)) 1
  then key = "default"%string ∧ replicas = Some (n_gpus_per_node c * nnodes c / per_replica_world_size t)%nat
  else t_key t = Some key ∧ replicas = num_replicas t.

Lemma prepare_from topk_used topk t t' : validate_and_prepare_for_distillation topk_used topk t = Ok t' →
  prepared_from t t' ∧ t_key t' = t_key t ∧ num_replicas t' = num_replicas t.
Proof.
  intros H. unfold validate_and_prepare_for_distillation in H. apply require_inv in H as [Hctx H].
  apply bind_Ok_inv in H as (i & Hi & H). injection H as <-. unfold validate_topk_logprobs in Hi.
  assert (Hroom : ∀ n, max_model_len (t_inference t) = Some n → (prompt_length (t_inference t) + response_length (t_inference t) + 1 <= n)%nat).
  { intros n Hm. rewrite Hm in Hctx. by apply Nat.leb_le in Hctx. }
  destruct topk_used; cbn [negb] in Hi.
  - apply bind_Ok_inv in Hi as (k & _ & Hi). cbn [i_name] in Hi. case_bool_decide.
    + apply require_inv in Hi as [_ Hi]. by injection Hi as <-.
    + case_bool_decide; [|done]. by injection Hi as <-.
  - by injection Hi as <-.
Qed.

Lemma add_teachers l models : foldM add_teacher [] l = Ok models →
  models.*2 = l ∧ NoDup models.*1 ∧ ∀ kt, kt ∈ models → t_key kt.2 = Some kt.1 ∧ model_path kt.2 ≠ None.
Proof.
  apply (foldM_inv (λ l models, models.*2 = l ∧ NoDup models.*1 ∧ ∀ kt, kt ∈ models → t_key kt.2 = Some kt.1 ∧ model_path kt.2 ≠ None)).
  { split_and!; [done|constructor|]. intros kt Hkt. by apply elem_of_nil in Hkt. }
  intros l0 t st st' (Hl & Hn & Hall) H. unfold add_teacher in H. apply bind_Ok_inv in H as ([] & Hc & H). apply bind_Ok_inv in H as (key & Hk & H).
  apply of_option_Ok in Hk. apply require_inv in H as [Hnew H]. injection H as <-.
  unfold check_configured in Hc. apply require_inv in Hc as [Hp _]. apply bool_decide_eq_true in Hp.
  assert (Hkey : key ∉ keys st).
  { intros Hin%dmem_keys. by rewrite Hin in Hnew. }
  rewrite dset_new by done. split; [|split].
  - by rewrite fmap_app, Hl.
  - rewrite fmap_app. apply NoDup_app. split_and!; [done| |apply NoDup_singleton]. intros x Hx ->%list_elem_of_singleton. done.
  - intros kt [Hin| ->%list_elem_of_singleton]%elem_of_app; [by apply Hall|]. done.
Qed.

(** The teachers as resolved, by their keys. *)
Lemma resolve_spec c resolved : resolve_teacher_models c = Ok resolved →
  NoDup resolved.*1 ∧ (∀ kt, kt ∈ resolved → t_key kt.2 = Some kt.1 ∧ model_path kt.2 ≠ None) ∧
  Forall2 (λ t kt, model_path (kt : string * teacher_model).2 = model_path t ∧ t_inference kt.2 = t_inference t ∧
    placed c t kt.1 (num_replicas kt.2)) (configured_teachers c) resolved.
Proof.
  intros Hr. unfold resolve_teacher_models in Hr. apply bind_Ok_inv in Hr as (first & Hf & Hr). apply of_option_Ok in Hf.
  apply bind_Ok_inv in Hr as (configured & Hc & Hr). apply add_teachers in Hr as (Hl & Hn & Hall). split_and!; [done|done|].
  unfold placed, configured_teachers. destruct (Nat.eqb_spec (length (teacher_models c)) 1) as [Hone|Hmany].
  - destruct (teacher_models c) as [|[k t] [|]]; try done. cbn [dget] in Hf. case_bool_decide as Hk; [|done]. injection Hf as ->.
    apply bind_Ok_inv in Hc as (t & Ht & Hc). cbn [dset] in Hc. rewrite bool_decide_eq_true_2 in Hc by done. injection Hc as <-.
    unfold single_teacher in Ht. apply require_inv in Ht as [_ Ht]. apply require_inv in Ht as [_ Ht]. injection Ht as <-.
    destruct resolved as [|[key t] [|]]; try done. cbn in Hl. injection Hl as ->. constructor; [|constructor]. cbn.
    destruct (Hall _ (list_elem_of_here _ _)) as [Hkey _]. cbn in Hkey. injection Hkey as <-. done.
  - injection Hc as <-. rewrite <-Hl. apply Forall2_fmap_l, Forall_Forall2_diag, Forall_forall. intros kt Hkt. split_and!; [done|done|by apply Hall|done].
Qed.

(** C37: A distillation configuration that [__post_init__] accepts can run.  Its teachers are
    the configured ones, in order (the default entry alone, with the key [default] and as many
    replicas as fill the pool, or all the others with their own keys and replicas), under
    distinct keys and each with its model.  Each is asked for one token after a prompt as long
    as the configured prompt and response together, which with that token fit its context;
    with a top-k loss its engine returns at least k log probabilities per position; and the
    replicas fill the resource pool exactly. *)
Theorem distillation_config_sound settings c models :
  enabled c = true → distillation_post_init settings c = Ok models →
  NoDup models.*1 ∧
  Forall2 (λ t kt, prepared_from t (kt : string * teacher_model).2 ∧ placed c t kt.1 (num_replicas kt.2)) (configured_teachers c) models ∧
  (∀ key t, (key, t) ∈ models → teacher_ready (use_topk settings) (d_topk (dc_loss c)) key t) ∧
  ∃ sizes, Forall2 (λ kt n, ∃ replicas, num_replicas (kt : string * teacher_model).2 = Some replicas ∧ n = (replicas * per_replica_world_size kt.2)%nat) models sizes ∧
    sum_list sizes = (n_gpus_per_node c * nnodes c)%nat.
Proof.
  intros Hon H. unfold distillation_post_init in H. rewrite Hon in H. cbn [negb] in H.
  apply bind_Ok_inv in H as (resolved & Hr & H). apply bind_Ok_inv in H as (prepared & Hp & H). apply bind_Ok_inv in H as (sizes & Hs & H).
  apply require_inv in H as [Hsum%Nat.eqb_eq H]. injection H as <-.
  apply resolve_spec in Hr as (Hn & Hall & Hfrom). apply mapM_Ok_Forall2 in Hp, Hs.
  assert (Hprep : Forall2 (λ a b : string * teacher_model, a.1 = b.1 ∧
    validate_and_prepare_for_distillation (use_topk settings) (d_topk (dc_loss c)) a.2 = Ok b.2) resolved prepared).
  { eapply Forall2_impl; [exact Hp|]. intros a b Hab. apply bind_Ok_inv in Hab as (t & Ht & E). injection E as <-. by split. }
  split_and!.
  - replace prepared.*1 with resolved.*1; [done|]. clear -Hprep. induction Hprep as [|a b l k [E _] _ IH]; [done|]. csimpl. by rewrite E, IH.
  - eapply Forall2_trans; [|exact Hfrom|exact Hprep]. intros t [k a] [k' b] (Hpath & Hinf & Hpl) [Hk Hv]. cbn in *. subst k'.
    apply prepare_from in Hv as ([P1 P2 P3 P4 P5] & _ & Hrep). rewrite Hinf in *. unfold per_replica_world_size in *. rewrite Hinf in *.
    rewrite Hrep. split; [|done]. split; congruence || done.
  - intros key t Hin. apply list_elem_of_lookup in Hin as [i Hi]. destruct (Forall2_lookup_r _ _ _ _ _ Hprep Hi) as ([k t0] & Hi0 & E & Ht).
    cbn in E, Ht. subst k. destruct (Hall _ (list_elem_of_lookup_2 _ _ _ Hi0)) as [Hk Hp']. by eapply prepare_ready.
  - exists sizes. split; [|done]. eapply Forall2_impl; [exact Hs|]. intros kt n Hkn. unfold world_size in Hkn.
    apply bind_Ok_inv in Hkn as (r & Hr & E). apply of_option_Ok in Hr. injection E as <-. by exists r.
Qed.

Definition ex_teacher (key : string) (replicas : nat) : teacher_model := {|
  t_key := Some key; model_path := Some "teacher"%string; num_replicas := Some replicas;
  t_inference := {| i_name := "vllm"; tensor_model_parallel_size := 2; data_parallel_size := 1; pipeline_model_parallel_size := 1;
                    max_model_len := Some 4097%nat; prompt_length := 1024; response_length := 3072; max_logprobs := None |} |}.
(** One token short of room for prompt, response and the teacher's token. *)
Example no_room_raises :
  validate_and_prepare_for_distillation false None
    {| t_key := Some "t"; model_path := Some "teacher"; num_replicas := Some 1%nat;
       t_inference := {| i_name := "vllm"; tensor_model_parallel_size := 1; data_parallel_size := 1; pipeline_model_parallel_size := 1;
                         max_model_len := Some 4096%nat; prompt_length := 1024; response_length := 3072; max_logprobs := None |} |}%string =
  Raise (ValueError "Distillation teacher inference requires room for the student prompt, the full student response, and one generated token").
Proof. reflexivity. Qed.
Definition ex_distillation_config : DistillationConfig := {|
  enabled := true; n_gpus_per_node := 8; nnodes := 1; dc_loss := ex_distillation;
  teacher_models := [("teacher_model", ex_teacher "default" 0); ("math", ex_teacher "gsm8k" 3); ("vision", ex_teacher "geometry3k" 1)]%string |}.
Lemma distillation_config_sound_witness : ∃ models,
  distillation_post_init estimator_settings ex_distillation_config = Ok models ∧ models.*1 = ["gsm8k"; "geometry3k"]%string ∧ NoDup models.*1 ∧
  Forall2 (λ t kt, prepared_from t (kt : string * teacher_model).2 ∧ placed ex_distillation_config t kt.1 (num_replicas kt.2))
    [ex_teacher "gsm8k" 3; ex_teacher "geometry3k" 1] models ∧
  (∀ key t, (key, t) ∈ models → teacher_ready false None key t) ∧
  ∃ sizes, Forall2 (λ kt n, ∃ replicas, num_replicas (kt : string * teacher_model).2 = Some replicas ∧ n = (replicas * per_replica_world_size kt.2)%nat) models sizes ∧
    sum_list sizes = 8%nat.
Proof.
  eexists. split; [reflexivity|]. split; [reflexivity|].
  apply (distillation_config_sound estimator_settings ex_distillation_config); reflexivity.
Defined.
