(* ===== verification/ContextParallel.v ===== *)
(** * ContextParallel: packing sequences for Megatron's ranks and back

    Models src/verl/models/mcore/util.py.  Sequences are padded to a multiple of the ranks
    that share them and cut into twice as many chunks as there are context-parallel ranks;
    rank [r] works on chunk [r] and on chunk [2 cp - 1 - r].  The packed buffer of a rank is
    a list of the tokens' features; [zero] fills padding, [junk] is what [torch.empty] leaves.
    Gathering over a process group gives every rank the buffers of all.  Not modelled are the
    attention masks of Ascend devices and of vision models, the position ids handed to
    mindspeed, and the arguments that switch a function off ([pre_process], [post_process]). *)

From S2P Require Import Prelude Rlsd Scorer Padding.
Local Open Scope py_scope.

(** ** Buffers *)

(** [buf[start:stop] = values]: the values must fit, a single one is repeated. *)
Definition write {A} (start stop : nat) (values buf : list A) : result (list A) :=
  let room := length (slice start stop buf) in
  if Nat.eqb (length values) room then Ok (take start buf ++ values ++ drop (start + room) buf)
  else match values with
       | [v] => Ok (take start buf ++ replicate room v ++ drop (start + room) buf)
       | _ => Raise (RuntimeError "The expanded size of the tensor must match the existing size")
       end.
(** [torch.roll(buf, shifts=-1)]. *)
Definition roll_back {A} (buf : list A) : list A := drop 1 buf ++ take 1 buf.

Section sizes.
Context (tp_size cp_size : nat) (use_fp8_padding : bool).

(** ** Lengths *)

Definition compute_fp8_thd_align_size (align_size : nat) : nat * nat := (Nat.lcm 16 align_size, align_size * 128).
Definition align_size : nat := if Nat.ltb 1 cp_size then tp_size * cp_size * 2 else tp_size.
Definition row_align : nat := if use_fp8_padding then (compute_fp8_thd_align_size align_size).1 else align_size.
Definition pad_to (align n : nat) : nat := n + (align - n mod align) mod align.
(** The lengths after padding; with FP8 the last sequence also fills up the total. *)
Definition seqlens_padded (lens : list nat) : list nat :=
  let padded := pad_to row_align <$> lens in
  if use_fp8_padding then
    let total_align := (compute_fp8_thd_align_size align_size).2 in
    alter (λ n, n + (total_align - nsum padded mod total_align) mod total_align) (length padded - 1) padded
  else padded.

(** ** [preprocess_packed_seqs] and [postprocess_packed_seqs] *)

Section packing.
Context {A : Type} (zero : A).

(** One sequence of a rank's buffer: [padded] is its padded length, [start] its offset. *)
Definition pack_row (cp_rank : nat) (d : list A) (padded start : nat) (buf : list A) : result (list A) :=
  if Nat.leb cp_size 1 then write start (start + length d) d buf
  else
    let half := padded / cp_size / 2 in
    let start := start / cp_size in
    let first_end := Nat.min (half * (cp_rank + 1)) (length d) in
    let first_len := first_end - half * cp_rank in
    buf ← (if Nat.ltb 0 first_len then write start (start + first_len) (slice (half * cp_rank) first_end d) buf else Ok buf);
    let remain_start := padded - half * (cp_rank + 1) in
    let remain_end := Nat.min (padded - half * cp_rank) (length d) in
    let remain_len := remain_end - remain_start in
    if Nat.ltb 0 remain_len then write (start + half) (start + half + remain_len) (slice remain_start remain_end d) buf else Ok buf.

(** The sequences with their padded lengths and offsets. *)
Definition placed (rows : list (list A)) : list (list A * (nat * nat)) :=
  let padded := seqlens_padded (length <$> rows) in zip rows (zip padded (cumulative padded)).
Definition empty_buffer (rows : list (list A)) : list A := replicate (nsum (seqlens_padded (length <$> rows)) / cp_size) zero.
(** The largest padded length, which the kernels want, is that of no sequence. *)
Definition check_rows (rows : list (list A)) : result unit :=
  match rows with
  | [] => Raise (if use_fp8_padding then IndexError "index -1 is out of bounds for dimension 0 with size 0"
                 else ValueError "max() iterable argument is empty")
  | _ => Ok tt
  end.
Definition pack_rows (cp_rank : nat) (rows : list (list A)) : result (list A) :=
  _ ← check_rows rows;
  foldM (λ buf x, pack_row cp_rank x.1 x.2.1 x.2.2 buf) (empty_buffer rows) (placed rows).

(** ** [preprocess_thd_engine]

    The sequences are jagged; [flat] says that they have no further dimension, [per_item] how
    many numbers an entry has. *)
Context (flat : bool) (per_item : nat).
Record thd_buffers := { t_ids : list A; t_pos : list nat; t_saved : list (nat * A); t_saved_pos : list (nat * nat) }.

Definition item {B} (l : list B) (i : nat) : result B := of_option (IndexError "index is out of bounds for dimension 0") (l !! i).
(** [n - 1] as an index of a buffer of [size] entries: [-1] is the last one. *)
Definition before (n size : nat) : nat := if Nat.eqb n 0 then size - 1 else n - 1.
Definition extend_short (d : list A) : result (list A) :=
  if Nat.ltb (length d * per_item) row_align then
    require flat else RuntimeError "Tensors must have same number of dimensions" ;;
    Ok (d ++ replicate (row_align - length d) zero)
  else Ok d.

(** What [torch.roll] of the whole buffer would take from another chunk. *)
Definition save_rolled (cp_rank : nat) (d : list A) (half start remain_len remain_end : nat) (b : thd_buffers) : result thd_buffers :=
  let k := before (start + half) (length (t_ids b)) in
  v ← item d ((cp_rank + 1) * half);
  p ← item (t_pos b) k;
  let b := {| t_ids := t_ids b; t_pos := t_pos b; t_saved := t_saved b ++ [(k, v)]; t_saved_pos := t_saved_pos b ++ [(k, p)] |} in
  if Nat.ltb 0 remain_len then
    let k := start + half + remain_len - 1 in
    if Nat.eqb remain_end (length d) then
      v ← item d 0;
      Ok {| t_ids := t_ids b; t_pos := t_pos b; t_saved := t_saved b ++ [(k, v)]; t_saved_pos := t_saved_pos b ++ [(k, 0)] |}
    else
      v ← item d remain_end;
      p ← item (t_pos b) k;
      Ok {| t_ids := t_ids b; t_pos := t_pos b; t_saved := t_saved b ++ [(k, v)]; t_saved_pos := t_saved_pos b ++ [(k, p)] |}
  else Ok b.

Definition thd_row (cp_rank : nat) (need_roll : bool) (row : list A) (padded start : nat) (b : thd_buffers) : result thd_buffers :=
  if Nat.leb cp_size 1 then
    ids ← write start (start + length row) row (t_ids b);
    pos ← write start (start + length row) (seq 0 (length row)) (t_pos b);
    Ok {| t_ids := ids; t_pos := pos; t_saved := t_saved b; t_saved_pos := t_saved_pos b |}
  else
    let half := padded / cp_size / 2 in
    let start := start / cp_size in
    d ← extend_short row;
    ids ← write start (start + half) (slice (half * cp_rank) (half * (cp_rank + 1)) d) (t_ids b);
    pos ← write start (start + half) (seq (half * cp_rank) half) (t_pos b);
    let remain_start := padded - half * (cp_rank + 1) in
    let remain_end := Nat.min (padded - half * cp_rank) (length d) in
    let remain_len := remain_end - remain_start in
    ids ← (if Nat.ltb 0 remain_len
           then write (start + half) (start + half + remain_len) (slice remain_start remain_end d) ids else Ok ids);
    let valid_pos_len := Nat.min remain_end (length row) - remain_start in
    pos ← (if Nat.ltb 0 remain_len && Nat.ltb 0 valid_pos_len
           then write (start + half) (start + half + valid_pos_len) (seq remain_start valid_pos_len) pos else Ok pos);
    let b := {| t_ids := ids; t_pos := pos; t_saved := t_saved b; t_saved_pos := t_saved_pos b |} in
    if need_roll then save_rolled cp_rank d half start remain_len remain_end b else Ok b.

Definition place {B} (buf : list B) (kv : nat * B) : result (list B) :=
  require Nat.ltb kv.1 (length buf) else IndexError "index is out of bounds for dimension 0" ;; Ok (<[kv.1 := kv.2]> buf).
Definition preprocess_thd_engine (cp_rank : nat) (need_roll : bool) (rows : list (list A)) : result (list A * list nat * list nat) :=
  _ ← check_rows rows;
  let cu_seqlens_padded := cumulative (seqlens_padded (length <$> rows)) in
  b ← foldM (λ b x, thd_row cp_rank need_roll x.1 x.2.1 x.2.2 b)
        {| t_ids := empty_buffer rows; t_pos := replicate (length (empty_buffer rows)) 0; t_saved := []; t_saved_pos := [] |} (placed rows);
  if need_roll then
    ids ← foldM place (roll_back (t_ids b)) (t_saved b);
    pos ← foldM place (roll_back (t_pos b)) (t_saved_pos b);
    Ok (ids, pos, cu_seqlens_padded)
  else Ok (t_ids b, t_pos b, cu_seqlens_padded).

(** ** [preprocess_bshd_engine]: one padded row per sequence *)

Definition bshd_seqlen (lens : list nat) : nat :=
  let n := max_list lens in
  let n := if Nat.ltb 1 align_size then pad_to align_size n else n in
  if use_fp8_padding then
    let total := 128 * tp_size * cp_size in
    let fp8_seq_align := Nat.lcm (total / Nat.gcd (length lens) total) align_size in
    (n + fp8_seq_align - 1) / fp8_seq_align * fp8_seq_align
  else n.
Definition bshd_row (cp_rank : nat) (need_roll : bool) (max_seqlen : nat) (d : list A) : list A * list bool :=
  let full := d ++ replicate (max_seqlen - length d) zero in
  if Nat.leb cp_size 1 then
    (if need_roll then roll_back full else full, replicate (length d) true ++ replicate (max_seqlen - length d) false)
  else
    let chunk_len := max_seqlen / (2 * cp_size) in
    let first_start := cp_rank * chunk_len in
    let second_start := (2 * cp_size - cp_rank - 1) * chunk_len in
    let local_seq :=
      if need_roll then (λ p, nth ((p + 1) mod max_seqlen) full zero) <$> (seq first_start chunk_len ++ seq second_start chunk_len)
      else slice first_start (first_start + chunk_len) full ++ slice second_start (second_start + chunk_len) full in
    let valid s := Nat.min (length d - s) chunk_len in
    (local_seq, replicate (valid first_start) true ++ replicate (chunk_len - valid first_start) false ++
                replicate (valid second_start) true ++ replicate (chunk_len - valid second_start) false).
Definition preprocess_bshd_engine (cp_rank : nat) (need_roll : bool) (rows : list (list A)) : result (tensor A * tensor bool * list nat) :=
  require negb (Nat.eqb (length rows) 0)
    else RuntimeError "max(): Expected reduction dim to be specified for input.numel() == 0" ;;
  let n := bshd_seqlen (length <$> rows) in
  let out := bshd_row cp_rank need_roll n <$> rows in
  let chunk_len := n / (2 * cp_size) in
  let position_ids := if Nat.leb cp_size 1 then seq 0 n
                      else seq (cp_rank * chunk_len) chunk_len ++ seq (n - (cp_rank + 1) * chunk_len) chunk_len in
  Ok (out.*1, out.*2, position_ids).

(** ** [preprocess_bshd]: left padding to right padding *)

Definition preprocess_bshd (sequence_parallel : bool) (input_ids : tensor A) (attention_mask : tensor bool) (position_ids : tensor nat)
    : result (tensor A * tensor bool * tensor nat) :=
  require Nat.eqb cp_size 1 else AssertionError "Context parallel size without seq_pack is not supported" ;;
  require negb (Nat.eqb (length attention_mask) 0)
    else RuntimeError "max(): Expected reduction dim to be specified for input.numel() == 0" ;;
  let seq_len := max_list (count <$> attention_mask) in
  let seq_len := if sequence_parallel then pad_to tp_size seq_len else seq_len in
  let fill {B} (z : B) (l : list B) := l ++ replicate (seq_len - length l) z in
  Ok (zip_with (λ m d, fill zero (select m d)) attention_mask input_ids, (λ m, fill false (select m m)) <$> attention_mask,
      zip_with (λ m d, fill 0 (select m d)) attention_mask position_ids).

(** With the sequences in the rows of a padded batch. *)
Definition preprocess_packed_seqs (cp_rank : nat) (input_ids : tensor A) (attention_mask : tensor bool) : result (list A) :=
  pack_rows cp_rank (zip_with select attention_mask input_ids).
End packing.

(** A sequence from the buffers of the ranks. *)
Section unpacking.
Context {B : Type} (junk : B).
Definition join_halves (outputs : list (list B)) (start padded_chunk : nat) : result (list B) :=
  let half := padded_chunk / 2 in
  let padded := padded_chunk * cp_size in
  let start := start / cp_size in
  foldM (λ tmp jo,
      tmp ← write (jo.1 * half) ((jo.1 + 1) * half) (slice start (start + half) jo.2) tmp;
      write (padded - (jo.1 + 1) * half) (padded - jo.1 * half) (slice (start + half) (start + padded_chunk) jo.2) tmp)
    (replicate padded junk) (imap pair outputs).
Definition unpack_row (outputs : list (list B)) (start stop len : nat) : result (list B) :=
  if Nat.leb cp_size 1 then Ok (slice start (start + len) (default [] (head outputs)))
  else tmp ← join_halves outputs start ((stop - start) / cp_size); Ok (take len tmp).

(** [postprocess_thd_engine]: a jagged tensor with the lengths of the input. *)
Definition unpack_rows (outputs : list (list B)) (cu_seqlens_padded lens : list nat) : result (list (list B)) :=
  mapM (λ x : nat * (nat * nat), unpack_row outputs x.2.1 x.2.2 x.1) (zip lens (zip cu_seqlens_padded (drop 1 cu_seqlens_padded))).

(** [t[mask] = values] in a row of zeros. *)
Fixpoint scatter (zero : B) (mask : list bool) (values : list B) : list B :=
  match mask with
  | [] => []
  | true :: mask => default zero (head values) :: scatter zero mask (tail values)
  | false :: mask => zero :: scatter zero mask values
  end.
Definition postprocess_packed_seqs (zero : B) (outputs : list (list B)) (cu_seqlens_padded : list nat) (attention_mask : tensor bool) : result (tensor B) :=
  rows ← unpack_rows outputs cu_seqlens_padded (count <$> attention_mask);
  Ok (zip_with (scatter zero) attention_mask rows).
Definition postprocess_bshd (zero : B) (result : tensor B) (attention_mask original_attention_mask : tensor bool) : tensor B :=
  zip_with (λ om rm, scatter zero om (select rm.2 rm.1)) original_attention_mask (zip result attention_mask).

(** [postprocess_bshd_engine]: row [i] from the outputs and the masks of the ranks. *)
Definition join_row (local_seqlen : nat) {C} (junk : C) (rows : list (list C)) : result (list C) :=
  let half := local_seqlen / 2 in
  let full := local_seqlen * cp_size in
  foldM (λ tmp jo,
      tmp ← write (jo.1 * half) ((jo.1 + 1) * half) (take half jo.2) tmp;
      write (full - (jo.1 + 1) * half) (full - jo.1 * half) (drop half jo.2) tmp)
    (replicate full junk) (imap pair rows).
Definition unpad_bshd_row (local_seqlen : nat) (outputs : list (list B)) (masks : list (list bool)) : result (list B) :=
  if Nat.leb cp_size 1 then Ok (select (default [] (head masks)) (default [] (head outputs)))
  else
    require Nat.eqb (local_seqlen mod 2) 0 else AssertionError "CP bshd expects local sequence length to be divisible by 2" ;;
    tmp ← join_row local_seqlen junk outputs;
    full_mask ← join_row local_seqlen false masks;
    Ok (select full_mask tmp).
Definition postprocess_bshd_engine (batch_size local_seqlen : nat) (outputs : list (tensor B)) (masks : list (tensor bool)) : result (list (list B)) :=
  require forallb (λ m : tensor bool, Nat.eqb (length m) batch_size && forallb (λ row, Nat.eqb (length row) local_seqlen) m) masks
    else AssertionError "output.shape, attention_mask.shape" ;;
  mapM (λ i, unpad_bshd_row local_seqlen ((λ o : tensor B, nth i o []) <$> outputs) ((λ m : tensor bool, nth i m []) <$> masks)) (seq 0 batch_size).
End unpacking.
End sizes.

(** ** Lemmas: writes and slices *)

Lemma slice_mid {A} (pre mid post : list A) a b : a = length pre → b = a + length mid → slice a b (pre ++ mid ++ post) = mid.
Proof. intros -> ->. unfold slice. rewrite drop_app_length. replace (length pre + length mid - length pre) with (length mid) by lia. apply take_app_length. Qed.
Lemma length_slice {A} (l : list A) a b : length (slice a b l) = (b `min` length l) - a.
Proof. unfold slice. rewrite length_take, length_drop. lia. Qed.

Lemma write_mid {A} (pre mid post values : list A) a b : a = length pre → b = a + length mid → length values = length mid →
  write a b values (pre ++ mid ++ post) = Ok (pre ++ values ++ post).
Proof.
  intros Ha Hb Hv. unfold write. rewrite (slice_mid pre mid post a b Ha Hb), Hv, Nat.eqb_refl, Ha, take_app_length.
  replace (drop (length pre + length mid) (pre ++ mid ++ post)) with post; [done|]. by rewrite (app_assoc pre mid post), <-length_app, drop_app_length.
Qed.

(** A range of a padded list: what is there of the list, and padding. *)
Lemma slice_padded {A} (z : A) d n a b : a <= b → b <= n → length d <= n →
  slice a b (d ++ replicate (n - length d) z) = slice a (b `min` length d) d ++ replicate ((b - a) - (b `min` length d - a)) z.
Proof.
  intros Hab Hb Hd. unfold slice. rewrite drop_app, take_app, drop_replicate, take_replicate, !length_drop.
  f_equal; [|f_equal; lia].
  destruct (Nat.le_ge_cases b (length d)); [by replace (b `min` length d) with b by lia|].
  rewrite !take_ge; [done|rewrite length_drop; lia..].
Qed.

Lemma slice_slice {A} (l : list A) a b c : a <= b → b <= c → slice a b l ++ slice b c l = slice a c l.
Proof.
  intros Hab Hbc. unfold slice. replace (c - a) with ((b - a) + (c - b)) by lia. rewrite <-take_take_drop, drop_drop.
  by replace (a + (b - a)) with b by lia.
Qed.
Lemma slice_fmap {A B} (f : A → B) l a b : slice a b (f <$> l) = f <$> slice a b l.
Proof. unfold slice. by rewrite <-fmap_drop, <-fmap_take. Qed.

(** ** The two halves of the ranks make the whole again *)

Section join.
Context {B : Type} (cp half : nat) (F : list B).
Hypothesis F_length : length F = 2 * cp * half.
Context {O : Type} (g0 g1 : O → list B).

Definition join_step (tmp : list B) (jo : nat * O) : result (list B) :=
  tmp ← write (jo.1 * half) ((jo.1 + 1) * half) (g0 jo.2) tmp;
  write (2 * cp * half - (jo.1 + 1) * half) (2 * cp * half - jo.1 * half) (g1 jo.2) tmp.

Lemma join_fold outs n mid : n + length outs = cp → length mid = 2 * cp * half - 2 * n * half →
  (∀ j o, outs !! j = Some o → g0 o = slice ((n + j) * half) ((n + j + 1) * half) F ∧
     g1 o = slice (2 * cp * half - (n + j + 1) * half) (2 * cp * half - (n + j) * half) F) →
  foldM join_step (take (n * half) F ++ mid ++ drop (2 * cp * half - n * half) F) (imap (λ j o, (n + j, o)) outs) = Ok F.
Proof using F_length.
  revert n mid. induction outs as [|o outs IH]; intros n mid Hn Hmid Hg.
  - cbn [length] in Hn. cbn [imap foldM]. destruct mid; [|cbn [length] in Hmid; nia]. replace (2 * cp * half - n * half) with (n * half) by nia.
    cbn [app]. by rewrite take_drop.
  - cbn [length] in Hn. rewrite imap_cons. cbn [foldM]. destruct (Hg 0 o eq_refl) as [H0 H1]. rewrite !Nat.add_0_r in *.
    assert (L0 : length (g0 o) = half) by (rewrite H0, length_slice, F_length; nia).
    assert (L1 : length (g1 o) = half) by (rewrite H1, length_slice, F_length; nia).
    unfold join_step at 2. cbn [fst snd].
    rewrite <-(take_drop half mid), <-(take_drop (2 * cp * half - 2 * (n + 1) * half) (drop half mid)).
    set (m1 := take half mid). set (m2 := take _ (drop half mid)). set (m3 := drop _ (drop half mid)).
    assert (Lm1 : length m1 = half) by (unfold m1; rewrite length_take; nia).
    assert (Lm2 : length m2 = 2 * cp * half - 2 * (n + 1) * half) by (unfold m2; rewrite length_take, length_drop; nia).
    assert (Lm3 : length m3 = half) by (unfold m3; rewrite !length_drop; nia).
    rewrite <-(app_assoc m1). rewrite (write_mid (take (n * half) F) m1) by (rewrite ?length_take, ?F_length; nia). cbn [mbind result_bind].
    replace (take (n * half) F ++ g0 o ++ (m2 ++ m3) ++ drop (2 * cp * half - n * half) F)
      with ((take (n * half) F ++ g0 o ++ m2) ++ m3 ++ drop (2 * cp * half - n * half) F) by (by rewrite <-!app_assoc).
    rewrite write_mid by (rewrite ?length_app, ?length_take, ?F_length; nia). cbn [mbind result_bind].
    replace ((take (n * half) F ++ g0 o ++ m2) ++ g1 o ++ drop (2 * cp * half - n * half) F)
      with (take (S n * half) F ++ m2 ++ drop (2 * cp * half - S n * half) F).
    + rewrite (imap_ext ((λ j o, (n + j, o)) ∘ S) (λ j o, (S n + j, o))) by (intros j x _; unfold compose; f_equal; lia).
      apply IH; [lia|rewrite Lm2; nia|]. intros j x Hx. destruct (Hg (S j) x Hx) as [E0 E1].
      rewrite E0, E1. split; f_equal; lia.
    + rewrite H0, H1, <-!app_assoc. rewrite (app_assoc (take (n * half) F)).
      replace (take (n * half) F) with (slice 0 (n * half) F) by (unfold slice; by rewrite Nat.sub_0_r, drop_0).
      replace (take (S n * half) F) with (slice 0 (S n * half) F) by (unfold slice; by rewrite Nat.sub_0_r, drop_0).
      rewrite slice_slice by nia. replace ((n + 1) * half) with (S n * half) by lia. do 2 f_equal.
      replace (drop (2 * cp * half - n * half) F) with (slice (2 * cp * half - n * half) (2 * cp * half) F)
        by (unfold slice; apply take_ge; rewrite length_drop; lia).
      rewrite slice_slice by nia. unfold slice. symmetry. apply take_ge. rewrite length_drop. lia.
Qed.
End join.

(** ** Where a position of a sequence is *)

Section places.
Context (tp_size cp_size : nat) (use_fp8_padding : bool).
Hypothesis tp_pos : 0 < tp_size.
Hypothesis cp_pos : 0 < cp_size.
Notation aligned := (align_size tp_size cp_size).
Notation padded_of := (seqlens_padded tp_size cp_size use_fp8_padding).

Lemma align_pos : 0 < aligned.
Proof using tp_pos cp_pos. unfold align_size. destruct (Nat.ltb_spec 1 cp_size); nia. Qed.
Lemma pad_to_spec a n : 0 < a → n <= pad_to a n ∧ Nat.divide a (pad_to a n).
Proof using Type.
  clear tp_pos cp_pos. intros Ha. unfold pad_to. pose proof (Nat.mod_upper_bound n a ltac:(lia)). split; [lia|].
  pose proof (Nat.div_mod_eq n a) as E. destruct (Nat.eq_dec (n mod a) 0) as [Hz|Hnz].
  - rewrite Hz, Nat.sub_0_r, Nat.Div0.mod_same, Nat.add_0_r. exists (n / a). lia.
  - rewrite (Nat.mod_small (a - n mod a)) by lia. exists (S (n / a)). lia.
Qed.
Lemma row_align_spec : 0 < row_align tp_size cp_size use_fp8_padding ∧ Nat.divide aligned (row_align tp_size cp_size use_fp8_padding).
Proof using tp_pos cp_pos.
  pose proof align_pos as H. unfold row_align. destruct use_fp8_padding; [|split; [done|apply Nat.divide_refl]]. cbn [fst compute_fp8_thd_align_size].
  split; [|apply Nat.divide_lcm_r]. destruct (Nat.eq_dec (Nat.lcm 16 aligned) 0) as [E|]; [|lia]. apply Nat.lcm_eq_0 in E. lia.
Qed.
Lemma nsum_divide a l : Forall (Nat.divide a) l → Nat.divide a (nsum l).
Proof using Type. induction 1 as [|n l Hn _ IH]; [apply Nat.divide_0_r|]. by apply Nat.divide_add_r. Qed.

(** A padded length has room for the sequence and is a multiple of the alignment. *)
Lemma seqlens_padded_spec lens : Forall2 (λ n p, n <= p ∧ Nat.divide aligned p) lens (padded_of lens).
Proof using tp_pos cp_pos.
  destruct row_align_spec as [Hpos Hdiv]. set (padded := pad_to (row_align tp_size cp_size use_fp8_padding) <$> lens).
  assert (Hp : Forall2 (λ n p, n <= p ∧ Nat.divide aligned p) lens padded).
  { apply Forall2_fmap_r, Forall_Forall2_diag, Forall_true. intros n. destruct (pad_to_spec _ n Hpos) as [H1 H2].
    split; [done|]. by eapply Nat.divide_trans. }
  unfold seqlens_padded. fold padded. destruct use_fp8_padding; [|done]. cbn [snd compute_fp8_thd_align_size].
  set (total := aligned * 128). set (extra := (total - nsum padded mod total) mod total).
  assert (Hextra : Nat.divide aligned extra).
  { assert (Hall : Nat.divide aligned (nsum padded)).
    { apply nsum_divide. clear -Hp. induction Hp as [|n p l k [_ Hd] _ IH]; [constructor|]. by constructor. }
    destruct (pad_to_spec total (nsum padded)) as [_ Ht]; [unfold total; pose proof align_pos; lia|].
    apply (Nat.divide_add_cancel_r aligned (nsum padded)); [done|]. eapply Nat.divide_trans; [|exact Ht]. apply Nat.divide_factor_l. }
  apply Forall2_same_length_lookup. split; [rewrite length_alter; by eapply Forall2_length|].
  intros i n p Hn Hlp. destruct (decide (i = length padded - 1)) as [->|Hne].
  - rewrite list_lookup_alter_eq in Hlp. destruct (padded !! (length padded - 1)) as [p0|] eqn:E0; [|done]. injection Hlp as <-.
    destruct (Forall2_lookup_lr _ _ _ _ _ _ Hp Hn E0) as [H1 H2]. split; [lia|]. by apply Nat.divide_add_r.
  - rewrite list_lookup_alter_ne in Hlp by done. exact (Forall2_lookup_lr _ _ _ _ _ _ Hp Hn Hlp).
Qed.

Definition half_of (p : nat) : nat := p / cp_size / 2.
Lemma half_spec p : Nat.divide aligned p → 1 < cp_size → p = 2 * cp_size * half_of p ∧ p / cp_size = 2 * half_of p.
Proof using tp_pos cp_pos.
  intros [q ->] Hcp. unfold align_size, half_of. destruct (Nat.ltb_spec 1 cp_size); [|lia].
  replace (q * (tp_size * cp_size * 2)) with ((q * tp_size * 2) * cp_size) by lia. rewrite Nat.div_mul by lia.
  replace (q * tp_size * 2) with ((q * tp_size) * 2) by lia. rewrite Nat.div_mul by lia. lia.
Qed.
Lemma chunk_total p : Nat.divide aligned p → p = cp_size * (p / cp_size).
Proof using tp_pos cp_pos.
  intros Hp. destruct (Nat.lt_ge_cases 1 cp_size) as [Hcp|Hcp]; [destruct (half_spec p Hp Hcp); nia|].
  replace cp_size with 1 by lia. rewrite Nat.div_1_r. lia.
Qed.

(** Slot [o] of rank [r] holds position [global]; position [q] is at [slot] of [owner]. *)
Definition global (r p o : nat) : nat :=
  if Nat.leb cp_size 1 then o else if Nat.ltb o (half_of p) then half_of p * r + o else p - half_of p * (r + 1) + (o - half_of p).
Definition owner (p q : nat) : nat :=
  if Nat.leb cp_size 1 then 0 else if Nat.ltb (q / half_of p) cp_size then q / half_of p else 2 * cp_size - 1 - q / half_of p.
Definition slot (p q : nat) : nat :=
  if Nat.leb cp_size 1 then q else if Nat.ltb (q / half_of p) cp_size then q mod half_of p else half_of p + q mod half_of p.

Lemma global_owner p q : Nat.divide aligned p → q < p →
  global (owner p q) p (slot p q) = q ∧ owner p q < cp_size ∧ slot p q < p / cp_size.
Proof using tp_pos cp_pos.
  intros Hp Hq. unfold global, owner, slot. destruct (Nat.leb_spec cp_size 1) as [H1|H1].
  { pose proof (chunk_total p Hp). nia. }
  destruct (half_spec p Hp H1) as [E1 E2]. set (h := half_of p) in *. assert (Hh : 0 < h) by nia. rewrite E2.
  pose proof (Nat.mod_upper_bound q h ltac:(lia)) as Hm. pose proof (Nat.div_mod_eq q h) as Hd.
  assert (Hlt : q / h < 2 * cp_size) by nia.
  destruct (Nat.ltb_spec (q / h) cp_size) as [H2|H2].
  - destruct (Nat.ltb_spec (q mod h) h); [|lia]. split_and!; lia.
  - destruct (Nat.ltb_spec (h + q mod h) h); [lia|]. split_and!; [|lia|lia].
    replace (2 * cp_size - 1 - q / h + 1) with (2 * cp_size - q / h) by lia. rewrite E1 at 1.
    rewrite (Nat.mul_comm h), <-Nat.mul_sub_distr_r. replace (2 * cp_size - (2 * cp_size - q / h)) with (q / h) by lia. lia.
Qed.
End places.

(** ** The packed buffer is made of the blocks of the sequences *)

Section blocks.
Context (tp_size cp_size : nat) (use_fp8_padding : bool).
Hypothesis tp_pos : 0 < tp_size.
Hypothesis cp_pos : 0 < cp_size.
Context {A : Type} (zero : A).
Notation aligned := (align_size tp_size cp_size).

Definition block (r : nat) (d : list A) (p : nat) : list A := (λ o, nth (global cp_size r p o) d zero) <$> seq 0 (p / cp_size).
Definition range (a n : nat) (d : list A) : list A := (λ o, nth (a + o) d zero) <$> seq 0 n.

Lemma range_slice a n d :
  range a n d = slice a ((a + n) `min` length d) d ++ replicate (n - ((a + n) `min` length d - a)) zero.
Proof using Type.
  clear tp_pos cp_pos. unfold range. apply list_eq. intros i. rewrite list_lookup_fmap. destruct (Nat.lt_ge_cases i n) as [Hi|Hi].
  - rewrite lookup_seq_lt by done. cbn [fmap option_fmap option_map]. rewrite Nat.add_0_l, nth_lookup.
    destruct (Nat.lt_ge_cases (a + i) (length d)) as [Hl|Hl].
    + rewrite lookup_app_l by (rewrite length_slice; lia). unfold slice. rewrite lookup_take_lt by lia. rewrite lookup_drop.
      destruct (lookup_lt_is_Some_2 d (a + i) Hl) as [x ->]. done.
    + rewrite lookup_app_r by (rewrite length_slice; lia). rewrite lookup_replicate_2 by (rewrite length_slice; lia).
      by rewrite lookup_ge_None_2.
  - rewrite lookup_seq_ge by done. cbn. symmetry. apply lookup_ge_None. rewrite length_app, length_slice, length_replicate. lia.
Qed.
Lemma length_range a n d : length (range a n d) = n.
Proof using Type. unfold range. by rewrite length_fmap, length_seq. Qed.
Lemma length_block r d p : length (block r d p) = p / cp_size.
Proof using Type. unfold block. by rewrite length_fmap, length_seq. Qed.
Lemma range_app a n m d : range a (n + m) d = range a n d ++ range (a + n) m d.
Proof using Type.
  clear tp_pos cp_pos. unfold range. rewrite seq_app, fmap_app. f_equal. cbn [Nat.add].
  apply list_eq. intros i. rewrite !list_lookup_fmap. destruct (Nat.lt_ge_cases i m).
  - rewrite !lookup_seq_lt by done. cbn. f_equal. f_equal. lia.
  - by rewrite !lookup_seq_ge by done.
Qed.
Lemma block_single r d p : cp_size = 1 → block r d p = range 0 p d.
Proof using Type. intros E. unfold block, range, global. by rewrite E, Nat.div_1_r. Qed.
Lemma block_halves r d p : 1 < cp_size → Nat.divide aligned p →
  block r d p = range (half_of cp_size p * r) (half_of cp_size p) d ++ range (p - half_of cp_size p * (r + 1)) (half_of cp_size p) d.
Proof using tp_pos cp_pos.
  intros Hcp Hp. destruct (half_spec tp_size cp_size tp_pos cp_pos p Hp Hcp) as [_ E]. unfold block. rewrite E.
  set (h := half_of cp_size p). replace (2 * h) with (h + h) by lia. rewrite seq_app, fmap_app. unfold range. f_equal; apply list_eq; intros i; rewrite !list_lookup_fmap.
  - destruct (Nat.lt_ge_cases i h); [|by rewrite !lookup_seq_ge]. rewrite !lookup_seq_lt by done. cbn. unfold global. fold h.
    destruct (Nat.leb_spec cp_size 1), (Nat.ltb_spec i h); try lia. done.
  - destruct (Nat.lt_ge_cases i h); [|by rewrite !lookup_seq_ge]. rewrite !lookup_seq_lt by done. cbn [fmap option_fmap option_map]. rewrite !Nat.add_0_l. unfold global. fold h.
    destruct (Nat.leb_spec cp_size 1), (Nat.ltb_spec (h + i) h); try lia. by replace (h + i - h) with i by lia.
Qed.

(** Values written at the front of a run of padding, if there are any. *)
Lemma write_front a n m (values pre post : list A) : a = length pre → length values = n → n <= m →
  (if Nat.ltb 0 n then write a (a + n) values (pre ++ replicate m zero ++ post) else Ok (pre ++ replicate m zero ++ post)) =
  Ok (pre ++ values ++ replicate (m - n) zero ++ post).
Proof using Type.
  clear tp_pos cp_pos. intros Ha Hv Hn. destruct (Nat.ltb_spec 0 n).
  - replace (replicate m zero) with (replicate n zero ++ replicate (m - n) zero) by (rewrite <-replicate_add; f_equal; lia).
    rewrite <-app_assoc. apply write_mid; rewrite ?length_replicate; lia.
  - destruct values; [|cbn in Hv; lia]. replace (m - n) with m by lia. done.
Qed.

Lemma pack_row_block r d p start pre post : Nat.divide aligned p → length d <= p → r < cp_size → length pre = start / cp_size →
  pack_row cp_size r d p start (pre ++ replicate (p / cp_size) zero ++ post) = Ok (pre ++ block r d p ++ post).
Proof using tp_pos cp_pos.
  intros Hp Hd Hr Hpre. unfold pack_row. destruct (Nat.leb_spec cp_size 1) as [H1|H1].
  - assert (E : cp_size = 1) by lia. rewrite (block_single r d p E). rewrite E, Nat.div_1_r in *.
    rewrite range_slice. unfold slice. rewrite drop_0, !Nat.sub_0_r, Nat.add_0_l, Nat.min_r by done. rewrite take_ge by done.
    rewrite <-app_assoc. pose proof (write_front start (length d) p d pre post ltac:(lia) eq_refl Hd) as H.
    destruct (Nat.ltb_spec 0 (length d)); [exact H|]. rewrite <-H. clear H. destruct d; [|cbn in *; lia].
    rewrite Nat.add_0_r. apply (write_mid pre [] _ []); [lia|cbn; lia|done].
  - destruct (half_spec tp_size cp_size tp_pos cp_pos p Hp H1) as [E1 E2]. fold (half_of cp_size p). set (h := half_of cp_size p) in *.
    rewrite (block_halves r d p H1 Hp). fold h. rewrite !range_slice, E2.
    set (n1 := (h * (r + 1)) `min` length d - h * r). set (n2 := (p - h * r) `min` length d - (p - h * (r + 1))).
    replace (h * r + h) with (h * (r + 1)) by lia. replace (p - h * (r + 1) + h) with (p - h * r) by nia. fold n1 n2.
    rewrite write_front by (rewrite ?length_slice; lia). cbn [mbind result_bind].
    replace (2 * h - n1) with ((h - n1) + h) by lia. rewrite replicate_add, !app_assoc, <-(app_assoc ((pre ++ _) ++ _)).
    rewrite write_front by (rewrite ?length_app, ?length_replicate, ?length_slice; nia). by rewrite !app_assoc.
Qed.

Lemma nsum_chunks padded : Forall (Nat.divide aligned) padded → ∀ p, Nat.divide aligned p → nsum (p :: padded) / cp_size = p / cp_size + nsum padded / cp_size.
Proof using tp_pos cp_pos.
  intros Hall p Hp. change (nsum (p :: padded)) with (p + nsum padded). rewrite (chunk_total tp_size cp_size tp_pos cp_pos p Hp) at 1.
  rewrite (Nat.mul_comm cp_size), Nat.add_comm, Nat.div_add by lia. lia.
Qed.
Lemma div_add_aligned acc p : Nat.divide aligned p → (acc + p) / cp_size = acc / cp_size + p / cp_size.
Proof using tp_pos cp_pos.
  intros Hp. rewrite (chunk_total tp_size cp_size tp_pos cp_pos p Hp) at 1. by rewrite (Nat.mul_comm cp_size), Nat.div_add by lia.
Qed.

(** A loop over the sequences that turns the padding of each one into its block. *)
Lemma fold_blocks (f : list A → nat → nat → list A → result (list A)) (g : list A → nat → list A) rows padded acc pre :
  (∀ d p start pre post, Nat.divide aligned p → length d <= p → length pre = start / cp_size →
     f d p start (pre ++ replicate (p / cp_size) zero ++ post) = Ok (pre ++ g d p ++ post)) →
  (∀ d p, length (g d p) = p / cp_size) →
  Forall2 (λ d p, length d <= p ∧ Nat.divide aligned p) rows padded → length pre = acc / cp_size →
  foldM (λ buf x, f x.1 x.2.1 x.2.2 buf) (pre ++ replicate (nsum padded / cp_size) zero) (zip rows (zip padded (acc :: offsets_from acc padded))) =
  Ok (pre ++ concat (zip_with g rows padded)).
Proof using tp_pos cp_pos.
  intros Hf Hg Hall. revert acc pre. induction Hall as [|d p rows padded [Hd Hp] Hall IH]; intros acc pre Hpre.
  - cbn. by rewrite Nat.Div0.div_0_l.
  - assert (Hal : Forall (Nat.divide aligned) padded) by (clear -Hall; induction Hall as [|? ? ? ? [_ ?] _ IH]; constructor; done).
    cbn [offsets_from zip zip_with foldM fst snd concat]. rewrite (nsum_chunks padded Hal p Hp), replicate_add.
    rewrite (Hf d p acc pre (replicate (nsum padded / cp_size) zero) Hp Hd Hpre). cbn [mbind result_bind]. rewrite !app_assoc. apply IH.
    rewrite length_app, Hg, Hpre. symmetry. by apply div_add_aligned.
Qed.

Notation padded_of rows := (seqlens_padded tp_size cp_size use_fp8_padding (length <$> (rows : list (list A)))).
Lemma rows_padded (rows : list (list A)) : Forall2 (λ d p, length d <= p ∧ Nat.divide aligned p) rows (padded_of rows).
Proof using tp_pos cp_pos.
  pose proof (seqlens_padded_spec tp_size cp_size use_fp8_padding tp_pos cp_pos (length <$> rows)) as H. by apply Forall2_fmap_l in H.
Qed.
Lemma pack_rows_blocks r (rows : list (list A)) : rows ≠ [] → r < cp_size →
  pack_rows tp_size cp_size use_fp8_padding zero r rows = Ok (concat (zip_with (block r) rows (padded_of rows))).
Proof using tp_pos cp_pos.
  intros Hne Hr. unfold pack_rows. replace (check_rows use_fp8_padding rows) with (Ok tt) by (by destruct rows). cbn [mbind result_bind].
  apply (fold_blocks (pack_row cp_size r) (block r) rows _ 0 []).
  - intros d p start pre post Hp Hd Hpre. by apply pack_row_block.
  - intros d p. apply length_block.
  - apply rows_padded.
  - by rewrite Nat.Div0.div_0_l.
Qed.
End blocks.

(** ** Sequences from the blocks of all ranks *)

Lemma offsets_lookup acc l i : offsets_from acc l !! i = (λ _, acc + nsum (take (S i) l)) <$> l !! i.
Proof.
  revert acc i. induction l as [|n l IH]; intros acc [|i]; [done..| |].
  - cbn. by rewrite Nat.add_0_r.
  - cbn [offsets_from lookup list_lookup]. rewrite IH. destruct (l !! i); [|done]. cbn [fmap option_fmap option_map]. f_equal.
    change (nsum (take (S (S i)) (n :: l))) with (n + nsum (take (S i) l)). lia.
Qed.
Lemma cumulative_lookup l i : i <= length l → cumulative l !! i = Some (nsum (take i l)).
Proof.
  intros Hi. destruct i as [|i]; [done|]. unfold cumulative. cbn [lookup list_lookup]. rewrite offsets_lookup.
  by destruct (lookup_lt_is_Some_2 l i) as [x ->].
Qed.

Lemma concat_prefix tp_size cp_size {B} (bl : list (list B)) padded i : 0 < tp_size → 0 < cp_size →
  Forall (Nat.divide (align_size tp_size cp_size)) padded → Forall2 (λ b p, length b = p / cp_size) bl padded →
  length (concat (take i bl)) = nsum (take i padded) / cp_size.
Proof.
  intros Htp Hcp Hal Hall. revert i Hal. induction Hall as [|b p bl padded E Hall IH]; intros i Hal; [rewrite !take_nil; cbn; by rewrite Nat.Div0.div_0_l|].
  apply Forall_cons in Hal as [Hp Hal]. destruct i as [|i]; [cbn; by rewrite Nat.Div0.div_0_l|]. cbn [take concat].
  rewrite length_app, E, IH by done. symmetry. apply (nsum_chunks tp_size); [done..|by apply Forall_take|done].
Qed.

Lemma nsum_take_le l i p : l !! i = Some p → nsum (take i l) + p <= nsum l.
Proof.
  intros Hp. rewrite <-(take_drop_middle l i p Hp) at 2. rewrite nsum_app. change (nsum (p :: drop (S i) l)) with (p + nsum (drop (S i) l)). lia.
Qed.

Section unpacked.
Context (tp_size cp_size : nat).
Hypothesis tp_pos : 0 < tp_size.
Hypothesis cp_pos : 0 < cp_size.
Context {B : Type} (junk : B) (outputs : list (list B)) (padded : list nat).
Notation aligned := (align_size tp_size cp_size).
Hypothesis ranks : length outputs = cp_size.
Hypothesis aligned_all : Forall (Nat.divide aligned) padded.
Hypothesis sizes : Forall (λ o, length o = nsum padded / cp_size) outputs.

(** Entry [q] of sequence [i] is where its rank has it. *)
Definition entry (i p q : nat) : B := nth (nsum (take i padded) / cp_size + slot cp_size p q) (nth (owner cp_size p q) outputs []) junk.
Definition whole (i p : nat) : list B := entry i p <$> seq 0 p.

Lemma slice_entries i p a n : a + n <= p → slice a (a + n) (whole i p) = (λ t, entry i p (a + t)) <$> seq 0 n.
Proof using Type.
  clear tp_pos cp_pos ranks aligned_all sizes. intros H. apply list_eq. intros j. unfold slice, whole. rewrite Nat.add_comm, Nat.add_sub.
  destruct (Nat.lt_ge_cases j n) as [Hj|Hj].
  - rewrite lookup_take_lt, lookup_drop, !list_lookup_fmap, !lookup_seq_lt by lia. done.
  - rewrite lookup_take_ge by done. by rewrite list_lookup_fmap, lookup_seq_ge.
Qed.
Lemma slice_nth (b : list B) a n : a + n <= length b → slice a (a + n) b = (λ t, nth (a + t) b junk) <$> seq 0 n.
Proof using Type.
  clear tp_pos cp_pos ranks aligned_all sizes. intros H. fold (range junk a n b). rewrite range_slice, Nat.min_l by done.
  replace (n - (a + n - a)) with 0 by lia. cbn. by rewrite app_nil_r.
Qed.
Lemma room_of i p o : padded !! i = Some p → o ∈ outputs → nsum (take i padded) / cp_size + p / cp_size <= length o.
Proof using tp_pos cp_pos aligned_all sizes.
  intros Hp Ho. pose proof sizes as Hs. rewrite Forall_forall in Hs. rewrite (Hs o Ho). pose proof aligned_all as Hal.
  rewrite <-(div_add_aligned tp_size cp_size tp_pos cp_pos _ p) by (rewrite Forall_lookup in Hal; by eapply Hal).
  apply Nat.Div0.div_le_mono. by apply nsum_take_le.
Qed.
Lemma length_whole i p : length (whole i p) = p.
Proof using Type. unfold whole. by rewrite length_fmap, length_seq. Qed.

Lemma unpack_row_whole i p len : padded !! i = Some p → len <= p →
  unpack_row cp_size junk outputs (nsum (take i padded)) (nsum (take i padded) + p) len = Ok (take len (whole i p)).
Proof using All.
  intros Hp Hlen. pose proof aligned_all as Hal. rewrite Forall_lookup in Hal. pose proof (Hal i p Hp) as Hdiv.
  set (start := nsum (take i padded)). unfold unpack_row. destruct (Nat.leb_spec cp_size 1) as [H1|H1].
  - assert (E1 : cp_size = 1) by lia. destruct (lookup_lt_is_Some_2 outputs 0) as [o Ho]; [rewrite ranks; lia|].
    rewrite head_lookup, Ho. cbn [default from_option id].
    pose proof (room_of i p o Hp ltac:(by eapply list_elem_of_lookup_2)) as Hroom. rewrite E1, !Nat.div_1_r in Hroom. fold start in Hroom.
    rewrite slice_nth by lia. f_equal. pose proof (slice_entries i p 0 len ltac:(lia)) as Hs. unfold slice in Hs. rewrite drop_0, Nat.sub_0_r, Nat.add_0_l in Hs. rewrite Hs.
    apply list_fmap_ext. intros ? q _. unfold entry, owner, slot. rewrite E1. cbn [Nat.leb]. rewrite Nat.div_1_r, (nth_lookup_Some outputs 0 [] o Ho). done.
  - destruct (half_spec tp_size cp_size tp_pos cp_pos p Hdiv H1) as [E1 E2]. set (h := half_of cp_size p) in *.
    unfold join_halves. replace (start + p - start) with p by lia. fold (half_of cp_size p). fold h.
    replace (p / cp_size * cp_size) with (2 * cp_size * h) by nia.
    pose proof (join_fold cp_size h (whole i p) ltac:(rewrite length_whole; lia)
      (λ o, slice (start / cp_size) (start / cp_size + h) o) (λ o, slice (start / cp_size + h) (start / cp_size + p / cp_size) o)
      outputs 0 (replicate (2 * cp_size * h) junk)) as HJ.
    rewrite Nat.mul_0_l, Nat.sub_0_r, take_0, (drop_ge (whole i p)), app_nil_r in HJ by (rewrite length_whole; lia).
    rewrite app_nil_l in HJ.
    etransitivity; [eapply (f_equal (λ r : result (list B), r ≫= λ tmp, Ok (take len tmp))), HJ|done]; [done|rewrite length_replicate; lia|]. clear HJ.
    intros j o Ho. assert (Hjc : j < cp_size) by (rewrite <-ranks; by eapply lookup_lt_Some).
    pose proof (room_of i p o Hp ltac:(by eapply list_elem_of_lookup_2)) as Hroom. rewrite E2 in Hroom |- *. fold start in Hroom.
    pose proof (nth_lookup_Some outputs j [] o Ho) as Hnth. rewrite !Nat.add_0_l. split.
    + rewrite slice_nth by lia. replace ((j + 1) * h) with (j * h + h) by lia. rewrite slice_entries by nia.
      apply list_fmap_ext. intros t ? [-> Ht]%lookup_seq. rewrite ?Nat.add_0_l. unfold entry, owner, slot. fold h start.
      rewrite Nat.div_add_l, (Nat.div_small t h), Nat.add_0_r by lia. destruct (Nat.leb_spec cp_size 1), (Nat.ltb_spec j cp_size); try lia.
      by rewrite (Nat.add_comm (j * h) t), Nat.Div0.mod_add, Nat.mod_small, Hnth by lia.
    + replace (start / cp_size + 2 * h) with (start / cp_size + h + h) by lia. rewrite slice_nth by lia.
      replace (2 * cp_size * h - (j + 1) * h) with ((2 * cp_size - 1 - j) * h) by nia.
      replace (2 * cp_size * h - j * h) with ((2 * cp_size - 1 - j) * h + h) by nia. rewrite slice_entries by nia.
      apply list_fmap_ext. intros t ? [-> Ht]%lookup_seq. rewrite ?Nat.add_0_l. unfold entry, owner, slot. fold h start.
      rewrite Nat.div_add_l, (Nat.div_small t h), Nat.add_0_r by lia. destruct (Nat.leb_spec cp_size 1), (Nat.ltb_spec (2 * cp_size - 1 - j) cp_size); try lia.
      replace (2 * cp_size - 1 - (2 * cp_size - 1 - j)) with j by lia.
      by rewrite (Nat.add_comm ((2 * cp_size - 1 - j) * h) t), Nat.Div0.mod_add, Nat.mod_small, Hnth, Nat.add_assoc by lia.
Qed.

Lemma unpack_rows_whole lens : Forall2 (λ n p, n <= p) lens padded →
  unpack_rows cp_size junk outputs (cumulative padded) lens = Ok (imap (λ i np, take np.1 (whole i np.2)) (zip lens padded)).
Proof using All.
  intros Hall. unfold unpack_rows. apply mapM_Ok_Forall2, Forall2_same_length_lookup_2.
  - rewrite length_imap, !length_zip_with, length_drop. unfold cumulative. cbn [length].
    assert (Hoff : ∀ acc, length (offsets_from acc padded) = length padded) by (clear; induction padded as [|n l IH]; intros acc; cbn; [done|by rewrite IH]).
    rewrite Hoff. pose proof (Forall2_length _ _ _ Hall). lia.
  - intros i x y Hx Hy. apply lookup_zip_with_Some in Hx as (n & [a b] & -> & Hn & Hab). apply lookup_zip_with_Some in Hab as (a' & b' & [= <- <-] & Ha & Hb).
    rewrite list_lookup_imap in Hy. destruct (zip lens padded !! i) as [np|] eqn:Ez; [|done]. injection Hy as <-.
    apply lookup_zip_with_Some in Ez as (n' & p & -> & Hn' & Hp). rewrite Hn in Hn'. injection Hn' as <-. cbn [fst snd].
    pose proof (lookup_lt_Some _ _ _ Hp) as Hi. rewrite cumulative_lookup in Ha by lia. injection Ha as <-.
    rewrite lookup_drop, cumulative_lookup in Hb by lia. injection Hb as <-.
    change (1 + i) with (S i). replace (nsum (take (S i) padded)) with (nsum (take i padded) + p).
    + apply unpack_row_whole; [done|]. exact (Forall2_lookup_lr _ _ _ _ _ _ Hall Hn Hp).
    + rewrite (take_S_r _ _ p Hp), nsum_app. cbn. lia.
Qed.
End unpacked.

Lemma concat_nth {A} tp_size cp_size (z : A) (bl : list (list A)) padded i b o : 0 < tp_size → 0 < cp_size →
  Forall (Nat.divide (align_size tp_size cp_size)) padded → Forall2 (λ b p, length b = p / cp_size) bl padded →
  bl !! i = Some b → o < length b → nth (nsum (take i padded) / cp_size + o) (concat bl) z = nth o b z.
Proof.
  intros Htp Hcp Hal Hall Hb Ho. rewrite <-(take_drop_middle bl i b Hb), concat_app. cbn [concat].
  rewrite app_nth2 by (rewrite (concat_prefix tp_size cp_size bl padded); [lia|done..]).
  rewrite (concat_prefix tp_size cp_size bl padded) by done. rewrite Nat.add_comm, Nat.add_sub. by rewrite app_nth1.
Qed.
Lemma length_concat_blocks {A} tp_size cp_size (bl : list (list A)) padded : 0 < tp_size → 0 < cp_size →
  Forall (Nat.divide (align_size tp_size cp_size)) padded → Forall2 (λ b p, length b = p / cp_size) bl padded →
  length (concat bl) = nsum padded / cp_size.
Proof.
  intros Htp Hcp Hal Hall. pose proof (concat_prefix tp_size cp_size bl padded (length bl) Htp Hcp Hal Hall) as H.
  rewrite !take_ge in H by (rewrite ?(Forall2_length _ _ _ Hall); lia). exact H.
Qed.

Lemma scatter_select {A B} (z : B) (f : A → B) m d : length d = length m →
  scatter z m (f <$> select m d) = zip_with (λ (b : bool) x, if b then f x else z) m d.
Proof.
  revert d. induction m as [|b m IH]; intros [|x d] H; [done..|]. injection H as H. rewrite select_cons. destruct b; cbn [scatter zip_with].
  - change (f <$> [x] ++ select m d) with (f x :: (f <$> select m d)). cbn [head tail default from_option id]. by rewrite IH.
  - cbn [app]. by rewrite IH.
Qed.
Lemma list_as_nth {A} (z : A) (l : list A) : l = (λ q, nth q l z) <$> seq 0 (length l).
Proof.
  apply list_eq. intros i. rewrite list_lookup_fmap. destruct (l !! i) as [x|] eqn:E.
  - rewrite lookup_seq_lt by (by eapply lookup_lt_Some). cbn. by rewrite (nth_lookup_Some l i z x E).
  - by rewrite lookup_seq_ge by (by apply lookup_ge_None).
Qed.
Lemma fmap_as_nth {A B} (z : A) (f : A → B) (l : list A) : f <$> l = (λ q, f (nth q l z)) <$> seq 0 (length l).
Proof. rewrite (list_as_nth z l) at 1. by rewrite <-list_fmap_compose. Qed.
Lemma nth_fmap_lt {A B} (f : A → B) l k z z' : k < length l → nth k (f <$> l) z' = f (nth k l z).
Proof. intros H. rewrite !nth_lookup, list_lookup_fmap. by destruct (lookup_lt_is_Some_2 l k H) as [x ->]. Qed.
Lemma take_whole {B} cp_size (junk : B) outputs padded i p n (F : nat → B) : n <= p →
  (∀ q, q < n → entry cp_size junk outputs padded i p q = F q) → take n (whole cp_size junk outputs padded i p) = F <$> seq 0 n.
Proof.
  intros Hn HF. unfold whole. rewrite <-fmap_take, take_seq, Nat.min_l by done. apply list_fmap_ext. intros ? q [-> Hq]%lookup_seq. by apply HF.
Qed.
Lemma nth_fmap_seq {A} (f : nat → A) n z q : q < n → nth q (f <$> seq 0 n) z = f q.
Proof. intros H. rewrite nth_lookup, list_lookup_fmap, lookup_seq_lt by done. done. Qed.

(** The blocks of a rank, and the token that one of their slots holds. *)
Lemma blocks_sized {A} cp_size (g : list A → nat → list A) (rows : list (list A)) padded : (∀ d p, length (g d p) = p / cp_size) → length rows = length padded →
  Forall2 (λ b p, length b = p / cp_size) (zip_with g rows padded) padded.
Proof. intros Hg. revert padded. induction rows as [|d rows IH]; intros [|p padded] H; [constructor|done..|]. cbn [zip_with]. constructor; [apply Hg|apply IH]. by injection H. Qed.
Lemma packed_slot {A} tp_size cp_size (zero : A) r rows padded i d p o z : 0 < tp_size → 0 < cp_size →
  Forall (Nat.divide (align_size tp_size cp_size)) padded → length rows = length padded →
  rows !! i = Some d → padded !! i = Some p → o < p / cp_size →
  nsum (take i padded) / cp_size + o < length (concat (zip_with (block cp_size zero r) rows padded)) ∧
  nth (nsum (take i padded) / cp_size + o) (concat (zip_with (block cp_size zero r) rows padded)) z = nth (global cp_size r p o) d zero.
Proof.
  intros Htp Hcp Hal Hlen Hd Hp Ho. pose proof (blocks_sized cp_size (block cp_size zero r) rows padded (length_block cp_size zero r) Hlen) as Hb.
  assert (Hbi : zip_with (block cp_size zero r) rows padded !! i = Some (block cp_size zero r d p)) by (apply lookup_zip_with_Some; eauto).
  split.
  - rewrite (length_concat_blocks tp_size cp_size _ padded Htp Hcp Hal Hb). rewrite Forall_lookup in Hal.
    pose proof (div_add_aligned tp_size cp_size Htp Hcp (nsum (take i padded)) p (Hal i p Hp)) as E.
    pose proof (Nat.Div0.div_le_mono _ _ cp_size (nsum_take_le padded i p Hp)). lia.
  - rewrite (concat_nth tp_size cp_size z _ padded i (block cp_size zero r d p)) by (rewrite ?length_block; done).
    unfold block. by apply (nth_fmap_seq (λ o, nth (global cp_size r p o) d zero)).
Qed.

(** Packing sequences and unpacking the outputs loses and mixes up nothing.  For any
    number of tensor- and context-parallel ranks, with FP8 padding or without it, every rank
    packs its two chunks of every sequence of a batch, and [postprocess_packed_seqs], given what
    a function of each slot makes of the ranks' buffers, returns that function of each
    token at the token's place, and zeros at the masked places. *)
Theorem packed_seqs_roundtrip {A B} tp_size cp_size use_fp8_padding (zero : A) (junk zero' : B) (f : A → B)
    (input_ids : tensor A) (attention_mask : tensor bool) :
  0 < tp_size → 0 < cp_size → input_ids ≠ [] → shape input_ids = shape attention_mask →
  ∃ buffers, mapM (λ cp_rank, preprocess_packed_seqs tp_size cp_size use_fp8_padding zero cp_rank input_ids attention_mask) (seq 0 cp_size) = Ok buffers ∧
    postprocess_packed_seqs cp_size junk zero' ((λ b : list A, f <$> b) <$> buffers)
      (cumulative (seqlens_padded tp_size cp_size use_fp8_padding (count <$> attention_mask))) attention_mask =
    Ok (zip_with (zip_with (λ (m : bool) x, if m then f x else zero')) attention_mask input_ids).
Proof.
  intros Htp Hcp Hne Hshape. set (rows := zip_with select attention_mask input_ids).
  assert (Hall : Forall2 (λ m d, length d = length m) attention_mask input_ids).
  { unfold shape in Hshape. apply Forall2_same_length_lookup. split.
    - apply (f_equal length) in Hshape. by rewrite !length_fmap in Hshape.
    - intros i m d Hm Hd. apply (f_equal (.!! i)) in Hshape. rewrite !list_lookup_fmap, Hm, Hd in Hshape. by injection Hshape. }
  assert (Hlens : length <$> rows = count <$> attention_mask).
  { unfold rows. clear -Hall. induction Hall as [|m d ms ds E _ IH]; [done|]. csimpl. f_equal; [|exact IH]. by apply select_length. }
  assert (Hrows : rows ≠ []) by (unfold rows; clear -Hall Hne; by destruct Hall).
  set (padded := seqlens_padded tp_size cp_size use_fp8_padding (length <$> rows)).
  pose proof (rows_padded tp_size cp_size use_fp8_padding Htp Hcp rows) as Hpad. fold padded in Hpad.
  assert (Hal : Forall (Nat.divide (align_size tp_size cp_size)) padded).
  { clear -Hpad. induction Hpad as [|d p rows' padded' [_ ?] _ IH]; by constructor. }
  exists ((λ r, concat (zip_with (block cp_size zero r) rows padded)) <$> seq 0 cp_size). split.
  { apply mapM_Ok_map. intros r Hr%elem_of_seq. apply (pack_rows_blocks tp_size); [done..|lia]. }
  unfold postprocess_packed_seqs. rewrite <-Hlens. fold padded.
  rewrite (unpack_rows_whole tp_size cp_size Htp Hcp junk _ padded).
  - cbn [mbind result_bind]. f_equal. apply list_eq. intros i. rewrite !lookup_zip_with.
    destruct (attention_mask !! i) as [m|] eqn:Hm; [|done]. destruct (Forall2_lookup_l _ _ _ _ _ Hall Hm) as (d & Hd & Hl).
    assert (Hrow : rows !! i = Some (select m d)) by (unfold rows; apply lookup_zip_with_Some; eauto).
    destruct (Forall2_lookup_l _ _ _ _ _ Hpad Hrow) as (p & Hp & Hle & Hdiv).
    rewrite Hd, list_lookup_imap, lookup_zip_with, list_lookup_fmap, Hrow. cbn [fmap option_fmap option_map mbind option_bind].
    rewrite Hp. cbn [fmap option_fmap option_map mbind option_bind fst snd]. f_equal.
    rewrite <-(scatter_select zero' f m d Hl). f_equal.
    rewrite (take_whole _ _ _ _ _ _ _ (λ q, f (nth q (select m d) zero))); [|done|].
    + symmetry. apply fmap_as_nth.
    + intros q Hq. destruct (global_owner tp_size cp_size Htp Hcp p q Hdiv) as (Hg & Ho & Hs); [lia|]. unfold entry.
      rewrite (nth_lookup_Some _ _ [] (f <$> concat (zip_with (block cp_size zero (owner cp_size p q)) rows padded)))
        by (rewrite !list_lookup_fmap, lookup_seq_lt by done; done).
      destruct (packed_slot tp_size cp_size zero (owner cp_size p q) rows padded i _ p (slot cp_size p q) zero Htp Hcp Hal (Forall2_length _ _ _ Hpad) Hrow Hp Hs) as [Hroom Hval].
      rewrite (nth_fmap_lt f _ _ zero) by exact Hroom. by rewrite Hval, Hg.
  - by rewrite !length_fmap, length_seq.
  - done.
  - rewrite !Forall_fmap. apply Forall_true. intros r. unfold compose. rewrite length_fmap.
    apply (length_concat_blocks tp_size); [done..|]. apply blocks_sized; [apply length_block|by eapply Forall2_length].
  - apply Forall2_fmap_l. eapply Forall2_impl; [exact Hpad|]. by intros d p [? _].
Qed.

(** ** [preprocess_thd_engine] *)

Section thd.
Context (tp_size cp_size : nat).
Hypothesis tp_pos : 0 < tp_size.
Hypothesis cp_pos : 0 < cp_size.
Context {A : Type} (zero : A).
Notation aligned := (align_size tp_size cp_size).
Notation padded_len d := (pad_to aligned (length d)).

Definition extended (d : list A) : list A := if Nat.ltb (length d * 1) aligned then d ++ replicate (aligned - length d) zero else d.
Lemma extend_short_Ok d : extend_short tp_size cp_size false zero true 1 d = Ok (extended d).
Proof using Type. unfold extend_short, extended, row_align. by destruct (Nat.ltb (length d * 1) aligned). Qed.
Lemma nth_extended d q : nth q (extended d) zero = nth q d zero.
Proof using Type.
  clear tp_pos cp_pos. unfold extended. destruct (Nat.ltb _ _); [|done]. destruct (Nat.lt_ge_cases q (length d)); [by rewrite app_nth1|].
  rewrite app_nth2, (nth_overflow d) by done. rewrite nth_lookup. destruct (replicate _ _ !! _) as [x|] eqn:E; [|done].
  by apply lookup_replicate in E as [-> _].
Qed.
Lemma block_extended r d p : block cp_size zero r (extended d) p = block cp_size zero r d p.
Proof using Type. unfold block. apply list_fmap_ext. intros ? o _. apply nth_extended. Qed.
(** The sequence, extended to the alignment, fills more than half of its padded length. *)
Lemma extended_length d : 0 < length d →
  length d <= length (extended d) ∧ length (extended d) <= padded_len d ∧ padded_len d < 2 * length (extended d) ∧ Nat.divide aligned (padded_len d).
Proof using tp_pos cp_pos.
  intros Hd. pose proof (align_pos tp_size cp_size tp_pos cp_pos) as Ha. pose proof (pad_to_spec aligned (length d) Ha) as [H1 H2].
  assert (H3 : padded_len d < length d + aligned) by (unfold pad_to; pose proof (Nat.mod_upper_bound (aligned - length d mod aligned) aligned); lia).
  assert (H4 : aligned <= padded_len d) by (apply Nat.divide_pos_le; [lia|done]).
  unfold extended. destruct (Nat.ltb_spec (length d * 1) aligned); rewrite ?length_app, ?length_replicate; split_and!; try done; lia.
Qed.

(** The positions of a block, and what its roll has to save. *)
Definition pos_block (r : nat) (d : list A) : list nat :=
  let p := padded_len d in
  if Nat.leb cp_size 1 then seq 0 (length d) ++ replicate (p - length d) 0
  else
    let h := half_of cp_size p in
    let valid := ((p - h * r) `min` length (extended d)) `min` length d - (p - h * (r + 1)) in
    seq (h * r) h ++ seq (p - h * (r + 1)) valid ++ replicate (h - valid) 0.
Definition saved (need_roll : bool) (r : nat) (d : list A) (start : nat) : list (nat * A) :=
  let p := padded_len d in
  let h := half_of cp_size p in
  let remain_end := (p - h * r) `min` length (extended d) in
  let remain_len := remain_end - (p - h * (r + 1)) in
  if need_roll && Nat.ltb 1 cp_size then
    (start / cp_size + h - 1, nth ((r + 1) * h) d zero) ::
    (if Nat.ltb 0 remain_len
     then [(start / cp_size + h + remain_len - 1, if Nat.eqb remain_end (length (extended d)) then nth 0 d zero else nth remain_end d zero)] else [])
  else [].

Lemma item_extended d i : i < length (extended d) → item (extended d) i = Ok (nth i d zero).
Proof using Type.
  clear tp_pos cp_pos. intros H. unfold item. rewrite <-nth_extended. destruct (lookup_lt_is_Some_2 _ _ H) as [x Hx]. rewrite Hx. cbn. by rewrite (nth_lookup_Some _ _ _ x Hx).
Qed.

Lemma save_rolled_Ok r d start ids pos sv sp : 1 < cp_size → r < cp_size → 0 < length d →
  let p := padded_len d in
  let h := half_of cp_size p in
  let remain_end := (p - h * r) `min` length (extended d) in
  let remain_len := remain_end - (p - h * (r + 1)) in
  start / cp_size + p / cp_size <= length ids → length pos = length ids →
  ∃ sp', save_rolled r (extended d) h (start / cp_size) remain_len remain_end {| t_ids := ids; t_pos := pos; t_saved := sv; t_saved_pos := sp |} =
    Ok {| t_ids := ids; t_pos := pos; t_saved := sv ++ saved true r d start; t_saved_pos := sp ++ sp' |} ∧
    Forall (λ kv, kv.1 < start / cp_size + p / cp_size) sp'.
Proof using tp_pos cp_pos.
  intros Hcp Hr Hd p h remain_end remain_len Hids Hpos. destruct (extended_length d Hd) as (L1 & L2 & L3 & Hdiv). fold p in L2, L3, Hdiv.
  destruct (half_spec tp_size cp_size tp_pos cp_pos p Hdiv Hcp) as [E1 E2]. fold h in E1, E2. assert (Hh : 0 < h) by nia.
  unfold save_rolled, before. cbn [t_ids t_pos t_saved t_saved_pos]. destruct (Nat.eqb_spec (start / cp_size + h) 0); [lia|].
  assert (Hrh : (r + 1) * h <= cp_size * h) by (apply Nat.mul_le_mono_r; lia).
  rewrite (item_extended d ((r + 1) * h)) by lia. cbn [mbind result_bind].
  assert (Hitem : ∀ k, k < start / cp_size + p / cp_size → item pos k = Ok (nth k pos 0)).
  { intros k Hk. unfold item. destruct (lookup_lt_is_Some_2 pos k ltac:(lia)) as [x Hx]. rewrite Hx, (nth_lookup_Some _ _ _ _ Hx). done. }
  assert (Hn : remain_len <= h) by (unfold remain_len, remain_end; nia).
  rewrite (Hitem (start / cp_size + h - 1)) by lia. cbn [mbind result_bind]. unfold saved. fold p h remain_end remain_len. destruct (Nat.ltb_spec 1 cp_size); [|lia]. cbn [andb].
  destruct (Nat.ltb_spec 0 remain_len) as [H0|H0].
  - destruct (Nat.eqb_spec remain_end (length (extended d))) as [E|E].
    + rewrite (item_extended d 0) by lia. cbn [mbind result_bind]. rewrite <-!app_assoc. eexists. split; [reflexivity|]. cbn [app].
      repeat constructor; cbn [fst]; lia.
    + rewrite (item_extended d remain_end) by (unfold remain_end in *; lia). cbn [mbind result_bind].
      rewrite (Hitem (start / cp_size + h + remain_len - 1)) by lia. cbn [mbind result_bind]. rewrite <-!app_assoc. eexists. split; [reflexivity|]. cbn [app]. repeat constructor; cbn [fst]; lia.
  - eexists. split; [reflexivity|]. repeat constructor; cbn [fst]; lia.
Qed.

(** One sequence in the buffers of a rank. *)
Lemma thd_row_block r need_roll d start pre post pre' post' sv sp : 0 < length d → r < cp_size →
  let p := padded_len d in
  length pre = start / cp_size → length pre' = start / cp_size → length post' = length post →
  ∃ sp', thd_row tp_size cp_size false zero true 1 r need_roll d p start
    {| t_ids := pre ++ replicate (p / cp_size) zero ++ post; t_pos := pre' ++ replicate (p / cp_size) 0 ++ post'; t_saved := sv; t_saved_pos := sp |} =
    Ok {| t_ids := pre ++ block cp_size zero r d p ++ post; t_pos := pre' ++ pos_block r d ++ post'; t_saved := sv ++ saved need_roll r d start; t_saved_pos := sp ++ sp' |} ∧
    Forall (λ kv, kv.1 < start / cp_size + p / cp_size) sp'.
Proof using tp_pos cp_pos.
  intros Hd Hr p Hpre Hpre' Hpost. destruct (extended_length d Hd) as (L1 & L2 & L3 & Hdiv). fold p in L2, L3, Hdiv.
  unfold thd_row, pos_block, saved. fold p. cbn [t_ids t_pos t_saved t_saved_pos]. destruct (Nat.leb_spec cp_size 1) as [H1|H1].
  - assert (E : cp_size = 1) by lia. destruct (Nat.ltb_spec 1 cp_size); [lia|]. rewrite andb_false_r, app_nil_r.
    pose proof (pack_row_block tp_size cp_size tp_pos cp_pos zero r d p start pre post Hdiv ltac:(lia) Hr Hpre) as Hids.
    unfold pack_row in Hids. rewrite (proj2 (Nat.leb_le cp_size 1)) in Hids by lia. rewrite Hids. cbn [mbind result_bind].
    rewrite E, Nat.div_1_r in Hpre' |- *.
    pose proof (write_front 0 start (length d) p (seq 0 (length d)) pre' post' ltac:(lia) (length_seq _ _) ltac:(lia)) as Hpos.
    rewrite (proj2 (Nat.ltb_lt 0 (length d)) Hd) in Hpos. rewrite Hpos. cbn [mbind result_bind]. rewrite <-!app_assoc.
    exists []. rewrite app_nil_r. split; [done|constructor].
  - destruct (half_spec tp_size cp_size tp_pos cp_pos p Hdiv H1) as [E1 E2]. fold (half_of cp_size p). set (h := half_of cp_size p) in *.
    rewrite extend_short_Ok. cbn [mbind result_bind]. rewrite E2.
    assert (Hrh : (r + 1) * h <= cp_size * h) by (apply Nat.mul_le_mono_r; lia).
    set (remain_end := (p - h * r) `min` length (extended d)). set (remain_len := remain_end - (p - h * (r + 1))).
    assert (Hn : remain_len <= h) by (unfold remain_len, remain_end; nia).
    replace (2 * h) with (h + h) by lia. rewrite !replicate_add, <-!app_assoc.
    rewrite (write_mid pre (replicate h zero)) by (rewrite ?length_slice, ?length_replicate; nia). cbn [mbind result_bind].
    rewrite (write_mid pre' (replicate h 0)) by (rewrite ?length_seq, ?length_replicate; lia). cbn [mbind result_bind].
    rewrite (app_assoc pre), (write_front zero (start / cp_size + h) remain_len h) by (rewrite ?length_app, ?length_slice; nia). cbn [mbind result_bind].
    set (valid := (remain_end `min` length d) - (p - h * (r + 1))).
    replace (Nat.ltb 0 remain_len && Nat.ltb 0 valid) with (Nat.ltb 0 valid)
      by (destruct (Nat.ltb_spec 0 remain_len), (Nat.ltb_spec 0 valid); try done; exfalso; unfold remain_len, valid in *; lia).
    rewrite (app_assoc pre'), (write_front 0 (start / cp_size + h) valid h) by (rewrite ?length_app, ?length_seq; unfold valid; lia). cbn [mbind result_bind].
    assert (Hids : (pre ++ slice (h * r) (h * (r + 1)) (extended d)) ++ slice (p - h * (r + 1)) remain_end (extended d) ++ replicate (h - remain_len) zero ++ post =
      pre ++ block cp_size zero r d p ++ post).
    { rewrite <-block_extended, (block_halves tp_size cp_size tp_pos cp_pos zero r _ p H1 Hdiv). fold h. rewrite !range_slice.
      replace (h * r + h) with (h * (r + 1)) by lia. rewrite (Nat.min_l (h * (r + 1))) by lia. replace (h - (h * (r + 1) - h * r)) with 0 by lia.
      replace (p - h * (r + 1) + h) with (p - h * r) by nia. fold remain_end. fold remain_len. cbn [replicate]. by rewrite app_nil_r, <-!app_assoc. }
    rewrite Hids, <-!app_assoc. destruct need_roll.
    + match goal with |- context [save_rolled _ _ _ _ _ _ {| t_ids := ?i; t_pos := ?q |}] =>
        destruct (save_rolled_Ok r d start i q sv sp H1 Hr Hd) as (sp' & Hsave & Hsp) end.
      * rewrite !length_app, length_block. fold p. lia.
      * rewrite !length_app, length_block, length_seq, length_replicate, length_seq. fold p. rewrite E2. unfold valid. nia.
      * fold p h remain_end remain_len in Hsave, Hsp. exists sp'. rewrite Hsave. split; [done|]. eapply Forall_impl; [exact Hsp|]. intros kv Hkv. cbn beta in Hkv |- *. lia.
    + exists []. rewrite !app_nil_r. split; [done|constructor].
Qed.

(** *** All sequences *)

Fixpoint saved_all (need_roll : bool) (r : nat) (rows : list (list A)) (start : nat) : list (nat * A) :=
  match rows with
  | [] => []
  | d :: rows => saved need_roll r d start ++ saved_all need_roll r rows (start + padded_len d)
  end.
Notation padded_all rows := ((λ d : list A, padded_len d) <$> rows).
Notation blocks r rows := (concat (zip_with (block cp_size zero r) rows (padded_all rows))).
Notation pos_blocks r rows := (concat (pos_block r <$> rows)).

Lemma padded_divide (d : list A) : Nat.divide aligned (padded_len d).
Proof using tp_pos cp_pos. apply (pad_to_spec aligned (length d)). by apply align_pos. Qed.
Lemma padded_all_aligned rows : Forall (Nat.divide aligned) (padded_all rows).
Proof using tp_pos cp_pos. apply Forall_fmap, Forall_true. intros d. apply padded_divide. Qed.

Lemma length_pos_block r d : r < cp_size → length (pos_block r d) = padded_len d / cp_size.
Proof using tp_pos cp_pos.
  intros Hr. unfold pos_block. pose proof (padded_divide d) as Hdiv. pose proof (pad_to_spec aligned (length d) ltac:(by apply align_pos)) as [Hle _].
  set (p := padded_len d) in *. destruct (Nat.leb_spec cp_size 1) as [H1|H1].
  - replace cp_size with 1 by lia. rewrite Nat.div_1_r, length_app, length_seq, length_replicate. lia.
  - destruct (half_spec tp_size cp_size tp_pos cp_pos _ Hdiv H1) as [E1 E2]. rewrite E2, !length_app, !length_seq, length_replicate.
    set (h := half_of cp_size p) in *.
    assert ((r + 1) * h <= cp_size * h) by (apply Nat.mul_le_mono_r; lia).
    assert (p - h * r - (p - h * (r + 1)) <= h) by nia. lia.
Qed.

Lemma fold_thd r need_roll rows acc pre pre' sv sp : r < cp_size → Forall (λ d, 0 < length d) rows →
  length pre = acc / cp_size → length pre' = acc / cp_size →
  ∃ sp', foldM (λ b x, thd_row tp_size cp_size false zero true 1 r need_roll x.1 x.2.1 x.2.2 b)
    {| t_ids := pre ++ replicate (nsum (padded_all rows) / cp_size) zero; t_pos := pre' ++ replicate (nsum (padded_all rows) / cp_size) 0; t_saved := sv; t_saved_pos := sp |}
    (zip rows (zip (padded_all rows) (acc :: offsets_from acc (padded_all rows)))) =
    Ok {| t_ids := pre ++ blocks r rows; t_pos := pre' ++ pos_blocks r rows; t_saved := sv ++ saved_all need_roll r rows acc; t_saved_pos := sp ++ sp' |} ∧
    Forall (λ kv, kv.1 < (acc + nsum (padded_all rows)) / cp_size) sp'.
Proof using tp_pos cp_pos.
  intros Hr Hall. revert acc pre pre' sv sp. induction Hall as [|d rows Hd Hall IH]; intros acc pre pre' sv sp Hpre Hpre'.
  - exists []. cbn. by rewrite Nat.Div0.div_0_l, !app_nil_r.
  - rewrite !fmap_cons. pose proof (padded_divide d) as Hdiv. rewrite (nsum_chunks tp_size cp_size tp_pos cp_pos _ (padded_all_aligned rows) _ Hdiv), !replicate_add.
    cbn [foldM offsets_from zip zip_with fst snd concat saved_all].
    destruct (thd_row_block r need_roll d acc pre (replicate (nsum (padded_all rows) / cp_size) zero) pre' (replicate (nsum (padded_all rows) / cp_size) 0) sv sp Hd Hr Hpre Hpre')
      as (sp1 & Hrow & Hsp1); [by rewrite !length_replicate|].
    rewrite Hrow. cbn [mbind result_bind]. rewrite !app_assoc.
    pose proof (div_add_aligned tp_size cp_size tp_pos cp_pos acc _ Hdiv) as Hacc.
    destruct (IH (acc + padded_len d) (pre ++ block cp_size zero r d (padded_len d)) (pre' ++ pos_block r d) (sv ++ saved need_roll r d acc) (sp ++ sp1)) as (sp2 & Hfold & Hsp2).
    { rewrite length_app, length_block. lia. }
    { rewrite length_app, length_pos_block by done. lia. }
    exists (sp1 ++ sp2). split.
    + etransitivity; [exact Hfold|]. f_equal. f_equal; by rewrite <-?app_assoc.
    + change (nsum (?x :: ?l)) with (x + nsum l). rewrite Nat.add_assoc. apply Forall_app. split; [|exact Hsp2].
      eapply Forall_impl; [exact Hsp1|]. intros kv Hkv. cbn beta in Hkv |- *. rewrite <-Hacc in Hkv.
      eapply Nat.lt_le_trans; [exact Hkv|]. apply Nat.Div0.div_le_mono. lia.
Qed.

(** *** The roll: every slot gets the next token of its sequence *)

Lemma place_all {B} (kvs : list (nat * B)) buf : Forall (λ kv, kv.1 < length buf) kvs →
  ∃ buf', foldM place buf kvs = Ok buf' ∧ length buf' = length buf ∧
    ∀ k v, k < length buf → (∀ kv, kv ∈ kvs → kv.1 = k → kv.2 = v) → ((∀ kv, kv ∈ kvs → kv.1 ≠ k) → buf !! k = Some v) → buf' !! k = Some v.
Proof using Type.
  clear tp_pos cp_pos. revert buf. induction kvs as [|[k0 v0] kvs IH]; intros buf Hall.
  - exists buf. split_and!; [done..|]. intros k v _ _ H. apply H. by intros kv Hkv%elem_of_nil.
  - apply Forall_cons in Hall as [H0 Hall]. cbn [fst] in H0. destruct (IH (<[k0:=v0]> buf)) as (buf' & Hf & Hl & Hv); [by rewrite length_insert|].
    rewrite length_insert in Hl, Hv. exists buf'. split_and!; [|done|].
    { cbn [foldM]. unfold place at 2. cbn [fst snd]. by rewrite (proj2 (Nat.ltb_lt _ _) H0). }
    intros k v Hk Hsame Hother. apply Hv; [done| |].
    + intros kv Hkv. apply Hsame. by apply elem_of_cons; right.
    + intros Hno. destruct (decide (k0 = k)) as [->|Hne].
      * rewrite list_lookup_insert_eq by done. f_equal. apply (Hsame (k, v0)); [by apply elem_of_cons; left|done].
      * rewrite list_lookup_insert_ne by done. apply Hother. intros kv [->|Hkv]%elem_of_cons; [done|by apply Hno].
Qed.
Lemma roll_back_lookup {B} (buf : list B) k : S k < length buf → roll_back buf !! k = buf !! S k.
Proof using Type. clear tp_pos cp_pos. intros H. unfold roll_back. rewrite lookup_app_l by (rewrite length_drop; lia). by rewrite lookup_drop. Qed.
Lemma length_roll_back {B} (buf : list B) : length (roll_back buf) = length buf.
Proof using Type. clear tp_pos cp_pos. unfold roll_back. rewrite length_app, length_drop, length_take. lia. Qed.

Lemma elem_saved_all need_roll r rows acc kv :
  kv ∈ saved_all need_roll r rows acc ↔ ∃ i d, rows !! i = Some d ∧ kv ∈ saved need_roll r d (acc + nsum (take i (padded_all rows))).
Proof using Type.
  clear tp_pos cp_pos. revert acc. induction rows as [|d rows IH]; intros acc; cbn [saved_all].
  - split; [by intros ?%elem_of_nil|]. intros (i & d & H & _). by rewrite lookup_nil in H.
  - rewrite elem_of_app, IH. split.
    + intros [H|(i & d' & Hd & H)]; [exists 0, d; cbn; by rewrite Nat.add_0_r|]. exists (S i), d'. split; [done|].
      rewrite fmap_cons. cbn [take]. change (nsum (?x :: ?l)) with (x + nsum l). by rewrite Nat.add_assoc.
    + intros ([|i] & d' & Hd & H); [injection Hd as <-; left; cbn in H; by rewrite Nat.add_0_r in H|]. right. exists i, d'. split; [done|].
      rewrite fmap_cons in H. cbn [take] in H. change (nsum (?x :: ?l)) with (x + nsum l) in H. by rewrite Nat.add_assoc in H.
Qed.
Lemma offsets_apart padded i j p : Forall (Nat.divide aligned) padded → j < i → padded !! j = Some p →
  nsum (take j padded) / cp_size + p / cp_size <= nsum (take i padded) / cp_size.
Proof using tp_pos cp_pos.
  intros Hal Hij Hp. rewrite Forall_lookup in Hal. rewrite <-(div_add_aligned tp_size cp_size tp_pos cp_pos _ p (Hal j p Hp)). apply Nat.Div0.div_le_mono.
  assert (Hp' : take i padded !! j = Some p) by (by rewrite lookup_take_lt).
  pose proof (nsum_take_le (take i padded) j p Hp') as H. rewrite take_take, Nat.min_l in H by lia. done.
Qed.

Lemma saved_keys r d start kv : 0 < length d → r < cp_size → kv ∈ saved true r d start →
  start / cp_size <= kv.1 < start / cp_size + padded_len d / cp_size.
Proof using tp_pos cp_pos.
  intros Hd Hr Hkv. destruct (extended_length d Hd) as (L1 & L2 & L3 & Hdiv). unfold saved in Hkv. set (p := padded_len d) in *.
  destruct (Nat.ltb_spec 1 cp_size) as [H1|H1]; [|by apply elem_of_nil in Hkv]. cbn [andb] in Hkv.
  destruct (half_spec tp_size cp_size tp_pos cp_pos p Hdiv H1) as [E1 E2]. set (h := half_of cp_size p) in *. assert (0 < h) by nia.
  assert ((r + 1) * h <= cp_size * h) by (apply Nat.mul_le_mono_r; lia). assert (p - h * r - (p - h * (r + 1)) = h) by nia.
  apply elem_of_cons in Hkv as [->|Hkv]; [cbn [fst]; lia|]. destruct (Nat.ltb_spec 0 ((p - h * r) `min` length (extended d) - (p - h * (r + 1)))); [|by apply elem_of_nil in Hkv].
  apply list_elem_of_singleton in Hkv as ->. cbn [fst]. lia.
Qed.

(** A slot is saved with the next token, or the next slot of its chunk holds it. *)
Lemma saved_or_next d start q : S q < length d →
  let p := padded_len d in
  let r := owner cp_size p q in
  let k := start / cp_size + slot cp_size p q in
  (∀ kv, kv ∈ saved true r d start → kv.1 = k → kv.2 = nth (S q) d zero) ∧
  ((∀ kv, kv ∈ saved true r d start → kv.1 ≠ k) → S (slot cp_size p q) < p / cp_size ∧ global cp_size r p (S (slot cp_size p q)) = S q).
Proof using tp_pos cp_pos.
  intros Hq p r k. destruct (extended_length d ltac:(lia)) as (L1 & L2 & L3 & Hdiv). fold p in L2, L3, Hdiv.
  unfold r, k, saved, global, owner, slot. fold p. destruct (Nat.leb_spec cp_size 1) as [H1|H1].
  { destruct (Nat.ltb_spec 1 cp_size); [lia|]. cbn [andb]. split; [by intros kv Hkv%elem_of_nil|]. intros _. replace cp_size with 1 by lia. rewrite Nat.div_1_r. lia. }
  destruct (Nat.ltb_spec 1 cp_size); [|lia]. cbn [andb]. destruct (half_spec tp_size cp_size tp_pos cp_pos p Hdiv H1) as [E1 E2].
  set (h := half_of cp_size p) in *. assert (Hh : 0 < h) by nia. rewrite E2.
  pose proof (Nat.mod_upper_bound q h ltac:(lia)) as Hm. pose proof (Nat.div_mod_eq q h) as Hdm. set (a := q / h) in *. set (m := q mod h) in *.
  assert (Ha : a < 2 * cp_size) by nia. destruct (Nat.ltb_spec a cp_size) as [H2|H2].
  - assert ((a + 1) * h <= cp_size * h) by (apply Nat.mul_le_mono_r; lia). split.
    + intros kv [->|Hkv]%elem_of_cons Hk; cbn [fst snd] in *; [f_equal; lia|]. destruct (Nat.ltb_spec 0 ((p - h * a) `min` length (extended d) - (p - h * (a + 1)))); [|by apply elem_of_nil in Hkv].
      apply list_elem_of_singleton in Hkv as ->. cbn [fst] in Hk. lia.
    + intros Hno. pose proof (Hno _ (list_elem_of_here _ _)) as Hk0. cbn [fst] in Hk0. destruct (Nat.ltb_spec (S m) h); lia.
  - replace (2 * cp_size - 1 - a + 1) with (2 * cp_size - a) by lia. assert (Es : p - h * (2 * cp_size - a) = h * a) by (rewrite E1, Nat.mul_sub_distr_l; nia).
    assert (Ee : p - h * (2 * cp_size - 1 - a) = h * a + h) by (rewrite E1, !Nat.mul_sub_distr_l; nia). rewrite Es, Ee.
    set (remain_end := (h * a + h) `min` length (extended d)). assert (Hlen : S q < length (extended d)) by lia.
    destruct (Nat.ltb_spec 0 (remain_end - h * a)) as [H3|H3]; [|unfold remain_end in H3; lia]. split.
    + intros kv [->|Hkv]%elem_of_cons Hk; cbn [fst snd] in *; [lia|]. apply list_elem_of_singleton in Hkv as ->. cbn [fst snd] in *.
      assert (Hre : remain_end = S q) by lia. rewrite Hre. by destruct (Nat.eqb_spec (S q) (length (extended d))); [lia|].
    + intros Hno. pose proof (Hno _ (list_elem_of_further _ _ _ (list_elem_of_here _ _))) as H4. cbn [fst] in H4.
      assert (S m < h) by (unfold remain_end in *; lia). destruct (Nat.ltb_spec (S (h + m)) h); lia.
Qed.

Lemma nth_pos_block d q : q < length d → nth (slot cp_size (padded_len d) q) (pos_block (owner cp_size (padded_len d) q) d) 0 = q.
Proof using tp_pos cp_pos.
  intros Hq. destruct (extended_length d ltac:(lia)) as (L1 & L2 & L3 & Hdiv). unfold pos_block, slot, owner. set (p := padded_len d) in *.
  destruct (Nat.leb_spec cp_size 1) as [H1|H1]; [by rewrite app_nth1, seq_nth by (rewrite ?length_seq; lia)|].
  destruct (half_spec tp_size cp_size tp_pos cp_pos p Hdiv H1) as [E1 E2]. set (h := half_of cp_size p) in *. assert (Hh : 0 < h) by nia.
  pose proof (Nat.mod_upper_bound q h ltac:(lia)) as Hm. pose proof (Nat.div_mod_eq q h) as Hdm. set (a := q / h) in *. set (m := q mod h) in *.
  assert (Ha : a < 2 * cp_size) by nia. destruct (Nat.ltb_spec a cp_size) as [H2|H2].
  - rewrite app_nth1, seq_nth by (rewrite ?length_seq; lia). lia.
  - replace (2 * cp_size - 1 - a + 1) with (2 * cp_size - a) by lia. assert (Es : p - h * (2 * cp_size - a) = h * a) by (rewrite E1, Nat.mul_sub_distr_l; nia).
    assert (Ee : p - h * (2 * cp_size - 1 - a) = h * a + h) by (rewrite E1, !Nat.mul_sub_distr_l; nia). rewrite Es, Ee.
    rewrite app_nth2 by (rewrite length_seq; lia). rewrite length_seq. replace (h + m - h) with m by lia.
    rewrite app_nth1, seq_nth by (rewrite ?length_seq; lia). lia.
Qed.

Section rank.
Context (r : nat) (rows : list (list A)).
Hypothesis rank_lt : r < cp_size.
Hypothesis rows_full : Forall (λ d, 0 < length d) rows.
Notation packed_len := (nsum (padded_all rows) / cp_size).
Notation start_of i := (nsum (take i (padded_all rows)) / cp_size).

Lemma blocks_length : length (blocks r rows) = packed_len.
Proof using tp_pos cp_pos.
  apply (length_concat_blocks tp_size); [done..|apply padded_all_aligned|]. apply blocks_sized; [apply length_block|by rewrite length_fmap].
Qed.
Lemma pos_blocks_sized : Forall2 (λ b p, length b = p / cp_size) (pos_block r <$> rows) (padded_all rows).
Proof using tp_pos cp_pos rank_lt. apply Forall2_fmap, Forall_Forall2_diag, Forall_true. intros d. by apply length_pos_block. Qed.
Lemma pos_blocks_length : length (pos_blocks r rows) = packed_len.
Proof using tp_pos cp_pos rank_lt. apply (length_concat_blocks tp_size); [done..|apply padded_all_aligned|apply pos_blocks_sized]. Qed.

(** The roll of the buffer with what was saved. *)
Lemma rolled_blocks : ∃ buf, foldM place (roll_back (blocks r rows)) (saved_all true r rows 0) = Ok buf ∧ length buf = packed_len ∧
  ∀ i d q, rows !! i = Some d → owner cp_size (padded_len d) q = r → S q < length d →
    nth (start_of i + slot cp_size (padded_len d) q) buf zero = nth (S q) d zero.
Proof using All.
  assert (Hrow : ∀ i d, rows !! i = Some d → 0 < length d ∧ padded_all rows !! i = Some (padded_len d) ∧ start_of i + padded_len d / cp_size <= packed_len).
  { intros i d Hd. pose proof rows_full as Hf. rewrite Forall_lookup in Hf. assert (Hp : padded_all rows !! i = Some (padded_len d)) by (by rewrite list_lookup_fmap, Hd).
    split_and!; [by apply (Hf i)|done|]. pose proof (nsum_take_le _ _ _ Hp) as Hle. rewrite <-(div_add_aligned tp_size cp_size tp_pos cp_pos _ _ (padded_divide d)). by apply Nat.Div0.div_le_mono. }
  destruct (place_all (saved_all true r rows 0) (roll_back (blocks r rows))) as (buf & Hbuf & Hlen & Hval).
  { apply Forall_forall. intros kv (i & d & Hd & Hkv)%elem_saved_all. destruct (Hrow i d Hd) as (H0 & _ & Hle).
    pose proof (saved_keys r d _ kv H0 rank_lt Hkv) as Hk. rewrite length_roll_back, blocks_length. rewrite Nat.add_0_l in Hk. lia. }
  rewrite length_roll_back, blocks_length in Hlen, Hval. exists buf. split_and!; [done..|]. intros i d q Hd Hr Hq.
  destruct (Hrow i d Hd) as (H0 & Hp & Hle). destruct (global_owner tp_size cp_size tp_pos cp_pos (padded_len d) q (padded_divide d)) as (_ & _ & Hslot).
  { destruct (extended_length d H0) as (? & ? & _). lia. }
  destruct (saved_or_next d (nsum (take i (padded_all rows))) q Hq) as [Hsaved Hnext]. rewrite Hr in Hsaved, Hnext.
  apply nth_lookup_Some, Hval; [lia| |].
  - intros kv (j & d' & Hd' & Hkv)%elem_saved_all Hk. destruct (Hrow j d' Hd') as (H0' & Hp' & _). rewrite Nat.add_0_l in Hkv.
    pose proof (saved_keys r d' _ kv H0' rank_lt Hkv) as Hb. destruct (Nat.lt_trichotomy i j) as [Hij|[->|Hij]].
    + pose proof (offsets_apart _ j i _ (padded_all_aligned rows) Hij Hp). lia.
    + rewrite Hd in Hd'. injection Hd' as <-. by apply Hsaved.
    + pose proof (offsets_apart _ i j _ (padded_all_aligned rows) Hij Hp'). lia.
  - intros Hno. destruct Hnext as [Hroom Hglobal].
    { intros kv Hkv. apply Hno, elem_saved_all. by exists i, d. }
    rewrite roll_back_lookup by (rewrite blocks_length; lia). rewrite <-Nat.add_succ_r.
    destruct (packed_slot tp_size cp_size zero r rows (padded_all rows) i d (padded_len d) (S (slot cp_size (padded_len d) q)) zero tp_pos cp_pos) as [Hin Hnth];
      [apply padded_all_aligned|by rewrite length_fmap|done..|].
    rewrite Hglobal in Hnth. rewrite <-Hnth. destruct (lookup_lt_is_Some_2 _ _ Hin) as [x Hx]. by rewrite Hx, (nth_lookup_Some _ _ zero x Hx).
Qed.

Lemma thd_ids : rows ≠ [] →
  preprocess_thd_engine tp_size cp_size false zero true 1 r false rows = Ok (blocks r rows, pos_blocks r rows, cumulative (padded_all rows)).
Proof using All.
  intros Hne. unfold preprocess_thd_engine. replace (check_rows false rows) with (Ok tt) by (by destruct rows). cbn [mbind result_bind].
  unfold placed, empty_buffer, seqlens_padded, row_align. rewrite <-list_fmap_compose, length_replicate. change (pad_to aligned ∘ length) with (λ d : list A, padded_len d).
  destruct (fold_thd r false rows 0 [] [] [] [] rank_lt rows_full) as (sp & Hf & _); [by rewrite Nat.Div0.div_0_l..|].
  change (0 :: offsets_from 0 ?l) with (cumulative l) in Hf. cbn [app] in Hf. by rewrite Hf.
Qed.
Lemma thd_rolled : rows ≠ [] → ∃ ids pos,
  preprocess_thd_engine tp_size cp_size false zero true 1 r true rows = Ok (ids, pos, cumulative (padded_all rows)) ∧ length ids = packed_len ∧
  ∀ i d q, rows !! i = Some d → owner cp_size (padded_len d) q = r → S q < length d →
    nth (start_of i + slot cp_size (padded_len d) q) ids zero = nth (S q) d zero.
Proof using All.
  intros Hne. unfold preprocess_thd_engine. replace (check_rows false rows) with (Ok tt) by (by destruct rows). cbn [mbind result_bind].
  unfold placed, empty_buffer, seqlens_padded, row_align. rewrite <-list_fmap_compose, length_replicate. change (pad_to aligned ∘ length) with (λ d : list A, padded_len d).
  destruct (fold_thd r true rows 0 [] [] [] [] rank_lt rows_full) as (sp & Hf & Hsp); [by rewrite Nat.Div0.div_0_l..|].
  change (0 :: offsets_from 0 ?l) with (cumulative l) in Hf. cbn [app] in Hf. rewrite Hf. cbn [mbind result_bind t_ids t_pos t_saved t_saved_pos].
  destruct rolled_blocks as (ids & Hids & Hlen & Hval). rewrite Hids. cbn [mbind result_bind].
  destruct (place_all sp (roll_back (pos_blocks r rows))) as (pos & Hpos & _ & _).
  { rewrite length_roll_back, pos_blocks_length. eapply Forall_impl; [exact Hsp|]. intros kv Hkv. cbn beta in Hkv |- *. by rewrite Nat.add_0_l in Hkv. }
  rewrite Hpos. cbn [mbind result_bind]. by exists ids, pos.
Qed.
End rank.
End thd.

(** What a rank makes of position, token and label of its slots. *)
Definition per_slot {A L B} (f : nat → A → L → B) (pos : list nat) (ids : list A) (labels : list L) : list B :=
  zip_with (λ px y, f px.1 px.2 y) (zip pos ids) labels.
Lemma nth_per_slot {A L B} (f : nat → A → L → B) ids pos labels k za zl zb n : length ids = n → length pos = n → length labels = n → k < n →
  nth k (per_slot f pos ids labels) zb = f (nth k pos 0) (nth k ids za) (nth k labels zl).
Proof.
  intros Hi Hp Hl Hk. unfold per_slot. apply nth_lookup_Some, lookup_zip_with_Some.
  destruct (lookup_lt_is_Some_2 ids k) as [x Hx]; [lia|]. destruct (lookup_lt_is_Some_2 pos k) as [q Hq]; [lia|]. destruct (lookup_lt_is_Some_2 labels k) as [y Hy]; [lia|].
  exists (q, x), y. rewrite (nth_lookup_Some _ _ _ _ Hx), (nth_lookup_Some _ _ _ _ Hq), (nth_lookup_Some _ _ _ _ Hy). split_and!; [done| |done].
  apply lookup_zip_with_Some. by exists q, x.
Qed.
Notation on_rank f := (λ i l, per_slot f i.1.2 i.1.1 l.1.1).

Section pairs.
Context {A L B : Type} (tp_size cp_size : nat) (zero : A) (zero_label : L) (junk : B) (f : nat → A → L → B) (input_ids : list (list A)) (labels : list (list L)).
Hypothesis tp_pos : 0 < tp_size.
Hypothesis cp_pos : 0 < cp_size.
Hypothesis input_nonempty : input_ids ≠ [].
Hypothesis input_full : Forall (λ d, 0 < length d) input_ids.
Hypothesis same_lengths : length <$> labels = length <$> input_ids.
Notation aligned := (align_size tp_size cp_size).
Definition padded_lens : list nat := (λ n, pad_to aligned n) <$> (length <$> input_ids).
Definition rank_ins : list (list A * list nat * list nat) :=
  (λ r, (concat (zip_with (block cp_size zero r) input_ids padded_lens), concat (pos_block tp_size cp_size zero r <$> input_ids), cumulative padded_lens)) <$> seq 0 cp_size.

Lemma padded_lens_input : (λ d : list A, pad_to aligned (length d)) <$> input_ids = padded_lens.
Proof using Type. unfold padded_lens. by rewrite <-list_fmap_compose. Qed.
Lemma padded_lens_labels : (λ d : list L, pad_to aligned (length d)) <$> labels = padded_lens.
Proof using same_lengths. unfold padded_lens. rewrite <-same_lengths. by rewrite <-list_fmap_compose. Qed.
Lemma padded_lens_aligned : Forall (Nat.divide aligned) padded_lens.
Proof using tp_pos cp_pos. rewrite <-padded_lens_input. by apply padded_all_aligned. Qed.
Lemma labels_full : labels ≠ [] ∧ Forall (λ d, 0 < length d) labels.
Proof using input_nonempty input_full same_lengths.
  split; [intros E; rewrite E in same_lengths; by destruct input_ids|].
  apply (Forall_fmap length (λ n, 0 < n)). rewrite same_lengths. by apply Forall_fmap.
Qed.

Definition rolled_on (r : nat) (b : list L * list nat * list nat) : Prop :=
  length b.1.1 = nsum padded_lens / cp_size ∧
  ∀ i d q, labels !! i = Some d → owner cp_size (pad_to aligned (length d)) q = r → S q < length d →
    nth (nsum (take i padded_lens) / cp_size + slot cp_size (pad_to aligned (length d)) q) b.1.1 zero_label = nth (S q) d zero_label.
Lemma rank_rolled : ∃ rolled, mapM (λ r, preprocess_thd_engine tp_size cp_size false zero_label true 1 r true labels) (seq 0 cp_size) = Ok rolled ∧
  Forall2 rolled_on (seq 0 cp_size) rolled.
Proof using tp_pos cp_pos input_nonempty input_full same_lengths.
  destruct labels_full as [Hne Hfull]. apply mapM_total. intros r Hr%elem_of_seq.
  destruct (thd_rolled tp_size cp_size tp_pos cp_pos zero_label r labels ltac:(lia) Hfull Hne) as (ids & pos & Hids & Hrest).
  rewrite padded_lens_labels in Hids, Hrest. by exists (ids, pos, cumulative padded_lens).
Qed.
Lemma rank_inputs : mapM (λ r, preprocess_thd_engine tp_size cp_size false zero true 1 r false input_ids) (seq 0 cp_size) = Ok rank_ins.
Proof using tp_pos cp_pos input_nonempty input_full.
  apply mapM_Ok_map. intros r Hr%elem_of_seq. rewrite <-padded_lens_input. apply thd_ids; [done..|lia|done|done].
Qed.
Lemma rank_sizes r : r < cp_size → length (concat (zip_with (block cp_size zero r) input_ids padded_lens)) = nsum padded_lens / cp_size ∧
  length (concat (pos_block tp_size cp_size zero r <$> input_ids)) = nsum padded_lens / cp_size.
Proof using tp_pos cp_pos. intros Hr. rewrite <-padded_lens_input. split; [by apply blocks_length|by apply pos_blocks_length]. Qed.

(** The output of token [q], where its rank has it. *)
Lemma output_entry rolled i q d l x y : Forall2 rolled_on (seq 0 cp_size) rolled →
  input_ids !! i = Some d → labels !! i = Some l → d !! q = Some x → l !! S q = Some y →
  entry cp_size junk (zip_with (on_rank f) rank_ins rolled) padded_lens i (pad_to aligned (length d)) q = f q x y.
Proof using tp_pos cp_pos input_nonempty input_full same_lengths.
  intros Hrolled Hd Hl Hx Hy. set (p := pad_to aligned (length d)). pose proof (align_pos tp_size cp_size tp_pos cp_pos) as Ha.
  pose proof (pad_to_spec aligned (length d) Ha) as [Hle Hdiv]. fold p in Hle, Hdiv. pose proof (lookup_lt_Some _ _ _ Hx) as Hq.
  assert (Hlen : length l = length d) by (pose proof (f_equal (.!! i) same_lengths) as E; rewrite !list_lookup_fmap, Hd, Hl in E; by injection E).
  pose proof (lookup_lt_Some _ _ _ Hy) as Hq1. rewrite Hlen in Hq1.
  destruct (global_owner tp_size cp_size tp_pos cp_pos p q Hdiv ltac:(lia)) as (Hg & Ho & Hs). set (r := owner cp_size p q) in *.
  destruct (Forall2_lookup_l _ _ _ r r Hrolled) as (b & Hb & Hsize & Hval); [by rewrite lookup_seq_lt|].
  assert (Hp : padded_lens !! i = Some p) by (rewrite <-padded_lens_input, list_lookup_fmap, Hd; done).
  destruct (rank_sizes r Ho) as [S1 S2]. destruct (packed_slot tp_size cp_size zero r input_ids padded_lens i d p (slot cp_size p q) zero tp_pos cp_pos padded_lens_aligned) as [Hin Hid];
    [unfold padded_lens; by rewrite !length_fmap|done..|].
  unfold entry. fold r. rewrite (nth_lookup_Some _ r [] (per_slot f (concat (pos_block tp_size cp_size zero r <$> input_ids))
    (concat (zip_with (block cp_size zero r) input_ids padded_lens)) b.1.1)).
  2:{ apply lookup_zip_with_Some. eexists (concat (zip_with (block cp_size zero r) input_ids padded_lens), concat (pos_block tp_size cp_size zero r <$> input_ids), cumulative padded_lens), b. split_and!; [done| |done]. unfold rank_ins. rewrite list_lookup_fmap, lookup_seq_lt by done. done. }
  rewrite (nth_per_slot f _ _ b.1.1 (nsum (take i padded_lens) / cp_size + slot cp_size p q) zero zero_label junk _ S1 S2 Hsize) by lia.
  rewrite Hid, Hg, (nth_lookup_Some _ _ _ x Hx).
  assert (Hpos : nth (nsum (take i padded_lens) / cp_size + slot cp_size p q) (concat (pos_block tp_size cp_size zero r <$> input_ids)) 0 = q).
  { rewrite (concat_nth tp_size cp_size 0 (pos_block tp_size cp_size zero r <$> input_ids) padded_lens i (pos_block tp_size cp_size zero r d));
      [by apply nth_pos_block|done..|apply padded_lens_aligned| |by rewrite list_lookup_fmap, Hd|by rewrite length_pos_block].
    rewrite <-padded_lens_input. by apply pos_blocks_sized. }
  rewrite Hpos. f_equal. pose proof (Hval i l q Hl) as Hnext. rewrite Hlen in Hnext. unfold p, r. rewrite Hnext by (done || lia). by apply nth_lookup_Some.
Qed.
End pairs.

(** C35: The Megatron engine gives every token its own position and its successor as label.
    For any number of tensor- and context-parallel ranks, every rank packs its chunks of the
    sequences of a batch and, rolled by one, of their labels; what the ranks compute from
    position, token and rolled label of each slot is gathered and cut into sequences by
    [postprocess_thd_engine].  Entry [q] of a sequence then is the value at position [q], token
    [q] and label [q + 1], for every token that has a successor: also where the successor is in
    another chunk, on another rank, or behind it another sequence starts. *)
Theorem thd_engine_pairs_labels {A L B} tp_size cp_size (zero : A) (zero_label : L) (junk : B) (f : nat → A → L → B)
    (input_ids : list (list A)) (labels : list (list L)) :
  0 < tp_size → 0 < cp_size → input_ids ≠ [] → Forall (λ d, 0 < length d) input_ids → length <$> labels = length <$> input_ids →
  ∃ ins rolled cu_seqlens outputs,
    mapM (λ r, preprocess_thd_engine tp_size cp_size false zero true 1 r false input_ids) (seq 0 cp_size) = Ok ins ∧
    mapM (λ r, preprocess_thd_engine tp_size cp_size false zero_label true 1 r true labels) (seq 0 cp_size) = Ok rolled ∧
    Forall (λ b, b.2 = cu_seqlens) ins ∧
    unpack_rows cp_size junk (zip_with (on_rank f) ins rolled) cu_seqlens (length <$> input_ids) = Ok outputs ∧
    length <$> outputs = length <$> input_ids ∧
    ∀ i q d l x y, input_ids !! i = Some d → labels !! i = Some l → d !! q = Some x → l !! S q = Some y →
      (outputs !! i ≫= λ o, o !! q) = Some (f q x y).
Proof.
  intros Htp Hcp Hne Hfull Hlens. destruct (rank_rolled tp_size cp_size zero_label input_ids labels Htp Hcp Hne Hfull Hlens) as (rolled & Hr & Hrolled).
  set (padded := padded_lens tp_size cp_size input_ids). set (ins := rank_ins tp_size cp_size zero input_ids).
  assert (Hroom : Forall2 (λ n p, n <= p) (length <$> input_ids) padded).
  { apply Forall2_fmap_r, Forall_Forall2_diag, Forall_true. intros n. apply pad_to_spec. by apply align_pos. }
  assert (Hout : ∀ i d p, input_ids !! i = Some d → padded !! i = Some p → p = pad_to (align_size tp_size cp_size) (length d)).
  { intros i d p Hd Hp. unfold padded in Hp. rewrite <-padded_lens_input, list_lookup_fmap, Hd in Hp. by injection Hp. }
  exists ins, rolled, (cumulative padded). eexists. split_and!.
  - by apply rank_inputs.
  - exact Hr.
  - apply Forall_fmap, Forall_true. done.
  - apply (unpack_rows_whole tp_size cp_size Htp Hcp); [|by apply padded_lens_aligned| |exact Hroom].
    + rewrite length_zip_with, <-(Forall2_length _ _ _ Hrolled). unfold ins, rank_ins. rewrite length_fmap, length_seq. lia.
    + apply Forall_lookup. intros r o (b1 & b2 & -> & H1 & H2)%lookup_zip_with_Some. unfold ins, rank_ins in H1. rewrite list_lookup_fmap in H1.
      destruct (seq 0 cp_size !! r) as [r'|] eqn:Er; [|done]. injection H1 as <-. pose proof (Forall2_lookup_lr _ _ _ _ _ _ Hrolled Er H2) as [Hs _]. apply lookup_seq in Er as [-> Hlt].
      destruct (rank_sizes tp_size cp_size zero input_ids Htp Hcp r Hlt) as [S1 S2]. unfold per_slot. cbn [fst snd]. rewrite !length_zip_with. fold padded in Hs, S1, S2 |- *. rewrite !Nat.add_0_l. lia.
  - apply list_eq. intros i. rewrite list_lookup_fmap, list_lookup_imap, lookup_zip_with, !list_lookup_fmap.
    destruct (input_ids !! i) as [d|] eqn:Hd; [|done]. destruct (Forall2_lookup_l _ _ _ i (length d) Hroom) as (p & Hp & Hle); [by rewrite list_lookup_fmap, Hd|].
    cbn [fmap option_fmap option_map mbind option_bind]. rewrite Hp. cbn [fmap option_fmap option_map mbind option_bind fst snd]. rewrite length_take, length_whole. f_equal. lia.
  - intros i q d l x y Hd Hl Hx Hy. destruct (Forall2_lookup_l _ _ _ i (length d) Hroom) as (p & Hp & Hle); [by rewrite list_lookup_fmap, Hd|].
    rewrite list_lookup_imap, lookup_zip_with, list_lookup_fmap, Hd. cbn [fmap option_fmap option_map mbind option_bind]. rewrite Hp. cbn [fmap option_fmap option_map mbind option_bind fst snd].
    pose proof (lookup_lt_Some _ _ _ Hx). rewrite lookup_take_lt by done. unfold whole. rewrite list_lookup_fmap, lookup_seq_lt by lia. cbn [fmap option_fmap option_map]. f_equal.
    rewrite (Hout i d p Hd Hp). rewrite Nat.add_0_l. by apply (output_entry tp_size cp_size zero zero_label junk f input_ids labels Htp Hcp Hne Hfull Hlens rolled i q d l x y).
Qed.

(** ** [preprocess_bshd] and [postprocess_bshd] *)

Lemma select_self m : select m m = replicate (count m) true.
Proof. induction m as [|[] m IH]; [done|..]; rewrite select_cons, IH; done. Qed.
Lemma select_front {B} (k n : nat) (l l' : list B) : length l = k → length l' = n → select (replicate k true ++ replicate n false) (l ++ l') = l.
Proof.
  intros Hl Hl'. rewrite select_app by (by rewrite length_replicate). revert k Hl. induction l as [|x l IH]; intros k <-; cbn [length replicate].
  - clear -Hl'. revert n Hl'. induction l' as [|y l' IH]; intros n <-; [done|]. cbn [length replicate]. rewrite select_cons. exact (IH _ eq_refl).
  - rewrite select_cons. cbn [app]. f_equal. by apply IH.
Qed.

(** Moving the padding of a batch to the right and the outputs back: zeros at masked places. *)
Lemma bshd_roundtrip {A B} tp_size sequence_parallel (zero : A) (zero' : B) (f : A → B) (input_ids : tensor A) (attention_mask : tensor bool) (position_ids : tensor nat) :
  input_ids ≠ [] → shape input_ids = shape attention_mask → ∃ ids mask pos,
    preprocess_bshd tp_size 1 zero sequence_parallel input_ids attention_mask position_ids = Ok (ids, mask, pos) ∧
    postprocess_bshd zero' ((λ row : list A, f <$> row) <$> (ids : list (list A))) mask attention_mask = zip_with (zip_with (λ (m : bool) x, if m then f x else zero')) attention_mask input_ids.
Proof.
  intros Hne Hshape. unfold preprocess_bshd. rewrite Nat.eqb_refl. cbn [mbind result_bind].
  replace (negb (Nat.eqb (length attention_mask) 0)) with true.
  2:{ destruct attention_mask; [|done]. by destruct input_ids. }
  eexists _, _, _. split; [reflexivity|]. unfold postprocess_bshd. set (n := if sequence_parallel then _ else _). clearbody n.
  revert input_ids Hshape Hne. induction attention_mask as [|m ms IH]; intros [|d ds] Hshape Hne; [done..|]. unfold shape in Hshape. rewrite !fmap_cons in Hshape. injection Hshape as Hd Hshape.
  rewrite !fmap_cons. cbn [zip_with zip fmap list_fmap fst snd]. f_equal.
  - rewrite fmap_app, select_self, length_replicate, select_front by (rewrite ?length_fmap, ?length_replicate, ?select_length by done; done). by rewrite scatter_select.
  - destruct ds as [|d' ds]; [by destruct ms|]. by apply IH.
Qed.

(** ** [preprocess_bshd_engine] and [postprocess_bshd_engine] *)

Section bshd.
Context (tp_size cp_size : nat) (use_fp8_padding : bool).
Hypothesis tp_pos : 0 < tp_size.
Hypothesis cp_pos : 0 < cp_size.
Notation aligned := (align_size tp_size cp_size).

Lemma round_up_spec a n : 0 < a → n <= (n + a - 1) / a * a.
Proof using Type. clear tp_pos cp_pos. intros Ha. pose proof (Nat.div_mod_eq (n + a - 1) a) as E. pose proof (Nat.mod_upper_bound (n + a - 1) a ltac:(lia)). lia. Qed.
Lemma bshd_seqlen_spec lens : Forall (λ k, k <= bshd_seqlen tp_size cp_size use_fp8_padding lens) lens ∧ Nat.divide aligned (bshd_seqlen tp_size cp_size use_fp8_padding lens).
Proof using tp_pos cp_pos.
  pose proof (align_pos tp_size cp_size tp_pos cp_pos) as Ha. unfold bshd_seqlen. set (n := if Nat.ltb 1 aligned then pad_to aligned (max_list lens) else max_list lens).
  assert (Hn : max_list lens <= n ∧ Nat.divide aligned n).
  { unfold n. destruct (Nat.ltb_spec 1 aligned); [by apply pad_to_spec|]. split; [done|]. replace aligned with 1 by lia. apply Nat.divide_1_l. }
  assert (Hmax : ∀ m, max_list lens <= m → Forall (λ k, k <= m) lens).
  { intros m Hm. apply Forall_forall. intros k Hk. pose proof (max_list_elem_of_le k lens Hk). lia. }
  destruct Hn as [H1 H2]. destruct use_fp8_padding; [|by split; [apply Hmax|]].
  set (total := 128 * tp_size * cp_size). set (a := Nat.lcm (total / Nat.gcd (length lens) total) aligned).
  assert (Htot : 0 < total) by (unfold total; nia).
  assert (Hapos : 0 < a).
  { destruct (Nat.eq_dec a 0) as [E|]; [|lia]. apply Nat.lcm_eq_0 in E as [E|E]; [|lia]. destruct (Nat.gcd_divide_r (length lens) total) as [q Hq].
    set (g := Nat.gcd (length lens) total) in *. assert (g ≠ 0) by (intros E0; rewrite E0 in Hq; lia). rewrite Hq, Nat.div_mul in E by done. lia. }
  pose proof (round_up_spec a n Hapos). split; [apply Hmax; lia|]. eapply Nat.divide_trans; [|apply Nat.divide_factor_r]. apply Nat.divide_lcm_r.
Qed.

Context (n : nat).
Hypothesis n_aligned : Nat.divide aligned n.
Notation chunk := (n / (2 * cp_size)).

(** The positions of a rank's row. *)
Definition positions (r : nat) : list nat := if Nat.leb cp_size 1 then seq 0 n else seq (r * chunk) chunk ++ seq ((2 * cp_size - r - 1) * chunk) chunk.
Lemma chunk_spec : 1 < cp_size → n = 2 * cp_size * chunk.
Proof using tp_pos cp_pos n_aligned.
  intros H. destruct n_aligned as [q ->]. unfold align_size. destruct (Nat.ltb_spec 1 cp_size); [|lia].
  replace (q * (tp_size * cp_size * 2)) with (q * tp_size * (2 * cp_size)) by lia. rewrite Nat.div_mul; lia.
Qed.
Section row.
Context {A : Type} (zero : A) (d : list A).
Hypothesis d_fits : length d <= n.
Lemma nth_padded q : nth q (d ++ replicate (n - length d) zero) zero = nth q d zero.
Proof using Type.
  clear tp_pos cp_pos n_aligned d_fits. destruct (Nat.lt_ge_cases q (length d)); [by rewrite app_nth1|].
  rewrite app_nth2, (nth_overflow d) by done. rewrite nth_lookup. destruct (replicate _ _ !! _) as [x|] eqn:E; [|done].
  by apply lookup_replicate in E as [-> _].
Qed.
Lemma slice_full a b : b <= n → slice a b (d ++ replicate (n - length d) zero) = (λ p, nth p d zero) <$> seq a (b - a).
Proof using d_fits.
  clear tp_pos cp_pos n_aligned. intros Hb. rewrite (list_as_nth zero (d ++ replicate _ zero)) at 1. rewrite length_app, length_replicate.
  replace (length d + (n - length d)) with n by lia. unfold slice. rewrite <-fmap_drop, <-fmap_take, drop_seq, take_seq.
  replace ((b - a) `min` (n - a)) with (b - a) by lia. apply list_fmap_ext. intros ? p _. apply nth_padded.
Qed.
Lemma roll_full : roll_back (d ++ replicate (n - length d) zero) = (λ p, nth ((p + 1) mod n) d zero) <$> seq 0 n.
Proof using d_fits.
  clear tp_pos cp_pos n_aligned. set (full := d ++ replicate (n - length d) zero). assert (Hl : length full = n) by (unfold full; rewrite length_app, length_replicate; lia).
  apply list_eq. intros k. rewrite list_lookup_fmap. destruct (Nat.lt_ge_cases k n) as [Hk|Hk].
  - rewrite lookup_seq_lt by done. cbn [fmap option_fmap option_map]. rewrite Nat.add_0_l, <-nth_padded. fold full.
    assert (Hm : (k + 1) mod n < length full) by (rewrite Hl; apply Nat.mod_upper_bound; lia). destruct (lookup_lt_is_Some_2 _ _ Hm) as [x Hx].
    rewrite (nth_lookup_Some _ _ _ _ Hx), <-Hx. destruct (Nat.lt_ge_cases (S k) n) as [H1|H1].
    + rewrite roll_back_lookup by lia. by rewrite Nat.mod_small, Nat.add_1_r by lia.
    + replace (k + 1) with n by lia. rewrite Nat.Div0.mod_same. unfold roll_back. rewrite lookup_app_r by (rewrite length_drop; lia).
      rewrite length_drop. replace (k - (length full - 1)) with 0 by lia. by rewrite lookup_take_lt by lia.
  - rewrite lookup_seq_ge by done. apply lookup_ge_None. unfold roll_back. rewrite length_app, length_drop, length_take. lia.
Qed.
Lemma mask_chunk s c : (λ p, Nat.ltb p (length d)) <$> seq s c = replicate (Nat.min (length d - s) c) true ++ replicate (c - Nat.min (length d - s) c) false.
Proof using Type.
  clear. apply list_eq. intros k. rewrite list_lookup_fmap. destruct (Nat.lt_ge_cases k c) as [Hk|Hk].
  - rewrite lookup_seq_lt by done. cbn [fmap option_fmap option_map]. destruct (Nat.ltb_spec (s + k) (length d)).
    + rewrite lookup_app_l by (rewrite length_replicate; lia). by rewrite lookup_replicate_2 by lia.
    + rewrite lookup_app_r by (rewrite length_replicate; lia). by rewrite lookup_replicate_2 by (rewrite length_replicate; lia).
  - rewrite lookup_seq_ge by done. symmetry. apply lookup_ge_None. rewrite length_app, !length_replicate. lia.
Qed.

(** A rank's row: the tokens at its positions, or their successors, and what is not padding. *)
Lemma bshd_row_positions r need_roll : r < cp_size →
  bshd_row cp_size zero r need_roll n d =
  ((λ p, nth (if need_roll then (p + 1) mod n else p) d zero) <$> positions r, (λ p, Nat.ltb p (length d)) <$> positions r).
Proof using tp_pos cp_pos n_aligned d_fits.
  intros Hr. unfold bshd_row, positions. destruct (Nat.leb_spec cp_size 1) as [H|H].
  - rewrite mask_chunk, Nat.sub_0_r, (Nat.min_l (length d)) by done. f_equal. destruct need_roll; [apply roll_full|].
    pose proof (slice_full 0 n (le_n n)) as Hs. rewrite Nat.sub_0_r in Hs. rewrite <-Hs. unfold slice. rewrite drop_0. symmetry. apply take_ge. rewrite length_app, length_replicate. lia.
  - pose proof (chunk_spec H) as E. assert ((r + 1) * chunk <= cp_size * chunk) by (apply Nat.mul_le_mono_r; lia).
    assert ((2 * cp_size - r - 1 + 1) * chunk <= 2 * cp_size * chunk) by (apply Nat.mul_le_mono_r; lia).
    rewrite !fmap_app, !mask_chunk, <-!app_assoc. f_equal. destruct need_roll.
    + f_equal; apply list_fmap_ext; intros ? p _; apply nth_padded.
    + rewrite !slice_full by lia. f_equal; f_equal; f_equal; lia.
Qed.
End row.

(** Rows of all ranks, each with the values of one function, make the row of all values. *)
Lemma join_row_positions {C} (junk : C) (G : nat → C) : 1 < cp_size →
  join_row cp_size (n / cp_size) junk ((λ r, G <$> positions r) <$> seq 0 cp_size) = Ok (G <$> seq 0 n).
Proof using tp_pos cp_pos n_aligned.
  intros H. pose proof (chunk_spec H) as E. assert (El : n / cp_size = 2 * chunk).
  { set (c := chunk) in *. clearbody c. pose proof (Nat.div_mul (2 * c) cp_size ltac:(lia)) as Hd. rewrite <-Hd. f_equal. lia. }
  unfold join_row. rewrite El. rewrite (Nat.mul_comm 2 chunk), (Nat.div_mul chunk 2) by done. rewrite (Nat.mul_comm chunk 2).
  replace (2 * chunk * cp_size) with (2 * cp_size * chunk) by lia. set (c := chunk) in *.
  assert (Hslice : ∀ a, a + c <= n → slice a (a + c) (G <$> seq 0 n) = G <$> seq a c).
  { intros a Hac. unfold slice. rewrite <-fmap_drop, <-fmap_take, drop_seq, take_seq. do 2 f_equal. lia. }
  pose proof (join_fold cp_size c (G <$> seq 0 n) ltac:(rewrite length_fmap, length_seq; lia) (take c) (drop c)
    ((λ r, G <$> positions r) <$> seq 0 cp_size) 0 (replicate (2 * cp_size * c) junk)) as HJ.
  rewrite Nat.mul_0_l, Nat.sub_0_r, take_0, (drop_ge (G <$> seq 0 n)), app_nil_r in HJ by (rewrite length_fmap, length_seq; lia).
  rewrite app_nil_l in HJ. apply HJ; [by rewrite length_fmap, length_seq|rewrite length_replicate; lia|]. clear HJ.
  intros j o Ho. rewrite list_lookup_fmap in Ho. destruct (seq 0 cp_size !! j) as [j'|] eqn:Ej; [|done]. injection Ho as <-. apply lookup_seq in Ej as [-> Hj].
  rewrite !Nat.add_0_l. unfold positions. destruct (Nat.leb_spec cp_size 1); [lia|]. fold c. rewrite fmap_app.
  assert ((j + 1) * c <= cp_size * c) by (apply Nat.mul_le_mono_r; lia).
  rewrite take_app_length', drop_app_length' by (by rewrite length_fmap, length_seq).
  replace ((j + 1) * c) with (j * c + c) by lia. replace (2 * cp_size * c - (j * c + c)) with ((2 * cp_size - j - 1) * c) by nia.
  replace (2 * cp_size * c - j * c) with ((2 * cp_size - j - 1) * c + c) by nia.
  rewrite !Hslice by nia. done.
Qed.
End bshd.

(** The results of a rank, the function of every position, and the mask. *)
Section engine.
Context (tp_size cp_size : nat) (use_fp8_padding : bool).
Hypothesis tp_pos : 0 < tp_size.
Hypothesis cp_pos : 0 < cp_size.
Notation seqlen lens := (bshd_seqlen tp_size cp_size use_fp8_padding lens).

Lemma bshd_rank {A} (zero : A) (rows : list (list A)) r need_roll : rows ≠ [] → r < cp_size →
  let n := seqlen (length <$> rows) in
  preprocess_bshd_engine tp_size cp_size use_fp8_padding zero r need_roll rows =
  Ok ((λ d, (λ p, nth (if need_roll then (p + 1) mod n else p) d zero) <$> positions cp_size n r) <$> rows,
      (λ d, (λ p, Nat.ltb p (length d)) <$> positions cp_size n r) <$> rows, positions cp_size n r).
Proof using tp_pos cp_pos.
  intros Hne Hr n. unfold preprocess_bshd_engine. replace (negb (Nat.eqb (length rows) 0)) with true by (by destruct rows). fold n.
  destruct (bshd_seqlen_spec tp_size cp_size use_fp8_padding tp_pos cp_pos (length <$> rows)) as [Hfit Hdiv]. fold n in Hfit, Hdiv.
  rewrite Forall_fmap, Forall_forall in Hfit. f_equal.
  assert (Hrows : bshd_row cp_size zero r need_roll n <$> rows =
    (λ d, ((λ p, nth (if need_roll then (p + 1) mod n else p) d zero) <$> positions cp_size n r, (λ p, Nat.ltb p (length d)) <$> positions cp_size n r)) <$> rows).
  { apply list_fmap_ext. intros i d Hd. apply (bshd_row_positions tp_size); [done..| |done]. apply Hfit. by eapply list_elem_of_lookup_2. }
  rewrite Hrows, <-!list_fmap_compose. f_equal. unfold positions. destruct (Nat.leb_spec cp_size 1) as [|H1]; [done|].
  pose proof (chunk_spec tp_size cp_size tp_pos cp_pos n Hdiv H1) as E. set (c := n / (2 * cp_size)) in *. do 2 f_equal. nia.
Qed.

Lemma per_slot_fmap {A L B} (f : nat → A → L → B) g h l : per_slot f l (g <$> l) (h <$> l) = (λ p, f p (g p) (h p)) <$> l.
Proof using Type. unfold per_slot. induction l as [|p l IH]; [done|]. csimpl. by f_equal. Qed.

Lemma positions_length n r : Nat.divide (align_size tp_size cp_size) n → r < cp_size → length (positions cp_size n r) = n / cp_size.
Proof using tp_pos cp_pos.
  intros Hdiv Hr. unfold positions. destruct (Nat.leb_spec cp_size 1) as [|H1]; [rewrite length_seq; replace cp_size with 1 by lia; by rewrite Nat.div_1_r|].
  pose proof (chunk_spec tp_size cp_size tp_pos cp_pos n Hdiv H1) as E. rewrite length_app, !length_seq. set (c := n / (2 * cp_size)) in *. clearbody c.
  pose proof (Nat.div_mul (2 * c) cp_size ltac:(lia)) as Hd. replace (2 * c * cp_size) with n in Hd by lia. lia.
Qed.

(** Values of one function at the positions of all ranks, with the mask of one row. *)
Lemma unpad_positions {B} (junk : B) (G : nat → B) n len : Nat.divide (align_size tp_size cp_size) n → len <= n →
  unpad_bshd_row cp_size junk (n / cp_size) ((λ r, G <$> positions cp_size n r) <$> seq 0 cp_size) ((λ r, (λ p, Nat.ltb p len) <$> positions cp_size n r) <$> seq 0 cp_size) =
  Ok (G <$> seq 0 len).
Proof using tp_pos cp_pos.
  intros Hdiv Hlen. assert (Hsel : select ((λ p, Nat.ltb p len) <$> seq 0 n) (G <$> seq 0 n) = G <$> seq 0 len).
  { replace n with (len + (n - len)) by lia. rewrite seq_app, !fmap_app. rewrite select_app by (by rewrite !length_fmap).
    pose proof (mask_chunk (replicate len tt) 0 len) as H1. pose proof (mask_chunk (replicate len tt) (0 + len) (n - len)) as H2. rewrite length_replicate in H1, H2.
    rewrite Nat.sub_0_r, Nat.min_id, Nat.sub_diag in H1. replace (len - (0 + len)) with 0 in H2 by lia. rewrite Nat.min_0_l, Nat.sub_0_r in H2. cbn [replicate app] in H1, H2.
    pose proof (select_front len (n - len) (G <$> seq 0 len) (G <$> seq len (n - len))) as Hf. rewrite !length_fmap, !length_seq in Hf. rewrite select_app in Hf by (by rewrite length_fmap, length_seq, length_replicate).
    rewrite H1, H2, app_nil_r. apply Hf; done. }
  unfold unpad_bshd_row. destruct (Nat.leb_spec cp_size 1) as [H|H].
  - replace cp_size with 1 by lia. cbn [seq fmap list_fmap head default from_option id]. unfold positions. cbn [Nat.leb]. by rewrite Hsel.
  - replace (Nat.eqb _ 0) with true.
    2:{ symmetry. apply Nat.eqb_eq. pose proof (positions_length n 0 Hdiv ltac:(lia)) as Hl. rewrite <-Hl. unfold positions. destruct (Nat.leb_spec cp_size 1); [lia|].
        rewrite length_app, !length_seq. replace (n / (2 * cp_size) + n / (2 * cp_size)) with (n / (2 * cp_size) * 2) by lia. apply Nat.Div0.mod_mul. }
    rewrite (join_row_positions tp_size cp_size tp_pos cp_pos n Hdiv junk G H). cbn [mbind result_bind].
    rewrite (join_row_positions tp_size cp_size tp_pos cp_pos n Hdiv false _ H). cbn [mbind result_bind]. by rewrite Hsel.
Qed.

(** The rows of all ranks, put together. *)
Lemma postprocess_positions {A L B} (junk : B) (f : nat → A → L → B) (g : list A → nat → A) (h : list L → nat → L) (rows : list (list A)) (labels : list (list L)) n :
  Nat.divide (align_size tp_size cp_size) n → Forall (λ d, length d <= n) rows → length labels = length rows →
  postprocess_bshd_engine cp_size junk (length rows) (n / cp_size)
    ((λ r, zip_with (per_slot f (positions cp_size n r)) ((λ d, g d <$> positions cp_size n r) <$> rows) ((λ l, h l <$> positions cp_size n r) <$> labels)) <$> seq 0 cp_size)
    ((λ r, (λ d : list A, (λ p, Nat.ltb p (length d)) <$> positions cp_size n r) <$> rows) <$> seq 0 cp_size) =
  Ok (zip_with (λ d l, (λ p, f p (g d p) (h l p)) <$> seq 0 (length d)) rows labels).
Proof using tp_pos cp_pos.
  intros Hdiv Hfit Hlen. unfold postprocess_bshd_engine.
  match goal with |- context [forallb ?c ?l] => assert (Hshape : forallb c l = true) end.
  { apply forallb_forall. intros m Hm%list_elem_of_In. apply list_elem_of_fmap in Hm as (r & -> & Hr%elem_of_seq). rewrite length_fmap, Nat.eqb_refl. apply forallb_forall.
    intros row Hrow%list_elem_of_In. apply list_elem_of_fmap in Hrow as (d & -> & _). rewrite length_fmap, positions_length by (done || lia). apply Nat.eqb_refl. }
  rewrite Hshape. apply mapM_Ok_Forall2, Forall2_same_length_lookup_2; [rewrite length_seq, length_zip_with; lia|].
  intros i j o Hi Ho. apply lookup_seq in Hi as [-> Hi]. apply lookup_zip_with_Some in Ho as (d & l & -> & Hd & Hl). rewrite Nat.add_0_l, <-!list_fmap_compose.
  rewrite Forall_lookup in Hfit. rewrite <-(unpad_positions junk (λ p, f p (g d p) (h l p)) n (length d) Hdiv (Hfit i d Hd)). f_equal.
  - apply list_fmap_ext. intros ? r _. unfold compose. apply nth_lookup_Some. rewrite lookup_zip_with, !list_lookup_fmap, Hd, Hl. cbn [fmap option_fmap option_map mbind option_bind]. by rewrite per_slot_fmap.
  - apply list_fmap_ext. intros ? r _. unfold compose. apply nth_lookup_Some. by rewrite list_lookup_fmap, Hd.
Qed.
End engine.

(** C36: The padded layout of the Megatron engine pairs tokens with their successors too.  For
    any number of tensor- and context-parallel ranks, with FP8 padding or without it, every
    rank takes the two chunks of every padded row of a batch and the rolled chunks of its
    labels; what the ranks compute from position, token and label of each slot is put
    together by [postprocess_bshd_engine].  The sequences it returns have the lengths of the
    input, and entry [q] is the value at position [q], token [q] and label [q + 1]. *)
Theorem bshd_engine_pairs_labels {A L B} tp_size cp_size use_fp8_padding (zero : A) (zero_label : L) (junk : B) (f : nat → A → L → B)
    (input_ids : list (list A)) (labels : list (list L)) :
  0 < tp_size → 0 < cp_size → input_ids ≠ [] → length <$> labels = length <$> input_ids →
  ∃ ins rolled outputs,
    mapM (λ r, preprocess_bshd_engine tp_size cp_size use_fp8_padding zero r false input_ids) (seq 0 cp_size) = Ok ins ∧
    mapM (λ r, preprocess_bshd_engine tp_size cp_size use_fp8_padding zero_label r true labels) (seq 0 cp_size) = Ok rolled ∧
    postprocess_bshd_engine cp_size junk (length input_ids) (bshd_seqlen tp_size cp_size use_fp8_padding (length <$> input_ids) / cp_size)
      (zip_with (λ i l, zip_with (per_slot f i.2) i.1.1 l.1.1) ins rolled) ((λ i, i.1.2) <$> ins) = Ok outputs ∧
    length <$> outputs = length <$> input_ids ∧
    ∀ i q d l x y, input_ids !! i = Some d → labels !! i = Some l → d !! q = Some x → l !! S q = Some y →
      (outputs !! i ≫= λ o, o !! q) = Some (f q x y).
Proof.
  intros Htp Hcp Hne Hlens. set (n := bshd_seqlen tp_size cp_size use_fp8_padding (length <$> input_ids)).
  destruct (bshd_seqlen_spec tp_size cp_size use_fp8_padding Htp Hcp (length <$> input_ids)) as [Hfit Hdiv]. fold n in Hfit, Hdiv.
  assert (Hnel : labels ≠ []) by (intros ->; by destruct input_ids).
  eexists ((λ r, _) <$> seq 0 cp_size), ((λ r, _) <$> seq 0 cp_size), (zip_with (λ d l, (λ p, f p (nth p d zero) (nth ((p + 1) mod n) l zero_label)) <$> seq 0 (length d)) input_ids labels).
  split_and!.
  - apply mapM_Ok_map. intros r Hr%elem_of_seq. apply bshd_rank; [done..|lia].
  - apply mapM_Ok_map. intros r Hr%elem_of_seq. apply bshd_rank; [done..|lia].
  - rewrite Hlens. fold n. rewrite zip_with_fmap_l, zip_with_fmap_r, zip_with_diag, <-list_fmap_compose. unfold compose. cbn [fst snd].
    apply (postprocess_positions tp_size cp_size Htp Hcp junk f (λ d p, nth p d zero) (λ l p, nth ((p + 1) mod n) l zero_label)); [done|by rewrite Forall_fmap in Hfit|].
    pose proof (f_equal length Hlens) as E. by rewrite !length_fmap in E.
  - apply list_eq. intros i. rewrite !list_lookup_fmap, lookup_zip_with. pose proof (f_equal (.!! i) Hlens) as E. rewrite !list_lookup_fmap in E.
    destruct (input_ids !! i) as [d|], (labels !! i) as [l|]; try done. cbn [fmap option_fmap option_map mbind option_bind]. by rewrite length_fmap, length_seq.
  - intros i q d l x y Hd Hl Hx Hy. rewrite lookup_zip_with, Hd, Hl. cbn [fmap option_fmap option_map mbind option_bind]. pose proof (lookup_lt_Some _ _ _ Hx) as Hq.
    pose proof (lookup_lt_Some _ _ _ Hy) as Hq1. pose proof (f_equal (.!! i) Hlens) as E. rewrite !list_lookup_fmap, Hd, Hl in E. injection E as E.
    rewrite Forall_fmap, Forall_lookup in Hfit. pose proof (Hfit i d Hd) as Hn. unfold compose in Hn. rewrite list_lookup_fmap, lookup_seq_lt by done. cbn [fmap option_fmap option_map].
    by rewrite Nat.add_0_l, Nat.mod_small, Nat.add_1_r, (nth_lookup_Some _ _ _ _ Hx), (nth_lookup_Some _ _ _ _ Hy) by lia.
Qed.

(** ** Concrete batches *)

Definition two_rows : list (list nat) := [[10; 11; 12; 13; 14]; [20; 21; 22]].
Definition triple (p x y : nat) : nat * nat * nat := (p, x, y).

Lemma thd_engine_pairs_labels_witness : ∃ outputs,
  (∃ ins rolled cu_seqlens,
    mapM (λ r, preprocess_thd_engine 1 2 false 0 true 1 r false two_rows) (seq 0 2) = Ok ins ∧
    mapM (λ r, preprocess_thd_engine 1 2 false 0 true 1 r true two_rows) (seq 0 2) = Ok rolled ∧
    unpack_rows 2 (0, 0, 0) (zip_with (λ i l, per_slot triple i.1.2 i.1.1 l.1.1) ins rolled) cu_seqlens (length <$> two_rows) = Ok outputs) ∧
  (outputs !! 0 ≫= λ o, o !! 3) = Some (3, 13, 14).
Proof.
  destruct (thd_engine_pairs_labels 1 2 0 0 (0, 0, 0) triple two_rows two_rows) as (ins & rolled & cu & outputs & Hi & Hr & _ & Ho & _ & Hpair);
    [lia|lia|discriminate|repeat constructor|reflexivity|].
  exists outputs. split; [exists ins, rolled, cu; exact (conj Hi (conj Hr Ho))|]. apply (Hpair 0 3 [10; 11; 12; 13; 14] [10; 11; 12; 13; 14]); reflexivity.
Defined.

Lemma bshd_engine_pairs_labels_witness : ∃ outputs,
  (∃ ins rolled,
    mapM (λ r, preprocess_bshd_engine 1 2 false 0 r false two_rows) (seq 0 2) = Ok ins ∧
    mapM (λ r, preprocess_bshd_engine 1 2 false 0 r true two_rows) (seq 0 2) = Ok rolled ∧
    postprocess_bshd_engine 2 (0, 0, 0) 2 (bshd_seqlen 1 2 false (length <$> two_rows) / 2)
      (zip_with (λ i l, zip_with (per_slot triple i.2) i.1.1 l.1.1) ins rolled) ((λ i, i.1.2) <$> ins) = Ok outputs) ∧
  (outputs !! 1 ≫= λ o, o !! 1) = Some (1, 21, 22).
Proof.
  destruct (bshd_engine_pairs_labels 1 2 false 0 0 (0, 0, 0) triple two_rows two_rows) as (ins & rolled & outputs & Hi & Hr & Ho & _ & Hpair);
    [lia|lia|discriminate|reflexivity|].
  exists outputs. split; [exists ins, rolled; exact (conj Hi (conj Hr Ho))|]. apply (Hpair 1 1 [20; 21; 22] [20; 21; 22]); reflexivity.
Defined.

(** The five tokens fill eight places, the three tokens four; rank 1 has the middle chunks. *)
Example thd_rank_1 :
  preprocess_thd_engine 1 2 false 0 true 1 1 false two_rows = Ok ([12; 13; 14; 0; 21; 22], [2; 3; 4; 0; 1; 2], [0; 8; 12]) ∧
  preprocess_thd_engine 1 2 false 0 true 1 1 true two_rows = Ok ([13; 14; 10; 21; 22; 0], [3; 3; 0; 1; 1; 2], [0; 8; 12]).
Proof. split; vm_compute; reflexivity. Qed.
Example packed_rank_0 : pack_rows 1 2 false 0 0 two_rows = Ok [10; 11; 0; 0; 20; 0].
Proof. vm_compute. reflexivity. Qed.
Example bshd_rank_0 : preprocess_bshd_engine 1 2 false 0 0 true two_rows =
  Ok ([[11; 12; 0; 10]; [21; 22; 0; 20]], [[true; true; false; false]; [true; true; false; false]], [0; 1; 6; 7]).
Proof. vm_compute. reflexivity. Qed.

(** With FP8 padding the last sequence also fills up the total: 16 tokens become 512, and the
    first chunk of a rank, 128 places, is assigned the slice of a shorter sequence. *)
Example fp8_short_sequence : preprocess_thd_engine 1 2 true 0 true 1 0 false [replicate 16 7] =
  Raise (RuntimeError "The expanded size of the tensor must match the existing size").
Proof. vm_compute. reflexivity. Qed.
(** The packing with a mask only copies what is there. *)
Example fp8_short_sequence_packed : ∃ buffer, pack_rows 1 2 true 0 0 [replicate 16 7] = Ok buffer ∧ length buffer = 256.
Proof. eexists. split; vm_compute; reflexivity. Qed.
(** Sequences with a further dimension, the teacher's top-k tables, are extended only where
    their entries count less than the alignment, and then cannot be. *)
Example short_table : preprocess_thd_engine 2 2 false 0 false 3 0 false [[1; 2]] = Raise (RuntimeError "Tensors must have same number of dimensions") ∧
  preprocess_thd_engine 2 2 false 0 false 16 1 false [[1; 2]] = Raise (RuntimeError "The expanded size of the tensor must match the existing size").
Proof. split; vm_compute; reflexivity. Qed.
